(* ===== verification/_CoqProject ===== *)
-Q . S2P
Prelude.v
Udiv.v
Cspace.v
Port.v
Task.v
Ipc.v
VmMap.v
Heap.v
HeapArm.v
Pmm.v
StringLib.v
RcParse.v
Links.v
Vnode.v
Fd.v
Waitq.v
Pipe.v
Tty.v
VmObject.v
Chksum.v
Ip4Addr.v
Scheduler.v
SchedQueues.v
SchedSwitch.v
SchedOps.v
SchedMove.v
SchedTick.v
SchedProps.v
Vmm.v
VmmTree.v
VmmMap.v
VmmCow.v
VmmCopy.v
VmmFork.v
VmmDir.v
VmmInit.v
VmmUse.v
VmmPmm.v
VmmProps.v
