(* ===== verification/Prelude.v ===== *)
(** * Verification of the ARC kernel

    ARC is a kernel in C: a microkernel (src/mk) with capabilities, message
    ports, memory objects, a heap, page tables and a scheduler; a BSD layer
    (src/bsd) with processes, descriptors, pipes, terminals, a vnode cache and
    the lwIP network stack; and user programs (src/user).  This library is a
    shallow embedding of the parts listed below, with the theorems that make
    them correct.

    ** How the code is modelled

    Integers are [Z]; where the C type wraps the reduction is written out
    ([u8], [u32], [u64], ...).  A function that may go wrong returns in the
    monad [out] of this file: [Ret x], [UB] for undefined behaviour (a read
    outside an array, a freed or null object, signed overflow) and [Hang] for
    a loop that does not end.  [returns m Q] says that [m] is [Ret x] with
    [Q x], so every theorem of this form also states the absence of undefined
    behaviour and termination.  Objects in kernel memory are maps from
    addresses to records; arrays are lists read and written by [rd] and [wr].
    State is passed explicitly.  A critical section under a lock is one step;
    where code drops its lock and goes on, the stretches between are separate
    steps that other processors may interleave with.

    Loops that are not structural run on fuel and give [Hang] without it; the
    theorems prove it suffices.  The bounds are: the 64 bits of the operand
    (Udiv), one more than the number of objects for walks along linked
    structures ([walk_fuel], [wq_fuel], [switch_fuel], the chains of Task), the
    length of what is left of the input (RcParse, StringLib), the number of
    pages of the range or of bytes to copy, as each turn takes at least one
    (Vmm), the width of a halving interval (VmMap), and 64 doublings of a
    capacity ([grow_fuel] of VmObject, whose failure is a finding).

    ** Interfaces between the parts

    Clients are proved against classes, which the implementations discharge.
    - [KMem] with [KMemLaws] (this file): kmalloc and kfree.  Used by Cspace,
      Port, Task, Ipc, VmMap, VmObject, Vnode and Fd; Heap.v proves
      [heap_implements_kmem].
    - [Sched] with [SchedLaws] (this file): waking and parking a thread.  Used
      by Port, Ipc, Waitq, Pipe and Tty; SchedOps.v gives the instance, and SchedProps.v
      states it as [scheduler_implements_sched].
    - [Pages] with [PagesLaws] (Vmm.v): the page allocator under the page
      tables; VmmPmm.v proves [pmm_implements_pages].  [plow] says that the
      free pages lie in the first 64 MB.
    - [VRefs] (Fd.v): references to vnodes; implemented by the cache of
      Vnode.v ([vcache_refs]).
    - [PageOps] (Heap.v): what the heap asks of the page tables; nothing is
      assumed of it.

    ** Files

    Microkernel:
    - Udiv.v: mk/lib/udivdi3.c.  Division terminates and is Euclidean.
    - StringLib.v: mk/lib/string.c.  Memory and string functions agree with
      list functions, overlap included; numbers round trip.
    - Cspace.v: mk/vm/cspace.c.  The slot table keeps its invariant;
      allocation, release, lookup and transfer do exactly what they say.
    - Port.v: mk/vm/port.c, single ports.  The message ring refines a FIFO
      queue; reference counts keep a port alive as long as it is used.
    - Task.v: mk/vm/task.c.  The chained hash table refines a finite map.
    - Ipc.v: the system calls of port.c and task.c that cross ports and
      tasks.  They keep the joint invariant and are free of undefined
      behaviour.
    - VmMap.v: mk/vm/vm_map.c.  Mapping, unmapping, protection and fault
      resolution on the sorted entry array.
    - VmObject.v: mk/vm/vm_object.c.  Reference counts and the fault functions
      of the five kinds of object.
    - Heap.v, HeapArm.v: mk/vm/heap.c, for x86 and for arm64.
    - Pmm.v: mk/vm/pmm.c.  The bitmap made at boot, allocation and release.
    - Scheduler.v: mk/arch/amd64/thread/scheduler.c, the definitions.
      SchedQueues.v: the rings and bitmaps of a priority array refine FIFO
      queues.  SchedSwitch.v: dispatching.  SchedOps.v: wake, block and park.
      SchedMove.v: placement, migration and balancing.  SchedTick.v: timed
      sleep, the tick and the whole switch.  SchedProps.v: sequences of
      operations and the properties.
    - Vmm.v: mk/arch/amd64/vm/vmm.c, mk/vm/fault.c and the fork of an address
      space in bsd/proc/fork.c, the definitions.  VmmTree.v: page tables as a
      tree.  VmmMap.v: mapping and queries.  VmmCow.v: user memory, the
      invariant [wf] and copy on write.  VmmCopy.v: user copies.  VmmFork.v:
      the loops of fork.  VmmDir.v, VmmInit.v: new address spaces and the
      first one.  VmmUse.v: pages of data.  VmmPmm.v: the allocator.
      VmmProps.v: the properties.  A fork gives the child the parent's memory
      and what the child writes stays its own; mapping changes one page of one
      address space; user copies move exactly the bytes they report.

    BSD layer and user programs:
    - Vnode.v: bsd/vfs/vnode.c.  Hash chains and LRU list refine an abstract
      cache; Links.v has the linked lists and rings in memory.
    - Fd.v: the descriptor tables of bsd/proc/proc.c and their users.
    - Waitq.v: the wait queues of bsd/proc/proc.c refine lists of processes.
    - Pipe.v: bsd/uipc/pipe.c, any number of processes in any order: what is
      read is what was written, in order.
    - Tty.v: bsd/tty/tty.c.
    - Chksum.v, Ip4Addr.v: lwIP's core/inet_chksum.c and core/ipv4/ip4_addr.c.
    - RcParse.v: user/rc/rcparse.c.  Parsing ends on every input and reads back
      what is printed.

    ** Limits

    Not modelled: boot code, interrupt controllers and other hardware access,
    assembly, ACPI and the device tree (I/O); the arm64 and i386 variants of
    scheduler and page tables; process life cycle, ELF loading, signals and the
    dispatch of system calls, which rewrite the state of the machine layer;
    external pagers, I/O channels, futexes, partitions, file systems, block
    devices, sockets and the lwIP protocols; tests and build tools.  The
    translation caches of the processor and the order of memory accesses
    between processors are not modelled: memory is sequentially consistent.
    Vmm.v is the view of one processor; writes of the kernel to user memory
    are proved for one with CR0.WP set, as the boot processor, and
    [write_through_cow] shows what the others do.  The kernel writes page
    tables (Vmm.v) and the copies of shadow objects (VmObject.v) at their
    physical address and maps the first 64 MB ([IDENTITY_END]); beyond is
    undefined behaviour, so these theorems assume that the allocator hands out
    pages below.  That user mappings below 64 MB would hide the kernel's is not
    modelled (programs are linked at 128 MB).  The mapping theorems exclude the
    gigabytes that a process shares with the kernel ([mirrored]), where the
    code edits shared tables, and those of fork a parent with user pages in a
    gigabyte where the kernel has mappings ([apart]); [vmm_free_directory] and
    [vmm_clear_user_pages] are defined there without theorems. *)

From stdpp Require Import base numbers list gmap sets.
From Stdlib Require Import ZArith Lia.

#[local] Open Scope Z_scope.

(** ** Machine integers *)

(** C's unsigned types: reduction modulo 2^w. *)
Definition u8 (x : Z) : Z := x mod 2 ^ 8.
Definition u32 (x : Z) : Z := x mod 2 ^ 32.
Definition u64 (x : Z) : Z := x mod 2 ^ 64.

(** C's signed types under the two's complement conversion gcc defines. *)
Definition swrap (w : Z) (x : Z) : Z := (x + 2 ^ (w - 1)) mod 2 ^ w - 2 ^ (w - 1).
Definition s32 (x : Z) : Z := swrap 32 x.
Definition s64 (x : Z) : Z := swrap 64 x.

Definition in_u8 (x : Z) : Prop := 0 <= x < 2 ^ 8.
Definition in_u32 (x : Z) : Prop := 0 <= x < 2 ^ 32.
Definition in_u64 (x : Z) : Prop := 0 <= x < 2 ^ 64.

(** The kernel reaches physical memory at its own address up to here
    ([IDENTITY_MAP_SIZE] of mk/arch/amd64/vm/vmm.c). *)
Definition IDENTITY_END : Z := 0x4000000.

Lemma u32_small x : in_u32 x -> u32 x = x.
Proof. intros; by apply Z.mod_small. Qed.

Lemma u64_small x : in_u64 x -> u64 x = x.
Proof. intros; by apply Z.mod_small. Qed.

Lemma u8_range x : in_u8 (u8 x).
Proof. apply Z.mod_pos_bound; lia. Qed.

Lemma u32_range x : in_u32 (u32 x).
Proof. apply Z.mod_pos_bound; lia. Qed.

Lemma u64_range x : in_u64 (u64 x).
Proof. apply Z.mod_pos_bound; lia. Qed.

Lemma swrap_small w x : 0 < w -> - 2 ^ (w - 1) <= x < 2 ^ (w - 1) -> swrap w x = x.
Proof.
  intros Hw Hx. unfold swrap. rewrite Z.mod_small; [lia|].
  replace (2 ^ w) with (2 * 2 ^ (w - 1)); [lia|].
  rewrite <- Z.pow_succ_r by lia. f_equal; lia.
Qed.

Lemma s32_small x : - 2 ^ 31 <= x < 2 ^ 31 -> s32 x = x.
Proof. intros. by apply swrap_small. Qed.

Lemma s64_small x : - 2 ^ 63 <= x < 2 ^ 63 -> s64 x = x.
Proof. intros. by apply swrap_small. Qed.

(** Rounding down to a multiple of 2^k, with the mask the code writes: a
    [w]-bit constant, or the complement of the low ones. *)
Lemma land_lnot_ones k x : 0 <= k -> Z.land x (Z.lnot (2 ^ k - 1)) = 2 ^ k * (x / 2 ^ k).
Proof.
  intros Hk. replace (2 ^ k - 1) with (Z.ones k) by (rewrite Z.ones_equiv; lia).
  rewrite <- Z.ldiff_land, Z.ldiff_ones_r, Z.shiftl_mul_pow2, Z.shiftr_div_pow2 by lia. lia.
Qed.

Lemma land_mask w k x :
  0 <= k <= w -> 0 <= x < 2 ^ w -> Z.land x (2 ^ w - 2 ^ k) = 2 ^ k * (x / 2 ^ k).
Proof.
  intros Hk Hx. rewrite <- land_lnot_ones by lia.
  assert (2 ^ w - 2 ^ k = Z.land (Z.ones w) (Z.lnot (2 ^ k - 1))) as ->.
  { rewrite land_lnot_ones, Z.ones_div_pow2, Z.ones_equiv by lia.
    rewrite <- Z.sub_1_r, Z.mul_sub_distr_l, <- Z.pow_add_r, Z.mul_1_r by lia. do 2 f_equal. lia. }
  rewrite Z.land_assoc, Z.land_ones, Z.mod_small by lia. done.
Qed.

(** A word put together from a high and a low part. *)
Lemma lor_add k x y : 0 <= k -> 0 <= y < 2 ^ k -> Z.lor (x * 2 ^ k) y = x * 2 ^ k + y.
Proof.
  intros Hk Hy.
  assert (Z.land (x * 2 ^ k) y = 0) as Hl.
  { apply Z.bits_inj'. intros n Hn. rewrite Z.land_spec, Z.bits_0, <- Z.shiftl_mul_pow2, Z.shiftl_spec by lia.
    destruct (Z.lt_ge_cases n k) as [Hlt|Hge]; [by rewrite Z.testbit_neg_r by lia|]. apply andb_false_intro2.
    rewrite <- (Z.mod_small y (2 ^ k)) by done. apply Z.mod_pow2_bits_high. lia. }
  rewrite <- Z.lxor_lor by done. symmetry. by apply Z.add_nocarry_lxor.
Qed.

(** ** Outcomes of a C computation

    [Ret a]: the code returns [a].  [UB]: it touches memory it must not
    touch (outside an array, through NULL, freed memory).  [Hang]: it
    never returns (it spins on a lock it already holds). *)
Inductive out (A : Type) : Type :=
| Ret (a : A)
| UB
| Hang.
Arguments Ret {A} a.
Arguments UB {A}.
Arguments Hang {A}.

#[export] Instance out_ret : MRet out := fun _ a => Ret a.
#[export] Instance out_bind : MBind out := fun _ _ f m =>
  match m with Ret a => f a | UB => UB | Hang => Hang end.

(** A read that is undefined behaviour when it fails. *)
Definition deref {A} (o : option A) : out A :=
  match o with Some a => Ret a | None => UB end.

(** [m] returns, and what it returns satisfies [Q]: total correctness. *)
Definition returns {A} (m : out A) (Q : A -> Prop) : Prop :=
  match m with Ret a => Q a | _ => False end.

Lemma returns_ret {A} (a : A) (Q : A -> Prop) : Q a -> returns (Ret a) Q.
Proof. done. Qed.

Lemma returns_bind {A B} (m : out A) (f : A -> out B) (P : A -> Prop) (Q : B -> Prop) :
  returns m P -> (forall a, P a -> returns (f a) Q) -> returns (m ≫= f) Q.
Proof. destruct m; simpl; naive_solver. Qed.

Lemma returns_mono {A} (m : out A) (P Q : A -> Prop) :
  returns m P -> (forall a, P a -> Q a) -> returns m Q.
Proof. destruct m; simpl; naive_solver. Qed.

Lemma returns_inv {A} (m : out A) (Q : A -> Prop) :
  returns m Q -> exists a, m = Ret a /\ Q a.
Proof. destruct m; simpl; naive_solver. Qed.

(** ** Automation

    [zcmp] decides the comparisons of the goal that arithmetic decides;
    [ret] runs a computation whose head has become a value. *)
Ltac zcmp :=
  repeat match goal with
    | |- context [?a <? ?b] =>
        first [rewrite (proj2 (Z.ltb_lt a b)) by lia | rewrite (proj2 (Z.ltb_ge a b)) by lia]
    | |- context [?a <=? ?b] =>
        first [rewrite (proj2 (Z.leb_le a b)) by lia | rewrite (proj2 (Z.leb_gt a b)) by lia]
    | |- context [?a =? ?b] =>
        first [rewrite (proj2 (Z.eqb_eq a b)) by lia | rewrite (proj2 (Z.eqb_neq a b)) by lia]
    end; cbn [negb andb orb].

Ltac ret := cbn [deref mbind out_bind returns].

Create HintDb arc discriminated.
#[export] Hint Resolve u8_range u32_range u64_range : arc.
#[export] Hint Resolve returns_ret returns_bind returns_mono : arc.

(** ** Counting loops

    [for_range a b f s] runs [for (i = a; i < b; i++) s = f(i, s)], and
    [fold_out f l s] runs [f] on the elements of a list in order. *)
Section loops.
Context {St : Type}.

Fixpoint for_loop (n : nat) (i : Z) (f : Z -> St -> out St) (s : St) : out St :=
  match n with
  | O => Ret s
  | S n => s ← f i s; for_loop n (i + 1) f s
  end.

Definition for_range (a b : Z) (f : Z -> St -> out St) (s : St) : out St :=
  for_loop (Z.to_nat (b - a)) a f s.

Fixpoint fold_out {A} (f : A -> St -> out St) (l : list A) (s : St) : out St :=
  match l with
  | [] => Ret s
  | x :: l => s ← f x s; fold_out f l s
  end.

Lemma for_range_inv (I : Z -> St -> Prop) a b f s :
  I a s ->
  (forall i s, a <= i < b -> I i s -> returns (f i s) (I (i + 1))) ->
  returns (for_range a b f s) (I (Z.max a b)).
Proof.
  intros Hs Hf. unfold for_range.
  assert (forall n i s, i + Z.of_nat n = Z.max a b -> a <= i -> I i s ->
    returns (for_loop n i f s) (I (Z.max a b))) as Hgen; [|apply Hgen; [lia|lia|done]].
  induction n as [|n IH]; intros i s' Hn Hi HI; simpl.
  - by replace (Z.max a b) with i by lia.
  - eapply returns_bind; [apply Hf; [lia|done]|]. intros s'' HI'. apply IH; [lia|lia|done].
Qed.

Lemma fold_out_inv {A} (I : list A -> St -> Prop) (f : A -> St -> out St) l s :
  I [] s ->
  (forall l1 x l2 s, l = l1 ++ x :: l2 -> I l1 s -> returns (f x s) (I (l1 ++ [x]))) ->
  returns (fold_out f l s) (I l).
Proof.
  intros Hs Hf.
  assert (forall l2 l1 s, l = l1 ++ l2 -> I l1 s -> returns (fold_out f l2 s) (I l)) as Hgen;
    [|by apply (Hgen l [])].
  induction l2 as [|x l2 IH]; intros l1 s' Heq HI; simpl.
  - by rewrite Heq, app_nil_r.
  - eapply returns_bind; [by eapply Hf|]. intros s'' HI'.
    apply (IH (l1 ++ [x])); [by rewrite <- app_assoc|done].
Qed.
End loops.

(** ** Arrays indexed by C integers *)

Section arrays.
Context {A : Type}.
Implicit Types (l : list A) (i : Z).

Definition getz l i : option A := if 0 <=? i then l !! Z.to_nat i else None.

Definition rd l i : out A := deref (getz l i).

Definition wr l i (x : A) : out (list A) :=
  if (0 <=? i) && (i <? Z.of_nat (length l)) then Ret (<[Z.to_nat i := x]> l) else UB.

Lemma getz_lt l i : 0 <= i < Z.of_nat (length l) -> exists x, getz l i = Some x.
Proof.
  intros Hi. unfold getz. rewrite (proj2 (Z.leb_le _ _)) by lia.
  apply lookup_lt_is_Some_2. lia.
Qed.

Lemma getz_Some l i x :
  getz l i = Some x <-> 0 <= i /\ l !! Z.to_nat i = Some x.
Proof. unfold getz. destruct (Z.leb_spec 0 i); naive_solver lia. Qed.

Lemma getz_Some_lt l i x : getz l i = Some x -> 0 <= i < Z.of_nat (length l).
Proof. rewrite getz_Some. intros [? ?%lookup_lt_Some]. lia. Qed.

Lemma getz_of_nat l (n : nat) : getz l (Z.of_nat n) = l !! n.
Proof. unfold getz. rewrite (proj2 (Z.leb_le _ _)), Nat2Z.id by lia. done. Qed.

Lemma rd_getz l i x : getz l i = Some x -> rd l i = Ret x.
Proof. unfold rd. by intros ->. Qed.

Lemma wr_ok l i x :
  0 <= i < Z.of_nat (length l) -> wr l i x = Ret (<[Z.to_nat i := x]> l).
Proof.
  intros Hi. unfold wr. rewrite (proj2 (Z.leb_le _ _)), (proj2 (Z.ltb_lt _ _)) by lia.
  done.
Qed.

Lemma getz_insert_eq l i x :
  0 <= i < Z.of_nat (length l) -> getz (<[Z.to_nat i := x]> l) i = Some x.
Proof. intros. apply getz_Some. split; [lia|]. apply list_lookup_insert_eq. lia. Qed.

Lemma getz_insert_ne l i j x :
  0 <= i -> i <> j -> getz (<[Z.to_nat i := x]> l) j = getz l j.
Proof.
  intros. unfold getz. destruct (Z.leb_spec 0 j); [|done].
  rewrite list_lookup_insert_ne; [done|lia].
Qed.

Lemma getz_app_l l1 l2 i : 0 <= i < Z.of_nat (length l1) -> getz (l1 ++ l2) i = getz l1 i.
Proof. intros. unfold getz. destruct (Z.leb_spec 0 i); [|done]. apply lookup_app_l. lia. Qed.

Lemma getz_app_r l1 l2 i : Z.of_nat (length l1) <= i -> getz (l1 ++ l2) i = getz l2 (i - Z.of_nat (length l1)).
Proof.
  intros. unfold getz. rewrite !(proj2 (Z.leb_le _ _)) by lia.
  rewrite lookup_app_r by lia. f_equal. lia.
Qed.
End arrays.

(** ** Bitmaps: bit [i] of an array of [W]-bit words *)

Section bitmaps.
Context (W : Z) (HW : 0 < W).
Implicit Types (bm : list Z) (i j : Z).

Definition in_word (w : Z) : Prop := 0 <= w < 2 ^ W.

Lemma in_word_high w i : in_word w -> W <= i -> Z.testbit w i = false.
Proof.
  intros Hw Hi. rewrite <- (Z.mod_small w (2 ^ W)) by done.
  apply Z.mod_pow2_bits_high. lia.
Qed.

Definition bm_bit bm i : bool :=
  match getz bm (i / W) with Some w => Z.testbit w (i mod W) | None => false end.

Definition bm_size bm : Z := W * Z.of_nat (length bm).

(** [bm[i / W] |= 1 << (i % W)] and [bm[i / W] &= ~(1 << (i % W))]. *)
Definition bm_set bm i : out (list Z) :=
  w ← rd bm (i / W); wr bm (i / W) (Z.lor w (Z.shiftl 1 (i mod W))).
Definition bm_clear bm i : out (list Z) :=
  w ← rd bm (i / W); wr bm (i / W) (Z.land w (Z.lnot (Z.shiftl 1 (i mod W)))).

Lemma testbit_set w k n :
  0 <= k -> 0 <= n -> Z.testbit (Z.lor w (Z.shiftl 1 k)) n = (n =? k) || Z.testbit w n.
Proof.
  intros. rewrite Z.lor_spec, Z.shiftl_1_l, Z.pow2_bits_eqb by lia.
  rewrite (Z.eqb_sym k n). apply orb_comm.
Qed.

Lemma testbit_clear w k n :
  0 <= k -> 0 <= n ->
  Z.testbit (Z.land w (Z.lnot (Z.shiftl 1 k))) n = negb (n =? k) && Z.testbit w n.
Proof.
  intros. rewrite Z.land_spec, Z.lnot_spec, Z.shiftl_1_l, Z.pow2_bits_eqb by lia.
  rewrite (Z.eqb_sym k n). apply andb_comm.
Qed.

Lemma in_word_set w k : in_word w -> 0 <= k < W -> in_word (Z.lor w (Z.shiftl 1 k)).
Proof.
  unfold in_word. intros Hw Hk. rewrite Z.shiftl_1_l.
  assert (0 < 2 ^ k) by lia.
  assert (2 ^ k < 2 ^ W) by (apply Z.pow_lt_mono_r; lia).
  split; [apply Z.lor_nonneg; lia|].
  destruct (Z.eq_dec (Z.lor w (2 ^ k)) 0) as [->|Hz]; [lia|].
  apply Z.log2_lt_pow2; [apply Z.le_neq; split; [apply Z.lor_nonneg; lia|done]|].
  rewrite Z.log2_lor by lia. apply Z.max_lub_lt.
  - destruct (Z.eq_dec w 0) as [->|]; [done|]. apply Z.log2_lt_pow2; lia.
  - rewrite Z.log2_pow2; lia.
Qed.

Lemma in_word_clear w m : in_word w -> in_word (Z.land w m).
Proof.
  unfold in_word. intros Hw. split; [apply Z.land_nonneg; lia|].
  destruct (Z.eq_dec (Z.land w m) 0) as [->|Hz]; [lia|].
  assert (0 <= Z.land w m) by (apply Z.land_nonneg; lia).
  destruct (Z.lt_ge_cases (Z.land w m) (2 ^ W)) as [|Hge]; [done|].
  exfalso. pose proof (Z.log2_le_pow2 (Z.land w m) W ltac:(lia)) as Hlog.
  apply proj1 in Hlog. specialize (Hlog Hge).
  pose proof (Z.bit_log2 (Z.land w m) ltac:(lia)) as Hb.
  rewrite Z.land_spec in Hb. apply andb_prop in Hb as [Hb _].
  rewrite (Z.bits_above_log2 w) in Hb; [done|lia|].
  destruct (Z.eq_dec w 0) as [->|]; [change (Z.log2 0) with 0 in *; lia|].
  apply Z.lt_le_trans with W; [|done]. apply Z.log2_lt_pow2; lia.
Qed.

Lemma index_split i : 0 <= i -> 0 <= i / W /\ 0 <= i mod W < W.
Proof. intros. split; [apply Z.div_pos; lia | apply Z.mod_pos_bound; lia]. Qed.

Lemma index_inj i j : i / W = j / W -> i mod W = j mod W -> i = j.
Proof.
  intros Hd Hm. pose proof (Z.div_mod i W ltac:(lia)) as Hi.
  pose proof (Z.div_mod j W ltac:(lia)) as Hj. rewrite Hd, Hm in Hi. lia.
Qed.

(** Replacing one word by a word that differs in one bit changes that bit
    of the bitmap only. *)
Lemma bm_bit_update bm i w' j (b : bool) :
  0 <= i < bm_size bm -> 0 <= j ->
  (forall w k, getz bm (i / W) = Some w -> 0 <= k ->
     Z.testbit w' k = if k =? i mod W then b else Z.testbit w k) ->
  bm_bit (<[Z.to_nat (i / W) := w']> bm) j = if j =? i then b else bm_bit bm j.
Proof.
  unfold bm_size. intros Hi Hj Hw'. destruct (index_split i) as [Hq Hr]; [lia|].
  destruct (index_split j) as [Hqj Hrj]; [lia|].
  assert (i / W < Z.of_nat (length bm)) by (apply Z.div_lt_upper_bound; lia).
  destruct (getz_lt bm (i / W)) as [w Hw]; [lia|].
  unfold bm_bit. destruct (Z.eq_dec (j / W) (i / W)) as [He|Hne].
  - rewrite He, getz_insert_eq, Hw, (Hw' w _ Hw) by lia.
    destruct (Z.eqb_spec (j mod W) (i mod W)), (Z.eqb_spec j i); try done; subst; [|done].
    by destruct n; apply index_inj.
  - rewrite getz_insert_ne by lia. destruct (Z.eqb_spec j i); [by subst|done].
Qed.

Lemma bm_word_lt bm i : 0 <= i < bm_size bm -> 0 <= i / W < Z.of_nat (length bm).
Proof.
  unfold bm_size. intros. split; [apply Z.div_pos; lia|apply Z.div_lt_upper_bound; lia].
Qed.

(** What a bitmap update promises: same shape, one bit changed. *)
Definition bm_upd bm i (b : bool) bm' : Prop :=
  length bm' = length bm /\
  (Forall in_word bm -> Forall in_word bm') /\
  (forall j, 0 <= j -> bm_bit bm' j = if j =? i then b else bm_bit bm j).

Lemma bm_set_spec bm i :
  0 <= i < bm_size bm -> returns (bm_set bm i) (bm_upd bm i true).
Proof.
  intros Hi. destruct (getz_lt bm _ (bm_word_lt bm i Hi)) as [w Hw].
  destruct (index_split i) as [_ Hr]; [lia|].
  unfold bm_set. rewrite (rd_getz _ _ _ Hw). cbn [mbind out_bind].
  rewrite wr_ok by (by apply bm_word_lt). cbn [returns].
  split; [apply length_insert|]. split.
  - intros HF. apply Forall_insert; [done|]. apply in_word_set; [|done].
    apply getz_Some in Hw as [_ Hw]. by eapply Forall_lookup_1 in Hw.
  - intros j Hj. apply bm_bit_update; [done..|]. intros w0 k Hw0 Hk. simplify_eq.
    rewrite testbit_set by lia. by destruct (k =? i mod W).
Qed.

Lemma bm_clear_spec bm i :
  0 <= i < bm_size bm -> returns (bm_clear bm i) (bm_upd bm i false).
Proof.
  intros Hi. destruct (getz_lt bm _ (bm_word_lt bm i Hi)) as [w Hw].
  destruct (index_split i) as [_ Hr]; [lia|].
  unfold bm_clear. rewrite (rd_getz _ _ _ Hw). cbn [mbind out_bind].
  rewrite wr_ok by (by apply bm_word_lt). cbn [returns].
  split; [apply length_insert|]. split.
  - intros HF. apply Forall_insert; [done|]. apply in_word_clear.
    apply getz_Some in Hw as [_ Hw]. by eapply Forall_lookup_1 in Hw.
  - intros j Hj. apply bm_bit_update; [done..|]. intros w0 k Hw0 Hk. simplify_eq.
    rewrite testbit_clear by lia. by destruct (k =? i mod W).
Qed.

Lemma bm_bit_ge bm i : bm_size bm <= i -> bm_bit bm i = false.
Proof.
  unfold bm_size, bm_bit. intros Hi. destruct (getz bm (i / W)) eqn:E; [|done].
  apply getz_Some_lt in E. apply Z.div_le_lower_bound in Hi; lia.
Qed.
End bitmaps.

(** ** Sums over lists and maps *)

Definition sumz {A} (f : A -> Z) (l : list A) : Z := foldr (fun x n => f x + n) 0 l.

Lemma sumz_ext {A} (f g : A -> Z) l : (forall x, x ∈ l -> g x = f x) -> sumz g l = sumz f l.
Proof.
  induction l as [|x l IH]; intros Hx; [done|]. simpl. rewrite Hx by left. f_equal. apply IH.
  intros y Hy. apply Hx. by right.
Qed.

Lemma sumz_nonneg {A} (f : A -> Z) l : (forall x, x ∈ l -> 0 <= f x) -> 0 <= sumz f l.
Proof.
  induction l as [|x l IH]; intros Hx; simpl; [lia|].
  pose proof (Hx x ltac:(left)). assert (0 <= sumz f l) by (apply IH; intros y Hy; apply Hx; by right). lia.
Qed.

Lemma sumz_upd {A} (f g : A -> Z) (l : list A) (i : A) : NoDup l -> i ∈ l -> (forall x, x ∈ l -> x <> i -> g x = f x) ->
  sumz g l = sumz f l - f i + g i.
Proof.
  induction 1 as [|x l Hx Hnd IH]; intros Hi Hg; [by apply elem_of_nil in Hi|]. simpl.
  apply elem_of_cons in Hi as [->|Hi].
  - rewrite (sumz_ext f g l); [lia|]. intros y Hy. apply Hg; [by right|]. by intros ->.
  - rewrite IH; [|done|intros y Hy; apply Hg; by right]. rewrite (Hg x); [lia|left|]. by intros ->.
Qed.

Lemma sumz_perm {A} (f : A -> Z) l l' : l ≡ₚ l' -> sumz f l = sumz f l'.
Proof. induction 1; simpl; lia. Qed.

(** Over the values of a map. *)
Definition msum {A} (f : A -> Z) (m : gmap Z A) : Z := sumz f (map_to_list m).*2.

Lemma msum_new {A} (f : A -> Z) m k x : m !! k = None -> msum f (<[k := x]> m) = f x + msum f m.
Proof. intros Hk. unfold msum. by rewrite (sumz_perm f _ _ (fmap_Permutation snd _ _ (map_to_list_insert m k x Hk))). Qed.

Lemma msum_delete {A} (f : A -> Z) m k x : m !! k = Some x -> msum f (delete k m) = msum f m - f x.
Proof.
  intros Hk. rewrite <- (insert_delete_id m k x Hk) at 2. rewrite msum_new by apply lookup_delete_eq. lia.
Qed.

Lemma msum_upd {A} (f : A -> Z) m k x y : m !! k = Some x -> msum f (<[k := y]> m) = msum f m - f x + f y.
Proof.
  intros Hk. rewrite <- insert_delete_eq, msum_new by apply lookup_delete_eq. rewrite (msum_delete f m k x Hk). lia.
Qed.

Lemma msum_nonneg {A} (f : A -> Z) m : (forall x, 0 <= f x) -> 0 <= msum f m.
Proof. intros Hf. apply sumz_nonneg. intros x _. apply Hf. Qed.

Lemma msum_ge {A} (f : A -> Z) m k x : (forall x, 0 <= f x) -> m !! k = Some x -> f x <= msum f m.
Proof. intros Hf Hk. pose proof (msum_nonneg f (delete k m) Hf). rewrite (msum_delete f m k x Hk) in *. lia. Qed.

(** ** The kernel allocator, as its clients see it

    [kmalloc n h] returns the new block ([None] for NULL) and the heap
    after the call; [klive] is the set of addresses handed out and not yet
    freed.  Heap.v models mk/vm/heap.c itself; the clients of the allocator
    (capability spaces, ports, address maps) are proved against this
    interface. *)
Class KMem (H : Type) := {
  kmalloc : Z -> H -> option Z * H;
  kfree : Z -> H -> H;
  kwf : H -> Prop;
  klive : H -> gset Z;
}.

Class KMemLaws (H : Type) `{!KMem H} : Prop := {
  kmalloc_some h n p h' :
    kwf h -> kmalloc n h = (Some p, h') ->
    kwf h' /\ (p ∉ klive h) /\ p <> 0 /\ klive h' = {[p]} ∪ klive h;
  kmalloc_none h n h' :
    kwf h -> kmalloc n h = (None, h') -> kwf h' /\ klive h' = klive h;
  kfree_live h p :
    kwf h -> p ∈ klive h -> kwf (kfree p h) /\ klive (kfree p h) = klive h ∖ {[p]};
  kfree_null h : kfree 0 h = h;
}.

(** Replacing two blocks by two new ones, the way growing tables do: allocate
    both, then free the old ones. *)
Lemma kmalloc_swap {H} `{!KMem H, !KMemLaws H} (h h1 h2 : H) n m p q a b :
  kwf h -> p ∈ klive h -> q ∈ klive h -> p <> q ->
  kmalloc n h = (Some a, h1) -> kmalloc m h1 = (Some b, h2) ->
  let h' := kfree q (kfree p h2) in
  kwf h' /\ a <> 0 /\ b <> 0 /\ a <> b /\ (a ∉ klive h) /\ (b ∉ klive h) /\
  klive h' = {[a; b]} ∪ klive h ∖ {[p; q]}.
Proof.
  intros Hwf Hp Hq Hne E1 E2.
  destruct (kmalloc_some _ _ _ _ Hwf E1) as (Hwf1 & Hf1 & Hz1 & Hl1).
  destruct (kmalloc_some _ _ _ _ Hwf1 E2) as (Hwf2 & Hf2 & Hz2 & Hl2).
  destruct (kfree_live h2 p Hwf2) as [Hwf3 Hl3]; [set_solver|].
  destruct (kfree_live _ q Hwf3) as [Hwf4 Hl4]; [set_solver|].
  repeat (split; [done || set_solver|]).
  rewrite Hl4, Hl3, Hl2, Hl1. apply set_eq. intros x.
  destruct (decide (x = a)), (decide (x = b)); set_solver.
Qed.

(** Giving back the first block when the second allocation fails. *)
Lemma kmalloc_undo {H} `{!KMem H, !KMemLaws H} (h h1 h2 : H) n m a :
  kwf h -> kmalloc n h = (Some a, h1) -> kmalloc m h1 = (None, h2) ->
  kwf (kfree a h2) /\ klive (kfree a h2) = klive h.
Proof.
  intros Hwf E1 E2.
  destruct (kmalloc_some _ _ _ _ Hwf E1) as (Hwf1 & Hf1 & _ & Hl1).
  destruct (kmalloc_none _ _ _ Hwf1 E2) as [Hwf2 Hl2].
  destruct (kfree_live h2 a Hwf2) as [Hwf3 Hl3]; [set_solver|].
  split; [done|]. rewrite Hl3, Hl2, Hl1. set_solver.
Qed.

(** Three allocations in a row, and giving all three back. *)
Lemma kmalloc_three {H} `{!KMem H, !KMemLaws H} (h h1 h2 h3 : H) k m n a b c :
  kwf h -> kmalloc k h = (Some a, h1) -> kmalloc m h1 = (Some b, h2) ->
  kmalloc n h2 = (Some c, h3) ->
  kwf h3 /\ a <> 0 /\ a <> b /\ a <> c /\ b <> c /\ {[a; b; c]} ## klive h /\
  klive h3 = {[a; b; c]} ∪ klive h /\
  kwf (kfree a (kfree b (kfree c h3))) /\ klive (kfree a (kfree b (kfree c h3))) = klive h.
Proof.
  intros Hwf E1 E2 E3.
  destruct (kmalloc_some _ _ _ _ Hwf E1) as (Hw1 & Hf1 & Hz1 & Hl1).
  destruct (kmalloc_some _ _ _ _ Hw1 E2) as (Hw2 & Hf2 & Hz2 & Hl2).
  destruct (kmalloc_some _ _ _ _ Hw2 E3) as (Hw3 & Hf3 & Hz3 & Hl3).
  rewrite Hl2, Hl1 in Hf3. rewrite Hl1 in Hf2. rewrite Hl2, Hl1 in Hl3.
  assert (a <> b /\ a <> c /\ b <> c) as (? & ? & ?) by (clear -Hf2 Hf3; set_solver).
  destruct (kfree_live h3 c Hw3) as [Hw4 Hl4]; [rewrite Hl3; clear; set_solver|].
  rewrite Hl3 in Hl4.
  destruct (kfree_live _ b Hw4) as [Hw5 Hl5]; [rewrite Hl4; clear -H2; set_solver|].
  rewrite Hl4 in Hl5.
  destruct (kfree_live _ a Hw5) as [Hw6 Hl6]; [rewrite Hl5; clear -H0 H1; set_solver|].
  rewrite Hl5 in Hl6. repeat (split; [done|]).
  split; [clear -Hf1 Hf2 Hf3; set_solver|]. split; [rewrite Hl3; clear; set_solver|].
  split; [done|]. rewrite Hl6. clear -Hf1 Hf2 Hf3. apply set_eq. intros x.
  destruct (decide (x = a)), (decide (x = b)), (decide (x = c)); set_solver.
Qed.

(** A small executable allocator satisfying the interface: blocks are
    numbered, and allocation fails once [rh_budget] calls have succeeded.
    The witnesses run the clients on it. *)
Record ref_heap := RefHeap { rh_next : Z; rh_budget : nat; rh_live : gset Z }.

#[export] Instance ref_heap_kmem : KMem ref_heap := {|
  kmalloc _ h :=
    match rh_budget h with
    | O => (None, h)
    | S b => (Some (rh_next h), RefHeap (rh_next h + 1) b ({[rh_next h]} ∪ rh_live h))
    end;
  kfree p h :=
    if p =? 0 then h else RefHeap (rh_next h) (rh_budget h) (rh_live h ∖ {[p]});
  kwf h := 0 < rh_next h /\ set_Forall (fun p => 0 < p < rh_next h) (rh_live h);
  klive := rh_live;
|}.

#[export] Instance ref_heap_laws : KMemLaws ref_heap.
Proof.
  split; simpl.
  - intros [nx b l] n p h' [Hn Hl] Heq. simpl in *. destruct b as [|b]; simplify_eq.
    split; [split; simpl; [lia|]|].
    + intros q [->%elem_of_singleton|Hq]%elem_of_union; [lia|]. specialize (Hl q Hq); simpl in Hl. lia.
    + split; [|split; [lia|done]]. intros Hin. specialize (Hl p Hin). simpl in Hl. lia.
  - intros [nx [|b] l] n h' ? Heq; simplify_eq/=; done.
  - intros [nx b l] p [Hn Hl] Hp. simpl in *. pose proof (Hl p Hp). simpl in *.
    destruct (Z.eqb_spec p 0); [lia|]. split; [split; [done|]|done].
    intros q [Hq _]%elem_of_difference. by apply Hl.
  - done.
Qed.

(** ** Block copies

    [memcpy(dst, src, n)] and [memset(dst + off, x, n)] on typed arrays, [n]
    counted in elements; running past either array is undefined behaviour. *)
Definition memcpy_arr {A} (dst src : list A) (n : Z) : out (list A) :=
  if (0 <=? n) && (n <=? Z.of_nat (length dst)) && (n <=? Z.of_nat (length src))
  then Ret (take (Z.to_nat n) src ++ drop (Z.to_nat n) dst) else UB.

Definition memset_arr {A} (dst : list A) (off : Z) (x : A) (n : Z) : out (list A) :=
  if (0 <=? off) && (0 <=? n) && (off + n <=? Z.of_nat (length dst))
  then Ret (take (Z.to_nat off) dst ++ replicate (Z.to_nat n) x ++ drop (Z.to_nat (off + n)) dst)
  else UB.

Lemma memcpy_arr_ok {A} (dst src : list A) n :
  0 <= n <= Z.of_nat (length dst) -> n <= Z.of_nat (length src) ->
  memcpy_arr dst src n = Ret (take (Z.to_nat n) src ++ drop (Z.to_nat n) dst).
Proof.
  intros. unfold memcpy_arr. rewrite !(proj2 (Z.leb_le _ _)) by lia. done.
Qed.

Lemma memset_arr_ok {A} (dst : list A) off x n :
  0 <= off -> 0 <= n -> off + n <= Z.of_nat (length dst) ->
  memset_arr dst off x n =
    Ret (take (Z.to_nat off) dst ++ replicate (Z.to_nat n) x ++ drop (Z.to_nat (off + n)) dst).
Proof.
  intros. unfold memset_arr. rewrite !(proj2 (Z.leb_le _ _)) by lia. done.
Qed.

(** The contents of a freshly allocated array of [n] elements. *)
Definition fresh_arr {A} (junk : nat -> A) (n : Z) : list A := junk <$> seq 0 (Z.to_nat n).

Lemma length_fresh_arr {A} (junk : nat -> A) n : length (fresh_arr junk n) = Z.to_nat n.
Proof. unfold fresh_arr. by rewrite length_fmap, length_seq. Qed.

(** ** Spinlocks

    One CPU's view: taking a lock it already holds never returns; between
    CPUs a critical section is atomic. *)
Definition spin_lock (l : Z) (held : gset Z) : out (gset Z) :=
  if decide (l ∈ held) then Hang else Ret ({[l]} ∪ held).

(** ** Ring buffers

    [ring buf head count] lists the [count] elements that start at index
    [head] of the circular array [buf].  Port queues, pipes, terminals and
    I/O channels all store their data this way. *)

(** C's [a % b] on unsigned operands. *)
Definition umod (a b : Z) : out Z := if b =? 0 then UB else Ret (a mod b).

Section rings.
Context {A : Type}.
Implicit Types (buf : list A).

Definition ring_idx buf (head : Z) (i : nat) : Z :=
  (head + Z.of_nat i) mod Z.of_nat (length buf).

Definition ring buf (head count : Z) : list A :=
  omap (fun i => getz buf (ring_idx buf head i)) (seq 0 (Z.to_nat count)).

Lemma ring_idx_range buf head i :
  buf <> [] -> 0 <= ring_idx buf head i < Z.of_nat (length buf).
Proof. intros. apply Z.mod_pos_bound. destruct buf; simpl in *; [done|lia]. Qed.

Lemma omap_seq_total (f : nat -> option A) (n k : nat) :
  (forall i, (k <= i < k + n)%nat -> is_Some (f i)) ->
  length (omap f (seq k n)) = n /\
  forall i, (i < n)%nat -> omap f (seq k n) !! i = f (k + i)%nat.
Proof.
  revert k. induction n as [|n IH]; intros k Hf; [split; [done|lia]|].
  destruct (Hf k) as [x Hx]; [lia|]. destruct (IH (S k)) as [Hl Hi]; [intros; apply Hf; lia|].
  assert (omap f (seq k (S n)) = x :: omap f (seq (S k) n)) as -> by (simpl; by rewrite Hx).
  split; [simpl; by rewrite Hl|]. intros [|i] Hn.
  - by rewrite Nat.add_0_r.
  - rewrite lookup_cons, Hi by lia. f_equal. lia.
Qed.

Lemma ring_spec buf head count :
  buf <> [] -> length (ring buf head count) = Z.to_nat count /\
  forall i, (i < Z.to_nat count)%nat -> ring buf head count !! i = getz buf (ring_idx buf head i).
Proof.
  intros Hne. apply (omap_seq_total (fun i => getz buf (ring_idx buf head i))).
  intros i _. destruct (getz_lt buf (ring_idx buf head i)) as [x ->]; [|by eexists].
  by apply ring_idx_range.
Qed.

Lemma length_ring buf head count : buf <> [] -> length (ring buf head count) = Z.to_nat count.
Proof. intros. by apply ring_spec. Qed.

Lemma ring_lookup buf head count i :
  buf <> [] -> (i < Z.to_nat count)%nat ->
  ring buf head count !! i = getz buf (ring_idx buf head i).
Proof. intros. by apply ring_spec. Qed.

Lemma ring_zero buf head : ring buf head 0 = [].
Proof. done. Qed.

Lemma ring_idx_inj buf head i j :
  (i < length buf)%nat -> (j < length buf)%nat ->
  ring_idx buf head i = ring_idx buf head j -> i = j.
Proof.
  unfold ring_idx. intros Hi Hj Heq. set (L := Z.of_nat (length buf)) in *.
  pose proof (Z.div_mod (head + Z.of_nat i) L). pose proof (Z.div_mod (head + Z.of_nat j) L).
  assert ((head + Z.of_nat i) / L = (head + Z.of_nat j) / L) by nia. nia.
Qed.

(** Writing just behind the last element appends it. *)
Lemma ring_push buf head count x :
  0 <= count < Z.of_nat (length buf) ->
  ring (<[Z.to_nat (ring_idx buf head (Z.to_nat count)) := x]> buf) head (count + 1) =
    ring buf head count ++ [x].
Proof.
  intros Hc. assert (buf <> []) as Hne by (intros ->; simpl in *; lia).
  set (buf' := <[_ := x]> buf).
  assert (length buf' = length buf) as Hlen by apply length_insert.
  assert (buf' <> []) as Hne' by (intros E; by rewrite E in Hlen; destruct buf).
  pose proof (ring_idx_range buf head (Z.to_nat count) Hne) as Hr.
  apply list_eq. intros i. destruct (decide (i < Z.to_nat count + 1)%nat) as [Hi|Hi].
  - rewrite ring_lookup by (done || lia). unfold ring_idx at 1. rewrite Hlen.
    fold (ring_idx buf head i). destruct (decide (i = Z.to_nat count)) as [->|Hneq].
    + rewrite lookup_app_r by (rewrite length_ring by done; lia).
      rewrite length_ring, Nat.sub_diag by done. apply getz_insert_eq. lia.
    + rewrite lookup_app_l by (rewrite length_ring by done; lia).
      rewrite ring_lookup by (done || lia). apply getz_insert_ne; [lia|].
      intros E. apply Hneq, (ring_idx_inj buf head); [lia|lia|done].
  - rewrite !lookup_ge_None_2; [done| |]; rewrite ?length_app, length_ring by done; simpl; lia.
Qed.

(** Advancing [head] drops the first element. *)
Lemma ring_pop buf head count :
  0 <= head < Z.of_nat (length buf) -> 0 < count ->
  exists x, getz buf head = Some x /\
    ring buf head count = x :: ring buf ((head + 1) mod Z.of_nat (length buf)) (count - 1).
Proof.
  intros Hh Hc. assert (buf <> []) as Hne by (intros ->; simpl in *; lia).
  destruct (getz_lt buf head Hh) as [x Hx]. exists x. split; [done|].
  apply list_eq. intros [|i].
  - rewrite ring_lookup by (done || lia). unfold ring_idx. rewrite Z.add_0_r, Z.mod_small by lia. done.
  - rewrite (lookup_cons x _ (S i)). destruct (decide (S i < Z.to_nat count)%nat).
    + rewrite !ring_lookup by (done || lia). f_equal. unfold ring_idx.
      rewrite Zplus_mod_idemp_l. f_equal. lia.
    + rewrite !lookup_ge_None_2; [done| |]; rewrite length_ring by done; lia.
Qed.

(** The start of a ring matters modulo its length only. *)
Lemma ring_congr buf head head' count :
  head mod Z.of_nat (length buf) = head' mod Z.of_nat (length buf) -> ring buf head count = ring buf head' count.
Proof.
  intros Hh. unfold ring. apply list_omap_ext, Forall_Forall2_diag, Forall_forall. intros i _.
  f_equal. unfold ring_idx. by rewrite <- (Zplus_mod_idemp_l head), Hh, Zplus_mod_idemp_l.
Qed.

(** Starting later drops the first elements. *)
Lemma ring_drop buf head count n :
  buf <> [] -> 0 <= n <= count -> ring buf (head + n) (count - n) = drop (Z.to_nat n) (ring buf head count).
Proof.
  intros Hne Hn. apply list_eq. intros i. rewrite lookup_drop.
  destruct (decide (i < Z.to_nat (count - n))%nat) as [Hi|Hi].
  - rewrite !ring_lookup by (done || lia). f_equal. unfold ring_idx. f_equal. lia.
  - rewrite !lookup_ge_None_2; [done| |]; rewrite length_ring by done; lia.
Qed.

Lemma ring_take buf head count n :
  buf <> [] -> 0 <= n <= count -> ring buf head n = take (Z.to_nat n) (ring buf head count).
Proof.
  intros Hne Hn. apply list_eq. intros i. destruct (decide (i < Z.to_nat n)%nat) as [Hi|Hi].
  - rewrite lookup_take_lt, !ring_lookup by (done || lia). done.
  - rewrite !lookup_ge_None_2; [done| |]; rewrite ?length_take, length_ring by done; lia.
Qed.

(** A ring that starts at index 0 and does not wrap is a prefix. *)
Lemma ring_linear buf count :
  0 <= count <= Z.of_nat (length buf) -> ring buf 0 count = take (Z.to_nat count) buf.
Proof.
  intros Hc. destruct (decide (buf = [])) as [->|Hne].
  { simpl in Hc. replace count with 0 by lia. by rewrite ring_zero. }
  apply list_eq. intros i. destruct (decide (i < Z.to_nat count)%nat).
  - rewrite ring_lookup, lookup_take_lt by (done || lia). unfold ring_idx.
    rewrite Z.mod_small by lia. apply (getz_of_nat buf i).
  - rewrite !lookup_ge_None_2; [done| |]; rewrite ?length_take, ?length_ring by done; lia.
Qed.
End rings.

(** ** The scheduler, as the blocking primitives see it

    [wake t] is [thread_find] followed by [scheduler_unblock_thread];
    [park t] removes the thread from its run queue and marks it blocked. *)
Class Sched (S : Type) := {
  wake : Z -> S -> S;
  park : Z -> S -> S;
  thread_known : S -> Z -> bool;
  thread_blocked : S -> Z -> bool;
}.

Class SchedLaws (S : Type) `{!Sched S} : Prop := {
  wake_blocked s t u :
    thread_blocked (wake t s) u = thread_blocked s u && negb (t =? u);
  park_blocked s t u :
    thread_blocked (park t s) u = (thread_known s t && (t =? u)) || thread_blocked s u;
  wake_known s t u : thread_known (wake t s) u = thread_known s u;
  park_known s t u : thread_known (park t s) u = thread_known s u;
}.

(** An executable instance: the live threads and the blocked ones. *)
Record ref_sched := RefSched { rs_threads : gset Z; rs_blocked : gset Z }.

#[export] Instance ref_sched_ops : Sched ref_sched := {|
  wake t s := RefSched (rs_threads s) (rs_blocked s ∖ {[t]});
  park t s := if bool_decide (t ∈ rs_threads s)
              then RefSched (rs_threads s) ({[t]} ∪ rs_blocked s) else s;
  thread_known s t := bool_decide (t ∈ rs_threads s);
  thread_blocked s t := bool_decide (t ∈ rs_blocked s);
|}.

#[export] Instance ref_sched_laws : SchedLaws ref_sched.
Proof.
  split; intros [th bl] t u; simpl; try done.
  - destruct (Z.eqb_spec t u); simpl; rewrite ?andb_false_r, ?andb_true_r;
      apply bool_decide_ext || apply bool_decide_eq_false; set_solver.
  - destruct (bool_decide (t ∈ th)); simpl; [|done].
    destruct (Z.eqb_spec t u); simpl; [apply bool_decide_eq_true|apply bool_decide_ext]; set_solver.
  - by destruct (bool_decide (t ∈ th)).
Qed.
