(* ===== verification/Udiv.v ===== *)
(** * 64-bit division helpers for 32-bit targets (mk/lib/udivdi3.c)

    The shift-and-subtract loop [udiv_qr] and the libgcc entry points built
    on it.  [udiv_qr_correct] proves that the loops terminate within their
    fuel and compute the Euclidean quotient and remainder for every pair of
    64-bit operands; the signed entry points are proved against [Z.quot] and
    [Z.rem], with the one undefined negation ([INT64_MIN]) made explicit. *)

From stdpp Require Import base numbers.
From Stdlib Require Import ZArith Lia.
From S2P Require Import Prelude.

#[local] Open Scope Z_scope.

(** [while (d < n && !(d >> 63)) { d <<= 1; bit <<= 1; }] *)
Fixpoint udiv_align (fuel : nat) (n d bit : Z) : out (Z * Z) :=
  match fuel with
  | O => Hang
  | S fuel =>
      if (d <? n) && (Z.shiftr d 63 =? 0)
      then udiv_align fuel n (u64 (Z.shiftl d 1)) (u64 (Z.shiftl bit 1))
      else Ret (d, bit)
  end.

(** [for (; bit; bit >>= 1) { if (n >= d) { n -= d; q |= bit; } d >>= 1; }] *)
Fixpoint udiv_subtract (fuel : nat) (n d bit q : Z) : out (Z * Z) :=
  match fuel with
  | O => Hang
  | S fuel =>
      if bit =? 0 then Ret (q, n)
      else
        let '(n, q) := if d <=? n then (u64 (n - d), Z.lor q bit) else (n, q) in
        udiv_subtract fuel n (Z.shiftr d 1) (Z.shiftr bit 1) q
  end.

(** Quotient and remainder; both loops run at most 64 times. *)
Definition udiv_qr (n d : Z) : out (Z * Z) :=
  if d =? 0 then Ret (0, n)
  else
    '(d, bit) ← udiv_align 65 n d 1;
    udiv_subtract 65 n d bit 0.

Definition udivdi3 (n d : Z) : out Z := '(q, _) ← udiv_qr n d; Ret q.

(** [rem] is a pointer that may be NULL: [None]. *)
Definition udivmoddi4 (n d : Z) (rem : option Z) : out (Z * option Z) :=
  '(q, r) ← udiv_qr n d;
  Ret (q, match rem with Some _ => Some r | None => None end).

Definition umoddi3 (n d : Z) : out Z := '(_, r) ← udiv_qr n d; Ret r.

(** [-x] on an [int64_t]: undefined at [INT64_MIN]. *)
Definition neg64 (x : Z) : out Z := if x =? - 2 ^ 63 then UB else Ret (- x).

Definition mag64 (a : Z) : out Z := if a <? 0 then neg64 a else Ret a.

Definition divdi3 (a b : Z) : out Z :=
  let neg := xorb (a <? 0) (b <? 0) in
  ua ← mag64 a;
  ub ← mag64 b;
  '(q, _) ← udiv_qr (u64 ua) (u64 ub);
  if neg then neg64 (s64 q) else Ret (s64 q).

Definition moddi3 (a b : Z) : out Z :=
  ua ← mag64 a;
  ub ← mag64 b;
  '(_, r) ← udiv_qr (u64 ua) (u64 ub);
  if a <? 0 then neg64 (s64 r) else Ret (s64 r).

(** ** The loops *)

Lemma udiv_align_spec k fuel n d0 :
  0 < d0 -> 0 <= n < 2 ^ 64 -> 0 <= k <= 63 -> d0 * 2 ^ k < 2 ^ 64 ->
  63 - k < Z.of_nat fuel ->
  returns (udiv_align fuel n (d0 * 2 ^ k) (2 ^ k)) (fun '(d, bit) =>
    exists j, 0 <= j <= 63 /\ d = d0 * 2 ^ j /\ bit = 2 ^ j /\ n < 2 * d).
Proof.
  revert k. induction fuel as [|fuel IH]; intros k Hd Hn Hk Hlt Hfuel; [lia|].
  cbn [udiv_align]. rewrite Z.shiftr_div_pow2 by lia.
  destruct (Z.ltb_spec (d0 * 2 ^ k) n) as [Hdn|]; cbn [andb returns].
  2: { exists k. lia. }
  destruct (Z.eqb_spec (d0 * 2 ^ k / 2 ^ 63) 0) as [Hz|Hz]; cbn [returns].
  2: { exists k. assert (2 ^ 63 <= d0 * 2 ^ k); [|lia].
       destruct (Z.lt_ge_cases (d0 * 2 ^ k) (2 ^ 63)); [|done].
       rewrite Z.div_small in Hz by lia. lia. }
  assert (d0 * 2 ^ k < 2 ^ 63) as Hsmall.
  { destruct (Z.lt_ge_cases (d0 * 2 ^ k) (2 ^ 63)) as [|Hge]; [done|].
    apply (Z.div_le_mono _ _ (2 ^ 63)) in Hge; [|lia].
    rewrite Z.div_same in Hge; lia. }
  assert (k < 63). { destruct (Z.eq_dec k 63) as [->|]; lia. }
  assert (2 ^ (k + 1) = 2 * 2 ^ k) as Hpow by (rewrite Z.pow_add_r; lia).
  rewrite !Z.shiftl_mul_pow2, Z.pow_1_r by lia.
  rewrite !u64_small; unfold in_u64.
  - replace (d0 * 2 ^ k * 2) with (d0 * 2 ^ (k + 1)) by lia.
    replace (2 ^ k * 2) with (2 ^ (k + 1)) by lia.
    apply IH; lia.
  - assert (0 < 2 ^ k) by lia. assert (2 ^ k <= 2 ^ 62) by (apply Z.pow_le_mono_r; lia). lia.
  - lia.
Qed.

(** [q | 2^k] is [q + 2^k] when [q] is a multiple of [2^(k+1)]. *)
Lemma lor_bit c k : 0 <= k -> Z.lor (c * 2 ^ (k + 1)) (2 ^ k) = c * 2 ^ (k + 1) + 2 ^ k.
Proof.
  intros Hk. apply lor_add; [lia|]. rewrite Z.pow_add_r by lia. lia.
Qed.

Lemma udiv_subtract_done fuel n d q :
  (0 < fuel)%nat -> udiv_subtract fuel n d 0 q = Ret (q, n).
Proof. destruct fuel; [lia|done]. Qed.

Lemma udiv_subtract_spec k fuel n d0 c :
  0 < d0 -> 0 <= n < 2 ^ 64 -> 0 <= k <= 63 -> n < 2 * (d0 * 2 ^ k) ->
  k + 1 < Z.of_nat fuel ->
  udiv_subtract fuel n (d0 * 2 ^ k) (2 ^ k) (c * 2 ^ (k + 1)) =
    Ret (c * 2 ^ (k + 1) + n / d0, n mod d0).
Proof.
  revert k n c. induction fuel as [|fuel IH]; intros k n c Hd Hn Hk Hlt Hfuel; [lia|].
  cbn [udiv_subtract]. destruct (Z.eqb_spec (2 ^ k) 0); [lia|].
  rewrite !Z.shiftr_div_pow2, Z.pow_1_r by lia.
  assert (2 ^ (k + 1) = 2 * 2 ^ k) as Hpow by (rewrite Z.pow_add_r; lia).
  destruct (Z.eq_dec k 0) as [->|Hk0].
  - change (2 ^ 0) with 1 in *. rewrite Z.mul_1_r in *.
    destruct (Z.leb_spec d0 n).
    + rewrite u64_small by (unfold in_u64; lia).
      pose proof (lor_bit c 0 ltac:(lia)) as Hlor. change (2 ^ 0) with 1 in Hlor. rewrite Hlor.
      change (1 / 2) with 0. rewrite udiv_subtract_done by lia.
      rewrite <- (Z.div_unique n d0 1 (n - d0)), <- (Z.mod_unique n d0 1 (n - d0)) by lia. done.
    + change (1 / 2) with 0. rewrite udiv_subtract_done by lia.
      rewrite Z.div_small, Z.mod_small, Z.add_0_r by lia. done.
  - assert (2 ^ k = 2 ^ (k - 1 + 1)) as Hk1 by (f_equal; lia).
    assert (2 ^ k = 2 * 2 ^ (k - 1)) as Hk2 by (rewrite Hk1, Z.pow_add_r; lia).
    replace (d0 * 2 ^ k / 2) with (d0 * 2 ^ (k - 1))
      by (apply (Z.div_unique _ _ _ 0); lia).
    replace (2 ^ k / 2) with (2 ^ (k - 1)) by (apply (Z.div_unique _ _ _ 0); lia).
    destruct (Z.leb_spec (d0 * 2 ^ k) n).
    + rewrite u64_small by (unfold in_u64; lia).
      rewrite lor_bit by lia.
      replace (c * 2 ^ (k + 1) + 2 ^ k) with ((2 * c + 1) * 2 ^ (k - 1 + 1)) by lia.
      rewrite IH by lia.
      replace (n - d0 * 2 ^ k) with (n + (- 2 ^ k) * d0) by lia.
      rewrite Z.div_add, Z_mod_plus_full by lia.
      f_equal. f_equal. lia.
    + replace (c * 2 ^ (k + 1)) with ((2 * c) * 2 ^ (k - 1 + 1)) by lia.
      rewrite IH by lia. done.
Qed.

(** The core routine: termination within the fuel and the Euclidean result. *)
Lemma udiv_qr_euclid n d :
  in_u64 n -> in_u64 d -> d <> 0 -> udiv_qr n d = Ret (n / d, n mod d).
Proof.
  intros Hn Hd Hd0. unfold in_u64 in *. unfold udiv_qr.
  rewrite (proj2 (Z.eqb_neq d 0)) by done.
  pose proof (udiv_align_spec 0 65 n d ltac:(lia) ltac:(lia) ltac:(lia) ltac:(lia) ltac:(lia)) as Ha.
  rewrite Z.pow_0_r, Z.mul_1_r in Ha.
  apply returns_inv in Ha as ([d' bit] & -> & j & Hj & -> & -> & Hlt). cbn [mbind out_bind].
  replace 0 with (0 * 2 ^ (j + 1)) at 1 by lia.
  rewrite udiv_subtract_spec by lia. rewrite Z.mul_0_l, Z.add_0_l. done.
Qed.

(** For every 64-bit numerator and non-zero 64-bit denominator the
    unsigned libgcc entry points terminate and return the Euclidean quotient
    and remainder; [__udivmoddi4] stores the remainder exactly when it is
    given somewhere to store it. *)
Theorem unsigned_division_correct (n d r0 : Z) :
  in_u64 n -> in_u64 d -> d <> 0 ->
  udivdi3 n d = Ret (n / d) /\ umoddi3 n d = Ret (n mod d) /\
  udivmoddi4 n d (Some r0) = Ret (n / d, Some (n mod d)) /\
  udivmoddi4 n d None = Ret (n / d, None).
Proof.
  intros Hn Hd Hd0. unfold udivdi3, umoddi3, udivmoddi4.
  rewrite !(udiv_qr_euclid n d) by done. done.
Qed.

Lemma unsigned_division_correct_witness :
  in_u64 18446744073709551615 /\ in_u64 10 /\ 10 <> 0 /\
  udivdi3 18446744073709551615 10 = Ret 1844674407370955161.
Proof.
  assert (in_u64 18446744073709551615) as Hn by (unfold in_u64; lia).
  assert (in_u64 10) as Hd by (unfold in_u64; lia).
  assert (10 <> 0) as H0 by lia.
  exact (conj Hn (conj Hd (conj H0 (proj1 (unsigned_division_correct _ _ 0 Hn Hd H0))))).
Defined.

(** ** The signed entry points *)

Definition in_s64 (x : Z) : Prop := - 2 ^ 63 <= x < 2 ^ 63.

Lemma mag64_abs a : in_s64 a -> a <> - 2 ^ 63 -> mag64 a = Ret (Z.abs a).
Proof.
  unfold in_s64, mag64, neg64. intros Ha Hm.
  destruct (Z.ltb_spec a 0).
  - rewrite (proj2 (Z.eqb_neq _ _)) by done. f_equal. lia.
  - f_equal. lia.
Qed.

(** The magnitudes feed [udiv_qr] at their unsigned width. *)
Lemma udiv_qr_mag a b :
  in_s64 a -> in_s64 b -> b <> 0 ->
  udiv_qr (u64 (Z.abs a)) (u64 (Z.abs b)) = Ret (Z.abs a / Z.abs b, Z.abs a mod Z.abs b).
Proof.
  unfold in_s64. intros Ha Hb Hb0.
  rewrite !u64_small by (unfold in_u64; lia).
  apply udiv_qr_euclid; unfold in_u64; lia.
Qed.

(** On every pair of 64-bit signed operands other than [INT64_MIN], with
    a non-zero divisor, [__divdi3] and [__moddi3] return C's truncated
    quotient and remainder. *)
Theorem signed_division_correct (a b : Z) :
  in_s64 a -> in_s64 b -> a <> - 2 ^ 63 -> b <> - 2 ^ 63 -> b <> 0 ->
  divdi3 a b = Ret (Z.quot a b) /\ moddi3 a b = Ret (Z.rem a b).
Proof.
  intros Ha Hb Hma Hmb Hb0. unfold divdi3, moddi3.
  rewrite !mag64_abs by done. cbn [mbind out_bind].
  rewrite udiv_qr_mag by done. cbn [mbind out_bind].
  unfold in_s64 in *.
  assert (0 <= Z.abs a / Z.abs b <= Z.abs a) as Hq
    by (split; [apply Z.div_pos; lia | apply Z.div_le_upper_bound; nia]).
  pose proof (Z.mod_pos_bound (Z.abs a) (Z.abs b) ltac:(lia)) as Hr.
  rewrite !s64_small by lia. unfold neg64.
  rewrite !(proj2 (Z.eqb_neq _ (- 2 ^ 63))) by lia.
  assert (Z.quot a b = Z.sgn a * Z.sgn b * (Z.abs a / Z.abs b)) as ->
    by (by apply Z.quot_div).
  assert (Z.rem a b = Z.sgn a * (Z.abs a mod Z.abs b)) as -> by (by apply Z.rem_mod).
  destruct (Z.ltb_spec a 0), (Z.ltb_spec b 0); simpl xorb; cbn iota;
    (split; [f_equal|f_equal]); destruct (Z.eq_dec a 0); subst;
    rewrite ?Z.div_0_l, ?Z.mod_0_l by lia; nia.
Qed.

Lemma signed_division_correct_witness :
  in_s64 (-7) /\ in_s64 2 /\ divdi3 (-7) 2 = Ret (-3) /\ moddi3 (-7) 2 = Ret (-1).
Proof.
  assert (in_s64 (-7)) as Ha by (unfold in_s64; lia).
  assert (in_s64 2) as Hb by (unfold in_s64; lia).
  exact (conj Ha (conj Hb
    (signed_division_correct (-7) 2 Ha Hb ltac:(lia) ltac:(lia) ltac:(lia)))).
Defined.

(** The remaining inputs: a zero divisor yields quotient 0 and the numerator
    as remainder (no trap), and [INT64_MIN] is negated with signed overflow. *)
Lemma udiv_qr_zero n : udiv_qr n 0 = Ret (0, n).
Proof. done. Qed.

Lemma divdi3_int_min b : divdi3 (- 2 ^ 63) b = UB.
Proof. done. Qed.
