(* ===== verification/Cspace.v ===== *)
(** * Capability spaces (mk/vm/cspace.c, mk/include/task.h)

    A capability space is a growable slot table with a bitmap of occupied
    slots.  This file models every operation of cspace.c over the allocator
    interface [KMem], and proves that the table keeps its invariant, that
    allocation hands out fresh slots and never disturbs the others, that
    moves transfer exactly one capability, and that no path leaks or
    double-frees the two arrays. *)

From stdpp Require Import base numbers list gmap sets.
From Stdlib Require Import ZArith Lia.
From S2P Require Import Prelude.

#[local] Open Scope Z_scope.

(** ** Constants and data (task.h) *)

Definition CSPACE_DEFAULT_SLOTS : Z := 256.
Definition CSPACE_MAX_SLOTS : Z := 65536.
Definition CSPACE_WORD_BITS : Z := 32.

Definition CAP_PORT : Z := 1.
Definition CAP_MEMORY : Z := 2.
Definition CAP_THREAD : Z := 3.

Definition CAP_SEND : Z := Z.shiftl 1 0.
Definition CAP_RECV : Z := Z.shiftl 1 1.
Definition CAP_REPLY : Z := Z.shiftl 1 2.
Definition CAP_READ : Z := Z.shiftl 1 3.
Definition CAP_WRITE : Z := Z.shiftl 1 4.
Definition CAP_EXEC : Z := Z.shiftl 1 5.

Record cslot := CSlot { object_id : Z; cap_type : Z; rights : Z; in_use : bool }.

Definition zero_slot : cslot := CSlot 0 0 0 false.

(** [slots] and [free_bitmap] are heap arrays: the address kmalloc returned
    (0 for NULL) and the contents. *)
Record cspace := CSpace {
  slots_ptr : Z;
  slots : list cslot;
  bitmap_ptr : Z;
  free_bitmap : list Z;
  max_slots : Z;
  bitmap_words : Z;
}.

(** [sizeof(cslot_t)] and [sizeof(uint32_t)] *)
Definition sizeof_cslot : Z := 24.
Definition sizeof_u32 : Z := 4.

(** ** Handles (task.h) *)

Definition task_make_handle (task_id slot : Z) : Z :=
  Z.lor (u64 (Z.shiftl task_id 32)) (u32 (Z.land slot 0x7FFFFFFF)).
Definition handle_task_id (handle : Z) : Z := u32 (Z.shiftr handle 32).
Definition handle_slot (handle : Z) : Z := Z.land handle 0x7FFFFFFF.

(** ** The free bitmap *)

(** [for (b = 0; b < 32; b++) if (!(x & (1u << b))) ...] *)
Fixpoint bit_scan (x b : Z) (n : nat) : option Z :=
  match n with
  | O => None
  | S n => if Z.land x (Z.shiftl 1 b) =? 0 then Some b else bit_scan x (b + 1) n
  end.

Fixpoint bitmap_alloc_loop (n : nat) (bitmap : list Z) (w : Z) : out (Z * list Z) :=
  match n with
  | O => Ret (-1, bitmap)
  | S n =>
      x ← rd bitmap w;
      if x =? 0xFFFFFFFF then bitmap_alloc_loop n bitmap (w + 1)
      else
        match bit_scan x 0 32 with
        | Some b =>
            bitmap' ← wr bitmap w (Z.lor x (Z.shiftl 1 b));
            Ret (w * 32 + b, bitmap')
        | None => bitmap_alloc_loop n bitmap (w + 1)
        end
  end.

Definition bitmap_alloc (bitmap : list Z) (nwords : Z) : out (Z * list Z) :=
  bitmap_alloc_loop (Z.to_nat nwords) bitmap 0.

Definition bitmap_free (bitmap : list Z) (slot : Z) : out (list Z) :=
  let w := slot / 32 in
  let b := slot mod 32 in
  x ← rd bitmap w;
  wr bitmap w (Z.land x (Z.lnot (Z.shiftl 1 b))).

Section operations.
Context {H : Type} `{!KMem H}.

(** What a fresh kmalloc block holds before it is written. *)
Context (junk_slot : nat -> cslot) (junk_word : nat -> Z).

Definition cspace_init (cs : cspace) (h : H) : Z * cspace * H :=
  let words := CSPACE_DEFAULT_SLOTS / CSPACE_WORD_BITS in
  match kmalloc (CSPACE_DEFAULT_SLOTS * sizeof_cslot) h with
  | (None, h) => (-1, CSpace 0 [] (bitmap_ptr cs) (free_bitmap cs) 0 words, h)
  | (Some sp, h) =>
      match kmalloc (words * sizeof_u32) h with
      | (None, h) => (-1, CSpace 0 [] 0 [] 0 words, kfree sp h)
      | (Some bp, h) =>
          let bm := replicate (Z.to_nat words) 0 in
          (0, CSpace sp (replicate (Z.to_nat CSPACE_DEFAULT_SLOTS) zero_slot)
                bp (<[0%nat := Z.lor 0 (Z.shiftl 1 0)]> bm) CSPACE_DEFAULT_SLOTS words, h)
      end
  end.

Definition cspace_destroy (cs : cspace) (h : H) : cspace * H :=
  let h := if slots_ptr cs =? 0 then h else kfree (slots_ptr cs) h in
  let h := if bitmap_ptr cs =? 0 then h else kfree (bitmap_ptr cs) h in
  (CSpace 0 [] 0 [] 0 0, h).

Definition cspace_grow (cs : cspace) (h : H) : out (Z * cspace * H) :=
  let new_max := max_slots cs * 2 in
  if CSPACE_MAX_SLOTS <? new_max then Ret (-1, cs, h)
  else
    let new_words := new_max / CSPACE_WORD_BITS in
    match kmalloc (new_max * sizeof_cslot) h with
    | (None, h) => Ret (-1, cs, h)
    | (Some sp, h) =>
        match kmalloc (new_words * sizeof_u32) h with
        | (None, h) => Ret (-1, cs, kfree sp h)
        | (Some bp, h) =>
            new_slots ← memcpy_arr (fresh_arr junk_slot new_max) (slots cs) (max_slots cs);
            new_bitmap ← memcpy_arr (fresh_arr junk_word new_words) (free_bitmap cs)
                           (bitmap_words cs);
            new_bitmap ← memset_arr new_bitmap (bitmap_words cs) 0
                           (new_words - bitmap_words cs);
            let h := kfree (slots_ptr cs) h in
            let h := kfree (bitmap_ptr cs) h in
            Ret (0, CSpace sp new_slots bp new_bitmap new_max new_words, h)
        end
    end.

Definition set_bitmap (cs : cspace) (bm : list Z) : cspace :=
  CSpace (slots_ptr cs) (slots cs) (bitmap_ptr cs) bm (max_slots cs) (bitmap_words cs).
Definition set_slots (cs : cspace) (sl : list cslot) : cspace :=
  CSpace (slots_ptr cs) sl (bitmap_ptr cs) (free_bitmap cs) (max_slots cs) (bitmap_words cs).

(** Take a bitmap slot, growing the table once when it is full: the common
    first half of [cspace_alloc_slot] and [cspace_move].  -1: no slot. *)
Definition cspace_take_slot (cs : cspace) (h : H) : out (Z * cspace * H) :=
  '(slot, bm) ← bitmap_alloc (free_bitmap cs) (bitmap_words cs);
  if 0 <=? slot then Ret (slot, set_bitmap cs bm, h)
  else
    '(r, cs, h) ← cspace_grow cs h;
    if r <? 0 then Ret (-1, cs, h)
    else
      '(slot, bm) ← bitmap_alloc (free_bitmap cs) (bitmap_words cs);
      Ret (slot, set_bitmap cs bm, h).

Definition cspace_alloc_slot (cs : cspace) (type rights object_id : Z) (h : H) :
    out (Z * cspace * H) :=
  '(slot, cs, h) ← cspace_take_slot cs h;
  if slot <? 0 then Ret (-1, cs, h)
  else
    sl ← wr (slots cs) slot (CSlot object_id type rights true);
    Ret (slot, set_slots cs sl, h).

(** Guards shared by the lookups: [slot < 0 || !cs->slots || slot >= max]. *)
Definition slot_in_table (cs : cspace) (slot : Z) : bool :=
  negb ((slot <? 0) || (slots_ptr cs =? 0) || (max_slots cs <=? slot)).

(** [cspace_free_slot] ends by releasing the reference a port slot owned;
    [port_release] is the operation of port.c on its own state. *)
Definition cspace_free_slot {S : Type} (port_release : Z -> S -> out S)
    (cs : cspace) (slot : Z) (s : S) : out (Z * cspace * S) :=
  if negb (slot_in_table cs slot) then Ret (-1, cs, s)
  else
    c ← rd (slots cs) slot;
    if negb (in_use c) then Ret (-1, cs, s)
    else
      sl ← wr (slots cs) slot zero_slot;
      bm ← bitmap_free (free_bitmap cs) slot;
      let cs := set_bitmap (set_slots cs sl) bm in
      s ← if cap_type c =? CAP_PORT then port_release (object_id c) s else Ret s;
      Ret (0, cs, s).

(** NULL is [None]. *)
Definition cspace_lookup (cs : cspace) (slot : Z) : out (option cslot) :=
  if negb (slot_in_table cs slot) then Ret None
  else
    c ← rd (slots cs) slot;
    if negb (in_use c) then Ret None else Ret (Some c).

(** Return code and the copied slot ([out] is written only on success). *)
Definition cspace_lookup_snapshot (cs : cspace) (slot : Z) : out (Z * option cslot) :=
  if negb (slot_in_table cs slot) then Ret (-1, None)
  else
    c ← rd (slots cs) slot;
    if negb (in_use c) then Ret (-1, None) else Ret (0, Some c).

(** [fa] and [ta] are the addresses of the two spaces: the locks are taken
    in address order, and a space is never locked twice. *)
Definition cspace_lock_pair (fa ta : Z) : out (gset Z) :=
  if fa <? ta
  then held ← spin_lock fa ∅; spin_lock ta held
  else held ← spin_lock ta ∅; spin_lock fa held.

Definition cspace_move (fa ta : Z) (from to : cspace) (slot : Z) (h : H) :
    out (Z * cspace * cspace * H) :=
  if negb (slot_in_table from slot) then Ret (-1, from, to, h)
  else
    _ ← cspace_lock_pair fa ta;
    c ← rd (slots from) slot;
    if negb (in_use c) then Ret (-1, from, to, h)
    else
      '(dst_slot, to, h) ← cspace_take_slot to h;
      if dst_slot <? 0 then Ret (-1, from, to, h)
      else
        tsl ← wr (slots to) dst_slot c;
        fsl ← wr (slots from) slot zero_slot;
        fbm ← bitmap_free (free_bitmap from) slot;
        Ret (dst_slot, set_bitmap (set_slots from fsl) fbm, set_slots to tsl, h).
End operations.

(** ** The bitmap scan *)

Lemma land_bit_eqb x b : 0 <= b -> (Z.land x (Z.shiftl 1 b) =? 0) = negb (Z.testbit x b).
Proof.
  intros Hb. rewrite Z.shiftl_1_l. destruct (Z.testbit x b) eqn:E; simpl.
  - apply Z.eqb_neq. intros Hz. assert (Z.testbit (Z.land x (2 ^ b)) b = false) as Hf
      by (by rewrite Hz, Z.bits_0).
    rewrite Z.land_spec, E, Z.pow2_bits_true in Hf by lia. done.
  - apply Z.eqb_eq, Z.bits_inj'. intros i Hi.
    rewrite Z.land_spec, Z.bits_0, Z.pow2_bits_eqb by lia.
    destruct (Z.eqb_spec b i) as [<-|]; [by rewrite E|apply andb_false_r].
Qed.

Lemma bit_scan_spec x b n :
  0 <= b ->
  match bit_scan x b n with
  | Some k => b <= k < b + Z.of_nat n /\ Z.testbit x k = false /\
              (forall i, b <= i < k -> Z.testbit x i = true)
  | None => forall i, b <= i < b + Z.of_nat n -> Z.testbit x i = true
  end.
Proof.
  revert b. induction n as [|n IH]; intros b Hb; cbn [bit_scan]; [intros; lia|].
  rewrite land_bit_eqb by done. destruct (Z.testbit x b) eqn:E; cbn [negb].
  - specialize (IH (b + 1) ltac:(lia)). destruct (bit_scan x (b + 1) n) as [k|].
    + destruct IH as (Hk & Hf & Hlow). split; [lia|]. split; [done|].
      intros i Hi. destruct (Z.eq_dec i b) as [->|]; [done|]. apply Hlow; lia.
    + intros i Hi. destruct (Z.eq_dec i b) as [->|]; [done|]. apply IH; lia.
  - split; [lia|]. split; [done|]. intros; lia.
Qed.

Lemma full_word_bits i : 0 <= i < 32 -> Z.testbit 0xFFFFFFFF i = true.
Proof. intros. change 0xFFFFFFFF with (Z.ones 32). apply Z.ones_spec_low. lia. Qed.

(** A word other than the full one has a clear bit below 32. *)
Lemma not_full_has_zero x :
  in_word 32 x -> x <> 0xFFFFFFFF -> exists k, 0 <= k < 32 /\ Z.testbit x k = false.
Proof.
  intros Hx Hne. pose proof (bit_scan_spec x 0 32 ltac:(lia)) as Hs.
  destruct (bit_scan x 0 32) as [k|]; [exists k; naive_solver|].
  exfalso. apply Hne. apply Z.bits_inj'. intros i Hi.
  destruct (Z.lt_ge_cases i 32).
  - rewrite full_word_bits by lia. apply Hs. lia.
  - rewrite !(in_word_high 32) by (unfold in_word in *; lia). done.
Qed.

Lemma bm_bit_word bm w x k :
  getz bm w = Some x -> 0 <= w -> 0 <= k < 32 -> bm_bit 32 bm (w * 32 + k) = Z.testbit x k.
Proof.
  intros Hx Hw Hk. unfold bm_bit.
  rewrite Z.div_add_l, Z.div_small, Z.add_0_r, Hx by lia.
  rewrite Z.add_comm, Z_mod_plus_full, Z.mod_small by lia. done.
Qed.

Lemma word_set_spec bm w x b :
  getz bm w = Some x -> 0 <= w -> 0 <= b < 32 ->
  returns (wr bm w (Z.lor x (Z.shiftl 1 b))) (bm_upd 32 bm (w * 32 + b) true).
Proof.
  intros Hx Hw Hb. pose proof (getz_Some_lt _ _ _ Hx).
  pose proof (bm_set_spec 32 ltac:(lia) bm (w * 32 + b)) as Hs.
  unfold bm_set, bm_size in Hs.
  rewrite Z.div_add_l, Z.div_small, Z.add_0_r in Hs by lia.
  rewrite (Z.add_comm _ b), Z_mod_plus_full, Z.mod_small, (Z.add_comm b) in Hs by lia.
  rewrite (rd_getz _ _ _ Hx) in Hs. apply Hs. lia.
Qed.

(** What [bitmap_alloc] promises: the lowest clear bit, set; -1 only when
    every bit is set, and then nothing changed. *)
Definition alloc_post (bm : list Z) (limit : Z) : Z * list Z -> Prop := fun '(slot, bm') =>
  (slot = -1 /\ bm' = bm /\ forall i, 0 <= i < limit -> bm_bit 32 bm i = true) \/
  (0 <= slot < limit /\ bm_bit 32 bm slot = false /\
   (forall i, 0 <= i < slot -> bm_bit 32 bm i = true) /\ bm_upd 32 bm slot true bm').

Lemma bitmap_alloc_loop_spec n bm w :
  Forall (in_word 32) bm -> 0 <= w -> w + Z.of_nat n <= Z.of_nat (length bm) ->
  (forall i, 0 <= i < 32 * w -> bm_bit 32 bm i = true) ->
  returns (bitmap_alloc_loop n bm w) (alloc_post bm (32 * (w + Z.of_nat n))).
Proof.
  intros HF. revert w. induction n as [|n IH]; intros w Hw Hlen Hlow.
  { left. split; [done|]. split; [done|]. intros i Hi. apply Hlow. lia. }
  cbn [bitmap_alloc_loop]. destruct (getz_lt bm w) as [x Hx]; [lia|].
  rewrite (rd_getz _ _ _ Hx). cbn [mbind out_bind].
  assert ((forall k, 0 <= k < 32 -> Z.testbit x k = true) ->
    returns (bitmap_alloc_loop n bm (w + 1)) (alloc_post bm (32 * (w + Z.of_nat (S n))))) as Hnext.
  { intros Hfull. replace (w + Z.of_nat (S n)) with ((w + 1) + Z.of_nat n) by lia.
    apply IH; [lia|lia|]. intros i Hi. destruct (Z.lt_ge_cases i (32 * w)); [apply Hlow; lia|].
    replace i with (w * 32 + (i - w * 32)) by lia.
    rewrite (bm_bit_word bm w x) by (done || lia). apply Hfull. lia. }
  destruct (Z.eqb_spec x 0xFFFFFFFF) as [->|Hne].
  { apply Hnext. intros. by apply full_word_bits. }
  pose proof (bit_scan_spec x 0 32 ltac:(lia)) as Hs.
  destruct (bit_scan x 0 32) as [b|].
  - destruct Hs as (Hb & Hclear & Hset). eapply returns_bind.
    { apply (word_set_spec bm w x b); (done || lia). }
    intros bm' Hupd. right. rewrite (bm_bit_word bm w x) by (done || lia).
    split; [lia|]. split; [done|]. split; [|done].
    intros i Hi. destruct (Z.lt_ge_cases i (32 * w)); [apply Hlow; lia|].
    replace i with (w * 32 + (i - w * 32)) by lia.
    rewrite (bm_bit_word bm w x) by (done || lia). apply Hset. lia.
  - apply Hnext. intros. apply Hs. lia.
Qed.

Lemma bitmap_alloc_spec bm nwords :
  Forall (in_word 32) bm -> nwords = Z.of_nat (length bm) ->
  returns (bitmap_alloc bm nwords) (alloc_post bm (32 * nwords)).
Proof.
  intros HF ->. unfold bitmap_alloc.
  pose proof (bitmap_alloc_loop_spec (length bm) bm 0 HF ltac:(lia) ltac:(lia)) as Hs.
  rewrite Nat2Z.id. apply Hs. intros; lia.
Qed.

Lemma bitmap_free_spec bm slot :
  0 <= slot < 32 * Z.of_nat (length bm) ->
  returns (bitmap_free bm slot) (bm_upd 32 bm slot false).
Proof. apply (bm_clear_spec 32 ltac:(lia)). Qed.

(** ** The invariant *)

(** The two arrays agree with the recorded capacity. *)
Record cs_shape (cs : cspace) : Prop := {
  sh_words : max_slots cs = 32 * bitmap_words cs;
  sh_slots : Z.of_nat (length (slots cs)) = max_slots cs;
  sh_bitmap : Z.of_nat (length (free_bitmap cs)) = bitmap_words cs;
  sh_range : Forall (in_word 32) (free_bitmap cs);
  sh_max : 0 < max_slots cs <= CSPACE_MAX_SLOTS;
  sh_ptrs : slots_ptr cs <> 0 /\ bitmap_ptr cs <> 0 /\ slots_ptr cs <> bitmap_ptr cs;
  sh_null : bm_bit 32 (free_bitmap cs) 0 = true;
  sh_slot0 : in_use <$> getz (slots cs) 0 = Some false;
}.

Definition taken (cs : cspace) (i : Z) : bool := bm_bit 32 (free_bitmap cs) i.

(** Every taken slot other than the reserved slot 0 holds a capability. *)
Definition cs_used (cs : cspace) : Prop :=
  forall i, 0 < i < max_slots cs -> taken cs i = true ->
    exists c, getz (slots cs) i = Some c /\ in_use c = true.

Definition cs_wf (cs : cspace) : Prop := cs_shape cs /\ cs_used cs.

(** The converse direction, which only a zero-filling kmalloc gives after a
    growth: a slot marked [in_use] is taken in the bitmap. *)
Definition cs_exact (cs : cspace) : Prop :=
  forall i c, 0 < i -> getz (slots cs) i = Some c -> in_use c = true -> taken cs i = true.

(** The capability the kernel granted at slot [i]. *)
Definition granted (cs : cspace) (i : Z) : option cslot :=
  if (0 <? i) && taken cs i then getz (slots cs) i else None.

Definition arrays (cs : cspace) : gset Z := {[slots_ptr cs; bitmap_ptr cs]}.

Section heap.
Context {H : Type} `{!KMem H, !KMemLaws H}.

(** The space owns its arrays in heap [h]. *)
Definition cs_owns (cs : cspace) (h : H) : Prop := kwf h /\ arrays cs ⊆ klive h.

(** From [cs], [h] to [cs'], [h'] nothing but the arrays of the space
    changed hands: no leak, no double free. *)
Definition heap_frame (cs : cspace) (h : H) (cs' : cspace) (h' : H) : Prop :=
  cs_owns cs' h' /\ klive h' ∖ arrays cs' = klive h ∖ arrays cs.
End heap.

Lemma taken_ge cs i : cs_shape cs -> max_slots cs <= i -> taken cs i = false.
Proof.
  intros Hsh Hi. apply bm_bit_ge; [lia|]. unfold bm_size.
  rewrite (sh_bitmap _ Hsh), <- (sh_words _ Hsh). done.
Qed.

Lemma taken_lt cs i : cs_shape cs -> taken cs i = true -> i < max_slots cs.
Proof.
  intros Hsh Ht. destruct (Z.lt_ge_cases i (max_slots cs)); [done|].
  by rewrite (taken_ge cs i) in Ht.
Qed.

(** Appending zero words leaves every bit as it was. *)
Lemma bm_bit_app_zero bm n i :
  0 <= i -> bm_bit 32 (bm ++ replicate n 0) i = bm_bit 32 bm i.
Proof.
  intros Hi. unfold bm_bit. destruct (index_split 32 ltac:(lia) i Hi) as [Hq _].
  destruct (Z.lt_ge_cases (i / 32) (Z.of_nat (length bm))) as [Hlt|Hge].
  - by rewrite getz_app_l by lia.
  - rewrite getz_app_r by lia.
    assert (getz bm (i / 32) = None) as ->.
    { unfold getz. destruct (Z.leb_spec 0 (i / 32)); [|done]. apply lookup_ge_None_2. lia. }
    destruct (getz (replicate n 0) _) eqn:E; [|done].
    apply getz_Some in E as [_ E]. apply lookup_replicate in E as [-> _].
    apply Z.bits_0.
Qed.

Section growth.
Context {H : Type} `{!KMem H, !KMemLaws H} (js : nat -> cslot) (jw : nat -> Z).

Definition grow_post (cs : cspace) (h : H) : Z * cspace * H -> Prop := fun '(r, cs', h') =>
  (r = -1 /\ cs' = cs /\ kwf h' /\ klive h' = klive h) \/
  (r = 0 /\ cs_shape cs' /\ heap_frame cs h cs' h' /\
   max_slots cs' = 2 * max_slots cs /\
   (forall i, 0 <= i < max_slots cs -> getz (slots cs') i = getz (slots cs) i) /\
   (forall i, max_slots cs <= i < max_slots cs' ->
      getz (slots cs') i = Some (js (Z.to_nat i))) /\
   (forall i, 0 <= i -> taken cs' i = taken cs i)).

(** Two allocations followed by the release of the old arrays. *)
Lemma heap_swap cs (h h1 h2 : H) n m sp bp sl bm mx w :
  cs_shape cs -> cs_owns cs h ->
  kmalloc n h = (Some sp, h1) -> kmalloc m h1 = (Some bp, h2) ->
  heap_frame cs h (CSpace sp sl bp bm mx w) (kfree (bitmap_ptr cs) (kfree (slots_ptr cs) h2)) /\
  sp <> 0 /\ bp <> 0 /\ sp <> bp.
Proof.
  intros Hsh [Hwf Hown] E1 E2. pose proof (sh_ptrs _ Hsh) as (_ & _ & Hne).
  assert (slots_ptr cs ∈ klive h /\ bitmap_ptr cs ∈ klive h) as [Hs Hb]
    by (unfold arrays in Hown; set_solver).
  destruct (kmalloc_swap h h1 h2 n m _ _ sp bp Hwf Hs Hb Hne E1 E2)
    as (Hwf' & Hz1 & Hz2 & Hne' & Hf1 & Hf2 & Hl).
  unfold heap_frame, cs_owns, arrays. cbn [slots_ptr bitmap_ptr].
  split; [|done]. split; [split; [done|set_solver]|]. rewrite Hl. set_solver.
Qed.

Lemma cspace_grow_spec cs (h : H) :
  cs_shape cs -> cs_owns cs h -> returns (cspace_grow js jw cs h) (grow_post cs h).
Proof.
  intros Hsh Hown. unfold cspace_grow.
  destruct (Z.ltb_spec CSPACE_MAX_SLOTS (max_slots cs * 2)) as [|Hcap].
  { left. repeat split; apply Hown. }
  destruct (kmalloc _ h) as [[sp|] h1] eqn:E1.
  2: { left. destruct (kmalloc_none _ _ _ (proj1 Hown) E1). done. }
  destruct (kmalloc_some _ _ _ _ (proj1 Hown) E1) as (Hwf1 & Hf1 & _ & Hl1).
  destruct (kmalloc _ h1) as [[bp|] h2] eqn:E2.
  2: { left. destruct (kmalloc_none _ _ _ Hwf1 E2) as [Hwf2 Hl2].
       destruct (kfree_live h2 sp Hwf2) as [Hwf3 Hl3]; [set_solver|].
       repeat split; [done|]. rewrite Hl3, Hl2, Hl1. set_solver. }
  pose proof Hsh as [Hw Hs Hb Hr Hm Hp Hn].
  assert (max_slots cs * 2 / CSPACE_WORD_BITS = 2 * bitmap_words cs) as ->
    by (unfold CSPACE_WORD_BITS; rewrite Hw; symmetry; apply (Z.div_unique _ _ _ 0); lia).
  rewrite !memcpy_arr_ok by (rewrite ?length_fresh_arr; lia). cbn [mbind out_bind].
  rewrite memset_arr_ok by
    (rewrite ?length_app, ?length_take, ?length_drop, ?length_fresh_arr; lia).
  cbn [mbind out_bind returns]. right.
  edestruct (heap_swap cs h h1 h2) as (Hframe & Hptrs); [done|done|exact E1|exact E2|].
  rewrite (take_ge (slots cs)) by lia. rewrite (take_ge (free_bitmap cs)) by lia.
  rewrite take_app_length' by lia.
  rewrite (drop_ge (free_bitmap cs ++ _))
    by (rewrite ?length_app, ?length_drop, ?length_fresh_arr; lia).
  rewrite app_nil_r.
  split; [done|]. split; [|split; [exact Hframe|split; [simpl; lia|]]].
  - split; cbn [slots free_bitmap max_slots bitmap_words slots_ptr bitmap_ptr];
      rewrite ?length_app, ?length_drop, ?length_replicate, ?length_fresh_arr;
      try (unfold CSPACE_MAX_SLOTS in *; lia).
    + apply Forall_app. split; [done|]. apply Forall_replicate. unfold in_word; lia.
    + by rewrite bm_bit_app_zero by lia.
    + by rewrite getz_app_l by lia.
  - cbn [slots max_slots]. split; [|split].
    + intros i Hi. rewrite getz_app_l by lia. done.
    + intros i Hi. rewrite getz_app_r by lia. apply getz_Some. split; [lia|].
      rewrite lookup_drop. unfold fresh_arr. rewrite list_lookup_fmap.
      rewrite lookup_seq_lt by lia. simpl. do 2 f_equal. lia.
    + intros i Hi. unfold taken. cbn [free_bitmap]. by rewrite bm_bit_app_zero by lia.
Qed.
End growth.

Section slots.
Context {H : Type} `{!KMem H, !KMemLaws H} (js : nat -> cslot) (jw : nat -> Z).

(** What taking a slot promises: the table possibly grown, every other slot
    and bit as before, and a bit that was clear now set; or the table full
    and unchanged. *)
Definition take_post (cs : cspace) (h : H) : Z * cspace * H -> Prop := fun '(slot, cs', h') =>
  cs_shape cs' /\ heap_frame cs h cs' h' /\ max_slots cs <= max_slots cs' /\
  (forall i, 0 <= i < max_slots cs -> getz (slots cs') i = getz (slots cs) i) /\
  (forall i, max_slots cs <= i < max_slots cs' -> getz (slots cs') i = Some (js (Z.to_nat i))) /\
  ((slot = -1 /\ cs' = cs /\ forall i, 0 <= i < max_slots cs -> taken cs i = true) \/
   (0 < slot < max_slots cs' /\ taken cs slot = false /\
    forall i, 0 <= i -> taken cs' i = (i =? slot) || taken cs i)).

Lemma heap_frame_refl cs (h h' : H) :
  cs_owns cs h -> kwf h' -> klive h' = klive h -> heap_frame cs h cs h'.
Proof. intros [? ?] ? Hl. split; [split; [done|]|]; by rewrite Hl. Qed.

Lemma set_bitmap_shape cs slot bm :
  cs_shape cs -> bm_upd 32 (free_bitmap cs) slot true bm -> cs_shape (set_bitmap cs bm).
Proof.
  intros Hsh (Hlen & HF & Hbit). destruct Hsh. split; simpl; try done; [lia|by apply HF|].
  rewrite Hbit by lia. by destruct (0 =? slot).
Qed.

Lemma alloc_limit cs : cs_shape cs -> 32 * bitmap_words cs = max_slots cs.
Proof. intros Hsh. by rewrite (sh_words _ Hsh). Qed.

(** The successful end of both scans: bit [slot] found clear in [cs1]. *)
Lemma take_found cs (h : H) cs1 h1 slot bm :
  cs_shape cs1 -> heap_frame cs h cs1 h1 -> max_slots cs <= max_slots cs1 ->
  (forall i, 0 <= i < max_slots cs -> getz (slots cs1) i = getz (slots cs) i) ->
  (forall i, max_slots cs <= i < max_slots cs1 -> getz (slots cs1) i = Some (js (Z.to_nat i))) ->
  (forall i, 0 <= i -> taken cs1 i = taken cs i) ->
  0 <= slot < max_slots cs1 -> taken cs1 slot = false ->
  bm_upd 32 (free_bitmap cs1) slot true bm ->
  take_post cs h (slot, set_bitmap cs1 bm, h1).
Proof.
  intros Hsh Hfr Hmax Hold Hnew Ht Hslot Hclear Hupd.
  assert (0 < slot) as Hpos.
  { destruct (Z.eq_dec slot 0) as [->|]; [|lia]. unfold taken in Hclear.
    by rewrite (sh_null _ Hsh) in Hclear. }
  split; [by eapply set_bitmap_shape|]. split; [exact Hfr|].
  split; [done|]. split; [exact Hold|]. split; [exact Hnew|]. right.
  split; [simpl; lia|]. rewrite <- Ht by lia. split; [done|].
  intros i Hi. destruct Hupd as (_ & _ & Hbit). unfold taken at 1. simpl.
  rewrite Hbit by lia. destruct (i =? slot); [done|]. by apply Ht.
Qed.

Lemma cspace_take_slot_spec cs (h : H) :
  cs_shape cs -> cs_owns cs h -> returns (cspace_take_slot js jw cs h) (take_post cs h).
Proof.
  intros Hsh Hown. unfold cspace_take_slot.
  eapply returns_bind; [apply bitmap_alloc_spec; [apply Hsh|symmetry; apply Hsh]|].
  rewrite (alloc_limit cs Hsh).
  intros [slot bm] [(-> & -> & Hfull)|(Hr & Hclear & _ & Hupd)].
  2: { rewrite (proj2 (Z.leb_le 0 slot)) by lia. cbn [returns].
       apply take_found; (done || lia). }
  change (0 <=? -1) with false. cbn iota.
  eapply returns_bind; [by apply cspace_grow_spec|].
  intros [[r cs'] h'] [(-> & -> & Hwf & Hl)|(-> & Hsh' & Hfr & Hmax & Hold & Hnew & Ht)].
  { change (-1 <? 0) with true. cbn [returns].
    split; [done|]. split; [by apply heap_frame_refl|]. split; [lia|].
    split; [done|]. split; [intros; lia|]. by left. }
  change (0 <? 0) with false. cbn iota.
  eapply returns_bind; [apply bitmap_alloc_spec; [apply Hsh'|symmetry; apply Hsh']|].
  rewrite (alloc_limit cs' Hsh'). pose proof (sh_max _ Hsh).
  intros [slot bm] [(-> & -> & Hfull')|(Hr & Hclear & _ & Hupd)].
  { exfalso. specialize (Hfull' (max_slots cs) ltac:(lia)).
    fold (taken cs' (max_slots cs)) in Hfull'.
    rewrite Ht, taken_ge in Hfull' by (done || lia). done. }
  apply take_found; (done || lia).
Qed.

Lemma granted_iff cs i c :
  granted cs i = Some c <-> 0 < i /\ taken cs i = true /\ getz (slots cs) i = Some c.
Proof.
  unfold granted. destruct (Z.ltb_spec 0 i), (taken cs i); simpl; naive_solver lia.
Qed.

Lemma granted_none_taken cs i : taken cs i = false -> granted cs i = None.
Proof. intros Ht. unfold granted. rewrite Ht. by rewrite andb_false_r. Qed.

(** [granted] only depends on the slot and bit at its index. *)
Lemma granted_ext cs cs' i :
  taken cs' i = taken cs i -> (taken cs i = true -> getz (slots cs') i = getz (slots cs) i) ->
  granted cs' i = granted cs i.
Proof.
  intros Ht Hs. unfold granted. rewrite Ht.
  destruct (taken cs i); [by rewrite Hs|by rewrite andb_false_r].
Qed.

(** Storing a capability in a slot just taken. *)
Lemma store_taken cs (h : H) cs1 h1 slot c :
  cs_wf cs -> take_post cs h (slot, cs1, h1) -> 0 <= slot -> in_use c = true ->
  exists sl, wr (slots cs1) slot c = Ret sl /\
    cs_wf (set_slots cs1 sl) /\ heap_frame cs h (set_slots cs1 sl) h1 /\
    0 < slot < max_slots cs1 /\ granted cs slot = None /\
    granted (set_slots cs1 sl) slot = Some c /\
    (forall i, i <> slot -> granted (set_slots cs1 sl) i = granted cs i) /\
    ((forall n, in_use (js n) = false) -> cs_exact cs -> cs_exact (set_slots cs1 sl)).
Proof.
  intros [Hsh Hused] (Hsh1 & Hfr & Hmax & Hold & Hnew & [(-> & _)|(Hr & Hc & Ht)]) Hpos Hin; [lia|].
  pose proof (sh_slots _ Hsh1) as Hlen.
  exists (<[Z.to_nat slot := c]> (slots cs1)). rewrite wr_ok by lia. split; [done|].
  assert (forall i, i <> slot -> granted (set_slots cs1 (<[Z.to_nat slot:=c]> (slots cs1))) i
    = granted cs i) as Hothers.
  { intros i Hne. destruct (Z.lt_ge_cases 0 i) as [Hi|Hi].
    2: { unfold granted. by rewrite (proj2 (Z.ltb_ge 0 i)) by lia. }
    apply granted_ext.
    - unfold taken at 1. simpl. fold (taken cs1 i). rewrite Ht by lia.
      by destruct (Z.eqb_spec i slot).
    - intros Hti. simpl. rewrite getz_insert_ne by lia. apply Hold.
      apply taken_lt in Hti; [lia|done]. }
  assert (granted (set_slots cs1 (<[Z.to_nat slot:=c]> (slots cs1))) slot = Some c) as Hself.
  { apply granted_iff. split; [lia|]. split.
    - unfold taken. simpl. fold (taken cs1 slot). rewrite Ht, Z.eqb_refl by lia. done.
    - simpl. apply getz_insert_eq. lia. }
  split; [|split; [exact Hfr|]].
  - split.
    + destruct Hsh1. split; simpl; try done; [by rewrite length_insert|].
      by rewrite getz_insert_ne by lia.
    + intros i Hi Hti. destruct (Z.eq_dec i slot) as [->|Hne].
      { exists c. by apply granted_iff in Hself as (_ & _ & ?). }
      unfold taken in Hti. simpl in Hti. fold (taken cs1 i) in Hti.
      rewrite Ht in Hti by lia. destruct (Z.eqb_spec i slot); [done|]. simpl in Hti.
      pose proof (taken_lt _ _ Hsh Hti).
      destruct (Hused i) as (c' & Hc' & Hu); [lia|done|]. exists c'. simpl.
      rewrite getz_insert_ne, Hold by lia. done.
  - split; [done|]. split; [by apply granted_none_taken|]. split; [done|]. split; [done|].
    intros Hjs Hex i c' Hi Hg Hu. simpl in Hg. unfold taken. simpl. fold (taken cs1 i).
    rewrite Ht by lia. destruct (Z.eqb_spec i slot) as [->|Hne]; [done|]. simpl.
    rewrite getz_insert_ne in Hg by lia.
    destruct (Z.lt_ge_cases i (max_slots cs)) as [Hlt|Hge].
    + rewrite Hold in Hg by lia. by apply (Hex i c').
    + pose proof (getz_Some_lt _ _ _ Hg). rewrite Hnew in Hg by lia. simplify_eq.
      by rewrite Hjs in Hu.
Qed.
End slots.

(** ** Theorems *)

Section theorems.
Context {H : Type} `{!KMem H, !KMemLaws H} (js : nat -> cslot) (jw : nat -> Z).

(** Clearing slot [slot] and its bit: the effect [cspace_free_slot] and
    [cspace_move] have on the space a capability leaves. *)
Lemma clear_slot cs slot c :
  cs_wf cs -> slot_in_table cs slot = true -> getz (slots cs) slot = Some c -> in_use c = true ->
  exists sl bm, wr (slots cs) slot zero_slot = Ret sl /\
    bitmap_free (free_bitmap cs) slot = Ret bm /\
    let cs' := set_bitmap (set_slots cs sl) bm in
    cs_wf cs' /\ arrays cs' = arrays cs /\
    (forall i, granted cs' i = if i =? slot then None else granted cs i) /\
    (cs_exact cs -> cs_exact cs').
Proof.
  intros [Hsh Hused] Htab Hc Hin. pose proof (getz_Some_lt _ _ _ Hc) as Hr.
  pose proof (sh_slots _ Hsh) as Hlen. pose proof (sh_words _ Hsh). pose proof (sh_bitmap _ Hsh).
  assert (0 < slot) as Hpos.
  { destruct (Z.eq_dec slot 0) as [->|]; [|lia].
    pose proof (sh_slot0 _ Hsh) as Hs0. rewrite Hc in Hs0. simpl in Hs0. congruence. }
  destruct (returns_inv _ _ (bitmap_free_spec (free_bitmap cs) slot ltac:(lia)))
    as (bm & Hbm & Hlenb & HF & Hbit).
  exists (<[Z.to_nat slot := zero_slot]> (slots cs)), bm.
  split; [apply wr_ok; lia|]. split; [done|].
  assert (forall i, 0 <= i -> taken (set_bitmap (set_slots cs
    (<[Z.to_nat slot := zero_slot]> (slots cs))) bm) i = negb (i =? slot) && taken cs i) as Ht.
  { intros i Hi. unfold taken. simpl. rewrite Hbit by done. by destruct (i =? slot). }
  split; [|split; [done|split]].
  - split.
    + destruct Hsh. split; simpl; try done; [by rewrite length_insert|lia|by apply HF| |].
      * rewrite Hbit by lia. destruct (Z.eqb_spec 0 slot); [lia|done].
      * by rewrite getz_insert_ne by lia.
    + intros i Hi Hti. rewrite Ht in Hti by lia.
      destruct (Z.eqb_spec i slot); simpl in Hti; [done|].
      destruct (Hused i Hi Hti) as (c' & ? & ?). exists c'. simpl.
      by rewrite getz_insert_ne by lia.
  - intros i. destruct (Z.lt_ge_cases 0 i) as [Hi|Hi].
    + unfold granted. rewrite Ht by lia. destruct (Z.eqb_spec i slot) as [|Hne].
      { by rewrite andb_false_r. }
      cbn [negb andb]. simpl slots. by rewrite getz_insert_ne by lia.
    + unfold granted. rewrite (proj2 (Z.ltb_ge 0 i)) by lia. simpl. by destruct (i =? slot).
  - intros Hex i c' Hi Hg Hu. simpl in Hg. rewrite Ht by lia.
    destruct (Z.eqb_spec i slot) as [->|Hne].
    { rewrite getz_insert_eq in Hg by lia. by simplify_eq. }
    rewrite getz_insert_ne in Hg by lia. by apply (Hex i c').
Qed.

Lemma slot_in_table_lt cs slot :
  cs_shape cs -> slot_in_table cs slot = true <-> 0 <= slot < max_slots cs.
Proof.
  intros Hsh. destruct (sh_ptrs _ Hsh) as [Hp _]. unfold slot_in_table.
  destruct (Z.ltb_spec slot 0), (Z.eqb_spec (slots_ptr cs) 0),
    (Z.leb_spec (max_slots cs) slot); simpl; split; intros; (done || lia).
Qed.

Lemma cspace_alloc_slot_spec cs (type rights object_id : Z) (h : H) :
  cs_wf cs -> cs_owns cs h ->
  returns (cspace_alloc_slot js jw cs type rights object_id h) (fun '(slot, cs', h') =>
    cs_wf cs' /\ heap_frame cs h cs' h' /\
    ((slot = -1 /\ cs' = cs /\ forall i, 0 <= i < max_slots cs -> taken cs i = true) \/
     (0 < slot < max_slots cs' /\ granted cs slot = None /\
      granted cs' slot = Some (CSlot object_id type rights true) /\
      forall i, i <> slot -> granted cs' i = granted cs i)) /\
    ((forall n, in_use (js n) = false) -> cs_exact cs -> cs_exact cs')).
Proof.
  intros Hwf Hown. unfold cspace_alloc_slot.
  eapply returns_bind; [apply cspace_take_slot_spec; [apply Hwf|done]|].
  intros [[slot cs1] h1] Htake. destruct (Z.ltb_spec slot 0) as [Hneg|Hpos].
  - destruct Htake as (Hsh1 & Hfr & _ & _ & _ & [(-> & -> & Hfull)|(Hr & _)]); [|lia].
    split; [done|]. split; [done|]. split; [by left|done].
  - destruct (store_taken js cs h cs1 h1 slot (CSlot object_id type rights true))
      as (sl & -> & Hwf' & Hfr & Hr & Hnone & Hself & Hothers & Hex); try done.
    split; [done|]. split; [done|]. split; [by right|done].
Qed.

(** C1: on a well-formed space, allocating a slot returns (never touching
    memory outside the two arrays), keeps the space well-formed, and either
    fails leaving the space as it was, which happens only when every slot is
    taken, or grants the capability in a slot that held none, leaving every
    other capability as it was, also when the table had to grow; in both
    cases the heap loses and gains nothing but the arrays of the space. *)
Theorem cspace_alloc_slot_correct cs (type rights object_id : Z) (h : H) :
  cs_wf cs -> cs_owns cs h ->
  returns (cspace_alloc_slot js jw cs type rights object_id h) (fun '(slot, cs', h') =>
    cs_wf cs' /\ heap_frame cs h cs' h' /\
    ((slot = -1 /\ cs' = cs /\ forall i, 0 <= i < max_slots cs -> taken cs i = true) \/
     (0 < slot < max_slots cs' /\ granted cs slot = None /\
      granted cs' slot = Some (CSlot object_id type rights true) /\
      forall i, i <> slot -> granted cs' i = granted cs i))).
Proof.
  intros Hwf Hown. eapply returns_mono; [by apply cspace_alloc_slot_spec|].
  intros [[slot cs'] h'] (? & ? & ? & _). done.
Qed.

Lemma cspace_free_slot_spec {S : Type} (rel : Z -> S -> out S) cs (slot : Z) (s : S) :
  cs_wf cs ->
  match (if slot_in_table cs slot then getz (slots cs) slot else None) with
  | Some c =>
      if in_use c then
        exists cs', cs_wf cs' /\ arrays cs' = arrays cs /\ max_slots cs' = max_slots cs /\
          (forall i, granted cs' i = if i =? slot then None else granted cs i) /\
          cspace_free_slot rel cs slot s =
            s' ← (if cap_type c =? CAP_PORT then rel (object_id c) s else Ret s);
            Ret (0, cs', s')
      else cspace_free_slot rel cs slot s = Ret (-1, cs, s)
  | None => cspace_free_slot rel cs slot s = Ret (-1, cs, s)
  end.
Proof.
  intros Hwf. unfold cspace_free_slot.
  destruct (slot_in_table cs slot) eqn:Htab; simpl negb; [|done].
  pose proof (proj1 (slot_in_table_lt cs slot (proj1 Hwf)) Htab).
  destruct (getz_lt (slots cs) slot) as [c Hc]; [rewrite (sh_slots _ (proj1 Hwf)); lia|].
  rewrite Hc, (rd_getz _ _ _ Hc). cbn [mbind out_bind].
  destruct (in_use c) eqn:Hin; cbn [negb]; [|done].
  destruct (clear_slot cs slot c Hwf Htab Hc Hin) as (sl & bm & -> & -> & Hwf' & Ha & Hg & _).
  exists (set_bitmap (set_slots cs sl) bm). done.
Qed.

(** C13: freeing a slot that holds a capability returns 0, removes exactly
    that capability and nothing else, keeps the space and its arrays, and
    runs [port_release] on the object exactly when the capability is a port;
    freeing anything outside the table, or a slot not in use, changes
    nothing and returns -1. *)
Theorem cspace_free_slot_correct {S : Type} (rel : Z -> S -> out S) cs (slot : Z) (s : S) :
  cs_wf cs ->
  match (if slot_in_table cs slot then getz (slots cs) slot else None) with
  | Some c =>
      if in_use c then
        exists cs', cs_wf cs' /\ arrays cs' = arrays cs /\ max_slots cs' = max_slots cs /\
          (forall i, granted cs' i = if i =? slot then None else granted cs i) /\
          cspace_free_slot rel cs slot s =
            s' ← (if cap_type c =? CAP_PORT then rel (object_id c) s else Ret s);
            Ret (0, cs', s')
      else cspace_free_slot rel cs slot s = Ret (-1, cs, s)
  | None => cspace_free_slot rel cs slot s = Ret (-1, cs, s)
  end.
Proof. apply cspace_free_slot_spec. Qed.

Lemma lookup_some_inv cs slot c :
  cspace_lookup cs slot = Ret (Some c) ->
  slot_in_table cs slot = true /\ getz (slots cs) slot = Some c /\ in_use c = true.
Proof.
  unfold cspace_lookup. destruct (slot_in_table cs slot); cbn [negb]; [|done].
  unfold rd. destruct (getz (slots cs) slot) as [c'|]; cbn [deref mbind out_bind]; [|done].
  destruct (in_use c') eqn:E; cbn [negb]; [|done]. by intros [= ->].
Qed.

Lemma granted_lookup cs slot c :
  cs_wf cs -> granted cs slot = Some c -> cspace_lookup cs slot = Ret (Some c).
Proof.
  intros Hwf Hgr. apply granted_iff in Hgr as (Hpos & Ht & Hc).
  pose proof (taken_lt _ _ (proj1 Hwf) Ht) as Hlt.
  destruct (proj2 Hwf slot ltac:(lia) Ht) as (c' & Hc' & Hin). simplify_eq.
  unfold cspace_lookup. rewrite (proj2 (slot_in_table_lt cs slot (proj1 Hwf))) by lia.
  cbn [negb]. rewrite (rd_getz _ _ _ Hc). cbn [mbind out_bind]. by rewrite Hin.
Qed.

Lemma cspace_move_spec (fa ta : Z) from to (slot : Z) c (h : H) :
  fa <> ta -> cs_wf from -> cs_wf to -> cs_owns to h ->
  cspace_lookup from slot = Ret (Some c) ->
  returns (cspace_move js jw fa ta from to slot h) (fun '(dst, from', to', h') =>
    cs_wf from' /\ cs_wf to' /\ heap_frame to h to' h' /\ arrays from' = arrays from /\
    ((dst = -1 /\ from' = from /\ to' = to /\
      forall i, 0 <= i < max_slots to -> taken to i = true) \/
     (0 < dst < max_slots to' /\ granted to dst = None /\ granted to' dst = Some c /\
      (forall i, i <> dst -> granted to' i = granted to i) /\
      granted from' slot = None /\
      (forall i, i <> slot -> granted from' i = granted from i))) /\
    (cs_exact from -> cs_exact from') /\
    ((forall n, in_use (js n) = false) -> cs_exact to -> cs_exact to')).
Proof.
  intros Hne Hwff Hwft Hown Hlk. destruct (lookup_some_inv _ _ _ Hlk) as (Htab & Hc & Hin).
  unfold cspace_move. rewrite Htab. simpl negb. cbn iota.
  assert (exists held, cspace_lock_pair fa ta = Ret held) as [held ->].
  { unfold cspace_lock_pair, spin_lock. destruct (fa <? ta);
      rewrite decide_False by set_solver; cbn [mbind out_bind];
      rewrite decide_False by set_solver; eauto. }
  cbn [mbind out_bind]. rewrite (rd_getz _ _ _ Hc). cbn [mbind out_bind].
  rewrite Hin. cbn [negb].
  eapply returns_bind; [apply (cspace_take_slot_spec js jw); [apply Hwft|done]|].
  intros [[dst to1] h1] Htake. destruct (Z.ltb_spec dst 0) as [Hneg|Hdst].
  - destruct Htake as (_ & Hfr & _ & _ & _ & [(-> & -> & Hfull)|(Hr & _)]); [|lia].
    split; [done|]. split; [done|]. split; [done|]. split; [done|]. split; [by left|done].
  - destruct (store_taken js to h to1 h1 dst c)
      as (tsl & -> & Hwf' & Hfr & Hr & Hnone & Hself & Hothers & Hext); try done.
    cbn [mbind out_bind].
    destruct (clear_slot from slot c Hwff Htab Hc Hin) as (fsl & fbm & -> & -> & Hwf'' & Ha & Hg & Hexf).
    cbn [mbind out_bind returns].
    split; [done|]. split; [done|]. split; [done|]. split; [done|]. split; [|done]. right.
    split; [done|]. split; [done|]. split; [done|]. split; [done|]. split.
    + by rewrite Hg, Z.eqb_refl.
    + intros i Hi. rewrite Hg. by destruct (Z.eqb_spec i slot).
Qed.

(** C19: moving a granted capability between two distinct spaces either fails
    with both spaces unchanged, only because the destination is full, or
    makes it disappear from the source slot and appear, with the same object,
    type and rights, in a destination slot that held none; no other
    capability of either space changes and both stay well-formed. *)
Theorem cspace_move_correct (fa ta : Z) from to (slot : Z) c (h : H) :
  fa <> ta -> cs_wf from -> cs_wf to -> cs_owns to h -> granted from slot = Some c ->
  returns (cspace_move js jw fa ta from to slot h) (fun '(dst, from', to', h') =>
    cs_wf from' /\ cs_wf to' /\ heap_frame to h to' h' /\ arrays from' = arrays from /\
    ((dst = -1 /\ from' = from /\ to' = to /\
      forall i, 0 <= i < max_slots to -> taken to i = true) \/
     (0 < dst < max_slots to' /\ granted to dst = None /\ granted to' dst = Some c /\
      (forall i, i <> dst -> granted to' i = granted to i) /\
      granted from' slot = None /\
      (forall i, i <> slot -> granted from' i = granted from i)))).
Proof.
  intros. eapply returns_mono; [by eapply (cspace_move_spec fa ta from to slot c h); auto using granted_lookup|].
  intros [[[dst from'] to'] h'] (? & ? & ? & ? & ? & _). done.
Qed.

Lemma cspace_init_spec cs0 (h : H) :
  kwf h ->
  let '(r, cs, h1) := cspace_init cs0 h in
  kwf h1 /\
  ((r = -1 /\ klive h1 = klive h) \/
   (r = 0 /\ cs_wf cs /\ cs_exact cs /\ (forall i, granted cs i = None) /\
    cs_owns cs h1 /\ klive h1 ∖ arrays cs = klive h)).
Proof.
  intros Hwf. unfold cspace_init.
  change (CSPACE_DEFAULT_SLOTS / CSPACE_WORD_BITS) with 8.
  destruct (kmalloc _ h) as [[sp|] h1] eqn:E1.
  2: { destruct (kmalloc_none _ _ _ Hwf E1). split; [done|]. by left. }
  destruct (kmalloc_some _ _ _ _ Hwf E1) as (Hwf1 & Hf1 & Hz1 & Hl1).
  destruct (kmalloc _ h1) as [[bp|] h2] eqn:E2.
  2: { destruct (kmalloc_none _ _ _ Hwf1 E2) as [Hwf2 Hl2].
       destruct (kfree_live h2 sp Hwf2) as [Hwf3 Hl3]; [set_solver|].
       split; [done|]. left. split; [done|]. rewrite Hl3, Hl2, Hl1. set_solver. }
  destruct (kmalloc_some _ _ _ _ Hwf1 E2) as (Hwf2 & Hf2 & Hz2 & Hl2).
  set (cs := CSpace sp _ bp _ _ _). split; [done|]. right. split; [done|].
  assert (forall i, 0 <= i -> taken cs i = (i =? 0)) as Ht.
  { intros i Hi. unfold taken, cs. cbn [free_bitmap].
    change (<[0%nat:=Z.lor 0 (Z.shiftl 1 0)]> (replicate (Z.to_nat 8) 0))
      with ([1] ++ replicate 7 0).
    rewrite bm_bit_app_zero by done. unfold bm_bit.
    destruct (Z.eqb_spec i 0) as [->|]; [done|].
    destruct (getz [1] (i / 32)) eqn:E; [|done].
    pose proof (getz_Some_lt _ _ _ E) as Hlt. simpl in Hlt.
    apply getz_Some in E as [_ E]. replace (Z.to_nat (i / 32)) with 0%nat in E by lia.
    simplify_eq/=. assert (0 < i mod 32).
    { pose proof (Z.div_mod i 32). pose proof (Z.mod_pos_bound i 32). lia. }
    apply Z.bits_above_log2; simpl; lia. }
  assert (cs_shape cs) as Hsh.
  { split; try done; simpl; [|set_solver].
    repeat constructor; (done || (unfold in_word; lia)). }
  assert (forall i c, getz (slots cs) i = Some c -> in_use c = false) as Hun.
  { intros i c Hg. apply getz_Some in Hg as [_ Hg]. by apply lookup_replicate in Hg as [-> _]. }
  split; [split; [done|]|split; [|split]].
  - intros i Hi Hti. rewrite Ht in Hti by lia. lia.
  - intros i c Hi Hg Hu. by rewrite (Hun i c Hg) in Hu.
  - intros i. unfold granted. destruct (Z.ltb_spec 0 i); [|done]. rewrite Ht by lia.
    destruct (Z.eqb_spec i 0); [lia|done].
  - unfold cs_owns, arrays, cs. cbn [slots_ptr bitmap_ptr].
    split; [split; [done|set_solver]|]. rewrite Hl2, Hl1. set_solver.
Qed.

Lemma cspace_destroy_spec cs (h : H) :
  cs_shape cs -> cs_owns cs h ->
  let '(_, h') := cspace_destroy cs h in kwf h' /\ klive h' = klive h ∖ arrays cs.
Proof.
  intros Hsh [Hwf Hown]. destruct (sh_ptrs _ Hsh) as (Hs & Hb & Hne).
  unfold cspace_destroy, arrays in *.
  rewrite !(proj2 (Z.eqb_neq _ 0)) by done.
  destruct (kfree_live h (slots_ptr cs) Hwf) as [Hwf3 Hl3]; [set_solver|].
  destruct (kfree_live _ (bitmap_ptr cs) Hwf3) as [Hwf4 Hl4]; [set_solver|].
  split; [done|]. rewrite Hl4, Hl3. set_solver.
Qed.

(** Initialising a space either fails leaving the heap as it was, or
    yields an empty well-formed space (slot 0 reserved, nothing granted, no
    slot marked in use) owning two new arrays; destroying a space returns
    exactly its two arrays to the heap. *)
Theorem cspace_init_destroy cs0 (h : H) :
  kwf h ->
  let '(r, cs, h1) := cspace_init cs0 h in
  kwf h1 /\
  ((r = -1 /\ klive h1 = klive h) \/
   (r = 0 /\ cs_wf cs /\ cs_exact cs /\ (forall i, granted cs i = None) /\
    cs_owns cs h1 /\ klive h1 ∖ arrays cs = klive h /\
    let '(_, h2) := cspace_destroy cs h1 in kwf h2 /\ klive h2 = klive h)).
Proof.
  intros Hwf. pose proof (cspace_init_spec cs0 h Hwf) as Hi.
  destruct (cspace_init cs0 h) as [[r cs] h1].
  destruct Hi as (Hwf1 & [?|(-> & Hcs & Hex & Hg & Hown & Hl)]); [by eauto|].
  split; [done|]. right. pose proof (cspace_destroy_spec cs h1 (proj1 Hcs) Hown) as Hd.
  destruct (cspace_destroy cs h1). rewrite Hl in Hd. done.
Qed.

(** ** Lookups *)

Lemma lookup_run cs slot :
  cs_wf cs ->
  cspace_lookup cs slot = Ret (if slot_in_table cs slot then
    match getz (slots cs) slot with
    | Some c => if in_use c then Some c else None
    | None => None
    end else None).
Proof.
  intros [Hsh _]. unfold cspace_lookup.
  destruct (slot_in_table cs slot) eqn:E; cbn [negb]; [|done].
  apply slot_in_table_lt in E; [|done].
  destruct (getz_lt (slots cs) slot) as [c Hc]; [rewrite (sh_slots _ Hsh); lia|].
  rewrite Hc, (rd_getz _ _ _ Hc). cbn [mbind out_bind]. by destruct (in_use c).
Qed.

(** The two lookups agree. *)
Lemma lookup_snapshot_lookup cs slot :
  cs_wf cs ->
  exists o, cspace_lookup cs slot = Ret o /\
    cspace_lookup_snapshot cs slot =
      Ret (match o with Some c => (0, Some c) | None => (-1, None) end).
Proof.
  intros Hwf. pose proof (lookup_run cs slot Hwf) as Hl. eexists. split; [exact Hl|].
  unfold cspace_lookup, cspace_lookup_snapshot in *.
  destruct (negb (slot_in_table cs slot)); [by injection Hl as <-|].
  destruct (rd (slots cs) slot) as [c| |]; cbn [mbind out_bind] in *; [|done..].
  destruct (negb (in_use c)); by injection Hl as <-.
Qed.

(** In a space where only granted slots are marked in use, [cspace_lookup]
    and [cspace_lookup_snapshot] answer, for every integer slot number, with
    exactly the granted capability or with failure. *)
Theorem cspace_lookup_exact cs (slot : Z) :
  cs_wf cs -> cs_exact cs ->
  cspace_lookup cs slot = Ret (granted cs slot) /\
  cspace_lookup_snapshot cs slot =
    Ret (match granted cs slot with Some c => (0, Some c) | None => (-1, None) end).
Proof.
  intros Hwf Hex.
  assert (cspace_lookup cs slot = Ret (granted cs slot)) as Hl.
  { rewrite lookup_run by done. f_equal. destruct Hwf as [Hsh Hu]. unfold granted.
    destruct (slot_in_table cs slot) eqn:E.
    - apply slot_in_table_lt in E; [|done].
      destruct (getz_lt (slots cs) slot) as [c Hc]; [rewrite (sh_slots _ Hsh); lia|].
      rewrite Hc. destruct (Z.ltb_spec 0 slot) as [Hpos|Hz]; simpl.
      + destruct (in_use c) eqn:Hin; [by rewrite (Hex slot c)|].
        destruct (taken cs slot) eqn:Ht; [|done].
        destruct (Hu slot) as (c' & ? & ?); [lia|done|]. congruence.
      + assert (slot = 0) as -> by lia. pose proof (sh_slot0 _ Hsh) as Hs0.
        rewrite Hc in Hs0. simpl in Hs0. by injection Hs0 as ->.
    - destruct (Z.ltb_spec 0 slot); [|done]. simpl.
      destruct (taken cs slot) eqn:Ht; [|done].
      apply taken_lt in Ht; [|done].
      assert (slot_in_table cs slot = true) by (apply slot_in_table_lt; [done|lia]).
      congruence. }
  split; [done|]. revert Hl. unfold cspace_lookup, cspace_lookup_snapshot.
  destruct (negb (slot_in_table cs slot)); [by intros [= <-]|].
  destruct (rd (slots cs) slot) as [c| |]; cbn [mbind out_bind]; [|done..].
  destruct (negb (in_use c)); by intros [= <-].
Qed.

(** When the allocator zero-fills (as the arm64 kmalloc does), allocation,
    release and transfer all preserve the property that only granted slots
    are marked in use, so lookups stay exact. *)
Theorem cspace_exact_invariant :
  (forall n, in_use (js n) = false) ->
  (forall cs type rights object_id (h : H), cs_wf cs -> cs_exact cs -> cs_owns cs h ->
     returns (cspace_alloc_slot js jw cs type rights object_id h)
       (fun '(_, cs', _) => cs_exact cs')) /\
  (forall (S : Type) (rel : Z -> S -> out S) cs slot s r cs' s', cs_wf cs -> cs_exact cs ->
     cspace_free_slot rel cs slot s = Ret (r, cs', s') -> cs_exact cs') /\
  (forall fa ta from to slot c (h : H), fa <> ta -> cs_wf from -> cs_wf to ->
     cs_exact from -> cs_exact to -> cs_owns to h -> granted from slot = Some c ->
     returns (cspace_move js jw fa ta from to slot h)
       (fun '(_, from', to', _) => cs_exact from' /\ cs_exact to')).
Proof.
  intros Hjs. split; [|split].
  - intros. eapply returns_mono; [by apply cspace_alloc_slot_spec|].
    intros [[? ?] ?] (_ & _ & _ & Hex). by apply Hex.
  - intros S rel cs slot s r cs' s' Hwf Hex. unfold cspace_free_slot.
    destruct (slot_in_table cs slot) eqn:Htab; cbn [negb]; [|by intros [= <- <- <-]].
    destruct (rd (slots cs) slot) as [c| |] eqn:Hrd; cbn [mbind out_bind]; [|done..].
    assert (getz (slots cs) slot = Some c) as Hc.
    { unfold rd, deref in Hrd. destruct (getz (slots cs) slot); congruence. }
    destruct (in_use c) eqn:Hin; cbn [negb]; [|by intros [= <- <- <-]].
    destruct (clear_slot cs slot c Hwf Htab Hc Hin) as (sl & bm & -> & -> & _ & _ & _ & He).
    cbn [mbind out_bind]. intros Heq.
    destruct (if cap_type c =? CAP_PORT then rel (object_id c) s else Ret s);
      cbn [mbind out_bind] in Heq; [|done..]. injection Heq as <- <- <-. by apply He.
  - intros. eapply returns_mono; [by eapply (cspace_move_spec fa ta from to slot c h); auto using granted_lookup|].
    intros [[[? ?] ?] ?] (_ & _ & _ & _ & _ & Hf & Ht). auto.
Qed.

(** Growth copies the old slots but never initialises the new half of the
    table: where the fresh block happens to hold a non-zero [in_use] word, a
    lookup succeeds on a slot that was never granted. *)
Theorem cspace_grow_exposes_junk cs (h : H) cs' h' (i : Z) :
  cs_wf cs -> cs_owns cs h -> cspace_grow js jw cs h = Ret (0, cs', h') ->
  max_slots cs <= i < max_slots cs' -> in_use (js (Z.to_nat i)) = true ->
  granted cs' i = None /\ cspace_lookup cs' i = Ret (Some (js (Z.to_nat i))).
Proof.
  intros [Hsh Hu] Hown Hgrow Hi Hin. pose proof (sh_max _ Hsh).
  pose proof (cspace_grow_spec js jw cs h Hsh Hown) as Hs. rewrite Hgrow in Hs.
  destruct Hs as [(? & _)|(_ & Hsh' & _ & Hmax & Hold & Hnew & Ht)]; [done|].
  split.
  - apply granted_none_taken. rewrite Ht by lia. apply taken_ge; [done|lia].
  - unfold cspace_lookup. rewrite (proj2 (slot_in_table_lt cs' i Hsh')) by lia.
    cbn [negb]. rewrite (rd_getz _ _ _ (Hnew i Hi)). cbn [mbind out_bind]. by rewrite Hin.
Qed.

(** Moving a slot of a space into the same space takes its lock twice:
    the call never returns. *)
Theorem cspace_move_self_deadlock (a : Z) cs (slot : Z) (h : H) :
  slot_in_table cs slot = true -> cspace_move js jw a a cs cs slot h = Hang.
Proof.
  intros Htab. unfold cspace_move, cspace_lock_pair, spin_lock. rewrite Htab, Z.ltb_irrefl.
  cbn [negb]. rewrite decide_False by set_solver. cbn [mbind out_bind].
  rewrite decide_True by set_solver. done.
Qed.
End theorems.

(** ** Handles *)

(** A handle made from a task id and a slot number decodes to both. *)
Theorem handle_roundtrip (tid slot : Z) :
  in_u32 tid -> 0 <= slot < 2 ^ 31 ->
  handle_task_id (task_make_handle tid slot) = tid /\
  handle_slot (task_make_handle tid slot) = slot /\
  in_u64 (task_make_handle tid slot).
Proof.
  intros Ht Hs. unfold in_u32, in_u64, handle_task_id, handle_slot, task_make_handle in *.
  change 0x7FFFFFFF with (Z.ones 31). rewrite (Z.land_ones slot), (Z.mod_small slot) by lia.
  rewrite (u32_small slot) by (unfold in_u32; lia).
  rewrite Z.shiftl_mul_pow2, u64_small by (unfold in_u64; lia).
  assert (Z.lor (tid * 2 ^ 32) slot = tid * 2 ^ 32 + slot) as -> by (apply lor_add; lia).
  rewrite Z.shiftr_div_pow2, Z.div_add_l, Z.div_small, Z.add_0_r by lia.
  rewrite u32_small by done. rewrite Z.land_ones by lia.
  split; [done|]. split; [|lia].
  replace (tid * 2 ^ 32) with (tid * 2 * 2 ^ 31) by lia.
  rewrite Z.add_comm, Z_mod_plus_full. apply Z.mod_small. lia.
Qed.

(** ** Witnesses *)

(** A fresh space on a small heap, and the same space with one port granted. *)
Definition no_space : cspace := CSpace 0 [] 0 [] 0 0.
Definition space0 : cspace := (cspace_init no_space (RefHeap 1 10 ∅)).1.2.
Definition heap0 : ref_heap := (cspace_init no_space (RefHeap 1 10 ∅)).2.
Definition dirty_slot (n : nat) : cslot := CSlot 7 CAP_PORT 3 true.
Definition port_slot : cslot := CSlot 7 CAP_PORT 3 true.
Definition space1 : cspace :=
  match cspace_alloc_slot dirty_slot Z.of_nat space0 CAP_PORT 3 7 heap0 with
  | Ret (_, cs, _) => cs
  | _ => no_space
  end.

Lemma heap0_wf : kwf (RefHeap 1 10 ∅).
Proof. split; [done|]. apply set_Forall_empty. Qed.

Lemma space0_wf : cs_wf space0 /\ cs_exact space0 /\ cs_owns space0 heap0.
Proof.
  pose proof (cspace_init_spec no_space _ heap0_wf) as Hi. unfold space0, heap0.
  destruct (cspace_init no_space (RefHeap 1 10 ∅)) as [[r cs] h] eqn:E.
  destruct Hi as (_ & [(-> & _)|(_ & ? & ? & _ & ? & _)]); [|done].
  exfalso. vm_compute in E. discriminate E.
Qed.

Lemma space1_granted : granted space1 1 = Some port_slot.
Proof. vm_compute. reflexivity. Qed.

Lemma space1_wf : cs_wf space1.
Proof.
  destruct space0_wf as (Hwf & _ & Hown).
  pose proof (cspace_alloc_slot_spec dirty_slot Z.of_nat space0 CAP_PORT 3 7 heap0 Hwf Hown) as Ha.
  pose proof space1_granted as Hg. unfold space1 in *.
  destruct (cspace_alloc_slot dirty_slot Z.of_nat space0 CAP_PORT 3 7 heap0)
    as [[[s cs] h]| |]; [apply Ha|done..].
Qed.

Lemma space1_exact : cs_exact space1.
Proof.
  intros i c Hi Hc Hin. destruct (Z.eq_dec i 1) as [->|Hne]; [vm_compute; reflexivity|].
  exfalso. apply getz_Some in Hc as [_ Hc].
  assert (slots space1 = zero_slot :: port_slot :: replicate 254 zero_slot) as Hsl
    by (vm_compute; reflexivity).
  rewrite Hsl in Hc. destruct (Z.to_nat i) as [|[|n]] eqn:En; [lia|lia|].
  cbn [lookup list_lookup] in Hc. apply lookup_replicate in Hc as [-> _]. done.
Qed.

Lemma cspace_alloc_slot_correct_witness :
  returns (cspace_alloc_slot dirty_slot Z.of_nat space0 CAP_PORT 3 7 heap0)
    (fun '(slot, cs', _) => cs_wf cs').
Proof.
  eapply returns_mono;
    [exact (cspace_alloc_slot_correct dirty_slot Z.of_nat space0 CAP_PORT 3 7 heap0
              (proj1 space0_wf) (proj2 (proj2 space0_wf)))|].
  intros [[? ?] ?] [? _]. assumption.
Defined.

Lemma cspace_free_slot_correct_witness :
  exists cs', cspace_free_slot (fun _ n => Ret (S n)) space1 1 0%nat = Ret (0, cs', 1%nat).
Proof.
  destruct (cspace_free_slot_correct (fun _ n => Ret (S n)) space1 1 0%nat space1_wf)
    as (cs' & _ & _ & _ & _ & Heq).
  exists cs'. exact Heq.
Defined.

Lemma cspace_move_correct_witness :
  returns (cspace_move dirty_slot Z.of_nat 1 2 space1 space0 1 heap0)
    (fun '(_, from', to', _) => cs_wf from' /\ cs_wf to').
Proof.
  eapply returns_mono;
    [exact (cspace_move_correct dirty_slot Z.of_nat 1 2 space1 space0 1 port_slot heap0
              ltac:(lia) space1_wf (proj1 space0_wf) (proj2 (proj2 space0_wf)) space1_granted)|].
  intros [[[? ?] ?] ?] (? & ? & _). split; assumption.
Defined.

Lemma cspace_init_destroy_witness :
  (cspace_init no_space (RefHeap 1 10 ∅)).1.1 = 0 /\
  let '(r, cs, h1) := cspace_init no_space (RefHeap 1 10 ∅) in kwf h1.
Proof.
  split; [reflexivity|].
  pose proof (cspace_init_destroy no_space (RefHeap 1 10 ∅) heap0_wf) as Hi.
  destruct (cspace_init no_space (RefHeap 1 10 ∅)) as [[r cs] h]. exact (proj1 Hi).
Defined.

Lemma cspace_lookup_exact_witness : cspace_lookup space1 1 = Ret (Some port_slot).
Proof.
  rewrite (proj1 (cspace_lookup_exact space1 1 space1_wf space1_exact)), space1_granted.
  reflexivity.
Defined.

Lemma cspace_exact_invariant_witness :
  returns (cspace_alloc_slot (fun _ => zero_slot) Z.of_nat space0 CAP_PORT 3 7 heap0)
    (fun '(_, cs', _) => cs_exact cs').
Proof.
  destruct (cspace_exact_invariant (H := ref_heap) (fun _ => zero_slot) Z.of_nat
              (fun _ => eq_refl)) as [Halloc _].
  exact (Halloc space0 CAP_PORT 3 7 heap0 (proj1 space0_wf) (proj1 (proj2 space0_wf))
           (proj2 (proj2 space0_wf))).
Defined.

(** A slot number above 255 that nobody allocated resolves to a port. *)
Lemma cspace_grow_exposes_junk_witness :
  exists cs' h', cspace_grow dirty_slot Z.of_nat space0 heap0 = Ret (0, cs', h') /\
    granted cs' 300 = None /\ cspace_lookup cs' 300 = Ret (Some port_slot).
Proof.
  destruct (cspace_grow dirty_slot Z.of_nat space0 heap0) as [[[r cs'] h']| |] eqn:E;
    [|vm_compute in E; discriminate E..].
  assert (r = 0 /\ max_slots cs' = 512) as [-> Hmax]
    by (vm_compute in E; inversion E; split; reflexivity).
  exists cs', h'. split; [reflexivity|].
  apply (cspace_grow_exposes_junk dirty_slot Z.of_nat space0 heap0 cs' h' 300
           (proj1 space0_wf) (proj2 (proj2 space0_wf)) E); [|reflexivity].
  rewrite Hmax. change (max_slots space0) with 256. lia.
Defined.

Lemma cspace_move_self_deadlock_witness :
  cspace_move dirty_slot Z.of_nat 5 5 space1 space1 1 heap0 = Hang.
Proof. exact (cspace_move_self_deadlock dirty_slot Z.of_nat 5 space1 1 heap0 eq_refl). Defined.

Lemma handle_roundtrip_witness :
  handle_task_id (task_make_handle 9 300) = 9 /\ handle_slot (task_make_handle 9 300) = 300.
Proof.
  assert (in_u32 9) as H9 by (unfold in_u32; lia).
  destruct (handle_roundtrip 9 300 H9 ltac:(lia)) as (H1 & H2 & _). exact (conj H1 H2).
Defined.
