(* ===== verification/Port.v ===== *)
(** * IPC ports (mk/vm/port.c, mk/include/port.h)

    Port objects live in kernel memory ([ports], by address: an address
    that is not a key of the map is freed or was never a port, and
    dereferencing it is undefined behaviour).  The global [port_table] is the
    source of liveness; each port holds a circular message queue, the task
    id that sent each message, a notify flag and a bounded list of waiters.
    This file models the table, the queue and the operations that touch a
    single port; capability transfer and the system calls are in Ipc.v. *)

From stdpp Require Import base numbers list gmap sets.
From Stdlib Require Import ZArith Lia.
From S2P Require Import Prelude Cspace.

#[local] Open Scope Z_scope.

(** ** Data *)

Definition PORT_MIN_QUEUE_SIZE : Z := 16.
Definition PORT_MAX_QUEUE_SIZE : Z := 2048.
Definition PORT_MAGIC : Z := 0x504F5254.
Definition PORT_TABLE_MAX : Z := 512.
Definition IPC_DATA_SIZE : Z := 64.
Definition IPC_DISPOSE_MAX : Z := 4.
Definition PORT_WAITERS_MAX : Z := 8.

Definition IPC_OK : Z := 0.
Definition IPC_ERR_NOSLOT : Z := -1.
Definition IPC_ERR_FULL : Z := -2.
Definition IPC_ERR_EMPTY : Z := -3.
Definition IPC_ERR_TIMEOUT : Z := -4.
Definition IPC_ERR_FAULT : Z := -5.
Definition IPC_ERR_INVAL : Z := -6.

Record ipc_dispose := IpcDispose { d_type : Z; d_rights : Z; d_handle : Z }.

Record ipc_msg := IpcMsg {
  msg_id : Z;
  data_size : Z;
  data : list Z;
  ndispose : Z;
  dispose : list ipc_dispose;
}.

(** The two queue pointers come with the arrays they point to; the port's
    spinlock is left out, each critical section being one step. *)
Record ipc_port := IpcPort {
  magic : Z;
  ref_count : Z;
  queue_ptr : Z;
  queue : list ipc_msg;
  senders_ptr : Z;
  queue_senders : list Z;
  queue_size : Z;
  queue_head : Z;
  queue_tail : Z;
  queue_count : Z;
  pending_notify : Z;
  waiters : list Z;
  waiter_count : Z;
}.

Definition sizeof_ipc_port : Z := 112.
Definition sizeof_ipc_msg : Z := 144.

Definition PORT_IS_VALID (p : ipc_port) : bool := magic p =? PORT_MAGIC.

(** Field updates. *)
Definition set_ref (n : Z) (p : ipc_port) : ipc_port :=
  IpcPort (magic p) n (queue_ptr p) (queue p) (senders_ptr p) (queue_senders p) (queue_size p)
    (queue_head p) (queue_tail p) (queue_count p) (pending_notify p) (waiters p) (waiter_count p).
Definition set_magic (m : Z) (p : ipc_port) : ipc_port :=
  IpcPort m (ref_count p) (queue_ptr p) (queue p) (senders_ptr p) (queue_senders p) (queue_size p)
    (queue_head p) (queue_tail p) (queue_count p) (pending_notify p) (waiters p) (waiter_count p).
Definition set_ring (q : list ipc_msg) (s : list Z) (h t c : Z) (p : ipc_port) : ipc_port :=
  IpcPort (magic p) (ref_count p) (queue_ptr p) q (senders_ptr p) s (queue_size p)
    h t c (pending_notify p) (waiters p) (waiter_count p).
Definition set_notify (b : Z) (p : ipc_port) : ipc_port :=
  IpcPort (magic p) (ref_count p) (queue_ptr p) (queue p) (senders_ptr p) (queue_senders p)
    (queue_size p) (queue_head p) (queue_tail p) (queue_count p) b (waiters p) (waiter_count p).
Definition set_waiters (w : list Z) (n : Z) (p : ipc_port) : ipc_port :=
  IpcPort (magic p) (ref_count p) (queue_ptr p) (queue p) (senders_ptr p) (queue_senders p)
    (queue_size p) (queue_head p) (queue_tail p) (queue_count p) (pending_notify p) w n.

Section ops.
Context {H S : Type} `{!KMem H, !Sched S}.
(** What fresh kmalloc blocks hold before they are written. *)
Context (junk_port : ipc_port) (junk_msg : nat -> ipc_msg) (junk_sender : nat -> Z).

Record pstate := PState {
  ports : gmap Z ipc_port;
  port_table : list Z;
  pheap : H;
  psched : S;
}.

Definition set_port (a : Z) (p : ipc_port) (st : pstate) : pstate :=
  PState (<[a := p]> (ports st)) (port_table st) (pheap st) (psched st).
Definition set_table (t : list Z) (st : pstate) : pstate :=
  PState (ports st) t (pheap st) (psched st).
Definition set_sched (s : S) (st : pstate) : pstate :=
  PState (ports st) (port_table st) (pheap st) s.
Definition set_pheap (h : H) (st : pstate) : pstate :=
  PState (ports st) (port_table st) h (psched st).

(** The first index of the table that holds [p]. *)
Definition table_find (t : list Z) (p : Z) : option nat := fst <$> list_find (fun q => q = p) t.

(** ** References

    The counter is an [int]: counting beyond its range is undefined. *)
Definition INT_MAX : Z := 0x7FFFFFFF.

(** Returns NULL as 0. *)
Definition port_ref_raw (raw : Z) (st : pstate) : out (Z * pstate) :=
  if raw =? 0 then Ret (0, st)
  else
    match table_find (port_table st) raw with
    | None => Ret (0, st)
    | Some _ =>
        p ← deref (ports st !! raw);
        if negb (magic p =? PORT_MAGIC) then Ret (0, st)
        else if ref_count p =? INT_MAX then UB
        else Ret (raw, set_port raw (set_ref (ref_count p + 1) p) st)
    end.

(** The loop under [port_table_lock] that drops one reference: shared by
    [port_release] and [port_destroy].  The flag is [dead]. *)
Definition drop_ref (port : Z) (st : pstate) : out (bool * pstate) :=
  match table_find (port_table st) port with
  | None => Ret (false, st)
  | Some i =>
      p ← deref (ports st !! port);
      if ref_count p =? - INT_MAX - 1 then UB else
      let st := set_port port (set_ref (ref_count p - 1) p) st in
      if ref_count p - 1 <=? 0
      then Ret (true, set_table (<[i := 0]> (port_table st)) st)
      else Ret (false, st)
  end.

(** The frees at the end of both. *)
Definition port_free (port : Z) (st : pstate) : out pstate :=
  p ← deref (ports st !! port);
  let h := kfree (queue_ptr p) (pheap st) in
  let h := kfree (senders_ptr p) h in
  let h := kfree port h in
  Ret (PState (delete port (ports st)) (port_table st) h (psched st)).

Definition port_release (port : Z) (st : pstate) : out pstate :=
  if port =? 0 then Ret st
  else
    '(dead, st) ← drop_ref port st;
    if negb dead then Ret st else port_free port st.

(** ** The message queue *)

(** [for (i = 0; i < count; i++) { src = (head + i) % size; ... }] *)
Fixpoint copy_ring (n : nat) (i : Z) (p : ipc_port) (new_q : list ipc_msg) (new_s : list Z) :
    out (list ipc_msg * list Z) :=
  match n with
  | O => Ret (new_q, new_s)
  | Datatypes.S n =>
      src ← umod (u32 (queue_head p + i)) (queue_size p);
      m ← rd (queue p) src;
      new_q ← wr new_q i m;
      s ← rd (queue_senders p) src;
      new_s ← wr new_s i s;
      copy_ring n (i + 1) p new_q new_s
  end.

Definition port_grow_queue (p : ipc_port) (h : H) : out (Z * ipc_port * H) :=
  let new_size := if queue_size p <? PORT_MIN_QUEUE_SIZE
                  then PORT_MIN_QUEUE_SIZE else u32 (queue_size p * 2) in
  if PORT_MAX_QUEUE_SIZE <? new_size then Ret (-1, p, h)
  else
    match kmalloc (new_size * sizeof_ipc_msg) h with
    | (None, h) => Ret (-1, p, h)
    | (Some nq, h) =>
        match kmalloc (new_size * sizeof_u32) h with
        | (None, h) => Ret (-1, p, kfree nq h)
        | (Some ns, h) =>
            '(new_q, new_s) ← copy_ring (Z.to_nat (queue_count p)) 0 p
                                (fresh_arr junk_msg new_size) (fresh_arr junk_sender new_size);
            let h := kfree (queue_ptr p) h in
            let h := kfree (senders_ptr p) h in
            Ret (0, IpcPort (magic p) (ref_count p) nq new_q ns new_s new_size 0 (queue_count p)
                      (queue_count p) (pending_notify p) (waiters p) (waiter_count p), h)
        end
    end.

(** ** Waiters *)

Fixpoint waiter_in (n : nat) (i : Z) (w : list Z) (tid : Z) : out bool :=
  match n with
  | O => Ret false
  | Datatypes.S n =>
      x ← rd w i;
      if x =? tid then Ret true else waiter_in n (i + 1) w tid
  end.

Definition port_wait_register_locked (p : ipc_port) (tid : Z) : out ipc_port :=
  found ← waiter_in (Z.to_nat (waiter_count p)) 0 (waiters p) tid;
  if (found : bool) then Ret p
  else if PORT_WAITERS_MAX <=? waiter_count p then Ret p
  else
    w ← wr (waiters p) (waiter_count p) tid;
    Ret (set_waiters w (waiter_count p + 1) p).

Fixpoint wake_waiters (n : nat) (i : Z) (w : list Z) (s : S) : out S :=
  match n with
  | O => Ret s
  | Datatypes.S n => t ← rd w i; wake_waiters n (i + 1) w (wake t s)
  end.

Definition port_wake_all_locked (p : ipc_port) (s : S) : out (ipc_port * S) :=
  s ← wake_waiters (Z.to_nat (waiter_count p)) 0 (waiters p) s;
  Ret (set_waiters (waiters p) 0 p, s).

(** ** Creation and destruction *)

Definition port_create (st : pstate) : Z * pstate :=
  match kmalloc sizeof_ipc_port (pheap st) with
  | (None, h) => (0, set_pheap h st)
  | (Some a, h) =>
      match kmalloc (PORT_MIN_QUEUE_SIZE * sizeof_ipc_msg) h with
      | (None, h) => (0, set_pheap (kfree a h) st)
      | (Some q, h) =>
          match kmalloc (PORT_MIN_QUEUE_SIZE * sizeof_u32) h with
          | (None, h) => (0, set_pheap (kfree a (kfree q h)) st)
          | (Some qs, h) =>
              match table_find (port_table st) 0 with
              | None => (0, set_pheap (kfree a (kfree q (kfree qs h))) st)
              | Some i =>
                  let p := IpcPort PORT_MAGIC 1 q (fresh_arr junk_msg PORT_MIN_QUEUE_SIZE)
                             qs (fresh_arr junk_sender PORT_MIN_QUEUE_SIZE) PORT_MIN_QUEUE_SIZE
                             0 0 0 0 (waiters junk_port) 0 in
                  (a, PState (<[a := p]> (ports st)) (<[i := a]> (port_table st)) h (psched st))
              end
          end
      end
  end.

Definition port_destroy (port : Z) (st : pstate) : out (Z * pstate) :=
  if port =? 0 then Ret (-1, st)
  else
    p ← deref (ports st !! port);
    if negb (PORT_IS_VALID p) then Ret (-1, st)
    else
      '(p, s) ← port_wake_all_locked p (psched st);
      let st := set_sched s (set_port port (set_magic 0 p) st) in
      '(dead, st) ← drop_ref port st;
      if negb dead then Ret (0, st)
      else st ← port_free port st; Ret (0, st).

(** ** Send, receive, notify *)

(** The dispose handles of [msg], from index [i] on, against the C-space of
    the sending task. *)
Fixpoint validate_dispose_loop (n : nat) (i : Z) (task_id : Z) (cs : cspace) (msg : ipc_msg) :
    out Z :=
  match n with
  | O => Ret 0
  | Datatypes.S n =>
      d ← rd (dispose msg) i;
      if negb (handle_task_id (d_handle d) =? task_id) then Ret (-1)
      else
        '(r, snap) ← cspace_lookup_snapshot cs (handle_slot (d_handle d));
        if r <? 0 then Ret (-1)
        else
          snap ← deref snap;
          if negb (in_use snap) then Ret (-1)
          else if negb (cap_type snap =? d_type d) then Ret (-1)
          else validate_dispose_loop n (i + 1) task_id cs msg
  end.

Definition validate_dispose (sender : option (Z * cspace)) (msg : ipc_msg) : out Z :=
  if ndispose msg =? 0 then Ret 0
  else
    match sender with
    | None => Ret (-1)
    | Some (task_id, cs) =>
        if IPC_DISPOSE_MAX <? ndispose msg then Ret (-1)
        else validate_dispose_loop (Z.to_nat (ndispose msg)) 0 task_id cs msg
    end.

(** Copying a message into the queue slot [old]. *)
Definition fill_slot (old msg : ipc_msg) : out ipc_msg :=
  let size := if IPC_DATA_SIZE <? data_size msg then IPC_DATA_SIZE else data_size msg in
  d ← memcpy_arr (data old) (data msg) size;
  let nd := if IPC_DISPOSE_MAX <? ndispose msg then IPC_DISPOSE_MAX else ndispose msg in
  ds ← memcpy_arr (dispose old) (dispose msg) nd;
  Ret (IpcMsg (msg_id msg) size d nd ds).

Definition enqueue (p : ipc_port) (msg : ipc_msg) (sender_id : Z) : out ipc_port :=
  old ← rd (queue p) (queue_tail p);
  slot ← fill_slot old msg;
  q ← wr (queue p) (queue_tail p) slot;
  qs ← wr (queue_senders p) (queue_tail p) sender_id;
  tail ← umod (u32 (queue_tail p + 1)) (queue_size p);
  Ret (set_ring q qs (queue_head p) tail (u32 (queue_count p + 1)) p).

Definition port_send (port : Z) (msg : ipc_msg) (sender : option (Z * cspace)) (st : pstate) :
    out (Z * pstate) :=
  if port =? 0 then Ret (IPC_ERR_NOSLOT, st)
  else
    p ← deref (ports st !! port);
    if negb (PORT_IS_VALID p) then Ret (IPC_ERR_NOSLOT, st)
    else
      v ← validate_dispose sender msg;
      if v <? 0 then Ret (IPC_ERR_INVAL, st)
      else
        '(r, p, h) ← (if queue_size p <=? queue_count p
                      then port_grow_queue p (pheap st) else Ret (0, p, pheap st));
        let st := set_pheap h st in
        if r <? 0 then Ret (IPC_ERR_FULL, set_port port p st)
        else
          p ← enqueue p msg (match sender with Some (tid, _) => tid | None => 0 end);
          '(p, s) ← port_wake_all_locked p (psched st);
          Ret (IPC_OK, set_sched s (set_port port p st)).

(** The part of [port_recv] under the port lock: the result code, the
    received message with the recorded sender id, and the port.  [buf] is
    the caller's message buffer; [cur] the current thread, if any. *)
Definition dequeue (p : ipc_port) (buf : ipc_msg) : out (ipc_msg * Z * ipc_port) :=
  slot ← rd (queue p) (queue_head p);
  sender ← rd (queue_senders p) (queue_head p);
  d ← memcpy_arr (data buf) (data slot) (data_size slot);
  ds ← memcpy_arr (dispose buf) (dispose slot) (ndispose slot);
  head ← umod (u32 (queue_head p + 1)) (queue_size p);
  Ret (IpcMsg (msg_id slot) (data_size slot) d (ndispose slot) ds, sender,
       set_ring (queue p) (queue_senders p) head (queue_tail p) (u32 (queue_count p - 1)) p).

Definition notify_msg (buf : ipc_msg) : ipc_msg := IpcMsg 0 0 (data buf) 0 (dispose buf).

Inductive recv_result :=
| Notified (msg : ipc_msg)
| NoThread
| Parked
| Received (msg : ipc_msg) (sender_tid : Z).

Definition port_recv_locked (port : Z) (p : ipc_port) (buf : ipc_msg) (cur : option Z)
    (st : pstate) : out (recv_result * pstate) :=
  if (queue_count p =? 0) && negb (pending_notify p =? 0)
  then Ret (Notified (notify_msg buf), set_port port (set_notify 0 p) st)
  else if queue_count p =? 0 then
    match cur with
    | None => Ret (NoThread, st)
    | Some tid =>
        p ← port_wait_register_locked p tid;
        Ret (Parked, set_sched (park tid (psched st)) (set_port port p st))
    end
  else
    '(msg, sender, p) ← dequeue p buf;
    Ret (Received msg sender, set_port port p st).

Definition port_notify (port : Z) (st : pstate) : out (Z * pstate) :=
  if port =? 0 then Ret (IPC_ERR_NOSLOT, st)
  else
    p ← deref (ports st !! port);
    if negb (PORT_IS_VALID p) then Ret (IPC_ERR_NOSLOT, st)
    else
      '(p, s) ← port_wake_all_locked (set_notify 1 p) (psched st);
      Ret (IPC_OK, set_sched s (set_port port p st)).

(** NULL as 0. *)
Definition port_from_cslot (cs : cslot) (need_rights : Z) (st : pstate) : out (Z * pstate) :=
  if negb (cap_type cs =? CAP_PORT) then Ret (0, st)
  else if Z.land (rights cs) need_rights =? 0 then Ret (0, st)
  else port_ref_raw (object_id cs) st.
End ops.
Arguments pstate : clear implicits.

(** ** Invariant of one port *)

(** A message buffer always has room for the whole payload; a message in the
    queue also has its counts in range. *)
Definition msg_shape (m : ipc_msg) : Prop :=
  Z.of_nat (length (data m)) = IPC_DATA_SIZE /\ Z.of_nat (length (dispose m)) = IPC_DISPOSE_MAX.
Definition msg_ok (m : ipc_msg) : Prop :=
  0 <= data_size m <= IPC_DATA_SIZE /\ 0 <= ndispose m <= IPC_DISPOSE_MAX.

(** What a receiver learns of a message: its id, the valid bytes and the
    valid dispose descriptors. *)
Definition msg_view (m : ipc_msg) : Z * list Z * list ipc_dispose :=
  (msg_id m, take (Z.to_nat (data_size m)) (data m), take (Z.to_nat (ndispose m)) (dispose m)).

(** The message as sent: an oversized payload is truncated. *)
Definition clip_view (m : ipc_msg) : Z * list Z * list ipc_dispose :=
  (msg_id m, take (Z.to_nat (data_size m `min` IPC_DATA_SIZE)) (data m),
   take (Z.to_nat (ndispose m `min` IPC_DISPOSE_MAX)) (dispose m)).

(** The abstract queue: what is still to be received, oldest first. *)
Definition contents (p : ipc_port) : list (Z * list Z * list ipc_dispose * Z) :=
  zip (msg_view <$> ring (queue p) (queue_head p) (queue_count p))
      (ring (queue_senders p) (queue_head p) (queue_count p)).

Definition registered (p : ipc_port) : list Z := take (Z.to_nat (waiter_count p)) (waiters p).

Record port_wf (p : ipc_port) : Prop := {
  pw_queue : Z.of_nat (length (queue p)) = queue_size p;
  pw_senders : Z.of_nat (length (queue_senders p)) = queue_size p;
  pw_size : PORT_MIN_QUEUE_SIZE <= queue_size p <= PORT_MAX_QUEUE_SIZE;
  pw_head : 0 <= queue_head p < queue_size p;
  pw_count : 0 <= queue_count p <= queue_size p;
  pw_tail : queue_tail p = (queue_head p + queue_count p) mod queue_size p;
  pw_shape : Forall msg_shape (queue p);
  pw_ok : Forall msg_ok (ring (queue p) (queue_head p) (queue_count p));
  pw_waiters : Z.of_nat (length (waiters p)) = PORT_WAITERS_MAX;
  pw_wcount : 0 <= waiter_count p <= PORT_WAITERS_MAX;
  pw_nodup : NoDup (registered p);
}.

(** Two ports that differ only in magic, references and notify flag. *)
Definition same_queue (p p' : ipc_port) : Prop :=
  queue_ptr p' = queue_ptr p /\ senders_ptr p' = senders_ptr p /\ contents p' = contents p.

Lemma port_wf_ring_ne p : port_wf p -> queue p <> [] /\ queue_senders p <> [].
Proof.
  intros Hp. pose proof (pw_queue _ Hp). pose proof (pw_senders _ Hp). pose proof (pw_size _ Hp).
  unfold PORT_MIN_QUEUE_SIZE in *. split; intros E; rewrite E in *; simpl in *; lia.
Qed.

Lemma port_wf_ptrs p m n : port_wf p -> port_wf (set_magic m p) /\ port_wf (set_ref n p) /\
  port_wf (set_notify m p).
Proof. intros [? ? ? ? ? ? ? ? ? ? ?]. split; [|split]; by split. Qed.

Lemma msg_shape_lookup q i m : Forall msg_shape q -> getz q i = Some m -> msg_shape m.
Proof. intros Hq [_ Hm]%getz_Some. by eapply Forall_lookup_1. Qed.

Lemma take_insert_snoc {A} (l r : list A) i x :
  (i < length l)%nat -> take i l = take i r -> r !! i = Some x ->
  take (S i) (<[i := x]> l) = take (S i) r.
Proof.
  intros Hi Ht Hx. rewrite (take_S_r _ i x), (take_S_r r i x) by (done || by apply list_lookup_insert_eq).
  rewrite take_insert_ge by lia. by rewrite Ht.
Qed.

Lemma copy_ring_spec p n (i : nat) new_q new_s :
  port_wf p -> (i + n <= Z.to_nat (queue_count p))%nat ->
  (i + n <= length new_q)%nat -> (i + n <= length new_s)%nat ->
  let Q := ring (queue p) (queue_head p) (queue_count p) in
  let Ss := ring (queue_senders p) (queue_head p) (queue_count p) in
  take i new_q = take i Q -> take i new_s = take i Ss -> Forall msg_shape new_q ->
  returns (copy_ring n (Z.of_nat i) p new_q new_s) (fun '(q', s') =>
    take (i + n) q' = take (i + n) Q /\ take (i + n) s' = take (i + n) Ss /\
    length q' = length new_q /\ length s' = length new_s /\ Forall msg_shape q').
Proof.
  intros Hp. destruct (port_wf_ring_ne p Hp) as [Hne1 Hne2]. revert i new_q new_s.
  induction n as [|n IH]; intros i new_q new_s Hc Hq Hs Q Ss HQ HS Hsh.
  { rewrite !Nat.add_0_r. done. }
  pose proof (pw_size _ Hp). pose proof (pw_head _ Hp). pose proof (pw_count _ Hp).
  unfold PORT_MIN_QUEUE_SIZE, PORT_MAX_QUEUE_SIZE in *.
  cbn [copy_ring]. rewrite u32_small by (unfold in_u32; lia).
  unfold umod. destruct (Z.eqb_spec (queue_size p) 0); [lia|]. cbn [mbind out_bind].
  assert (Z.of_nat (length (queue p)) = queue_size p) as Hl1 by apply Hp.
  assert (Z.of_nat (length (queue_senders p)) = queue_size p) as Hl2 by apply Hp.
  assert (ring_idx (queue p) (queue_head p) i = (queue_head p + Z.of_nat i) mod queue_size p)
    as Hi1 by (unfold ring_idx; by rewrite Hl1).
  assert (ring_idx (queue_senders p) (queue_head p) i = (queue_head p + Z.of_nat i) mod queue_size p)
    as Hi2 by (unfold ring_idx; by rewrite Hl2).
  destruct (getz_lt (queue p) (ring_idx (queue p) (queue_head p) i)) as [m Hm];
    [by apply ring_idx_range|].
  destruct (getz_lt (queue_senders p) (ring_idx (queue_senders p) (queue_head p) i)) as [t Ht];
    [by apply ring_idx_range|].
  assert (Q !! i = Some m) as HQi by (subst Q; rewrite ring_lookup by (done || lia); done).
  assert (Ss !! i = Some t) as HSi by (subst Ss; rewrite ring_lookup by (done || lia); done).
  rewrite Hi1 in Hm. rewrite Hi2 in Ht.
  rewrite (rd_getz _ _ _ Hm), (rd_getz _ _ _ Ht). cbn [mbind out_bind].
  rewrite !wr_ok by lia. cbn [mbind out_bind]. rewrite !Nat2Z.id.
  replace (Z.of_nat i + 1) with (Z.of_nat (S i)) by lia.
  eapply returns_mono.
  - apply IH; rewrite ?length_insert; try lia.
    + apply take_insert_snoc; [lia|done..].
    + apply take_insert_snoc; [lia|done..].
    + apply Forall_insert; [done|]. eapply msg_shape_lookup; [apply Hp|done].
  - intros [q' s']. rewrite !length_insert. replace (i + S n)%nat with (S i + n)%nat by lia. done.
Qed.

(** ** The queue implements a bounded FIFO *)

(** [p'] differs from [p] in its queue only. *)
Definition queue_frame (p p' : ipc_port) : Prop :=
  magic p' = magic p /\ ref_count p' = ref_count p /\ pending_notify p' = pending_notify p /\
  waiters p' = waiters p /\ waiter_count p' = waiter_count p.

Lemma zip_snoc {A B} (l : list A) (k : list B) x y :
  length l = length k -> zip (l ++ [x]) (k ++ [y]) = zip l k ++ [(x, y)].
Proof. intros. by rewrite zip_with_app. Qed.

Lemma contents_length p : port_wf p -> length (contents p) = Z.to_nat (queue_count p).
Proof.
  intros Hp. destruct (port_wf_ring_ne p Hp). unfold contents.
  rewrite length_zip, length_fmap, !length_ring by done. lia.
Qed.

Lemma fill_slot_spec old msg :
  msg_shape old -> msg_shape msg -> 0 <= data_size msg -> 0 <= ndispose msg ->
  returns (fill_slot old msg) (fun m =>
    msg_shape m /\ msg_ok m /\ msg_view m = clip_view msg).
Proof.
  intros [Ho1 Ho2] [Hm1 Hm2] Hd Hn. unfold fill_slot, IPC_DATA_SIZE, IPC_DISPOSE_MAX in *.
  set (size := if 64 <? data_size msg then 64 else data_size msg).
  set (nd := if 4 <? ndispose msg then 4 else ndispose msg).
  assert (size = data_size msg `min` 64) as Hsz by (subst size; destruct (Z.ltb_spec 64 (data_size msg)); lia).
  assert (nd = ndispose msg `min` 4) as Hnd by (subst nd; destruct (Z.ltb_spec 4 (ndispose msg)); lia).
  rewrite !memcpy_arr_ok by lia. cbn [mbind out_bind returns].
  unfold msg_shape, msg_ok, msg_view, clip_view, IPC_DATA_SIZE, IPC_DISPOSE_MAX.
  cbn [msg_id data_size data ndispose dispose].
  rewrite !length_app, !length_take, !length_drop.
  split; [lia|]. split; [lia|]. rewrite <- Hsz, <- Hnd.
  rewrite !take_app_length' by (rewrite length_take; lia). done.
Qed.

Lemma enqueue_spec p msg sid :
  port_wf p -> queue_count p < queue_size p ->
  msg_shape msg -> 0 <= data_size msg -> 0 <= ndispose msg ->
  returns (enqueue p msg sid) (fun p' =>
    port_wf p' /\ queue_frame p p' /\ queue_ptr p' = queue_ptr p /\
    senders_ptr p' = senders_ptr p /\ contents p' = contents p ++ [(clip_view msg, sid)]).
Proof.
  intros Hp Hroom Hm Hd Hn. destruct (port_wf_ring_ne p Hp) as [Hne1 Hne2].
  pose proof (pw_size _ Hp). pose proof (pw_head _ Hp). pose proof (pw_count _ Hp).
  unfold PORT_MIN_QUEUE_SIZE, PORT_MAX_QUEUE_SIZE in *.
  pose proof (Z.mod_pos_bound (queue_head p + queue_count p) (queue_size p)) as Hmod.
  rewrite <- (pw_tail _ Hp) in Hmod.
  destruct (getz_lt (queue p) (queue_tail p)) as [old Hold]; [rewrite (pw_queue _ Hp); lia|].
  unfold enqueue. rewrite (rd_getz _ _ _ Hold). cbn [mbind out_bind].
  eapply returns_bind; [apply fill_slot_spec; try done|].
  { eapply msg_shape_lookup; [apply Hp|done]. }
  intros m (Hms & Hmo & Hmv).
  rewrite (wr_ok (queue p)) by (rewrite (pw_queue _ Hp); lia). cbn [mbind out_bind].
  rewrite (wr_ok (queue_senders p)) by (rewrite (pw_senders _ Hp); lia). cbn [mbind out_bind].
  unfold umod. destruct (Z.eqb_spec (queue_size p) 0); [lia|]. cbn [mbind out_bind returns].
  rewrite !u32_small by (unfold in_u32; lia).
  assert (queue_tail p = ring_idx (queue p) (queue_head p) (Z.to_nat (queue_count p))) as Ht1.
  { unfold ring_idx. rewrite (pw_queue _ Hp), Z2Nat.id by lia. apply Hp. }
  assert (queue_tail p = ring_idx (queue_senders p) (queue_head p) (Z.to_nat (queue_count p))) as Ht2.
  { unfold ring_idx. rewrite (pw_senders _ Hp), Z2Nat.id by lia. apply Hp. }
  pose proof (ring_push (queue p) (queue_head p) (queue_count p) m) as Hr1.
  pose proof (ring_push (queue_senders p) (queue_head p) (queue_count p) sid) as Hr2.
  rewrite <- Ht1, (pw_queue _ Hp) in Hr1. rewrite <- Ht2, (pw_senders _ Hp) in Hr2.
  specialize (Hr1 ltac:(lia)). specialize (Hr2 ltac:(lia)).
  split; [|split; [done|split; [done|split; [done|]]]].
  - destruct Hp; split; cbn [queue queue_senders queue_size queue_head queue_count queue_tail
      waiters waiter_count set_ring registered]; rewrite ?length_insert; try (done || lia).
    + rewrite pw_tail0, Zplus_mod_idemp_l. f_equal. lia.
    + by apply Forall_insert.
    + rewrite Hr1. apply Forall_app. split; [done|]. by apply Forall_singleton.
  - unfold contents. cbn [queue queue_senders queue_head queue_count set_ring].
    rewrite Hr1, Hr2, fmap_app. cbn [fmap list_fmap]. rewrite zip_snoc, Hmv; [done|].
    by rewrite length_fmap, !length_ring.
Qed.

Lemma dequeue_spec p buf :
  port_wf p -> 0 < queue_count p -> msg_shape buf ->
  returns (dequeue p buf) (fun '(m, sid, p') =>
    port_wf p' /\ queue_frame p p' /\ queue_ptr p' = queue_ptr p /\
    senders_ptr p' = senders_ptr p /\ msg_shape m /\ msg_ok m /\
    contents p = (msg_view m, sid) :: contents p' /\
    drop (Z.to_nat (data_size m)) (data m) = drop (Z.to_nat (data_size m)) (data buf) /\
    drop (Z.to_nat (ndispose m)) (dispose m) = drop (Z.to_nat (ndispose m)) (dispose buf)).
Proof.
  intros Hp Hpos [Hb1 Hb2]. destruct (port_wf_ring_ne p Hp) as [Hne1 Hne2].
  pose proof (pw_size _ Hp). pose proof (pw_head _ Hp). pose proof (pw_count _ Hp).
  unfold PORT_MIN_QUEUE_SIZE, PORT_MAX_QUEUE_SIZE in *.
  destruct (ring_pop (queue p) (queue_head p) (queue_count p)) as (m & Hm & Hr1);
    [rewrite (pw_queue _ Hp); lia|lia|].
  destruct (ring_pop (queue_senders p) (queue_head p) (queue_count p)) as (sid & Hs & Hr2);
    [rewrite (pw_senders _ Hp); lia|lia|].
  rewrite (pw_queue _ Hp) in Hr1. rewrite (pw_senders _ Hp) in Hr2.
  pose proof (pw_ok _ Hp) as Hok. rewrite Hr1 in Hok. apply Forall_cons in Hok as [[Hd Hn] Hok].
  destruct (msg_shape_lookup _ _ _ (pw_shape _ Hp) Hm) as [Hm1 Hm2].
  unfold IPC_DATA_SIZE, IPC_DISPOSE_MAX in *.
  unfold dequeue. rewrite (rd_getz _ _ _ Hm), (rd_getz _ _ _ Hs). cbn [mbind out_bind].
  rewrite !memcpy_arr_ok by lia. cbn [mbind out_bind].
  unfold umod. destruct (Z.eqb_spec (queue_size p) 0); [lia|]. cbn [mbind out_bind returns].
  rewrite !u32_small by (unfold in_u32; lia).
  split; [|split; [done|split; [done|split; [done|]]]].
  - destruct Hp; split; cbn [queue queue_senders queue_size queue_head queue_count queue_tail
      waiters waiter_count set_ring registered]; try (done || lia).
    + apply Z.mod_pos_bound. lia.
    + rewrite pw_tail0, Zplus_mod_idemp_l. f_equal. lia.
  - unfold msg_shape, msg_ok, msg_view, IPC_DATA_SIZE, IPC_DISPOSE_MAX.
    cbn [msg_id data_size data ndispose dispose].
    rewrite !length_app, !length_take, !length_drop.
    split; [lia|]. split; [done|].
    rewrite !take_app_length', !drop_app_length' by (rewrite length_take; lia).
    split; [|done]. unfold contents. rewrite Hr1, Hr2. done.
Qed.

(** ** Waiters *)

Section waiters.
Context {S : Type} `{!Sched S, !SchedLaws S}.
Implicit Types (s : S).

Lemma waiter_in_spec n i w tid :
  (i + n <= length w)%nat ->
  waiter_in n (Z.of_nat i) w tid = Ret (bool_decide (tid ∈ take n (drop i w))).
Proof.
  revert i. induction n as [|n IH]; intros i Hi; [done|].
  destruct (lookup_lt_is_Some_2 w i) as [x Hx]; [lia|].
  cbn [waiter_in]. rewrite (rd_getz w _ x) by (rewrite getz_of_nat; done). cbn [mbind out_bind].
  rewrite (drop_S w x i Hx). cbn [take]. destruct (Z.eqb_spec x tid) as [->|Hne].
  - rewrite bool_decide_eq_true_2; [done|]. set_solver.
  - replace (Z.of_nat i + 1) with (Z.of_nat (Datatypes.S i)) by lia. rewrite IH by lia.
    f_equal. apply bool_decide_ext. set_solver.
Qed.

Lemma port_wait_register_spec p tid :
  port_wf p ->
  returns (port_wait_register_locked p tid) (fun p' =>
    port_wf p' /\ same_queue p p' /\ magic p' = magic p /\ ref_count p' = ref_count p /\
    pending_notify p' = pending_notify p /\
    (tid ∈ registered p \/ waiter_count p < PORT_WAITERS_MAX -> tid ∈ registered p') /\
    (forall t, t ∈ registered p -> t ∈ registered p') /\
    (waiter_count p = PORT_WAITERS_MAX -> p' = p)).
Proof.
  intros Hp. pose proof (pw_waiters _ Hp) as Hw. pose proof (pw_wcount _ Hp) as Hc.
  unfold port_wait_register_locked.
  rewrite (waiter_in_spec _ 0) by lia. cbn [mbind out_bind]. rewrite drop_0.
  fold (registered p). case_bool_decide as Hin; [done|].
  destruct (Z.leb_spec PORT_WAITERS_MAX (waiter_count p)) as [Hfull|Hroom].
  { cbn [returns]. repeat (split; [done|]). split; [|done]. intros [?|?]; [done|lia]. }
  rewrite wr_ok by lia. cbn [mbind out_bind returns].
  assert (registered (set_waiters (<[Z.to_nat (waiter_count p) := tid]> (waiters p))
            (waiter_count p + 1) p) = registered p ++ [tid]) as Hreg.
  { unfold registered. cbn [waiters waiter_count set_waiters].
    replace (Z.to_nat (waiter_count p + 1)) with (Datatypes.S (Z.to_nat (waiter_count p))) by lia.
    rewrite (take_S_r _ _ tid) by (apply list_lookup_insert_eq; lia).
    by rewrite take_insert_ge. }
  rewrite Hreg. split.
  - destruct Hp. split; rewrite ?Hreg; cbn [waiters waiter_count set_waiters queue queue_senders
      queue_size queue_head queue_tail queue_count]; rewrite ?length_insert; try (done || lia).
    apply NoDup_app. split; [done|]. split; [set_solver|]. apply NoDup_singleton.
  - repeat (split; [done|]). split; [set_solver|]. split; [set_solver|lia].
Qed.

Lemma wake_waiters_spec n i w s :
  (i + n <= length w)%nat ->
  returns (wake_waiters n (Z.of_nat i) w s) (fun s' =>
    forall t, thread_known s' t = thread_known s t /\
      thread_blocked s' t =
        thread_blocked s t && negb (bool_decide (t ∈ take n (drop i w)))).
Proof.
  revert i s. induction n as [|n IH]; intros i s Hi.
  { cbn [wake_waiters returns take]. intros t. rewrite bool_decide_eq_false_2 by set_solver.
    by rewrite andb_true_r. }
  destruct (lookup_lt_is_Some_2 w i) as [x Hx]; [lia|].
  cbn [wake_waiters]. rewrite (rd_getz w _ x) by (rewrite getz_of_nat; done). cbn [mbind out_bind].
  replace (Z.of_nat i + 1) with (Z.of_nat (Datatypes.S i)) by lia.
  eapply returns_mono; [apply IH; lia|]. cbn beta. intros s' Hs' t.
  destruct (Hs' t) as [-> ->]. rewrite wake_known, wake_blocked, (drop_S w x i Hx). cbn [take].
  split; [done|]. rewrite <- andb_assoc. f_equal.
  destruct (Z.eqb_spec x t) as [->|Hne]; cbn [negb andb].
  - rewrite bool_decide_eq_true_2 by set_solver. done.
  - f_equal. apply bool_decide_ext. set_solver.
Qed.

Lemma port_wake_all_spec p s :
  port_wf p ->
  returns (port_wake_all_locked p s) (fun '(p', s') =>
    p' = set_waiters (waiters p) 0 p /\ port_wf p' /\
    forall t, thread_known s' t = thread_known s t /\
      thread_blocked s' t = thread_blocked s t && negb (bool_decide (t ∈ registered p))).
Proof.
  intros Hp. unfold port_wake_all_locked.
  eapply returns_bind.
  - apply (wake_waiters_spec _ 0). pose proof (pw_waiters _ Hp). pose proof (pw_wcount _ Hp). lia.
  - intros s' Hs'. split; [done|]. split; [|by rewrite drop_0 in Hs'].
    destruct Hp. split; try done. unfold registered. cbn. constructor.
Qed.
End waiters.

(** ** Invariant of the port table *)

Section state.
Context {H S : Type} `{!KMem H, !KMemLaws H, !Sched S, !SchedLaws S}.
Implicit Types (st : pstate H S).

(** The three blocks of a port: the object and its two arrays. *)
Definition blocks (a : Z) (p : ipc_port) : gset Z := {[a; queue_ptr p; senders_ptr p]}.

Lemma in_blocks a p : a ∈ blocks a p.
Proof. unfold blocks. set_solver. Qed.

Record pst_wf st : Prop := {
  st_len : Z.of_nat (length (port_table st)) = PORT_TABLE_MAX;
  st_live a : a <> 0 -> a ∈ port_table st <-> is_Some (ports st !! a);
  st_null : ports st !! 0 = None;
  st_once i j a : a <> 0 -> port_table st !! i = Some a -> port_table st !! j = Some a -> i = j;
  st_port a p : ports st !! a = Some p -> port_wf p /\ 0 < ref_count p <= INT_MAX;
  st_heap : kwf (pheap st);
  st_own a p : ports st !! a = Some p ->
    blocks a p ⊆ klive (pheap st) /\
    a <> queue_ptr p /\ a <> senders_ptr p /\ queue_ptr p <> senders_ptr p;
  st_disj a b p q : ports st !! a = Some p -> ports st !! b = Some q -> a <> b ->
    blocks a p ## blocks b q;
}.

(** The heap blocks that belong to ports, and the rest of the heap. *)
Definition owns st (x : Z) : Prop := exists a p, ports st !! a = Some p /\ x ∈ blocks a p.
Definition others st (x : Z) : Prop := x ∈ klive (pheap st) /\ ~ owns st x.

(** Nothing leaked, nothing of another owner freed. *)
Definition no_leak st st' : Prop := forall x, others st' x <-> others st x.

#[export] Instance no_leak_preorder : PreOrder no_leak.
Proof. split; unfold no_leak; [done|]. intros st1 st2 st3 H1 H2 x. by rewrite H2. Qed.

Lemma no_leak_trans st1 st2 st3 : no_leak st1 st2 -> no_leak st2 st3 -> no_leak st1 st3.
Proof. intros. by etrans. Qed.

Lemma table_find_spec t p :
  match table_find t p with
  | Some i => t !! i = Some p /\ forall j, (j < i)%nat -> t !! j <> Some p
  | None => p ∉ t
  end.
Proof.
  unfold table_find. destruct (list_find (fun q => q = p) t) as [[i x]|] eqn:E; simpl.
  - apply list_find_Some in E as (Hi & -> & Hlt). split; [done|]. intros j Hj Hp.
    by apply (Hlt j p).
  - apply list_find_None in E. rewrite Forall_forall in E. intros Hin. by apply (E p Hin).
Qed.

(** Replacing a live port, its arrays and the heap: enough that the rest of
    the heap is untouched. *)
Lemma wf_replace st a p p' h' s :
  pst_wf st -> ports st !! a = Some p -> port_wf p' -> 0 < ref_count p' <= INT_MAX -> kwf h' ->
  blocks a p' ⊆ klive h' ->
  a <> queue_ptr p' -> a <> senders_ptr p' -> queue_ptr p' <> senders_ptr p' ->
  klive h' ∖ blocks a p' = klive (pheap st) ∖ blocks a p ->
  let st' := PState (<[a := p']> (ports st)) (port_table st) h' s in
  pst_wf st' /\ no_leak st st'.
Proof.
  intros Hwf Ha Hp' Href Hh Hsub Hn1 Hn2 Hn3 Hrest.
  assert (forall b q, ports st !! b = Some q -> a <> b ->
    blocks b q ⊆ klive h' /\ blocks b q ## blocks a p') as Hother.
  { intros b q Hb Hne. pose proof (st_disj _ Hwf a b p q Ha Hb Hne).
    destruct (st_own _ Hwf b q Hb) as [Hlive _]. set_solver. }
  split.
  - destruct Hwf. split; cbn [port_table ports pheap]; try done.
    + intros b Hb0. rewrite st_live0 by done. destruct (decide (a = b)) as [<-|Hne].
      * rewrite lookup_insert_eq, Ha. split; by eexists.
      * by rewrite lookup_insert_ne.
    + rewrite lookup_insert_ne; [done|]. intros ->. congruence.
    + intros b q [[<- <-]|[Hne Hbq]]%lookup_insert_Some; [done|by eapply st_port0].
    + intros b q [[<- <-]|[Hne Hbq]]%lookup_insert_Some; [done|].
      split; [by apply Hother|by eapply st_own0].
    + intros b c q r [[<- <-]|[? Hbq]]%lookup_insert_Some [[<- <-]|[? Hcr]]%lookup_insert_Some Hne;
        [done|symmetry; by apply Hother|by apply Hother|by eapply st_disj0].
  - intros x. unfold others, owns. cbn [pheap ports].
    assert (x ∈ klive h' /\ (x ∉ blocks a p') <-> x ∈ klive (pheap st) /\ (x ∉ blocks a p)) as Hx
      by (rewrite <- !elem_of_difference; by rewrite Hrest).
    split; intros [Hin Hno].
    + destruct (proj1 Hx) as [Hin' Hnb].
      { split; [done|]. intros Hb. apply Hno. exists a, p'. by rewrite lookup_insert_eq. }
      split; [done|]. intros (b & q & Hbq & Hxq). destruct (decide (a = b)) as [<-|Hne].
      * by simplify_eq.
      * apply Hno. exists b, q. by rewrite lookup_insert_ne.
    + destruct (proj2 Hx) as [Hin' Hnb].
      { split; [done|]. intros Hb. apply Hno. eauto. }
      split; [done|]. intros (b & q & [[<- <-]|[Hne Hbq]]%lookup_insert_Some & Hxq); [done|].
      apply Hno. eauto.
Qed.

(** Updating a port in place. *)
Lemma wf_set_port st a p p' s :
  pst_wf st -> ports st !! a = Some p -> port_wf p' -> 0 < ref_count p' <= INT_MAX ->
  queue_ptr p' = queue_ptr p -> senders_ptr p' = senders_ptr p ->
  pst_wf (set_sched s (set_port a p' st)) /\ no_leak st (set_sched s (set_port a p' st)).
Proof.
  intros Hwf Ha Hp' Href Hq Hs. destruct (st_own _ Hwf a p Ha) as (Hsub & Hn1 & Hn2 & Hn3).
  assert (blocks a p' = blocks a p) as Hb by (unfold blocks; by rewrite Hq, Hs).
  apply (wf_replace st a p p' (pheap st) s); rewrite ?Hb, ?Hq, ?Hs; try done. apply Hwf.
Qed.

(** Removing a port: its table slot is cleared and its blocks are freed. *)
Lemma wf_free_port st a p p' i :
  pst_wf st -> ports st !! a = Some p -> port_table st !! i = Some a ->
  queue_ptr p' = queue_ptr p -> senders_ptr p' = senders_ptr p ->
  returns (port_free a (set_table (<[i := 0]> (port_table st)) (set_port a p' st))) (fun st' =>
    pst_wf st' /\ no_leak st st' /\ ports st' = delete a (ports st) /\ psched st' = psched st).
Proof.
  intros Hwf Ha Hi Hq Hs. unfold port_free.
  cbn [ports port_table pheap psched set_table set_port]. rewrite lookup_insert_eq.
  cbn [deref mbind out_bind returns].
  rewrite Hq, Hs, delete_insert_eq.
  destruct (st_own _ Hwf a p Ha) as (Hown & Hn1 & Hn2 & Hn3). unfold blocks in Hown.
  destruct (kfree_live (pheap st) (queue_ptr p)) as [Hw1 Hl1]; [apply Hwf|set_solver|].
  destruct (kfree_live _ (senders_ptr p) Hw1) as [Hw2 Hl2]; [set_solver|].
  destruct (kfree_live _ a Hw2) as [Hw3 Hl3]; [set_solver|].
  assert (a <> 0) as Ha0 by (intros ->; rewrite (st_null _ Hwf) in Ha; done).
  set (h := kfree a _) in *.
  assert (klive h = klive (pheap st) ∖ blocks a p) as Hl
    by (rewrite Hl3, Hl2, Hl1; unfold blocks; set_solver).
  split; [|split; [|done]].
  - split; cbn [port_table ports pheap].
    + rewrite length_insert. apply Hwf.
    + intros b Hb0. rewrite lookup_delete_is_Some, <- (st_live _ Hwf b Hb0). split.
      * intros (j & Hj)%list_elem_of_lookup. apply list_lookup_insert_Some in Hj as
          [(? & ? & ?)|[Hne Hj]]; [congruence|].
        split; [|by apply list_elem_of_lookup_2 in Hj].
        intros <-. by apply Hne, (st_once _ Hwf i j a).
      * intros [Hne (j & Hj)%list_elem_of_lookup]. apply list_elem_of_lookup. exists j.
        rewrite list_lookup_insert_ne; [done|]. intros ->. congruence.
    + apply lookup_delete_None. right. apply Hwf.
    + intros j k b Hb0 Hj Hk.
      apply list_lookup_insert_Some in Hj as [(? & ? & ?)|[? Hj]]; [congruence|].
      apply list_lookup_insert_Some in Hk as [(? & ? & ?)|[? Hk]]; [congruence|].
      by apply (st_once _ Hwf j k b).
    + intros b q [_ Hbq]%lookup_delete_Some. by apply (st_port _ Hwf b).
    + done.
    + intros b q [Hne Hbq]%lookup_delete_Some. destruct (st_own _ Hwf b q Hbq) as [Hsub ?].
      split; [|done]. rewrite Hl. pose proof (st_disj _ Hwf a b p q Ha Hbq Hne). set_solver.
    + intros b c q r [_ Hbq]%lookup_delete_Some [_ Hcr]%lookup_delete_Some. by apply (st_disj _ Hwf).
  - intros x. unfold others, owns. cbn [pheap ports]. rewrite Hl. split.
    + intros [[Hx Hnb]%elem_of_difference Hno]. split; [done|]. intros (b & q & Hbq & Hxq).
      apply Hno. exists b, q. rewrite lookup_delete_ne; [done|]. intros <-. by simplify_eq.
    + intros [Hx Hno]. split.
      * apply elem_of_difference. split; [done|]. intros Hxb. apply Hno. eauto.
      * intros (b & q & [_ Hbq]%lookup_delete_Some & Hxq). apply Hno. eauto.
Qed.

(** ** References *)

(** The ports after one reference to [a] is dropped. *)
Definition dropped (a : Z) (m : gmap Z ipc_port) : gmap Z ipc_port :=
  match m !! a with
  | None => m
  | Some p => if ref_count p =? 1 then delete a m else <[a := set_ref (ref_count p - 1) p]> m
  end.

Lemma table_find_live st a p :
  pst_wf st -> ports st !! a = Some p ->
  exists i, table_find (port_table st) a = Some i /\ port_table st !! i = Some a /\ a <> 0.
Proof.
  intros Hwf Ha. assert (a <> 0) as Ha0 by (intros ->; rewrite (st_null _ Hwf) in Ha; done).
  assert (a ∈ port_table st) as Hin by (apply (st_live _ Hwf); [done|by eexists]).
  pose proof (table_find_spec (port_table st) a) as Hf.
  destruct (table_find (port_table st) a) as [i|]; [|done]. exists i. naive_solver.
Qed.

Lemma table_find_dead st a :
  pst_wf st -> a <> 0 -> ports st !! a = None -> table_find (port_table st) a = None.
Proof.
  intros Hwf Ha0 Ha. pose proof (table_find_spec (port_table st) a) as Hf.
  destruct (table_find (port_table st) a) as [i|]; [|done]. exfalso.
  destruct Hf as [Hi%list_elem_of_lookup_2 _]. apply (st_live _ Hwf) in Hi; [|done].
  rewrite Ha in Hi. by destruct Hi.
Qed.

Lemma port_release_spec st a :
  pst_wf st ->
  returns (port_release a st) (fun st' =>
    pst_wf st' /\ no_leak st st' /\ psched st' = psched st /\
    ports st' = dropped a (ports st)).
Proof.
  intros Hwf. unfold port_release, dropped. destruct (Z.eqb_spec a 0) as [->|Ha0].
  { cbn [returns]. rewrite (st_null _ Hwf). done. }
  unfold drop_ref. destruct (ports st !! a) as [p|] eqn:Ha.
  - destruct (table_find_live st a p Hwf Ha) as (i & -> & Hi & _).
    cbn [deref mbind out_bind]. pose proof (st_port _ Hwf a p Ha) as [Hp Href].
    rewrite (proj2 (Z.eqb_neq _ _)) by (unfold INT_MAX; lia).
    destruct (Z.leb_spec (ref_count p - 1) 0), (Z.eqb_spec (ref_count p) 1); try lia;
      cbn [mbind out_bind negb].
    + eapply returns_mono; [by apply (wf_free_port st a p)|]. naive_solver.
    + cbn [returns]. destruct (wf_set_port st a p (set_ref (ref_count p - 1) p) (psched st))
        as [Hwf' Hnl]; try done; [by apply port_wf_ptrs|cbn; lia].
  - rewrite (table_find_dead st a) by done. cbn [mbind out_bind negb returns]. done.
Qed.

(** The counter of the port [a] has room for one more reference. *)
Definition ref_room st (a : Z) : Prop := forall p, ports st !! a = Some p -> ref_count p < INT_MAX.

Lemma port_ref_raw_spec st a :
  pst_wf st -> ref_room st a ->
  returns (port_ref_raw a st) (fun '(r, st') =>
    pst_wf st' /\ no_leak st st' /\ psched st' = psched st /\
    match ports st !! a with
    | Some p => if PORT_IS_VALID p
                then r = a /\ ports st' = <[a := set_ref (ref_count p + 1) p]> (ports st)
                else r = 0 /\ st' = st
    | None => r = 0 /\ st' = st
    end).
Proof.
  intros Hwf Hroom. unfold port_ref_raw. destruct (Z.eqb_spec a 0) as [->|Ha0].
  { cbn [returns]. rewrite (st_null _ Hwf). done. }
  destruct (ports st !! a) as [p|] eqn:Ha.
  - destruct (table_find_live st a p Hwf Ha) as (i & -> & Hi & _).
    cbn [deref mbind out_bind]. pose proof (st_port _ Hwf a p Ha) as [Hp Href].
    unfold PORT_IS_VALID. destruct (magic p =? PORT_MAGIC); cbn [negb returns]; [|done].
    pose proof (Hroom p Ha). rewrite (proj2 (Z.eqb_neq _ _)) by lia. cbn [returns].
    destruct (wf_set_port st a p (set_ref (ref_count p + 1) p) (psched st))
      as [Hwf' Hnl]; try done; [by apply port_wf_ptrs|cbn; lia].
  - rewrite (table_find_dead st a) by done. done.
Qed.

(** ** Growing the queue *)

Context (jp : ipc_port) (jm : nat -> ipc_msg) (jsn : nat -> Z).

(** Fresh blocks have the size they were allocated with. *)
Definition junk_ok : Prop :=
  (forall n, msg_shape (jm n)) /\ Z.of_nat (length (waiters jp)) = PORT_WAITERS_MAX.

Lemma port_grow_queue_spec p (h : H) :
  junk_ok -> port_wf p -> kwf h -> queue_ptr p ∈ klive h -> senders_ptr p ∈ klive h ->
  queue_ptr p <> senders_ptr p ->
  returns (port_grow_queue jm jsn p h) (fun '(r, p', h') =>
    kwf h' /\
    ((r = -1 /\ p' = p /\ klive h' = klive h) \/
     (r = 0 /\ port_wf p' /\ contents p' = contents p /\ queue_frame p p' /\
      queue_size p' = 2 * queue_size p /\ queue_count p' = queue_count p /\
      (queue_ptr p' ∉ klive h) /\ (senders_ptr p' ∉ klive h) /\ queue_ptr p' <> senders_ptr p' /\
      klive h' = {[queue_ptr p'; senders_ptr p']} ∪ klive h ∖ {[queue_ptr p; senders_ptr p]}))).
Proof.
  intros [Hjm _] Hp Hwf Hq Hs Hne. unfold port_grow_queue.
  pose proof (pw_size _ Hp). pose proof (pw_head _ Hp). pose proof (pw_count _ Hp).
  destruct (port_wf_ring_ne p Hp) as [Hne1 Hne2].
  unfold PORT_MIN_QUEUE_SIZE, PORT_MAX_QUEUE_SIZE in *.
  destruct (Z.ltb_spec (queue_size p) 16); [lia|]. rewrite u32_small by (unfold in_u32; lia).
  destruct (Z.ltb_spec 2048 (queue_size p * 2)) as [|Hcap].
  { split; [done|]. by left. }
  destruct (kmalloc _ h) as [[nq|] h1] eqn:E1.
  2: { destruct (kmalloc_none _ _ _ Hwf E1). split; [done|]. by left. }
  destruct (kmalloc _ h1) as [[ns|] h2] eqn:E2.
  2: { destruct (kmalloc_undo _ _ _ _ _ _ Hwf E1 E2). split; [done|]. by left. }
  destruct (kmalloc_swap h h1 h2 _ _ _ _ nq ns Hwf Hq Hs Hne E1 E2)
    as (Hwf' & Hz1 & Hz2 & Hne' & Hf1 & Hf2 & Hl).
  eapply returns_bind.
  { apply (copy_ring_spec p _ 0); rewrite ?length_fresh_arr; try done; try lia.
    apply Forall_fmap, Forall_forall. intros n _. apply Hjm. }
  intros [q' s'] (Hq' & Hs' & Hlq & Hls & Hsh). rewrite !length_fresh_arr in *.
  rewrite Nat.add_0_l in *.
  rewrite !(take_ge (ring _ _ _)) in * by (rewrite length_ring by done; lia).
  assert (ring q' 0 (queue_count p) = ring (queue p) (queue_head p) (queue_count p)) as Hr1
    by (rewrite ring_linear by lia; done).
  assert (ring s' 0 (queue_count p) = ring (queue_senders p) (queue_head p) (queue_count p)) as Hr2
    by (rewrite ring_linear by lia; done).
  cbn [returns]. split; [done|]. right. split; [done|]. split.
  - destruct Hp. split; cbn [queue queue_senders queue_size queue_head queue_tail queue_count
      waiters waiter_count]; rewrite ?Hr1; unfold PORT_MIN_QUEUE_SIZE, PORT_MAX_QUEUE_SIZE in *;
      try (done || lia). rewrite Z.mod_small; lia.
  - split; [|by repeat (split; [done || (cbn; lia)|])].
    unfold contents. cbn [queue queue_senders queue_head queue_count]. by rewrite Hr1, Hr2.
Qed.

(** ** Creation and destruction *)

Lemma wf_heap st h' :
  pst_wf st -> kwf h' -> klive h' = klive (pheap st) ->
  pst_wf (set_pheap h' st) /\ no_leak st (set_pheap h' st).
Proof.
  intros [] Hh Hl. split.
  - split; cbn [port_table ports pheap set_pheap]; rewrite ?Hl; try done.
  - intros x. unfold others, owns. cbn [ports pheap set_pheap]. by rewrite Hl.
Qed.

(** Registering a port whose three blocks are new. *)
Lemma wf_insert_port st a p h' i :
  pst_wf st -> port_table st !! i = Some 0 -> port_wf p -> 0 < ref_count p <= INT_MAX -> kwf h' ->
  a <> 0 -> a <> queue_ptr p -> a <> senders_ptr p -> queue_ptr p <> senders_ptr p ->
  blocks a p ## klive (pheap st) -> klive h' = blocks a p ∪ klive (pheap st) ->
  let st' := PState (<[a := p]> (ports st)) (<[i := a]> (port_table st)) h' (psched st) in
  pst_wf st' /\ no_leak st st' /\ ports st !! a = None.
Proof.
  intros Hwf Hi Hp Href Hh Ha0 Hn1 Hn2 Hn3 Hfresh Hl.
  assert (ports st !! a = None) as Hnone.
  { destruct (ports st !! a) as [q|] eqn:E; [|done]. exfalso.
    destruct (st_own _ Hwf a q E) as [Hsub _].
    apply (proj1 (elem_of_disjoint _ _) Hfresh a); [apply in_blocks|apply Hsub, in_blocks]. }
  assert (a ∉ port_table st) as Hnt.
  { intros Hin. apply (st_live _ Hwf) in Hin; [|done]. rewrite Hnone in Hin. by destruct Hin. }
  split; [|split; [|done]].
  - pose proof (lookup_lt_Some _ _ _ Hi). destruct Hwf.
    split; cbn [port_table ports pheap]; try done.
    + by rewrite length_insert.
    + intros b Hb0. rewrite list_elem_of_lookup. setoid_rewrite list_lookup_insert_Some.
      rewrite lookup_insert_is_Some, <- st_live0, list_elem_of_lookup by done. split.
      * intros (j & [(<- & <- & _)|[Hne Hj]]); [by left|].
        destruct (decide (a = b)); [by left|]. right. eauto.
      * intros [<-|[Hne (j & Hj)]]; [exists i; by left|]. exists j. right. split; [|done].
        intros <-. congruence.
    + rewrite lookup_insert_ne by done. done.
    + intros j k b Hb0 Hj Hk.
      apply list_lookup_insert_Some in Hj as [(<- & <- & _)|[? Hj]],
        Hk as [(<- & ? & _)|[? Hk]]; try done.
      * by apply list_elem_of_lookup_2 in Hk.
      * subst. by apply list_elem_of_lookup_2 in Hj.
      * by apply (st_once0 j k b).
    + intros b q [[<- <-]|[Hne Hbq]]%lookup_insert_Some; [done|by eapply st_port0].
    + intros b q [[<- <-]|[Hne Hbq]]%lookup_insert_Some.
      * split; [|done]. rewrite Hl. apply union_subseteq_l.
      * destruct (st_own0 b q Hbq) as [Hsub ?]. split; [|done]. rewrite Hl.
        etrans; [apply Hsub|apply union_subseteq_r].
    + intros b c q r [[<- <-]|[? Hbq]]%lookup_insert_Some [[<- <-]|[? Hcr]]%lookup_insert_Some Hne;
        [done| | |by eapply st_disj0].
      * destruct (st_own0 c r Hcr) as [Hsub _]. clear -Hsub Hfresh. set_solver.
      * destruct (st_own0 b q Hbq) as [Hsub _]. clear -Hsub Hfresh. set_solver.
  - intros x. unfold others, owns. cbn [pheap ports]. rewrite Hl. split; intros [Hin Hno].
    + split.
      * apply elem_of_union in Hin as [Hin|]; [|done]. exfalso. apply Hno. exists a, p.
        by rewrite lookup_insert_eq.
      * intros (b & q & Hbq & Hx). apply Hno. exists b, q. rewrite lookup_insert_ne; [done|congruence].
    + split; [by apply elem_of_union_r|].
      intros (b & q & [[<- <-]|[Hne Hbq]]%lookup_insert_Some & Hx); [|apply Hno; eauto].
      by apply (proj1 (elem_of_disjoint _ _) Hfresh x).
Qed.

Definition fresh_port (p : ipc_port) : Prop :=
  PORT_IS_VALID p = true /\ ref_count p = 1 /\ contents p = [] /\ pending_notify p = 0 /\
  registered p = [].

Lemma port_create_spec st :
  junk_ok -> pst_wf st ->
  let '(r, st') := port_create jp jm jsn st in
  pst_wf st' /\ no_leak st st' /\ psched st' = psched st /\
  ((r = 0 /\ ports st' = ports st) \/
   (r <> 0 /\ ports st !! r = None /\
    exists p, ports st' = <[r := p]> (ports st) /\ fresh_port p)).
Proof.
  intros [Hjm Hjw] Hwf. pose proof (st_heap _ Hwf) as Hh. unfold port_create.
  destruct (kmalloc _ (pheap st)) as [[a|] h1] eqn:E1.
  2: { destruct (kmalloc_none _ _ _ Hh E1) as [? ?]. destruct (wf_heap st h1) as [? ?]; try done.
       repeat (split; [done|]). by left. }
  destruct (kmalloc _ h1) as [[q|] h2] eqn:E2.
  2: { destruct (kmalloc_undo _ _ _ _ _ _ Hh E1 E2) as [? ?].
       destruct (wf_heap st (kfree a h2)) as [? ?]; try done. repeat (split; [done|]). by left. }
  destruct (kmalloc_some _ _ _ _ Hh E1) as (Hw1 & Hf1 & Hz1 & Hl1).
  destruct (kmalloc _ h2) as [[qs|] h3] eqn:E3.
  2: { destruct (kmalloc_undo _ _ _ _ _ _ Hw1 E2 E3) as [Hw4 Hl4].
       destruct (kfree_live _ a Hw4) as [Hw5 Hl5]; [rewrite Hl4, Hl1; clear; set_solver|].
       destruct (wf_heap st (kfree a (kfree q h3))) as [? ?]; [done|done| |].
       { rewrite Hl5, Hl4, Hl1. clear -Hf1. set_solver. }
       repeat (split; [done|]). by left. }
  destruct (kmalloc_three _ _ _ _ _ _ _ _ _ _ Hh E1 E2 E3)
    as (Hw3 & _ & ? & ? & ? & Hfresh & Hl3 & Hw6 & Hl6).
  pose proof (table_find_spec (port_table st) 0) as Hf.
  destruct (table_find (port_table st) 0) as [i|].
  2: { destruct (wf_heap st (kfree a (kfree q (kfree qs h3)))) as [? ?]; [done..|].
       repeat (split; [done|]). by left. }
  set (p := IpcPort _ _ _ _ _ _ _ _ _ _ _ _ _).
  destruct (wf_insert_port st a p h3 i) as (? & ? & ?); try done; [apply Hf| |].
  - split; unfold registered; cbn [p queue queue_senders queue_size queue_head queue_tail
      queue_count waiters waiter_count]; rewrite ?length_fresh_arr, ?ring_zero; try done.
    + apply Forall_fmap, Forall_forall. intros n _. apply Hjm.
    + constructor.
  - repeat (split; [done|]). right. split; [done|]. split; [done|]. exists p. done.
Qed.

(** [s'] is [s] with the threads of [l] unblocked. *)
Definition woken (l : list Z) (s s' : S) : Prop :=
  forall t, thread_known s' t = thread_known s t /\
    thread_blocked s' t = thread_blocked s t && negb (bool_decide (t ∈ l)).

Lemma port_destroy_spec st a p :
  pst_wf st -> ports st !! a = Some p -> PORT_IS_VALID p = true ->
  returns (port_destroy a st) (fun '(r, st') =>
    r = 0 /\ pst_wf st' /\ no_leak st st' /\ woken (registered p) (psched st) (psched st') /\
    ports st' = dropped a (<[a := set_magic 0 (set_waiters (waiters p) 0 p)]> (ports st))).
Proof.
  intros Hwf Ha Hv. destruct (table_find_live st a p Hwf Ha) as (i & _ & _ & Ha0).
  pose proof (st_port _ Hwf a p Ha) as [Hp Href].
  unfold port_destroy. rewrite (proj2 (Z.eqb_neq a 0)) by done. rewrite Ha.
  cbn [deref mbind out_bind]. rewrite Hv. cbn [negb].
  eapply returns_bind; [by apply port_wake_all_spec|]. intros [p' s'] (-> & Hp' & Hwoken).
  set (p1 := set_magic 0 _). set (st1 := set_sched s' _).
  destruct (wf_set_port st a p p1 s') as [Hwf1 Hnl1]; try done; [by apply port_wf_ptrs|].
  fold st1 in Hwf1, Hnl1.
  pose proof (port_release_spec st1 a Hwf1) as Hrel. unfold port_release in Hrel.
  rewrite (proj2 (Z.eqb_neq a 0)) in Hrel by done.
  destruct (drop_ref a st1) as [[dead st2]| |]; cbn [mbind out_bind] in Hrel |- *; [|done..].
  destruct dead; cbn [negb] in Hrel |- *.
  - destruct (port_free a st2) as [st3| |]; cbn [mbind out_bind returns] in Hrel |- *; [|done..].
    destruct Hrel as (? & Hnl & Hs & Hports). rewrite Hs, Hports.
    split; [done|]. split; [done|]. split; [|done]. by apply (no_leak_trans st st1).
  - cbn [returns] in Hrel |- *. destruct Hrel as (? & Hnl & Hs & Hports). rewrite Hs, Hports.
    split; [done|]. split; [done|]. split; [|done]. by apply (no_leak_trans st st1).
Qed.

(** ** Send *)

(** The task holds the capability a dispose descriptor names. *)
Definition holds (tid : Z) (cs : cspace) (d : ipc_dispose) : Prop :=
  handle_task_id (d_handle d) = tid /\
  exists c, cspace_lookup cs (handle_slot (d_handle d)) = Ret (Some c) /\ cap_type c = d_type d.

(** The sender may send the message: it holds every capability it moves. *)
Definition authorised (sender : option (Z * cspace)) (msg : ipc_msg) : Prop :=
  ndispose msg = 0 \/
  exists tid cs, sender = Some (tid, cs) /\ ndispose msg <= IPC_DISPOSE_MAX /\
    Forall (holds tid cs) (take (Z.to_nat (ndispose msg)) (dispose msg)).

Lemma validate_loop_spec n i tid cs msg :
  cs_wf cs -> (i + n <= length (dispose msg))%nat ->
  returns (validate_dispose_loop n (Z.of_nat i) tid cs msg) (fun v =>
    (v = 0 /\ Forall (holds tid cs) (take n (drop i (dispose msg)))) \/
    (v = -1 /\ ~ Forall (holds tid cs) (take n (drop i (dispose msg))))).
Proof.
  intros Hcs. revert i. induction n as [|n IH]; intros i Hi.
  { left. split; [done|]. constructor. }
  destruct (lookup_lt_is_Some_2 (dispose msg) i) as [d Hd]; [lia|].
  cbn [validate_dispose_loop]. rewrite (rd_getz _ _ d) by (by rewrite getz_of_nat).
  cbn [mbind out_bind]. rewrite (drop_S _ d i Hd). cbn [take].
  set (rest := take n _). apply (returns_mono _ (fun v =>
    (v = 0 /\ holds tid cs d /\ Forall (holds tid cs) rest) \/
    (v = -1 /\ ~ (holds tid cs d /\ Forall (holds tid cs) rest)))).
  2: { intros v. by rewrite Forall_cons. }
  destruct (Z.eqb_spec (handle_task_id (d_handle d)) tid) as [Ht|Ht]; cbn [negb].
  2: { right. split; [done|]. intros [[? _] _]. done. }
  pose proof (lookup_snapshot_lookup cs (handle_slot (d_handle d)) Hcs) as (o & Hl & ->).
  destruct o as [c|]; cbn [mbind out_bind].
  2: { right. split; [done|]. intros [(_ & c & Hc & _) _]. congruence. }
  assert (in_use c = true) as Hin by (by apply (lookup_some_inv _ _ _ Hl)).
  destruct (Z.ltb_spec 0 0); [lia|]. cbn [deref mbind out_bind]. rewrite Hin. cbn [negb].
  destruct (Z.eqb_spec (cap_type c) (d_type d)) as [Htype|Htype]; cbn [negb].
  2: { right. split; [done|]. intros [(_ & c' & Hc' & ?) _]. rewrite Hl in Hc'. by simplify_eq. }
  replace (Z.of_nat i + 1) with (Z.of_nat (Datatypes.S i)) by lia.
  eapply returns_mono; [apply IH; lia|]. cbn beta. intros v [[-> Hf]|[-> Hf]].
  - left. split; [done|]. split; [|done]. split; [done|]. eauto.
  - right. split; [done|]. by intros [_ ?].
Qed.

Lemma validate_dispose_spec sender msg :
  (forall tid cs, sender = Some (tid, cs) -> cs_wf cs) -> msg_shape msg -> 0 <= ndispose msg ->
  returns (validate_dispose sender msg) (fun v =>
    (v = 0 /\ authorised sender msg) \/ (v = -1 /\ ~ authorised sender msg)).
Proof.
  intros Hcs [_ Hd] Hn. unfold validate_dispose, authorised, IPC_DISPOSE_MAX in *.
  destruct (Z.eqb_spec (ndispose msg) 0); [left; auto|].
  destruct sender as [[tid cs]|].
  2: { right. split; [done|]. intros [?|(? & ? & ? & _)]; done. }
  destruct (Z.ltb_spec 4 (ndispose msg)).
  { right. split; [done|]. intros [?|(? & ? & ? & ? & _)]; lia. }
  eapply returns_mono; [apply (validate_loop_spec _ 0 tid cs); [by eapply Hcs|lia]|].
  cbn beta. rewrite drop_0. intros v [[-> Hf]|[-> Hf]]; [left|right]; (split; [done|]).
  - right. eauto.
  - intros [?|(? & ? & Heq & _ & ?)]; [done|]. by simplify_eq.
Qed.

(** The room a full queue gets before a send. *)
Lemma send_room st a p :
  junk_ok -> pst_wf st -> ports st !! a = Some p ->
  returns (if queue_size p <=? queue_count p then port_grow_queue jm jsn p (pheap st)
           else Ret (0, p, pheap st)) (fun '(r, p', h') =>
    let st' := PState (<[a := p']> (ports st)) (port_table st) h' (psched st) in
    pst_wf st' /\ no_leak st st' /\ port_wf p' /\
    ((r = -1 /\ p' = p /\ queue_count p = queue_size p) \/
     (r = 0 /\ contents p' = contents p /\ queue_frame p p' /\ queue_count p' < queue_size p'))).
Proof.
  intros Hj Hwf Ha. pose proof (st_port _ Hwf a p Ha) as [Hp Href].
  destruct (st_own _ Hwf a p Ha) as (Hsub & Hn1 & Hn2 & Hn3).
  pose proof (pw_count _ Hp). pose proof (pw_size _ Hp). unfold PORT_MIN_QUEUE_SIZE in *.
  destruct (Z.leb_spec (queue_size p) (queue_count p)).
  - eapply returns_mono; [apply port_grow_queue_spec; try done; try apply Hwf;
      (apply Hsub; unfold blocks; clear; set_solver)|].
    intros [[r p'] h'] (Hh' & [(-> & -> & Hl)|(-> & Hp' & Hc & Hf & Hsz & Hcnt & Hq & Hs & Hne & Hl)]).
    + destruct (wf_replace st a p p h' (psched st)) as [? ?]; rewrite ?Hl; try done.
      repeat (split; [done|]). left. repeat split. lia.
    + assert (a ∈ klive (pheap st)) as Hain by (apply Hsub, in_blocks).
      destruct (wf_replace st a p p' h' (psched st)) as [? ?]; try done.
      * pose proof Hf as (_ & -> & _). done.
      * rewrite Hl. unfold blocks in *. clear -Hsub Hain Hn1 Hn2. set_solver.
      * intros ->. by apply Hq.
      * intros ->. by apply Hs.
      * rewrite Hl. unfold blocks. clear -Hq Hs. set_solver.
      * repeat (split; [done|]). right. repeat (split; [done|]). lia.
  - cbn [returns]. destruct (wf_replace st a p p (pheap st) (psched st)) as [? ?]; try done.
    { apply Hwf. }
    repeat (split; [done|]). right. repeat (split; [done|]). lia.
Qed.

Lemma port_send_spec st a p msg sender :
  junk_ok -> pst_wf st -> ports st !! a = Some p -> PORT_IS_VALID p = true ->
  (forall tid cs, sender = Some (tid, cs) -> cs_wf cs) ->
  msg_shape msg -> 0 <= data_size msg -> 0 <= ndispose msg ->
  returns (port_send jm jsn a msg sender st) (fun '(r, st') =>
    pst_wf st' /\ no_leak st st' /\
    ((r = IPC_ERR_INVAL /\ ~ authorised sender msg /\ st' = st) \/
     (r = IPC_ERR_FULL /\ authorised sender msg /\ queue_count p = queue_size p /\
      ports st' = ports st /\ psched st' = psched st) \/
     (r = IPC_OK /\ authorised sender msg /\ woken (registered p) (psched st) (psched st') /\
      exists p', ports st' = <[a := p']> (ports st) /\ registered p' = [] /\
        magic p' = magic p /\ ref_count p' = ref_count p /\
        pending_notify p' = pending_notify p /\
        contents p' = contents p ++ [(clip_view msg, from_option fst 0 sender)]))).
Proof.
  intros Hj Hwf Ha Hv Hcs Hm Hd Hn.
  destruct (table_find_live st a p Hwf Ha) as (i & _ & _ & Ha0).
  unfold port_send. rewrite (proj2 (Z.eqb_neq a 0)) by done. rewrite Ha.
  cbn [deref mbind out_bind]. rewrite Hv. cbn [negb].
  eapply returns_bind; [by apply validate_dispose_spec|]. cbn beta.
  intros v [[-> Hauth]|[-> Hauth]]; cbn [Z.ltb Z.compare].
  2: { cbn [returns]. split; [done|]. split; [done|]. by left. }
  eapply returns_bind; [by apply (send_room st a p)|].
  intros [[r p1] h1] (Hwf1 & Hnl1 & Hp1 & Hcase).
  destruct Hcase as [(-> & -> & Hfull)|(-> & Hc1 & Hf1 & Hroom)]; cbn [Z.ltb Z.compare].
  { cbn [returns]. split; [done|]. split; [done|]. right. left. repeat (split; [done|]).
    cbn [ports set_port set_pheap psched]. by rewrite insert_id. }
  eapply returns_bind; [by apply enqueue_spec|].
  intros p2 (Hp2 & Hf2 & Hq2 & Hs2 & Hc2). cbn beta.
  eapply returns_bind; [by apply port_wake_all_spec|]. intros [p3 s3] (-> & Hp3 & Hw3).
  cbn [returns psched set_pheap] in *. set (p3 := set_waiters (waiters p2) 0 p2).
  destruct Hf1 as (Hm1 & Hr1 & Hn1 & Hw1 & Hwc1), Hf2 as (Hm2 & Hr2 & Hn2 & Hw2 & Hwc2).
  destruct (wf_set_port (PState (<[a:=p1]> (ports st)) (port_table st) h1 (psched st))
              a p1 p3 s3) as [Hwf3 Hnl3]; try done.
  { apply lookup_insert_eq. }
  { cbn. rewrite Hr2, Hr1. by apply (st_port _ Hwf a p). }
  unfold set_port in Hwf3, Hnl3. cbn [ports port_table pheap psched] in Hwf3, Hnl3.
  rewrite insert_insert_eq in Hwf3, Hnl3.
  split; [done|]. split; [by eapply no_leak_trans|]. right. right.
  split; [done|]. split; [done|]. split.
  - assert (registered p2 = registered p) as Hreg by (unfold registered; by rewrite Hwc2, Hw2, Hwc1, Hw1).
    rewrite Hreg in Hw3. done.
  - exists p3. split; [done|]. split; [done|]. cbn [p3 magic ref_count pending_notify set_waiters].
    split; [congruence|]. split; [congruence|]. split; [congruence|].
    change (contents p3) with (contents p2). rewrite Hc2, Hc1. by destruct sender as [[? ?]|].
Qed.

(** ** Receive and notify *)

Lemma port_recv_locked_spec st a p buf cur :
  pst_wf st -> ports st !! a = Some p -> msg_shape buf ->
  returns (port_recv_locked a p buf cur st) (fun '(r, st') =>
    pst_wf st' /\ no_leak st st' /\
    exists p', ports st' = <[a := p']> (ports st) /\
      magic p' = magic p /\ ref_count p' = ref_count p /\
      match r with
      | Received m sid =>
          msg_shape m /\ msg_ok m /\ contents p = (msg_view m, sid) :: contents p' /\
          pending_notify p' = pending_notify p /\ psched st' = psched st /\
          registered p' = registered p /\
          drop (Z.to_nat (data_size m)) (data m) = drop (Z.to_nat (data_size m)) (data buf)
      | Notified m => m = notify_msg buf /\
          contents p = [] /\ contents p' = [] /\ pending_notify p <> 0 /\
          pending_notify p' = 0 /\ psched st' = psched st /\ registered p' = registered p
      | NoThread => contents p = [] /\ pending_notify p = 0 /\ cur = None /\ p' = p
      | Parked => contents p = [] /\ pending_notify p = 0 /\ contents p' = [] /\
          pending_notify p' = 0 /\
          exists tid, cur = Some tid /\ psched st' = park tid (psched st) /\
            (waiter_count p < PORT_WAITERS_MAX -> tid ∈ registered p') /\
            (waiter_count p = PORT_WAITERS_MAX -> registered p' = registered p)
      end).
Proof.
  intros Hwf Ha Hb. pose proof (st_port _ Hwf a p Ha) as [Hp Href].
  pose proof (contents_length p Hp) as Hlen. pose proof (pw_count _ Hp) as Hcnt.
  unfold port_recv_locked. destruct (Z.eqb_spec (queue_count p) 0) as [H0|H0]; cbn [andb].
  - assert (contents p = []) as Hnil by (apply nil_length_inv; rewrite Hlen, H0; done).
    destruct (Z.eqb_spec (pending_notify p) 0) as [Hn|Hn]; cbn [negb].
    + destruct cur as [tid|].
      * eapply returns_bind; [by apply port_wait_register_spec|].
        intros p' (Hp' & (Hq & Hs & Hc) & Hm & Hr & Hn' & Hreg & _ & Hfull). cbn [returns].
        destruct (wf_set_port st a p p' (park tid (psched st))) as [? ?]; try done; [by rewrite Hr|].
        split; [done|]. split; [done|]. exists p'. repeat (split; [done|]).
        rewrite Hc, Hn'. repeat (split; [done|]). exists tid. repeat (split; [done|]).
        split; [by auto|]. intros Hw. by rewrite (Hfull Hw).
      * cbn [returns]. split; [done|]. split; [done|]. exists p. by rewrite insert_id.
    + cbn [returns]. destruct (wf_set_port st a p (set_notify 0 p) (psched st)) as [? ?]; try done.
      { by apply port_wf_ptrs. }
      split; [done|]. split; [done|]. exists (set_notify 0 p). done.
  - eapply returns_bind; [apply dequeue_spec; [done|lia|done]|].
    intros [[m sid] p'] (Hp' & (Hm & Hr & Hn & Hw & Hwc) & Hq & Hs & Hms & Hmo & Hc & Htail & _).
    cbn [returns]. destruct (wf_set_port st a p p' (psched st)) as [? ?]; try done; [by rewrite Hr|].
    split; [done|]. split; [done|]. exists p'. repeat (split; [done|]).
    unfold registered. by rewrite Hw, Hwc.
Qed.

Lemma port_notify_spec st a p :
  pst_wf st -> ports st !! a = Some p -> PORT_IS_VALID p = true ->
  returns (port_notify a st) (fun '(r, st') =>
    r = IPC_OK /\ pst_wf st' /\ no_leak st st' /\
    woken (registered p) (psched st) (psched st') /\
    exists p', ports st' = <[a := p']> (ports st) /\ magic p' = magic p /\
      ref_count p' = ref_count p /\ contents p' = contents p /\ pending_notify p' = 1 /\
      registered p' = []).
Proof.
  intros Hwf Ha Hv. pose proof (st_port _ Hwf a p Ha) as [Hp Href].
  destruct (table_find_live st a p Hwf Ha) as (i & _ & _ & Ha0).
  unfold port_notify. rewrite (proj2 (Z.eqb_neq a 0)) by done. rewrite Ha.
  cbn [deref mbind out_bind]. rewrite Hv. cbn [negb].
  eapply returns_bind; [apply port_wake_all_spec; by apply port_wf_ptrs|].
  intros [p' s'] (-> & Hp' & Hw). cbn [returns].
  set (p' := set_waiters _ _ _) in *.
  destruct (wf_set_port st a p p' s') as [? ?]; try done.
  repeat (split; [done|]). by exists p'.
Qed.

(** ** A port as a bounded FIFO

    The abstract port is the list of messages still to be received, each
    with the id of the task that sent it, and the notify flag. *)
Inductive port_op :=
| OSend (msg : ipc_msg) (sender : option (Z * cspace))
| ORecv (buf : ipc_msg) (cur : option Z)
| ONotify.

Inductive port_reply :=
| RCode (r : Z)
| RMsg (v : Z * list Z * list ipc_dispose * Z)
| RNotified
| REmpty.

Definition run_op (a : Z) (op : port_op) (st : pstate H S) : out (port_reply * pstate H S) :=
  match op with
  | OSend msg sender =>
      '(r, st) ← port_send jm jsn a msg sender st; Ret (RCode r, st)
  | ORecv buf cur =>
      p ← deref (ports st !! a);
      '(r, st) ← port_recv_locked a p buf cur st;
      Ret (match r with
           | Received m sid => RMsg (msg_view m, sid)
           | Notified _ => RNotified
           | NoThread | Parked => REmpty
           end, st)
  | ONotify => '(r, st) ← port_notify a st; Ret (RCode r, st)
  end.

Fixpoint run_ops (a : Z) (ops : list port_op) (st : pstate H S) :
    out (list port_reply * pstate H S) :=
  match ops with
  | [] => Ret ([], st)
  | op :: ops =>
      '(r, st) ← run_op a op st;
      '(rs, st) ← run_ops a ops st;
      Ret (r :: rs, st)
  end.

Definition aport : Type := list (Z * list Z * list ipc_dispose * Z) * bool.

Inductive astep : aport -> port_op -> port_reply -> aport -> Prop :=
| as_send q n msg sender :
    authorised sender msg ->
    astep (q, n) (OSend msg sender) (RCode IPC_OK)
      (q ++ [(clip_view msg, from_option fst 0 sender)], n)
| as_full q n msg sender :
    authorised sender msg -> PORT_MIN_QUEUE_SIZE <= Z.of_nat (length q) ->
    astep (q, n) (OSend msg sender) (RCode IPC_ERR_FULL) (q, n)
| as_inval q n msg sender :
    ~ authorised sender msg -> astep (q, n) (OSend msg sender) (RCode IPC_ERR_INVAL) (q, n)
| as_recv v q n buf cur : astep (v :: q, n) (ORecv buf cur) (RMsg v) (q, n)
| as_notified buf cur : astep ([], true) (ORecv buf cur) RNotified ([], false)
| as_empty buf cur : astep ([], false) (ORecv buf cur) REmpty ([], false)
| as_notify q n : astep (q, n) ONotify (RCode IPC_OK) (q, true).

Inductive atrace : aport -> list port_op -> list port_reply -> aport -> Prop :=
| at_nil x : atrace x [] [] x
| at_cons x y z op ops r rs :
    astep x op r y -> atrace y ops rs z -> atrace x (op :: ops) (r :: rs) z.

Definition abs_port (p : ipc_port) : aport := (contents p, negb (pending_notify p =? 0)).

(** What the callers guarantee: messages are C structures of the right size
    with unsigned counts, and the sender's C-space is well formed. *)
Definition op_ok (op : port_op) : Prop :=
  match op with
  | OSend msg sender =>
      msg_shape msg /\ 0 <= data_size msg /\ 0 <= ndispose msg /\
      forall tid cs, sender = Some (tid, cs) -> cs_wf cs
  | ORecv buf _ => msg_shape buf
  | ONotify => True
  end.

Lemma run_op_spec st a p op :
  junk_ok -> pst_wf st -> ports st !! a = Some p -> PORT_IS_VALID p = true -> op_ok op ->
  returns (run_op a op st) (fun '(r, st') =>
    pst_wf st' /\ no_leak st st' /\ exists p', ports st' = <[a := p']> (ports st) /\
      PORT_IS_VALID p' = true /\ astep (abs_port p) op r (abs_port p')).
Proof.
  intros Hj Hwf Ha Hv Hop. pose proof (st_port _ Hwf a p Ha) as [Hp _].
  destruct op as [msg sender|buf cur|]; cbn [run_op].
  - destruct Hop as (? & ? & ? & ?). eapply returns_bind; [by apply (port_send_spec st a p)|].
    intros [r st'] (Hwf' & Hnl & Hcase). cbn [returns]. split; [done|]. split; [done|].
    destruct Hcase as [(-> & ? & ->)|[(-> & ? & Hfull & Hports & _)|(-> & ? & _ & p' & Hports & _ & Hm & _ & Hn & Hc)]].
    + exists p. rewrite insert_id by done. repeat (split; [done|]). by constructor.
    + exists p. rewrite insert_id by done. repeat (split; [done|]). constructor; [done|].
      rewrite (contents_length p Hp). pose proof (pw_size _ Hp). lia.
    + exists p'. split; [done|]. unfold PORT_IS_VALID in *. rewrite Hm. split; [done|].
      unfold abs_port. rewrite Hc, Hn. by constructor.
  - rewrite Ha. cbn [deref mbind out_bind].
    eapply returns_bind; [by apply (port_recv_locked_spec st a p)|].
    intros [r st'] (Hwf' & Hnl & p' & Hports & Hm & _ & Hr). cbn [returns].
    split; [done|]. split; [done|]. exists p'. split; [done|].
    unfold PORT_IS_VALID in *. rewrite Hm. split; [done|]. unfold abs_port.
    destruct r as [m| | |m sid].
    + destruct Hr as (_ & -> & -> & Hn & -> & _). rewrite (proj2 (Z.eqb_neq _ _) Hn). constructor.
    + destruct Hr as (Hc & Hn & _ & ->). rewrite Hc, Hn. constructor.
    + destruct Hr as (-> & -> & -> & -> & _). constructor.
    + destruct Hr as (_ & _ & -> & -> & _). constructor.
  - eapply returns_bind; [by apply (port_notify_spec st a p)|].
    intros [r st'] (-> & Hwf' & Hnl & _ & p' & Hports & Hm & _ & Hc & Hn & _). cbn [returns].
    split; [done|]. split; [done|]. exists p'. split; [done|].
    unfold PORT_IS_VALID in *. rewrite Hm. split; [done|]. unfold abs_port. rewrite Hc, Hn.
    constructor.
Qed.

(** C23: every sequence of sends, receives and notifies on a live port runs to
    completion, keeps the table invariant and the heap, leaves every other
    port alone, and its replies are those of an abstract FIFO queue with a
    notify flag, in which only capabilities the sender holds are admitted. *)
Theorem port_refines_fifo st a p ops :
  junk_ok -> pst_wf st -> ports st !! a = Some p -> PORT_IS_VALID p = true ->
  Forall op_ok ops ->
  returns (run_ops a ops st) (fun '(rs, st') =>
    pst_wf st' /\ no_leak st st' /\ exists p', ports st' = <[a := p']> (ports st) /\
      PORT_IS_VALID p' = true /\ atrace (abs_port p) ops rs (abs_port p')).
Proof.
  intros Hj. revert st p. induction ops as [|op ops IH]; intros st p Hwf Ha Hv Hops.
  { cbn [run_ops returns]. split; [done|]. split; [done|]. exists p. rewrite insert_id by done.
    repeat (split; [done|]). constructor. }
  apply Forall_cons in Hops as [Hop Hops]. cbn [run_ops].
  eapply returns_bind; [by apply (run_op_spec st a p)|].
  intros [r st1] (Hwf1 & Hnl1 & p1 & Hports1 & Hv1 & Hstep).
  eapply returns_bind; [apply (IH st1 p1); try done; rewrite Hports1; apply lookup_insert_eq|].
  intros [rs st2] (Hwf2 & Hnl2 & p2 & Hports2 & Hv2 & Htr). cbn [returns].
  split; [done|]. split; [by eapply no_leak_trans|]. exists p2.
  rewrite Hports2, Hports1, insert_insert_eq. split; [done|]. split; [done|]. by econstructor.
Qed.

(** C24: taking and dropping references is safe for every address, stale or
    not, of which fewer than INT_MAX references exist: a lookup succeeds
    exactly on live ports, a release of an unknown address changes nothing, the
    last release unregisters the port and frees its blocks, and a lookup
    followed by its release is the identity on the ports.  One more reference
    to a live port that has INT_MAX is undefined behaviour; nothing in the code
    prevents it. *)
Theorem port_references_safe st a :
  pst_wf st ->
  (ref_room st a -> returns (port_ref_raw a st) (fun '(r, st1) =>
    pst_wf st1 /\ no_leak st st1 /\
    (r = 0 \/ r = a) /\
    (r <> 0 <-> exists p, ports st !! a = Some p /\ PORT_IS_VALID p = true) /\
    returns (port_release r st1) (fun st2 =>
      pst_wf st2 /\ no_leak st st2 /\ ports st2 = ports st))) /\
  (forall p, ports st !! a = Some p -> PORT_IS_VALID p = true -> ref_count p = INT_MAX -> port_ref_raw a st = UB) /\
  returns (port_release a st) (fun st1 =>
    pst_wf st1 /\ no_leak st st1 /\ ports st1 = dropped a (ports st)).
Proof.
  intros Hwf. split; [|split].
  3: { eapply returns_mono; [by apply port_release_spec|]. naive_solver. }
  2: { intros p Ha Hv E. unfold port_ref_raw. destruct (table_find_live st a p Hwf Ha) as (i & Hi & _ & Ha0).
       rewrite (proj2 (Z.eqb_neq _ _) Ha0), Hi, Ha. cbn [deref mbind out_bind].
       unfold PORT_IS_VALID in Hv. by rewrite Hv, E. }
  intros Hroom. eapply returns_mono; [by apply (port_ref_raw_spec st a)|].
  intros [r st1] (Hwf1 & Hnl1 & _ & Hr). split; [done|]. split; [done|].
  pose proof (port_release_spec st1 r Hwf1) as Hrel.
  destruct (ports st !! a) as [p|] eqn:Ha; [destruct (PORT_IS_VALID p) eqn:Hv|].
  - destruct Hr as [-> Hports]. destruct (table_find_live st a p Hwf Ha) as (_ & _ & _ & Ha0).
    split; [by right|]. split; [naive_solver|].
    eapply returns_mono; [exact Hrel|]. intros st2 (Hwf2 & Hnl2 & _ & ->).
    split; [done|]. split; [by eapply no_leak_trans|].
    unfold dropped. rewrite Hports, lookup_insert_eq. pose proof (st_port _ Hwf a p Ha) as [_ ?].
    cbn [ref_count set_ref]. destruct (Z.eqb_spec (ref_count p + 1) 1); [lia|].
    rewrite insert_insert_eq. replace (ref_count p + 1 - 1) with (ref_count p) by lia.
    apply insert_id. rewrite Ha. by destruct p.
  - destruct Hr as [-> ->]. split; [by left|]. split.
    { split; [done|]. intros (? & ? & ?). simplify_eq. congruence. }
    eapply returns_mono; [exact Hrel|]. intros st2 (Hwf2 & Hnl2 & _ & ->).
    split; [done|]. split; [done|]. unfold dropped. by rewrite (st_null _ Hwf).
  - destruct Hr as [-> ->]. split; [by left|]. split.
    { split; [done|]. by intros (? & ? & ?). }
    eapply returns_mono; [exact Hrel|]. intros st2 (Hwf2 & Hnl2 & _ & ->).
    split; [done|]. split; [done|]. unfold dropped. by rewrite (st_null _ Hwf).
Qed.

(** Creation either fails without a trace or registers a fresh, empty
    port; destroying a live port wakes every registered receiver, after which
    no lookup of that address succeeds; creating and destroying a port leaves
    the ports and the heap as they were. *)
Theorem port_lifecycle st :
  junk_ok -> pst_wf st ->
  (let '(r, st1) := port_create jp jm jsn st in
   pst_wf st1 /\ no_leak st st1 /\
   ((r = 0 /\ ports st1 = ports st) \/
    (ports st !! r = None /\ (exists p, ports st1 = <[r := p]> (ports st) /\ fresh_port p) /\
     returns (port_destroy r st1) (fun '(d, st2) =>
       d = 0 /\ pst_wf st2 /\ no_leak st st2 /\ ports st2 = ports st)))) /\
  (forall a p, ports st !! a = Some p -> PORT_IS_VALID p = true ->
   returns (port_destroy a st) (fun '(d, st1) =>
     d = 0 /\ pst_wf st1 /\ no_leak st st1 /\
     (forall t, t ∈ registered p -> thread_blocked (psched st1) t = false) /\
     exists st2, port_ref_raw a st1 = Ret (0, st2))).
Proof.
  intros Hj Hwf. split.
  - pose proof (port_create_spec st Hj Hwf) as Hc.
    destruct (port_create jp jm jsn st) as [r st1]. destruct Hc as (Hwf1 & Hnl1 & _ & Hcase).
    split; [done|]. split; [done|].
    destruct Hcase as [?|(Hr & Hnone & p & Hports & Hfresh)]; [by left|right].
    split; [done|]. split; [by eauto|]. destruct Hfresh as (Hv & Href & _).
    eapply returns_mono; [apply (port_destroy_spec st1 r p); try done; rewrite Hports; apply lookup_insert_eq|].
    intros [d st2] (-> & Hwf2 & Hnl2 & _ & Hports2). split; [done|]. split; [done|].
    split; [by eapply no_leak_trans|]. rewrite Hports2. unfold dropped.
    rewrite lookup_insert_eq. cbn [ref_count set_magic set_waiters]. rewrite Href. cbn [Z.eqb Pos.eqb].
    by rewrite delete_insert_eq, Hports, delete_insert_id.
  - intros a p Ha Hv. eapply returns_mono; [by apply (port_destroy_spec st a p)|].
    intros [d st1] (-> & Hwf1 & Hnl1 & Hw & Hports). repeat (split; [done|]). split.
    + intros t Ht. destruct (Hw t) as [_ ->]. rewrite bool_decide_eq_true_2 by done.
      apply andb_false_r.
    + assert (ref_room st1 a) as Hroom.
      { intros q. rewrite Hports. unfold dropped. rewrite lookup_insert_eq. cbn [ref_count set_magic set_waiters].
        pose proof (st_port _ Hwf a p Ha) as [_ ?]. destruct (ref_count p =? 1); [by rewrite lookup_delete_eq|].
        rewrite lookup_insert_eq. intros [= <-]. cbn. lia. }
      pose proof (port_ref_raw_spec st1 a Hwf1 Hroom) as Hr.
      destruct (port_ref_raw a st1) as [[r st2]| |]; cbn [returns] in Hr; [|done..].
      exists st2. destruct Hr as (_ & _ & _ & Hr). rewrite Hports in Hr. unfold dropped in Hr.
      rewrite lookup_insert_eq in Hr. cbn [ref_count set_magic set_waiters] in Hr.
      destruct (ref_count p =? 1).
      * rewrite lookup_delete_eq in Hr. by destruct Hr as [-> _].
      * rewrite lookup_insert_eq in Hr. by destruct Hr as [-> _].
Qed.

(** A send or a notification wakes every registered receiver; but a
    receiver that finds the waiter list full is parked without being
    registered, and neither a later send nor a later notification wakes it. *)
Theorem port_wakeups st a p tid buf :
  pst_wf st -> ports st !! a = Some p -> PORT_IS_VALID p = true -> msg_shape buf ->
  contents p = [] -> pending_notify p = 0 -> thread_known (psched st) tid = true ->
  returns (port_recv_locked a p buf (Some tid) st) (fun '(r, st1) =>
    r = Parked /\ thread_blocked (psched st1) tid = true /\
    returns (port_notify a st1) (fun '(_, st2) =>
      (waiter_count p < PORT_WAITERS_MAX -> thread_blocked (psched st2) tid = false) /\
      (waiter_count p = PORT_WAITERS_MAX -> (tid ∉ registered p) ->
       thread_blocked (psched st2) tid = true))).
Proof.
  intros Hwf Ha Hv Hb Hc Hn Hk.
  eapply returns_mono; [by apply (port_recv_locked_spec st a p buf (Some tid))|].
  intros [r st1] (Hwf1 & _ & p1 & Hports & Hm & _ & Hr).
  destruct r as [m| | |m sid].
  - destruct Hr as (_ & _ & _ & ? & _). done.
  - destruct Hr as (_ & _ & ? & _). done.
  - destruct Hr as (_ & _ & _ & _ & tid' & [= <-] & Hs & Hroom & Hfull).
    assert (thread_blocked (psched st1) tid = true) as Hblk
      by (rewrite Hs, park_blocked, Hk, Z.eqb_refl; done).
    split; [done|]. split; [done|].
    eapply returns_mono; [apply (port_notify_spec st1 a p1); try done|].
    { rewrite Hports. apply lookup_insert_eq. }
    { unfold PORT_IS_VALID in *. by rewrite Hm. }
    intros [r2 st2] (_ & _ & _ & Hw & _). destruct (Hw tid) as [_ ->]. rewrite Hblk. cbn [andb].
    split.
    + intros ?. by rewrite bool_decide_eq_true_2 by auto.
    + intros ? ?. rewrite Hfull by done. by rewrite bool_decide_eq_false_2.
  - destruct Hr as (_ & _ & Hc' & _). by rewrite Hc in Hc'.
Qed.
End state.

(** ** Witnesses *)

Definition stale_msg (n : nat) : ipc_msg :=
  IpcMsg 9 9 (replicate 64 0xAA) 9 (replicate 4 (IpcDispose 0 0 0)).
Definition stale_port : ipc_port := IpcPort 0 0 0 [] 0 [] 0 0 0 0 0 (replicate 8 0) 0.
Definition idle_threads : ref_sched := RefSched {[1; 2; 3; 4; 5; 6; 7; 8; 9]} ∅.
Definition no_ports : pstate ref_heap ref_sched :=
  PState ∅ (replicate 512 0) (RefHeap 1 50 ∅) idle_threads.
Definition one_port : pstate ref_heap ref_sched :=
  (port_create stale_port stale_msg Z.of_nat no_ports).2.
Definition port1 : ipc_port :=
  IpcPort PORT_MAGIC 1 2 (fresh_arr stale_msg 16) 3 (fresh_arr Z.of_nat 16) 16 0 0 0 0
    (replicate 8 0) 0.
(** Eight threads already wait on the port. *)
Definition full_port : ipc_port := set_waiters [1; 2; 3; 4; 5; 6; 7; 8] 8 port1.
Definition full_state : pstate ref_heap ref_sched := set_port 1 full_port one_port.
Definition hello : ipc_msg := IpcMsg 5 100 (replicate 64 7) 0 (replicate 4 (IpcDispose 0 0 0)).

Lemma stale_ok : junk_ok stale_port stale_msg.
Proof. split; [intros n; split; reflexivity|reflexivity]. Qed.

Lemma no_ports_wf : pst_wf no_ports.
Proof.
  assert (forall a : Z, (∅ : gmap Z ipc_port) !! a = None) as He by apply lookup_empty.
  split; cbn [no_ports ports port_table pheap]; try done.
  - intros a Ha. rewrite He. split; [|by intros [? ?]].
    intros [-> _]%elem_of_replicate. done.
  - intros i j a Ha [-> _]%lookup_replicate. done.
Qed.

Lemma one_port_wf : pst_wf one_port.
Proof.
  pose proof (port_create_spec stale_port stale_msg Z.of_nat no_ports stale_ok no_ports_wf) as Hc.
  unfold one_port. destruct (port_create stale_port stale_msg Z.of_nat no_ports). apply Hc.
Qed.

Lemma one_port_live : ports one_port !! 1 = Some port1.
Proof. vm_compute. reflexivity. Qed.

Lemma full_state_wf : pst_wf full_state.
Proof.
  pose proof (st_port _ one_port_wf _ _ one_port_live) as [Hp Href].
  apply (wf_set_port one_port 1 port1 full_port (psched one_port));
    [exact one_port_wf|exact one_port_live| |exact Href|reflexivity|reflexivity].
  destruct Hp. split; try assumption; try (cbn; unfold PORT_WAITERS_MAX; lia).
  apply (bool_decide_unpack _). vm_compute. exact I.
Qed.

Lemma hello_shape : msg_shape hello.
Proof. split; reflexivity. Qed.

Lemma port_refines_fifo_witness :
  returns (run_ops stale_msg Z.of_nat 1
             [OSend hello None; ONotify; ORecv (stale_msg 0) (Some 4); ORecv (stale_msg 0) (Some 4)]
             one_port)
    (fun '(rs, st') => pst_wf st').
Proof.
  eapply returns_mono;
    [apply (port_refines_fifo stale_port stale_msg Z.of_nat one_port 1 port1
              [OSend hello None; ONotify; ORecv (stale_msg 0) (Some 4); ORecv (stale_msg 0) (Some 4)]
              stale_ok one_port_wf one_port_live eq_refl)|].
  - repeat constructor; cbn; lia || congruence.
  - intros [rs st'] [Hwf _]. exact Hwf.
Defined.

(** 2 is the address of a queue, not of a port: a stale capability. *)
Lemma port_references_safe_witness :
  returns (port_ref_raw 1 one_port) (fun '(r, _) => r <> 0) /\
  returns (port_release 2 one_port) (fun st1 => pst_wf st1).
Proof.
  split.
  - eapply returns_mono; [apply (proj1 (port_references_safe one_port 1 one_port_wf))|].
    { intros p Hp. rewrite one_port_live in Hp. injection Hp as <-. reflexivity. }
    intros [r st1] (_ & _ & _ & Hr & _). apply Hr. exists port1. exact (conj one_port_live eq_refl).
  - eapply returns_mono; [exact (proj2 (proj2 (port_references_safe one_port 2 one_port_wf)))|].
    intros st1 [Hwf _]. exact Hwf.
Defined.

Lemma port_lifecycle_witness :
  returns (port_destroy 1 full_state) (fun '(_, st1) =>
    thread_blocked (psched st1) 3 = false).
Proof.
  destruct (port_lifecycle stale_port stale_msg Z.of_nat full_state stale_ok full_state_wf) as [_ Hd].
  eapply returns_mono; [exact (Hd 1 full_port eq_refl eq_refl)|].
  intros [d st1] (_ & _ & _ & Hw & _). apply Hw. apply (bool_decide_unpack _). vm_compute. exact I.
Defined.

Lemma port_wakeups_witness :
  returns (port_recv_locked 1 full_port (stale_msg 0) (Some 9) full_state) (fun '(r, st1) =>
    r = Parked /\
    returns (port_notify 1 st1) (fun '(_, st2) => thread_blocked (psched st2) 9 = true)).
Proof.
  eapply returns_mono;
    [apply (port_wakeups full_state 1 full_port 9 (stale_msg 0) full_state_wf eq_refl eq_refl
              (proj1 stale_ok 0%nat) eq_refl eq_refl); vm_compute; reflexivity|].
  intros [r st1] (Hr & _ & Hn). split; [exact Hr|].
  eapply returns_mono; [exact Hn|]. intros [r2 st2] [_ Hfull]. apply Hfull; [reflexivity|].
  apply (bool_decide_unpack _). vm_compute. exact I.
Defined.
