(* ===== verification/Task.v ===== *)
(** * Tasks and their hash table (mk/vm/task.c, mk/include/task.h)

    Task structures live in kernel memory by address ([tmem]; an address that
    is not a key is not a task).  [task_hash] holds the head of one singly
    linked chain per bucket, linked through [tnext]; 0 is NULL.  The loops
    over a chain run on fuel one larger than the number of tasks: a chain
    longer than that is cyclic and the C loop would not end. *)

From stdpp Require Import base numbers list gmap sets.
From Stdlib Require Import ZArith Lia.
From S2P Require Import Prelude Cspace.

#[local] Open Scope Z_scope.

Definition TASK_NAME_MAX : Z := 32.
Definition TASK_HASH_SIZE : Z := Z.shiftl 1 8.

Record task := Task {
  task_id : Z;
  tname : list Z;
  tcspace : cspace;
  tmap : Z;
  main_thread : Z;
  tnext : Z;
}.

Record tstate := TState {
  tmem : gmap Z task;
  task_hash : list Z;
  next_task_id : Z;
}.

Definition sizeof_task : Z := 96.

Definition set_next (n : Z) (t : task) : task :=
  Task (task_id t) (tname t) (tcspace t) (tmap t) (main_thread t) n.
Definition set_tcspace (cs : cspace) (t : task) : task :=
  Task (task_id t) (tname t) cs (tmap t) (main_thread t) (tnext t).
Definition set_task (a : Z) (t : task) (ts : tstate) : tstate :=
  TState (<[a := t]> (tmem ts)) (task_hash ts) (next_task_id ts).

Definition task_hash_id (tid : Z) : Z := Z.land tid (TASK_HASH_SIZE - 1).

Definition task_init (ts : tstate) : tstate :=
  TState (tmem ts) (replicate (Z.to_nat TASK_HASH_SIZE) 0) 1.

(** ** Lookup *)

Fixpoint chain_find (fuel : nat) (tm : gmap Z task) (t id : Z) : out Z :=
  match fuel with
  | O => Hang
  | S fuel =>
      if t =? 0 then Ret 0
      else
        x ← deref (tm !! t);
        if task_id x =? id then Ret t else chain_find fuel tm (tnext x) id
  end.

(** [task_find] and [task_find_hold] walk the chain in the same way; the
    latter returns with [task_lock] held. *)
Definition task_find (id : Z) (ts : tstate) : out Z :=
  if id =? 0 then Ret 0
  else
    head ← rd (task_hash ts) (task_hash_id id);
    chain_find (S (size (tmem ts))) (tmem ts) head id.

(** ** Creation *)

(** [while (name[ni] && ni < TASK_NAME_MAX - 1) t->name[ni] = name[ni++];] *)
Fixpoint copy_name (fuel : nat) (ni : Z) (name dst : list Z) : out (Z * list Z) :=
  match fuel with
  | O => Hang
  | S fuel =>
      c ← rd name ni;
      if negb (c =? 0) && (ni <? TASK_NAME_MAX - 1)
      then dst ← wr dst ni c; copy_name fuel (ni + 1) name dst
      else Ret (ni, dst)
  end.

Definition task_name (name : option (list Z)) : out (list Z) :=
  let zero := replicate (Z.to_nat TASK_NAME_MAX) 0 in
  match name with
  | None => Ret zero
  | Some name =>
      '(ni, dst) ← copy_name (Z.to_nat TASK_NAME_MAX) 0 name zero;
      wr dst ni 0
  end.

Section create.
Context {H : Type} `{!KMem H}.

Definition task_create (name : option (list Z)) (ts : tstate) (h : H) : out (Z * tstate * H) :=
  match kmalloc sizeof_task h with
  | (None, h) => Ret (0, ts, h)
  | (Some a, h) =>
      nm ← task_name name;
      match cspace_init (CSpace 0 [] 0 [] 0 0) h with
      | (r, cs, h) =>
          if r <? 0 then Ret (0, ts, kfree a h)
          else
            let id := next_task_id ts in
            head ← rd (task_hash ts) (task_hash_id id);
            hash ← wr (task_hash ts) (task_hash_id id) a;
            Ret (a, TState (<[a := Task id nm cs 0 0 head]> (tmem ts)) hash (u32 (id + 1)), h)
      end
  end.
End create.

(** ** Unlinking *)

(** The location [pp] points to: a bucket of the table or the [next] field of
    a task. *)
Inductive ploc := Bucket (i : Z) | NextOf (a : Z).

Definition get_loc (l : ploc) (ts : tstate) : out Z :=
  match l with
  | Bucket i => rd (task_hash ts) i
  | NextOf a => t ← deref (tmem ts !! a); Ret (tnext t)
  end.

Definition set_loc (l : ploc) (v : Z) (ts : tstate) : out tstate :=
  match l with
  | Bucket i => hash ← wr (task_hash ts) i v; Ret (TState (tmem ts) hash (next_task_id ts))
  | NextOf a => t ← deref (tmem ts !! a); Ret (set_task a (set_next v t) ts)
  end.

Fixpoint unlink (fuel : nat) (pp : ploc) (task : Z) (ts : tstate) : out tstate :=
  match fuel with
  | O => Hang
  | S fuel =>
      cur ← get_loc pp ts;
      if cur =? 0 then Ret ts
      else if cur =? task then
        t ← deref (tmem ts !! task);
        set_loc pp (tnext t) ts
      else unlink fuel (NextOf cur) task ts
  end.

Definition task_unlink (task : Z) (ts : tstate) : out tstate :=
  t ← deref (tmem ts !! task);
  unlink (S (size (tmem ts))) (Bucket (task_hash_id (task_id t))) task ts.

(** ** The table as a finite map from task ids to tasks *)

Fixpoint chain (tm : gmap Z task) (h : Z) (l : list Z) : Prop :=
  match l with
  | [] => h = 0
  | a :: l => h = a /\ a <> 0 /\ exists t, tm !! a = Some t /\ chain tm (tnext t) l
  end.

Record buckets (ts : tstate) (bs : list (list Z)) : Prop := {
  bk_len : Z.of_nat (length (task_hash ts)) = TASK_HASH_SIZE;
  bk_chain : Forall2 (chain (tmem ts)) (task_hash ts) bs;
  bk_nodup i b : bs !! i = Some b -> NoDup b;
  bk_dom a t : tmem ts !! a = Some t ->
    exists b, bs !! Z.to_nat (task_hash_id (task_id t)) = Some b /\ a ∈ b;
  bk_hash i b a t : bs !! i = Some b -> a ∈ b -> tmem ts !! a = Some t ->
    task_hash_id (task_id t) = Z.of_nat i;
  bk_id a t : tmem ts !! a = Some t -> 0 < task_id t < next_task_id ts;
  bk_uniq a b t u : tmem ts !! a = Some t -> tmem ts !! b = Some u ->
    task_id t = task_id u -> a = b;
  bk_next : 0 < next_task_id ts < 2 ^ 32;
}.

Definition ts_wf (ts : tstate) : Prop := exists bs, buckets ts bs.

Lemma task_hash_range id : 0 <= task_hash_id id < TASK_HASH_SIZE.
Proof.
  unfold task_hash_id. change (TASK_HASH_SIZE - 1) with (Z.ones 8).
  rewrite Z.land_ones by lia. apply (Z.mod_pos_bound id (2 ^ 8)). lia.
Qed.

Lemma chain_dom tm h l a : chain tm h l -> a ∈ l -> a <> 0 /\ is_Some (tm !! a).
Proof.
  revert h. induction l as [|b l IH]; intros h Hc Ha; [by apply not_elem_of_nil in Ha|].
  destruct Hc as (-> & Hb & t & Ht & Hc). apply elem_of_cons in Ha as [->|Ha]; [|eauto].
  split; [done|]. by exists t.
Qed.

Lemma chain_length tm h l : chain tm h l -> NoDup l -> (length l <= size tm)%nat.
Proof.
  intros Hc Hnd. rewrite <- (size_list_to_set (C := gset Z) l) by done.
  rewrite <- size_dom. apply subseteq_size. intros a Ha%elem_of_list_to_set.
  apply elem_of_dom. by apply (chain_dom tm h l).
Qed.

Lemma chain_insert tm h l a t : a ∉ l -> chain (<[a := t]> tm) h l <-> chain tm h l.
Proof.
  revert h. induction l as [|b l IH]; intros h Ha; [done|]. cbn [chain].
  apply not_elem_of_cons in Ha as [Hne Ha].
  rewrite lookup_insert_ne by done. setoid_rewrite IH; done.
Qed.

Lemma chain_delete tm h l a : a ∉ l -> chain tm h l -> chain (delete a tm) h l.
Proof.
  revert h. induction l as [|b l IH]; intros h Ha; [done|]. cbn [chain].
  apply not_elem_of_cons in Ha as [Hne Ha]. rewrite lookup_delete_ne by done.
  intros (-> & ? & t & ? & ?). eauto 10.
Qed.

Lemma chain_find_spec fuel tm h l id :
  chain tm h l -> (length l < fuel)%nat ->
  returns (chain_find fuel tm h id) (fun r =>
    (r = 0 /\ forall a t, a ∈ l -> tm !! a = Some t -> task_id t <> id) \/
    (exists t, r <> 0 /\ r ∈ l /\ tm !! r = Some t /\ task_id t = id)).
Proof.
  revert h l. induction fuel as [|fuel IH]; intros h l Hc Hl; [lia|].
  destruct l as [|a l]; cbn [chain_find].
  - rewrite Hc. left. split; [done|]. intros a t Ha. by apply not_elem_of_nil in Ha.
  - destruct Hc as (-> & Ha & t & Ht & Hc). rewrite (proj2 (Z.eqb_neq a 0)) by done.
    rewrite Ht. cbn [deref mbind out_bind]. destruct (Z.eqb_spec (task_id t) id) as [<-|Hne].
    + right. exists t. split; [done|]. split; [by left|done].
    + eapply returns_mono; [apply (IH _ l Hc); simpl in Hl; lia|]. cbn beta.
      intros r [[-> Hno]|(u & ? & ? & ? & ?)].
      * left. split; [done|]. intros b u [->|Hb]%elem_of_cons Hu; [congruence|by eapply Hno].
      * right. exists u. split; [done|]. split; [by right|done].
Qed.

(** The bucket of an id. *)
Lemma bucket_of ts bs id :
  buckets ts bs -> exists h b, getz (task_hash ts) (task_hash_id id) = Some h /\
    bs !! Z.to_nat (task_hash_id id) = Some b /\ chain (tmem ts) h b /\ NoDup b /\
    (length b <= size (tmem ts))%nat.
Proof.
  intros Hb. pose proof (task_hash_range id) as Hr.
  destruct (getz_lt (task_hash ts) (task_hash_id id)) as [h Hh]; [rewrite (bk_len _ _ Hb); lia|].
  pose proof (proj2 (proj1 (getz_Some _ _ _) Hh)) as Hh'.
  destruct (Forall2_lookup_l _ _ _ _ _ (bk_chain _ _ Hb) Hh') as (b & Hbb & Hc).
  exists h, b. split; [done|]. split; [done|]. split; [done|].
  pose proof (bk_nodup _ _ Hb _ _ Hbb). split; [done|]. by eapply chain_length.
Qed.

Definition task_at (ts : tstate) (id a : Z) : Prop :=
  exists t, tmem ts !! a = Some t /\ task_id t = id.

Lemma task_find_spec ts id :
  ts_wf ts ->
  returns (task_find id ts) (fun r =>
    (r = 0 /\ forall a, ~ task_at ts id a) \/ (r <> 0 /\ task_at ts id r)).
Proof.
  intros [bs Hb]. unfold task_find. destruct (Z.eqb_spec id 0) as [->|Hid].
  { left. split; [done|]. intros a (t & Ht & Hi). pose proof (bk_id _ _ Hb _ _ Ht). lia. }
  destruct (bucket_of ts bs id Hb) as (h & b & Hh & Hbb & Hc & Hnd & Hlen).
  rewrite (rd_getz _ _ _ Hh). cbn [mbind out_bind].
  eapply returns_mono; [apply (chain_find_spec _ _ _ b); [done|lia]|]. cbn beta.
  intros r [[-> Hno]|(t & ? & ? & ? & ?)]; [left|right; split; [done|by exists t]].
  split; [done|]. intros a (t & Ht & <-). destruct (bk_dom _ _ Hb a t Ht) as (b' & Hb' & Ha).
  rewrite Hbb in Hb'. simplify_eq. by apply (Hno a t).
Qed.

(** Replacing the C-space of a task does not touch the table. *)
Lemma chain_set_cspace tm h l a t cs :
  tm !! a = Some t -> chain tm h l -> chain (<[a := set_tcspace cs t]> tm) h l.
Proof.
  intros Ha. revert h. induction l as [|b l IH]; intros h; [done|]. cbn [chain].
  intros (-> & Hb & u & Hu & Hc). split; [done|]. split; [done|].
  destruct (decide (a = b)) as [<-|Hne].
  - rewrite Ha in Hu. injection Hu as <-. exists (set_tcspace cs t). rewrite lookup_insert_eq.
    split; [done|]. by apply IH.
  - exists u. rewrite lookup_insert_ne by done. split; [done|]. by apply IH.
Qed.

Lemma ts_set_cspace ts a t cs :
  ts_wf ts -> tmem ts !! a = Some t -> ts_wf (set_task a (set_tcspace cs t) ts).
Proof.
  intros [bs Hb] Ha. exists bs.
  assert (forall x u, tmem (set_task a (set_tcspace cs t) ts) !! x = Some u ->
    exists u0, tmem ts !! x = Some u0 /\ task_id u = task_id u0) as Hlk.
  { cbn [tmem set_task]. intros x u [[<- <-]|[Hne Hu]]%lookup_insert_Some; eauto. }
  destruct Hb. split; cbn [task_hash next_task_id set_task]; try done.
  - eapply Forall2_impl; [done|]. intros h l. by apply chain_set_cspace.
  - intros x u Hu. destruct (Hlk x u Hu) as (u0 & Hu0 & ->). by apply bk_dom0.
  - intros i b x u Hi Hx Hu. destruct (Hlk x u Hu) as (u0 & Hu0 & ->). by eapply bk_hash0.
  - intros x u Hu. destruct (Hlk x u Hu) as (u0 & Hu0 & ->). by apply bk_id0 in Hu0.
  - intros x y u v Hx Hy. destruct (Hlk x u Hx) as (u0 & Hu0 & ->).
    destruct (Hlk y v Hy) as (v0 & Hv0 & ->). by apply bk_uniq0.
Qed.

(** ** Names *)

(** The stored name: the C string cut to 31 bytes, padded with NULs. *)
Definition clipped (s : list Z) : list Z :=
  take 31 s ++ replicate (32 - length (take 31 s)) 0.

Lemma copy_name_spec s rest fuel (i : nat) :
  0 ∉ s -> (i <= length (take 31 s))%nat -> (length (take 31 s) - i < fuel)%nat ->
  copy_name fuel (Z.of_nat i) (s ++ 0 :: rest) (take i s ++ replicate (32 - i) 0) =
    Ret (Z.of_nat (length (take 31 s)), clipped s).
Proof.
  intros Hs. revert i. rewrite length_take.
  induction fuel as [|fuel IH]; intros i Hi Hf; [lia|]. cbn [copy_name].
  destruct (decide (i < length s)%nat) as [Hlt|Hge].
  - destruct (lookup_lt_is_Some_2 s i Hlt) as [c Hc].
    assert (c <> 0) as Hc0 by (intros ->; by apply Hs, (list_elem_of_lookup_2 s i)).
    rewrite (rd_getz _ _ c) by (rewrite getz_of_nat, lookup_app_l by lia; done).
    cbn [mbind out_bind]. rewrite (proj2 (Z.eqb_neq c 0)) by done. unfold TASK_NAME_MAX.
    cbn [negb andb]. destruct (Z.ltb_spec (Z.of_nat i) (32 - 1)).
    + rewrite wr_ok by (rewrite length_app, length_take, length_replicate; lia).
      cbn [mbind out_bind]. rewrite Nat2Z.id.
      replace (Z.of_nat i + 1) with (Z.of_nat (S i)) by lia. rewrite <- (IH (S i)) by lia. f_equal.
      rewrite (take_S_r s i c Hc), <- app_assoc.
      rewrite insert_app_r_alt by (rewrite length_take; lia).
      replace (i - length (take i s))%nat with 0%nat by (rewrite length_take; lia).
      replace (32 - i)%nat with (S (32 - S i)) by lia. done.
    + assert (i = 31)%nat as -> by lia. unfold clipped. rewrite length_take.
      replace (31 `min` length s)%nat with 31%nat by lia. done.
  - assert (i = length s) as -> by lia. rewrite (rd_getz _ _ 0).
    2: { rewrite getz_of_nat, lookup_app_r, Nat.sub_diag by lia. done. }
    cbn [mbind out_bind]. rewrite Z.eqb_refl. cbn [negb andb]. unfold clipped.
    rewrite length_take. replace (31 `min` length s)%nat with (length s) by lia.
    rewrite (take_ge s 31), firstn_all by lia. done.
Qed.

Definition name_ok (name : option (list Z)) (nm : list Z) : Prop :=
  match name with
  | None => nm = replicate 32 0
  | Some s => exists s' rest, s = s' ++ 0 :: rest /\ (0 ∉ s') /\ nm = clipped s'
  end.

Definition c_string (name : option (list Z)) : Prop :=
  match name with None => True | Some s => exists s' rest, s = s' ++ 0 :: rest /\ 0 ∉ s' end.

Lemma task_name_spec name :
  c_string name -> returns (task_name name) (fun nm => name_ok name nm).
Proof.
  destruct name as [s|]; [|done]. intros (s' & rest & -> & Hs). unfold task_name.
  rewrite (copy_name_spec s' rest _ 0); [|done|lia|].
  2: { rewrite length_take. change (Z.to_nat TASK_NAME_MAX) with 32%nat. lia. }
  cbn [mbind out_bind]. unfold clipped. rewrite wr_ok.
  2: { rewrite length_app, length_replicate, length_take. lia. }
  cbn [returns]. exists s', rest. split; [done|]. split; [done|]. rewrite Nat2Z.id.
  unfold clipped. rewrite insert_app_r_alt, Nat.sub_diag by done.
  replace (32 - length (take 31 s'))%nat with (S (31 - length (take 31 s')))
    by (rewrite length_take; lia). done.
Qed.

(** ** Creation *)

Section create_spec.
Context {H : Type} `{!KMem H, !KMemLaws H}.

(** The blocks of a task: the structure and the arrays of its C-space. *)
Definition tblocks (a : Z) (t : task) : gset Z := {[a]} ∪ arrays (tcspace t).

Lemma buckets_insert ts bs a t h b :
  buckets ts bs -> tmem ts !! a = None -> a <> 0 -> task_id t = next_task_id ts ->
  next_task_id ts + 1 < 2 ^ 32 ->
  getz (task_hash ts) (task_hash_id (task_id t)) = Some h ->
  bs !! Z.to_nat (task_hash_id (task_id t)) = Some b -> tnext t = h ->
  let i := Z.to_nat (task_hash_id (task_id t)) in
  buckets (TState (<[a := t]> (tmem ts)) (<[i := a]> (task_hash ts)) (next_task_id ts + 1))
    (<[i := a :: b]> bs).
Proof.
  intros Hb Hnone Ha0 Hid Hmax Hh Hbb Hnext i.
  pose proof (task_hash_range (task_id t)) as Hr. apply getz_Some in Hh as [_ Hh].
  assert (forall j c, bs !! j = Some c -> a ∉ c) as Hnew.
  { intros j c Hj Hin. destruct (Forall2_lookup_r _ _ _ _ _ (bk_chain _ _ Hb) Hj) as (h' & _ & Hc).
    destruct (chain_dom _ _ _ _ Hc Hin) as [_ [x Hx]]. congruence. }
  split; cbn [tmem task_hash next_task_id].
  - rewrite length_insert. apply Hb.
  - apply Forall2_insert.
    + apply Forall2_same_length_lookup_2; [by eapply Forall2_length, Hb|].
      intros j x l Hx Hl. apply chain_insert; [by eapply Hnew|].
      by eapply Forall2_lookup_lr; [apply Hb|..].
    + cbn [chain]. split; [done|]. split; [done|]. exists t. rewrite lookup_insert_eq.
      split; [done|]. rewrite Hnext. apply chain_insert; [by eapply Hnew|].
      by eapply Forall2_lookup_lr; [apply Hb|..].
  - intros j c [(<- & <- & _)|[Hne Hj]]%list_lookup_insert_Some; [|by eapply bk_nodup].
    apply NoDup_cons. split; [by eapply Hnew|by eapply bk_nodup].
  - intros x u Hx. apply lookup_insert_Some in Hx as [[<- <-]|[Hne Hx]].
    + exists (a :: b). split; [|by left]. apply list_lookup_insert_eq. by eapply lookup_lt_Some.
    + destruct (bk_dom _ _ Hb x u Hx) as (c & Hc & Hin).
      destruct (decide (Z.to_nat (task_hash_id (task_id u)) = i)) as [E|E].
      * exists (a :: b). rewrite E, list_lookup_insert_eq by (by eapply lookup_lt_Some).
        split; [done|]. rewrite E in Hc. unfold i in Hc. rewrite Hbb in Hc. simplify_eq. by right.
      * exists c. by rewrite list_lookup_insert_ne.
  - intros j c x u Hj Hin Hx. apply lookup_insert_Some in Hx as [[<- <-]|[Hne Hx]].
    + apply list_lookup_insert_Some in Hj as [(<- & <- & _)|[Hnj Hj]]; [lia|].
      exfalso. by apply (Hnew j c).
    + apply list_lookup_insert_Some in Hj as [(<- & <- & _)|[Hnj Hj]].
      * apply elem_of_cons in Hin as [->|Hin]; [done|]. by eapply (bk_hash _ _ Hb i b).
      * by eapply (bk_hash _ _ Hb j c).
  - intros x u [[<- <-]|[Hne Hx]]%lookup_insert_Some; [pose proof (bk_next _ _ Hb); lia|].
    pose proof (bk_id _ _ Hb x u Hx). lia.
  - intros x y u v Hx Hy Huv.
    apply lookup_insert_Some in Hx as [[<- <-]|[Hnx Hx]], Hy as [[<- <-]|[Hny Hy]]; try done.
    + pose proof (bk_id _ _ Hb y v Hy). lia.
    + pose proof (bk_id _ _ Hb x u Hx). lia.
    + by apply (bk_uniq _ _ Hb x y u v).
  - pose proof (bk_next _ _ Hb). lia.
Qed.

Lemma task_create_spec name ts (h : H) :
  ts_wf ts -> kwf h -> (forall a t, tmem ts !! a = Some t -> a ∈ klive h) ->
  next_task_id ts + 1 < 2 ^ 32 -> c_string name ->
  returns (task_create name ts h) (fun '(a, ts', h') =>
    kwf h' /\
    ((a = 0 /\ ts' = ts /\ klive h' = klive h) \/
     (a <> 0 /\ tmem ts !! a = None /\ ts_wf ts' /\ next_task_id ts' = next_task_id ts + 1 /\
      exists t, tmem ts' = <[a := t]> (tmem ts) /\ task_id t = next_task_id ts /\
        name_ok name (tname t) /\ cs_wf (tcspace t) /\ cs_exact (tcspace t) /\
        (forall i, granted (tcspace t) i = None) /\ (a ∉ arrays (tcspace t)) /\
        tblocks a t ## klive h /\ klive h' = tblocks a t ∪ klive h))).
Proof.
  intros [bs Hb] Hwf Hlive Hmax Hname. unfold task_create.
  destruct (kmalloc _ h) as [[a|] h1] eqn:E1.
  2: { destruct (kmalloc_none _ _ _ Hwf E1). split; [done|]. by left. }
  destruct (kmalloc_some _ _ _ _ Hwf E1) as (Hw1 & Hf1 & Hz1 & Hl1).
  eapply returns_bind; [by apply task_name_spec|]. cbn beta. intros nm Hnm.
  pose proof (cspace_init_spec (CSpace 0 [] 0 [] 0 0) h1 Hw1) as Hcs.
  destruct (cspace_init _ h1) as [[r cs] h2].
  destruct Hcs as (Hw2 & [(-> & Hl2)|(-> & Hcwf & Hex & Hgr & Hown & Hl2)]); cbn [Z.ltb Z.compare].
  { cbn [returns]. destruct (kfree_live h2 a Hw2) as [Hw3 Hl3]; [rewrite Hl2, Hl1; clear; set_solver|].
    split; [done|]. left. split; [done|]. split; [done|]. rewrite Hl3, Hl2, Hl1.
    clear -Hf1. set_solver. }
  destruct (bucket_of ts bs (next_task_id ts) Hb) as (hd & b & Hh & Hbb & Hc & Hnd & Hlen).
  rewrite (rd_getz _ _ _ Hh). cbn [mbind out_bind].
  pose proof (getz_Some_lt _ _ _ Hh). rewrite wr_ok by lia. cbn [mbind out_bind returns].
  pose proof (bk_next _ _ Hb). rewrite u32_small by (unfold in_u32; lia).
  assert (tmem ts !! a = None) as Hnone.
  { destruct (tmem ts !! a) eqn:E; [|done]. exfalso. apply Hf1. by eapply Hlive. }
  assert (arrays cs ⊆ klive h2) as Hsub by apply Hown.
  split; [done|]. right. split; [done|]. split; [done|]. split; [|split; [done|]].
  - exists (<[Z.to_nat (task_hash_id (next_task_id ts)) := a :: b]> bs).
    by apply (buckets_insert ts bs a (Task (next_task_id ts) nm cs 0 0 hd) hd b).
  - eexists. split; [done|]. cbn [task_id tname tcspace]. unfold tblocks. cbn [tcspace].
    repeat (split; [done|]). rewrite Hl1 in Hl2.
    split; [clear -Hl2; set_solver|]. split; [clear -Hl2 Hf1; set_solver|].
    clear -Hl2 Hsub. apply set_eq. intros x. destruct (decide (x ∈ arrays cs)); set_solver.
Qed.

(** ** Unlinking *)

(** Unlinking [a] from a chain that starts at location [pp]. *)
Lemma unlink_spec fuel ts pp a t l1 l2 h :
  get_loc pp ts = Ret h -> chain (tmem ts) h (l1 ++ a :: l2) -> (a ∉ l1) ->
  tmem ts !! a = Some t -> (length l1 < fuel)%nat ->
  unlink fuel pp a ts =
    match last l1 with
    | None => set_loc pp (tnext t) ts
    | Some b => set_loc (NextOf b) (tnext t) ts
    end.
Proof.
  revert pp h l1. induction fuel as [|fuel IH]; intros pp h l1 Hg Hc Hn Ht Hf; [lia|].
  cbn [unlink]. rewrite Hg. cbn [mbind out_bind]. destruct l1 as [|b l1].
  - destruct Hc as (-> & Ha & _). rewrite (proj2 (Z.eqb_neq a 0)), Z.eqb_refl, Ht by done. done.
  - apply not_elem_of_cons in Hn as [Hne Hn].
    destruct Hc as (-> & Hb0 & u & Hu & Hc).
    rewrite (proj2 (Z.eqb_neq b 0)), (proj2 (Z.eqb_neq b a)) by done.
    rewrite (IH (NextOf b) (tnext u) l1); try done.
    + rewrite last_cons. by destruct (last l1).
    + cbn [get_loc]. by rewrite Hu.
    + simpl in Hf. lia.
Qed.

Lemma chain_app tm h l1 l2 a t :
  chain tm h (l1 ++ a :: l2) -> tm !! a = Some t -> chain tm (tnext t) l2.
Proof.
  revert h. induction l1 as [|b l1 IH]; intros h Hc Ht.
  - destruct Hc as (_ & _ & u & Hu & Hc). by simplify_eq.
  - destruct Hc as (_ & _ & u & Hu & Hc). by eapply IH.
Qed.

(** Cutting the element behind [b] out of a chain. *)
Lemma chain_cut tm h l1 l2 a b t u :
  chain tm h (l1 ++ b :: a :: l2) -> NoDup (l1 ++ b :: a :: l2) ->
  tm !! a = Some t -> tm !! b = Some u ->
  chain (<[b := set_next (tnext t) u]> tm) h (l1 ++ b :: l2).
Proof.
  revert h. induction l1 as [|c l1 IH]; intros h Hc Hnd Ht Hu.
  - cbn [app chain] in *. destruct Hc as (-> & Hb & u' & Hu' & Hc).
    rewrite Hu in Hu'. injection Hu' as <-.
    split; [done|]. split; [done|]. exists (set_next (tnext t) u). rewrite lookup_insert_eq.
    split; [done|]. cbn [tnext set_next].
    apply NoDup_cons in Hnd as [Hnb Hnd]. apply chain_insert; [set_solver|].
    destruct Hc as (_ & _ & t' & Ht' & Hc). by simplify_eq.
  - cbn [app chain] in *. destruct Hc as (-> & Hb & v & Hv & Hc).
    apply NoDup_cons in Hnd as [Hnc Hnd]. split; [done|]. split; [done|].
    exists v. rewrite lookup_insert_ne by set_solver. split; [done|]. by apply IH.
Qed.

(** The tasks other than [a] are the same, up to their chain links. *)
Definition same_tasks (a : Z) (tm tm' : gmap Z task) : Prop :=
  forall x, x <> a -> set_next 0 <$> tm' !! x = set_next 0 <$> tm !! x.

Lemma same_tasks_lookup a tm tm' x t' :
  same_tasks a tm tm' -> x <> a -> tm' !! x = Some t' ->
  exists t, tm !! x = Some t /\ set_next 0 t' = set_next 0 t.
Proof.
  intros Hs Hx Ht'. specialize (Hs x Hx). rewrite Ht' in Hs.
  destruct (tm !! x) as [t|]; [|done]. exists t. split; [done|]. cbn in Hs. congruence.
Qed.

Lemma chain_same tm tm' h l :
  (forall x, x ∈ l -> tm' !! x = tm !! x) -> chain tm h l -> chain tm' h l.
Proof.
  revert h. induction l as [|b l IH]; intros h Hx; [done|]. cbn [chain].
  intros (-> & Hb & t & Ht & Hc). split; [done|]. split; [done|]. exists t.
  rewrite Hx by set_solver. split; [done|]. apply IH; [set_solver|done].
Qed.

Lemma buckets_remove ts bs a t l1 l2 tm' hash' h' :
  let i := Z.to_nat (task_hash_id (task_id t)) in
  buckets ts bs -> tmem ts !! a = Some t -> bs !! i = Some (l1 ++ a :: l2) ->
  same_tasks a (tmem ts) tm' ->
  (forall x, (x ∉ l1 ++ a :: l2) -> tm' !! x = tmem ts !! x) ->
  hash' = <[i := h']> (task_hash ts) -> chain tm' h' (l1 ++ l2) ->
  buckets (TState (delete a tm') hash' (next_task_id ts)) (<[i := l1 ++ l2]> bs).
Proof.
  intros i Hb Ht Hbs Hsame Hout -> Hc. pose proof (bk_nodup _ _ Hb _ _ Hbs) as Hnd.
  assert (NoDup (l1 ++ l2) /\ (a ∉ l1 ++ l2)) as [Hnd' Hna].
  { rewrite <- Permutation_middle in Hnd. apply NoDup_cons in Hnd. tauto. }
  assert (forall j c x, bs !! j = Some c -> x ∈ c -> x ∈ l1 ++ a :: l2 -> j = i) as Hdisj.
  { intros j c x Hj Hx Hx'.
    destruct (Forall2_lookup_r _ _ _ _ _ (bk_chain _ _ Hb) Hj) as (hj & _ & Hcj).
    destruct (chain_dom _ _ _ _ Hcj Hx) as [_ [u Hu]].
    pose proof (bk_hash _ _ Hb j c x u Hj Hx Hu).
    pose proof (bk_hash _ _ Hb i _ x u Hbs Hx' Hu). lia. }
  assert (forall x u, delete a tm' !! x = Some u ->
    x <> a /\ exists u0, tmem ts !! x = Some u0 /\ task_id u = task_id u0) as Hlk.
  { intros x u [Hne Hu]%lookup_delete_Some. split; [done|].
    destruct (same_tasks_lookup _ _ _ _ _ Hsame (not_eq_sym Hne) Hu) as (u0 & Hu0 & E).
    exists u0. split; [done|]. by apply (f_equal task_id) in E. }
  split; cbn [tmem task_hash next_task_id].
  - rewrite length_insert. apply Hb.
  - apply Forall2_same_length_lookup_2.
    { rewrite !length_insert. by eapply Forall2_length, Hb. }
    intros j x l Hx Hl. apply list_lookup_insert_Some in Hl as [(<- & <- & _)|[Hne Hl]].
    + apply list_lookup_insert_Some in Hx as [(_ & <- & _)|[? _]]; [|done].
      by apply chain_delete.
    + rewrite list_lookup_insert_ne in Hx by done.
      assert (forall y, y ∈ l -> (y ∉ l1 ++ a :: l2)) as Hoff
        by (intros y Hy Hy'; by apply Hne; symmetry; apply (Hdisj j l y)).
      apply chain_delete.
      { intros Ha. apply (Hoff a Ha). set_solver. }
      apply (chain_same (tmem ts)); [by auto|].
      by eapply Forall2_lookup_lr; [apply Hb|..].
  - intros j c [(<- & <- & _)|[Hne Hj]]%list_lookup_insert_Some; [done|by eapply bk_nodup].
  - intros x u Hu. destruct (Hlk x u Hu) as (Hne & u0 & Hu0 & ->).
    destruct (bk_dom _ _ Hb x u0 Hu0) as (c & Hcc & Hin).
    destruct (decide (Z.to_nat (task_hash_id (task_id u0)) = i)) as [E|E].
    + exists (l1 ++ l2). rewrite E, list_lookup_insert_eq by (by eapply lookup_lt_Some).
      split; [done|]. rewrite E, Hbs in Hcc. injection Hcc as <-. set_solver.
    + exists c. by rewrite list_lookup_insert_ne.
  - intros j c x u Hj Hin Hu. destruct (Hlk x u Hu) as (Hne & u0 & Hu0 & ->).
    apply list_lookup_insert_Some in Hj as [(<- & <- & _)|[Hnj Hj]].
    + eapply (bk_hash _ _ Hb i _ x u0 Hbs); [set_solver|done].
    + by eapply (bk_hash _ _ Hb j c).
  - intros x u Hu. destruct (Hlk x u Hu) as (Hne & u0 & Hu0 & ->). by eapply bk_id.
  - intros x y u v Hx Hy. destruct (Hlk x u Hx) as (_ & u0 & Hu0 & ->).
    destruct (Hlk y v Hy) as (_ & v0 & Hv0 & ->). by eapply bk_uniq.
  - apply Hb.
Qed.

Lemma task_unlink_spec ts a t :
  ts_wf ts -> tmem ts !! a = Some t ->
  returns (task_unlink a ts) (fun ts' =>
    tmem ts' !! a = Some t /\ next_task_id ts' = next_task_id ts /\
    same_tasks a (tmem ts) (tmem ts') /\
    ts_wf (TState (delete a (tmem ts')) (task_hash ts') (next_task_id ts'))).
Proof.
  intros [bs Hb] Ht. destruct (bk_dom _ _ Hb a t Ht) as (b & Hbb & Hin).
  destruct (list_elem_of_split _ _ Hin) as (l1 & l2 & ->).
  pose proof (bk_nodup _ _ Hb _ _ Hbb) as Hnd.
  assert (a ∉ l1) as Hn by (apply NoDup_app in Hnd; set_solver).
  destruct (bucket_of ts bs (task_id t) Hb) as (h & b' & Hh & Hbb' & Hc & _ & Hlen).
  rewrite Hbb in Hbb'. injection Hbb' as <-. rewrite length_app in Hlen. simpl in Hlen.
  unfold task_unlink. rewrite Ht. cbn [deref mbind out_bind].
  rewrite (unlink_spec _ ts _ a t l1 l2 h); try done; [|by apply rd_getz|lia].
  pose proof (getz_Some_lt _ _ _ Hh).
  destruct (last l1) as [c|] eqn:El.
  - apply last_Some in El as [l1' ->]. rewrite <- app_assoc in *. cbn [app] in *.
    destruct (chain_dom _ _ _ c Hc) as [_ [u Hu]]; [set_solver|].
    cbn [set_loc]. rewrite Hu. cbn [deref mbind out_bind returns set_task tmem task_hash next_task_id].
    assert (c <> a) as Hca by set_solver.
    split; [by rewrite lookup_insert_ne|]. split; [done|].
    assert (same_tasks a (tmem ts) (<[c := set_next (tnext t) u]> (tmem ts))) as Hsame.
    { intros x Hx. destruct (decide (x = c)) as [->|Hxc].
      - rewrite lookup_insert_eq, Hu. done.
      - by rewrite lookup_insert_ne. }
    split; [done|].
    eexists. eapply (buckets_remove ts bs a t (l1' ++ [c]) l2 _ _ h); try done.
    + by rewrite <- app_assoc.
    + intros x Hx. rewrite lookup_insert_ne; [done|]. set_solver.
    + symmetry. apply list_insert_id. by apply getz_Some in Hh as [_ ?].
    + rewrite <- app_assoc. by apply (chain_cut _ _ _ _ a).
  - apply last_None in El as ->. cbn [set_loc app] in *. rewrite wr_ok by lia.
    cbn [mbind out_bind returns tmem task_hash next_task_id].
    split; [done|]. split; [done|]. split; [done|].
    eexists. eapply (buckets_remove ts bs a t [] l2 _ _ (tnext t)); try done.
    by apply (chain_app _ h [] l2 a).
Qed.

(** C30: the chained hash table implements a finite map from task ids to
    tasks: a lookup returns exactly the task with that id or NULL, creation
    adds one task under a fresh id (or fails and gives the heap back), and
    unlinking a task removes it and nothing else.  Every loop over a chain
    ends. *)
Theorem task_table_map ts (h : H) :
  ts_wf ts -> kwf h -> (forall a t, tmem ts !! a = Some t -> a ∈ klive h) ->
  (forall id, returns (task_find id ts) (fun r =>
     (r = 0 /\ forall a, ~ task_at ts id a) \/ (r <> 0 /\ task_at ts id r))) /\
  (forall name, c_string name -> next_task_id ts + 1 < 2 ^ 32 ->
     returns (task_create name ts h) (fun '(a, ts', h') =>
       (a = 0 /\ ts' = ts /\ klive h' = klive h) \/
       (ts_wf ts' /\ (forall b, ~ task_at ts (next_task_id ts) b) /\
        forall id b, task_at ts' id b <->
          (id = next_task_id ts /\ b = a) \/ (task_at ts id b)))) /\
  (forall a t, tmem ts !! a = Some t ->
     returns (task_unlink a ts) (fun ts' =>
       let ts1 := TState (delete a (tmem ts')) (task_hash ts') (next_task_id ts') in
       ts_wf ts1 /\ forall id b, task_at ts1 id b <-> task_at ts id b /\ b <> a)).
Proof.
  intros Hwf Hh Hlive. split; [|split].
  - intros id. by apply task_find_spec.
  - intros name Hname Hmax. eapply returns_mono; [by apply task_create_spec|].
    intros [[a ts'] h'] (_ & [?|(Ha & Hnone & Hwf' & _ & t & Htm & Hid & _)]); [by left|right].
    split; [done|]. destruct Hwf as [bs Hb]. split.
    + intros b (u & Hu & Hi). pose proof (bk_id _ _ Hb b u Hu). lia.
    + intros id b. unfold task_at. rewrite Htm. split.
      * intros (u & [[<- <-]|[Hne Hu]]%lookup_insert_Some & Hi); [left; lia|right; eauto].
      * intros [[-> ->]|(u & Hu & Hi)].
        -- exists t. by rewrite lookup_insert_eq.
        -- exists u. rewrite lookup_insert_ne; [done|congruence].
  - intros a t Ht. eapply returns_mono; [by apply task_unlink_spec|].
    intros ts' (Ha & Hn & Hsame & Hwf'). split; [done|]. intros id b. unfold task_at.
    cbn [tmem]. split.
    + intros (u & [Hne Hu]%lookup_delete_Some & Hi).
      destruct (same_tasks_lookup _ _ _ _ _ Hsame (not_eq_sym Hne) Hu) as (u0 & Hu0 & E).
      apply (f_equal task_id) in E. cbn in E. split; [|done]. exists u0. split; [done|congruence].
    + intros [(u & Hu & Hi) Hne]. specialize (Hsame b Hne). rewrite Hu in Hsame.
      destruct (tmem ts' !! b) as [u'|] eqn:Hu'; [|done]. exists u'.
      rewrite lookup_delete_ne by done. split; [done|].
      assert (set_next 0 u' = set_next 0 u) as E by (cbn in Hsame; congruence).
      apply (f_equal task_id) in E. cbn in E. congruence.
Qed.
End create_spec.

(** ** Witnesses *)

Definition empty_tasks : tstate := task_init (TState ∅ [] 0).

Lemma empty_tasks_wf : ts_wf empty_tasks.
Proof.
  exists (replicate 256 []). unfold empty_tasks, task_init.
  split; cbn [tmem task_hash next_task_id]; try done.
  - change (Z.to_nat TASK_HASH_SIZE) with 256%nat.
    apply Forall2_same_length_lookup_2; [done|].
    intros i x l [-> _]%lookup_replicate [-> _]%lookup_replicate. done.
  - intros i b [-> _]%lookup_replicate. constructor.
Qed.

Lemma task_table_map_witness :
  returns (task_create (Some [105; 110; 105; 116; 0]) empty_tasks (RefHeap 1 10 ∅))
    (fun '(a, ts', _) => a = 0 \/ task_at ts' 1 a).
Proof.
  destruct (task_table_map empty_tasks (RefHeap 1 10 ∅) empty_tasks_wf heap0_wf
              (fun a t E => match eq_None_ne_Some_1 _ _ (lookup_empty a) E with end))
    as (_ & Hcreate & _).
  eapply returns_mono; [apply (Hcreate (Some [105; 110; 105; 116; 0]))|].
  - exists [105; 110; 105; 116], []. split; [reflexivity|]. apply (bool_decide_unpack _).
    vm_compute. exact I.
  - reflexivity.
  - intros [[a ts'] h'] [[Ha _]|(_ & _ & Hat)]; [left; exact Ha|right]. apply Hat. left.
    split; reflexivity.
Defined.
