(* ===== verification/Ipc.v ===== *)
(** * IPC system calls (mk/vm/port.c, mk/vm/task.c)

    The kernel state joins the ports (Port.v) with the task table (Task.v);
    both live in one heap.  This file models the operations that cross the
    two: capability transfer on receive, the port and slot system calls, the
    teardown of a task's C-space and the scan of [sys_port_poll].

    [cur] is the address of the current task (0: none) and [thr] the id of
    the current thread.  Copies from and to user memory are inputs: the
    message [copy_from_user] delivered ([None] when it faults), and whether
    [copy_to_user] succeeds. *)

From stdpp Require Import base numbers list gmap sets.
From Stdlib Require Import ZArith Lia.
From S2P Require Import Prelude Cspace Port Task.

#[local] Open Scope Z_scope.

Section ops.
Context {H S : Type} `{!KMem H, !Sched S}.
Context (jslot : nat -> cslot) (jword : nat -> Z).
Context (jp : ipc_port) (jm : nat -> ipc_msg) (jsn : nat -> Z).

Record kernel := Kernel { kp : pstate H S; kt : tstate }.

Definition set_kp (st : pstate H S) (k : kernel) : kernel := Kernel st (kt k).
Definition kheap (k : kernel) : H := pheap (kp k).

Definition get_task (a : Z) (k : kernel) : out task := deref (tmem (kt k) !! a).

(** Store the C-space of task [a] and the heap it was changed with. *)
Definition put_cspace (a : Z) (cs : cspace) (h : H) (k : kernel) : out kernel :=
  t ← get_task a k;
  Ret (Kernel (set_pheap h (kp k)) (set_task a (set_tcspace cs t) (kt k))).

(** ** Capability transfer *)

Fixpoint deliver_loop (n : nat) (i : Z) (receiver sender : Z) (msg : ipc_msg) (sender_tid : Z)
    (moved : Z) (k : kernel) : out (Z * kernel) :=
  match n with
  | O => Ret (moved, k)
  | Datatypes.S n =>
      d ← rd (dispose msg) i;
      let src_slot := handle_slot (d_handle d) in
      if negb (handle_task_id (d_handle d) =? sender_tid)
      then deliver_loop n (i + 1) receiver sender msg sender_tid moved k
      else
        s ← get_task sender k;
        '(r, snap) ← cspace_lookup_snapshot (tcspace s) src_slot;
        if r <? 0 then deliver_loop n (i + 1) receiver sender msg sender_tid moved k
        else
          snap ← deref snap;
          if negb (cap_type snap =? d_type d)
          then deliver_loop n (i + 1) receiver sender msg sender_tid moved k
          else
            t ← get_task receiver k;
            '(dst, from, to, h) ← cspace_move jslot jword sender receiver (tcspace s) (tcspace t)
                                    src_slot (kheap k);
            k ← put_cspace sender from h k;
            k ← put_cspace receiver to h k;
            deliver_loop n (i + 1) receiver sender msg sender_tid
              (if 0 <=? dst then moved + 1 else moved) k
  end.

Definition deliver_dispose (receiver : Z) (msg : ipc_msg) (sender_tid : Z) (k : kernel) :
    out (Z * kernel) :=
  if sender_tid =? 0 then Ret (0, k)
  else
    sender ← task_find sender_tid (kt k);
    if sender =? 0 then Ret (0, k)
    else deliver_loop (Z.to_nat (ndispose msg)) 0 receiver sender msg sender_tid 0 k.

(** The message written to [buf] is returned with the result code. *)
Definition port_recv (port : Z) (buf : ipc_msg) (cur : Z) (thr : option Z) (k : kernel) :
    out (Z * ipc_msg * kernel) :=
  if port =? 0 then Ret (IPC_ERR_NOSLOT, buf, k)
  else
    p ← deref (ports (kp k) !! port);
    if negb (PORT_IS_VALID p) then Ret (IPC_ERR_NOSLOT, buf, k)
    else
      '(r, st) ← port_recv_locked port p buf thr (kp k);
      let k := set_kp st k in
      match r with
      | Notified m => Ret (IPC_OK, m, k)
      | NoThread | Parked => Ret (IPC_ERR_EMPTY, buf, k)
      | Received m sid =>
          if negb (cur =? 0) && (0 <? ndispose m)
          then '(_, k) ← deliver_dispose cur m sid k; Ret (IPC_OK, m, k)
          else Ret (IPC_OK, m, k)
      end.

(** ** System calls *)

(** Releasing a slot of task [a]; a port slot drops its reference. *)
Definition task_free_slot (a slot : Z) (k : kernel) : out (Z * kernel) :=
  t ← get_task a k;
  '(r, cs, st) ← cspace_free_slot port_release (tcspace t) slot (kp k);
  k ← put_cspace a cs (pheap st) (set_kp st k);
  Ret (r, k).

Definition sys_port_create (cur : Z) (k : kernel) : out (Z * kernel) :=
  if cur =? 0 then Ret (IPC_ERR_NOSLOT, k)
  else
    match port_create jp jm jsn (kp k) with
    | (port, st) =>
        let k := set_kp st k in
        if port =? 0 then Ret (IPC_ERR_NOSLOT, k)
        else
          t ← get_task cur k;
          '(slot, cs, h) ← cspace_alloc_slot jslot jword (tcspace t) CAP_PORT
                             (Z.lor (Z.lor CAP_SEND CAP_RECV) CAP_REPLY) port (kheap k);
          k ← put_cspace cur cs h k;
          if slot <? 0 then
            '(_, st) ← port_destroy port (kp k);
            Ret (IPC_ERR_NOSLOT, set_kp st k)
          else Ret (s32 (task_make_handle (task_id t) slot), k)
    end.

Definition sys_port_destroy (cur handle : Z) (k : kernel) : out (Z * kernel) :=
  if cur =? 0 then Ret (IPC_ERR_NOSLOT, k)
  else
    t ← get_task cur k;
    let slot := handle_slot handle in
    '(r, snap) ← cspace_lookup_snapshot (tcspace t) slot;
    if r <? 0 then Ret (IPC_ERR_NOSLOT, k)
    else
      snap ← deref snap;
      '(port, st) ← port_ref_raw (object_id snap) (kp k);
      let k := set_kp st k in
      if port =? 0 then Ret (IPC_ERR_NOSLOT, k)
      else
        '(_, st) ← port_destroy port (kp k);
        st ← port_release port st;
        '(_, k) ← task_free_slot cur slot (set_kp st k);
        Ret (IPC_OK, k).

(** The port a handle of the current task names, with the given right and a
    reference taken; [None]: the call fails with IPC_ERR_NOSLOT. *)
Definition resolve (cur handle need_rights : Z) (k : kernel) :
    out (option (task * Z) * kernel) :=
  if cur =? 0 then Ret (None, k)
  else
    t ← get_task cur k;
    '(r, snap) ← cspace_lookup_snapshot (tcspace t) (handle_slot handle);
    if r <? 0 then Ret (None, k)
    else
      snap ← deref snap;
      '(port, st) ← port_from_cslot snap need_rights (kp k);
      if port =? 0 then Ret (None, set_kp st k) else Ret (Some (t, port), set_kp st k).

Definition sys_port_send (cur handle : Z) (user_msg : option ipc_msg) (k : kernel) :
    out (Z * kernel) :=
  '(o, k) ← resolve cur handle CAP_SEND k;
  match o with
  | None => Ret (IPC_ERR_NOSLOT, k)
  | Some (t, port) =>
      '(ret, st) ← (match user_msg with
                    | None => Ret (IPC_ERR_FAULT, kp k)
                    | Some kmsg => port_send jm jsn port kmsg (Some (task_id t, tcspace t)) (kp k)
                    end);
      st ← port_release port st;
      Ret (ret, set_kp st k)
  end.

Definition sys_port_reply (cur reply_handle : Z) (user_msg : option ipc_msg) (k : kernel) :
    out (Z * kernel) :=
  sys_port_send cur reply_handle user_msg k.

(** [kmsg] is the uninitialised message on the kernel stack; the user buffer
    receives it as [port_recv] leaves it. *)
Definition sys_port_recv (cur handle : Z) (thr : option Z) (kmsg : ipc_msg) (copy_ok : bool)
    (k : kernel) : out (Z * option ipc_msg * kernel) :=
  '(o, k) ← resolve cur handle CAP_RECV k;
  match o with
  | None => Ret (IPC_ERR_NOSLOT, None, k)
  | Some (t, port) =>
      '(ret, kmsg, k) ← port_recv port kmsg cur thr k;
      let '(ret, user) := (if ret =? IPC_OK
                           then if copy_ok then (ret, Some kmsg) else (IPC_ERR_FAULT, None)
                           else (ret, None)) in
      st ← port_release port (kp k);
      Ret (ret, user, set_kp st k)
  end.

Definition sys_port_notify (cur handle : Z) (k : kernel) : out (Z * kernel) :=
  '(o, k) ← resolve cur handle CAP_SEND k;
  match o with
  | None => Ret (IPC_ERR_NOSLOT, k)
  | Some (t, port) =>
      '(ret, st) ← port_notify port (kp k);
      st ← port_release port st;
      Ret (ret, set_kp st k)
  end.

Definition sys_slot_alloc (cur type rights : Z) (k : kernel) : out (Z * kernel) :=
  if cur =? 0 then Ret (-1, k)
  else
    t ← get_task cur k;
    '(slot, cs, h) ← cspace_alloc_slot jslot jword (tcspace t) type rights 0 (kheap k);
    k ← put_cspace cur cs h k;
    if slot <? 0 then Ret (-1, k)
    else Ret (s32 (task_make_handle (task_id t) slot), k).

Definition sys_slot_free (cur handle : Z) (k : kernel) : out (Z * kernel) :=
  if cur =? 0 then Ret (-1, k)
  else
    t ← get_task cur k;
    if negb (handle_task_id handle =? task_id t) then Ret (-1, k)
    else task_free_slot cur (handle_slot handle) k.

(** The loop of [task_destroy] over the slots of the dying task: [n] slots
    from [i] on. *)
Fixpoint free_slots (n : nat) (i : Z) (a : Z) (k : kernel) : out kernel :=
  match n with
  | O => Ret k
  | Datatypes.S n =>
      t ← get_task a k;
      c ← (if slots_ptr (tcspace t) =? 0 then Ret zero_slot else rd (slots (tcspace t)) i);
      k ← (if in_use c then '(_, k) ← task_free_slot a i k; Ret k else Ret k);
      free_slots n (i + 1) a k
  end.

(** [destroy_map] stands for the teardown of the VM map of the task
    (vm_map_destroy, vmm_free_directory and the release of the structure). *)
Definition task_destroy (destroy_map : Z -> kernel -> out kernel) (a : Z) (k : kernel) : out kernel :=
  if a =? 0 then Ret k
  else
    t ← get_task a k;
    ts ← task_unlink a (kt k);
    let k := Kernel (kp k) ts in
    k ← free_slots (Z.to_nat (max_slots (tcspace t))) 0 a k;
    t ← get_task a k;
    k ← (if tmap t =? 0 then Ret k else destroy_map (tmap t) k);
    let '(_, h) := cspace_destroy (tcspace t) (kheap k) in
    let h := kfree a h in
    Ret (Kernel (set_pheap h (kp k))
           (TState (delete a (tmem (kt k))) (task_hash (kt k)) (next_task_id (kt k)))).

(** ** Polling *)

(** One pass of [sys_port_poll] over the handles: the index of the first
    ready port. *)
Fixpoint poll_scan (handles : list Z) (i : Z) (cur : Z) (k : kernel) : out (option Z * kernel) :=
  match handles with
  | [] => Ret (None, k)
  | handle :: handles =>
      '(o, k) ← resolve cur handle CAP_RECV k;
      match o with
      | None => poll_scan handles (i + 1) cur k
      | Some (_, port) =>
          p ← deref (ports (kp k) !! port);
          let ready := (0 <? queue_count p) || negb (pending_notify p =? 0) in
          st ← port_release port (kp k);
          if ready then Ret (Some i, set_kp st k)
          else poll_scan handles (i + 1) cur (set_kp st k)
      end
  end.

(** The tick at which a poll with this timeout expires, and the test. *)
Definition poll_deadline (timeout_us ticks : Z) : Z :=
  let ms := u32 timeout_us / 1000 in
  if 0 <? ms then u64 (ticks + ms) else 0.

Definition poll_expired (ticks deadline : Z) : bool := 0 <=? s32 (u32 (u32 ticks - u32 deadline)).

End ops.
Arguments kernel : clear implicits.

(** ** The kernel invariant *)

Section inv.
Context {H S : Type} `{!KMem H, !KMemLaws H, !Sched S, !SchedLaws S}.
Context (jslot : nat -> cslot) (jword : nat -> Z).
Context (jp : ipc_port) (jm : nat -> ipc_msg) (jsn : nat -> Z).
Implicit Types (k : kernel H S).

(** Ports and task table are well formed, every task has a well-formed
    C-space, and the blocks of tasks and ports are live and disjoint. *)
Record kern_wf k : Prop := {
  kw_ports : pst_wf (kp k);
  kw_tasks : ts_wf (kt k);
  kw_cs a t : tmem (kt k) !! a = Some t -> cs_wf (tcspace t) /\ (a ∉ arrays (tcspace t));
  kw_others a t x : tmem (kt k) !! a = Some t -> x ∈ tblocks a t -> others (kp k) x;
  kw_disj a b t u : tmem (kt k) !! a = Some t -> tmem (kt k) !! b = Some u -> a <> b ->
    tblocks a t ## tblocks b u;
}.

(** An operation on the ports alone. *)
Lemma kw_ports_step k st :
  kern_wf k -> pst_wf st -> no_leak (kp k) st -> kern_wf (set_kp st k).
Proof.
  intros [] Hst Hnl. split; try done. intros a t x Ht Hx. apply Hnl. by eapply kw_others0.
Qed.

Lemma owns_set_pheap (st : pstate H S) h x : owns (set_pheap h st) x <-> owns st x.
Proof. done. Qed.

Lemma elem_of_tblocks a t x : x ∈ tblocks a t <-> x = a \/ x ∈ arrays (tcspace t).
Proof. unfold tblocks. set_solver. Qed.

Lemma kw_live k a t :
  kern_wf k -> tmem (kt k) !! a = Some t -> cs_owns (tcspace t) (kheap k) /\ a ∈ klive (kheap k).
Proof.
  intros Hk Ht. split; [split; [apply Hk|]|].
  - intros x Hx. apply (kw_others _ Hk a t x Ht). apply elem_of_tblocks. by right.
  - apply (kw_others _ Hk a t a Ht). apply elem_of_tblocks. by left.
Qed.

(** What survives when the arrays of one C-space are replaced. *)
Lemma frame_keep cs h cs' (h' : H) x :
  heap_frame cs h cs' h' -> x ∈ klive h -> (x ∉ arrays cs) -> x ∈ klive h' /\ (x ∉ arrays cs').
Proof. intros [_ Hrest]. clear -Hrest. set_solver. Qed.

Lemma frame_new cs h cs' (h' : H) x :
  heap_frame cs h cs' h' -> x ∈ arrays cs' -> x ∈ arrays cs \/ (x ∉ klive h).
Proof.
  intros Hf Hx. destruct (decide (x ∈ arrays cs)); [by left|right]. intros Hl.
  by apply (frame_keep cs h cs' h' x).
Qed.

Lemma port_block_apart k a t b p x :
  kern_wf k -> tmem (kt k) !! a = Some t -> ports (kp k) !! b = Some p -> x ∈ blocks b p ->
  x ∈ klive (kheap k) /\ (x ∉ tblocks a t).
Proof.
  intros Hk Ht Hb Hx. split; [by apply (st_own _ (kw_ports _ Hk) b p Hb)|].
  intros Hxa. apply (kw_others _ Hk a t x Ht Hxa). by exists b, p.
Qed.

(** An operation on the C-space of one task. *)
Lemma kw_cspace_step k a t cs h :
  kern_wf k -> tmem (kt k) !! a = Some t -> cs_wf cs ->
  heap_frame (tcspace t) (kheap k) cs h ->
  kern_wf (Kernel (set_pheap h (kp k)) (set_task a (set_tcspace cs t) (kt k))).
Proof.
  intros Hk Ht Hcs Hf. pose proof (kw_cs _ Hk a t Ht) as [_ Hna].
  destruct (kw_live k a t Hk Ht) as [_ Hain].
  split; cbn [kp kt].
  - destruct (kw_ports _ Hk) as [? ? ? ? ? ? Hown ?].
    split; cbn [ports port_table pheap set_pheap]; try done; [apply Hf|].
    intros b p Hb. destruct (Hown b p Hb) as [Hsub ?]. split; [|done]. intros x Hx.
    destruct (port_block_apart k a t b p x Hk Ht Hb Hx) as [Hl Hn].
    apply (frame_keep _ _ _ _ x Hf Hl). intros Hxa. apply Hn, elem_of_tblocks. by right.
  - apply ts_set_cspace; [apply Hk|done].
  - cbn [tmem set_task]. intros b u [[<- <-]|[Hne Hu]]%lookup_insert_Some; [|by apply (kw_cs _ Hk)].
    split; [done|]. by apply (frame_keep _ _ _ _ a Hf).
  - cbn [tmem set_task]. unfold others. intros b u x Hu Hx. cbn [pheap set_pheap].
    rewrite owns_set_pheap. apply lookup_insert_Some in Hu as [[<- <-]|[Hne Hu]].
    + apply elem_of_tblocks in Hx as [->|Hx]; cbn [tcspace set_tcspace] in *.
      * split; [by apply (frame_keep _ _ _ _ a Hf)|].
        apply (kw_others _ Hk a t a Ht). apply elem_of_tblocks. by left.
      * split; [by apply Hf|]. intros (b & p & Hb & Hxb).
        destruct (port_block_apart k a t b p x Hk Ht Hb Hxb) as [Hxl Hxn].
        destruct (frame_new _ _ _ _ x Hf Hx) as [Hxa|]; [|done]. apply Hxn, elem_of_tblocks. by right.
    + destruct (kw_others _ Hk b u x Hu Hx) as [Hxl Hno]. split; [|done].
      apply (frame_keep _ _ _ _ x Hf Hxl). intros Hxa.
      apply (proj1 (elem_of_disjoint _ _) (kw_disj _ Hk a b t u Ht Hu Hne) x); [|done].
      apply elem_of_tblocks. by right.
  - cbn [tmem set_task]. assert (forall b u, tmem (kt k) !! b = Some u -> a <> b ->
      tblocks a (set_tcspace cs t) ## tblocks b u) as Hd.
    { intros b u Hu Hne. pose proof (proj1 (elem_of_disjoint _ _) (kw_disj _ Hk a b t u Ht Hu Hne)) as Hd0.
      apply elem_of_disjoint. intros x Hx Hxb. destruct (kw_others _ Hk b u x Hu Hxb) as [Hxl _].
      apply elem_of_tblocks in Hx as [->|Hx]; cbn [tcspace set_tcspace] in *.
      - apply (Hd0 a); [|done]. apply elem_of_tblocks. by left.
      - destruct (frame_new _ _ _ _ x Hf Hx) as [Hxa|]; [|done]. apply (Hd0 x); [|done].
        apply elem_of_tblocks. by right. }
    intros b c u v [[<- <-]|[Hne Hu]]%lookup_insert_Some [[<- <-]|[Hne' Hv]]%lookup_insert_Some Hbc;
      [done|by apply Hd|symmetry; by apply Hd|by apply (kw_disj _ Hk b c)].
Qed.

Lemma get_task_run k a t : tmem (kt k) !! a = Some t -> get_task a k = Ret t.
Proof. intros Ht. unfold get_task. by rewrite Ht. Qed.

Lemma put_cspace_run k a t cs h :
  tmem (kt k) !! a = Some t ->
  put_cspace a cs h k =
    Ret (Kernel (set_pheap h (kp k)) (set_task a (set_tcspace cs t) (kt k))).
Proof. intros Ht. unfold put_cspace, get_task. by rewrite Ht. Qed.

(** ** Capability transfer *)

(** One capability leaves slot [s] of [f] and arrives in slot [d] of [t]. *)
Definition moved1 (f t : cspace) (s d : Z) (c : cslot) (f' t' : cspace) : Prop :=
  cspace_lookup f s = Ret (Some c) /\ granted t d = None /\ granted t' d = Some c /\
  (forall i, i <> d -> granted t' i = granted t i) /\
  granted f' s = None /\ (forall i, i <> s -> granted f' i = granted f i).

(** [n] capabilities moved, one after the other. *)
Inductive transfers : cspace -> cspace -> Z -> cspace -> cspace -> Prop :=
| tr_done f t : transfers f t 0 f t
| tr_move f t f1 t1 f2 t2 n s d c :
    moved1 f t s d c f1 t1 -> transfers f1 t1 n f2 t2 -> transfers f t (n + 1) f2 t2.

(** Kernels with the same ports, threads and tasks except for two C-spaces. *)
Definition only_cspaces (k : kernel H S) (a b : Z) (ta tb : task) (ca cb : cspace)
    (k' : kernel H S) : Prop :=
  ports (kp k') = ports (kp k) /\ psched (kp k') = psched (kp k) /\
  task_hash (kt k') = task_hash (kt k) /\ next_task_id (kt k') = next_task_id (kt k) /\
  tmem (kt k') = <[b := set_tcspace cb tb]> (<[a := set_tcspace ca ta]> (tmem (kt k))).

Lemma move_step k (sa ra : Z) ts tr slot c :
  kern_wf k -> sa <> ra -> tmem (kt k) !! sa = Some ts -> tmem (kt k) !! ra = Some tr ->
  cspace_lookup (tcspace ts) slot = Ret (Some c) ->
  returns ('(dst, from, to, h) ← cspace_move jslot jword sa ra (tcspace ts) (tcspace tr) slot
                                   (kheap k);
           k1 ← put_cspace sa from h k;
           k2 ← put_cspace ra to h k1;
           Ret (dst, k2)) (fun '(dst, k') => exists f t,
    kern_wf k' /\ only_cspaces k sa ra ts tr f t k' /\
    ((dst = -1 /\ f = tcspace ts /\ t = tcspace tr) \/
     (0 <= dst /\ moved1 (tcspace ts) (tcspace tr) slot dst c f t))).
Proof.
  intros Hk Hne Hs Hr Hl.
  pose proof (kw_cs _ Hk sa ts Hs) as [Hcs _]. pose proof (kw_cs _ Hk ra tr Hr) as [Hcr _].
  destruct (kw_live k ra tr Hk Hr) as [Hown _].
  eapply returns_bind; [by apply (cspace_move_spec jslot jword sa ra _ _ slot c)|].
  intros [[[dst f] t] h] (Hf & Ht & Hfr & Harr & Hcase & _).
  rewrite (put_cspace_run k sa ts) by done. cbn [mbind out_bind].
  rewrite (put_cspace_run _ ra tr) by (cbn [kt tmem set_task]; by rewrite lookup_insert_ne).
  cbn [mbind out_bind returns]. exists f, t. split; [|split].
  - pose proof (kw_cspace_step k ra tr t h Hk Hr Ht Hfr) as Hk1.
    assert (tmem (set_task ra (set_tcspace t tr) (kt k)) !! sa = Some ts) as Hs1
      by (cbn [tmem set_task]; by rewrite lookup_insert_ne).
    pose proof (kw_cspace_step _ sa ts f h Hk1 Hs1 Hf) as Hk2.
    unfold set_task in *. cbn [kp kt kheap pheap set_pheap tmem task_hash next_task_id ports
      port_table psched] in Hk2 |- *.
    rewrite (insert_insert_ne (tmem (kt k)) ra sa) by done. apply Hk2.
    destruct (kw_live _ sa ts Hk1 Hs1) as [[Hw Hlv] _].
    split; [|by rewrite Harr]. split; [exact Hw|]. by rewrite Harr.
  - done.
  - destruct Hcase as [(-> & -> & -> & _)|(Hd & Hn & Hg & Ho & Hz & Hzo)]; [by left|right].
    split; [lia|done].
Qed.

Lemma only_cspaces_refl k a b ta tb :
  tmem (kt k) !! a = Some ta -> tmem (kt k) !! b = Some tb ->
  only_cspaces k a b ta tb (tcspace ta) (tcspace tb) k.
Proof.
  intros Ha Hb. repeat (split; [done|]).
  rewrite (insert_id (tmem (kt k)) a) by (rewrite Ha; by destruct ta).
  rewrite insert_id by (rewrite Hb; by destruct tb). done.
Qed.

Lemma only_cspaces_trans k a b ta tb ca cb k1 ca2 cb2 k2 :
  a <> b -> only_cspaces k a b ta tb ca cb k1 ->
  only_cspaces k1 a b (set_tcspace ca ta) (set_tcspace cb tb) ca2 cb2 k2 ->
  only_cspaces k a b ta tb ca2 cb2 k2.
Proof.
  intros Hne (Hp1 & Hs1 & Hh1 & Hn1 & Ht1) (Hp2 & Hs2 & Hh2 & Hn2 & Ht2).
  split; [congruence|]. split; [congruence|]. split; [congruence|]. split; [congruence|].
  rewrite Ht2, Ht1. cbn [set_tcspace task_id tname tmap main_thread tnext].
  rewrite (insert_insert_ne _ a b) by done. by rewrite !insert_insert_eq.
Qed.

Lemma deliver_loop_spec n : forall i k sa ra ts tr msg tid moved,
  kern_wf k -> sa <> ra -> tmem (kt k) !! sa = Some ts -> tmem (kt k) !! ra = Some tr ->
  (i + n <= length (dispose msg))%nat ->
  returns (deliver_loop jslot jword n (Z.of_nat i) ra sa msg tid moved k) (fun '(m, k') =>
    exists f t, kern_wf k' /\ only_cspaces k sa ra ts tr f t k' /\
      transfers (tcspace ts) (tcspace tr) (m - moved) f t).
Proof.
  induction n as [|n IH]; intros i k sa ra ts tr msg tid moved Hk Hne Hs Hr Hi.
  { cbn [deliver_loop returns]. exists (tcspace ts), (tcspace tr). split; [done|].
    split; [by apply only_cspaces_refl|]. rewrite Z.sub_diag. constructor. }
  destruct (lookup_lt_is_Some_2 (dispose msg) i) as [d Hd]; [lia|].
  cbn [deliver_loop]. rewrite (rd_getz _ _ d) by (by rewrite getz_of_nat). cbn [mbind out_bind].
  replace (Z.of_nat i + 1) with (Z.of_nat (Datatypes.S i)) by lia.
  destruct (negb (handle_task_id (d_handle d) =? tid)); [apply IH; try done; lia|].
  rewrite (get_task_run k sa ts Hs). cbn [mbind out_bind].
  pose proof (kw_cs _ Hk sa ts Hs) as [Hcs _].
  destruct (lookup_snapshot_lookup (tcspace ts) (handle_slot (d_handle d)) Hcs) as (o & Hl & ->).
  destruct o as [c|]; cbn [mbind out_bind Z.ltb Z.compare]; [|apply IH; try done; lia].
  cbn [deref mbind out_bind]. destruct (negb (cap_type c =? d_type d)); [apply IH; try done; lia|].
  rewrite (get_task_run k ra tr Hr). cbn [mbind out_bind].
  pose proof (move_step k sa ra ts tr (handle_slot (d_handle d)) c Hk Hne Hs Hr Hl) as Hm.
  destruct (cspace_move _ _ _ _ _ _ _ _) as [[[[dst from] to] h]| |]; cbn [mbind out_bind] in Hm |- *;
    [|done..].
  destruct (put_cspace sa from h k) as [k1| |]; cbn [mbind out_bind] in Hm |- *; [|done..].
  destruct (put_cspace ra to h k1) as [k2| |]; cbn [mbind out_bind returns] in Hm |- *; [|done..].
  destruct Hm as (f & t & Hk2 & Honly & Hcase). pose proof Honly as (_ & _ & _ & _ & Htm).
  eapply returns_mono.
  - apply (IH (Datatypes.S i) k2 sa ra (set_tcspace f ts) (set_tcspace t tr)); try done; [| |lia].
    + rewrite Htm, lookup_insert_ne, lookup_insert_eq by done. done.
    + by rewrite Htm, lookup_insert_eq.
  - intros [m k'] (f' & t' & Hk' & Honly' & Htr). cbn [tcspace set_tcspace] in Htr.
    exists f', t'. split; [done|]. split; [by eapply only_cspaces_trans|].
    destruct Hcase as [(-> & -> & ->)|(Hdst & Hmv)].
    + done.
    + rewrite (proj2 (Z.leb_le 0 dst) Hdst) in Htr.
      replace (m - moved) with (m - (moved + 1) + 1) by lia. by econstructor.
Qed.

Lemma deliver_dispose_spec k ra tr msg tid :
  kern_wf k -> tmem (kt k) !! ra = Some tr -> tid <> task_id tr ->
  msg_shape msg -> msg_ok msg ->
  returns (deliver_dispose jslot jword ra msg tid k) (fun '(moved, k') =>
    kern_wf k' /\
    ((moved = 0 /\ k' = k) \/
     exists sa ts f t, sa <> ra /\ tmem (kt k) !! sa = Some ts /\ task_id ts = tid /\
       only_cspaces k sa ra ts tr f t k' /\ transfers (tcspace ts) (tcspace tr) moved f t)).
Proof.
  intros Hk Hr Hid [_ Hd] [_ Hn]. unfold deliver_dispose.
  destruct (Z.eqb_spec tid 0); [cbn [returns]; split; [done|by left]|].
  pose proof (task_find_spec (kt k) tid (kw_tasks _ Hk)) as Hfind.
  destruct (task_find tid (kt k)) as [sa| |]; cbn [mbind out_bind returns] in *; [|done..].
  destruct (Z.eqb_spec sa 0); [cbn [returns]; split; [done|by left]|].
  destruct Hfind as [[? _]|[_ (ts & Hs & Htid)]]; [done|].
  assert (sa <> ra) as Hne by (intros ->; rewrite Hr in Hs; injection Hs as <-; done).
  eapply returns_mono; [apply (deliver_loop_spec _ 0 k sa ra ts tr msg tid 0); try done|].
  { unfold IPC_DISPOSE_MAX in *. lia. }
  intros [m k'] (f & t & Hk' & Honly & Htr). rewrite Z.sub_0_r in Htr.
  split; [done|]. right. exists sa, ts, f, t. done.
Qed.

(** Receiving a message moves capabilities out of the C-space of the task
    that sent it, never of any other task: every capability that arrives in
    the receiver left a slot of the recorded sender, one for one, each at a
    slot number the receiver did not use; ports, threads and all other tasks
    are untouched, and the kernel invariant is kept. *)
Theorem deliver_dispose_correct k ra tr msg tid :
  kern_wf k -> tmem (kt k) !! ra = Some tr -> tid <> task_id tr ->
  msg_shape msg -> msg_ok msg ->
  returns (deliver_dispose jslot jword ra msg tid k) (fun '(moved, k') =>
    kern_wf k' /\
    ((moved = 0 /\ k' = k) \/
     exists sa ts f t, sa <> ra /\ tmem (kt k) !! sa = Some ts /\ task_id ts = tid /\
       only_cspaces k sa ra ts tr f t k' /\ transfers (tcspace ts) (tcspace tr) moved f t)).
Proof. apply deliver_dispose_spec. Qed.

(** The counters of all ports but [e] have room for one more reference; [e] is
    the port the call holds a reference to, 0 if it holds none. *)
Definition roomy (e : Z) (st : pstate H S) : Prop :=
  forall a p, a <> e -> ports st !! a = Some p -> ref_count p < INT_MAX.

Lemma roomy_room st a : pst_wf st -> roomy 0 st -> ref_room st a.
Proof. intros Hwf Hr p Hp. apply (Hr a p); [|done]. intros ->. by rewrite (st_null _ Hwf) in Hp. Qed.

Lemma roomy_mono e st : roomy 0 st -> pst_wf st -> roomy e st.
Proof. intros Hr Hwf a p _ Hp. by apply (roomy_room st a). Qed.

Lemma roomy_upd e st st' p : roomy e st -> ports st' = <[e := p]> (ports st) -> roomy e st'.
Proof. intros Hr E a q Hne. rewrite E, lookup_insert_ne by done. by apply Hr. Qed.

Lemma roomy_release e st st' : pst_wf st -> roomy e st -> ports st' = dropped e (ports st) -> roomy 0 st'.
Proof.
  intros Hwf Hr E a q _ Hq. rewrite E in Hq. unfold dropped in Hq. destruct (ports st !! e) as [p|] eqn:Ep.
  - pose proof (st_port _ Hwf e p Ep) as [_ ?]. destruct (decide (a = e)) as [->|Hne].
    + destruct (ref_count p =? 1); [by rewrite lookup_delete_eq in Hq|]. rewrite lookup_insert_eq in Hq.
      injection Hq as <-. cbn. lia.
    + apply (Hr a q Hne). destruct (ref_count p =? 1); [by rewrite lookup_delete_ne in Hq|by rewrite lookup_insert_ne in Hq].
  - apply (Hr a q); [|done]. intros ->. congruence.
Qed.

Lemma resolve_spec k cur handle need :
  kern_wf k -> roomy 0 (kp k) -> cur = 0 \/ is_Some (tmem (kt k) !! cur) ->
  returns (resolve cur handle need k) (fun '(o, k') =>
    kern_wf k' /\ kt k' = kt k /\ psched (kp k') = psched (kp k) /\
    match o with
    | None => ports (kp k') = ports (kp k)
    | Some (t, port) => roomy port (kp k') /\
        exists c p, tmem (kt k) !! cur = Some t /\
          cspace_lookup (tcspace t) (handle_slot handle) = Ret (Some c) /\
          cap_type c = CAP_PORT /\ Z.land (rights c) need <> 0 /\ object_id c = port /\
          ports (kp k) !! port = Some p /\ PORT_IS_VALID p = true /\
          ports (kp k') = <[port := set_ref (ref_count p + 1) p]> (ports (kp k))
    end).
Proof.
  intros Hk Hroom Hcur. unfold resolve. destruct (Z.eqb_spec cur 0) as [->|Hc0]; [done|].
  destruct Hcur as [?|[t Ht]]; [done|]. rewrite (get_task_run k cur t Ht). cbn [mbind out_bind].
  pose proof (kw_cs _ Hk cur t Ht) as [Hcs _].
  destruct (lookup_snapshot_lookup (tcspace t) (handle_slot handle) Hcs) as (o & Hl & ->).
  destruct o as [c|]; cbn [mbind out_bind Z.ltb Z.compare]; [|done]. cbn [deref mbind out_bind].
  unfold port_from_cslot. destruct (Z.eqb_spec (cap_type c) CAP_PORT) as [Hty|Hty];
    cbn [negb mbind out_bind Z.eqb].
  2: { cbn [returns]. by destruct k. }
  destruct (Z.eqb_spec (Z.land (rights c) need) 0) as [Hrt|Hrt]; cbn [mbind out_bind Z.eqb].
  { cbn [returns]. by destruct k. }
  eapply returns_bind; [apply (port_ref_raw_spec (kp k)); [apply Hk|by apply roomy_room; [apply Hk|]]|].
  intros [r st] (Hst & Hnl & Hs & Hcase). pose proof (kw_ports_step k st Hk Hst Hnl) as Hk'.
  destruct (Z.eqb_spec r 0) as [->|Hr]; cbn [returns].
  - split; [done|]. split; [done|]. split; [done|]. cbn [kp set_kp].
    destruct (ports (kp k) !! object_id c) as [p|] eqn:Ep; [|by destruct Hcase as [_ ->]].
    destruct (PORT_IS_VALID p); destruct Hcase as [E ->]; [|done].
    rewrite <- E, (st_null _ (kw_ports _ Hk)) in Ep. done.
  - split; [done|]. split; [done|]. split; [done|].
    destruct (ports (kp k) !! object_id c) as [p|] eqn:Ep; [|by destruct Hcase].
    destruct (PORT_IS_VALID p) eqn:Hv; destruct Hcase as [-> Hports]; [|done].
    split; [|by exists c, p]. apply (roomy_upd _ (kp k) _ _ (roomy_mono _ _ Hroom (kw_ports _ Hk)) Hports).
Qed.

Lemma task_free_slot_spec k a t slot :
  kern_wf k -> tmem (kt k) !! a = Some t ->
  returns (task_free_slot a slot k) (fun '(r, k') => exists cs,
    kern_wf k' /\ cs_wf cs /\ max_slots cs = max_slots (tcspace t) /\
    tmem (kt k') = <[a := set_tcspace cs t]> (tmem (kt k)) /\
    task_hash (kt k') = task_hash (kt k) /\ next_task_id (kt k') = next_task_id (kt k) /\
    (forall i, granted cs i = if (r =? 0) && (i =? slot) then None else granted (tcspace t) i) /\
    (roomy 0 (kp k) -> roomy 0 (kp k'))).
Proof.
  intros Hk Ht. unfold task_free_slot. rewrite (get_task_run k a t Ht). cbn [mbind out_bind].
  pose proof (kw_cs _ Hk a t Ht) as [Hcs _].
  assert (forall r cs st, cs_wf cs -> arrays cs = arrays (tcspace t) ->
    max_slots cs = max_slots (tcspace t) -> pst_wf st -> no_leak (kp k) st ->
    (forall i, granted cs i = if (r =? 0) && (i =? slot) then None else granted (tcspace t) i) ->
    (roomy 0 (kp k) -> roomy 0 st) ->
    returns (k' ← put_cspace a cs (pheap st) (set_kp st k); Ret (r, k')) (fun '(r, k') => exists cs,
      kern_wf k' /\ cs_wf cs /\ max_slots cs = max_slots (tcspace t) /\
      tmem (kt k') = <[a := set_tcspace cs t]> (tmem (kt k)) /\
      task_hash (kt k') = task_hash (kt k) /\ next_task_id (kt k') = next_task_id (kt k) /\
      (forall i, granted cs i = if (r =? 0) && (i =? slot) then None else granted (tcspace t) i) /\
      (roomy 0 (kp k) -> roomy 0 (kp k'))))
    as Hput.
  { intros r cs st Hcs' Harr Hmax Hst Hnl Hg Hro. rewrite (put_cspace_run _ a t) by done.
    cbn [mbind out_bind returns]. exists cs. split; [|done].
    pose proof (kw_ports_step k st Hk Hst Hnl) as Hk1.
    apply (kw_cspace_step (set_kp st k) a t cs (pheap st) Hk1 Ht Hcs').
    destruct (kw_live _ a t Hk1 Ht) as [[Hw Hlv] _]. split; [split; [done|]|]; by rewrite Harr. }
  pose proof (cspace_free_slot_spec port_release (tcspace t) slot (kp k) Hcs) as Hfree.
  assert (forall i, granted (tcspace t) i =
    if (-1 =? 0) && (i =? slot) then None else granted (tcspace t) i) as Hsame by done.
  destruct (if slot_in_table (tcspace t) slot then getz (slots (tcspace t)) slot else None)
    as [c|]; [destruct (in_use c)|].
  - destruct Hfree as (cs' & Hcs' & Harr & Hmax & Hg & ->). destruct (cap_type c =? CAP_PORT).
    + pose proof (port_release_spec (kp k) (object_id c) (kw_ports _ Hk)) as Hrel.
      destruct (port_release (object_id c) (kp k)) as [st| |]; cbn [mbind out_bind returns] in *; [|done..].
      destruct Hrel as (Hst & Hnl & _ & Hps). apply Hput; try done.
      intros Hro. apply (roomy_release (object_id c) (kp k)); [apply Hk| |done]. apply roomy_mono; [done|apply Hk].
    + cbn [mbind out_bind]. apply Hput; try done. apply Hk.
  - rewrite Hfree. cbn [mbind out_bind]. apply Hput; try done. apply Hk.
  - rewrite Hfree. cbn [mbind out_bind]. apply Hput; try done. apply Hk.
Qed.

(** ** Every call is safe *)

(** The next message of [p] does not carry a capability the task itself sent. *)
Definition no_own_dispose (p : ipc_port) (t : task) : Prop :=
  forall v sid l, contents p = (v, sid) :: l -> v.2 <> [] -> sid <> task_id t.

(** What receiving from [p] does to the tasks: capabilities move from the
    sender of the next message to the receiver, and nothing else. *)
Definition recv_tasks (p : ipc_port) (cur : Z) (k k' : kernel H S) : Prop :=
  tmem (kt k') = tmem (kt k) \/
  exists v sid l sa ts tr f t n, contents p = (v, sid) :: l /\ sa <> cur /\
    tmem (kt k) !! sa = Some ts /\ task_id ts = sid /\ tmem (kt k) !! cur = Some tr /\
    tmem (kt k') = <[cur := set_tcspace t tr]> (<[sa := set_tcspace f ts]> (tmem (kt k))) /\
    transfers (tcspace ts) (tcspace tr) n f t.

Lemma port_recv_spec k port p buf cur thr :
  kern_wf k -> ports (kp k) !! port = Some p -> PORT_IS_VALID p = true -> msg_shape buf ->
  cur = 0 \/ (exists t, tmem (kt k) !! cur = Some t /\ no_own_dispose p t) ->
  returns (port_recv jslot jword port buf cur thr k) (fun '(r, m, k') => kern_wf k' /\
    drop (Z.to_nat (data_size m)) (data m) = drop (Z.to_nat (data_size m)) (data buf) /\
    recv_tasks p cur k k' /\ exists p', ports (kp k') = <[port := p']> (ports (kp k))).
Proof.
  intros Hk Hp Hv Hb Hcur. destruct (table_find_live (kp k) port p (kw_ports _ Hk) Hp) as (_ & _ & _ & H0).
  unfold port_recv. rewrite (proj2 (Z.eqb_neq port 0)) by done. rewrite Hp.
  cbn [deref mbind out_bind]. rewrite Hv. cbn [negb].
  eapply returns_bind; [apply (port_recv_locked_spec (kp k)); [apply Hk|done..]|].
  intros [r st] (Hst & Hnl & p' & Hps & _ & _ & Hr).
  pose proof (kw_ports_step k st Hk Hst Hnl) as Hk'.
  assert (recv_tasks p cur k (set_kp st k) /\ exists p', ports (kp (set_kp st k)) = <[port := p']> (ports (kp k))) as Hsame
    by (split; [by left|by exists p']).
  destruct r as [m| | |m sid]; [by destruct Hr as [-> _]|done..|].
  destruct Hr as (Hsh & Hok & Hc & _ & _ & _ & Htail).
  destruct (Z.eqb_spec cur 0) as [|Hcur0]; cbn [negb andb]; [done|].
  destruct (Z.ltb_spec 0 (ndispose m)); [|done].
  destruct Hcur as [?|(t & Ht & Hown)]; [done|].
  eapply returns_bind.
  - apply (deliver_dispose_spec (set_kp st k) cur t m sid); try done.
    apply (Hown (msg_view m) sid (contents p')); [done|].
    unfold msg_view. cbn [snd]. destruct Hsh as [_ Hd], Hok as [_ Hn].
    unfold IPC_DISPOSE_MAX in *. intros E%(f_equal length). rewrite length_take in E. simpl in E. lia.
  - intros [mv k2] [Hk2 Hmv]. split; [done|]. split; [done|]. destruct Hmv as [[_ ->]|(sa & ts & f & t' & Hne & Hs & Hid & Ho & Htr)].
    { done. }
    destruct Ho as (Hpk & _ & _ & _ & Htm). split; [|exists p'; by rewrite Hpk].
    right. exists (msg_view m), sid, (contents p'), sa, ts, t, f, t', mv. done.
Qed.

Inductive ipc_call :=
| CPortCreate
| CPortDestroy (handle : Z)
| CPortSend (handle : Z) (user_msg : option ipc_msg)
| CPortRecv (handle : Z) (thr : option Z) (kmsg : ipc_msg) (copy_ok : bool)
| CPortNotify (handle : Z)
| CSlotAlloc (type rights : Z)
| CSlotFree (handle : Z)
| CPollScan (handles : list Z).

Definition run_call (cur : Z) (c : ipc_call) (k : kernel H S) : out (kernel H S) :=
  match c with
  | CPortCreate => '(_, k) ← sys_port_create jslot jword jp jm jsn cur k; Ret k
  | CPortDestroy h => '(_, k) ← sys_port_destroy cur h k; Ret k
  | CPortSend h m => '(_, k) ← sys_port_send jm jsn cur h m k; Ret k
  | CPortRecv h thr m ok => '(_, _, k) ← sys_port_recv jslot jword cur h thr m ok k; Ret k
  | CPortNotify h => '(_, k) ← sys_port_notify cur h k; Ret k
  | CSlotAlloc ty r => '(_, k) ← sys_slot_alloc jslot jword cur ty r k; Ret k
  | CSlotFree h => '(_, k) ← sys_slot_free cur h k; Ret k
  | CPollScan hs => '(_, k) ← poll_scan hs 0 cur k; Ret k
  end.

(** The port behind the slot a handle of the task names. *)
Definition names_port (cur handle : Z) (k : kernel H S) (t : task) (p : ipc_port) : Prop :=
  tmem (kt k) !! cur = Some t /\ exists c,
    cspace_lookup (tcspace t) (handle_slot handle) = Ret (Some c) /\ cap_type c = CAP_PORT /\
    ports (kp k) !! object_id c = Some p.

(** Messages have the size of the C structure and unsigned counts; the next
    message of the port a receiver names does not carry capabilities of its
    own, for which [cspace_move] would wait for ever. *)
Definition call_ok (cur : Z) (c : ipc_call) (k : kernel H S) : Prop :=
  match c with
  | CPortSend _ (Some m) => msg_shape m /\ 0 <= data_size m /\ 0 <= ndispose m
  | CPortRecv h _ m _ => msg_shape m /\ forall p t, names_port cur h k t p -> no_own_dispose p t
  | _ => True
  end.

(** Tasks other than [cur] keep their C-space. *)
Definition others_kept (cur : Z) (k k' : kernel H S) : Prop :=
  forall a, a <> cur -> tmem (kt k') !! a = tmem (kt k) !! a.

Lemma release_step k port :
  kern_wf k -> roomy port (kp k) ->
  returns (port_release port (kp k)) (fun st => kern_wf (set_kp st k) /\ roomy 0 st).
Proof.
  intros Hk Hro. eapply returns_mono; [apply (port_release_spec (kp k)), Hk|].
  intros st (Hst & Hnl & _ & Hps). split; [by apply kw_ports_step|]. by apply (roomy_release port (kp k)); [apply Hk|..].
Qed.

(** What a receive does to the tasks. *)
Definition recv_kept (cur handle : Z) (k k' : kernel H S) : Prop :=
  tmem (kt k') = tmem (kt k) \/ exists t p, names_port cur handle k t p /\ recv_tasks p cur k k'.

Lemma roomy_ports (st st' : pstate H S) : roomy 0 st -> ports st' = ports st -> roomy 0 st'.
Proof. intros Hr E a q. rewrite E. apply Hr. Qed.

Lemma destroyed_room st e p a q :
  pst_wf st -> roomy e st -> ports st !! e = Some p ->
  dropped e (<[e := set_magic 0 (set_waiters (waiters p) 0 p)]> (ports st)) !! a = Some q -> ref_count q < INT_MAX.
Proof.
  intros Hwf Hr Hp. pose proof (st_port _ Hwf e p Hp) as [_ ?]. unfold dropped. rewrite lookup_insert_eq. cbn [ref_count set_magic set_waiters].
  destruct (decide (a = e)) as [->|Hne].
  - destruct (ref_count p =? 1); [by rewrite lookup_delete_eq|]. rewrite lookup_insert_eq. intros [= <-]. cbn. lia.
  - intros Hq. apply (Hr a q Hne). destruct (ref_count p =? 1);
      [rewrite lookup_delete_ne in Hq by done|rewrite lookup_insert_ne in Hq by done]; by rewrite lookup_insert_ne in Hq.
Qed.

Lemma sys_port_create_safe k cur :
  junk_ok jp jm -> kern_wf k -> roomy 0 (kp k) -> cur = 0 \/ is_Some (tmem (kt k) !! cur) ->
  returns (sys_port_create jslot jword jp jm jsn cur k) (fun '(_, k') =>
    (kern_wf k' /\ roomy 0 (kp k')) /\ others_kept cur k k').
Proof.
  intros Hj Hk Hro Hcur. unfold sys_port_create. destruct (Z.eqb_spec cur 0) as [->|Hc0]; [done|].
  destruct Hcur as [?|[t Ht]]; [done|].
  pose proof (port_create_spec jp jm jsn (kp k) Hj (kw_ports _ Hk)) as Hc.
  destruct (port_create jp jm jsn (kp k)) as [port st]. destruct Hc as (Hst & Hnl & _ & Hcase).
  pose proof (kw_ports_step k st Hk Hst Hnl) as Hk1.
  destruct (Z.eqb_spec port 0) as [->|Hp0].
  { split; [|done]. split; [done|]. destruct Hcase as [[_ E]|[? _]]; [|done]. intros a q Ha. cbn [kp set_kp]. rewrite E. by apply Hro. }
  destruct Hcase as [[? _]|(_ & Hnone & p & Hports & Hfresh)]; [done|].
  assert (roomy 0 st) as Hro1.
  { intros a q Ha. rewrite Hports. intros [[<- <-]|[_ Hq]]%lookup_insert_Some; [|by apply (Hro a)].
    destruct Hfresh as (_ & -> & _). done. }
  rewrite (get_task_run (set_kp st k) cur t) by done. cbn [mbind out_bind].
  pose proof (kw_cs _ Hk cur t Ht) as [Hcs _].
  destruct (kw_live (set_kp st k) cur t Hk1 Ht) as [Hown _].
  eapply returns_bind; [by apply (cspace_alloc_slot_spec jslot jword)|].
  intros [[slot cs] h] (Hcs' & Hfr & _). rewrite (put_cspace_run _ cur t) by done.
  cbn [mbind out_bind]. pose proof (kw_cspace_step (set_kp st k) cur t cs h Hk1 Ht Hcs' Hfr) as Hk2.
  set (k2 := Kernel _ _) in *.
  assert (others_kept cur k k2) as Ho
    by (intros a Ha; cbn [k2 kt tmem set_task set_kp]; by rewrite lookup_insert_ne).
  destruct (slot <? 0); [|done].
  assert (ports (kp k2) !! port = Some p) as Hp2
    by (cbn [k2 kp set_kp set_pheap ports]; rewrite Hports; apply lookup_insert_eq).
  destruct Hfresh as (Hv & _).
  eapply returns_bind; [apply (port_destroy_spec (kp k2) port p); [apply Hk2|done|done]|].
  intros [d st3] (_ & Hst3 & Hnl3 & _ & Hps3). split; [|done]. split; [by apply kw_ports_step|].
  intros a q Ha Hq. cbn [kp set_kp] in Hq. rewrite Hps3 in Hq.
  change (ports (kp k2)) with (ports st) in Hq. apply (destroyed_room st port p a q); [done|by apply roomy_mono|rewrite Hports; apply lookup_insert_eq|done].
Qed.

Lemma task_free_slot_safe k k0 cur t slot :
  kern_wf k -> roomy 0 (kp k) -> kt k = kt k0 -> tmem (kt k) !! cur = Some t ->
  returns (task_free_slot cur slot k) (fun '(_, k') => (kern_wf k' /\ roomy 0 (kp k')) /\ others_kept cur k0 k').
Proof.
  intros Hk Hro Hkt Ht. eapply returns_mono; [by apply task_free_slot_spec|].
  intros [r k'] (cs & Hk' & _ & _ & Htm & _ & _ & _ & Hro'). split; [by split; [|apply Hro']|]. intros a Ha.
  rewrite Htm, lookup_insert_ne by done. by rewrite Hkt.
Qed.

Lemma sys_port_destroy_safe k cur handle :
  kern_wf k -> roomy 0 (kp k) -> cur = 0 \/ is_Some (tmem (kt k) !! cur) ->
  returns (sys_port_destroy cur handle k) (fun '(_, k') => (kern_wf k' /\ roomy 0 (kp k')) /\ others_kept cur k k').
Proof.
  intros Hk Hro Hcur. unfold sys_port_destroy. destruct (Z.eqb_spec cur 0) as [->|Hc0]; [done|].
  destruct Hcur as [?|[t Ht]]; [done|]. rewrite (get_task_run k cur t Ht). cbn [mbind out_bind].
  pose proof (kw_cs _ Hk cur t Ht) as [Hcs _].
  destruct (lookup_snapshot_lookup (tcspace t) (handle_slot handle) Hcs) as (o & Hl & ->).
  destruct o as [c|]; cbn [mbind out_bind Z.ltb Z.compare]; [|done]. cbn [deref mbind out_bind].
  eapply returns_bind; [apply (port_ref_raw_spec (kp k)); [apply Hk|by apply roomy_room; [apply Hk|]]|].
  intros [port st] (Hst & Hnl & _ & Hcase). pose proof (kw_ports_step k st Hk Hst Hnl) as Hk1.
  destruct (Z.eqb_spec port 0) as [->|Hp0].
  { split; [|done]. split; [done|]. destruct (ports (kp k) !! object_id c) as [p|] eqn:Ep; [|by destruct Hcase as [_ ->]].
    destruct (PORT_IS_VALID p); destruct Hcase as [E Hs]; [by rewrite <- E, (st_null _ (kw_ports _ Hk)) in Ep|by rewrite Hs]. }
  destruct (ports (kp k) !! object_id c) as [p|] eqn:Ep; [|by destruct Hcase].
  destruct (PORT_IS_VALID p) eqn:Hv; destruct Hcase as [-> Hports]; [|done].
  eapply returns_bind.
  { apply (port_destroy_spec st _ (set_ref (ref_count p + 1) p)); [done| |done].
    rewrite Hports. apply lookup_insert_eq. }
  intros [d st2] (_ & Hst2 & Hnl2 & _ & Hps2).
  eapply returns_bind; [by apply (port_release_spec st2)|]. intros st3 (Hst3 & Hnl3 & _ & Hps3).
  assert (roomy 0 st2) as Hro2.
  { intros a q Ha Hq. rewrite Hps2 in Hq. eapply (destroyed_room st (object_id c)); [done| | |exact Hq].
    - apply (roomy_upd _ (kp k) _ _ (roomy_mono _ _ Hro (kw_ports _ Hk)) Hports).
    - rewrite Hports. apply lookup_insert_eq. }
  eapply returns_bind.
  - apply (task_free_slot_safe _ k cur t); [|by apply (roomy_release (object_id c) st2); [|apply roomy_mono|]|done|done].
    apply (kw_ports_step (set_kp st k)); [done|done|]. cbn [kp set_kp]. by eapply no_leak_trans.
  - intros [r k'] Hk'. done.
Qed.

Lemma sys_port_send_safe k cur handle m :
  junk_ok jp jm -> kern_wf k -> roomy 0 (kp k) -> cur = 0 \/ is_Some (tmem (kt k) !! cur) ->
  call_ok cur (CPortSend handle m) k ->
  returns (sys_port_send jm jsn cur handle m k) (fun '(_, k') => (kern_wf k' /\ roomy 0 (kp k')) /\ kt k' = kt k).
Proof.
  intros Hj Hk Hro Hcur Hok. unfold sys_port_send. eapply returns_bind; [by apply resolve_spec|].
  intros [[[t port]|] k1] (Hk1 & Hkt & _ & Hres); [|split; [split; [done|]|done]; by apply (roomy_ports (kp k))].
  destruct Hres as (Hro1 & c & p & Ht & Hl & Hty & _ & Hob & Hp & Hv & Hports).
  pose proof (kw_cs _ Hk cur t Ht) as [Hcs _]. destruct m as [m|].
  - destruct Hok as (Hsh & Hd & Hn). eapply returns_bind.
    { apply (port_send_spec jp jm jsn (kp k1) port (set_ref (ref_count p + 1) p)); try done.
      - apply Hk1.
      - rewrite Hports. apply lookup_insert_eq.
      - by intros tid cs [= <- <-]. }
    intros [r st] (Hst & Hnl & Hcase). pose proof (kw_ports_step k1 st Hk1 Hst Hnl) as Hk2.
    assert (roomy port st) as Hro2.
    { destruct Hcase as [(_ & _ & ->)|[(_ & _ & _ & E & _)|(_ & _ & _ & p' & E & _)]];
        [done|intros a q Ha; rewrite E; by apply Hro1|by apply (roomy_upd port (kp k1) st p')]. }
    eapply returns_bind; [apply (release_step (set_kp st k1) port Hk2 Hro2)|]. intros st' Hk3. done.
  - cbn [mbind out_bind]. eapply returns_bind; [by apply (release_step k1 port)|].
    intros st' Hk3. done.
Qed.

Lemma sys_port_recv_safe k cur handle thr m ok :
  kern_wf k -> roomy 0 (kp k) -> cur = 0 \/ is_Some (tmem (kt k) !! cur) ->
  call_ok cur (CPortRecv handle thr m ok) k ->
  returns (sys_port_recv jslot jword cur handle thr m ok k) (fun '(_, u, k') =>
    (kern_wf k' /\ roomy 0 (kp k')) /\ recv_kept cur handle k k' /\ forall m', u = Some m' ->
      drop (Z.to_nat (data_size m')) (data m') = drop (Z.to_nat (data_size m')) (data m)).
Proof.
  intros Hk Hro Hcur [Hsh Hown]. unfold sys_port_recv. eapply returns_bind; [by apply resolve_spec|].
  intros [[[t port]|] k1] (Hk1 & Hkt & _ & Hres); [|split; [split; [done|by apply (roomy_ports (kp k))]|]; split; [left; by rewrite Hkt|done]].
  destruct Hres as (Hro1 & c & p & Ht & Hl & Hty & _ & Hob & Hp & Hv & Hports).
  assert (names_port cur handle k t p) as Hnp by (split; [done|]; exists c; by subst port).
  eapply returns_bind.
  { apply (port_recv_spec k1 port (set_ref (ref_count p + 1) p)); try done.
    - rewrite Hports. apply lookup_insert_eq.
    - right. exists t. rewrite Hkt. split; [done|]. by apply (Hown p t). }
  intros [[r m'] k2] (Hk2 & Htail & Hrt & p' & Hps2). cbn beta. pose proof (roomy_upd _ _ _ _ Hro1 Hps2) as Hro2.
  destruct (if r =? IPC_OK then _ else _) as [ret user] eqn:Eu.
  eapply returns_bind; [by apply (release_step k2 port)|]. intros st' Hk3. split; [done|].
  split; [right; exists t, p; split; [done|]; unfold recv_tasks in *; rewrite Hkt in Hrt; exact Hrt|].
  intros m'' ->. destruct (r =? IPC_OK); [|done]. by destruct ok; simplify_eq.
Qed.

Lemma sys_port_notify_safe k cur handle :
  kern_wf k -> roomy 0 (kp k) -> cur = 0 \/ is_Some (tmem (kt k) !! cur) ->
  returns (sys_port_notify cur handle k) (fun '(_, k') => (kern_wf k' /\ roomy 0 (kp k')) /\ kt k' = kt k).
Proof.
  intros Hk Hro Hcur. unfold sys_port_notify. eapply returns_bind; [by apply resolve_spec|].
  intros [[[t port]|] k1] (Hk1 & Hkt & _ & Hres); [|split; [split; [done|]|done]; by apply (roomy_ports (kp k))].
  destruct Hres as (Hro1 & c & p & Ht & Hl & Hty & _ & Hob & Hp & Hv & Hports).
  eapply returns_bind.
  { apply (port_notify_spec (kp k1) port (set_ref (ref_count p + 1) p)); [apply Hk1| |done].
    rewrite Hports. apply lookup_insert_eq. }
  intros [r st] (_ & Hst & Hnl & _ & p' & Hps2 & _). pose proof (kw_ports_step k1 st Hk1 Hst Hnl) as Hk2.
  eapply returns_bind; [apply (release_step (set_kp st k1) port Hk2 (roomy_upd _ _ _ _ Hro1 Hps2))|]. intros st' Hk3. done.
Qed.

Lemma sys_slot_alloc_safe k cur ty r :
  kern_wf k -> roomy 0 (kp k) -> cur = 0 \/ is_Some (tmem (kt k) !! cur) ->
  returns (sys_slot_alloc jslot jword cur ty r k) (fun '(_, k') =>
    (kern_wf k' /\ roomy 0 (kp k')) /\ others_kept cur k k').
Proof.
  intros Hk Hro Hcur. unfold sys_slot_alloc. destruct (Z.eqb_spec cur 0) as [->|Hc0]; [done|].
  destruct Hcur as [?|[t Ht]]; [done|]. rewrite (get_task_run k cur t Ht). cbn [mbind out_bind].
  pose proof (kw_cs _ Hk cur t Ht) as [Hcs _]. destruct (kw_live k cur t Hk Ht) as [Hown _].
  eapply returns_bind; [by apply (cspace_alloc_slot_spec jslot jword)|].
  intros [[slot cs] h] (Hcs' & Hfr & _). rewrite (put_cspace_run _ cur t) by done.
  cbn [mbind out_bind]. pose proof (kw_cspace_step k cur t cs h Hk Ht Hcs' Hfr) as Hk2.
  assert (others_kept cur k (Kernel (set_pheap h (kp k)) (set_task cur (set_tcspace cs t) (kt k))))
    by (intros a Ha; cbn [kt tmem set_task]; by rewrite lookup_insert_ne).
  destruct (slot <? 0); done.
Qed.

Lemma poll_scan_safe hs : forall i k cur,
  kern_wf k -> roomy 0 (kp k) -> cur = 0 \/ is_Some (tmem (kt k) !! cur) ->
  returns (poll_scan hs i cur k) (fun '(_, k') => (kern_wf k' /\ roomy 0 (kp k')) /\ kt k' = kt k).
Proof.
  induction hs as [|h hs IH]; intros i k cur Hk Hro Hcur; [done|]. cbn [poll_scan].
  eapply returns_bind; [by apply resolve_spec|].
  intros [[[t port]|] k1] (Hk1 & Hkt & _ & Hres).
  2: { rewrite <- Hkt. apply IH; [done|intros a q Ha; rewrite Hres; by apply Hro|by rewrite Hkt]. }
  destruct Hres as (Hro1 & c & p & Ht & _ & _ & _ & _ & Hp & Hv & Hports).
  rewrite Hports, lookup_insert_eq. cbn [deref mbind out_bind].
  eapply returns_bind; [by apply (release_step k1 port)|]. intros st [Hk2 Hro2]. cbn beta.
  destruct (_ || _); [done|]. eapply returns_mono; [apply (IH _ (set_kp st k1)); [done|done|]|].
  - by rewrite <- Hkt in Hcur.
  - intros [o k'] [? Hkt']. split; [done|]. rewrite Hkt'. done.
Qed.

(** C31: creating, destroying, sending to, receiving from and notifying a port,
    allocating and releasing a slot, and the scan of a poll, with any handle
    whatever and any message: from a kernel state that satisfies the invariant,
    in which no port has INT_MAX references, the call returns to such a state,
    without undefined behaviour.  The C-spaces of all tasks but the caller are
    unchanged, but for a receive: there capabilities may move to the caller,
    one for one, from the task that sent the received message, and no other
    task changes.  A receive is excluded if the next message carries
    capabilities of the receiver itself. *)
Theorem ipc_calls_safe k cur c :
  junk_ok jp jm -> kern_wf k -> roomy 0 (kp k) -> cur = 0 \/ is_Some (tmem (kt k) !! cur) -> call_ok cur c k ->
  returns (run_call cur c k) (fun k' =>
    (kern_wf k' /\ roomy 0 (kp k')) /\
    match c with CPortRecv h _ _ _ => recv_kept cur h k k' | _ => others_kept cur k k' end).
Proof.
  intros Hj Hk Hro Hcur Hok. destruct c as [|h|h m|h thr m ok|h|ty r|h|hs]; cbn [run_call].
  - eapply returns_bind; [by apply sys_port_create_safe|]. by intros [].
  - eapply returns_bind; [by apply sys_port_destroy_safe|]. by intros [].
  - eapply returns_bind; [by apply sys_port_send_safe|]. intros [r k'] [? Hkt].
    split; [done|]. intros a _. by rewrite Hkt.
  - eapply returns_bind; [by apply sys_port_recv_safe|]. by intros [[] ?] (? & ? & _).
  - eapply returns_bind; [by apply sys_port_notify_safe|]. intros [r k'] [? Hkt].
    split; [done|]. intros a _. by rewrite Hkt.
  - eapply returns_bind; [by apply sys_slot_alloc_safe|]. by intros [].
  - assert (returns (sys_slot_free cur h k) (fun '(_, k') => (kern_wf k' /\ roomy 0 (kp k')) /\ others_kept cur k k')) as Hf.
    { unfold sys_slot_free. destruct (Z.eqb_spec cur 0) as [->|Hc0]; [done|].
      destruct Hcur as [?|[t Ht]]; [done|]. rewrite (get_task_run k cur t Ht). cbn [mbind out_bind].
      destruct (negb _); [done|]. by apply (task_free_slot_safe k k cur t). }
    eapply returns_bind; [exact Hf|]. by intros [].
  - eapply returns_bind; [by apply poll_scan_safe|]. intros [o k'] [? Hkt].
    split; [done|]. intros a _. by rewrite Hkt.
Qed.

(** [sys_port_recv] copies the whole message structure to the user but
    [port_recv] fills in only the valid payload: the bytes behind it are those
    the structure held before, kernel stack contents. *)
Theorem sys_port_recv_leaks_stack k cur handle thr stack_msg :
  kern_wf k -> roomy 0 (kp k) -> is_Some (tmem (kt k) !! cur) -> call_ok cur (CPortRecv handle thr stack_msg true) k ->
  returns (sys_port_recv jslot jword cur handle thr stack_msg true k) (fun '(_, user, _) =>
    forall m, user = Some m ->
      drop (Z.to_nat (data_size m)) (data m) =
        drop (Z.to_nat (data_size m)) (data stack_msg)).
Proof.
  intros Hk Hro Hcur Hok. eapply returns_mono; [by apply sys_port_recv_safe; [| |right|]|].
  intros [[r u] k'] (_ & _ & Hu). done.
Qed.

(** Creating a task keeps the kernel invariant. *)
Lemma task_create_step k name :
  kern_wf k -> next_task_id (kt k) + 1 < 2 ^ 32 -> c_string name ->
  returns (task_create name (kt k) (kheap k)) (fun '(a, ts, h) =>
    kern_wf (Kernel (set_pheap h (kp k)) ts)).
Proof.
  intros Hk Hmax Hname. eapply returns_mono.
  { apply task_create_spec; [apply Hk|apply Hk| |done|done].
    intros a t Ht. by apply (kw_live k a t). }
  intros [[a ts] h] (Hh & [(-> & -> & Hl)|(Ha & Hnone & Hts & _ & t & Htm & _ & _ & Hcs & _ & _ & Hna & Hd & Hl)]).
  - destruct (wf_heap (kp k) h (kw_ports _ Hk) Hh Hl) as [? ?]. by apply (kw_ports_step k).
  - assert (forall x, x ∈ klive (kheap k) -> x ∈ klive h) as Hgrow
      by (intros x Hx; rewrite Hl; by apply elem_of_union_r).
    split; cbn [kp kt]; try done.
    + destruct (kw_ports _ Hk) as [? ? ? ? ? ? Hown ?].
      split; cbn [ports port_table pheap set_pheap]; try done.
      intros b p Hb. destruct (Hown b p Hb) as [Hsub ?]. split; [|done]. intros x Hx.
      by apply Hgrow, Hsub.
    + rewrite Htm. intros b u [[<- <-]|[Hne Hu]]%lookup_insert_Some; [done|by apply (kw_cs _ Hk)].
    + rewrite Htm. unfold others. cbn [pheap set_pheap]. intros b u x Hu Hx.
      rewrite owns_set_pheap. apply lookup_insert_Some in Hu as [[<- <-]|[Hne Hu]].
      * split; [rewrite Hl; by apply elem_of_union_l|]. intros (b & p & Hb & Hxb).
        apply (proj1 (elem_of_disjoint _ _) Hd x Hx). by apply (st_own _ (kw_ports _ Hk) b p Hb).
      * destruct (kw_others _ Hk b u x Hu Hx). split; [by apply Hgrow|done].
    + rewrite Htm. assert (forall b u, tmem (kt k) !! b = Some u -> tblocks a t ## tblocks b u) as Hab.
      { intros b u Hu. apply elem_of_disjoint. intros x Hx Hxb.
        apply (proj1 (elem_of_disjoint _ _) Hd x Hx). by apply (kw_others _ Hk b u x Hu). }
      intros b c u v [[<- <-]|[Hne Hu]]%lookup_insert_Some [[<- <-]|[Hne' Hv]]%lookup_insert_Some Hbc;
        [done|by apply Hab|symmetry; by apply Hab|by apply (kw_disj _ Hk b c)].
Qed.
End inv.

(** ** Witnesses *)

Definition boot : kernel ref_heap ref_sched := Kernel no_ports empty_tasks.
Definition add_task (k : kernel ref_heap ref_sched) : kernel ref_heap ref_sched :=
  match task_create None (kt k) (kheap k) with
  | Ret (_, ts, h) => Kernel (set_pheap h (kp k)) ts
  | _ => k
  end.
Definition two_tasks : kernel ref_heap ref_sched := add_task (add_task boot).
(** The task at address 1 (id 1) has created a port, in slot 1; the other
    task is at address 4 (id 2). *)
Definition with_port : kernel ref_heap ref_sched :=
  match sys_port_create dirty_slot Z.of_nat stale_port stale_msg Z.of_nat 1 two_tasks with
  | Ret (_, k) => k
  | _ => boot
  end.
Definition gift : ipc_msg :=
  IpcMsg 1 4 (replicate 64 65) 1
    (IpcDispose CAP_PORT 0 (task_make_handle 1 1) :: replicate 3 (IpcDispose 0 0 0)).

Lemma boot_wf : kern_wf boot.
Proof.
  assert (forall a t, tmem (kt boot) !! a = Some t -> False) as Hno
    by (intros a t Ht; exact (lookup_empty_Some a t Ht)).
  split; [exact no_ports_wf|exact empty_tasks_wf|..]; intros; exfalso; eauto.
Qed.

Lemma add_task_wf k : kern_wf k -> next_task_id (kt k) + 1 < 2 ^ 32 -> kern_wf (add_task k).
Proof.
  intros Hk Hn. pose proof (task_create_step k None Hk Hn I) as Hc. unfold add_task.
  destruct (task_create None (kt k) (kheap k)) as [[[a ts] h]| |]; done.
Qed.

Lemma two_tasks_wf : kern_wf two_tasks.
Proof. apply add_task_wf; [apply add_task_wf; [apply boot_wf|]|]; vm_compute; reflexivity. Qed.

Lemma two_tasks_live : is_Some (tmem (kt two_tasks) !! 1).
Proof. vm_compute. eexists. reflexivity. Qed.

Lemma roomy_check (k : kernel ref_heap ref_sched) :
  bool_decide (map_Forall (fun _ p => ref_count p < INT_MAX) (ports (kp k))) = true -> roomy 0 (kp k).
Proof. intros Hall%bool_decide_eq_true a p _. apply Hall. Qed.

Lemma two_tasks_roomy : roomy 0 (kp two_tasks).
Proof. apply roomy_check. vm_compute. reflexivity. Qed.

Lemma with_port_wf : kern_wf with_port.
Proof.
  pose proof (sys_port_create_safe dirty_slot Z.of_nat stale_port stale_msg Z.of_nat two_tasks 1
                stale_ok two_tasks_wf two_tasks_roomy (or_intror two_tasks_live)) as Hc. unfold with_port.
  destruct (sys_port_create _ _ _ _ _ 1 two_tasks) as [[r k]| |]; [apply Hc|done..].
Qed.

Lemma with_port_task (a : Z) :
  bool_decide (is_Some (tmem (kt with_port) !! a)) = true ->
  exists t, tmem (kt with_port) !! a = Some t.
Proof. intros [t Ht]%bool_decide_eq_true. eauto. Qed.

Lemma deliver_dispose_correct_witness :
  returns (deliver_dispose dirty_slot Z.of_nat 4 gift 1 with_port) (fun '(moved, k') =>
    moved = 1 /\ kern_wf k').
Proof.
  destruct (with_port_task 4) as [t Ht]; [vm_compute; reflexivity|].
  assert (task_id t = 2) as Hid.
  { assert (task_id <$> tmem (kt with_port) !! 4 = Some 2) as E by (vm_compute; reflexivity).
    rewrite Ht in E. injection E as E. exact E. }
  assert (exists k', deliver_dispose dirty_slot Z.of_nat 4 gift 1 with_port = Ret (1, k')) as [k' E].
  { destruct (deliver_dispose dirty_slot Z.of_nat 4 gift 1 with_port) as [[m k']| |] eqn:E;
      [|vm_compute in E; discriminate E..].
    exists k'. assert (m = 1) as -> by (vm_compute in E; inversion E; reflexivity). reflexivity. }
  pose proof (deliver_dispose_correct dirty_slot Z.of_nat with_port 4 t gift 1 with_port_wf Ht
                ltac:(lia) ltac:(split; reflexivity)
                ltac:(split; cbn; unfold IPC_DATA_SIZE, IPC_DISPOSE_MAX; lia)) as Hd.
  rewrite E in Hd |- *. exact (conj eq_refl (proj1 Hd)).
Defined.

(** A forged handle: an arbitrary number the task does not hold. *)
Lemma ipc_calls_safe_witness :
  returns (run_call dirty_slot Z.of_nat stale_port stale_msg Z.of_nat 1
             (CPortSend 0xDEADBEEF00000013 (Some gift)) with_port) (fun k' => kern_wf k' /\ roomy 0 (kp k')).
Proof.
  eapply returns_mono;
    [apply (ipc_calls_safe dirty_slot Z.of_nat stale_port stale_msg Z.of_nat with_port 1
              (CPortSend 0xDEADBEEF00000013 (Some gift)) stale_ok with_port_wf)|].
  - apply roomy_check. vm_compute. reflexivity.
  - right. vm_compute. eexists. reflexivity.
  - split; [split; reflexivity|]. cbn. lia.
  - intros k' [Hk _]. exact Hk.
Defined.

(** After a notification the message is empty, and the user receives 64 bytes
    of whatever the stack held. *)
Definition notified : kernel ref_heap ref_sched :=
  match sys_port_notify 1 1 with_port with Ret (_, k) => k | _ => boot end.

Lemma notified_wf : kern_wf notified /\ is_Some (tmem (kt notified) !! 1).
Proof.
  assert (is_Some (tmem (kt with_port) !! 1)) as Hlive by (vm_compute; eexists; reflexivity).
  pose proof (sys_port_notify_safe with_port 1 1 with_port_wf (roomy_check with_port eq_refl) (or_intror Hlive)) as Hn.
  unfold notified. destruct (sys_port_notify 1 1 with_port) as [[r k]| |]; [|done..].
  destruct Hn as [[Hk _] Hkt]. by rewrite Hkt.
Qed.

Lemma notified_empty a p : ports (kp notified) !! a = Some p -> contents p = [].
Proof.
  assert (map_Forall (fun _ p => queue_count p = 0) (ports (kp notified))) as Hall
    by (apply (bool_decide_unpack _); vm_compute; exact I).
  intros Hp. pose proof (Hall a p Hp) as E. cbn in E. unfold contents. rewrite E. reflexivity.
Qed.

Lemma sys_port_recv_leaks_stack_witness :
  exists m k', sys_port_recv dirty_slot Z.of_nat 1 1 (Some 1) (stale_msg 0) true notified =
    Ret (IPC_OK, Some m, k') /\ data m = replicate 64 0xAA.
Proof.
  pose proof (sys_port_recv_leaks_stack dirty_slot Z.of_nat notified 1 1 (Some 1) (stale_msg 0)
                (proj1 notified_wf) (roomy_check notified eq_refl) (proj2 notified_wf)) as Hl.
  destruct (sys_port_recv dirty_slot Z.of_nat 1 1 (Some 1) (stale_msg 0) true notified)
    as [[[r [m|]] k']| |] eqn:E; [|vm_compute in E; discriminate E..].
  assert (r = IPC_OK /\ data_size m = 0) as [-> Hz] by (vm_compute in E; inversion E; split; reflexivity).
  exists m, k'. split; [reflexivity|].
  assert (call_ok 1 (CPortRecv 1 (Some 1) (stale_msg 0) true) notified) as Hok.
  { split; [split; reflexivity|]. intros p t (_ & c & _ & _ & Hp) v sid l Hin.
    rewrite (notified_empty _ p Hp) in Hin. discriminate Hin. }
  specialize (Hl Hok m eq_refl). rewrite Hz in Hl. exact Hl.
Defined.
