(* ===== verification/VmMap.v ===== *)
(** * Address maps (mk/vm/vm_map.c, mk/include/vm_object.h)

    A [vm_map] is an array of entries kept sorted by start address, of which
    the first [entry_count] are in use; the rest of the array is whatever the
    heap block held.  Retaining and releasing memory objects is recorded as a
    list of reference events in program order; what the two calls do to an
    object is modelled in VmObject.v. *)

From stdpp Require Import base numbers list gmap sets.
From Stdlib Require Import ZArith Lia.
From S2P Require Import Prelude.

#[local] Open Scope Z_scope.

Definition PAGE_SIZE : Z := 4096.
Definition VM_MAP_INIT_CAPACITY : Z := 64.
Definition VM_MAP_MAX_CAPACITY : Z := 65536.
Definition VM_PROT_READ : Z := Z.shiftl 1 0.
Definition VM_PROT_WRITE : Z := Z.shiftl 1 1.
Definition EAGAIN : Z := 11.

Record vm_entry := VmEntry {
  e_start : Z;
  e_end : Z;
  e_obj : Z;
  e_off : Z;
  e_prot : Z;
  e_inherit : Z;
}.

Record vm_map := VmMap {
  entries_ptr : Z;
  entries : list vm_entry;
  entry_count : Z;
  max_entries : Z;
  pml4 : Z;
}.

Inductive ref_event := Retain (obj : Z) | Release (obj : Z).

Definition sizeof_vm_entry : Z := 40.

Definition set_entries (es : list vm_entry) (n : Z) (m : vm_map) : vm_map :=
  VmMap (entries_ptr m) es n (max_entries m) (pml4 m).

Definition entry_overlaps (e : vm_entry) (start end_ : Z) : bool :=
  (e_start e <? end_) && (start <? e_end e).

(** [for (i = entry_count; i > index; i--) entries[i] = entries[i - 1];] with
    [n] iterations left. *)
Fixpoint shift_right_loop (n : nat) (i : Z) (es : list vm_entry) : out (list vm_entry) :=
  match n with
  | O => Ret es
  | S n =>
      x ← rd es (i - 1);
      es ← wr es i x;
      shift_right_loop n (i - 1) es
  end.

Definition entries_shift_right (m : vm_map) (index : Z) : out vm_map :=
  es ← shift_right_loop (Z.to_nat (entry_count m - index)) (entry_count m) (entries m);
  Ret (set_entries es (entry_count m) m).

(** [for (i = index; i < entry_count - 1; i++) entries[i] = entries[i + 1];] *)
Fixpoint shift_left_loop (n : nat) (i : Z) (es : list vm_entry) : out (list vm_entry) :=
  match n with
  | O => Ret es
  | S n =>
      x ← rd es (i + 1);
      es ← wr es i x;
      shift_left_loop n (i + 1) es
  end.

Definition entries_shift_left (m : vm_map) (index : Z) : out vm_map :=
  es ← shift_left_loop (Z.to_nat (entry_count m - 1 - index)) index (entries m);
  Ret (set_entries es (entry_count m - 1) m).

Section ops.
Context {H : Type} `{!KMem H}.
(** Fresh kmalloc contents; the user half of the address space. *)
Context (junk : nat -> vm_entry) (USER_BASE USER_STACK_TOP : Z).

Definition vm_map_grow (m : vm_map) (h : H) : out (Z * vm_map * H) :=
  let new_cap := if max_entries m <? VM_MAP_INIT_CAPACITY
                 then VM_MAP_INIT_CAPACITY else max_entries m * 2 in
  if VM_MAP_MAX_CAPACITY <? new_cap then Ret (-1, m, h)
  else
    match kmalloc (new_cap * sizeof_vm_entry) h with
    | (None, h) => Ret (-1, m, h)
    | (Some p, h) =>
        es ← memcpy_arr (fresh_arr junk new_cap) (entries m) (entry_count m);
        let h := kfree (entries_ptr m) h in
        Ret (0, VmMap p es (entry_count m) new_cap (pml4 m), h)
    end.

(** [while (entry_count + extra > max_entries) grow]: each turn doubles the
    capacity up to VM_MAP_MAX_CAPACITY, so 17 turns are more than enough. *)
Fixpoint ensure_loop (fuel : nat) (m : vm_map) (extra : Z) (h : H) : out (Z * vm_map * H) :=
  match fuel with
  | O => Hang
  | S fuel =>
      if max_entries m <? entry_count m + extra then
        '(r, m, h) ← vm_map_grow m h;
        if r <? 0 then Ret (-1, m, h) else ensure_loop fuel m extra h
      else Ret (0, m, h)
  end.

Definition vm_map_ensure_capacity (m : vm_map) (extra : Z) (h : H) : out (Z * vm_map * H) :=
  ensure_loop 17 m extra h.

Definition vm_map_init (pml4 : Z) (h : H) : Z * option vm_map * H :=
  if pml4 =? 0 then (-1, None, h)
  else
    match kmalloc (VM_MAP_INIT_CAPACITY * sizeof_vm_entry) h with
    | (None, h) => (-1, None, h)
    | (Some p, h) =>
        (0, Some (VmMap p (replicate (Z.to_nat VM_MAP_INIT_CAPACITY) (VmEntry 0 0 0 0 0 0)) 0
                    VM_MAP_INIT_CAPACITY pml4), h)
    end.

Fixpoint release_loop (n : nat) (i : Z) (es : list vm_entry) : out (list ref_event) :=
  match n with
  | O => Ret []
  | S n =>
      e ← rd es i;
      evs ← release_loop n (i + 1) es;
      Ret (if e_obj e =? 0 then evs else Release (e_obj e) :: evs)
  end.

Definition vm_map_destroy (m : vm_map) (h : H) : out (list ref_event * vm_map * H) :=
  evs ← release_loop (Z.to_nat (entry_count m)) 0 (entries m);
  Ret (evs, VmMap 0 [] 0 0 (pml4 m), kfree (entries_ptr m) h).

(** ** Mapping *)

Fixpoint any_overlap (n : nat) (i : Z) (es : list vm_entry) (addr end_ : Z) : out bool :=
  match n with
  | O => Ret false
  | S n =>
      e ← rd es i;
      if entry_overlaps e addr end_ then Ret true else any_overlap n (i + 1) es addr end_
  end.

(** The first index whose entry starts above [addr], else [i + n]. *)
Fixpoint insert_idx (n : nat) (i : Z) (es : list vm_entry) (addr : Z) : out Z :=
  match n with
  | O => Ret i
  | S n =>
      e ← rd es i;
      if addr <? e_start e then Ret i else insert_idx n (i + 1) es addr
  end.

Definition vm_map_map (m : vm_map) (addr obj obj_offset size prot inherit : Z) (h : H) :
    out (Z * list ref_event * vm_map * H) :=
  if (obj =? 0) || (size =? 0) then Ret (-1, [], m, h)
  else if negb (Z.land addr (PAGE_SIZE - 1) =? 0) then Ret (-1, [], m, h)
  else if negb (Z.land obj_offset (PAGE_SIZE - 1) =? 0) then Ret (-1, [], m, h)
  else if negb (Z.land size (PAGE_SIZE - 1) =? 0) then Ret (-1, [], m, h)
  else
    let end_ := u64 (addr + size) in
    if end_ <? addr then Ret (-1, [], m, h)
    else if addr <? USER_BASE then Ret (-1, [], m, h)
    else if USER_STACK_TOP <? end_ then Ret (-1, [], m, h)
    else
      ov ← any_overlap (Z.to_nat (entry_count m)) 0 (entries m) addr end_;
      if (ov : bool) then Ret (-1, [], m, h)
      else
        '(r, m, h) ← vm_map_ensure_capacity m 1 h;
        if r <? 0 then Ret (-1, [], m, h)
        else
          idx ← insert_idx (Z.to_nat (entry_count m)) 0 (entries m) addr;
          m ← entries_shift_right m idx;
          es ← wr (entries m) idx (VmEntry addr end_ obj obj_offset prot inherit);
          Ret (0, [Retain obj], set_entries es (entry_count m + 1) m, h).

(** ** Unmapping *)

(** [e] was taken as [&map->entries[i]] before the array may have been
    replaced: using it afterwards is undefined unless the array is still the
    same block. *)
Definition entry_alive (m m' : vm_map) : out unit :=
  if entries_ptr m' =? entries_ptr m then Ret tt else UB.

(** [entries_shift_right(map, i + 1); entries[i + 1] = frag; entry_count++],
    after writing the changed entry [e] back. *)
Definition insert_after (m : vm_map) (i : Z) (e frag : vm_entry) : out vm_map :=
  es ← wr (entries m) i e;
  m ← entries_shift_right (set_entries es (entry_count m) m) (i + 1);
  es ← wr (entries m) (i + 1) frag;
  Ret (set_entries es (entry_count m + 1) m).

Fixpoint unmap_loop (fuel : nat) (i addr end_ : Z) (m : vm_map) (h : H) (evs : list ref_event) :
    out (Z * list ref_event * vm_map * H) :=
  match fuel with
  | O => Hang
  | S fuel =>
      if negb (i <? entry_count m) then Ret (0, evs, m, h)
      else
        e ← rd (entries m) i;
        if negb (entry_overlaps e addr end_) then unmap_loop fuel (i + 1) addr end_ m h evs
        else if (addr <=? e_start e) && (e_end e <=? end_) then
          m ← entries_shift_left m i;
          unmap_loop fuel i addr end_ m h
            (evs ++ if e_obj e =? 0 then [] else [Release (e_obj e)])
        else if (addr <=? e_start e) && (end_ <? e_end e) then
          es ← wr (entries m) i (VmEntry end_ (e_end e) (e_obj e)
                                   (u64 (e_off e + (end_ - e_start e))) (e_prot e) (e_inherit e));
          unmap_loop fuel (i + 1) addr end_ (set_entries es (entry_count m) m) h evs
        else if (e_start e <? addr) && (e_end e <=? end_) then
          es ← wr (entries m) i (VmEntry (e_start e) addr (e_obj e) (e_off e) (e_prot e) (e_inherit e));
          unmap_loop fuel (i + 1) addr end_ (set_entries es (entry_count m) m) h evs
        else
          '(r, m', h) ← vm_map_ensure_capacity m 1 h;
          if r <? 0 then Ret (-1, evs, m', h)
          else
            _ ← entry_alive m m';
            let right := VmEntry end_ (e_end e) (e_obj e) (u64 (e_off e + (end_ - e_start e)))
                           (e_prot e) (e_inherit e) in
            m ← insert_after m' i
                  (VmEntry (e_start e) addr (e_obj e) (e_off e) (e_prot e) (e_inherit e)) right;
            unmap_loop fuel (i + 2) addr end_ m h
              (evs ++ if e_obj e =? 0 then [] else [Retain (e_obj e)])
  end.

Definition vm_map_unmap (m : vm_map) (addr size : Z) (h : H) :
    out (Z * list ref_event * vm_map * H) :=
  if size =? 0 then Ret (-1, [], m, h)
  else
    let end_ := u64 (addr + size) in
    if end_ <? addr then Ret (-1, [], m, h)
    else unmap_loop (S (Z.to_nat (entry_count m))) 0 addr end_ m h [].

(** ** Changing the protection *)

Fixpoint protect_loop (fuel : nat) (i addr end_ prot : Z) (m : vm_map) (h : H)
    (evs : list ref_event) : out (Z * list ref_event * vm_map * H) :=
  match fuel with
  | O => Hang
  | S fuel =>
      if negb (i <? entry_count m) then Ret (0, evs, m, h)
      else
        e ← rd (entries m) i;
        let retain := if e_obj e =? 0 then [] else [Retain (e_obj e)] in
        if negb (entry_overlaps e addr end_) then protect_loop fuel (i + 1) addr end_ prot m h evs
        else if (addr <=? e_start e) && (e_end e <=? end_) then
          es ← wr (entries m) i (VmEntry (e_start e) (e_end e) (e_obj e) (e_off e) prot (e_inherit e));
          protect_loop fuel (i + 1) addr end_ prot (set_entries es (entry_count m) m) h evs
        else if (addr <=? e_start e) && (end_ <? e_end e) then
          '(r, m', h) ← vm_map_ensure_capacity m 1 h;
          if r <? 0 then Ret (-1, evs, m', h)
          else
            _ ← entry_alive m m';
            m ← insert_after m' i
                  (VmEntry (e_start e) end_ (e_obj e) (e_off e) prot (e_inherit e))
                  (VmEntry end_ (e_end e) (e_obj e) (u64 (e_off e + (end_ - e_start e)))
                     (e_prot e) (e_inherit e));
            protect_loop fuel (i + 2) addr end_ prot m h (evs ++ retain)
        else if (e_start e <? addr) && (e_end e <=? end_) then
          '(r, m', h) ← vm_map_ensure_capacity m 1 h;
          if r <? 0 then Ret (-1, evs, m', h)
          else
            _ ← entry_alive m m';
            m ← insert_after m' i
                  (VmEntry addr (e_end e) (e_obj e) (u64 (e_off e + (addr - e_start e))) prot
                     (e_inherit e))
                  (VmEntry (e_start e) addr (e_obj e) (e_off e) (e_prot e) (e_inherit e));
            protect_loop fuel (i + 2) addr end_ prot m h (evs ++ retain)
        else
          '(r, m', h) ← vm_map_ensure_capacity m 2 h;
          if r <? 0 then Ret (-1, evs, m', h)
          else
            _ ← entry_alive m m';
            es ← wr (entries m') i
                   (VmEntry (e_start e) addr (e_obj e) (e_off e) (e_prot e) (e_inherit e));
            m ← entries_shift_right (set_entries es (entry_count m') m') (i + 1);
            m ← entries_shift_right m (i + 2);
            es ← wr (entries m) (i + 1)
                   (VmEntry addr end_ (e_obj e) (u64 (e_off e + (addr - e_start e))) prot
                      (e_inherit e));
            es ← wr es (i + 2)
                   (VmEntry end_ (e_end e) (e_obj e) (u64 (e_off e + (end_ - e_start e)))
                      (e_prot e) (e_inherit e));
            protect_loop fuel (i + 3) addr end_ prot (set_entries es (entry_count m + 2) m) h
              (evs ++ retain ++ retain)
  end.

Definition vm_map_protect (m : vm_map) (addr size prot : Z) (h : H) :
    out (Z * list ref_event * vm_map * H) :=
  if size =? 0 then Ret (-1, [], m, h)
  else
    let end_ := u64 (addr + size) in
    if end_ <? addr then Ret (-1, [], m, h)
    else protect_loop (S (Z.to_nat (entry_count m))) 0 addr end_ prot m h [].

End ops.

(** ** Lookup *)

(** The binary search, on fuel; [hi - lo] halves at each turn. *)
Fixpoint find_loop (fuel : nat) (lo hi best addr : Z) (es : list vm_entry) : out Z :=
  match fuel with
  | O => Hang
  | S fuel =>
      if negb (lo <=? hi) then Ret best
      else
        let mid := lo + Z.quot (hi - lo) 2 in
        e ← rd es mid;
        if e_start e <=? addr
        then find_loop fuel (mid + 1) hi mid addr es
        else find_loop fuel lo (mid - 1) best addr es
  end.

(** The index of the entry; [None] for NULL. *)
Definition vm_map_find_entry (m : vm_map) (addr : Z) : out (option Z) :=
  if entry_count m <=? 0 then Ret None
  else
    best ← find_loop (S (Z.to_nat (entry_count m))) 0 (entry_count m - 1) (-1) addr (entries m);
    if 0 <=? best then
      e ← rd (entries m) best;
      Ret (if addr <? e_end e then Some best else None)
    else Ret None.

(** [fault obj offset] is the fault handler of the object: the result code
    and the physical page. *)
Definition vm_map_resolve_fault {O : Type} (fault : Z -> Z -> bool -> O -> out (Z * Z * O))
    (m : vm_map) (fault_addr : Z) (write_fault : bool) (o : O) : out (Z * option Z * O) :=
  idx ← vm_map_find_entry m fault_addr;
  match idx with
  | None => Ret (-1, None, o)
  | Some i =>
      e ← rd (entries m) i;
      let required := if write_fault then VM_PROT_WRITE else VM_PROT_READ in
      if Z.land (e_prot e) required =? 0 then Ret (-1, None, o)
      else
        let offset := u64 (fault_addr - e_start e + e_off e) in
        let offset := Z.land offset (Z.lnot (PAGE_SIZE - 1)) in
        '(ret, phys, o) ← fault (e_obj e) offset write_fault o;
        if ret =? 0 then Ret (0, Some phys, o)
        else if ret =? - EAGAIN then Ret (- EAGAIN, None, o)
        else Ret (-1, None, o)
  end.

(** ** The used entries as a list *)

Definition used (m : vm_map) : list vm_entry := take (Z.to_nat (entry_count m)) (entries m).

Record map_shape (m : vm_map) : Prop := {
  ms_len : Z.of_nat (length (entries m)) = max_entries m;
  ms_count : 0 <= entry_count m <= max_entries m;
  ms_max : VM_MAP_INIT_CAPACITY <= max_entries m <= VM_MAP_MAX_CAPACITY;
}.

Lemma length_used m : map_shape m -> length (used m) = Z.to_nat (entry_count m).
Proof. intros [? ? ?]. unfold used. rewrite length_take. lia. Qed.

Lemma used_lookup m i :
  map_shape m -> (i < Z.to_nat (entry_count m))%nat -> used m !! i = entries m !! i.
Proof. intros. unfold used. by apply lookup_take_lt. Qed.

Lemma rd_used m i e :
  map_shape m -> used m !! i = Some e -> rd (entries m) (Z.of_nat i) = Ret e.
Proof.
  intros Hm Hi. pose proof (lookup_lt_Some _ _ _ Hi) as Hlt. rewrite length_used in Hlt by done.
  apply rd_getz. rewrite getz_of_nat. rewrite <- used_lookup by done. done.
Qed.

Lemma shift_right_spec n : forall (i : nat) es,
  (n <= i < length es)%nat ->
  returns (shift_right_loop n (Z.of_nat i) es) (fun es' =>
    length es' = length es /\
    forall j, es' !! j = if decide (i - n < j <= i)%nat then es !! (j - 1)%nat else es !! j).
Proof.
  induction n as [|n IH]; intros i es Hi.
  { split; [done|]. intros j. by rewrite decide_False by lia. }
  cbn [shift_right_loop]. replace (Z.of_nat i - 1) with (Z.of_nat (i - 1)) by lia.
  destruct (lookup_lt_is_Some_2 es (i - 1)) as [x Hx]; [lia|].
  rewrite (rd_getz _ _ x) by (by rewrite getz_of_nat). cbn [mbind out_bind].
  rewrite wr_ok by lia. cbn [mbind out_bind]. rewrite Nat2Z.id.
  eapply returns_mono; [apply IH; rewrite length_insert; lia|]. intros es' [Hl Hj].
  rewrite length_insert in Hl. split; [done|]. intros j. rewrite Hj.
  destruct (decide (i - 1 - n < j <= i - 1)%nat).
  - rewrite decide_True by lia. rewrite list_lookup_insert_ne by lia. done.
  - destruct (decide (j = i)) as [->|Hne].
    + rewrite decide_True by lia. rewrite list_lookup_insert_eq by lia. done.
    + rewrite decide_False by lia. by rewrite list_lookup_insert_ne.
Qed.

(** Shifting right from [idx] and writing [y] there inserts [y]. *)
Lemma shift_insert m (idx : nat) y :
  map_shape m -> (idx <= Z.to_nat (entry_count m))%nat -> entry_count m < max_entries m ->
  returns (m' ← entries_shift_right m (Z.of_nat idx);
           es ← wr (entries m') (Z.of_nat idx) y;
           Ret (set_entries es (entry_count m' + 1) m')) (fun m' =>
    map_shape m' /\ entries_ptr m' = entries_ptr m /\ max_entries m' = max_entries m /\
    entry_count m' = entry_count m + 1 /\
    used m' = take idx (used m) ++ y :: drop idx (used m)).
Proof.
  intros Hm Hi Hroom. destruct Hm as [Hlen Hc Hmax].
  unfold entries_shift_right.
  pose proof (shift_right_spec (Z.to_nat (entry_count m - Z.of_nat idx)) (Z.to_nat (entry_count m))
                (entries m) ltac:(lia)) as Hs.
  rewrite Z2Nat.id in Hs by lia.
  destruct (shift_right_loop _ _ _) as [es| |]; cbn [mbind out_bind returns] in *; [|done..].
  destruct Hs as [Hl Hj]. cbn [entries set_entries entry_count].
  rewrite wr_ok by lia. cbn [mbind out_bind returns]. rewrite Nat2Z.id.
  split; [split; cbn [entries entry_count max_entries set_entries]; rewrite ?length_insert; lia|].
  split; [done|]. split; [done|]. split; [done|].
  unfold used. cbn [entries entry_count set_entries].
  assert (length (take idx (take (Z.to_nat (entry_count m)) (entries m))) = idx) as Hti
    by (rewrite !length_take; lia).
  apply list_eq. intros j.
  destruct (decide (j < Z.to_nat (entry_count m + 1))%nat) as [Hjl|Hjl].
  - rewrite lookup_take_lt by done. destruct (decide (j = idx)) as [->|Hne].
    + rewrite list_lookup_insert_eq by lia.
      rewrite lookup_app_r, Hti, Nat.sub_diag by lia. done.
    + rewrite list_lookup_insert_ne, Hj by done. destruct (decide (j < idx)%nat).
      * rewrite decide_False by lia. rewrite lookup_app_l by lia.
        rewrite !lookup_take_lt by lia. done.
      * rewrite decide_True by lia. rewrite lookup_app_r, Hti by lia.
        destruct (j - idx)%nat as [|d] eqn:Ed; [lia|]. rewrite lookup_cons, lookup_drop.
        rewrite lookup_take_lt by lia. f_equal. lia.
  - rewrite !lookup_ge_None_2; [done| |];
      rewrite ?length_app, ?length_cons, ?length_drop, ?length_take, ?length_insert; lia.
Qed.

Lemma shift_left_spec n : forall (i : nat) es,
  (i + n < length es)%nat ->
  returns (shift_left_loop n (Z.of_nat i) es) (fun es' =>
    length es' = length es /\
    forall j, es' !! j = if decide (i <= j < i + n)%nat then es !! (S j) else es !! j).
Proof.
  induction n as [|n IH]; intros i es Hi.
  { split; [done|]. intros j. by rewrite decide_False by lia. }
  cbn [shift_left_loop]. replace (Z.of_nat i + 1) with (Z.of_nat (S i)) by lia.
  destruct (lookup_lt_is_Some_2 es (S i)) as [x Hx]; [lia|].
  rewrite (rd_getz _ _ x) by (by rewrite getz_of_nat). cbn [mbind out_bind].
  rewrite wr_ok by lia. cbn [mbind out_bind]. rewrite Nat2Z.id.
  eapply returns_mono; [apply IH; rewrite length_insert; lia|]. intros es' [Hl Hj].
  rewrite length_insert in Hl. split; [done|]. intros j. rewrite Hj.
  destruct (decide (S i <= j < S i + n)%nat).
  - rewrite decide_True by lia. by rewrite list_lookup_insert_ne by lia.
  - destruct (decide (j = i)) as [->|Hne].
    + rewrite decide_True by lia. rewrite list_lookup_insert_eq by lia. done.
    + rewrite decide_False by lia. by rewrite list_lookup_insert_ne.
Qed.

Lemma entries_shift_left_spec m (i : nat) :
  map_shape m -> (i < Z.to_nat (entry_count m))%nat ->
  returns (entries_shift_left m (Z.of_nat i)) (fun m' =>
    map_shape m' /\ entries_ptr m' = entries_ptr m /\ max_entries m' = max_entries m /\
    entry_count m' = entry_count m - 1 /\
    used m' = take i (used m) ++ drop (S i) (used m)).
Proof.
  intros [Hlen Hc Hmax] Hi. unfold entries_shift_left.
  pose proof (shift_left_spec (Z.to_nat (entry_count m - 1 - Z.of_nat i)) i (entries m)
                ltac:(lia)) as Hs.
  destruct (shift_left_loop _ _ _) as [es| |]; cbn [mbind out_bind returns] in *; [|done..].
  destruct Hs as [Hl Hj]. split; [split; cbn; lia|]. split; [done|]. split; [done|].
  split; [done|]. unfold used. cbn [entries entry_count set_entries].
  assert (length (take i (take (Z.to_nat (entry_count m)) (entries m))) = i) as Hti
    by (rewrite !length_take; lia).
  apply list_eq. intros j. destruct (decide (j < Z.to_nat (entry_count m - 1))%nat).
  - rewrite lookup_take_lt, Hj by done. destruct (decide (j < i)%nat).
    + rewrite decide_False, lookup_app_l, !lookup_take_lt by lia. done.
    + rewrite decide_True, lookup_app_r, Hti, lookup_drop, lookup_take_lt by lia. f_equal. lia.
  - rewrite !lookup_ge_None_2; [done| |];
      rewrite ?length_app, ?length_drop, ?length_take; lia.
Qed.

Lemma write_used m (i : nat) e :
  map_shape m -> (i < Z.to_nat (entry_count m))%nat ->
  exists es, wr (entries m) (Z.of_nat i) e = Ret es /\
    let m' := set_entries es (entry_count m) m in
    map_shape m' /\ used m' = take i (used m) ++ e :: drop (S i) (used m).
Proof.
  intros [Hlen Hc Hmax] Hi. rewrite wr_ok by lia. eexists. split; [done|]. rewrite Nat2Z.id.
  split; [split; cbn; rewrite ?length_insert; lia|]. unfold used. cbn [entries entry_count set_entries].
  rewrite take_insert_lt by done. rewrite insert_take_drop by (rewrite length_take; lia). done.
Qed.

Lemma insert_after_spec m (i : nat) e frag :
  map_shape m -> (i < Z.to_nat (entry_count m))%nat -> entry_count m < max_entries m ->
  returns (insert_after m (Z.of_nat i) e frag) (fun m' =>
    map_shape m' /\ entries_ptr m' = entries_ptr m /\ max_entries m' = max_entries m /\
    entry_count m' = entry_count m + 1 /\
    used m' = take i (used m) ++ e :: frag :: drop (S i) (used m)).
Proof.
  intros Hm Hi Hroom. unfold insert_after.
  destruct (write_used m i e Hm Hi) as (es & -> & Hm1 & Hu1). cbn [mbind out_bind].
  replace (Z.of_nat i + 1) with (Z.of_nat (S i)) by lia.
  eapply returns_mono; [apply (shift_insert _ (S i) frag Hm1); cbn; lia|].
  intros m' (Hm' & Hp & Hx & Hc & Hu). split; [done|]. split; [done|]. split; [done|].
  split; [done|]. rewrite Hu, Hu1.
  assert (length (take i (used m)) = i) as Hl by (rewrite length_take, length_used by done; lia).
  rewrite take_app_ge, drop_app_ge, Hl by lia. replace (S i - i)%nat with 1%nat by lia.
  cbn [take drop]. rewrite <- app_assoc. done.
Qed.

Lemma used_split m i e :
  used m !! i = Some e -> used m = take i (used m) ++ e :: drop (S i) (used m).
Proof. intros. symmetry. by apply take_drop_middle. Qed.

(** ** What a list of entries maps

    The object, offset, protection and inheritance of the first entry that
    contains the address. *)
Definition covers (e : vm_entry) (a : Z) : bool := (e_start e <=? a) && (a <? e_end e).

Definition view (e : vm_entry) (a : Z) : Z * Z * Z * Z :=
  (e_obj e, u64 (e_off e + (a - e_start e)), e_prot e, e_inherit e).

Fixpoint translate (l : list vm_entry) (a : Z) : option (Z * Z * Z * Z) :=
  match l with
  | [] => None
  | e :: l => if covers e a then Some (view e a) else translate l a
  end.

Lemma translate_app l1 l2 a :
  translate (l1 ++ l2) a =
    match translate l1 a with Some v => Some v | None => translate l2 a end.
Proof. induction l1 as [|e l1 IH]; simpl; [done|]. by destruct (covers e a). Qed.

(** Entries in order of their addresses, apart from each other, from [lo] on. *)
Fixpoint ordered (lo : Z) (l : list vm_entry) : Prop :=
  match l with
  | [] => True
  | e :: l => lo <= e_start e /\ e_start e < e_end e /\ e_end e < 2 ^ 64 /\ ordered (e_end e) l
  end.

Definition map_wf (m : vm_map) : Prop := map_shape m /\ ordered 0 (used m).

Lemma ordered_weaken lo lo' l : lo' <= lo -> ordered lo l -> ordered lo' l.
Proof. destruct l as [|e l]; simpl; [done|]. intros ? (? & ? & ?). split; [lia|done]. Qed.

Lemma ordered_app lo l1 l2 :
  ordered lo (l1 ++ l2) <-> ordered lo l1 /\ ordered (default lo (e_end <$> last l1)) l2.
Proof.
  revert lo. induction l1 as [|e l1 IH]; intros lo; simpl; [tauto|].
  rewrite IH, last_cons. destruct (last l1); simpl; tauto.
Qed.

Lemma ordered_none lo l a : ordered lo l -> a < lo -> translate l a = None.
Proof.
  revert lo. induction l as [|e l IH]; intros lo Ho Ha; simpl; [done|].
  destruct Ho as (? & ? & ? & Ho). unfold covers. rewrite (proj2 (Z.leb_gt (e_start e) a)) by lia.
  simpl. apply (IH (e_end e)); [done|lia].
Qed.

(** ** Unmapping on lists *)

Definition left_part (e : vm_entry) (addr : Z) : vm_entry :=
  VmEntry (e_start e) addr (e_obj e) (e_off e) (e_prot e) (e_inherit e).
Definition right_part (e : vm_entry) (end_ : Z) : vm_entry :=
  VmEntry end_ (e_end e) (e_obj e) (u64 (e_off e + (end_ - e_start e))) (e_prot e) (e_inherit e).

(** What is left of an entry when [addr, end_) is removed. *)
Definition cut (addr end_ : Z) (e : vm_entry) : list vm_entry :=
  if negb (entry_overlaps e addr end_) then [e]
  else (if e_start e <? addr then [left_part e addr] else []) ++
       (if end_ <? e_end e then [right_part e end_] else []).

(** The range lies strictly inside the entry. *)
Definition inside (addr end_ : Z) (e : vm_entry) : bool :=
  (e_start e <? addr) && (end_ <? e_end e).

Lemma u64_add_sub off x y z : u64 (u64 (off + (y - x)) + (z - y)) = u64 (off + (z - x)).
Proof. unfold u64. rewrite Zplus_mod_idemp_l. f_equal. lia. Qed.

Lemma translate_cut addr end_ e a :
  addr < end_ ->
  translate (cut addr end_ e) a =
    if (addr <=? a) && (a <? end_) then None else translate [e] a.
Proof.
  intros Hlt. unfold cut, entry_overlaps. cbn [translate].
  destruct (Z.ltb_spec (e_start e) end_), (Z.ltb_spec addr (e_end e)); cbn [andb negb].
  2-4: cbn [translate]; unfold covers;
    destruct (Z.leb_spec addr a), (Z.ltb_spec a end_), (Z.leb_spec (e_start e) a),
      (Z.ltb_spec a (e_end e)); cbn; done || lia.
  rewrite translate_app.
  destruct (Z.ltb_spec (e_start e) addr), (Z.ltb_spec end_ (e_end e)); cbn [translate];
    unfold covers, left_part, right_part; cbn [e_start e_end];
    destruct (Z.leb_spec addr a), (Z.ltb_spec a end_), (Z.leb_spec (e_start e) a),
      (Z.ltb_spec a (e_end e)); cbn [andb];
    repeat match goal with
    | |- context [?x <=? ?y] => destruct (Z.leb_spec x y); cbn [andb]
    | |- context [?x <? ?y] => destruct (Z.ltb_spec x y); cbn [andb]
    end; try lia; try done;
    unfold view; cbn [e_obj e_off e_start e_prot e_inherit]; rewrite ?u64_add_sub; done.
Qed.

Lemma translate_unmap addr end_ l a :
  addr < end_ ->
  translate (l ≫= cut addr end_) a =
    if (addr <=? a) && (a <? end_) then None else translate l a.
Proof.
  intros Hlt. induction l as [|e l IH].
  { simpl. by destruct (_ && _). }
  rewrite bind_cons, translate_app, translate_cut, IH by done. cbn [translate].
  destruct ((addr <=? a) && (a <? end_)); [done|]. by destruct (covers e a).
Qed.

Lemma ordered_cut lo addr end_ e l :
  0 <= addr < end_ -> ordered lo (e :: l) -> ordered lo (cut addr end_ e) /\
  (forall x, x ∈ cut addr end_ e -> e_end x <= e_end e).
Proof.
  intros Hr (H1 & H2 & H3 & _). unfold cut, entry_overlaps.
  destruct (Z.ltb_spec (e_start e) end_), (Z.ltb_spec addr (e_end e)); cbn [andb negb];
    [|split; [done|]; by intros x ->%list_elem_of_singleton..].
  destruct (Z.ltb_spec (e_start e) addr), (Z.ltb_spec end_ (e_end e)); cbn; unfold left_part, right_part;
    (split; [cbn; lia|]; intros x Hx; set_unfold; destruct_or?; subst; cbn; lia || done).
Qed.

Lemma ordered_unmap lo addr end_ l :
  0 <= addr < end_ -> ordered lo l -> ordered lo (l ≫= cut addr end_).
Proof.
  intros Hr. revert lo. induction l as [|e l IH]; intros lo Ho; [done|].
  rewrite bind_cons. destruct (ordered_cut lo addr end_ e l Hr Ho) as [Hc Hend].
  destruct Ho as (? & ? & ? & Ho). apply ordered_app. split; [done|].
  apply (ordered_weaken (e_end e)); [|by apply IH].
  destruct (last (cut addr end_ e)) as [x|] eqn:El; simpl; [|lia].
  apply Hend. apply last_Some in El as [l' ->]. set_solver.
Qed.

(** ** References held by the entries *)

Fixpoint refs (o : Z) (l : list vm_entry) : Z :=
  match l with [] => 0 | e :: l => (if e_obj e =? o then 1 else 0) + refs o l end.

Fixpoint balance (o : Z) (evs : list ref_event) : Z :=
  match evs with
  | [] => 0
  | Retain x :: evs => (if x =? o then 1 else 0) + balance o evs
  | Release x :: evs => (if x =? o then -1 else 0) + balance o evs
  end.

Lemma refs_app o l1 l2 : refs o (l1 ++ l2) = refs o l1 + refs o l2.
Proof. induction l1 as [|e l1 IH]; simpl; lia. Qed.

Lemma balance_app o l1 l2 : balance o (l1 ++ l2) = balance o l1 + balance o l2.
Proof. induction l1 as [|[x|x] l1 IH]; simpl; lia. Qed.

(** The events account for the entries: from [l] to [l'] each object gained
    as many entries as it was retained more often than released. *)
Definition accounted (l l' : list vm_entry) (evs : list ref_event) : Prop :=
  forall o, o <> 0 -> refs o l' = refs o l + balance o evs.

Section unmap.
Context {H : Type} `{!KMem H, !KMemLaws H}.
Context (junk : nat -> vm_entry) (USER_BASE USER_STACK_TOP : Z).

Lemma ensure_room m extra (h : H) :
  entry_count m + extra <= max_entries m ->
  vm_map_ensure_capacity junk m extra h = Ret (0, m, h).
Proof.
  intros Hr. unfold vm_map_ensure_capacity. cbn [ensure_loop].
  destruct (Z.ltb_spec (max_entries m) (entry_count m + extra)); [lia|done].
Qed.

(** The postcondition of a loop that rewrites each entry from index [i] on
    with [g]. *)
Definition loop_post (g : vm_entry -> list vm_entry) (i : nat) (m : vm_map) (h : H)
    (evs : list ref_event)
    (res : Z * list ref_event * vm_map * H) : Prop :=
  let '(r, evs', m', h') := res in
  r = 0 /\ h' = h /\ map_shape m' /\ entries_ptr m' = entries_ptr m /\
  max_entries m' = max_entries m /\
  used m' = take i (used m) ++ (drop i (used m) ≫= g) /\
  exists evs1, evs' = evs ++ evs1 /\ accounted (used m) (used m') evs1.

(** [m1] is [m] with the entry at [i] replaced by [new]. *)
Record replaced (m m1 : vm_map) (i : nat) (new : list vm_entry) : Prop := {
  rp_shape : map_shape m1;
  rp_ptr : entries_ptr m1 = entries_ptr m;
  rp_max : max_entries m1 = max_entries m;
  rp_used : used m1 = take i (used m) ++ new ++ drop (S i) (used m);
}.

Lemma replaced_facts m m1 i new e :
  map_shape m -> used m !! i = Some e -> replaced m m1 i new ->
  (Z.to_nat (entry_count m1) + 1 = Z.to_nat (entry_count m) + length new)%nat /\
  (i < Z.to_nat (entry_count m))%nat /\
  take (i + length new) (used m1) = take i (used m) ++ new /\
  drop (i + length new) (used m1) = drop (S i) (used m).
Proof.
  intros Hm He [Hm1 _ _ Hu]. pose proof (lookup_lt_Some _ _ _ He) as Hlt.
  pose proof (length_used m Hm) as Hl. pose proof (length_used m1 Hm1) as Hl1.
  assert (length (take i (used m)) = i) as Hti by (rewrite length_take; lia).
  rewrite Hu, !length_app, length_drop, Hti in Hl1.
  split; [lia|]. split; [lia|].
  rewrite Hu, app_assoc, take_app_length', drop_app_length' by (rewrite length_app; lia). done.
Qed.

Lemma loop_resume g (i : nat) m (h : H) evs e new ev1 m1 res :
  map_shape m -> used m !! i = Some e -> replaced m m1 i new -> new = g e ->
  (forall o, o <> 0 -> refs o new = refs o [e] + balance o ev1) ->
  loop_post g (i + length new) m1 h (evs ++ ev1) res ->
  loop_post g i m h evs res.
Proof.
  intros Hm He Hrep Hnew Hbal. destruct (replaced_facts m m1 i new e Hm He Hrep) as (_ & _ & Ht & Hd).
  destruct Hrep as [Hm1 Hp1 Hx1 Hu1]. destruct res as [[[r evs'] m'] h'].
  intros (-> & -> & Hm' & Hp' & Hx' & Hu' & evs1 & -> & Hacc).
  rewrite Hd, Ht in Hu'. split; [done|]. split; [done|]. split; [done|].
  split; [congruence|]. split; [congruence|]. split.
  - rewrite Hu', (drop_S _ _ _ He), bind_cons, <- Hnew, app_assoc. done.
  - exists (ev1 ++ evs1). split; [by rewrite app_assoc|]. intros o Ho.
    assert (refs o (used m) = refs o (take i (used m)) + (refs o [e] + refs o (drop (S i) (used m))))
      as HU by (rewrite (used_split m i e He) at 1; rewrite refs_app; simpl; lia).
    rewrite (Hacc o Ho), balance_app, Hu1, !refs_app, (Hbal o Ho), HU. lia.
Qed.

Lemma write_replaced m (i : nat) :
  map_shape m -> (i < Z.to_nat (entry_count m))%nat ->
  forall e', exists es, wr (entries m) (Z.of_nat i) e' = Ret es /\
    replaced m (set_entries es (entry_count m) m) i [e'].
Proof. intros Hm Hi e'. destruct (write_used m i e' Hm Hi) as (es & E & Hm1 & Hu1). by exists es. Qed.

Lemma loop_done g (i : nat) m (h : H) evs :
  map_shape m -> entry_count m <= Z.of_nat i -> loop_post g i m h evs (0, evs, m, h).
Proof.
  intros Hm Hi. pose proof (ms_count _ Hm). repeat (split; [done|]).
  rewrite take_ge, drop_ge by (rewrite length_used by done; lia).
  cbn. rewrite app_nil_r. split; [done|]. exists []. rewrite app_nil_r. split; [done|].
  intros o Ho. simpl. lia.
Qed.

Lemma cut_cases addr end_ e :
  addr < end_ ->
  cut addr end_ e =
    if negb (entry_overlaps e addr end_) then [e]
    else if (addr <=? e_start e) && (e_end e <=? end_) then []
    else if (addr <=? e_start e) && (end_ <? e_end e) then [right_part e end_]
    else if (e_start e <? addr) && (e_end e <=? end_) then [left_part e addr]
    else [left_part e addr; right_part e end_].
Proof.
  intros Hlt. unfold cut, entry_overlaps.
  destruct (Z.ltb_spec (e_start e) end_), (Z.ltb_spec addr (e_end e)); cbn [andb negb]; [|done..].
  destruct (Z.ltb_spec (e_start e) addr), (Z.leb_spec addr (e_start e)),
    (Z.ltb_spec end_ (e_end e)), (Z.leb_spec (e_end e) end_); cbn; done || lia.
Qed.

Lemma refs_one o e l : refs o (e :: l) = refs o [e] + refs o l.
Proof. simpl. lia. Qed.

Lemma refs_part o e x :
  refs o [left_part e x] = refs o [e] /\ refs o [right_part e x] = refs o [e].
Proof. done. Qed.

Lemma event_balance o e :
  o <> 0 -> balance o (if e_obj e =? 0 then [] else [Release (e_obj e)]) = - refs o [e] /\
  balance o (if e_obj e =? 0 then [] else [Retain (e_obj e)]) = refs o [e].
Proof.
  intros Ho. destruct (Z.eqb_spec (e_obj e) 0) as [E|E]; simpl.
  - rewrite E. destruct (Z.eqb_spec 0 o); [congruence|done].
  - destruct (e_obj e =? o); done.
Qed.

Lemma unmap_loop_spec fuel : forall (i : nat) addr end_ m (h : H) evs,
  map_shape m -> addr < end_ -> (i <= Z.to_nat (entry_count m))%nat ->
  (Z.to_nat (entry_count m) - i < fuel)%nat ->
  entry_count m + Z.of_nat (length (filter (fun e => inside addr end_ e = true)
                                     (drop i (used m)))) <= max_entries m ->
  returns (unmap_loop junk fuel (Z.of_nat i) addr end_ m h evs) (loop_post (cut addr end_) i m h evs).
Proof.
  induction fuel as [|fuel IH]; intros i addr end_ m h evs Hm Hlt Hi Hf Hroom; [lia|].
  cbn [unmap_loop]. destruct (Z.ltb_spec (Z.of_nat i) (entry_count m)) as [Hic|Hic]; cbn [negb].
  2: { apply loop_done; [done|lia]. }
  destruct (lookup_lt_is_Some_2 (used m) i) as [e He]; [rewrite length_used by done; lia|].
  rewrite (rd_used m i e Hm He). cbn [mbind out_bind].
  rewrite (drop_S (used m) e i He), filter_cons in Hroom.
  pose proof (cut_cases addr end_ e Hlt) as Hcut.
  (* resuming after the current entry became [new] *)
  assert (forall m1 new ev1, replaced m m1 i new -> new = cut addr end_ e ->
    (forall o, o <> 0 -> refs o new = refs o [e] + balance o ev1) ->
    entry_count m1 + Z.of_nat (length (filter (fun e => inside addr end_ e = true)
                                         (drop (S i) (used m)))) <= max_entries m ->
    returns (unmap_loop junk fuel (Z.of_nat (i + length new)) addr end_ m1 h (evs ++ ev1))
      (loop_post (cut addr end_) i m h evs)) as Hrec.
  { intros m1 new ev1 Hrep Hnew Hbal Hroom1.
    destruct (replaced_facts m m1 i new e Hm He Hrep) as (Hc1 & _ & _ & Hd).
    eapply returns_mono; [apply IH; try done; try lia; [apply Hrep|rewrite Hd, (rp_max _ _ _ _ Hrep); done]|].
    intros res. by apply (loop_resume (cut addr end_) i m h evs e new ev1 m1). }
  pose proof (write_replaced m i Hm ltac:(lia)) as Hwr.
  replace (Z.of_nat i + 1) with (Z.of_nat (i + 1)) by lia.
  assert (inside addr end_ e = true -> entry_count m + 1 +
    Z.of_nat (length (filter (fun e => inside addr end_ e = true) (drop (S i) (used m))))
      <= max_entries m) as Hsplit.
  { intros E. rewrite decide_True in Hroom by done. simpl in Hroom. lia. }
  assert (entry_count m +
    Z.of_nat (length (filter (fun e => inside addr end_ e = true) (drop (S i) (used m))))
      <= max_entries m) as Hrest.
  { destruct (decide (inside addr end_ e = true)); [specialize (Hsplit e0)|]; lia. }
  destruct (negb (entry_overlaps e addr end_)) eqn:E1.
  { rewrite <- (app_nil_r evs) at 1. apply (Hrec m [e] []); [|done|intros; simpl; lia|done].
    split; try done. apply (used_split m i e He). }
  destruct ((addr <=? e_start e) && (e_end e <=? end_)) eqn:E2.
  { eapply returns_bind; [apply (entries_shift_left_spec m i Hm); lia|].
    intros m1 (Hm1 & Hp1 & Hx1 & Hc1 & Hu1). rewrite <- (Nat.add_0_r i) at 1.
    apply (Hrec m1 []); [by split|done| |lia].
    intros o Ho. rewrite (proj1 (event_balance o e Ho)). simpl. lia. }
  destruct ((addr <=? e_start e) && (end_ <? e_end e)) eqn:E3.
  { destruct (Hwr (right_part e end_)) as (es & Ewr & Hrep). unfold right_part in Ewr. rewrite Ewr.
    cbn [mbind out_bind]. rewrite <- (app_nil_r evs) at 1.
    apply (Hrec _ [right_part e end_] []); [done|done| |cbn; lia]. intros o Ho. simpl. lia. }
  destruct ((e_start e <? addr) && (e_end e <=? end_)) eqn:E4.
  { destruct (Hwr (left_part e addr)) as (es & Ewr & Hrep). unfold left_part in Ewr. rewrite Ewr.
    cbn [mbind out_bind]. rewrite <- (app_nil_r evs) at 1.
    apply (Hrec _ [left_part e addr] []); [done|done| |cbn; lia]. intros o Ho. simpl. lia. }
  assert (inside addr end_ e = true) as Hin.
  { clear -E2 E3 E4. unfold inside.
    destruct (Z.leb_spec addr (e_start e)), (Z.ltb_spec end_ (e_end e)), (Z.ltb_spec (e_start e) addr),
      (Z.leb_spec (e_end e) end_); simpl in *; done || lia. }
  specialize (Hsplit Hin). rewrite ensure_room by lia. cbn [mbind out_bind Z.ltb Z.compare].
  unfold entry_alive. rewrite Z.eqb_refl. cbn [mbind out_bind].
  eapply returns_bind; [apply (insert_after_spec m i); [done|lia|lia]|].
  intros m1 (Hm1 & Hp1 & Hx1 & Hc1 & Hu1). replace (Z.of_nat i + 2) with (Z.of_nat (i + 2)) by lia.
  apply (Hrec m1 [left_part e addr; right_part e end_]); [by split|done| |lia].
  intros o Ho. rewrite (proj2 (event_balance o e Ho)). simpl. lia.
Qed.

Lemma inside_unique lo addr end_ l :
  ordered lo l -> addr < end_ ->
  (length (filter (fun e => inside addr end_ e = true) l) <= 1)%nat.
Proof.
  revert lo. induction l as [|e l IH]; intros lo Ho Hlt; [simpl; lia|].
  destruct Ho as (? & ? & ? & Ho). rewrite filter_cons. case_decide as Hin; [|by apply (IH (e_end e))].
  enough (filter (fun e => inside addr end_ e = true) l = []) as -> by done.
  unfold inside in Hin. apply andb_true_iff in Hin as [_ Hin%Z.ltb_lt].
  clear IH. assert (end_ < e_end e) as Hlo by done. revert Ho Hlo. generalize (e_end e).
  induction l as [|x l IH]; intros b Ho Hb; [done|]. destruct Ho as (? & ? & ? & Ho).
  rewrite filter_cons, decide_False; [apply (IH (e_end x)); [done|lia]|].
  unfold inside. rewrite (proj2 (Z.ltb_ge _ _)) by lia. done.
Qed.

(** C34: unmapping removes exactly the given range: on a well-formed map with
    a free entry the call terminates with 0, every address outside the range
    keeps its object, offset, protection and inheritance, no address inside
    is mapped, the entries stay sorted and disjoint, and the objects retained
    and released account for the entries gained and lost.  A zero size or a
    range that wraps around is refused without effect. *)
Theorem vm_map_unmap_correct m addr size (h : H) :
  map_wf m -> entry_count m < max_entries m -> in_u64 addr -> in_u64 size ->
  returns (vm_map_unmap junk m addr size h) (fun '(r, evs, m', h') =>
    h' = h /\
    if (size =? 0) || (2 ^ 64 <=? addr + size) then r = -1 /\ m' = m /\ evs = []
    else r = 0 /\ map_wf m' /\ accounted (used m) (used m') evs /\
      forall a, translate (used m') a =
        if (addr <=? a) && (a <? addr + size) then None else translate (used m) a).
Proof.
  intros [Hm Ho] Hroom Ha Hs. unfold in_u64 in *. unfold vm_map_unmap.
  destruct (Z.eqb_spec size 0); [done|]. cbn [orb].
  destruct (Z.leb_spec (2 ^ 64) (addr + size)) as [Hov|Hov].
  - assert (u64 (addr + size) = addr + size - 2 ^ 64) as ->.
    { unfold u64. symmetry. apply (Z.mod_unique _ _ 1); lia. }
    rewrite (proj2 (Z.ltb_lt _ _)) by lia. done.
  - rewrite u64_small by (unfold in_u64; lia). rewrite (proj2 (Z.ltb_ge _ _)) by lia.
    eapply returns_mono.
    + apply (unmap_loop_spec _ 0); [done|lia|lia|lia|]. rewrite drop_0.
      pose proof (inside_unique 0 addr (addr + size) (used m) Ho ltac:(lia)). lia.
    + intros [[[r evs] m'] h'] (-> & -> & Hm' & _ & _ & Hu & evs1 & -> & Hacc).
      cbn [app] in *. rewrite drop_0 in Hu. rewrite take_0 in Hu. cbn [app] in Hu.
      split; [done|]. split; [done|]. split; [split; [done|]|split; [done|]].
      * rewrite Hu. apply ordered_unmap; [lia|done].
      * intros a. rewrite Hu. apply translate_unmap. lia.
Qed.

(** ** Use after free when the table grows *)

Lemma grow_run m (h h1 : H) p :
  map_shape m -> max_entries m * 2 <= VM_MAP_MAX_CAPACITY ->
  kmalloc (max_entries m * 2 * sizeof_vm_entry) h = (Some p, h1) ->
  exists es h2, vm_map_grow junk m h = Ret (0, VmMap p es (entry_count m) (max_entries m * 2) (pml4 m), h2).
Proof.
  intros [Hlen Hc Hmax] Hcap E. unfold vm_map_grow.
  destruct (Z.ltb_spec (max_entries m) VM_MAP_INIT_CAPACITY); [lia|].
  destruct (Z.ltb_spec VM_MAP_MAX_CAPACITY (max_entries m * 2)); [lia|].
  rewrite E, memcpy_arr_ok by (rewrite ?length_fresh_arr; lia). cbn [mbind out_bind]. eauto.
Qed.

(** The loop skips the entries before the one it splits. *)
Lemma unmap_skip fuel : forall (j i : nat) addr end_ m (h : H) evs,
  map_shape m -> (j <= i < Z.to_nat (entry_count m))%nat ->
  (forall k e, (j <= k < i)%nat -> used m !! k = Some e -> entry_overlaps e addr end_ = false) ->
  unmap_loop junk (fuel + (i - j)) (Z.of_nat j) addr end_ m h evs =
  unmap_loop junk fuel (Z.of_nat i) addr end_ m h evs.
Proof.
  intros j i addr end_ m h evs Hm Hj Hno. remember (i - j)%nat as d eqn:Hd.
  revert j Hj Hno Hd. induction d as [|d IH]; intros j Hj Hno Hd.
  { replace j with i by lia. by rewrite Nat.add_0_r. }
  rewrite Nat.add_succ_r. cbn [unmap_loop]. rewrite (proj2 (Z.ltb_lt _ _)) by lia. cbn [negb].
  destruct (lookup_lt_is_Some_2 (used m) j) as [e He]; [rewrite length_used by done; lia|].
  rewrite (rd_used m j e Hm He). cbn [mbind out_bind]. rewrite (Hno j e) by (done || lia). cbn [negb].
  replace (Z.of_nat j + 1) with (Z.of_nat (S j)) by lia. apply IH; [lia| |lia].
  intros k x Hk. apply Hno. lia.
Qed.

Lemma ordered_elem lo l i e :
  ordered lo l -> l !! i = Some e -> lo <= e_start e /\ e_start e < e_end e /\ e_end e < 2 ^ 64.
Proof.
  revert lo i. induction l as [|x l IH]; intros lo i Ho He; [done|].
  destruct Ho as (? & ? & ? & Ho). destruct i as [|i]; [simpl in He; by simplify_eq|].
  destruct (IH (e_end x) i Ho He). lia.
Qed.

Lemma ordered_lookup lo l i j e x :
  ordered lo l -> (i < j)%nat -> l !! i = Some e -> l !! j = Some x -> e_end e <= e_start x.
Proof.
  revert lo i j. induction l as [|y l IH]; intros lo i j Ho Hij He Hx; [done|].
  destruct Ho as (? & ? & ? & Ho). destruct j as [|j]; [lia|]. destruct i as [|i].
  - simpl in He. injection He as ->. clear IH. revert Hx Ho. generalize (e_end e) as b. revert j Hij.
    induction l as [|z l IHl]; intros j Hij b Hx Ho; [done|]. destruct Ho as (? & ? & ? & Ho).
    destruct j as [|j]; [simpl in Hx; injection Hx as ->; lia|].
    transitivity (e_end z); [lia|]. apply (IHl j); [lia|done|done].
  - by apply (IH (e_end y) i j); [|lia|..].
Qed.

(** When the entry table is full, unmapping a range strictly inside an
    entry grows the table and then goes on using the pointer into the old,
    freed array: undefined behaviour whenever the allocation succeeds. *)
Theorem vm_map_unmap_grow_use_after_free m (i : nat) e addr size (h h1 : H) p :
  map_wf m -> kwf h -> entries_ptr m ∈ klive h ->
  entry_count m = max_entries m -> max_entries m * 2 <= VM_MAP_MAX_CAPACITY ->
  kmalloc (max_entries m * 2 * sizeof_vm_entry) h = (Some p, h1) ->
  used m !! i = Some e -> 0 < size -> e_start e < addr -> addr + size < e_end e ->
  vm_map_unmap junk m addr size h = UB.
Proof.
  intros [Hm Ho] Hh Hlive Hfull Hcap Ek He Hs Hlo Hhi. pose proof (ms_max _ Hm) as Hmx.
  destruct (ordered_elem 0 _ i e Ho He) as (H0 & Hse & H64).
  pose proof (lookup_lt_Some _ _ _ He) as Hi. rewrite length_used in Hi by done.
  unfold vm_map_unmap. rewrite (proj2 (Z.eqb_neq _ _)) by lia.
  rewrite u64_small by (unfold in_u64; lia). rewrite (proj2 (Z.ltb_ge _ _)) by lia.
  replace (S (Z.to_nat (entry_count m))) with (S (Z.to_nat (entry_count m) - i) + (i - 0))%nat by lia.
  rewrite (unmap_skip _ 0 i) by (done || lia || intros k x Hk Hx; unfold entry_overlaps;
    pose proof (ordered_lookup 0 _ k i x e Ho ltac:(lia) Hx He);
    rewrite (proj2 (Z.ltb_ge addr (e_end x))) by lia; apply andb_false_r).
  cbn [unmap_loop]. rewrite (proj2 (Z.ltb_lt (Z.of_nat i) _)) by lia. cbn [negb].
  rewrite (rd_used m i e Hm He). cbn [mbind out_bind]. unfold entry_overlaps.
  rewrite (proj2 (Z.ltb_lt (e_start e) (addr + size))), (proj2 (Z.ltb_lt addr (e_end e))) by lia.
  rewrite (proj2 (Z.leb_gt addr (e_start e))), (proj2 (Z.leb_gt (e_end e) (addr + size))) by lia.
  rewrite (proj2 (Z.ltb_lt (e_start e) addr)) by lia. cbn [negb andb].
  destruct (grow_run m h h1 p Hm Hcap Ek) as (es & h2 & Hg).
  unfold vm_map_ensure_capacity. cbn [ensure_loop].
  rewrite (proj2 (Z.ltb_lt (max_entries m) _)) by lia. rewrite Hg.
  cbn [mbind out_bind Z.ltb Z.compare max_entries entry_count].
  unfold VM_MAP_INIT_CAPACITY in *. rewrite (proj2 (Z.ltb_ge (max_entries m * 2) _)) by lia.
  cbn [mbind out_bind Z.ltb Z.compare]. unfold entry_alive. cbn [entries_ptr].
  destruct (kmalloc_some _ _ _ _ Hh Ek) as (_ & Hfresh & _).
  rewrite (proj2 (Z.eqb_neq p _)); [done|]. intros ->. done.
Qed.

(** ** Mapping *)

(** The heap block of the entry array changed hands, nothing else did. *)
Definition array_frame (m : vm_map) (h : H) (m' : vm_map) (h' : H) : Prop :=
  kwf h' /\ entries_ptr m' ∈ klive h' /\
  klive h' ∖ {[entries_ptr m']} = klive h ∖ {[entries_ptr m]}.

Lemma vm_map_grow_spec m (h : H) :
  map_shape m -> kwf h -> entries_ptr m ∈ klive h ->
  returns (vm_map_grow junk m h) (fun '(r, m', h') =>
    map_shape m' /\ array_frame m h m' h' /\ used m' = used m /\ entry_count m' = entry_count m /\
    ((r = -1 /\ m' = m) \/ (r = 0 /\ max_entries m' = max_entries m * 2))).
Proof.
  intros [Hlen Hc Hmax] Hh Hlive. unfold vm_map_grow.
  destruct (Z.ltb_spec (max_entries m) VM_MAP_INIT_CAPACITY); [lia|].
  destruct (Z.ltb_spec VM_MAP_MAX_CAPACITY (max_entries m * 2)).
  { cbn [returns]. repeat (split; [done|]). by left. }
  destruct (kmalloc _ h) as [[p|] h1] eqn:E.
  2: { destruct (kmalloc_none _ _ _ Hh E) as [Hh1 Hl1]. cbn [returns]. split; [done|].
       split; [|by repeat (split; [done|]); left]. split; [done|]. by rewrite Hl1. }
  rewrite memcpy_arr_ok by (rewrite ?length_fresh_arr; lia). cbn [mbind out_bind returns].
  destruct (kmalloc_some _ _ _ _ Hh E) as (Hh1 & Hf1 & _ & Hl1).
  destruct (kfree_live h1 (entries_ptr m) Hh1) as [Hh2 Hl2]; [rewrite Hl1; by apply elem_of_union_r|].
  unfold VM_MAP_INIT_CAPACITY in *.
  split; [split; cbn; rewrite ?length_app, ?length_take, ?length_drop, ?length_fresh_arr; unfold VM_MAP_INIT_CAPACITY; lia|].
  split; [|split; [|split; [done|by right]]].
  - split; [done|]. cbn [entries_ptr]. rewrite Hl2, Hl1.
    split; [|clear -Hf1; set_solver]. assert (p <> entries_ptr m) as Hne by (intros ->; done).
    clear -Hne. set_solver.
  - unfold used. cbn [entries entry_count].
    rewrite take_app_length'; [done|]. rewrite length_take. lia.
Qed.

Lemma ensure_one_spec m (h : H) :
  map_shape m -> kwf h -> entries_ptr m ∈ klive h ->
  returns (vm_map_ensure_capacity junk m 1 h) (fun '(r, m', h') =>
    map_shape m' /\ array_frame m h m' h' /\ used m' = used m /\ entry_count m' = entry_count m /\
    ((r = -1 /\ entry_count m = max_entries m) \/ (r = 0 /\ entry_count m' < max_entries m'))).
Proof.
  intros Hm Hh Hlive. unfold vm_map_ensure_capacity. pose proof (ms_count _ Hm).
  pose proof (ms_max _ Hm). unfold VM_MAP_INIT_CAPACITY in *. cbn [ensure_loop].
  destruct (Z.ltb_spec (max_entries m) (entry_count m + 1)).
  2: { cbn [returns]. repeat (split; [done|]). right. split; [done|lia]. }
  eapply returns_bind; [by apply vm_map_grow_spec|].
  intros [[r m1] h1] (Hm1 & Hf1 & Hu1 & Hc1 & [(-> & ->)|(-> & Hx1)]); cbn [Z.ltb Z.compare].
  { cbn [returns]. repeat (split; [done|]). left. split; [done|lia]. }
  rewrite (proj2 (Z.ltb_ge (max_entries m1) _)) by lia. cbn [returns].
  repeat (split; [done|]). right. split; [done|lia].
Qed.

Lemma any_overlap_spec m addr end_ n : forall i : nat,
  map_shape m -> (i + n = Z.to_nat (entry_count m))%nat ->
  any_overlap n (Z.of_nat i) (entries m) addr end_ =
    Ret (existsb (fun e => entry_overlaps e addr end_) (drop i (used m))).
Proof.
  induction n as [|n IH]; intros i Hm Hi.
  { cbn [any_overlap]. rewrite drop_ge by (rewrite length_used by done; lia). done. }
  destruct (lookup_lt_is_Some_2 (used m) i) as [e He]; [rewrite length_used by done; lia|].
  cbn [any_overlap]. rewrite (rd_used m i e Hm He), (drop_S _ e i He). cbn [mbind out_bind existsb].
  destruct (entry_overlaps e addr end_); [done|]. cbn [orb].
  replace (Z.of_nat i + 1) with (Z.of_nat (S i)) by lia. apply IH; [done|lia].
Qed.

(** The number of leading entries that start at or below [addr]. *)
Fixpoint below (addr : Z) (l : list vm_entry) : nat :=
  match l with
  | [] => O
  | e :: l => if addr <? e_start e then O else S (below addr l)
  end.

Lemma insert_idx_spec m addr n : forall i : nat,
  map_shape m -> (i + n = Z.to_nat (entry_count m))%nat ->
  insert_idx n (Z.of_nat i) (entries m) addr =
    Ret (Z.of_nat (i + below addr (drop i (used m)))).
Proof.
  induction n as [|n IH]; intros i Hm Hi.
  { cbn [insert_idx]. rewrite drop_ge by (rewrite length_used by done; lia).
    cbn [below]. by rewrite Nat.add_0_r. }
  destruct (lookup_lt_is_Some_2 (used m) i) as [e He]; [rewrite length_used by done; lia|].
  cbn [insert_idx]. rewrite (rd_used m i e Hm He), (drop_S _ e i He). cbn [mbind out_bind below].
  destruct (addr <? e_start e); [by rewrite Nat.add_0_r|].
  replace (Z.of_nat i + 1) with (Z.of_nat (S i)) by lia. rewrite IH by (done || lia). do 2 f_equal. lia.
Qed.

Lemma below_le addr l : (below addr l <= length l)%nat.
Proof. induction l as [|e l IH]; simpl; [lia|]. destruct (addr <? e_start e); lia. Qed.

(** Inserting an entry that overlaps nothing. *)
Lemma ordered_insert lo l (x : vm_entry) :
  ordered lo l -> lo <= e_start x -> e_start x < e_end x -> e_end x < 2 ^ 64 ->
  existsb (fun e => entry_overlaps e (e_start x) (e_end x)) l = false ->
  ordered lo (take (below (e_start x) l) l ++ x :: drop (below (e_start x) l) l).
Proof.
  revert lo. induction l as [|e l IH]; intros lo Ho Hlo Hx H64 Hov; [simpl; lia|].
  destruct Ho as (? & ? & ? & Ho). cbn [existsb] in Hov. apply orb_false_iff in Hov as [Hov1 Hov].
  unfold entry_overlaps in Hov1. cbn [below].
  destruct (Z.ltb_spec (e_start x) (e_start e)) as [Hb|Hb].
  - cbn [take drop app ordered].
    destruct (Z.ltb_spec (e_start e) (e_end x)), (Z.ltb_spec (e_start x) (e_end e)); simpl in Hov1; try done; lia.
  - cbn [take drop app ordered].
    destruct (Z.ltb_spec (e_start e) (e_end x)), (Z.ltb_spec (e_start x) (e_end e)); simpl in Hov1; try done; try lia.
    repeat (split; [lia|]). by apply IH.
Qed.

Lemma no_overlap_unmapped l (x : vm_entry) a :
  existsb (fun e => entry_overlaps e (e_start x) (e_end x)) l = false ->
  e_start x <= a < e_end x -> translate l a = None.
Proof.
  intros Hov Ha. induction l as [|e l IH]; [done|]. cbn [existsb translate] in *.
  apply orb_false_iff in Hov as [Ho Hr]. rewrite IH by done. unfold covers, entry_overlaps in *.
  destruct (Z.leb_spec (e_start e) a), (Z.ltb_spec a (e_end e)), (Z.ltb_spec (e_start e) (e_end x)),
    (Z.ltb_spec (e_start x) (e_end e)); simpl in *; done || lia.
Qed.

Lemma translate_insert l k (x : vm_entry) a :
  existsb (fun e => entry_overlaps e (e_start x) (e_end x)) l = false ->
  translate (take k l ++ x :: drop k l) a =
    if covers x a then Some (view x a) else translate l a.
Proof.
  intros Hov. rewrite translate_app. cbn [translate].
  assert (translate l a = match translate (take k l) a with
                          | Some v => Some v | None => translate (drop k l) a end) as Hl
    by (rewrite <- translate_app; by rewrite take_drop).
  destruct (covers x a) eqn:Hc; [|by rewrite Hl].
  apply andb_true_iff in Hc as [H1%Z.leb_le H2%Z.ltb_lt].
  rewrite <- (take_drop k l), existsb_app in Hov. apply orb_false_iff in Hov as [Hov _].
  by rewrite (no_overlap_unmapped (take k l) x a Hov) by lia.
Qed.

(** The arguments [vm_map_map] accepts. *)
Definition map_args_ok (addr obj off size : Z) : Prop :=
  obj <> 0 /\ 0 < size /\ addr + size < 2 ^ 64 /\
  Z.land addr (PAGE_SIZE - 1) = 0 /\ Z.land off (PAGE_SIZE - 1) = 0 /\
  Z.land size (PAGE_SIZE - 1) = 0 /\
  USER_BASE <= addr /\ addr + size <= USER_STACK_TOP.

Lemma vm_map_map_reject m addr obj off size prot inh (h : H) :
  in_u64 addr -> in_u64 size -> ~ map_args_ok addr obj off size ->
  vm_map_map junk USER_BASE USER_STACK_TOP m addr obj off size prot inh h =
    Ret (-1, [], m, h).
Proof.
  intros Ha Hs Hno. unfold in_u64, map_args_ok in *. unfold vm_map_map.
  destruct (Z.eqb_spec obj 0); [done|]. destruct (Z.eqb_spec size 0); [done|]. cbn [orb].
  destruct (Z.eqb_spec (Z.land addr (PAGE_SIZE - 1)) 0); [|done].
  destruct (Z.eqb_spec (Z.land off (PAGE_SIZE - 1)) 0); [|done].
  destruct (Z.eqb_spec (Z.land size (PAGE_SIZE - 1)) 0); [|done]. cbn [negb].
  destruct (decide (addr + size < 2 ^ 64)) as [Hlt|Hge].
  - rewrite u64_small by (unfold in_u64; lia). destruct (Z.ltb_spec (addr + size) addr); [done|].
    destruct (Z.ltb_spec addr USER_BASE); [done|].
    destruct (Z.ltb_spec USER_STACK_TOP (addr + size)); [done|]. exfalso. apply Hno. lia.
  - assert (u64 (addr + size) = addr + size - 2 ^ 64) as ->.
    { unfold u64. symmetry. apply (Z.mod_unique _ _ 1); lia. }
    rewrite (proj2 (Z.ltb_lt _ _)) by lia. done.
Qed.

Lemma overlap_mapped lo l addr end_ :
  ordered lo l -> addr < end_ ->
  existsb (fun e => entry_overlaps e addr end_) l = true ->
  exists a, addr <= a < end_ /\ translate l a <> None.
Proof.
  intros Ho Hlt (e & Hin & Hov)%existsb_exists. apply list_elem_of_In in Hin.
  apply list_elem_of_lookup in Hin as [i Hi].
  destruct (ordered_elem lo l i e Ho Hi) as (_ & Hse & _). unfold entry_overlaps in Hov.
  apply andb_true_iff in Hov as [H1%Z.ltb_lt H2%Z.ltb_lt].
  exists (Z.max addr (e_start e)). split; [lia|].
  rewrite <- (take_drop_middle l i e Hi), translate_app. cbn [translate].
  destruct (translate (take i l) _); [done|]. unfold covers.
  rewrite (proj2 (Z.leb_le _ _)), (proj2 (Z.ltb_lt _ _)) by lia. done.
Qed.

(** Mapping a range succeeds exactly when the arguments are aligned, lie
    in the user half and overlap no entry (and the table has or can get a free
    entry); it then adds precisely this range, retains the object once, and
    keeps the entries sorted and disjoint.  A refused call changes no mapping
    and retains nothing. *)
Theorem vm_map_map_correct m addr obj off size prot inh (h : H) :
  map_wf m -> kwf h -> entries_ptr m ∈ klive h -> in_u64 addr -> in_u64 size ->
  returns (vm_map_map junk USER_BASE USER_STACK_TOP m addr obj off size prot inh h)
    (fun '(r, evs, m', h') =>
    map_wf m' /\ array_frame m h m' h' /\
    ((r = 0 /\ map_args_ok addr obj off size /\ evs = [Retain obj] /\
      (forall a, addr <= a < addr + size -> translate (used m) a = None) /\
      (forall a, translate (used m') a =
         if (addr <=? a) && (a <? addr + size)
         then Some (obj, u64 (off + (a - addr)), prot, inh) else translate (used m) a)) \/
     (r = -1 /\ evs = [] /\ used m' = used m /\
      (map_args_ok addr obj off size -> entry_count m < max_entries m ->
       exists a, addr <= a < addr + size /\ translate (used m) a <> None)))).
Proof.
  intros [Hm Ho] Hh Hlive Ha Hs.
  destruct (decide (map_args_ok addr obj off size)) as [Hok|Hno].
  2: { rewrite vm_map_map_reject by done. cbn [returns]. split; [done|]. split; [done|].
       right. repeat (split; [done|]). done. }
  destruct Hok as (Hobj & Hsize & H64 & Ha1 & Ho1 & Hs1 & Hub & Hust).
  unfold vm_map_map, in_u64 in *.
  rewrite (proj2 (Z.eqb_neq obj 0)), (proj2 (Z.eqb_neq size 0)), Ha1, Ho1, Hs1 by lia. cbn [orb negb Z.eqb].
  rewrite u64_small by (unfold in_u64; lia). rewrite (proj2 (Z.ltb_ge (addr + size) addr)),
    (proj2 (Z.ltb_ge addr USER_BASE)), (proj2 (Z.ltb_ge USER_STACK_TOP _)) by lia.
  rewrite (any_overlap_spec m addr (addr + size) _ 0) by done. rewrite drop_0. cbn [mbind out_bind].
  destruct (existsb _ (used m)) eqn:Hov.
  { cbn [returns]. split; [done|]. split; [done|]. right. repeat (split; [done|]). intros _ _.
    apply (overlap_mapped 0); [done|lia|done]. }
  eapply returns_bind; [by apply ensure_one_spec|].
  intros [[r m1] h1] (Hm1 & Hf1 & Hu1 & Hc1 & [(-> & Hfull)|(-> & Hroom)]); cbn [Z.ltb Z.compare].
  { cbn [returns]. split; [split; [done|by rewrite Hu1]|]. split; [done|]. right.
    repeat (split; [done|]). lia. }
  rewrite (insert_idx_spec m1 addr _ 0) by done. cbn [mbind out_bind]. rewrite drop_0, Nat.add_0_l.
  pose proof (shift_insert m1 (below addr (used m1)) (VmEntry addr (addr + size) obj off prot inh)
    Hm1 ltac:(rewrite <- length_used by done; apply below_le) Hroom) as Hins.
  destruct (entries_shift_right m1 _) as [m2| |]; cbn [mbind out_bind] in *; [|done..].
  destruct (wr (entries m2) _ _) as [es| |]; cbn [mbind out_bind returns] in *; [|done..].
  destruct Hins as (Hm2 & Hp2 & _ & _ & Hu2). rewrite Hu1 in Hu2.
  set (x := VmEntry addr (addr + size) obj off prot inh) in *.
  change addr with (e_start x) in Hov at 1. change (addr + size) with (e_end x) in Hov.
  split; [split; [done|rewrite Hu2; change addr with (e_start x); apply ordered_insert; (done || cbn; lia)]|].
  split; [unfold array_frame in *; by rewrite Hp2|].
  left. split; [done|]. split; [done|]. split; [done|]. split.
  - intros a Hr. apply (no_overlap_unmapped (used m) x a Hov). cbn. lia.
  - intros a. rewrite Hu2, translate_insert by done. done.
Qed.

(** ** Protection *)

Definition with_prot (e : vm_entry) (prot : Z) : vm_entry :=
  VmEntry (e_start e) (e_end e) (e_obj e) (e_off e) prot (e_inherit e).

(** What becomes of an entry that does not start before [addr]. *)
Definition reprotect (addr end_ prot : Z) (e : vm_entry) : list vm_entry :=
  if negb (entry_overlaps e addr end_) then [e]
  else if e_end e <=? end_ then [with_prot e prot]
  else [with_prot (left_part e end_) prot; right_part e end_].

(** [addr] does not fall strictly inside an entry. *)
Definition on_boundary (addr : Z) (l : list vm_entry) : Prop :=
  Forall (fun e => addr <= e_start e \/ e_end e <= addr) l.

Definition cut_left (addr end_ : Z) (e : vm_entry) : bool :=
  entry_overlaps e addr end_ && (end_ <? e_end e).

Lemma protect_loop_spec fuel : forall (i : nat) addr end_ prot m (h : H) evs,
  map_shape m -> addr < end_ -> (i <= Z.to_nat (entry_count m))%nat ->
  (Z.to_nat (entry_count m) - i < fuel)%nat -> on_boundary addr (drop i (used m)) ->
  entry_count m + Z.of_nat (length (filter (fun e => cut_left addr end_ e = true)
                                     (drop i (used m)))) <= max_entries m ->
  returns (protect_loop junk fuel (Z.of_nat i) addr end_ prot m h evs)
    (loop_post (reprotect addr end_ prot) i m h evs).
Proof.
  induction fuel as [|fuel IH]; intros i addr end_ prot m h evs Hm Hlt Hi Hf Hb Hroom; [lia|].
  cbn [protect_loop]. destruct (Z.ltb_spec (Z.of_nat i) (entry_count m)) as [Hic|Hic]; cbn [negb].
  2: { apply loop_done; [done|lia]. }
  destruct (lookup_lt_is_Some_2 (used m) i) as [e He]; [rewrite length_used by done; lia|].
  rewrite (rd_used m i e Hm He). cbn [mbind out_bind].
  rewrite (drop_S (used m) e i He) in Hroom, Hb. rewrite filter_cons in Hroom.
  apply Forall_cons in Hb as [Hbe Hb].
  assert (forall m1 new ev1, replaced m m1 i new -> new = reprotect addr end_ prot e ->
    (forall o, o <> 0 -> refs o new = refs o [e] + balance o ev1) ->
    entry_count m1 + Z.of_nat (length (filter (fun e => cut_left addr end_ e = true)
                                         (drop (S i) (used m)))) <= max_entries m ->
    returns (protect_loop junk fuel (Z.of_nat (i + length new)) addr end_ prot m1 h (evs ++ ev1))
      (loop_post (reprotect addr end_ prot) i m h evs)) as Hrec.
  { intros m1 new ev1 Hrep Hnew Hbal Hroom1.
    destruct (replaced_facts m m1 i new e Hm He Hrep) as (Hc1 & _ & _ & Hd).
    eapply returns_mono.
    - apply IH; rewrite ?Hd, ?(rp_max _ _ _ _ Hrep); try done; try lia. apply Hrep.
    - intros res. by apply (loop_resume (reprotect addr end_ prot) i m h evs e new ev1 m1). }
  pose proof (write_replaced m i Hm ltac:(lia)) as Hwr.
  replace (Z.of_nat i + 1) with (Z.of_nat (i + 1)) by lia.
  unfold reprotect, cut_left in *. destruct (entry_overlaps e addr end_) eqn:Eo; cbn [negb andb] in *.
  2: { rewrite decide_False in Hroom by done. rewrite <- (app_nil_r evs) at 1.
       apply (Hrec m [e] []); [|done|intros; simpl; lia|done].
       split; try done. apply (used_split m i e He). }
  assert (addr <= e_start e) as Hae.
  { unfold entry_overlaps in Eo. apply andb_true_iff in Eo as [_ ?%Z.ltb_lt]. lia. }
  rewrite (proj2 (Z.leb_le addr (e_start e))) by done. cbn [andb].
  destruct (Z.leb_spec (e_end e) end_) as [Hfull|Hpart].
  - rewrite decide_False in Hroom by (rewrite (proj2 (Z.ltb_ge end_ (e_end e))) by lia; done).
    destruct (Hwr (with_prot e prot)) as (es & Ewr & Hrep). unfold with_prot in Ewr. rewrite Ewr.
    cbn [mbind out_bind]. rewrite <- (app_nil_r evs) at 1.
    apply (Hrec _ [with_prot e prot] []); [done|done|intros; simpl; lia|cbn; lia].
  - rewrite (proj2 (Z.ltb_lt end_ (e_end e))) in * by lia. rewrite decide_True in Hroom by done.
    simpl in Hroom. rewrite ensure_room by lia. cbn [mbind out_bind Z.ltb Z.compare].
    unfold entry_alive. rewrite Z.eqb_refl. cbn [mbind out_bind].
    eapply returns_bind; [apply (insert_after_spec m i); [done|lia|lia]|].
    intros m1 (Hm1 & Hp1 & Hx1 & Hc1 & Hu1). replace (Z.of_nat i + 2) with (Z.of_nat (i + 2)) by lia.
    apply (Hrec m1 [with_prot (left_part e end_) prot; right_part e end_]); [by split|done| |lia].
    intros o Ho. rewrite (proj2 (event_balance o e Ho)). simpl. lia.
Qed.

(** The mapping of an address with its protection replaced in a range. *)
Definition set_prot (addr end_ prot a : Z) (o : option (Z * Z * Z * Z)) : option (Z * Z * Z * Z) :=
  '(obj, off, p, inh) ← o;
  Some (obj, off, if (addr <=? a) && (a <? end_) then prot else p, inh).

Lemma translate_reprotect addr end_ prot l a :
  addr < end_ -> on_boundary addr l ->
  translate (l ≫= reprotect addr end_ prot) a = set_prot addr end_ prot a (translate l a).
Proof.
  intros Hlt. induction l as [|e l IH]; intros Hb; [done|]. apply Forall_cons in Hb as [Hbe Hb].
  rewrite bind_cons, translate_app, IH by done. cbn [translate].
  assert (translate (reprotect addr end_ prot e) a = set_prot addr end_ prot a (translate [e] a)) as ->.
  { unfold reprotect, entry_overlaps, set_prot. cbn [translate].
    destruct (Z.ltb_spec (e_start e) end_), (Z.ltb_spec addr (e_end e)); cbn [andb negb];
      [destruct (Z.leb_spec (e_end e) end_)|..]; cbn [translate]; unfold covers;
      cbn [e_start e_end with_prot left_part right_part];
      destruct (Z.leb_spec (e_start e) a), (Z.ltb_spec a (e_end e)), (Z.ltb_spec a end_),
        (Z.leb_spec addr a); cbn [andb mbind option_bind]; try (done || lia).
    all: try (destruct (Z.leb_spec end_ a); [lia|done]).
    all: destruct (Z.leb_spec end_ a); [|lia]; cbn [andb]; try done.
    unfold view, right_part. cbn [e_obj e_off e_prot e_inherit e_start]. by rewrite u64_add_sub. }
  cbn [translate]. by destruct (covers e a).
Qed.

Lemma ordered_reprotect lo addr end_ prot l :
  0 <= addr < end_ -> on_boundary addr l -> ordered lo l ->
  ordered lo (l ≫= reprotect addr end_ prot).
Proof.
  intros Hr. revert lo. induction l as [|e l IH]; intros lo Hb Ho; [done|].
  apply Forall_cons in Hb as [Hbe Hb]. destruct Ho as (? & ? & ? & Ho). rewrite bind_cons.
  specialize (IH _ Hb Ho). unfold reprotect, entry_overlaps at 1.
  destruct (Z.ltb_spec (e_start e) end_), (Z.ltb_spec addr (e_end e)); cbn [andb negb];
    [destruct (Z.leb_spec (e_end e) end_)|..]; cbn; repeat (split; [lia|]); done.
Qed.

Lemma cut_left_unique lo addr end_ l :
  ordered lo l -> addr < end_ ->
  (length (filter (fun e => cut_left addr end_ e = true) l) <= 1)%nat.
Proof.
  revert lo. induction l as [|e l IH]; intros lo Ho Hlt; [simpl; lia|].
  destruct Ho as (? & ? & ? & Ho). rewrite filter_cons. case_decide as Hin; [|by apply (IH (e_end e))].
  enough (filter (fun e => cut_left addr end_ e = true) l = []) as -> by done.
  unfold cut_left in Hin. apply andb_true_iff in Hin as [_ Hin%Z.ltb_lt].
  clear IH. assert (end_ < e_end e) as Hlo by done. revert Ho Hlo. generalize (e_end e).
  induction l as [|x l IH]; intros b Ho Hb; [done|]. destruct Ho as (? & ? & ? & Ho).
  rewrite filter_cons, decide_False; [apply (IH (e_end x)); [done|lia]|].
  unfold cut_left, entry_overlaps. rewrite (proj2 (Z.ltb_ge (e_start x) end_)) by lia. done.
Qed.

(** When the range does not start inside an entry, changing the protection
    is exact: the call returns 0, the addresses in the range keep object,
    offset and inheritance and get the new protection, all others are
    unchanged, and the entries stay sorted and accounted for. *)
Theorem vm_map_protect_boundary_correct m addr size prot (h : H) :
  map_wf m -> entry_count m < max_entries m -> in_u64 addr -> 0 < size -> addr + size < 2 ^ 64 ->
  on_boundary addr (used m) ->
  returns (vm_map_protect junk m addr size prot h) (fun '(r, evs, m', h') =>
    r = 0 /\ h' = h /\ map_wf m' /\ accounted (used m) (used m') evs /\
    forall a, translate (used m') a =
      set_prot addr (addr + size) prot a (translate (used m) a)).
Proof.
  intros [Hm Ho] Hroom Ha Hs H64 Hb. unfold in_u64 in *. unfold vm_map_protect.
  rewrite (proj2 (Z.eqb_neq size 0)), u64_small, (proj2 (Z.ltb_ge _ _)) by (unfold in_u64; lia).
  eapply returns_mono.
  - apply (protect_loop_spec _ 0); rewrite ?drop_0; try done; try lia.
    pose proof (cut_left_unique 0 addr (addr + size) (used m) Ho ltac:(lia)). lia.
  - intros [[[r evs] m'] h'] (-> & -> & Hm' & _ & _ & Hu & evs1 & -> & Hacc).
    rewrite drop_0, take_0 in Hu. cbn [app] in *. split; [done|]. split; [done|].
    split; [split; [done|]|split; [done|]]; [|intros a]; rewrite Hu.
    + apply ordered_reprotect; [lia|done|done].
    + apply translate_reprotect; [lia|done].
Qed.

(** One turn of the loop on an entry that the range cuts on the right. *)
Lemma protect_right_step fuel (i : nat) m e addr end_ prot (h : H) evs :
  map_shape m -> used m !! i = Some e -> entry_count m < max_entries m ->
  e_start e < addr < e_end e -> e_end e <= end_ ->
  exists m1 ev1, replaced m m1 i [with_prot (right_part e addr) prot; left_part e addr] /\
    protect_loop junk (S fuel) (Z.of_nat i) addr end_ prot m h evs =
    protect_loop junk fuel (Z.of_nat i + 2) addr end_ prot m1 h (evs ++ ev1).
Proof.
  intros Hm He Hroom Ha Hend. pose proof (lookup_lt_Some _ _ _ He) as Hi.
  rewrite length_used in Hi by done.
  destruct (returns_inv _ _ (insert_after_spec m i (with_prot (right_part e addr) prot)
    (left_part e addr) Hm Hi Hroom)) as (m1 & Hins & Hm1 & Hp1 & Hx1 & Hc1 & Hu1).
  exists m1, (if e_obj e =? 0 then [] else [Retain (e_obj e)]). split; [by split|].
  cbn [protect_loop]. rewrite (proj2 (Z.ltb_lt _ (entry_count m))) by lia. cbn [negb].
  rewrite (rd_used m i e Hm He). cbn [mbind out_bind]. unfold entry_overlaps.
  rewrite (proj2 (Z.ltb_lt (e_start e) end_)), (proj2 (Z.ltb_lt addr (e_end e))) by lia.
  rewrite (proj2 (Z.leb_gt addr (e_start e))), (proj2 (Z.ltb_lt (e_start e) addr)),
    (proj2 (Z.leb_le (e_end e) end_)) by lia. cbn [andb negb].
  rewrite ensure_room by lia. cbn [mbind out_bind Z.ltb Z.compare]. unfold entry_alive.
  rewrite Z.eqb_refl. cbn [mbind out_bind].
  unfold with_prot, left_part, right_part in Hins. cbn [e_start e_end e_obj e_off e_prot e_inherit] in Hins.
  rewrite Hins. done.
Qed.

(** On two entries the search looks at the first one first. *)
Lemma find_two f es r a :
  rd es 0 = Ret r -> a < e_start r -> find_loop (S (S f)) 0 1 (-1) a es = Ret (-1).
Proof.
  intros Hr Ha. cbn [find_loop]. change (negb (0 <=? 1)) with false.
  change (0 + Z.quot (1 - 0) 2) with 0. cbn iota. rewrite Hr. cbn [mbind out_bind].
  rewrite (proj2 (Z.leb_gt _ _)) by lia. change (negb (0 <=? 0 - 1)) with true. done.
Qed.

(** When the range starts inside an entry and reaches its end, the left
    fragment is stored behind the right one.  The array is no longer sorted,
    and the binary search does not find the left fragment: an address that is
    mapped and was not touched by the call faults. *)
Theorem vm_map_protect_loses_left_part m e addr size prot (h : H) :
  map_wf m -> used m = [e] -> entry_count m < max_entries m ->
  e_start e < addr < e_end e -> e_end e <= addr + size < 2 ^ 64 ->
  exists evs m', vm_map_protect junk m addr size prot h = Ret (0, evs, m', h) /\
    forall a, e_start e <= a < addr ->
      translate (used m) a <> None /\ vm_map_find_entry m' a = Ret None.
Proof.
  intros [Hm Ho] Hu Hroom Ha Hend. rewrite Hu in Ho. destruct Ho as (H1 & H2 & H3 & _).
  pose proof (length_used m Hm) as Hlen. rewrite Hu in Hlen. simpl in Hlen.
  unfold vm_map_protect. rewrite (proj2 (Z.eqb_neq size 0)), u64_small,
    (proj2 (Z.ltb_ge (addr + size) addr)), <- Hlen by (unfold in_u64; lia).
  destruct (protect_right_step 1 0 m e addr (addr + size) prot h [] Hm ltac:(by rewrite Hu) Hroom Ha
              ltac:(lia)) as (m1 & ev1 & Hrep & Hstep).
  change (Z.of_nat 0) with 0 in Hstep. rewrite Hstep. cbn [app].
  destruct (replaced_facts m m1 0 _ e Hm ltac:(by rewrite Hu) Hrep) as (Hc1 & _ & _ & _).
  destruct Hrep as [Hm1 _ _ Hu1]. rewrite Hu in Hu1. simpl in Hu1, Hc1.
  assert (entry_count m1 = 2) as Hc2 by (pose proof (ms_count _ Hm1); lia).
  cbn [protect_loop]. rewrite Hc2. change (negb (0 + 2 <? 2)) with true. cbn iota.
  exists ev1, m1. split; [done|]. intros a Har. split.
  - rewrite Hu. cbn [translate]. unfold covers.
    rewrite (proj2 (Z.leb_le _ _)), (proj2 (Z.ltb_lt _ _)) by lia. done.
  - unfold vm_map_find_entry. rewrite Hc2. change (2 <=? 0) with false. cbn iota.
    change (S (Z.to_nat 2)) with 3%nat. change (2 - 1) with 1.
    rewrite (find_two _ _ (with_prot (right_part e addr) prot)); [done| |cbn; lia].
    change 0 with (Z.of_nat 0). apply rd_used; [done|]. by rewrite Hu1.
Qed.

(** One turn of the loop on an entry the range lies inside, with one entry
    behind it. *)
Lemma protect_split_step fuel m e x a0 stale rest addr end_ prot (h : H) evs :
  map_shape m -> entries m = e :: x :: a0 :: stale :: rest -> entry_count m = 2 ->
  4 <= max_entries m -> e_start e < addr -> addr < end_ -> end_ < e_end e ->
  exists m1 ev1,
    entries m1 = left_part e addr :: with_prot (left_part (right_part e addr) end_) prot ::
                 right_part e end_ :: stale :: rest /\ entry_count m1 = 4 /\
    protect_loop junk (S fuel) 0 addr end_ prot m h evs =
    protect_loop junk fuel 3 addr end_ prot m1 h (evs ++ ev1).
Proof.
  intros Hm Hes Hc Hmax Ha Hlt Hend. eexists (VmMap (entries_ptr m) _ 4 (max_entries m) (pml4 m)), _.
  split; [reflexivity|]. split; [reflexivity|].
  cbn [protect_loop]. rewrite Hc. change (negb (0 <? 2)) with false. cbn iota.
  assert (rd (entries m) 0 = Ret e) as -> by (by rewrite Hes). cbn [mbind out_bind].
  unfold entry_overlaps. rewrite (proj2 (Z.ltb_lt (e_start e) end_)), (proj2 (Z.ltb_lt addr (e_end e))) by lia.
  rewrite (proj2 (Z.leb_gt addr (e_start e))), (proj2 (Z.ltb_lt (e_start e) addr)),
    (proj2 (Z.leb_gt (e_end e) end_)) by lia. cbn [andb negb].
  rewrite ensure_room by lia. cbn [mbind out_bind]. change (0 <? 0) with false. cbn iota.
  unfold entry_alive. rewrite Z.eqb_refl, Hes. cbn [mbind out_bind].
  rewrite wr_ok by (simpl; lia). cbn [mbind out_bind Z.to_nat].
  unfold entries_shift_right. cbn [set_entries entry_count entries]. rewrite Hc.
  change (Z.to_nat (2 - (0 + 1))) with 1%nat. cbn [shift_right_loop insert list_insert].
  change (2 - 1) with 1. rewrite (rd_getz _ 1 x) by done. cbn [mbind out_bind].
  rewrite wr_ok by (simpl; lia). cbn [mbind out_bind].
  cbn [set_entries entry_count entries].
  change (Z.to_nat (2 - (0 + 2))) with 0%nat. cbn [shift_right_loop mbind out_bind set_entries entries].
  change (0 + 1) with 1. change (0 + 2) with 2. change (0 + 3) with 3.
  change (Z.to_nat 2) with 2%nat. cbn [insert list_insert].
  rewrite wr_ok by (simpl; lia). cbn [mbind out_bind]. change (Z.to_nat 1) with 1%nat.
  cbn [insert list_insert]. rewrite wr_ok by (simpl; lia). cbn [mbind out_bind].
  change (Z.to_nat 2) with 2%nat. cbn [insert list_insert entries_ptr max_entries pml4 entry_count].
  reflexivity.
Qed.

(** When the range lies strictly inside an entry, making room for the two
    new entries shifts the rest of the array only once: the entry that
    followed is overwritten, and the entry the count now includes is whatever
    the array held behind the used part. *)
Theorem vm_map_protect_drops_next_entry m e x stale addr size prot (h : H) :
  map_wf m -> used m = [e; x] -> entries m !! 3%nat = Some stale ->
  entry_overlaps stale addr (addr + size) = false -> entry_count m + 2 <= max_entries m ->
  e_start e < addr -> 0 < size -> addr + size < e_end e ->
  exists evs m', vm_map_protect junk m addr size prot h = Ret (0, evs, m', h) /\
    used m' = [left_part e addr;
               with_prot (left_part (right_part e addr) (addr + size)) prot;
               right_part e (addr + size); stale].
Proof.
  intros [Hm Ho] Hu Hst Hov Hroom Ha Hs Hend. rewrite Hu in Ho. destruct Ho as (H1 & H2 & H3 & _).
  pose proof (length_used m Hm) as Hlen. rewrite Hu in Hlen. simpl in Hlen.
  assert (entry_count m = 2) as Hc by (pose proof (ms_count _ Hm); lia).
  pose proof (ms_len _ Hm) as Hl. rewrite Hc in *.
  assert (exists a0 rest, entries m = e :: x :: a0 :: stale :: rest) as (a0 & rest & Hes).
  { unfold used in Hu. rewrite Hc in Hu. change (Z.to_nat 2) with 2%nat in Hu.
    destruct (entries m) as [|e1 [|x1 [|a1 [|s1 rest]]]]; simpl in *; try done. simplify_eq. eauto. }
  unfold vm_map_protect. rewrite (proj2 (Z.eqb_neq size 0)), u64_small,
    (proj2 (Z.ltb_ge (addr + size) addr)), Hc by (unfold in_u64; lia).
  destruct (protect_split_step (Z.to_nat 2) m e x a0 stale rest addr (addr + size) prot h [])
    as (m1 & ev1 & He1 & Hc1 & ->); try done; try lia.
  change (Z.to_nat 2) with 2%nat. cbn [app]. cbn [protect_loop]. rewrite Hc1, He1.
  change (negb (3 <? 4)) with false. cbn iota. rewrite (rd_getz _ 3 stale) by done.
  cbn [mbind out_bind]. rewrite Hov. cbn [negb]. change (negb (3 + 1 <? 4)) with true. cbn iota.
  exists ev1, m1. split; [done|]. unfold used. by rewrite He1, Hc1.
Qed.
End unmap.

(** ** Lookup *)

Lemma ordered_starts lo l i j e x :
  ordered lo l -> (i <= j)%nat -> l !! i = Some e -> l !! j = Some x -> e_start e <= e_start x.
Proof.
  intros Ho Hij He Hx. destruct (decide (i = j)) as [->|]; [simplify_eq; lia|].
  pose proof (ordered_lookup lo l i j e x Ho ltac:(lia) He Hx).
  destruct (ordered_elem lo l i e Ho He). lia.
Qed.

(** [b] is the last index whose entry starts at or below [addr]. *)
Definition last_below (l : list vm_entry) (addr b : Z) : Prop :=
  -1 <= b < Z.of_nat (length l) /\
  forall j e, l !! j = Some e -> Z.of_nat j <= b <-> e_start e <= addr.

Lemma find_loop_spec fuel : forall m lo hi addr,
  map_wf m -> 0 <= lo -> hi < entry_count m -> lo <= hi + 1 ->
  (Z.to_nat (hi - lo + 1) < fuel)%nat ->
  (forall j e, used m !! j = Some e -> Z.of_nat j < lo -> e_start e <= addr) ->
  (forall j e, used m !! j = Some e -> hi < Z.of_nat j -> addr < e_start e) ->
  returns (find_loop fuel lo hi (lo - 1) addr (entries m)) (last_below (used m) addr).
Proof.
  induction fuel as [|fuel IH]; intros m lo hi addr [Hm Ho] Hlo Hhi Hlh Hf Hlow Hhigh; [lia|].
  cbn [find_loop]. destruct (Z.leb_spec lo hi) as [Hle|Hgt]; cbn [negb].
  2: { cbn [returns]. split; [rewrite length_used by done; lia|]. intros j e Hj.
       destruct (decide (Z.of_nat j < lo)); [pose proof (Hlow j e Hj ltac:(lia)); lia|].
       pose proof (Hhigh j e Hj ltac:(lia)). lia. }
  rewrite Z.quot_div_nonneg by lia. set (mid := lo + (hi - lo) / 2).
  assert (lo <= mid <= hi) as Hmid.
  { pose proof (Z.div_pos (hi - lo) 2). pose proof (Z.div_le_upper_bound (hi - lo) 2 (hi - lo)). lia. }
  destruct (lookup_lt_is_Some_2 (used m) (Z.to_nat mid)) as [e He]; [rewrite length_used by done; lia|].
  rewrite <- (Z2Nat.id mid) at 1 by lia. rewrite (rd_used m _ e Hm He). cbn [mbind out_bind].
  destruct (Z.leb_spec (e_start e) addr) as [Hs|Hs].
  - replace mid with (mid + 1 - 1) at 2 by lia. apply IH; try done; try lia.
    intros j x Hj Hjm. transitivity (e_start e); [|done].
    apply (ordered_starts 0 (used m) j (Z.to_nat mid)); try done. lia.
  - apply IH; try done; try lia. intros j x Hj Hjm.
    pose proof (ordered_starts 0 (used m) (Z.to_nat mid) j e x Ho ltac:(lia) He Hj). lia.
Qed.

Lemma translate_covering lo l i e a :
  ordered lo l -> l !! i = Some e -> covers e a = true -> translate l a = Some (view e a).
Proof.
  intros Ho He Hc. rewrite <- (take_drop_middle l i e He), translate_app. cbn [translate].
  rewrite Hc. enough (translate (take i l) a = None) as -> by done.
  assert (forall k x, take i l !! k = Some x -> e_end x <= e_start e) as Hall.
  { intros k x Hk. apply lookup_take_Some in Hk as [Hk Hki]. by apply (ordered_lookup lo l k i). }
  apply andb_true_iff in Hc as [H1%Z.leb_le _]. clear He.
  induction (take i l) as [|y l' IH]; [done|]. cbn [translate]. pose proof (Hall 0%nat y eq_refl).
  unfold covers. rewrite (proj2 (Z.ltb_ge a (e_end y))) by lia. rewrite andb_false_r.
  apply IH. intros k x Hk. by apply (Hall (S k)).
Qed.

Lemma vm_map_find_entry_spec m addr :
  map_wf m ->
  returns (vm_map_find_entry m addr) (fun o =>
    match o with
    | Some i => exists e, used m !! Z.to_nat i = Some e /\ 0 <= i /\ covers e addr = true /\
                  translate (used m) addr = Some (view e addr)
    | None => translate (used m) addr = None
    end).
Proof.
  intros [Hm Ho]. unfold vm_map_find_entry. destruct (Z.leb_spec (entry_count m) 0) as [H0|H0].
  { cbn [returns]. rewrite (nil_length_inv (used m)) by (rewrite length_used by done; lia). done. }
  eapply returns_bind; [apply (find_loop_spec _ m 0 (entry_count m - 1)); try done; try lia|].
  { intros j e Hj%lookup_lt_Some ?. rewrite length_used in Hj by done. lia. }
  intros b [Hb Hj]. cbn beta.
  assert (0 <= b -> exists e, used m !! Z.to_nat b = Some e) as Hex.
  { intros. apply lookup_lt_is_Some_2. lia. }
  assert (forall i e, used m !! i = Some e -> covers e addr = true -> Z.of_nat i = b) as Honly.
  { intros i e He Hc. apply andb_true_iff in Hc as [H1%Z.leb_le H2%Z.ltb_lt].
    apply (Hj i e He) in H1. destruct (decide (Z.of_nat i = b)) as [|Hne]; [done|]. exfalso.
    destruct Hex as [x Hx]; [lia|].
    pose proof (ordered_lookup 0 _ i (Z.to_nat b) e x Ho ltac:(lia) He Hx).
    pose proof (proj1 (Hj _ x Hx)). lia. }
  assert ((forall i e, used m !! i = Some e -> covers e addr = false) -> translate (used m) addr = None)
    as Hnone.
  { clear. induction (used m) as [|y l IH]; [done|]. intros Hc. cbn [translate].
    rewrite (Hc 0%nat y eq_refl). apply IH. intros i e He. by apply (Hc (S i)). }
  destruct (Z.leb_spec 0 b) as [Hb0|Hb0].
  2: { cbn [returns]. apply Hnone. intros i e He. destruct (covers e addr) eqn:Hc; [|done].
       specialize (Honly i e He Hc). lia. }
  destruct (Hex Hb0) as [e He]. rewrite <- (Z2Nat.id b) at 1 by lia.
  rewrite (rd_used m _ e Hm He). cbn [mbind out_bind returns].
  assert (e_start e <= addr) as Hs by (apply (Hj _ e He); lia).
  assert (covers e addr = (addr <? e_end e)) as Hcov
    by (unfold covers; by rewrite (proj2 (Z.leb_le _ _))).
  destruct (addr <? e_end e).
  - exists e. repeat (split; [done|]). by apply (translate_covering 0 _ (Z.to_nat b)).
  - apply Hnone. intros i x Hx. destruct (covers x addr) eqn:Hc; [|done].
    assert (i = Z.to_nat b) as -> by (specialize (Honly i x Hx Hc); lia). congruence.
Qed.

(** The binary search terminates and finds the entry that contains the
    address whenever one does, and only then. *)
Theorem vm_map_find_entry_correct m addr :
  map_wf m ->
  returns (vm_map_find_entry m addr) (fun o =>
    match o with
    | Some i => exists e, used m !! Z.to_nat i = Some e /\ covers e addr = true /\
                  translate (used m) addr = Some (view e addr)
    | None => translate (used m) addr = None
    end).
Proof.
  intros Hm. eapply returns_mono; [by apply vm_map_find_entry_spec|].
  intros [i|]; [|done]. intros (e & ? & _ & ? & ?). eauto.
Qed.

(** A page fault is resolved through the object, offset and protection
    the map assigns to the address: an unmapped address and a protection
    violation are refused without calling the object, every other fault
    reaches the object of the entry with the page-aligned offset, and its
    answer is passed on. *)
Theorem vm_map_resolve_fault_correct {O : Type} (fault : Z -> Z -> bool -> O -> out (Z * Z * O))
    m addr (w : bool) (o : O) :
  map_wf m ->
  vm_map_resolve_fault fault m addr w o =
    match translate (used m) addr with
    | None => Ret (-1, None, o)
    | Some (obj, off, prot, _) =>
        if Z.land prot (if w then VM_PROT_WRITE else VM_PROT_READ) =? 0 then Ret (-1, None, o)
        else
          '(ret, phys, o) ← fault obj (Z.land off (Z.lnot (PAGE_SIZE - 1))) w o;
          Ret (if ret =? 0 then (0, Some phys, o)
               else if ret =? - EAGAIN then (- EAGAIN, None, o) else (-1, None, o))
    end.
Proof.
  intros Hm. pose proof (vm_map_find_entry_spec m addr Hm) as Hf. unfold vm_map_resolve_fault.
  destruct (vm_map_find_entry m addr) as [[i|]| |]; cbn [returns mbind out_bind] in *; [| |done..].
  2: { by rewrite Hf. }
  destruct Hf as (e & He & Hi & Hc & ->). rewrite <- (Z2Nat.id i) by lia.
  rewrite (rd_used m _ e (proj1 Hm) He). cbn [mbind out_bind]. unfold view.
  destruct (Z.land (e_prot e) _ =? 0); [done|].
  replace (addr - e_start e + e_off e) with (e_off e + (addr - e_start e)) by lia.
  destruct (fault _ _ w o) as [[[ret phys] o']| |]; cbn [mbind out_bind]; [|done..].
  destruct (ret =? 0); [done|]. by destruct (ret =? - EAGAIN).
Qed.

(** ** Witnesses *)

Definition no_entry (n : nat) : vm_entry := VmEntry 0 0 0 0 0 0.
Definition area (n : nat) : vm_entry :=
  VmEntry (0x8000000 + Z.of_nat n * 0x10000) (0x8000000 + Z.of_nat n * 0x10000 + 0x4000)
    (100 + Z.of_nat n) 0 3 0.
(** The first [n] areas in a table of 64 entries at block 1 of the heap. *)
Definition areas (n : nat) : vm_map :=
  VmMap 1 ((area <$> seq 0 n) ++ (no_entry <$> seq n (64 - n))) (Z.of_nat n) 64 7.
Definition map_heap : ref_heap := RefHeap 2 10 {[1]}.

Fixpoint ordered_b (lo : Z) (l : list vm_entry) : bool :=
  match l with
  | [] => true
  | e :: l => (lo <=? e_start e) && (e_start e <? e_end e) && (e_end e <? 2 ^ 64) &&
              ordered_b (e_end e) l
  end.

Lemma ordered_b_sound lo l : ordered_b lo l = true -> ordered lo l.
Proof.
  revert lo. induction l as [|e l IH]; intros lo; [done|]. cbn [ordered_b ordered].
  rewrite !andb_true_iff, Z.leb_le, !Z.ltb_lt. intros [[[? ?] ?] ?]. auto.
Qed.

Lemma areas_wf n : (n <= 64)%nat -> ordered_b 0 (used (areas n)) = true -> map_wf (areas n).
Proof.
  intros Hn Ho. split; [|by apply ordered_b_sound].
  split; cbn; unfold VM_MAP_INIT_CAPACITY, VM_MAP_MAX_CAPACITY; [|lia|lia].
  rewrite length_app, !length_fmap, !length_seq. lia.
Qed.

Lemma areas2_wf : map_wf (areas 2).
Proof. apply areas_wf; [lia|vm_compute; reflexivity]. Qed.

Lemma areas1_wf : map_wf (areas 1).
Proof. apply areas_wf; [lia|vm_compute; reflexivity]. Qed.

Lemma areas64_wf : map_wf (areas 64).
Proof. apply areas_wf; [lia|vm_compute; reflexivity]. Qed.

Lemma map_heap_wf : kwf map_heap.
Proof. split; [done|]. cbn [rh_live map_heap]. intros x ->%elem_of_singleton. cbn. lia. Qed.

Lemma map_heap_live n : entries_ptr (areas n) ∈ klive map_heap.
Proof. change (1 ∈ ({[1]} : gset Z)). by apply elem_of_singleton. Qed.

Lemma vm_map_unmap_correct_witness :
  returns (vm_map_unmap no_entry (areas 2) 0x8001000 0x1000 map_heap) (fun '(r, _, m', _) =>
    r = 0 /\ translate (used m') 0x8001000 = None /\ translate (used m') 0x8002000 <> None).
Proof.
  eapply returns_mono;
    [apply (vm_map_unmap_correct no_entry (areas 2) 0x8001000 0x1000 map_heap areas2_wf);
     unfold in_u64; cbn; lia|].
  intros [[[r evs] m'] h'] [_ Hres]. cbn [orb Z.eqb Z.leb] in Hres.
  destruct Hres as (Hr & _ & _ & Ht). split; [exact Hr|].
  rewrite !Ht. split; [vm_compute; reflexivity|]. vm_compute. discriminate.
Defined.

Lemma vm_map_unmap_grow_use_after_free_witness :
  vm_map_unmap no_entry (areas 64) 0x8001000 0x1000 map_heap = UB.
Proof.
  apply (vm_map_unmap_grow_use_after_free no_entry (areas 64) 0 (area 0) 0x8001000 0x1000 map_heap
           (RefHeap 3 9 ({[2]} ∪ {[1]})) 2 areas64_wf map_heap_wf (map_heap_live 64));
    [reflexivity|cbn; unfold VM_MAP_MAX_CAPACITY; lia|reflexivity|reflexivity|lia|cbn; lia|cbn; lia].
Defined.

Lemma vm_map_map_correct_witness :
  returns (vm_map_map no_entry 0x8000000 0x7FFFFFFFF000 (areas 2) 0x8004000 5 0 0x2000 1 0 map_heap)
    (fun '(_, _, m', _) => map_wf m').
Proof.
  eapply returns_mono;
    [apply (vm_map_map_correct no_entry 0x8000000 0x7FFFFFFFF000 (areas 2) 0x8004000 5 0 0x2000 1 0
              map_heap areas2_wf map_heap_wf (map_heap_live 2)); unfold in_u64; lia|].
  intros [[[r evs] m'] h'] [Hm _]. exact Hm.
Defined.

Lemma vm_map_find_entry_correct_witness :
  returns (vm_map_find_entry (areas 2) 0x8010010) (fun o =>
    o = None -> translate (used (areas 2)) 0x8010010 = None).
Proof.
  eapply returns_mono; [exact (vm_map_find_entry_correct (areas 2) 0x8010010 areas2_wf)|].
  intros [i|] Ho; [discriminate|]. intros _. exact Ho.
Defined.

Lemma vm_map_resolve_fault_correct_witness :
  vm_map_resolve_fault (fun obj off _ (n : nat) => Ret (0, obj * 0x1000 + off, n))
    (areas 2) 0x8011234 true 5%nat = Ret (0, Some (101 * 0x1000 + 0x1000), 5%nat).
Proof.
  rewrite (vm_map_resolve_fault_correct _ (areas 2) 0x8011234 true 5%nat areas2_wf).
  vm_compute. reflexivity.
Defined.

Lemma vm_map_protect_boundary_correct_witness :
  returns (vm_map_protect no_entry (areas 2) 0x8000000 0x1000 1 map_heap) (fun '(r, _, m', _) =>
    r = 0 /\ map_wf m').
Proof.
  eapply returns_mono;
    [apply (vm_map_protect_boundary_correct no_entry (areas 2) 0x8000000 0x1000 1 map_heap areas2_wf);
     [cbn; lia|unfold in_u64; lia|lia|lia|]|].
  - repeat constructor; cbn; lia.
  - intros [[[r evs] m'] h'] (Hr & _ & Hm & _). exact (conj Hr Hm).
Defined.

Lemma vm_map_protect_loses_left_part_witness :
  exists evs m', vm_map_protect no_entry (areas 1) 0x8002000 0x2000 1 map_heap =
      Ret (0, evs, m', map_heap) /\ vm_map_find_entry m' 0x8000000 = Ret None.
Proof.
  destruct (vm_map_protect_loses_left_part no_entry (areas 1) (area 0) 0x8002000 0x2000 1 map_heap
              areas1_wf eq_refl) as (evs & m' & Hp & Hf); [cbn; lia..|].
  exists evs, m'. split; [exact Hp|]. apply Hf. cbn. lia.
Defined.

Lemma vm_map_protect_drops_next_entry_witness :
  exists evs m', vm_map_protect no_entry (areas 2) 0x8001000 0x1000 1 map_heap =
      Ret (0, evs, m', map_heap) /\ length (used m') = 4%nat /\ (area 1 ∉ used m').
Proof.
  destruct (vm_map_protect_drops_next_entry no_entry (areas 2) (area 0) (area 1) (no_entry 3)
              0x8001000 0x1000 1 map_heap areas2_wf eq_refl eq_refl eq_refl)
    as (evs & m' & Hp & Hu); [cbn; lia..|].
  exists evs, m'. split; [exact Hp|]. rewrite Hu. split; [reflexivity|].
  rewrite !not_elem_of_cons. repeat split; try (vm_compute; discriminate). apply not_elem_of_nil.
Defined.
