(* ===== verification/Heap.v ===== *)
(** * The kernel heap on x86 (mk/vm/heap.c)

    The heap is the region [HEAP_START, heap_brk), tiled by blocks: a 16-byte
    header (the size with a free bit, and a word that is the next free block
    or the magic number of a used one) followed by the payload.  Headers are
    kept by address in [hmem]; the payload bytes belong to the clients.  Pages
    are mapped behind [heap_brk] on demand through the physical page allocator
    and the page tables, which are the parameter [PageOps]: nothing is assumed
    of them.  The sizes are those of amd64.

    The file ends with the instance that discharges the allocator interface
    [KMem] of the prelude, against which the clients of kmalloc are proved. *)

From stdpp Require Import base numbers list gmap sets.
From Stdlib Require Import ZArith Lia.
From S2P Require Import Prelude.

#[local] Open Scope Z_scope.

Definition HEAP_START : Z := 0xFFFFFFFF90000000.
Definition HEAP_END : Z := 0xFFFFFFFFA0000000.
Definition HEAP_INITIAL_PAGES : Z := 4.
Definition HPAGE_SIZE : Z := 4096.
Definition HEAP_MAGIC_USED : Z := 0x4845415055534544.
Definition HEAP_BLOCK_FREE : Z := 1.
Definition HEAP_SIZE_MASK : Z := 0xFFFFFFFFFFFFFFFE.
Definition HEAP_HEADER_SIZE : Z := 16.
Definition HEAP_ALIGNMENT : Z := 16.
Definition HEAP_BLOCK_ALIGN : Z := 16.
Definition HEAP_MAX_WALK : Z := 8 * 1024 * 1024.

(** The macro on a [uint32_t] argument: the sum wraps at 32 bits. *)
Definition HEAP_ALIGN (sz : Z) : Z := Z.land (u32 (sz + (HEAP_ALIGNMENT - 1))) 0xFFFFFFF0.
Definition HEAP_MIN_BLOCK : Z := 32.

Record hdr := Hdr { hsize : Z; hword : Z }.

(** The page allocator and the kernel page tables, with their state. *)
Class PageOps (P : Type) := {
  pmm_alloc_page : P -> Z * P;
  pmm_free_page : Z -> P -> P;
  vmm_map_page : Z -> Z -> P -> Z * P;
  vmm_unmap_page : Z -> P -> P;
  vmm_get_physical : Z -> P -> Z;
}.

Section ops.
Context {P : Type} `{!PageOps P}.

Record heap := Heap {
  hmem : gmap Z hdr;
  heap_free_list : Z;
  heap_mapped_end : Z;
  heap_brk : Z;
  hpages : P;
}.

Definition set_hdr (a : Z) (x : hdr) (h : heap) : heap :=
  Heap (<[a := x]> (hmem h)) (heap_free_list h) (heap_mapped_end h) (heap_brk h) (hpages h).
Definition set_free_list (a : Z) (h : heap) : heap :=
  Heap (hmem h) a (heap_mapped_end h) (heap_brk h) (hpages h).
Definition set_brk (b : Z) (h : heap) : heap :=
  Heap (hmem h) (heap_free_list h) (heap_mapped_end h) b (hpages h).
Definition set_mapped (e : Z) (p : P) (h : heap) : heap :=
  Heap (hmem h) (heap_free_list h) e (heap_brk h) p.

(** [if (prev) prev->next = v; else heap_free_list = v;] *)
Definition relink (prev v : Z) (h : heap) : out heap :=
  if prev =? 0 then Ret (set_free_list v h)
  else x ← deref (hmem h !! prev); Ret (set_hdr prev (Hdr (hsize x) v) h).

(** [while (heap_mapped_end < addr)], one page per turn. *)
Fixpoint map_until_loop (fuel : nat) (addr : Z) (h : heap) : out (Z * heap) :=
  match fuel with
  | O => Hang
  | S fuel =>
      if heap_mapped_end h <? addr then
        let '(phys, p) := pmm_alloc_page (hpages h) in
        if phys =? 0 then Ret (-1, set_mapped (heap_mapped_end h) p h)
        else
          let '(r, p) := vmm_map_page phys (heap_mapped_end h) p in
          if r <? 0 then Ret (-1, set_mapped (heap_mapped_end h) (pmm_free_page phys p) h)
          else map_until_loop fuel addr (set_mapped (heap_mapped_end h + HPAGE_SIZE) p h)
      else Ret (0, h)
  end.

Definition heap_map_until (addr : Z) (h : heap) : out (Z * heap) :=
  map_until_loop (S (Z.to_nat ((addr - heap_mapped_end h + HPAGE_SIZE - 1) / HPAGE_SIZE))) addr h.

Definition heap_init (p : P) : out heap :=
  '(_, h) ← heap_map_until (HEAP_START + HEAP_INITIAL_PAGES * HPAGE_SIZE)
              (Heap ∅ 0 HEAP_START HEAP_START p);
  Ret h.

Definition heap_size_sane (sz baddr : Z) (h : heap) : bool :=
  let body := Z.land sz HEAP_SIZE_MASK in
  if body <? HEAP_MIN_BLOCK then false
  else if negb (Z.land body (HEAP_BLOCK_ALIGN - 1) =? 0) then false
  else if u64 (heap_brk h - baddr) <? body then false
  else true.

(** The checks every walk makes on a block address. *)
Definition bad_block (a : Z) (h : heap) : bool :=
  (a <? HEAP_START) || (heap_brk h <? u64 (a + HEAP_HEADER_SIZE)) ||
  negb (Z.land a (HEAP_BLOCK_ALIGN - 1) =? 0).

Definition bad_next (bnext baddr : Z) (h : heap) : bool :=
  negb (bnext =? 0) &&
  ((bnext <? HEAP_START) || (heap_brk h <? bnext) ||
   negb (Z.land bnext (HEAP_BLOCK_ALIGN - 1) =? 0) || (bnext <=? baddr)).

(** ** Allocation *)

(** Taking [need] bytes of the free block [b]. *)
Definition carve (prev b bnext block_size need : Z) (h : heap) : out heap :=
  let remaining := block_size - need in
  if HEAP_MIN_BLOCK <=? remaining then
    let split := b + need in
    let h := set_hdr split (Hdr (Z.lor remaining HEAP_BLOCK_FREE) bnext) h in
    h ← relink prev split h;
    Ret (set_hdr b (Hdr need HEAP_MAGIC_USED) h)
  else
    h ← relink prev bnext h;
    Ret (set_hdr b (Hdr block_size HEAP_MAGIC_USED) h).

(** The first-fit walk; [None]: no block of the list fits.  A walk visits
    each header at most once, so the number of headers bounds its length. *)
Fixpoint kmalloc_walk (fuel : nat) (steps prev b need : Z) (h : heap) : out (option (Z * heap)) :=
  match fuel with
  | O => Hang
  | S fuel =>
      if (b =? 0) || negb (steps <? HEAP_MAX_WALK) then Ret None
      else if bad_block b h then Ret None
      else
        x ← deref (hmem h !! b);
        if Z.land (hsize x) HEAP_BLOCK_FREE =? 0 then Ret None
        else
          let block_size := Z.land (hsize x) HEAP_SIZE_MASK in
          if (block_size <? HEAP_MIN_BLOCK) || negb (Z.land block_size (HEAP_BLOCK_ALIGN - 1) =? 0)
             || (u64 (heap_brk h - b) <? block_size)
          then Ret None
          else if bad_next (hword x) b h then Ret None
          else if need <=? block_size then
            h ← carve prev b (hword x) block_size need h;
            Ret (Some (b + HEAP_HEADER_SIZE, h))
          else kmalloc_walk fuel (steps + 1) b (hword x) need h
  end.

Definition block_need (n : Z) : Z :=
  let need := HEAP_HEADER_SIZE + HEAP_ALIGN n in
  if need <? HEAP_MIN_BLOCK then HEAP_MIN_BLOCK else need.

(** NULL is 0. *)
Definition heap_kmalloc (n : Z) (h : heap) : out (Z * heap) :=
  if n =? 0 then Ret (0, h)
  else
    let need := block_need n in
    o ← kmalloc_walk (S (size (hmem h))) 0 0 (heap_free_list h) need h;
    match o with
    | Some r => Ret r
    | None =>
        let addr := heap_brk h in
        let new_brk := u64 (addr + need) in
        if (new_brk <? addr) || (HEAP_END <? new_brk) then Ret (0, h)
        else
          '(r, h) ← heap_map_until new_brk h;
          if r <? 0 then Ret (0, h)
          else
            let h := set_brk new_brk h in
            Ret (addr + HEAP_HEADER_SIZE, set_hdr addr (Hdr need HEAP_MAGIC_USED) h)
    end.

(** ** Release *)

Definition heap_coalesce (b : Z) (h : heap) : out heap :=
  x ← deref (hmem h !! b);
  let body := Z.land (hsize x) HEAP_SIZE_MASK in
  let next := u64 (b + body) in
  if negb (next =? hword x) then Ret h
  else if heap_brk h <? u64 (next + HEAP_HEADER_SIZE) then Ret h
  else if negb (Z.land next (HEAP_BLOCK_ALIGN - 1) =? 0) then Ret h
  else
    y ← deref (hmem h !! next);
    if Z.land (hsize y) HEAP_BLOCK_FREE =? 0 then Ret h
    else if negb (heap_size_sane (hsize y) next h) then Ret h
    else Ret (set_hdr b (Hdr (Z.lor (u64 (body + Z.land (hsize y) HEAP_SIZE_MASK)) HEAP_BLOCK_FREE)
                             (hword y)) h).

(** The walk of [heap_shrink]: the free block that ends at the break, and the
    free block before it. *)
Fixpoint find_tail (fuel : nat) (steps prev cur : Z) (h : heap) : out (option (Z * Z)) :=
  match fuel with
  | O => Hang
  | S fuel =>
      if (cur =? 0) || negb (steps <? HEAP_MAX_WALK) then Ret None
      else if bad_block cur h then Ret None
      else
        x ← deref (hmem h !! cur);
        let csize := Z.land (hsize x) HEAP_SIZE_MASK in
        if Z.land (hsize x) HEAP_BLOCK_FREE =? 0 then Ret None
        else if (csize <? HEAP_MIN_BLOCK) || negb (Z.land csize (HEAP_BLOCK_ALIGN - 1) =? 0)
                || (u64 (heap_brk h - cur) <? csize)
        then Ret None
        else if u64 (cur + csize) =? heap_brk h then Ret (Some (cur, prev))
        else find_tail fuel (steps + 1) cur (hword x) h
  end.

(** [for (;;)]: give the tail back until the last block is in use. *)
Fixpoint shrink_loop (fuel : nat) (h : heap) : out heap :=
  match fuel with
  | O => Hang
  | S fuel =>
      o ← find_tail (S (size (hmem h))) 0 0 (heap_free_list h) h;
      match o with
      | None => Ret h
      | Some (tail, tail_prev) =>
          let h := set_brk tail h in
          x ← deref (hmem h !! tail);
          h ← relink tail_prev (hword x) h;
          shrink_loop fuel h
      end
  end.

Fixpoint unmap_until_loop (fuel : nat) (keep : Z) (h : heap) : out heap :=
  match fuel with
  | O => Hang
  | S fuel =>
      if keep <? heap_mapped_end h then
        let addr := heap_mapped_end h - HPAGE_SIZE in
        let phys := vmm_get_physical addr (hpages h) in
        let p := vmm_unmap_page addr (hpages h) in
        let p := if phys =? 0 then p else pmm_free_page phys p in
        unmap_until_loop fuel keep (set_mapped addr p h)
      else Ret h
  end.

Definition heap_shrink (h : heap) : out heap :=
  h ← shrink_loop (S (size (hmem h))) h;
  let keep := Z.land (u64 (heap_brk h + HPAGE_SIZE - 1)) (Z.lnot (HPAGE_SIZE - 1)) in
  let floor := HEAP_START + HEAP_INITIAL_PAGES * HPAGE_SIZE in
  let keep := if keep <? floor then floor else keep in
  unmap_until_loop (S (Z.to_nat ((heap_mapped_end h - keep + HPAGE_SIZE - 1) / HPAGE_SIZE))) keep h.

(** The place of [b] in the sorted free list: [Some (prev, cur)], or [None]
    when [b] is already in the list. *)
Fixpoint kfree_walk (fuel : nat) (steps prev cur b : Z) (h : heap) : out (option (Z * Z)) :=
  match fuel with
  | O => Hang
  | S fuel =>
      if (cur =? 0) || negb (steps <? HEAP_MAX_WALK) then Ret (Some (prev, cur))
      else if bad_block cur h then Ret (Some (prev, cur))
      else if cur =? b then Ret None
      else if b <? cur then Ret (Some (prev, cur))
      else
        x ← deref (hmem h !! cur);
        kfree_walk fuel (steps + 1) cur (hword x) b h
  end.

(** Putting the block between [prev] and [cur], and merging it with its
    neighbours. *)
Definition put_free (b block_size prev cur : Z) (h : heap) : out heap :=
  let h := set_hdr b (Hdr (Z.lor block_size HEAP_BLOCK_FREE) cur) h in
  h ← relink prev b h;
  h ← heap_coalesce b h;
  if prev =? 0 then Ret h
  else
    x ← deref (hmem h !! prev);
    if u64 (prev + Z.land (hsize x) HEAP_SIZE_MASK) =? b then heap_coalesce prev h else Ret h.

Definition heap_kfree (addr : Z) (h : heap) : out heap :=
  if addr =? 0 then Ret h
  else if (addr <? HEAP_START + HEAP_HEADER_SIZE) || (heap_brk h <=? addr) ||
          negb (Z.land addr (HEAP_BLOCK_ALIGN - 1) =? Z.land HEAP_HEADER_SIZE (HEAP_BLOCK_ALIGN - 1))
  then Ret h
  else
    let b := addr - HEAP_HEADER_SIZE in
    if bad_block b h then Ret h
    else
      x ← deref (hmem h !! b);
      if negb (Z.land (hsize x) HEAP_BLOCK_FREE =? 0) || negb (hword x =? HEAP_MAGIC_USED) then Ret h
      else
        let block_size := Z.land (hsize x) HEAP_SIZE_MASK in
        if negb (heap_size_sane (hsize x) b h) then Ret h
        else
          o ← kfree_walk (S (size (hmem h))) 0 0 (heap_free_list h) b h;
          match o with
          | None => Ret h
          | Some (prev, cur) =>
              h ← put_free b block_size prev cur h;
              heap_shrink h
          end.

(** [kcalloc] returns the block and how many of its bytes it set to zero. *)
Definition heap_kcalloc (count n : Z) (h : heap) : out (Z * Z * heap) :=
  if negb (count =? 0) && negb (n =? 0) && (0xFFFFFFFF / count <? n) then Ret (0, 0, h)
  else
    let total := u32 (count * n) in
    '(ptr, h) ← heap_kmalloc total h;
    Ret (ptr, if ptr =? 0 then 0 else total, h).
End ops.
Arguments heap P : clear implicits.

(** ** Header words *)

Lemma land_15 a : Z.land a (HEAP_BLOCK_ALIGN - 1) = a mod 16.
Proof. apply (Z.land_ones a 4). lia. Qed.

Lemma mask_even x : in_u64 x -> Z.land x HEAP_SIZE_MASK = 2 * (x / 2).
Proof. intros Hx. apply (land_mask 64 1 x); [lia|done]. Qed.

Lemma lor_free_bit sz : sz mod 16 = 0 -> Z.lor sz HEAP_BLOCK_FREE = sz + 1.
Proof.
  intros Hs. unfold HEAP_BLOCK_FREE. rewrite (Z.div_mod sz 16) by lia. rewrite Hs, Z.add_0_r.
  replace (16 * (sz / 16)) with (Z.shiftl (8 * (sz / 16)) 1) by (rewrite Z.shiftl_mul_pow2; lia).
  symmetry.
  rewrite Z.add_nocarry_lxor; [apply Z.lxor_lor|]; apply Z.bits_inj'; intros n Hn;
    rewrite Z.land_spec, Z.shiftl_spec, Z.bits_0 by done;
    (destruct (Z.eq_dec n 0) as [->|]; [by rewrite Z.testbit_neg_r by lia|]);
    rewrite (Z.bits_above_log2 1) by (simpl; lia); apply andb_false_r.
Qed.

(** A sum that did not come out smaller did not wrap. *)
Lemma u64_no_wrap a n : 2 ^ 63 <= a < 2 ^ 64 /\ 0 <= n < 2 ^ 63 -> a <= u64 (a + n) -> u64 (a + n) = a + n.
Proof.
  intros Ha Hle. destruct (Z.lt_ge_cases (a + n) (2 ^ 64)) as [|Hge]; [apply u64_small; split; lia|].
  exfalso. unfold u64 in Hle.
  rewrite <- (Z_mod_plus_full (a + n) (-1)), Z.mod_small in Hle by lia. lia.
Qed.

(** What the code reads back from a size word. *)
Lemma free_word sz :
  sz mod 16 = 0 -> 0 <= sz < 2 ^ 63 ->
  Z.land (Z.lor sz HEAP_BLOCK_FREE) HEAP_BLOCK_FREE = 1 /\
  Z.land (Z.lor sz HEAP_BLOCK_FREE) HEAP_SIZE_MASK = sz.
Proof.
  intros Hm Hs. rewrite lor_free_bit by done.
  pose proof (Z.div_mod sz 16 ltac:(lia)) as Hd. split.
  - change HEAP_BLOCK_FREE with (Z.ones 1). rewrite Z.land_ones by lia.
    symmetry. apply (Z.mod_unique _ _ (8 * (sz / 16))); lia.
  - rewrite mask_even by (split; lia).
    replace ((sz + 1) / 2) with (8 * (sz / 16)); [lia|].
    apply (Z.div_unique _ _ _ 1); lia.
Qed.

Lemma used_word sz :
  sz mod 16 = 0 -> 0 <= sz < 2 ^ 63 ->
  Z.land sz HEAP_BLOCK_FREE = 0 /\ Z.land sz HEAP_SIZE_MASK = sz.
Proof.
  intros Hm Hs. pose proof (Z.div_mod sz 16 ltac:(lia)) as Hd. split.
  - change HEAP_BLOCK_FREE with (Z.ones 1). rewrite Z.land_ones by lia.
    symmetry. apply (Z.mod_unique _ _ (8 * (sz / 16))); lia.
  - rewrite mask_even by (split; lia).
    replace (sz / 2) with (8 * (sz / 16)); [lia|]. apply (Z.div_unique _ _ _ 0); lia.
Qed.

(** ** Tilings *)

Record tile := Tile { t_addr : Z; t_size : Z; t_free : bool }.

(** The tiles cover [a, e) without gaps; every size is a legal one. *)
Fixpoint tiled (a : Z) (l : list tile) (e : Z) : Prop :=
  match l with
  | [] => a = e
  | t :: l => t_addr t = a /\ HEAP_MIN_BLOCK <= t_size t /\ t_size t mod 16 = 0 /\
              tiled (a + t_size t) l e
  end.

(** The first free block ([nx] when there is none), and the last one. *)
Fixpoint first_free (l : list tile) (nx : Z) : Z :=
  match l with
  | [] => nx
  | t :: l => if t_free t then t_addr t else first_free l nx
  end.
Fixpoint last_free (l : list tile) (pv : Z) : Z :=
  match l with
  | [] => pv
  | t :: l => last_free l (if t_free t then t_addr t else pv)
  end.

Definition hdr_of (t : tile) (nx : Z) : hdr :=
  if t_free t then Hdr (Z.lor (t_size t) HEAP_BLOCK_FREE) nx else Hdr (t_size t) HEAP_MAGIC_USED.

(** The headers in memory say what the tiles say, the free ones linked in
    address order. *)
Fixpoint encoded (m : gmap Z hdr) (l : list tile) (nx : Z) : Prop :=
  match l with
  | [] => True
  | t :: l => m !! t_addr t = Some (hdr_of t (first_free l nx)) /\ encoded m l nx
  end.

Lemma tiled_app a l1 l2 e : tiled a (l1 ++ l2) e <-> exists m, tiled a l1 m /\ tiled m l2 e.
Proof.
  revert a. induction l1 as [|t l1 IH]; intros a; simpl.
  - split; [by exists a | by intros (m & -> & ?)].
  - rewrite IH. naive_solver.
Qed.

Lemma first_free_app l1 l2 nx : first_free (l1 ++ l2) nx = first_free l1 (first_free l2 nx).
Proof. induction l1 as [|t l1 IH]; simpl; [done|]. by destruct (t_free t). Qed.

Lemma last_free_app l1 l2 pv : last_free (l1 ++ l2) pv = last_free l2 (last_free l1 pv).
Proof. revert pv. induction l1; intros; simpl; done. Qed.

Lemma encoded_app m l1 l2 nx :
  encoded m (l1 ++ l2) nx <-> encoded m l1 (first_free l2 nx) /\ encoded m l2 nx.
Proof. induction l1 as [|t l1 IH]; simpl; [naive_solver|]. rewrite first_free_app, IH. naive_solver. Qed.

Lemma tiled_le a l e : tiled a l e -> a + 32 * Z.of_nat (length l) <= e.
Proof.
  revert a. induction l as [|t l IH]; intros a; simpl; [lia|].
  unfold HEAP_MIN_BLOCK. intros (_ & ? & _ & H%IH). lia.
Qed.

Lemma tiled_end a l e e' : tiled a l e -> tiled a l e' -> e = e'.
Proof. revert a. induction l as [|t l IH]; intros a; simpl; [congruence|naive_solver]. Qed.

Lemma tiled_in a l e t :
  tiled a l e -> t ∈ l ->
  a <= t_addr t /\ t_addr t + t_size t <= e /\ HEAP_MIN_BLOCK <= t_size t /\ t_size t mod 16 = 0.
Proof.
  revert a. induction l as [|u l IH]; intros a; [by intros _ ?%elem_of_nil|].
  simpl. intros (Ha & Hs & Hm & Ht) [->|Hin]%elem_of_cons.
  - pose proof (tiled_le _ _ _ Ht). repeat split; [lia..|done|done].
  - destruct (IH _ Ht Hin) as (? & ? & ? & ?). unfold HEAP_MIN_BLOCK in *. repeat split; lia.
Qed.

Lemma tiled_aligned a l e t : a mod 16 = 0 -> tiled a l e -> t ∈ l -> t_addr t mod 16 = 0.
Proof.
  revert a. induction l as [|u l IH]; intros a Ha; [by intros _ ?%elem_of_nil|].
  simpl. intros (Hu & _ & Hm & Ht) [->|Hin]%elem_of_cons; [by rewrite Hu|].
  apply (IH (a + t_size u)); [|done..]. by rewrite Zplus_mod, Ha, Hm.
Qed.

Lemma tiled_end_aligned a l e : a mod 16 = 0 -> tiled a l e -> e mod 16 = 0.
Proof.
  revert a. induction l as [|u l IH]; intros a Ha; simpl; [by intros <-|].
  intros (_ & _ & Hm & Ht). apply (IH (a + t_size u)); [|done]. by rewrite Zplus_mod, Ha, Hm.
Qed.

Lemma encoded_frame m m' l nx :
  (forall t, t ∈ l -> m' !! t_addr t = m !! t_addr t) -> encoded m l nx -> encoded m' l nx.
Proof.
  induction l as [|t l IH]; simpl; [done|]. intros Hm [Ht Hl].
  rewrite (Hm t) by set_solver. split; [done|]. apply IH; [|done]. intros; apply Hm. set_solver.
Qed.

(** A block without free tiles does not depend on the successor. *)
Lemma no_free l : Forall (fun t => t_free t = false) l ->
  (forall nx, first_free l nx = nx) /\ (forall pv, last_free l pv = pv) /\
  (forall m nx nx', encoded m l nx -> encoded m l nx').
Proof.
  induction 1 as [|t l Ht Hl (IH1 & IH2 & IH3)]; simpl; [done|]. rewrite Ht.
  split; [done|]. split; [done|]. unfold hdr_of. rewrite Ht. naive_solver.
Qed.

(** A list of tiles has no free one, or splits at the last free one. *)
Lemma split_last_free l :
  Forall (fun t => t_free t = false) l \/
  exists l1 t l2, l = l1 ++ t :: l2 /\ t_free t = true /\ Forall (fun t => t_free t = false) l2.
Proof.
  induction l as [|t l IH]; [by left|]. destruct IH as [IH|(l1 & u & l2 & -> & Hu & Hl2)].
  - destruct (t_free t) eqn:E; [right; by exists [], t, l | left; by constructor].
  - right. by exists (t :: l1), u, l2.
Qed.

(** ** What a release does to the tiles *)

(** The free tile [t] merged with the first of [lb], if that is free. *)
Definition join_next (t : tile) (lb : list tile) : list tile :=
  match lb with
  | u :: lb' => if t_free u then Tile (t_addr t) (t_size t + t_size u) true :: lb' else t :: lb
  | [] => [t]
  end.

(** The tiles [r], the first of them free, merged with the last of [la]. *)
Fixpoint join_prev (la r : list tile) : list tile :=
  match la with
  | [] => r
  | u :: la' => match la' with [] => if t_free u then join_next u r else u :: r | _ => u :: join_prev la' r end
  end.

(** The tiles without the free ones at the end. *)
Fixpoint trim (l : list tile) : list tile :=
  match l with
  | [] => []
  | t :: l => match trim l with [] => if t_free t then [] else [t] | l' => t :: l' end
  end.

Definition released (la : list tile) (t : tile) (lb : list tile) : list tile :=
  trim (join_prev la (join_next (Tile (t_addr t) (t_size t) true) lb)).

(** No two free tiles side by side. *)
Fixpoint compact (l : list tile) : Prop :=
  match l with
  | t :: l' => match l' with u :: _ => t_free t && t_free u = false | [] => True end /\ compact l'
  | [] => True
  end.

Lemma join_prev_snoc l u r : join_prev (l ++ [u]) r = l ++ (if t_free u then join_next u r else u :: r).
Proof.
  induction l as [|t l IH]; [done|]. cbn [join_prev app]. destruct (l ++ [u]) as [|v l'] eqn:E; [by destruct l|].
  by rewrite IH.
Qed.

Lemma trim_snoc_free l t : t_free t = true -> trim (l ++ [t]) = trim l.
Proof. intros Ht. induction l as [|u l IH]; simpl; [by rewrite Ht|]. by rewrite IH. Qed.

Lemma trim_used l t : t_free t = false -> trim (l ++ [t]) = l ++ [t].
Proof. intros Ht. induction l as [|u l IH]; simpl; [by rewrite Ht|]. rewrite IH. by destruct l. Qed.

Lemma compact_app l1 l2 : compact (l1 ++ l2) -> compact l1 /\ compact l2.
Proof.
  induction l1 as [|t l1 IH]; [done|]. cbn [app compact]. intros [Ht [H1 H2]%IH]. split; [|done]. split; [|done].
  by destruct l1.
Qed.

Lemma compact_cons t l : (forall u l', l = u :: l' -> t_free t && t_free u = false) -> compact l -> compact (t :: l).
Proof. intros Ht Hl. split; [|done]. destruct l; [done|]. by eapply Ht. Qed.

Lemma compact_snoc l1 t l2 : compact (l1 ++ [t]) -> compact (t :: l2) -> compact (l1 ++ t :: l2).
Proof.
  induction l1 as [|u l1 IH]; [done|]. cbn [app compact]. intros [Hu H1] H2. split; [|by apply IH]. by destruct l1.
Qed.

(** Merging with a free neighbour. *)
Lemma compact_join_next t lb : t_free t = true -> compact lb -> compact (join_next t lb).
Proof.
  intros Ht Hc. destruct lb as [|u lb]; [done|]. cbn [join_next]. destruct (t_free u) eqn:Hu.
  - destruct Hc as [Hc1 Hc2]. split; [|done]. destruct lb; [done|]. by rewrite Hu in Hc1.
  - split; [|done]. by rewrite Hu, andb_false_r.
Qed.

Lemma join_next_head t lb : t_free t = true -> exists u l, join_next t lb = u :: l /\ t_free u = true /\ t_addr u = t_addr t.
Proof. intros Ht. destruct lb as [|u lb]; [by exists t, []|]. cbn [join_next]. destruct (t_free u); eauto. Qed.

Lemma compact_trim l : compact l -> compact (trim l).
Proof.
  induction l as [|t l IH]; [done|]. intros Hc. pose proof Hc as [_ Hc2]. specialize (IH Hc2). cbn [trim].
  destruct (trim l) as [|v l'] eqn:E; [by destruct (t_free t)|]. apply compact_cons; [|done].
  intros u l2 [= <- <-]. destruct l as [|w l]; [done|]. cbn [trim] in E. destruct Hc as [Hw _].
  destruct (trim l); [destruct (t_free w) eqn:Ew; [done|]|]; injection E as <- _; first [exact Hw|by rewrite Ew].
Qed.

Lemma compact_released la t lb : compact (la ++ t :: lb) -> compact (released la t lb).
Proof.
  intros Hc. apply compact_trim. pose proof (compact_app _ _ Hc) as [Hla [_ Hlb]].
  pose proof (compact_join_next (Tile (t_addr t) (t_size t) true) lb eq_refl Hlb) as Hr.
  destruct (join_next_head (Tile (t_addr t) (t_size t) true) lb eq_refl) as (v & r & Er & Hv & _). rewrite Er in Hr |- *.
  destruct la as [|u l _] using rev_ind; [done|]. rewrite join_prev_snoc. destruct (t_free u) eqn:Hu.
  - pose proof (compact_join_next u (v :: r) Hu Hr) as Hj. cbn [join_next] in Hj |- *. rewrite Hv in Hj |- *.
    destruct (compact_app _ _ Hla) as [Hl _]. clear Hc Er. induction l as [|w l IH]; [done|].
    cbn [app compact] in Hla, Hl |- *. destruct Hla as [Hw Hla]. split; [|by apply IH; [|destruct Hl]].
    destruct l; [|done]. cbn [app] in *. by rewrite Hu in Hw.
  - apply compact_snoc; [done|]. split; [by rewrite Hu|done].
Qed.

Section layout.
Context {P : Type} `{!PageOps P}.
Implicit Types (h : heap P).

(** The heap is laid out as the tiles [l]. *)
Definition layout h (l : list tile) : Prop :=
  tiled HEAP_START l (heap_brk h) /\ encoded (hmem h) l 0 /\
  heap_free_list h = first_free l 0 /\
  heap_brk h <= heap_mapped_end h <= HEAP_END /\ HEAP_START <= heap_mapped_end h /\
  heap_mapped_end h mod HPAGE_SIZE = 0.

Definition heap_wf h : Prop := exists l, layout h l.

(** Nothing but headers and the free list changed. *)
Definition same_region h h' : Prop :=
  heap_brk h' = heap_brk h /\ heap_mapped_end h' = heap_mapped_end h /\ hpages h' = hpages h.

Lemma tiled_pos a l e t : 0 < a -> tiled a l e -> t ∈ l -> t_addr t <> 0.
Proof. intros Ha Ht Hin. destruct (tiled_in _ _ _ _ Ht Hin). lia. Qed.

(** Tiles have different addresses. *)
Lemma tiled_mid_ne a l1 t l2 e u :
  tiled a (l1 ++ t :: l2) e -> u ∈ l1 ++ l2 -> t_addr u <> t_addr t.
Proof.
  intros (m & H1 & H2)%tiled_app. simpl in H2. destruct H2 as (Ht & Hs & _ & H2).
  unfold HEAP_MIN_BLOCK in *.
  intros [Hin|Hin]%elem_of_app.
  - destruct (tiled_in _ _ _ _ H1 Hin) as (_ & ? & ? & _). unfold HEAP_MIN_BLOCK in *. lia.
  - destruct (tiled_in _ _ _ _ H2 Hin) as (? & _). lia.
Qed.

(** [relink (last free of la) nx'] makes [nx'] the successor of [la]. *)
Lemma relink_spec a la e nx nx' h :
  0 < a -> tiled a la e -> encoded (hmem h) la nx -> heap_free_list h = first_free la nx ->
  returns (relink (last_free la 0) nx' h) (fun h' =>
    encoded (hmem h') la nx' /\ heap_free_list h' = first_free la nx' /\ same_region h h' /\
    forall k, (forall t, t ∈ la -> t_addr t <> k) -> hmem h' !! k = hmem h !! k).
Proof.
  intros Ha Ht He Hf. destruct (split_last_free la) as [Hn|(l1 & t & l2 & -> & Hfr & Hn)].
  - destruct (no_free _ Hn) as (N1 & N2 & N3). rewrite N2. unfold relink. simpl.
    rewrite N1. split; [by eapply N3|done].
  - destruct (no_free _ Hn) as (N1 & N2 & N3).
    rewrite last_free_app. simpl. rewrite Hfr, N2.
    pose proof (tiled_pos _ _ _ t Ha Ht ltac:(set_solver)) as Hz.
    pose proof (fun u => tiled_mid_ne a l1 t l2 e u Ht) as Hmid.
    apply encoded_app in He as [He1 He2]. simpl in He1, He2. destruct He2 as [Hh He2].
    rewrite Hfr in He1. rewrite first_free_app in Hf. simpl in Hf. rewrite Hfr in Hf.
    unfold relink. rewrite (proj2 (Z.eqb_neq _ _)) by done. rewrite Hh.
    cbn [deref mbind out_bind returns set_hdr hmem heap_free_list].
    rewrite first_free_app. simpl. rewrite Hfr. split; [|split; [done|split; [done|]]].
    + apply encoded_app. simpl. rewrite Hfr. split.
      { eapply encoded_frame, He1. intros u Hu. apply lookup_insert_ne. symmetry.
        apply Hmid. set_solver. }
      split.
      { rewrite lookup_insert_eq. unfold hdr_of. rewrite Hfr. simpl. by rewrite N1. }
      eapply encoded_frame, N3, He2. intros u Hu. apply lookup_insert_ne. symmetry.
      apply Hmid. set_solver.
    + intros k Hk. apply lookup_insert_ne. apply Hk. set_solver.
Qed.

(** The tiles an allocation of [need] bytes leaves of a free one. *)
Definition carved (t : tile) (need : Z) : list tile :=
  if HEAP_MIN_BLOCK <=? t_size t - need
  then [Tile (t_addr t) need false; Tile (t_addr t + need) (t_size t - need) true]
  else [Tile (t_addr t) (t_size t) false].

Lemma mod16_sub a b : a mod 16 = 0 -> b mod 16 = 0 -> (a - b) mod 16 = 0.
Proof. intros Ha Hb. rewrite Zminus_mod, Ha, Hb. done. Qed.

Lemma HEAP_START_pos : 0 < HEAP_START.
Proof. done. Qed.

(** Writing a header and linking the previous free block commute. *)
Lemma relink_set prev v b x h :
  prev <> b ->
  (h' ← relink prev v h; Ret (set_hdr b x h')) = relink prev v (set_hdr b x h).
Proof.
  intros Hne. unfold relink. destruct (prev =? 0); [done|].
  cbn [set_hdr hmem]. rewrite lookup_insert_ne by done. destruct (hmem h !! prev); [|done].
  cbn. unfold set_hdr. cbn. by rewrite insert_insert_ne.
Qed.

(** Replacing the tiles [mid] by [mid'] in place: write the headers of [mid']
    and link the last free block before them to the first one of what follows. *)
Lemma relink_mid h h0 la mid mid' lb s e :
  layout h (la ++ mid ++ lb) -> tiled HEAP_START la s -> tiled s mid e -> tiled s mid' e ->
  heap_free_list h0 = heap_free_list h -> same_region h h0 ->
  (forall k, k < s \/ e <= k -> hmem h0 !! k = hmem h !! k) ->
  encoded (hmem h0) mid' (first_free lb 0) ->
  returns (relink (last_free la 0) (first_free (mid' ++ lb) 0) h0) (fun h' =>
    layout h' (la ++ mid' ++ lb) /\ same_region h h').
Proof.
  intros (Ht & He & Hf & Hrest) Hla Hmid Hmid' Hfl (Rb & Rm & Rp) Hout Henc.
  apply tiled_app in Ht as (s' & Hla' & Ht). apply tiled_app in Ht as (e' & Hmid2 & Hlb).
  apply encoded_app in He as [He1 He2]. apply encoded_app in He2 as [_ He3].
  assert (s' = s) as -> by (by eapply tiled_end). assert (e' = e) as -> by (by eapply tiled_end).
  assert (s <= e) as Hse by (apply tiled_le in Hmid; lia).
  assert (forall u, u ∈ la -> t_addr u < s) as HA.
  { intros u Hu. destruct (tiled_in _ _ _ _ Hla Hu) as (_ & ? & ? & _). unfold HEAP_MIN_BLOCK in *. lia. }
  assert (forall u, u ∈ lb -> e <= t_addr u) as HB.
  { intros u Hu. destruct (tiled_in _ _ _ _ Hlb Hu). lia. }
  eapply returns_mono.
  { apply (relink_spec HEAP_START la s (first_free (mid ++ lb) 0)); [done|done| |].
    - eapply encoded_frame, He1. intros u Hu. apply Hout. left. auto.
    - by rewrite Hfl, Hf, first_free_app. }
  intros h' (E1 & E2 & (B & M & Pg) & Hfrm). split; [|unfold same_region; by rewrite B, M, Pg, Rb, Rm, Rp].
  split; [|split; [|split]].
  - rewrite B, Rb. apply tiled_app. exists s. split; [done|]. apply tiled_app. by exists e.
  - apply encoded_app. split; [done|]. apply encoded_app. split.
    + eapply encoded_frame, Henc. intros u Hu. apply Hfrm. intros v Hv.
      specialize (HA v Hv). destruct (tiled_in _ _ _ _ Hmid' Hu). lia.
    + eapply encoded_frame, He3. intros u Hu. specialize (HB u Hu). rewrite Hfrm.
      * apply Hout. by right.
      * intros v Hv. specialize (HA v Hv). lia.
  - by rewrite first_free_app.
  - by rewrite B, M, Rb, Rm.
Qed.

(** A tiling split in three, with the two cut points. *)
Lemma layout_split h la mid lb :
  layout h (la ++ mid ++ lb) ->
  exists s e, tiled HEAP_START la s /\ tiled s mid e /\ tiled e lb (heap_brk h) /\
    HEAP_START <= s <= e /\ e <= heap_brk h.
Proof.
  intros [Ht _]. apply tiled_app in Ht as (s & H1 & Ht). apply tiled_app in Ht as (e & H2 & H3).
  exists s, e. pose proof (tiled_le _ _ _ H1). pose proof (tiled_le _ _ _ H2).
  pose proof (tiled_le _ _ _ H3). split; [done|]. split; [done|]. split; [done|lia].
Qed.

Lemma last_free_lt la s : tiled HEAP_START la s -> last_free la 0 < s.
Proof.
  intros Ht. destruct (split_last_free la) as [Hn|(l1 & t & l2 & -> & Hfr & Hn)].
  - destruct (no_free _ Hn) as (_ & -> & _). apply tiled_le in Ht. pose proof HEAP_START_pos. lia.
  - rewrite last_free_app. simpl. rewrite Hfr. destruct (no_free _ Hn) as (_ & -> & _).
    destruct (tiled_in _ _ _ t Ht) as (_ & ? & ? & _); [set_solver|]. unfold HEAP_MIN_BLOCK in *. lia.
Qed.

Lemma carve_spec h la t lb need :
  layout h (la ++ t :: lb) -> t_free t = true ->
  HEAP_MIN_BLOCK <= need <= t_size t -> need mod 16 = 0 ->
  returns (carve (last_free la 0) (t_addr t) (first_free lb 0) (t_size t) need h) (fun h' =>
    layout h' (la ++ carved t need ++ lb) /\ same_region h h').
Proof.
  intros Hl Hfr Hneed Hm.
  destruct (layout_split h la [t] lb Hl) as (s & e & H1 & H2 & _ & Hse & _).
  pose proof (last_free_lt _ _ H1) as Hlt.
  simpl in H2. destruct H2 as (Hat & Hst & Hmt & Hend). unfold HEAP_MIN_BLOCK in *.
  unfold carve, carved, HEAP_MIN_BLOCK.
  destruct (Z.leb_spec 32 (t_size t - need)) as [Hsplit|Hsplit]; rewrite relink_set by lia.
  - set (mid' := [Tile (t_addr t) need false; Tile (t_addr t + need) (t_size t - need) true]).
    apply (relink_mid h _ la [t] mid' lb s e);
      [done|done|done| |done|done| |].
    + simpl. unfold HEAP_MIN_BLOCK. repeat split; [lia..|by apply mod16_sub|lia].
    + intros k Hk. cbn [set_hdr hmem]. rewrite !lookup_insert_ne by lia. done.
    + simpl. rewrite lookup_insert_eq, lookup_insert_ne, lookup_insert_eq by lia. done.
  - apply (relink_mid h _ la [t] [Tile (t_addr t) (t_size t) false] lb s e);
      [done|done|done| |done|done| |].
    + done.
    + intros k Hk. cbn [set_hdr hmem]. rewrite lookup_insert_ne by lia. done.
    + simpl. by rewrite lookup_insert_eq.
Qed.

(** Every check a walk makes on a tile succeeds. *)
Lemma tile_checks h l t :
  layout h l -> t ∈ l ->
  t_addr t <> 0 /\ bad_block (t_addr t) h = false /\ 0 <= t_size t < 2 ^ 63 /\
  ((t_size t <? HEAP_MIN_BLOCK) || negb (Z.land (t_size t) (HEAP_BLOCK_ALIGN - 1) =? 0)
     || (u64 (heap_brk h - t_addr t) <? t_size t)) = false /\
  u64 (t_addr t + t_size t) = t_addr t + t_size t /\ t_addr t mod 16 = 0 /\
  t_addr t + t_size t <= heap_brk h.
Proof.
  intros (Ht & _ & _ & Hb & _) Hin. destruct (tiled_in _ _ _ _ Ht Hin) as (H1 & H2 & H3 & H4).
  pose proof (tiled_aligned HEAP_START _ _ t eq_refl Ht Hin) as H5.
  unfold bad_block. rewrite !land_15, H4, H5.
  unfold HEAP_MIN_BLOCK, HEAP_START, HEAP_END, HEAP_HEADER_SIZE in *.
  rewrite !u64_small by (unfold in_u64; lia).
  rewrite !(proj2 (Z.ltb_ge _ _)) by lia. repeat split; lia.
Qed.

Lemma first_free_in l nx :
  first_free l nx = nx \/ exists t, t ∈ l /\ t_free t = true /\ first_free l nx = t_addr t.
Proof.
  induction l as [|t l IH]; simpl; [by left|]. destruct (t_free t) eqn:E.
  - right. exists t. split; [apply list_elem_of_here|done].
  - destruct IH as [IH|(u & ? & ? & ?)]; [by left|]. right. exists u.
    split; [by apply list_elem_of_further|done].
Qed.

Lemma next_checks h la t lb :
  layout h (la ++ t :: lb) -> bad_next (first_free lb 0) (t_addr t) h = false.
Proof.
  intros Hl. unfold bad_next. destruct (first_free_in lb 0) as [->|(u & Hu & _ & ->)]; [done|].
  destruct (layout_split h la [t] lb Hl) as (s & e & _ & H2 & H3 & _ & _).
  destruct H2 as (Hat & Hs & _ & He). simpl in He. subst.
  destruct (tiled_in _ _ _ _ H3 Hu) as (? & ? & ? & _).
  destruct (tile_checks h _ u Hl) as (_ & Hbad & _ & _ & _ & Hal & _); [set_solver|].
  unfold bad_block in Hbad. apply orb_false_elim in Hbad as [Hbad _].
  apply orb_false_elim in Hbad as [Hbad _]. unfold HEAP_MIN_BLOCK in *.
  rewrite land_15, Hal, Hbad.
  rewrite (proj2 (Z.ltb_ge _ _)), (proj2 (Z.leb_gt _ _)) by lia. simpl. by rewrite andb_false_r.
Qed.

(** What a walk reads from a free tile. *)
Lemma free_tile h la t lb :
  layout h (la ++ t :: lb) -> t_free t = true ->
  exists x, hmem h !! t_addr t = Some x /\ hword x = first_free lb 0 /\
    Z.land (hsize x) HEAP_BLOCK_FREE = 1 /\ Z.land (hsize x) HEAP_SIZE_MASK = t_size t.
Proof.
  intros Hl Hfr. destruct (tile_checks h _ t Hl) as (_ & _ & Hs & _); [set_solver|].
  destruct Hl as (Ht & He & _). apply encoded_app in He as [_ [Hx _]].
  unfold hdr_of in Hx. rewrite Hfr in Hx. eexists. split; [done|]. split; [done|].
  apply free_word; [|done]. eapply (tiled_in _ _ _ _ Ht). set_solver.
Qed.

Lemma kmalloc_walk_spec h need lb : forall la fuel steps,
  layout h (la ++ lb) -> HEAP_MIN_BLOCK <= need -> need mod 16 = 0 ->
  (length lb < fuel)%nat -> steps + Z.of_nat (length lb) <= HEAP_MAX_WALK ->
  returns (kmalloc_walk fuel steps (last_free la 0) (first_free lb 0) need h) (fun o =>
    match o with
    | None => Forall (fun t => t_free t = true -> t_size t < need) lb
    | Some (p, h') => exists l1 t l2,
        la ++ lb = l1 ++ t :: l2 /\ t_free t = true /\ need <= t_size t /\
        p = t_addr t + HEAP_HEADER_SIZE /\ layout h' (l1 ++ carved t need ++ l2) /\ same_region h h'
    end).
Proof.
  induction lb as [|t lb IH]; intros la fuel steps Hl Hn Hm Hfu Hst;
    [destruct fuel; [simpl in Hfu; lia|]; by constructor|].
  assert (layout h ((la ++ [t]) ++ lb)) as Hl' by (by rewrite <- app_assoc).
  pose proof (IH (la ++ [t])) as IH'. rewrite last_free_app, <- (app_assoc la) in IH'.
  simpl in IH', Hfu, Hst |- *. destruct (t_free t) eqn:Hfr.
  - destruct fuel as [|fuel]; [lia|].
    destruct (tile_checks h _ t Hl) as (Hz & Hb & Hs & Hc & _); [set_solver|].
    destruct (free_tile h la t lb Hl Hfr) as (x & Hx & Hw & Hf1 & Hf2).
    cbn [kmalloc_walk]. rewrite (proj2 (Z.eqb_neq _ _) Hz), (proj2 (Z.ltb_lt _ _)) by lia.
    cbn [negb orb]. rewrite Hb, Hx. cbn [deref mbind out_bind]. rewrite Hf1, Hf2, Hc, Hw.
    rewrite (next_checks h la t lb Hl). cbn [Z.eqb].
    destruct (Z.leb_spec need (t_size t)) as [Hle|Hgt].
    + eapply returns_bind; [by apply carve_spec|]. intros h' [Hlay Hreg]. cbn [returns].
      by exists la, t, lb.
    + eapply returns_mono; [apply IH'; [by rewrite <- app_assoc in Hl'|done|done|lia|lia]|].
      intros [[p h']|] Ho; [done|]. constructor; [intros _; lia|done].
  - eapply returns_mono; [apply IH'; [by rewrite <- app_assoc in Hl'|done|done|lia|lia]|].
    intros [[p h']|] Ho; [done|]. constructor; [by rewrite Hfr|done].
Qed.

(** *** The blocks of a heap, read off its headers *)

Fixpoint tiles_from (fuel : nat) (a : Z) h : list tile :=
  match fuel with
  | O => []
  | S fuel =>
      if heap_brk h <=? a then []
      else match hmem h !! a with
           | None => []
           | Some x =>
               let sz := Z.land (hsize x) HEAP_SIZE_MASK in
               Tile a sz (negb (Z.land (hsize x) HEAP_BLOCK_FREE =? 0)) :: tiles_from fuel (a + sz) h
           end
  end.

Definition heap_tiles h : list tile := tiles_from (S (size (hmem h))) HEAP_START h.

Definition used_block (t : tile) : option (Z * Z) :=
  if t_free t then None else Some (t_addr t + HEAP_HEADER_SIZE, t_size t - HEAP_HEADER_SIZE).

(** The allocated blocks: payload address and capacity. *)
Definition heap_blocks h : list (Z * Z) := omap used_block (heap_tiles h).

Lemma layout_length h l : layout h l -> (length l <= size (hmem h))%nat.
Proof.
  intros (Ht & He & _). rewrite <- (length_fmap t_addr l), <- size_dom.
  rewrite <- (size_list_to_set (C := gset Z) (t_addr <$> l)).
  - apply subseteq_size. intros a. rewrite elem_of_list_to_set, list_elem_of_fmap.
    intros (t & -> & (l1 & l2 & ->)%list_elem_of_split). apply encoded_app in He as [_ [He _]].
    by apply elem_of_dom_2 in He.
  - clear He. revert Ht. generalize HEAP_START. induction l as [|t l IH]; intros a; simpl; [constructor|].
    intros (Ha & Hs & _ & Ht). constructor; [|by eapply IH].
    rewrite list_elem_of_fmap. intros (u & Hu & Hin). destruct (tiled_in _ _ _ _ Ht Hin).
    unfold HEAP_MIN_BLOCK in *. lia.
Qed.

Lemma layout_tiles h l : layout h l -> heap_tiles h = l.
Proof.
  intros Hl. unfold heap_tiles. pose proof (layout_length h l Hl) as Hlen.
  assert (forall lb la fuel a, la ++ lb = l -> tiled a lb (heap_brk h) -> (length lb < fuel)%nat ->
    tiles_from fuel a h = lb) as Hgen;
    [|apply (Hgen l []); [done|by destruct Hl|lia]].
  induction lb as [|t lb IH]; intros la fuel a Heq Ht Hf; (destruct fuel as [|fuel]; [simpl in Hf; lia|]);
    simpl in Ht, Hf |- *.
  - by rewrite (proj2 (Z.leb_le _ _)) by lia.
  - destruct Ht as (<- & Hs & Hmod & Ht). pose proof (tiled_le _ _ _ Ht). unfold HEAP_MIN_BLOCK in *.
    rewrite (proj2 (Z.leb_gt _ _)) by lia.
    destruct (tile_checks h l t Hl) as (_ & _ & Hsz & _); [set_solver|].
    pose proof Hl as (_ & He & _). rewrite <- Heq in He. apply encoded_app in He as [_ [Hx _]].
    rewrite Hx. unfold hdr_of. destruct t as [ta ts tf]. simpl in *.
    destruct tf; cbn [hsize].
    + destruct (free_word ts) as [-> ->]; [done..|]. simpl. f_equal.
      apply (IH (la ++ [Tile ta ts true])); [by rewrite <- app_assoc|done|lia].
    + destruct (used_word ts) as [-> ->]; [done..|]. simpl. f_equal.
      apply (IH (la ++ [Tile ta ts false])); [by rewrite <- app_assoc|done|lia].
Qed.

Lemma layout_blocks h l : layout h l -> heap_blocks h = omap used_block l.
Proof. intros Hl. unfold heap_blocks. by rewrite (layout_tiles h l). Qed.

Lemma layout_walk_bound h l : layout h l -> Z.of_nat (length l) <= HEAP_MAX_WALK.
Proof.
  intros (Ht & _ & _ & Hb & _). apply tiled_le in Ht.
  unfold HEAP_MAX_WALK, HEAP_START, HEAP_END in *. lia.
Qed.

(** ** Allocation, whole *)

Lemma page_room a b : a mod HPAGE_SIZE = 0 -> b mod HPAGE_SIZE = 0 -> a < b -> a + HPAGE_SIZE <= b.
Proof.
  unfold HPAGE_SIZE. intros Ha Hb Hlt.
  pose proof (Z.div_mod a 4096). pose proof (Z.div_mod b 4096). lia.
Qed.

Lemma map_until_loop_spec fuel addr h :
  addr <= HEAP_END -> heap_mapped_end h <= HEAP_END -> heap_mapped_end h mod HPAGE_SIZE = 0 ->
  addr - heap_mapped_end h <= (Z.of_nat fuel - 1) * HPAGE_SIZE -> (0 < fuel)%nat ->
  returns (map_until_loop fuel addr h) (fun '(r, h') =>
    exists e p, h' = set_mapped e p h /\ heap_mapped_end h <= e <= HEAP_END /\ e mod HPAGE_SIZE = 0 /\
      (r = -1 \/ r = 0 /\ addr <= e)).
Proof.
  revert h. induction fuel as [|fuel IH]; intros h Ha Hm Hal Hf Hpos; [lia|]. cbn [map_until_loop].
  destruct (Z.ltb_spec (heap_mapped_end h) addr) as [Hlt|Hge].
  - destruct (pmm_alloc_page (hpages h)) as [phys p].
    destruct (phys =? 0); [exists (heap_mapped_end h), p; repeat split; auto; lia|].
    destruct (vmm_map_page phys (heap_mapped_end h) p) as [r p'].
    destruct (r <? 0); [eexists (heap_mapped_end h), _; repeat split; auto; lia|].
    pose proof (page_room (heap_mapped_end h) HEAP_END Hal eq_refl ltac:(lia)).
    unfold HPAGE_SIZE in *.
    eapply returns_mono; [apply IH; cbn [set_mapped heap_mapped_end]; [done|done| |lia|lia]|].
    + by rewrite <- Zplus_mod_idemp_r, Z.add_0_r.
    + intros [r' h'] (e & q & -> & He & Hem & Hr). exists e, q. cbn in *. repeat split; [lia..|done|done].
  - destruct h as [m fl me br pg]. exists me, pg. cbn in *. repeat split; [lia..|done|]. right. lia.
Qed.

Lemma heap_map_until_spec addr h :
  addr <= HEAP_END -> heap_mapped_end h <= HEAP_END -> heap_mapped_end h mod HPAGE_SIZE = 0 ->
  returns (heap_map_until addr h) (fun '(r, h') =>
    exists e p, h' = set_mapped e p h /\ heap_mapped_end h <= e <= HEAP_END /\ e mod HPAGE_SIZE = 0 /\
      (r = -1 \/ r = 0 /\ addr <= e)).
Proof.
  intros. apply map_until_loop_spec; [done..| |lia]. unfold HPAGE_SIZE in *.
  rewrite Nat2Z.inj_succ, <- Z.add_1_r, Z.add_simpl_r.
  pose proof (Z.div_mod (addr - heap_mapped_end h + 4096 - 1) 4096 ltac:(lia)) as Hd.
  pose proof (Z.mod_pos_bound (addr - heap_mapped_end h + 4096 - 1) 4096 ltac:(lia)).
  lia.
Qed.

Lemma HEAP_ALIGN_eq n : HEAP_ALIGN n = 16 * (u32 (n + 15) / 16).
Proof. apply (land_mask 32 4); [lia|apply u32_range]. Qed.

(** The macro rounds up, unless the sum wraps. *)
Lemma HEAP_ALIGN_ge n : 0 <= n <= 0xFFFFFFF0 -> n <= HEAP_ALIGN n.
Proof.
  intros Hn. rewrite HEAP_ALIGN_eq, u32_small by (unfold in_u32; lia).
  pose proof (Z.div_mod (n + 15) 16 ltac:(lia)). pose proof (Z.mod_pos_bound (n + 15) 16 ltac:(lia)). lia.
Qed.

Lemma block_need_spec n :
  HEAP_MIN_BLOCK <= block_need n <= 2 ^ 32 + 16 /\ block_need n mod 16 = 0 /\
  HEAP_ALIGN n + HEAP_HEADER_SIZE <= block_need n.
Proof.
  pose proof (u32_range (n + 15)) as Hr. unfold block_need. rewrite HEAP_ALIGN_eq.
  unfold in_u32 in Hr. set (q := u32 (n + 15)) in *.
  pose proof (Z.div_mod q 16 ltac:(lia)). pose proof (Z.mod_pos_bound q 16 ltac:(lia)).
  unfold HEAP_MIN_BLOCK, HEAP_HEADER_SIZE.
  destruct (Z.ltb_spec (16 + 16 * (q / 16)) 32); (split; [lia|split; [|lia]]); [done|].
  symmetry. apply (Z.mod_unique _ _ (1 + q / 16)); lia.
Qed.

Lemma omap_free t l : t_free t = true -> omap used_block (t :: l) = omap used_block l.
Proof. intros Hf. simpl. unfold used_block at 1. by rewrite Hf. Qed.

Lemma omap_app_perm la t lb need :
  t_free t = true ->
  omap used_block (la ++ carved t need ++ lb) ≡ₚ
    (t_addr t + HEAP_HEADER_SIZE,
     (if HEAP_MIN_BLOCK <=? t_size t - need then need else t_size t) - HEAP_HEADER_SIZE)
    :: omap used_block (la ++ t :: lb).
Proof.
  intros Hf. rewrite !omap_app.
  rewrite (omap_free t) by done.
  unfold carved. destruct (HEAP_MIN_BLOCK <=? t_size t - need); simpl;
    symmetry; apply Permutation_middle.
Qed.

(** Extending the heap by one used tile at the break. *)
Lemma layout_extend h l need e p :
  layout h l -> HEAP_MIN_BLOCK <= need -> need mod 16 = 0 ->
  heap_brk h + need <= e <= HEAP_END -> heap_mapped_end h <= e -> e mod HPAGE_SIZE = 0 ->
  layout (set_hdr (heap_brk h) (Hdr need HEAP_MAGIC_USED) (set_brk (heap_brk h + need) (set_mapped e p h)))
    (l ++ [Tile (heap_brk h) need false]).
Proof.
  intros (Ht & He & Hf & Hb & Hs & Hp) Hn Hm Hbe Hme Hal. unfold layout. cbn.
  split; [|split; [|split; [|lia]]].
  - apply tiled_app. exists (heap_brk h). split; [done|]. simpl. done.
  - apply encoded_app. split; [|by simpl; rewrite lookup_insert_eq].
    eapply encoded_frame, He. intros t Hin. apply lookup_insert_ne.
    destruct (tiled_in _ _ _ _ Ht Hin) as (_ & ? & ? & _). unfold HEAP_MIN_BLOCK in *. lia.
  - by rewrite first_free_app.
Qed.

Definition kmalloc_post (n : Z) h (r : Z * heap P) : Prop :=
  let '(p, h') := r in
  heap_wf h' /\
  (p = 0 /\ heap_blocks h' = heap_blocks h \/
   p <> 0 /\ p mod 16 = 0 /\
   exists cap, HEAP_ALIGN n <= cap /\ heap_blocks h' ≡ₚ (p, cap) :: heap_blocks h).

Lemma heap_kmalloc_spec n h : heap_wf h -> returns (heap_kmalloc n h) (kmalloc_post n h).
Proof.
  intros [l Hl]. unfold heap_kmalloc. destruct (n =? 0); [split; [by exists l|by left]|].
  destruct (block_need_spec n) as (Hn1 & Hn2 & Hn3). set (need := block_need n) in *. cbv zeta.
  pose proof (layout_length h l Hl). pose proof (layout_walk_bound h l Hl).
  pose proof Hl as (Ht & He & Hf & Hb & Hs & Hp). rewrite Hf.
  eapply returns_bind; [apply (kmalloc_walk_spec h need l []); [done|lia|done|lia|lia]|].
  intros [[p h']|].
  - intros (l1 & t & l2 & Heq & Hfr & Hfit & -> & Hl' & _). cbn [returns app] in *. subst l.
    destruct (tile_checks h _ t Hl) as (_ & Hbad & _ & _ & _ & Hal & _); [set_solver|].
    split; [by eexists|]. right. rewrite (layout_blocks _ _ Hl), (layout_blocks _ _ Hl').
    split; [|split; [|eexists; split; [|by apply omap_app_perm]]].
    + apply tiled_in with (t := t) in Ht; [|set_solver]. unfold HEAP_START, HEAP_HEADER_SIZE in *. lia.
    + unfold HEAP_HEADER_SIZE. rewrite Zplus_mod, Hal. done.
    + destruct (HEAP_MIN_BLOCK <=? t_size t - need); lia.
  - intros _. apply tiled_le in Ht as Hge.
    destruct (Z.ltb_spec (u64 (heap_brk h + need)) (heap_brk h)) as [|Hnw];
      [split; [by exists l|by left]|]. cbn [orb].
    destruct (Z.ltb_spec HEAP_END (u64 (heap_brk h + need))) as [|Hend]; [split; [by exists l|by left]|].
    assert (u64 (heap_brk h + need) = heap_brk h + need) as Hu.
    { apply u64_no_wrap; [|done]. unfold HEAP_START, HEAP_END, HEAP_MIN_BLOCK in *. lia. }
    rewrite Hu in Hend |- *. eapply returns_bind; [by apply heap_map_until_spec; [|lia|]|].
    intros [r h1] (e & p & -> & Hme & Hal & Hr).
    destruct Hr as [->|[-> Hae]].
    + assert (layout (set_mapped e p h) l) as Hl'
        by (split; [done|]; split; [done|]; split; [done|]; cbn; repeat split; [lia..|done]).
      split; [by exists l|]. left. by rewrite (layout_blocks _ _ Hl), (layout_blocks _ _ Hl').
    + assert (layout _ _) as Hl' by (apply (layout_extend h l need e p Hl); [lia|done|lia|lia|done]).
      split; [by eexists|]. right. unfold HEAP_HEADER_SIZE in *.
      split; [unfold HEAP_START in *; lia|]. split.
      * rewrite Zplus_mod. replace (heap_brk h mod 16) with 0; [done|].
        symmetry. by apply (tiled_end_aligned HEAP_START l).
      * exists (need - 16). split; [lia|].
        cbn [set_mapped heap_brk]. rewrite (layout_blocks _ _ Hl'), (layout_blocks _ _ Hl), omap_app.
        symmetry. apply Permutation_cons_append.
Qed.

(** ** Release, step by step *)

(** Replacing tiles in place without touching the links around them. *)
Lemma layout_mid h h0 la mid mid' lb s e :
  layout h (la ++ mid ++ lb) -> tiled HEAP_START la s -> tiled s mid e -> tiled s mid' e ->
  heap_free_list h0 = heap_free_list h -> same_region h h0 ->
  (forall k, k < s \/ e <= k -> hmem h0 !! k = hmem h !! k) ->
  encoded (hmem h0) mid' (first_free lb 0) ->
  first_free (mid' ++ lb) 0 = first_free (mid ++ lb) 0 ->
  layout h0 (la ++ mid' ++ lb).
Proof.
  intros (Ht & He & Hf & Hrest) Hla Hmid Hmid' Hfl (Rb & Rm & Rp) Hout Henc Hff.
  apply tiled_app in Ht as (s' & Hla' & Ht). apply tiled_app in Ht as (e' & Hmid2 & Hlb).
  apply encoded_app in He as [He1 He2]. apply encoded_app in He2 as [_ He3].
  assert (s' = s) as -> by (by eapply tiled_end). assert (e' = e) as -> by (by eapply tiled_end).
  split; [|split; [|split]].
  - rewrite Rb. apply tiled_app. exists s. split; [done|]. apply tiled_app. by exists e.
  - rewrite !encoded_app, Hff. split; [|split; [done|]].
    + eapply encoded_frame, He1. intros u Hu. apply Hout. left.
      destruct (tiled_in _ _ _ _ Hla Hu) as (_ & ? & ? & _). unfold HEAP_MIN_BLOCK in *. lia.
    + eapply encoded_frame, He3. intros u Hu. apply Hout. right.
      destruct (tiled_in _ _ _ _ Hlb Hu). lia.
  - by rewrite Hfl, Hf, !(first_free_app la), Hff.
  - by rewrite Rb, Rm.
Qed.

Lemma free_ne h la u lb t :
  layout h (la ++ t :: u :: lb) -> t_free u = false -> first_free lb 0 <> t_addr u.
Proof.
  intros Hl Hu. destruct (first_free_in lb 0) as [->|(v & Hv & _ & ->)].
  - assert (u ∈ la ++ t :: u :: lb) as Hin by set_solver.
    destruct (tile_checks h _ u Hl Hin) as [Hz _]. congruence.
  - destruct Hl as [Ht _].
    replace (la ++ t :: u :: lb) with ((la ++ [t]) ++ u :: lb) in Ht by (by rewrite <- app_assoc).
    apply (tiled_mid_ne _ _ _ _ _ v Ht). set_solver.
Qed.

(** The merged tile. *)
Lemma merge_layout h la t u lb :
  layout h (la ++ t :: u :: lb) -> t_free t = true -> t_free u = true ->
  layout (set_hdr (t_addr t) (Hdr (Z.lor (t_size t + t_size u) HEAP_BLOCK_FREE) (first_free lb 0)) h)
    (la ++ Tile (t_addr t) (t_size t + t_size u) true :: lb).
Proof.
  intros Hl Ht Hu. destruct (layout_split h la [t; u] lb Hl) as (s & e & H1 & H2 & H3 & _).
  pose proof H2 as (Ha1 & Hs1 & Hm1 & Ha2 & Hs2 & Hm2 & He). simpl in He. unfold HEAP_MIN_BLOCK in *.
  apply (layout_mid h _ la [t; u] [Tile (t_addr t) (t_size t + t_size u) true] lb s e);
    [done|done|done| |done|done| | |].
  - simpl. unfold HEAP_MIN_BLOCK. repeat split; [lia|lia| |lia]. by rewrite Zplus_mod, Hm1, Hm2.
  - intros k Hk. cbn. apply lookup_insert_ne. lia.
  - simpl. by rewrite lookup_insert_eq.
  - simpl. by rewrite Ht.
Qed.

Lemma heap_coalesce_spec h la t lb :
  layout h (la ++ t :: lb) -> t_free t = true ->
  returns (heap_coalesce (t_addr t) h) (fun h' => layout h' (la ++ join_next t lb) /\ same_region h h').
Proof.
  intros Hl Hfr. destruct (free_tile h la t lb Hl Hfr) as (x & Hx & Hw & _ & Hsz).
  destruct (tile_checks h _ t Hl) as (_ & _ & _ & _ & Hu & Hal & Hbrk); [set_solver|].
  destruct (tiled_in _ _ _ t (proj1 Hl)) as (Hst & _ & Hmin & Hm); [set_solver|].
  unfold heap_coalesce. rewrite Hx. cbn [deref mbind out_bind]. rewrite Hsz, Hw, Hu. cbv zeta.
  destruct lb as [|u lb].
  { rewrite (proj2 (Z.eqb_neq _ _)); [done|]. simpl. unfold HEAP_START, HEAP_MIN_BLOCK in *. lia. }
  destruct (layout_split h la [t] (u :: lb) Hl) as (s & e & _ & H2 & H3 & _).
  destruct H2 as (Hat & _ & _ & He). destruct H3 as (Hau & _ & Hmu & _). simpl in He.
  assert (t_addr t + t_size t = t_addr u) as Hnext by lia. rewrite Hnext. simpl.
  destruct (t_free u) eqn:Hfu.
  - rewrite Z.eqb_refl. cbn [negb].
    assert (layout h ((la ++ [t]) ++ u :: lb)) as Hl2 by (by rewrite <- app_assoc).
    destruct (tile_checks h _ u Hl2) as (_ & Hbad & Hsu & Hcu & _); [set_solver|].
    destruct (free_tile h _ u lb Hl2 Hfu) as (y & Hy & Hwy & Hfy & Hsy).
    unfold bad_block in Hbad. apply orb_false_elim in Hbad as [Hbad ->].
    apply orb_false_elim in Hbad as [_ ->]. rewrite Hy. cbn [deref mbind out_bind].
    rewrite Hfy. cbn [Z.eqb]. unfold heap_size_sane. rewrite Hsy.
    apply orb_false_elim in Hcu as [Hcu ->]. apply orb_false_elim in Hcu as [-> ->]. cbn [negb].
    rewrite Hwy, u64_small by (unfold in_u64; destruct (tile_checks h _ t Hl) as (_ & _ & ? & _); [set_solver|lia]).
    cbn [returns]. split; [by apply merge_layout|done].
  - rewrite (proj2 (Z.eqb_neq _ _)); [done|]. pose proof (free_ne h la u lb t Hl Hfu). congruence.
Qed.

Lemma kfree_walk_spec h t lb : forall l2 l1 fuel steps,
  layout h (l1 ++ l2 ++ t :: lb) -> t_free t = false ->
  (length l2 < fuel)%nat -> steps + Z.of_nat (length l2) < HEAP_MAX_WALK ->
  returns (kfree_walk fuel steps (last_free l1 0) (first_free (l2 ++ t :: lb) 0) (t_addr t) h)
    (fun o => o = Some (last_free (l1 ++ l2) 0, first_free lb 0)).
Proof.
  induction l2 as [|u l2 IH]; intros l1 fuel steps Hl Hfr Hfu Hst;
    (destruct fuel as [|fuel]; [simpl in Hfu; lia|]).
  - simpl. rewrite Hfr, app_nil_r. destruct (first_free_in lb 0) as [->|(u & Hu & _ & ->)]; [done|].
    destruct (tile_checks h _ u Hl) as (Hz & Hbad & _); [set_solver|].
    destruct (layout_split h l1 [t] lb Hl) as (s & e & _ & H2 & H3 & _).
    destruct H2 as (Hat & Hs & _ & He). simpl in He. destruct (tiled_in _ _ _ _ H3 Hu) as (Hge & _).
    unfold HEAP_MIN_BLOCK in *. simpl in Hst.
    rewrite (proj2 (Z.eqb_neq _ _) Hz), (proj2 (Z.ltb_lt steps _)) by lia. cbn [negb orb].
    rewrite Hbad, (proj2 (Z.eqb_neq (t_addr u) _)), (proj2 (Z.ltb_lt _ (t_addr u))) by lia. done.
  - assert (layout h ((l1 ++ [u]) ++ l2 ++ t :: lb)) as Hl' by (by rewrite <- app_assoc).
    pose proof (IH (l1 ++ [u])) as IH'. rewrite (last_free_app l1 [u]), <- !(app_assoc l1) in IH'.
    rewrite <- app_assoc in Hl'. simpl in IH', Hl', Hfu, Hst |- *. destruct (t_free u) eqn:Hfu'.
    + change ((u :: l2) ++ t :: lb) with (u :: (l2 ++ t :: lb)) in Hl.
      destruct (tile_checks h _ u Hl) as (Hz & Hbad & _); [set_solver|].
      destruct (free_tile h l1 u _ Hl Hfu') as (x & Hx & Hw & _).
      destruct (layout_split h l1 (u :: l2) (t :: lb)) as (s & e & _ & H2 & H3 & _); [done|].
      destruct (tiled_in _ _ _ u H2) as (_ & He & Hs & _); [set_solver|]. destruct H3 as [Hat _].
      unfold HEAP_MIN_BLOCK in *.
      rewrite (proj2 (Z.eqb_neq _ _) Hz), (proj2 (Z.ltb_lt steps _)) by lia. cbn [negb orb].
      rewrite Hbad, (proj2 (Z.eqb_neq (t_addr u) _)), (proj2 (Z.ltb_ge _ (t_addr u))) by lia.
      rewrite Hx. cbn [deref mbind out_bind]. rewrite Hw. apply IH'; [done|done|lia|lia].
    + apply (IH' (S fuel)); [done|done|lia|lia].
Qed.

Lemma same_region_trans h h1 h2 : same_region h h1 -> same_region h1 h2 -> same_region h h2.
Proof. unfold same_region. intros (-> & -> & ->) (-> & -> & ->). done. Qed.

(** Merging the block before, when there is one. *)
Lemma coalesce_prev_spec h la t lb :
  layout h (la ++ t :: lb) -> t_free t = true ->
  returns (if last_free la 0 =? 0 then Ret h
           else x ← deref (hmem h !! last_free la 0);
                if u64 (last_free la 0 + Z.land (hsize x) HEAP_SIZE_MASK) =? t_addr t
                then heap_coalesce (last_free la 0) h else Ret h)
    (fun h' => layout h' (join_prev la (t :: lb)) /\ same_region h h').
Proof.
  intros Hl Ht. assert (forall l u, la = l ++ [u] -> t_free u = false -> join_prev la (t :: lb) = la ++ t :: lb) as Hsame.
  { intros l u -> Hu. by rewrite join_prev_snoc, Hu, <- app_assoc. }
  destruct (split_last_free la) as [Hn|(l1 & u & l2 & -> & Hfr & Hn)];
    destruct (no_free _ Hn) as (_ & N2 & _).
  - rewrite N2. cbn [Z.eqb returns]. split; [|done]. destruct la as [|u l _] using rev_ind; [done|].
    rewrite (Hsame l u eq_refl); [done|]. apply Forall_app in Hn as [_ Hn]. by apply Forall_inv in Hn.
  - rewrite last_free_app. simpl. rewrite Hfr, N2.
    assert (layout h (l1 ++ u :: (l2 ++ t :: lb))) as Hl' by (by rewrite <- app_assoc in Hl).
    destruct (tile_checks h _ u Hl') as (Hz & _ & _ & _ & Hu & _); [set_solver|]. rewrite (proj2 (Z.eqb_neq _ _) Hz).
    destruct (free_tile h l1 u _ Hl' Hfr) as (x & Hx & _ & _ & Hsz). rewrite Hx. cbn [deref mbind out_bind]. rewrite Hsz, Hu.
    destruct (layout_split h l1 (u :: l2) (t :: lb)) as (s & e & _ & H2 & H3 & _); [done|].
    destruct H2 as (Hat & _ & _ & H2). destruct H3 as (Hte & _). destruct l2 as [|v l2 _] using rev_ind.
    + simpl in H2. rewrite (proj2 (Z.eqb_eq _ _)) by lia. rewrite join_prev_snoc, Hfr. by apply heap_coalesce_spec.
    + pose proof (tiled_le _ _ _ H2) as Hlt. rewrite length_app in Hlt. simpl in Hlt. rewrite (proj2 (Z.eqb_neq _ _)) by lia.
      split; [|done]. rewrite (Hsame (l1 ++ u :: l2) v); [done|by rewrite <- app_assoc|].
      apply Forall_app in Hn as [_ Hn]. by apply Forall_inv in Hn.
Qed.

Lemma put_free_spec h la t lb :
  layout h (la ++ t :: lb) -> t_free t = false ->
  returns (put_free (t_addr t) (t_size t) (last_free la 0) (first_free lb 0) h) (fun h' =>
    layout h' (join_prev la (join_next (Tile (t_addr t) (t_size t) true) lb)) /\ same_region h h').
Proof.
  intros Hl Hfr. destruct (layout_split h la [t] lb Hl) as (s & e & H1 & H2 & _ & Hse & _).
  pose proof H2 as (Hat & Hst & Hmt & Hend). simpl in Hend.
  set (t' := Tile (t_addr t) (t_size t) true).
  unfold put_free. cbv zeta. eapply returns_bind.
  { apply (relink_mid h _ la [t] [t'] lb s e); [done|done|done| |done|done| |].
    - done.
    - intros k Hk. cbn. apply lookup_insert_ne. unfold HEAP_MIN_BLOCK in *. lia.
    - simpl. by rewrite lookup_insert_eq. }
  intros h1 [Hl1 Hr1]. eapply returns_bind.
  { by apply (heap_coalesce_spec h1 la t' lb). }
  intros h2 [Hl2 Hr2]. destruct (join_next_head t' lb eq_refl) as (t2 & lb2 & E & Hf2 & Ha2). rewrite E in Hl2 |- *.
  change (t_addr t) with (t_addr t'). rewrite <- Ha2.
  eapply returns_mono; [by apply coalesce_prev_spec|].
  intros h3 [Hl3 Hr3]. split; [done|]. eapply same_region_trans, Hr3. by eapply same_region_trans.
Qed.

Lemma find_tail_spec h lb : forall la fuel steps,
  layout h (la ++ lb) -> (length lb < fuel)%nat -> steps + Z.of_nat (length lb) <= HEAP_MAX_WALK ->
  returns (find_tail fuel steps (last_free la 0) (first_free lb 0) h) (fun o =>
    match o with
    | None => forall t, t ∈ lb -> t_free t = true -> t_addr t + t_size t <> heap_brk h
    | Some (tail, prev) => exists l' t,
        la ++ lb = l' ++ [t] /\ t_free t = true /\ tail = t_addr t /\ prev = last_free l' 0
    end).
Proof.
  induction lb as [|t lb IH]; intros la fuel steps Hl Hfu Hst;
    [destruct fuel; [simpl in Hfu; lia|]; by intros ? ?%elem_of_nil|].
  pose proof (IH (la ++ [t])) as IH'. rewrite (last_free_app la [t]), <- !(app_assoc la) in IH'.
  simpl in IH', Hfu, Hst |- *. destruct (t_free t) eqn:Hfr.
  - destruct fuel as [|fuel]; [lia|].
    destruct (tile_checks h _ t Hl) as (Hz & Hb & Hs & Hc & Hu & _); [set_solver|].
    destruct (free_tile h la t lb Hl Hfr) as (x & Hx & Hw & Hf1 & Hf2).
    cbn [find_tail]. rewrite (proj2 (Z.eqb_neq _ _) Hz), (proj2 (Z.ltb_lt _ _)) by lia.
    cbn [negb orb]. rewrite Hb, Hx. cbn [deref mbind out_bind]. rewrite Hf1, Hf2, Hc, Hw, Hu.
    cbn [Z.eqb]. destruct (Z.eqb_spec (t_addr t + t_size t) (heap_brk h)) as [Hend|Hne].
    + destruct (layout_split h la [t] lb Hl) as (s & e & _ & (Hat & _ & _ & He) & H3 & _).
      simpl in He. destruct lb as [|u lb]; [by exists la, t|]. apply tiled_le in H3. simpl in H3. lia.
    + eapply returns_mono; [apply IH'; [done|lia|lia]|].
      intros [[tail prev]|]; [done|]. intros Hno u [->|Hu']%elem_of_cons; [done|by apply Hno].
  - eapply returns_mono; [apply IH'; [done|lia|lia]|].
    intros [[tail prev]|]; [done|]. intros Hno u [->|Hu']%elem_of_cons; [congruence|by apply Hno].
Qed.

Lemma drop_tail h l t :
  layout h (l ++ [t]) -> t_free t = true ->
  returns (relink (last_free l 0) 0 (set_brk (t_addr t) h)) (fun h' =>
    layout h' l /\ heap_mapped_end h' = heap_mapped_end h /\ hpages h' = hpages h).
Proof.
  intros (Ht & He & Hf & Hb & Hrest) Hfr. apply tiled_app in Ht as (s & H1 & H2).
  apply encoded_app in He as [He _]. simpl in He. rewrite Hfr in He.
  rewrite first_free_app in Hf. simpl in Hf. rewrite Hfr in Hf.
  destruct H2 as (Hat & Hs & _ & Hend). simpl in Hend. unfold HEAP_MIN_BLOCK in *.
  eapply returns_mono; [by apply (relink_spec HEAP_START l s (t_addr t))|].
  intros h' (E & F & (B & M & Pg) & _). cbn in B, M, Pg. split; [|done].
  unfold layout. rewrite B, M, Hat. split; [done|]. split; [done|]. split; [done|].
  split; [lia|done].
Qed.

Lemma shrink_loop_spec fuel : forall h l,
  layout h l -> (length l < fuel)%nat ->
  returns (shrink_loop fuel h) (fun h' => layout h' (trim l) /\ heap_mapped_end h' = heap_mapped_end h).
Proof.
  induction fuel as [|fuel IH]; intros h l Hl Hf; [lia|]. cbn [shrink_loop].
  pose proof (layout_length h l Hl). pose proof (layout_walk_bound h l Hl).
  pose proof Hl as (Ht & _ & Hfl & _). rewrite Hfl.
  eapply returns_bind; [apply (find_tail_spec h l []); [done|lia|lia]|]. intros [[tail prev]|].
  - intros (l' & t & Heq & Hfr & -> & ->). simpl in Heq. subst l.
    destruct (free_tile h l' t [] Hl Hfr) as (x & Hx & Hw & _).
    cbn [set_brk hmem]. rewrite Hx. cbn [deref mbind out_bind]. rewrite Hw.
    eapply returns_bind; [by apply drop_tail|]. intros h1 (Hl1 & Hm1 & _).
    rewrite length_app in Hf. simpl in Hf.
    eapply returns_mono; [apply (IH h1 l'); [done|lia]|].
    intros h2 [Hl2 Hm2]. rewrite trim_snoc_free by done. split; [done|]. by rewrite Hm2.
  - intros Hno. assert (trim l = l) as ->; [|done]. destruct l as [|t l _] using rev_ind; [done|].
    apply trim_used. destruct (t_free t) eqn:E; [|done].
    exfalso. apply (Hno t); [set_solver|done|].
    apply tiled_app in Ht as (s & _ & (Hat & _ & _ & He)). simpl in He. lia.
Qed.

Lemma unmap_until_loop_spec fuel keep : forall h,
  keep mod HPAGE_SIZE = 0 -> heap_mapped_end h mod HPAGE_SIZE = 0 ->
  heap_mapped_end h - keep <= (Z.of_nat fuel - 1) * HPAGE_SIZE -> (0 < fuel)%nat ->
  returns (unmap_until_loop fuel keep h) (fun h' =>
    exists p, h' = set_mapped (Z.min keep (heap_mapped_end h)) p h).
Proof.
  induction fuel as [|fuel IH]; intros h Hk Hm Hf Hpos; [lia|]. cbn [unmap_until_loop].
  destruct (Z.ltb_spec keep (heap_mapped_end h)) as [Hlt|Hge].
  - pose proof (page_room _ _ Hk Hm Hlt). unfold HPAGE_SIZE in *. cbv zeta.
    eapply returns_mono; [apply IH; cbn [set_mapped heap_mapped_end]; [done| |lia|lia]|].
    + by rewrite Zminus_mod, Hm.
    + intros h' [p ->]. exists p. cbn [set_mapped heap_mapped_end]. by rewrite !Z.min_l by lia.
  - exists (hpages h). destruct h. cbn in *. by rewrite Z.min_r by done.
Qed.

(** The end of the pages kept: those that hold the blocks, and the first four. *)
Definition kept_end (brk : Z) : Z :=
  Z.max (HPAGE_SIZE * ((brk + HPAGE_SIZE - 1) / HPAGE_SIZE)) (HEAP_START + HEAP_INITIAL_PAGES * HPAGE_SIZE).

Lemma heap_shrink_spec h l :
  layout h l ->
  returns (heap_shrink h) (fun h' =>
    layout h' (trim l) /\ heap_mapped_end h' = Z.min (kept_end (heap_brk h')) (heap_mapped_end h)).
Proof.
  intros Hl. pose proof (layout_length h l Hl). unfold heap_shrink.
  eapply returns_bind; [by apply (shrink_loop_spec _ h l); [|lia]|].
  intros h1 [Hl' Hm]. pose proof Hl' as (Ht & He & Hf & Hb & Hs & Hp).
  apply tiled_le in Ht as Hge.
  rewrite u64_small by (unfold in_u64, HPAGE_SIZE, HEAP_END, HEAP_START in *; lia).
  rewrite (land_lnot_ones 12) by lia. change (2 ^ 12) with 4096. unfold HPAGE_SIZE in *.
  pose proof (Z.div_mod (heap_brk h1 + 4096 - 1) 4096 ltac:(lia)) as Hd.
  pose proof (Z.mod_pos_bound (heap_brk h1 + 4096 - 1) 4096 ltac:(lia)).
  set (r := 4096 * ((heap_brk h1 + 4096 - 1) / 4096)) in *. cbv zeta.
  set (keep := if r <? _ then _ else r).
  assert (keep mod 4096 = 0) as Hkm.
  { subst keep r. destruct (_ <? _); [done|]. rewrite Z.mul_comm. apply Z_mod_mult. }
  assert (heap_brk h1 <= keep) as Hkb by (subst keep; destruct (Z.ltb_spec r (HEAP_START + HEAP_INITIAL_PAGES * 4096)); lia).
  pose proof (Z.div_mod (heap_mapped_end h1 - keep + 4096 - 1) 4096 ltac:(lia)).
  pose proof (Z.mod_pos_bound (heap_mapped_end h1 - keep + 4096 - 1) 4096 ltac:(lia)).
  eapply returns_mono; [apply unmap_until_loop_spec; [done|done|unfold HPAGE_SIZE in *; lia|lia]|].
  assert (keep = kept_end (heap_brk h1)) as Ek.
  { unfold keep, kept_end, HPAGE_SIZE. fold r. destruct (Z.ltb_spec r (HEAP_START + HEAP_INITIAL_PAGES * 4096)); lia. }
  intros h2 [p ->]. split; [|cbn; by rewrite <- Ek, Hm].
  split; [done|]. split; [done|]. split; [done|]. cbn.
  destruct (Z.min_spec keep (heap_mapped_end h1)) as [[? ->]|[? ->]]; repeat split; (lia || done).
Qed.

(** The blocks [(a, c)] lie in order between [s] and [e], each behind its own
    header and none overlapping the next. *)
Fixpoint blocks_within (s : Z) (bl : list (Z * Z)) (e : Z) : Prop :=
  match bl with
  | [] => s <= e
  | (a, c) :: bl => s + HEAP_HEADER_SIZE <= a /\ HEAP_HEADER_SIZE <= c /\ blocks_within (a + c) bl e
  end.

Lemma blocks_within_mono s s' bl e : s' <= s -> blocks_within s bl e -> blocks_within s' bl e.
Proof. destruct bl as [|[a c] bl]; simpl; [lia|]. intros ? (? & ? & ?). repeat split; [lia..|done]. Qed.

Lemma tiled_blocks s l e : tiled s l e -> blocks_within s (omap used_block l) e.
Proof.
  revert s. induction l as [|[a z f] l IH]; intros s; simpl; [lia|].
  unfold HEAP_MIN_BLOCK. intros (-> & Hs & _ & Ht%IH). unfold used_block at 1. simpl.
  destruct f; simpl; [by eapply blocks_within_mono; [|done]; lia|].
  unfold HEAP_HEADER_SIZE. split; [lia|]. split; [lia|].
  by replace (s + 16 + (z - 16)) with (s + z) by lia.
Qed.

Lemma layout_within h l : layout h l -> blocks_within HEAP_START (heap_blocks h) (heap_brk h).
Proof. intros Hl. rewrite (layout_blocks h l Hl). apply tiled_blocks, Hl. Qed.

Lemma blocks_within_ge s bl e p : blocks_within s bl e -> p ∈ bl.*1 -> s < p.
Proof.
  revert s. induction bl as [|[a c] bl IH]; intros s; simpl; [by intros _ ?%elem_of_nil|].
  unfold HEAP_HEADER_SIZE. intros (? & ? & H) [->|Hin]%elem_of_cons; [lia|].
  specialize (IH _ H Hin). lia.
Qed.

Lemma blocks_within_NoDup s bl e : blocks_within s bl e -> NoDup bl.*1.
Proof.
  revert s. induction bl as [|[a c] bl IH]; intros s; simpl; [constructor|].
  unfold HEAP_HEADER_SIZE. intros (? & ? & H). constructor; [|by eapply IH].
  intros Hin. pose proof (blocks_within_ge _ _ _ _ H Hin). lia.
Qed.

Lemma heap_init_spec p : returns (heap_init p) (fun h => heap_wf h /\ heap_blocks h = []).
Proof.
  unfold heap_init. eapply returns_bind; [by apply heap_map_until_spec|].
  intros [r h] (e & q & -> & He & Hem & _).
  assert (layout (set_mapped e q (Heap ∅ 0 HEAP_START HEAP_START p)) []) as Hl.
  { repeat split; cbn in *; [lia..|done]. }
  split; [by exists []|]. by rewrite (layout_blocks _ _ Hl).
Qed.

(** What releasing the block [p] leaves: its tile merged with its free
    neighbours, nothing free at the end, and the pages that are still needed. *)
Definition kfree_post (p : Z) h (h' : heap P) : Prop :=
  heap_wf h' /\ (exists cap, heap_blocks h ≡ₚ (p, cap) :: heap_blocks h') /\
  (exists la t lb, heap_tiles h = la ++ t :: lb /\ t_free t = false /\ p = t_addr t + HEAP_HEADER_SIZE /\
     heap_tiles h' = released la t lb) /\
  heap_mapped_end h' = Z.min (kept_end (heap_brk h')) (heap_mapped_end h).

Lemma omap_join_next t lb : t_free t = true -> omap used_block (join_next t lb) = omap used_block lb.
Proof.
  intros Ht. destruct lb as [|u lb]; cbn [join_next]; [by rewrite (omap_free t)|]. destruct (t_free u) eqn:Hu; [|by rewrite (omap_free t)].
  by rewrite omap_free, (omap_free u).
Qed.

Lemma omap_join_prev la r : omap used_block (join_prev la r) = omap used_block (la ++ r).
Proof.
  destruct la as [|u l _] using rev_ind; [done|]. rewrite join_prev_snoc, <- app_assoc, !omap_app. f_equal.
  destruct (t_free u) eqn:Hu; [|by rewrite <- omap_app]. rewrite omap_join_next by done.
  rewrite <- (omap_app used_block [u] r). cbn [app]. by rewrite (omap_free u r Hu).
Qed.

Lemma omap_trim l : omap used_block (trim l) = omap used_block l.
Proof.
  induction l as [|t l IH]; [done|]. cbn [trim]. destruct (trim l) as [|v l'] eqn:E.
  - destruct (t_free t) eqn:Ht; [by rewrite (omap_free t)|]. change (t :: l) with ([t] ++ l). by rewrite omap_app, <- IH, app_nil_r.
  - change (t :: v :: l') with ([t] ++ v :: l'). change (t :: l) with ([t] ++ l). by rewrite !omap_app, IH.
Qed.

Lemma omap_released la t lb : omap used_block (released la t lb) = omap used_block (la ++ lb).
Proof. unfold released. rewrite omap_trim, omap_join_prev, !omap_app. f_equal. by apply omap_join_next. Qed.

Lemma used_tile_in p l :
  p ∈ (omap used_block l).*1 ->
  exists la t lb, l = la ++ t :: lb /\ t_free t = false /\ p = t_addr t + HEAP_HEADER_SIZE.
Proof.
  intros ([a c] & -> & (t & Hin & Ht)%list_elem_of_omap)%list_elem_of_fmap.
  apply list_elem_of_split in Hin as (la & lb & ->). exists la, t, lb. split; [done|].
  unfold used_block in Ht. by destruct (t_free t); simplify_eq.
Qed.

(** The guards of [kfree] on the address of a tile. *)
Lemma kfree_guards h l t :
  layout h l -> t ∈ l ->
  let p := t_addr t + HEAP_HEADER_SIZE in
  p <> 0 /\
  ((p <? HEAP_START + HEAP_HEADER_SIZE) || (heap_brk h <=? p) ||
   negb (Z.land p (HEAP_BLOCK_ALIGN - 1) =? Z.land HEAP_HEADER_SIZE (HEAP_BLOCK_ALIGN - 1))) = false.
Proof.
  intros Hl Hin. destruct (tile_checks h l t Hl Hin) as (_ & _ & _ & _ & _ & Hal & Hb).
  destruct (tiled_in _ _ _ _ (proj1 Hl) Hin) as (H1 & _ & H2 & _).
  cbv zeta. rewrite land_15. unfold HEAP_HEADER_SIZE, HEAP_MIN_BLOCK in *.
  rewrite Zplus_mod, Hal. rewrite (proj2 (Z.ltb_ge _ _)), (proj2 (Z.leb_gt _ _)) by lia.
  split; [unfold HEAP_START in *; lia|done].
Qed.

Lemma heap_kfree_spec p h :
  heap_wf h -> p ∈ (heap_blocks h).*1 -> returns (heap_kfree p h) (kfree_post p h).
Proof.
  intros [l Hl]. rewrite (layout_blocks h l Hl). intros (la & t & lb & -> & Hfr & ->)%used_tile_in.
  assert (t ∈ la ++ t :: lb) as Hin by set_solver.
  destruct (kfree_guards h _ t Hl Hin) as [Hz Hg].
  destruct (tile_checks h _ t Hl Hin) as (_ & Hbad & Hs & Hc & _).
  destruct (used_word (t_size t)) as [Hw1 Hw2]; [apply (tiled_in _ _ _ _ (proj1 Hl) Hin)|done|].
  pose proof Hl as (Ht & He & Hf & _). apply encoded_app in He as [_ [Hx _]].
  unfold hdr_of in Hx. rewrite Hfr in Hx.
  unfold heap_kfree. rewrite (proj2 (Z.eqb_neq _ _) Hz), Hg. cbv zeta.
  rewrite Z.add_simpl_r, Hbad, Hx. cbn [deref mbind out_bind hsize hword].
  rewrite Hw1, Hw2, !Z.eqb_refl. unfold heap_size_sane. rewrite Hw2.
  apply orb_false_elim in Hc as [Hc ->]. apply orb_false_elim in Hc as [-> ->]. cbn [negb orb].
  pose proof (layout_length h _ Hl) as Hlen. pose proof (layout_walk_bound h _ Hl) as Hwb.
  rewrite length_app in Hlen, Hwb. simpl in Hlen, Hwb. rewrite Hf.
  eapply returns_bind; [apply (kfree_walk_spec h t lb la []); [done|done|lia|lia]|].
  intros o ->. eapply returns_bind; [by apply put_free_spec|].
  intros h1 [Hl1 (_ & Hm1 & _)].
  eapply returns_mono; [by apply heap_shrink_spec|].
  intros h2 [Hl2 Hm2]. split; [by eexists|].
  rewrite (layout_blocks _ _ Hl), (layout_blocks _ _ Hl2), (layout_tiles _ _ Hl), (layout_tiles _ _ Hl2).
  split; [|split; [by exists la, t, lb|by rewrite Hm2, Hm1]]. exists (t_size t - HEAP_HEADER_SIZE).
  cbn [app]. rewrite (omap_released la t lb : omap used_block (trim _) = _), !omap_app.
  simpl. unfold used_block at 2. rewrite Hfr. symmetry. apply Permutation_middle.
Qed.

(** Addresses that cannot be a block's, and blocks already free, are rejected. *)
Lemma heap_kfree_reject p h :
  heap_wf h ->
  p < HEAP_START + HEAP_HEADER_SIZE \/ heap_brk h <= p \/ p mod 16 <> 0 \/
  (exists t, t ∈ heap_tiles h /\ t_free t = true /\ p = t_addr t + HEAP_HEADER_SIZE) ->
  heap_kfree p h = Ret h.
Proof.
  intros [l Hl] Hp. unfold heap_kfree. destruct (p =? 0); [done|].
  destruct (_ || _) eqn:Hg; [done|]. rewrite land_15 in Hg.
  apply orb_false_elim in Hg as [Hg H3]. apply orb_false_elim in Hg as [H1 H2].
  apply Z.ltb_ge in H1. apply Z.leb_gt in H2. apply negb_false_iff, Z.eqb_eq in H3.
  destruct Hp as [?|[?|[?|(t & Hin & Hfr & ->)]]]; [lia|lia|done|].
  rewrite (layout_tiles h l Hl) in Hin. apply list_elem_of_split in Hin as (la & lb & ->).
  destruct (free_tile h la t lb Hl Hfr) as (x & Hx & _ & Hf1 & _).
  cbv zeta. rewrite Z.add_simpl_r. destruct (bad_block _ h); [done|].
  rewrite Hx. cbn [deref mbind out_bind]. by rewrite Hf1.
Qed.
End layout.

(** ** The interface of the allocator, implemented *)

Section kmem.
Context {P : Type} `{!PageOps P}.

#[export] Instance heap_kmem : KMem (heap P) := {|
  kmalloc n h :=
    match heap_kmalloc (u32 n) h with
    | Ret (p, h') => (if p =? 0 then None else Some p, h')
    | _ => (None, h)
    end;
  kfree p h := match heap_kfree p h with Ret h' => h' | _ => h end;
  kwf := heap_wf;
  klive h := list_to_set (heap_blocks h).*1;
|}.

Lemma blocks_NoDup (h : heap P) : heap_wf h -> NoDup (heap_blocks h).*1.
Proof. intros [l Hl]. eapply blocks_within_NoDup, layout_within, Hl. Qed.

#[export] Instance heap_kmem_laws : KMemLaws (heap P).
Proof.
  split; simpl.
  - intros h n p h' Hwf E. pose proof (heap_kmalloc_spec (u32 n) h Hwf) as Hk.
    destruct (heap_kmalloc (u32 n) h) as [[q h1]| |]; [|done..]. cbn [returns kmalloc_post] in Hk.
    destruct Hk as [Hwf' [[-> _]|(Hz & _ & cap & _ & Hp)]]; [done|].
    rewrite (proj2 (Z.eqb_neq _ _) Hz) in E. injection E as -> ->.
    pose proof (blocks_NoDup h' Hwf') as Hnd. rewrite Hp in Hnd. simpl in Hnd.
    apply NoDup_cons in Hnd as [Hni _].
    split; [done|]. split; [by rewrite elem_of_list_to_set|]. split; [done|].
    by rewrite Hp.
  - intros h n h' Hwf E. pose proof (heap_kmalloc_spec (u32 n) h Hwf) as Hk.
    destruct (heap_kmalloc (u32 n) h) as [[q h1]| |]; [|done..]. cbn [returns kmalloc_post] in Hk.
    destruct Hk as [Hwf' [[-> Hb]|(Hz & _)]].
    + injection E as <-. by rewrite Hb.
    + by rewrite (proj2 (Z.eqb_neq _ _) Hz) in E.
  - intros h p Hwf Hin%elem_of_list_to_set.
    pose proof (heap_kfree_spec p h Hwf Hin) as Hk.
    destruct (heap_kfree p h) as [h'| |]; [|done..]. destruct Hk as (Hwf' & [cap Hp] & _).
    split; [done|]. pose proof (blocks_NoDup h Hwf) as Hnd. rewrite Hp in Hnd |- *. simpl in Hnd |- *.
    apply NoDup_cons in Hnd as [Hni _]. rewrite <- (elem_of_list_to_set (C := gset Z)) in Hni.
    clear -Hni. set_solver.
  - done.
Qed.
End kmem.

(** ** Properties *)

Section claims.
Context {P : Type} `{!PageOps P}.

(** [kmalloc] always returns, whatever the page allocator does, and keeps
    the heap well formed: it hands out a 16-byte aligned block of at least the
    requested size that joins the live blocks, or NULL with the live blocks
    unchanged; live blocks never overlap each other or a header and stay
    between HEAP_START and the break, which stays below the mapped end. *)
Theorem heap_kmalloc_correct (h : heap P) (n : Z) :
  heap_wf h -> 0 <= n <= 0xFFFFFFF0 ->
  returns (heap_kmalloc n h) (fun '(p, h') =>
    heap_wf h' /\ blocks_within HEAP_START (heap_blocks h') (heap_brk h') /\
    heap_brk h' <= heap_mapped_end h' <= HEAP_END /\
    (p = 0 /\ heap_blocks h' = heap_blocks h \/
     p <> 0 /\ p mod 16 = 0 /\
     exists cap, n <= cap /\ heap_blocks h' ≡ₚ (p, cap) :: heap_blocks h)).
Proof.
  intros Hwf Hn. eapply returns_mono; [by apply heap_kmalloc_spec|].
  intros [p h'] [Hwf' Hc]. pose proof Hwf' as [l Hl].
  split; [done|]. split; [by eapply layout_within|]. split; [apply Hl|].
  destruct Hc as [?|(? & ? & cap & Hcap & ?)]; [by left|]. right. split; [done|]. split; [done|].
  exists cap. split; [|done]. pose proof (HEAP_ALIGN_ge n Hn). lia.
Qed.

(** C25: [kfree] of a live block always returns, takes exactly that block out
    of the live ones and keeps the heap well formed.  The block is merged with
    the free block before and the free block behind it, so that a heap without
    two free blocks side by side keeps having none; what is free at the end
    then leaves the heap, and the pages behind the break are given back except
    for the first four.  An address outside the heap (NULL among them), a
    misaligned one and that of a block that is free leave the heap as it is;
    addresses inside a block are not covered. *)
Theorem heap_kfree_correct (h : heap P) (p : Z) :
  heap_wf h ->
  (p ∈ (heap_blocks h).*1 ->
   returns (heap_kfree p h) (fun h' =>
     heap_wf h' /\ (exists cap, heap_blocks h ≡ₚ (p, cap) :: heap_blocks h') /\
     (exists la t lb, heap_tiles h = la ++ t :: lb /\ t_free t = false /\ p = t_addr t + HEAP_HEADER_SIZE /\
        heap_tiles h' = released la t lb) /\
     (compact (heap_tiles h) -> compact (heap_tiles h')) /\
     heap_mapped_end h' = Z.min (kept_end (heap_brk h')) (heap_mapped_end h))) /\
  (p < HEAP_START + HEAP_HEADER_SIZE \/ heap_brk h <= p \/ p mod 16 <> 0 \/
   (exists t, t ∈ heap_tiles h /\ t_free t = true /\ p = t_addr t + HEAP_HEADER_SIZE) ->
   heap_kfree p h = Ret h).
Proof.
  intros Hwf. split; [|by apply heap_kfree_reject]. intros Hp. eapply returns_mono; [by apply heap_kfree_spec|].
  intros h' (Hwf' & Hb & (la & t & lb & E & Hu & Ep & Er) & Hm). split; [done|]. split; [done|]. split; [by exists la, t, lb|].
  split; [|done]. rewrite E, Er. apply compact_released.
Qed.

(** [kcalloc] refuses exactly the products that do not fit 32 bits, and
    otherwise hands out a block that holds the whole product, all of it set to
    zero. *)
Theorem heap_kcalloc_correct (h : heap P) (count n : Z) :
  heap_wf h -> in_u32 count -> in_u32 n -> count * n <= 0xFFFFFFF0 \/ 2 ^ 32 <= count * n ->
  returns (heap_kcalloc count n h) (fun '(p, zeroed, h') =>
    heap_wf h' /\
    (p = 0 /\ zeroed = 0 /\ heap_blocks h' = heap_blocks h \/
     p <> 0 /\ count * n < 2 ^ 32 /\ zeroed = count * n /\
     exists cap, zeroed <= cap /\ heap_blocks h' ≡ₚ (p, cap) :: heap_blocks h)).
Proof.
  unfold in_u32. intros Hwf Hc Hn Hor. unfold heap_kcalloc.
  destruct (_ && _) eqn:Hg; [cbn [returns]; split; [done|by left]|].
  assert (count * n < 2 ^ 32) as Hlt.
  { destruct (Z.eqb_spec count 0) as [->|]; [lia|]. destruct (Z.eqb_spec n 0) as [->|]; [lia|].
    simpl in Hg. apply Z.ltb_ge in Hg. apply (Z.mul_le_mono_nonneg_l _ _ count) in Hg; [|lia].
    pose proof (Z.mul_div_le 0xFFFFFFFF count ltac:(lia)). lia. }
  assert (0 <= count * n) by lia. rewrite u32_small by (split; lia). cbv zeta.
  eapply returns_bind; [by apply heap_kmalloc_spec|]. intros [p h'] [Hwf' Hcase].
  cbn [returns]. split; [done|]. destruct Hcase as [[-> Hb]|(Hz & _ & cap & Hcap & Hp)]; [by left|].
  right. rewrite (proj2 (Z.eqb_neq _ _) Hz). split; [done|]. split; [done|]. split; [done|].
  exists cap. split; [|done]. pose proof (HEAP_ALIGN_ge (count * n) ltac:(lia)). lia.
Qed.

(** C20: the heap implements the allocator interface its clients (capability
    spaces, ports, tasks, address maps) are proved against: the laws hold of
    the live addresses read off its headers, and on a well-formed heap the
    interface's total functions are what the code returns. *)
Theorem heap_implements_kmem :
  KMemLaws (heap P) /\
  (forall (h : heap P) n, kwf h -> exists p h', heap_kmalloc (u32 n) h = Ret (p, h') /\
     kmalloc n h = (if p =? 0 then None else Some p, h')) /\
  (forall (h : heap P) p, kwf h -> p ∈ klive h -> heap_kfree p h = Ret (kfree p h)) /\
  (forall p, returns (heap_init p) (fun h : heap P => kwf h /\ klive h = ∅)).
Proof.
  split; [apply _|]. split; [|split].
  - intros h n Hwf. apply (heap_kmalloc_spec (u32 n)), returns_inv in Hwf as ([p h'] & E & _).
    exists p, h'. split; [done|]. simpl. by rewrite E.
  - intros h p Hwf Hin%elem_of_list_to_set. pose proof (heap_kfree_spec p h Hwf Hin) as Hk.
    simpl. by destruct (heap_kfree p h).
  - intros p. eapply returns_mono; [apply heap_init_spec|]. intros h [Hwf Hb].
    split; [done|]. simpl. by rewrite Hb.
Qed.
End claims.

(** A page allocator with a number of pages left; mapping always works. *)
#[export] Instance ref_pages : PageOps Z := {|
  pmm_alloc_page n := if 0 <? n then (4096 * n, n - 1) else (0, n);
  pmm_free_page _ n := n + 1;
  vmm_map_page _ _ n := (0, n);
  vmm_unmap_page _ n := n;
  vmm_get_physical _ _ := 4096;
|}.

(** A heap of [n] pages after the given requests. *)
Definition run_heap (n : Z) (reqs : list Z) : out (list Z * heap Z) :=
  h ← heap_init n;
  foldl (fun acc r => '(ps, h) ← acc; '(p, h) ← heap_kmalloc r h; Ret (ps ++ [p], h)) (Ret ([], h)) reqs.

Lemma run_heap_wf n reqs : returns (run_heap n reqs) (fun '(_, h) => heap_wf h).
Proof.
  unfold run_heap. eapply returns_bind; [apply heap_init_spec|]. intros h [Hwf _].
  assert (forall acc, returns acc (fun '(_, h) => heap_wf h) ->
    returns (foldl (fun acc r => '(ps, h) ← acc; '(p, h) ← heap_kmalloc r h; Ret (ps ++ [p], h)) acc reqs)
      (fun '(_, h) => heap_wf h)) as Hgen; [|by apply Hgen].
  induction reqs as [|r reqs IH]; intros acc Hacc; [done|]. simpl. apply IH.
  eapply returns_bind; [done|]. intros [ps h1] Hwf1.
  eapply returns_bind; [by apply heap_kmalloc_spec|]. by intros [p h2] [Hwf2 _].
Qed.

Definition the_heap (m : out (list Z * heap Z)) : heap Z :=
  match m with Ret (_, h) => h | _ => Heap ∅ 0 0 0 0 end.

Lemma the_heap_wf n reqs : heap_wf (the_heap (run_heap n reqs)).
Proof. pose proof (run_heap_wf n reqs). by destruct (run_heap n reqs) as [[? ?]| |]. Qed.

Lemma heap_kmalloc_correct_witness :
  exists p h', heap_kmalloc 100 (the_heap (run_heap 32 [24; 4000])) = Ret (p, h') /\ heap_wf h' /\ p <> 0.
Proof.
  pose proof (heap_kmalloc_correct (the_heap (run_heap 32 [24; 4000])) 100
    (the_heap_wf _ _) ltac:(lia)) as H.
  apply returns_inv in H as ([p h'] & E & Hwf & _ & _ & H).
  exists p, h'. split; [exact E|]. split; [exact Hwf|].
  destruct H as [[-> _]|[Hz _]]; [|exact Hz]. vm_compute in E. discriminate E.
Defined.

(** Three blocks, the first one given back. *)
Definition three : heap Z := the_heap (run_heap 32 [24; 40; 4000]).
Definition holed : heap Z := match heap_kfree (HEAP_START + 16) three with Ret h => h | _ => three end.

Lemma holed_wf : heap_wf holed.
Proof.
  unfold holed. pose proof (heap_kfree_spec (HEAP_START + 16) three (the_heap_wf _ _)) as H.
  assert (HEAP_START + 16 ∈ (heap_blocks three).*1) as Hin by (vm_compute; constructor).
  destruct (returns_inv _ _ (H Hin)) as (h' & -> & Hwf & _). exact Hwf.
Qed.

Lemma holed_tiles :
  heap_tiles holed = [Tile HEAP_START 48 true; Tile (HEAP_START + 48) 64 false; Tile (HEAP_START + 112) 4016 false].
Proof. vm_compute. reflexivity. Qed.

Lemma heap_kfree_correct_witness :
  heap_tiles holed = [Tile HEAP_START 48 true; Tile (HEAP_START + 48) 64 false; Tile (HEAP_START + 112) 4016 false] /\
  (exists h', heap_kfree (HEAP_START + 64) holed = Ret h' /\ heap_wf h' /\ compact (heap_tiles h') /\
     heap_tiles h' = [Tile HEAP_START 112 true; Tile (HEAP_START + 112) 4016 false]) /\
  heap_kfree 5 holed = Ret holed.
Proof.
  split; [exact holed_tiles|]. split.
  - destruct (heap_kfree_correct holed (HEAP_START + 64) holed_wf) as [H _].
    assert (HEAP_START + 64 ∈ (heap_blocks holed).*1) as Hin by (vm_compute; constructor).
    destruct (returns_inv _ _ (H Hin)) as (h' & E & Hwf & _ & _ & Hc & _). exists h'. split; [exact E|]. split; [exact Hwf|].
    assert (heap_tiles (match heap_kfree (HEAP_START + 64) holed with Ret h => h | _ => holed end) =
      [Tile HEAP_START 112 true; Tile (HEAP_START + 112) 4016 false]) as Ht by (vm_compute; reflexivity).
    rewrite E in Ht. split; [|exact Ht]. apply Hc. rewrite holed_tiles. repeat split.
  - apply (heap_kfree_correct _ 5 holed_wf). left. reflexivity.
Defined.

Lemma heap_kcalloc_correct_witness :
  returns (heap_kcalloc 0x10000 0x10001 (the_heap (run_heap 32 [24]))) (fun '(p, _, _) => p = 0) /\
  returns (heap_kcalloc 3 100 (the_heap (run_heap 32 [24]))) (fun '(p, z, h') => heap_wf h' /\ p <> 0 /\ z = 300).
Proof.
  split; [vm_compute; reflexivity|].
  pose proof (heap_kcalloc_correct (the_heap (run_heap 32 [24])) 3 100 (the_heap_wf 32 [24])
    ltac:(split; lia) ltac:(split; lia) ltac:(left; lia)) as H.
  assert (returns (heap_kcalloc 3 100 (the_heap (run_heap 32 [24]))) (fun '(p, _, _) => p <> 0)) as Hz
    by (vm_compute; discriminate).
  destruct (returns_inv _ _ H) as ([[p z] h'] & E & Hwf & Hc). rewrite E in Hz |- *.
  cbn [returns] in Hz |- *. split; [exact Hwf|].
  destruct Hc as [[Hp _]|(_ & _ & Hzz & _)]; [destruct (Hz Hp)|]. split; [exact Hz|exact Hzz].
Defined.

(** A request above 0xFFFFFFF0 bytes wraps in HEAP_ALIGN: [kmalloc] then
    succeeds with the smallest block, 16 bytes of payload for 4 GiB. *)
Theorem heap_kmalloc_size_wraps :
  returns (heap_kmalloc 0xFFFFFFFF (the_heap (run_heap 32 [24]))) (fun '(p, h') =>
    p = HEAP_START + 64 /\ heap_blocks h' = [(HEAP_START + 16, 32); (HEAP_START + 64, 16)]).
Proof. vm_compute. split; reflexivity. Qed.
