(* ===== verification/HeapArm.v ===== *)
(** * The kernel heap on arm64 (mk/vm/heap.c, first half)

    A static region between two linker symbols, a free list in no particular
    order, and headers with a separate magic word.  [kmalloc] splits the block
    it takes when it is large enough; [kfree] accepts only headers that carry
    the magic number of a used block. *)

From stdpp Require Import base numbers list gmap.
From Stdlib Require Import ZArith Lia.
From S2P Require Import Prelude.

#[local] Open Scope Z_scope.

Definition ARM_MAGIC_FREE : Z := 0x48454150.
Definition ARM_MAGIC_USED : Z := 0x44454144.
Definition ARM_SIZE_MASK : Z := 0x7FFFFFFF.
(** [sizeof(heap_block_t)] *)
Definition ARM_HEADER : Z := 16.

Record ablock := ABlock { a_magic : Z; a_size : Z; a_next : Z }.

Record arm_heap := ArmHeap {
  amem : gmap Z ablock;
  a_free_list : Z;
  a_initialized : bool;
}.

Section arm.
(** [__heap_start] and [__heap_end]. *)
Context (hstart hend : Z).

Definition arm_heap_do_init (h : arm_heap) : arm_heap :=
  ArmHeap (<[hstart := ABlock ARM_MAGIC_FREE (u32 (hend - hstart - ARM_HEADER)) 0]> (amem h))
    hstart true.

Definition arm_heap_init (h : arm_heap) : arm_heap :=
  if a_initialized h then h else arm_heap_do_init h.

Definition arm_set (a : Z) (x : ablock) (h : arm_heap) : arm_heap :=
  ArmHeap (<[a := x]> (amem h)) (a_free_list h) (a_initialized h).

(** [if (prev) prev->next = v; else heap_free_list = v;] *)
Definition arm_unlink (prev v : Z) (h : arm_heap) : out arm_heap :=
  if prev =? 0 then Ret (ArmHeap (amem h) v (a_initialized h))
  else x ← deref (amem h !! prev); Ret (arm_set prev (ABlock (a_magic x) (a_size x) v) h).

Fixpoint arm_kmalloc_walk (fuel : nat) (prev block size : Z) (h : arm_heap) : out (Z * arm_heap) :=
  match fuel with
  | O => Hang
  | S fuel =>
      if block =? 0 then Ret (0, h)
      else
        x ← deref (amem h !! block);
        if negb (a_magic x =? ARM_MAGIC_FREE) then
          let h := ArmHeap (amem h) (a_next x) (a_initialized h) in
          arm_kmalloc_walk fuel 0 (a_next x) size h
        else
          let block_size := Z.land (a_size x) ARM_SIZE_MASK in
          if size <=? block_size then
            let '(h, next) :=
              if size + ARM_HEADER + 16 <=? block_size then
                let new_block := block + ARM_HEADER + size in
                let h := arm_set new_block
                  (ABlock ARM_MAGIC_FREE (u32 (block_size - size - ARM_HEADER)) (a_next x)) h in
                (arm_set block (ABlock (a_magic x) (Z.lor size ARM_MAGIC_USED) new_block) h, new_block)
              else (arm_set block (ABlock ARM_MAGIC_USED (a_size x) (a_next x)) h, a_next x) in
            h ← arm_unlink prev next h;
            Ret (block + ARM_HEADER, h)
          else arm_kmalloc_walk fuel block (a_next x) size h
  end.

(** [size = (size + 3) & ~3; if (size < 16) size = 16;] on a [uint32_t]. *)
Definition arm_round (n : Z) : Z :=
  let n := Z.land (u32 (n + 3)) 0xFFFFFFFC in if n <? 16 then 16 else n.

Definition arm_kmalloc (n : Z) (h : arm_heap) : out (Z * arm_heap) :=
  if n =? 0 then Ret (0, h)
  else
    let h := arm_heap_init h in
    arm_kmalloc_walk (S (size (amem h))) 0 (a_free_list h) (arm_round n) h.

(** The block and how many of its bytes were set to zero by the second
    [memset]. *)
Definition arm_kcalloc (count n : Z) (h : arm_heap) : out (Z * Z * arm_heap) :=
  if negb (count =? 0) && (0xFFFFFFFF / count <? n) then Ret (0, 0, h)
  else
    let total := u32 (count * n) in
    '(p, h) ← arm_kmalloc total h;
    Ret (p, if p =? 0 then 0 else total, h).

Definition arm_kfree (addr : Z) (h : arm_heap) : out arm_heap :=
  if addr =? 0 then Ret h
  else
    let block := addr - ARM_HEADER in
    x ← deref (amem h !! block);
    if negb (a_magic x =? ARM_MAGIC_USED) then Ret h
    else Ret (ArmHeap (<[block := ABlock ARM_MAGIC_FREE (a_size x) (a_free_list h)]> (amem h))
                block (a_initialized h)).

(** ** Properties *)

Lemma arm_round_spec n : 0 < n <= 0xFFFFFFF0 -> 16 <= arm_round n <= n + 15 /\ n <= arm_round n.
Proof.
  intros Hn. unfold arm_round. rewrite u32_small by (unfold in_u32; lia).
  rewrite (land_mask 32 2) by lia. change (2 ^ 2) with 4.
  pose proof (Z.div_mod (n + 3) 4 ltac:(lia)). pose proof (Z.mod_pos_bound (n + 3) 4 ltac:(lia)).
  destruct (Z.ltb_spec (4 * ((n + 3) / 4)) 16); lia.
Qed.

(** What taking the first block of the list by splitting leaves. *)
Lemma arm_split n h x :
  a_initialized h = true -> 0 < a_free_list h -> amem h !! a_free_list h = Some x ->
  a_magic x = ARM_MAGIC_FREE -> 0 < n <= 0xFFFFFFF0 ->
  arm_round n + 32 <= Z.land (a_size x) ARM_SIZE_MASK ->
  exists h', arm_kmalloc n h = Ret (a_free_list h + ARM_HEADER, h') /\
    a_free_list h' = a_free_list h + ARM_HEADER + arm_round n /\
    exists y, amem h' !! a_free_list h = Some y /\ a_magic y = ARM_MAGIC_FREE.
Proof.
  intros Hi Hpos Hx Hm Hn Hfit. pose proof (arm_round_spec n Hn) as Hr.
  unfold arm_kmalloc, arm_heap_init. rewrite Hi, (proj2 (Z.eqb_neq n 0)) by lia. cbv zeta.
  cbn [arm_kmalloc_walk]. rewrite (proj2 (Z.eqb_neq (a_free_list h) 0)), Hx by lia.
  cbn [deref mbind out_bind]. rewrite Hm, Z.eqb_refl. cbn [negb]. unfold ARM_HEADER.
  rewrite !(proj2 (Z.leb_le _ _)) by lia. cbn.
  eexists. split; [done|]. split; [done|]. eexists. cbn. rewrite lookup_insert_eq. by split.
Qed.

(** On arm64 a block obtained by splitting can never be given back:
    [kmalloc] leaves the magic word of its header at the free value, and
    [kfree] of the returned address changes nothing at all, so the bytes are
    lost to the free list for good. *)
Theorem arm_kfree_split_noop (n : Z) (h : arm_heap) (x : ablock) :
  a_initialized h = true -> 0 < a_free_list h -> amem h !! a_free_list h = Some x ->
  a_magic x = ARM_MAGIC_FREE -> 0 < n <= 0xFFFFFFF0 ->
  arm_round n + 32 <= Z.land (a_size x) ARM_SIZE_MASK ->
  exists p h', arm_kmalloc n h = Ret (p, h') /\ p = a_free_list h + ARM_HEADER /\
    arm_kfree p h' = Ret h' /\ a_free_list h' = p + arm_round n.
Proof.
  intros Hi Hpos Hx Hm Hn Hfit.
  destruct (arm_split n h x Hi Hpos Hx Hm Hn Hfit) as (h' & E & Hf & y & Hy & Hmy).
  exists (a_free_list h + ARM_HEADER), h'. split; [done|]. split; [done|]. split; [|done].
  unfold arm_kfree. rewrite (proj2 (Z.eqb_neq _ 0)) by (unfold ARM_HEADER; lia).
  cbv zeta. rewrite Z.add_simpl_r, Hy. cbn [deref mbind out_bind]. by rewrite Hmy.
Qed.
End arm.

Definition arm_fresh : arm_heap := arm_heap_init 0x40000000 0x40800000 (ArmHeap ∅ 0 false).

Lemma arm_kfree_split_noop_witness :
  exists p h', arm_kmalloc 0x40000000 0x40800000 100 arm_fresh = Ret (p, h') /\
    p = 0x40000010 /\
    arm_kfree p h' = Ret h' /\ a_free_list h' = 0x40000074.
Proof.
  destruct (arm_kfree_split_noop 0x40000000 0x40800000 100 arm_fresh
    (ABlock ARM_MAGIC_FREE 0x7FFFF0 0) eq_refl eq_refl eq_refl eq_refl ltac:(lia)
    ltac:(vm_compute; discriminate)) as (p & h' & E & -> & Hfree & Hf).
  eexists _, h'. split; [exact E|]. split; [reflexivity|]. split; [exact Hfree|].
  rewrite Hf. reflexivity.
Defined.
