(* ===== verification/Pmm.v ===== *)
(** * The physical page allocator (mk/vm/pmm.c)

    One bit per page, set when the page is in use.  [pmm_init] builds the
    bitmap from the memory map the boot loader passes: a small static bitmap
    of the first 16 MB is used to find a place for the real one, which then
    gets the available ranges cleared and the kernel image, itself, the boot
    modules and the boot information set again.  The boot information is the
    list of its tags.  [refcounts] is never assigned in the code, so the
    branches it guards are never taken and are left out. *)

From stdpp Require Import base numbers list.
From Stdlib Require Import ZArith Lia.
From S2P Require Import Prelude.

#[local] Open Scope Z_scope.

Definition PAGE : Z := 4096.
Definition BOOTSTRAP_PAGES : Z := 4096.
Definition MEMORY_AVAILABLE : Z := 1.

Record mmap_entry := MmapEntry { me_addr : Z; me_len : Z; me_type : Z }.

Inductive mb_tag :=
| TagMmap (entries : list mmap_entry)
| TagModule (mod_start mod_end : Z)
| TagOther (type : Z).

(** The boot information: its address, [total_size] and tags. *)
Record mboot_info := MbootInfo { mb_addr : Z; mb_size : Z; mb_tags : list mb_tag }.

Record pmm := Pmm {
  bitmap : list Z;
  bitmap_addr : Z;
  total_pages : Z;
  free_pages : Z;
}.

(** ** Bits *)

Definition bitmap_set (page : Z) (bm : list Z) : out (list Z) := bm_set 8 bm page.
Definition bitmap_clear (page : Z) (bm : list Z) : out (list Z) := bm_clear 8 bm page.
Definition bitmap_test (page : Z) (bm : list Z) : out bool :=
  w ← rd bm (page / 8); Ret (negb (Z.land w (Z.shiftl 1 (page mod 8)) =? 0)).

(** Mark pages [start, end) used in the bootstrap bitmap (clipped). *)
Definition bmap_reserve (start e : Z) (bm : list Z) : out (list Z) :=
  let e := if BOOTSTRAP_PAGES <? e then BOOTSTRAP_PAGES else e in
  for_range start e bitmap_set bm.

(** ** Initialisation *)

(** The first whole page of a range and the page behind its last, as the code
    computes them in 64 bits and stores them in 32. *)
Definition start_page (e : mmap_entry) : Z := u32 (u64 (me_addr e + PAGE - 1) / PAGE).
Definition end_page (e : mmap_entry) : Z := u32 (u64 (me_addr e + me_len e) / PAGE).

Definition mod_first (mod_start : Z) : Z := mod_start / PAGE.
Definition mod_last (mod_end : Z) : Z := u32 (mod_end + PAGE - 1) / PAGE.

Definition mboot_first (mb : mboot_info) : Z := mb_addr mb / PAGE.
Definition mboot_last (mb : mboot_info) : Z := u64 (mb_addr mb + mb_size mb + PAGE - 1) / PAGE.

(** First pass: the end of memory and the available pages of the window. *)
Definition boot_entry (e : mmap_entry) (st : Z * list Z) : out (Z * list Z) :=
  let '(mem_end, bm) := st in
  if negb (me_type e =? MEMORY_AVAILABLE) then Ret st
  else
    let top := u64 (me_addr e + me_len e) in
    let mem_end := if mem_end <? top then top else mem_end in
    if BOOTSTRAP_PAGES <=? start_page e then Ret (mem_end, bm)
    else
      let ep := if BOOTSTRAP_PAGES <? end_page e then BOOTSTRAP_PAGES else end_page e in
      bm ← for_range (start_page e) ep bitmap_clear bm;
      Ret (mem_end, bm).

Definition boot_tag (t : mb_tag) (st : Z * list Z) : out (Z * list Z) :=
  match t with TagMmap es => fold_out boot_entry es st | _ => Ret st end.

Definition boot_reserve_module (t : mb_tag) (bm : list Z) : out (list Z) :=
  match t with
  | TagModule s e => bmap_reserve (mod_first s) (mod_last e) bm
  | _ => Ret bm
  end.

(** The search for the lowest run of [need] free pages: where the current run
    starts and how long it is. *)
Fixpoint find_run (n : nat) (i bstart run need : Z) (bm : list Z) : out (Z * Z) :=
  match n with
  | O => Ret (bstart, run)
  | S n =>
      used ← bitmap_test i bm;
      if (used : bool) then find_run n (i + 1) bstart 0 need bm
      else
        let bstart := if run =? 0 then i else bstart in
        if run + 1 =? need then Ret (bstart, run + 1)
        else find_run n (i + 1) bstart (run + 1) need bm
  end.

Definition find_window (need : Z) (bm : list Z) : out (Z * Z) :=
  find_run (Z.to_nat BOOTSTRAP_PAGES) 0 BOOTSTRAP_PAGES 0 need bm.

(** The longest run of free pages of the window. *)
Fixpoint longest_run (n : nat) (i r max_run : Z) (bm : list Z) : out Z :=
  match n with
  | O => Ret max_run
  | S n =>
      used ← bitmap_test i bm;
      if (used : bool) then longest_run n (i + 1) 0 max_run bm
      else longest_run n (i + 1) (r + 1) (if max_run <? r + 1 then r + 1 else max_run) bm
  end.

Definition pages_for (total : Z) : Z :=
  let n := (total / 8 + PAGE - 1) / PAGE in if n =? 0 then 1 else n.

(** Where the bitmap goes, how many pages it takes and how many pages it
    tracks. *)
Definition place_bitmap (total : Z) (boot : list Z) : out (Z * Z * Z) :=
  let need := pages_for total in
  '(bstart, run) ← find_window need boot;
  if run =? need then Ret (bstart, need, total)
  else
    max_run ← longest_run (Z.to_nat BOOTSTRAP_PAGES) 0 0 0 boot;
    let total := u32 (max_run * 8 * PAGE / PAGE) in
    let need := pages_for total in
    '(bstart, _) ← find_window need boot;
    Ret (bstart, need, total).

(** Second pass: free the available pages of the real bitmap. *)
Definition free_one (i : Z) (st : list Z * Z) : out (list Z * Z) :=
  let '(bm, free) := st in
  used ← bitmap_test i bm;
  if (used : bool) then bm ← bitmap_clear i bm; Ret (bm, u32 (free + 1)) else Ret (bm, free).

Definition free_entry (total : Z) (e : mmap_entry) (st : list Z * Z) : out (list Z * Z) :=
  if negb (me_type e =? MEMORY_AVAILABLE) then Ret st
  else if total <=? start_page e then Ret st
  else
    let ep := if total <? end_page e then total else end_page e in
    for_range (start_page e) ep free_one st.

Definition free_tag (total : Z) (t : mb_tag) (st : list Z * Z) : out (list Z * Z) :=
  match t with TagMmap es => fold_out (free_entry total) es st | _ => Ret st end.

(** [for (i = a; i < b && i < total_pages; i++)]: take the page away. *)
Definition reserve_one (i : Z) (st : list Z * Z) : out (list Z * Z) :=
  let '(bm, free) := st in
  used ← bitmap_test i bm;
  if (used : bool) then Ret (bm, free) else bm ← bitmap_set i bm; Ret (bm, u32 (free - 1)).

Definition reserve_range (total a b : Z) (st : list Z * Z) : out (list Z * Z) :=
  for_range a (Z.min b total) reserve_one st.

Definition reserve_module (total : Z) (t : mb_tag) (st : list Z * Z) : out (list Z * Z) :=
  match t with
  | TagModule s e => reserve_range total (mod_first s) (mod_last e) st
  | _ => Ret st
  end.

(** [kernel_end] is the address of the linker symbol [_kernel_end]. *)
Definition kernel_end_page (kernel_end : Z) : Z := u32 (u64 (kernel_end + PAGE - 1) / PAGE).

(** The real bitmap of [np] pages at page [bstart]: available ranges free,
    then everything in use taken away again. *)
Definition mark_pages (kernel_end : Z) (mb : mboot_info) (total bstart np : Z) : out (list Z * Z) :=
  let bm := replicate (Z.to_nat (np * PAGE)) 0xFF in
  st ← fold_out (free_tag total) (mb_tags mb) (bm, 0);
  st ← reserve_range total 0 (kernel_end_page kernel_end) st;
  st ← reserve_range total bstart (u32 (bstart + np)) st;
  st ← fold_out (reserve_module total) (mb_tags mb) st;
  reserve_range total (mboot_first mb) (mboot_last mb) st.

Definition pmm_init (kernel_end : Z) (mb : mboot_info) : out pmm :=
  let boot := replicate (Z.to_nat (BOOTSTRAP_PAGES / 8)) 0xFF in
  '(mem_end, boot) ← fold_out boot_tag (mb_tags mb) (0, boot);
  let total := u32 (mem_end / PAGE) in
  boot ← bmap_reserve 0 (kernel_end_page kernel_end) boot;
  boot ← fold_out boot_reserve_module (mb_tags mb) boot;
  boot ← bmap_reserve (u32 (mboot_first mb)) (u32 (mboot_last mb)) boot;
  '(bstart, bitmap_pages, total) ← place_bitmap total boot;
  '(bm, free) ← mark_pages kernel_end mb total bstart bitmap_pages;
  Ret (Pmm bm (bstart * PAGE) total free).

(** ** Allocation *)

Definition set_bitmap (bm : list Z) (free : Z) (p : pmm) : pmm :=
  Pmm bm (bitmap_addr p) (total_pages p) free.

Fixpoint alloc_page_loop (n : nat) (i : Z) (p : pmm) : out (Z * pmm) :=
  match n with
  | O => Ret (0, p)
  | S n =>
      used ← bitmap_test i (bitmap p);
      if (used : bool) then alloc_page_loop n (i + 1) p
      else
        bm ← bitmap_set i (bitmap p);
        stuck ← bitmap_test i bm;
        if negb stuck then alloc_page_loop n (i + 1) (set_bitmap bm (free_pages p) p)
        else Ret (i * PAGE, set_bitmap bm (u32 (free_pages p - 1)) p)
  end.

Definition pmm_alloc_page (p : pmm) : out (Z * pmm) :=
  if free_pages p =? 0 then Ret (0, p)
  else alloc_page_loop (Z.to_nat (total_pages p)) 0 p.

(** [for (j = 0; j < count; j++) if (bitmap_test(i + j)) break;]: is the whole
    run free? *)
Fixpoint run_free (n : nat) (i : Z) (bm : list Z) : out bool :=
  match n with
  | O => Ret true
  | S n => used ← bitmap_test i bm; if (used : bool) then Ret false else run_free n (i + 1) bm
  end.

Definition take_one (i : Z) (st : list Z * Z) : out (list Z * Z) :=
  let '(bm, free) := st in bm ← bitmap_set i bm; Ret (bm, u32 (free - 1)).

Fixpoint alloc_pages_loop (n : nat) (i count : Z) (p : pmm) : out (Z * pmm) :=
  match n with
  | O => Ret (0, p)
  | S n =>
      ok ← run_free (Z.to_nat count) i (bitmap p);
      if (ok : bool) then
        '(bm, free) ← for_range i (i + count) take_one (bitmap p, free_pages p);
        Ret (i * PAGE, set_bitmap bm free p)
      else alloc_pages_loop n (i + 1) count p
  end.

(** [i <= total_pages - count], the difference in 32 bits. *)
Definition pmm_alloc_pages (count : Z) (p : pmm) : out (Z * pmm) :=
  if (count =? 0) || (free_pages p <? count) then Ret (0, p)
  else alloc_pages_loop (Z.to_nat (u32 (total_pages p - count) + 1)) 0 count p.

Definition free_at (idx : Z) (p : pmm) : out pmm :=
  if idx <? total_pages p then
    used ← bitmap_test idx (bitmap p);
    if (used : bool) then
      bm ← bitmap_clear idx (bitmap p);
      Ret (set_bitmap bm (u32 (free_pages p + 1)) p)
    else Ret p
  else Ret p.

Definition pmm_free_page (page : Z) (p : pmm) : out pmm := free_at (page / PAGE) p.

Definition pmm_free_pages (addr count : Z) (p : pmm) : out pmm :=
  for_range 0 count (fun i p => free_at (addr / PAGE + i) p) p.

Definition pmm_get_free_pages (p : pmm) : Z := free_pages p.
Definition pmm_get_total_pages (p : pmm) : Z := total_pages p.

(** ** Bitmaps as sets of free pages *)

Lemma land_bit w k : 0 <= k -> negb (Z.land w (Z.shiftl 1 k) =? 0) = Z.testbit w k.
Proof.
  intros Hk. rewrite Z.shiftl_1_l. destruct (Z.testbit w k) eqn:E.
  - apply negb_true_iff, Z.eqb_neq. intros H0. apply (f_equal (fun z => Z.testbit z k)) in H0.
    rewrite Z.land_spec, E, Z.pow2_bits_true, Z.bits_0 in H0 by lia. done.
  - apply negb_false_iff, Z.eqb_eq. apply Z.bits_inj'. intros n Hn.
    rewrite Z.land_spec, Z.bits_0, Z.pow2_bits_eqb by lia.
    destruct (Z.eqb_spec k n) as [<-|]; [by rewrite E|apply andb_false_r].
Qed.

Lemma bitmap_test_ok i bm : 0 <= i < bm_size 8 bm -> bitmap_test i bm = Ret (bm_bit 8 bm i).
Proof.
  intros Hi. unfold bitmap_test, bm_bit. destruct (getz_lt bm (i / 8)) as [w Hw].
  { by apply (bm_word_lt 8). }
  rewrite (rd_getz _ _ _ Hw), Hw. ret. rewrite land_bit; [done|].
  apply Z.mod_pos_bound. lia.
Qed.

(** The pages below [n] that are clear are those of [F]. *)
Definition bits (n : Z) (F : Z -> Prop) (bm : list Z) : Prop :=
  n <= bm_size 8 bm /\ forall i, 0 <= i < n -> (bm_bit 8 bm i = false <-> F i).

(** How many of the first [n] bits are clear. *)
Fixpoint nclear (bm : list Z) (n : nat) : Z :=
  match n with
  | O => 0
  | S n => nclear bm n + (if bm_bit 8 bm (Z.of_nat n) then 0 else 1)
  end.

Definition tracks (n : Z) (F : Z -> Prop) (st : list Z * Z) : Prop :=
  bits n F st.1 /\ 0 <= n < 2 ^ 32 /\ st.2 = nclear st.1 (Z.to_nat n).

Lemma bits_ext n F G bm : (forall i, 0 <= i < n -> (F i <-> G i)) -> bits n F bm -> bits n G bm.
Proof. intros HFG [Hn Hb]. split; [done|]. intros i Hi. by rewrite Hb, HFG. Qed.

Lemma tracks_ext n F G st : (forall i, 0 <= i < n -> (F i <-> G i)) -> tracks n F st -> tracks n G st.
Proof. intros HFG [Hb Hn]. split; [by eapply bits_ext|done]. Qed.

Lemma bm_upd_size bm i b bm' : bm_upd 8 bm i b bm' -> bm_size 8 bm' = bm_size 8 bm.
Proof. intros [Hl _]. unfold bm_size. by rewrite Hl. Qed.

Lemma nclear_same bm bm' n :
  (forall j, 0 <= j < Z.of_nat n -> bm_bit 8 bm' j = bm_bit 8 bm j) -> nclear bm' n = nclear bm n.
Proof.
  induction n as [|n IH]; intros Hs; simpl; [done|].
  rewrite IH, Hs by (intros; try apply Hs; lia). done.
Qed.

Lemma nclear_upd bm i b bm' n :
  bm_upd 8 bm i b bm' -> 0 <= i < Z.of_nat n ->
  nclear bm' n = nclear bm n + (if bm_bit 8 bm i then 0 else -1) + (if b then 0 else 1).
Proof.
  intros (_ & _ & Hb). induction n as [|n IH]; intros Hi; [lia|]. cbn [nclear].
  rewrite Hb by lia. destruct (Z.eqb_spec (Z.of_nat n) i) as [Heq|Hne].
  - rewrite (nclear_same bm bm' n).
    + rewrite Heq. destruct (bm_bit 8 bm i), b; lia.
    + intros j Hj. rewrite Hb by lia. by rewrite (proj2 (Z.eqb_neq j i)) by lia.
  - rewrite IH by lia. lia.
Qed.

Lemma nclear_range bm n : 0 <= nclear bm n <= Z.of_nat n.
Proof. induction n as [|n IH]; cbn [nclear]; [lia|]. destruct (bm_bit 8 bm _); lia. Qed.

(** A clear bit below [n] is counted. *)
Lemma nclear_pos bm n i : 0 <= i < Z.of_nat n -> bm_bit 8 bm i = false -> 0 < nclear bm n.
Proof.
  induction n as [|n IH]; intros Hi Hb; [lia|]. cbn [nclear]. pose proof (nclear_range bm n).
  destruct (Z.eq_dec i (Z.of_nat n)) as [<-|]; [rewrite Hb; lia|].
  specialize (IH ltac:(lia) Hb). destruct (bm_bit 8 bm (Z.of_nat n)); lia.
Qed.

Lemma nclear_zero bm n i : nclear bm n = 0 -> 0 <= i < Z.of_nat n -> bm_bit 8 bm i = true.
Proof.
  intros H0 Hi. destruct (bm_bit 8 bm i) eqn:E; [done|].
  pose proof (nclear_pos bm n i Hi E). lia.
Qed.

Lemma nclear_sub_zero bm n : (forall i, 0 <= i < Z.of_nat n -> bm_bit 8 bm i = true) -> nclear bm n = 0.
Proof.
  induction n as [|n IH]; intros Hb; cbn [nclear]; [done|].
  rewrite IH, Hb by (intros; try apply Hb; lia). done.
Qed.

Lemma bits_upd n F bm i b bm' :
  bits n F bm -> bm_upd 8 bm i b bm' ->
  bits n (fun j => if j =? i then b = false else F j) bm'.
Proof.
  intros [Hn Hb] Hu. split; [by rewrite (bm_upd_size _ _ _ _ Hu)|].
  intros j Hj. destruct Hu as (_ & _ & ->); [|lia]. destruct (j =? i); [done|by apply Hb].
Qed.

Lemma bitmap_set_spec n F bm i :
  bits n F bm -> 0 <= i < n -> returns (bitmap_set i bm) (bits n (fun j => F j /\ j <> i)).
Proof.
  intros HB Hi. pose proof HB as [Hn _]. eapply returns_mono; [apply bm_set_spec; lia|].
  intros bm' Hu. eapply bits_ext; [|by apply (bits_upd n F bm i true)].
  intros j Hj. cbv beta. destruct (Z.eqb_spec j i); naive_solver.
Qed.

Lemma bitmap_clear_spec n F bm i :
  bits n F bm -> 0 <= i < n -> returns (bitmap_clear i bm) (bits n (fun j => F j \/ j = i)).
Proof.
  intros HB Hi. pose proof HB as [Hn _]. eapply returns_mono; [apply bm_clear_spec; lia|].
  intros bm' Hu. eapply bits_ext; [|by apply (bits_upd n F bm i false)].
  intros j Hj. cbv beta. destruct (Z.eqb_spec j i); naive_solver.
Qed.

Lemma free_one_spec n F st i :
  tracks n F st -> 0 <= i < n -> returns (free_one i st) (tracks n (fun j => F j \/ j = i)).
Proof.
  destruct st as [bm free]. intros (HB & Hn & Hc) Hi. cbn [fst snd] in *. pose proof HB as [Hsz Hb].
  unfold free_one. rewrite bitmap_test_ok by lia. ret. destruct (bm_bit 8 bm i) eqn:E.
  - eapply returns_bind; [apply bm_clear_spec; lia|]. intros bm' Hu. ret.
    split; [|split; [done|]]; cbn [fst snd].
    + eapply bits_ext; [|by apply (bits_upd n F bm i false)].
      intros j Hj. cbv beta. destruct (Z.eqb_spec j i); naive_solver.
    + pose proof (nclear_upd bm i false bm' (Z.to_nat n) Hu ltac:(lia)) as Hup. rewrite E in Hup.
      pose proof (nclear_range bm' (Z.to_nat n)). pose proof (nclear_range bm (Z.to_nat n)).
      rewrite u32_small; [lia|]. unfold in_u32. lia.
  - ret. split; [|done]. eapply bits_ext; [|done]. intros j Hj. split; [by left|].
    intros [?| ->]; [done|]. by apply Hb.
Qed.

Lemma reserve_one_spec n F st i :
  tracks n F st -> 0 <= i < n -> returns (reserve_one i st) (tracks n (fun j => F j /\ j <> i)).
Proof.
  destruct st as [bm free]. intros (HB & Hn & Hc) Hi. cbn [fst snd] in *. pose proof HB as [Hsz Hb].
  unfold reserve_one. rewrite bitmap_test_ok by lia. ret. destruct (bm_bit 8 bm i) eqn:E.
  - ret. split; [|done]. eapply bits_ext; [|done]. intros j Hj. split; [|by intros []].
    intros HF. split; [done|]. intros ->. apply Hb in HF; [|done]. congruence.
  - eapply returns_bind; [apply bm_set_spec; lia|]. intros bm' Hu. ret.
    split; [|split; [done|]]; cbn [fst snd].
    + eapply bits_ext; [|by apply (bits_upd n F bm i true)].
      intros j Hj. cbv beta. destruct (Z.eqb_spec j i); naive_solver.
    + pose proof (nclear_upd bm i true bm' (Z.to_nat n) Hu ltac:(lia)) as Hup. rewrite E in Hup.
      pose proof (nclear_range bm' (Z.to_nat n)). rewrite u32_small; [lia|]. unfold in_u32. lia.
Qed.

(** ** Loops over ranges of pages *)

Lemma range_spec {St} (T : (Z -> Prop) -> St -> Prop) (n : Z) (op : bool)
    (f : Z -> St -> out St) F a b s :
  (forall F G s, (forall i, 0 <= i < n -> (F i <-> G i)) -> T F s -> T G s) ->
  (forall F i s, T F s -> 0 <= i < n ->
     returns (f i s) (T (fun j => if op then F j \/ j = i else F j /\ j <> i))) ->
  0 <= a -> b <= n -> T F s ->
  returns (for_range a b f s)
    (T (fun j => if op then F j \/ a <= j < b else F j /\ ~ (a <= j < b))).
Proof.
  intros Hext Hf Ha Hb HF.
  eapply returns_mono.
  - apply (for_range_inv (fun i => T (fun j => if op then F j \/ a <= j < i else F j /\ ~ (a <= j < i)))).
    + eapply Hext, HF. intros j _. destruct op; split; [by left|intros [|]; [done|lia]|..];
        [intros; split; [done|lia]|by intros []].
    + intros i s' Hi Hs'. eapply returns_mono; [exact (Hf _ i s' Hs' ltac:(lia))|].
      intros s'' Hs''. eapply Hext, Hs''. intros j _. destruct op; cbv beta; naive_solver lia.
  - intros s' Hs'. eapply Hext, Hs'. intros j _. destruct op; cbv beta; naive_solver lia.
Qed.

Lemma clear_range n F a b bm :
  bits n F bm -> 0 <= a -> b <= n ->
  returns (for_range a b bitmap_clear bm) (bits n (fun j => F j \/ a <= j < b)).
Proof.
  intros. apply (range_spec (bits n) n true); [apply bits_ext| |done..].
  intros. by apply bitmap_clear_spec.
Qed.

Lemma set_range n F a b bm :
  bits n F bm -> 0 <= a -> b <= n ->
  returns (for_range a b bitmap_set bm) (bits n (fun j => F j /\ ~ (a <= j < b))).
Proof.
  intros. apply (range_spec (bits n) n false); [apply bits_ext| |done..].
  intros. by apply bitmap_set_spec.
Qed.

Lemma free_range n F a b st :
  tracks n F st -> 0 <= a -> b <= n ->
  returns (for_range a b free_one st) (tracks n (fun j => F j \/ a <= j < b)).
Proof.
  intros. apply (range_spec (tracks n) n true); [apply tracks_ext| |done..].
  intros. by apply free_one_spec.
Qed.

Lemma reserve_range_spec n F a b st :
  tracks n F st -> 0 <= a ->
  returns (reserve_range n a b st) (tracks n (fun j => F j /\ ~ (a <= j < b))).
Proof.
  intros HT Ha. unfold reserve_range. eapply returns_mono.
  - apply (range_spec (tracks n) n false reserve_one F); [apply tracks_ext| |done|lia|done].
    intros. by apply reserve_one_spec.
  - intros st' HT'. eapply tracks_ext, HT'. intros j Hj. cbv beta. naive_solver lia.
Qed.

(** ** What the boot information says *)

Definition available (e : mmap_entry) (j : Z) : Prop :=
  me_type e = MEMORY_AVAILABLE /\ start_page e <= j < end_page e.

(** Page [j] is in an available range of the memory map. *)
Definition tags_available (ts : list mb_tag) (j : Z) : Prop :=
  exists es e, TagMmap es ∈ ts /\ e ∈ es /\ available e j.

(** Page [j] belongs to a boot module. *)
Definition tags_module (ts : list mb_tag) (j : Z) : Prop :=
  exists s e, TagModule s e ∈ ts /\ mod_first s <= j < mod_last e.

Definition tags_wf (ts : list mb_tag) : Prop :=
  Forall (fun t => match t with TagModule s _ => 0 <= s | _ => True end) ts.

(** The end of the available memory. *)
Definition entry_top (e : mmap_entry) : list Z :=
  if me_type e =? MEMORY_AVAILABLE then [u64 (me_addr e + me_len e)] else [].
Definition tag_tops (t : mb_tag) : list Z :=
  match t with TagMmap es => es ≫= entry_top | _ => [] end.
Definition maximum (l : list Z) : Z := foldr Z.max 0 l.
Definition memory_end (ts : list mb_tag) : Z := maximum (ts ≫= tag_tops).

Lemma tags_available_app ts1 ts2 j :
  tags_available (ts1 ++ ts2) j <-> tags_available ts1 j \/ tags_available ts2 j.
Proof. unfold tags_available. setoid_rewrite elem_of_app. naive_solver. Qed.

Lemma tags_module_app ts1 ts2 j :
  tags_module (ts1 ++ ts2) j <-> tags_module ts1 j \/ tags_module ts2 j.
Proof. unfold tags_module. setoid_rewrite elem_of_app. naive_solver. Qed.

Lemma tags_available_one t j :
  tags_available [t] j <->
  match t with TagMmap es => exists e, e ∈ es /\ available e j | _ => False end.
Proof.
  unfold tags_available. setoid_rewrite list_elem_of_singleton.
  destruct t; naive_solver.
Qed.

Lemma tags_module_one t j :
  tags_module [t] j <-> match t with TagModule s e => mod_first s <= j < mod_last e | _ => False end.
Proof.
  unfold tags_module. setoid_rewrite list_elem_of_singleton.
  destruct t; naive_solver.
Qed.

(** *** The real bitmap *)

Lemma free_entry_spec n F e st :
  tracks n F st -> returns (free_entry n e st) (tracks n (fun j => F j \/ available e j)).
Proof.
  intros HT. unfold free_entry, available.
  destruct (Z.eqb_spec (me_type e) MEMORY_AVAILABLE) as [Hty|Hty]; cbn [negb].
  - destruct (Z.leb_spec n (start_page e)).
    + ret. eapply tracks_ext, HT. intros j Hj. naive_solver lia.
    + eapply returns_mono; [apply free_range; [done|apply u32_range|destruct (Z.ltb_spec n (end_page e)); lia]|].
      intros st' HT'. eapply tracks_ext, HT'. intros j Hj. cbv beta.
      destruct (Z.ltb_spec n (end_page e)); naive_solver lia.
  - ret. eapply tracks_ext, HT. naive_solver.
Qed.

Lemma free_tags_spec n F ts st :
  tracks n F st ->
  returns (fold_out (free_tag n) ts st) (tracks n (fun j => F j \/ tags_available ts j)).
Proof.
  intros HT. apply (fold_out_inv (fun ts => tracks n (fun j => F j \/ tags_available ts j))).
  - eapply tracks_ext, HT. intros j _. split; [by left|]. intros [?|(? & ? & ?%elem_of_nil & _)]; done.
  - intros ts1 t ts2 s _ HT1. unfold free_tag. destruct t as [es| |]; cbv beta in *;
      [|ret; eapply tracks_ext, HT1; intros j _; rewrite tags_available_app, tags_available_one; tauto..].
    eapply returns_mono.
    + apply (fold_out_inv (fun es => tracks n (fun j =>
        (F j \/ tags_available ts1 j) \/ exists e, e ∈ es /\ available e j))).
      * eapply tracks_ext, HT1. intros j _. split; [by left|]. intros [?|(? & ?%elem_of_nil & _)]; done.
      * intros es1 e es2 s' _ HT'. eapply returns_mono; [by apply free_entry_spec|].
        intros s'' HT''. eapply tracks_ext, HT''. intros j _. cbv beta.
        setoid_rewrite elem_of_app. setoid_rewrite list_elem_of_singleton. naive_solver.
    + intros s' HT'. eapply tracks_ext, HT'. intros j _. cbv beta.
      rewrite tags_available_app, tags_available_one. tauto.
Qed.

Lemma reserve_modules_spec n F ts st :
  tracks n F st -> tags_wf ts ->
  returns (fold_out (reserve_module n) ts st) (tracks n (fun j => F j /\ ~ tags_module ts j)).
Proof.
  intros HT Hwf. apply (fold_out_inv (fun ts => tracks n (fun j => F j /\ ~ tags_module ts j))).
  - eapply tracks_ext, HT. intros j _. split; [|by intros []]. intros. split; [done|].
    by intros (? & ? & ?%elem_of_nil & _).
  - intros ts1 t ts2 s -> HT1. apply Forall_app in Hwf as [_ Hwf]. apply Forall_cons in Hwf as [Ht _].
    unfold reserve_module. destruct t as [|ms me|]; cbv beta in *;
      [ret; eapply tracks_ext, HT1; intros j _; rewrite tags_module_app, tags_module_one; tauto| |
       ret; eapply tracks_ext, HT1; intros j _; rewrite tags_module_app, tags_module_one; tauto].
    eapply returns_mono; [apply reserve_range_spec; [done|apply Z.div_pos; [done|unfold PAGE; lia]]|].
    intros s' HT'. eapply tracks_ext, HT'. intros j _. cbv beta.
    rewrite tags_module_app, tags_module_one. tauto.
Qed.

(** *** The bootstrap bitmap *)

Lemma maximum_nonneg l : 0 <= maximum l.
Proof. unfold maximum. induction l; simpl; lia. Qed.

Lemma maximum_app l1 l2 : maximum (l1 ++ l2) = Z.max (maximum l1) (maximum l2).
Proof.
  unfold maximum. induction l1 as [|x l1 IH]; simpl; [pose proof (maximum_nonneg l2); unfold maximum in *; lia|].
  rewrite IH. lia.
Qed.

Definition boot_state (F : Z -> Prop) (tops : list Z) (st : Z * list Z) : Prop :=
  bits BOOTSTRAP_PAGES F st.2 /\ st.1 = maximum tops.

Lemma boot_state_ext F G tops tops' st :
  (forall i, 0 <= i < BOOTSTRAP_PAGES -> (F i <-> G i)) -> maximum tops = maximum tops' ->
  boot_state F tops st -> boot_state G tops' st.
Proof. intros HFG Ht [Hb Hm]. split; [by eapply bits_ext|congruence]. Qed.

Lemma boot_entry_spec F tops e st :
  boot_state F tops st ->
  returns (boot_entry e st) (boot_state (fun j => F j \/ available e j) (tops ++ entry_top e)).
Proof.
  destruct st as [m bm]. intros [HB Hm]. cbn [fst snd] in *. unfold boot_entry, available, entry_top.
  destruct (Z.eqb_spec (me_type e) MEMORY_AVAILABLE) as [Hty|Hty]; cbn [negb].
  - set (top := u64 _). set (m' := if m <? top then top else m).
    assert (m' = maximum (tops ++ [top])) as Hm'.
    { rewrite maximum_app, <- Hm. unfold maximum at 1. simpl.
      pose proof (u64_range (me_addr e + me_len e)) as Hr. unfold in_u64 in Hr. fold top in Hr.
      pose proof (maximum_nonneg tops). subst m'. destruct (Z.ltb_spec m top); lia. }
    destruct (Z.leb_spec BOOTSTRAP_PAGES (start_page e)).
    + ret. split; [|done]. eapply bits_ext, HB. intros j Hj. naive_solver lia.
    + eapply returns_bind.
      { apply clear_range; [done|apply u32_range|].
        destruct (Z.ltb_spec BOOTSTRAP_PAGES (end_page e)); lia. }
      intros bm' HB'. ret. split; [|done]. eapply bits_ext, HB'. intros j Hj. cbv beta.
      destruct (Z.ltb_spec BOOTSTRAP_PAGES (end_page e)); naive_solver lia.
  - ret. rewrite app_nil_r. split; [|done]. eapply bits_ext, HB. naive_solver.
Qed.

Lemma boot_tags_spec ts bm :
  bits BOOTSTRAP_PAGES (fun _ => False) bm ->
  returns (fold_out boot_tag ts (0, bm)) (boot_state (tags_available ts) (ts ≫= tag_tops)).
Proof.
  intros HB. apply (fold_out_inv (fun ts => boot_state (tags_available ts) (ts ≫= tag_tops))).
  - split; [|done]. eapply bits_ext, HB. intros j _. split; [done|]. by intros (? & ? & ?%elem_of_nil & _).
  - intros ts1 t ts2 s _ H1. unfold boot_tag. rewrite bind_app. destruct t as [es| |];
      [|ret; eapply boot_state_ext, H1; [intros j _; rewrite tags_available_app, tags_available_one; tauto|
          simpl; by rewrite app_nil_r]..].
    eapply returns_mono.
    + apply (fold_out_inv (fun es => boot_state (fun j =>
        tags_available ts1 j \/ exists e, e ∈ es /\ available e j) ((ts1 ≫= tag_tops) ++ (es ≫= entry_top)))).
      * eapply boot_state_ext, H1; [|simpl; by rewrite app_nil_r].
        intros j _. split; [by left|]. intros [?|(? & ?%elem_of_nil & _)]; done.
      * intros es1 e es2 s' _ H'. eapply returns_mono; [by apply boot_entry_spec|].
        intros s'' H''. eapply boot_state_ext, H''.
        -- intros j _. cbv beta. setoid_rewrite elem_of_app. setoid_rewrite list_elem_of_singleton. naive_solver.
        -- rewrite bind_app. simpl. by rewrite app_nil_r, app_assoc.
    + intros s' H'. eapply boot_state_ext, H'.
      * intros j _. cbv beta. rewrite tags_available_app, tags_available_one. tauto.
      * simpl. by rewrite app_nil_r.
Qed.

Lemma bmap_reserve_spec F a b bm :
  bits BOOTSTRAP_PAGES F bm -> 0 <= a ->
  returns (bmap_reserve a b bm) (bits BOOTSTRAP_PAGES (fun j => F j /\ ~ (a <= j < b))).
Proof.
  intros HB Ha. unfold bmap_reserve. eapply returns_mono.
  - apply set_range; [done|done|destruct (Z.ltb_spec BOOTSTRAP_PAGES b); lia].
  - intros bm' HB'. eapply bits_ext, HB'. intros j Hj. cbv beta.
    destruct (Z.ltb_spec BOOTSTRAP_PAGES b); naive_solver lia.
Qed.

Lemma boot_modules_spec F ts bm :
  bits BOOTSTRAP_PAGES F bm -> tags_wf ts ->
  returns (fold_out boot_reserve_module ts bm) (bits BOOTSTRAP_PAGES (fun j => F j /\ ~ tags_module ts j)).
Proof.
  intros HB Hwf.
  apply (fold_out_inv (fun ts => bits BOOTSTRAP_PAGES (fun j => F j /\ ~ tags_module ts j))).
  - eapply bits_ext, HB. intros j _. split; [|by intros []]. intros. split; [done|].
    by intros (? & ? & ?%elem_of_nil & _).
  - intros ts1 t ts2 s -> H1. apply Forall_app in Hwf as [_ Hwf]. apply Forall_cons in Hwf as [Ht _].
    unfold boot_reserve_module. destruct t as [|ms me|]; cbv beta in *;
      [ret; eapply bits_ext, H1; intros j _; rewrite tags_module_app, tags_module_one; tauto| |
       ret; eapply bits_ext, H1; intros j _; rewrite tags_module_app, tags_module_one; tauto].
    eapply returns_mono; [apply bmap_reserve_spec; [done|apply Z.div_pos; [done|unfold PAGE; lia]]|].
    intros s' HT'. eapply bits_ext, HT'. intros j _. cbv beta.
    rewrite tags_module_app, tags_module_one. tauto.
Qed.

(** *** The place of the bitmap *)

(** [need] free pages from [k] on. *)
Definition run_at (F : Z -> Prop) (k need : Z) : Prop := forall j, k <= j < k + need -> F j.

Lemma find_run_spec F need bm : forall n i bstart run,
  bits BOOTSTRAP_PAGES F bm -> 0 <= i -> i + Z.of_nat n = BOOTSTRAP_PAGES ->
  0 <= run < need -> run <= i -> 0 <= bstart <= BOOTSTRAP_PAGES -> (0 < run -> bstart = i - run) ->
  run_at F (i - run) run -> (i - run = 0 \/ ~ F (i - run - 1)) ->
  (forall k, 0 <= k -> k + need <= i -> ~ run_at F k need) ->
  returns (find_run n i bstart run need bm) (fun '(bs, r) => 0 <= bs <= BOOTSTRAP_PAGES /\
    (r = need /\ bs + need <= BOOTSTRAP_PAGES /\ run_at F bs need \/
     r < need /\ forall k, 0 <= k -> k + need <= BOOTSTRAP_PAGES -> ~ run_at F k need)).
Proof.
  induction n as [|n IH]; intros i bstart run HB Hi Hn Hr Hri Hbs Hst Hrun Hmax Hno.
  - simpl. split; [done|]. right. split; [lia|]. intros k Hk Hk2. apply Hno; lia.
  - cbn [find_run]. pose proof HB as [Hsz Hb]. rewrite bitmap_test_ok by lia. ret.
    destruct (bm_bit 8 bm i) eqn:E.
    + assert (~ F i) as HnF by (intros HF; apply Hb in HF; [congruence|lia]).
      apply IH; try done; try lia.
      * intros j Hj. lia.
      * right. by replace (i + 1 - 0 - 1) with i by lia.
      * intros k Hk Hk2. destruct (Z.eq_dec (k + need) (i + 1)) as [|].
        -- intros Hk3. apply HnF, Hk3. lia.
        -- apply Hno; lia.
    + assert (F i) as HF by (apply Hb; [lia|done]).
      assert (run_at F (i - run) (run + 1)) as Hrun1.
      { intros j Hj. destruct (Z.eq_dec j i) as [->|]; [done|]. apply Hrun. lia. }
      assert ((if run =? 0 then i else bstart) = i - run) as Hbs'
        by (destruct (Z.eqb_spec run 0); [lia|apply Hst; lia]).
      rewrite Hbs'. destruct (Z.eqb_spec (run + 1) need) as [Heq|Hne].
      * ret. split; [lia|]. left. split; [done|]. split; [lia|]. by rewrite <- Heq.
      * apply IH; try done; try lia.
        -- by replace (i + 1 - (run + 1)) with (i - run) by lia.
        -- by replace (i + 1 - (run + 1)) with (i - run) by lia.
        -- intros k Hk Hk2 Hk3. destruct (Z.eq_dec (k + need) (i + 1)) as [|]; [|by apply (Hno k); [|lia|]].
           destruct Hmax as [|Hmax]; [lia|]. apply Hmax, Hk3. lia.
Qed.

Lemma find_window_spec F need bm :
  bits BOOTSTRAP_PAGES F bm -> 0 < need ->
  returns (find_window need bm) (fun '(bs, r) => 0 <= bs <= BOOTSTRAP_PAGES /\
    (r = need /\ bs + need <= BOOTSTRAP_PAGES /\ run_at F bs need \/
     r < need /\ forall k, 0 <= k -> k + need <= BOOTSTRAP_PAGES -> ~ run_at F k need)).
Proof.
  intros HB Hn. apply find_run_spec; try done; try lia. intros j Hj. lia.
Qed.

(** The window has a run of [need] pages; [m] is the length of its longest. *)
Definition room (F : Z -> Prop) (need : Z) : Prop := exists k, 0 <= k /\ k + need <= BOOTSTRAP_PAGES /\ run_at F k need.
Definition longest (F : Z -> Prop) (m : Z) : Prop := 0 <= m <= BOOTSTRAP_PAGES /\ room F m /\ ~ room F (m + 1).

Lemma longest_run_spec F bm : forall n i r m,
  bits BOOTSTRAP_PAGES F bm -> 0 <= i -> i + Z.of_nat n = BOOTSTRAP_PAGES ->
  0 <= r <= m -> r <= i -> m <= i -> run_at F (i - r) r -> (i - r = 0 \/ ~ F (i - r - 1)) ->
  (exists k, 0 <= k /\ k + m <= i /\ run_at F k m) -> (forall k, 0 <= k -> k + (m + 1) <= i -> ~ run_at F k (m + 1)) ->
  returns (longest_run n i r m bm) (longest F).
Proof.
  induction n as [|n IH]; intros i r m HB Hi Hn Hr Hri Hmi Hrun Hstart (k & Hk0 & Hk1 & Hk) Hmax.
  - assert (BOOTSTRAP_PAGES = i) as Eb by lia. cbn [longest_run returns]. unfold longest, room. rewrite Eb.
    split; [lia|]. split; [by exists k|]. intros (k' & ? & ? & Hk'). by apply (Hmax k').
  - cbn [longest_run]. pose proof HB as [Hsz Hb]. rewrite bitmap_test_ok by lia. ret.
    destruct (bm_bit 8 bm i) eqn:E.
    + assert (~ F i) as HnF by (intros HF; apply Hb in HF; [congruence|lia]).
      apply IH; try done; try lia; [intros j Hj; lia|right; by replace (i + 1 - 0 - 1) with i by lia|exists k; split; [done|]; split; [lia|done]|].
      intros k' Hk' Hle Hr'. destruct (Z.eq_dec (k' + (m + 1)) (i + 1)); [apply HnF, Hr'; lia|]. by apply (Hmax k'); [|lia|].
    + assert (F i) as HF by (apply Hb; [lia|done]).
      assert (run_at F (i - r) (r + 1)) as Hrun1.
      { intros j Hj. destruct (Z.eq_dec j i) as [->|]; [done|]. apply Hrun. lia. }
      set (m' := if m <? r + 1 then r + 1 else m). assert (m <= m' /\ r + 1 <= m' /\ (m' = m \/ m' = r + 1)) as (Hm1 & Hm2 & Hm3)
        by (unfold m'; destruct (Z.ltb_spec m (r + 1)); lia).
      apply IH; try done; try lia; [by replace (i + 1 - (r + 1)) with (i - r) by lia|by replace (i + 1 - (r + 1)) with (i - r) by lia|..].
      * destruct Hm3 as [->| ->]; [exists k|exists (i - r)]; (split; [lia|]); (split; [lia|done]).
      * intros k' Hk' Hle Hr'. destruct (Z.eq_dec (k' + (m' + 1)) (i + 1)).
        -- destruct Hstart as [|Hst]; [lia|]. apply Hst, Hr'. lia.
        -- apply (Hmax k'); [done|lia|]. intros j Hj. apply Hr'. lia.
Qed.

Lemma pages_for_pos total : 0 <= total -> 0 < pages_for total.
Proof.
  intros Ht. unfold pages_for, PAGE. pose proof (Z.div_pos total 8 Ht ltac:(lia)).
  pose proof (Z.div_pos (total / 8 + 4096 - 1) 4096 ltac:(lia) ltac:(lia)).
  destruct (Z.eqb_spec ((total / 8 + 4096 - 1) / 4096) 0); lia.
Qed.

(** The bitmap holds a bit for every tracked page, unless a last partial byte
    falls on a page boundary. *)
Lemma pages_for_fit total :
  0 <= total < 2 ^ 32 -> total mod 32768 = 0 \/ 8 <= total mod 32768 ->
  total <= 32768 * pages_for total <= 2 ^ 33.
Proof.
  intros Ht Hm. unfold pages_for, PAGE.
  pose proof (Z.div_mod total 32768 ltac:(lia)). pose proof (Z.mod_pos_bound total 32768 ltac:(lia)).
  pose proof (Z.div_mod total 8 ltac:(lia)). pose proof (Z.mod_pos_bound total 8 ltac:(lia)).
  set (q := total / 8) in *. pose proof (Z.div_mod (q + 4096 - 1) 4096 ltac:(lia)).
  pose proof (Z.mod_pos_bound (q + 4096 - 1) 4096 ltac:(lia)).
  destruct (Z.eqb_spec ((q + 4096 - 1) / 4096) 0); lia.
Qed.

Lemma pages_for_small m : 0 <= m <= BOOTSTRAP_PAGES -> pages_for (8 * m) = 1.
Proof.
  unfold BOOTSTRAP_PAGES. intros Hm. unfold pages_for, PAGE.
  replace (8 * m / 8) with m by (apply (Z.div_unique _ _ _ 0); lia).
  destruct (Z.eq_dec m 0) as [->|]; [done|].
  replace ((m + 4096 - 1) / 4096) with 1 by (apply (Z.div_unique _ _ _ (m - 1)); lia). done.
Qed.

Lemma run_at_mono F k n m : m <= n -> run_at F k n -> run_at F k m.
Proof. intros Hm Hr j Hj. apply Hr. lia. Qed.

(** Either the bitmap for all pages found its place, or there is no room for
    it and eight pages are tracked per page of the longest free run. *)
Definition placed (F : Z -> Prop) (total : Z) (r : Z * Z * Z) : Prop :=
  let '(bs, need, total') := r in
  0 <= bs <= BOOTSTRAP_PAGES /\ need = pages_for total' /\
  (room F (pages_for total) /\ total' = total \/
   ~ room F (pages_for total) /\ exists m, longest F m /\ total' = 8 * m) /\
  ((exists j, 0 <= j < BOOTSTRAP_PAGES /\ F j) -> bs + need <= BOOTSTRAP_PAGES /\ run_at F bs need).

Lemma place_bitmap_spec F total bm :
  bits BOOTSTRAP_PAGES F bm -> 0 <= total < 2 ^ 32 ->
  returns (place_bitmap total bm) (placed F total).
Proof.
  intros HB Ht. unfold place_bitmap.
  eapply returns_bind; [apply find_window_spec; [done|apply pages_for_pos; lia]|].
  intros [bs run] (Hbs & Hc). destruct Hc as [(-> & Hfit & Hrun)|(Hlt & Hno)].
  { rewrite Z.eqb_refl. ret. split; [done|]. split; [done|]. split; [left; split; [exists bs; split; [lia|done]|done]|done]. }
  rewrite (proj2 (Z.eqb_neq _ _)) by lia.
  eapply returns_bind.
  { apply (longest_run_spec F); try done; try lia; try (by left); try (intros j Hj; lia).
    exists 0. split; [done|]. split; [done|]. intros j Hj. lia. }
  intros m Hl. pose proof Hl as (Hm & _). unfold PAGE.
  replace (m * 8 * 4096 / 4096) with (8 * m) by (apply (Z.div_unique _ _ _ 0); lia).
  rewrite u32_small by (unfold in_u32, BOOTSTRAP_PAGES in *; lia).
  cbv zeta. rewrite pages_for_small by done.
  eapply returns_bind; [by apply find_window_spec|]. intros [bs' run'] (Hbs' & Hc'). ret.
  split; [done|]. split; [by rewrite pages_for_small|]. split; [right; split; [intros (k & ? & ? & ?); by apply (Hno k)|by exists m]|].
  intros (j & Hj & HF). destruct Hc' as [(_ & ? & ?)|(_ & Hno')]; [done|].
  destruct (Hno' j); [lia|lia|]. intros i Hi. by replace i with j by lia.
Qed.

(** ** Initialisation, whole *)

Definition page_free (p : pmm) (i : Z) : Prop :=
  0 <= i < total_pages p /\ bm_bit 8 (bitmap p) i = false.

(** The counter counts the clear bits, and every page has one. *)
Definition pmm_wf (p : pmm) : Prop :=
  0 <= total_pages p < 2 ^ 32 /\ total_pages p <= bm_size 8 (bitmap p) /\
  free_pages p = nclear (bitmap p) (Z.to_nat (total_pages p)).

Lemma tracks_pmm_wf n F bm free a :
  tracks n F (bm, free) -> pmm_wf (Pmm bm a n free) /\
  (forall i, page_free (Pmm bm a n free) i <-> 0 <= i < n /\ F i).
Proof.
  intros ([Hn Hb] & Hr & Hc). split; [done|]. intros i. unfold page_free. cbn.
  split; intros [Hi H]; (split; [done|]); by apply Hb.
Qed.

Lemma bm_bit_ones n i : 0 <= i < 8 * Z.of_nat n -> bm_bit 8 (replicate n 0xFF) i = true.
Proof.
  intros Hi. unfold bm_bit. assert (0 <= i / 8 < Z.of_nat n) as Hq
    by (split; [apply Z.div_pos; lia|apply Z.div_lt_upper_bound; lia]).
  assert (getz (replicate n 0xFF) (i / 8) = Some 0xFF) as ->.
  { apply getz_Some. split; [lia|]. apply lookup_replicate_2. lia. }
  pose proof (Z.mod_pos_bound i 8 ltac:(lia)). apply (Z.ones_spec_low 8). lia.
Qed.

Lemma bits_ones n k : k <= 8 * Z.of_nat n -> bits k (fun _ => False) (replicate n 0xFF).
Proof.
  intros Hk. split; [unfold bm_size; rewrite length_replicate; lia|]. intros i Hi.
  by rewrite bm_bit_ones by lia.
Qed.

Lemma tracks_ones n k : 0 <= k < 2 ^ 32 -> k <= 8 * Z.of_nat n -> tracks k (fun _ => False) (replicate n 0xFF, 0).
Proof.
  intros Hk Hn. split; [by apply bits_ones|]. split; [done|]. symmetry. apply nclear_sub_zero.
  intros i Hi. apply bm_bit_ones. lia.
Qed.

(** Page [j] is in use once the system has booted. *)
Definition boot_used (kernel_end : Z) (mb : mboot_info) (j : Z) : Prop :=
  j < kernel_end_page kernel_end \/ tags_module (mb_tags mb) j \/ mboot_first mb <= j < mboot_last mb.

Definition mboot_wf (mb : mboot_info) : Prop :=
  0 <= mb_addr mb /\ 0 <= mb_size mb /\ mb_addr mb + mb_size mb < 2 ^ 32 /\ tags_wf (mb_tags mb).

Lemma mboot_pages mb :
  mboot_wf mb -> 0 <= mboot_first mb /\ u32 (mboot_first mb) = mboot_first mb /\
  u32 (mboot_last mb) = mboot_last mb.
Proof.
  intros (Ha & Hs & Hlt & _). unfold mboot_first, mboot_last, PAGE.
  rewrite u64_small by (unfold in_u64; lia).
  assert (forall x, 0 <= x < 2 ^ 33 -> 0 <= x / 4096 < 2 ^ 32) as Hd.
  { intros x Hx. split; [apply Z.div_pos; lia|apply Z.div_lt_upper_bound; lia]. }
  rewrite !u32_small by (apply Hd; lia). split; [apply Hd; lia|done].
Qed.

(** Page [j] can be handed out. *)
Definition boot_free (kernel_end : Z) (mb : mboot_info) (j : Z) : Prop :=
  tags_available (mb_tags mb) j /\ ~ boot_used kernel_end mb j.

(** How many pages are tracked: all up to the end of memory, if the window has
    room for the bitmap. *)
Definition tracked (kernel_end : Z) (mb : mboot_info) (n : Z) : Prop :=
  let total := u32 (memory_end (mb_tags mb) / PAGE) in
  room (boot_free kernel_end mb) (pages_for total) /\ n = total \/
  ~ room (boot_free kernel_end mb) (pages_for total) /\ exists m, longest (boot_free kernel_end mb) m /\ n = 8 * m.

Definition init_post (kernel_end : Z) (mb : mboot_info) (p : pmm) : Prop :=
  pmm_wf p /\ tracked kernel_end mb (total_pages p) /\ exists bs np,
    bitmap_addr p = bs * PAGE /\ np = pages_for (total_pages p) /\
    (forall j, page_free p j <-> 0 <= j < total_pages p /\ boot_free kernel_end mb j /\ ~ (bs <= j < bs + np)) /\
    ((exists j, 0 <= j < BOOTSTRAP_PAGES /\ boot_free kernel_end mb j) ->
     bs + np <= BOOTSTRAP_PAGES /\ run_at (boot_free kernel_end mb) bs np).

(** The marking of the real bitmap, once its place is known. *)
Lemma mark_spec kernel_end mb total bs np :
  mboot_wf mb -> 0 <= total < 2 ^ 32 -> total <= 32768 * np -> 0 <= bs -> u32 (bs + np) = bs + np ->
  returns (mark_pages kernel_end mb total bs np)
    (tracks total (fun j => tags_available (mb_tags mb) j /\ ~ boot_used kernel_end mb j /\
                            ~ (bs <= j < bs + np))).
Proof.
  intros Hmb Ht Hfit Hbs Hu. pose proof (mboot_pages mb Hmb) as (Hm0 & _ & _).
  destruct Hmb as (_ & _ & _ & Htags). unfold mark_pages. rewrite Hu. unfold PAGE.
  eapply returns_bind; [apply free_tags_spec, tracks_ones; [done|lia]|]. intros s1 H1.
  eapply returns_bind; [by apply reserve_range_spec|]. intros s2 H2.
  eapply returns_bind; [by apply reserve_range_spec|]. intros s3 H3.
  eapply returns_bind; [by apply reserve_modules_spec|]. intros s4 H4.
  eapply returns_mono; [by apply reserve_range_spec|]. intros s5 H5.
  eapply tracks_ext, H5. intros j Hj. cbv beta. unfold boot_used. naive_solver lia.
Qed.

Lemma pmm_init_spec kernel_end mb :
  mboot_wf mb ->
  (let total := u32 (memory_end (mb_tags mb) / PAGE) in total mod 32768 = 0 \/ 8 <= total mod 32768) ->
  returns (pmm_init kernel_end mb) (init_post kernel_end mb).
Proof.
  intros Hmb Hmod. cbv zeta in Hmod. pose proof (mboot_pages mb Hmb) as (Hm0 & Hm1 & Hm2).
  pose proof Hmb as (_ & _ & _ & Htags). unfold pmm_init.
  eapply returns_bind; [apply boot_tags_spec, bits_ones; done|]. intros [mem_end b1] [HB1 Hend].
  cbn [fst snd] in HB1, Hend. fold (memory_end (mb_tags mb)) in Hend. rewrite <- Hend in Hmod.
  set (total := u32 (mem_end / PAGE)) in *. cbv zeta.
  eapply returns_bind; [by apply bmap_reserve_spec|]. intros b2 HB2.
  eapply returns_bind; [by apply boot_modules_spec|]. intros b3 HB3. rewrite Hm1, Hm2.
  eapply returns_bind; [by apply bmap_reserve_spec|]. intros b4 HB4.
  set (F := boot_free kernel_end mb).
  assert (bits BOOTSTRAP_PAGES F b4) as HB.
  { eapply bits_ext, HB4. intros j Hj. cbv beta. unfold F, boot_free, boot_used. naive_solver lia. }
  eapply returns_bind; [apply (place_bitmap_spec F total); [exact HB|apply u32_range]|].
  intros [[bs np] total'] (Hbs & Hnp & Htot & Hplace).
  assert (0 <= total' < 2 ^ 32 /\ total' <= 32768 * np <= 2 ^ 33) as [Ht' Hfit].
  { destruct Htot as [(_ & ->)|(_ & m & (Hm & _) & ->)].
    - split; [apply u32_range|]. rewrite Hnp. apply pages_for_fit; [apply u32_range|done].
    - unfold BOOTSTRAP_PAGES in Hm. split; [lia|]. rewrite Hnp, pages_for_small by done. lia. }
  pose proof (pages_for_pos total' ltac:(lia)) as Hnpos. rewrite <- Hnp in Hnpos.
  eapply returns_bind; [apply (mark_spec kernel_end mb total' bs np Hmb Ht'); [lia|lia|]|].
  { apply u32_small. unfold in_u32, BOOTSTRAP_PAGES in *. lia. }
  intros [bm free] HT. ret. destruct (tracks_pmm_wf _ _ _ _ (bs * PAGE) HT) as [Hwf Hfree].
  split; [done|]. split; [unfold tracked; cbv zeta; rewrite <- Hend; exact Htot|]. exists bs, np. split; [done|].
  split; [done|]. split; [|done]. intros j. etrans; [apply Hfree|]. unfold boot_free. tauto.
Qed.

(** ** Allocation *)

Lemma wf_tracks p :
  pmm_wf p <-> tracks (total_pages p) (fun i => bm_bit 8 (bitmap p) i = false) (bitmap p, free_pages p).
Proof. unfold pmm_wf, tracks, bits. cbn. naive_solver. Qed.

(** Page [i] taken from [p]. *)
Definition taken (p : pmm) (T : Z -> Prop) (p' : pmm) : Prop :=
  pmm_wf p' /\ total_pages p' = total_pages p /\ bitmap_addr p' = bitmap_addr p /\
  forall j, page_free p' j <-> page_free p j /\ ~ T j.

Lemma tracks_taken p T bm free :
  tracks (total_pages p) (fun i => bm_bit 8 (bitmap p) i = false /\ ~ T i) (bm, free) ->
  taken p T (set_bitmap bm free p).
Proof.
  intros HT. destruct (tracks_pmm_wf _ _ _ _ (bitmap_addr p) HT) as [Hwf Hf].
  split; [done|]. split; [done|]. split; [done|]. intros j. etrans; [apply Hf|].
  unfold page_free. naive_solver.
Qed.

Lemma alloc_page_loop_spec p : pmm_wf p -> 0 < free_pages p -> forall n i,
  i + Z.of_nat n = total_pages p -> 0 <= i -> (forall j, 0 <= j < i -> ~ page_free p j) ->
  returns (alloc_page_loop n i p) (fun '(a, p') => exists k,
    a = k * PAGE /\ page_free p k /\ (forall j, j < k -> ~ page_free p j) /\
    taken p (fun j => j = k) p' /\ free_pages p' = free_pages p - 1).
Proof.
  intros Hwf Hpos. pose proof Hwf as (Ht & Hsz & Hc). induction n as [|n IH]; intros i Hn Hi Hno.
  - exfalso. rewrite (nclear_sub_zero (bitmap p)) in Hc; [lia|]. intros j Hj.
    destruct (bm_bit 8 (bitmap p) j) eqn:E; [done|]. destruct (Hno j); [lia|]. split; [lia|done].
  - cbn [alloc_page_loop]. rewrite bitmap_test_ok by lia. ret. destruct (bm_bit 8 (bitmap p) i) eqn:E.
    + apply IH; [lia|lia|]. intros j Hj. destruct (Z.eq_dec j i) as [->|]; [|apply Hno; lia].
      intros [_ ?]. congruence.
    + eapply returns_bind; [apply bm_set_spec; lia|]. intros bm Hu.
      pose proof (bm_upd_size _ _ _ _ Hu). rewrite bitmap_test_ok by lia. ret.
      pose proof Hu as (_ & _ & Hbit). rewrite Hbit, Z.eqb_refl by lia. cbn [negb]. ret.
      pose proof (nclear_range (bitmap p) (Z.to_nat (total_pages p))).
      rewrite u32_small by (unfold in_u32; lia).
      exists i. split; [done|]. split; [by split; [lia|]|].
      split; [intros j Hj [? ?]; apply (Hno j); [lia|by split]|]. split; [|done].
      apply tracks_taken. split; [|split; [done|]]; cbn [fst snd].
      * eapply bits_ext; [|apply (bits_upd (total_pages p) (fun i => bm_bit 8 (bitmap p) i = false) (bitmap p) i true bm);
          [by split|done]]. intros j Hj. cbv beta. destruct (Z.eqb_spec j i); naive_solver.
      * pose proof (nclear_upd (bitmap p) i true bm (Z.to_nat (total_pages p)) Hu ltac:(lia)) as Hup.
        rewrite E in Hup. lia.
Qed.

Lemma run_free_spec n F bm : bits n F bm -> forall cnt i,
  0 <= i -> i + Z.of_nat cnt <= n ->
  returns (run_free cnt i bm) (fun b => if b then run_at F i (Z.of_nat cnt) else ~ run_at F i (Z.of_nat cnt)).
Proof.
  intros HB. pose proof HB as [Hsz Hb]. induction cnt as [|cnt IH]; intros i Hi Hn.
  - simpl. intros j Hj. lia.
  - cbn [run_free]. rewrite bitmap_test_ok by lia. ret. destruct (bm_bit 8 bm i) eqn:E.
    + ret. intros Hr. specialize (Hr i ltac:(lia)). apply Hb in Hr; [congruence|lia].
    + apply Hb in E; [|lia]. eapply returns_mono; [apply (IH (i + 1)); lia|].
      intros [|].
      * intros Hr j Hj. destruct (Z.eq_dec j i) as [->|]; [done|]. apply Hr. lia.
      * intros Hr Hr'. apply Hr. intros j Hj. apply Hr'. lia.
Qed.

Lemma take_range n F a b st :
  tracks n F st -> 0 <= a <= b -> b <= n -> run_at F a (b - a) ->
  returns (for_range a b take_one st) (tracks n (fun j => F j /\ ~ (a <= j < b))).
Proof.
  intros HT Ha Hb Hrun. eapply returns_mono.
  - apply (for_range_inv (fun i => tracks n (fun j => F j /\ ~ (a <= j < i)))).
    + eapply tracks_ext, HT. intros j _. naive_solver lia.
    + intros i [bm free] Hi (HB & Hn & Hc). cbn [fst snd] in *. pose proof HB as [Hsz Hbit].
      assert (bm_bit 8 bm i = false) as E by (apply Hbit; [lia|split; [apply Hrun; lia|lia]]).
      unfold take_one. eapply returns_bind; [apply bm_set_spec; lia|]. intros bm' Hu. ret.
      pose proof (nclear_upd bm i true bm' (Z.to_nat n) Hu ltac:(lia)) as Hup. rewrite E in Hup.
      pose proof (nclear_range bm' (Z.to_nat n)).
      split; [|split; [done|]]; cbn [fst snd]; [|rewrite u32_small; [lia|]; unfold in_u32;
        pose proof (nclear_range bm (Z.to_nat n)); lia].
      eapply bits_ext; [|by apply (bits_upd n (fun j => F j /\ ~ (a <= j < i)) bm i true)].
      intros j Hj. cbv beta. destruct (Z.eqb_spec j i); naive_solver lia.
  - intros st' HT'. by rewrite Z.max_r in HT' by lia.
Qed.

(** The lowest run of [count] free pages, or none. *)
Definition alloc_pages_post (p : pmm) (count : Z) (r : Z * pmm) : Prop :=
  let '(a, p') := r in
  a = 0 /\ p' = p /\ (forall k, 0 <= k -> ~ run_at (page_free p) k count) \/
  exists k, a = k * PAGE /\ 0 <= k /\ run_at (page_free p) k count /\
    (forall k', 0 <= k' < k -> ~ run_at (page_free p) k' count) /\
    taken p (fun j => k <= j < k + count) p'.

Lemma run_at_free p k count :
  0 <= k -> 0 < count -> k + count <= total_pages p ->
  run_at (fun i => bm_bit 8 (bitmap p) i = false) k count <-> run_at (page_free p) k count.
Proof.
  intros Hk Hc Hfit. split; intros Hr j Hj; [split; [lia|by apply Hr]|by apply Hr].
Qed.

Lemma alloc_pages_loop_spec p count : pmm_wf p -> 0 < count -> forall n i,
  i + Z.of_nat n = total_pages p - count + 1 -> 0 <= i ->
  (forall k, 0 <= k < i -> ~ run_at (page_free p) k count) ->
  returns (alloc_pages_loop n i count p) (alloc_pages_post p count).
Proof.
  intros Hwf Hcnt. pose proof Hwf as HT%wf_tracks. induction n as [|n IH]; intros i Hn Hi Hno.
  - left. split; [done|]. split; [done|]. intros k Hk Hr.
    destruct (Z.lt_ge_cases k i); [by apply (Hno k)|].
    destruct (Hr (k + count - 1)); lia.
  - cbn [alloc_pages_loop].
    eapply returns_bind; [apply (run_free_spec (total_pages p)); [apply HT|lia|lia]|].
    intros ok Hok. rewrite Z2Nat.id in Hok by lia. destruct ok.
    + eapply returns_bind.
      { apply take_range; [exact HT|lia|lia|]. by replace (i + count - i) with count by lia. }
      intros [bm free] HT'. ret. right. exists i. split; [done|]. split; [done|].
      rewrite run_at_free in Hok by lia. split; [done|]. split; [done|]. by apply tracks_taken.
    + apply IH; [lia|lia|]. intros k Hk. destruct (Z.eq_dec k i) as [->|]; [|apply Hno; lia].
      by rewrite <- run_at_free by lia.
Qed.

Lemma nclear_run bm k : forall (n : nat) c,
  0 <= k -> k + c <= Z.of_nat n -> run_at (fun i => bm_bit 8 bm i = false) k c -> c <= nclear bm n.
Proof.
  induction n as [|n IH]; intros c Hk Hfit Hr; cbn [nclear]; [lia|].
  pose proof (nclear_range bm n). destruct (Z.le_gt_cases c 0); [destruct (bm_bit 8 bm (Z.of_nat n)); lia|].
  destruct (Z.eq_dec (k + c) (Z.of_nat (S n))) as [Heq|].
  - specialize (IH (c - 1) Hk ltac:(lia) ltac:(intros j Hj; apply Hr; lia)).
    rewrite (Hr (Z.of_nat n)) by lia. lia.
  - specialize (IH c Hk ltac:(lia) Hr). destruct (bm_bit 8 bm (Z.of_nat n)); lia.
Qed.

Lemma pmm_alloc_pages_spec p count :
  pmm_wf p -> 0 < count -> returns (pmm_alloc_pages count p) (alloc_pages_post p count).
Proof.
  intros Hwf Hc. pose proof Hwf as (Ht & Hsz & Hf). unfold pmm_alloc_pages. zcmp.
  pose proof (nclear_range (bitmap p) (Z.to_nat (total_pages p))) as Hr.
  destruct (Z.ltb_spec (free_pages p) count) as [Hlt|Hge].
  - left. split; [done|]. split; [done|]. intros k Hk Hrun.
    destruct (Hrun (k + count - 1)) as [Hlast _]; [lia|].
    rewrite <- run_at_free in Hrun by lia.
    pose proof (nclear_run (bitmap p) k (Z.to_nat (total_pages p)) count Hk ltac:(lia) Hrun). lia.
  - rewrite u32_small by (unfold in_u32; lia).
    apply alloc_pages_loop_spec; [done|done|lia|lia|]. intros k Hk. lia.
Qed.

(** One page. *)
Lemma pmm_alloc_page_spec p : pmm_wf p -> returns (pmm_alloc_page p) (fun '(a, p') =>
  (forall k, ~ page_free p k) /\ a = 0 /\ p' = p \/
  exists k, a = k * PAGE /\ page_free p k /\ (forall j, j < k -> ~ page_free p j) /\
    taken p (fun j => j = k) p' /\ free_pages p' = free_pages p - 1).
Proof.
  intros Hwf. pose proof Hwf as (Ht & Hsz & Hf). pose proof (nclear_range (bitmap p) (Z.to_nat (total_pages p))).
  unfold pmm_alloc_page. destruct (Z.eqb_spec (free_pages p) 0) as [H0|Hne].
  - left. split; [|done]. intros k [Hk E].
    rewrite (nclear_zero (bitmap p) (Z.to_nat (total_pages p)) k) in E; [done|lia|lia].
  - eapply returns_mono; [apply alloc_page_loop_spec; [done|lia|lia|lia|intros; lia]|].
    intros [a p'] Hk. by right.
Qed.

(** ** Release *)

Definition given (p : pmm) (T : Z -> Prop) (p' : pmm) : Prop :=
  pmm_wf p' /\ total_pages p' = total_pages p /\ bitmap_addr p' = bitmap_addr p /\
  forall j, page_free p' j <-> page_free p j \/ 0 <= j < total_pages p /\ T j.

Lemma free_at_spec p idx : pmm_wf p -> 0 <= idx -> returns (free_at idx p) (given p (fun j => j = idx)).
Proof.
  intros Hwf Hidx. pose proof Hwf as HT%wf_tracks. unfold free_at.
  destruct (Z.ltb_spec idx (total_pages p)) as [Hlt|Hge].
  - pose proof (free_one_spec _ _ _ idx HT ltac:(lia)) as Hf. unfold free_one in Hf.
    destruct (bitmap_test idx (bitmap p)) as [[|]| |]; [|..|done|done]; cbn [mbind out_bind] in Hf |- *.
    + destruct (bitmap_clear idx (bitmap p)) as [bm| |]; [|done..]. cbn [mbind out_bind returns] in Hf |- *.
      destruct (tracks_pmm_wf _ _ _ _ (bitmap_addr p) Hf) as [Hwf' Hfree].
      split; [done|]. split; [done|]. split; [done|]. intros j. etrans; [apply Hfree|].
      unfold page_free. naive_solver.
    + cbn [returns] in Hf |- *. split; [done|]. split; [done|]. split; [done|]. intros j.
      split; [by left|]. intros [?|[? ->]]; [done|]. split; [done|].
      destruct Hf as [[_ Hb] _]. apply (Hb idx); [lia|]. by right.
  - ret. split; [done|]. split; [done|]. split; [done|]. intros j. split; [by left|].
    intros [?|[? ->]]; [done|lia].
Qed.

Lemma pmm_free_pages_spec p addr count :
  pmm_wf p -> 0 <= addr -> 0 <= count ->
  returns (pmm_free_pages addr count p) (given p (fun j => addr / PAGE <= j < addr / PAGE + count)).
Proof.
  intros Hwf Ha Hc. pose proof (Z.div_pos addr PAGE Ha eq_refl) as Hq. unfold pmm_free_pages.
  eapply returns_mono.
  - apply (for_range_inv (fun i => given p (fun j => addr / PAGE <= j < addr / PAGE + i))).
    + split; [done|]. split; [done|]. split; [done|]. intros j. naive_solver lia.
    + intros i p' Hi (Hwf' & Ht & Hb & Hf). eapply returns_mono; [by apply free_at_spec; [|lia]|].
      intros p'' (Hwf'' & Ht' & Hb' & Hf'). split; [done|]. split; [congruence|]. split; [congruence|].
      intros j. rewrite Hf', Hf, Ht. naive_solver lia.
  - intros p' Hp. by rewrite Z.max_r in Hp by lia.
Qed.

(** ** Properties *)


(** [pmm_alloc_page] fails exactly when no page is free and otherwise
    takes the lowest free page; [pmm_alloc_pages] takes the lowest run of
    [count] free pages and fails only when there is none; either way nothing
    else changes. *)
Theorem pmm_alloc_correct (p : pmm) (count : Z) :
  pmm_wf p -> 0 < count ->
  returns (pmm_alloc_page p) (fun '(a, p') =>
    (forall k, ~ page_free p k) /\ a = 0 /\ p' = p \/
    exists k, a = k * PAGE /\ page_free p k /\ (forall j, j < k -> ~ page_free p j) /\
      taken p (fun j => j = k) p' /\ free_pages p' = free_pages p - 1) /\
  returns (pmm_alloc_pages count p) (fun '(a, p') =>
    a = 0 /\ p' = p /\ (forall k, 0 <= k -> ~ run_at (page_free p) k count) \/
    exists k, a = k * PAGE /\ 0 <= k /\ run_at (page_free p) k count /\
      (forall k', 0 <= k' < k -> ~ run_at (page_free p) k' count) /\
      taken p (fun j => k <= j < k + count) p').
Proof.
  intros Hwf Hc. split; [by apply pmm_alloc_page_spec|by apply pmm_alloc_pages_spec].
Qed.

(** [pmm_free_page] and [pmm_free_pages] make exactly the given pages
    free, as far as they exist; freeing a free page, or one beyond the end of
    memory, changes nothing. *)
Theorem pmm_free_correct (p : pmm) (addr count : Z) :
  pmm_wf p -> 0 <= addr -> 0 <= count ->
  returns (pmm_free_page addr p) (given p (fun j => j = addr / PAGE)) /\
  returns (pmm_free_pages addr count p) (given p (fun j => addr / PAGE <= j < addr / PAGE + count)).
Proof.
  intros Hwf Ha Hc. split; [|by apply pmm_free_pages_spec].
  apply free_at_spec; [done|]. by apply Z.div_pos.
Qed.

(** ** Concrete boots *)

(** 4 MB of memory from 1 MB on, a module behind the kernel. *)
Definition small_mb : mboot_info :=
  MbootInfo 0x1A0000 0x400
    [TagOther 1; TagMmap [MmapEntry 0 0x9F000 2; MmapEntry 0x100000 0x300000 1]; TagModule 0x180000 0x183210].

Lemma small_mb_wf : mboot_wf small_mb.
Proof. repeat split; try (simpl; lia). repeat constructor; simpl; lia. Qed.

Definition small_pmm : pmm :=
  match pmm_init 0x150000 small_mb with Ret p => p | _ => Pmm [] 0 0 0 end.

Lemma small_pmm_wf : pmm_wf small_pmm.
Proof.
  pose proof (pmm_init_spec 0x150000 small_mb small_mb_wf ltac:(right; vm_compute; discriminate)) as H.
  unfold small_pmm. destruct (pmm_init 0x150000 small_mb) as [p| |]; [|done..]. apply H.
Qed.


Lemma pmm_alloc_correct_witness :
  free_pages small_pmm = 682 /\
  (exists a p', pmm_alloc_page small_pmm = Ret (a, p') /\ a = 0x151000) /\
  (exists a p', pmm_alloc_pages 50 small_pmm = Ret (a, p') /\ a = 0x1A1000).
Proof.
  destruct (pmm_alloc_correct small_pmm 50 small_pmm_wf ltac:(lia)) as [H1 H2].
  split; [vm_compute; reflexivity|]. split.
  - destruct (returns_inv _ _ H1) as ([a p'] & E & _). exists a, p'. split; [exact E|].
    assert (returns (pmm_alloc_page small_pmm) (fun '(a, _) => a = 0x151000)) as Hv
      by (vm_compute; reflexivity). rewrite E in Hv. exact Hv.
  - destruct (returns_inv _ _ H2) as ([a p'] & E & _). exists a, p'. split; [exact E|].
    assert (returns (pmm_alloc_pages 50 small_pmm) (fun '(a, _) => a = 0x1A1000)) as Hv
      by (vm_compute; reflexivity). rewrite E in Hv. exact Hv.
Defined.

Lemma pmm_free_correct_witness :
  exists p', pmm_free_pages 0x150000 3 small_pmm = Ret p' /\ pmm_wf p' /\ page_free p' 0x150.
Proof.
  destruct (pmm_free_correct small_pmm 0x150000 3 small_pmm_wf ltac:(lia) ltac:(lia)) as [_ H].
  destruct (returns_inv _ _ H) as (p' & E & Hwf & _ & _ & Hf). exists p'. split; [exact E|].
  split; [exact Hwf|]. apply Hf. right. split; [vm_compute; split; [discriminate|reflexivity]|].
  vm_compute. split; [discriminate|reflexivity].
Defined.

(** Memory that ends one page above a multiple of 128 MB. *)
Definition odd_mb : mboot_info :=
  MbootInfo 0x1A0000 0x400
    [TagMmap [MmapEntry 0x100000 0x300000 1; MmapEntry 0x7FFF000 0x2000 1]].

(** When the number of pages exceeds a multiple of 32768 by less than
    eight, the bitmap [pmm_init] makes is one byte short: marking the last
    page touches memory behind it. *)
Theorem pmm_init_bitmap_overrun :
  u32 (memory_end (mb_tags odd_mb) / PAGE) = 32769 /\ pages_for 32769 = 1 /\
  pmm_init 0x150000 odd_mb = UB.
Proof. repeat split; vm_compute; reflexivity. Qed.

(** Four gigabytes of memory, of which the low window has only two free pages. *)
Definition tight_mb : mboot_info :=
  MbootInfo 0x1A0000 0x400
    [TagMmap [MmapEntry 0x200000 0x2000 1; MmapEntry 0x1000000 0xFF000000 1]].

(** When the low window has no room for the whole bitmap, [pmm_init]
    tracks eight pages per page of the longest free run, although a bitmap
    page holds 32768 of them: four gigabytes shrink to sixteen pages. *)
Theorem pmm_init_cap_too_small :
  returns (pmm_init 0x150000 tight_mb) (fun p =>
    total_pages p = 16 /\ free_pages p = 0 /\ bm_size 8 (bitmap p) = 32768).
Proof. vm_compute. repeat split; reflexivity. Qed.
