(* ===== verification/StringLib.v ===== *)
(** * Freestanding string functions (mk/lib/string.c)

    Memory is one array of bytes and a pointer is an index into it, so that
    overlapping areas are what they are in C; reading or writing outside the
    array is undefined behaviour.  The loops over NUL-terminated strings run
    with the length of the memory as fuel: a string that is not terminated
    leaves the array first.  Signed overflow in [atoi] and [strtol] is
    undefined behaviour. *)

From stdpp Require Import base numbers list.
From Stdlib Require Import ZArith Lia.
From S2P Require Import Prelude.

#[local] Open Scope Z_scope.

Implicit Types (m : list Z).

(** ** Blocks of memory *)

Definition copy_byte (d s i : Z) m : out (list Z) := b ← rd m (s + i); wr m (d + i) b.

Definition memcpy (d s n : Z) m : out (list Z) := for_range 0 n (copy_byte d s) m.

Definition memset (d c n : Z) m : out (list Z) := for_range 0 n (fun i m => wr m (d + i) (u8 c)) m.

(** [for (i = n; i > 0; i--)] with the body at [i - 1]. *)
Fixpoint for_down {St} (n : nat) (f : Z -> St -> out St) (s : St) : out St :=
  match n with
  | O => Ret s
  | S n => s ← f (Z.of_nat n) s; for_down n f s
  end.

Definition memmove (d s n : Z) m : out (list Z) :=
  if d <=? s then for_range 0 n (copy_byte d s) m else for_down (Z.to_nat n) (copy_byte d s) m.

Fixpoint memcmp_loop (k : nat) (s1 s2 : Z) m : out Z :=
  match k with
  | O => Ret 0
  | S k =>
      b1 ← rd m s1; b2 ← rd m s2;
      if negb (b1 =? b2) then Ret (b1 - b2) else memcmp_loop k (s1 + 1) (s2 + 1) m
  end.

Definition memcmp (s1 s2 n : Z) m : out Z := memcmp_loop (Z.to_nat n) s1 s2 m.

(** ** Strings *)

Fixpoint strlen_loop (fuel : nat) (s len : Z) m : out Z :=
  match fuel with
  | O => Hang
  | S fuel =>
      c ← rd m (s + len);
      if c =? 0 then Ret len else strlen_loop fuel s (len + 1) m
  end.

Definition strlen (s : Z) m : out Z := strlen_loop (S (length m)) s 0 m.

Fixpoint strcmp_loop (fuel : nat) (s1 s2 : Z) m : out Z :=
  match fuel with
  | O => Hang
  | S fuel =>
      c1 ← rd m s1; c2 ← rd m s2;
      if negb (c1 =? 0) && (c1 =? c2) then strcmp_loop fuel (s1 + 1) (s2 + 1) m else Ret (c1 - c2)
  end.

Definition strcmp (s1 s2 : Z) m : out Z := strcmp_loop (S (length m)) s1 s2 m.

Fixpoint strncmp_loop (k : nat) (s1 s2 : Z) m : out Z :=
  match k with
  | O => Ret 0
  | S k =>
      c1 ← rd m s1; c2 ← rd m s2;
      if negb (c1 =? c2) then Ret (c1 - c2)
      else if c1 =? 0 then Ret 0 else strncmp_loop k (s1 + 1) (s2 + 1) m
  end.

Definition strncmp (s1 s2 n : Z) m : out Z := strncmp_loop (Z.to_nat n) s1 s2 m.

(** Copying up to and including the terminator. *)
Fixpoint strcpy_loop (fuel : nat) (d s : Z) m : out (list Z) :=
  match fuel with
  | O => Hang
  | S fuel =>
      c ← rd m s;
      m ← wr m d c;
      if c =? 0 then Ret m else strcpy_loop fuel (d + 1) (s + 1) m
  end.

Definition strcpy (d s : Z) m : out (list Z) := strcpy_loop (S (length m)) d s m.

(** The first loop of [strncpy]; returns where it stopped. *)
Fixpoint strncpy_loop (k : nat) (d s i : Z) m : out (Z * list Z) :=
  match k with
  | O => Ret (i, m)
  | S k =>
      c ← rd m (s + i);
      if c =? 0 then Ret (i, m)
      else m ← wr m (d + i) c; strncpy_loop k d s (i + 1) m
  end.

Definition strncpy (d s n : Z) m : out (list Z) :=
  '(i, m) ← strncpy_loop (Z.to_nat n) d s 0 m;
  for_range i n (fun i m => wr m (d + i) 0) m.

Fixpoint skip_string (fuel : nat) (d : Z) m : out Z :=
  match fuel with
  | O => Hang
  | S fuel => c ← rd m d; if c =? 0 then Ret d else skip_string fuel (d + 1) m
  end.

Definition strcat (d s : Z) m : out (list Z) :=
  d' ← skip_string (S (length m)) d m; strcpy_loop (S (length m)) d' s m.

(** ** Numbers *)

Definition is_digit (c : Z) : bool := (48 <=? c) && (c <=? 57).

(** A signed result that must fit [w] bits. *)
Definition signed (w x : Z) : out Z := if (- 2 ^ (w - 1) <=? x) && (x <? 2 ^ (w - 1)) then Ret x else UB.

Fixpoint skip_while (fuel : nat) (p : Z -> bool) (s : Z) m : out Z :=
  match fuel with
  | O => Hang
  | S fuel => c ← rd m s; if p c then skip_while fuel p (s + 1) m else Ret s
  end.

Fixpoint atoi_loop (fuel : nat) (s acc : Z) m : out Z :=
  match fuel with
  | O => Hang
  | S fuel =>
      c ← rd m s;
      if is_digit c then
        acc ← signed 32 (acc * 10);
        acc ← signed 32 (acc + (c - 48));
        atoi_loop fuel (s + 1) acc m
      else Ret acc
  end.

(** The optional sign: whether it was a minus, and what follows. *)
Definition take_sign (s : Z) m : out (bool * Z) :=
  c ← rd m s;
  if c =? 45 then Ret (true, s + 1) else if c =? 43 then Ret (false, s + 1) else Ret (false, s).

Definition atoi (s : Z) m : out Z :=
  s ← skip_while (S (length m)) (fun c => (c =? 32) || (c =? 9)) s m;
  '(neg, s) ← take_sign s m;
  n ← atoi_loop (S (length m)) s 0 m;
  signed 32 (n * (if (neg : bool) then -1 else 1)).

(** The value of a digit, letters counting from ten. *)
Definition digit_value (c : Z) : option Z :=
  if is_digit c then Some (c - 48)
  else if (97 <=? c) && (c <=? 122) then Some (c - 97 + 10)
  else if (65 <=? c) && (c <=? 90) then Some (c - 65 + 10)
  else None.

Definition is_hex (c : Z) : bool :=
  is_digit c || ((97 <=? c) && (c <=? 102)) || ((65 <=? c) && (c <=? 70)).

Fixpoint strtol_loop (fuel : nat) (s base acc : Z) m : out (Z * Z) :=
  match fuel with
  | O => Hang
  | S fuel =>
      c ← rd m s;
      match digit_value c with
      | None => Ret (acc, s)
      | Some d =>
          if base <=? d then Ret (acc, s)
          else
            acc ← signed 64 (acc * base);
            acc ← signed 64 (acc + d);
            strtol_loop fuel (s + 1) base acc m
      end
  end.

(** [0x] before a hexadecimal digit: the reads stop at the first that fails. *)
Definition hex_prefix (s : Z) m : out bool :=
  c0 ← rd m s;
  if negb (c0 =? 48) then Ret false
  else
    c1 ← rd m (s + 1);
    if (c1 =? 120) || (c1 =? 88) then c2 ← rd m (s + 2); Ret (is_hex c2) else Ret false.

(** The value and the end pointer. *)
Definition strtol (s base : Z) m : out (Z * Z) :=
  if negb (base =? 0) && ((base <? 2) || (36 <? base)) then Ret (0, s)
  else
    s ← skip_while (S (length m)) (fun c => (c =? 32) || ((9 <=? c) && (c <=? 13))) s m;
    '(neg, s) ← take_sign s m;
    hex ← (if (base =? 0) || (base =? 16) then hex_prefix s m else Ret false);
    let '(s, base) := if (hex : bool) then (s + 2, 16) else (s, base) in
    base ← (if base =? 0 then c ← rd m s; Ret (if c =? 48 then 8 else 10) else Ret base);
    '(n, e) ← strtol_loop (S (length m)) s base 0 m;
    n ← (if (neg : bool) then signed 64 (- n) else Ret n);
    Ret (n, e).

(** ** Block copies *)

(** Bytes [s, s+n) of [m] at [d] of [m'], everything else as in [m]. *)
Definition moved m (d s n : Z) (m' : list Z) : Prop :=
  length m' = length m /\
  forall j, getz m' j = if (d <=? j) && (j <? d + n) then getz m (s + (j - d)) else getz m j.

Definition in_mem m (a n : Z) : Prop := 0 <= a /\ a + n <= Z.of_nat (length m).

Lemma in_mem_rd m a n i : in_mem m a n -> 0 <= i < n -> exists b, getz m (a + i) = Some b.
Proof. unfold in_mem. intros Hm Hi. apply getz_lt. lia. Qed.

Lemma copy_byte_spec m d s n i m1 :
  length m1 = length m -> in_mem m d n -> in_mem m s n -> 0 <= i < n ->
  exists b, getz m1 (s + i) = Some b /\ copy_byte d s i m1 = Ret (<[Z.to_nat (d + i) := b]> m1).
Proof.
  unfold in_mem. intros Hl Hd Hs Hi. destruct (getz_lt m1 (s + i)) as [b Hb]; [lia|].
  exists b. split; [done|]. unfold copy_byte. rewrite (rd_getz _ _ _ Hb). ret. apply wr_ok. lia.
Qed.

Lemma getz_upd m i b j :
  0 <= i < Z.of_nat (length m) -> getz (<[Z.to_nat i := b]> m) j = if j =? i then Some b else getz m j.
Proof.
  intros Hi. destruct (Z.eqb_spec j i) as [->|Hne]; [by apply getz_insert_eq|].
  apply getz_insert_ne; lia.
Qed.

Lemma copy_forward m d s n :
  in_mem m d n -> in_mem m s n -> d <= s \/ s + n <= d ->
  returns (for_range 0 n (copy_byte d s) m) (moved m d s n).
Proof.
  intros Hd Hs Hov. destruct (Z.le_gt_cases n 0) as [Hn|Hn].
  { unfold for_range. replace (Z.to_nat (n - 0)) with O by lia. split; [done|]. intros j.
    by destruct (Z.leb_spec d j), (Z.ltb_spec j (d + n)); try lia. }
  eapply returns_mono.
  - apply (for_range_inv (fun i => moved m d s i)).
    + split; [done|]. intros j. by destruct (Z.leb_spec d j), (Z.ltb_spec j (d + 0)); try lia.
    + intros i m1 Hi [Hl Hm1]. destruct (copy_byte_spec m d s n i m1 Hl Hd Hs) as (b & Hb & ->); [lia|].
      ret. split; [by rewrite length_insert|]. intros j. unfold in_mem in *.
      rewrite getz_upd by lia. rewrite Hm1 in Hb |- *.
      replace ((d <=? s + i) && (s + i <? d + i)) with false in Hb.
      2:{ destruct (Z.leb_spec d (s + i)), (Z.ltb_spec (s + i) (d + i)); try done; lia. }
      destruct (Z.eqb_spec j (d + i)) as [->|Hne].
      * replace (s + (d + i - d)) with (s + i) by lia. zcmp. by rewrite Hb.
      * destruct (Z.leb_spec d j), (Z.ltb_spec j (d + i)), (Z.ltb_spec j (d + (i + 1))); try done; lia.
  - intros m' Hm'. by rewrite Z.max_r in Hm' by lia.
Qed.

Lemma copy_backward m d s (n : nat) :
  in_mem m d (Z.of_nat n) -> in_mem m s (Z.of_nat n) -> s < d ->
  returns (for_down n (copy_byte d s) m) (moved m d s (Z.of_nat n)).
Proof.
  intros Hd Hs Hlt. unfold in_mem in *.
  assert (forall k m1, (k <= n)%nat -> length m1 = length m ->
    (forall j, getz m1 j = if (d + Z.of_nat k <=? j) && (j <? d + Z.of_nat n)
                           then getz m (s + (j - d)) else getz m j) ->
    returns (for_down k (copy_byte d s) m1) (moved m d s (Z.of_nat n))) as Hgen.
  { induction k as [|k IH]; intros m1 Hk Hl Hm1; cbn [for_down].
    - split; [done|]. intros j. rewrite Hm1, Z.add_0_r. done.
    - destruct (copy_byte_spec m d s (Z.of_nat n) (Z.of_nat k) m1 Hl) as (b & Hb & ->);
        [exact Hd|exact Hs|lia|]. ret.
      apply IH; [lia|by rewrite length_insert|]. intros j. rewrite getz_upd by lia.
      rewrite Hm1 in Hb |- *.
      replace ((d + Z.of_nat (S k) <=? s + Z.of_nat k) && (s + Z.of_nat k <? d + Z.of_nat n)) with false in Hb
        by (symmetry; zcmp; done).
      destruct (Z.eqb_spec j (d + Z.of_nat k)) as [->|Hne].
      + zcmp. by replace (s + (d + Z.of_nat k - d)) with (s + Z.of_nat k) by lia; rewrite Hb.
      + destruct (Z.leb_spec (d + Z.of_nat (S k)) j), (Z.leb_spec (d + Z.of_nat k) j); try done; lia. }
  apply Hgen; [lia|done|]. intros j.
  destruct (Z.leb_spec (d + Z.of_nat n) j), (Z.ltb_spec j (d + Z.of_nat n)); try done; lia.
Qed.

Lemma memmove_spec m d s n :
  in_mem m d n -> in_mem m s n -> 0 <= n -> returns (memmove d s n m) (moved m d s n).
Proof.
  intros Hd Hs Hn. unfold memmove. destruct (Z.leb_spec d s).
  - apply copy_forward; [done|done|by left].
  - rewrite <- (Z2Nat.id n) at 2 by lia. rewrite <- (Z2Nat.id n) in Hd, Hs by lia.
    by apply copy_backward.
Qed.

Lemma memset_spec m d c n :
  in_mem m d n -> 0 <= n ->
  returns (memset d c n m) (fun m' => length m' = length m /\
    forall j, getz m' j = if (d <=? j) && (j <? d + n) then Some (u8 c) else getz m j).
Proof.
  unfold in_mem. intros Hd Hn. unfold memset. eapply returns_mono.
  - apply (for_range_inv (fun i m' => length m' = length m /\
      forall j, getz m' j = if (d <=? j) && (j <? d + i) then Some (u8 c) else getz m j)).
    + split; [done|]. intros j. by destruct (Z.leb_spec d j), (Z.ltb_spec j (d + 0)); try lia.
    + intros i m1 Hi [Hl Hm1]. rewrite wr_ok by lia. ret. split; [by rewrite length_insert|].
      intros j. rewrite getz_upd, Hm1 by lia. destruct (Z.eqb_spec j (d + i)) as [->|Hne].
      * zcmp. done.
      * destruct (Z.leb_spec d j), (Z.ltb_spec j (d + i)), (Z.ltb_spec j (d + (i + 1))); try done; lia.
  - intros m' Hm'. by rewrite Z.max_r in Hm' by lia.
Qed.

(** The difference of the first bytes that differ. *)
Fixpoint bytes_diff (l1 l2 : list Z) : Z :=
  match l1, l2 with
  | b1 :: l1, b2 :: l2 => if b1 =? b2 then bytes_diff l1 l2 else b1 - b2
  | _, _ => 0
  end.

Lemma bytes_diff_eq l1 l2 : length l1 = length l2 -> bytes_diff l1 l2 = 0 <-> l1 = l2.
Proof.
  revert l2. induction l1 as [|b1 l1 IH]; intros [|b2 l2] Hl; simpl in *; try done.
  destruct (Z.eqb_spec b1 b2) as [->|Hne].
  - rewrite IH by lia. split; [by intros ->|by intros [= ->]].
  - split; [lia|]. intros [= -> _]. done.
Qed.

(** The [n] bytes of [m] from [a] on. *)
Definition slice m (a n : Z) : list Z := take (Z.to_nat n) (drop (Z.to_nat a) m).

Lemma slice_cons m a (k : nat) :
  in_mem m a (Z.of_nat (S k)) ->
  exists b, getz m a = Some b /\ slice m a (Z.of_nat (S k)) = b :: slice m (a + 1) (Z.of_nat k).
Proof.
  unfold in_mem. intros Ha. destruct (getz_lt m a) as [b Hb]; [lia|]. exists b. split; [done|].
  apply getz_Some in Hb as [_ Hb]. unfold slice. rewrite (drop_S _ _ _ Hb).
  replace (Z.to_nat (a + 1)) with (S (Z.to_nat a)) by lia. by rewrite !Nat2Z.id.
Qed.

Lemma memcmp_spec m s1 s2 n :
  in_mem m s1 n -> in_mem m s2 n -> 0 <= n ->
  memcmp s1 s2 n m = Ret (bytes_diff (slice m s1 n) (slice m s2 n)).
Proof.
  intros H1 H2 Hn. unfold memcmp. rewrite <- (Z2Nat.id n) in H1, H2 by lia.
  rewrite <- (Z2Nat.id n) at 2 3 by lia. revert s1 s2 H1 H2.
  induction (Z.to_nat n) as [|k IH]; intros s1 s2 H1 H2.
  { by unfold slice; rewrite !take_0. }
  destruct (slice_cons m s1 k H1) as (b1 & Hb1 & ->). destruct (slice_cons m s2 k H2) as (b2 & Hb2 & ->).
  cbn [memcmp_loop bytes_diff]. rewrite (rd_getz _ _ _ Hb1), (rd_getz _ _ _ Hb2). ret.
  destruct (b1 =? b2); [|done]. cbn [negb]. unfold in_mem in *. apply IH; lia.
Qed.

Lemma length_slice m a n : in_mem m a n -> 0 <= n -> length (slice m a n) = Z.to_nat n.
Proof. unfold in_mem, slice. intros Ha Hn. rewrite length_take, length_drop. lia. Qed.

(** ** NUL-terminated strings *)

(** The string at address [a] is [str]. *)
Fixpoint cstr m (a : Z) (str : list Z) : Prop :=
  match str with
  | [] => getz m a = Some 0
  | c :: str => c <> 0 /\ getz m a = Some c /\ cstr m (a + 1) str
  end.

Lemma cstr_in m a str : cstr m a str -> in_mem m a (Z.of_nat (length str) + 1).
Proof.
  unfold in_mem. revert a. induction str as [|c str IH]; intros a; simpl.
  - intros H%getz_Some_lt. lia.
  - intros (_ & H%getz_Some_lt & Hs%IH). lia.
Qed.

Lemma cstr_get m a str (i : nat) :
  cstr m a str -> getz m (a + Z.of_nat i) =
    match str !! i with Some c => Some c | None => if (i =? length str)%nat then Some 0 else getz m (a + Z.of_nat i) end.
Proof.
  revert a i. induction str as [|c str IH]; intros a i; simpl.
  - intros H. destruct i; simpl; [by rewrite Z.add_0_r|done].
  - intros (_ & Hc & Hs). destruct i as [|i]; simpl; [by rewrite Z.add_0_r|].
    replace (a + Z.of_nat (S i)) with (a + 1 + Z.of_nat i) by lia. by apply IH.
Qed.

Lemma cstr_nonzero m a str (i : nat) c : cstr m a str -> str !! i = Some c -> c <> 0.
Proof.
  revert a i. induction str as [|c' str IH]; intros a i; simpl; [by rewrite lookup_nil|].
  intros (Hc & _ & Hs). destruct i; simpl; [by intros [= <-]|by eapply IH].
Qed.

(** A string is determined by its bytes. *)
Lemma cstr_intro m a str :
  (forall (i : nat) c, str !! i = Some c -> c <> 0 /\ getz m (a + Z.of_nat i) = Some c) ->
  getz m (a + Z.of_nat (length str)) = Some 0 -> cstr m a str.
Proof.
  revert a. induction str as [|c str IH]; intros a Hs He; simpl.
  - by rewrite Z.add_0_r in He.
  - destruct (Hs 0%nat c eq_refl) as [Hc Hg]. rewrite Z.add_0_r in Hg. split; [done|]. split; [done|].
    apply IH.
    + intros i c' Hi. destruct (Hs (S i) c' Hi) as [? Hg']. split; [done|].
      by replace (a + 1 + Z.of_nat i) with (a + Z.of_nat (S i)) by lia.
    + by replace (a + 1 + Z.of_nat (length str)) with (a + Z.of_nat (length (c :: str))) by (simpl; lia).
Qed.

Lemma strlen_loop_spec m a str : forall fuel len,
  cstr m (a + len) str -> (length str < fuel)%nat ->
  strlen_loop fuel a len m = Ret (len + Z.of_nat (length str)).
Proof.
  induction str as [|c str IH]; intros [|fuel] len Hs Hf; simpl in *; try lia.
  - rewrite (rd_getz _ _ _ Hs). ret. simpl. f_equal. lia.
  - destruct Hs as (Hc & Hg & Hs). rewrite (rd_getz _ _ _ Hg). ret. zcmp.
    rewrite IH; [f_equal; lia| |lia]. by replace (a + (len + 1)) with (a + len + 1) by lia.
Qed.

Lemma cstr_fuel m a str : cstr m a str -> (length str < S (length m))%nat.
Proof. intros [? ?]%cstr_in. lia. Qed.

Lemma strlen_spec m a str : cstr m a str -> strlen a m = Ret (Z.of_nat (length str)).
Proof.
  intros Hs. unfold strlen. rewrite (strlen_loop_spec m a str).
  - done.
  - by rewrite Z.add_0_r.
  - by eapply cstr_fuel.
Qed.

(** Lexicographic comparison, the end of a string counting as zero. *)
Fixpoint str_diff (s1 s2 : list Z) : Z :=
  match s1, s2 with
  | [], [] => 0
  | [], c :: _ => 0 - c
  | c :: _, [] => c - 0
  | c1 :: s1, c2 :: s2 => if c1 =? c2 then str_diff s1 s2 else c1 - c2
  end.

Lemma str_diff_eq s1 s2 :
  Forall (fun c => c <> 0) s1 -> Forall (fun c => c <> 0) s2 -> str_diff s1 s2 = 0 <-> s1 = s2.
Proof.
  revert s2. induction s1 as [|c1 s1 IH]; intros [|c2 s2] H1 H2; simpl; try done;
    apply Forall_cons in H1 as [? ?] || apply Forall_cons in H2 as [? ?].
  - split; [lia|done].
  - split; [lia|done].
  - apply Forall_cons in H2 as [? ?]. destruct (Z.eqb_spec c1 c2) as [->|Hne].
    + rewrite IH by done. split; [by intros ->|by intros [= ->]].
    + split; [lia|]. intros [= -> _]. done.
Qed.

Lemma cstr_Forall m a str : cstr m a str -> Forall (fun c => c <> 0) str.
Proof.
  revert a. induction str as [|c str IH]; intros a; simpl; [constructor|].
  intros (? & _ & ?). constructor; [done|by eapply IH].
Qed.

Lemma strcmp_loop_spec m s1 : forall fuel a1 a2 s2,
  cstr m a1 s1 -> cstr m a2 s2 -> (length s1 < fuel)%nat ->
  strcmp_loop fuel a1 a2 m = Ret (str_diff s1 s2).
Proof.
  induction s1 as [|c1 s1 IH]; intros [|fuel] a1 a2 [|c2 s2] H1 H2 Hf; simpl in *; try lia.
  - by rewrite (rd_getz _ _ _ H1), (rd_getz _ _ _ H2).
  - destruct H2 as (? & H2 & _). by rewrite (rd_getz _ _ _ H1), (rd_getz _ _ _ H2).
  - destruct H1 as (Hc & H1 & _). rewrite (rd_getz _ _ _ H1), (rd_getz _ _ _ H2). ret. zcmp. done.
  - destruct H1 as (Hc1 & H1 & H1'), H2 as (Hc2 & H2 & H2').
    rewrite (rd_getz _ _ _ H1), (rd_getz _ _ _ H2). ret.
    rewrite (proj2 (Z.eqb_neq c1 0)) by done. cbn [negb andb].
    destruct (c1 =? c2); [|done]. apply IH; [done|done|lia].
Qed.

Lemma strncmp_loop_spec m : forall k a1 a2 s1 s2,
  cstr m a1 s1 -> cstr m a2 s2 -> strncmp_loop k a1 a2 m = Ret (str_diff (take k s1) (take k s2)).
Proof.
  induction k as [|k IH]; intros a1 a2 s1 s2 H1 H2; [done|].
  destruct s1 as [|c1 s1], s2 as [|c2 s2]; simpl in *.
  - by rewrite (rd_getz _ _ _ H1), (rd_getz _ _ _ H2).
  - destruct H2 as (? & H2 & _). rewrite (rd_getz _ _ _ H1), (rd_getz _ _ _ H2). ret. zcmp. done.
  - destruct H1 as (? & H1 & _). rewrite (rd_getz _ _ _ H1), (rd_getz _ _ _ H2). ret. zcmp. done.
  - destruct H1 as (Hc1 & H1 & H1'), H2 as (Hc2 & H2 & H2').
    rewrite (rd_getz _ _ _ H1), (rd_getz _ _ _ H2). ret.
    destruct (Z.eqb_spec c1 c2) as [->|]; cbn [negb]; [|done].
    rewrite (proj2 (Z.eqb_neq c2 0)) by done. by apply IH.
Qed.

(** *** Copies *)

Definition apart (a n b k : Z) : Prop := a + n <= b \/ b + k <= a.

Lemma moved_outside m d s n m' j : moved m d s n m' -> j < d \/ d + n <= j -> getz m' j = getz m j.
Proof.
  intros [_ Hm] Hj. rewrite Hm. destruct (Z.leb_spec d j), (Z.ltb_spec j (d + n)); try done; lia.
Qed.

Lemma moved_inside m d s n m' i : moved m d s n m' -> 0 <= i < n -> getz m' (d + i) = getz m (s + i).
Proof. intros [_ Hm] Hi. rewrite Hm. zcmp. f_equal. lia. Qed.

Lemma moved_S m d s i m1 b :
  moved m d s i m1 -> 0 <= i -> getz m (s + i) = Some b -> 0 <= d + i < Z.of_nat (length m) ->
  moved m d s (i + 1) (<[Z.to_nat (d + i) := b]> m1).
Proof.
  intros [Hl Hm1] Hi Hb Hd. split; [by rewrite length_insert|]. intros j.
  rewrite getz_upd, Hm1 by lia. destruct (Z.eqb_spec j (d + i)) as [->|Hne].
  - zcmp. by replace (s + (d + i - d)) with (s + i) by lia.
  - destruct (Z.leb_spec d j), (Z.ltb_spec j (d + i)), (Z.ltb_spec j (d + (i + 1))); try done; lia.
Qed.

Lemma strcpy_loop_spec m d s : forall str fuel i m1,
  cstr m (s + i) str -> 0 <= i -> moved m d s i m1 -> (length str < fuel)%nat ->
  in_mem m d (i + Z.of_nat (length str) + 1) ->
  apart d (i + Z.of_nat (length str) + 1) s (i + Z.of_nat (length str) + 1) ->
  returns (strcpy_loop fuel (d + i) (s + i) m1) (moved m d s (i + Z.of_nat (length str) + 1)).
Proof.
  induction str as [|c str IH]; intros [|fuel] i m1 Hs Hi Hm Hf Hd Hap; simpl in Hf; try lia.
  - simpl in *. unfold in_mem, apart in *. rewrite (rd_getz m1 (s + i) 0).
    2:{ rewrite (moved_outside _ _ _ _ _ _ Hm) by lia. done. }
    ret. pose proof Hm as [Hl _]. rewrite wr_ok by lia. ret. rewrite Z.add_0_r.
    apply moved_S; [done|done|done|lia].
  - destruct Hs as (Hc & Hg & Hs). cbn [strcpy_loop]. cbn [length] in *. unfold in_mem, apart in *.
    rewrite (rd_getz m1 (s + i) c).
    2:{ rewrite (moved_outside _ _ _ _ _ _ Hm) by lia. done. }
    ret. pose proof Hm as [Hl _]. rewrite wr_ok by lia. ret. zcmp.
    replace (d + i + 1) with (d + (i + 1)) by lia. replace (s + i + 1) with (s + (i + 1)) in Hs |- * by lia.
    replace (i + Z.of_nat (S (length str)) + 1) with (i + 1 + Z.of_nat (length str) + 1) by lia.
    apply IH; [done|lia|apply moved_S; [done|done|done|lia]|lia|lia|lia].
Qed.

Lemma moved_refl m d s : moved m d s 0 m.
Proof. split; [done|]. intros j. destruct (Z.leb_spec d j), (Z.ltb_spec j (d + 0)); try done; lia. Qed.

Lemma moved_cstr m d s n m' str :
  cstr m s str -> n = Z.of_nat (length str) + 1 -> moved m d s n m' -> cstr m' d str.
Proof.
  intros Hs -> Hm. apply cstr_intro.
  - intros i c Hi. split; [by eapply cstr_nonzero|]. apply lookup_lt_Some in Hi as Hlt.
    rewrite (moved_inside _ _ _ _ _ _ Hm) by lia. by rewrite (cstr_get m s str i Hs), Hi.
  - rewrite (moved_inside _ _ _ _ _ _ Hm) by lia.
    rewrite (cstr_get m s str _ Hs), lookup_ge_None_2 by lia. by rewrite Nat.eqb_refl.
Qed.

Lemma strcpy_spec m d s str :
  cstr m s str -> let n := Z.of_nat (length str) + 1 in
  in_mem m d n -> apart d n s n -> returns (strcpy d s m) (fun m' => moved m d s n m' /\ cstr m' d str).
Proof.
  intros Hs n Hd Hap. unfold strcpy. eapply returns_mono.
  - replace d with (d + 0) at 1 by lia. replace s with (s + 0) at 1 by lia.
    apply (strcpy_loop_spec m d s str); [by rewrite Z.add_0_r|lia|apply moved_refl|by eapply cstr_fuel|done|done].
  - intros m' Hm. rewrite Z.add_0_l in Hm. split; [done|]. by eapply moved_cstr.
Qed.

Lemma skip_string_spec m str : forall a fuel,
  cstr m a str -> (length str < fuel)%nat -> skip_string fuel a m = Ret (a + Z.of_nat (length str)).
Proof.
  induction str as [|c str IH]; intros a [|fuel] Hs Hf; simpl in *; try lia.
  - rewrite (rd_getz _ _ _ Hs). ret. simpl. f_equal. lia.
  - destruct Hs as (Hc & Hg & Hs). rewrite (rd_getz _ _ _ Hg). ret. zcmp.
    rewrite IH by (done || lia). f_equal. lia.
Qed.

Lemma cstr_frame m m' a str :
  (forall j, a <= j < a + Z.of_nat (length str) -> getz m' j = getz m j) ->
  cstr m a str -> getz m' (a + Z.of_nat (length str)) = Some 0 -> cstr m' a str.
Proof.
  intros Hf Hs He. apply cstr_intro; [|done]. intros i c Hi. split; [by eapply cstr_nonzero|].
  apply lookup_lt_Some in Hi as Hlt. rewrite Hf by lia. by rewrite (cstr_get m a str i Hs), Hi.
Qed.

Lemma cstr_app m a s1 s2 :
  (forall (i : nat) c, s1 !! i = Some c -> c <> 0 /\ getz m (a + Z.of_nat i) = Some c) ->
  cstr m (a + Z.of_nat (length s1)) s2 -> cstr m a (s1 ++ s2).
Proof.
  intros H1 H2. apply cstr_intro.
  - intros i c Hi. apply lookup_app_Some in Hi as [Hi|[Hge Hi]]; [by apply H1|].
    split; [by eapply cstr_nonzero|]. rewrite <- (Nat.sub_add (length s1) i) at 1 by done.
    rewrite Nat2Z.inj_add. replace (a + (Z.of_nat (i - length s1) + Z.of_nat (length s1)))
      with (a + Z.of_nat (length s1) + Z.of_nat (i - length s1)) by lia.
    by rewrite (cstr_get _ _ _ _ H2), Hi.
  - rewrite length_app, Nat2Z.inj_add, Z.add_assoc.
    rewrite (cstr_get _ _ _ _ H2), lookup_ge_None_2 by lia. by rewrite Nat.eqb_refl.
Qed.

Lemma strcat_spec m d s s1 s2 :
  cstr m d s1 -> cstr m s s2 ->
  let n := Z.of_nat (length s2) + 1 in let e := d + Z.of_nat (length s1) in
  in_mem m e n -> apart e n s n ->
  returns (strcat d s m) (fun m' => moved m e s n m' /\ cstr m' d (s1 ++ s2)).
Proof.
  intros H1 H2 n e Hd Hap. unfold strcat. rewrite (skip_string_spec m s1 d _ H1 (cstr_fuel _ _ _ H1)).
  ret. fold e. eapply returns_mono; [by apply (strcpy_spec m e s s2)|]. intros m' [Hm Hs].
  split; [done|]. apply cstr_app; [|done]. intros i c Hi. split; [exact (cstr_nonzero _ _ _ _ _ H1 Hi)|].
  apply lookup_lt_Some in Hi as Hlt. rewrite (moved_outside _ _ _ _ _ _ Hm) by lia.
  by rewrite (cstr_get m d s1 i H1), Hi.
Qed.

(** [strncpy] pads with zeros and does not terminate a string of [n] bytes or
    more. *)
Definition padded m (d n : Z) (str : list Z) (m' : list Z) : Prop :=
  length m' = length m /\
  forall j, getz m' j = if (d <=? j) && (j <? d + n) then Some (default 0 (str !! Z.to_nat (j - d))) else getz m j.

Lemma strncpy_loop_spec m d s str : forall rest k i m1,
  str = take (Z.to_nat i) str ++ rest -> cstr m s str -> 0 <= i -> i = Z.of_nat (length str - length rest) ->
  (length rest <= length str)%nat ->
  padded m d i str m1 -> in_mem m d (i + Z.of_nat k) -> apart d (i + Z.of_nat k) s (Z.of_nat (length str) + 1) ->
  returns (strncpy_loop k d s i m1) (fun '(e, m') =>
    i <= e <= i + Z.of_nat k /\ padded m d e str m' /\
    (e = i + Z.of_nat k \/ Z.of_nat (length str) <= e)).
Proof.
  induction rest as [|c rest IH]; intros k i m1 Hstr Hs Hi Hlen Hle Hp Hd Hap;
    (destruct k as [|k]; [simpl; rewrite Z.add_0_r; split; [lia|]; split; [done|by left]|]);
    cbn [strncpy_loop]; unfold in_mem, apart in *; pose proof Hp as [Hl Hg].
  - rewrite (rd_getz m1 (s + i) 0).
    2:{ rewrite Hg. replace ((d <=? s + i) && (s + i <? d + i)) with false
          by (destruct (Z.leb_spec d (s + i)), (Z.ltb_spec (s + i) (d + i)); try done; simpl in *; lia).
        simpl in Hlen. replace i with (Z.of_nat (length str)) by lia.
        rewrite (cstr_get m s str _ Hs), lookup_ge_None_2 by lia. by rewrite Nat.eqb_refl. }
    ret. simpl. split; [lia|]. split; [done|]. right. simpl in Hlen. lia.
  - assert (str !! Z.to_nat i = Some c) as Hc.
    { rewrite Hstr at 1. simpl in Hle, Hlen. rewrite lookup_app_r; rewrite length_take; [|lia].
      replace (Z.to_nat i - _)%nat with O by lia. done. }
    pose proof (cstr_nonzero _ _ _ _ _ Hs Hc) as Hne. simpl in Hle, Hlen.
    rewrite (rd_getz m1 (s + i) c).
    2:{ rewrite Hg. replace ((d <=? s + i) && (s + i <? d + i)) with false
          by (destruct (Z.leb_spec d (s + i)), (Z.ltb_spec (s + i) (d + i)); try done; lia).
        rewrite <- (Z2Nat.id i) at 1 by lia. by rewrite (cstr_get m s str _ Hs), Hc. }
    ret. zcmp. rewrite wr_ok by lia. ret. eapply returns_mono.
    + apply (IH k (i + 1)); [|done|lia|lia|lia| |lia|lia].
      * replace (Z.to_nat (i + 1)) with (S (Z.to_nat i)) by lia.
        rewrite (take_S_r _ _ _ Hc), <- app_assoc. done.
      * split; [by rewrite length_insert|]. intros j. rewrite getz_upd, Hg by lia.
        destruct (Z.eqb_spec j (d + i)) as [->|Hj].
        -- zcmp. replace (Z.to_nat (d + i - d)) with (Z.to_nat i) by lia. by rewrite Hc.
        -- destruct (Z.leb_spec d j), (Z.ltb_spec j (d + i)), (Z.ltb_spec j (d + (i + 1))); try done; lia.
    + intros [e m'] (He & Hp' & Hend). split; [lia|]. split; [done|]. lia.
Qed.

Lemma strncpy_spec m d s n str :
  cstr m s str -> 0 <= n -> in_mem m d n -> apart d n s (Z.of_nat (length str) + 1) ->
  returns (strncpy d s n m) (padded m d n str).
Proof.
  intros Hs Hn Hd Hap. unfold strncpy. eapply returns_bind.
  { apply (strncpy_loop_spec m d s str str (Z.to_nat n) 0 m); try done; try lia.
    - split; [done|]. intros j. destruct (Z.leb_spec d j), (Z.ltb_spec j (d + 0)); try done; lia.
    - by rewrite Z2Nat.id.
    - by rewrite Z2Nat.id. }
  intros [e m1] (He & Hp & Hend). rewrite Z2Nat.id in He, Hend by lia. eapply returns_mono.
  - apply (for_range_inv (fun i m' => padded m d i str m')); [done|].
    unfold in_mem in Hd. intros i m2 Hi [Hl Hg]. rewrite wr_ok by lia. ret.
    split; [by rewrite length_insert|]. intros j. rewrite getz_upd, Hg by lia.
    destruct (Z.eqb_spec j (d + i)) as [->|Hj].
    + zcmp. rewrite lookup_ge_None_2 by lia. done.
    + destruct (Z.leb_spec d j), (Z.ltb_spec j (d + i)), (Z.ltb_spec j (d + (i + 1))); try done; lia.
  - intros m' Hm'. by rewrite Z.max_r in Hm' by lia.
Qed.

(** ** Numbers *)

(** The digits of [n] in base [b], most significant first; [n < 2 ^ fuel]. *)
Fixpoint digits (fuel : nat) (b n : Z) : list Z :=
  match fuel with
  | O => []
  | S fuel => if n <? b then [n] else digits fuel b (n / b) ++ [n mod b]
  end.

Definition value (b acc : Z) (ds : list Z) : Z := foldl (fun acc d => acc * b + d) acc ds.

Lemma digits_spec b : 2 <= b -> forall fuel n,
  0 <= n < 2 ^ Z.of_nat fuel -> (0 < fuel)%nat ->
  value b 0 (digits fuel b n) = n /\ Forall (fun d => 0 <= d < b) (digits fuel b n) /\
  exists d ds, digits fuel b n = d :: ds /\ (d = 0 -> ds = []).
Proof.
  intros Hb. induction fuel as [|fuel IH]; intros n Hn Hf; [lia|]. cbn [digits].
  destruct (Z.ltb_spec n b) as [Hlt|Hge].
  - split; [done|]. split; [constructor; [lia|constructor]|]. by exists n, [].
  - rewrite Nat2Z.inj_succ, Z.pow_succ_r in Hn by lia.
    assert (0 < n / b) by (apply Z.div_str_pos; lia).
    assert (n / b < 2 ^ Z.of_nat fuel) by (apply Z.div_lt_upper_bound; nia).
    destruct fuel as [|fuel]; [simpl in *; lia|].
    destruct (IH (n / b)) as (Hv & HF & d & ds & Hds & Hz); [lia|lia|].
    pose proof (Z.mod_pos_bound n b ltac:(lia)). split; [|split].
    + unfold value in *. rewrite foldl_app, Hv. simpl. pose proof (Z.div_mod n b ltac:(lia)). lia.
    + apply Forall_app. split; [done|]. constructor; [lia|constructor].
    + rewrite Hds. exists d, (ds ++ [n mod b]). split; [done|]. intros ->.
      rewrite Hz in Hds by done. rewrite Hds in Hv. cbn in Hv. lia.
Qed.

#[local] Opaque digits.

Lemma value_ge b ds : 2 <= b -> Forall (fun d => 0 <= d < b) ds -> forall acc, 0 <= acc -> acc <= value b acc ds.
Proof.
  intros Hb. induction 1 as [|d ds Hd _ IH]; intros acc Ha; [done|]. simpl.
  assert (acc <= acc * b) by nia. etrans; [|apply (IH (acc * b + d)); lia]. lia.
Qed.

Definition digit_char (d : Z) : Z := if d <? 10 then 48 + d else 87 + d.

Lemma digit_value_char d : 0 <= d < 36 -> digit_value (digit_char d) = Some d.
Proof.
  intros Hd. unfold digit_value, digit_char, is_digit.
  destruct (Z.ltb_spec d 10); zcmp; f_equal; lia.
Qed.

Lemma digit_char_range d : 0 <= d < 36 -> 48 <= digit_char d <= 57 \/ 97 <= digit_char d <= 122.
Proof. intros Hd. unfold digit_char. destruct (Z.ltb_spec d 10); lia. Qed.

(** A number as it is written. *)
Definition print_num (b n : Z) : list Z :=
  if n <? 0 then 45 :: (digit_char <$> digits 64 b (- n)) else digit_char <$> digits 64 b n.

Lemma signed_ok w x : - 2 ^ (w - 1) <= x < 2 ^ (w - 1) -> signed w x = Ret x.
Proof. intros Hx. unfold signed. zcmp. done. Qed.

Lemma strtol_loop_spec m b ds : 2 <= b <= 36 -> Forall (fun d => 0 <= d < b) ds ->
  forall fuel a acc, cstr m a (digit_char <$> ds) -> 0 <= acc -> value b acc ds < 2 ^ 63 ->
  (length ds < fuel)%nat ->
  strtol_loop fuel a b acc m = Ret (value b acc ds, a + Z.of_nat (length ds)).
Proof.
  intros Hb. induction 1 as [|d ds Hd HF IH]; intros [|fuel] a acc Hs Ha Hv Hf; simpl in Hf; try lia.
  - simpl in *. rewrite (rd_getz _ _ _ Hs). ret. simpl. do 2 f_equal. lia.
  - destruct Hs as (Hc & Hg & Hs). cbn [strtol_loop]. rewrite (rd_getz _ _ _ Hg). ret.
    rewrite digit_value_char by lia. zcmp. cbn [value foldl] in Hv |- *.
    pose proof (value_ge b ds ltac:(lia) HF (acc * b + d) ltac:(nia)) as Hge. unfold value in *.
    rewrite signed_ok by (change (2 ^ (64 - 1)) with (2 ^ 63); nia). ret.
    rewrite signed_ok by (change (2 ^ (64 - 1)) with (2 ^ 63); nia). ret.
    rewrite IH; [|done|nia|done|lia]. do 2 f_equal. simpl. lia.
Qed.

Lemma atoi_loop_spec m ds : Forall (fun d => 0 <= d < 10) ds ->
  forall fuel a acc, cstr m a (digit_char <$> ds) -> 0 <= acc -> value 10 acc ds < 2 ^ 31 ->
  (length ds < fuel)%nat -> atoi_loop fuel a acc m = Ret (value 10 acc ds).
Proof.
  induction 1 as [|d ds Hd HF IH]; intros [|fuel] a acc Hs Ha Hv Hf; simpl in Hf; try lia.
  - simpl in *. by rewrite (rd_getz _ _ _ Hs).
  - destruct Hs as (Hc & Hg & Hs). cbn [atoi_loop]. rewrite (rd_getz _ _ _ Hg). ret.
    cbn [value foldl] in Hv |- *.
    assert (digit_char d = 48 + d) as -> by (unfold digit_char; zcmp; done).
    unfold is_digit. zcmp. replace (48 + d - 48) with d by lia.
    pose proof (value_ge 10 ds ltac:(lia) HF (acc * 10 + d) ltac:(lia)) as Hge. unfold value in *.
    rewrite signed_ok by (change (2 ^ (32 - 1)) with (2 ^ 31); lia). ret.
    rewrite signed_ok by (change (2 ^ (32 - 1)) with (2 ^ 31); lia). ret.
    apply IH; [done|lia|done|lia].
Qed.

(** Nothing is skipped before a character that is not white space. *)
Lemma skip_while_stop fuel p a c m :
  (0 < fuel)%nat -> getz m a = Some c -> p c = false -> skip_while fuel p a m = Ret a.
Proof. intros Hf Hg Hp. destruct fuel; [lia|]. simpl. rewrite (rd_getz _ _ _ Hg). ret. by rewrite Hp. Qed.

(** The sign of a printed number is taken off. *)
Lemma print_num_sign m a b n :
  2 <= b <= 36 -> - 2 ^ 64 < n < 2 ^ 64 -> cstr m a (print_num b n) ->
  exists c, getz m a = Some c /\ (c = 45 \/ 48 <= c) /\
    let a' := if n <? 0 then a + 1 else a in
    take_sign a m = Ret (n <? 0, a') /\ cstr m a' (digit_char <$> digits 64 b (Z.abs n)) /\
    a + Z.of_nat (length (print_num b n)) = a' + Z.of_nat (length (digits 64 b (Z.abs n))).
Proof.
  intros Hb Hn Hs. unfold print_num in *.
  destruct (digits_spec b ltac:(lia) 64 (Z.abs n) ltac:(lia) ltac:(lia)) as (_ & HF & d & ds & Hds & _).
  destruct (Z.ltb_spec n 0) as [Hneg|Hpos].
  - rewrite Z.abs_neq by lia. destruct Hs as (_ & Hg & Hs). exists 45. split; [done|].
    split; [by left|]. cbv zeta. unfold take_sign. rewrite (rd_getz _ _ _ Hg). ret.
    split; [done|]. split; [done|]. cbn [length]. rewrite length_fmap. lia.
  - rewrite Z.abs_eq in * by lia. rewrite Hds in Hs, HF |- *. apply Forall_cons in HF as [Hd _].
    destruct Hs as (Hc & Hg & Hs'). exists (digit_char d). split; [done|].
    pose proof (digit_char_range d ltac:(lia)) as Hr. split; [lia|]. cbv zeta. unfold take_sign.
    rewrite (rd_getz _ _ _ Hg). ret. zcmp. split; [done|]. split; [done|]. by rewrite length_fmap.
Qed.

(** ** Properties *)

(** C38: [memmove] copies its source as it was before the call wherever the two
    areas lie, and [memcpy] does so when they do not overlap; [memset] fills
    exactly its area and [memcmp] is zero exactly on equal areas. *)
Theorem memory_functions_correct m d s n c :
  in_mem m d n -> in_mem m s n -> 0 <= n ->
  returns (memmove d s n m) (moved m d s n) /\
  (apart d n s n -> memcpy d s n m = memmove d s n m) /\
  returns (memset d c n m) (fun m' => length m' = length m /\
    forall j, getz m' j = if (d <=? j) && (j <? d + n) then Some (u8 c) else getz m j) /\
  (memcmp d s n m = Ret 0 <-> slice m d n = slice m s n).
Proof.
  intros Hd Hs Hn. split; [by apply memmove_spec|]. split; [|split; [by apply memset_spec|]].
  - intros Hap.
    destruct (returns_inv _ _ (memmove_spec m d s n Hd Hs Hn)) as (m1 & E1 & [L1 M1]).
    destruct (returns_inv (memcpy d s n m) (moved m d s n)) as (m2 & E2 & [L2 M2]).
    { unfold memcpy. destruct (Z.le_gt_cases d s); apply copy_forward; try done; [by left|].
      destruct Hap; [|by right]. left. lia. }
    rewrite E1, E2. f_equal. apply list_eq. intros i.
    rewrite <- !getz_of_nat. by rewrite M1, M2.
  - rewrite memcmp_spec by done. rewrite <- (bytes_diff_eq (slice m d n)) by (by rewrite !length_slice).
    split; [by intros [= ?]|by intros ->].
Qed.

(** On NUL-terminated strings [strlen] is the length, [strcmp] and
    [strncmp] compare lexicographically and return zero exactly for equal
    strings (equal prefixes), and all three terminate. *)
Theorem string_tests_correct m a1 a2 s1 s2 n :
  cstr m a1 s1 -> cstr m a2 s2 ->
  strlen a1 m = Ret (Z.of_nat (length s1)) /\
  strcmp a1 a2 m = Ret (str_diff s1 s2) /\
  (strcmp a1 a2 m = Ret 0 <-> s1 = s2) /\
  (strncmp a1 a2 n m = Ret 0 <-> take (Z.to_nat n) s1 = take (Z.to_nat n) s2).
Proof.
  intros H1 H2. pose proof (cstr_Forall _ _ _ H1) as F1. pose proof (cstr_Forall _ _ _ H2) as F2.
  assert (strcmp a1 a2 m = Ret (str_diff s1 s2)) as Hc
    by (apply strcmp_loop_spec; [done|done|exact (cstr_fuel _ _ _ H1)]).
  split; [by apply strlen_spec|]. split; [done|]. split.
  - rewrite Hc, <- str_diff_eq by done. split; [by intros [= ?]|by intros ->].
  - unfold strncmp. rewrite (strncmp_loop_spec m _ a1 a2 s1 s2 H1 H2).
    rewrite <- str_diff_eq by (by apply Forall_take). split; [by intros [= ?]|by intros ->].
Qed.

(** [strcpy], [strncpy] and [strcat] terminate and leave exactly the copied
    string (padded to [n] bytes by [strncpy], appended by [strcat]) in the
    destination, and no other byte changed. *)
Theorem string_copies_correct m d s n s1 s2 :
  cstr m d s1 -> cstr m s s2 ->
  let k := Z.of_nat (length s2) + 1 in let e := d + Z.of_nat (length s1) in
  (in_mem m d k -> apart d k s k ->
   returns (strcpy d s m) (fun m' => moved m d s k m' /\ cstr m' d s2)) /\
  (0 <= n -> in_mem m d n -> apart d n s k -> returns (strncpy d s n m) (padded m d n s2)) /\
  (in_mem m e k -> apart e k s k ->
   returns (strcat d s m) (fun m' => moved m e s k m' /\ cstr m' d (s1 ++ s2))).
Proof.
  intros H1 H2 k e. split; [by apply strcpy_spec|]. split; [|by apply strcat_spec].
  intros Hn Hd Hap. by apply strncpy_spec.
Qed.

(** Reading back a printed number gives the number: [strtol] for every base
    from 2 to 36 and every 64-bit value but the smallest, with the end pointer
    on the terminator, and [atoi] for the 32-bit values in base ten. *)
Theorem number_roundtrip m a b n :
  2 <= b <= 36 -> cstr m a (print_num b n) ->
  (- 2 ^ 63 < n < 2 ^ 63 -> strtol a b m = Ret (n, a + Z.of_nat (length (print_num b n)))) /\
  (b = 10 -> - 2 ^ 31 < n < 2 ^ 31 -> atoi a m = Ret n).
Proof.
  intros Hb Hs. split.
  - intros Hn. destruct (print_num_sign m a b n Hb ltac:(lia) Hs) as (c & Hg & Hc & Hsign & Hs' & Hlen).
    destruct (digits_spec b ltac:(lia) 64 (Z.abs n) ltac:(lia) ltac:(lia)) as (Hv & HF & d & ds & Hds & Hz).
    set (a' := if n <? 0 then a + 1 else a) in *.
    unfold strtol. zcmp. rewrite (skip_while_stop _ _ a c) by (done || lia || (zcmp; done)). ret.
    rewrite Hsign. ret.
    assert ((if b =? 16 then hex_prefix a' m else Ret false) = Ret false) as ->.
    { destruct (b =? 16); [|done]. unfold hex_prefix. rewrite Hds in Hs', HF.
      apply Forall_cons in HF as [Hd _]. destruct Hs' as (_ & Hg' & Hs').
      rewrite (rd_getz _ _ _ Hg'). ret. destruct (Z.eqb_spec (digit_char d) 48) as [H48|]; [|done].
      cbn [negb]. assert (d = 0) as -> by (unfold digit_char in H48; destruct (Z.ltb_spec d 10); lia).
      rewrite Hz in Hs' by done. simpl in Hs'. rewrite (rd_getz _ _ _ Hs'). done. }
    ret. zcmp. ret.
    rewrite (strtol_loop_spec m b (digits 64 b (Z.abs n)) Hb HF _ a' 0 Hs' ltac:(lia) ltac:(lia)).
    2:{ rewrite <- (length_fmap digit_char). exact (cstr_fuel _ _ _ Hs'). }
    ret. rewrite Hv, Hlen. destruct (Z.ltb_spec n 0).
    + rewrite signed_ok by (change (2 ^ (64 - 1)) with (2 ^ 63); lia). ret. do 2 f_equal. lia.
    + ret. do 2 f_equal. lia.
  - intros -> Hn. destruct (print_num_sign m a 10 n Hb ltac:(lia) Hs) as (c & Hg & Hc & Hsign & Hs' & _).
    destruct (digits_spec 10 ltac:(lia) 64 (Z.abs n) ltac:(lia) ltac:(lia)) as (Hv & HF & _).
    unfold atoi. rewrite (skip_while_stop _ _ a c) by (done || lia || (zcmp; done)). ret.
    rewrite Hsign. ret.
    rewrite (atoi_loop_spec m (digits 64 10 (Z.abs n)) HF _ _ 0 Hs' ltac:(lia) ltac:(lia)).
    2:{ rewrite <- (length_fmap digit_char). exact (cstr_fuel _ _ _ Hs'). }
    ret. rewrite Hv. destruct (Z.ltb_spec n 0);
      (rewrite signed_ok by (change (2 ^ (32 - 1)) with (2 ^ 31); lia)); f_equal; lia.
Qed.

(** ** Concrete memories *)

(** The strings "abc" at 0 and "ab" at 8, "-123" at 16 and room behind. *)
Definition demo_mem : list Z :=
  [97; 98; 99; 0; 7; 7; 7; 7; 97; 98; 0; 7; 7; 7; 7; 7; 45; 49; 50; 51; 0; 7; 7; 7].

Lemma memory_functions_correct_witness :
  returns (memmove 1 0 4 demo_mem) (moved demo_mem 1 0 4) /\ memcmp 1 0 4 demo_mem <> Ret 0.
Proof.
  destruct (memory_functions_correct demo_mem 1 0 4 9) as (H1 & _ & _ & H2);
    [split; vm_compute; discriminate|split; vm_compute; discriminate|lia|].
  split; [exact H1|]. intros H. apply H2 in H. vm_compute in H. discriminate H.
Defined.

Lemma string_tests_correct_witness :
  cstr demo_mem 0 [97; 98; 99] /\ cstr demo_mem 8 [97; 98] /\ strlen 0 demo_mem = Ret 3 /\
  strcmp 0 8 demo_mem = Ret 99 /\ strncmp 0 8 2 demo_mem = Ret 0.
Proof.
  assert (cstr demo_mem 0 [97; 98; 99]) as H1 by (repeat split; lia).
  assert (cstr demo_mem 8 [97; 98]) as H2 by (repeat split; lia).
  destruct (string_tests_correct demo_mem 0 8 [97; 98; 99] [97; 98] 2 H1 H2) as (L & C & _ & N).
  split; [exact H1|]. split; [exact H2|]. split; [exact L|]. split; [exact C|]. apply N. reflexivity.
Defined.

Lemma string_copies_correct_witness :
  returns (strcat 0 8 demo_mem) (fun m' => cstr m' 0 [97; 98; 99; 97; 98]).
Proof.
  assert (cstr demo_mem 0 [97; 98; 99]) as H1 by (repeat split; lia).
  assert (cstr demo_mem 8 [97; 98]) as H2 by (repeat split; lia).
  destruct (string_copies_correct demo_mem 0 8 0 _ _ H1 H2) as (_ & _ & H).
  eapply returns_mono; [apply H; [split; vm_compute; discriminate|left; vm_compute; discriminate]|].
  intros m' [_ Hs]. exact Hs.
Defined.

Lemma number_roundtrip_witness :
  strtol 16 10 demo_mem = Ret (-123, 20) /\ atoi 16 demo_mem = Ret (-123).
Proof.
  destruct (number_roundtrip demo_mem 16 10 (-123)) as [H1 H2]; [lia| |].
  { change (print_num 10 (-123)) with [45; 49; 50; 51]. repeat split; lia. }
  split; [apply H1; lia|apply H2; [reflexivity|lia]].
Defined.
