(* ===== verification/RcParse.v ===== *)
(** * The unit file parser of init (user/rc/rcparse.c, rcparse.h)

    A file is a list of bytes.  The lexer state is what is left of it and the
    line number; a C string is the list of its bytes before the terminator.
    The node pool is the number of nodes taken from it.  An empty list and an
    atom without name are the same node, as in the code.  The recursive parser
    runs on fuel; every token takes at least one byte, so the length of the
    rest of the file is enough. *)

From Stdlib Require Import String Ascii.
From stdpp Require Import base numbers list.
From Stdlib Require Import ZArith Lia.
From S2P Require Import Prelude StringLib.

#[local] Open Scope Z_scope.
#[local] Set Warnings "-register-all".

(** The bytes of a string constant. *)
Fixpoint zs (s : string) : list Z :=
  match s with
  | EmptyString => []
  | String c s => Z.of_nat (nat_of_ascii c) :: zs s
  end.

Implicit Types (l tok str : list Z).

(** ** String helpers *)

(** The bytes before the first NUL. *)
Fixpoint until_nul l : list Z :=
  match l with
  | [] => []
  | c :: l => if c =? 0 then [] else c :: until_nul l
  end.

Fixpoint rc_strcmp (a b : list Z) : Z :=
  match a, b with
  | [], [] => 0
  | [], c :: _ => 0 - c
  | c :: _, [] => c - 0
  | c :: a, d :: b => if c =? d then rc_strcmp a b else c - d
  end.

Definition rc_streq (a b : list Z) : bool := rc_strcmp a b =? 0.

(** [rc_strncpy(dst, src, max)]: what [dst] holds afterwards. *)
Definition rc_strncpy (src : list Z) (max : Z) : list Z := take (Z.to_nat (max - 1)) (until_nul src).

Fixpoint rc_atoi_loop (v : Z) l : out Z :=
  match l with
  | [] => Ret v
  | c :: l =>
      if is_digit c then
        v ← signed 32 (v * 10); v ← signed 32 (v + (c - 48)); rc_atoi_loop v l
      else Ret v
  end.

Definition rc_atoi l : out Z :=
  match l with
  | 45 :: l => v ← rc_atoi_loop 0 l; signed 32 (- v)
  | _ => rc_atoi_loop 0 l
  end.

(** ** Error messages *)

Definition RC_ERR_MAX : Z := 128.

(** The decimal digits of a line number, last one first. *)
Fixpoint line_digits (fuel : nat) (n : Z) : list Z :=
  match fuel with
  | O => []
  | S fuel => (48 + n mod 10) :: (if n / 10 =? 0 then [] else line_digits fuel (n / 10))
  end.

(** [while (ni > 0 && n + 2 < RC_ERR_MAX) rc_err[n++] = num[--ni]] *)
Fixpoint push_digits (ds err : list Z) : list Z :=
  match ds with
  | [] => err
  | d :: ds => if Z.of_nat (length err) + 2 <? RC_ERR_MAX then push_digits ds (err ++ [d]) else err
  end.

Definition rc_set_err (src : list Z) (line : Z) (msg : list Z) : list Z :=
  let err := match src with [] => [] | _ => take 95 src ++ [58] end in
  let line := if line <? 0 then 0 else line in
  let err := push_digits (rev (line_digits 12 line)) err in
  let err := err ++ [58; 32] in
  err ++ take (Z.to_nat (RC_ERR_MAX - 1) - length err) msg.

(** ** Lexer *)

Record lexer := Lexer { lx_rest : list Z; lx_line : Z }.

Inductive token :=
| TEof
| TOpen
| TClose
| TAtom (tok : list Z).

Definition is_space (c : Z) : bool := (c =? 32) || (c =? 9) || (c =? 10) || (c =? 13).

Fixpoint skip_space l (line : Z) : lexer :=
  match l with
  | c :: l' => if is_space c then skip_space l' (if c =? 10 then line + 1 else line) else Lexer l line
  | [] => Lexer l line
  end.

Fixpoint skip_comment l : list Z :=
  match l with
  | c :: l' => if c =? 10 then l else skip_comment l'
  | [] => []
  end.

(** White space and comments; each turn but the last skips a comment. *)
Fixpoint lexer_skip (fuel : nat) (lx : lexer) : out lexer :=
  match fuel with
  | O => Hang
  | S fuel =>
      let lx := skip_space (lx_rest lx) (lx_line lx) in
      match lx_rest lx with
      | 59 :: l => lexer_skip fuel (Lexer (skip_comment (59 :: l)) (lx_line lx))
      | _ => Ret lx
      end
  end.

Definition RC_TOK_MAX : Z := 64.

Definition ends_atom (c : Z) : bool := (c =? 40) || (c =? 41) || is_space c || (c =? 59).

(** At most [k] bytes of an atom, and the rest. *)
Fixpoint take_atom (k : nat) l : list Z * list Z :=
  match k, l with
  | S k, c :: l' =>
      if ends_atom c then ([], l) else let '(tok, l'') := take_atom k l' in (c :: tok, l'')
  | _, _ => ([], l)
  end.

Definition lexer_next (lx : lexer) : out (token * lexer) :=
  lx ← lexer_skip (S (length (lx_rest lx))) lx;
  match lx_rest lx with
  | [] => Ret (TEof, lx)
  | 40 :: l => Ret (TOpen, Lexer l (lx_line lx))
  | 41 :: l => Ret (TClose, Lexer l (lx_line lx))
  | _ =>
      let '(tok, l) := take_atom (Z.to_nat (RC_TOK_MAX - 1)) (lx_rest lx) in
      Ret (TAtom tok, Lexer l (lx_line lx))
  end.

(** ** Lists *)

Inductive sexp := Sexp (name : list Z) (line : Z) (children : list sexp).

Definition sx_name (s : sexp) : list Z := let 'Sexp n _ _ := s in n.
Definition sx_line (s : sexp) : Z := let 'Sexp _ l _ := s in l.
Definition sx_children (s : sexp) : list sexp := let 'Sexp _ _ c := s in c.

Definition RC_CHILD_MAX : Z := 16.
Definition RC_POOL_MAX : Z := 1024.

(** The loop of [rc_parse_list] behind the opening parenthesis: the children
    so far (last one first), the lexer and the number of pool nodes used.
    [None] is NULL. *)
Fixpoint parse_items (fuel : nat) (line : Z) (acc : list sexp) (lx : lexer) (npool : Z) :
    out (option sexp * lexer * Z) :=
  match fuel with
  | O => Hang
  | S fuel =>
      '(t, lx) ← lexer_next lx;
      match t with
      | TEof => Ret (None, lx, npool)
      | TClose => Ret (Some (Sexp [] line (rev acc)), lx, npool)
      | TOpen =>
          if RC_CHILD_MAX <=? Z.of_nat (length acc) then parse_items fuel line acc lx npool
          else if RC_POOL_MAX <=? npool then Ret (None, lx, npool)
          else
            '(c, lx, npool) ← parse_items fuel (lx_line lx) [] lx (npool + 1);
            match c with
            | None => Ret (None, lx, npool)
            | Some c => parse_items fuel line (c :: acc) lx npool
            end
      | TAtom tok =>
          if RC_CHILD_MAX <=? Z.of_nat (length acc) then parse_items fuel line acc lx npool
          else if RC_POOL_MAX <=? npool then Ret (None, lx, npool)
          else
            let atom := Sexp (rc_strncpy tok RC_TOK_MAX) (lx_line lx) [] in
            parse_items fuel line (atom :: acc) lx (npool + 1)
      end
  end.

Definition rc_parse_list (lx : lexer) (npool : Z) : out (option sexp * lexer * Z) :=
  if RC_POOL_MAX <=? npool then Ret (None, lx, npool)
  else parse_items (S (length (lx_rest lx))) (lx_line lx) [] lx (npool + 1).

(** ** Units *)

Definition RC_UNIT_NAME_MAX : Z := 32.
Definition RC_EXEC_MAX : Z := 64.
Definition RC_ARG_MAX : Z := 8.
Definition RC_ARG_LEN : Z := 32.
Definition RC_DEPS_MAX : Z := 8.
Definition RC_ENV_MAX : Z := 4.
Definition RC_ENV_LEN : Z := 32.
Definition RC_PATH_MAX : Z := 32.

Definition RC_T_MOUNT : Z := 1.
Definition RC_T_ONESHOT : Z := 2.
Definition RC_T_SERVICE : Z := 3.
Definition RC_IO_CONSOLE : Z := 1.
Definition RC_IO_SILENT : Z := 2.
Definition RC_R_NEVER : Z := 0.
Definition RC_R_ON_FAILURE : Z := 1.
Definition RC_R_ALWAYS : Z := 2.
Definition RC_READY_PORT : Z := 1.
Definition RC_READY_SLEEP : Z := 2.

(** The counters [argc], [ndeps], [nafter] and [nenv] are the lengths of the
    lists. *)
Record rc_unit := Unit {
  u_name : list Z; u_line : Z; u_type : Z;
  u_exec : list Z; u_argv : list (list Z);
  u_stdio : Z; u_respawn : Z;
  u_deps : list (list Z); u_after : list (list Z);
  u_ready_kind : Z; u_ready_port : list Z; u_ready_secs : Z;
  u_env : list (list Z); u_uid : Z; u_gid : Z;
  u_device : list Z; u_fstype : list Z; u_mountpoint : list Z; u_mflags : list Z;
}.

Definition zero_unit (name : list Z) (line : Z) : rc_unit :=
  Unit name line 0 [] [] RC_IO_CONSOLE 0 [] [] 0 [] 0 [] 0 0 [] [] [] [].

(** Atom at index [i] inside a field list, or NULL. *)
Definition field_val (field : sexp) (i : nat) : option (list Z) :=
  match sx_children field !! i with
  | Some c => if (length (sx_children c) =? 0)%nat then Some (sx_name c) else None
  | None => None
  end.

Definition field_key (field : sexp) : option (list Z) := field_val field 0.

Definition unit_has_dep (deps : list (list Z)) (name : list Z) : bool := existsb (fun d => rc_streq d name) deps.

(** The values of a field from child [i] on, each copied into an array of
    [max] strings of [len] bytes that already holds [dst]. *)
Fixpoint copy_vals (cs : list sexp) (dst : list (list Z)) (max len : Z) (dup : bool) : list (list Z) :=
  match cs with
  | [] => dst
  | c :: cs =>
      if Z.of_nat (length dst) <? max then
        if (length (sx_children c) =? 0)%nat && negb (dup && unit_has_dep dst (sx_name c))
        then copy_vals cs (dst ++ [rc_strncpy (sx_name c) len]) max len dup
        else copy_vals cs dst max len dup
      else dst
  end.

Definition set_type v u := let 'Unit n l _ e a s r d f k p c v' i g x y z m := u in Unit n l v e a s r d f k p c v' i g x y z m.
Definition set_exec v w u := let 'Unit n l t _ _ s r d f k p c v' i g x y z m := u in Unit n l t v w s r d f k p c v' i g x y z m.
Definition set_stdio v u := let 'Unit n l t e a _ r d f k p c v' i g x y z m := u in Unit n l t e a v r d f k p c v' i g x y z m.
Definition set_respawn v u := let 'Unit n l t e a s _ d f k p c v' i g x y z m := u in Unit n l t e a s v d f k p c v' i g x y z m.
Definition set_deps v u := let 'Unit n l t e a s r _ f k p c v' i g x y z m := u in Unit n l t e a s r v f k p c v' i g x y z m.
Definition set_after v u := let 'Unit n l t e a s r d _ k p c v' i g x y z m := u in Unit n l t e a s r d v k p c v' i g x y z m.
Definition set_ready_port v u := let 'Unit n l t e a s r d f _ _ c v' i g x y z m := u in Unit n l t e a s r d f RC_READY_PORT v c v' i g x y z m.
Definition set_ready_secs v u := let 'Unit n l t e a s r d f _ p _ v' i g x y z m := u in Unit n l t e a s r d f RC_READY_SLEEP p v v' i g x y z m.
Definition set_env v u := let 'Unit n l t e a s r d f k p c _ i g x y z m := u in Unit n l t e a s r d f k p c v i g x y z m.
Definition set_uid v u := let 'Unit n l t e a s r d f k p c v' _ g x y z m := u in Unit n l t e a s r d f k p c v' v g x y z m.
Definition set_gid v u := let 'Unit n l t e a s r d f k p c v' i _ x y z m := u in Unit n l t e a s r d f k p c v' i v x y z m.
Definition set_device v u := let 'Unit n l t e a s r d f k p c v' i g _ y z m := u in Unit n l t e a s r d f k p c v' i g v y z m.
Definition set_fstype v u := let 'Unit n l t e a s r d f k p c v' i g x _ z m := u in Unit n l t e a s r d f k p c v' i g x v z m.
Definition set_mountpoint v u := let 'Unit n l t e a s r d f k p c v' i g x y _ m := u in Unit n l t e a s r d f k p c v' i g x y v m.
Definition set_mflags v u := let 'Unit n l t e a s r d f k p c v' i g x y z _ := u in Unit n l t e a s r d f k p c v' i g x y z v.

(** A field with a single copied value. *)
Definition set_val (fd : sexp) (len : Z) (set : list Z -> rc_unit -> rc_unit) (u : rc_unit) : rc_unit :=
  match field_val fd 1 with Some v => set (rc_strncpy v len) u | None => u end.

Definition field_type (fd : sexp) (u : rc_unit) : rc_unit :=
  match field_val fd 1 with
  | None => u
  | Some v =>
      if rc_streq v (zs "mount") then set_type RC_T_MOUNT u
      else if rc_streq v (zs "oneshot") then set_type RC_T_ONESHOT u
      else if rc_streq v (zs "service") then set_type RC_T_SERVICE u
      else u
  end.

Definition field_exec (fd : sexp) (u : rc_unit) : rc_unit :=
  match field_val fd 1 with
  | None => u
  | Some v =>
      set_exec (rc_strncpy v RC_EXEC_MAX)
        (copy_vals (drop 2 (sx_children fd)) (u_argv u) RC_ARG_MAX RC_ARG_LEN false) u
  end.

Definition field_stdio (fd : sexp) (u : rc_unit) : rc_unit :=
  match field_val fd 1 with
  | Some v => set_stdio (if rc_streq v (zs "silent") then RC_IO_SILENT else RC_IO_CONSOLE) u
  | None => set_stdio RC_IO_CONSOLE u
  end.

Definition field_respawn (fd : sexp) (u : rc_unit) : rc_unit :=
  match field_val fd 1 with
  | Some v =>
      if rc_streq v (zs "never") then set_respawn RC_R_NEVER u
      else if rc_streq v (zs "always") then set_respawn RC_R_ALWAYS u
      else set_respawn RC_R_ON_FAILURE u
  | None => set_respawn RC_R_ON_FAILURE u
  end.

Definition field_ready (fd : sexp) (u : rc_unit) : out rc_unit :=
  match field_val fd 1, field_val fd 2 with
  | Some kind, Some arg =>
      if rc_streq kind (zs "port") then Ret (set_ready_port (rc_strncpy arg RC_UNIT_NAME_MAX) u)
      else if rc_streq kind (zs "sleep") then v ← rc_atoi arg; Ret (set_ready_secs v u)
      else Ret u
  | _, _ => Ret u
  end.

Definition field_num (fd : sexp) (set : Z -> rc_unit -> rc_unit) (u : rc_unit) : out rc_unit :=
  match field_val fd 1 with Some v => n ← rc_atoi v; Ret (set n u) | None => Ret u end.

(** One turn of the loop over the fields of a unit. *)
Definition unit_field (fd : sexp) (u : rc_unit) : out rc_unit :=
  match field_key fd with
  | None => Ret u
  | Some key =>
      if rc_streq key (zs "type") then Ret (field_type fd u)
      else if rc_streq key (zs "exec") then Ret (field_exec fd u)
      else if rc_streq key (zs "stdio") then Ret (field_stdio fd u)
      else if rc_streq key (zs "respawn") then Ret (field_respawn fd u)
      else if rc_streq key (zs "deps") then
        Ret (set_deps (copy_vals (drop 1 (sx_children fd)) (u_deps u) RC_DEPS_MAX RC_UNIT_NAME_MAX true) u)
      else if rc_streq key (zs "after") then
        Ret (set_after (copy_vals (drop 1 (sx_children fd)) (u_after u) RC_DEPS_MAX RC_UNIT_NAME_MAX false) u)
      else if rc_streq key (zs "ready") then field_ready fd u
      else if rc_streq key (zs "env") then
        Ret (set_env (copy_vals (drop 1 (sx_children fd)) (u_env u) RC_ENV_MAX RC_ENV_LEN false) u)
      else if rc_streq key (zs "uid") then field_num fd set_uid u
      else if rc_streq key (zs "gid") then field_num fd set_gid u
      else if rc_streq key (zs "device") then Ret (set_val fd RC_PATH_MAX set_device u)
      else if rc_streq key (zs "fstype") then Ret (set_val fd 16 set_fstype u)
      else if rc_streq key (zs "mountpoint") then Ret (set_val fd RC_PATH_MAX set_mountpoint u)
      else if rc_streq key (zs "flags") then Ret (set_val fd 16 set_mflags u)
      else Ret u
  end.

Definition is_empty l : bool := (length l =? 0)%nat.

(** The checks behind the loop: the unit, or the message. *)
Definition unit_validate (u : rc_unit) : rc_unit + list Z :=
  if u_type u =? 0 then inr (zs "unit has no valid (type ...)")
  else if u_type u =? RC_T_SERVICE then
    if is_empty (u_exec u) then inr (zs "service unit needs (exec ...)")
    else inl (if u_respawn u =? 0 then set_respawn RC_R_ON_FAILURE u else u)
  else if u_type u =? RC_T_ONESHOT then
    if is_empty (u_exec u) then inr (zs "oneshot unit needs (exec ...)") else inl u
  else if u_type u =? RC_T_MOUNT then
    if is_empty (u_device u) || is_empty (u_fstype u) || is_empty (u_mountpoint u)
    then inr (zs "mount unit needs (device ...) (fstype ...) (mountpoint ...)") else inl u
  else inl u.

(** The unit if there is one, and [rc_err]. *)
Definition unit_parse (node : sexp) (src err : list Z) : out (option rc_unit * list Z) :=
  match field_val node 0, field_val node 1 with
  | Some w, Some name =>
      if negb (rc_streq w (zs "unit")) || is_empty name then Ret (None, err)
      else
        u ← fold_out unit_field (drop 2 (sx_children node))
              (zero_unit (rc_strncpy name RC_UNIT_NAME_MAX) (sx_line node));
        match unit_validate u with
        | inl u => Ret (Some u, err)
        | inr msg => Ret (None, rc_set_err src (u_line u) msg)
        end
  | _, _ => Ret (None, err)
  end.

(** The top level loop: units so far, and [rc_err]. *)
Fixpoint parse_top (fuel : nat) (max : Z) (src : list Z) (units : list rc_unit) (err : list Z)
    (lx : lexer) (npool : Z) : out (list rc_unit * list Z) :=
  match fuel with
  | O => Hang
  | S fuel =>
      '(t, lx) ← lexer_next lx;
      match t with
      | TEof => Ret (units, err)
      | TOpen =>
          '(node, lx, npool) ← rc_parse_list lx npool;
          match node with
          | None => Ret (units, rc_set_err src (lx_line lx) (zs "unbalanced parentheses"))
          | Some node =>
              if Z.of_nat (length units) <? max then
                '(u, err) ← unit_parse node src err;
                parse_top fuel max src (units ++ match u with Some u => [u] | None => [] end) err lx npool
              else parse_top fuel max src units err lx npool
          end
      | TClose =>
          parse_top fuel max src units (rc_set_err src (lx_line lx) (zs "stray ')' at top level")) lx npool
      | TAtom _ => parse_top fuel max src units err lx npool
      end
  end.

Definition rc_parse_buf (buf : list Z) (max : Z) (src : list Z) : out (list rc_unit * list Z) :=
  parse_top (S (length buf)) max src [] [] (Lexer buf 1) 0.

(** ** The parser returns *)

(** No run of more than nine digits, so that no number overflows. *)
Definition runs_ok l : Prop :=
  forall l1 l2 l3, l = l1 ++ l2 ++ l3 -> Forall (fun c => is_digit c = true) l2 -> (length l2 <= 9)%nat.

Lemma runs_ok_infix l1 l l2 : runs_ok (l1 ++ l ++ l2) -> runs_ok l.
Proof.
  intros H k1 k2 k3 -> HF. apply (H (l1 ++ k1) k2 (k3 ++ l2)); [|done].
  by rewrite <- !app_assoc.
Qed.

Lemma runs_ok_suffix l1 l : runs_ok (l1 ++ l) -> runs_ok l.
Proof. intros H. apply (runs_ok_infix l1 l []). by rewrite app_nil_r. Qed.

Lemma runs_ok_prefix l l2 : runs_ok (l ++ l2) -> runs_ok l.
Proof. apply (runs_ok_infix []). Qed.

Lemma until_nul_prefix l : exists l', l = until_nul l ++ l'.
Proof.
  induction l as [|c l [l' IH]]; simpl; [by exists []|]. destruct (c =? 0); [by exists (c :: l)|].
  exists l'. simpl. by f_equal.
Qed.

Lemma runs_ok_strncpy l max : runs_ok l -> runs_ok (rc_strncpy l max).
Proof.
  intros H. destruct (until_nul_prefix l) as [l' Hl]. rewrite Hl in H. apply runs_ok_prefix in H.
  unfold rc_strncpy. rewrite <- (take_drop (Z.to_nat (max - 1)) (until_nul l)) in H.
  by eapply runs_ok_prefix.
Qed.

Lemma skip_space_spec l line :
  exists p, l = p ++ lx_rest (skip_space l line) /\ Forall (fun c => is_space c = true) p /\
    match lx_rest (skip_space l line) with c :: _ => is_space c = false | [] => True end.
Proof.
  revert line. induction l as [|c l IH]; intros line; simpl; [by exists []|].
  destruct (is_space c) eqn:E.
  - destruct (IH (if c =? 10 then line + 1 else line)) as (p & Hp & HF & Hh).
    exists (c :: p). simpl. split; [by f_equal|]. split; [by constructor|done].
  - exists []. simpl. by rewrite E.
Qed.

Lemma skip_comment_spec l : exists p, l = p ++ skip_comment l.
Proof.
  induction l as [|c l [p IH]]; simpl; [by exists []|]. destruct (c =? 10); [by exists []|].
  exists (c :: p). simpl. by f_equal.
Qed.

(** Where the lexer stops skipping. *)
Definition at_token l : Prop :=
  match l with c :: _ => is_space c = false /\ c <> 59 | [] => True end.

Lemma lexer_skip_match {A} l (f : list Z -> A) (x : A) :
  match l with 59 :: l' => f l' | _ => x end =
  match l with c :: l' => if c =? 59 then f l' else x | [] => x end.
Proof.
  destruct l as [|c l]; [done|]. destruct (Z.eqb_spec c 59) as [->|Hne]; [done|].
  destruct c as [|c|c]; try done. do 6 (destruct c as [c|c|]; try done).
Qed.

Lemma lexer_skip_spec fuel : forall lx,
  (length (lx_rest lx) < fuel)%nat ->
  returns (lexer_skip fuel lx) (fun lx' => (exists p, lx_rest lx = p ++ lx_rest lx') /\ at_token (lx_rest lx')).
Proof.
  induction fuel as [|fuel IH]; intros lx Hf; [lia|]. cbn [lexer_skip].
  destruct (skip_space_spec (lx_rest lx) (lx_line lx)) as (p & Hp & _ & Hh).
  set (lx1 := skip_space _ _) in *. cbv zeta. rewrite lexer_skip_match.
  destruct (lx_rest lx1) as [|c l] eqn:E.
  - ret. rewrite E. split; [by exists p|done].
  - destruct (Z.eqb_spec c 59) as [->|Hne].
    + destruct (skip_comment_spec l) as [q Hq]. simpl.
      eapply returns_mono; [apply IH|].
      * simpl. rewrite Hp in Hf. rewrite length_app in Hf. simpl in Hf.
        apply (f_equal length) in Hq. rewrite length_app in Hq. lia.
      * intros lx' [[r Hr] Ht]. split; [|done]. simpl in Hr. exists (p ++ 59 :: q ++ r).
        rewrite Hp, Hq, Hr, <- !app_assoc. simpl. by rewrite <- !app_assoc.
    + ret. rewrite E. split; [by exists p|]. done.
Qed.

Lemma take_atom_spec k : forall l, exists tok l',
  take_atom k l = (tok, l') /\ l = tok ++ l' /\ Forall (fun c => ends_atom c = false) tok /\
  (length tok <= k)%nat /\
  ((length tok < k)%nat -> match l' with c :: _ => ends_atom c = true | [] => True end).
Proof.
  induction k as [|k IH]; intros l.
  - exists [], l. split; [by destruct l|]. split; [done|]. split; [constructor|]. simpl. split; lia.
  - destruct l as [|c l]; simpl.
    + exists [], []. repeat split; [constructor|simpl; lia].
    + destruct (ends_atom c) eqn:E.
      * exists [], (c :: l). repeat split; [constructor|simpl; lia|done].
      * destruct (IH l) as (tok & l' & -> & -> & HF & Hl & He). exists (c :: tok), l'.
        split; [done|]. split; [done|]. split; [by constructor|]. simpl. split; [lia|].
        intros. apply He. lia.
Qed.

(** What [lexer_next] does to the rest of the file. *)
Definition next_post (lx : lexer) (r : token * lexer) : Prop :=
  let '(t, lx') := r in
  (exists p, lx_rest lx = p ++ lx_rest lx') /\
  match t with
  | TEof => lx_rest lx' = []
  | TOpen | TClose => (length (lx_rest lx') < length (lx_rest lx))%nat
  | TAtom tok => (length (lx_rest lx') < length (lx_rest lx))%nat /\ tok <> [] /\
      exists p, lx_rest lx = p ++ tok ++ lx_rest lx'
  end.

Lemma lexer_next_match {A} (c : Z) l (f g : list Z -> A) (x : A) :
  match c :: l with [] => x | 40 :: l => f l | 41 :: l => g l | _ => x end =
  if c =? 40 then f l else if c =? 41 then g l else x.
Proof.
  destruct (Z.eqb_spec c 40) as [->|H1]; [done|]. destruct (Z.eqb_spec c 41) as [->|H2]; [done|].
  destruct c as [|c|c]; try done. do 6 (destruct c as [c|c|]; try done).
Qed.

Lemma lexer_next_spec lx : returns (lexer_next lx) (next_post lx).
Proof.
  unfold lexer_next. eapply returns_bind; [apply lexer_skip_spec; lia|].
  intros lx1 [[p Hp] Ht]. destruct (lx_rest lx1) as [|c l] eqn:E.
  - ret. split; [|done]. exists p. by rewrite E.
  - destruct Ht as [Hsp H59].
    assert (forall l', (length l' < length (c :: l))%nat -> (length l' < length (lx_rest lx))%nat) as Hlt.
    { intros l' Hl'. rewrite Hp, length_app. lia. }
    rewrite (lexer_next_match c l
      (fun l => Ret (TOpen, Lexer l (lx_line lx1))) (fun l => Ret (TClose, Lexer l (lx_line lx1)))).
    destruct (Z.eqb_spec c 40) as [->|H40]; [|destruct (Z.eqb_spec c 41) as [->|H41]].
    + ret. split; [|apply Hlt; simpl; lia]. exists (p ++ [40]). by rewrite Hp, <- app_assoc.
    + ret. split; [|apply Hlt; simpl; lia]. exists (p ++ [41]). by rewrite Hp, <- app_assoc.
    + destruct (take_atom_spec 63 (c :: l)) as (tok & l' & Ht & Hcl & HF & Hk & He).
      change (Z.to_nat (RC_TOK_MAX - 1)) with 63%nat. rewrite Ht. ret. cbn [lx_rest].
      assert (tok <> []) as Hne.
      { intros ->. simpl in Hcl. subst l'. specialize (He ltac:(simpl; lia)). simpl in He.
        unfold ends_atom in He. rewrite Hsp in He.
        rewrite (proj2 (Z.eqb_neq c 40)), (proj2 (Z.eqb_neq c 41)), (proj2 (Z.eqb_neq c 59)) in He by done.
        done. }
      split; [exists (p ++ tok); by rewrite Hp, Hcl, <- app_assoc|]. split; [|split; [done|]].
      * apply Hlt. rewrite Hcl, length_app. destruct tok; [done|simpl; lia].
      * exists p. by rewrite Hp, Hcl.
Qed.

(** *** Trees *)

Inductive tree_ok : sexp -> Prop :=
| TreeOk name line cs :
    runs_ok name -> (length cs <= 16)%nat -> Forall tree_ok cs -> tree_ok (Sexp name line cs).

Lemma runs_ok_nil : runs_ok [].
Proof. intros l1 l2 l3 H _. destruct l1, l2; simpl in *; try done; lia. Qed.

Definition items_post (lx : lexer) (npool : Z) (r : option sexp * lexer * Z) : Prop :=
  let '(o, lx', n') := r in
  (exists p, lx_rest lx = p ++ lx_rest lx') /\ npool <= n' <= RC_POOL_MAX /\
  match o with Some s => tree_ok s | None => True end.

Lemma suffix_len {A} (l p l' : list A) : l = p ++ l' -> (length l' <= length l)%nat.
Proof. intros ->. rewrite length_app. lia. Qed.

Lemma suffix_trans {A} (a b c : list A) :
  (exists p, a = p ++ b) -> (exists p, b = p ++ c) -> exists p, a = p ++ c.
Proof. intros [p ->] [q ->]. exists (p ++ q). apply app_assoc. Qed.

Lemma parse_items_spec fuel : forall line acc lx npool,
  (length (lx_rest lx) < fuel)%nat -> runs_ok (lx_rest lx) -> npool <= RC_POOL_MAX ->
  Forall tree_ok acc -> (length acc <= 16)%nat ->
  returns (parse_items fuel line acc lx npool) (items_post lx npool).
Proof.
  induction fuel as [|fuel IH]; intros line acc lx npool Hf Hok Hn Hacc Hlen; [lia|].
  cbn [parse_items]. eapply returns_bind; [apply lexer_next_spec|]. intros [t lx1] [Hsuf Ht].
  assert (runs_ok (lx_rest lx1)) as Hok1
    by (destruct Hsuf as [p Hp]; rewrite Hp in Hok; by eapply runs_ok_suffix).
  assert (forall acc' np, (length (lx_rest lx1) < length (lx_rest lx))%nat ->
    Forall tree_ok acc' -> (length acc' <= 16)%nat -> npool <= np <= RC_POOL_MAX ->
    returns (parse_items fuel line acc' lx1 np) (items_post lx npool)) as Hrec.
  { intros acc' np Hlt Ha Hl Hnp. eapply returns_mono; [apply IH; [lia|done|lia|done|done]|].
    intros [[o lx2] n2] (Hs2 & Hn2 & Ho). split; [by eapply suffix_trans|]. split; [lia|done]. }
  destruct t as [| | |tok].
  - ret. split; [done|]. split; [lia|done].
  - destruct (Z.leb_spec RC_CHILD_MAX (Z.of_nat (length acc))); [by apply Hrec; [..|lia]|].
    destruct (Z.leb_spec RC_POOL_MAX npool); [ret; split; [done|]; split; [lia|done]|].
    unfold RC_CHILD_MAX in *.
    eapply returns_bind; [apply IH; [lia|done|lia|constructor|simpl; lia]|].
    intros [[c lx2] n2] (Hs2 & Hn2 & Hc). destruct c as [c|].
    2:{ ret. split; [by eapply suffix_trans|]. split; [lia|done]. }
    assert (runs_ok (lx_rest lx2)) as Hok2
      by (destruct Hs2 as [q Hq]; rewrite Hq in Hok1; by eapply runs_ok_suffix).
    pose proof Hs2 as [q Hq]. pose proof (suffix_len _ _ _ Hq).
    eapply returns_mono; [apply IH; [lia|done|lia|by constructor|simpl; lia]|].
    intros [[o lx3] n3] (Hs3 & Hn3 & Ho). split; [|split; [lia|done]].
    eapply suffix_trans, Hs3. by eapply suffix_trans.
  - ret. split; [done|]. split; [lia|]. constructor; [apply runs_ok_nil|by rewrite length_rev|].
    by apply Forall_rev.
  - destruct Ht as (Hlt & _ & p & Hp).
    destruct (Z.leb_spec RC_CHILD_MAX (Z.of_nat (length acc))); [by apply Hrec; [..|lia]|].
    destruct (Z.leb_spec RC_POOL_MAX npool); [ret; split; [done|]; split; [lia|done]|].
    unfold RC_CHILD_MAX in *. apply Hrec; [done| |simpl; lia|lia]. constructor; [|done].
    constructor; [|simpl; lia|constructor]. apply runs_ok_strncpy. rewrite Hp in Hok.
    by eapply runs_ok_infix.
Qed.

Lemma rc_parse_list_spec lx npool :
  runs_ok (lx_rest lx) -> npool <= RC_POOL_MAX ->
  returns (rc_parse_list lx npool) (items_post lx npool).
Proof.
  intros Hok Hn. unfold rc_parse_list. destruct (Z.leb_spec RC_POOL_MAX npool).
  - ret. split; [by exists []|]. split; [lia|done].
  - eapply returns_mono; [apply parse_items_spec; [lia|done|lia|constructor|simpl; lia]|].
    intros [[o lx'] n'] (Hs & Hn' & Ho). split; [done|]. split; [lia|done].
Qed.

(** *** Units *)

Definition strs_within (n len : Z) (ss : list (list Z)) : Prop :=
  Z.of_nat (length ss) <= n /\ Forall (fun s => Z.of_nat (length s) < len) ss.

(** Every string fits its array with the terminator, every list its array. *)
Definition unit_wf (u : rc_unit) : Prop :=
  Z.of_nat (length (u_name u)) < RC_UNIT_NAME_MAX /\ Z.of_nat (length (u_exec u)) < RC_EXEC_MAX /\
  strs_within RC_ARG_MAX RC_ARG_LEN (u_argv u) /\ strs_within RC_DEPS_MAX RC_UNIT_NAME_MAX (u_deps u) /\
  strs_within RC_DEPS_MAX RC_UNIT_NAME_MAX (u_after u) /\ strs_within RC_ENV_MAX RC_ENV_LEN (u_env u) /\
  Z.of_nat (length (u_ready_port u)) < RC_UNIT_NAME_MAX /\
  Z.of_nat (length (u_device u)) < RC_PATH_MAX /\ Z.of_nat (length (u_fstype u)) < 16 /\
  Z.of_nat (length (u_mountpoint u)) < RC_PATH_MAX /\ Z.of_nat (length (u_mflags u)) < 16 /\
  0 <= u_type u <= 3.

(** A unit init can run. *)
Definition unit_valid (u : rc_unit) : Prop :=
  u_type u = RC_T_MOUNT /\ u_device u <> [] /\ u_fstype u <> [] /\ u_mountpoint u <> [] \/
  u_type u = RC_T_ONESHOT /\ u_exec u <> [] \/
  u_type u = RC_T_SERVICE /\ u_exec u <> [] /\ u_respawn u <> RC_R_NEVER.

Lemma length_strncpy l max : 0 < max -> Z.of_nat (length (rc_strncpy l max)) < max.
Proof. intros Hm. unfold rc_strncpy. rewrite length_take. lia. Qed.

Lemma copy_vals_within cs : forall dst max len dup,
  0 < len -> strs_within max len dst -> strs_within max len (copy_vals cs dst max len dup).
Proof.
  induction cs as [|c cs IH]; intros dst max len dup Hl Hd; simpl; [done|].
  destruct (Z.ltb_spec (Z.of_nat (length dst)) max); [|done].
  destruct (_ && _); apply IH; try done. destruct Hd as [Hd HF]. split; [rewrite length_app; simpl; lia|].
  apply Forall_app. split; [done|]. constructor; [by apply length_strncpy|constructor].
Qed.

Lemma rc_atoi_loop_spec l : forall k v,
  runs_ok l -> (exists p, length p = k /\ Forall (fun c => is_digit c = true) p /\ runs_ok (p ++ l)) ->
  0 <= v < 10 ^ Z.of_nat k -> (k <= 9)%nat ->
  returns (rc_atoi_loop v l) (fun r => 0 <= r < 10 ^ 9).
Proof.
  induction l as [|c l IH]; intros k v Hok Hk Hv Hk9; simpl.
  - split; [lia|]. apply (Z.lt_le_trans _ (10 ^ Z.of_nat k)); [lia|]. apply Z.pow_le_mono_r; lia.
  - destruct (is_digit c) eqn:E.
    2:{ split; [lia|]. apply (Z.lt_le_trans _ (10 ^ Z.of_nat k)); [lia|]. apply Z.pow_le_mono_r; lia. }
    assert (S k <= 9)%nat as Hk'.
    { destruct Hk as (p & Hp & HF & Hr).
      specialize (Hr [] (p ++ [c]) l). rewrite <- app_assoc in Hr. specialize (Hr eq_refl).
      rewrite length_app in Hr. simpl in Hr. assert (Forall (fun c => is_digit c = true) (p ++ [c])) as HF'
        by (apply Forall_app; split; [done|by repeat constructor]). specialize (Hr HF'). lia. }
    assert (48 <= c <= 57) as Hc by (unfold is_digit in E; lia).
    assert (10 ^ Z.of_nat (S k) = 10 * 10 ^ Z.of_nat k) as Hpow
      by (rewrite Nat2Z.inj_succ; apply Z.pow_succ_r; lia).
    assert (10 ^ Z.of_nat (S k) <= 10 ^ 9) by (apply Z.pow_le_mono_r; lia).
    rewrite signed_ok by (change (2 ^ (32 - 1)) with (2 ^ 31); lia). ret.
    rewrite signed_ok by (change (2 ^ (32 - 1)) with (2 ^ 31); lia). ret.
    apply (IH (S k)); [by apply (runs_ok_suffix [c])| |lia|lia].
    destruct Hk as (p & Hp & HF & Hr). exists (p ++ [c]).
    split; [rewrite length_app; simpl; lia|].
    split; [apply Forall_app; split; [done|by repeat constructor]|]. by rewrite <- app_assoc.
Qed.

Lemma rc_atoi_match {A} l (f : list Z -> A) (x : A) :
  match l with 45 :: l' => f l' | _ => x end =
  match l with c :: l' => if c =? 45 then f l' else x | [] => x end.
Proof.
  destruct l as [|c l]; [done|]. destruct (Z.eqb_spec c 45) as [->|Hne]; [done|].
  destruct c as [|c|c]; try done. do 6 (destruct c as [c|c|]; try done).
Qed.

Lemma rc_atoi_spec l : runs_ok l -> returns (rc_atoi l) (fun r => - 10 ^ 9 < r < 10 ^ 9).
Proof.
  intros Hok. assert (forall l, runs_ok l -> returns (rc_atoi_loop 0 l) (fun r => 0 <= r < 10 ^ 9)) as Hl.
  { intros l' Hl'. apply (rc_atoi_loop_spec l' 0); [done| |simpl; lia|lia]. exists []. done. }
  unfold rc_atoi. rewrite rc_atoi_match. destruct l as [|c l].
  { eapply returns_mono; [by apply Hl|]. intros r Hr. cbv beta in *. lia. }
  destruct (c =? 45).
  - eapply returns_bind; [apply Hl; by apply (runs_ok_suffix [c])|]. intros v Hv. cbv beta in Hv.
    rewrite signed_ok by (change (2 ^ (32 - 1)) with (2 ^ 31); lia). ret. lia.
  - eapply returns_mono; [by apply Hl|]. intros r Hr. cbv beta in *. lia.
Qed.

Lemma tree_ok_child s i c : tree_ok s -> sx_children s !! i = Some c -> tree_ok c.
Proof. intros [name line cs Hr Hl HF] Hc. simpl in Hc. by apply (Forall_lookup_1 _ _ _ _ HF Hc). Qed.

Lemma field_val_ok s i v : tree_ok s -> field_val s i = Some v -> runs_ok v.
Proof.
  intros Hs Hv. unfold field_val in Hv. destruct (sx_children s !! i) as [c|] eqn:E; [|done].
  apply (tree_ok_child _ _ _ Hs) in E. destruct (_ =? _)%nat; [|done]. injection Hv as <-.
  by destruct E.
Qed.

Lemma unit_wf_set_type v u : 0 <= v <= 3 -> unit_wf u -> unit_wf (set_type v u).
Proof. intros Hv (H1&H2&H3&H4&H5&H6&H7&H8&H9&H10&H11&H12). destruct u. done. Qed.

Lemma unit_wf_set_exec v w u : Z.of_nat (length v) < RC_EXEC_MAX -> strs_within RC_ARG_MAX RC_ARG_LEN w ->
  unit_wf u -> unit_wf (set_exec v w u).
Proof. intros Hv Hw (H1&H2&H3&H4&H5&H6&H7&H8&H9&H10&H11&H12). destruct u. done. Qed.

Lemma unit_wf_set_other u : unit_wf u ->
  (forall v, unit_wf (set_stdio v u)) /\ (forall v, unit_wf (set_respawn v u)) /\
  (forall v, unit_wf (set_ready_secs v u)) /\ (forall v, unit_wf (set_uid v u)) /\
  (forall v, unit_wf (set_gid v u)).
Proof. intros H. destruct u. split; [|split; [|split; [|split]]]; intros v; exact H. Qed.

Lemma unit_wf_set_lists v u : unit_wf u ->
  (strs_within RC_DEPS_MAX RC_UNIT_NAME_MAX v -> unit_wf (set_deps v u) /\ unit_wf (set_after v u)) /\
  (strs_within RC_ENV_MAX RC_ENV_LEN v -> unit_wf (set_env v u)).
Proof.
  intros (H1&H2&H3&H4&H5&H6&H7&H8&H9&H10&H11&H12). destruct u. split; intros Hv; [split|]; done.
Qed.

Lemma unit_wf_set_strings v u : unit_wf u ->
  (Z.of_nat (length v) < RC_UNIT_NAME_MAX -> unit_wf (set_ready_port v u)) /\
  (Z.of_nat (length v) < RC_PATH_MAX -> unit_wf (set_device v u) /\ unit_wf (set_mountpoint v u)) /\
  (Z.of_nat (length v) < 16 -> unit_wf (set_fstype v u) /\ unit_wf (set_mflags v u)).
Proof.
  intros (H1&H2&H3&H4&H5&H6&H7&H8&H9&H10&H11&H12). destruct u.
  split; [|split]; intros Hv; try split; done.
Qed.

Lemma set_val_wf fd len set u :
  (forall v, Z.of_nat (length v) < len -> unit_wf (set v u)) -> 0 < len -> unit_wf u ->
  unit_wf (set_val fd len set u).
Proof.
  intros Hs Hl Hu. unfold set_val. destruct (field_val fd 1); [|done]. apply Hs. by apply length_strncpy.
Qed.

Lemma field_num_wf fd set u :
  tree_ok fd -> (forall v, unit_wf (set v u)) -> unit_wf u -> returns (field_num fd set u) unit_wf.
Proof.
  intros Ht Hs Hu. unfold field_num. destruct (field_val fd 1) as [v|] eqn:E; [|by ret].
  eapply returns_bind; [by apply rc_atoi_spec, (field_val_ok _ _ _ Ht E)|]. intros n _. ret. apply Hs.
Qed.

Lemma field_ready_wf fd u : tree_ok fd -> unit_wf u -> returns (field_ready fd u) unit_wf.
Proof.
  intros Ht Hu. unfold field_ready. destruct (field_val fd 1) as [k|]; [|by ret].
  destruct (field_val fd 2) as [a|] eqn:E; [|by ret].
  destruct (rc_streq k _); [ret; apply unit_wf_set_strings; [done|by apply length_strncpy]|].
  destruct (rc_streq k _); [|by ret].
  eapply returns_bind; [by apply rc_atoi_spec, (field_val_ok _ _ _ Ht E)|]. intros n _. ret.
  by apply unit_wf_set_other.
Qed.

Lemma unit_field_wf fd u : tree_ok fd -> unit_wf u -> returns (unit_field fd u) unit_wf.
Proof.
  intros Ht Hu. pose proof (unit_wf_set_other u Hu) as (Hio & Hre & _ & Huid & Hgid).
  pose proof Hu as (_ & _ & Hargv & Hdeps & Hafter & Henv & _).
  unfold unit_field. destruct (field_key fd) as [key|]; [|by ret].
  repeat (match goal with |- returns (if ?b then _ else _) _ => destruct b end; [ret|]);
    try (by ret); try (by apply field_num_wf); try (by apply field_ready_wf);
    try (apply set_val_wf; [intros v Hv; by apply (unit_wf_set_strings v u Hu)|done|done]);
    try (apply (unit_wf_set_lists _ u Hu); by apply copy_vals_within).
  - unfold field_type. destruct (field_val fd 1); [|done].
    repeat (match goal with |- unit_wf (if ?b then _ else _) => destruct b end;
      [by apply unit_wf_set_type|]). done.
  - unfold field_exec. destruct (field_val fd 1); [|done].
    apply unit_wf_set_exec; [by apply length_strncpy|by apply copy_vals_within|done].
  - unfold field_stdio. by destruct (field_val fd 1).
  - unfold field_respawn. destruct (field_val fd 1); [|done].
    repeat (match goal with |- unit_wf (if ?b then _ else _) => destruct b end; [done|]). done.
Qed.

Lemma is_empty_false l : is_empty l = false -> l <> [].
Proof. by destruct l. Qed.

Lemma unit_validate_spec u : unit_wf u ->
  match unit_validate u with inl u' => unit_wf u' /\ unit_valid u' | inr _ => True end.
Proof.
  intros Hu. pose proof Hu as (_&_&_&_&_&_&_&_&_&_&_&Ht). unfold unit_validate, unit_valid.
  destruct (Z.eqb_spec (u_type u) 0); [done|].
  destruct (Z.eqb_spec (u_type u) RC_T_SERVICE) as [Es|].
  { destruct (is_empty (u_exec u)) eqn:Ee; [done|]. apply is_empty_false in Ee.
    destruct (Z.eqb_spec (u_respawn u) 0) as [Er|Er].
    - split; [by apply unit_wf_set_other|]. destruct u; simpl in *. right; right. done.
    - split; [done|]. right; right. done. }
  destruct (Z.eqb_spec (u_type u) RC_T_ONESHOT) as [Es|].
  { destruct (is_empty (u_exec u)) eqn:Ee; [done|]. apply is_empty_false in Ee.
    split; [done|]. right; left. done. }
  destruct (Z.eqb_spec (u_type u) RC_T_MOUNT) as [Es|].
  - destruct (is_empty (u_device u)) eqn:E1; [done|]. destruct (is_empty (u_fstype u)) eqn:E2; [done|].
    destruct (is_empty (u_mountpoint u)) eqn:E3; [done|]. apply is_empty_false in E1, E2, E3.
    split; [done|]. left. done.
  - unfold RC_T_SERVICE, RC_T_ONESHOT, RC_T_MOUNT in *. lia.
Qed.

Lemma push_digits_length ds : forall err, (length (push_digits ds err) <= length err + length ds)%nat.
Proof.
  induction ds as [|d ds IH]; intros err; simpl; [lia|].
  destruct (_ <? _); [|lia]. specialize (IH (err ++ [d])). rewrite length_app in IH. simpl in IH. lia.
Qed.

Lemma line_digits_length fuel : forall n, (length (line_digits fuel n) <= fuel)%nat.
Proof.
  induction fuel as [|fuel IH]; intros n; simpl; [lia|]. destruct (_ =? _); simpl; [lia|].
  specialize (IH (n / 10)). lia.
Qed.

(** Message and terminator fit [rc_err]. *)
Lemma rc_set_err_length src line msg : Z.of_nat (length (rc_set_err src line msg)) < RC_ERR_MAX.
Proof.
  unfold rc_set_err. set (err := match src with [] => [] | _ => _ end). set (ln := if line <? 0 then 0 else line).
  cbv zeta. assert (length err <= 96)%nat as He.
  { subst err. destruct src; [simpl; lia|]. rewrite length_app, length_take. cbn [length]. lia. }
  pose proof (push_digits_length (rev (line_digits 12 ln)) err) as Hp.
  pose proof (line_digits_length 12 ln). rewrite length_rev in Hp.
  rewrite length_app, length_take. rewrite length_app. cbn [length]. unfold RC_ERR_MAX. lia.
Qed.

(** What every call leaves behind: the units and the message. *)
Definition parsed_ok (max : Z) (r : list rc_unit * list Z) : Prop :=
  Z.of_nat (length r.1) <= max /\ Forall (fun u => unit_wf u /\ unit_valid u) r.1 /\
  Z.of_nat (length r.2) < RC_ERR_MAX.

Lemma unit_parse_spec node src err :
  tree_ok node -> Z.of_nat (length err) < RC_ERR_MAX ->
  returns (unit_parse node src err) (fun r =>
    match r.1 with Some u => unit_wf u /\ unit_valid u | None => True end /\
    Z.of_nat (length r.2) < RC_ERR_MAX).
Proof.
  intros Ht He. unfold unit_parse. destruct (field_val node 0) as [w|]; [|by ret].
  destruct (field_val node 1) as [name|]; [|by ret]. destruct (negb _ || _); [by ret|].
  eapply returns_bind.
  - apply (fold_out_inv (fun _ => unit_wf)).
    + repeat split; try done. by apply length_strncpy.
    + intros l1 c l2 u Hl Hu. apply unit_field_wf; [|done]. destruct node as [nm ln cs]. simpl in Hl.
      inversion Ht as [? ? ? _ _ HF]; subst. apply (Forall_drop _ 2) in HF. rewrite Hl in HF.
      by apply Forall_app in HF as [_ [Hc _]%Forall_cons].
  - intros u Hu. cbv beta in Hu. pose proof (unit_validate_spec u Hu).
    destruct (unit_validate u); ret; [done|]. split; [done|]. apply rc_set_err_length.
Qed.

Lemma parse_top_spec fuel : forall max src units err lx npool,
  (length (lx_rest lx) < fuel)%nat -> runs_ok (lx_rest lx) -> npool <= RC_POOL_MAX ->
  parsed_ok max (units, err) ->
  returns (parse_top fuel max src units err lx npool) (parsed_ok max).
Proof.
  induction fuel as [|fuel IH]; intros max src units err lx npool Hf Hok Hn Hp; [lia|].
  cbn [parse_top]. eapply returns_bind; [apply lexer_next_spec|]. intros [t lx1] [[p Hp1] Ht].
  assert (runs_ok (lx_rest lx1)) as Hok1 by (rewrite Hp1 in Hok; by eapply runs_ok_suffix).
  pose proof Hp as (Hl & HF & He). simpl in Hl, HF, He.
  destruct t as [| | |tok].
  - by ret.
  - eapply returns_bind; [by apply rc_parse_list_spec|].
    intros [[node lx2] np2] ([q Hq] & Hn2 & Hnode). destruct node as [node|].
    2:{ ret. split; [done|]. split; [done|]. apply rc_set_err_length. }
    pose proof (suffix_len _ _ _ Hq). rewrite Hq in Hok1. apply runs_ok_suffix in Hok1.
    destruct (Z.ltb_spec (Z.of_nat (length units)) max); [|apply IH; [lia|done|lia|done]].
    eapply returns_bind; [by apply unit_parse_spec|]. intros [u err'] [Hu He']. simpl in Hu, He'.
    apply IH; [lia|done|lia|]. split; [|split; [|done]]; simpl.
    + rewrite length_app. destruct u; simpl; lia.
    + apply Forall_app. split; [done|]. destruct u; [by constructor|constructor].
  - apply IH; [lia|done|lia|]. split; [done|]. split; [done|]. apply rc_set_err_length.
  - destruct Ht as [Hlt _]. apply IH; [lia|done|lia|done].
Qed.

(** C39: The parser returns on every file without a number of ten or more
    digits, whether it comes to the end of the file or stops at a list that is
    not closed or for which the node pool is too small.  It gives no more than
    [max] units; in each of them every string fits its array with the terminator, every list its array,
    and the unit has what its type needs (a service or one-shot unit a program,
    a mount unit device, type and mount point); and the last error message
    fits its buffer. *)
Theorem rc_parse_total buf max src : runs_ok buf -> 0 <= max ->
  returns (rc_parse_buf buf max src) (parsed_ok max).
Proof.
  intros Hok Hm. apply parse_top_spec; [simpl; lia|done|done|]. split; [done|]. split; [constructor|done].
Qed.

(** A test for [runs_ok]. *)
Fixpoint runs_le (k : nat) l : bool :=
  match l with
  | [] => true
  | c :: l => if is_digit c then match k with O => false | S k => runs_le k l end else runs_le 9 l
  end.

Lemma runs_le_head l : forall k, runs_le k l = true ->
  forall l2 l3, l = l2 ++ l3 -> Forall (fun c => is_digit c = true) l2 -> (length l2 <= k)%nat.
Proof.
  induction l as [|c l IH]; intros k Hk l2 l3 Hl HF.
  - destruct l2; simpl; [lia|done].
  - destruct l2 as [|d l2]; simpl; [lia|]. injection Hl as <- Hl. apply Forall_cons in HF as [Hc HF].
    simpl in Hk. rewrite Hc in Hk. destruct k; [done|]. pose proof (IH _ Hk l2 l3 Hl HF). lia.
Qed.

Lemma runs_le_ok l : forall k, (k <= 9)%nat -> runs_le k l = true -> runs_ok l.
Proof.
  induction l as [|c l IH]; intros k Hk9 Hk; [apply runs_ok_nil|].
  intros l1 l2 l3 Hl HF. destruct l1 as [|d l1].
  - pose proof (runs_le_head _ _ Hk l2 l3 Hl HF). lia.
  - injection Hl as <- Hl. simpl in Hk. destruct (is_digit c).
    + destruct k; [done|]. by apply (IH k ltac:(lia) Hk l1 l2 l3 Hl).
    + by apply (IH 9%nat ltac:(lia) Hk l1 l2 l3 Hl).
Qed.

Definition getty_file : list Z :=
  zs "; console" ++ [10] ++ zs "(unit getty (type service) (exec /bin/getty tty0) (uid 0))".

Definition getty_unit : rc_unit :=
  Unit (zs "getty") 2 RC_T_SERVICE (zs "/bin/getty") [zs "tty0"] RC_IO_CONSOLE RC_R_ON_FAILURE
    [] [] 0 [] 0 [] 0 0 [] [] [] [].

Lemma rc_parse_total_witness :
  parsed_ok 8 ([getty_unit], []).
Proof.
  assert (rc_parse_buf getty_file 8 [] = Ret ([getty_unit], [])) as E by (vm_compute; reflexivity).
  pose proof (rc_parse_total getty_file 8 []
    (runs_le_ok getty_file 9 ltac:(lia) ltac:(vm_compute; reflexivity)) ltac:(lia)) as H.
  rewrite E in H. exact H.
Defined.

(** ** What is printed is read back *)

Section sexp_induction.
Variable P : sexp -> Prop.
Hypothesis Pstep : forall name line cs, Forall P cs -> P (Sexp name line cs).

Fixpoint sexp_nested_ind (s : sexp) : P s :=
  match s with
  | Sexp name line cs => Pstep name line cs
      ((fix go cs : Forall P cs :=
          match cs with [] => Forall_nil_2 _ | c :: cs => Forall_cons_2 _ _ _ (sexp_nested_ind c) (go cs) end) cs)
  end.
End sexp_induction.

(** Lists as lists, atoms as their name; items are separated by a space. *)
Fixpoint print_sexp (s : sexp) : list Z :=
  match s with
  | Sexp [] _ cs => 40 :: flat_map (fun c => 32 :: print_sexp c) cs ++ [41]
  | Sexp name _ _ => name
  end.

Definition print_items (cs : list sexp) : list Z := flat_map (fun c => 32 :: print_sexp c) cs.

(** Pool nodes. *)
Fixpoint nodes (s : sexp) : Z := match s with Sexp _ _ cs => 1 + foldr (fun c n => nodes c + n) 0 cs end.

Definition nodes_list (cs : list sexp) : Z := foldr (fun c n => nodes c + n) 0 cs.

Definition atom_ok l : Prop :=
  l <> [] /\ (length l <= 63)%nat /\ Forall (fun c => ends_atom c = false /\ c <> 0) l.

(** A tree as the parser builds it on one line. *)
Inductive sexp_wf (ln : Z) : sexp -> Prop :=
| WfAtom name : atom_ok name -> sexp_wf ln (Sexp name ln [])
| WfList cs : (length cs <= 16)%nat -> Forall (sexp_wf ln) cs -> sexp_wf ln (Sexp [] ln cs).

Lemma nodes_pos s : 1 <= nodes s.
Proof.
  induction s as [name line cs IH] using sexp_nested_ind. simpl.
  assert (0 <= nodes_list cs); [|unfold nodes_list in *; lia].
  induction IH; simpl; [lia|]. unfold nodes_list in *. lia.
Qed.

Lemma nodes_list_nonneg cs : 0 <= nodes_list cs.
Proof. induction cs as [|c cs IH]; simpl; [lia|]. pose proof (nodes_pos c). unfold nodes_list in *. lia. Qed.

(** What may follow an atom. *)
Definition stops l : Prop := match l with c :: _ => ends_atom c = true | [] => True end.

Lemma take_atom_app tok l k :
  Forall (fun c => ends_atom c = false /\ c <> 0) tok -> stops l -> (length tok < k \/ length tok = k)%nat ->
  take_atom k (tok ++ l) = (tok, l).
Proof.
  intros HF Hs. revert k. induction HF as [|c tok [Hc _] HF IH]; intros k Hk; simpl in *.
  - destruct k, l as [|d l]; try done. simpl in *. by rewrite Hs.
  - destruct k; [lia|]. simpl. rewrite Hc, IH by lia. done.
Qed.

Lemma ends_atom_space c : ends_atom c = false -> is_space c = false /\ c <> 40 /\ c <> 41 /\ c <> 59.
Proof. unfold ends_atom, is_space. intros H. repeat split; lia. Qed.

Lemma lexer_skip_token fuel sp c l ln :
  (sp = [] \/ sp = [32]) -> is_space c = false -> c <> 59 ->
  lexer_skip (S fuel) (Lexer (sp ++ c :: l) ln) = Ret (Lexer (c :: l) ln).
Proof.
  intros Hsp Hc H59. cbn [lexer_skip lx_rest lx_line]. rewrite lexer_skip_match.
  assert (skip_space (sp ++ c :: l) ln = Lexer (c :: l) ln) as ->
    by (destruct Hsp as [-> | ->]; simpl; by rewrite Hc).
  simpl. by rewrite (proj2 (Z.eqb_neq c 59) H59).
Qed.

Lemma lexer_next_atom sp tok l ln : (sp = [] \/ sp = [32]) -> atom_ok tok -> stops l ->
  lexer_next (Lexer (sp ++ tok ++ l) ln) = Ret (TAtom tok, Lexer l ln).
Proof.
  intros Hsp (Hne & Hlen & HF) Hs. destruct tok as [|c tok]; [done|].
  pose proof HF as [[Hc _] _]%Forall_cons. apply ends_atom_space in Hc as (Hc & H40 & H41 & H59).
  unfold lexer_next. cbn [app]. rewrite lexer_skip_token by done. ret. cbn [lx_rest lx_line].
  rewrite (lexer_next_match c (tok ++ l) (fun l => Ret (TOpen, Lexer l ln)) (fun l => Ret (TClose, Lexer l ln))).
  rewrite (proj2 (Z.eqb_neq c 40) H40), (proj2 (Z.eqb_neq c 41) H41).
  change (c :: tok ++ l) with ((c :: tok) ++ l). change (Z.to_nat (RC_TOK_MAX - 1)) with 63%nat.
  rewrite take_atom_app; [done|done|done|lia].
Qed.

Lemma lexer_next_open sp l ln : (sp = [] \/ sp = [32]) ->
  lexer_next (Lexer (sp ++ 40 :: l) ln) = Ret (TOpen, Lexer l ln).
Proof. intros Hsp. unfold lexer_next. by rewrite lexer_skip_token. Qed.

Lemma lexer_next_close l ln : lexer_next (Lexer (41 :: l) ln) = Ret (TClose, Lexer l ln).
Proof. unfold lexer_next. change (41 :: l) with ([] ++ 41 :: l). rewrite lexer_skip_token by auto. done. Qed.

Lemma lexer_next_eof ln : lexer_next (Lexer [] ln) = Ret (TEof, Lexer [] ln).
Proof. done. Qed.

Lemma strncpy_atom l max :
  Forall (fun c => ends_atom c = false /\ c <> 0) l -> Z.of_nat (length l) < max -> rc_strncpy l max = l.
Proof.
  intros HF Hl. unfold rc_strncpy. assert (until_nul l = l) as ->.
  { clear Hl. induction HF as [|c l [_ Hc] HF IH]; [done|]. simpl.
    rewrite (proj2 (Z.eqb_neq c 0) Hc). by f_equal. }
  apply take_ge. lia.
Qed.

Definition bytes_list (cs : list sexp) : nat := foldr (fun c n => length (print_sexp c) + n)%nat 0%nat cs.

Lemma print_items_length cs : length (print_items cs) = (length cs + bytes_list cs)%nat.
Proof.
  induction cs as [|c cs IH]; [done|]. change (print_items (c :: cs)) with ((32 :: print_sexp c) ++ print_items cs).
  rewrite length_app, IH. simpl. lia.
Qed.

Lemma print_items_stops cs l : stops l -> stops (print_items cs ++ l).
Proof. by destruct cs. Qed.

(** One item takes one turn of the loop. *)
Definition reads_item (ln : Z) (s : sexp) : Prop := forall f line acc rest n,
  sexp_wf ln s -> (length (print_sexp s) < f)%nat -> (length acc < 16)%nat -> n + nodes s <= RC_POOL_MAX ->
  stops rest ->
  parse_items (S f) line acc (Lexer (32 :: print_sexp s ++ rest) ln) n =
  parse_items f line (s :: acc) (Lexer rest ln) (n + nodes s).

Lemma parse_items_app ln cs : Forall (reads_item ln) cs -> forall f line acc rest n,
  Forall (sexp_wf ln) cs -> (bytes_list cs < f)%nat -> (length acc + length cs <= 16)%nat ->
  n + nodes_list cs <= RC_POOL_MAX -> stops rest ->
  parse_items (length cs + f) line acc (Lexer (print_items cs ++ rest) ln) n =
  parse_items f line (rev cs ++ acc) (Lexer rest ln) (n + nodes_list cs).
Proof.
  induction 1 as [|c cs Hc HF IH]; intros f line acc rest n Hwf Hb Hl Hn Hs.
  - simpl. f_equal. unfold nodes_list. simpl. lia.
  - apply Forall_cons in Hwf as [Hwc Hwf]. simpl in Hb, Hl.
    change (nodes_list (c :: cs)) with (nodes c + nodes_list cs) in *.
    pose proof (nodes_list_nonneg cs).
    change (print_items (c :: cs)) with ((32 :: print_sexp c) ++ print_items cs).
    rewrite <- app_assoc. cbn [app length Nat.add].
    rewrite Hc; [|done|lia|lia|lia|by apply print_items_stops].
    rewrite IH; [|done|lia|simpl; lia|lia|done]. simpl. rewrite <- app_assoc. simpl. f_equal. lia.
Qed.

Lemma parse_items_close fuel line acc rest ln n :
  parse_items (S fuel) line acc (Lexer (41 :: rest) ln) n =
  Ret (Some (Sexp [] line (rev acc)), Lexer rest ln, n).
Proof. cbn [parse_items]. by rewrite lexer_next_close. Qed.

(** A list from behind its opening parenthesis. *)
Lemma parse_items_list ln cs fuel rest n : Forall (reads_item ln) cs -> Forall (sexp_wf ln) cs ->
  (length (print_sexp (Sexp [] ln cs)) <= fuel)%nat -> (length cs <= 16)%nat ->
  n + nodes_list cs <= RC_POOL_MAX ->
  parse_items fuel ln [] (Lexer (print_items cs ++ 41 :: rest) ln) n =
  Ret (Some (Sexp [] ln cs), Lexer rest ln, n + nodes_list cs).
Proof.
  intros HF Hwf Hf Hl Hn. simpl in Hf. rewrite length_app in Hf.
  change (flat_map _ cs) with (print_items cs) in Hf. rewrite print_items_length in Hf. simpl in Hf.
  replace fuel with (length cs + S (fuel - length cs - 1))%nat by lia.
  rewrite parse_items_app; [|done|done|lia|simpl; lia|done|done].
  rewrite parse_items_close. by rewrite app_nil_r, rev_involutive.
Qed.

Lemma reads_item_all ln s : reads_item ln s.
Proof.
  induction s as [name line0 cs IH] using sexp_nested_ind. intros f line acc rest n Hwf Hf Hl Hn Hs.
  cbn [parse_items]. inversion Hwf as [nm Hat|cs' Hlen HF]; subst.
  - simpl in Hn. destruct name as [|c tok] eqn:E; [by destruct Hat|]. rewrite <- E in *.
    assert (print_sexp (Sexp name line0 []) = name) as Hp by (rewrite E; done). rewrite Hp.
    change (32 :: name ++ rest) with ([32] ++ name ++ rest).
    rewrite lexer_next_atom; [|auto|done|done]. ret. unfold RC_CHILD_MAX. zcmp.
    cbn [lx_line]. rewrite strncpy_atom; [done|apply Hat|]. destruct Hat as (_ & Hl63 & _).
    unfold RC_TOK_MAX. lia.
  - cbn [print_sexp]. change (flat_map _ cs) with (print_items cs).
    replace (32 :: (40 :: print_items cs ++ [41]) ++ rest)
      with ([32] ++ 40 :: print_items cs ++ 41 :: rest) by (simpl; by rewrite <- app_assoc).
    rewrite lexer_next_open by auto. ret.
    change (nodes (Sexp [] line0 cs)) with (1 + nodes_list cs) in *. pose proof (nodes_list_nonneg cs).
    unfold RC_CHILD_MAX. zcmp. cbn [lx_line].
    rewrite parse_items_list; [|done|done|lia|done|lia]. ret. f_equal. lia.
Qed.

Lemma rc_parse_list_print ln cs rest n : sexp_wf ln (Sexp [] ln cs) -> n + nodes (Sexp [] ln cs) <= RC_POOL_MAX ->
  rc_parse_list (Lexer (print_items cs ++ 41 :: rest) ln) n =
  Ret (Some (Sexp [] ln cs), Lexer rest ln, n + nodes (Sexp [] ln cs)).
Proof.
  intros Hwf Hn. change (nodes (Sexp [] ln cs)) with (1 + nodes_list cs) in *.
  pose proof (nodes_list_nonneg cs). unfold rc_parse_list. zcmp. cbn [lx_rest lx_line].
  inversion Hwf as [nm Hat|cs' Hlen HF]; subst; [by destruct Hat|].
  rewrite parse_items_list; [by replace (n + 1 + nodes_list cs) with (n + (1 + nodes_list cs)) by lia| |done| |done|lia].
  - apply Forall_true. intros s. apply reads_item_all.
  - simpl. change (flat_map _ cs) with (print_items cs). rewrite !length_app. simpl. lia.
Qed.

(** *** Units as lists *)

Definition atom (v : list Z) : sexp := Sexp v 1 [].
Definition fld (key : list Z) (vs : list (list Z)) : sexp := Sexp [] 1 (atom key :: map atom vs).

(** A field that is left out when its value is empty. *)
Definition opt_fld (key v : list Z) (vs : list (list Z)) : list sexp :=
  match v with [] => [] | _ => [fld key (v :: vs)] end.

Definition type_name (t : Z) : list Z :=
  if t =? RC_T_MOUNT then zs "mount" else if t =? RC_T_ONESHOT then zs "oneshot" else zs "service".
Definition respawn_name (r : Z) : list Z :=
  if r =? RC_R_NEVER then zs "never" else if r =? RC_R_ALWAYS then zs "always" else zs "on-failure".
Definition stdio_name (s : Z) : list Z := if s =? RC_IO_SILENT then zs "silent" else zs "console".

Definition ready_fld (u : rc_unit) : list sexp :=
  if u_ready_kind u =? RC_READY_PORT then [fld (zs "ready") [zs "port"; u_ready_port u]]
  else if u_ready_kind u =? RC_READY_SLEEP then [fld (zs "ready") [zs "sleep"; print_num 10 (u_ready_secs u)]]
  else [].

Definition unit_flds (u : rc_unit) : list sexp :=
  [fld (zs "type") [type_name (u_type u)]] ++ opt_fld (zs "exec") (u_exec u) (u_argv u) ++
  [fld (zs "stdio") [stdio_name (u_stdio u)]; fld (zs "respawn") [respawn_name (u_respawn u)];
   fld (zs "deps") (u_deps u); fld (zs "after") (u_after u)] ++ ready_fld u ++
  [fld (zs "env") (u_env u); fld (zs "uid") [print_num 10 (u_uid u)]; fld (zs "gid") [print_num 10 (u_gid u)]] ++
  opt_fld (zs "device") (u_device u) [] ++ opt_fld (zs "fstype") (u_fstype u) [] ++
  opt_fld (zs "mountpoint") (u_mountpoint u) [] ++ opt_fld (zs "flags") (u_mflags u) [].

Definition unit_sexp (u : rc_unit) : sexp :=
  Sexp [] 1 (atom (zs "unit") :: atom (u_name u) :: unit_flds u).

(** What can be written in a file. *)
Definition printable l : Prop := Forall (fun c => ends_atom c = false /\ c <> 0) l.
Definition vals_ok (vs : list (list Z)) : Prop := Forall (fun v => v <> [] /\ printable v) vs.

Definition unit_printable (u : rc_unit) : Prop :=
  u_line u = 1 /\ u_name u <> [] /\ printable (u_name u) /\
  printable (u_exec u) /\ (u_exec u = [] -> u_argv u = []) /\
  vals_ok (u_argv u) /\ vals_ok (u_deps u) /\ NoDup (u_deps u) /\ vals_ok (u_after u) /\ vals_ok (u_env u) /\
  (u_stdio u = RC_IO_CONSOLE \/ u_stdio u = RC_IO_SILENT) /\
  (u_respawn u = RC_R_NEVER \/ u_respawn u = RC_R_ON_FAILURE \/ u_respawn u = RC_R_ALWAYS) /\
  (u_ready_kind u = 0 /\ u_ready_port u = [] /\ u_ready_secs u = 0 \/
   u_ready_kind u = RC_READY_PORT /\ u_ready_port u <> [] /\ printable (u_ready_port u) /\ u_ready_secs u = 0 \/
   u_ready_kind u = RC_READY_SLEEP /\ u_ready_port u = [] /\ 0 <= u_ready_secs u < 2 ^ 31) /\
  0 <= u_uid u < 2 ^ 31 /\ 0 <= u_gid u < 2 ^ 31 /\
  printable (u_device u) /\ printable (u_fstype u) /\ printable (u_mountpoint u) /\ printable (u_mflags u).

Lemma rc_strcmp_eq a : forall b, rc_strcmp a b = 0 -> Forall (fun c => c <> 0) a -> Forall (fun c => c <> 0) b -> a = b.
Proof.
  induction a as [|c a IH]; intros [|d b] H Ha Hb; try done.
  - apply Forall_cons in Hb as [Hd _]. simpl in H. lia.
  - apply Forall_cons in Ha as [Hc _]. simpl in H. lia.
  - apply Forall_cons in Ha as [Hc Ha]. apply Forall_cons in Hb as [Hd Hb]. simpl in H.
    destruct (Z.eqb_spec c d) as [->|]; [f_equal; by apply IH|lia].
Qed.

Lemma printable_nonzero l : printable l -> Forall (fun c => c <> 0) l.
Proof. intros H. apply (Forall_impl _ _ _ H). naive_solver. Qed.

Lemma copy_vals_atoms vs : forall dst max len dup,
  vals_ok vs -> Forall (fun v => Z.of_nat (length v) < len) vs ->
  Z.of_nat (length dst + length vs) <= max ->
  (dup = true -> Forall (fun v => Forall (fun c => c <> 0) v) dst /\ NoDup (dst ++ vs)) ->
  copy_vals (map atom vs) dst max len dup = dst ++ vs.
Proof.
  induction vs as [|v vs IH]; intros dst max len dup Hok Hlen Hmax Hdup; simpl; [by rewrite app_nil_r|].
  apply Forall_cons in Hok as [[Hne Hpr] Hok]. apply Forall_cons in Hlen as [Hl Hlen]. simpl in Hmax.
  zcmp. assert (dup && unit_has_dep dst v = false) as ->.
  { destruct dup; [|done]. destruct (Hdup eq_refl) as [Hnz Hnd]. unfold unit_has_dep. simpl.
    apply not_true_is_false. intros (d & Hd & Heq)%existsb_exists.
    apply Z.eqb_eq in Heq. apply list_elem_of_In in Hd.
    apply rc_strcmp_eq in Heq; [|by apply (proj1 (Forall_forall _ _) Hnz)|by apply printable_nonzero].
    subst d. apply NoDup_app in Hnd as (_ & Hdis & _). apply (Hdis v Hd). by left. }
  simpl. rewrite strncpy_atom by done. rewrite IH; [by rewrite <- app_assoc|done|done| |].
  - rewrite length_app. simpl. lia.
  - intros Hd. destruct (Hdup Hd) as [Hnz Hnd]. split; [|by rewrite <- app_assoc].
    apply Forall_app. split; [done|]. constructor; [by apply printable_nonzero|constructor].
Qed.

Lemma rc_atoi_loop_value ds : Forall (fun d => 0 <= d < 10) ds -> forall v,
  0 <= v -> value 10 v ds < 2 ^ 31 -> rc_atoi_loop v (digit_char <$> ds) = Ret (value 10 v ds).
Proof.
  induction 1 as [|d ds Hd HF IH]; intros v Hv Hlt; [done|]. cbn [fmap list_fmap rc_atoi_loop].
  assert (digit_char d = 48 + d) as -> by (unfold digit_char; zcmp; done).
  unfold is_digit. zcmp. replace (48 + d - 48) with d by lia.
  cbn [value foldl] in Hlt |- *. pose proof (value_ge 10 ds ltac:(lia) HF (v * 10 + d) ltac:(lia)) as Hge.
  unfold value in *. rewrite signed_ok by (change (2 ^ (32 - 1)) with (2 ^ 31); lia). ret.
  rewrite signed_ok by (change (2 ^ (32 - 1)) with (2 ^ 31); lia). ret.
  apply IH; [lia|done].
Qed.

Lemma digits_length b fuel : 2 <= b -> forall k n,
  0 <= n < 2 ^ Z.of_nat k -> (0 < k)%nat -> (length (digits fuel b n) <= k)%nat.
Proof.
  intros Hb. induction fuel as [|fuel IH]; intros k n Hn Hk; cbn [digits length]; [lia|].
  destruct (Z.ltb_spec n b); [simpl; lia|]. rewrite length_app. cbn [length].
  destruct k as [|k]; [lia|]. rewrite Nat2Z.inj_succ, Z.pow_succ_r in Hn by lia.
  destruct k as [|k]; [simpl in Hn; lia|].
  assert (n / b < 2 ^ Z.of_nat (S k)) by (apply Z.div_lt_upper_bound; nia).
  pose proof (IH (S k) (n / b) ltac:(split; [apply Z.div_pos; lia|done]) ltac:(lia)). lia.
Qed.

Lemma print_num_digits n : 0 <= n < 2 ^ 31 -> exists d ds,
  print_num 10 n = digit_char <$> (d :: ds) /\ Forall (fun d => 0 <= d < 10) (d :: ds) /\
  value 10 0 (d :: ds) = n /\ (length (d :: ds) <= 31)%nat.
Proof.
  intros Hn. unfold print_num. zcmp. pose proof (digits_length 10 64 ltac:(lia) 31 n Hn ltac:(lia)).
  destruct (digits_spec 10 ltac:(lia) 64 n ltac:(lia) ltac:(lia)) as (Hv & HF & d & ds & Hds & _).
  exists d, ds. rewrite Hds in *. done.
Qed.

Lemma rc_atoi_print n : 0 <= n < 2 ^ 31 -> rc_atoi (print_num 10 n) = Ret n.
Proof.
  intros Hn. destruct (print_num_digits n Hn) as (d & ds & -> & HF & Hv & _). unfold rc_atoi.
  rewrite rc_atoi_match. cbn [fmap list_fmap]. pose proof HF as [Hd _]%Forall_cons.
  assert (digit_char d = 48 + d) as Hdc by (unfold digit_char; zcmp; done).
  rewrite Hdc at 1. zcmp. rewrite (rc_atoi_loop_value (d :: ds)) by (done || lia). by rewrite Hv.
Qed.

(** *** Reading each field *)

Lemma field_type_print u t : unit_field (fld (zs "type") [type_name t]) u = Ret (set_type
  (if t =? RC_T_MOUNT then RC_T_MOUNT else if t =? RC_T_ONESHOT then RC_T_ONESHOT else RC_T_SERVICE) u).
Proof. unfold type_name. by destruct (t =? RC_T_MOUNT), (t =? RC_T_ONESHOT). Qed.

Lemma field_exec_print u v vs : unit_field (fld (zs "exec") (v :: vs)) u = Ret (set_exec (rc_strncpy v RC_EXEC_MAX)
  (copy_vals (map atom vs) (u_argv u) RC_ARG_MAX RC_ARG_LEN false) u).
Proof. done. Qed.

Lemma field_stdio_print u s : unit_field (fld (zs "stdio") [stdio_name s]) u =
  Ret (set_stdio (if s =? RC_IO_SILENT then RC_IO_SILENT else RC_IO_CONSOLE) u).
Proof. unfold stdio_name. by destruct (s =? RC_IO_SILENT). Qed.

Lemma field_respawn_print u r : unit_field (fld (zs "respawn") [respawn_name r]) u = Ret (set_respawn
  (if r =? RC_R_NEVER then RC_R_NEVER else if r =? RC_R_ALWAYS then RC_R_ALWAYS else RC_R_ON_FAILURE) u).
Proof. unfold respawn_name. by destruct (r =? RC_R_NEVER), (r =? RC_R_ALWAYS). Qed.

Lemma field_lists_print u vs :
  unit_field (fld (zs "deps") vs) u =
    Ret (set_deps (copy_vals (map atom vs) (u_deps u) RC_DEPS_MAX RC_UNIT_NAME_MAX true) u) /\
  unit_field (fld (zs "after") vs) u =
    Ret (set_after (copy_vals (map atom vs) (u_after u) RC_DEPS_MAX RC_UNIT_NAME_MAX false) u) /\
  unit_field (fld (zs "env") vs) u =
    Ret (set_env (copy_vals (map atom vs) (u_env u) RC_ENV_MAX RC_ENV_LEN false) u).
Proof. done. Qed.

Lemma field_nums_print u n : 0 <= n < 2 ^ 31 ->
  unit_field (fld (zs "uid") [print_num 10 n]) u = Ret (set_uid n u) /\
  unit_field (fld (zs "gid") [print_num 10 n]) u = Ret (set_gid n u) /\
  unit_field (fld (zs "ready") [zs "sleep"; print_num 10 n]) u = Ret (set_ready_secs n u).
Proof.
  intros Hn. split; [|split].
  - change (field_num (fld (zs "uid") [print_num 10 n]) set_uid u = Ret (set_uid n u)).
    unfold field_num. cbn [field_val fld sx_children]. simpl. by rewrite rc_atoi_print.
  - change (field_num (fld (zs "gid") [print_num 10 n]) set_gid u = Ret (set_gid n u)).
    unfold field_num. simpl. by rewrite rc_atoi_print.
  - change (mbind (M := out) (fun v => Ret (set_ready_secs v u)) (rc_atoi (print_num 10 n)) = Ret (set_ready_secs n u)).
    by rewrite rc_atoi_print.
Qed.

Lemma field_strings_print u v :
  unit_field (fld (zs "ready") [zs "port"; v]) u = Ret (set_ready_port (rc_strncpy v RC_UNIT_NAME_MAX) u) /\
  unit_field (fld (zs "device") [v]) u = Ret (set_device (rc_strncpy v RC_PATH_MAX) u) /\
  unit_field (fld (zs "fstype") [v]) u = Ret (set_fstype (rc_strncpy v 16) u) /\
  unit_field (fld (zs "mountpoint") [v]) u = Ret (set_mountpoint (rc_strncpy v RC_PATH_MAX) u) /\
  unit_field (fld (zs "flags") [v]) u = Ret (set_mflags (rc_strncpy v 16) u).
Proof. done. Qed.

(** The unit a printed field list leads to, step by step. *)
Lemma fold_fld x rest u u' : unit_field x u = Ret u' ->
  fold_out unit_field (x :: rest) u = fold_out unit_field rest u'.
Proof. intros H. cbn [fold_out]. by rewrite H. Qed.

Lemma fold_opt_fld key v vs rest u u' :
  (v <> [] -> unit_field (fld key (v :: vs)) u = Ret u') -> (v = [] -> u = u') ->
  fold_out unit_field (opt_fld key v vs ++ rest) u = fold_out unit_field rest u'.
Proof. intros H1 H2. destruct v; [by rewrite H2|]. apply fold_fld. by apply H1. Qed.

Lemma vals_copy vs max len : vals_ok vs -> strs_within max len vs ->
  copy_vals (map atom vs) [] max len false = vs /\ (NoDup vs -> copy_vals (map atom vs) [] max len true = vs).
Proof.
  intros Hok [Hn Hl]. split; [|intros Hnd]; by rewrite copy_vals_atoms.
Qed.

(** The program and the lists before the [ready] field. *)
Lemma fold_flds_run n t e a s r d f rest :
  1 <= t <= 3 -> (s = RC_IO_CONSOLE \/ s = RC_IO_SILENT) ->
  (r = RC_R_NEVER \/ r = RC_R_ON_FAILURE \/ r = RC_R_ALWAYS) ->
  printable e -> Z.of_nat (length e) < RC_EXEC_MAX -> (e = [] -> a = []) ->
  vals_ok a -> strs_within RC_ARG_MAX RC_ARG_LEN a ->
  vals_ok d -> NoDup d -> strs_within RC_DEPS_MAX RC_UNIT_NAME_MAX d ->
  vals_ok f -> strs_within RC_DEPS_MAX RC_UNIT_NAME_MAX f ->
  fold_out unit_field ([fld (zs "type") [type_name t]] ++ opt_fld (zs "exec") e a ++
    [fld (zs "stdio") [stdio_name s]; fld (zs "respawn") [respawn_name r];
     fld (zs "deps") d; fld (zs "after") f] ++ rest) (zero_unit n 1) =
  fold_out unit_field rest (Unit n 1 t e a s r d f 0 [] 0 [] 0 0 [] [] [] []).
Proof.
  intros Ht Hs Hr Pe He Pa0 Pa Ha Pd Nd Hd Pf Hf. unfold zero_unit.
  cbn [app]. rewrite (fold_fld _ _ _ _ (field_type_print _ _)).
  replace (if t =? RC_T_MOUNT then _ else _) with t
    by (unfold RC_T_MOUNT, RC_T_ONESHOT, RC_T_SERVICE; destruct (Z.eqb_spec t 1), (Z.eqb_spec t 2); lia).
  cbn [set_type]. rewrite (fold_opt_fld _ _ _ _ _ (Unit n 1 t e a RC_IO_CONSOLE 0 [] [] 0 [] 0 [] 0 0 [] [] [] [])).
  2:{ intros _. rewrite field_exec_print. cbn [set_exec u_argv]. rewrite strncpy_atom by done.
      by rewrite (proj1 (vals_copy _ _ _ Pa Ha)). }
  2:{ intros Hn. rewrite Hn, (Pa0 Hn). done. }
  cbn [app]. rewrite (fold_fld _ _ _ _ (field_stdio_print _ _)). cbn [set_stdio].
  replace (if s =? RC_IO_SILENT then _ else _) with s by (destruct Hs as [-> | ->]; done).
  rewrite (fold_fld _ _ _ _ (field_respawn_print _ _)). cbn [set_respawn].
  replace (if r =? RC_R_NEVER then _ else _) with r by (destruct Hr as [-> |[-> | ->]]; done).
  rewrite (fold_fld _ _ _ _ (proj1 (field_lists_print _ _))). cbn [set_deps u_deps].
  rewrite (proj2 (vals_copy _ _ _ Pd Hd) Nd).
  rewrite (fold_fld _ _ _ _ (proj1 (proj2 (field_lists_print _ _)))). cbn [set_after u_after].
  by rewrite (proj1 (vals_copy _ _ _ Pf Hf)).
Qed.

(** What a mount unit names. *)
Lemma fold_flds_mount n t e a s r d f k p c v i g x y z m :
  printable x -> printable y -> printable z -> printable m ->
  Z.of_nat (length x) < RC_PATH_MAX -> Z.of_nat (length y) < 16 ->
  Z.of_nat (length z) < RC_PATH_MAX -> Z.of_nat (length m) < 16 ->
  fold_out unit_field (opt_fld (zs "device") x [] ++ opt_fld (zs "fstype") y [] ++
    opt_fld (zs "mountpoint") z [] ++ opt_fld (zs "flags") m [])
    (Unit n 1 t e a s r d f k p c v i g [] [] [] []) =
  Ret (Unit n 1 t e a s r d f k p c v i g x y z m).
Proof.
  intros Px Py Pz Pm Hx Hy Hz Hm.
  rewrite (fold_opt_fld _ _ _ _ _ (Unit n 1 t e a s r d f k p c v i g x [] [] [])).
  2:{ intros _. rewrite (proj1 (proj2 (field_strings_print _ _))). by rewrite strncpy_atom. }
  2:{ by intros ->. }
  rewrite (fold_opt_fld _ _ _ _ _ (Unit n 1 t e a s r d f k p c v i g x y [] [])).
  2:{ intros _. rewrite (proj1 (proj2 (proj2 (field_strings_print _ _)))). by rewrite strncpy_atom. }
  2:{ by intros ->. }
  rewrite (fold_opt_fld _ _ _ _ _ (Unit n 1 t e a s r d f k p c v i g x y z [])).
  2:{ intros _. rewrite (proj1 (proj2 (proj2 (proj2 (field_strings_print _ _))))). by rewrite strncpy_atom. }
  2:{ by intros ->. }
  rewrite <- (app_nil_r (opt_fld _ m _)).
  rewrite (fold_opt_fld _ _ _ _ _ (Unit n 1 t e a s r d f k p c v i g x y z m)); [done| |by intros ->].
  intros _. rewrite (proj2 (proj2 (proj2 (proj2 (field_strings_print _ _))))). by rewrite strncpy_atom.
Qed.

Lemma fold_unit_flds u : unit_wf u -> 1 <= u_type u <= 3 -> unit_printable u ->
  fold_out unit_field (unit_flds u) (zero_unit (u_name u) 1) = Ret u.
Proof.
  destruct u as [n l t e a s r d f k p c v i g x y z m].
  intros (_ & He & Ha & Hd & Hf & Hv & Hp & Hx & Hy & Hz & Hm & Ht) Hval
    (Hl & _ & _ & Pe & Pa0 & Pa & Pd & Nd & Pf & Pv & Ps & Pr & Pk & Pi & Pg & Px & Py & Pz & Pm).
  unfold unit_flds. simpl u_name in *. cbn [u_type u_exec u_argv u_stdio u_respawn u_deps u_after u_ready_kind
    u_ready_port u_ready_secs u_env u_uid u_gid u_device u_fstype u_mountpoint u_mflags u_line] in *. subst l.
  rewrite fold_flds_run; try done.
  assert (forall rest, fold_out unit_field (ready_fld (Unit n 1 t e a s r d f k p c v i g x y z m) ++ rest)
      (Unit n 1 t e a s r d f 0 [] 0 [] 0 0 [] [] [] []) =
    fold_out unit_field rest (Unit n 1 t e a s r d f k p c [] 0 0 [] [] [] [])) as ->.
  { intros rest. unfold ready_fld. cbn [u_ready_kind u_ready_port u_ready_secs].
    destruct Pk as [(-> & -> & ->)|[(-> & Hne & Pp & ->)|(-> & -> & Hc)]]; [done| |].
    - cbn [Z.eqb Pos.eqb RC_READY_PORT RC_READY_SLEEP app]. rewrite (fold_fld _ _ _ _ (proj1 (field_strings_print _ _))).
      cbn [set_ready_port]. by rewrite strncpy_atom.
    - cbn [Z.eqb Pos.eqb RC_READY_PORT RC_READY_SLEEP app].
      by rewrite (fold_fld _ _ _ _ (proj2 (proj2 (field_nums_print _ _ Hc)))). }
  cbn [app]. rewrite (fold_fld _ _ _ _ (proj2 (proj2 (field_lists_print _ _)))). cbn [set_env u_env].
  rewrite (proj1 (vals_copy _ _ _ Pv Hv)).
  rewrite (fold_fld _ _ _ _ (proj1 (field_nums_print _ _ Pi))).
  rewrite (fold_fld _ _ _ _ (proj1 (proj2 (field_nums_print _ _ Pg)))). cbn [set_uid set_gid].
  by apply fold_flds_mount.
Qed.

Lemma unit_validate_valid u : unit_valid u -> unit_validate u = inl u.
Proof.
  intros [(Ht & Hd & Hf & Hm)|[(Ht & He)|(Ht & He & Hr)]]; unfold unit_validate; rewrite Ht; simpl.
  - by destruct (u_device u), (u_fstype u), (u_mountpoint u).
  - by destruct (u_exec u).
  - destruct (u_exec u); [done|]. by rewrite (proj2 (Z.eqb_neq (u_respawn u) 0) Hr).
Qed.

Lemma unit_valid_type u : unit_valid u -> 1 <= u_type u <= 3.
Proof. intros [(-> & _)|[(-> & _)|(-> & _)]]; done. Qed.

Lemma unit_parse_flds u src err : unit_wf u -> 1 <= u_type u <= 3 -> unit_printable u ->
  unit_parse (unit_sexp u) src err =
  match unit_validate u with
  | inl u => Ret (Some u, err)
  | inr msg => Ret (None, rc_set_err src (u_line u) msg)
  end.
Proof.
  intros Hwf Ht Hp. pose proof Hp as (Hl & Hne & Hpr & _). pose proof Hwf as (Hn & _).
  change (unit_parse (unit_sexp u) src err) with
    (if is_empty (u_name u) then Ret (None, err) else
       u ← fold_out unit_field (unit_flds u) (zero_unit (rc_strncpy (u_name u) RC_UNIT_NAME_MAX) 1);
       match unit_validate u with
       | inl u => Ret (Some u, err)
       | inr msg => Ret (None, rc_set_err src (u_line u) msg)
       end).
  rewrite strncpy_atom, fold_unit_flds by done. ret. by destruct (u_name u).
Qed.

Lemma unit_parse_print u src err : unit_wf u -> unit_valid u -> unit_printable u ->
  unit_parse (unit_sexp u) src err = Ret (Some u, err).
Proof.
  intros Hwf Hv Hp. rewrite unit_parse_flds by (done || by apply unit_valid_type).
  by rewrite unit_validate_valid.
Qed.

Lemma atom_ok_val v len : v <> [] -> printable v -> Z.of_nat (length v) < len -> len <= 64 -> atom_ok v.
Proof. intros Hne Hp Hl H64. split; [done|]. split; [lia|done]. Qed.

Lemma atom_ok_vals vs n len : vals_ok vs -> strs_within n len vs -> len <= 64 -> Forall atom_ok vs.
Proof.
  intros Hok [_ Hl] H64. unfold vals_ok in Hok. rewrite Forall_forall in Hok, Hl |- *. intros v Hv.
  destruct (Hok v Hv). by apply (atom_ok_val v len); [..|apply Hl|].
Qed.

Lemma atom_ok_const l : (negb (is_empty l) && (length l <=? 63)%nat && forallb (fun c => negb (ends_atom c) && negb (c =? 0)) l) = true ->
  atom_ok l.
Proof.
  intros [[Hne Hl]%andb_prop HF]%andb_prop. split; [by destruct l|]. split; [by apply Nat.leb_le|].
  clear -HF. induction l as [|c l IH]; [constructor|]. simpl in HF.
  apply andb_prop in HF as [[H1 H2]%andb_prop HF]. constructor; [|by apply IH]. split.
  - by apply negb_true_iff in H1.
  - intros ->. done.
Qed.

Lemma atom_ok_num n : 0 <= n < 2 ^ 31 -> atom_ok (print_num 10 n).
Proof.
  intros Hn. destruct (print_num_digits n Hn) as (d & ds & -> & HF & Hv & Hlen).
  split; [done|]. split.
  - rewrite length_fmap. lia.
  - apply Forall_fmap. apply (Forall_impl _ _ _ HF). intros x Hx. simpl. unfold digit_char. zcmp.
    unfold ends_atom, is_space. split; lia.
Qed.

Lemma fld_wf key vs : atom_ok key -> Forall atom_ok vs -> (length vs <= 15)%nat -> sexp_wf 1 (fld key vs).
Proof.
  intros Hk Hvs Hl. apply WfList; [simpl; rewrite length_map; lia|].
  constructor; [by apply WfAtom|]. apply Forall_map. apply (Forall_impl _ _ _ Hvs).
  intros v Hv. by apply WfAtom.
Qed.

Lemma opt_fld_wf key v vs : atom_ok key -> (v <> [] -> atom_ok v) -> Forall atom_ok vs -> (length vs <= 14)%nat ->
  Forall (sexp_wf 1) (opt_fld key v vs).
Proof.
  intros Hk Hv Hvs Hl. destruct v; [constructor|]. constructor; [|constructor].
  apply fld_wf; [done|constructor; [by apply Hv|done]|simpl; lia].
Qed.

Lemma opt_fld_length key v vs : (length (opt_fld key v vs) <= 1)%nat.
Proof. destruct v; simpl; lia. Qed.

Ltac const_atom := apply atom_ok_const; vm_compute; reflexivity.

Lemma name_atoms t s r : atom_ok (type_name t) /\ atom_ok (stdio_name s) /\ atom_ok (respawn_name r).
Proof.
  unfold type_name, stdio_name, respawn_name. split; [|split].
  - destruct (t =? RC_T_MOUNT), (t =? RC_T_ONESHOT); const_atom.
  - destruct (s =? RC_IO_SILENT); const_atom.
  - destruct (r =? RC_R_NEVER), (r =? RC_R_ALWAYS); const_atom.
Qed.

Lemma one_fld_wf key v : atom_ok key -> atom_ok v -> sexp_wf 1 (fld key [v]).
Proof. intros Hk Hv. apply fld_wf; [done|by constructor|simpl; lia]. Qed.

Lemma ready_fld_wf u : unit_wf u -> unit_printable u ->
  Forall (sexp_wf 1) (ready_fld u) /\ (length (ready_fld u) <= 1)%nat.
Proof.
  intros (_&_&_&_&_&_&Hp&_) (_&_&_&_&_&_&_&_&_&_&_&_&Pk&_). unfold ready_fld.
  destruct Pk as [(-> & _)|[(-> & Hne & Pp & _)|(-> & _ & Hc)]]; cbn [Z.eqb Pos.eqb RC_READY_PORT RC_READY_SLEEP].
  - split; [constructor|simpl; lia].
  - split; [|simpl; lia]. constructor; [|constructor]. apply fld_wf; [const_atom| |simpl; lia].
    constructor; [const_atom|]. constructor; [by apply (atom_ok_val _ RC_UNIT_NAME_MAX)|constructor].
  - split; [|simpl; lia]. constructor; [|constructor]. apply fld_wf; [const_atom| |simpl; lia].
    constructor; [const_atom|]. constructor; [by apply atom_ok_num|constructor].
Qed.

Lemma strs_fld_wf key vs n len : atom_ok key -> vals_ok vs -> strs_within n len vs -> n <= 15 -> len <= 64 ->
  sexp_wf 1 (fld key vs).
Proof.
  intros Hk Hok Hs Hn Hl. apply fld_wf; [done|by apply (atom_ok_vals vs n len)|]. destruct Hs. lia.
Qed.

Lemma unit_sexp_wf u : unit_wf u -> unit_printable u -> sexp_wf 1 (unit_sexp u).
Proof.
  intros Hwf Hpr. destruct (ready_fld_wf u Hwf Hpr) as [Hrw Hrl].
  destruct (name_atoms (u_type u) (u_stdio u) (u_respawn u)) as (At & As & Ar).
  destruct Hwf as (Hn & He & Ha & Hd & Hf & Hv & _ & Hx & Hy & Hz & Hm & _).
  destruct Hpr as (_ & Hne & Pn & Pe & _ & Pa & Pd & _ & Pf & Pv & _ & _ & _ & Pi & Pg & Px & Py & Pz & Pm).
  unfold RC_UNIT_NAME_MAX, RC_EXEC_MAX, RC_PATH_MAX in *.
  apply WfList.
  - cbn [length]. unfold unit_flds. rewrite !length_app. cbn [length].
    repeat match goal with |- context [length (opt_fld ?k ?v ?vs)] =>
      pose proof (opt_fld_length k v vs); generalize dependent (length (opt_fld k v vs)); intros end. lia.
  - constructor; [apply WfAtom; const_atom|]. constructor; [by apply WfAtom, (atom_ok_val _ 32)|].
    unfold unit_flds. repeat (apply Forall_app; split); repeat (apply Forall_cons; split);
      try (apply Forall_nil_2); try done;
      try (apply opt_fld_wf; [const_atom|intros; by apply (atom_ok_val _ 64); [..|lia|]|constructor|simpl; lia]);
      try (apply one_fld_wf; [const_atom|by apply atom_ok_num || done]).
    + apply opt_fld_wf; [const_atom|intros; by apply (atom_ok_val _ 64)|by apply (atom_ok_vals _ 8 32)|].
      destruct Ha. unfold RC_ARG_MAX in *. lia.
    + by apply (strs_fld_wf _ _ 8 32); [const_atom|..].
    + by apply (strs_fld_wf _ _ 8 32); [const_atom|..].
    + by apply (strs_fld_wf _ _ 4 32); [const_atom|..].
Qed.

(** *** Files *)

Definition print_units (us : list rc_unit) : list Z := flat_map (fun u => print_sexp (unit_sexp u)) us.

Lemma print_unit_sexp u : exists items, unit_sexp u = Sexp [] 1 items /\
  print_sexp (unit_sexp u) = 40 :: print_items items ++ [41].
Proof. eexists. split; [reflexivity|]. reflexivity. Qed.

Lemma parse_top_print us : forall fuel max src done n,
  (length us < fuel)%nat -> Forall (fun u => unit_wf u /\ unit_valid u /\ unit_printable u) us ->
  Z.of_nat (length done + length us) <= max -> n + nodes_list (unit_sexp <$> us) <= RC_POOL_MAX ->
  parse_top fuel max src done [] (Lexer (print_units us) 1) n = Ret (done ++ us, []).
Proof.
  induction us as [|u us IH]; intros [|fuel] max src dn n Hf HF Hm Hn; simpl in Hf; try lia.
  - cbn [parse_top print_units flat_map]. rewrite lexer_next_eof. ret. by rewrite app_nil_r.
  - apply Forall_cons in HF as [(Hwf & Hv & Hp) HF]. destruct (print_unit_sexp u) as (items & Hs & Hpr).
    change (nodes_list (unit_sexp <$> u :: us)) with (nodes (unit_sexp u) + nodes_list (unit_sexp <$> us)) in Hn.
    pose proof (nodes_list_nonneg (unit_sexp <$> us)). simpl in Hm.
    cbn [parse_top]. unfold print_units at 1. cbn [flat_map]. fold (print_units us). rewrite Hpr.
    change ((40 :: print_items items ++ [41]) ++ print_units us)
      with ([] ++ 40 :: (print_items items ++ [41]) ++ print_units us).
    rewrite lexer_next_open by auto. ret. rewrite <- app_assoc. cbn [app].
    rewrite rc_parse_list_print by (rewrite <- Hs; by apply unit_sexp_wf || lia). rewrite <- Hs. ret.
    zcmp. rewrite unit_parse_print by done. ret.
    rewrite IH; [by rewrite <- app_assoc|lia|done|rewrite length_app; simpl; lia|lia].
Qed.

(** C40: What can be written in a unit file is read back unchanged: for any list
    of valid units whose strings contain no white space, parenthesis,
    semicolon or NUL, and that together need no more than the 1024 nodes of
    the pool, parsing the printed list gives exactly these units, in order,
    with every field, and no error message. *)
Theorem rc_parse_roundtrip us max src :
  Forall (fun u => unit_wf u /\ unit_valid u /\ unit_printable u) us ->
  Z.of_nat (length us) <= max -> nodes_list (unit_sexp <$> us) <= RC_POOL_MAX ->
  rc_parse_buf (print_units us) max src = Ret (us, []).
Proof.
  intros HF Hm Hn. unfold rc_parse_buf. rewrite parse_top_print; [done| |done|simpl; lia|lia].
  clear. induction us as [|u us IH]; [simpl; lia|]. destruct (print_unit_sexp u) as (items & _ & Hpr).
  change (print_units (u :: us)) with (print_sexp (unit_sexp u) ++ print_units us). rewrite Hpr, length_app.
  simpl. lia.
Qed.

Definition sshd_unit : rc_unit :=
  Unit (zs "sshd") 1 RC_T_SERVICE (zs "/sbin/sshd") [zs "-p"; zs "22"] RC_IO_SILENT RC_R_ALWAYS
    [zs "net"; zs "tmp"] [zs "log"] RC_READY_SLEEP [] 3 [zs "TERM=vt100"] 7 1000 [] [] [] [].

Definition tmp_unit : rc_unit :=
  Unit (zs "tmp") 1 RC_T_MOUNT [] [] RC_IO_CONSOLE RC_R_NEVER [] [] 0 [] 0 [] 0 0
    (zs "/dev/hd1") (zs "ext2") (zs "/tmp") (zs "rw").

Definition printableb l : bool := forallb (fun c => negb (ends_atom c) && negb (c =? 0)) l.

Lemma printableb_ok l : printableb l = true -> printable l.
Proof.
  induction l as [|c l IH]; intros H; [constructor|]. apply andb_prop in H as [[H1 H2]%andb_prop H].
  constructor; [|by apply IH]. apply negb_true_iff in H1. split; [done|]. by intros ->.
Qed.

Lemma vals_okb_ok vs : forallb (fun v => negb (is_empty v) && printableb v) vs = true -> vals_ok vs.
Proof.
  induction vs as [|v vs IH]; intros H; [constructor|]. apply andb_prop in H as [[H1 H2]%andb_prop H].
  constructor; [|by apply IH]. split; [by destruct v|by apply printableb_ok].
Qed.

Lemma strs_withinb_ok n len ss :
  ((Z.of_nat (length ss) <=? n) && forallb (fun s => Z.of_nat (length s) <? len) ss) = true -> strs_within n len ss.
Proof.
  intros [H1 H2]%andb_prop. split; [lia|]. apply Forall_forall. intros s Hs.
  apply list_elem_of_In in Hs. exact (proj1 (Z.ltb_lt _ _) (proj1 (forallb_forall _ _) H2 s Hs)).
Qed.

Ltac unit_check :=
  repeat match goal with
  | |- _ /\ _ => split
  | |- strs_within _ _ _ => apply strs_withinb_ok; vm_compute; reflexivity
  | |- printable _ => apply printableb_ok; vm_compute; reflexivity
  | |- vals_ok _ => apply vals_okb_ok; vm_compute; reflexivity
  end; try (vm_compute; congruence).

Lemma sample_units_ok :
  (unit_wf sshd_unit /\ unit_valid sshd_unit /\ unit_printable sshd_unit) /\
  (unit_wf tmp_unit /\ unit_valid tmp_unit /\ unit_printable tmp_unit).
Proof.
  split.
  - split; [unfold unit_wf; unit_check|]. split; [right; right; unit_check|]. unfold unit_printable. unit_check.
    + apply (bool_decide_unpack _). vm_compute. done.
    + by right.
    + right. by right.
    + right. right. unit_check.
  - split; [unfold unit_wf; unit_check|]. split; [left; unit_check|]. unfold unit_printable. unit_check.
    + constructor.
    + by left.
    + by left.
    + left. unit_check.
Qed.

Lemma rc_parse_roundtrip_witness :
  rc_parse_buf (print_units [sshd_unit; tmp_unit]) 64 [] = Ret ([sshd_unit; tmp_unit], []).
Proof.
  apply (rc_parse_roundtrip [sshd_unit; tmp_unit] 64 []).
  - constructor; [exact (proj1 sample_units_ok)|]. constructor; [exact (proj2 sample_units_ok)|constructor].
  - vm_compute. congruence.
  - vm_compute. congruence.
Defined.

(** ** [(respawn never)] *)

(** The policy [never] cannot be given to a service: whatever else the unit
    says, a service written with [(respawn never)] is read as one with the
    policy [on-failure], because the code [never] is the code for no policy. *)
Theorem rc_never_is_on_failure u src err :
  unit_wf u -> unit_printable u -> u_type u = RC_T_SERVICE -> u_exec u <> [] -> u_respawn u = RC_R_NEVER ->
  unit_parse (unit_sexp u) src err = Ret (Some (set_respawn RC_R_ON_FAILURE u), err).
Proof.
  intros Hwf Hp Ht He Hr. rewrite unit_parse_flds by (done || by rewrite Ht).
  unfold unit_validate. rewrite Ht, Hr. simpl. by destruct (u_exec u).
Qed.

Definition once_unit : rc_unit := set_respawn RC_R_NEVER sshd_unit.

Lemma rc_never_is_on_failure_witness :
  unit_parse (unit_sexp once_unit) [] [] = Ret (Some (set_respawn RC_R_ON_FAILURE once_unit), []).
Proof.
  apply (rc_never_is_on_failure once_unit [] []); [| |reflexivity|vm_compute; congruence|reflexivity].
  - exact (proj1 (proj1 sample_units_ok)).
  - unfold unit_printable. unit_check.
    + exact (bool_decide_unpack (NoDup (u_deps sshd_unit)) ltac:(vm_compute; exact I)).
    + by right.
    + by left.
    + right. right. unit_check.
Defined.
