(* ===== verification/Links.v ===== *)
(** * Linked lists in memory

    [links nxt p l q]: following [nxt] from [p] visits the nodes [l] and ends
    at [q] (NULL, or the list head of a circular list).  The hash chains and
    both directions of the LRU list of Vnode.v are such paths; [links_unlink]
    is what taking one node out does to any of them. *)

From stdpp Require Import base numbers list gmap.
From Stdlib Require Import ZArith Lia.
From S2P Require Import Prelude.

#[local] Open Scope Z_scope.

Implicit Types (nxt : Z -> option Z) (p q x : Z) (l : list Z).

Fixpoint links nxt p l q : Prop :=
  match l with
  | [] => p = q
  | x :: l => p = x /\ exists p', nxt x = Some p' /\ links nxt p' l q
  end.

Lemma links_frame nxt nxt' p l q :
  (forall x, x ∈ l -> nxt' x = nxt x) -> links nxt p l q -> links nxt' p l q.
Proof.
  revert p. induction l as [|x l IH]; intros p Heq H; [done|].
  destruct H as (-> & p' & Hx & H). split; [done|]. exists p'.
  rewrite Heq by (by left). split; [done|]. apply IH; [|done]. intros y Hy. apply Heq. by right.
Qed.

Lemma links_app nxt p l1 l2 q :
  links nxt p (l1 ++ l2) q <-> exists r, links nxt p l1 r /\ links nxt r l2 q.
Proof.
  revert p. induction l1 as [|x l1 IH]; intros p; simpl.
  - naive_solver.
  - split.
    + intros (-> & p' & Hx & (r & H1 & H2)%IH). exists r. split; [|done]. split; [done|]. by exists p'.
    + intros (r & (-> & p' & Hx & H1) & H2). split; [done|]. exists p'. split; [done|].
      apply IH. by exists r.
Qed.

Lemma links_cons nxt p x l q : links nxt p (x :: l) q <-> p = x /\ exists p', nxt x = Some p' /\ links nxt p' l q.
Proof. done. Qed.

(** A path is determined by its ends. *)
Lemma links_inj nxt p q l1 l2 : q ∉ l1 -> q ∉ l2 -> links nxt p l1 q -> links nxt p l2 q -> l1 = l2.
Proof.
  revert p l2. induction l1 as [|x l1 IH]; intros p [|y l2] H1 H2 Hl1 Hl2; simpl in *; try set_solver.
  destruct Hl1 as (-> & p1 & E1 & Hl1), Hl2 as (-> & p2 & E2 & Hl2). rewrite E1 in E2. injection E2 as <-.
  f_equal. apply (IH p1); set_solver.
Qed.

(** Taking [x] out: the node [a] before it now points to what [x] points to. *)
Lemma links_unlink nxt nxt' p l1 a x l2 q s :
  NoDup (l1 ++ a :: x :: l2) -> links nxt p (l1 ++ a :: x :: l2) q -> nxt x = Some s ->
  nxt' a = Some s -> (forall y, y ∈ l1 ++ l2 -> nxt' y = nxt y) ->
  links nxt' p (l1 ++ a :: l2) q.
Proof.
  intros Hnd H Hs Ha Hy. apply links_app in H as (r & H1 & (-> & r2 & Hr2 & (-> & r3 & Hr3 & H2))).
  rewrite Hs in Hr3. injection Hr3 as <-. apply links_app. exists a. split.
  - eapply links_frame; [|done]. intros y Hy'. apply Hy. set_solver.
  - split; [done|]. exists s. split; [done|]. eapply links_frame; [|done].
    intros y Hy'. apply Hy. set_solver.
Qed.

(** Putting [x] between [a] and what follows it. *)
Lemma links_insert nxt nxt' p l1 a x l2 q s :
  links nxt p (l1 ++ a :: l2) q -> nxt a = Some s ->
  nxt' a = Some x -> nxt' x = Some s -> (forall y, y ∈ l1 ++ l2 -> nxt' y = nxt y) ->
  links nxt' p (l1 ++ a :: x :: l2) q.
Proof.
  intros H Hs Ha Hx Hy. apply links_app in H as (r & H1 & (-> & r2 & Hr2 & H2)).
  rewrite Hs in Hr2. injection Hr2 as <-. apply links_app. exists a. split.
  - eapply links_frame; [|done]. intros y Hy'. apply Hy. set_solver.
  - split; [done|]. exists x. split; [done|]. split; [done|]. exists s. split; [done|].
    eapply links_frame; [|done]. intros y Hy'. apply Hy. set_solver.
Qed.

(** The successor of a node on a path. *)
Lemma links_next nxt p l1 a l2 q :
  links nxt p (l1 ++ a :: l2) q -> nxt a = Some (default q (head l2)).
Proof.
  intros (r & _ & (-> & s & Hs & H))%links_app. rewrite Hs. f_equal.
  destruct l2 as [|y l2]; simpl in *; [done|]. by destruct H.
Qed.

(** ** Circular doubly linked lists

    [dll z l]: from the node [z] the links lead through [l] and back to [z].
    [z] is a list head of its own (the LRU list of the vnode cache) or just
    the element a queue points to (the scheduler). *)
Definition dll (z : Z) (nxt prv : Z -> option Z) (l : list Z) : Prop :=
  NoDup (z :: l) /\ links nxt z (z :: l) z /\ links prv z (z :: rev l) z.

Lemma elem_of_rev (x : Z) l : x ∈ rev l <-> x ∈ l.
Proof. rewrite !list_elem_of_In. symmetry. apply in_rev. Qed.

Lemma nodup_rev (l : list Z) : NoDup (rev l) <-> NoDup l.
Proof. by rewrite <- Permutation_rev. Qed.

(** The neighbours of a node, the head included. *)
Definition before_of (z : Z) l : Z := default z (last l).
Definition after_of (z : Z) l : Z := default z (head l).

Section dll.
Context {z : Z}.

Lemma dll_frame nxt prv nxt' prv' l :
  (forall x, x = z \/ x ∈ l -> nxt' x = nxt x /\ prv' x = prv x) -> dll z nxt prv l -> dll z nxt' prv' l.
Proof.
  intros Hx (Hnd & H1 & H2). split; [done|]. split.
  - eapply links_frame; [|exact H1]. intros x Hin. apply Hx. set_solver.
  - eapply links_frame; [|exact H2]. intros x Hin. apply Hx. rewrite elem_of_cons, elem_of_rev in Hin. set_solver.
Qed.

Lemma cons_before l : exists l', z :: l = l' ++ [before_of z l].
Proof.
  unfold before_of. destruct l as [|x l _] using rev_ind; [by exists []|].
  exists (z :: l). by rewrite last_snoc.
Qed.

Lemma before_rev l : before_of z (rev l) = after_of z l.
Proof. destruct l as [|x l]; [done|]. unfold before_of. simpl. by rewrite last_snoc. Qed.

Lemma before_in l : before_of z l = z \/ before_of z l ∈ l.
Proof. destruct (cons_before l) as [l' H]. assert (before_of z l ∈ z :: l) by (rewrite H; set_solver). set_solver. Qed.

Lemma after_in l : after_of z l = z \/ after_of z l ∈ l.
Proof. destruct l; simpl; [by left|right; by left]. Qed.

Lemma dll_next nxt prv l1 x l2 : dll z nxt prv (l1 ++ x :: l2) -> nxt x = Some (after_of z l2).
Proof. intros (_ & H & _). apply (links_next nxt z (z :: l1) x l2 z H). Qed.

Lemma dll_prev nxt prv l1 x l2 : dll z nxt prv (l1 ++ x :: l2) -> prv x = Some (before_of z l1).
Proof.
  intros (_ & _ & H). rewrite rev_app_distr in H. simpl in H. rewrite <- app_assoc in H.
  pose proof (links_next prv z (z :: rev l2) x (rev l1) z H) as ->.
  change (default z (head (rev l1))) with (after_of z (rev l1)). by rewrite <- before_rev, rev_involutive.
Qed.

Lemma dll_first nxt prv l : dll z nxt prv l -> nxt z = Some (after_of z l) /\ prv z = Some (before_of z l).
Proof.
  intros (_ & H1 & H2). split; [apply (links_next nxt z [] z l z H1)|].
  rewrite (links_next prv z [] z (rev l) z H2).
  change (default z (head (rev l))) with (after_of z (rev l)). by rewrite <- before_rev, rev_involutive.
Qed.

(** Taking [x] out of the list: its neighbours point to each other. *)
Lemma dll_unlink nxt prv nxt' prv' l1 x l2 :
  dll z nxt prv (l1 ++ x :: l2) ->
  nxt' (before_of z l1) = Some (after_of z l2) -> prv' (after_of z l2) = Some (before_of z l1) ->
  (forall y, y <> before_of z l1 -> nxt' y = nxt y) -> (forall y, y <> after_of z l2 -> prv' y = prv y) ->
  dll z nxt' prv' (l1 ++ l2).
Proof.
  intros Hr Hn Hp Hny Hpy. pose proof (dll_next _ _ _ _ _ Hr) as Hx. pose proof (dll_prev _ _ _ _ _ Hr) as Hx'.
  destruct Hr as (Hnd & H1 & H2). rewrite rev_app_distr in H2. cbn [rev] in H2. rewrite <- app_assoc in H2.
  change (z :: l1 ++ x :: l2) with ((z :: l1) ++ x :: l2) in Hnd, H1.
  change (z :: rev l2 ++ [x] ++ rev l1) with ((z :: rev l2) ++ x :: rev l1) in H2.
  assert (NoDup ((z :: rev l2) ++ x :: rev l1)) as Hnd'.
  { rewrite <- !Permutation_rev. rewrite <- Permutation_middle in Hnd |- *. simpl in *.
    by rewrite (Permutation_app_comm l2 l1). }
  split; [|split].
  - rewrite <- Permutation_middle in Hnd. by apply NoDup_cons in Hnd as [_ Hnd].
  - destruct (cons_before l1) as [k Hk]. change (z :: l1 ++ l2) with ((z :: l1) ++ l2). rewrite Hk in *.
    rewrite <- app_assoc in *. simpl in *. eapply links_unlink; [done..|].
    intros y Hy. apply Hny. apply NoDup_app in Hnd as (_ & Hd & Hnd). intros ->.
    apply elem_of_app in Hy as [Hy|Hy]; [apply (Hd _ Hy); by left|].
    apply NoDup_cons in Hnd as [Hnd _]. set_solver.
  - rewrite rev_app_distr. rewrite <- before_rev in *. destruct (cons_before (rev l2)) as [k Hk].
    change (z :: rev l2 ++ rev l1) with ((z :: rev l2) ++ rev l1). rewrite Hk in *.
    rewrite <- app_assoc in *. simpl in *. eapply links_unlink; [done..|].
    intros y Hy. apply Hpy. apply NoDup_app in Hnd' as (_ & Hd & Hnd'). intros ->.
    apply elem_of_app in Hy as [Hy|Hy]; [apply (Hd _ Hy); by left|].
    apply NoDup_cons in Hnd' as [Hnd' _]. set_solver.
Qed.

(** Putting [x] first. *)
Lemma dll_push_front nxt prv nxt' prv' x l :
  dll z nxt prv l -> x <> z -> x ∉ l ->
  nxt' z = Some x -> nxt' x = Some (after_of z l) -> prv' x = Some z -> prv' (after_of z l) = Some x ->
  (forall y, y <> z -> y <> x -> nxt' y = nxt y) -> (forall y, y <> after_of z l -> y <> x -> prv' y = prv y) ->
  dll z nxt' prv' (x :: l).
Proof.
  intros Hr Hx0 Hxl H0 Hx Hpx Hpa Hny Hpy. pose proof (dll_first _ _ _ Hr) as [Hf Hl].
  destruct Hr as (Hnd & H1 & H2). pose proof Hnd as [H0l _]%NoDup_cons. split; [|split].
  - apply NoDup_cons. split; [set_solver|]. apply NoDup_cons. split; [done|]. by apply NoDup_cons in Hnd as [_ ?].
  - apply (links_insert nxt nxt' z [] z x l z (after_of z l)); try done. intros y Hy. apply Hny; set_solver.
  - cbn [rev]. rewrite <- before_rev in *. destruct (cons_before (rev l)) as [k Hk].
    change (z :: rev l ++ [x]) with ((z :: rev l) ++ [x]). rewrite Hk in *. rewrite <- app_assoc.
    apply (links_insert prv prv' z k (before_of z (rev l)) x [] z z); try done.
    + apply (links_next prv z k (before_of z (rev l)) [] z H2).
    + rewrite app_nil_r. intros y Hy. assert (NoDup (k ++ [before_of z (rev l)])) as Hndk.
      { rewrite <- Hk. by rewrite <- Permutation_rev. }
      assert (y ∈ z :: l) as Hyl by (rewrite elem_of_cons, <- elem_of_rev, <- elem_of_cons, Hk; set_solver).
      apply Hpy; [|set_solver]. intros ->. apply NoDup_app in Hndk as (_ & Hd & _). apply (Hd _ Hy). by left.
Qed.

(** Reading the ring in the other direction. *)
Lemma dll_swap nxt prv l : dll z nxt prv l -> dll z prv nxt (rev l).
Proof.
  intros (Hnd & H1 & H2). split; [|split; [done|by rewrite rev_involutive]].
  by rewrite <- Permutation_rev.
Qed.

(** Putting [x] last. *)
Lemma dll_push_back nxt prv nxt' prv' x l :
  dll z nxt prv l -> x <> z -> x ∉ l ->
  prv' z = Some x -> prv' x = Some (before_of z l) -> nxt' x = Some z -> nxt' (before_of z l) = Some x ->
  (forall y, y <> z -> y <> x -> prv' y = prv y) -> (forall y, y <> before_of z l -> y <> x -> nxt' y = nxt y) ->
  dll z nxt' prv' (l ++ [x]).
Proof.
  intros Hr Hxz Hxl H1 H2 H3 H4 H5 H6. assert (after_of z (rev l) = before_of z l) as E
    by (by rewrite <- before_rev, rev_involutive).
  rewrite <- E in *. apply dll_swap in Hr.
  assert (dll z prv' nxt' (x :: rev l)) as Hp.
  { apply (dll_push_front prv nxt); try done. by rewrite elem_of_rev. }
  apply dll_swap in Hp. simpl in Hp. by rewrite rev_involutive in Hp.
Qed.
End dll.

(** The ring seen from the next node. *)
Lemma dll_rotate z y nxt prv l : dll z nxt prv (y :: l) -> dll y nxt prv (l ++ [z]).
Proof.
  intros (Hnd & H1 & H2). split; [|split].
  - rewrite (Permutation_app_comm l [z]). simpl. by rewrite (perm_swap y z l) in Hnd.
  - destruct H1 as (_ & p & Hz & H1). pose proof H1 as [-> _]. change (y :: l ++ [z]) with ((y :: l) ++ [z]).
    apply links_app. exists z. split; [done|]. split; [done|]. by exists y.
  - cbn [rev] in H2. change (z :: rev l ++ [y]) with ((z :: rev l) ++ [y]) in H2.
    apply links_app in H2 as (r & H2 & (-> & q & Hy & ->)). rewrite rev_app_distr. simpl rev.
    split; [done|]. by exists z.
Qed.

(** A list that ends with NULL or whose head is the node 0. *)
Notation before := (before_of 0).
Notation after := (after_of 0).

(** ** Lists without an element *)
Definition without (p : Z) l : list Z := filter (fun x => x <> p) l.

Lemma without_id x l : x ∉ l -> without x l = l.
Proof.
  unfold without. induction l as [|y l IH]; intros Hx; [done|].
  rewrite filter_cons_True by set_solver. f_equal. apply IH. set_solver.
Qed.

Lemma without_split l1 x l2 : NoDup (l1 ++ x :: l2) -> without x (l1 ++ x :: l2) = l1 ++ l2.
Proof.
  intros Hnd. apply NoDup_app in Hnd as (_ & Hd & [Hx _]%NoDup_cons). unfold without.
  rewrite filter_app, filter_cons_False by naive_solver. f_equal; apply without_id; [|done].
  intros Hin. apply (Hd x Hin). by left.
Qed.

Lemma elem_of_without x y l : y ∈ without x l <-> y ∈ l /\ y <> x.
Proof. unfold without. rewrite list_elem_of_filter. naive_solver. Qed.

(** A list of keys is no longer than the map. *)
Lemma nodup_size {A} (m : gmap Z A) l : NoDup l -> (forall p, p ∈ l -> is_Some (m !! p)) -> (length l <= size m)%nat.
Proof.
  intros Hnd Hl. rewrite <- (size_list_to_set (C := gset Z)) by done. rewrite <- (size_dom (D := gset Z)).
  apply subseteq_size. intros p Hp%elem_of_list_to_set. apply elem_of_dom. by apply Hl.
Qed.
