(* ===== verification/Vnode.v ===== *)
(** * The vnode cache (bsd/vfs/vnode.c)

    Vnodes are records in a map from addresses; hash chains and LRU list are
    pointers in the records, as in the code.  The dummy head [vn_lru] of the
    LRU list is the record at address 0, which no vnode has; in the hash
    chains 0 is NULL.  Destroying a vnode calls the [close] operation of its
    file system and frees it; the model records the vnode in [vn_dead].

    The abstract cache is a table from (mount, inode) to vnodes, the
    reference counts, the unreferenced vnodes in the order of their last use
    and the vnodes destroyed; every operation of the code implements the
    operation of the abstract cache. *)

From stdpp Require Import base numbers list gmap sets fin_maps.
From Stdlib Require Import ZArith Lia.
From S2P Require Import Prelude StringLib Links.

#[local] Open Scope Z_scope.

Definition VNODE_CACHE_BUCKETS : Z := 64.
Definition VNODE_CACHE_MAX : Z := 256.
Definition VDOOMED : Z := 2.
Definition sizeof_vnode : Z := 160.

(** The fields the cache uses. *)
Record vnode := Vnode {
  v_flags : Z; v_refcount : Z; v_ino : Z; v_mount : Z;
  v_vnext : Z; v_lru_prev : Z; v_lru_next : Z; v_in_hash : Z; v_cached : Z;
}.

Definition zero_vnode : vnode := Vnode 0 0 0 0 0 0 0 0 0.

Definition set_flags x v := Vnode x (v_refcount v) (v_ino v) (v_mount v) (v_vnext v) (v_lru_prev v) (v_lru_next v) (v_in_hash v) (v_cached v).
Definition set_refcount x v := Vnode (v_flags v) x (v_ino v) (v_mount v) (v_vnext v) (v_lru_prev v) (v_lru_next v) (v_in_hash v) (v_cached v).
Definition set_vnext x v := Vnode (v_flags v) (v_refcount v) (v_ino v) (v_mount v) x (v_lru_prev v) (v_lru_next v) (v_in_hash v) (v_cached v).
Definition set_lru_prev x v := Vnode (v_flags v) (v_refcount v) (v_ino v) (v_mount v) (v_vnext v) x (v_lru_next v) (v_in_hash v) (v_cached v).
Definition set_lru_next x v := Vnode (v_flags v) (v_refcount v) (v_ino v) (v_mount v) (v_vnext v) (v_lru_prev v) x (v_in_hash v) (v_cached v).
Definition set_in_hash x v := Vnode (v_flags v) (v_refcount v) (v_ino v) (v_mount v) (v_vnext v) (v_lru_prev v) (v_lru_next v) x (v_cached v).
Definition set_cached x v := Vnode (v_flags v) (v_refcount v) (v_ino v) (v_mount v) (v_vnext v) (v_lru_prev v) (v_lru_next v) (v_in_hash v) x.

(** [vn_key]: the bucket of a key. *)
Definition vn_key (m ino : Z) : Z :=
  let h := u32 m in
  let h := Z.lxor h (u32 ino) in
  let h := u32 (h * 2654435761) in
  let h := Z.lxor h (Z.shiftr h 13) in
  let h := u32 (h * 2654435761) in
  let h := Z.lxor h (Z.shiftr h 16) in
  Z.land h (VNODE_CACHE_BUCKETS - 1).

Section vnode_cache.
Context {H : Type} `{!KMem H}.

Record vcache := VCache {
  vns : gmap Z vnode;
  vn_hash : list Z;
  vn_count : Z;
  vn_dead : list Z;
  vn_heap : H;
}.

Implicit Types (st : vcache) (p : Z).

Definition set_vns m st := VCache m (vn_hash st) (vn_count st) (vn_dead st) (vn_heap st).
Definition set_hash l st := VCache (vns st) l (vn_count st) (vn_dead st) (vn_heap st).
Definition set_count n st := VCache (vns st) (vn_hash st) n (vn_dead st) (vn_heap st).

Definition ld p st : out vnode := match vns st !! p with Some v => Ret v | None => UB end.

(** Changing a field of the vnode at [p]. *)
Definition upd p (f : vnode -> vnode) st : out vcache :=
  v ← ld p st; Ret (set_vns (<[p := f v]> (vns st)) st).

(** A walk of a chain visits no vnode twice. *)
Definition walk_fuel st : nat := S (size (vns st)).

Fixpoint vn_find_loop (fuel : nat) (vp m ino : Z) st : out Z :=
  match fuel with
  | O => Hang
  | S fuel =>
      if vp =? 0 then Ret 0
      else
        v ← ld vp st;
        if (v_mount v =? m) && (v_ino v =? ino) then Ret vp else vn_find_loop fuel (v_vnext v) m ino st
  end.

Definition vn_hash_find (m ino : Z) st : out Z :=
  vp ← rd (vn_hash st) (vn_key m ino); vn_find_loop (walk_fuel st) vp m ino st.

Definition vn_lru_unlink vp st : out vcache :=
  v ← ld vp st;
  st ← upd (v_lru_prev v) (set_lru_next (v_lru_next v)) st;
  v ← ld vp st;
  upd (v_lru_next v) (set_lru_prev (v_lru_prev v)) st.

Definition vn_lru_push vp st : out vcache :=
  h ← ld 0 st;
  st ← upd vp (set_lru_next (v_lru_next h)) st;
  st ← upd vp (set_lru_prev 0) st;
  h ← ld 0 st;
  st ← upd (v_lru_next h) (set_lru_prev vp) st;
  upd 0 (set_lru_next vp) st.

Definition vn_destroy vp st : out vcache :=
  v ← ld vp st;
  Ret (VCache (delete vp (vns st)) (vn_hash st) (vn_count st) (vn_dead st ++ [vp]) (kfree vp (vn_heap st))).

(** What [pp] points to: a bucket head or the [vnext] field of a vnode. *)
Inductive loc :=
| AtHash (b : Z)
| AtNext (p : Z).

Definition rd_loc (pp : loc) st : out Z :=
  match pp with
  | AtHash b => rd (vn_hash st) b
  | AtNext p => v ← ld p st; Ret (v_vnext v)
  end.

Definition wr_loc (pp : loc) (x : Z) st : out vcache :=
  match pp with
  | AtHash b => l ← wr (vn_hash st) b x; Ret (set_hash l st)
  | AtNext p => upd p (set_vnext x) st
  end.

(** [while ( *pp) { if ( *pp == vp) { *pp = vp->vnext; break; } pp = &( *pp)->vnext; }] *)
Fixpoint chain_unlink (fuel : nat) (pp : loc) (vp : Z) st : out vcache :=
  match fuel with
  | O => Hang
  | S fuel =>
      q ← rd_loc pp st;
      if q =? 0 then Ret st
      else if q =? vp then v ← ld vp st; wr_loc pp (v_vnext v) st
      else chain_unlink fuel (AtNext q) vp st
  end.

(** The victim [v] at [victim], out of its chain and the LRU list. *)
Definition evict (victim : Z) (v : vnode) st : out vcache :=
  let b := vn_key (v_mount v) (v_ino v) in
  st ← chain_unlink (walk_fuel st) (AtHash b) victim st;
  st ← vn_lru_unlink victim st;
  st ← upd victim (set_in_hash 0) st;
  st ← upd victim (set_cached 0) st;
  vn_destroy victim (set_count (vn_count st - 1) st).

Fixpoint trim_loop (fuel : nat) st : out vcache :=
  match fuel with
  | O => Hang
  | S fuel =>
      if vn_count st <=? VNODE_CACHE_MAX then Ret st
      else
        h ← ld 0 st;
        let victim := v_lru_prev h in
        if victim =? 0 then Ret st
        else
          v ← ld victim st;
          if negb (v_refcount v =? 0) then
            st ← vn_lru_unlink victim st;
            st ← upd victim (set_cached 0) st;
            trim_loop fuel st
          else
            st ← evict victim v st;
            trim_loop fuel st
  end.

(** Every turn takes a vnode off the LRU list. *)
Definition vn_cache_trim st : out vcache := trim_loop (walk_fuel st) st.

Definition vnode_alloc st : Z * vcache :=
  match kmalloc sizeof_vnode (vn_heap st) with
  | (None, h) => (0, VCache (vns st) (vn_hash st) (vn_count st) (vn_dead st) h)
  | (Some p, h) => (p, VCache (<[p := zero_vnode]> (vns st)) (vn_hash st) (vn_count st) (vn_dead st) h)
  end.

Definition vnode_cache_get (m ino : Z) st : out (Z * vcache) :=
  vp ← vn_hash_find m ino st;
  if negb (vp =? 0) then
    v ← ld vp st;
    st ← (if negb (v_cached v =? 0) then vn_lru_unlink vp st else Ret st);
    st ← upd vp (set_cached 0) st;
    v ← ld vp st;
    rc ← signed 32 (v_refcount v + 1);
    st ← upd vp (set_refcount rc) st;
    Ret (vp, st)
  else
    let '(fresh, st) := vnode_alloc st in
    if fresh =? 0 then Ret (0, st)
    else
      st ← upd fresh (fun v => Vnode (v_flags v) 1 ino m (v_vnext v) (v_lru_prev v) (v_lru_next v)
                                 (v_in_hash v) (v_cached v)) st;
      Ret (fresh, st).

Definition vnode_ref vp st : out vcache :=
  if vp =? 0 then Ret st
  else v ← ld vp st; rc ← signed 32 (v_refcount v + 1); upd vp (set_refcount rc) st.

(** The two parts of [vnode_unref]: the count goes down under the lock of the
    vnode; what follows the last reference runs without it, the LRU list
    under [vn_lock]. *)
Definition unref_count vp st : out (bool * vcache) :=
  v ← ld vp st;
  rc ← signed 32 (v_refcount v - 1);
  st ← upd vp (set_refcount rc) st;
  Ret (rc <=? 0, st).

Definition unref_last vp st : out vcache :=
  v ← ld vp st;
  if (v_in_hash v =? 0) || negb (Z.land (v_flags v) VDOOMED =? 0) then vn_destroy vp st
  else
    st ← (if (v_cached v =? 0) && (v_refcount v <=? 0) then
            st ← upd vp (set_cached 1) st; vn_lru_push vp st
          else Ret st);
    vn_cache_trim st.

Definition vnode_unref vp st : out vcache :=
  if vp =? 0 then Ret st
  else
    '(doit, st) ← unref_count vp st;
    if negb doit then Ret st else unref_last vp st.

Definition vnode_put vp st : out vcache := vnode_unref vp st.

Definition vnode_get vp st : out (Z * vcache) := st ← vnode_ref vp st; Ret (vp, st).

Definition vnode_cache_commit vp st : out (Z * vcache) :=
  v ← ld vp st;
  other ← vn_hash_find (v_mount v) (v_ino v) st;
  if negb (other =? 0) then st ← vnode_put vp st; Ret (-1, st)
  else
    let b := vn_key (v_mount v) (v_ino v) in
    first ← rd (vn_hash st) b;
    st ← upd vp (set_vnext first) st;
    st ← wr_loc (AtHash b) vp st;
    st ← upd vp (set_in_hash 1) st;
    n ← signed 32 (vn_count st + 1);
    st ← vn_cache_trim (set_count n st);
    Ret (0, st).

(** A vnode already out of its chain: off the LRU list, and destroyed or
    marked for the last [vnode_unref]. *)
Definition drop_cached vp st : out vcache :=
  st ← upd vp (set_in_hash 0) st;
  v ← ld vp st;
  st ← (if negb (v_cached v =? 0) then st ← vn_lru_unlink vp st; upd vp (set_cached 0) st else Ret st);
  let st := set_count (vn_count st - 1) st in
  v ← ld vp st;
  if v_refcount v =? 0 then vn_destroy vp st
  else upd vp (set_flags (Z.lor (v_flags v) VDOOMED)) st.

Definition vnode_cache_invalidate (m ino : Z) st : out vcache :=
  vp ← vn_hash_find m ino st;
  if vp =? 0 then Ret st
  else
    st ← chain_unlink (walk_fuel st) (AtHash (vn_key m ino)) vp st;
    drop_cached vp st.

Fixpoint flush_chain (fuel : nat) (pp : loc) (m : Z) st : out vcache :=
  match fuel with
  | O => Hang
  | S fuel =>
      vp ← rd_loc pp st;
      if vp =? 0 then Ret st
      else
        v ← ld vp st;
        if negb (v_mount v =? m) then flush_chain fuel (AtNext vp) m st
        else
          st ← wr_loc pp (v_vnext v) st;
          st ← drop_cached vp st;
          flush_chain fuel pp m st
  end.

Definition vnode_cache_flush_mount (m : Z) st : out vcache :=
  for_range 0 VNODE_CACHE_BUCKETS (fun b st => flush_chain (walk_fuel st) (AtHash b) m st) st.

(** ** The abstract cache *)

Record vspec := VSpec {
  s_tab : gmap (Z * Z) Z;   (* (mount, inode) to vnode *)
  s_ref : gmap Z Z;         (* references of every vnode there is *)
  s_lru : list Z;           (* unreferenced vnodes, the last used first *)
  s_doom : gset Z;          (* taken out of the table while in use *)
  s_dead : list Z;          (* destroyed, in this order *)
}.

Implicit Types (s : vspec) (tab : gmap (Z * Z) Z).

Definition in_tab tab p : Prop := exists k, tab !! k = Some p.

(** The table without a vnode. *)
Definition tab_without p tab : gmap (Z * Z) Z := filter (fun kv => kv.2 <> p) tab.

(** Out of the table; out of the LRU list. *)
Definition s_remove p s : vspec :=
  VSpec (tab_without p (s_tab s)) (s_ref s) (without p (s_lru s)) (s_doom s) (s_dead s).

Definition s_destroy p s : vspec :=
  VSpec (s_tab s) (delete p (s_ref s)) (s_lru s) (s_doom s ∖ {[p]}) (s_dead s ++ [p]).

Definition s_setref p r s : vspec := VSpec (s_tab s) (<[p := r]> (s_ref s)) (s_lru s) (s_doom s) (s_dead s).

(** The least recently used vnode goes first, and only while there are too
    many. *)
Definition s_trim_step p s : vspec :=
  if VNODE_CACHE_MAX <? Z.of_nat (size (s_tab s)) then s_destroy p (s_remove p s) else s.

Definition s_trim s : vspec := foldl (fun s p => s_trim_step p s) s (rev (s_lru s)).

Definition s_get_hit p s : vspec :=
  VSpec (s_tab s) (<[p := default 0 (s_ref s !! p) + 1]> (s_ref s)) (without p (s_lru s)) (s_doom s) (s_dead s).

Definition s_unref p s : vspec :=
  let r := default 0 (s_ref s !! p) - 1 in
  let s := s_setref p r s in
  if 0 <? r then s
  else if bool_decide (map_Exists (fun _ q => q = p) (s_tab s))
  then s_trim (VSpec (s_tab s) (s_ref s) (p :: s_lru s) (s_doom s) (s_dead s))
  else s_destroy p s.

Definition s_commit (k : Z * Z) p s : Z * vspec :=
  match s_tab s !! k with
  | Some _ => (-1, s_unref p s)
  | None => (0, s_trim (VSpec (<[k := p]> (s_tab s)) (s_ref s) (s_lru s) (s_doom s) (s_dead s)))
  end.

(** Taking a vnode out of the cache: unused ones are destroyed, the others
    with their last reference. *)
Definition s_drop p s : vspec :=
  let s := s_remove p s in
  if default 0 (s_ref s !! p) =? 0 then s_destroy p s
  else VSpec (s_tab s) (s_ref s) (s_lru s) ({[p]} ∪ s_doom s) (s_dead s).

Definition s_invalidate (k : Z * Z) s : vspec :=
  match s_tab s !! k with Some p => s_drop p s | None => s end.

(** What holds of the cache between calls: every vnode is referenced or in
    the LRU list, the LRU list has exactly the unreferenced vnodes of the
    table, no vnode is there twice, doomed ones are not in the table. *)
Record spec_ok s : Prop := {
  ok_tab_live : forall k p, s_tab s !! k = Some p -> is_Some (s_ref s !! p);
  ok_tab_inj : forall k k' p, s_tab s !! k = Some p -> s_tab s !! k' = Some p -> k = k';
  ok_lru_nodup : NoDup (s_lru s);
  ok_lru : forall p, p ∈ s_lru s <-> in_tab (s_tab s) p /\ s_ref s !! p = Some 0;
  ok_ref : forall p r, s_ref s !! p = Some r -> 0 <= r /\ (r = 0 -> p ∈ s_lru s);
  ok_doom : forall p, p ∈ s_doom s -> is_Some (s_ref s !! p) /\ ~ in_tab (s_tab s) p;
}.

(** ** Representation *)

Definition keeps {A} (f : vnode -> A) st st' : Prop := forall p, f <$> vns st' !! p = f <$> vns st !! p.

Definition nxt st p : option Z := v_lru_next <$> vns st !! p.
Definition prv st p : option Z := v_lru_prev <$> vns st !! p.
Definition vnx st p : option Z := v_vnext <$> vns st !! p.

Definition rep_chain st tab (b : Z) (h : Z) (l : list Z) : Prop :=
  links (vnx st) h l 0 /\ NoDup l /\
  forall p, p ∈ l <-> exists k, tab !! k = Some p /\ vn_key k.1 k.2 = b.

Record rep_tab st tab : Prop := {
  rt_len : Z.of_nat (length (vn_hash st)) = VNODE_CACHE_BUCKETS;
  rt_key : forall k p, tab !! k = Some p -> p <> 0 /\ (fun v => (v_mount v, v_ino v)) <$> vns st !! p = Some k;
  rt_chain : forall b h, getz (vn_hash st) b = Some h -> exists l, rep_chain st tab b h l;
}.

Definition rep_flags st tab (lru : list Z) (doom : gset Z) : Prop := forall p v, p <> 0 -> vns st !! p = Some v ->
  (v_in_hash v <> 0 <-> in_tab tab p) /\ (v_cached v <> 0 <-> p ∈ lru) /\
  (Z.land (v_flags v) VDOOMED <> 0 <-> p ∈ doom).

Definition rep_ref st (ref : gmap Z Z) : Prop :=
  ref !! 0 = None /\ is_Some (vns st !! 0) /\ forall p, p <> 0 -> ref !! p = v_refcount <$> vns st !! p.

Definition rep_heap st : Prop :=
  kwf (vn_heap st) /\ forall p, p <> 0 -> is_Some (vns st !! p) -> p ∈ klive (vn_heap st).

Record vrel st s : Prop := {
  rel_tab : rep_tab st (s_tab s);
  rel_lru : dll 0 (nxt st) (prv st) (s_lru s);
  rel_flags : rep_flags st (s_tab s) (s_lru s) (s_doom s);
  rel_ref : rep_ref st (s_ref s);
  rel_heap : rep_heap st;
  rel_count : vn_count st = Z.of_nat (size (s_tab s));
  rel_dead : vn_dead st = s_dead s;
}.

Context `{!KMemLaws H}.

(** *** Single steps *)

Lemma upd_ok p f st v : vns st !! p = Some v -> upd p f st = Ret (set_vns (<[p := f v]> (vns st)) st).
Proof. intros Hp. unfold upd, ld. by rewrite Hp. Qed.

Lemma ld_ok p st v : vns st !! p = Some v -> ld p st = Ret v.
Proof. intros Hp. unfold ld. by rewrite Hp. Qed.

Lemma keeps_refl {A} (f : vnode -> A) st : keeps f st st.
Proof. done. Qed.

Lemma keeps_trans {A} (f : vnode -> A) st1 st2 st3 : keeps f st1 st2 -> keeps f st2 st3 -> keeps f st1 st3.
Proof. intros H1 H2 p. by rewrite H2, H1. Qed.

Lemma keeps_some {A} (f : vnode -> A) st st' p v : keeps f st st' -> vns st !! p = Some v ->
  exists v', vns st' !! p = Some v' /\ f v' = f v.
Proof.
  intros Hk Hp. specialize (Hk p). rewrite Hp in Hk. simpl in Hk.
  destruct (vns st' !! p) as [v'|]; [|done]. injection Hk as Hk. by exists v'.
Qed.

(** A field the update does not touch. *)
Lemma keeps_upd {A} (f : vnode -> A) p g st v :
  vns st !! p = Some v -> f (g v) = f v -> keeps f st (set_vns (<[p := g v]> (vns st)) st).
Proof.
  intros Hp Hf q. simpl. destruct (decide (q = p)) as [->|Hne].
  - rewrite lookup_insert_eq, Hp. simpl. by rewrite Hf.
  - by rewrite lookup_insert_ne.
Qed.

Lemma rep_chain_frame st st' tab b h l : keeps v_vnext st st' -> rep_chain st tab b h l -> rep_chain st' tab b h l.
Proof.
  intros Hk (Hl & Hnd & Hin). split; [|done]. eapply links_frame; [|done]. intros x _. apply Hk.
Qed.

Lemma rep_tab_frame st st' tab :
  vn_hash st' = vn_hash st -> keeps v_vnext st st' -> keeps (fun v => (v_mount v, v_ino v)) st st' ->
  rep_tab st tab -> rep_tab st' tab.
Proof.
  intros Hh Hk1 Hk2 [Hlen Hkey Hch]. split.
  - by rewrite Hh.
  - intros k p Hp. by rewrite Hk2; apply Hkey.
  - intros b h Hb. rewrite Hh in Hb. destruct (Hch b h Hb) as [l Hl]. exists l. by eapply rep_chain_frame.
Qed.

Lemma rep_lru_frame st st' lru : keeps v_lru_next st st' -> keeps v_lru_prev st st' ->
  dll 0 (nxt st) (prv st) lru -> dll 0 (nxt st') (prv st') lru.
Proof. intros H1 H2. apply dll_frame. intros x _. split; [apply H1|apply H2]. Qed.

Lemma rep_flags_frame st st' tab lru doom :
  keeps (fun v => (v_in_hash v, v_cached v, v_flags v)) st st' -> rep_flags st tab lru doom -> rep_flags st' tab lru doom.
Proof.
  intros Hk Hf p v' Hp Hv'. specialize (Hk p). rewrite Hv' in Hk. simpl in Hk.
  destruct (vns st !! p) as [v|] eqn:E; [|done]. injection Hk as -> -> ->. by apply Hf.
Qed.

Lemma rep_ref_frame st st' ref : keeps v_refcount st st' -> rep_ref st ref -> rep_ref st' ref.
Proof.
  intros Hk (H0 & Hs & Hp). split; [done|]. split.
  - destruct Hs as [v Hv]. destruct (keeps_some _ _ _ _ _ Hk Hv) as (v' & ? & _). by exists v'.
  - intros p Hne. rewrite Hp by done. symmetry. apply Hk.
Qed.

Lemma rep_heap_frame st st' : vn_heap st' = vn_heap st -> keeps v_refcount st st' -> rep_heap st -> rep_heap st'.
Proof.
  intros Hh Hk [Hw Hl]. unfold rep_heap. rewrite Hh. split; [done|]. intros p Hne [v Hv]. apply Hl; [done|].
  specialize (Hk p). rewrite Hv in Hk. by destruct (vns st !! p).
Qed.

(** The fields other than the LRU links. *)
Definition core v := (v_flags v, v_refcount v, (v_mount v, v_ino v), v_vnext v, (v_in_hash v, v_cached v)).

Lemma keeps_map {A B} (f : vnode -> A) (g : A -> B) st st' : keeps f st st' -> keeps (fun v => g (f v)) st st'.
Proof. intros Hk p. specialize (Hk p). destruct (vns st' !! p), (vns st !! p); simpl in *; congruence. Qed.

(** Only the vnodes differ. *)
Definition same_rest st st' : Prop :=
  vn_hash st' = vn_hash st /\ vn_count st' = vn_count st /\ vn_dead st' = vn_dead st /\ vn_heap st' = vn_heap st.

Lemma dll_member nxt' prv' l x : dll 0 nxt' prv' l -> x = 0 \/ x ∈ l -> is_Some (nxt' x) /\ is_Some (prv' x).
Proof.
  intros Hr [->|(l1 & l2 & ->)%list_elem_of_split].
  - destruct (dll_first _ _ _ Hr) as [-> ->]. done.
  - rewrite (dll_next _ _ _ _ _ Hr), (dll_prev _ _ _ _ _ Hr). done.
Qed.

Lemma nxt_vnode st p : is_Some (nxt st p) -> exists v, vns st !! p = Some v.
Proof. unfold nxt. destruct (vns st !! p) as [v|]; [by exists v|]. by intros [? ?]. Qed.

Lemma dll_neq nxt' prv' l1 x l2 : dll 0 nxt' prv' (l1 ++ x :: l2) -> before l1 <> x /\ after l2 <> x /\ x <> 0.
Proof.
  intros (Hnd & _). apply NoDup_cons in Hnd as [H0 Hnd]. assert (x <> 0) by set_solver.
  apply NoDup_app in Hnd as (_ & Hd & [Hx _]%NoDup_cons). split; [|split; [|done]].
  - destruct (before_in (z:=0) l1) as [-> |Hin]; [done|]. intros Hb. rewrite Hb in Hin. apply (Hd x Hin). by left.
  - destruct (after_in (z:=0) l2) as [-> |Hin]; [done|]. intros Ha. by rewrite Ha in Hin.
Qed.

Lemma vn_lru_unlink_spec x st l1 l2 :
  dll 0 (nxt st) (prv st) (l1 ++ x :: l2) ->
  returns (vn_lru_unlink x st) (fun st' =>
    dll 0 (nxt st') (prv st') (l1 ++ l2) /\ same_rest st st' /\ keeps core st st').
Proof.
  intros Hr. destruct (dll_neq _ _ _ _ _ Hr) as (Hb & Ha & H0).
  pose proof (dll_next _ _ _ _ _ Hr) as Hn. pose proof (dll_prev _ _ _ _ _ Hr) as Hp.
  destruct (nxt_vnode st x) as [v Hv]; [by rewrite Hn|]. unfold nxt in Hn. unfold prv in Hp. rewrite Hv in Hn, Hp.
  injection Hn as Hn. injection Hp as Hp.
  destruct (nxt_vnode st (before l1)) as [vb Hvb].
  { apply (dll_member _ _ _ (before l1) Hr). destruct (before_in (z:=0) l1); set_solver. }
  unfold vn_lru_unlink. rewrite (ld_ok _ _ _ Hv). ret. rewrite Hp, Hn, (upd_ok _ _ _ _ Hvb). ret.
  assert (vns (set_vns (<[before l1 := set_lru_next (after l2) vb]> (vns st)) st) !! x = Some v) as Hv1
    by (simpl; by rewrite lookup_insert_ne).
  rewrite (ld_ok _ _ _ Hv1). ret. rewrite Hp, Hn. set (st1 := set_vns _ st) in *.
  assert (keeps core st st1) as Hk1 by (by apply (keeps_upd core _ (set_lru_next (after l2)))).
  destruct (nxt_vnode st (after l2)) as [va Hva].
  { apply (dll_member _ _ _ (after l2) Hr). destruct (after_in (z:=0) l2); set_solver. }
  destruct (keeps_some _ _ _ _ _ Hk1 Hva) as (va' & Hva' & _).
  rewrite (upd_ok _ _ _ _ Hva'). simpl. split; [|split; [done|]].
  - eapply dll_unlink; [exact Hr|..]; unfold nxt, prv; simpl.
    + destruct (decide (before l1 = after l2)) as [E|E].
      * rewrite <- E, lookup_insert_eq. simpl. subst st1. simpl in Hva'. rewrite <- E, lookup_insert_eq in Hva'.
        injection Hva' as <-. done.
      * rewrite lookup_insert_ne by done. by rewrite lookup_insert_eq.
    + by rewrite lookup_insert_eq.
    + intros y Hy. destruct (decide (y = after l2)) as [->|E].
      * rewrite lookup_insert_eq. subst st1. simpl in Hva'. rewrite lookup_insert_ne in Hva' by done.
        rewrite Hva'. done.
      * rewrite !lookup_insert_ne by done. done.
    + intros y Hy. rewrite lookup_insert_ne by done. destruct (decide (y = before l1)) as [->|E].
      * rewrite lookup_insert_eq, Hvb. done.
      * by rewrite lookup_insert_ne.
  - eapply keeps_trans; [exact Hk1|]. by apply (keeps_upd core _ (set_lru_prev (before l1))).
Qed.

Lemma vn_lru_push_spec x st l v :
  dll 0 (nxt st) (prv st) l -> x <> 0 -> x ∉ l -> vns st !! x = Some v ->
  returns (vn_lru_push x st) (fun st' =>
    dll 0 (nxt st') (prv st') (x :: l) /\ same_rest st st' /\ keeps core st st').
Proof.
  intros Hr H0 Hxl Hv. destruct (dll_first _ _ _ Hr) as [Hf _].
  destruct (nxt_vnode st 0) as [h Hh]; [by rewrite Hf|]. unfold nxt in Hf. rewrite Hh in Hf. injection Hf as Hf.
  assert (after l <> x) as Hax by (destruct (after_in (z:=0) l); set_solver).
  unfold vn_lru_push. rewrite (ld_ok _ _ _ Hh). ret. rewrite Hf, (upd_ok _ _ _ _ Hv). ret.
  set (v1 := set_lru_next (after l) v). set (st1 := set_vns _ st).
  assert (vns st1 !! x = Some v1) as Hv1 by (simpl; by rewrite lookup_insert_eq).
  rewrite (upd_ok _ _ _ _ Hv1). ret. set (st2 := set_vns _ st1).
  assert (vns st2 = <[x := set_lru_prev 0 v1]> (vns st)) as Hm2 by (simpl; by rewrite insert_insert_eq).
  assert (keeps core st st2) as Hk2.
  { intros q. rewrite Hm2. destruct (decide (q = x)) as [->|]; [by rewrite lookup_insert_eq, Hv|by rewrite lookup_insert_ne]. }
  assert (vns st2 !! 0 = Some h) as Hh2 by (rewrite Hm2; by rewrite lookup_insert_ne).
  rewrite (ld_ok _ _ _ Hh2). ret. rewrite Hf. destruct (nxt_vnode st (after l)) as [va Hva].
  { apply (dll_member _ _ _ (after l) Hr). destruct (after_in (z:=0) l); set_solver. }
  assert (vns st2 !! after l = Some va) as Hva2 by (rewrite Hm2; by rewrite lookup_insert_ne).
  rewrite (upd_ok _ _ _ _ Hva2). ret. set (st3 := set_vns _ st2).
  assert (keeps core st2 st3) as Hk3 by (by apply (keeps_upd core _ (set_lru_prev x))).
  destruct (keeps_some _ _ _ _ _ Hk3 Hh2) as (h3 & Hh3 & _). rewrite (upd_ok _ _ _ _ Hh3). simpl.
  split; [|split; [done|]].
  - assert (forall y, y <> 0 -> vns (set_vns (<[0:=set_lru_next x h3]> (vns st3)) st3) !! y = vns st3 !! y) as Hy4
      by (intros; simpl; by rewrite lookup_insert_ne).
    assert (forall y, y <> after l -> vns st3 !! y = vns st2 !! y) as Hy3 by (intros; simpl; by rewrite lookup_insert_ne).
    assert (forall y, y <> x -> vns st2 !! y = vns st !! y) as Hy2 by (intros; rewrite Hm2; by rewrite lookup_insert_ne).
    assert (vns st2 !! x = Some (set_lru_prev 0 v1)) as Hx2 by (rewrite Hm2; by rewrite lookup_insert_eq).
    assert (vns st3 !! after l = Some (set_lru_prev x va)) as Hx3 by (simpl; by rewrite lookup_insert_eq).
    apply (dll_push_front _ _ _ _ x l Hr H0 Hxl); unfold nxt, prv.
    + simpl. by rewrite lookup_insert_eq.
    + rewrite Hy4, Hy3, Hx2 by done. done.
    + rewrite Hy4, Hy3, Hx2 by done. done.
    + destruct (decide (after l = 0)) as [E|E].
      * rewrite <- E, Hx3 in Hh3. injection Hh3 as <-. simpl. rewrite E, lookup_insert_eq. done.
      * rewrite Hy4, Hx3 by done. done.
    + intros y Hy0 Hyx. rewrite Hy4 by done. destruct (decide (y = after l)) as [->|E].
      * by rewrite Hx3, Hva.
      * by rewrite Hy3, Hy2.
    + intros y Hya Hyx. destruct (decide (y = 0)) as [->|E].
      * simpl. rewrite lookup_insert_eq. simpl. rewrite Hy3, Hh2 in Hh3 by done. injection Hh3 as <-. by rewrite Hh.
      * rewrite Hy4, Hy3, Hy2 by done. done.
  - eapply keeps_trans; [exact Hk2|]. eapply keeps_trans; [exact Hk3|]. by apply (keeps_upd core _ (set_lru_next x)).
Qed.

(** *** Hash chains *)

(** The fields other than the chain link. *)
Definition core2 v := (v_flags v, v_refcount v, (v_mount v, v_ino v), (v_lru_prev v, v_lru_next v), (v_in_hash v, v_cached v)).

(** The location behind the vnodes [l] of bucket [b]. *)
Definition loc_of (b : Z) (l : list Z) : loc := match last l with None => AtHash b | Some p => AtNext p end.

Lemma loc_of_snoc b l p : loc_of b (l ++ [p]) = AtNext p.
Proof. unfold loc_of. by rewrite last_snoc. Qed.

Lemma rd_loc_of st b h l1 l2 : getz (vn_hash st) b = Some h -> links (vnx st) h (l1 ++ l2) 0 ->
  rd_loc (loc_of b l1) st = Ret (after l2).
Proof.
  intros Hb Hl. destruct l1 as [|p l1 _] using rev_ind.
  - simpl. rewrite (rd_getz _ _ _ Hb). destruct l2; simpl in *; [by rewrite Hl|]. by destruct Hl as [-> _].
  - rewrite loc_of_snoc. rewrite <- app_assoc in Hl. apply links_next in Hl. simpl. unfold ld.
    unfold vnx in Hl. destruct (vns st !! p) as [v|]; [|done]. injection Hl as Hl. ret. by rewrite Hl.
Qed.

(** A chain without the vnode that was behind [l1]. *)
Definition unchained st st' (b : Z) (l1 l2 : list Z) : Prop :=
  (exists h, getz (vn_hash st') b = Some h /\ links (vnx st') h (l1 ++ l2) 0) /\
  (forall b', b' <> b -> getz (vn_hash st') b' = getz (vn_hash st) b') /\
  length (vn_hash st') = length (vn_hash st) /\ (forall p, p ∉ l1 -> vnx st' p = vnx st p) /\
  keeps core2 st st' /\ vn_count st' = vn_count st /\ vn_dead st' = vn_dead st /\ vn_heap st' = vn_heap st.

Lemma wr_loc_of_spec st b h l1 x l2 :
  getz (vn_hash st) b = Some h -> links (vnx st) h (l1 ++ x :: l2) 0 -> NoDup (l1 ++ x :: l2) ->
  returns (wr_loc (loc_of b l1) (after l2) st) (fun st' => unchained st st' b l1 l2).
Proof.
  intros Hb Hl Hnd. pose proof (links_next _ _ _ _ _ _ Hl) as Hx. fold (after l2) in Hx.
  destruct l1 as [|a l1 _] using rev_ind.
  - simpl. rewrite wr_ok by (by apply getz_Some_lt in Hb). ret. destruct Hl as (-> & q & Hq & Hl).
    rewrite Hx in Hq. injection Hq as <-. split; [|repeat split; try done].
    + exists (after l2). split; [|done]. simpl. apply getz_insert_eq. by apply getz_Some_lt in Hb.
    + intros b' Hne. simpl. apply getz_insert_ne; [apply getz_Some_lt in Hb; lia|done].
    + simpl. by rewrite length_insert.
  - rewrite loc_of_snoc. rewrite <- app_assoc in *. simpl in Hl, Hnd |- *.
    pose proof (links_next _ _ _ _ _ _ Hl) as Ha. unfold vnx in Ha.
    destruct (vns st !! a) as [va|] eqn:Ev; [|done]. rewrite (upd_ok _ _ _ _ Ev). simpl.
    apply NoDup_app in Hnd as Hnd'. destruct Hnd' as (_ & Hd & Hnd2).
    assert (forall y, y <> a -> vnx (set_vns (<[a:=set_vnext (after l2) va]> (vns st)) st) y = vnx st y) as Hy
      by (intros y Hy; unfold vnx; simpl; by rewrite lookup_insert_ne).
    split; [|repeat split; try done].
    + exists h. split; [done|]. rewrite <- app_assoc. simpl.
      apply (links_unlink (vnx st) _ h l1 a x l2 0 (after l2)); [done|done|done| |].
      * unfold vnx. simpl. by rewrite lookup_insert_eq.
      * intros y Hyin. apply Hy. intros ->. apply elem_of_app in Hyin as [Hin|Hin]; [by apply (Hd a Hin); left|].
        apply NoDup_cons in Hnd2 as [Hnin _]. set_solver.
    + intros p Hp. apply Hy. set_solver.
    + by apply (keeps_upd core2 _ (set_vnext (after l2))).
Qed.

Lemma chain_unlink_walk st b h x l2 fuel : forall l1,
  getz (vn_hash st) b = Some h -> forall l0, links (vnx st) h (l0 ++ l1 ++ x :: l2) 0 ->
  NoDup (l0 ++ l1 ++ x :: l2) -> 0 ∉ l0 ++ l1 ++ x :: l2 -> (length l1 < fuel)%nat ->
  chain_unlink fuel (loc_of b l0) x st = wr_loc (loc_of b (l0 ++ l1)) (after l2) st.
Proof.
  induction fuel as [|fuel IH]; intros l1 Hb l0 Hl Hnd H0 Hf; [lia|]. cbn [chain_unlink].
  rewrite (rd_loc_of st b h l0 (l1 ++ x :: l2)) by done. ret. destruct l1 as [|y l1]; simpl.
  - change (after (x :: l2)) with x. assert (x <> 0) by set_solver. zcmp. rewrite app_nil_r.
    pose proof (links_next _ _ _ _ _ _ Hl) as Hx. unfold vnx in Hx. unfold ld.
    destruct (vns st !! x) as [v|]; [|done]. injection Hx as Hx. ret. by rewrite Hx.
  - change (after (y :: l1 ++ x :: l2)) with y. assert (y <> 0) by set_solver.
    assert (y <> x) by (rewrite app_assoc in Hnd; apply NoDup_app in Hnd as (_ & Hd & _); intros ->; apply (Hd x); set_solver).
    zcmp.
    rewrite <- (loc_of_snoc b l0 y). rewrite (IH l1 Hb (l0 ++ [y])); rewrite <- ?app_assoc; try done.
    simpl in Hf. lia.
Qed.

Lemma rep_chain_live st tab b h l p : rep_tab st tab -> rep_chain st tab b h l -> p ∈ l ->
  p <> 0 /\ is_Some (vns st !! p).
Proof.
  intros Ht (_ & _ & Hin) Hp. apply Hin in Hp as (k & Hk & _). destruct (rt_key _ _ Ht k p Hk) as [H0 Hv].
  split; [done|]. destruct (vns st !! p); [by eexists|done].
Qed.

Lemma rep_chain_facts st tab b h l : rep_tab st tab -> rep_chain st tab b h l ->
  (length l < walk_fuel st)%nat /\ 0 ∉ l.
Proof.
  intros Ht Hl. split.
  - unfold walk_fuel. pose proof (nodup_size (vns st) l (proj1 (proj2 Hl))) as Hs.
    assert (length l <= size (vns st))%nat; [|lia]. apply Hs. intros p Hp. by eapply rep_chain_live.
  - intros H0. by destruct (rep_chain_live _ _ _ _ _ _ Ht Hl H0).
Qed.

Lemma rep_tab_inj st tab k k' p : rep_tab st tab -> tab !! k = Some p -> tab !! k' = Some p -> k = k'.
Proof.
  intros Ht Hk Hk'. destruct (rt_key _ _ Ht _ _ Hk) as [_ E]. destruct (rt_key _ _ Ht _ _ Hk') as [_ E'].
  congruence.
Qed.

Lemma vn_key_range m ino : 0 <= vn_key m ino < VNODE_CACHE_BUCKETS.
Proof.
  unfold vn_key. cbv zeta. set (h := Z.lxor _ (Z.shiftr _ 16)). change (VNODE_CACHE_BUCKETS - 1) with (Z.ones 6).
  rewrite Z.land_ones by lia. change VNODE_CACHE_BUCKETS with (2 ^ 6). apply Z.mod_pos_bound. lia.
Qed.

Lemma bucket st tab m ino : rep_tab st tab ->
  exists h l, getz (vn_hash st) (vn_key m ino) = Some h /\ rep_chain st tab (vn_key m ino) h l.
Proof.
  intros Ht. pose proof (vn_key_range m ino). destruct (getz_lt (vn_hash st) (vn_key m ino)) as [h Hh].
  { rewrite (rt_len _ _ Ht). done. }
  destruct (rt_chain _ _ Ht _ _ Hh) as [l Hl]. by exists h, l.
Qed.

Lemma vn_find_loop_spec st tab m ino fuel : rep_tab st tab -> forall l h,
  links (vnx st) h l 0 -> 0 ∉ l -> (length l < fuel)%nat -> (forall p, p ∈ l -> in_tab tab p) ->
  (forall p, tab !! (m, ino) = Some p -> p ∈ l) ->
  vn_find_loop fuel h m ino st = Ret (default 0 (tab !! (m, ino))).
Proof.
  intros Ht. induction fuel as [|fuel IH]; intros l h Hl H0 Hf Hin Htab; [lia|]. cbn [vn_find_loop].
  destruct l as [|x l].
  - simpl in Hl. subst h. simpl. destruct (tab !! (m, ino)) as [p|] eqn:E; [|done].
    specialize (Htab p eq_refl). set_solver.
  - destruct Hl as (-> & q & Hq & Hl). assert (x <> 0) by set_solver. zcmp.
    destruct (Hin x) as [k Hk]; [by left|]. destruct (rt_key _ _ Ht _ _ Hk) as [_ Hkey]. unfold vnx in Hq.
    unfold ld. destruct (vns st !! x) as [v|]; [|done]. injection Hq as Hq. injection Hkey as Hkey. ret.
    destruct (Z.eqb_spec (v_mount v) m), (Z.eqb_spec (v_ino v) ino); simpl.
    { subst. rewrite Hk. done. }
    all: rewrite Hq; apply (IH l); [done|set_solver|simpl in Hf; lia|intros p Hp; apply Hin; by right|];
      intros p Hp; pose proof (Htab p Hp) as [->|]%elem_of_cons; [|done];
      pose proof (rep_tab_inj _ _ _ _ _ Ht Hk Hp); subst k; congruence.
Qed.

Lemma vn_hash_find_spec st tab m ino : rep_tab st tab ->
  vn_hash_find m ino st = Ret (default 0 (tab !! (m, ino))).
Proof.
  intros Ht. destruct (bucket st tab m ino Ht) as (h & l & Hh & Hl).
  destruct (rep_chain_facts _ _ _ _ _ Ht Hl) as [Hf H0]. destruct Hl as (Hl & Hnd & Hin).
  unfold vn_hash_find. rewrite (rd_getz _ _ _ Hh). ret.
  apply (vn_find_loop_spec st tab m ino _ Ht l); [done|done|done| |].
  - intros p (k & Hk & _)%Hin. by exists k.
  - intros p Hp. apply Hin. by exists (m, ino).
Qed.

Lemma tab_without_lookup p tab k q : tab_without p tab !! k = Some q <-> tab !! k = Some q /\ q <> p.
Proof. unfold tab_without. rewrite map_lookup_filter_Some. done. Qed.

Lemma in_tab_without p tab q : in_tab (tab_without p tab) q <-> in_tab tab q /\ q <> p.
Proof.
  unfold in_tab. split.
  - intros [k Hk]. apply tab_without_lookup in Hk as [Hk Hne]. split; [by exists k|done].
  - intros [[k Hk] Hne]. exists k. by apply tab_without_lookup.
Qed.

Lemma rep_tab_remove st st' tab k x l1 l2 h :
  rep_tab st tab -> tab !! k = Some x -> getz (vn_hash st) (vn_key k.1 k.2) = Some h ->
  rep_chain st tab (vn_key k.1 k.2) h (l1 ++ x :: l2) ->
  unchained st st' (vn_key k.1 k.2) l1 l2 -> rep_tab st' (tab_without x tab).
Proof.
  intros Ht Hk Hh Hc ((h' & Hh' & Hl') & Hhash & Hlen & Hvnx & Hkeep & _).
  pose proof Hc as (Hl & Hnd & Hin). apply NoDup_app in Hnd as Hnd'. destruct Hnd' as (Hnd1 & Hdis & [Hx Hnd2]%NoDup_cons).
  assert (keeps (fun v => (v_mount v, v_ino v)) st st') as Hkey.
  { apply (keeps_map core2 (fun '(_, _, k, _, _) => k) _ _ Hkeep). }
  split.
  - rewrite Hlen. apply (rt_len _ _ Ht).
  - intros k' p [Hp Hne]%tab_without_lookup. rewrite Hkey. by apply (rt_key _ _ Ht).
  - intros b hb Hb. destruct (decide (b = vn_key k.1 k.2)) as [->|Hne].
    + rewrite Hh' in Hb. injection Hb as <-. exists (l1 ++ l2). split; [done|]. split.
      { rewrite <- Permutation_middle in Hnd. by apply NoDup_cons in Hnd as [_ Hnd]. }
      intros p. setoid_rewrite tab_without_lookup. assert (p ∈ l1 ++ l2 <-> p ∈ l1 ++ x :: l2 /\ p <> x) as ->.
      { split; [|set_solver]. intros Hp. split; [set_solver|]. intros ->.
        apply elem_of_app in Hp as [Hp|Hp]; [apply (Hdis x Hp); by left|done]. }
      rewrite Hin. split; [intros ((k' & H1 & H2) & H3); by exists k'|intros (k' & (H1 & H2) & H3); split; [by exists k'|done]].
    + rewrite Hhash in Hb by done. destruct (rt_chain _ _ Ht b hb Hb) as (l & Hlb & Hndb & Hinb). exists l.
      assert (forall p, p ∈ l -> p ∉ l1 ++ x :: l2) as Hdj.
      { intros p (k1 & H1 & H2)%Hinb (k2 & H3 & H4)%Hin. rewrite (rep_tab_inj _ _ _ _ _ Ht H1 H3) in H2. congruence. }
      split; [|split; [done|]].
      * eapply links_frame; [|done]. intros p Hp. apply Hvnx. apply Hdj in Hp. set_solver.
      * intros p. setoid_rewrite tab_without_lookup. rewrite Hinb. split; [|naive_solver].
        intros (k1 & H1 & H2). exists k1. split; [|done]. split; [done|]. intros ->.
        apply (Hdj x); [apply Hinb; by exists k1|set_solver].
Qed.

(** [p] is out of its chain, nothing else has changed. *)
Definition unhashed st st' tab p : Prop :=
  rep_tab st' (tab_without p tab) /\ keeps core2 st st' /\
  vn_count st' = vn_count st /\ vn_dead st' = vn_dead st /\ vn_heap st' = vn_heap st.

Lemma chain_unlink_spec st tab k p : rep_tab st tab -> tab !! k = Some p ->
  returns (chain_unlink (walk_fuel st) (AtHash (vn_key k.1 k.2)) p st) (fun st' => unhashed st st' tab p).
Proof.
  intros Ht Hk. destruct (bucket st tab k.1 k.2 Ht) as (h & l & Hh & Hl).
  destruct (rep_chain_facts _ _ _ _ _ Ht Hl) as [Hf H0]. pose proof Hl as (Hlk & Hnd & Hin).
  assert (p ∈ l) as (l1 & l2 & ->)%list_elem_of_split by (apply Hin; by exists k).
  change (AtHash (vn_key k.1 k.2)) with (loc_of (vn_key k.1 k.2) []).
  rewrite (chain_unlink_walk st _ h p l2 _ l1 Hh []); try done.
  2:{ rewrite length_app in Hf. lia. }
  eapply returns_mono; [by apply (wr_loc_of_spec st _ h l1 p l2)|]. intros st' Hu. cbn [app] in Hu.
  split; [by eapply rep_tab_remove|]. destruct Hu as (_ & _ & _ & _ & ? & ? & ? & ?). done.
Qed.

Lemma tab_without_delete tab k p : (forall k', tab !! k' = Some p -> k' = k) -> tab !! k = Some p ->
  tab_without p tab = delete k tab /\ Z.of_nat (size (tab_without p tab)) = Z.of_nat (size tab) - 1.
Proof.
  intros Ht Hk. assert (tab_without p tab = delete k tab) as E.
  2:{ split; [done|]. rewrite E, map_size_delete_Some by (by rewrite Hk).
      pose proof (map_size_ne_0_lookup_2 tab k ltac:(by rewrite Hk)). lia. } apply map_eq. intros k'. destruct (decide (k' = k)) as [->|Hne].
  - rewrite lookup_delete_eq. destruct (tab_without p tab !! k) eqn:E; [|done].
    apply tab_without_lookup in E as [E ?]. congruence.
  - rewrite lookup_delete_ne by done. destruct (tab !! k') as [q|] eqn:E.
    + apply tab_without_lookup. split; [done|]. intros ->. apply Hne. by apply Ht.
    + destruct (tab_without p tab !! k') eqn:E'; [|done]. apply tab_without_lookup in E' as [? _]. congruence.
Qed.

Lemma lru_live st s p : vrel st s -> p ∈ s_lru s -> p <> 0.
Proof. intros Hr Hp ->. destruct (rel_lru _ _ Hr) as ([? _]%NoDup_cons & _). done. Qed.

(** All that [s_remove] needs. *)
Lemma vrel_removed st s k p st' :
  vrel st s -> s_tab s !! k = Some p -> rep_tab st' (tab_without p (s_tab s)) ->
  dll 0 (nxt st') (prv st') (without p (s_lru s)) ->
  (forall q, q <> p -> (fun v => (v_in_hash v, v_cached v, v_flags v)) <$> vns st' !! q =
                       (fun v => (v_in_hash v, v_cached v, v_flags v)) <$> vns st !! q) ->
  (forall v', vns st' !! p = Some v' -> v_in_hash v' = 0 /\ v_cached v' = 0 /\
     v_flags <$> vns st !! p = Some (v_flags v')) ->
  keeps v_refcount st st' -> vn_count st' = vn_count st - 1 -> vn_dead st' = vn_dead st ->
  vn_heap st' = vn_heap st -> vrel st' (s_remove p s).
Proof.
  intros Hr Hk Ht Hl Hq Hp Href Hcnt Hdead Hheap. destruct Hr as [rt rl rf rr rh rc rd]. split; simpl.
  - done.
  - done.
  - intros q v' H0 Hv'. rewrite in_tab_without, elem_of_without. destruct (decide (q = p)) as [->|Hne].
    + destruct (Hp v' Hv') as (-> & -> & Hfl). destruct (vns st !! p) as [v|] eqn:E; [|done].
      injection Hfl as <-. destruct (rf p v H0 E) as (_ & _ & Hd). split; [|split; [|done]]; naive_solver.
    + specialize (Hq q Hne). rewrite Hv' in Hq. destruct (vns st !! q) as [v|] eqn:E; [|done].
      injection Hq as -> -> ->. destruct (rf q v H0 E) as (H1 & H2 & H3). naive_solver.
  - by eapply rep_ref_frame.
  - by eapply rep_heap_frame.
  - rewrite Hcnt, rc. symmetry. apply (tab_without_delete (s_tab s) k p); [|done].
    intros k' Hk'. by apply (rep_tab_inj st (s_tab s) k' k p).
  - by rewrite Hdead.
Qed.

Lemma vn_destroy_spec st s p r : vrel st s -> p <> 0 -> s_ref s !! p = Some r -> ~ in_tab (s_tab s) p -> p ∉ s_lru s ->
  returns (vn_destroy p st) (fun st' => vrel st' (s_destroy p s)).
Proof.
  intros [rt rl rf rr rh rc rd] H0 Hr Ht Hl. destruct rr as (Hz & Hs & Href).
  rewrite Href in Hr by done. destruct (vns st !! p) as [v|] eqn:Hv; [|done].
  unfold vn_destroy. rewrite (ld_ok _ _ _ Hv). ret.
  assert (forall q, q <> p -> delete p (vns st) !! q = vns st !! q) as Hq by (intros; by apply lookup_delete_ne).
  destruct rh as [Hw Hlive]. destruct (kfree_live (vn_heap st) p Hw (Hlive p H0 ltac:(by eexists))) as [Hw' Hl'].
  split; simpl.
  - destruct rt as [H1 H2 H3]. split; simpl; [done| |].
    + intros k q Hk. rewrite Hq by (intros ->; apply Ht; by exists k). by apply H2.
    + intros b h Hb. destruct (H3 b h Hb) as (l & Hlk & Hnd & Hin). exists l. split; [|done].
      eapply links_frame; [|done]. intros q (k & Hk & _)%Hin. unfold vnx. simpl. rewrite Hq; [done|].
      intros ->. apply Ht. by exists k.
  - eapply dll_frame; [|done]. intros q Hin. unfold nxt, prv. simpl. rewrite Hq; [done|]. intros ->.
    by destruct Hin.
  - intros q v' Hq0 Hv'. simpl in Hv'. assert (q <> p) as Hne by (intros ->; by rewrite lookup_delete_eq in Hv').
    rewrite Hq in Hv' by done. destruct (rf q v' Hq0 Hv') as (A & B & C). split; [done|]. split; [done|].
    rewrite C. set_solver.
  - split; [by rewrite lookup_delete_ne|]. split; [simpl; by rewrite Hq|]. intros q Hq0. simpl.
    destruct (decide (q = p)) as [->|Hne]; [by rewrite !lookup_delete_eq|]. rewrite Hq, lookup_delete_ne by done.
    by apply Href.
  - split; [done|]. simpl. intros q Hq0 Hsome. rewrite Hl'. assert (q <> p) as Hne.
    { intros ->. rewrite lookup_delete_eq in Hsome. by destruct Hsome. }
    rewrite Hq in Hsome by done. apply elem_of_difference. split; [by apply Hlive|set_solver].
  - done.
  - by rewrite rd.
Qed.

(** The fields no step of taking a vnode out changes. *)
Definition core3 v := (v_flags v, v_refcount v, (v_mount v, v_ino v), v_vnext v).

Lemma vrel_take_out st s k p st1 st2 :
  vrel st s -> s_tab s !! k = Some p -> unhashed st st1 (s_tab s) p ->
  dll 0 (nxt st2) (prv st2) (without p (s_lru s)) -> same_rest st1 st2 -> keeps core3 st1 st2 ->
  (forall q, q <> p -> (fun v => (v_in_hash v, v_cached v)) <$> vns st2 !! q = (fun v => (v_in_hash v, v_cached v)) <$> vns st1 !! q) ->
  (forall v, vns st2 !! p = Some v -> v_in_hash v = 0 /\ v_cached v = 0) ->
  vrel (set_count (vn_count st2 - 1) st2) (s_remove p s).
Proof.
  intros Hr Hk (Ht & Hk2 & Hc1 & Hd1 & Hh1) Hl (Hh & Hc & Hd & Hhp) Hk3 Hq Hp.
  assert (keeps v_flags st st2) as Hfl.
  { eapply keeps_trans; [apply (keeps_map core2 (fun '(x, _, _, _, _) => x) _ _ Hk2)|].
    apply (keeps_map core3 (fun '(x, _, _, _) => x) _ _ Hk3). }
  apply (vrel_removed st s k p); simpl; try done.
  - eapply rep_tab_frame, Ht; [done| |].
    + apply (keeps_map core3 (fun '(_, _, _, x) => x) _ _ Hk3).
    + apply (keeps_map core3 (fun '(_, _, x, _) => x) _ _ Hk3).
  - intros q Hne. specialize (Hq q Hne). specialize (Hfl q).
    pose proof (keeps_map core2 (fun '(_, _, _, _, x) => x) _ _ Hk2 q) as Hf2. simpl in Hf2. simpl in Hq.
    destruct (vns st2 !! q), (vns st1 !! q), (vns st !! q); simpl in *; congruence.
  - intros v Hv. destruct (Hp v Hv). split; [done|]. split; [done|]. rewrite <- Hfl, Hv. done.
  - eapply (keeps_trans _ _ st1); [apply (keeps_map core2 (fun '(_, x, _, _, _) => x) _ _ Hk2)|].
    apply (keeps_map core3 (fun '(_, x, _, _) => x) _ _ Hk3).
  - lia.
  - congruence.
  - congruence.
Qed.

Lemma set_count_id st : set_count (vn_count st) st = st.
Proof. by destruct st. Qed.

Lemma dll_unhashed st st1 tab p lru : unhashed st st1 tab p -> dll 0 (nxt st) (prv st) lru -> dll 0 (nxt st1) (prv st1) lru.
Proof.
  intros (_ & Hk & _). apply rep_lru_frame.
  - apply (keeps_map core2 (fun '(_, _, _, (_, x), _) => x) _ _ Hk).
  - apply (keeps_map core2 (fun '(_, _, _, (x, _), _) => x) _ _ Hk).
Qed.

Lemma tab_vnode st s k p : vrel st s -> s_tab s !! k = Some p ->
  p <> 0 /\ exists v, vns st !! p = Some v /\ v_mount v = k.1 /\ v_ino v = k.2 /\ s_ref s !! p = Some (v_refcount v).
Proof.
  intros Hr Hk. destruct (rt_key _ _ (rel_tab _ _ Hr) k p Hk) as [H0 Hv]. split; [done|].
  destruct (rel_ref _ _ Hr) as (_ & _ & Href). rewrite Href by done.
  destruct (vns st !! p) as [v|]; [|done]. injection Hv as <-. by exists v.
Qed.

(** Off the LRU list and out of the table, the steps of both callers. *)
Lemma lru_out_spec st s k p st1 : vrel st s -> s_tab s !! k = Some p -> unhashed st st1 (s_tab s) p -> p ∈ s_lru s ->
  returns (vn_lru_unlink p st1) (fun st2 =>
    dll 0 (nxt st2) (prv st2) (without p (s_lru s)) /\ same_rest st1 st2 /\ keeps core st1 st2 /\
    exists v, vns st2 !! p = Some v).
Proof.
  intros Hr Hk Hu (l1 & l2 & El)%list_elem_of_split. pose proof (rel_lru _ _ Hr) as Hring. rewrite El in Hring |- *.
  pose proof (dll_unhashed _ _ _ _ _ Hu Hring) as Hring1.
  eapply returns_mono; [by apply (vn_lru_unlink_spec p st1 l1 l2)|]. intros st2 (Hl & Hs & Hc).
  destruct Hring as ([_ Hnd]%NoDup_cons & _). rewrite without_split by done. split; [done|].
  split; [done|]. split; [done|]. destruct (tab_vnode _ _ _ _ Hr Hk) as (_ & v & Hv & _).
  destruct Hu as (_ & Hk2 & _). destruct (keeps_some _ _ _ _ _ Hk2 Hv) as (v1 & Hv1 & _).
  destruct (keeps_some _ _ _ _ _ Hc Hv1) as (v2 & Hv2 & _). by exists v2.
Qed.

Lemma not_in_removed p s : ~ in_tab (s_tab (s_remove p s)) p /\ p ∉ s_lru (s_remove p s).
Proof. split; simpl; [rewrite in_tab_without|rewrite elem_of_without]; naive_solver. Qed.

(** One victim. *)
Lemma evict_spec st s k p v :
  vrel st s -> s_tab s !! k = Some p -> p ∈ s_lru s -> vns st !! p = Some v ->
  returns (evict p v st) (fun st' => vrel st' (s_destroy p (s_remove p s))).
Proof.
  intros Hr Hk Hp Hvp. destruct (tab_vnode _ _ _ _ Hr Hk) as (H0 & v0 & Hv0 & Hm & Hi & Href).
  rewrite Hvp in Hv0. injection Hv0 as <-. unfold evict. rewrite Hm, Hi. clear Hm Hi.
  eapply returns_bind; [by apply chain_unlink_spec; [apply rel_tab|]|]. intros st1 Hu.
  eapply returns_bind; [by eapply lru_out_spec|]. intros st2 (Hl & Hs & Hc & w & Hw).
  rewrite (upd_ok _ _ _ _ Hw). ret. set (st3 := set_vns _ st2).
  assert (vns st3 !! p = Some (set_in_hash 0 w)) as Hv3 by (simpl; by rewrite lookup_insert_eq).
  rewrite (upd_ok _ _ _ _ Hv3). ret. set (st4 := set_vns _ st3).
  apply (vn_destroy_spec _ (s_remove p s) p (v_refcount v)); [|done|done|by apply not_in_removed|by apply not_in_removed].
  apply (vrel_take_out st s k p st1 st4); [done|done|done| |done| | |].
  - eapply rep_lru_frame, Hl; intros q; simpl.
    + rewrite insert_insert_eq. apply (keeps_upd v_lru_next p (fun v => set_cached 0 (set_in_hash 0 v)) st2 w Hw eq_refl).
    + rewrite insert_insert_eq. apply (keeps_upd v_lru_prev p (fun v => set_cached 0 (set_in_hash 0 v)) st2 w Hw eq_refl).
  - eapply keeps_trans; [apply (keeps_map core (fun '(a, b, c, d, _) => (a, b, c, d)) _ _ Hc)|]. intros q. simpl.
    rewrite insert_insert_eq. apply (keeps_upd core3 p (fun v => set_cached 0 (set_in_hash 0 v)) st2 w Hw eq_refl).
  - intros q Hne. simpl. rewrite !lookup_insert_ne by done.
    apply (keeps_map core (fun '(_, _, _, _, x) => x) _ _ Hc).
  - intros u Hu'. simpl in Hu'. rewrite lookup_insert_eq in Hu'. injection Hu' as <-. done.
Qed.

(** *** The abstract operations keep the abstract invariant *)

Lemma spec_ok_evict p s : spec_ok s -> p ∈ s_lru s -> spec_ok (s_destroy p (s_remove p s)).
Proof.
  intros [H1 H2 H3 H4 H5 H6] Hp. split; simpl.
  - intros k q [Hk Hne]%tab_without_lookup. rewrite lookup_delete_ne by done. by apply (H1 k).
  - intros k k' q [Hk _]%tab_without_lookup [Hk' _]%tab_without_lookup. by apply (H2 k k' q).
  - by apply NoDup_filter.
  - intros q. rewrite elem_of_without, in_tab_without, H4. destruct (decide (q = p)) as [->|Hne].
    + rewrite lookup_delete_eq. naive_solver.
    + rewrite lookup_delete_ne by done. naive_solver.
  - intros q r Hq. destruct (decide (q = p)) as [->|Hne]; [by rewrite lookup_delete_eq in Hq|].
    rewrite lookup_delete_ne in Hq by done. destruct (H5 q r Hq) as [Hr Hl]. split; [done|].
    intros Hr0. apply elem_of_without. split; [by apply Hl|done].
  - intros q [Hq Hne]%elem_of_difference. destruct (H6 q Hq) as [Hs Ht]. rewrite lookup_delete_ne by set_solver.
    split; [done|]. rewrite in_tab_without. naive_solver.
Qed.

Lemma s_trim_step_small p s : Z.of_nat (size (s_tab s)) <= VNODE_CACHE_MAX -> s_trim_step p s = s.
Proof. intros Hs. unfold s_trim_step. zcmp. done. Qed.

Lemma s_trim_small l s : Z.of_nat (size (s_tab s)) <= VNODE_CACHE_MAX -> foldl (fun s p => s_trim_step p s) s l = s.
Proof. intros Hs. induction l as [|p l IH]; [done|]. simpl. rewrite s_trim_step_small by done. apply IH. Qed.

(** Evicting the last vnode of the LRU list first. *)
Lemma s_trim_big s l p : s_lru s = l ++ [p] -> spec_ok s -> VNODE_CACHE_MAX < Z.of_nat (size (s_tab s)) ->
  s_trim s = s_trim (s_destroy p (s_remove p s)) /\ s_lru (s_destroy p (s_remove p s)) = l.
Proof.
  intros El Hok Hs. assert (s_lru (s_destroy p (s_remove p s)) = l) as El'.
  { simpl. pose proof (ok_lru_nodup _ Hok) as Hnd. rewrite El in Hnd |- *. rewrite without_split by done.
    by rewrite app_nil_r. }
  split; [|done]. unfold s_trim at 2. rewrite El'. unfold s_trim. rewrite El, rev_app_distr. simpl.
  unfold s_trim_step at 2. zcmp. done.
Qed.

Lemma trim_loop_spec fuel : forall st s, vrel st s -> spec_ok s -> (length (s_lru s) < fuel)%nat ->
  returns (trim_loop fuel st) (fun st' => vrel st' (s_trim s) /\ spec_ok (s_trim s)).
Proof.
  induction fuel as [|fuel IH]; intros st s Hr Hok Hf; [lia|]. cbn [trim_loop].
  rewrite (rel_count _ _ Hr). destruct (Z.leb_spec (Z.of_nat (size (s_tab s))) VNODE_CACHE_MAX) as [Hle|Hgt].
  { ret. unfold s_trim. by rewrite s_trim_small. }
  destruct (dll_first _ _ _ (rel_lru _ _ Hr)) as [_ Hp0]. unfold prv in Hp0.
  destruct (vns st !! 0) as [h|] eqn:Eh; [|done]. injection Hp0 as Hp0. rewrite (ld_ok _ _ _ Eh). ret. rewrite Hp0.
  destruct (s_lru s) as [|p l _] eqn:El using rev_ind.
  { unfold before_of. simpl. unfold s_trim. by rewrite El. }
  unfold before_of. rewrite last_snoc. simpl default. assert (p ∈ s_lru s) as Hpl by (rewrite El; set_solver).
  pose proof (lru_live _ _ _ Hr Hpl). zcmp. apply (ok_lru _ Hok) in Hpl as Hpl'. destruct Hpl' as ([k Hk] & Hr0).
  destruct (tab_vnode _ _ _ _ Hr Hk) as (_ & v & Hv & _ & _ & Href). rewrite Hr0 in Href. injection Href as Href.
  rewrite (ld_ok _ _ _ Hv). ret. rewrite <- Href. simpl.
  destruct (s_trim_big s l p El Hok Hgt) as [Ht Hl']. rewrite Ht.
  eapply returns_bind; [by eapply evict_spec|]. intros st' Hr'. apply IH; [done|by apply spec_ok_evict|].
  rewrite Hl'. rewrite length_app in Hf. simpl in Hf. lia.
Qed.

Lemma lru_fuel st s : vrel st s -> (length (s_lru s) < walk_fuel st)%nat.
Proof.
  intros Hr. unfold walk_fuel. destruct (rel_lru _ _ Hr) as (Hnd & Hl & _).
  pose proof (nodup_size (vns st) (s_lru s)) as Hs. apply NoDup_cons in Hnd as [_ Hnd].
  assert (length (s_lru s) <= size (vns st))%nat; [|lia]. apply Hs; [done|]. intros p Hp.
  destruct (dll_member _ _ _ p (rel_lru _ _ Hr)) as [Hs' _]; [by right|]. apply nxt_vnode in Hs' as [v Hv]. by exists v.
Qed.

Lemma vn_cache_trim_spec st s : vrel st s -> spec_ok s ->
  returns (vn_cache_trim st) (fun st' => vrel st' (s_trim s) /\ spec_ok (s_trim s)).
Proof. intros Hr Hok. apply trim_loop_spec; [done|done|by apply lru_fuel]. Qed.

(** *** References *)

Lemma vrel_setref st s p v r : vrel st s -> p <> 0 -> vns st !! p = Some v ->
  vrel (set_vns (<[p := set_refcount r v]> (vns st)) st) (s_setref p r s).
Proof.
  intros [rt rl rf rr rh rc rd] H0 Hv.
  pose proof (fun A f => @keeps_upd A f p (set_refcount r) st v Hv) as Hk. split; simpl; try done.
  - eapply rep_tab_frame, rt; [done|by apply Hk|by apply Hk].
  - eapply rep_lru_frame, rl; by apply Hk.
  - eapply rep_flags_frame, rf. by apply Hk.
  - destruct rr as (Hz & Hs & Href). split; [by rewrite lookup_insert_ne|]. split; [simpl; by rewrite lookup_insert_ne|].
    intros q Hq. simpl. destruct (decide (q = p)) as [->|Hne]; [by rewrite !lookup_insert_eq|].
    rewrite !lookup_insert_ne by done. by apply Href.
  - destruct rh as [Hw Hl]. split; [done|]. simpl. intros q Hq Hs. apply Hl; [done|].
    destruct (decide (q = p)) as [->|Hne]; [by rewrite Hv|]. by rewrite lookup_insert_ne in Hs.
Qed.

Lemma spec_ok_setref s p r r' : spec_ok s -> s_ref s !! p = Some r -> 0 < r -> 0 < r' -> spec_ok (s_setref p r' s).
Proof.
  intros [H1 H2 H3 H4 H5 H6] Hp Hr Hr'. split; simpl; try done.
  - intros k q Hk. destruct (decide (q = p)) as [->|]; [by rewrite lookup_insert_eq|].
    rewrite lookup_insert_ne by done. by apply (H1 k).
  - intros q. rewrite H4. destruct (decide (q = p)) as [->|]; [|by rewrite lookup_insert_ne].
    rewrite lookup_insert_eq. split; intros [_ E]; [rewrite Hp in E|]; injection E as E; lia.
  - intros q x Hq. destruct (decide (q = p)) as [->|].
    + rewrite lookup_insert_eq in Hq. injection Hq as <-. lia.
    + rewrite lookup_insert_ne in Hq by done. by apply H5.
  - intros q Hq. destruct (H6 q Hq) as [Hs Ht]. split; [|done].
    destruct (decide (q = p)) as [->|]; [by rewrite lookup_insert_eq|by rewrite lookup_insert_ne].
Qed.

Lemma ref_vnode st s p r : vrel st s -> s_ref s !! p = Some r -> p <> 0 /\ exists v, vns st !! p = Some v /\ v_refcount v = r.
Proof.
  intros Hr Hp. destruct (rel_ref _ _ Hr) as (Hz & _ & Href). assert (p <> 0) as H0 by congruence. split; [done|].
  rewrite Href in Hp by done. destruct (vns st !! p) as [v|]; [|done]. injection Hp as Hp. by exists v.
Qed.

Lemma vnode_ref_spec st s p r : vrel st s -> spec_ok s -> s_ref s !! p = Some r -> 0 < r < 2 ^ 31 - 1 ->
  returns (vnode_ref p st) (fun st' => vrel st' (s_setref p (r + 1) s) /\ spec_ok (s_setref p (r + 1) s)).
Proof.
  intros Hr Hok Hp Hlt. destruct (ref_vnode _ _ _ _ Hr Hp) as (H0 & v & Hv & Hvr). unfold vnode_ref. zcmp.
  rewrite (ld_ok _ _ _ Hv). ret. rewrite signed_ok by (change (2 ^ (32 - 1)) with (2 ^ 31); lia). ret.
  rewrite (upd_ok _ _ _ _ Hv), Hvr. simpl. split; [by apply vrel_setref|]. apply (spec_ok_setref s p r); [done|done|lia|lia].
Qed.

(** A vnode of the table without references goes to the front of the list. *)
Definition s_push p s : vspec := VSpec (s_tab s) (s_ref s) (p :: s_lru s) (s_doom s) (s_dead s).

Lemma push_spec st s p v : vrel st s -> p <> 0 -> vns st !! p = Some v -> p ∉ s_lru s ->
  returns (st ← upd p (set_cached 1) st; vn_lru_push p st) (fun st' => vrel st' (s_push p s)).
Proof.
  intros [rt rl rf rr rh rc rd] H0 Hv Hpl.
  pose proof (fun A f => @keeps_upd A f p (set_cached 1) st v Hv) as Hk.
  rewrite (upd_ok _ _ _ _ Hv). ret. set (st1 := set_vns _ st) in *.
  assert (vns st1 !! p = Some (set_cached 1 v)) as Hv1 by (simpl; by rewrite lookup_insert_eq).
  eapply returns_mono; [eapply (vn_lru_push_spec p st1 (s_lru s)); [|done|done|exact Hv1]|].
  { eapply rep_lru_frame, rl; by apply Hk. }
  intros st2 (Hl & (Hh & Hc & Hd & Hhp) & Hcore). cbv beta in *.
  assert (keeps core3 st st2) as Hk3.
  { eapply keeps_trans; [by apply (Hk _ core3)|]. apply (keeps_map core (fun '(a, b, c, d, _) => (a, b, c, d)) _ _ Hcore). }
  split; simpl; try done.
  - eapply rep_tab_frame, rt; [done| |].
    + apply (keeps_map core3 (fun '(_, _, _, x) => x) _ _ Hk3).
    + apply (keeps_map core3 (fun '(_, _, x, _) => x) _ _ Hk3).
  - intros q w Hq Hw. pose proof (Hcore q) as Hcq. rewrite Hw in Hcq.
    destruct (decide (q = p)) as [->|Hne].
    + rewrite Hv1 in Hcq. injection Hcq as E1 _ _ _ _ E2 E3. rewrite E1, E2, E3. simpl.
      destruct (rf p v Hq Hv) as (A & B & C). split; [done|]. split; [|done]. split; [intros _; by left|done].
    + simpl in Hcq. rewrite lookup_insert_ne in Hcq by done. destruct (vns st !! q) as [u|] eqn:Eu; [|done].
      injection Hcq as E1 _ _ _ _ E2 E3. rewrite E1, E2, E3. destruct (rf q u Hq Eu) as (A & B & C).
      split; [done|]. split; [|done]. rewrite B. set_solver.
  - eapply rep_ref_frame, rr. apply (keeps_map core3 (fun '(_, x, _, _) => x) _ _ Hk3).
  - eapply rep_heap_frame, rh; [done|]. apply (keeps_map core3 (fun '(_, x, _, _) => x) _ _ Hk3).
  - by rewrite Hc.
  - by rewrite Hd.
Qed.

Lemma spec_ok_push s p r : spec_ok s -> s_ref s !! p = Some r -> 0 < r -> in_tab (s_tab s) p ->
  spec_ok (s_push p (s_setref p 0 s)).
Proof.
  intros [H1 H2 H3 H4 H5 H6] Hp Hr Ht. assert (p ∉ s_lru s) as Hpl by (rewrite H4, Hp; intros [_ E]; injection E; lia).
  split; simpl; try done.
  - intros k q Hk. destruct (decide (q = p)) as [->|]; [by rewrite lookup_insert_eq|].
    rewrite lookup_insert_ne by done. by apply (H1 k).
  - by constructor.
  - intros q. rewrite elem_of_cons, H4. destruct (decide (q = p)) as [->|].
    + rewrite lookup_insert_eq. naive_solver.
    + rewrite lookup_insert_ne by done. naive_solver.
  - intros q x Hq. destruct (decide (q = p)) as [->|].
    + rewrite lookup_insert_eq in Hq. injection Hq as <-. split; [lia|]. intros _. by left.
    + rewrite lookup_insert_ne in Hq by done. destruct (H5 q x Hq). split; [done|]. intros. right. naive_solver.
  - intros q Hq. destruct (H6 q Hq) as [Hs Hnt]. split; [|done].
    destruct (decide (q = p)) as [->|]; [by rewrite lookup_insert_eq|by rewrite lookup_insert_ne].
Qed.

Lemma spec_ok_destroy s p r : spec_ok s -> s_ref s !! p = Some r -> 0 < r -> ~ in_tab (s_tab s) p ->
  spec_ok (s_destroy p s).
Proof.
  intros [H1 H2 H3 H4 H5 H6] Hp Hr Ht. assert (p ∉ s_lru s) as Hpl by (rewrite H4; naive_solver).
  split; simpl; try done.
  - intros k q Hk. rewrite lookup_delete_ne; [by apply (H1 k)|]. intros ->. apply Ht. by exists k.
  - intros q. rewrite H4. destruct (decide (q = p)) as [->|]; [|by rewrite lookup_delete_ne].
    rewrite lookup_delete_eq. naive_solver.
  - intros q x Hq. destruct (decide (q = p)) as [->|]; [by rewrite lookup_delete_eq in Hq|].
    rewrite lookup_delete_ne in Hq by done. by apply H5.
  - intros q [Hq Hne]%elem_of_difference. destruct (H6 q Hq) as [Hs Hnt]. split; [|done].
    rewrite lookup_delete_ne by set_solver. done.
Qed.

Lemma s_destroy_setref p r s : s_destroy p (s_setref p r s) = s_destroy p s.
Proof. unfold s_destroy, s_setref. simpl. by rewrite delete_insert_eq. Qed.

Lemma unref_count_spec st s p r : vrel st s -> s_ref s !! p = Some r -> 0 < r <= 2 ^ 31 - 1 ->
  returns (unref_count p st) (fun '(doit, st') => doit = (r - 1 <=? 0) /\ vrel st' (s_setref p (r - 1) s)).
Proof.
  intros Hr Hp Hpos. destruct (ref_vnode _ _ _ _ Hr Hp) as (H0 & v & Hv & Hvr). unfold unref_count.
  rewrite (ld_ok _ _ _ Hv). ret. rewrite signed_ok by (change (2 ^ (32 - 1)) with (2 ^ 31); lia). ret.
  rewrite (upd_ok _ _ _ _ Hv), Hvr. ret. split; [done|]. by apply vrel_setref.
Qed.

Lemma vnode_unref_spec st s p r : vrel st s -> spec_ok s -> s_ref s !! p = Some r -> 0 < r ->
  r <= 2 ^ 31 - 1 -> returns (vnode_unref p st) (fun st' => vrel st' (s_unref p s) /\ spec_ok (s_unref p s)).
Proof.
  intros Hr Hok Hp Hpos Hlt. destruct (ref_vnode _ _ _ _ Hr Hp) as (H0 & v & Hv & Hvr). unfold vnode_unref. zcmp.
  eapply returns_bind; [apply (unref_count_spec st s p r); [done|done|lia]|]. intros [doit st1] [-> Hr1].
  unfold s_unref. rewrite Hp. simpl default. destruct (Z.ltb_spec 0 (r - 1)) as [Hgt|Hle].
  { zcmp. simpl. split; [done|]. apply (spec_ok_setref s p r); [done|done|lia|lia]. }
  assert (r = 1) as -> by lia. simpl (1 - 1) in *. zcmp. simpl negb. unfold unref_last.
  destruct (ref_vnode st1 (s_setref p 0 s) p 0 Hr1) as (_ & v1 & Hv1 & Hvr1); [simpl; by rewrite lookup_insert_eq|].
  rewrite (ld_ok _ _ _ Hv1). ret. destruct (rel_flags _ _ Hr1 p v1 H0 Hv1) as (Hih & Hca & Hdo). simpl in Hih, Hca, Hdo.
  rewrite Hvr1.
  assert (p ∉ s_lru s) as Hpl by (rewrite (ok_lru _ Hok), Hp; naive_solver). simpl.
  case_bool_decide as Hex.
  - assert (in_tab (s_tab s) p) as Ht by (destruct Hex as (k & q & Hk & ->); by exists k).
    assert ((v_in_hash v1 =? 0) = false) as -> by (apply Z.eqb_neq; by apply Hih).
    assert ((Z.land (v_flags v1) VDOOMED =? 0) = true) as ->.
    { apply Z.eqb_eq. destruct (Z.eq_dec (Z.land (v_flags v1) VDOOMED) 0); [done|].
      destruct (ok_doom _ Hok p) as [_ Hn]; [by apply Hdo|done]. }
    assert ((v_cached v1 =? 0) = true) as -> by (apply Z.eqb_eq; destruct (Z.eq_dec (v_cached v1) 0); naive_solver).
    simpl. eapply returns_bind; [by eapply push_spec|]. intros st2 Hr2.
    apply vn_cache_trim_spec; [done|]. by apply (spec_ok_push s p 1).
  - assert (~ in_tab (s_tab s) p) as Ht by (intros [k Hk]; apply Hex; by exists k, p).
    assert ((v_in_hash v1 =? 0) = true) as -> by (apply Z.eqb_eq; destruct (Z.eq_dec (v_in_hash v1) 0); naive_solver).
    simpl. eapply returns_mono; [eapply (vn_destroy_spec _ _ p 0); [exact Hr1|done| |done|done]|].
    + simpl. by rewrite lookup_insert_eq.
    + intros st' Hr'. split; [done|].
      rewrite s_destroy_setref in *. by apply (spec_ok_destroy s p 1).
Qed.

(** *** Lookup *)

Lemma get_hit_spec st s k p v : vrel st s -> spec_ok s -> s_tab s !! k = Some p -> vns st !! p = Some v ->
  v_refcount v < 2 ^ 31 - 1 ->
  returns (st ← (if negb (v_cached v =? 0) then vn_lru_unlink p st else Ret st);
           st ← upd p (set_cached 0) st;
           v ← ld p st;
           rc ← signed 32 (v_refcount v + 1);
           st ← upd p (set_refcount rc) st;
           Ret (p, st)) (fun r => r.1 = p /\ vrel r.2 (s_get_hit p s)).
Proof.
  intros Hr Hok Hk Hv Hlt. destruct (tab_vnode _ _ _ _ Hr Hk) as (H0 & v' & Hv' & _ & _ & Href).
  rewrite Hv in Hv'. injection Hv' as <-. pose proof (ok_ref _ Hok _ _ Href) as [Hpos _].
  destruct (rel_flags _ _ Hr p v H0 Hv) as (Hih & Hca & Hdo).
  assert (returns (if negb (v_cached v =? 0) then vn_lru_unlink p st else Ret st) (fun st' =>
    dll 0 (nxt st') (prv st') (without p (s_lru s)) /\ same_rest st st' /\ keeps core st st')) as Hstep.
  { destruct (Z.eqb_spec (v_cached v) 0) as [E|E]; simpl.
    - rewrite without_id by naive_solver. split; [apply (rel_lru _ _ Hr)|]. done.
    - apply Hca in E as (l1 & l2 & El)%list_elem_of_split. pose proof (rel_lru _ _ Hr) as Hl. rewrite El in Hl |- *.
      rewrite without_split; [by apply vn_lru_unlink_spec|]. destruct Hl as ([_ ?]%NoDup_cons & _). done. }
  eapply returns_bind; [exact Hstep|]. intros st1 (Hl & (Hh & Hc & Hd & Hhp) & Hcore).
  destruct (keeps_some _ _ _ _ _ Hcore Hv) as (v1 & Hv1 & Ec). injection Ec as E1 E2 E3 E4 E5 E6 E7.
  rewrite (upd_ok _ _ _ _ Hv1). ret. unfold ld at 1. simpl vns. rewrite lookup_insert_eq. ret. simpl v_refcount.
  rewrite signed_ok by (change (2 ^ (32 - 1)) with (2 ^ 31); lia). ret.
  unfold upd, ld. simpl vns. rewrite lookup_insert_eq. ret. split; [done|]. unfold set_vns at 1. simpl.
  rewrite insert_insert_eq. fold (set_vns (<[p := set_refcount (v_refcount v1 + 1) (set_cached 0 v1)]> (vns st1)) st1).
  set (g := fun v => set_refcount (v_refcount v1 + 1) (set_cached 0 v)).
  change (set_refcount (v_refcount v1 + 1) (set_cached 0 v1)) with (g v1).
  pose proof (fun A f => @keeps_upd A f p g st1 v1 Hv1) as Hkp. destruct Hr as [rt rl rf rr rh rc rd].
  split; simpl; try done.
  - eapply rep_tab_frame, rt; [done| |]; (eapply keeps_trans; [|by apply Hkp]).
    + apply (keeps_map core (fun '(_, _, _, x, _) => x) _ _ Hcore).
    + apply (keeps_map core (fun '(_, _, x, _, _) => x) _ _ Hcore).
  - eapply rep_lru_frame, Hl; by apply Hkp.
  - intros q w Hq Hw. simpl in Hw. rewrite elem_of_without. destruct (decide (q = p)) as [->|Hne].
    + rewrite lookup_insert_eq in Hw. injection Hw as <-. simpl. rewrite E1, E6. naive_solver.
    + rewrite lookup_insert_ne in Hw by done. pose proof (Hcore q) as Hcq. rewrite Hw in Hcq.
      destruct (vns st !! q) as [u|] eqn:Eu; [|done]. injection Hcq as F1 _ _ _ _ F2 F3. rewrite F1, F2, F3.
      destruct (rf q u Hq Eu) as (A & B & C). naive_solver.
  - destruct rr as (Hz & Hs & Hrf). split; [by rewrite lookup_insert_ne|].
    split; [simpl; rewrite lookup_insert_ne by done; destruct Hs as [u Hu]; destruct (keeps_some _ _ _ _ _ Hcore Hu) as (u' & ? & _); by exists u'|].
    intros q Hq. simpl. rewrite Href. destruct (decide (q = p)) as [->|Hne].
    + rewrite !lookup_insert_eq. simpl. by rewrite E2.
    + rewrite !lookup_insert_ne, Hrf by done. symmetry. apply (keeps_map core (fun '(_, x, _, _, _) => x) _ _ Hcore).
  - destruct rh as [Hw Hlv]. unfold rep_heap. simpl. rewrite Hhp. split; [done|]. intros q Hq Hs. apply Hlv; [done|].
    destruct (decide (q = p)) as [->|Hne]; [by rewrite Hv|]. rewrite lookup_insert_ne in Hs by done.
    specialize (Hcore q). destruct Hs as [w Hw']. rewrite Hw' in Hcore. by destruct (vns st !! q).
  - by rewrite Hc.
  - by rewrite Hd.
Qed.

Lemma spec_ok_get_hit s k p r : spec_ok s -> s_tab s !! k = Some p -> s_ref s !! p = Some r -> spec_ok (s_get_hit p s).
Proof.
  intros [H1 H2 H3 H4 H5 H6] Hk Hp. destruct (H5 p r Hp) as [Hr _]. split; simpl; rewrite ?Hp; simpl; try done.
  - intros k' q Hk'. destruct (decide (q = p)) as [->|]; [by rewrite lookup_insert_eq|].
    rewrite lookup_insert_ne by done. by apply (H1 k').
  - by apply NoDup_filter.
  - intros q. rewrite elem_of_without, H4. destruct (decide (q = p)) as [->|].
    + rewrite lookup_insert_eq. split; [naive_solver|]. intros [_ E]. injection E as E. lia.
    + rewrite lookup_insert_ne by done. naive_solver.
  - intros q x Hq. rewrite elem_of_without. destruct (decide (q = p)) as [->|].
    + rewrite lookup_insert_eq in Hq. injection Hq as <-. lia.
    + rewrite lookup_insert_ne in Hq by done. naive_solver.
  - intros q Hq. destruct (H6 q Hq) as [Hs Hnt]. split; [|done].
    destruct (decide (q = p)) as [->|]; [by rewrite lookup_insert_eq|by rewrite lookup_insert_ne].
Qed.

(** A vnode not yet in the cache. *)
Lemma get_miss_spec st s m ino : vrel st s -> spec_ok s ->
  returns (let '(fresh, st) := vnode_alloc st in
    if fresh =? 0 then Ret (0, st)
    else
      st ← upd fresh (fun v => Vnode (v_flags v) 1 ino m (v_vnext v) (v_lru_prev v) (v_lru_next v)
                                 (v_in_hash v) (v_cached v)) st;
      Ret (fresh, st))
  (fun '(p, st') => (p = 0 /\ vrel st' s) \/
     (p <> 0 /\ s_ref s !! p = None /\ vrel st' (s_setref p 1 s) /\ spec_ok (s_setref p 1 s) /\
      exists v, vns st' !! p = Some v /\ v_mount v = m /\ v_ino v = ino)).
Proof.
  intros Hr Hok. destruct Hr as [rt rl rf rr rh rc rd]. destruct rh as [Hw Hlv]. unfold vnode_alloc.
  destruct (kmalloc sizeof_vnode (vn_heap st)) as [[p|] h] eqn:E.
  2:{ destruct (kmalloc_none _ _ _ Hw E) as [Hw' Hl']. simpl. left. split; [done|].
      split; simpl; try done; [by eapply rep_tab_frame, rt|]. split; [done|]. simpl. by rewrite Hl'. }
  destruct (kmalloc_some _ _ _ _ Hw E) as (Hw' & Hf & H0 & Hl'). zcmp. unfold upd, ld. simpl vns.
  rewrite lookup_insert_eq. ret. unfold set_vns. simpl. rewrite insert_insert_eq. right. split; [done|].
  assert (vns st !! p = None) as Hnone.
  { destruct (vns st !! p) eqn:Ep; [|done]. exfalso. apply Hf, Hlv; [done|by eexists]. }
  destruct rr as (Hz & Hs & Hrf). assert (s_ref s !! p = None) as Href by (rewrite Hrf by done; by rewrite Hnone).
  assert (~ in_tab (s_tab s) p) as Ht by (intros [k Hk]; destruct (ok_tab_live _ Hok k p Hk); congruence).
  assert (p ∉ s_lru s) as Hpl by (rewrite (ok_lru _ Hok); naive_solver).
  assert (p ∉ s_doom s) as Hpd by (intros Hin; destruct (ok_doom _ Hok p Hin) as [[? ?] _]; congruence).
  split; [done|]. split; [|split].
  - split; simpl; try done.
    + destruct rt as [H1 H2 H3]. split; simpl; [done| |].
      * intros k q Hk. rewrite lookup_insert_ne by (intros ->; apply Ht; by exists k). by apply H2.
      * intros b hb Hb. destruct (H3 b hb Hb) as (l & Hlk & Hnd & Hin). exists l. split; [|done].
        eapply links_frame; [|done]. intros q (k & Hk & _)%Hin. unfold vnx. simpl.
        rewrite lookup_insert_ne; [done|]. intros ->. apply Ht. by exists k.
    + eapply dll_frame, rl. intros q Hq. unfold nxt, prv. simpl. rewrite lookup_insert_ne; [done|]. intros ->. by destruct Hq.
    + intros q v Hq Hv. simpl in Hv. destruct (decide (q = p)) as [->|Hne].
      * rewrite lookup_insert_eq in Hv. injection Hv as <-. simpl. naive_solver.
      * rewrite lookup_insert_ne in Hv by done. by apply rf.
    + split; [by rewrite lookup_insert_ne|]. split; [simpl; by rewrite lookup_insert_ne|].
      intros q Hq. simpl. destruct (decide (q = p)) as [->|Hne]; [by rewrite !lookup_insert_eq|].
      rewrite !lookup_insert_ne by done. by apply Hrf.
    + split; [done|]. simpl. intros q Hq Hsm. rewrite Hl'. destruct (decide (q = p)) as [->|Hne]; [set_solver|].
      rewrite lookup_insert_ne in Hsm by done. apply elem_of_union_r. by apply Hlv.
  - destruct Hok as [H1 H2 H3 H4 H5 H6]. split; simpl; try done.
    + intros k q Hk. rewrite lookup_insert_ne; [by apply (H1 k)|]. intros <-. apply Ht. by exists k.
    + intros q. rewrite H4. destruct (decide (q = p)) as [->|]; [|by rewrite lookup_insert_ne].
      rewrite lookup_insert_eq. naive_solver.
    + intros q x Hq. destruct (decide (q = p)) as [->|]; [rewrite lookup_insert_eq in Hq; injection Hq as <-; lia|].
      rewrite lookup_insert_ne in Hq by done. by apply H5.
    + intros q Hq. rewrite lookup_insert_ne by (intros ->; done). by apply H6.
  - eexists. split; [by rewrite lookup_insert_eq|]. done.
Qed.

(** *** Commit *)

Definition s_insert (k : Z * Z) p s : vspec := VSpec (<[k := p]> (s_tab s)) (s_ref s) (s_lru s) (s_doom s) (s_dead s).

Lemma rep_tab_insert st tab p v b h :
  rep_tab st tab -> p <> 0 -> vns st !! p = Some v -> ~ in_tab tab p -> tab !! (v_mount v, v_ino v) = None ->
  b = vn_key (v_mount v) (v_ino v) -> getz (vn_hash st) b = Some h ->
  rep_tab (VCache (<[p := set_in_hash 1 (set_vnext h v)]> (vns st)) (<[Z.to_nat b := p]> (vn_hash st))
             (vn_count st + 1) (vn_dead st) (vn_heap st)) (<[(v_mount v, v_ino v) := p]> tab).
Proof.
  intros [H1 H2 H3] H0 Hv Ht Hk Hb Hh. set (k := (v_mount v, v_ino v)) in *.
  assert (0 <= b < Z.of_nat (length (vn_hash st))) as Hbr by (by apply getz_Some_lt in Hh).
  assert (forall k' q, tab !! k' = Some q -> q <> p) as Hne by (intros k' q Hq ->; apply Ht; by exists k').
  split; simpl.
  - by rewrite length_insert.
  - intros k' q Hq. apply lookup_insert_Some in Hq as [[<- <-]|[Hkk Hq]].
    + split; [done|]. by rewrite lookup_insert_eq.
    + rewrite lookup_insert_ne by (symmetry; by apply (Hne k')). by apply H2.
  - intros b' h' Hb'. destruct (decide (b' = b)) as [->|Hbb].
    + rewrite getz_insert_eq in Hb' by done. injection Hb' as <-.
      destruct (H3 b h Hh) as (l & Hl & Hnd & Hin). exists (p :: l).
      assert (p ∉ l) as Hpl by (rewrite Hin; intros (k' & Hk' & _); by apply (Hne k' p)).
      split; [|split; [by constructor|]].
      * split; [done|]. exists h. split; [unfold vnx; simpl; by rewrite lookup_insert_eq|].
        eapply links_frame; [|done]. intros q Hq. unfold vnx. simpl. rewrite lookup_insert_ne; [done|]. by intros ->.
      * intros q. rewrite elem_of_cons, Hin. setoid_rewrite lookup_insert_Some. split.
        -- intros [->|(k' & Hk' & Hkb)]; [exists k; split; [by left|by rewrite Hb]|]. exists k'. split; [|done].
           right. split; [|done]. intros <-. congruence.
        -- intros (k' & [[<- <-]|[Hkk Hk']] & Hkb); [by left|]. right. by exists k'.
    + rewrite getz_insert_ne in Hb' by (done || lia). destruct (H3 b' h' Hb') as (l & Hl & Hnd & Hin). exists l.
      split; [|split; [done|]].
      * eapply links_frame; [|done]. intros q (k' & Hk' & _)%Hin. unfold vnx. simpl.
        rewrite lookup_insert_ne; [done|]. symmetry. by apply (Hne k').
      * intros q. rewrite Hin. setoid_rewrite lookup_insert_Some. split.
        -- intros (k' & Hk' & Hkb). exists k'. split; [|done]. right. split; [|done]. intros <-. congruence.
        -- intros (k' & [[<- <-]|[Hkk Hk']] & Hkb); [|by exists k']. simpl in Hkb. congruence.
Qed.

Lemma vrel_insert st s p v h : vrel st s -> p <> 0 -> vns st !! p = Some v ->
  ~ in_tab (s_tab s) p -> p ∉ s_lru s -> s_tab s !! (v_mount v, v_ino v) = None ->
  getz (vn_hash st) (vn_key (v_mount v) (v_ino v)) = Some h ->
  vrel (VCache (<[p := set_in_hash 1 (set_vnext h v)]> (vns st))
          (<[Z.to_nat (vn_key (v_mount v) (v_ino v)) := p]> (vn_hash st)) (vn_count st + 1) (vn_dead st) (vn_heap st))
    (s_insert (v_mount v, v_ino v) p s).
Proof.
  intros [rt rl rf rr rh rc rd] H0 Hv Ht Hpl Hk Hh.
  set (g := fun v => set_in_hash 1 (set_vnext h v)). change (set_in_hash 1 (set_vnext h v)) with (g v).
  pose proof (fun A f => @keeps_upd A f p g st v Hv) as Hkp. split; simpl; try done.
  - by apply rep_tab_insert.
  - eapply rep_lru_frame, rl; [apply (Hkp _ v_lru_next)|apply (Hkp _ v_lru_prev)]; done.
  - intros q w Hq Hw. simpl in Hw. assert (in_tab (<[(v_mount v, v_ino v):=p]> (s_tab s)) q <-> q = p \/ in_tab (s_tab s) q) as ->.
    { unfold in_tab. setoid_rewrite lookup_insert_Some. split.
      - intros (k & [[_ <-]|[_ ?]]); [by left|right; by exists k].
      - intros [->|[k Hk']]; [eexists; by left|]. exists k. right. split; [|done]. intros <-. congruence. }
    destruct (decide (q = p)) as [->|Hne].
    + rewrite lookup_insert_eq in Hw. injection Hw as <-. simpl. destruct (rf p v Hq Hv) as (_ & B & C).
      split; [|done]. naive_solver.
    + rewrite lookup_insert_ne in Hw by done. destruct (rf q w Hq Hw) as (A & B & C). naive_solver.
  - eapply rep_ref_frame, rr. apply (Hkp _ v_refcount). done.
  - eapply rep_heap_frame, rh; [done|]. apply (Hkp _ v_refcount). done.
  - rewrite map_size_insert_None by done. lia.
Qed.

Lemma spec_ok_insert s k p r : spec_ok s -> s_ref s !! p = Some r -> 0 < r -> ~ in_tab (s_tab s) p -> p ∉ s_doom s ->
  s_tab s !! k = None -> spec_ok (s_insert k p s).
Proof.
  intros [H1 H2 H3 H4 H5 H6] Hp Hr Ht Hd Hk.
  assert (forall q, in_tab (<[k := p]> (s_tab s)) q <-> q = p \/ in_tab (s_tab s) q) as Hin.
  { intros q. unfold in_tab. setoid_rewrite lookup_insert_Some. split.
    - intros (k' & [[_ <-]|[_ ?]]); [by left|right; by exists k'].
    - intros [->|[k' Hk']]; [exists k; by left|]. exists k'. right. split; [|done]. intros <-. congruence. }
  split; simpl; try done.
  - intros k' q [[_ <-]|[_ Hk']]%lookup_insert_Some; [by rewrite Hp|]. by apply (H1 k').
  - intros k1 k2 q [[<- <-]|[_ E1]]%lookup_insert_Some [[<- E2]|[_ E2]]%lookup_insert_Some; subst; try done.
    + exfalso. apply Ht. by exists k2.
    + exfalso. apply Ht. by exists k1.
    + by apply (H2 k1 k2 q).
  - intros q. rewrite Hin, H4. split; [naive_solver|]. intros [[->|?] E]; [|done]. rewrite Hp in E. injection E. lia.
  - intros q Hq. destruct (H6 q Hq) as [Hs Hnt]. split; [done|]. rewrite Hin. intros [->|?]; done.
Qed.

Lemma vnode_cache_commit_spec st s p v r :
  vrel st s -> spec_ok s -> vns st !! p = Some v -> s_ref s !! p = Some r -> 0 < r <= 2 ^ 31 - 1 ->
  ~ in_tab (s_tab s) p -> p ∉ s_doom s -> Z.of_nat (size (s_tab s)) < 2 ^ 31 - 1 ->
  returns (vnode_cache_commit p st) (fun '(rc, st') =>
    rc = (s_commit (v_mount v, v_ino v) p s).1 /\ vrel st' (s_commit (v_mount v, v_ino v) p s).2 /\
    spec_ok (s_commit (v_mount v, v_ino v) p s).2).
Proof.
  intros Hr Hok Hv Hp Hpos Ht Hd Hsz. destruct (ref_vnode _ _ _ _ Hr Hp) as (H0 & _).
  unfold vnode_cache_commit. rewrite (ld_ok _ _ _ Hv). ret.
  rewrite (vn_hash_find_spec st (s_tab s)) by apply (rel_tab _ _ Hr). ret. unfold s_commit.
  destruct (s_tab s !! (v_mount v, v_ino v)) as [q|] eqn:Ek.
  - destruct (rt_key _ _ (rel_tab _ _ Hr) _ _ Ek) as [Hq0 _]. simpl default. zcmp. simpl negb.
    eapply returns_bind; [apply (vnode_unref_spec st s p r); [done|done|done|lia|lia]|].
    intros st' [Hr' Hok']. ret. done.
  - simpl default. simpl negb. destruct (bucket st (s_tab s) (v_mount v) (v_ino v) (rel_tab _ _ Hr)) as (h & _ & Hh & _).
    rewrite (rd_getz _ _ _ Hh). ret. rewrite (upd_ok _ _ _ _ Hv). ret. unfold wr_loc. simpl vn_hash.
    rewrite wr_ok by (by apply getz_Some_lt in Hh). ret. unfold upd, ld. simpl vns. rewrite lookup_insert_eq. ret.
    unfold set_vns, set_hash, set_count. simpl. rewrite insert_insert_eq, (rel_count _ _ Hr).
    rewrite signed_ok by (change (2 ^ (32 - 1)) with (2 ^ 31); lia). ret. rewrite <- (rel_count _ _ Hr).
    assert (p ∉ s_lru s) as Hpl by (rewrite (ok_lru _ Hok); naive_solver).
    eapply returns_bind.
    + apply vn_cache_trim_spec; [by apply vrel_insert|by apply (spec_ok_insert s _ p r); [..|lia|done|done|done]].
    + intros st' [Hr' Hok']. ret. done.
Qed.

(** *** Taking vnodes out of the cache *)

Lemma spec_ok_drop s k p r : spec_ok s -> s_tab s !! k = Some p -> s_ref s !! p = Some r -> spec_ok (s_drop p s).
Proof.
  intros Hok Hk Hp. unfold s_drop. simpl. rewrite Hp. simpl default.
  assert (in_tab (s_tab s) p) as Ht by (by exists k).
  destruct (Z.eqb_spec r 0) as [->|Hne].
  { apply spec_ok_evict; [done|]. apply (ok_lru _ Hok). done. }
  destruct Hok as [H1 H2 H3 H4 H5 H6]. split; simpl; try done.
  - intros k' q [Hk' _]%tab_without_lookup. by apply (H1 k').
  - intros k1 k2 q [E1 _]%tab_without_lookup [E2 _]%tab_without_lookup. by apply (H2 k1 k2 q).
  - by apply NoDup_filter.
  - intros q. rewrite elem_of_without, in_tab_without, H4. naive_solver.
  - intros q x Hq. destruct (H5 q x Hq) as [Hx Hl]. split; [done|]. intros E. rewrite elem_of_without.
    split; [by apply Hl|]. intros ->. congruence.
  - intros q [->%elem_of_singleton|Hq]%elem_of_union.
    + rewrite Hp. split; [done|]. rewrite in_tab_without. naive_solver.
    + destruct (H6 q Hq). split; [done|]. rewrite in_tab_without. naive_solver.
Qed.

Lemma land_lor_doomed x : Z.land (Z.lor x VDOOMED) VDOOMED <> 0.
Proof. rewrite Z.land_lor_distr_l, Z.land_diag. intros E. apply Z.lor_eq_0_iff in E as [_ E]. done. Qed.

Lemma vrel_doom st s p v : vrel st s -> p <> 0 -> vns st !! p = Some v ->
  vrel (set_vns (<[p := set_flags (Z.lor (v_flags v) VDOOMED) v]> (vns st)) st)
    (VSpec (s_tab s) (s_ref s) (s_lru s) ({[p]} ∪ s_doom s) (s_dead s)).
Proof.
  intros [rt rl rf rr rh rc rd] H0 Hv.
  set (g := fun v => set_flags (Z.lor (v_flags v) VDOOMED) v). change (set_flags _ v) with (g v).
  pose proof (fun A f => @keeps_upd A f p g st v Hv) as Hkp. split; simpl; try done.
  - eapply rep_tab_frame, rt; [done|by apply Hkp|by apply Hkp].
  - eapply rep_lru_frame, rl; by apply Hkp.
  - intros q w Hq Hw. simpl in Hw. destruct (decide (q = p)) as [->|Hne].
    + rewrite lookup_insert_eq in Hw. injection Hw as <-. simpl. destruct (rf p v Hq Hv) as (A & B & _).
      split; [done|]. split; [done|]. split; [set_solver|]. intros _. apply land_lor_doomed.
    + rewrite lookup_insert_ne in Hw by done. destruct (rf q w Hq Hw) as (A & B & C). split; [done|].
      split; [done|]. rewrite C. set_solver.
  - eapply rep_ref_frame, rr. by apply Hkp.
  - eapply rep_heap_frame, rh; [done|by apply Hkp].
Qed.

Lemma drop_cached_spec st s k p st1 : vrel st s -> s_tab s !! k = Some p -> unhashed st st1 (s_tab s) p ->
  returns (drop_cached p st1) (fun st' => vrel st' (s_drop p s)).
Proof.
  intros Hr Hk Hu. destruct (tab_vnode _ _ _ _ Hr Hk) as (H0 & v & Hv & _ & _ & Href).
  pose proof Hu as (Ht1 & Hk2 & Hc1 & Hd1 & Hh1). destruct (keeps_some _ _ _ _ _ Hk2 Hv) as (v1 & Hv1 & Ec).
  injection Ec as E1 E2 E3 E4 E5 E6 E7 E8.
  unfold drop_cached. rewrite (upd_ok _ _ _ _ Hv1). ret. set (st2 := set_vns _ st1).
  pose proof (fun A f => @keeps_upd A f p (set_in_hash 0) st1 v1 Hv1) as Hkp. fold st2 in Hkp.
  assert (vns st2 !! p = Some (set_in_hash 0 v1)) as Hv2 by (simpl; by rewrite lookup_insert_eq).
  rewrite (ld_ok _ _ _ Hv2). ret. simpl v_cached.
  destruct (rel_flags _ _ Hr p v H0 Hv) as (_ & Hca & _).
  assert (dll 0 (nxt st2) (prv st2) (s_lru s)) as Hring2.
  { eapply rep_lru_frame; [by apply Hkp|by apply Hkp|]. eapply dll_unhashed; [done|apply (rel_lru _ _ Hr)]. }
  assert (returns (if negb (v_cached v1 =? 0) then st ← vn_lru_unlink p st2; upd p (set_cached 0) st else Ret st2)
    (fun st3 => vrel (set_count (vn_count st3 - 1) st3) (s_remove p s))) as Hstep.
  { rewrite E8. destruct (Z.eqb_spec (v_cached v) 0) as [Ez|Ez]; simpl.
    - apply (vrel_take_out st s k p st1 st2); try done.
      + rewrite without_id by naive_solver. done.
      + by apply Hkp.
      + intros q Hne. simpl. by rewrite lookup_insert_ne.
      + intros w Hw. rewrite Hv2 in Hw. injection Hw as <-. split; [done|]. simpl. congruence.
    - apply Hca in Ez as (l1 & l2 & El)%list_elem_of_split. rewrite El in Hring2.
      eapply returns_bind; [by apply vn_lru_unlink_spec|]. intros st3 (Hl3 & Hs3 & Hcore3).
      destruct (keeps_some _ _ _ _ _ Hcore3 Hv2) as (v3 & Hv3 & Ec3). injection Ec3 as _ _ _ _ _ F6 F7.
      rewrite (upd_ok _ _ _ _ Hv3). simpl. pose proof (fun A f => @keeps_upd A f p (set_cached 0) st3 v3 Hv3) as Hkp3.
      apply (vrel_take_out st s k p st1 (set_vns (<[p:=set_cached 0 v3]> (vns st3)) st3)); try done.
      + eapply rep_lru_frame; [by apply Hkp3|by apply Hkp3|]. rewrite El, without_split; [done|].
        destruct (rel_lru _ _ Hr) as ([_ Hnd]%NoDup_cons & _). by rewrite <- El.
      + eapply keeps_trans; [by apply (Hkp _ core3)|]. eapply keeps_trans; [|by apply Hkp3].
        apply (keeps_map core (fun '(a, b, c, d, _) => (a, b, c, d)) _ _ Hcore3).
      + intros q Hne. simpl. rewrite lookup_insert_ne by done.
        pose proof (keeps_map core (fun '(_, _, _, _, x) => x) _ _ Hcore3 q) as Hq. simpl in Hq.
        rewrite lookup_insert_ne in Hq by done. exact Hq.
      + intros w Hw. simpl in Hw. rewrite lookup_insert_eq in Hw. injection Hw as <-. done. }
  eapply returns_bind; [exact Hstep|]. intros st3 Hr3. cbv zeta. set (st4 := set_count _ st3) in *.
  destruct (ref_vnode st4 (s_remove p s) p (v_refcount v) Hr3 Href) as (_ & v4 & Hv4 & Hrc).
  rewrite (ld_ok _ _ _ Hv4). ret. unfold s_drop. simpl s_ref. rewrite Href. simpl default. rewrite Hrc.
  destruct (Z.eqb_spec (v_refcount v) 0).
  - by apply (vn_destroy_spec _ _ p (v_refcount v)); [..|apply not_in_removed|apply not_in_removed].
  - rewrite (upd_ok _ _ _ _ Hv4). simpl. by apply (vrel_doom st4 (s_remove p s)).
Qed.

Lemma vnode_cache_invalidate_rel st s m ino : vrel st s ->
  returns (vnode_cache_invalidate m ino st) (fun st' => vrel st' (s_invalidate (m, ino) s)).
Proof.
  intros Hr. unfold vnode_cache_invalidate, s_invalidate.
  rewrite (vn_hash_find_spec st (s_tab s)) by apply (rel_tab _ _ Hr). ret.
  destruct (s_tab s !! (m, ino)) as [p|] eqn:Ek; simpl default; [|done].
  destruct (tab_vnode _ _ _ _ Hr Ek) as (H0 & v & Hv & _ & _ & Href). zcmp.
  eapply returns_bind; [apply (chain_unlink_spec st (s_tab s) (m, ino) p); [apply (rel_tab _ _ Hr)|done]|].
  intros st1 Hu. by eapply drop_cached_spec.
Qed.

Lemma spec_ok_invalidate s k : spec_ok s -> spec_ok (s_invalidate k s).
Proof.
  intros Hok. unfold s_invalidate. destruct (s_tab s !! k) as [p|] eqn:Ek; [|done].
  destruct (ok_tab_live _ Hok k p Ek) as [r Hr]. by eapply spec_ok_drop.
Qed.

Lemma bind_Ret {A B} (m : out A) (f : A -> out B) y : m ≫= f = Ret y -> exists x, m = Ret x /\ f x = Ret y.
Proof. destruct m as [x| |]; try done. intros E. by exists x. Qed.

Lemma returns_and {A} (m : out A) (P Q : A -> Prop) :
  returns m P -> (forall x, m = Ret x -> Q x) -> returns m (fun x => P x /\ Q x).
Proof. destruct m as [x| |]; try done. simpl. auto. Qed.

(** Hash heads and chain links, but for the vnode [p]. *)
Definition chains_kept p st st' : Prop := vn_hash st' = vn_hash st /\ forall q, q <> p -> vnx st' q = vnx st q.

Lemma chains_kept_trans p st1 st2 st3 : chains_kept p st1 st2 -> chains_kept p st2 st3 -> chains_kept p st1 st3.
Proof. intros [H1 H2] [H3 H4]. split; [congruence|]. intros q Hq. rewrite H4, H2; done. Qed.

Lemma upd_chains_kept p x f st st' : (forall v, v_vnext (f v) = v_vnext v) -> upd x f st = Ret st' -> chains_kept p st st'.
Proof.
  intros Hf (v & Hv & E)%bind_Ret. injection E as <-. split; [done|]. intros q _. unfold vnx. simpl.
  unfold ld in Hv. destruct (vns st !! x) as [w|] eqn:Ew; [|done]. injection Hv as <-.
  destruct (decide (q = x)) as [->|]; [by rewrite lookup_insert_eq, Ew; simpl; rewrite Hf|by rewrite lookup_insert_ne].
Qed.

Lemma lru_unlink_chains_kept p x st st' : vn_lru_unlink x st = Ret st' -> chains_kept p st st'.
Proof.
  intros (v & _ & (st1 & H1 & (w & _ & H2)%bind_Ret)%bind_Ret)%bind_Ret.
  eapply chains_kept_trans; [eapply upd_chains_kept, H1|eapply upd_chains_kept, H2]; done.
Qed.

Lemma drop_cached_chains_kept p st st' : drop_cached p st = Ret st' -> chains_kept p st st'.
Proof.
  intros (st1 & H1 & (v & _ & (st2 & H2 & H3)%bind_Ret)%bind_Ret)%bind_Ret. cbv zeta in H3.
  apply bind_Ret in H3 as (w & _ & H3).
  eapply chains_kept_trans; [eapply upd_chains_kept, H1; done|].
  apply (chains_kept_trans p st1 st2).
  - destruct (negb (v_cached v =? 0)); [|by injection H2 as <-]. apply bind_Ret in H2 as (st3 & H2 & H2').
    eapply chains_kept_trans; [by eapply lru_unlink_chains_kept|eapply upd_chains_kept, H2'; done].
  - apply (chains_kept_trans p st2 (set_count (vn_count st2 - 1) st2)); [done|]. destruct (v_refcount w =? 0).
    + apply bind_Ret in H3 as (u & _ & E). injection E as <-. split; [done|]. intros q Hq. unfold vnx. simpl.
      by rewrite lookup_delete_ne.
    + eapply upd_chains_kept, H3. done.
Qed.

Definition s_drops s (ps : list Z) : vspec := foldl (fun s p => s_drop p s) s ps.

Lemma s_drop_tab p s : s_tab (s_drop p s) = tab_without p (s_tab s).
Proof. unfold s_drop. by destruct (_ =? 0). Qed.

Lemma s_drops_tab ps : forall s k q, s_tab (s_drops s ps) !! k = Some q <-> s_tab s !! k = Some q /\ q ∉ ps.
Proof.
  induction ps as [|p ps IH]; intros s k q; simpl; [set_solver|].
  unfold s_drops in *. rewrite IH, s_drop_tab, tab_without_lookup. set_solver.
Qed.

(** The chain after one vnode is dropped from it. *)
Lemma rep_chain_drop st s st1 st2 k b h l1 p l2 :
  rep_tab st (s_tab s) -> s_tab s !! k = Some p -> vn_key k.1 k.2 = b -> getz (vn_hash st) b = Some h ->
  rep_chain st (s_tab s) b h (l1 ++ p :: l2) -> unchained st st1 b l1 l2 -> chains_kept p st1 st2 ->
  exists h', getz (vn_hash st2) b = Some h' /\ rep_chain st2 (s_tab (s_drop p s)) b h' (l1 ++ l2).
Proof.
  intros Ht Hk Hb Hh (Hl & Hnd & Hin) ((h' & Hh' & Hl') & _) [Hh2 Hv2]. exists h'. rewrite Hh2. split; [done|].
  apply NoDup_app in Hnd as Hnd'. destruct Hnd' as (_ & Hd & [Hp2 _]%NoDup_cons).
  assert (forall q, q ∈ l1 ++ l2 <-> q ∈ l1 ++ p :: l2 /\ q <> p) as Hq.
  { intros q. split; [|set_solver]. intros Hq. split; [set_solver|]. intros ->.
    apply elem_of_app in Hq as [Hq|Hq]; [apply (Hd p Hq); by left|done]. }
  split; [|split].
  - eapply links_frame; [|exact Hl']. intros q [_ Hq']%Hq. by apply Hv2.
  - rewrite <- Permutation_middle in Hnd. by apply NoDup_cons in Hnd as [_ ?].
  - intros q. rewrite Hq, Hin, s_drop_tab. setoid_rewrite tab_without_lookup. naive_solver.
Qed.

Lemma flush_chain_spec m b fuel : forall l2 l1 st s h,
  vrel st s -> spec_ok s -> getz (vn_hash st) b = Some h -> rep_chain st (s_tab s) b h (l1 ++ l2) ->
  (length l2 < fuel)%nat ->
  returns (flush_chain fuel (loc_of b l1) m st) (fun st' => exists ps,
    NoDup ps /\ (forall p, p ∈ ps <-> p ∈ l2 /\ exists ino, s_tab s !! (m, ino) = Some p) /\
    vrel st' (s_drops s ps) /\ spec_ok (s_drops s ps)).
Proof.
  induction fuel as [|fuel IH]; intros l2 l1 st s h Hr Hok Hh Hc Hf; [lia|]. cbn [flush_chain].
  rewrite (rd_loc_of st b h l1 l2) by (done || apply Hc). ret. destruct l2 as [|p l2].
  { simpl. exists []. split; [constructor|]. split; [|exact (conj Hr Hok)]. intros p. clear. set_solver. }
  change (after (p :: l2)) with p. pose proof Hc as (Hl & Hnd & Hin).
  assert (p ∈ l1 ++ p :: l2) as Hp by (apply elem_of_app; right; left). apply Hin in Hp as (k & Hk & Hkb).
  destruct (tab_vnode _ _ _ _ Hr Hk) as (H0 & v & Hv & Hm & Hi & Href). zcmp. rewrite (ld_ok _ _ _ Hv). ret.
  simpl in Hf. destruct (Z.eqb_spec (v_mount v) m) as [Em|Em]; simpl negb.
  - pose proof (links_next _ _ _ _ _ _ Hl) as Hnx. unfold vnx in Hnx. rewrite Hv in Hnx. injection Hnx as Hnx.
    rewrite Hnx. fold (after l2). eapply returns_bind; [by apply (wr_loc_of_spec st b h l1 p l2)|]. intros st1 Hu.
    assert (unhashed st st1 (s_tab s) p) as Huh.
    { subst b. split; [apply (rep_tab_remove st st1 (s_tab s) k p l1 l2 h (rel_tab _ _ Hr)); done|].
      by destruct Hu as (_ & _ & _ & _ & ? & ? & ? & ?). }
    eapply returns_bind; [apply returns_and; [by eapply drop_cached_spec|intros st2; apply drop_cached_chains_kept]|].
    intros st2 [Hr2 Hkept]. destruct (rep_chain_drop st s st1 st2 k b h l1 p l2) as (h' & Hh' & Hc'); try done; [apply (rel_tab _ _ Hr)|].
    eapply returns_mono; [apply (IH l2 l1 st2 (s_drop p s) h'); [done|by eapply spec_ok_drop|done|done|lia]|].
    intros st' (ps & Hndp & Hps & Hr' & Hok'). exists (p :: ps). split; [|split; [|done]].
    + apply NoDup_cons. split; [|done]. rewrite Hps. rewrite s_drop_tab. setoid_rewrite tab_without_lookup. clear. naive_solver.
    + intros q. rewrite elem_of_cons, Hps, s_drop_tab, elem_of_cons. setoid_rewrite tab_without_lookup.
      split; [|clear; destruct (decide (q = p)); naive_solver].
      intros [->|(Hq & ino & Hq' & _)]; [|split; [by right|by exists ino]]. split; [by left|]. exists k.2.
      rewrite <- Em, Hm. by destruct k.
  - rewrite <- (loc_of_snoc b l1 p). eapply returns_mono; [apply (IH l2 (l1 ++ [p]) st s h); try done; [|lia]|].
    + by rewrite <- app_assoc.
    + intros st' (ps & Hndp & Hps & Hr' & Hok'). exists ps. split; [done|]. split; [|done]. intros q.
      rewrite Hps, elem_of_cons. split; [clear; naive_solver|]. intros [[->|Hq] [ino Hino]]; [|split; [done|by exists ino]].
      exfalso. apply Em. rewrite Hm, (rep_tab_inj _ _ _ _ _ (rel_tab _ _ Hr) Hk Hino). done.
Qed.

Lemma vnode_cache_flush_mount_spec st s m : vrel st s -> spec_ok s ->
  returns (vnode_cache_flush_mount m st) (fun st' => exists ps,
    NoDup ps /\ (forall p, p ∈ ps <-> exists ino, s_tab s !! (m, ino) = Some p) /\
    vrel st' (s_drops s ps) /\ spec_ok (s_drops s ps)).
Proof.
  intros Hr Hok. unfold vnode_cache_flush_mount. eapply returns_mono.
  - apply (for_range_inv (fun b st' => exists ps, NoDup ps /\
      (forall p, p ∈ ps <-> exists ino, s_tab s !! (m, ino) = Some p /\ vn_key m ino < b) /\
      vrel st' (s_drops s ps) /\ spec_ok (s_drops s ps))).
    + exists []. split; [constructor|]. split; [|done]. intros p. split; [set_solver|].
      intros (ino & _ & Hlt). pose proof (vn_key_range m ino). lia.
    + intros b st1 Hb (ps & Hnd & Hps & Hr1 & Hok1).
      destruct (getz_lt (vn_hash st1) b) as [h Hh]; [rewrite (rt_len _ _ (rel_tab _ _ Hr1)); done|].
      destruct (rt_chain _ _ (rel_tab _ _ Hr1) b h Hh) as [l Hc]. change (AtHash b) with (loc_of b []).
      destruct (rep_chain_facts _ _ _ _ _ (rel_tab _ _ Hr1) Hc) as [Hf _].
      eapply returns_mono; [by apply (flush_chain_spec m b _ l [] st1 (s_drops s ps) h)|].
      intros st2 (qs & Hndq & Hqs & Hr2 & Hok2). exists (ps ++ qs).
      assert (s_drops s (ps ++ qs) = s_drops (s_drops s ps) qs) as -> by apply foldl_app.
      setoid_rewrite s_drops_tab in Hqs. split; [|split; [|done]].
      * apply NoDup_app. split; [done|]. split; [|done]. intros p Hp Hq. apply Hqs in Hq as (_ & ino & _ & Hn). done.
      * intros p. rewrite elem_of_app, Hps, Hqs. destruct Hc as (_ & _ & Hin). rewrite Hin. setoid_rewrite s_drops_tab.
        split.
        -- intros [(ino & Hi & Hlt)|((k & (Hk & _) & Hkb) & ino & Hi & Hn)]; [exists ino; split; [done|lia]|].
           exists ino. split; [done|]. rewrite (rep_tab_inj _ _ _ _ _ (rel_tab _ _ Hr) Hk Hi) in Hkb. simpl in Hkb. lia.
        -- intros (ino & Hi & Hlt). destruct (Z.lt_ge_cases (vn_key m ino) b); [left; by exists ino|]. right.
           assert (p ∉ ps) as Hn.
           { rewrite Hps. intros (ino' & Hi' & Hlt'). pose proof (rep_tab_inj _ _ _ _ _ (rel_tab _ _ Hr) Hi Hi') as E.
             injection E as ->. lia. }
           split; [|by exists ino]. exists (m, ino). split; [done|]. simpl. lia.
  - intros st' (ps & Hnd & Hps & Hr' & Hok'). exists ps. split; [done|]. split; [|done]. intros p. rewrite Hps.
    split; [naive_solver|]. intros [ino Hi]. exists ino. split; [done|]. pose proof (vn_key_range m ino).
    unfold VNODE_CACHE_BUCKETS in *. lia.
Qed.

(** ** Results *)

(** The operations other code calls. *)
Inductive vop :=
| OpGet (m ino : Z)
| OpCommit (p : Z)
| OpRef (p : Z)
| OpUnref (p : Z)
| OpInvalidate (m ino : Z)
| OpFlush (m : Z).

Definition vrun (op : vop) st : out (Z * vcache) :=
  match op with
  | OpGet m ino => vnode_cache_get m ino st
  | OpCommit p => vnode_cache_commit p st
  | OpRef p => st ← vnode_ref p st; Ret (0, st)
  | OpUnref p => st ← vnode_unref p st; Ret (0, st)
  | OpInvalidate m ino => st ← vnode_cache_invalidate m ino st; Ret (0, st)
  | OpFlush m => st ← vnode_cache_flush_mount m st; Ret (0, st)
  end.

(** The caller of a reference operation holds a reference; only a private
    vnode that nobody took out of the cache is committed; no counter is at
    its maximum. *)
Definition vlegal s (op : vop) : Prop :=
  match op with
  | OpGet m ino => forall p r, s_tab s !! (m, ino) = Some p -> s_ref s !! p = Some r -> r < 2 ^ 31 - 1
  | OpCommit p => (exists r, s_ref s !! p = Some r /\ 0 < r <= 2 ^ 31 - 1) /\ ~ in_tab (s_tab s) p /\
      (p ∉ s_doom s) /\ Z.of_nat (size (s_tab s)) < 2 ^ 31 - 1
  | OpRef p => exists r, s_ref s !! p = Some r /\ 0 < r < 2 ^ 31 - 1
  | OpUnref p => exists r, s_ref s !! p = Some r /\ 0 < r <= 2 ^ 31 - 1
  | OpInvalidate _ _ | OpFlush _ => True
  end.

(** What the abstract cache does; [keyof] gives mount and inode of a vnode. *)
Definition vstep (keyof : Z -> option (Z * Z)) s (op : vop) (r : Z) s' : Prop :=
  match op with
  | OpGet m ino =>
      match s_tab s !! (m, ino) with
      | Some p => r = p /\ s' = s_get_hit p s
      | None => r = 0 /\ s' = s \/ r <> 0 /\ s_ref s !! r = None /\ s' = s_setref r 1 s
      end
  | OpCommit p => exists k, keyof p = Some k /\ (r, s') = s_commit k p s
  | OpRef p => s' = s_setref p (default 0 (s_ref s !! p) + 1) s
  | OpUnref p => s' = s_unref p s
  | OpInvalidate m ino => s' = s_invalidate (m, ino) s
  | OpFlush m => exists ps, NoDup ps /\ (forall p, p ∈ ps <-> exists ino, s_tab s !! (m, ino) = Some p) /\ s' = s_drops s ps
  end.

Definition key_at st p : option (Z * Z) := (fun v => (v_mount v, v_ino v)) <$> vns st !! p.

Lemma vnode_cache_get_spec st s m ino : vrel st s -> spec_ok s -> vlegal s (OpGet m ino) ->
  returns (vnode_cache_get m ino st) (fun '(r, st') =>
    exists s', vstep (key_at st) s (OpGet m ino) r s' /\ vrel st' s' /\ spec_ok s' /\
      (s_tab s !! (m, ino) = None -> r <> 0 -> key_at st' r = Some (m, ino))).
Proof.
  intros Hr Hok Hlegal. unfold vnode_cache_get.
  rewrite (vn_hash_find_spec st (s_tab s)) by apply (rel_tab _ _ Hr). ret. simpl vstep.
  destruct (s_tab s !! (m, ino)) as [p|] eqn:Ek.
  - destruct (tab_vnode _ _ _ _ Hr Ek) as (H0 & v & Hv & _ & _ & Href). simpl default. zcmp. simpl negb.
    rewrite (ld_ok _ _ _ Hv). ret. simpl in Hlegal.
    eapply returns_mono; [apply (get_hit_spec st s (m, ino) p v); try done; by apply (Hlegal p)|].
    intros [r st'] [Er Hr']. simpl in Er, Hr'. subst r. exists (s_get_hit p s). split; [done|]. split; [done|]. split; [|done].
    by eapply spec_ok_get_hit.
  - simpl default. simpl negb. eapply returns_mono; [by apply get_miss_spec|]. intros [r st'] [[-> Hr']|(H0 & Hn & Hr' & Hok' & v & Hv & Hm & Hi)].
    + exists s. split; [by left|]. done.
    + exists (s_setref r 1 s). split; [by right|]. split; [done|]. split; [done|]. intros _ _. unfold key_at. rewrite Hv. simpl.
      by rewrite Hm, Hi.
Qed.

Lemma vrun_spec st s op : vrel st s -> spec_ok s -> vlegal s op ->
  returns (vrun op st) (fun '(r, st') => exists s', vstep (key_at st) s op r s' /\ vrel st' s' /\ spec_ok s').
Proof.
  intros Hr Hok Hlegal. destruct op as [m ino|p|p|p|m ino|m]; simpl vrun.
  - eapply returns_mono; [by apply vnode_cache_get_spec|]. intros [r st'] (s' & ? & ? & ? & _). by exists s'.
  - destruct Hlegal as ((r & Hp & Hpos) & Ht & Hd & Hsz). destruct (ref_vnode _ _ _ _ Hr Hp) as (_ & v & Hv & _).
    eapply returns_mono; [by eapply vnode_cache_commit_spec|]. intros [rc st'] (Hrc & Hr' & Hok').
    exists (s_commit (v_mount v, v_ino v) p s).2. split; [|done]. exists (v_mount v, v_ino v).
    unfold key_at. rewrite Hv. split; [done|]. rewrite Hrc. by destruct (s_commit _ p s).
  - destruct Hlegal as (r & Hp & Hpos). eapply returns_bind; [by eapply vnode_ref_spec|]. intros st' [Hr' Hok']. ret.
    exists (s_setref p (r + 1) s). simpl. by rewrite Hp.
  - destruct Hlegal as (r & Hp & Hpos).
    eapply returns_bind; [apply (vnode_unref_spec st s p r); [done|done|done|lia|lia]|]. intros st' [Hr' Hok']. ret.
    by exists (s_unref p s).
  - eapply returns_bind; [by apply vnode_cache_invalidate_rel|]. intros st' Hr'. ret.
    exists (s_invalidate (m, ino) s). split; [done|]. split; [done|]. by apply spec_ok_invalidate.
  - eapply returns_bind; [by apply vnode_cache_flush_mount_spec|]. intros st' (ps & Hnd & Hps & Hr' & Hok'). ret.
    exists (s_drops s ps). split; [by exists ps|]. done.
Qed.

(** C21: Every operation of the vnode cache implements the abstract cache:
    started in a state that represents an abstract cache with the invariant,
    and called legally, it returns (no walk of a chain runs for ever, no
    freed vnode is touched), its result is the abstract one, and hash chains,
    LRU list, flags, counters and reference counts represent the abstract
    cache after the operation, which again has the invariant. *)
Theorem vnode_cache_refines st s op : vrel st s -> spec_ok s -> vlegal s op ->
  returns (vrun op st) (fun '(r, st') => exists s', vstep (key_at st) s op r s' /\ vrel st' s' /\ spec_ok s').
Proof. apply vrun_spec. Qed.

(** *** The replacement policy *)

Definition s_lacks (l : list Z) s s' : Prop :=
  (forall k p, s_tab s' !! k = Some p <-> s_tab s !! k = Some p /\ p ∉ l) /\
  (forall p r, s_ref s' !! p = Some r <-> s_ref s !! p = Some r /\ p ∉ l).

Lemma s_trim_closed l1 : forall s, spec_ok s -> s_lru s = l1 -> exists l l2,
  l1 = l ++ l2 /\ s_lru (s_trim s) = l /\ s_dead (s_trim s) = s_dead s ++ rev l2 /\ s_lacks l2 s (s_trim s) /\
  (Z.of_nat (size (s_tab (s_trim s))) <= VNODE_CACHE_MAX \/ l = []) /\
  (l2 = [] \/ VNODE_CACHE_MAX <= Z.of_nat (size (s_tab (s_trim s)))).
Proof.
  induction l1 as [|p l1 IH] using rev_ind; intros s Hok El.
  - exists [], []. unfold s_trim. rewrite El. simpl. rewrite app_nil_r. split; [done|]. split; [done|]. split; [done|].
    split; [split; intros; set_solver|]. split; [by right|by left].
  - destruct (Z.leb_spec (Z.of_nat (size (s_tab s))) VNODE_CACHE_MAX) as [Hle|Hgt].
    + exists (l1 ++ [p]), []. unfold s_trim. rewrite s_trim_small by done. rewrite !app_nil_r.
      split; [done|]. split; [done|]. split; [done|]. split; [split; intros; set_solver|]. split; [by left|by left].
    + destruct (s_trim_big s l1 p El Hok Hgt) as [Et El']. rewrite Et. set (s1 := s_destroy p (s_remove p s)) in *.
      assert (p ∈ s_lru s) as Hp by (rewrite El; set_solver).
      destruct (IH s1 (spec_ok_evict p s Hok Hp) El') as (l & l2 & -> & E1 & E2 & [E3 E3'] & E4 & E5).
      exists l, (l2 ++ [p]). split; [by rewrite app_assoc|]. split; [done|]. split; [|split; [|split; [done|]]].
      * rewrite E2. subst s1. simpl. rewrite rev_app_distr, <- app_assoc. done.
      * split.
        -- intros k q. rewrite E3. subst s1. simpl. rewrite tab_without_lookup. set_solver.
        -- intros q r. rewrite E3'. subst s1. simpl. rewrite lookup_delete_Some. set_solver.
      * right. destruct E5 as [->|]; [|done].
        assert (s_tab (s_trim s1) = s_tab s1) as ->.
        { apply map_eq. intros k. destruct (s_tab s1 !! k) as [q|] eqn:Eq; [apply E3; set_solver|].
          destruct (s_tab (s_trim s1) !! k) as [q|] eqn:Eq'; [|done]. apply E3 in Eq' as [? _]. congruence. }
        apply (ok_lru _ Hok) in Hp as ([k Hk] & _). simpl.
        destruct (tab_without_delete (s_tab s) k p) as [_ ->]; [|done|lia].
        intros k' Hk'. by apply (ok_tab_inj _ Hok k' k p).
Qed.

(** The cache is trimmed by least recent use: from the LRU list, which holds
    exactly the vnodes without references, vnodes are destroyed from the end
    until the table has no more than 256 entries or none is left; no more
    than needed are taken, the last used one first to stay, and every other
    vnode keeps its references and its place in the table. *)
Theorem vnode_trim_lru st s : vrel st s -> spec_ok s ->
  returns (vn_cache_trim st) (fun st' => exists s' l l2,
    vrel st' s' /\ spec_ok s' /\ s_lru s = l ++ l2 /\ s_lru s' = l /\
    vn_dead st' = vn_dead st ++ rev l2 /\ s_lacks l2 s s' /\
    (vn_count st' <= VNODE_CACHE_MAX \/ l = []) /\ (l2 = [] \/ VNODE_CACHE_MAX <= vn_count st')).
Proof.
  intros Hr Hok. eapply returns_mono; [by apply vn_cache_trim_spec|]. intros st' [Hr' Hok'].
  destruct (s_trim_closed (s_lru s) s Hok eq_refl) as (l & l2 & E1 & E2 & E3 & E4 & E5 & E6).
  exists (s_trim s), l, l2. rewrite (rel_dead _ _ Hr'), (rel_dead _ _ Hr), (rel_count _ _ Hr').
  split; [done|]. split; [done|]. done.
Qed.

(** Between the two parts of [vnode_unref] nothing holds the vnode: when
    the last reference of a cached vnode is dropped and its entry is
    invalidated before the second part runs, the vnode is destroyed there,
    and the second part reads freed memory. *)
Theorem vnode_unref_race st s m ino p : vrel st s -> s_tab s !! (m, ino) = Some p -> s_ref s !! p = Some 1 ->
  returns ('(doit, st) ← unref_count p st; st ← vnode_cache_invalidate m ino st; Ret (doit, st))
    (fun '(doit, st') => doit = true /\ unref_last p st' = UB).
Proof.
  intros Hr Hk Hp. eapply returns_bind; [apply (unref_count_spec st s p 1); [done|done|lia]|].
  intros [doit st1] [-> Hr1]. eapply returns_bind; [by apply vnode_cache_invalidate_rel|]. intros st2 Hr2. ret.
  split; [done|]. destruct (ref_vnode _ _ _ _ Hr Hp) as (H0 & _).
  destruct (rel_ref _ _ Hr2) as (_ & _ & Href). specialize (Href p H0).
  unfold s_invalidate in Href. simpl in Href. rewrite Hk in Href. unfold s_drop in Href. simpl in Href.
  rewrite lookup_insert_eq in Href. simpl in Href. rewrite lookup_delete_eq in Href.
  unfold unref_last, ld. by destruct (vns st2 !! p).
Qed.
End vnode_cache.

Arguments vcache : clear implicits.

(** ** A concrete cache *)

Definition cache0 : vcache ref_heap := VCache {[0 := zero_vnode]} (replicate 64 0) 0 [] (RefHeap 64 100 ∅).
Definition spec0 : vspec := VSpec ∅ ∅ [] ∅ [].

Lemma cache0_rel : vrel cache0 spec0.
Proof.
  split; simpl; try done.
  - split; simpl; [done|by intros k p ?%lookup_empty_Some|]. intros b h Hb.
    apply getz_Some in Hb as [_ Hb]. change (replicate 64 0 !! Z.to_nat b = Some h) in Hb.
    apply lookup_replicate in Hb as [-> _]. exists [].
    split; [done|]. split; [constructor|]. intros p. split; [set_solver|]. intros (k & Hk & _).
    by rewrite lookup_empty in Hk.
  - split; [apply NoDup_singleton|]. split; (split; [done|exists 0; done]).
  - intros p v Hp Hv. unfold cache0 in Hv. simpl in Hv. apply lookup_singleton_Some in Hv as [<- _]. done.
  - split; [done|]. split; [by eexists|]. intros p Hp. simpl. by rewrite lookup_empty, lookup_singleton_ne.
  - split; [split; simpl; [lia|done]|]. simpl. intros p Hp [v Hv]. apply lookup_singleton_Some in Hv as [<- _]. done.
Qed.

Lemma spec0_ok : spec_ok spec0.
Proof.
  split; simpl; try (intros *; rewrite lookup_empty; done).
  - constructor.
  - intros p. rewrite lookup_empty. split; [set_solver|naive_solver].
Qed.

(** After looking up inode 2 of a mount and committing the vnode. *)
Definition cache1 : vcache ref_heap :=
  match vrun (OpGet 4096 2) cache0 with Ret (_, st) => st | _ => cache0 end.
Definition cache2 : vcache ref_heap :=
  match vrun (OpCommit 64) cache1 with Ret (_, st) => st | _ => cache1 end.
Definition spec2 : vspec := VSpec {[(4096, 2) := 64]} {[64 := 1]} [] ∅ [].

Lemma cache1_rel : vrel cache1 (s_setref 64 1 spec0) /\ spec_ok (s_setref 64 1 spec0).
Proof.
  pose proof (vrun_spec cache0 spec0 (OpGet 4096 2) cache0_rel spec0_ok ltac:(intros p r Hp; simpl in Hp; by rewrite lookup_empty in Hp)) as Hs.
  assert (vrun (OpGet 4096 2) cache0 = Ret (64, cache1)) as E by (vm_compute; reflexivity). rewrite E in Hs.
  destruct Hs as (s' & Hs & Hr & Hok). simpl in Hs. rewrite lookup_empty in Hs.
  destruct Hs as [[Hz _]|(_ & _ & ->)]; [discriminate Hz|]. exact (conj Hr Hok).
Qed.

Lemma cache2_rel : vrel cache2 spec2 /\ spec_ok spec2.
Proof.
  destruct cache1_rel as [Hr1 Hok1].
  assert (vlegal (s_setref 64 1 spec0) (OpCommit 64)) as Hl.
  { split; [exists 1; done|]. split; [intros [k Hk]; simpl in Hk; by rewrite lookup_empty in Hk|]. split; [set_solver|done]. }
  pose proof (vrun_spec cache1 _ (OpCommit 64) Hr1 Hok1 Hl) as Hs.
  assert (vrun (OpCommit 64) cache1 = Ret (0, cache2)) as E by (vm_compute; reflexivity). rewrite E in Hs.
  destruct Hs as (s' & (k & Hk & Hc) & Hr & Hok).
  assert (key_at cache1 64 = Some (4096, 2)) as Ek by (vm_compute; reflexivity). rewrite Ek in Hk. injection Hk as <-.
  unfold s_commit in Hc. simpl in Hc. rewrite lookup_empty in Hc. injection Hc as Hc.
  assert (s' = spec2) as -> by (rewrite Hc; vm_compute; reflexivity). exact (conj Hr Hok).
Qed.

Lemma vnode_cache_refines_witness :
  vlegal spec2 (OpUnref 64) /\
  returns (vrun (OpUnref 64) cache2) (fun '(r, st') => exists s', vstep (key_at cache2) spec2 (OpUnref 64) r s' /\ vrel st' s' /\ spec_ok s').
Proof.
  assert (vlegal spec2 (OpUnref 64)) as Hl by (exists 1; split; [reflexivity|lia]).
  split; [exact Hl|].
  exact (vnode_cache_refines cache2 spec2 (OpUnref 64) (proj1 cache2_rel) (proj2 cache2_rel) Hl).
Defined.

Lemma vnode_trim_lru_witness :
  returns (vn_cache_trim cache2) (fun st' => exists s' l l2,
    vrel st' s' /\ spec_ok s' /\ s_lru spec2 = l ++ l2 /\ s_lru s' = l /\
    vn_dead st' = vn_dead cache2 ++ rev l2 /\ s_lacks l2 spec2 s' /\
    (vn_count st' <= VNODE_CACHE_MAX \/ l = []) /\ (l2 = [] \/ VNODE_CACHE_MAX <= vn_count st')).
Proof. exact (vnode_trim_lru cache2 spec2 (proj1 cache2_rel) (proj2 cache2_rel)). Defined.

Lemma vnode_unref_race_witness :
  returns ('(doit, st) ← unref_count 64 cache2; st ← vnode_cache_invalidate 4096 2 st; Ret (doit, st))
    (fun '(doit, st') => doit = true /\ unref_last 64 st' = UB).
Proof. exact (vnode_unref_race cache2 spec2 4096 2 64 (proj1 cache2_rel) eq_refl eq_refl). Defined.
