(* ===== verification/Fd.v ===== *)
(** * File descriptor tables (bsd/proc/proc.c, the descriptor parts of
    bsd/vfs/vfs.c, bsd/proc/fork.c, bsd/proc/exec.c and bsd/sys/sys_file.c)

    The table of a process is a kmalloc block that grows from 16 to 256
    descriptors; processes are the keys of a map, so that source and
    destination of a duplication may be the same process.  Vnodes are used
    through the interface [VRefs]: taking and dropping references.  The vnode
    cache of Vnode.v implements it. *)

From stdpp Require Import base numbers list gmap sets fin_maps.
From Stdlib Require Import ZArith Lia.
From S2P Require Import Prelude StringLib Links Vnode.

#[local] Open Scope Z_scope.

(** ** References to vnodes, as the descriptor tables see them

    [vcount v p] is the number of references of the vnode at [p], if there is
    one.  Dropping a reference leaves every other vnode somebody holds alone. *)
Class VRefs (V : Type) := {
  vref : Z -> V -> out V;
  vput : Z -> V -> out V;
  vcount : V -> Z -> option Z;
  vwf : V -> Prop;
}.

Class VRefsLaws (V : Type) `{!VRefs V} : Prop := {
  vref_ok v p r : vwf v -> vcount v p = Some r -> 0 < r < 2 ^ 31 - 1 ->
    returns (vref p v) (fun v' => vwf v' /\ vcount v' p = Some (r + 1) /\
      forall q, q <> p -> vcount v' q = vcount v q);
  vput_ok v p r : vwf v -> vcount v p = Some r -> 0 < r <= 2 ^ 31 - 1 ->
    returns (vput p v) (fun v' => vwf v' /\ (1 < r -> vcount v' p = Some (r - 1)) /\
      forall q n, q <> p -> vcount v q = Some n -> 0 < n -> vcount v' q = Some n);
}.

Definition FD_MAX : Z := 256.
Definition FD_INITIAL : Z := 16.
Definition sizeof_filedesc : Z := 40.

Record filedesc := FileDesc {
  d_fd : Z; d_vnode : Z; d_flags : Z; d_offset : Z; d_mode : Z; d_cloexec : Z; d_used : Z;
}.

Definition zero_fd : filedesc := FileDesc 0 0 0 0 0 0 0.

Definition set_used x d := FileDesc (d_fd d) (d_vnode d) (d_flags d) (d_offset d) (d_mode d) (d_cloexec d) x.
Definition set_fd x d := FileDesc x (d_vnode d) (d_flags d) (d_offset d) (d_mode d) (d_cloexec d) (d_used d).
Definition set_cloexec x d := FileDesc (d_fd d) (d_vnode d) (d_flags d) (d_offset d) (d_mode d) x (d_used d).

(** [fds] and [fd_capacity] of a process: the block and what it holds. *)
Record fdtab := FdTab { t_addr : Z; t_fds : list filedesc; t_cap : Z }.

Section fds.
Context {H V : Type} `{!KMem H} `{!VRefs V}.

Record fdst := FdSt { tabs : gmap Z fdtab; f_heap : H; f_vn : V }.

Implicit Types (st : fdst) (t : fdtab) (p i : Z).

Definition tab_at p st : out fdtab := match tabs st !! p with Some t => Ret t | None => UB end.

Definition put_tab p t st : fdst := FdSt (<[p := t]> (tabs st)) (f_heap st) (f_vn st).
Definition set_vn v st : fdst := FdSt (tabs st) (f_heap st) v.

(** Changing descriptor [i] of process [p]. *)
Definition fd_upd p i (f : filedesc -> filedesc) st : out fdst :=
  t ← tab_at p st;
  d ← rd (t_fds t) i;
  l ← wr (t_fds t) i (f d);
  Ret (put_tab p (FdTab (t_addr t) l (t_cap t)) st).

Fixpoint scan_free (n : nat) i (l : list filedesc) : out (option Z) :=
  match n with
  | O => Ret None
  | S n => d ← rd l i; if d_used d =? 0 then Ret (Some i) else scan_free n (i + 1) l
  end.

(** A bigger table: [memset] and [memcpy] of the old one. *)
Definition grown (newcap : Z) t : list filedesc :=
  take (Z.to_nat (t_cap t)) (t_fds t) ++ replicate (Z.to_nat (newcap - t_cap t)) zero_fd.

Definition proc_fd_alloc p st : out (Z * fdst) :=
  if p =? 0 then Ret (-1, st)
  else
    t ← tab_at p st;
    if t_addr t =? 0 then Ret (-1, st)
    else
      o ← scan_free (Z.to_nat (t_cap t)) 0 (t_fds t);
      match o with
      | Some i => st ← fd_upd p i (fun d => set_fd i (set_used 1 d)) st; Ret (i, st)
      | None =>
          if FD_MAX <=? t_cap t then Ret (-1, st)
          else
            let newcap := if FD_MAX <? t_cap t * 2 then FD_MAX else t_cap t * 2 in
            match kmalloc (sizeof_filedesc * newcap) (f_heap st) with
            | (None, h) => Ret (-1, FdSt (tabs st) h (f_vn st))
            | (Some nf, h) =>
                let t' := FdTab nf (grown newcap t) newcap in
                let st := FdSt (<[p := t']> (tabs st)) (kfree (t_addr t) h) (f_vn st) in
                let fd := newcap / 2 in
                st ← fd_upd p fd (fun d => set_fd fd (set_used 1 d)) st;
                Ret (fd, st)
            end
      end.

Definition proc_fd_dealloc p fd st : out (Z * fdst) :=
  if p =? 0 then Ret (-1, st)
  else
    t ← tab_at p st;
    if (fd <? 0) || (t_cap t <=? fd) || (t_addr t =? 0) then Ret (-1, st)
    else
      d ← rd (t_fds t) fd;
      if negb (d_used d =? 0) then st ← fd_upd p fd (set_used 0) st; Ret (0, st)
      else Ret (-1, st).

(** The descriptor, or NULL. *)
Definition proc_fd_get p fd st : out (option filedesc) :=
  if p =? 0 then Ret None
  else
    t ← tab_at p st;
    if (fd <? 0) || (t_cap t <=? fd) || (t_addr t =? 0) then Ret None
    else
      d ← rd (t_fds t) fd;
      Ret (if negb (d_used d =? 0) then Some d else None).

(** [if (vp) vnode_ref(vp)] and [if (vp) vnode_put(vp)] *)
Definition ref_vnode vp st : out fdst :=
  if vp =? 0 then Ret st else v ← vref vp (f_vn st); Ret (set_vn v st).
Definition put_vnode vp st : out fdst :=
  if vp =? 0 then Ret st else v ← vput vp (f_vn st); Ret (set_vn v st).

Definition proc_fd_dup dst src fd st : out (Z * fdst) :=
  if (dst =? 0) || (src =? 0) || (fd <? 0) then Ret (-1, st)
  else
    t ← tab_at src st;
    if (t_cap t <=? fd) || (t_addr t =? 0) then Ret (-1, st)
    else
      src_fd ← rd (t_fds t) fd;
      if d_used src_fd =? 0 then Ret (-1, st)
      else
        '(new_fd, st) ← proc_fd_alloc dst st;
        if new_fd <? 0 then Ret (-1, st)
        else
          st ← ref_vnode (d_vnode src_fd) st;
          st ← fd_upd dst new_fd (fun _ => set_fd new_fd src_fd) st;
          Ret (new_fd, st).

(** [while (newcap <= newfd && newcap < FD_MAX) newcap *= 2;] from 16 the
    fifth turn is the last. *)
Fixpoint double_cap (fuel : nat) (newcap newfd : Z) : out Z :=
  match fuel with
  | O => Hang
  | S fuel => if (newcap <=? newfd) && (newcap <? FD_MAX) then double_cap fuel (newcap * 2) newfd else Ret newcap
  end.

(** Growing the destination table to cover [newfd]: 0, or -1. *)
Definition dup2_grow dst newfd st : out (Z * fdst) :=
  t ← tab_at dst st;
  if (t_addr t =? 0) || (t_cap t <=? newfd) then
    newcap ← double_cap 6 (if negb (t_addr t =? 0) then t_cap t else FD_INITIAL) newfd;
    let newcap := if FD_MAX <? newcap then FD_MAX else newcap in
    if newcap <=? newfd then Ret (-1, st)
    else
      match kmalloc (sizeof_filedesc * newcap) (f_heap st) with
      | (None, h) => Ret (-1, FdSt (tabs st) h (f_vn st))
      | (Some nf, h) =>
          let old := if negb (t_addr t =? 0) && (0 <? t_cap t) then t else FdTab 0 [] 0 in
          let t' := FdTab nf (grown newcap old) newcap in
          Ret (0, FdSt (<[dst := t']> (tabs st)) (kfree (t_addr t) h) (f_vn st))
      end
  else Ret (0, st).

Definition proc_fd_dup2 dst src oldfd newfd st : out (Z * fdst) :=
  if (dst =? 0) || (src =? 0) || (oldfd <? 0) || (newfd <? 0) || (FD_MAX <=? newfd) then Ret (-1, st)
  else if oldfd =? newfd then Ret (newfd, st)
  else
    ts ← tab_at src st;
    if (t_addr ts =? 0) || (t_cap ts <=? oldfd) then Ret (-1, st)
    else
      ds ← rd (t_fds ts) oldfd;
      if d_used ds =? 0 then Ret (-1, st)
      else
        '(rc, st) ← dup2_grow dst newfd st;
        if rc <? 0 then Ret (-1, st)
        else
          t ← tab_at dst st;
          d ← rd (t_fds t) newfd;
          st ← (if negb (d_used d =? 0) then
                  st ← put_vnode (d_vnode d) st; fd_upd dst newfd (set_used 0) st
                else Ret st);
          ts ← tab_at src st;
          oldfd_copy ← rd (t_fds ts) oldfd;
          if negb (dst =? src) && (d_used oldfd_copy =? 0) then Ret (-1, st)
          else
            st ← ref_vnode (d_vnode oldfd_copy) st;
            st ← fd_upd dst newfd (fun _ => set_cloexec 0 (set_used 1 (set_fd newfd oldfd_copy))) st;
            Ret (newfd, st).

(** The end of [vfs_open]: a descriptor for the vnode [vp] whose reference the
    lookup holds. *)
Definition EMFILE : Z := 24.
Definition EBADF : Z := 9.

Definition fd_install p vp flags cloexec st : out (Z * fdst) :=
  '(fd, st) ← proc_fd_alloc p st;
  if fd <? 0 then st ← put_vnode vp st; Ret (- EMFILE, st)
  else
    st ← fd_upd p fd (fun d => FileDesc (d_fd d) vp flags 0 0 cloexec 1) st;
    Ret (fd, st).

Definition vfs_close p fd st : out (Z * fdst) :=
  f ← proc_fd_get p fd st;
  match f with
  | None => Ret (- EBADF, st)
  | Some f =>
      st ← put_vnode (d_vnode f) st;
      '(_, st) ← proc_fd_dealloc p fd st;
      Ret (0, st)
  end.

(** The loop of [proc_exit]. *)
Definition close_one p i st : out fdst :=
  t ← tab_at p st;
  if t_addr t =? 0 then Ret st
  else
    d ← rd (t_fds t) i;
    if d_used d =? 0 then Ret st
    else st ← put_vnode (d_vnode d) st; fd_upd p i (set_used 0) st.

Definition exit_close_fds p st : out fdst :=
  t ← tab_at p st; for_range 0 (t_cap t) (close_one p) st.

(** The loop of [proc_exec]. *)
Definition cloexec_one p i st : out fdst :=
  t ← tab_at p st;
  d ← rd (t_fds t) i;
  if negb (d_used d =? 0) && negb (d_cloexec d =? 0) then '(_, st) ← vfs_close p i st; Ret st else Ret st.

Definition exec_close_fds p st : out fdst :=
  t ← tab_at p st; for_range 0 (t_cap t) (cloexec_one p) st.

(** The loop of [proc_fork]. *)
Definition fork_one child parent i st : out fdst :=
  t ← tab_at parent st;
  d ← rd (t_fds t) i;
  if negb (d_used d =? 0) then '(_, st) ← proc_fd_dup child parent i st; Ret st else Ret st.

Definition fork_fds child parent st : out fdst :=
  t ← tab_at parent st; for_range 0 (t_cap t) (fork_one child parent) st.

(** ** Tables *)

(** Descriptor [i] of a table; behind the end there is an unused one. *)
Definition slot t i : filedesc := default zero_fd (getz (t_fds t) i).

Definition used t i : Prop := d_used (slot t i) <> 0.

Definition cap_ok (c : Z) : Prop := c = 16 \/ c = 32 \/ c = 64 \/ c = 128 \/ c = 256.

Definition tab_ok (h : H) t : Prop :=
  t_addr t <> 0 /\ t_addr t ∈ klive h /\ Z.of_nat (length (t_fds t)) = t_cap t /\ cap_ok (t_cap t).

Record tabs_ok st : Prop := {
  to_heap : kwf (f_heap st);
  to_tab : forall p t, tabs st !! p = Some t -> p <> 0 /\ tab_ok (f_heap st) t;
  to_inj : forall p q t u, tabs st !! p = Some t -> tabs st !! q = Some u -> p <> q -> t_addr t <> t_addr u;
}.

Context `{!KMemLaws H} `{!VRefsLaws V}.

Lemma tab_at_ok p st t : tabs st !! p = Some t -> tab_at p st = Ret t.
Proof. unfold tab_at. by intros ->. Qed.

Lemma slot_getz t i : 0 <= i < Z.of_nat (length (t_fds t)) -> getz (t_fds t) i = Some (slot t i).
Proof. intros Hi. destruct (getz_lt (t_fds t) i Hi) as [d Hd]. unfold slot. by rewrite Hd. Qed.

Lemma slot_end t i : Z.of_nat (length (t_fds t)) <= i -> slot t i = zero_fd.
Proof.
  intros Hi. unfold slot. destruct (getz (t_fds t) i) eqn:E; [|done]. apply getz_Some_lt in E. lia.
Qed.

Lemma used_lt t i : used t i -> 0 <= i < Z.of_nat (length (t_fds t)).
Proof.
  unfold used, slot. destruct (getz (t_fds t) i) eqn:E; [|done]. intros _. by apply getz_Some_lt in E.
Qed.

(** A table with descriptor [i] replaced. *)
Definition tab_set i d t : fdtab := FdTab (t_addr t) (<[Z.to_nat i := d]> (t_fds t)) (t_cap t).

Lemma slot_set_eq i d t : 0 <= i < Z.of_nat (length (t_fds t)) -> slot (tab_set i d t) i = d.
Proof. intros Hi. unfold slot. simpl. by rewrite getz_insert_eq. Qed.

Lemma slot_set_ne i j d t : 0 <= i -> i <> j -> slot (tab_set i d t) j = slot t j.
Proof. intros Hi Hj. unfold slot. simpl. by rewrite getz_insert_ne. Qed.

Lemma fd_upd_ok p i f st t : tabs st !! p = Some t -> 0 <= i < Z.of_nat (length (t_fds t)) ->
  fd_upd p i f st = Ret (put_tab p (tab_set i (f (slot t i)) t) st).
Proof.
  intros Hp Hi. unfold fd_upd. rewrite (tab_at_ok _ _ _ Hp). ret.
  rewrite (rd_getz _ _ _ (slot_getz t i Hi)). ret. by rewrite wr_ok.
Qed.

Lemma tabs_ok_set p i d st t : tabs_ok st -> tabs st !! p = Some t -> tabs_ok (put_tab p (tab_set i d t) st).
Proof.
  intros [H1 H2 H3] Hp. split; simpl; [done| |].
  - intros q u [[<- <-]|[Hne Hq]]%lookup_insert_Some; [|by apply H2].
    destruct (H2 p t Hp) as (H0 & A & B & C & D). split; [done|]. split; [done|]. split; [done|]. simpl.
    rewrite length_insert. done.
  - intros q q' u u' [[<- <-]|[Hne Hq]]%lookup_insert_Some [[<- <-]|[Hne' Hq']]%lookup_insert_Some Hqq; simpl; try done.
    + by apply (H3 p q').
    + by apply (H3 q p).
    + by apply (H3 q q').
Qed.

Lemma scan_free_spec l n : forall i, 0 <= i -> i + Z.of_nat n = Z.of_nat (length l) ->
  returns (scan_free n i l) (fun o => match o with
    | Some j => i <= j < Z.of_nat (length l) /\ d_used (default zero_fd (getz l j)) = 0 /\
        forall k, i <= k < j -> d_used (default zero_fd (getz l k)) <> 0
    | None => forall k, i <= k < Z.of_nat (length l) -> d_used (default zero_fd (getz l k)) <> 0
    end).
Proof.
  induction n as [|n IH]; intros i Hi Hn; simpl.
  - intros k Hk. lia.
  - destruct (getz_lt l i ltac:(lia)) as [d Hd]. rewrite (rd_getz _ _ _ Hd). ret.
    destruct (Z.eqb_spec (d_used d) 0) as [E|E].
    + simpl. rewrite Hd. split; [lia|]. split; [done|]. intros k Hk. lia.
    + eapply returns_mono; [apply (IH (i + 1)); lia|]. intros [j|]; cbv beta.
      * intros (Hj & Hu & Hb). split; [lia|]. split; [done|]. intros k Hk.
        destruct (decide (k = i)) as [->|]; [by rewrite Hd|]. apply Hb. lia.
      * intros Hb k Hk. destruct (decide (k = i)) as [->|]; [by rewrite Hd|]. apply Hb. lia.
Qed.

Lemma slot_grown nf newcap t j : Z.of_nat (length (t_fds t)) = t_cap t -> t_cap t <= newcap ->
  slot (FdTab nf (grown newcap t) newcap) j = slot t j.
Proof.
  intros Hl Hc. unfold slot, grown. simpl. rewrite take_ge by lia.
  destruct (Z.lt_ge_cases j 0) as [Hj|Hj]; [unfold getz; by zcmp|].
  destruct (Z.lt_ge_cases j (Z.of_nat (length (t_fds t)))) as [Hlt|Hge].
  - f_equal. unfold getz. zcmp. by rewrite lookup_app_l by lia.
  - assert (getz (t_fds t) j = None) as ->.
    { destruct (getz (t_fds t) j) eqn:E; [|done]. apply getz_Some_lt in E. lia. }
    unfold getz. zcmp. rewrite lookup_app_r by lia. destruct (_ !! _) as [d|] eqn:E; [|done].
    by apply lookup_replicate in E as [-> _].
Qed.

(** Replacing the block of a table by a new one. *)
Lemma tabs_ok_grow p t nf newcap h st : tabs_ok st -> tabs st !! p = Some t -> cap_ok newcap -> t_cap t <= newcap ->
  kmalloc (sizeof_filedesc * newcap) (f_heap st) = (Some nf, h) ->
  tabs_ok (FdSt (<[p := FdTab nf (grown newcap t) newcap]> (tabs st)) (kfree (t_addr t) h) (f_vn st)).
Proof.
  intros [H1 H2 H3] Hp Hcap Hle Hm. destruct (kmalloc_some _ _ _ _ H1 Hm) as (Hw & Hf & Hz & Hl).
  destruct (H2 p t Hp) as (Hp0 & Ha & Hlv & Hlen & _).
  destruct (kfree_live h (t_addr t) Hw ltac:(rewrite Hl; set_solver)) as [Hw' Hl'].
  assert (forall q u, tabs st !! q = Some u -> t_addr u <> nf) as Hne.
  { intros q u Hq E. destruct (H2 q u Hq) as (_ & _ & Hin & _). congruence. }
  split; simpl; [done| |].
  - intros q u [[<- <-]|[Hqp Hq]]%lookup_insert_Some.
    + split; [done|]. split; [done|]. split; [simpl; rewrite Hl', Hl; pose proof (Hne p t Hp); set_solver|]. simpl.
      unfold grown. rewrite length_app, length_take, length_replicate. split; [lia|done].
    + destruct (H2 q u Hq) as (Hq0 & A & B & C & D). split; [done|]. split; [done|]. split; [|done].
      rewrite Hl', Hl. pose proof (H3 p q t u Hp Hq Hqp). set_solver.
  - intros q q' u u' [[<- <-]|[Hqp Hq]]%lookup_insert_Some [[<- <-]|[Hqp' Hq']]%lookup_insert_Some Hqq; simpl; try done.
    + intros E. by apply (Hne q' u').
    + by apply (Hne q u).
    + by apply (H3 q q').
Qed.

(** What a successful [proc_fd_alloc] does to the table. *)
Definition alloc_post p i t t' : Prop :=
  0 <= i < t_cap t' /\ ~ used t i /\ (forall j, 0 <= j < i -> used t j) /\
  slot t' i = set_fd i (set_used 1 (slot t i)) /\ (forall j, j <> i -> slot t' j = slot t j) /\
  Z.of_nat (length (t_fds t')) = t_cap t' /\ t_cap t <= t_cap t'.

Lemma proc_fd_alloc_spec p st t : tabs_ok st -> tabs st !! p = Some t ->
  returns (proc_fd_alloc p st) (fun '(i, st') =>
    tabs_ok st' /\ f_vn st' = f_vn st /\
    ((i = -1 /\ tabs st' = tabs st /\ (forall j, 0 <= j < t_cap t -> used t j) /\
      (t_cap t = FD_MAX \/ exists n h, kmalloc n (f_heap st) = (None, h))) \/
     exists t', tabs st' = <[p := t']> (tabs st) /\ alloc_post p i t t')).
Proof.
  intros Hok Hp. destruct (to_tab _ Hok p t Hp) as (H0 & Ha & Hlive & Hlen & Hcap).
  unfold proc_fd_alloc. zcmp. rewrite (tab_at_ok _ _ _ Hp). ret. zcmp.
  assert (0 < t_cap t <= 256) as Hc by (unfold cap_ok in Hcap; lia).
  eapply returns_bind; [apply (scan_free_spec (t_fds t) (Z.to_nat (t_cap t)) 0); lia|].
  intros [j|]; cbv beta.
  - intros (Hj & Hu & Hb). rewrite (fd_upd_ok _ _ _ _ _ Hp) by done. ret.
    split; [by apply tabs_ok_set|]. split; [done|]. right. eexists. split; [done|].
    split; [simpl; lia|]. split; [unfold used, slot; rewrite Hu; intros E; by apply E|].
    split; [intros k Hk; by apply Hb|]. split; [by apply slot_set_eq|].
    split; [intros k Hk; apply slot_set_ne; lia|]. simpl. rewrite length_insert. split; [done|lia].
  - intros Hb. destruct (Z.leb_spec FD_MAX (t_cap t)) as [Hmax|Hmax].
    { ret. split; [done|]. split; [done|]. left. split; [done|]. split; [done|]. split; [intros k Hk; apply Hb; lia|].
      left. unfold FD_MAX in *. lia. }
    unfold FD_MAX in *. replace (if 256 <? t_cap t * 2 then 256 else t_cap t * 2) with (t_cap t * 2)
      by (unfold cap_ok in Hcap; destruct (Z.ltb_spec 256 (t_cap t * 2)); lia). cbv zeta.
    destruct (kmalloc _ (f_heap st)) as [[nf|] h] eqn:E.
    + set (t1 := FdTab nf (grown (t_cap t * 2) t) (t_cap t * 2)). set (st1 := FdSt _ _ _).
      assert (cap_ok (t_cap t * 2)) as Hcap2 by (unfold cap_ok in *; lia).
      assert (tabs_ok st1) as Hok1 by (apply tabs_ok_grow; [done|done|done|lia|done]).
      assert (tabs st1 !! p = Some t1) as Hp1 by (simpl; by rewrite lookup_insert_eq).
      destruct (to_tab _ Hok1 p t1 Hp1) as (_ & _ & _ & Hlen1 & _). simpl in Hlen1.
      replace (t_cap t * 2 / 2) with (t_cap t) by (rewrite Z.div_mul; lia).
      rewrite (fd_upd_ok _ _ _ _ t1) by (done || (simpl; lia)). ret.
      split; [by apply tabs_ok_set|]. split; [done|]. right. eexists. split; [simpl; by rewrite insert_insert_eq|].
      assert (forall k, slot t1 k = slot t k) as Hsl by (intros k; apply slot_grown; lia).
      split; [simpl; lia|]. split; [intros Hu%used_lt; lia|]. split; [intros k Hk; apply Hb; lia|].
      split; [rewrite slot_set_eq by (simpl; lia); by rewrite Hsl|].
      split; [intros k Hk; rewrite slot_set_ne by lia; apply Hsl|]. simpl. rewrite length_insert. split; [done|lia].
    + ret. destruct (kmalloc_none _ _ _ (to_heap _ Hok) E) as [Hw Hl]. split; [|split; [done|]].
      * destruct Hok as [A B C]. split; simpl; [done| |done]. intros q u Hq. unfold tab_ok. rewrite Hl. by apply B.
      * left. split; [done|]. split; [done|]. split; [intros k Hk; apply Hb; lia|]. right. by eexists _, _.
Qed.

(** ** References held by descriptors *)

Definition one (q x : Z) : Z := if q =? x then 1 else 0.

(** 1 if the descriptor is open on the vnode [q]. *)
Definition holds q d : Z := if d_used d =? 0 then 0 else one q (d_vnode d).

Definition all_fds : list Z := seqZ 0 FD_MAX.

Definition cnt q t : Z := sumz (fun i => holds q (slot t i)) all_fds.

(** How many descriptors of all processes are open on the vnode [q]. *)
Definition uses q (m : gmap Z fdtab) : Z := sumz (cnt q) (map_to_list m).*2.

Lemma holds_range q d : 0 <= holds q d <= 1.
Proof. unfold holds, one. destruct (d_used d =? 0), (q =? d_vnode d); lia. Qed.

Lemma cnt_nonneg q t : 0 <= cnt q t.
Proof. apply sumz_nonneg. intros i _. apply holds_range. Qed.

Lemma cnt_slot q t t' i : 0 <= i < FD_MAX -> (forall j, j <> i -> slot t' j = slot t j) ->
  cnt q t' = cnt q t - holds q (slot t i) + holds q (slot t' i).
Proof.
  intros Hi Hj. unfold cnt. rewrite (sumz_upd (fun i => holds q (slot t i)) _ all_fds i).
  - done.
  - apply NoDup_seqZ.
  - by apply elem_of_seqZ.
  - intros j _ Hne. by rewrite Hj.
Qed.

Lemma cnt_ge q t i : 0 <= i < FD_MAX -> holds q (slot t i) <= cnt q t.
Proof.
  intros Hi. unfold cnt. assert (i ∈ all_fds) as Hin by (by apply elem_of_seqZ).
  induction all_fds as [|x l IH]; [by apply elem_of_nil in Hin|]. simpl. apply elem_of_cons in Hin as [->|Hin].
  - assert (0 <= sumz (fun i => holds q (slot t i)) l) by (apply sumz_nonneg; intros; apply holds_range). lia.
  - specialize (IH Hin). pose proof (holds_range q (slot t x)). lia.
Qed.

Lemma uses_insert_new q m p t : m !! p = None -> uses q (<[p := t]> m) = cnt q t + uses q m.
Proof.
  intros Hp. unfold uses. rewrite (sumz_perm _ _ (t :: (map_to_list m).*2)); [done|].
  by rewrite (map_to_list_insert m p t Hp).
Qed.

Lemma uses_insert q m p t t' : m !! p = Some t -> uses q (<[p := t']> m) = uses q m - cnt q t + cnt q t'.
Proof.
  intros Hp. rewrite <- (insert_delete_eq m p t').
  rewrite uses_insert_new by apply lookup_delete_eq. rewrite <- (insert_delete_id m p t Hp) at 2.
  rewrite uses_insert_new by apply lookup_delete_eq. lia.
Qed.

Lemma uses_nonneg q m : 0 <= uses q m.
Proof. apply sumz_nonneg. intros t _. apply cnt_nonneg. Qed.

Lemma uses_ge q m p t i : m !! p = Some t -> 0 <= i < FD_MAX -> holds q (slot t i) <= uses q m.
Proof.
  intros Hp Hi. rewrite <- (insert_delete_id m p t Hp), uses_insert_new by apply lookup_delete_eq.
  pose proof (cnt_ge q t i Hi). pose proof (uses_nonneg q (delete p m)). lia.
Qed.

(** One descriptor changes. *)
Lemma uses_slot q m p t t' i : m !! p = Some t -> 0 <= i < FD_MAX -> (forall j, j <> i -> slot t' j = slot t j) ->
  uses q (<[p := t']> m) = uses q m - holds q (slot t i) + holds q (slot t' i).
Proof. intros Hp Hi Hj. rewrite (uses_insert q m p t t' Hp), (cnt_slot q t t' i Hi Hj). lia. Qed.

(** The vnodes have the references [u] counts. *)
Definition refs_for (v : V) (u : Z -> Z) : Prop :=
  vwf v /\ forall q, q <> 0 -> 0 < u q -> exists r, vcount v q = Some r /\ u q <= r <= 2 ^ 31 - 1.

Lemma refs_for_le v u u' : (forall q, q <> 0 -> u' q <= u q) -> refs_for v u -> refs_for v u'.
Proof.
  intros Hu [Hw Hr]. split; [done|]. intros q Hq Hpos. specialize (Hu q Hq).
  destruct (Hr q Hq ltac:(lia)) as (r & Hc & Hb). exists r. split; [done|lia].
Qed.

(** Every vnode in use can take one more reference and [k] others. *)
Definition slack (k : Z) (v : V) (u : Z -> Z) : Prop :=
  forall q r, q <> 0 -> 0 < u q -> vcount v q = Some r -> r + k < 2 ^ 31 - 1.

Lemma ref_vnode_spec st vp u : refs_for (f_vn st) u -> (vp <> 0 -> 0 < u vp) -> slack 0 (f_vn st) u ->
  returns (ref_vnode vp st) (fun st' => exists v, st' = set_vn v st /\ refs_for v (fun q => u q + one q vp) /\
    forall k, slack (k + 1) (f_vn st) u -> slack k v (fun q => u q + one q vp)).
Proof.
  intros [Hw Hr] Hpos Hsm. unfold ref_vnode. destruct (Z.eqb_spec vp 0) as [->|H0].
  - assert (forall q, q <> 0 -> one q 0 = 0) as Hone by (intros q Hq; unfold one; by zcmp).
    ret. exists (f_vn st). split; [by destruct st|]. split.
    + apply (refs_for_le _ u); [|done]. intros q Hq. rewrite (Hone q Hq). lia.
    + intros k Hk q r Hq Hu Hc. rewrite (Hone q Hq) in Hu. specialize (Hk q r Hq ltac:(lia) Hc). lia.
  - destruct (Hr vp H0 (Hpos H0)) as (r & Hc & Hb). pose proof (Hsm vp r H0 (Hpos H0) Hc). specialize (Hpos H0).
    eapply returns_bind; [apply (vref_ok (f_vn st) vp r); [done|done|lia]|]. intros v (Hw' & Hc' & Ho). ret.
    exists v. split; [done|]. split; [split; [done|]|].
    + intros q Hq Hu. unfold one in *. destruct (Z.eqb_spec q vp) as [->|Hne].
      * exists (r + 1). split; [done|]. lia.
      * rewrite (Ho q Hne). destruct (Hr q Hq ltac:(lia)) as (r' & Hc1 & Hb'). exists r'. split; [done|lia].
    + intros k Hk q n Hq Hu Hn. unfold one in *. destruct (Z.eqb_spec q vp) as [->|Hne].
      * rewrite Hc' in Hn. injection Hn as <-. specialize (Hk vp r Hq Hpos Hc). lia.
      * rewrite (Ho q Hne) in Hn. specialize (Hk q n Hq ltac:(lia) Hn). lia.
Qed.

Lemma put_vnode_spec st vp u : refs_for (f_vn st) u -> (vp <> 0 -> 0 < u vp) ->
  returns (put_vnode vp st) (fun st' => exists v, st' = set_vn v st /\ refs_for v (fun q => u q - one q vp) /\
    (slack 0 (f_vn st) u -> slack 0 v (fun q => u q - one q vp))).
Proof.
  intros [Hw Hr] Hpos. assert (forall q, 0 <= one q vp) as Hone by (intros q; unfold one; destruct (q =? vp); lia).
  unfold put_vnode. destruct (Z.eqb_spec vp 0) as [->|H0].
  - ret. exists (f_vn st). split; [by destruct st|]. split.
    + apply (refs_for_le _ u); [|done]. intros q Hq. specialize (Hone q). lia.
    + intros Hsm q r Hq Hu. apply Hsm; [done|]. specialize (Hone q). lia.
  - destruct (Hr vp H0 (Hpos H0)) as (r & Hc & Hb). specialize (Hpos H0).
    eapply returns_bind; [apply (vput_ok (f_vn st) vp r); [done|done|lia]|]. intros v (Hw' & Hc' & Ho). ret.
    exists v. split; [done|]. split; [split; [done|]|].
    + intros q Hq Hu. unfold one in Hu |- *. destruct (Z.eqb_spec q vp) as [->|Hne].
      * exists (r - 1). split; [apply Hc'; lia|]. lia.
      * destruct (Hr q Hq ltac:(lia)) as (r' & Hc1 & Hb'). exists r'. split; [apply (Ho q r' Hne Hc1); lia|lia].
    + intros Hsm q n Hq Hu Hn. unfold one in Hu. destruct (Z.eqb_spec q vp) as [->|Hne].
      * rewrite Hc' in Hn by lia. injection Hn as <-. lia.
      * destruct (Hr q Hq ltac:(lia)) as (r' & Hc1 & Hb'). rewrite (Ho q r' Hne Hc1) in Hn by lia. injection Hn as <-.
        apply (Hsm q r' Hq); [lia|done].
Qed.

(** The invariant: every table is in order, and every open descriptor holds a
    reference of its vnode. *)
Definition fds_slack (k : Z) st : Prop := slack k (f_vn st) (fun q => uses q (tabs st)).

Definition fd_inv st : Prop := tabs_ok st /\ refs_for (f_vn st) (fun q => uses q (tabs st)).

(** ** Operations *)

Lemma cap_max c : cap_ok c -> 0 < c <= FD_MAX.
Proof. unfold cap_ok, FD_MAX. lia. Qed.

Lemma slot_range st p t i : tabs_ok st -> tabs st !! p = Some t -> 0 <= i < t_cap t ->
  0 <= i < Z.of_nat (length (t_fds t)) /\ 0 <= i < FD_MAX.
Proof.
  intros Hok Hp Hi. destruct (to_tab _ Hok p t Hp) as (_ & _ & _ & Hl & Hc). apply cap_max in Hc. lia.
Qed.

Lemma used_range st p t i : tabs_ok st -> tabs st !! p = Some t -> used t i -> 0 <= i < t_cap t /\ 0 <= i < FD_MAX.
Proof.
  intros Hok Hp Hu%used_lt. destruct (to_tab _ Hok p t Hp) as (_ & _ & _ & Hl & Hc). apply cap_max in Hc. lia.
Qed.

Lemma not_used t i : ~ used t i -> d_used (slot t i) = 0.
Proof. unfold used. lia. Qed.

Lemma holds_free q t i : ~ used t i -> holds q (slot t i) = 0.
Proof. intros Hu. unfold holds. by rewrite (not_used _ _ Hu). Qed.

Lemma holds_used q t i : used t i -> holds q (slot t i) = one q (d_vnode (slot t i)).
Proof. unfold used, holds. intros Hu. by rewrite (proj2 (Z.eqb_neq _ _) Hu). Qed.

Lemma uses_pos st p t i : tabs_ok st -> tabs st !! p = Some t -> used t i -> 0 < uses (d_vnode (slot t i)) (tabs st).
Proof.
  intros Hok Hp Hu. destruct (used_range _ _ _ _ Hok Hp Hu) as [_ Hi].
  pose proof (uses_ge (d_vnode (slot t i)) (tabs st) p t i Hp Hi) as Hge. rewrite (holds_used _ _ _ Hu) in Hge.
  unfold one in Hge. rewrite Z.eqb_refl in Hge. lia.
Qed.

(** A fresh descriptor, then its contents. *)
Lemma fill_spec p i t t' st st' f : tabs_ok st' -> tabs st !! p = Some t -> tabs st' = <[p := t']> (tabs st) -> alloc_post p i t t' ->
  returns (fd_upd p i f st') (fun st'' => exists t'',
    st'' = put_tab p t'' st' /\ tabs_ok st'' /\ tabs st'' = <[p := t'']> (tabs st) /\
    slot t'' i = f (slot t' i) /\ (forall j, j <> i -> slot t'' j = slot t j) /\ 0 <= i < FD_MAX /\ t_cap t <= t_cap t'' /\
    forall q, uses q (tabs st'') = uses q (tabs st) + holds q (f (slot t' i))).
Proof.
  intros Hok Hp Ht' (Hi & Hfree & Hlow & Hsl & Ho & Hlen & Hcap).
  assert (tabs st' !! p = Some t') as Hp' by (rewrite Ht'; apply lookup_insert_eq).
  destruct (slot_range _ _ _ _ Hok Hp' Hi) as [Hi1 Hi2].
  rewrite (fd_upd_ok _ _ _ _ _ Hp') by done. simpl. eexists. split; [done|]. split; [by apply tabs_ok_set|].
  assert (tabs (put_tab p (tab_set i (f (slot t' i)) t') st') = <[p := tab_set i (f (slot t' i)) t']> (tabs st)) as E
    by (simpl; by rewrite Ht', insert_insert_eq).
  split; [done|]. rewrite slot_set_eq by done. split; [done|].
  assert (forall j, j <> i -> slot (tab_set i (f (slot t' i)) t') j = slot t j) as Hoth.
  { intros j Hj. rewrite slot_set_ne by (done || lia). by apply Ho. }
  split; [done|]. split; [done|]. split; [done|]. intros q. simpl in E |- *. rewrite E, (uses_slot q _ p t _ i Hp Hi2 Hoth).
  rewrite slot_set_eq by done. rewrite (holds_free _ _ _ Hfree). lia.
Qed.

Lemma fd_install_spec p vp flags cloexec st t : tabs_ok st -> tabs st !! p = Some t ->
  refs_for (f_vn st) (fun q => uses q (tabs st) + one q vp) ->
  returns (fd_install p vp flags cloexec st) (fun '(fd, st') => fd_inv st' /\
    (fd = - EMFILE /\ tabs st' = tabs st \/
     exists t', tabs st' = <[p := t']> (tabs st) /\ ~ used t fd /\ 0 <= fd < FD_MAX /\ (forall j, 0 <= j < fd -> used t j) /\
       slot t' fd = FileDesc fd vp flags 0 0 cloexec 1 /\ forall j, j <> fd -> slot t' j = slot t j)).
Proof.
  intros Hok Hp Hrefs. unfold fd_install. eapply returns_bind; [by eapply proc_fd_alloc_spec|].
  intros [i st1] (Hok1 & Hvn & [(-> & Htabs & _)|(t' & Ht' & Hpost)]).
  - simpl. rewrite <- Htabs, <- Hvn in Hrefs. eapply returns_bind; [apply (put_vnode_spec st1 vp _ Hrefs)|].
    { intros Hv. pose proof (uses_nonneg vp (tabs st1)). unfold one. rewrite Z.eqb_refl. lia. }
    intros st2 (v & -> & Hr2 & _). ret. split; [|by left]. split.
    + destruct Hok1 as [A B C]. by split.
    + eapply refs_for_le, Hr2. intros q Hq. simpl. lia.
  - pose proof Hpost as (Hi & Hfree & Hlow & Hsl & _). zcmp.
    eapply returns_bind; [by eapply (fill_spec p i t t' st st1)|]. intros st2 (t2 & Est2 & Hok2 & Ht2 & Hs2 & Ho2 & Hi2 & _ & Hu). ret.
    split.
    + split; [done|]. assert (f_vn st2 = f_vn st) as -> by (by rewrite Est2). eapply refs_for_le, Hrefs. intros q Hq.
      rewrite Hu. unfold holds. simpl. lia.
    + right. exists t2. split; [done|]. split; [done|]. split; [done|]. split; [done|]. split; [by rewrite Hs2, Hsl|done].
Qed.

(** Clearing [used] of an open descriptor. *)
Lemma unuse_spec p i st t u : tabs_ok st -> tabs st !! p = Some t -> used t i ->
  refs_for (f_vn st) u -> (forall q, q <> 0 -> uses q (tabs st) - one q (d_vnode (slot t i)) <= u q) ->
  returns (fd_upd p i (set_used 0) st) (fun st' => fd_inv st' /\ exists t',
    st' = put_tab p t' st /\ ~ used t' i /\ (forall j, j <> i -> slot t' j = slot t j) /\ t_cap t' = t_cap t /\ t_addr t' = t_addr t).
Proof.
  intros Hok Hp Hu Hr Hle. destruct (used_range _ _ _ _ Hok Hp Hu) as [Hi Hi2].
  destruct (slot_range _ _ _ _ Hok Hp Hi) as [Hi1 _]. rewrite (fd_upd_ok _ _ _ _ _ Hp) by done. simpl.
  set (t' := tab_set i (set_used 0 (slot t i)) t).
  assert (slot t' i = set_used 0 (slot t i)) as Hs by (by apply slot_set_eq).
  assert (forall j, j <> i -> slot t' j = slot t j) as Ho by (intros j Hj; apply slot_set_ne; lia).
  split.
  - split; [by apply tabs_ok_set|]. eapply refs_for_le, Hr. intros q Hq. simpl.
    rewrite (uses_slot q _ p t t' i Hp Hi2 Ho), Hs, (holds_used _ _ _ Hu). unfold holds at 1. simpl. specialize (Hle q Hq). lia.
  - exists t'. split; [done|]. split; [unfold used; rewrite Hs; simpl; lia|]. done.
Qed.

Lemma fd_inv_put p i st t : fd_inv st -> tabs st !! p = Some t -> used t i ->
  returns (put_vnode (d_vnode (slot t i)) st) (fun st' => exists v, st' = set_vn v st /\
    refs_for v (fun q => uses q (tabs st) - one q (d_vnode (slot t i))) /\
    (slack 0 (f_vn st) (fun q => uses q (tabs st)) ->
     slack 0 v (fun q => uses q (tabs st) - one q (d_vnode (slot t i))))).
Proof.
  intros [Hok Hr] Hp Hu. apply put_vnode_spec; [done|]. intros _. by eapply uses_pos.
Qed.

Lemma tabs_ok_vn v st : tabs_ok st -> tabs_ok (set_vn v st).
Proof. intros [A B C]. by split. Qed.

(** Releasing the vnode of an open descriptor and closing it. *)
Lemma release_spec p i st t : fd_inv st -> tabs st !! p = Some t -> used t i ->
  returns (st ← put_vnode (d_vnode (slot t i)) st; fd_upd p i (set_used 0) st) (fun st' => fd_inv st' /\
    (fds_slack 0 st -> fds_slack 0 st') /\ exists t',
    tabs st' = <[p := t']> (tabs st) /\ f_heap st' = f_heap st /\ ~ used t' i /\ (forall j, j <> i -> slot t' j = slot t j) /\
    t_cap t' = t_cap t /\ t_addr t' = t_addr t).
Proof.
  intros Hinv Hp Hu. pose proof Hinv as [Hok Hr]. eapply returns_bind; [by apply (fd_inv_put p i st t)|].
  intros st1 (v & -> & Hr1 & Hsm1). eapply returns_mono.
  - apply (unuse_spec p i (set_vn v st) t (fun q => uses q (tabs st) - one q (d_vnode (slot t i)))); [by apply tabs_ok_vn|done|done|done|].
    intros q Hq. simpl. lia.
  - intros st2 (Hinv2 & t' & -> & H1 & H2 & H3 & H4). split; [done|]. split; [|by exists t'].
    intros Hsm q r Hq Hpos. apply (Hsm1 Hsm q r Hq). simpl in Hpos. destruct (used_range _ _ _ _ Hok Hp Hu) as [_ Hi].
    rewrite (uses_slot q _ p t t' i Hp Hi H2), (holds_used _ _ _ Hu), (holds_free _ _ _ H1) in Hpos. lia.
Qed.

Lemma vfs_close_spec p fd st t : fd_inv st -> tabs st !! p = Some t ->
  returns (vfs_close p fd st) (fun '(rc, st') => fd_inv st' /\
    (rc = - EBADF /\ st' = st /\ ~ used t fd \/
     rc = 0 /\ used t fd /\ exists t', tabs st' = <[p := t']> (tabs st) /\ ~ used t' fd /\ (forall j, j <> fd -> slot t' j = slot t j) /\
       t_cap t' = t_cap t)).
Proof.
  intros Hinv Hp. pose proof Hinv as [Hok Hr]. destruct (to_tab _ Hok p t Hp) as (H0 & Ha & _ & Hlen & Hcap).
  unfold vfs_close, proc_fd_get. zcmp. rewrite (tab_at_ok _ _ _ Hp). ret. rewrite (proj2 (Z.eqb_neq _ _) Ha), orb_false_r.
  destruct ((fd <? 0) || (t_cap t <=? fd)) eqn:Erange.
  { ret. split; [done|]. left. split; [done|]. split; [done|]. intros Hu. apply (used_range _ _ _ _ Hok Hp) in Hu. lia. }
  assert (0 <= fd < Z.of_nat (length (t_fds t))) as Hi by lia. rewrite (rd_getz _ _ _ (slot_getz t fd Hi)). ret.
  destruct (Z.eqb_spec (d_used (slot t fd)) 0) as [E|E]; simpl negb; cbv iota.
  { ret. split; [done|]. left. split; [done|]. split; [done|]. unfold used. lia. }
  eapply returns_bind; [by apply (fd_inv_put p fd st t)|]. intros st1 (v & -> & Hr1 & _).
  unfold proc_fd_dealloc. zcmp. rewrite (tab_at_ok p (set_vn v st) t) by done. ret.
  zcmp. simpl orb. cbv iota. rewrite (rd_getz _ _ _ (slot_getz t fd Hi)). ret.
  rewrite (proj2 (Z.eqb_neq _ _) E). simpl negb. cbv iota.
  assert (returns (fd_upd p fd (set_used 0) (set_vn v st)) (fun st' => fd_inv st' /\ exists t',
    st' = put_tab p t' (set_vn v st) /\ ~ used t' fd /\ (forall j, j <> fd -> slot t' j = slot t j) /\ t_cap t' = t_cap t /\ t_addr t' = t_addr t)) as Hs.
  { eapply unuse_spec; [by apply tabs_ok_vn|done|done|exact Hr1|]. intros q Hq. simpl. lia. }
  destruct (fd_upd p fd (set_used 0) (set_vn v st)) as [st2| |]; try done. ret.
  destruct Hs as (Hinv2 & t' & -> & H1 & H2 & H3 & _). split; [done|]. right. split; [done|]. split; [done|]. by exists t'.
Qed.

Lemma proc_fd_dup_spec dst src fd st td ts : fd_inv st -> fds_slack 0 st -> tabs st !! dst = Some td -> tabs st !! src = Some ts ->
  returns (proc_fd_dup dst src fd st) (fun '(r, st') => fd_inv st' /\
    (forall k, fds_slack (k + 1) st -> fds_slack k st') /\
    (r = -1 /\ tabs st' = tabs st /\ f_vn st' = f_vn st /\
       (~ used ts fd \/ (forall j, 0 <= j < t_cap td -> used td j) /\ (t_cap td = FD_MAX \/ exists n h, kmalloc n (f_heap st) = (None, h))) \/
     used ts fd /\ 0 <= r < FD_MAX /\ ~ used td r /\ (forall j, 0 <= j < r -> used td j) /\ exists t',
       tabs st' = <[dst := t']> (tabs st) /\ slot t' r = set_fd r (slot ts fd) /\ (forall j, j <> r -> slot t' j = slot td j) /\ t_cap td <= t_cap t')).
Proof.
  intros Hinv Hsm Hd Hs. pose proof Hinv as [Hok Hr]. destruct (to_tab _ Hok dst td Hd) as (Hd0 & _).
  destruct (to_tab _ Hok src ts Hs) as (Hs0 & Ha & _ & Hlen & Hcap). unfold proc_fd_dup.
  rewrite (proj2 (Z.eqb_neq _ _) Hd0), (proj2 (Z.eqb_neq _ _) Hs0). simpl orb.
  assert (forall k st', f_vn st' = f_vn st -> tabs st' = tabs st -> fds_slack (k + 1) st -> fds_slack k st') as Hslack.
  { intros k st' Ev Et Hk q r Hq. rewrite Ev, Et. intros Hu Hc. specialize (Hk q r Hq Hu Hc). lia. }
  destruct (Z.ltb_spec fd 0).
  { ret. split; [done|]. split; [intros k; by apply Hslack|]. left. split; [done|]. split; [done|]. split; [done|]. left. intros Hu. apply (used_range _ _ _ _ Hok Hs) in Hu. lia. }
  rewrite (tab_at_ok _ _ _ Hs). ret. rewrite (proj2 (Z.eqb_neq _ _) Ha), orb_false_r.
  destruct (Z.leb_spec (t_cap ts) fd).
  { ret. split; [done|]. split; [intros k; by apply Hslack|]. left. split; [done|]. split; [done|]. split; [done|]. left. intros Hu. apply (used_range _ _ _ _ Hok Hs) in Hu. lia. }
  assert (0 <= fd < Z.of_nat (length (t_fds ts))) as Hi by lia. rewrite (rd_getz _ _ _ (slot_getz ts fd Hi)). ret.
  destruct (Z.eqb_spec (d_used (slot ts fd)) 0) as [E|E].
  { ret. split; [done|]. split; [intros k; by apply Hslack|]. left. split; [done|]. split; [done|]. split; [done|]. left. unfold used. lia. }
  eapply returns_bind; [by apply (proc_fd_alloc_spec dst st td)|].
  intros [i st1] (Hok1 & Hvn & [(-> & Htabs & Hfull & Hwhy)|(t' & Ht' & Hpost)]).
  { simpl. split; [split; [done|by rewrite Hvn, Htabs]|]. split; [intros k; by apply Hslack|]. left. split; [done|]. split; [done|]. split; [done|]. by right. }
  pose proof Hpost as (Hi1 & Hfree & Hlow & _). zcmp.
  eapply returns_bind.
  { apply (ref_vnode_spec st1 (d_vnode (slot ts fd)) (fun q => uses q (tabs st))); [by rewrite Hvn| |by rewrite Hvn].
    intros _. by eapply uses_pos. }
  intros st2 (v & -> & Hr2 & Hsl2). assert (tabs (set_vn v st1) = <[dst := t']> (tabs st)) as Ht2 by done.
  eapply returns_bind; [eapply (fill_spec dst i td t' st (set_vn v st1)); [by apply tabs_ok_vn|done|done|done]|].
  intros st3 (t3 & Est3 & Hok3 & Ht3 & Hs3 & Ho3 & Hi3 & Hc3 & Hu3). ret. split.
  - split; [done|]. assert (f_vn st3 = v) as -> by (by rewrite Est3). eapply refs_for_le, Hr2. intros q Hq. rewrite Hu3.
    unfold holds. simpl. rewrite (proj2 (Z.eqb_neq _ _) E). lia.
  - split; [|right].
    { intros k Hk. unfold fds_slack. assert (f_vn st3 = v) as -> by (by rewrite Est3). intros q r Hq Hu. apply (Hsl2 k); [by rewrite Hvn|done|]. rewrite Hu3 in Hu.
      unfold holds in Hu. simpl in Hu. by rewrite (proj2 (Z.eqb_neq _ _) E) in Hu. } split; [done|]. split; [done|]. split; [done|]. split; [done|]. by exists t3.
Qed.

Lemma double_cap_spec c newfd : cap_ok c -> 0 <= newfd < FD_MAX ->
  returns (double_cap 6 c newfd) (fun c' => cap_ok c' /\ c <= c' /\ newfd < c').
Proof.
  unfold cap_ok, FD_MAX. intros Hc Hn.
  destruct Hc as [->|[->|[->|[->| ->]]]];
    repeat (cbn [double_cap]; change FD_MAX with 256;
      match goal with |- context [?a <=? newfd] => destruct (Z.leb_spec a newfd) end;
      cbn [andb Z.ltb Z.compare Pos.compare Pos.compare_cont Z.mul Pos.mul]); simpl; lia.
Qed.

Lemma dup2_grow_spec dst newfd st t : tabs_ok st -> tabs st !! dst = Some t -> 0 <= newfd < FD_MAX ->
  returns (dup2_grow dst newfd st) (fun '(rc, st') => tabs_ok st' /\ f_vn st' = f_vn st /\
    (rc = -1 /\ tabs st' = tabs st \/
     rc = 0 /\ exists t', tabs st' = <[dst := t']> (tabs st) /\ newfd < t_cap t' /\ forall j, slot t' j = slot t j)).
Proof.
  intros Hok Hp Hn. destruct (to_tab _ Hok dst t Hp) as (H0 & Ha & Hlive & Hlen & Hcap).
  unfold dup2_grow. rewrite (tab_at_ok _ _ _ Hp). ret. rewrite (proj2 (Z.eqb_neq _ _) Ha). simpl orb. simpl negb. cbv iota.
  destruct (Z.leb_spec (t_cap t) newfd).
  - eapply returns_bind; [by apply double_cap_spec|]. intros c' (Hc' & Hge & Hlt).
    pose proof (cap_max _ Hc') as Hm. assert ((FD_MAX <? c') = false) as -> by (apply Z.ltb_ge; lia).
    assert ((c' <=? newfd) = false) as -> by (apply Z.leb_gt; lia). cbv zeta iota.
    destruct (kmalloc _ (f_heap st)) as [[nf|] h] eqn:E.
    + assert ((0 <? t_cap t) = true) as -> by (apply Z.ltb_lt; apply cap_max in Hcap; lia). ret.
      split; [by apply tabs_ok_grow|]. split; [done|]. right. split; [done|]. eexists. split; [done|].
      split; [simpl; lia|]. intros j. by apply slot_grown.
    + ret. destruct (kmalloc_none _ _ _ (to_heap _ Hok) E) as [Hw Hl]. split; [|split; [done|by left]].
      destruct Hok as [A B C]. split; simpl; [done| |done]. intros q u Hq. unfold tab_ok. rewrite Hl. by apply B.
  - ret. split; [done|]. split; [done|]. right. split; [done|]. exists t. split; [by rewrite insert_id|]. split; [lia|done].
Qed.

Lemma cnt_ext q t t' : (forall j, slot t' j = slot t j) -> cnt q t' = cnt q t.
Proof. intros Hj. apply sumz_ext. intros j _. by rewrite Hj. Qed.

Lemma uses_view q m p t t' : m !! p = Some t -> (forall j, slot t' j = slot t j) -> uses q (<[p := t']> m) = uses q m.
Proof. intros Hp Hj. rewrite (uses_insert q m p t t' Hp), (cnt_ext q t t' Hj). lia. Qed.

(** Two maps with the same descriptors. *)
Definition same_fds (m m' : gmap Z fdtab) : Prop :=
  forall p t, m !! p = Some t -> exists t', m' !! p = Some t' /\ forall j, slot t' j = slot t j.

Lemma same_fds_insert m p t t' : m !! p = Some t -> (forall j, slot t' j = slot t j) -> same_fds m (<[p := t']> m).
Proof.
  intros Hp Hj q u Hq. destruct (decide (q = p)) as [->|Hne].
  - rewrite Hp in Hq. injection Hq as <-. exists t'. by rewrite lookup_insert_eq.
  - exists u. by rewrite lookup_insert_ne.
Qed.

(** The descriptor [newfd] is closed if it is open. *)
Lemma dup2_close_spec dst newfd st t : fd_inv st -> tabs st !! dst = Some t -> 0 <= newfd < t_cap t ->
  returns (if negb (d_used (slot t newfd) =? 0) then
             st ← put_vnode (d_vnode (slot t newfd)) st; fd_upd dst newfd (set_used 0) st
           else Ret st)
    (fun st' => fd_inv st' /\ (fds_slack 0 st -> fds_slack 0 st') /\ exists t', tabs st' = <[dst := t']> (tabs st) /\ ~ used t' newfd /\
      (forall j, j <> newfd -> slot t' j = slot t j) /\ t_cap t' = t_cap t).
Proof.
  intros Hinv Hp Hn. destruct (Z.eqb_spec (d_used (slot t newfd)) 0) as [E|E]; simpl negb; cbv iota.
  - ret. split; [done|]. split; [done|]. exists t. rewrite insert_id by done. split; [done|]. split; [unfold used; lia|]. done.
  - eapply returns_mono; [by apply (release_spec dst newfd st t)|].
    intros st' (Hinv' & Hsm' & t' & H1 & _ & H2 & H3 & H4 & _). split; [done|]. split; [done|]. by exists t'.
Qed.


(** The last step of [proc_fd_dup2]: [newfd] is free and gets the copy. *)
Lemma dup2_copy_spec dst newfd d st t : fd_inv st -> fds_slack 0 st -> tabs st !! dst = Some t -> 0 <= newfd < t_cap t ->
  ~ used t newfd -> (d_vnode d <> 0 -> 0 < uses (d_vnode d) (tabs st)) ->
  returns (st ← ref_vnode (d_vnode d) st;
           st ← fd_upd dst newfd (fun _ => set_cloexec 0 (set_used 1 (set_fd newfd d))) st;
           Ret (newfd, st))
    (fun '(r, st') => fd_inv st' /\ r = newfd /\ exists t', tabs st' = <[dst := t']> (tabs st) /\
      slot t' newfd = set_cloexec 0 (set_used 1 (set_fd newfd d)) /\ forall j, j <> newfd -> slot t' j = slot t j).
Proof.
  intros [Hok Hr] Hsm Hp Hn Hfree Hpos. destruct (slot_range _ _ _ _ Hok Hp Hn) as [Hi1 Hi2].
  eapply returns_bind; [by apply (ref_vnode_spec st (d_vnode d) (fun q => uses q (tabs st)))|]. intros st1 (v & -> & Hr1 & _).
  rewrite (fd_upd_ok dst newfd _ (set_vn v st) t) by done. ret. set (d' := set_cloexec 0 _).
  assert (forall j, j <> newfd -> slot (tab_set newfd d' t) j = slot t j) as Ho by (intros j Hj; apply slot_set_ne; lia).
  split; [split|].
  - apply (tabs_ok_set dst newfd d' (set_vn v st)); [by apply tabs_ok_vn|done].
  - eapply refs_for_le, Hr1. intros q Hq. simpl. rewrite (uses_slot q _ dst t _ newfd Hp Hi2 Ho).
    rewrite slot_set_eq by done. rewrite (holds_free _ _ _ Hfree). unfold holds, d'. simpl. lia.
  - split; [done|]. eexists. split; [done|]. split; [by apply slot_set_eq|done].
Qed.

Lemma proc_fd_dup2_spec dst src oldfd newfd st td ts :
  fd_inv st -> fds_slack 0 st -> tabs st !! dst = Some td -> tabs st !! src = Some ts ->
  returns (proc_fd_dup2 dst src oldfd newfd st) (fun '(r, st') => fd_inv st' /\
    (r = -1 /\ same_fds (tabs st) (tabs st') /\ f_vn st' = f_vn st \/
     r = newfd /\ oldfd = newfd /\ st' = st \/
     r = newfd /\ oldfd <> newfd /\ 0 <= newfd < FD_MAX /\ used ts oldfd /\
     exists t', tabs st' = <[dst := t']> (tabs st) /\
       slot t' newfd = set_cloexec 0 (set_used 1 (set_fd newfd (slot ts oldfd))) /\
       forall j, j <> newfd -> slot t' j = slot td j)).
Proof.
  intros Hinv Hsm Hd Hs. pose proof Hinv as [Hok Hr]. destruct (to_tab _ Hok dst td Hd) as (Hd0 & _).
  destruct (to_tab _ Hok src ts Hs) as (Hs0 & Ha & _ & Hlen & Hcap). unfold proc_fd_dup2.
  assert (forall s' : fdst, s' = st -> fd_inv s' /\ (-1 = -1 /\ same_fds (tabs st) (tabs s') /\ f_vn s' = f_vn st)) as Hfail.
  { intros s' ->. split; [done|]. split; [done|]. split; [|done]. intros p t Hp. by exists t. }
  destruct ((dst =? 0) || _ || _ || _ || _) eqn:Eb.
  { ret. destruct (Hfail st eq_refl). split; [done|by left]. }
  assert (0 <= oldfd /\ 0 <= newfd < FD_MAX) as [Ho Hn] by lia.
  destruct (Z.eqb_spec oldfd newfd) as [->|Hne]; [ret; split; [done|right; by left]|].
  rewrite (tab_at_ok _ _ _ Hs). ret. rewrite (proj2 (Z.eqb_neq _ _) Ha). simpl orb.
  destruct (Z.leb_spec (t_cap ts) oldfd); [ret; destruct (Hfail st eq_refl); split; [done|by left]|].
  assert (0 <= oldfd < Z.of_nat (length (t_fds ts))) as Hi by lia. rewrite (rd_getz _ _ _ (slot_getz ts oldfd Hi)). ret.
  destruct (Z.eqb_spec (d_used (slot ts oldfd)) 0) as [E|E]; [ret; destruct (Hfail st eq_refl); split; [done|by left]|].
  eapply returns_bind; [by apply (dup2_grow_spec dst newfd st td)|].
  intros [rc st1] (Hok1 & Hvn1 & [(-> & Ht1)|(-> & t1 & Ht1 & Hn1 & Hsl1)]).
  { ret. split; [split; [done|by rewrite Hvn1, Ht1]|]. left. split; [done|]. rewrite Ht1. split; [|done]. intros p t Hp. by exists t. }
  simpl (0 <? 0). cbv iota. assert (tabs st1 !! dst = Some t1) as Hd1 by (rewrite Ht1; apply lookup_insert_eq).
  assert (forall q, uses q (tabs st1) = uses q (tabs st)) as Hu1 by (intros q; rewrite Ht1; by apply (uses_view q _ dst td)).
  assert (fd_inv st1) as Hinv1.
  { split; [done|]. rewrite Hvn1. eapply refs_for_le, Hr. intros q _. rewrite Hu1. lia. }
  assert (fds_slack 0 st1) as Hsm1 by (intros q r Hq; rewrite Hvn1, Hu1; by apply Hsm).
  rewrite (tab_at_ok _ _ _ Hd1). ret. destruct (slot_range _ _ _ newfd Hok1 Hd1 ltac:(lia)) as [Hin1 _].
  rewrite (rd_getz _ _ _ (slot_getz t1 newfd Hin1)). ret.
  eapply returns_bind; [apply (dup2_close_spec dst newfd st1 t1); [done|done|lia]|].
  intros st2 (Hinv2 & Hsm2 & t2 & Ht2 & Hfree2 & Hsl2 & Hcap2).
  assert (tabs st2 !! dst = Some t2) as Hd2 by (rewrite Ht2; apply lookup_insert_eq).
  assert (exists ts2, tabs st2 !! src = Some ts2 /\ slot ts2 oldfd = slot ts oldfd) as (ts2 & Hs2 & Hso).
  { rewrite Ht2, Ht1, insert_insert_eq. destruct (decide (src = dst)) as [->|Hsd].
    - exists t2. rewrite lookup_insert_eq. split; [done|]. rewrite Hsl2, Hsl1 by done. congruence.
    - exists ts. by rewrite lookup_insert_ne. }
  assert (used ts2 oldfd) as Hus by (unfold used; by rewrite Hso).
  rewrite (tab_at_ok _ _ _ Hs2). ret. rewrite (rd_getz _ _ _ (slot_getz ts2 oldfd (used_lt _ _ Hus))). ret.
  rewrite Hso, (proj2 (Z.eqb_neq _ _) E), andb_false_r.
  eapply returns_mono; [apply (dup2_copy_spec dst newfd (slot ts oldfd) st2 t2); [done|by apply Hsm2|done|lia|done|]|].
  { intros _. rewrite <- Hso. by apply (uses_pos st2 src ts2 oldfd (proj1 Hinv2)). }
  intros [r st3] (Hinv3 & -> & t3 & Ht3 & Hs3 & Ho3). split; [done|]. right; right. split; [done|]. split; [done|].
  split; [done|]. split; [done|]. exists t3. rewrite Ht3, Ht2, Ht1, !insert_insert_eq. split; [done|]. split; [done|].
  intros j Hj. by rewrite Ho3, Hsl2, Hsl1.
Qed.

(** ** Loops over a table *)

Lemma close_one_spec p i st t : fd_inv st -> tabs st !! p = Some t -> 0 <= i < t_cap t ->
  returns (close_one p i st) (fun st' => fd_inv st' /\ exists t', tabs st' = <[p := t']> (tabs st) /\
    ~ used t' i /\ (forall j, j <> i -> slot t' j = slot t j) /\ t_cap t' = t_cap t).
Proof.
  intros Hinv Hp Hi. pose proof Hinv as [Hok _]. destruct (to_tab _ Hok p t Hp) as (H0 & Ha & _).
  destruct (slot_range _ _ _ _ Hok Hp Hi) as [Hi1 _]. unfold close_one. rewrite (tab_at_ok _ _ _ Hp). ret.
  rewrite (proj2 (Z.eqb_neq _ _) Ha), (rd_getz _ _ _ (slot_getz t i Hi1)). ret.
  destruct (Z.eqb_spec (d_used (slot t i)) 0) as [E|E].
  - ret. split; [done|]. exists t. rewrite insert_id by done. split; [done|]. split; [unfold used; lia|done].
  - eapply returns_mono; [by apply (release_spec p i st t)|]. intros st' (Hinv' & _ & t' & H1 & _ & H2 & H3 & H4 & _).
    split; [done|]. by exists t'.
Qed.

Lemma exit_close_fds_spec p st t : fd_inv st -> tabs st !! p = Some t ->
  returns (exit_close_fds p st) (fun st' => fd_inv st' /\ exists t', tabs st' = <[p := t']> (tabs st) /\ forall j, ~ used t' j).
Proof.
  intros Hinv Hp. unfold exit_close_fds. rewrite (tab_at_ok _ _ _ Hp). ret.
  eapply returns_mono.
  - apply (for_range_inv (fun i st' => fd_inv st' /\ exists t', tabs st' = <[p := t']> (tabs st) /\ t_cap t' = t_cap t /\
      forall j, 0 <= j < i -> ~ used t' j)).
    + split; [done|]. exists t. rewrite insert_id by done. split; [done|]. split; [done|]. intros j Hj. lia.
    + intros i st1 Hi (Hinv1 & t1 & Ht1 & Hc1 & Hu1).
      assert (tabs st1 !! p = Some t1) as Hp1 by (rewrite Ht1; apply lookup_insert_eq).
      eapply returns_mono; [apply (close_one_spec p i st1 t1); [done|done|lia]|].
      intros st2 (Hinv2 & t2 & Ht2 & Hn2 & Ho2 & Hc2). split; [done|]. exists t2. rewrite Ht2, Ht1, insert_insert_eq.
      split; [done|]. split; [lia|]. intros j Hj. destruct (decide (j = i)) as [->|Hne]; [done|].
      unfold used. rewrite Ho2 by done. apply Hu1. lia.
  - intros st' (Hinv' & t' & Ht' & Hc' & Hu'). split; [done|]. exists t'. split; [done|]. intros j Hj.
    assert (tabs st' !! p = Some t') as Hp' by (rewrite Ht'; apply lookup_insert_eq).
    destruct (used_range _ _ _ _ (proj1 Hinv') Hp' Hj) as [Hr _].
    assert (0 < t_cap t) by (destruct (to_tab _ (proj1 Hinv) p t Hp) as (_ & _ & _ & _ & Hc); apply cap_max in Hc; lia).
    apply (Hu' j); [lia|done].
Qed.

(** A descriptor after exec. *)
Definition exec_kept d : bool := (d_used d =? 0) || (d_cloexec d =? 0).

Lemma exec_close_fds_spec p st t : fd_inv st -> tabs st !! p = Some t ->
  returns (exec_close_fds p st) (fun st' => fd_inv st' /\ exists t', tabs st' = <[p := t']> (tabs st) /\
    forall j, if exec_kept (slot t j) then slot t' j = slot t j else ~ used t' j).
Proof.
  intros Hinv Hp. unfold exec_close_fds. rewrite (tab_at_ok _ _ _ Hp). ret.
  destruct (to_tab _ (proj1 Hinv) p t Hp) as (_ & _ & _ & Hlen & Hc). apply cap_max in Hc.
  eapply returns_mono.
  - apply (for_range_inv (fun i st' => fd_inv st' /\ exists t', tabs st' = <[p := t']> (tabs st) /\ t_cap t' = t_cap t /\
      forall j, if exec_kept (slot t j) || (i <=? j) then slot t' j = slot t j else ~ used t' j)).
    + split; [done|]. exists t. rewrite insert_id by done. split; [done|]. split; [done|]. intros j.
      destruct (Z.leb_spec 0 j); [by rewrite orb_true_r|]. assert (slot t j = zero_fd) as -> by (unfold slot, getz; by zcmp). done.
    + intros i st1 Hi (Hinv1 & t1 & Ht1 & Hc1 & Hu1).
      assert (tabs st1 !! p = Some t1) as Hp1 by (rewrite Ht1; apply lookup_insert_eq).
      assert (slot t1 i = slot t i) as Hti by (specialize (Hu1 i); by rewrite Z.leb_refl, orb_true_r in Hu1).
      destruct (slot_range _ _ _ i (proj1 Hinv1) Hp1 ltac:(lia)) as [Hi1 _].
      unfold cloexec_one. rewrite (tab_at_ok _ _ _ Hp1). ret. rewrite (rd_getz _ _ _ (slot_getz t1 i Hi1)). ret.
      rewrite Hti. assert (negb (d_used (slot t i) =? 0) && negb (d_cloexec (slot t i) =? 0) = negb (exec_kept (slot t i))) as ->
        by (unfold exec_kept; by rewrite negb_orb).
      destruct (exec_kept (slot t i)) eqn:Ek; simpl negb; cbv iota.
      * ret. split; [done|]. exists t1. split; [done|]. split; [done|]. intros j. specialize (Hu1 j).
        destruct (decide (j = i)) as [->|Hne]; [by rewrite Ek|].
        replace (i + 1 <=? j) with (i <=? j); [done|]. destruct (Z.leb_spec i j), (Z.leb_spec (i + 1) j); lia.
      * eapply returns_bind; [by apply (vfs_close_spec p i st1 t1)|].
        intros [rc st2] (Hinv2 & [(_ & _ & Hnu)|(_ & _ & t2 & Ht2 & Hn2 & Ho2 & Hc2)]).
        { exfalso. apply Hnu. unfold used. rewrite Hti. intros E. unfold exec_kept in Ek. by rewrite E in Ek. }
        ret. split; [done|]. exists t2. rewrite Ht2, Ht1, insert_insert_eq. split; [done|]. split; [lia|]. intros j. specialize (Hu1 j).
        destruct (decide (j = i)) as [->|Hne]; [rewrite Ek; by destruct (Z.leb_spec (i + 1) i); [lia|]|].
        replace (i + 1 <=? j) with (i <=? j) by (destruct (Z.leb_spec i j), (Z.leb_spec (i + 1) j); lia).
        unfold used. by rewrite Ho2.
  - intros st' (Hinv' & t' & Ht' & _ & Hu'). split; [done|]. exists t'. split; [done|]. intros j. specialize (Hu' j).
    destruct (exec_kept (slot t j)) eqn:Ek; [done|]. simpl in Hu'. destruct (Z.leb_spec (Z.max 0 (t_cap t)) j); [|done].
    unfold exec_kept in Ek. rewrite slot_end in Ek by lia. done.
Qed.

(** *** Fork *)

(** The open descriptors below [i], in order. *)
Definition open_below t i : list Z := filter (fun j => d_used (slot t j) <> 0) (seqZ 0 i).

Lemma open_below_succ t i : 0 <= i -> open_below t (i + 1) = open_below t i ++ (if decide (used t i) then [i] else []).
Proof.
  intros Hi. unfold open_below. rewrite seqZ_app by lia. rewrite filter_app. f_equal.
Qed.

Lemma getz_snoc_ne (l : list Z) x j : j <> Z.of_nat (length l) -> getz l j = getz (l ++ [x]) j.
Proof.
  intros Hj. unfold getz. destruct (Z.leb_spec 0 j); [|done].
  destruct (Nat.lt_ge_cases (Z.to_nat j) (length l)) as [Hlt|Hge]; [by rewrite lookup_app_l|].
  rewrite lookup_ge_None_2 by lia. rewrite lookup_ge_None_2; [done|]. rewrite length_app. simpl. lia.
Qed.

(** Descriptor [j] of the child after the parent's first ones are copied. *)
Definition fork_slot ts l j : filedesc :=
  match getz l j with Some k => set_fd j (slot ts k) | None => zero_fd end.

Lemma open_below_used t i k : k ∈ open_below t i -> used t k.
Proof. unfold open_below. rewrite list_elem_of_filter. by intros [? _]. Qed.

Lemma fork_slot_used t ts i j : slot t j = fork_slot ts (open_below ts i) j ->
  used t j <-> 0 <= j < Z.of_nat (length (open_below ts i)).
Proof.
  unfold used, fork_slot. intros ->. destruct (getz _ j) as [k|] eqn:E.
  - pose proof (getz_Some_lt _ _ _ E). split; [done|]. intros _. apply getz_Some in E as [_ E].
    apply (open_below_used ts i k). by eapply list_elem_of_lookup_2.
  - split; [done|]. intros Hj. destruct (getz_lt _ _ Hj). congruence.
Qed.

Lemma fork_fds_spec child parent st tc ts :
  fd_inv st -> fds_slack FD_MAX st -> child <> parent -> tabs st !! child = Some tc -> tabs st !! parent = Some ts ->
  (forall j, slot tc j = zero_fd) -> Z.of_nat (length (open_below ts (t_cap ts))) <= t_cap tc ->
  returns (fork_fds child parent st) (fun st' => fd_inv st' /\ exists t', tabs st' = <[child := t']> (tabs st) /\
    forall j, slot t' j = fork_slot ts (open_below ts (t_cap ts)) j).
Proof.
  intros Hinv Hsl Hne Hc Hp Hz Hfit. unfold fork_fds. rewrite (tab_at_ok _ _ _ Hp). ret.
  destruct (to_tab _ (proj1 Hinv) parent ts Hp) as (_ & _ & _ & Hlen & Hcap). apply cap_max in Hcap.
  eapply returns_mono.
  - apply (for_range_inv (fun i st' => fd_inv st' /\ fds_slack (FD_MAX - i) st' /\ exists t', tabs st' = <[child := t']> (tabs st) /\
      t_cap tc <= t_cap t' /\ forall j, slot t' j = fork_slot ts (open_below ts i) j)).
    + split; [done|]. split; [by rewrite Z.sub_0_r|]. exists tc. rewrite insert_id by done. split; [done|]. split; [lia|].
      intros j. rewrite Hz. unfold fork_slot. destruct (getz _ j) as [k|] eqn:E; [apply getz_Some_lt in E; simpl in E; lia|done].
    + intros i st1 Hi (Hinv1 & Hsl1 & t1 & Ht1 & Hc1 & Hs1).
      assert (tabs st1 !! child = Some t1) as Hch by (rewrite Ht1; apply lookup_insert_eq).
      assert (tabs st1 !! parent = Some ts) as Hpa by (rewrite Ht1; by rewrite lookup_insert_ne).
      unfold fork_one. rewrite (tab_at_ok _ _ _ Hpa). ret. rewrite (rd_getz _ _ _ (slot_getz ts i ltac:(lia))). ret.
      rewrite (open_below_succ ts i) by lia. destruct (Z.eqb_spec (d_used (slot ts i)) 0) as [E|E]; simpl negb; cbv iota.
      * ret. rewrite decide_False by (unfold used; lia). rewrite app_nil_r. split; [done|].
        split; [intros q r Hq Hu Hcn; specialize (Hsl1 q r Hq Hu Hcn); lia|]. by exists t1.
      * rewrite decide_True by done. set (l := open_below ts i) in *.
        assert (Z.of_nat (length l) < t_cap tc) as Hlt.
        { assert (length (open_below ts (i + 1)) <= length (open_below ts (t_cap ts)))%nat as Hle.
          { unfold open_below. replace (t_cap ts) with ((i + 1) + (t_cap ts - (i + 1))) by lia.
            rewrite (seqZ_app 0 (i + 1)) by lia. rewrite filter_app, length_app. lia. }
          rewrite open_below_succ, decide_True, length_app in Hle by (done || lia). simpl in Hle. fold l in Hle. lia. }
        eapply returns_bind; [apply (proc_fd_dup_spec child parent i st1 t1 ts); try done|].
        { intros q r Hq Hu Hcn. specialize (Hsl1 q r Hq Hu Hcn). lia. }
        intros [r st2] (Hinv2 & Hsl2 & [(_ & _ & _ & [Hn|[Hall _]])|(_ & Hr & Hnr & Hlow & t2 & Ht2 & Hs2 & Ho2 & Hc2)]); [done| |].
        { exfalso. specialize (Hall (Z.of_nat (length l)) ltac:(lia)). apply (fork_slot_used _ ts i) in Hall; [fold l in Hall; lia|apply Hs1]. }
        assert (r = Z.of_nat (length l)) as ->.
        { destruct (Z.lt_trichotomy r (Z.of_nat (length l))) as [Hrl|[Hrl|Hrl]]; [|done|].
          - exfalso. apply Hnr. apply (fork_slot_used _ ts i); [apply Hs1|fold l; lia].
          - specialize (Hlow (Z.of_nat (length l)) ltac:(lia)). apply (fork_slot_used _ ts i) in Hlow; [fold l in Hlow; lia|apply Hs1]. }
        ret. split; [done|]. split; [apply Hsl2; intros q r Hq Hu Hcn; specialize (Hsl1 q r Hq Hu Hcn); lia|].
        exists t2. rewrite Ht2, Ht1, insert_insert_eq. split; [done|]. split; [lia|]. intros j. unfold fork_slot.
        destruct (decide (j = Z.of_nat (length l))) as [->|Hj].
        -- rewrite Hs2, getz_of_nat, lookup_app_r, Nat.sub_diag by lia. done.
        -- rewrite Ho2, Hs1 by done. unfold fork_slot. by rewrite (getz_snoc_ne l i j Hj).
  - intros st' (Hinv' & _ & t' & Ht' & _ & Hs'). split; [done|]. exists t'. split; [done|].
    by rewrite Z.max_r in Hs' by lia.
Qed.

(** ** Results *)

(** [proc_fd_alloc] returns the lowest descriptor that is not open: all
    below it are, its slot is marked used, no other descriptor changes, and a
    full table grows without losing one.  It fails, changing no table, only
    when all 256 descriptors are open or there is no memory for a bigger
    table. *)
Theorem fd_alloc_lowest p st t : tabs_ok st -> tabs st !! p = Some t ->
  returns (proc_fd_alloc p st) (fun '(i, st') =>
    tabs_ok st' /\ f_vn st' = f_vn st /\
    ((i = -1 /\ tabs st' = tabs st /\ (forall j, 0 <= j < t_cap t -> used t j) /\
      (t_cap t = FD_MAX \/ exists n h, kmalloc n (f_heap st) = (None, h))) \/
     exists t', tabs st' = <[p := t']> (tabs st) /\ alloc_post p i t t')).
Proof. apply proc_fd_alloc_spec. Qed.

(** C26: Open descriptors hold their vnodes: opening ([fd_install], with the
    reference the lookup took), closing, duplicating onto the lowest or a
    given descriptor, closing all at exit and the close-on-exec ones at exec
    return, and afterwards again every vnode has at least as many references
    as there are descriptors open on it in all processes. *)
Theorem fd_refs_invariant p q st tp tq : fd_inv st -> tabs st !! p = Some tp -> tabs st !! q = Some tq ->
  (forall vp flags cloexec, refs_for (f_vn st) (fun x => uses x (tabs st) + one x vp) ->
     returns (fd_install p vp flags cloexec st) (fun r => fd_inv r.2)) /\
  (forall fd, returns (vfs_close p fd st) (fun r => fd_inv r.2)) /\
  (forall fd, fds_slack 0 st -> returns (proc_fd_dup p q fd st) (fun r => fd_inv r.2)) /\
  (forall ofd nfd, fds_slack 0 st -> returns (proc_fd_dup2 p q ofd nfd st) (fun r => fd_inv r.2)) /\
  returns (exit_close_fds p st) fd_inv /\ returns (exec_close_fds p st) fd_inv.
Proof.
  intros Hinv Hp Hq. split; [|split; [|split; [|split; [|split]]]].
  - intros vp fl ce Hr. eapply returns_mono; [apply (fd_install_spec p vp fl ce st tp); [apply Hinv|done|done]|]. intros [r st'] [? _]. done.
  - intros fd. eapply returns_mono; [by apply (vfs_close_spec p fd st tp)|]. intros [r st'] [? _]. done.
  - intros fd Hsl. eapply returns_mono; [by apply (proc_fd_dup_spec p q fd st tp tq)|]. intros [r st'] [? _]. done.
  - intros ofd nfd Hsl. eapply returns_mono; [by apply (proc_fd_dup2_spec p q ofd nfd st tp tq)|]. intros [r st'] [? _]. done.
  - eapply returns_mono; [by apply (exit_close_fds_spec p st tp)|]. by intros st' [? _].
  - eapply returns_mono; [by apply (exec_close_fds_spec p st tp)|]. by intros st' [? _].
Qed.

(** C35: [proc_fd_dup2] makes [newfd] a copy of [oldfd] without close-on-exec and
    changes no other descriptor of any process; for equal descriptors it does
    nothing; when it fails, every descriptor is as before. *)
Theorem fd_dup2_correct dst src oldfd newfd st td ts :
  fd_inv st -> fds_slack 0 st -> tabs st !! dst = Some td -> tabs st !! src = Some ts ->
  returns (proc_fd_dup2 dst src oldfd newfd st) (fun '(r, st') => fd_inv st' /\
    (r = -1 /\ same_fds (tabs st) (tabs st') /\ f_vn st' = f_vn st \/
     r = newfd /\ oldfd = newfd /\ st' = st \/
     r = newfd /\ oldfd <> newfd /\ 0 <= newfd < FD_MAX /\ used ts oldfd /\
     exists t', tabs st' = <[dst := t']> (tabs st) /\
       slot t' newfd = set_cloexec 0 (set_used 1 (set_fd newfd (slot ts oldfd))) /\
       forall j, j <> newfd -> slot t' j = slot td j)).
Proof. apply proc_fd_dup2_spec. Qed.

(** Fork renumbers descriptors: the child gets the parent's open descriptors
    in order as 0, 1, 2 and so on; if the parent has a gap, every descriptor
    behind it has another number in the child. *)
Theorem fork_renumbers_fds child parent st tc ts :
  fd_inv st -> fds_slack FD_MAX st -> child <> parent -> tabs st !! child = Some tc -> tabs st !! parent = Some ts ->
  (forall j, slot tc j = zero_fd) -> Z.of_nat (length (open_below ts (t_cap ts))) <= t_cap tc ->
  returns (fork_fds child parent st) (fun st' => fd_inv st' /\ exists t', tabs st' = <[child := t']> (tabs st) /\
    forall j, slot t' j = fork_slot ts (open_below ts (t_cap ts)) j).
Proof. apply fork_fds_spec. Qed.
End fds.

Arguments fdst : clear implicits.

(** ** The vnode cache implements the interface *)

#[export] Instance vcache_refs {H} `{!KMem H} : VRefs (vcache H) := {|
  vref := vnode_ref;
  vput := vnode_put;
  vcount st p := if p =? 0 then None else v_refcount <$> vns st !! p;
  vwf st := exists s, vrel st s /\ spec_ok s;
|}.

Lemma vcount_ref {H} `{!KMem H} (st : vcache H) s p : vrel st s -> vcount st p = s_ref s !! p.
Proof.
  intros Hr. destruct (rel_ref _ _ Hr) as (Hz & _ & Hp). simpl. destruct (Z.eqb_spec p 0) as [->|Hne]; [done|].
  symmetry. by apply Hp.
Qed.

(** A vnode with references keeps them when another one is released. *)
Lemma s_unref_refs s p r : spec_ok s -> s_ref s !! p = Some r -> 0 < r ->
  (1 < r -> s_ref (s_unref p s) !! p = Some (r - 1)) /\
  forall q n, q <> p -> s_ref s !! q = Some n -> 0 < n -> s_ref (s_unref p s) !! q = Some n.
Proof.
  intros Hok Hp Hr. unfold s_unref. rewrite Hp. cbv zeta. simpl default. split.
  - intros Hgt. zcmp. simpl. apply lookup_insert_eq.
  - intros q n Hne Hq Hn. assert (s_ref (s_setref p (r - 1) s) !! q = Some n) as Hq1 by (simpl; by rewrite lookup_insert_ne).
    destruct (Z.ltb_spec 0 (r - 1)); [done|]. assert (r = 1) as -> by lia.
    case_bool_decide as Hex; [|simpl; by rewrite lookup_delete_ne].
    assert (in_tab (s_tab s) p) as Ht by (destruct Hex as (k & x & Hk & ->); by exists k).
    pose proof (spec_ok_push s p 1 Hok Hp Hr Ht) as Hok'.
    change (VSpec _ _ _ _ _) with (s_push p (s_setref p 0 s)).
    destruct (s_trim_closed _ _ Hok' eq_refl) as (l & l2 & El & _ & _ & [_ Hl] & _). apply Hl. split; [done|].
    intros Hin. assert (q ∈ s_lru (s_push p (s_setref p 0 s))) as Hin' by (rewrite El; set_solver).
    apply (ok_lru _ Hok') in Hin' as [_ E]. change (s_ref (s_push p (s_setref p 0 s))) with (s_ref (s_setref p (1 - 1) s)) in E.
    rewrite Hq1 in E. injection E. lia.
Qed.

#[export] Instance vcache_refs_laws {H} `{!KMem H, !KMemLaws H} : VRefsLaws (vcache H).
Proof.
  split.
  - intros st p r (s & Hr & Hok) Hc Hb. rewrite (vcount_ref st s p Hr) in Hc.
    eapply returns_mono; [by eapply vnode_ref_spec|]. intros st' [Hr' Hok'].
    split; [by exists (s_setref p (r + 1) s)|].
    split; [rewrite (vcount_ref st' _ p Hr'); apply lookup_insert_eq|]. intros q Hq.
    rewrite (vcount_ref st' _ q Hr'), (vcount_ref st _ q Hr). by apply lookup_insert_ne.
  - intros st p r (s & Hr & Hok) Hc Hb. rewrite (vcount_ref st s p Hr) in Hc.
    eapply returns_mono; [apply (vnode_unref_spec st s p r); [done|done|done|lia|lia]|]. intros st' [Hr' Hok'].
    destruct (s_unref_refs s p r Hok Hc ltac:(lia)) as [H1 H2].
    split; [by exists (s_unref p s)|]. split; [intros Hgt; rewrite (vcount_ref st' _ p Hr'); by apply H1|].
    intros q n Hq. rewrite (vcount_ref st' _ q Hr'), (vcount_ref st _ q Hr). apply H2. done.
Qed.

(** ** Two concrete processes

    Process 10 has descriptors 0 and 2 open, 0 on the vnode at 64 of the cache
    [cache2]; process 11 has none. *)
Definition no_fds (a : Z) : fdtab := FdTab a (replicate 16 zero_fd) 16.
Definition fd_a : filedesc := FileDesc 0 64 0 0 0 1 1.
Definition fd_b : filedesc := FileDesc 2 0 0 0 0 0 1.
Definition tab10 : fdtab := tab_set 2 fd_b (tab_set 0 fd_a (no_fds 200)).
Definition tab11 : fdtab := no_fds 201.
Definition procs : fdst ref_heap (vcache ref_heap) :=
  FdSt (<[10 := tab10]> {[11 := tab11]}) (RefHeap 300 50 {[200; 201]}) cache2.

Lemma no_fds_slot a j : slot (no_fds a) j = zero_fd.
Proof.
  unfold slot. destruct (getz _ j) as [d|] eqn:E; [|done]. apply getz_Some in E as [_ E].
  change (replicate 16 zero_fd !! Z.to_nat j = Some d) in E. by apply lookup_replicate in E as [-> _].
Qed.

Lemma no_fds_cnt q a : cnt q (no_fds a) = 0.
Proof.
  unfold cnt. rewrite (sumz_ext (fun _ => 0) (fun i => holds q (slot (no_fds a) i))).
  - induction all_fds; [done|]. simpl. lia.
  - intros j _. by rewrite no_fds_slot.
Qed.

Lemma procs_uses q : uses q (tabs procs) = one q 64 + one q 0.
Proof.
  unfold procs. simpl tabs. rewrite uses_insert_new by (by rewrite lookup_singleton_ne).
  unfold uses. rewrite map_to_list_singleton. change (sumz (cnt q) ([(11, tab11)].*2)) with (cnt q (no_fds 201) + 0).
  rewrite (no_fds_cnt q 201).
  rewrite (cnt_slot q (tab_set 0 fd_a (no_fds 200)) tab10 2) by (unfold FD_MAX; done || lia || (intros j Hj; apply slot_set_ne; lia)).
  rewrite (cnt_slot q (no_fds 200) (tab_set 0 fd_a (no_fds 200)) 0) by (unfold FD_MAX; done || lia || (intros j Hj; apply slot_set_ne; lia)).
  rewrite no_fds_cnt. unfold tab10. rewrite !slot_set_eq by done. rewrite slot_set_ne by done. rewrite !no_fds_slot.
  unfold holds, fd_a, fd_b. simpl. lia.
Qed.

Lemma procs_ok : tabs_ok procs.
Proof.
  split; simpl.
  - split; simpl; [lia|]. intros x Hx. cbn. set_solver by lia.
  - intros p t [[<- <-]|[_ [<- <-]%lookup_singleton_Some]]%lookup_insert_Some; (split; [done|]); (split; [done|]);
      (split; [simpl; set_solver|]); (split; [done|]); unfold cap_ok; simpl; lia.
  - intros p q t u [[<- <-]|[_ [<- <-]%lookup_singleton_Some]]%lookup_insert_Some
      [[<- <-]|[_ [<- <-]%lookup_singleton_Some]]%lookup_insert_Some Hne; done.
Qed.

Lemma procs_count q r : vcount (f_vn procs) q = Some r -> r = 1.
Proof.
  simpl f_vn. rewrite (vcount_ref cache2 spec2 q (proj1 cache2_rel)). unfold spec2. simpl.
  intros [_ <-]%lookup_singleton_Some. done.
Qed.

Lemma procs_inv : fd_inv procs /\ fds_slack FD_MAX procs.
Proof.
  split; [split; [apply procs_ok|split]|].
  - exists spec2. exact cache2_rel.
  - intros q Hq Hpos. rewrite procs_uses in *. unfold one in *.
    destruct (Z.eqb_spec q 0); [done|]. destruct (Z.eqb_spec q 64) as [->|]; [|lia]. exists 1. split; [|lia].
    simpl f_vn. rewrite (vcount_ref cache2 spec2 64 (proj1 cache2_rel)). reflexivity.
  - intros q r Hq _ Hc. apply procs_count in Hc as ->. done.
Qed.

Lemma procs_slack : fds_slack 0 procs.
Proof. intros q r Hq _ Hc. apply procs_count in Hc as ->. done. Qed.

Lemma fd_alloc_lowest_witness :
  returns (proc_fd_alloc 10 procs) (fun '(i, st') =>
    tabs_ok st' /\ f_vn st' = f_vn procs /\
    ((i = -1 /\ tabs st' = tabs procs /\ (forall j, 0 <= j < t_cap tab10 -> used tab10 j) /\
      (t_cap tab10 = FD_MAX \/ exists n h, kmalloc n (f_heap procs) = (None, h))) \/
     exists t', tabs st' = <[10 := t']> (tabs procs) /\ alloc_post 10 i tab10 t')) /\
  returns (proc_fd_alloc 10 procs) (fun r => r.1 = 1).
Proof. split; [exact (fd_alloc_lowest 10 procs tab10 procs_ok eq_refl)|vm_compute; reflexivity]. Defined.

Lemma fd_refs_invariant_witness :
  returns (exit_close_fds 10 procs) fd_inv /\ returns (vfs_close 10 0 procs) (fun r => fd_inv r.2).
Proof.
  pose proof (fd_refs_invariant 10 11 procs tab10 tab11 (proj1 procs_inv) eq_refl eq_refl) as (_ & H1 & _ & _ & H2 & _).
  exact (conj H2 (H1 0)).
Defined.

Lemma fd_dup2_correct_witness :
  returns (proc_fd_dup2 11 10 0 5 procs) (fun '(r, st') => fd_inv st' /\
    (r = -1 /\ same_fds (tabs procs) (tabs st') /\ f_vn st' = f_vn procs \/
     r = 5 /\ 0 = 5 /\ st' = procs \/
     r = 5 /\ 0 <> 5 /\ 0 <= 5 < FD_MAX /\ used tab10 0 /\
     exists t', tabs st' = <[11 := t']> (tabs procs) /\
       slot t' 5 = set_cloexec 0 (set_used 1 (set_fd 5 (slot tab10 0))) /\
       forall j, j <> 5 -> slot t' j = slot tab11 j)) /\
  returns (proc_fd_dup2 11 10 0 5 procs) (fun r => r.1 = 5).
Proof.
  split; [exact (fd_dup2_correct 11 10 0 5 procs tab11 tab10 (proj1 procs_inv) procs_slack eq_refl eq_refl)|].
  vm_compute. reflexivity.
Defined.

(** Descriptor 2 of the parent is descriptor 1 of the child. *)
Lemma fork_renumbers_fds_witness :
  returns (fork_fds 11 10 procs) (fun st' => fd_inv st' /\ exists t', tabs st' = <[11 := t']> (tabs procs) /\
    forall j, slot t' j = fork_slot tab10 (open_below tab10 16) j) /\
  fork_slot tab10 (open_below tab10 16) 1 = set_fd 1 (slot tab10 2) /\
  fork_slot tab10 (open_below tab10 16) 2 = zero_fd.
Proof.
  split; [|vm_compute; split; reflexivity].
  apply (fork_renumbers_fds 11 10 procs tab11 tab10 (proj1 procs_inv) (proj2 procs_inv)).
  - discriminate.
  - reflexivity.
  - reflexivity.
  - exact (no_fds_slot 201).
  - vm_compute. discriminate.
Defined.
