(* ===== verification/Waitq.v ===== *)
(** * Wait queues (bsd/proc/proc.c, lines 61 to 264)

    A wait queue is the head of a list of processes linked through
    [wait_next].  Processes and queue heads are kept by address; what the
    scheduler does to the thread of a process is the interface [Sched].  Each
    critical section is one operation: going to sleep is linking the process
    into the queue, blocking its thread, and unlinking it when it runs again,
    with whatever the other processes do in between.

    The abstract queues are lists: [wq_rep]. *)

From stdpp Require Import base numbers list gmap sets.
From Stdlib Require Import ZArith Lia.
From S2P Require Import Prelude Links.

#[local] Open Scope Z_scope.

(** ** Constants (bsd/errno.h, bsd/signal.h, bsd/proc.h) *)
Definition EINTR : Z := 4.
Definition NSIG : Z := 32.
Definition SIGKILL : Z := 9.
Definition SIGSTOP : Z := 19.
Definition PRS_NORMAL : Z := 1.
Definition PRS_STOPPED : Z := 3.
Definition PRS_SLEEP : Z := 4.
Definition PRS_RUNNING : Z := 5.

(** The fields of a process the blocking system calls use.  [p_mm] is
    [page_dir], the key of the address space; [p_waitq] the address of its own
    wait queue, on which its parent waits. *)
Record proc := Proc {
  p_pid : Z; p_ppid : Z; p_pgrp : Z; p_session : Z;
  p_state : Z; p_exit_sig : Z; p_stopped : Z; p_continued : Z;
  p_thread : Z; p_mm : Z; p_waitq : Z;
  wait_next : Z; p_futex_q : Z;
  sig_handler : list Z; sig_pending : list Z; sig_blocked : list Z;
}.

Definition set_wait_next x p := Proc (p_pid p) (p_ppid p) (p_pgrp p) (p_session p) (p_state p)
  (p_exit_sig p) (p_stopped p) (p_continued p) (p_thread p) (p_mm p) (p_waitq p) x (p_futex_q p)
  (sig_handler p) (sig_pending p) (sig_blocked p).
Definition set_state x p := Proc (p_pid p) (p_ppid p) (p_pgrp p) (p_session p) x
  (p_exit_sig p) (p_stopped p) (p_continued p) (p_thread p) (p_mm p) (p_waitq p) (wait_next p) (p_futex_q p)
  (sig_handler p) (sig_pending p) (sig_blocked p).
Definition set_futex_q x p := Proc (p_pid p) (p_ppid p) (p_pgrp p) (p_session p) (p_state p)
  (p_exit_sig p) (p_stopped p) (p_continued p) (p_thread p) (p_mm p) (p_waitq p) (wait_next p) x
  (sig_handler p) (sig_pending p) (sig_blocked p).
Definition set_pending x p := Proc (p_pid p) (p_ppid p) (p_pgrp p) (p_session p) (p_state p)
  (p_exit_sig p) (p_stopped p) (p_continued p) (p_thread p) (p_mm p) (p_waitq p) (wait_next p) (p_futex_q p)
  (sig_handler p) x (sig_blocked p).
Definition set_job x stopped sig continued p := Proc (p_pid p) (p_ppid p) (p_pgrp p) (p_session p) x
  sig stopped continued (p_thread p) (p_mm p) (p_waitq p) (wait_next p) (p_futex_q p)
  (sig_handler p) (sig_pending p) (sig_blocked p).

(** ** Pending signals (bsd/signal/signal.c) *)

Definition sig_is_unblockable sig : bool := (sig =? SIGKILL) || (sig =? SIGSTOP).

Fixpoint sig_scan (n : nat) sig p : out bool :=
  match n with
  | O => Ret false
  | S n =>
      x ← rd (sig_pending p) sig;
      b ← rd (sig_blocked p) sig;
      if negb (x =? 0) && ((b =? 0) || sig_is_unblockable sig) then Ret true
      else sig_scan n (sig + 1) p
  end.

Definition signal_has_pending p : out bool := sig_scan (Z.to_nat (NSIG - 1)) 1 p.

(** ** The queues *)

Section waitq.
Context {K : Type} `{!Sched K}.

(** [heads]: the [head] field of every wait queue, by address. *)
Record wst := WSt { procs : gmap Z proc; heads : gmap Z Z; wsched : K }.

Implicit Types (st : wst) (p w wq : Z).

Definition set_procs m st : wst := WSt m (heads st) (wsched st).
Definition set_heads m st : wst := WSt (procs st) m (wsched st).
Definition set_wsched s st : wst := WSt (procs st) (heads st) s.

Definition ldp p st : out proc := deref (procs st !! p).
Definition updp p (f : proc -> proc) st : out wst :=
  x ← ldp p st; Ret (set_procs (<[p := f x]> (procs st)) st).

(** [scheduler_unblock_thread] ignores NULL. *)
Definition unblock t st : wst := if t =? 0 then st else set_wsched (wake t (wsched st)) st.

(** The places a [proc_t **] of the loops points to. *)
Inductive wloc := AtHead (wq : Z) | AtWait (p : Z).

Definition rd_wloc l st : out Z :=
  match l with AtHead wq => deref (heads st !! wq) | AtWait p => x ← ldp p st; Ret (wait_next x) end.
Definition wr_wloc l x st : out wst :=
  match l with
  | AtHead wq => _ ← deref (heads st !! wq); Ret (set_heads (<[wq := x]> (heads st)) st)
  | AtWait p => updp p (set_wait_next x) st
  end.

Definition waitq_init wq st : wst := set_heads (<[wq := 0]> (heads st)) st.

(** [p->wait_next = wq->head; wq->head = p] *)
Definition waitq_link wq p st : out wst :=
  h ← deref (heads st !! wq);
  st ← updp p (set_wait_next h) st;
  Ret (set_heads (<[wq := p]> (heads st)) st).

(** The loop that takes [p] out of a queue. *)
Fixpoint waitq_unlink_loop (fuel : nat) (pp : wloc) p st : out wst :=
  match fuel with
  | O => Hang
  | S fuel =>
      w ← rd_wloc pp st;
      if w =? 0 then Ret st
      else if w =? p then x ← ldp p st; wr_wloc pp (wait_next x) st
      else waitq_unlink_loop fuel (AtWait w) p st
  end.

Definition wq_fuel st : nat := S (size (procs st)).

Definition waitq_unlink wq p st : out wst := waitq_unlink_loop (wq_fuel st) (AtHead wq) p st.

(** [if (w->state == PRS_SLEEP) w->state = PRS_RUNNING] *)
Definition awake x : proc := if p_state x =? PRS_SLEEP then set_state PRS_RUNNING x else x.

Fixpoint waitq_wake_loop (fuel : nat) (pp : wloc) (only : Z) st : out wst :=
  match fuel with
  | O => Hang
  | S fuel =>
      w ← rd_wloc pp st;
      if w =? 0 then Ret st
      else if negb (only =? 0) && negb (w =? only) then waitq_wake_loop fuel (AtWait w) only st
      else
        x ← ldp w st;
        st ← wr_wloc pp (wait_next x) st;
        st ← updp w (set_wait_next 0) st;
        st ← updp w awake st;
        let st := unblock (p_thread x) st in
        if negb (only =? 0) then Ret st else waitq_wake_loop fuel pp only st
  end.

Definition waitq_wake_locked wq only st : out wst := waitq_wake_loop (wq_fuel st) (AtHead wq) only st.

Definition waitq_wake_all wq st : out wst := waitq_wake_locked wq 0 st.

Definition waitq_wake_one wq st : out wst :=
  h ← deref (heads st !! wq); waitq_wake_locked wq h st.

Definition proc_wakeup p st : out wst :=
  if p =? 0 then Ret st
  else
    x ← ldp p st;
    if p_thread x =? 0 then Ret st
    else st ← updp p awake st; Ret (unblock (p_thread x) st).

(** ** Going to sleep

    [p] is [proc_current()].  [others] is what the other processes do while
    [p] is off the processor. *)

(** Up to the first critical section: the code the call returns with, or the
    state with [p] linked. *)
Definition waitq_sleep_link wq p st : out (Z + wst) :=
  if p =? 0 then Ret (inl (- EINTR))
  else
    x ← ldp p st;
    sig ← signal_has_pending x;
    if (sig : bool) then Ret (inl (- EINTR))
    else st ← waitq_link wq p st; Ret (inr st).

(** [p->state = PRS_SLEEP; scheduler_block_current()] *)
Definition waitq_sleep_block p st : out wst :=
  st ← updp p (set_state PRS_SLEEP) st;
  x ← ldp p st;
  Ret (set_wsched (park (p_thread x) (wsched st)) st).

(** After [thread_yield]. *)
Definition waitq_sleep_leave wq p st : out (Z * wst) :=
  st ← waitq_unlink wq p st;
  st ← updp p (set_state PRS_RUNNING) st;
  x ← ldp p st;
  sig ← signal_has_pending x;
  Ret (if (sig : bool) then - EINTR else 0, st).

Definition waitq_sleep (others : wst -> out wst) wq p st : out (Z * wst) :=
  r ← waitq_sleep_link wq p st;
  match r with
  | inl rc => Ret (rc, st)
  | inr st => st ← waitq_sleep_block p st; st ← others st; waitq_sleep_leave wq p st
  end.

(** [(int32_t)((uint32_t)clockevent_get_ticks() - (uint32_t)deadline) >= 0] *)
Definition expired (now deadline : Z) : bool := 0 <=? s32 (u32 (u32 now - u32 deadline)).

(** The loop of a process that could not be put on the sleep queue: the clock
    it reads and what the others do in each round.  [Hang] when the rounds
    given do not end it. *)
Fixpoint sleep_poll (rounds : list (Z * (wst -> out wst))) (deadline p : Z) st : out wst :=
  match rounds with
  | [] => Hang
  | (now, others) :: rounds =>
      if expired now deadline then Ret st
      else
        st ← others st;
        x ← ldp p st;
        sig ← signal_has_pending x;
        if (sig : bool) then Ret st else sleep_poll rounds deadline p st
  end.

(** The middle part the two time-limited sleeps share.  [sret] is what
    [scheduler_sleep_ticks] returns; 1 is a blocked thread. *)
Definition sleep_ticks (sret : Z) rounds (others : wst -> out wst) deadline p st : out wst :=
  if sret =? 1 then
    x ← ldp p st;
    others (set_wsched (park (p_thread x) (wsched st)) st)
  else if sret <? 0 then sleep_poll rounds deadline p st
  else Ret st.

Definition waitq_sleep_timeout (now sret : Z) rounds (others : wst -> out wst) wq (deadline p : Z) st :
    out (Z * wst) :=
  if p =? 0 then Ret (- EINTR, st)
  else
    x ← ldp p st;
    sig ← signal_has_pending x;
    if (sig : bool) then Ret (- EINTR, st)
    else if expired now deadline then Ret (0, st)
    else
      st ← waitq_link wq p st;
      st ← updp p (set_state PRS_SLEEP) st;
      st ← sleep_ticks sret rounds others deadline p st;
      waitq_sleep_leave wq p st.

Definition waitq_sleep_timeout_linked (now sret : Z) rounds (others : wst -> out wst) wq (deadline p : Z) st :
    out (Z * wst) :=
  if p =? 0 then Ret (- EINTR, st)
  else
    x ← ldp p st;
    sig ← signal_has_pending x;
    if (sig : bool) then Ret (- EINTR, st)
    else if expired now deadline then Ret (0, st)
    else if negb (p_state x =? PRS_SLEEP) then Ret (0, st)
    else
      st ← updp p (set_state PRS_SLEEP) st;
      st ← sleep_ticks sret rounds others deadline p st;
      waitq_sleep_leave wq p st.

(** ** Queues as lists *)

Implicit Types (Q : gmap Z (list Z)) (l : list Z).

Definition wnext st p : option Z := wait_next <$> procs st !! p.

Definition queued Q p : Prop := exists wq l, Q !! wq = Some l /\ p ∈ l.

(** Every head starts a list of distinct processes that ends with NULL, and no
    process is in two queues. *)
Record wq_rep st Q : Prop := {
  wr_list wq : match heads st !! wq, Q !! wq with
               | Some h, Some l => links (wnext st) h l 0 /\ NoDup (0 :: l)
               | None, None => True
               | _, _ => False
               end;
  wr_once wq wq' l l' p : Q !! wq = Some l -> Q !! wq' = Some l' -> p ∈ l -> p ∈ l' -> wq = wq';
}.

Lemma rep_head st Q wq l : wq_rep st Q -> Q !! wq = Some l ->
  heads st !! wq = Some (after l) /\ links (wnext st) (after l) l 0 /\ NoDup (0 :: l).
Proof.
  intros Hr Hl. pose proof (wr_list _ _ Hr wq) as H. rewrite Hl in H.
  destruct (heads st !! wq) as [h|]; [|done]. destruct H as [Hk Hnd].
  assert (h = after l) as -> by (destruct l; simpl in *; [done|by destruct Hk]). done.
Qed.

(** Empty queues at the addresses [D]. *)
Lemma rep_empty ps s (D : gset Z) : wq_rep (WSt ps (gset_to_gmap 0 D) s) (gset_to_gmap [] D).
Proof.
  split.
  - intros wq. simpl. rewrite !lookup_gset_to_gmap. destruct (decide (wq ∈ D)).
    + rewrite !option_guard_True by done. split; [done|apply NoDup_singleton].
    + by rewrite !option_guard_False.
  - intros wq wq' l l' p [_ <-]%lookup_gset_to_gmap_Some _ Hp. by apply elem_of_nil in Hp.
Qed.

(** Changing one queue: the other lists are as they were. *)
Lemma rep_change st st' Q wq l l' :
  wq_rep st Q -> (Q !! wq = Some l \/ Q !! wq = None /\ l = []) ->
  heads st' = <[wq := after l']> (heads st) -> links (wnext st') (after l') l' 0 -> NoDup (0 :: l') ->
  (forall p, p ∈ l' -> p ∈ l \/ ~ queued Q p) ->
  (forall p, queued Q p -> p ∉ l -> wnext st' p = wnext st p) ->
  wq_rep st' (<[wq := l']> Q).
Proof.
  intros Hr Hl Hh Hlk Hnd Hin Hfr.
  assert (forall wq2 l2 p, wq2 <> wq -> Q !! wq2 = Some l2 -> p ∈ l2 -> p ∉ l) as Hd.
  { intros wq2 l2 p Hne H2 Hp Hpl. destruct Hl as [Hl|[_ ->]]; [|set_solver].
    apply Hne. by apply (wr_once _ _ Hr wq2 wq l2 l p). }
  split.
  - intros wq2. rewrite Hh. destruct (decide (wq2 = wq)) as [->|Hne]; [by rewrite !lookup_insert_eq|].
    rewrite !lookup_insert_ne by done. pose proof (wr_list _ _ Hr wq2) as H2.
    destruct (heads st !! wq2) as [h|], (Q !! wq2) as [l2|] eqn:E; try done. destruct H2 as [H2 Hnd2].
    split; [|done]. eapply links_frame; [|done]. intros p Hp. apply Hfr; [by exists wq2, l2|by eapply Hd].
  - assert (forall wq2 l2 p, wq2 <> wq -> Q !! wq2 = Some l2 -> p ∈ l' -> p ∈ l2 -> False) as Hx.
    { intros wq2 l2 p Hne H2 Hp Hp2. destruct (Hin p Hp) as [Hpl|Hnq]; [by eapply Hd|]. apply Hnq. by exists wq2, l2. }
    intros wq1 wq2 l1 l2 p. rewrite !lookup_insert_Some.
    intros [[<- <-]|[Hn1 H1]] [[<- <-]|[Hn2 H2]] Hp1 Hp2; try done.
    + destruct (Hx wq2 l2 p); [congruence|done..].
    + destruct (Hx wq1 l1 p); [congruence|done..].
    + by apply (wr_once _ _ Hr wq1 wq2 l1 l2 p).
Qed.

(** What changes besides the links: the processes [W] are made runnable and
    their threads unblocked. *)
Definition base (x : proc) : proc := set_wait_next 0 x.

Definition threads_of (W : list Z) st : list Z := omap (fun q => p_thread <$> procs st !! q) W.

Definition woken (W : list Z) st st' : Prop :=
  (forall q, base <$> procs st' !! q =
     (fun x => if decide (q ∈ W) then awake (base x) else base x) <$> procs st !! q) /\
  (forall t, t <> 0 -> thread_blocked (wsched st') t =
     thread_blocked (wsched st) t && negb (bool_decide (t ∈ threads_of W st))) /\
  (forall t, thread_known (wsched st') t = thread_known (wsched st) t).

Lemma base_awake x : base (awake x) = awake (base x).
Proof. unfold awake. simpl. by destruct (p_state x =? PRS_SLEEP). Qed.

Lemma awake_idem x : awake (awake x) = awake x.
Proof. unfold awake. destruct (p_state x =? PRS_SLEEP) eqn:E; [done|by rewrite E]. Qed.

Lemma awake_thread x : p_thread (awake x) = p_thread x.
Proof. unfold awake. by destruct (p_state x =? PRS_SLEEP). Qed.

Lemma base_idem x : base (base x) = base x.
Proof. done. Qed.

Context `{!SchedLaws K}.

Lemma woken_nil st st' :
  (forall q, base <$> procs st' !! q = base <$> procs st !! q) -> wsched st' = wsched st -> woken [] st st'.
Proof.
  intros Hq Hs. split; [|split].
  - intros q. rewrite Hq. by destruct (procs st !! q).
  - intros t _. rewrite Hs. by rewrite andb_true_r.
  - by rewrite Hs.
Qed.

Lemma woken_thread W st st' q : woken W st st' -> p_thread <$> procs st' !! q = p_thread <$> procs st !! q.
Proof.
  intros [Hq _]. specialize (Hq q). destruct (procs st' !! q) as [x|], (procs st !! q) as [y|]; try done.
  simpl in *. injection Hq as Hq. f_equal. change (p_thread x) with (p_thread (base x)). rewrite Hq.
  destruct (decide (q ∈ W)); [by rewrite awake_thread|done].
Qed.

Lemma woken_trans W1 W2 st st1 st2 : woken W1 st st1 -> woken W2 st1 st2 -> woken (W1 ++ W2) st st2.
Proof.
  intros H1 H2. assert (threads_of W2 st1 = threads_of W2 st) as Ht.
  { unfold threads_of. apply list_omap_ext, Forall_Forall2_diag, Forall_forall. intros q _. by eapply woken_thread. }
  destruct H1 as (Hq1 & Hb1 & Hk1), H2 as (Hq2 & Hb2 & Hk2). split; [|split].
  - intros q. rewrite Hq2. specialize (Hq1 q).
    destruct (procs st1 !! q) as [x|], (procs st !! q) as [y|]; try done. simpl in *. injection Hq1 as ->. f_equal.
    destruct (decide (q ∈ W1)), (decide (q ∈ W2)), (decide (q ∈ W1 ++ W2)) as [Hw|Hw];
      rewrite elem_of_app in Hw; try tauto; by rewrite awake_idem.
  - intros t H0. rewrite Hb2, Hb1, Ht by done. unfold threads_of. rewrite omap_app.
    rewrite <- andb_assoc, <- negb_orb, <- bool_decide_or. do 2 f_equal. apply bool_decide_ext.
    by rewrite elem_of_app.
  - intros t. by rewrite Hk2, Hk1.
Qed.

Lemma updp_ok st p x f : procs st !! p = Some x -> updp p f st = Ret (set_procs (<[p := f x]> (procs st)) st).
Proof. intros Hx. unfold updp, ldp. by rewrite Hx. Qed.

(** Making one process runnable. *)
Lemma woken_one st p x : procs st !! p = Some x ->
  woken [p] st (unblock (p_thread x) (set_procs (<[p := awake x]> (procs st)) st)).
Proof.
  intros Hx. split; [|split].
  - intros q. destruct (decide (q = p)) as [->|Hne].
    + unfold unblock. destruct (p_thread x =? 0); simpl; rewrite lookup_insert_eq, Hx; simpl;
        rewrite decide_True by (by left); by rewrite base_awake.
    + unfold unblock. destruct (p_thread x =? 0); simpl; rewrite lookup_insert_ne by done;
        destruct (procs st !! q); simpl; try done; rewrite decide_False by set_solver; done.
  - intros t Ht. unfold threads_of. simpl. rewrite Hx. simpl. unfold unblock.
    destruct (Z.eqb_spec (p_thread x) 0) as [E|E]; simpl.
    + rewrite bool_decide_false by set_solver. by rewrite andb_true_r.
    + rewrite wake_blocked. do 2 f_equal. destruct (Z.eqb_spec (p_thread x) t) as [->|Hne]; symmetry;
        [apply bool_decide_eq_true|apply bool_decide_eq_false]; set_solver.
  - intros t. unfold unblock. destruct (p_thread x =? 0); simpl; [done|apply wake_known].
Qed.

Lemma links_live nx h l q p : links nx h l q -> p ∈ l -> is_Some (nx p).
Proof.
  revert h. induction l as [|y l IH]; intros h Hl Hp; [by apply elem_of_nil in Hp|].
  destruct Hl as (-> & r & Hr & Hl). apply elem_of_cons in Hp as [->|Hp]; [by eexists|by eapply IH].
Qed.

Lemma wnext_proc st p : is_Some (wnext st p) -> exists x, procs st !! p = Some x.
Proof. unfold wnext. destruct (procs st !! p) as [x|]; [by eexists|by intros [? ?]]. Qed.

Lemma rep_fuel st Q wq l : wq_rep st Q -> Q !! wq = Some l -> (length l < wq_fuel st)%nat.
Proof.
  intros Hr Hl. destruct (rep_head _ _ _ _ Hr Hl) as (_ & Hlk & [_ Hnd]%NoDup_cons).
  unfold wq_fuel. apply Nat.lt_succ_r, nodup_size; [done|]. intros p Hp.
  destruct (wnext_proc st p) as [x Hx]; [by eapply links_live|]. by rewrite Hx.
Qed.

(** ** Linking and unlinking *)

Lemma waitq_init_spec wq st Q : wq_rep st Q -> (Q !! wq = None \/ Q !! wq = Some []) ->
  wq_rep (waitq_init wq st) (<[wq := []]> Q) /\ woken [] st (waitq_init wq st).
Proof.
  intros Hr Hq. split; [|by apply woken_nil]. eapply (rep_change st _ Q wq []); try done; [tauto| |].
  - apply NoDup_singleton.
  - intros p Hp. by apply elem_of_nil in Hp.
Qed.

Lemma waitq_link_spec wq p st Q l x : wq_rep st Q -> Q !! wq = Some l -> p <> 0 -> ~ queued Q p ->
  procs st !! p = Some x ->
  returns (waitq_link wq p st) (fun st' => wq_rep st' (<[wq := p :: l]> Q) /\ woken [] st st' /\
    procs st' = <[p := set_wait_next (after l) x]> (procs st)).
Proof.
  intros Hr Hl H0 Hnq Hx. destruct (rep_head _ _ _ _ Hr Hl) as (Hh & Hlk & Hnd). unfold waitq_link.
  rewrite Hh. ret. rewrite (updp_ok _ _ _ _ Hx). ret.
  assert (p ∉ l) as Hpl by (intros Hp; apply Hnq; by exists wq, l).
  split; [|split; [|done]].
  - apply (rep_change st _ Q wq l); try done; [by left| | | |].
    + simpl. split; [done|]. exists (after l). split; [unfold wnext; simpl; by rewrite lookup_insert_eq|].
      eapply links_frame; [|done]. intros q Hq. unfold wnext. simpl. rewrite lookup_insert_ne by set_solver. done.
    + apply NoDup_cons in Hnd as [Hn0 Hnd]. repeat (apply NoDup_cons; split); set_solver.
    + intros q [->|Hq]%elem_of_cons; [by right|by left].
    + intros q Hq _. unfold wnext. simpl. rewrite lookup_insert_ne; [done|]. intros ->. done.
  - apply woken_nil; [|done]. intros q. simpl. destruct (decide (q = p)) as [->|Hne].
    + rewrite lookup_insert_eq, Hx. done.
    + by rewrite lookup_insert_ne.
Qed.

Definition wloc_of wq l : wloc := match last l with None => AtHead wq | Some p => AtWait p end.

Lemma wloc_of_snoc wq l p : wloc_of wq (l ++ [p]) = AtWait p.
Proof. unfold wloc_of. by rewrite last_snoc. Qed.

Lemma rd_wloc_of st wq l1 l2 : heads st !! wq = Some (after (l1 ++ l2)) ->
  links (wnext st) (after (l1 ++ l2)) (l1 ++ l2) 0 -> rd_wloc (wloc_of wq l1) st = Ret (after l2).
Proof.
  intros Hh Hl. destruct l1 as [|p l1 _] using rev_ind; [simpl; by rewrite Hh|].
  rewrite wloc_of_snoc. rewrite <- app_assoc in Hl. apply links_next in Hl. unfold wnext in Hl. simpl. unfold ldp.
  destruct (procs st !! p) as [x|]; [|done]. injection Hl as Hl. ret. by rewrite Hl.
Qed.

(** Storing what is behind [x] at the place that points to it. *)
Lemma wr_wloc_of_spec st Q wq l1 x l2 : wq_rep st Q -> Q !! wq = Some (l1 ++ x :: l2) ->
  returns (wr_wloc (wloc_of wq l1) (after l2) st)
    (fun st' => wq_rep st' (<[wq := l1 ++ l2]> Q) /\ woken [] st st').
Proof.
  intros Hr Hq. destruct (rep_head _ _ _ _ Hr Hq) as (Hh & Hl & Hnd).
  pose proof (links_next _ _ _ _ _ _ Hl) as Hx. fold (after l2) in Hx.
  assert (NoDup (0 :: l1 ++ l2)) as Hnd'.
  { change (0 :: l1 ++ x :: l2) with ((0 :: l1) ++ x :: l2) in Hnd.
    rewrite <- Permutation_middle in Hnd. by apply NoDup_cons in Hnd as [_ ?]. }
  assert (forall p, p ∈ l1 ++ l2 -> p ∈ l1 ++ x :: l2 \/ ~ queued Q p) as Hin by (intros p; set_solver).
  destruct l1 as [|a l1 _] using rev_ind.
  - simpl. rewrite Hh. ret. split; [|by apply woken_nil].
    apply (rep_change st _ Q wq (x :: l2)); try done; [by left|].
    destruct Hl as (_ & r & Hr2 & Hl). rewrite Hx in Hr2. injection Hr2 as <-. done.
  - rewrite wloc_of_snoc. rewrite <- !app_assoc in *. simpl in Hl, Hnd, Hnd', Hin, Hh |- *.
    destruct (wnext_proc st a) as [xa Ha]; [eapply links_live; [done|set_solver]|]. rewrite (updp_ok _ _ _ _ Ha).
    ret. assert (after (l1 ++ a :: l2) = after (l1 ++ a :: x :: l2)) as Eh by (by destruct l1).
    split.
    + apply (rep_change st _ Q wq (l1 ++ a :: x :: l2)); try done; [by left| | |].
      * simpl. rewrite Eh. symmetry. by apply insert_id.
      * rewrite Eh. apply (links_unlink (wnext st) _ _ l1 a x l2 0 (after l2)); try done.
        -- by apply NoDup_cons in Hnd as [_ ?].
        -- unfold wnext. simpl. by rewrite lookup_insert_eq.
        -- intros y Hy. unfold wnext. simpl. rewrite lookup_insert_ne; [done|]. intros ->.
           apply NoDup_cons in Hnd' as [_ Hnd']. rewrite <- Permutation_middle in Hnd'.
           by apply NoDup_cons in Hnd' as [? _].
      * intros p Hp Hn. unfold wnext. simpl. rewrite lookup_insert_ne; [done|set_solver].
    + apply woken_nil; [|done]. intros q. simpl. destruct (decide (q = a)) as [->|Hne];
        [by rewrite lookup_insert_eq, Ha|by rewrite lookup_insert_ne].
Qed.

Lemma waitq_unlink_walk st Q wq p fuel : forall l2 l1, wq_rep st Q -> Q !! wq = Some (l1 ++ l2) -> p ∉ l1 ->
  (length l2 < fuel)%nat ->
  returns (waitq_unlink_loop fuel (wloc_of wq l1) p st)
    (fun st' => wq_rep st' (<[wq := without p (l1 ++ l2)]> Q) /\ woken [] st st').
Proof.
  induction fuel as [|fuel IH]; intros l2 l1 Hr Hq Hp Hf; [lia|]. cbn [waitq_unlink_loop].
  destruct (rep_head _ _ _ _ Hr Hq) as (Hh & Hl & Hnd). rewrite (rd_wloc_of st wq l1 l2) by done. ret.
  destruct l2 as [|w l2].
  - simpl. split; [|by apply woken_nil]. rewrite app_nil_r in *. rewrite without_id by done. by rewrite insert_id.
  - change (after (w :: l2)) with w. assert (w <> 0) by (apply NoDup_cons in Hnd as [? _]; set_solver). zcmp.
    destruct (Z.eqb_spec w p) as [->|Hne].
    + pose proof (links_next _ _ _ _ _ _ Hl) as Hx. unfold wnext in Hx. unfold ldp.
      destruct (procs st !! p) as [x|]; [|done]. injection Hx as Hx. ret. rewrite Hx.
      apply NoDup_cons in Hnd as [_ Hnd]. rewrite without_split by done. by apply (wr_wloc_of_spec st Q wq l1 p l2).
    + rewrite <- (wloc_of_snoc wq l1 w). replace (l1 ++ w :: l2) with ((l1 ++ [w]) ++ l2) in * by (by rewrite <- app_assoc).
      apply IH; try done; [set_solver|simpl in Hf; lia].
Qed.

Lemma waitq_unlink_spec wq p st Q l : wq_rep st Q -> Q !! wq = Some l ->
  returns (waitq_unlink wq p st) (fun st' => wq_rep st' (<[wq := without p l]> Q) /\ woken [] st st').
Proof.
  intros Hr Hq. unfold waitq_unlink. change (AtHead wq) with (wloc_of wq []).
  apply (waitq_unlink_walk st Q wq p _ l []); try done; [set_solver|by eapply rep_fuel].
Qed.

(** ** Waking *)

(** Changes that leave the links of queued processes alone keep the queues. *)
Lemma rep_keep st st' Q : wq_rep st Q -> heads st' = heads st ->
  (forall p, queued Q p -> wnext st' p = wnext st p) -> wq_rep st' Q.
Proof.
  intros Hr Hh Hn. split; [|apply (wr_once _ _ Hr)]. intros wq. rewrite Hh. pose proof (wr_list _ _ Hr wq) as H.
  destruct (heads st !! wq) as [h|], (Q !! wq) as [l|] eqn:E; try done. destruct H as [Hl Hnd]. split; [|done].
  eapply links_frame; [|done]. intros p Hp. apply Hn. by exists wq, l.
Qed.

Lemma unblock_heads t st : heads (unblock t st) = heads st.
Proof. unfold unblock. by destruct (t =? 0). Qed.

Lemma unblock_procs t st : procs (unblock t st) = procs st.
Proof. unfold unblock. by destruct (t =? 0). Qed.

Lemma rep_awake st Q p x : wq_rep st Q -> procs st !! p = Some x ->
  wq_rep (unblock (p_thread x) (set_procs (<[p := awake x]> (procs st)) st)) Q.
Proof.
  intros Hr Hx. apply (rep_keep st); [done|by rewrite unblock_heads|]. intros q _. unfold wnext.
  rewrite unblock_procs. simpl. destruct (decide (q = p)) as [->|Hne]; [|by rewrite lookup_insert_ne].
  rewrite lookup_insert_eq, Hx. simpl. unfold awake. by destruct (p_state x =? PRS_SLEEP).
Qed.

(** One round of the loop: the first process leaves the queue and runs. *)
Definition wake_first wq w st : out wst :=
  x ← ldp w st;
  st ← wr_wloc (AtHead wq) (wait_next x) st;
  st ← updp w (set_wait_next 0) st;
  st ← updp w awake st;
  Ret (unblock (p_thread x) st).

Lemma wake_first_spec wq w l st Q : wq_rep st Q -> Q !! wq = Some (w :: l) ->
  returns (wake_first wq w st) (fun st' => wq_rep st' (<[wq := l]> Q) /\ woken [w] st st' /\
    dom (procs st') = dom (procs st)).
Proof.
  intros Hr Hq. destruct (rep_head _ _ _ _ Hr Hq) as (Hh & Hl & Hnd). unfold wake_first.
  destruct (wnext_proc st w) as [x Hx]; [eapply links_live; [done|by left]|]. unfold ldp at 1. rewrite Hx. ret.
  pose proof (links_next _ _ [] _ _ _ Hl) as Hn. unfold wnext in Hn. rewrite Hx in Hn. injection Hn as Hn.
  fold (after l) in Hn. rewrite Hn. pose proof (wr_wloc_of_spec st Q wq [] w l Hr Hq) as Hw.
  change (wloc_of wq []) with (AtHead wq) in Hw. cbn [wr_wloc] in Hw |- *. rewrite Hh in *. revert Hw. ret.
  intros [Hr1 Hw1]. set (st1 := set_heads _ st) in *. assert (procs st1 !! w = Some x) as Hx1 by done.
  rewrite (updp_ok st1 _ _ _ Hx1). ret. set (st2 := set_procs _ st1).
  assert (procs st2 !! w = Some (set_wait_next 0 x)) as Hx2 by (by apply lookup_insert_eq).
  rewrite (updp_ok st2 _ _ _ Hx2). ret.
  assert (wq_rep st2 (<[wq := l]> Q)) as Hr2.
  { apply (rep_keep st1); [done|done|]. intros q Hqq. unfold wnext. simpl. rewrite lookup_insert_ne; [done|].
    intros <-. destruct Hqq as (wq2 & l2 & Hl2 & Hin). apply NoDup_cons in Hnd as [_ [Hwl _]%NoDup_cons].
    apply lookup_insert_Some in Hl2 as [[<- <-]|[Hne2 Hl2]]; [done|]. apply Hne2.
    apply (wr_once _ _ Hr wq wq2 (w :: l) l2 w); try done. by left. }
  split; [by apply (rep_awake st2 _ w _ Hr2 Hx2)|]. split.
  - change [w] with ([] ++ [w]). eapply woken_trans; [|by apply (woken_one st2 w _ Hx2)].
    apply woken_nil; [|done]. intros q. simpl. destruct (decide (q = w)) as [->|Hne];
      [by rewrite lookup_insert_eq, Hx|by rewrite lookup_insert_ne].
  - rewrite unblock_procs. simpl. rewrite !dom_insert_L. apply elem_of_dom_2 in Hx. set_solver.
Qed.

Lemma wake_loop_step fuel wq w l only st Q : wq_rep st Q -> Q !! wq = Some (w :: l) -> only = 0 \/ only = w ->
  waitq_wake_loop (S fuel) (AtHead wq) only st =
  (st ← wake_first wq w st; if negb (only =? 0) then Ret st else waitq_wake_loop fuel (AtHead wq) only st).
Proof.
  intros Hr Hq Ho. destruct (rep_head _ _ _ _ Hr Hq) as (Hh & _ & Hnd). cbn [waitq_wake_loop rd_wloc].
  rewrite Hh. ret. change (after (w :: l)) with w. assert (w <> 0) by (apply NoDup_cons in Hnd as [? _]; set_solver).
  zcmp. replace (negb (only =? 0) && negb (w =? only)) with false.
  - unfold wake_first. destruct (ldp w st); ret; try done. destruct (wr_wloc _ _ _); ret; try done.
    destruct (updp w _ _); ret; try done. by destruct (updp w _ _).
  - destruct Ho as [->| ->]; [done|]. by rewrite Z.eqb_refl, andb_false_r.
Qed.

Lemma waitq_wake_all_spec wq l st Q : wq_rep st Q -> Q !! wq = Some l ->
  returns (waitq_wake_all wq st) (fun st' => wq_rep st' (<[wq := []]> Q) /\ woken l st st').
Proof.
  intros Hr Hq. unfold waitq_wake_all, waitq_wake_locked. pose proof (rep_fuel _ _ _ _ Hr Hq) as Hf.
  revert Hf. generalize (wq_fuel st). intros fuel. revert fuel st Q Hr Hq.
  induction l as [|w l IH]; intros [|fuel] st Q Hr Hq Hf; try (simpl in Hf; lia).
  - destruct (rep_head _ _ _ _ Hr Hq) as (Hh & _). cbn [waitq_wake_loop rd_wloc]. rewrite Hh. ret.
    split; [by rewrite insert_id|by apply woken_nil].
  - rewrite (wake_loop_step fuel wq w l) with (Q := Q) by (done || by left).
    eapply returns_bind; [by apply (wake_first_spec wq w l)|]. intros st1 (Hr1 & Hw1 & Hd). cbn [negb Z.eqb].
    eapply returns_mono; [apply (IH fuel st1 (<[wq := l]> Q)); [done|by rewrite lookup_insert_eq|simpl in Hf; lia]|].
    intros st2 [Hr2 Hw2]. rewrite insert_insert_eq in Hr2. split; [done|].
    change (w :: l) with ([w] ++ l). by eapply woken_trans.
Qed.

Lemma waitq_wake_one_spec wq l st Q : wq_rep st Q -> Q !! wq = Some l ->
  returns (waitq_wake_one wq st) (fun st' => wq_rep st' (<[wq := tail l]> Q) /\ woken (take 1 l) st st').
Proof.
  intros Hr Hq. unfold waitq_wake_one. destruct (rep_head _ _ _ _ Hr Hq) as (Hh & _ & Hnd). rewrite Hh. ret.
  destruct l as [|w l]; [by apply (waitq_wake_all_spec wq [])|]. change (after (w :: l)) with w.
  assert (w <> 0) by (apply NoDup_cons in Hnd as [? _]; set_solver).
  unfold waitq_wake_locked, wq_fuel. rewrite (wake_loop_step _ wq w l) with (Q := Q) by (done || by right).
  eapply returns_bind; [by apply (wake_first_spec wq w l)|]. intros st1 (Hr1 & Hw1 & _). zcmp. ret.
  simpl. by rewrite take_0.
Qed.

Lemma proc_wakeup_spec p x st Q : wq_rep st Q -> procs st !! p = Some x -> p <> 0 -> p_thread x <> 0 ->
  returns (proc_wakeup p st) (fun st' => wq_rep st' Q /\ woken [p] st st').
Proof.
  intros Hr Hx H0 Ht. unfold proc_wakeup, ldp. zcmp. rewrite Hx. ret. zcmp. rewrite (updp_ok _ _ _ _ Hx). ret.
  split; [by apply rep_awake|by apply woken_one].
Qed.

(** ** Pending signals *)

Definition sig_wf x : Prop := length (sig_pending x) = Z.to_nat NSIG /\ length (sig_blocked x) = Z.to_nat NSIG.

(** A signal is deliverable: pending and not blocked, or not blockable. *)
Definition deliverable x sig : Prop :=
  1 <= sig < NSIG /\ getz (sig_pending x) sig <> Some 0 /\
  (getz (sig_blocked x) sig = Some 0 \/ sig = SIGKILL \/ sig = SIGSTOP).

Lemma signal_has_pending_spec x : sig_wf x ->
  returns (signal_has_pending x) (fun b => b = true <-> exists sig, deliverable x sig).
Proof.
  intros [H1 H2]. unfold signal_has_pending.
  assert (forall n sig, 1 <= sig -> sig + Z.of_nat n = NSIG ->
    returns (sig_scan n sig x) (fun b => b = true <-> exists s, sig <= s /\ deliverable x s)) as Hgen.
  2:{ eapply returns_mono; [by apply Hgen|]. intros b ->. split; intros [s Hs]; exists s; [tauto|].
      split; [apply Hs|done]. }
  induction n as [|n IH]; intros sig Hs Hn; cbn [sig_scan].
  - ret. split; [done|]. intros (s & Hs1 & (? & _)). unfold NSIG in *. lia.
  - unfold NSIG in *. destruct (getz_lt (sig_pending x) sig) as [a Ha]; [lia|].
    destruct (getz_lt (sig_blocked x) sig) as [b Hb]; [lia|]. rewrite (rd_getz _ _ _ Ha), (rd_getz _ _ _ Hb). ret.
    assert (negb (a =? 0) && ((b =? 0) || sig_is_unblockable sig) = true <-> deliverable x sig) as Hd.
    { unfold deliverable, sig_is_unblockable, NSIG. rewrite Ha, Hb, andb_true_iff, !orb_true_iff, negb_true_iff.
      rewrite Z.eqb_neq, !Z.eqb_eq. split; [intros [? ?]; repeat split; [lia|lia|congruence|]|intros (_ & Hz & Hb')].
      - destruct H0 as [->|]; [by left|by right].
      - split; [congruence|]. destruct Hb' as [[= ->]|]; [by left|by right]. }
    destruct (negb (a =? 0) && _).
    + ret. split; [intros _; exists sig; split; [lia|by apply Hd]|done].
    + eapply returns_mono; [apply IH; lia|]. intros r ->. split; intros (s & Hs1 & Hs2); exists s; (split; [|done]); [lia|].
      destruct (decide (s = sig)) as [->|]; [|lia]. apply Hd in Hs2. done.
Qed.

(** ** Sequences of operations *)

Inductive wop :=
| OpInit (wq : Z) | OpLink (wq p : Z) | OpUnlink (wq p : Z) | OpWakeAll (wq : Z) | OpWakeOne (wq : Z)
| OpWakeup (p : Z).

Definition wrun (op : wop) st : out wst :=
  match op with
  | OpInit wq => Ret (waitq_init wq st)
  | OpLink wq p => waitq_link wq p st
  | OpUnlink wq p => waitq_unlink wq p st
  | OpWakeAll wq => waitq_wake_all wq st
  | OpWakeOne wq => waitq_wake_one wq st
  | OpWakeup p => proc_wakeup p st
  end.

(** The same on lists: the queues, and who is woken. *)
Definition q_of Q wq : list Z := default [] (Q !! wq).

Definition qrun (op : wop) Q : gmap Z (list Z) :=
  match op with
  | OpInit wq => <[wq := []]> Q
  | OpLink wq p => <[wq := p :: q_of Q wq]> Q
  | OpUnlink wq p => <[wq := without p (q_of Q wq)]> Q
  | OpWakeAll wq => <[wq := []]> Q
  | OpWakeOne wq => <[wq := tail (q_of Q wq)]> Q
  | OpWakeup p => Q
  end.

Definition qwakes (op : wop) Q : list Z :=
  match op with
  | OpInit _ | OpLink _ _ | OpUnlink _ _ => []
  | OpWakeAll wq => q_of Q wq
  | OpWakeOne wq => take 1 (q_of Q wq)
  | OpWakeup p => [p]
  end.

(** A process with a thread. *)
Definition live st p : Prop := p <> 0 /\ exists x, procs st !! p = Some x /\ p_thread x <> 0.

Definition wlegal st (op : wop) Q : Prop :=
  match op with
  | OpInit wq => Q !! wq = None \/ Q !! wq = Some []
  | OpLink wq p => is_Some (Q !! wq) /\ live st p /\ ~ queued Q p
  | OpUnlink wq _ | OpWakeAll wq | OpWakeOne wq => is_Some (Q !! wq)
  | OpWakeup p => live st p
  end.

Fixpoint wlegals st (ops : list wop) Q : Prop :=
  match ops with [] => True | op :: ops => wlegal st op Q /\ wlegals st ops (qrun op Q) end.

Definition qruns ops Q : gmap Z (list Z) := foldl (fun Q op => qrun op Q) Q ops.

Fixpoint qwakes_all ops Q : list Z :=
  match ops with [] => [] | op :: ops => qwakes op Q ++ qwakes_all ops (qrun op Q) end.

Lemma woken_live W st st' p : woken W st st' -> live st p -> live st' p.
Proof.
  intros Hw [H0 (x & Hx & Ht)]. split; [done|]. pose proof (woken_thread _ _ _ p Hw) as H. rewrite Hx in H.
  destruct (procs st' !! p) as [y|]; [|done]. injection H as H. exists y. split; [done|congruence].
Qed.

Lemma wlegals_mono W st st' ops Q : woken W st st' -> wlegals st ops Q -> wlegals st' ops Q.
Proof.
  intros Hw. revert Q. induction ops as [|op ops IH]; intros Q; [done|]. intros [H1 H2]. split; [|by apply IH].
  destruct op; simpl in *; try done; [|by eapply woken_live]. destruct H1 as (? & ? & ?). split; [done|].
  split; [by eapply woken_live|done].
Qed.

Lemma wrun_spec op st Q : wq_rep st Q -> wlegal st op Q ->
  returns (wrun op st) (fun st' => wq_rep st' (qrun op Q) /\ woken (qwakes op Q) st st').
Proof.
  intros Hr. unfold qrun, qwakes, q_of. destruct op as [wq|wq p|wq p|wq|wq|p]; simpl.
  - intros Hq. by apply waitq_init_spec.
  - intros ([l Hl] & (H0 & x & Hx & _) & Hnq). rewrite Hl.
    eapply returns_mono; [by apply (waitq_link_spec wq p st Q l x)|]. simpl. tauto.
  - intros [l Hl]. rewrite Hl. by apply waitq_unlink_spec.
  - intros [l Hl]. rewrite Hl. by apply waitq_wake_all_spec.
  - intros [l Hl]. rewrite Hl. by apply waitq_wake_one_spec.
  - intros (H0 & x & Hx & Ht). by apply (proc_wakeup_spec p x).
Qed.

Lemma wruns_spec ops : forall st Q, wq_rep st Q -> wlegals st ops Q ->
  returns (fold_out wrun ops st) (fun st' => wq_rep st' (qruns ops Q) /\ woken (qwakes_all ops Q) st st').
Proof.
  induction ops as [|op ops IH]; intros st Q Hr Hl; simpl.
  - split; [done|by apply woken_nil].
  - destruct Hl as [Hl Hls]. eapply returns_bind; [by apply wrun_spec|]. intros st1 [Hr1 Hw1].
    eapply returns_mono; [apply IH; [done|by eapply wlegals_mono]|]. intros st2 [Hr2 Hw2].
    split; [done|by eapply woken_trans].
Qed.

(** ** Sleeping *)

Lemma updp_rep st Q p x f : wq_rep st Q -> procs st !! p = Some x -> wait_next (f x) = wait_next x ->
  wq_rep (set_procs (<[p := f x]> (procs st)) st) Q.
Proof.
  intros Hr Hx Hf. apply (rep_keep st); [done|done|]. intros q _. unfold wnext. simpl.
  destruct (decide (q = p)) as [->|Hne]; [rewrite lookup_insert_eq, Hx; simpl; by rewrite Hf|by rewrite lookup_insert_ne].
Qed.

Lemma waitq_sleep_block_spec p x st Q : wq_rep st Q -> procs st !! p = Some x -> thread_known (wsched st) (p_thread x) = true ->
  returns (waitq_sleep_block p st) (fun st' => wq_rep st' Q /\
    procs st' = <[p := set_state PRS_SLEEP x]> (procs st) /\
    forall t, thread_blocked (wsched st') t = (p_thread x =? t) || thread_blocked (wsched st) t).
Proof.
  intros Hr Hx Hk. unfold waitq_sleep_block. rewrite (updp_ok _ _ _ _ Hx). ret. unfold ldp. simpl.
  rewrite lookup_insert_eq. ret. simpl. split; [|split; [done|]].
  - apply (rep_keep (set_procs (<[p := set_state PRS_SLEEP x]> (procs st)) st)); [by apply updp_rep|done|done].
  - intros t. by rewrite park_blocked, Hk.
Qed.

Lemma waitq_sleep_leave_spec wq p x l st Q : wq_rep st Q -> Q !! wq = Some l -> procs st !! p = Some x -> sig_wf x ->
  returns (waitq_sleep_leave wq p st) (fun '(rc, st') => wq_rep st' (<[wq := without p l]> Q) /\
    (exists y, procs st' !! p = Some y /\ p_state y = PRS_RUNNING) /\
    (rc = 0 \/ rc = - EINTR) /\ (rc = - EINTR <-> exists sig, deliverable x sig)).
Proof.
  intros Hr Hl Hx Hwf. unfold waitq_sleep_leave. eapply returns_bind; [by apply waitq_unlink_spec|].
  intros st1 [Hr1 (Hq & _)]. specialize (Hq p). rewrite Hx in Hq. destruct (procs st1 !! p) as [y|] eqn:Hy; [|done].
  cbn [fmap option_fmap option_map] in Hq. apply (inj Some) in Hq.
  assert (sig_pending y = sig_pending x /\ sig_blocked y = sig_blocked x) as [Ep Eb].
  { change (sig_pending y) with (sig_pending (base y)). change (sig_blocked y) with (sig_blocked (base y)).
    rewrite Hq. by destruct (decide (p ∈ [])) as [[]%elem_of_nil|_]. }
  rewrite (updp_ok _ _ _ _ Hy). ret. unfold ldp. simpl. rewrite lookup_insert_eq. ret.
  eapply returns_bind; [apply signal_has_pending_spec; unfold sig_wf; simpl; by rewrite Ep, Eb|].
  intros b Hb. ret. split; [by apply updp_rep|]. split; [exists (set_state PRS_RUNNING y); simpl; by rewrite lookup_insert_eq|].
  unfold deliverable in *. simpl in Hb. rewrite Ep, Eb in Hb. unfold EINTR. destruct b; (split; [lia|]); rewrite <- Hb; lia || done.
Qed.

(** The comparison of clock and deadline is right while the two are less than
    2^31 ticks apart. *)
Lemma expired_spec now deadline : - 2 ^ 31 <= now - deadline < 2 ^ 31 -> expired now deadline = (deadline <=? now).
Proof.
  intros Hd. unfold expired, s32, u32. rewrite Zminus_mod_idemp_l, Zminus_mod_idemp_r.
  assert (swrap 32 ((now - deadline) mod 2 ^ 32) = now - deadline) as ->; [|zcmp; destruct (Z.leb_spec deadline now), (Z.leb_spec 0 (now - deadline)); lia].
  unfold swrap. rewrite Zplus_mod_idemp_l. rewrite Z.mod_small by lia. lia.
Qed.

(** The end of a sleep: [p] is out of the queue and running. *)
Definition slept wq p (rc : Z) st : Prop :=
  (exists Q l x, wq_rep st Q /\ Q !! wq = Some l /\ (p ∉ l) /\ procs st !! p = Some x /\ p_state x = PRS_RUNNING) /\
  (rc = 0 \/ rc = - EINTR).

Lemma waitq_sleep_spec others wq p x l st Q :
  wq_rep st Q -> Q !! wq = Some l -> p <> 0 -> ~ queued Q p -> procs st !! p = Some x -> sig_wf x ->
  thread_known (wsched st) (p_thread x) = true ->
  (forall st1, wq_rep st1 (<[wq := p :: l]> Q) ->
     procs st1 !! p = Some (set_state PRS_SLEEP (set_wait_next (after l) x)) ->
     thread_blocked (wsched st1) (p_thread x) = true ->
     returns (others st1) (fun st2 => exists Q2 l2 y,
       wq_rep st2 Q2 /\ Q2 !! wq = Some l2 /\ procs st2 !! p = Some y /\ sig_wf y)) ->
  returns (waitq_sleep others wq p st) (fun '(rc, st') =>
    ((exists sig, deliverable x sig) /\ rc = - EINTR /\ st' = st) \/
    (~ (exists sig, deliverable x sig) /\ slept wq p rc st')).
Proof.
  intros Hr Hl H0 Hnq Hx Hwf Hk Hoth. unfold waitq_sleep, waitq_sleep_link. zcmp. unfold ldp at 1. rewrite Hx. ret.
  pose proof (returns_inv _ _ (signal_has_pending_spec x Hwf)) as (b & -> & Hb). ret. destruct b.
  { ret. left. split; [by apply Hb|done]. }
  assert (~ exists sig, deliverable x sig) as Hns by (rewrite <- Hb; done).
  destruct (returns_inv _ _ (waitq_link_spec wq p st Q l x Hr Hl H0 Hnq Hx)) as (st1 & -> & Hr1 & Hw1 & Hp1). ret.
  assert (procs st1 !! p = Some (set_wait_next (after l) x)) as Hx1 by (rewrite Hp1; apply lookup_insert_eq).
  eapply returns_bind.
  { apply (waitq_sleep_block_spec p _ st1 _ Hr1 Hx1). destruct Hw1 as (_ & _ & ->). done. }
  intros st2 (Hr2 & Hp2 & Hb2). eapply returns_bind.
  { apply Hoth; [done|by rewrite Hp2, lookup_insert_eq|]. rewrite Hb2. simpl. by rewrite Z.eqb_refl. }
  intros st3 (Q2 & l2 & y & Hr3 & Hl3 & Hy & Hwfy). eapply returns_mono; [by apply (waitq_sleep_leave_spec wq p y l2 st3 Q2)|].
  intros [rc st4] (Hr4 & (z & Hz & Hs) & Hrc & _). right. split; [done|]. split; [|done].
  exists (<[wq := without p l2]> Q2), (without p l2), z. rewrite lookup_insert_eq. split; [done|]. split; [done|].
  split; [rewrite elem_of_without; tauto|done].
Qed.

(** C27: Wait queues are lists.  Starting from queues that represent the lists
    [Q], any sequence of legal operations (initialising an empty queue, linking
    a process that is in no queue, unlinking, waking the first or all
    processes, waking one process wherever it waits) returns to queues that
    represent the lists [qruns ops Q] computes; exactly the processes
    [qwakes_all ops Q] change from sleeping to running and have their threads
    unblocked, and nothing else about any process changes. *)
Theorem waitq_refines ops st Q : wq_rep st Q -> wlegals st ops Q ->
  returns (fold_out wrun ops st) (fun st' => wq_rep st' (qruns ops Q) /\ woken (qwakes_all ops Q) st st').
Proof. apply wruns_spec. Qed.

(** Sleeping on a wait queue.  With a deliverable signal waitq_sleep returns
    -EINTR and changes nothing.  Otherwise the process is linked, its thread
    blocked, and, whatever the others do that keeps the queues represented, it
    comes back out of the queue and running, with 0 or -EINTR. *)
Theorem waitq_sleep_correct others wq p x l st Q :
  wq_rep st Q -> Q !! wq = Some l -> p <> 0 -> ~ queued Q p -> procs st !! p = Some x -> sig_wf x ->
  thread_known (wsched st) (p_thread x) = true ->
  (forall st1, wq_rep st1 (<[wq := p :: l]> Q) ->
     procs st1 !! p = Some (set_state PRS_SLEEP (set_wait_next (after l) x)) ->
     thread_blocked (wsched st1) (p_thread x) = true ->
     returns (others st1) (fun st2 => exists Q2 l2 y,
       wq_rep st2 Q2 /\ Q2 !! wq = Some l2 /\ procs st2 !! p = Some y /\ sig_wf y)) ->
  returns (waitq_sleep others wq p st) (fun '(rc, st') =>
    ((exists sig, deliverable x sig) /\ rc = - EINTR /\ st' = st) \/
    (~ (exists sig, deliverable x sig) /\ slept wq p rc st')).
Proof. apply waitq_sleep_spec. Qed.

(** A wakeup can be lost.  When another processor wakes the queue after the
    process has linked itself but before it blocks, the process is taken out
    of the queue while it still runs, and then blocks: it sleeps in no queue. *)
Theorem waitq_wakeup_lost wq p x l st Q :
  wq_rep st Q -> Q !! wq = Some l -> p <> 0 -> ~ queued Q p -> procs st !! p = Some x -> sig_wf x ->
  ~ (exists sig, deliverable x sig) -> thread_known (wsched st) (p_thread x) = true ->
  returns (r ← waitq_sleep_link wq p st;
           match r with inl _ => UB | inr st => st ← waitq_wake_all wq st; waitq_sleep_block p st end)
    (fun st' => wq_rep st' (<[wq := []]> Q) /\ ~ queued (<[wq := []]> Q) p /\
       p_state <$> procs st' !! p = Some PRS_SLEEP /\ thread_blocked (wsched st') (p_thread x) = true).
Proof.
  intros Hr Hl H0 Hnq Hx Hwf Hns Hk. unfold waitq_sleep_link. zcmp. unfold ldp at 1. rewrite Hx. ret.
  pose proof (returns_inv _ _ (signal_has_pending_spec x Hwf)) as (b & -> & Hb). ret.
  destruct b; [by destruct Hns; apply Hb|].
  destruct (returns_inv _ _ (waitq_link_spec wq p st Q l x Hr Hl H0 Hnq Hx)) as (st1 & -> & Hr1 & Hw1 & Hp1). ret.
  eapply returns_bind; [apply (waitq_wake_all_spec wq (p :: l) st1 _ Hr1), lookup_insert_eq|].
  intros st2 [Hr2 Hw2]. rewrite insert_insert_eq in Hr2. pose proof (woken_trans _ _ _ _ _ Hw1 Hw2) as Hw.
  pose proof (woken_thread _ _ _ p Hw) as Ht. rewrite Hx in Ht.
  destruct (procs st2 !! p) as [y|] eqn:Hy; [|done]. injection Ht as Ht.
  eapply returns_mono; [apply (waitq_sleep_block_spec p y st2 _ Hr2 Hy)|].
  { rewrite Ht. destruct Hw as (_ & _ & ->). done. }
  intros st3 (Hr3 & Hp3 & Hb3). split; [done|]. split; [|split].
  - intros (wq2 & l2 & [[<- <-]|[Hne H2]]%lookup_insert_Some & Hp); [by apply elem_of_nil in Hp|].
    apply Hnq. by exists wq2, l2.
  - by rewrite Hp3, lookup_insert_eq.
  - rewrite Hb3, Ht. by rewrite Z.eqb_refl.
Qed.
End waitq.

(** ** Concrete queues *)

(** Two processes 10 and 20 with threads 1 and 2 and an empty queue at 100. *)
Definition mk_proc (pid thread : Z) : proc :=
  Proc pid 1 pid 1 PRS_RUNNING 0 0 0 thread (1000 * pid) (100 * pid) 0 0
    (replicate (Z.to_nat NSIG) 0) (replicate (Z.to_nat NSIG) 0) (replicate (Z.to_nat NSIG) 0).

Definition queue0 : wst (K := ref_sched) :=
  WSt (<[10 := mk_proc 1 1]> (<[20 := mk_proc 2 2]> ∅)) {[100 := 0]} (RefSched {[1; 2]} ∅).

Lemma queue0_rep : wq_rep queue0 {[100 := []]}.
Proof.
  split.
  - intros wq. simpl. destruct (decide (wq = 100)) as [->|Hne].
    + rewrite !lookup_singleton_eq. split; [done|apply NoDup_singleton].
    + by rewrite !lookup_singleton_ne by done.
  - intros wq wq' l l' p H1 H2 Hp _. apply lookup_singleton_Some in H1 as [_ <-]. by apply elem_of_nil in Hp.
Qed.

Lemma not_queued0 p : ~ queued {[100 := []]} p.
Proof. intros (wq & l & [_ <-]%lookup_singleton_Some & Hp). by apply elem_of_nil in Hp. Qed.

Lemma mk_proc_wf pid t : sig_wf (mk_proc pid t).
Proof. done. Qed.

Lemma mk_proc_quiet pid t : ~ exists sig, deliverable (mk_proc pid t) sig.
Proof.
  intros (sig & Hs & Hp & _). apply Hp. cbn [sig_pending mk_proc]. apply getz_Some. split; [lia|].
  apply lookup_replicate_2. unfold NSIG in *. lia.
Qed.

(** Both processes go to sleep; one is woken, then the other. *)
Lemma waitq_refines_witness :
  let ops := [OpLink 100 10; OpLink 100 20; OpWakeOne 100; OpUnlink 100 20; OpWakeAll 100] in
  wlegals queue0 ops {[100 := []]} /\ qwakes_all ops {[100 := []]} = [20; 10] /\
  returns (fold_out wrun ops queue0) (fun st => wq_rep st {[100 := []]} /\ woken [20; 10] queue0 st).
Proof.
  intros ops. assert (wlegals queue0 ops {[100 := []]}) as Hl.
  { assert (live queue0 10) by (split; [done|by exists (mk_proc 1 1)]).
    assert (live queue0 20) by (split; [done|by exists (mk_proc 2 2)]).
    unfold ops. cbn [wlegals wlegal]. repeat split; try done; try (by eexists); [apply not_queued0|].
    intros (wq & l & Hl & Hp). unfold qrun, q_of in Hl. rewrite lookup_singleton_eq in Hl. simpl in Hl.
    rewrite insert_singleton_eq in Hl. apply lookup_singleton_Some in Hl as [_ <-]. set_solver. }
  split; [done|]. split; [done|].
  exact (waitq_refines ops queue0 {[100 := []]} queue0_rep Hl).
Defined.

(** A sleep that process 20 ends. *)
Lemma waitq_sleep_correct_witness :
  returns (waitq_sleep (waitq_wake_all 100) 100 10 queue0) (fun '(rc, st') =>
    ((exists sig, deliverable (mk_proc 1 1) sig) /\ rc = - EINTR /\ st' = queue0) \/
    (~ (exists sig, deliverable (mk_proc 1 1) sig) /\ slept 100 10 rc st')).
Proof.
  apply (waitq_sleep_correct (waitq_wake_all 100) 100 10 (mk_proc 1 1) [] queue0 {[100 := []]});
    [exact queue0_rep|done|done|apply not_queued0|done|done|done|].
  intros st1 Hr Hs Hb. eapply returns_mono; [apply (waitq_wake_all_spec 100 [10] st1 _ Hr), lookup_insert_eq|].
  intros st2 [Hr2 (Hq & _)]. specialize (Hq 10). rewrite Hs in Hq. destruct (procs st2 !! 10) as [y|] eqn:Hy; [|done].
  exists (<[100 := []]> (<[100 := [10]]> {[100 := []]})), [], y. split; [done|]. split; [apply lookup_insert_eq|].
  split; [done|]. apply (inj Some) in Hq.
  change (length (sig_pending (base y)) = Z.to_nat NSIG /\ length (sig_blocked (base y)) = Z.to_nat NSIG).
  by rewrite Hq.
Defined.

Lemma waitq_wakeup_lost_witness :
  returns (r ← waitq_sleep_link 100 10 queue0;
           match r with inl _ => UB | inr st => st ← waitq_wake_all 100 st; waitq_sleep_block 10 st end)
    (fun st' => wq_rep st' (<[100 := []]> {[100 := []]}) /\ ~ queued (<[100 := []]> {[100 := []]}) 10 /\
       p_state <$> procs st' !! 10 = Some PRS_SLEEP /\ thread_blocked (wsched st') 1 = true).
Proof.
  apply (waitq_wakeup_lost 100 10 (mk_proc 1 1) [] queue0 {[100 := []]});
    [exact queue0_rep|done|done|apply not_queued0|done|done|apply mk_proc_quiet|done].
Defined.
