(* ===== verification/Pipe.v ===== *)
(** * Pipes (bsd/uipc/pipe.c)

    A pipe is a circular buffer of 4096 bytes between two free-running 64-bit
    counters, with the number of open ends on each side and a wait queue for
    each.  The functions that hold the pipe's lock are operations on the
    record; [pipe_read] and [pipe_write] give up the lock and sleep, so they are
    automata, one state per stretch of code between two points where another
    processor can come in.  The machine [mst] runs any number of processes in
    any order, with signals, opens and closes in between.

    The last close frees the pipe: [m_pipe] is then [None] and every access is
    undefined behaviour. *)

From stdpp Require Import base numbers list gmap sets.
From Stdlib Require Import ZArith Lia.
From S2P Require Import Prelude StringLib Links Waitq.

#[local] Open Scope Z_scope.

Definition PIPE_BUF_SIZE : Z := 4096.
Definition ENXIO : Z := 6.
Definition ESPIPE : Z := 29.
Definition ENOTTY : Z := 25.
Definition EPIPE : Z := 32.
Definition ERESTARTSYS : Z := 512.
Definition SIGPIPE : Z := 13.
Definition SIG_DFL : Z := 0.
Definition POLLIN : Z := 0x001.
Definition POLLOUT : Z := 0x004.
Definition POLLERR : Z := 0x008.
Definition POLLHUP : Z := 0x010.
Definition POLLRDNORM : Z := 0x040.
Definition POLLWRNORM : Z := 0x100.
Definition S_IFIFO : Z := 0x1000.

(** [rq] and [wq] are the addresses of the two embedded queues. *)
Record pipe := Pipe {
  pbuf : list Z; phead : Z; ptail : Z; readers : Z; writers : Z; freed : Z; rq : Z; wq : Z;
}.

Definition set_tail x pp := Pipe (pbuf pp) (phead pp) x (readers pp) (writers pp) (freed pp) (rq pp) (wq pp).
Definition set_data b x pp := Pipe b x (ptail pp) (readers pp) (writers pp) (freed pp) (rq pp) (wq pp).
Definition set_readers x pp := Pipe (pbuf pp) (phead pp) (ptail pp) x (writers pp) (freed pp) (rq pp) (wq pp).
Definition set_writers x pp := Pipe (pbuf pp) (phead pp) (ptail pp) (readers pp) x (freed pp) (rq pp) (wq pp).
Definition set_freed x pp := Pipe (pbuf pp) (phead pp) (ptail pp) (readers pp) (writers pp) x (rq pp) (wq pp).

Definition pipe_used pp : Z := u64 (phead pp - ptail pp).
Definition pipe_space pp : Z := u64 (PIPE_BUF_SIZE - pipe_used pp).

(** ** Operations under the lock

    [ino] is the inode number of the vnode: 0 for the read end. *)

Definition pipe_open (ino : Z) pp : out pipe :=
  if ino =? 0 then n ← signed 32 (readers pp + 1); Ret (set_readers n pp)
  else n ← signed 32 (writers pp + 1); Ret (set_writers n pp).

(** The length and the copy of [pipe_read]: the bytes that go to the buffer of
    the caller, or nothing when the pipe is empty. *)
Definition read_locked (count : Z) pp : out (option (list Z) * pipe) :=
  let used := pipe_used pp in
  if 0 <? used then
    let n := if count <? used then count else used in
    data ← for_range 0 n (fun i acc =>
      c ← rd (pbuf pp) (u64 (ptail pp + i) mod PIPE_BUF_SIZE); Ret (acc ++ [c])) [];
    Ret (Some data, set_tail (u64 (ptail pp + n)) pp)
  else Ret (None, pp).

(** The second critical section of [pipe_write]: how much of [src] behind
    [written] was copied. *)
Definition write_locked (src : list Z) (written : Z) pp : out (Z * pipe) :=
  let n := Z.of_nat (length src) - written in
  let now_space := pipe_space pp in
  let n := if now_space <? n then now_space else n in
  b ← for_range 0 n (fun i b =>
    c ← rd src (written + i); wr b (u64 (phead pp + i) mod PIPE_BUF_SIZE) c) (pbuf pp);
  Ret (n, set_data b (u64 (phead pp + n)) pp).

Definition pipe_lseek : Z := - ESPIPE.
Definition pipe_ioctl : Z := - ENOTTY.

(** [st_mode], [st_nlink] and [st_size]; the other fields are 0. *)
Definition pipe_stat pp : Z * Z * Z := (Z.lor S_IFIFO 0x180, 1, pipe_used pp).

Definition pipe_poll (ino events : Z) pp : Z :=
  let rev :=
    if ino =? 0 then
      let rev := if (0 <? pipe_used pp) || (writers pp <=? 0) then Z.lor POLLIN POLLRDNORM else 0 in
      if writers pp <=? 0 then Z.lor rev POLLHUP else rev
    else
      let rev := if (0 <? pipe_space pp) || (readers pp <=? 0) then Z.lor POLLOUT POLLWRNORM else 0 in
      if readers pp <=? 0 then Z.lor rev POLLERR else rev in
  Z.land rev events.

Definition pipe_poll_waitq (ino : Z) pp : Z := if ino =? 0 then rq pp else wq pp.

(** ** The bytes in a pipe *)

Definition contents pp : list Z := ring (pbuf pp) (ptail pp) (pipe_used pp).

Record pipe_wf pp : Prop := {
  pw_buf : Z.of_nat (length (pbuf pp)) = PIPE_BUF_SIZE;
  pw_head : in_u64 (phead pp);
  pw_tail : in_u64 (ptail pp);
  pw_used : pipe_used pp <= PIPE_BUF_SIZE;
  pw_readers : 0 <= readers pp < 2 ^ 31;
  pw_writers : 0 <= writers pp < 2 ^ 31;
  pw_queues : rq pp <> wq pp;
}.

Lemma buf_ne pp : pipe_wf pp -> pbuf pp <> [].
Proof. intros Hw. pose proof (pw_buf _ Hw). destruct (pbuf pp); simpl in *; [unfold PIPE_BUF_SIZE in *; lia|done]. Qed.

Lemma used_nonneg pp : 0 <= pipe_used pp.
Proof. apply (u64_range (phead pp - ptail pp)). Qed.

Lemma length_contents pp : pipe_wf pp -> Z.of_nat (length (contents pp)) = pipe_used pp.
Proof.
  intros Hw. unfold contents. rewrite length_ring by (by apply buf_ne). pose proof (used_nonneg pp). lia.
Qed.

Lemma space_eq pp : pipe_wf pp -> pipe_space pp = PIPE_BUF_SIZE - pipe_used pp.
Proof.
  intros Hw. apply u64_small. pose proof (pw_used _ Hw). pose proof (used_nonneg pp).
  unfold in_u64, PIPE_BUF_SIZE in *. lia.
Qed.

(** The counters wrap at 2^64, a multiple of the size of the buffer. *)
Lemma index_wrap x : u64 x mod PIPE_BUF_SIZE = x mod PIPE_BUF_SIZE.
Proof.
  apply Z.mod_mod_divide. by exists (2 ^ 52).
Qed.

Lemma used_after_read pp n : 0 <= n <= pipe_used pp ->
  u64 (phead pp - u64 (ptail pp + n)) = pipe_used pp - n.
Proof.
  intros Hn. unfold u64 at 1 2. rewrite Zminus_mod_idemp_r. replace (phead pp - (ptail pp + n)) with (phead pp - ptail pp - n) by lia.
  rewrite <- Zminus_mod_idemp_l. apply Z.mod_small. pose proof (u64_range (phead pp - ptail pp)).
  unfold pipe_used, in_u64, u64 in *. lia.
Qed.

Lemma used_after_write pp n : 0 <= n -> pipe_used pp + n < 2 ^ 64 ->
  u64 (u64 (phead pp + n) - ptail pp) = pipe_used pp + n.
Proof.
  intros Hn Hm. unfold u64 at 1 2. rewrite Zminus_mod_idemp_l. replace (phead pp + n - ptail pp) with (phead pp - ptail pp + n) by lia.
  rewrite <- Zplus_mod_idemp_l. apply Z.mod_small. pose proof (used_nonneg pp). unfold pipe_used, u64 in *. lia.
Qed.

(** What an operation leaves alone. *)
Definition same_ends pp pp' : Prop :=
  readers pp' = readers pp /\ writers pp' = writers pp /\ freed pp' = freed pp /\ rq pp' = rq pp /\ wq pp' = wq pp.

Lemma read_locked_spec count pp : pipe_wf pp -> 0 <= count ->
  returns (read_locked count pp) (fun '(d, pp') => pipe_wf pp' /\ same_ends pp pp' /\
    match d with
    | Some data => contents pp <> [] /\ data = take (Z.to_nat count) (contents pp) /\
        contents pp' = drop (Z.to_nat count) (contents pp)
    | None => contents pp = [] /\ pp' = pp
    end).
Proof.
  intros Hw Hc. unfold read_locked. pose proof (length_contents pp Hw) as Hlen. pose proof (used_nonneg pp) as Hnn.
  destruct (Z.ltb_spec 0 (pipe_used pp)) as [Hu|Hu].
  2:{ ret. split; [done|]. split; [done|]. split; [|done]. apply length_zero_iff_nil. lia. }
  set (n := if count <? pipe_used pp then count else pipe_used pp).
  assert (0 <= n <= pipe_used pp) as Hn by (unfold n; destruct (Z.ltb_spec count (pipe_used pp)); lia).
  assert (take (Z.to_nat n) (contents pp) = take (Z.to_nat count) (contents pp) /\
          drop (Z.to_nat n) (contents pp) = drop (Z.to_nat count) (contents pp)) as [Et Ed].
  { unfold n. destruct (Z.ltb_spec count (pipe_used pp)); [done|]. rewrite !take_ge, !drop_ge by lia. done. }
  eapply returns_bind.
  { apply (for_range_inv (fun i acc => acc = ring (pbuf pp) (ptail pp) i)); [done|]. intros i acc Hi ->.
    rewrite index_wrap. pose proof (pw_buf _ Hw) as Hb. destruct (getz_lt (pbuf pp) ((ptail pp + i) mod PIPE_BUF_SIZE)) as [c Hg].
    { rewrite Hb. apply Z.mod_pos_bound. done. }
    rewrite (rd_getz _ _ _ Hg). ret. apply list_eq. intros j. pose proof (buf_ne _ Hw).
    destruct (decide (j < Z.to_nat i)%nat) as [Hj|Hj].
    - rewrite lookup_app_l by (rewrite length_ring by done; lia). rewrite !ring_lookup by (done || lia). done.
    - rewrite lookup_app_r by (rewrite length_ring by done; lia). rewrite length_ring by done.
      destruct (decide (j = Z.to_nat i)) as [->|Hne].
      + rewrite Nat.sub_diag, ring_lookup by (done || lia). simpl. rewrite <- Hg. unfold ring_idx. rewrite Hb.
        do 2 f_equal. lia.
      + rewrite !lookup_ge_None_2; [done| |]; rewrite ?length_ring by done; simpl; lia. }
  intros data ->. ret. rewrite Z.max_r by lia. pose proof (used_after_read pp n Hn) as Hua.
  split; [|split; [done|]].
  - destruct Hw. split; try done; simpl; [apply u64_range|]. unfold pipe_used at 1. simpl. lia.
  - rewrite <- Et, <- Ed. split; [intros E; rewrite E in Hlen; simpl in Hlen; lia|]. split.
    + apply ring_take; [by apply buf_ne|done].
    + unfold contents at 1. unfold pipe_used. simpl. rewrite Hua. unfold contents. rewrite <- ring_drop by (by apply buf_ne || done).
      apply ring_congr. rewrite (pw_buf _ Hw). apply index_wrap.
Qed.

Lemma take_snoc_z (l : list Z) i c : 0 <= i -> getz l i = Some c -> take (Z.to_nat (i + 1)) l = take (Z.to_nat i) l ++ [c].
Proof.
  intros Hi [_ Hg]%getz_Some. replace (Z.to_nat (i + 1)) with (S (Z.to_nat i)) by lia. by apply take_S_r.
Qed.

Lemma write_locked_spec src written pp : pipe_wf pp -> 0 <= written <= Z.of_nat (length src) ->
  returns (write_locked src written pp) (fun '(n, pp') => pipe_wf pp' /\ same_ends pp pp' /\
    n = Z.min (Z.of_nat (length src) - written) (PIPE_BUF_SIZE - Z.of_nat (length (contents pp))) /\
    contents pp' = contents pp ++ take (Z.to_nat n) (drop (Z.to_nat written) src)).
Proof.
  intros Hw Hr. unfold write_locked. rewrite (space_eq _ Hw), (length_contents _ Hw).
  set (n := if _ <? _ then _ else _). pose proof (used_nonneg pp) as Hnn. pose proof (pw_used _ Hw) as Hu.
  assert (n = Z.min (Z.of_nat (length src) - written) (PIPE_BUF_SIZE - pipe_used pp)) as Hn.
  { unfold n. destruct (Z.ltb_spec (PIPE_BUF_SIZE - pipe_used pp) (Z.of_nat (length src) - written)); lia. }
  eapply returns_bind.
  { apply (for_range_inv (fun i b => length b = length (pbuf pp) /\
      ring b (ptail pp) (pipe_used pp + i) = contents pp ++ take (Z.to_nat i) (drop (Z.to_nat written) src))).
    - split; [done|]. rewrite Z.add_0_r. simpl. by rewrite take_0, app_nil_r.
    - intros i b Hi [Hlb Hb]. destruct (getz_lt src (written + i)) as [c Hc]; [lia|]. rewrite (rd_getz _ _ _ Hc). ret.
      pose proof (pw_buf _ Hw) as Hl. rewrite <- Hlb in Hl.
      assert (u64 (phead pp + i) mod PIPE_BUF_SIZE = ring_idx b (ptail pp) (Z.to_nat (pipe_used pp + i))) as ->.
      { rewrite index_wrap. unfold ring_idx. rewrite Hl, Z2Nat.id by lia. unfold pipe_used.
        rewrite Z.add_assoc, <- (Zplus_mod_idemp_l (_ + u64 _)), <- (Zplus_mod_idemp_r (u64 _)), index_wrap.
        rewrite Zplus_mod_idemp_r, Zplus_mod_idemp_l. f_equal. lia. }
      assert (b <> []) as Hne by (intros ->; simpl in Hl; unfold PIPE_BUF_SIZE in Hl; lia).
      rewrite wr_ok by (by apply ring_idx_range). ret. split; [by rewrite length_insert|].
      rewrite Z.add_assoc, ring_push by (unfold PIPE_BUF_SIZE in *; lia). rewrite Hb, <- app_assoc. f_equal.
      symmetry. apply take_snoc_z; [lia|]. apply getz_Some in Hc as [_ Hc]. apply getz_Some. split; [lia|].
      rewrite lookup_drop, <- Hc. f_equal. lia. }
  intros b [Hlb Hb]. ret. rewrite Z.max_r in Hb by lia.
  assert (0 <= n) by lia. pose proof (used_after_write pp n ltac:(lia) ltac:(unfold PIPE_BUF_SIZE in *; lia)) as Hua.
  split; [|split; [done|split; [done|]]].
  - destruct Hw. split; simpl; try done; [by rewrite Hlb|apply u64_range|]. unfold pipe_used at 1. simpl. lia.
  - unfold contents at 1, pipe_used. simpl. by rewrite Hua.
Qed.

Section pipe.
Context {K : Type} `{!Sched K}.
Implicit Types (w : wst (K := K)) (p : Z) (src data : list Z) (pp : pipe).

(** [pipe_close] up to the unlock; the flag says that the caller frees the
    pipe. *)
Definition pipe_close (ino : Z) pp w : out (bool * pipe * wst) :=
  pp ← (if ino =? 0 then n ← signed 32 (readers pp - 1); Ret (set_readers n pp)
        else n ← signed 32 (writers pp - 1); Ret (set_writers n pp));
  w ← (if writers pp <=? 0 then waitq_wake_all (rq pp) w else Ret w);
  w ← (if readers pp <=? 0 then waitq_wake_all (wq pp) w else Ret w);
  let do_free := (readers pp <=? 0) && (writers pp <=? 0) && (freed pp =? 0) in
  Ret (do_free, if do_free then set_freed 1 pp else pp, w).

(** ** Reading and writing *)

(** Where a process is: [Idle] holds the result of its last call. *)
Inductive pc :=
| Idle (rc : Z) (data : list Z)
| RTry (count : Z) | RLink (count : Z) | RBlock (count : Z) | RAsleep (count : Z) | RWake (data : list Z)
| WTry (src : list Z) (written : Z) | WLink (src : list Z) (written : Z) | WBlock (src : list Z) (written : Z)
| WAsleep (src : list Z) (written : Z) | WCopy (src : list Z) (written : Z) | WWake (src : list Z) (written : Z).

Definition proc_blocked p w : out bool := x ← ldp p w; Ret (thread_blocked (wsched w) (p_thread x)).

(** One stretch of [pipe_read]; a blocked process stays where it is. *)
Definition pipe_read_step p (k : pc) pp w : out (pc * pipe * wst) :=
  match k with
  | RTry count =>
      '(d, pp) ← read_locked count pp;
      match d with
      | Some data => Ret (RWake data, pp, w)
      | None => Ret (if writers pp <=? 0 then Idle 0 [] else RLink count, pp, w)
      end
  | RLink count =>
      r ← waitq_sleep_link (rq pp) p w;
      match r with
      | inl _ => Ret (Idle (- ERESTARTSYS) [], pp, w)
      | inr w => Ret (RBlock count, pp, w)
      end
  | RBlock count => w ← waitq_sleep_block p w; Ret (RAsleep count, pp, w)
  | RAsleep count =>
      b ← proc_blocked p w;
      if (b : bool) then Ret (k, pp, w)
      else
        '(rc, w) ← waitq_sleep_leave (rq pp) p w;
        Ret (if rc <? 0 then Idle (- ERESTARTSYS) [] else RTry count, pp, w)
  | RWake data =>
      w ← waitq_wake_all (wq pp) w;
      Ret (Idle (Z.of_nat (length data)) data, pp, w)
  | _ => Ret (k, pp, w)
  end.

(** [written > 0 ? written : -err] *)
Definition short_write (written err : Z) : Z := if 0 <? written then written else - err.

(** [SIGPIPE] unless the process ignores or handles it. *)
Definition raise_sigpipe p w : out wst :=
  x ← ldp p w;
  h ← rd (sig_handler x) SIGPIPE;
  if h =? SIG_DFL then l ← wr (sig_pending x) SIGPIPE 1; updp p (set_pending l) w else Ret w.

Definition pipe_write_step p (k : pc) pp w : out (pc * pipe * wst) :=
  match k with
  | WTry src written =>
      if negb (written <? Z.of_nat (length src)) then Ret (Idle written [], pp, w)
      else
        let space := pipe_space pp in
        if readers pp <=? 0 then
          w ← raise_sigpipe p w; Ret (Idle (short_write written EPIPE) [], pp, w)
        else Ret (if space =? 0 then WLink src written else WCopy src written, pp, w)
  | WLink src written =>
      r ← waitq_sleep_link (wq pp) p w;
      match r with
      | inl _ => Ret (Idle (short_write written ERESTARTSYS) [], pp, w)
      | inr w => Ret (WBlock src written, pp, w)
      end
  | WBlock src written => w ← waitq_sleep_block p w; Ret (WAsleep src written, pp, w)
  | WAsleep src written =>
      b ← proc_blocked p w;
      if (b : bool) then Ret (k, pp, w)
      else
        '(rc, w) ← waitq_sleep_leave (wq pp) p w;
        Ret (if rc <? 0 then Idle (short_write written ERESTARTSYS) [] else WTry src written, pp, w)
  | WCopy src written =>
      '(n, pp) ← write_locked src written pp;
      Ret (WWake src (written + n), pp, w)
  | WWake src written => w ← waitq_wake_all (rq pp) w; Ret (WTry src written, pp, w)
  | _ => Ret (k, pp, w)
  end.

(** ** All processes together

    [m_sent] and [m_got] log the bytes copied into and out of the buffer. *)
Record mst := MSt {
  m_pipe : option pipe; m_w : wst (K := K); m_pc : gmap Z pc; m_sent : list Z; m_got : list Z;
}.

Inductive act :=
| Run (p : Z)
| CallRead (p count : Z) | CallWrite (p : Z) (src : list Z)
| OpenEnd (ino : Z) | CloseEnd (ino : Z)
| Signal (p sig : Z).

Definition reading (k : pc) : bool :=
  match k with RTry _ | RLink _ | RBlock _ | RAsleep _ | RWake _ => true | _ => false end.
Definition writing (k : pc) : bool :=
  match k with WTry _ _ | WLink _ _ | WBlock _ _ | WAsleep _ _ | WCopy _ _ | WWake _ _ => true | _ => false end.

(** The bytes a step has moved. *)
Definition got_by (k' : pc) : list Z := match k' with RWake data => data | _ => [] end.
Definition sent_by (k k' : pc) : list Z :=
  match k, k' with
  | WCopy src a, WWake _ b => take (Z.to_nat (b - a)) (drop (Z.to_nat a) src)
  | _, _ => []
  end.

(** A signal from the environment: marked pending, and the process woken. *)
Definition send_signal p sig w : out wst :=
  x ← ldp p w;
  l ← wr (sig_pending x) sig 1;
  w ← updp p (set_pending l) w;
  proc_wakeup p w.

Definition mstep (a : act) (st : mst) : out mst :=
  match a with
  | Run p =>
      k ← deref (m_pc st !! p);
      if reading k || writing k then
        pp ← deref (m_pipe st);
        '(k', pp', w) ← (if reading k then pipe_read_step p k pp (m_w st) else pipe_write_step p k pp (m_w st));
        Ret (MSt (Some pp') w (<[p := k']> (m_pc st)) (m_sent st ++ sent_by k k') (m_got st ++ got_by k'))
      else Ret st
  | CallRead p count => Ret (MSt (m_pipe st) (m_w st) (<[p := RTry count]> (m_pc st)) (m_sent st) (m_got st))
  | CallWrite p src => Ret (MSt (m_pipe st) (m_w st) (<[p := WTry src 0]> (m_pc st)) (m_sent st) (m_got st))
  | OpenEnd ino =>
      pp ← deref (m_pipe st);
      pp ← pipe_open ino pp;
      Ret (MSt (Some pp) (m_w st) (m_pc st) (m_sent st) (m_got st))
  | CloseEnd ino =>
      pp ← deref (m_pipe st);
      '(do_free, pp, w) ← pipe_close ino pp (m_w st);
      Ret (MSt (if (do_free : bool) then None else Some pp) w (m_pc st) (m_sent st) (m_got st))
  | Signal p sig => w ← send_signal p sig (m_w st); Ret (MSt (m_pipe st) w (m_pc st) (m_sent st) (m_got st))
  end.

(** What the layers above guarantee: a call goes through a descriptor of an
    open end, and an end is closed for the last time only when no call is in
    progress on it. *)
Definition idle_at (st : mst) p : Prop := exists rc d, m_pc st !! p = Some (Idle rc d).

Definition alegal (a : act) (st : mst) : Prop :=
  match a with
  | Run p => is_Some (m_pc st !! p)
  | CallRead p count => idle_at st p /\ 0 <= count < 2 ^ 63 /\ exists pp, m_pipe st = Some pp /\ 0 < readers pp
  | CallWrite p src => idle_at st p /\ exists pp, m_pipe st = Some pp /\ 0 < writers pp
  | OpenEnd ino => exists pp, m_pipe st = Some pp /\ readers pp < 2 ^ 31 - 1 /\ writers pp < 2 ^ 31 - 1
  | CloseEnd ino => exists pp, m_pipe st = Some pp /\
      if ino =? 0 then 0 < readers pp /\ (readers pp = 1 -> forall p k, m_pc st !! p = Some k -> reading k = false)
      else 0 < writers pp /\ (writers pp = 1 -> forall p k, m_pc st !! p = Some k -> writing k = false)
  | Signal p sig => is_Some (m_pc st !! p) /\ 1 <= sig < NSIG
  end.

(** ** The invariant *)

(** A process that takes part. *)
Definition proc_ok w p : Prop := p <> 0 /\ exists x, procs w !! p = Some x /\ p_thread x <> 0 /\
  thread_known (wsched w) (p_thread x) = true /\ sig_wf x /\ length (sig_handler x) = Z.to_nat NSIG.

(** The two queues, [true] for the readers: the address, and where a process
    in it can be. *)
Definition qaddr (b : bool) pp : Z := if b then rq pp else wq pp.

Definition in_q (b : bool) (k : pc) : bool :=
  match k with RBlock _ | RAsleep _ => b | WBlock _ _ | WAsleep _ _ => negb b | _ => false end.

Definition pc_ok pp (k : pc) : Prop :=
  (reading k = true -> 0 < readers pp) /\ (writing k = true -> 0 < writers pp) /\
  match k with
  | RTry c | RLink c | RBlock c | RAsleep c => 0 <= c < 2 ^ 63
  | WTry src a | WLink src a | WBlock src a | WAsleep src a | WCopy src a | WWake src a =>
      0 <= a <= Z.of_nat (length src)
  | _ => True
  end.

(** The queues hold only processes that are about to sleep or asleep. *)
Definition Qof pp (f : bool -> list Z) : gmap Z (list Z) := <[rq pp := f true]> {[wq pp := f false]}.

Definition queues_ok pp w (pcs : gmap Z pc) : Prop := exists f,
  wq_rep w (Qof pp f) /\ forall b p, p ∈ f b -> exists k, pcs !! p = Some k /\ in_q b k = true.

Definition pipe_inv pp w (pcs : gmap Z pc) (sent got : list Z) : Prop :=
  pipe_wf pp /\ freed pp = 0 /\ (0 < readers pp \/ 0 < writers pp) /\ sent = got ++ contents pp /\
  queues_ok pp w pcs /\ forall p k, pcs !! p = Some k -> pc_ok pp k.

Definition minv (st : mst) : Prop :=
  (forall p k, m_pc st !! p = Some k -> proc_ok (m_w st) p) /\
  match m_pipe st with
  | Some pp => pipe_inv pp (m_w st) (m_pc st) (m_sent st) (m_got st)
  | None => forall p k, m_pc st !! p = Some k -> reading k = false /\ writing k = false
  end.

Context `{!SchedLaws K}.

Definition upd_q (f : bool -> list Z) (b : bool) (l : list Z) : bool -> list Z := fun c => if Bool.eqb b c then l else f c.

Lemma Qof_lookup pp f b : rq pp <> wq pp -> Qof pp f !! qaddr b pp = Some (f b).
Proof. intros Hne. unfold Qof. destruct b; simpl; [apply lookup_insert_eq|]. by rewrite lookup_insert_ne, lookup_singleton_eq. Qed.

Lemma Qof_insert pp f b l : rq pp <> wq pp -> <[qaddr b pp := l]> (Qof pp f) = Qof pp (upd_q f b l).
Proof.
  intros Hne. unfold Qof. destruct b; simpl; [apply insert_insert_eq|].
  rewrite insert_insert_ne by done. f_equal. apply insert_singleton_eq.
Qed.

Lemma Qof_queued pp f p : queued (Qof pp f) p -> exists b, p ∈ f b.
Proof.
  unfold Qof. intros (q & l & [[_ <-]|[_ Hl]]%lookup_insert_Some & Hp); [by exists true|].
  apply lookup_singleton_Some in Hl as [_ <-]. by exists false.
Qed.

Lemma upd_q_in f b l c p : p ∈ upd_q f b l c -> (c = b /\ p ∈ l) \/ (c <> b /\ p ∈ f c).
Proof. unfold upd_q. destruct (Bool.eqb_spec b c) as [->|Hne]; intros Hp; [by left|right; split; [congruence|done]]. Qed.

(** ** Steps of a process keep the queues *)

Lemma woken_proc_ok W w w' p : woken W w w' -> proc_ok w p -> proc_ok w' p.
Proof.
  intros (Hq & _ & Hk) (H0 & x & Hx & Ht & Hkn & (Hp & Hb) & Hh). split; [done|]. specialize (Hq p). rewrite Hx in Hq.
  destruct (procs w' !! p) as [y|]; [|done]. exists y. split; [done|]. apply (inj Some) in Hq.
  assert (forall A (g : proc -> A), (forall z, g (base z) = g z) -> (forall z, g (awake z) = g z) -> g y = g x) as Hf.
  { intros A g Hg1 Hg2. rewrite <- Hg1, Hq. destruct (decide (p ∈ W)); by rewrite ?Hg2, ?Hg1. }
  assert (forall z, p_thread (awake z) = p_thread z /\ sig_pending (awake z) = sig_pending z /\
    sig_blocked (awake z) = sig_blocked z /\ sig_handler (awake z) = sig_handler z) as Ha
    by (intros z; unfold awake; by destruct (p_state z =? PRS_SLEEP)).
  unfold sig_wf. rewrite Hk, (Hf _ p_thread), (Hf _ sig_pending), (Hf _ sig_blocked), (Hf _ sig_handler); try done;
    intros z; apply (Ha z).
Qed.

Lemma updp_proc_ok w q f x p : procs w !! q = Some x -> p_thread (f x) = p_thread x ->
  length (sig_pending (f x)) = length (sig_pending x) -> sig_blocked (f x) = sig_blocked x -> sig_handler (f x) = sig_handler x ->
  proc_ok w p -> proc_ok (set_procs (<[q := f x]> (procs w)) w) p.
Proof.
  intros Hx Ht Hs1 Hs2 Hh (H0 & y & Hy & H1 & H2 & [H3 H4] & H5). split; [done|]. simpl.
  destruct (decide (p = q)) as [->|Hne].
  - rewrite Hx in Hy. injection Hy as <-. exists (f x). rewrite lookup_insert_eq. unfold sig_wf.
    by rewrite Ht, Hs1, Hs2, Hh.
  - exists y. by rewrite lookup_insert_ne.
Qed.

(** Moving [p], where the queues it is in allow its new place. *)
Lemma queues_move pp w pcs f p k :
  wq_rep w (Qof pp f) -> (forall b q, q ∈ f b -> q <> p -> exists k, pcs !! q = Some k /\ in_q b k = true) ->
  (forall b, p ∈ f b -> in_q b k = true) -> queues_ok pp w (<[p := k]> pcs).
Proof.
  intros Hr Hf Hp. exists f. split; [done|]. intros b q Hq. destruct (decide (q = p)) as [->|Hne].
  - exists k. rewrite lookup_insert_eq. split; [done|by apply Hp].
  - rewrite lookup_insert_ne by done. by apply Hf.
Qed.

Lemma queues_wake b pp w pcs : rq pp <> wq pp -> queues_ok pp w pcs ->
  returns (waitq_wake_all (qaddr b pp) w) (fun w' => queues_ok pp w' pcs /\ exists W, woken W w w').
Proof.
  intros Hne (f & Hr & Hf). eapply returns_mono; [by apply waitq_wake_all_spec, Qof_lookup|].
  intros w' [Hr' Hw]. rewrite Qof_insert in Hr' by done. split; [|by eexists]. exists (upd_q f b []). split; [done|].
  intros c p [[_ Hp]|[_ Hp]]%upd_q_in; [by apply elem_of_nil in Hp|by apply Hf].
Qed.

Lemma queues_link b pp w pcs p k k' : rq pp <> wq pp -> queues_ok pp w pcs -> proc_ok w p ->
  pcs !! p = Some k -> (forall c, in_q c k = false) -> in_q b k' = true ->
  returns (waitq_sleep_link (qaddr b pp) p w) (fun r =>
    match r with inl _ => True | inr w' => queues_ok pp w' (<[p := k']> pcs) /\ exists W, woken W w w' end).
Proof.
  intros Hne (f & Hr & Hf) (H0 & x & Hx & Ht & Hk & Hsig & Hh) Hpk Hnq Hin. unfold waitq_sleep_link. zcmp.
  unfold ldp. rewrite Hx. ret. pose proof (returns_inv _ _ (signal_has_pending_spec x Hsig)) as (s & -> & _). ret.
  destruct s; [done|].
  assert (forall c, p ∉ f c) as Hpf by (intros c Hp; destruct (Hf c p Hp) as (k1 & Hk1 & Hi); rewrite Hpk in Hk1; injection Hk1 as <-; by rewrite Hnq in Hi).
  eapply returns_bind; [apply (waitq_link_spec (qaddr b pp) p w _ (f b) x Hr); [by apply Qof_lookup|done| |done]|].
  { intros [c Hc]%Qof_queued. by apply (Hpf c). }
  intros w' (Hr' & Hw & _). rewrite Qof_insert in Hr' by done. ret. split; [|by eexists].
  eapply queues_move; [done| |].
  - intros c q Hq Hqp. apply upd_q_in in Hq as [[-> Hq]|[_ Hq]]; [|by apply Hf].
    apply elem_of_cons in Hq as [->|Hq]; [done|by apply Hf].
  - intros c [[-> _]|[_ Hq]]%upd_q_in; [done|]. by destruct (Hpf c).
Qed.

Lemma queues_block b pp w pcs p k k' : queues_ok pp w pcs -> proc_ok w p ->
  pcs !! p = Some k -> in_q b k = true -> (forall c, in_q c k = true -> in_q c k' = true) ->
  returns (waitq_sleep_block p w) (fun w' => queues_ok pp w' (<[p := k']> pcs) /\ forall q, proc_ok w q -> proc_ok w' q).
Proof.
  intros (f & Hr & Hf) (H0 & x & Hx & Ht & Hk & Hsig & Hh) Hpk Hin Hin'.
  unfold waitq_sleep_block. rewrite (updp_ok _ _ _ _ Hx). ret. unfold ldp. simpl. rewrite lookup_insert_eq. ret. simpl. split.
  - eapply queues_move; [|intros c q Hq _; by apply Hf|].
    + eapply (rep_keep (set_procs (<[p := set_state PRS_SLEEP x]> (procs w)) w)); [by apply updp_rep|done|done].
    + intros c Hc. destruct (Hf c p Hc) as (k1 & Hk1 & Hi). rewrite Hpk in Hk1. injection Hk1 as <-. by apply Hin'.
  - intros q Hq. apply (updp_proc_ok w p (set_state PRS_SLEEP) x q Hx) in Hq; try done.
    destruct Hq as (Hq0 & y & Hy & Hq1 & Hq2 & Hq3). split; [done|]. exists y. simpl in *. by rewrite park_known.
Qed.

Lemma leave_woken_proc_ok w q x p : procs w !! q = Some x -> proc_ok w p ->
  proc_ok (set_procs (<[q := set_state PRS_RUNNING x]> (procs w)) w) p.
Proof. intros Hx. by apply (updp_proc_ok w q (set_state PRS_RUNNING) x). Qed.

Lemma queues_leave b pp w pcs p k : rq pp <> wq pp -> queues_ok pp w pcs -> proc_ok w p ->
  pcs !! p = Some k -> in_q b k = true -> (forall c, in_q c k = true -> c = b) ->
  returns (waitq_sleep_leave (qaddr b pp) p w) (fun '(rc, w') =>
    (forall k', queues_ok pp w' (<[p := k']> pcs)) /\ forall q, proc_ok w q -> proc_ok w' q).
Proof.
  intros Hne (f & Hr & Hf) Hok Hpk Hin Hu. unfold waitq_sleep_leave.
  eapply returns_bind; [by apply waitq_unlink_spec, Qof_lookup|].
  intros w1 [Hr1 Hw1]. rewrite Qof_insert in Hr1 by done. pose proof (woken_proc_ok _ _ _ _ Hw1 Hok) as (_ & x & Hx & _ & _ & Hsig & _).
  rewrite (updp_ok _ _ _ _ Hx). ret. unfold ldp. simpl. rewrite lookup_insert_eq. ret.
  pose proof (returns_inv _ _ (signal_has_pending_spec (set_state PRS_RUNNING x) Hsig)) as (s & -> & _). ret. split.
  - intros k'. eapply queues_move; [by apply updp_rep| |].
    + intros c q Hq _. apply upd_q_in in Hq as [[-> Hq]|[_ Hq]]; [|by apply Hf]. apply elem_of_without in Hq as [Hq _]. by apply Hf.
    + intros c [[_ Hq]|[Hc Hq]]%upd_q_in; [apply elem_of_without in Hq as [_ []]; done|].
      destruct (Hf c p Hq) as (k1 & Hk1 & Hi). rewrite Hpk in Hk1. injection Hk1 as <-. by apply Hu in Hi.
  - intros q Hq. apply leave_woken_proc_ok; [done|]. by eapply woken_proc_ok.
Qed.

Lemma queues_same pp pp' w pcs : same_ends pp pp' -> queues_ok pp w pcs -> queues_ok pp' w pcs.
Proof. intros (_ & _ & _ & E1 & E2) (f & H). exists f. unfold Qof. by rewrite E1, E2. Qed.

Lemma pc_ok_same pp pp' k : same_ends pp pp' -> pc_ok pp k -> pc_ok pp' k.
Proof. intros (E1 & E2 & _) H. unfold pc_ok. by rewrite E1, E2. Qed.

(** A process outside the queues moves. *)
Lemma queues_step pp w pcs p k k' : queues_ok pp w pcs -> pcs !! p = Some k -> (forall c, in_q c k = false) ->
  queues_ok pp w (<[p := k']> pcs).
Proof.
  intros (f & Hr & Hf) Hk Hn. eapply queues_move; [done|intros b q Hq _; by apply Hf|]. intros b Hp.
  destruct (Hf b p Hp) as (k1 & Hk1 & Hi). rewrite Hk in Hk1. injection Hk1 as <-. by rewrite Hn in Hi.
Qed.

(** Putting the invariant together after a step of [p]. *)
Lemma inv_step pp pp' w w' pcs p k' sent got sent' got' :
  pipe_inv pp w pcs sent got -> pipe_wf pp' -> same_ends pp pp' -> sent' = got' ++ contents pp' ->
  queues_ok pp w' (<[p := k']> pcs) -> pc_ok pp k' -> pipe_inv pp' w' (<[p := k']> pcs) sent' got'.
Proof.
  intros (_ & Hf & Ho & _ & _ & Hpc) Hw Hs Hc Hq Hk. pose proof Hs as (E1 & E2 & E3 & _).
  split; [done|]. rewrite E1, E2, E3. split; [done|]. split; [done|]. split; [done|]. split; [by eapply queues_same|].
  intros q k [[<- <-]|[_ Hq']]%lookup_insert_Some; eapply pc_ok_same; try done. by apply (Hpc q).
Qed.

(** The state after a step: the invariant, the same processes. *)
Definition stepped w pcs p k sent got (r : pc * pipe * wst) : Prop :=
  let '(k', pp', w') := r in
  pipe_inv pp' w' (<[p := k']> pcs) (sent ++ sent_by k k') (got ++ got_by k') /\
  forall q, proc_ok w q -> proc_ok w' q.

(** Where the pipe itself does not change. *)
Lemma stepped_same pp w w' pcs p k k' sent got :
  pipe_inv pp w pcs sent got -> queues_ok pp w' (<[p := k']> pcs) -> pc_ok pp k' ->
  sent_by k k' = [] -> got_by k' = [] -> (forall q, proc_ok w q -> proc_ok w' q) ->
  stepped w pcs p k sent got (k', pp, w').
Proof.
  intros Hi Hq Hk Es Eg Hp. split; [|done]. rewrite Es, Eg, !app_nil_r. eapply inv_step; try done; [apply Hi|].
  apply Hi.
Qed.

Lemma pipe_read_step_spec p k pp w pcs sent got :
  pipe_inv pp w pcs sent got -> proc_ok w p -> pcs !! p = Some k -> reading k = true ->
  returns (pipe_read_step p k pp w) (stepped w pcs p k sent got).
Proof.
  intros Hi Hpr Hk Hrd. pose proof Hi as (Hw & Hfr & Ho & Hc & Hq & Hpc). pose proof (pw_queues _ Hw) as Hne.
  pose proof (Hpc p k Hk) as (Hr & _ & Hb). specialize (Hr Hrd).
  assert ((forall c, in_q c k = false) -> forall rc d, stepped w pcs p k sent got (Idle rc d, pp, w)) as Hidle.
  { intros Hn rc d. apply stepped_same; try done; [by eapply queues_step|by destruct k]. }
  destruct k as [|count|count|count|count|data| | | | | |]; try done; cbn [pipe_read_step].
  - eapply returns_bind; [apply read_locked_spec; [done|apply Hb]|].
    intros [[data|] pp'] (Hw' & Hs & Hd); ret.
    + destruct Hd as (Hne' & -> & Hc'). split; [|done]. rewrite app_nil_r. eapply inv_step; try done.
      * rewrite Hc, Hc', <- app_assoc. cbn [got_by]. by rewrite take_drop.
      * by eapply queues_step.
    + destruct Hd as [_ ->]. destruct (writers pp <=? 0); [by apply Hidle|].
      apply stepped_same; try done. by eapply queues_step.
  - eapply returns_bind; [by apply (queues_link true pp w pcs p (RLink count) (RBlock count))|].
    intros [_|w'] Hq'; ret; [by apply Hidle|]. destruct Hq' as (Hq' & W & HW).
    apply stepped_same; try done. intros q. by eapply woken_proc_ok.
  - eapply returns_bind; [by apply (queues_block true pp w pcs p (RBlock count) (RAsleep count))|].
    intros w' [Hq' HW]. ret. by apply stepped_same.
  - unfold proc_blocked. pose proof Hpr as (H0 & x & Hx & _). unfold ldp. rewrite Hx. ret.
    destruct (thread_blocked _ _); ret.
    + apply stepped_same; try done. by rewrite insert_id.
    + eapply returns_bind; [apply (queues_leave true pp w pcs p (RAsleep count)); (done || by intros [|])|].
      intros [rc w'] [Hq' HW]. ret. destruct (rc <? 0); by apply stepped_same.
  - eapply returns_bind; [by apply (queues_wake false pp w pcs)|]. intros w' (Hq' & W & HW). ret.
    apply stepped_same; try done; [by eapply queues_step|]. intros q. by eapply woken_proc_ok.
Qed.

Lemma raise_sigpipe_spec pp w pcs p : queues_ok pp w pcs -> proc_ok w p ->
  returns (raise_sigpipe p w) (fun w' => queues_ok pp w' pcs /\ forall q, proc_ok w q -> proc_ok w' q).
Proof.
  intros (f & Hr & Hf) (H0 & x & Hx & Ht & Hkn & (Hp & Hb) & Hh). unfold raise_sigpipe, ldp. rewrite Hx. ret.
  destruct (getz_lt (sig_handler x) SIGPIPE) as [h Hg]; [rewrite Hh; unfold SIGPIPE, NSIG; lia|].
  rewrite (rd_getz _ _ _ Hg). ret. destruct (h =? SIG_DFL); [|ret; split; [by exists f|done]].
  rewrite wr_ok by (rewrite Hp; unfold SIGPIPE, NSIG; lia). ret. rewrite (updp_ok _ _ _ _ Hx). ret. split.
  - exists f. split; [by apply updp_rep|done].
  - intros q. apply updp_proc_ok; try done. simpl. apply length_insert.
Qed.

Lemma pipe_write_step_spec p k pp w pcs sent got :
  pipe_inv pp w pcs sent got -> proc_ok w p -> pcs !! p = Some k -> writing k = true ->
  returns (pipe_write_step p k pp w) (stepped w pcs p k sent got).
Proof.
  intros Hi Hpr Hk Hrd. pose proof Hi as (Hw & Hfr & Ho & Hc & Hq & Hpc). pose proof (pw_queues _ Hw) as Hne.
  pose proof (Hpc p k Hk) as (_ & Hr & Hb). specialize (Hr Hrd).
  assert ((forall c, in_q c k = false) -> forall rc d, stepped w pcs p k sent got (Idle rc d, pp, w)) as Hidle.
  { intros Hn rc d. apply stepped_same; try done; [by eapply queues_step|by destruct k]. }
  destruct k as [| | | | | |src a|src a|src a|src a|src a|src a]; try done; cbn [pipe_write_step].
  - destruct (Z.ltb_spec a (Z.of_nat (length src))); cbn [negb]; [|ret; by apply Hidle].
    destruct (readers pp <=? 0).
    + eapply returns_bind; [by apply (raise_sigpipe_spec pp w pcs p)|]. intros w' [Hq' HW]. ret.
      apply stepped_same; try done. by eapply queues_step.
    + ret. destruct (pipe_space pp =? 0); apply stepped_same; try done; by eapply queues_step.
  - eapply returns_bind; [by apply (queues_link false pp w pcs p (WLink src a) (WBlock src a))|].
    intros [_|w'] Hq'; ret; [by apply Hidle|]. destruct Hq' as (Hq' & W & HW).
    apply stepped_same; try done. intros q. by eapply woken_proc_ok.
  - eapply returns_bind; [by apply (queues_block false pp w pcs p (WBlock src a) (WAsleep src a))|].
    intros w' [Hq' HW]. ret. by apply stepped_same.
  - unfold proc_blocked. pose proof Hpr as (H0 & x & Hx & _). unfold ldp. rewrite Hx. ret.
    destruct (thread_blocked _ _); ret.
    + apply stepped_same; try done. by rewrite insert_id.
    + eapply returns_bind; [apply (queues_leave false pp w pcs p (WAsleep src a)); (done || by intros [|])|].
      intros [rc w'] [Hq' HW]. ret. destruct (rc <? 0); by apply stepped_same.
  - eapply returns_bind; [by apply write_locked_spec|]. intros [n pp'] (Hw' & Hs & Hn & Hc'). ret. split; [|done].
    cbn [sent_by got_by]. rewrite app_nil_r. pose proof (length_contents _ Hw). pose proof (pw_used _ Hw).
    replace (a + n - a) with n by lia. eapply inv_step; try done.
    + by rewrite Hc, Hc', app_assoc.
    + by eapply queues_step.
    + split; [done|]. split; [done|]. lia.
  - eapply returns_bind; [by apply (queues_wake true pp w pcs)|]. intros w' (Hq' & W & HW). ret.
    apply stepped_same; try done; [by eapply queues_step|]. intros q. by eapply woken_proc_ok.
Qed.

Lemma send_signal_spec p sig w : proc_ok w p -> 1 <= sig < NSIG ->
  returns (send_signal p sig w) (fun w' => (forall q, proc_ok w q -> proc_ok w' q) /\
    forall pp pcs, queues_ok pp w pcs -> queues_ok pp w' pcs).
Proof.
  intros (H0 & x & Hx & Ht & Hkn & (Hp & Hb) & Hh) Hs. unfold send_signal. unfold ldp at 1. rewrite Hx. ret.
  rewrite wr_ok by (rewrite Hp; unfold NSIG in *; lia). ret. set (l := <[_ := 1]> _). rewrite (updp_ok _ _ _ _ Hx). ret.
  unfold proc_wakeup. zcmp. set (w1 := set_procs _ w). assert (procs w1 !! p = Some (set_pending l x)) as Hx1 by apply lookup_insert_eq.
  unfold ldp. rewrite Hx1. ret. cbn [p_thread set_pending]. zcmp. rewrite (updp_ok w1 _ _ _ Hx1). ret.
  split.
  - intros q Hq. eapply woken_proc_ok; [apply (woken_one w1 p _ Hx1)|]. apply updp_proc_ok; try done.
    simpl. apply length_insert.
  - intros pp pcs (f & Hr & Hf). exists f. split; [|done]. apply (rep_awake w1 _ p (set_pending l x)); [|done].
    by apply (updp_rep w _ p x (set_pending l)).
Qed.

(** What is left of the pipe after a close. *)
Definition closed_end (ino : Z) pp : pipe :=
  if ino =? 0 then set_readers (readers pp - 1) pp else set_writers (writers pp - 1) pp.

Lemma pipe_close_spec ino pp w pcs : pipe_wf pp -> (if ino =? 0 then 0 < readers pp else 0 < writers pp) ->
  queues_ok pp w pcs ->
  returns (pipe_close ino pp w) (fun '(do_free, pp', w') => exists W, woken W w w' /\ queues_ok pp w' pcs /\
    do_free = (readers (closed_end ino pp) <=? 0) && (writers (closed_end ino pp) <=? 0) && (freed pp =? 0) /\
    pp' = if do_free then set_freed 1 (closed_end ino pp) else closed_end ino pp).
Proof.
  intros Hw Hpos Hq. unfold pipe_close. pose proof (pw_queues _ Hw) as Hne.
  assert ((if ino =? 0 then n ← signed 32 (readers pp - 1); Ret (set_readers n pp)
           else n ← signed 32 (writers pp - 1); Ret (set_writers n pp)) = Ret (closed_end ino pp)) as ->.
  { unfold closed_end. pose proof (pw_readers _ Hw). pose proof (pw_writers _ Hw).
    destruct (ino =? 0); rewrite signed_ok by lia; done. }
  ret. set (cp := closed_end ino pp).
  assert (rq cp = qaddr true pp /\ wq cp = qaddr false pp /\ freed cp = freed pp) as (Er & Ew & Ef)
    by (unfold cp, closed_end; by destruct (ino =? 0)). rewrite Er, Ew, Ef.
  assert (forall (c : bool) b w, queues_ok pp w pcs -> returns (if c then waitq_wake_all (qaddr b pp) w else Ret w)
    (fun w' => queues_ok pp w' pcs /\ exists W, woken W w w')) as Hwake.
  { intros c b v Hv. destruct c; [by apply queues_wake|]. split; [done|]. exists []. by apply woken_nil. }
  eapply returns_bind; [by apply Hwake|]. intros w1 (Hq1 & W1 & HW1).
  eapply returns_bind; [by apply Hwake|]. intros w2 (Hq2 & W2 & HW2). ret.
  exists (W1 ++ W2). split; [by eapply woken_trans|]. done.
Qed.

Lemma pc_ok_closed ino pp (pcs : gmap Z pc) q k : (forall p k, pcs !! p = Some k -> pc_ok pp k) ->
  (if ino =? 0 then readers pp = 1 -> forall p k, pcs !! p = Some k -> reading k = false
   else writers pp = 1 -> forall p k, pcs !! p = Some k -> writing k = false) ->
  pcs !! q = Some k -> pc_ok (closed_end ino pp) k.
Proof.
  intros Hpc Hcl Hk. destruct (Hpc q k Hk) as (Hr & Hw & Hb). unfold pc_ok, closed_end.
  destruct (ino =? 0); simpl; (split; [|split; [|done]]); try done.
  - intros E. specialize (Hr E). destruct (decide (readers pp = 1)) as [E1|]; [|lia].
    rewrite (Hcl E1 q k Hk) in E. done.
  - intros E. specialize (Hw E). destruct (decide (writers pp = 1)) as [E1|]; [|lia].
    rewrite (Hcl E1 q k Hk) in E. done.
Qed.

(** Processes and pipe together. *)
Lemma minv_intro w pcs p sent got (r : pc * pipe * wst) k :
  (forall q k, pcs !! q = Some k -> proc_ok w q) -> pcs !! p = Some k ->
  stepped w pcs p k sent got r ->
  minv (MSt (Some r.1.2) r.2 (<[p := r.1.1]> pcs) (sent ++ sent_by k r.1.1) (got ++ got_by r.1.1)).
Proof.
  destruct r as [[k1 pp1] w1]. intros Hpr Hk [Hi HW]. split; [|done]. simpl. intros q k2 Hq. apply HW.
  apply lookup_insert_Some in Hq as [[<- _]|[_ Hq]]; by eapply Hpr.
Qed.

Lemma mstep_run p st : minv st -> alegal (Run p) st -> returns (mstep (Run p) st) minv.
Proof.
  intros [Hpr Hi] [k Hk]. cbn [mstep]. rewrite Hk. ret. destruct (m_pipe st) as [pp|] eqn:Ep.
  - destruct (reading k) eqn:Er; cbn [orb].
    + ret. eapply returns_bind; [eapply pipe_read_step_spec; try done; by eapply Hpr|].
      intros r Hr. pose proof (minv_intro _ _ p _ _ r k Hpr Hk Hr). by destruct r as [[k1 pp1] w1].
    + destruct (writing k) eqn:Ew; [|ret; split; [done|by rewrite Ep]]. ret.
      eapply returns_bind; [eapply pipe_write_step_spec; try done; by eapply Hpr|].
      intros r Hr. pose proof (minv_intro _ _ p _ _ r k Hpr Hk Hr). by destruct r as [[k1 pp1] w1].
  - destruct (Hi p k Hk) as [-> ->]. simpl. split; [done|by rewrite Ep].
Qed.

(** A change of the counts that keeps every process on an open end. *)
Lemma inv_ends pp pp' w w' pcs sent got : pipe_inv pp w pcs sent got -> queues_ok pp w' pcs ->
  contents pp' = contents pp -> pipe_wf pp' -> freed pp' = 0 -> rq pp' = rq pp -> wq pp' = wq pp ->
  (0 < readers pp' \/ 0 < writers pp') -> (forall q k, pcs !! q = Some k -> pc_ok pp' k) ->
  pipe_inv pp' w' pcs sent got.
Proof.
  intros (_ & _ & _ & He & _) (f & Hq) Hc Hw Hf E1 E2 Ho Hpc. split; [done|]. split; [done|]. split; [done|].
  split; [by rewrite Hc|]. split; [|done]. exists f. unfold Qof. by rewrite E1, E2.
Qed.

Lemma mstep_open ino st : minv st -> alegal (OpenEnd ino) st -> returns (mstep (OpenEnd ino) st) minv.
Proof.
  intros [Hpr Hi] (pp & Hp & H1 & H2). cbn [mstep]. rewrite Hp in Hi |- *. ret. pose proof Hi as (Hw & Hf & Ho & He & Hq & Hpc).
  pose proof (pw_readers _ Hw). pose proof (pw_writers _ Hw). unfold pipe_open.
  assert (forall r v, 0 <= r < 2 ^ 31 -> 0 <= v < 2 ^ 31 -> readers pp <= r -> writers pp <= v ->
    minv (MSt (Some (set_writers v (set_readers r pp))) (m_w st) (m_pc st) (m_sent st) (m_got st))) as Hm.
  { intros r v Hr Hv Hr' Hv'. split; [done|]. eapply inv_ends; try done; simpl; [destruct Hw; by split|lia|].
    intros q k Hk. destruct (Hpc q k Hk) as (Ha & Hb & Hc). split; [|split; [|done]]; simpl; [intros ?%Ha|intros ?%Hb]; lia. }
  destruct (ino =? 0); rewrite signed_ok by lia; ret.
  - apply (Hm (readers pp + 1) (writers pp)); lia.
  - apply (Hm (readers pp) (writers pp + 1)); lia.
Qed.

Lemma mstep_close ino st : minv st -> alegal (CloseEnd ino) st -> returns (mstep (CloseEnd ino) st) minv.
Proof.
  intros [Hpr Hi] (pp & Hp & Hcl). cbn [mstep]. rewrite Hp in Hi |- *. ret. pose proof Hi as (Hw & Hf & Ho & He & Hq & Hpc).
  eapply returns_bind; [apply (pipe_close_spec ino pp (m_w st) (m_pc st)); try done; destruct (ino =? 0); apply Hcl|].
  intros [[do_free pp'] w'] (W & HW & Hq' & Ed & Ep). ret.
  assert (forall q k, m_pc st !! q = Some k -> pc_ok (closed_end ino pp) k) as Hpc'.
  { intros q k. apply pc_ok_closed; [done|]. destruct (ino =? 0); apply Hcl. }
  split; [intros q k Hk; eapply woken_proc_ok; [done|]; by eapply Hpr|]. cbn [m_pipe].
  rewrite Hf, andb_true_r in Ed. symmetry in Ed. destruct do_free.
  - apply andb_prop in Ed as [E1%Z.leb_le E2%Z.leb_le]. intros q k Hk. destruct (Hpc' q k Hk) as (H1 & H2 & _).
    destruct (reading k), (writing k); try done; lia.
  - subst pp'. apply andb_false_iff in Ed. rewrite !Z.leb_gt in Ed. pose proof (pw_readers _ Hw). pose proof (pw_writers _ Hw).
    unfold closed_end in *. destruct (ino =? 0); (eapply inv_ends; try done; destruct Hw; split; simpl; try done; lia).
Qed.

Lemma mstep_spec a st : minv st -> alegal a st -> returns (mstep a st) minv.
Proof.
  intros Hm Hl. destruct a as [p|p count|p src|ino|ino|p sig];
    [by apply mstep_run| | |by apply mstep_open|by apply mstep_close|]; destruct Hm as [Hpr Hi]; cbn [mstep alegal] in *.
  - destruct Hl as ((rc & d & Hk) & Hc & pp & Hp & Hrd). rewrite Hp in Hi |- *. split; simpl.
    + intros q k [[<- _]|[_ Hq]]%lookup_insert_Some; by eapply Hpr.
    + pose proof Hi as (Hw & Hf & Ho & He & Hq & Hpc). eapply inv_step; try done. by eapply queues_step.
  - destruct Hl as ((rc & d & Hk) & pp & Hp & Hrd). rewrite Hp in Hi |- *. split; simpl.
    + intros q k [[<- _]|[_ Hq]]%lookup_insert_Some; by eapply Hpr.
    + pose proof Hi as (Hw & Hf & Ho & He & Hq & Hpc). eapply inv_step; try done; [by eapply queues_step|].
      split; [done|]. split; [done|]. simpl. lia.
  - destruct Hl as ([k Hk] & Hs). eapply returns_bind; [apply send_signal_spec; [by eapply Hpr|done]|].
    intros w' [HW Hq']. ret. split; [intros q k1 Hq1; apply HW; by eapply Hpr|]. simpl. destruct (m_pipe st) as [pp|]; [|done].
    destruct Hi as (Hw & Hf & Ho & He & Hq & Hpc). repeat (split; [done|]). split; [by apply Hq'|done].
Qed.

(** Every order of legal actions. *)
Inductive reach (st0 : mst) : mst -> Prop :=
| reach_refl : reach st0 st0
| reach_step st a st' : reach st0 st -> alegal a st -> mstep a st = Ret st' -> reach st0 st'.

Lemma reach_inv st0 st : minv st0 -> reach st0 st -> minv st.
Proof.
  intros Hi. induction 1 as [|st a st' _ IH Hl Hs]; [done|]. pose proof (mstep_spec a st IH Hl) as H. by rewrite Hs in H.
Qed.

(** ** Results *)

(** C22: A pipe is a FIFO.  However the reads, writes, opens, closes and signals
    of any number of processes interleave, starting from a consistent pipe:
    the bytes copied in are the bytes copied out followed by the contents of
    the buffer, which never exceed its size; every further action of a process
    returns without undefined behaviour; and the pipe is freed exactly when
    its last end is closed, with no call in progress. *)
Theorem pipe_fifo st0 st : minv st0 -> reach st0 st ->
  match m_pipe st with
  | Some pp => m_sent st = m_got st ++ contents pp /\ Z.of_nat (length (contents pp)) <= PIPE_BUF_SIZE /\
      (0 < readers pp \/ 0 < writers pp)
  | None => forall p k, m_pc st !! p = Some k -> reading k = false /\ writing k = false
  end /\
  (forall a, alegal a st -> returns (mstep a st) minv).
Proof.
  intros Hi Hr. pose proof (reach_inv _ _ Hi Hr) as Hm. split; [|intros a; by apply mstep_spec].
  destruct Hm as [_ Hm]. destruct (m_pipe st) as [pp|]; [|done]. destruct Hm as (Hw & _ & Ho & He & _).
  split; [done|]. split; [|done]. rewrite (length_contents _ Hw). apply Hw.
Qed.

(** What one pass of the loops does.  Reading a pipe that is not empty takes
    the oldest bytes, as many as asked for and there are; an empty pipe is end
    of file exactly when no write end is open, otherwise the reader goes to
    sleep.  Writing to a pipe without readers raises SIGPIPE and returns what
    was written or -EPIPE; otherwise the next bytes of the buffer are appended,
    as many as fit, and a full pipe puts the writer to sleep. *)
Theorem pipe_transfers p pp w count src written :
  pipe_wf pp -> proc_ok w p -> 0 <= count -> 0 <= written < Z.of_nat (length src) ->
  returns (pipe_read_step p (RTry count) pp w) (fun '(k, pp', w') => w' = w /\
    if decide (contents pp = []) then pp' = pp /\ k = (if writers pp <=? 0 then Idle 0 [] else RLink count)
    else k = RWake (take (Z.to_nat count) (contents pp)) /\ contents pp' = drop (Z.to_nat count) (contents pp)) /\
  returns (pipe_write_step p (WTry src written) pp w) (fun '(k, pp', w') => pp' = pp /\
    if readers pp <=? 0 then
      k = Idle (if 0 <? written then written else - EPIPE) [] /\
      (forall x, procs w !! p = Some x -> getz (sig_handler x) SIGPIPE = Some SIG_DFL ->
         exists y, procs w' !! p = Some y /\ getz (sig_pending y) SIGPIPE = Some 1)
    else w' = w /\ k = if decide (Z.of_nat (length (contents pp)) = PIPE_BUF_SIZE) then WLink src written else WCopy src written) /\
  returns (pipe_write_step p (WCopy src written) pp w) (fun '(k, pp', w') => w' = w /\
    exists n, k = WWake src (written + n) /\
      n = Z.min (Z.of_nat (length src) - written) (PIPE_BUF_SIZE - Z.of_nat (length (contents pp))) /\
      contents pp' = contents pp ++ take (Z.to_nat n) (drop (Z.to_nat written) src)).
Proof.
  intros Hw Hp Hc Hr. pose proof (length_contents _ Hw) as Hlen. split; [|split]; cbn [pipe_read_step pipe_write_step].
  - eapply returns_bind; [by apply read_locked_spec|]. intros [[data|] pp'] (_ & _ & Hd); ret; (split; [done|]).
    + destruct Hd as (Hne & -> & Hd). by rewrite decide_False.
    + destruct Hd as [He ->]. by rewrite decide_True.
  - zcmp. destruct (readers pp <=? 0).
    + destruct Hp as (H0 & x & Hx & _ & _ & (Hpn & _) & Hh). unfold raise_sigpipe, ldp. rewrite Hx. ret.
      destruct (getz_lt (sig_handler x) SIGPIPE) as [h Hg]; [rewrite Hh; unfold SIGPIPE, NSIG; lia|].
      rewrite (rd_getz _ _ _ Hg). ret. destruct (Z.eqb_spec h SIG_DFL) as [->|Hne]; ret.
      * rewrite wr_ok by (rewrite Hpn; unfold SIGPIPE, NSIG; lia). ret. rewrite (updp_ok _ _ _ _ Hx). ret.
        split; [done|]. split; [done|]. intros y Hy _. eexists. simpl. rewrite lookup_insert_eq. split; [done|]. simpl.
        injection Hy as <-. apply getz_insert_eq. rewrite Hpn. unfold SIGPIPE, NSIG. lia.
      * split; [done|]. split; [done|]. intros y Hy Hd. congruence.
    + ret. split; [done|]. split; [done|]. rewrite Hlen, (space_eq _ Hw).
      destruct (decide (pipe_used pp = PIPE_BUF_SIZE)) as [E|E]; zcmp; done.
  - eapply returns_bind; [apply write_locked_spec; [done|lia]|]. intros [n pp'] (_ & _ & Hn & Hd). ret. split; [done|].
    by exists n.
Qed.
End pipe.

(** ** A concrete pipe

    The processes 10 and 20 of [queue0] share a new pipe with its queues at 200
    and 201. *)
Definition new_pipe : pipe := Pipe (replicate (Z.to_nat PIPE_BUF_SIZE) 0) 0 0 1 1 0 200 201.

Definition pipe0 : mst (K := ref_sched) :=
  MSt (Some new_pipe) (WSt (procs queue0) (<[200 := 0]> {[201 := 0]}) (wsched queue0))
    (<[10 := Idle 0 []]> {[20 := Idle 0 []]}) [] [].

Lemma new_pipe_wf : pipe_wf new_pipe.
Proof. by split. Qed.

Lemma pipe0_procs p k : m_pc pipe0 !! p = Some k -> k = Idle 0 [] /\ proc_ok (m_w pipe0) p.
Proof.
  cbn [m_pc pipe0]. intros [[<- <-]|[_ Hk]]%lookup_insert_Some.
  - split; [done|]. split; [done|]. by exists (mk_proc 1 1).
  - apply lookup_singleton_Some in Hk as [<- <-]. split; [done|]. split; [done|]. by exists (mk_proc 2 2).
Qed.

Lemma pipe0_inv : minv pipe0.
Proof.
  split; [intros p k Hk; by apply (pipe0_procs p k)|]. cbn [m_pipe pipe0]. split; [apply new_pipe_wf|].
  split; [done|]. split; [left; done|]. split; [done|]. split.
  - exists (fun _ => []). split; [|intros b p Hp; by apply elem_of_nil in Hp]. unfold Qof. split.
    + intros q. cbn [heads m_w pipe0 rq wq new_pipe]. destruct (decide (q = 200)) as [->|H1].
      { rewrite !lookup_insert_eq. split; [done|apply NoDup_singleton]. } rewrite !lookup_insert_ne by done.
      destruct (decide (q = 201)) as [->|H2]; [|by rewrite !lookup_singleton_ne by done].
      rewrite !lookup_singleton_eq. split; [done|apply NoDup_singleton].
    + intros q q' l l' p H1 _ Hp _. apply lookup_insert_Some in H1 as [[_ <-]|[_ H1]]; [by apply elem_of_nil in Hp|].
      apply lookup_singleton_Some in H1 as [_ <-]. by apply elem_of_nil in Hp.
  - intros p k Hk. apply (pipe0_procs p k) in Hk as [-> _]. done.
Qed.

Fixpoint mlegals (acts : list act) (st : mst (K := ref_sched)) : Prop :=
  match acts with
  | [] => True
  | a :: acts => alegal a st /\ match mstep a st with Ret st => mlegals acts st | _ => False end
  end.

Lemma mlegals_reach acts st0 st1 : reach st0 st1 -> mlegals acts st1 ->
  exists st, fold_out mstep acts st1 = Ret st /\ reach st0 st.
Proof.
  revert st1. induction acts as [|a acts IH]; intros st1 Hr Hl; [by exists st1|]. destruct Hl as [Ha Hl]. simpl.
  destruct (mstep a st1) as [st2| |] eqn:E; try done. simpl. apply IH; [|done]. by apply (reach_step _ st1 a).
Qed.

(** Process 20 writes two bytes, process 10 reads one of them. *)
Definition write_read : list act :=
  [CallWrite 20 [65; 66]; Run 20; Run 20; Run 20; Run 20; CallRead 10 1; Run 10; Run 10].

Ltac legal_run := vm_compute; repeat match goal with
  | |- _ /\ _ => split
  | |- exists _, _ => eexists
  | |- is_Some (Some _) => eexists
  | |- True => exact I
  | |- _ => reflexivity || discriminate
  end.

Lemma write_read_legal : mlegals write_read pipe0.
Proof. legal_run. Qed.

Lemma pipe_fifo_witness : exists st,
  fold_out mstep write_read pipe0 = Ret st /\ m_sent st = [65; 66] /\ m_got st = [65] /\
  match m_pipe st with
  | Some pp => m_sent st = m_got st ++ contents pp /\ Z.of_nat (length (contents pp)) <= PIPE_BUF_SIZE /\
      (0 < readers pp \/ 0 < writers pp)
  | None => forall p k, m_pc st !! p = Some k -> reading k = false /\ writing k = false
  end.
Proof.
  destruct (mlegals_reach write_read pipe0 pipe0 (reach_refl _) write_read_legal) as (st & Hst & Hr).
  exists st. split; [exact Hst|].
  assert (m_sent st = [65; 66] /\ m_got st = [65]) as [E1 E2].
  { assert (match fold_out mstep write_read pipe0 with Ret st => m_sent st = [65; 66] /\ m_got st = [65] | _ => False end) as H
      by (vm_compute; split; reflexivity). rewrite Hst in H. exact H. }
  split; [exact E1|]. split; [exact E2|]. exact (proj1 (pipe_fifo pipe0 st pipe0_inv Hr)).
Defined.

(** A pipe with three bytes, and no reader. *)
Definition pipe3 : pipe := Pipe (65 :: 66 :: 67 :: replicate (Z.to_nat (PIPE_BUF_SIZE - 3)) 0) 3 0 0 1 0 200 201.

Lemma pipe_transfers_witness :
  contents pipe3 = [65; 66; 67] /\
  returns (pipe_read_step 10 (RTry 2) pipe3 (m_w pipe0)) (fun '(k, pp', w') => w' = m_w pipe0 /\
    k = RWake [65; 66] /\ contents pp' = [67]) /\
  returns (pipe_write_step 10 (WTry [68] 0) pipe3 (m_w pipe0)) (fun '(k, pp', w') => k = Idle (- EPIPE) []) /\
  returns (pipe_write_step 10 (WCopy [68] 0) pipe3 (m_w pipe0)) (fun '(k, pp', w') => w' = m_w pipe0 /\
    exists n, contents pp' = [65; 66; 67] ++ take (Z.to_nat n) [68]).
Proof.
  assert (contents pipe3 = [65; 66; 67]) as E by (vm_compute; reflexivity).
  assert (pipe_wf pipe3) as Hw by (by split).
  assert (proc_ok (m_w pipe0) 10) as Hp by (apply (pipe0_procs 10 (Idle 0 [])); reflexivity).
  destruct (pipe_transfers 10 pipe3 (m_w pipe0) 2 [68] 0 Hw Hp) as (H1 & H2 & H3); [lia|simpl; lia|].
  rewrite E in H1, H3. split; [exact E|]. split; [|split].
  - eapply returns_mono; [exact H1|]. intros [[k pp'] w'] [Hx Hy]. split; [exact Hx|]. exact Hy.
  - eapply returns_mono; [exact H2|]. intros [[k pp'] w'] [_ Hy]. apply Hy.
  - eapply returns_mono; [exact H3|]. intros [[k pp'] w'] (Hx & n & _ & _ & Hn). split; [exact Hx|]. exists n. exact Hn.
Defined.

(** Process 10 finds the pipe empty; before it is in the queue, process 20
    writes a byte and wakes the empty queue; then 10 goes to sleep. *)
Definition lost_run : list act :=
  [CallRead 10 5; Run 10; CallWrite 20 [65]; Run 20; Run 20; Run 20; Run 20; Run 10; Run 10].

Lemma lost_run_legal : mlegals lost_run pipe0.
Proof. legal_run. Qed.

(** A read can sleep although there is data.  Between the check under the
    lock and the sleep a writer can fill the pipe and wake the queue the
    reader is not in yet: a state is reachable in which the reader is blocked,
    the pipe holds a byte, every other process is done, and running any
    process changes nothing. *)
Theorem pipe_read_lost_wakeup : exists st, reach pipe0 st /\
  m_pc st !! 10 = Some (RAsleep 5) /\ m_pc st !! 20 = Some (Idle 1 []) /\
  option_map contents (m_pipe st) = Some [65] /\
  mstep (Run 10) st = Ret st /\ mstep (Run 20) st = Ret st.
Proof.
  destruct (mlegals_reach lost_run pipe0 pipe0 (reach_refl _) lost_run_legal) as (st & Hst & Hr). exists st.
  split; [done|].
  assert (match fold_out mstep lost_run pipe0 with
          | Ret st => m_pc st !! 10 = Some (RAsleep 5) /\ m_pc st !! 20 = Some (Idle 1 []) /\
              option_map contents (m_pipe st) = Some [65] /\ mstep (Run 10) st = Ret st /\ mstep (Run 20) st = Ret st
          | _ => False end) as H by (vm_compute; repeat split; reflexivity).
  by rewrite Hst in H.
Qed.
