(* ===== verification/Tty.v ===== *)
(** * Terminals (bsd/tty/tty.c, bsd/tty.h)

    A terminal is a circular input buffer of 256 bytes, its settings and a
    foreground process group.  The state joins the terminals with the
    processes of Waitq.v, the list of live processes in the order of
    [live_list], and what was written to the console.  The code takes no lock;
    each function is one step, and a reader that sleeps lets the others run.

    Copies from and to user memory are inputs: what [copy_from_user] delivers
    ([None] when it faults) and whether [copy_to_user] succeeds. *)

From stdpp Require Import base numbers list gmap sets.
From Stdlib Require Import ZArith Lia.
From S2P Require Import Prelude StringLib Links Waitq Pipe.

#[local] Open Scope Z_scope.

(** ** Constants *)
Definition TTY_COUNT : Z := 2.
Definition TTY_BUF : Z := 256.
Definition NEWLINE : Z := 10.
Definition PROC_MAX : Z := 1024.
Definition EPERM : Z := 1.
Definition EFAULT : Z := 14.
Definition EINVAL : Z := 22.
Definition ISIG : Z := 0x0001.
Definition ICANON : Z := 0x0002.
Definition ECHO : Z := 0x0008.
Definition NCCS : Z := 20.
Definition VINTR : Z := 0.
Definition VQUIT : Z := 1.
Definition VERASE : Z := 2.
Definition VKILL : Z := 3.
Definition VEOF : Z := 4.
Definition VSUSP : Z := 10.
Definition VEOL : Z := 11.
Definition SIGINT : Z := 2.
Definition SIGQUIT : Z := 3.
Definition SIGTSTP : Z := 20.
Definition POLLNVAL : Z := 0x020.
Definition TIOCGETA : Z := 0x5401.
Definition TIOCSETA : Z := 0x5402.
Definition TIOCGWINSZ : Z := 0x5413.
Definition TIOCGPGRP : Z := 0x540F.
Definition TIOCSPGRP : Z := 0x5410.

(** ** Data *)
Record termios := Termios { c_iflag : Z; c_oflag : Z; c_cflag : Z; c_lflag : Z; c_cc : list Z }.
Record winsize := Winsize { ws_row : Z; ws_col : Z; ws_xpixel : Z; ws_ypixel : Z }.

Record tty := Tty {
  t_minor : Z; t_open : Z; in_buf : list Z; in_head : Z; in_tail : Z;
  t_echo : Z; t_icanon : Z; t_isig : Z; t_term : termios; t_winsize : winsize; t_pgrp : Z; t_waitq : Z;
}.

Definition set_open x t := Tty (t_minor t) x (in_buf t) (in_head t) (in_tail t) (t_echo t) (t_icanon t) (t_isig t) (t_term t) (t_winsize t) (t_pgrp t) (t_waitq t).
Definition set_input b h t := Tty (t_minor t) (t_open t) b h (in_tail t) (t_echo t) (t_icanon t) (t_isig t) (t_term t) (t_winsize t) (t_pgrp t) (t_waitq t).
Definition set_in_tail x t := Tty (t_minor t) (t_open t) (in_buf t) (in_head t) x (t_echo t) (t_icanon t) (t_isig t) (t_term t) (t_winsize t) (t_pgrp t) (t_waitq t).
Definition set_modes e c s t := Tty (t_minor t) (t_open t) (in_buf t) (in_head t) (in_tail t) e c s (t_term t) (t_winsize t) (t_pgrp t) (t_waitq t).
Definition set_term x t := Tty (t_minor t) (t_open t) (in_buf t) (in_head t) (in_tail t) (t_echo t) (t_icanon t) (t_isig t) x (t_winsize t) (t_pgrp t) (t_waitq t).
Definition set_pgrp x t := Tty (t_minor t) (t_open t) (in_buf t) (in_head t) (in_tail t) (t_echo t) (t_icanon t) (t_isig t) (t_term t) (t_winsize t) x (t_waitq t).

Definition flag (x mask : Z) : Z := if negb (Z.land x mask =? 0) then 1 else 0.

Definition tty_apply_lflags t : tty :=
  let l := c_lflag (t_term t) in set_modes (flag l ECHO) (flag l ICANON) (flag l ISIG) t.

(** The terminal [tty_init] sets up; its wait queue is at [q]. *)
Definition tty_init_one (minor q : Z) : tty :=
  let cc := <[10%nat := 0x1A]> (<[4%nat := 0x04]> (<[3%nat := 0x15]> (<[2%nat := 0x7F]> (<[1%nat := 0x1C]>
              (<[0%nat := 0x03]> (replicate 20 0)))))) in
  tty_apply_lflags (Tty minor 0 (replicate 256 0) 0 0 0 0 0
    (Termios 0 0 0 (Z.lor (Z.lor ISIG ICANON) ECHO) cc) (Winsize 25 80 0 0) 0 q).

Section tty.
Context {K : Type} `{!Sched K}.

Record tst := TSt { ttys : list tty; live_list : list Z; tw : wst (K := K); console : list Z }.

Implicit Types (st : tst) (t : tty).

Definition put_tty m t st : out tst := l ← wr (ttys st) m t; Ret (TSt l (live_list st) (tw st) (console st)).
Definition set_tw w st : tst := TSt (ttys st) (live_list st) w (console st).
Definition debug_putchar c st : tst := TSt (ttys st) (live_list st) (tw st) (console st ++ [c]).

Definition tty_init (q0 q1 : Z) st : tst :=
  TSt [tty_init_one 0 q0; tty_init_one 1 q1] (live_list st) (waitq_init q1 (waitq_init q0 (tw st))) (console st).

(** ** Processes *)

(** The walk over [live_list]; 0 is NULL. *)
Fixpoint find_pid (l : list Z) pid (w : wst (K := K)) : out Z :=
  match l with
  | [] => Ret 0
  | p :: l => x ← ldp p w; if p_pid x =? pid then Ret p else find_pid l pid w
  end.

Definition proc_find pid st : out Z :=
  if (pid <=? 0) || (PROC_MAX <=? pid) then Ret 0 else find_pid (live_list st) pid (tw st).

(** [proc_t *parent = proc_find(p->ppid); if (parent) waitq_wake_all(&parent->waitq)] *)
Definition wake_parent p st : out tst :=
  x ← ldp p (tw st);
  q ← proc_find (p_ppid x) st;
  if q =? 0 then Ret st
  else y ← ldp q (tw st); w ← waitq_wake_all (p_waitq y) (tw st); Ret (set_tw w st).

(** The body of the loop of [tty_send_signal] for a process of the group; the
    branch for SIGCONT inside the first test is never taken and left out. *)
Definition signal_member p sig st : out tst :=
  x ← ldp p (tw st);
  l ← wr (sig_pending x) sig 1;
  w ← updp p (set_pending l) (tw st);
  let st := set_tw w st in
  if (sig =? SIGINT) || (sig =? SIGQUIT) || (sig =? SIGTSTP) then
    st ← (if (sig =? SIGTSTP) || (sig =? SIGSTOP) then
            w ← updp p (fun x => set_job PRS_STOPPED 1 (u8 sig) (p_continued x) x) (tw st);
            wake_parent p (set_tw w st)
          else Ret st);
    w ← proc_wakeup p (tw st);
    x ← ldp p w;
    w ← waitq_wake_all (p_waitq x) w;
    Ret (set_tw w st)
  else w ← proc_wakeup p (tw st); Ret (set_tw w st).

Definition tty_send_signal t sig st : out tst :=
  if t_pgrp t =? 0 then Ret st
  else
    for_range 1 PROC_MAX (fun pid st =>
      p ← proc_find pid st;
      if p =? 0 then Ret st
      else
        x ← ldp p (tw st);
        if negb (p_pgrp x =? t_pgrp t) then Ret st else signal_member p sig st) st.

(** ** Input *)

Definition tty_lookup minor st : out (option tty) :=
  if (minor <? 0) || (TTY_COUNT <=? minor) then Ret None else t ← rd (ttys st) minor; Ret (Some t).

Definition tty_open t : out tty := n ← signed 32 (t_open t + 1); Ret (set_open n t).
Definition tty_close t : tty := if 0 <? t_open t then set_open (t_open t - 1) t else t.

Definition tty_has_input t : bool := negb (in_head t =? in_tail t).

(** The search for a newline, from index [i]. *)
Fixpoint has_line (fuel : nat) i t : out bool :=
  match fuel with
  | O => Hang
  | S fuel =>
      if i =? in_head t then Ret false
      else c ← rd (in_buf t) i; if c =? NEWLINE then Ret true else has_line fuel ((i + 1) mod TTY_BUF) t
  end.

Definition tty_has_line t : out bool := has_line (Z.to_nat TTY_BUF) (in_tail t) t.

Definition tty_poll events t : out Z :=
  let rd_ev := Z.land events (Z.lor POLLIN POLLRDNORM) in
  let wr_ev := Z.land events (Z.lor POLLOUT POLLWRNORM) in
  rev ← (if negb (rd_ev =? 0) then
           if negb (t_icanon t =? 0) then l ← tty_has_line t; Ret (if (l : bool) then rd_ev else 0)
           else Ret (if tty_has_input t then rd_ev else 0)
         else Ret 0);
  Ret (if negb (wr_ev =? 0) then Z.lor rev wr_ev else rev).

Definition tty_poll_waitq t : Z := t_waitq t.

(** Signal characters: the signal of [c], if it is one. *)
Definition special c t : out (option Z) :=
  if t_isig t =? 0 then Ret None
  else
    i ← rd (c_cc (t_term t)) VINTR;
    q ← rd (c_cc (t_term t)) VQUIT;
    s ← rd (c_cc (t_term t)) VSUSP;
    Ret (if negb (c =? 0) && (c =? i) then Some SIGINT
         else if negb (c =? 0) && (c =? q) then Some SIGQUIT
         else if negb (c =? 0) && (c =? s) then Some SIGTSTP else None).

Definition tty_wake_readers t st : out tst := w ← waitq_wake_all (t_waitq t) (tw st); Ret (set_tw w st).

Definition tty_input_char minor c st : out tst :=
  o ← tty_lookup minor st;
  match o with
  | None => Ret st
  | Some t =>
      s ← special c t;
      match s with
      | Some sig => tty_send_signal t sig st
      | None =>
          let next := (in_head t + 1) mod TTY_BUF in
          if next =? in_tail t then Ret st
          else
            let st := if negb (t_echo t =? 0) then debug_putchar c st else st in
            b ← wr (in_buf t) (in_head t) c;
            st ← put_tty minor (set_input b next t) st;
            tty_wake_readers t st
      end
  end.

(** ** Reading and writing *)

(** [waitq_sleep], with what the others do to the terminals meanwhile. *)
Definition tty_sleep (others : tst -> out tst) q p st : out (Z * tst) :=
  r ← waitq_sleep_link q p (tw st);
  match r with
  | inl rc => Ret (rc, st)
  | inr w =>
      w ← waitq_sleep_block p w;
      st ← others (set_tw w st);
      '(rc, w) ← waitq_sleep_leave q p (tw st);
      Ret (rc, set_tw w st)
  end.

(** Input a read can return: any in raw mode, a complete line in canonical
    mode. *)
Definition tty_ready t : out bool :=
  if negb (tty_has_input t) then Ret false
  else if negb (t_icanon t =? 0) then tty_has_line t else Ret true.

(** The loop in front of [tty_read]; each sleep uses up one of [rounds], and
    [Hang] is a reader that still sleeps when they are over. *)
Fixpoint tty_wait (rounds : list (tst -> out tst)) m p st : out (Z * tst) :=
  t ← rd (ttys st) m;
  r ← tty_ready t;
  if (r : bool) then Ret (0, st)
  else
    match rounds with
    | [] => Hang
    | others :: rounds =>
        '(rc, st) ← tty_sleep others (t_waitq t) p st;
        if rc <? 0 then Ret (- ERESTARTSYS, st) else tty_wait rounds m p st
    end.

Fixpoint read_copy (fuel : nat) (count : Z) (acc : list Z) t : out (list Z * tty) :=
  match fuel with
  | O => Hang
  | S fuel =>
      if (Z.of_nat (length acc) <? count) && negb (in_head t =? in_tail t) then
        c ← rd (in_buf t) (in_tail t);
        let t := set_in_tail ((in_tail t + 1) mod TTY_BUF) t in
        if negb (t_icanon t =? 0) && (c =? NEWLINE) then Ret (acc ++ [c], t)
        else read_copy fuel count (acc ++ [c]) t
      else Ret (acc, t)
  end.

(** The bytes that go to the buffer of the caller, with the return value. *)
Definition tty_read rounds m p count st : out (Z * list Z * tst) :=
  '(rc, st) ← tty_wait rounds m p st;
  if rc <? 0 then Ret (rc, [], st)
  else
    t ← rd (ttys st) m;
    '(data, t) ← read_copy (Z.to_nat TTY_BUF) count [] t;
    st ← put_tty m t st;
    Ret (Z.of_nat (length data), data, st).

Definition tty_write (src : list Z) st : Z * tst :=
  if 4096 <? Z.of_nat (length src) then (- EINVAL, st)
  else (Z.of_nat (length src), foldl (fun st c => debug_putchar c st) st src).

(** ** Control *)

(** What [copy_to_user] is given. *)
Inductive uout := OutNone | OutPgrp (pgrp : Z) | OutTerm (x : termios) | OutWin (x : winsize).

(** The loop of TIOCSPGRP. *)
Fixpoint find_group (n : nat) pid pgrp session st : out bool :=
  match n with
  | O => Ret false
  | S n =>
      q ← proc_find pid st;
      if q =? 0 then find_group n (pid + 1) pgrp session st
      else
        x ← ldp q (tw st);
        if (p_pgrp x =? pgrp) && (p_session x =? session) then Ret true
        else find_group n (pid + 1) pgrp session st
  end.

(** [copied]: [copy_to_user] succeeds; [upgrp] and [uterm]: what
    [copy_from_user] reads.  A NULL pointer is a failed copy. *)
Definition tty_ioctl cmd (copied : bool) (upgrp : option Z) (uterm : option termios) self m st :
    out (Z * uout * tst) :=
  t ← rd (ttys st) m;
  if cmd =? TIOCGPGRP then
    Ret (if copied then (0, OutPgrp (t_pgrp t), st) else (- EFAULT, OutNone, st))
  else if cmd =? TIOCSPGRP then
    match upgrp with
    | None => Ret (- EFAULT, OutNone, st)
    | Some pgrp =>
        if pgrp <=? 0 then Ret (- EINVAL, OutNone, st)
        else if self =? 0 then Ret (- ENXIO, OutNone, st)
        else
          x ← ldp self (tw st);
          found ← find_group (Z.to_nat (PROC_MAX - 1)) 1 pgrp (p_session x) st;
          if negb (found : bool) then Ret (- EPERM, OutNone, st)
          else st ← put_tty m (set_pgrp pgrp t) st; Ret (0, OutNone, st)
    end
  else if cmd =? TIOCGETA then
    Ret (if copied then (0, OutTerm (t_term t), st) else (- EFAULT, OutNone, st))
  else if cmd =? TIOCSETA then
    match uterm with
    | None => Ret (- EFAULT, OutNone, st)
    | Some term => st ← put_tty m (tty_apply_lflags (set_term term t)) st; Ret (0, OutNone, st)
    end
  else if cmd =? TIOCGWINSZ then
    Ret (if copied then (0, OutWin (t_winsize t), st) else (- EFAULT, OutNone, st))
  else Ret (- ENOTTY, OutNone, st).

(** ** The input buffer as a list *)

Definition in_count t : Z := (in_head t - in_tail t) mod TTY_BUF.
Definition input t : list Z := ring (in_buf t) (in_tail t) (in_count t).

Record tty_wf t : Prop := {
  tw_buf : Z.of_nat (length (in_buf t)) = TTY_BUF;
  tw_head : 0 <= in_head t < TTY_BUF;
  tw_tail : 0 <= in_tail t < TTY_BUF;
  tw_cc : Z.of_nat (length (c_cc (t_term t))) = NCCS;
}.

Lemma in_buf_ne t : tty_wf t -> in_buf t <> [].
Proof. intros Hw. pose proof (tw_buf _ Hw) as H. destruct (in_buf t); [done|done]. Qed.

Lemma count_range t : 0 <= in_count t < TTY_BUF.
Proof. apply Z.mod_pos_bound. done. Qed.

Lemma length_input t : tty_wf t -> Z.of_nat (length (input t)) = in_count t.
Proof. intros Hw. unfold input. rewrite length_ring by (by apply in_buf_ne). pose proof (count_range t). lia. Qed.

Lemma count_zero h i : 0 <= h < TTY_BUF -> 0 <= i < TTY_BUF -> (h - i) mod TTY_BUF = 0 <-> i = h.
Proof.
  intros Hh Hi. unfold TTY_BUF in *. split; intros E; [|subst; by rewrite Z.sub_diag].
  apply Z.mod_divide in E as [k Hk]; lia.
Qed.

(** Moving one index on towards the head. *)
Lemma count_pred h i : 0 <= h < TTY_BUF -> 0 <= i < TTY_BUF -> i <> h ->
  0 < (h - i) mod TTY_BUF /\ (h - (i + 1) mod TTY_BUF) mod TTY_BUF = (h - i) mod TTY_BUF - 1.
Proof.
  intros Hh Hi Hne. pose proof (Z.mod_pos_bound (h - i) TTY_BUF ltac:(done)) as Hb.
  assert ((h - i) mod TTY_BUF <> 0) by (rewrite count_zero by done; done). split; [lia|].
  rewrite Zminus_mod_idemp_r. replace (h - (i + 1)) with ((h - i) - 1) by lia.
  rewrite <- Zminus_mod_idemp_l. apply Z.mod_small. lia.
Qed.

Lemma input_pop t : tty_wf t -> in_tail t <> in_head t -> exists c, getz (in_buf t) (in_tail t) = Some c /\
  let t' := set_in_tail ((in_tail t + 1) mod TTY_BUF) t in
  input t = c :: input t' /\ tty_wf t' /\ in_count t' = in_count t - 1.
Proof.
  intros Hw Hne. destruct (count_pred _ _ (tw_head _ Hw) (tw_tail _ Hw) Hne) as [Hpos Hc].
  destruct (ring_pop (in_buf t) (in_tail t) (in_count t)) as (c & Hg & Hr); [by rewrite (tw_buf _ Hw); apply Hw|done|].
  exists c. split; [done|]. rewrite (tw_buf _ Hw) in Hr. split; [|split].
  - unfold input at 1. rewrite Hr. unfold input, in_count. simpl. by rewrite Hc.
  - destruct Hw. split; try done. simpl. by apply Z.mod_pos_bound.
  - unfold in_count. simpl. done.
Qed.

Lemma input_nil t : tty_wf t -> input t = [] <-> in_tail t = in_head t.
Proof.
  intros Hw. rewrite <- (count_zero (in_head t)) by apply Hw. fold (in_count t). rewrite <- (length_input _ Hw).
  destruct (input t); simpl; split; (done || lia).
Qed.

Lemma has_line_spec fuel : forall i t, tty_wf (set_in_tail i t) -> in_count (set_in_tail i t) < Z.of_nat fuel ->
  has_line fuel i t = Ret (bool_decide (NEWLINE ∈ input (set_in_tail i t))).
Proof.
  induction fuel as [|fuel IH]; intros i t Hw Hf; [pose proof (count_range (set_in_tail i t)); lia|].
  cbn [has_line]. destruct (Z.eqb_spec i (in_head t)) as [->|Hne].
  - rewrite (proj2 (input_nil _ Hw)) by done. rewrite bool_decide_false by apply not_elem_of_nil. done.
  - destruct (input_pop _ Hw Hne) as (c & Hg & Hr & Hw' & Hc). simpl in Hg. rewrite (rd_getz _ _ _ Hg). ret.
    rewrite Hr. destruct (Z.eqb_spec c NEWLINE) as [->|Hcn]; [by rewrite bool_decide_true by (by left)|].
    rewrite (IH _ t); [|done|unfold in_count in *; simpl in *; lia].
    f_equal. apply bool_decide_ext. change (set_in_tail _ (set_in_tail i t)) with (set_in_tail ((i + 1) mod TTY_BUF) t).
    rewrite elem_of_cons. split; [by right|]. intros [E|]; [congruence|done].
Qed.

Lemma tty_has_line_spec t : tty_wf t -> tty_has_line t = Ret (bool_decide (NEWLINE ∈ input t)).
Proof.
  intros Hw. unfold tty_has_line. rewrite has_line_spec; [by destruct t|by destruct t|].
  pose proof (count_range (set_in_tail (in_tail t) t)). unfold TTY_BUF in *. lia.
Qed.

(** Up to and with the first newline. *)
Fixpoint upto_nl (l : list Z) : list Z :=
  match l with [] => [] | c :: l => c :: if c =? NEWLINE then [] else upto_nl l end.

Definition readable t : list Z := if negb (t_icanon t =? 0) then upto_nl (input t) else input t.

Lemma read_copy_spec fuel : forall count acc t, tty_wf t -> in_count t < Z.of_nat fuel -> Z.of_nat (length acc) <= count ->
  returns (read_copy fuel count acc t) (fun '(data, t') => exists d,
    data = acc ++ d /\ d = take (Z.to_nat (count - Z.of_nat (length acc))) (readable t) /\
    input t' = drop (length d) (input t) /\ tty_wf t' /\ t' = set_in_tail (in_tail t') t).
Proof.
  induction fuel as [|fuel IH]; intros count acc t Hw Hf Ha; [pose proof (count_range t); lia|]. cbn [read_copy].
  assert (t = set_in_tail (in_tail t) t) as Et by (by destruct t).
  destruct (Z.ltb_spec (Z.of_nat (length acc)) count) as [Hlt|Hge]; simpl andb.
  2:{ ret. exists []. rewrite app_nil_r. replace (Z.to_nat _) with 0%nat by lia. by rewrite take_0. }
  destruct (Z.eqb_spec (in_head t) (in_tail t)) as [Eh|Hne]; simpl negb.
  { ret. exists []. rewrite app_nil_r. assert (readable t = []) as ->.
    { unfold readable. rewrite (proj2 (input_nil _ Hw)) by done. by destruct (t_icanon t =? 0). }
    by rewrite take_nil. }
  destruct (input_pop _ Hw (not_eq_sym Hne)) as (c & Hg & Hr & Hw' & Hc). rewrite (rd_getz _ _ _ Hg). ret.
  clear Et. set (t' := set_in_tail ((in_tail t + 1) mod TTY_BUF) t) in *. change (t_icanon t') with (t_icanon t).
  replace (Z.to_nat (count - Z.of_nat (length acc))) with (S (Z.to_nat (count - Z.of_nat (length (acc ++ [c])))))
    by (rewrite length_app; simpl; lia).
  destruct (negb (t_icanon t =? 0) && (c =? NEWLINE)) eqn:Eb.
  - ret. exists [c]. apply andb_prop in Eb as [Ei Ec]. unfold readable. rewrite Ei, Hr. simpl. rewrite Ec, take_nil.
    split; [done|]. split; [done|]. split; [by rewrite drop_0|]. done.
  - eapply returns_mono; [apply (IH count (acc ++ [c]) t' Hw'); [lia|rewrite length_app; simpl; lia]|].
    intros [data t''] (d & -> & Hd & Hi & Hw'' & Ht). exists (c :: d). rewrite <- app_assoc. split; [done|]. split; [|split; [|split]].
    + assert (readable t = c :: readable t') as ->; [|simpl; by rewrite Hd].
      unfold readable. change (t_icanon t') with (t_icanon t). rewrite Hr. destruct (t_icanon t =? 0); simpl in *; [done|by rewrite Eb].
    + rewrite Hr. done.
    + done.
    + rewrite Ht. by destruct t.
Qed.

(** ** Ready or not *)

(** A read does not wait. *)
Definition ready t : Prop := if negb (t_icanon t =? 0) then NEWLINE ∈ input t else input t <> [].

#[export] Instance ready_dec t : Decision (ready t).
Proof. unfold ready. destruct (negb _); apply _. Defined.

Lemma ready_bool t : tty_wf t -> bool_decide (ready t) =
  if negb (t_icanon t =? 0) then bool_decide (NEWLINE ∈ input t) else negb (in_head t =? in_tail t).
Proof.
  intros Hw. pose proof (input_nil t Hw) as Hn. destruct (t_icanon t =? 0) eqn:E; cbn [negb].
  - destruct (Z.eqb_spec (in_head t) (in_tail t)); [apply bool_decide_eq_false|apply bool_decide_eq_true];
      unfold ready; rewrite E; cbn [negb]; rewrite Hn; congruence.
  - apply bool_decide_ext. unfold ready. by rewrite E.
Qed.

Lemma tty_ready_spec t : tty_wf t -> tty_ready t = Ret (bool_decide (ready t)).
Proof.
  intros Hw. unfold tty_ready, tty_has_input. rewrite (ready_bool t Hw), (tty_has_line_spec t Hw).
  destruct (Z.eqb_spec (in_head t) (in_tail t)) as [E|Hne]; cbn [negb]; [|by destruct (t_icanon t =? 0)].
  rewrite (proj2 (input_nil t Hw)) by done. by destruct (t_icanon t =? 0).
Qed.

(** [tty_poll] reports input exactly when a read would not wait, and output
    always. *)
Lemma tty_poll_spec events t : tty_wf t ->
  tty_poll events t = Ret (Z.land events
    (Z.lor (if bool_decide (ready t) then Z.lor POLLIN POLLRDNORM else 0) (Z.lor POLLOUT POLLWRNORM))).
Proof.
  intros Hw. unfold tty_poll, tty_has_input. cbv zeta. rewrite (tty_has_line_spec t Hw).
  set (r := Z.land events (Z.lor POLLIN POLLRDNORM)). set (v := Z.land events (Z.lor POLLOUT POLLWRNORM)).
  assert (forall x, Z.lor x v = if negb (v =? 0) then Z.lor x v else x) as Hv.
  { intros x. destruct (Z.eqb_spec v 0) as [->|]; [by rewrite Z.lor_0_r|done]. }
  assert ((if negb (r =? 0) then if negb (t_icanon t =? 0) then l ← Ret (bool_decide (NEWLINE ∈ input t)); Ret (if (l : bool) then r else 0)
           else Ret (if negb (in_head t =? in_tail t) then r else 0) else Ret 0) =
          Ret (Z.land events (if bool_decide (ready t) then Z.lor POLLIN POLLRDNORM else 0))) as ->;
    [|ret; f_equal; rewrite Z.land_lor_distr_r; symmetry; apply Hv].
  assert (forall b : bool, Z.land events (if b then Z.lor POLLIN POLLRDNORM else 0) = if b then r else 0) as Hb
    by (intros [|]; [done|apply Z.land_0_r]). rewrite Hb.
  rewrite (ready_bool t Hw). destruct (Z.eqb_spec r 0) as [->|]; cbn [negb]; [by destruct (if negb _ then _ else _)|].
  by destruct (t_icanon t =? 0).
Qed.

(** ** Characters *)

Lemma special_ok c t : tty_wf t -> returns (special c t) (fun _ => True).
Proof.
  intros Hw. unfold special. destruct (t_isig t =? 0); [done|]. pose proof (tw_cc _ Hw) as Hc. unfold NCCS in Hc.
  destruct (getz_lt (c_cc (t_term t)) VINTR) as [a Ha]; [unfold VINTR; lia|].
  destruct (getz_lt (c_cc (t_term t)) VQUIT) as [b Hb]; [unfold VQUIT; lia|].
  destruct (getz_lt (c_cc (t_term t)) VSUSP) as [d Hd]; [unfold VSUSP; lia|].
  by rewrite (rd_getz _ _ _ Ha), (rd_getz _ _ _ Hb), (rd_getz _ _ _ Hd).
Qed.

Lemma input_push t c : tty_wf t -> (in_head t + 1) mod TTY_BUF <> in_tail t ->
  let t' := set_input (<[Z.to_nat (in_head t) := c]> (in_buf t)) ((in_head t + 1) mod TTY_BUF) t in
  tty_wf t' /\ input t' = input t ++ [c].
Proof.
  intros Hw Hne t'. pose proof (count_range t) as Hr. pose proof (tw_buf _ Hw) as Hb.
  assert ((in_head t + 1 - in_tail t) mod TTY_BUF <> 0) as Hn0.
  { rewrite <- Zminus_mod_idemp_l. rewrite count_zero; [congruence|by apply Z.mod_pos_bound|apply Hw]. }
  assert (in_count t' = in_count t + 1 /\ in_count t < TTY_BUF - 1) as [Hc Hl].
  { unfold in_count in *. simpl. rewrite Zminus_mod_idemp_l. revert Hn0.
    replace (in_head t + 1 - in_tail t) with (in_head t - in_tail t + 1) by lia. rewrite <- Zplus_mod_idemp_l.
    intros Hn0. destruct (decide ((in_head t - in_tail t) mod TTY_BUF = TTY_BUF - 1)) as [E|E]; [by rewrite E in Hn0|].
    rewrite Z.mod_small by lia. lia. }
  split; [destruct Hw; split; try done; simpl; [by rewrite length_insert|by apply Z.mod_pos_bound]|].
  unfold input at 1. rewrite Hc. unfold input. cbn [in_buf in_tail t' set_input].
  assert (in_head t = ring_idx (in_buf t) (in_tail t) (Z.to_nat (in_count t))) as Eh.
  { unfold ring_idx. rewrite Hb, Z2Nat.id by lia. unfold in_count. rewrite Zplus_mod_idemp_r.
    replace (in_tail t + (in_head t - in_tail t)) with (in_head t) by lia. symmetry. apply Z.mod_small, Hw. }
  rewrite Eh at 1. apply ring_push. lia.
Qed.

Lemma input_full t : tty_wf t -> (in_head t + 1) mod TTY_BUF = in_tail t <-> Z.of_nat (length (input t)) = TTY_BUF - 1.
Proof.
  intros Hw. rewrite (length_input _ Hw). unfold in_count.
  pose proof (tw_head _ Hw). pose proof (tw_tail _ Hw). unfold TTY_BUF in *. split; intros E.
  - rewrite <- E, Zminus_mod_idemp_r. by replace (in_head t - (in_head t + 1)) with (-1) by lia.
  - pose proof (Z.div_mod (in_head t - in_tail t) 256 ltac:(done)) as Hd. rewrite E in Hd.
    replace (in_head t + 1) with (in_tail t + ((in_head t - in_tail t) / 256 + 1) * 256) by lia.
    rewrite Z.mod_add by lia. by apply Z.mod_small.
Qed.

(** ** Signals to the foreground group *)

Context `{!SchedLaws K}.

(** What delivery does not change about a process. *)
Definition ident (x : proc) := (p_pid x, p_ppid x, p_pgrp x, p_session x, p_waitq x, p_thread x, sig_blocked x).

Definition pend st p : option (list Z) := sig_pending <$> procs (tw st) !! p.

(** A live process: it has a thread, its own wait queue and a valid id. *)
Definition live_ok (w : wst (K := K)) (Q : gmap Z (list Z)) p : Prop := p <> 0 /\ exists x, procs w !! p = Some x /\
  p_thread x <> 0 /\ length (sig_pending x) = Z.to_nat NSIG /\ is_Some (Q !! p_waitq x) /\ 1 <= p_pid x < PROC_MAX.

Record procs_ok st Q : Prop := {
  po_rep : wq_rep (tw st) Q;
  po_live p : p ∈ live_list st -> live_ok (tw st) Q p;
  po_pid p q x y : p ∈ live_list st -> q ∈ live_list st -> procs (tw st) !! p = Some x -> procs (tw st) !! q = Some y ->
    p_pid x = p_pid y -> p = q;
}.

(** A step of delivery: only pending signals, states and queues change. *)
Record delivered st st' (Q Q' : gmap Z (list Z)) : Prop := {
  de_rep : wq_rep (tw st') Q';
  de_dom : dom Q' = dom Q;
  de_ident p : ident <$> procs (tw st') !! p = ident <$> procs (tw st) !! p;
  de_len p : length <$> pend st' p = length <$> pend st p;
  de_rest : ttys st' = ttys st /\ live_list st' = live_list st /\ console st' = console st;
}.

Lemma delivered_refl st Q : wq_rep (tw st) Q -> delivered st st Q Q.
Proof. by split. Qed.

Lemma delivered_trans st1 st2 st3 Q1 Q2 Q3 : delivered st1 st2 Q1 Q2 -> delivered st2 st3 Q2 Q3 -> delivered st1 st3 Q1 Q3.
Proof.
  intros [a1 b1 c1 d1 (e1 & f1 & g1)] [a2 b2 c2 d2 (e2 & f2 & g2)]. split; try done.
  - by rewrite b2. - intros p. by rewrite c2. - intros p. by rewrite d2. - by rewrite e2, f2, g2.
Qed.

Lemma woken_delivered W st w' Q Q' : woken W (tw st) w' -> wq_rep w' Q' -> dom Q' = dom Q ->
  delivered st (set_tw w' st) Q Q' /\ forall p, pend (set_tw w' st) p = pend st p.
Proof.
  intros (Hq & _) Hr Hd.
  assert (forall A (g : proc -> A) p, (forall z, g (base z) = g z) -> (forall z, g (awake z) = g z) ->
    g <$> procs w' !! p = g <$> procs (tw st) !! p) as Hf.
  { intros A g p Hg1 Hg2. specialize (Hq p). destruct (procs w' !! p) as [y|], (procs (tw st) !! p) as [x|]; try done.
    apply (inj Some) in Hq. simpl. f_equal. rewrite <- (Hg1 y), Hq. destruct (decide (p ∈ W)); by rewrite ?Hg2, ?Hg1. }
  assert (forall p, pend (set_tw w' st) p = pend st p) as Hp
    by (intros p; apply Hf; [done|intros z; unfold awake; by destruct (p_state z =? PRS_SLEEP)]).
  split; [|done]. split; try done.
  - intros p. apply Hf; [done|]. intros z. unfold awake. by destruct (p_state z =? PRS_SLEEP).
  - intros p. by rewrite Hp.
Qed.

Lemma delivered_procs_ok st st' Q Q' : procs_ok st Q -> delivered st st' Q Q' -> procs_ok st' Q'.
Proof.
  intros [Hr Hl Hu] [Hr' Hd Hi Hlen (_ & El & _)].
  assert (forall p x, procs (tw st') !! p = Some x -> exists y, procs (tw st) !! p = Some y /\ ident x = ident y /\
    length (sig_pending x) = length (sig_pending y)) as Hx.
  { intros p x Hx. specialize (Hi p). specialize (Hlen p). unfold pend in Hlen. rewrite Hx in Hi, Hlen.
    destruct (procs (tw st) !! p) as [y|]; [|done]. exists y. split; [done|]. simpl in *. split; congruence. }
  split; [done| |].
  - intros p Hp. rewrite El in Hp. destruct (Hl p Hp) as (H0 & y & Hy & Ht & Hs & HQ & Hpid). split; [done|].
    specialize (Hi p). specialize (Hlen p). unfold pend in Hlen. rewrite Hy in Hi, Hlen.
    destruct (procs (tw st') !! p) as [x|]; [|done]. exists x. apply (inj Some) in Hi, Hlen. injection Hi as E1 E2 E3 E4 E5 E6 E7.
    rewrite E1, E5, E6. simpl in Hlen. rewrite Hlen. repeat split; try done; try apply Hpid.
    apply elem_of_dom. rewrite Hd. by apply elem_of_dom.
  - intros p q x y Hp Hq Hx' Hy' E. rewrite El in Hp, Hq. destruct (Hx p x Hx') as (x0 & Hx0 & E1 & _).
    destruct (Hx q y Hy') as (y0 & Hy0 & E2 & _). apply (Hu p q x0 y0); try done. injection E1. injection E2. congruence.
Qed.

Lemma find_pid_spec l pid (w : wst (K := K)) : (forall p, p ∈ l -> p <> 0 /\ is_Some (procs w !! p)) ->
  returns (find_pid l pid w) (fun p =>
    (p = 0 /\ forall q x, q ∈ l -> procs w !! q = Some x -> p_pid x <> pid) \/
    (p ∈ l /\ p_pid <$> procs w !! p = Some pid)).
Proof.
  induction l as [|p l IH]; intros Hl; simpl.
  - left. split; [done|]. intros q x Hq. by apply elem_of_nil in Hq.
  - destruct (Hl p) as (H0 & [x Hx]); [by left|]. unfold ldp. rewrite Hx. ret. destruct (Z.eqb_spec (p_pid x) pid) as [<-|Hne].
    + right. split; [by left|by rewrite Hx].
    + eapply returns_mono; [apply IH; intros q Hq; apply Hl; by right|]. intros r [[-> Hn]|[Hr Hp]]; [left|right; split; [by right|done]].
      split; [done|]. intros q y [->|Hq]%elem_of_cons Hy; [congruence|by eapply Hn].
Qed.

Lemma proc_find_spec pid st Q : procs_ok st Q -> 1 <= pid < PROC_MAX ->
  returns (proc_find pid st) (fun p =>
    (p = 0 /\ forall q x, q ∈ live_list st -> procs (tw st) !! q = Some x -> p_pid x <> pid) \/
    (p <> 0 /\ p ∈ live_list st /\ p_pid <$> procs (tw st) !! p = Some pid)).
Proof.
  intros Hok Hp. unfold proc_find. zcmp. eapply returns_mono; [apply find_pid_spec|].
  - intros p Hin. destruct (po_live _ _ Hok p Hin) as (H0 & x & Hx & _). split; [done|by rewrite Hx].
  - intros p [H|[Hin H]]; [by left|right]. split; [apply (po_live _ _ Hok p Hin)|done].
Qed.

Lemma updp_delivered p f x st Q : wq_rep (tw st) Q -> procs (tw st) !! p = Some x -> ident (f x) = ident x ->
  wait_next (f x) = wait_next x -> length (sig_pending (f x)) = length (sig_pending x) ->
  let st' := set_tw (set_procs (<[p := f x]> (procs (tw st))) (tw st)) st in
  delivered st st' Q Q /\ forall q, pend st' q = if decide (q = p) then Some (sig_pending (f x)) else pend st q.
Proof.
  intros Hr Hx Hi Hn Hl st'. assert (forall q, pend st' q = if decide (q = p) then Some (sig_pending (f x)) else pend st q) as Hp.
  { intros q. unfold pend. simpl. destruct (decide (q = p)) as [->|Hne]; [by rewrite lookup_insert_eq|by rewrite lookup_insert_ne]. }
  split; [|done]. split; try done.
  - by apply updp_rep.
  - intros q. simpl. destruct (decide (q = p)) as [->|Hne]; [rewrite lookup_insert_eq, Hx; simpl; by rewrite Hi|by rewrite lookup_insert_ne].
  - intros q. rewrite Hp. destruct (decide (q = p)) as [->|]; [|done]. unfold pend. rewrite Hx. simpl. by rewrite Hl.
Qed.

(** [waitq_wake_all] on an existing queue. *)
Lemma wake_delivered q st Q : wq_rep (tw st) Q -> is_Some (Q !! q) ->
  returns (waitq_wake_all q (tw st)) (fun w' => exists Q', delivered st (set_tw w' st) Q Q' /\
    forall p, pend (set_tw w' st) p = pend st p).
Proof.
  intros Hr [l Hl]. eapply returns_mono; [by apply (waitq_wake_all_spec q l)|]. intros w' [Hr' Hw].
  exists (<[q := []]> Q). apply (woken_delivered l); [done|done|]. rewrite dom_insert_L. apply elem_of_dom_2 in Hl. set_solver.
Qed.

Lemma proc_find_any pid st Q : procs_ok st Q -> returns (proc_find pid st) (fun p => p = 0 \/ p ∈ live_list st).
Proof.
  intros Hok. destruct (decide (1 <= pid < PROC_MAX)) as [Hp|Hp].
  - eapply returns_mono; [by apply (proc_find_spec pid st Q)|]. intros p [[-> _]|(_ & Hin & _)]; tauto.
  - unfold proc_find. replace ((pid <=? 0) || (PROC_MAX <=? pid)) with true; [by left|]. symmetry. apply orb_true_iff.
    rewrite !Z.leb_le. lia.
Qed.

Lemma wake_parent_spec p st Q : procs_ok st Q -> p ∈ live_list st ->
  returns (wake_parent p st) (fun st' => exists Q', delivered st st' Q Q' /\ forall q, pend st' q = pend st q).
Proof.
  intros Hok Hp. destruct (po_live _ _ Hok p Hp) as (_ & x & Hx & _). unfold wake_parent, ldp. rewrite Hx. ret.
  eapply returns_bind; [by apply (proc_find_any _ st Q)|]. intros q Hq. destruct (Z.eqb_spec q 0) as [->|Hne].
  - ret. exists Q. split; [by apply delivered_refl, Hok|done].
  - destruct Hq as [->|Hq]; [done|]. destruct (po_live _ _ Hok q Hq) as (_ & y & Hy & _ & _ & HQ & _). rewrite Hy. ret.
    eapply returns_bind; [by apply (wake_delivered _ st Q); [apply Hok|]|]. intros w' H. ret. done.
Qed.

(** What a member of the group gets. *)
Definition marked p sig st st' : Prop :=
  forall q, pend st' q = if decide (q = p) then <[Z.to_nat sig := 1]> <$> pend st p else pend st q.

Lemma proc_wakeup_delivered p st Q : procs_ok st Q -> p ∈ live_list st ->
  returns (proc_wakeup p (tw st)) (fun w' => delivered st (set_tw w' st) Q Q /\ forall q, pend (set_tw w' st) q = pend st q).
Proof.
  intros Hok Hp. destruct (po_live _ _ Hok p Hp) as (H0 & x & Hx & Ht & _).
  eapply returns_mono; [apply (proc_wakeup_spec p x (tw st) Q); try done; apply Hok|]. intros w' [Hr Hw].
  by apply (woken_delivered [p]).
Qed.

Lemma marked_then p sig st st1 st2 : marked p sig st st1 -> (forall q, pend st2 q = pend st1 q) -> marked p sig st st2.
Proof. intros H1 H2 q. rewrite H2. apply H1. Qed.

Lemma signal_member_spec p sig st Q : procs_ok st Q -> p ∈ live_list st -> 1 <= sig < NSIG ->
  returns (signal_member p sig st) (fun st' => exists Q', delivered st st' Q Q' /\ marked p sig st st').
Proof.
  intros Hok Hp Hs. destruct (po_live _ _ Hok p Hp) as (H0 & x & Hx & Ht & Hl & HQ & _). unfold signal_member, ldp.
  rewrite Hx. ret. rewrite wr_ok by (rewrite Hl; unfold NSIG in *; lia). ret.
  rewrite (updp_ok _ _ _ _ Hx). ret. set (l := <[_ := 1]> (sig_pending x)). set (st1 := set_tw _ st).
  destruct (updp_delivered p (set_pending l) x st Q) as [Hd1 Hm1]; try done; [apply Hok|simpl; apply length_insert|].
  fold st1 in Hd1, Hm1. assert (marked p sig st st1) as Hm.
  { intros q. rewrite Hm1. unfold pend at 2. by rewrite Hx. }
  assert (returns (if (sig =? SIGTSTP) || (sig =? SIGSTOP) then
            w ← updp p (fun x => set_job PRS_STOPPED 1 (u8 sig) (p_continued x) x) (tw st1); wake_parent p (set_tw w st1)
          else Ret st1) (fun st2 => exists Q2, delivered st st2 Q Q2 /\ marked p sig st st2)) as Hjob.
  { destruct (_ || _); [|ret; by exists Q]. set (f := fun x => set_job PRS_STOPPED 1 (u8 sig) (p_continued x) x).
    assert (procs (tw st1) !! p = Some (set_pending l x)) as Hx1 by apply lookup_insert_eq. rewrite (updp_ok _ _ _ _ Hx1). ret.
    destruct (updp_delivered p f (set_pending l x) st1 Q) as [Hd2 Hm2]; try done; [apply Hd1|].
    set (st2 := set_tw _ st1) in *. pose proof (delivered_trans _ _ _ _ _ _ Hd1 Hd2) as Hd.
    eapply returns_mono; [apply (wake_parent_spec p st2 Q); [by eapply delivered_procs_ok|done]|].
    intros st3 (Q3 & Hd3 & Hp3). exists Q3. split; [by eapply delivered_trans|]. eapply marked_then; [|done].
    eapply marked_then; [done|]. intros q. rewrite Hm2. destruct (decide (q = p)) as [->|]; [|done]. unfold pend. by rewrite Hx1. }
  destruct ((sig =? SIGINT) || (sig =? SIGQUIT) || (sig =? SIGTSTP)).
  - eapply returns_bind; [exact Hjob|]. intros st2 (Q2 & Hd2 & Hm2). pose proof (delivered_procs_ok _ _ _ _ Hok Hd2) as Hok2.
    assert (p ∈ live_list st2) as Hp2 by (destruct (de_rest _ _ _ _ Hd2) as (_ & -> & _); done).
    eapply returns_bind; [by apply (proc_wakeup_delivered p st2 Q2)|]. intros w3 [Hd3 Hp3].
    pose proof (delivered_procs_ok _ _ _ _ Hok2 Hd3) as Hok3.
    destruct (po_live _ _ Hok3 p Hp2) as (_ & y & Hy & _ & _ & HQy & _). cbn [tw set_tw] in Hy. rewrite Hy. ret.
    eapply returns_bind; [apply (wake_delivered _ (set_tw w3 st2) Q2); [apply Hok3|done]|]. intros w4 (Q4 & Hd4 & Hp4). ret.
    exists Q4. split; [eapply delivered_trans; [done|]; by eapply delivered_trans|].
    eapply marked_then; [done|]. intros q. transitivity (pend (set_tw w3 st2) q); [apply Hp4|apply Hp3].
  - pose proof (delivered_procs_ok _ _ _ _ Hok Hd1) as Hok1.
    eapply returns_bind; [by apply (proc_wakeup_delivered p st1 Q)|]. intros w3 [Hd3 Hp3]. ret. exists Q.
    split; [by eapply delivered_trans|by eapply marked_then].
Qed.

(** The live processes of group [g] with an id below [n]. *)
Definition hit (g n : Z) st q : bool :=
  bool_decide (q ∈ live_list st) &&
  match procs (tw st) !! q with Some x => (p_pgrp x =? g) && (p_pid x <? n) | None => false end.

Definition marked_below g n sig st st' : Prop :=
  forall q, pend st' q = if hit g n st q then <[Z.to_nat sig := 1]> <$> pend st q else pend st q.

(** The process with id [n], seen from the state before the loop. *)
Lemma hit_next g n st Q q x : procs_ok st Q -> q ∈ live_list st -> procs (tw st) !! q = Some x -> p_pid x = n ->
  hit g n st q = false /\ hit g (n + 1) st q = (p_pgrp x =? g) /\
  forall r, r <> q -> hit g (n + 1) st r = hit g n st r.
Proof.
  intros Hok Hq Hx Hn. unfold hit. rewrite Hx, (bool_decide_true (q ∈ _)) by done. subst n. split; [|split].
  - rewrite Z.ltb_irrefl. by rewrite andb_false_r.
  - zcmp. by rewrite andb_true_r.
  - intros r Hr. destruct (procs (tw st) !! r) as [y|] eqn:Hy; [|done]. destruct (bool_decide (r ∈ live_list st)) eqn:E; [|done].
    apply bool_decide_eq_true in E. assert (p_pid y <> p_pid x) by (intros E'; apply Hr; by apply (po_pid _ _ Hok r q y x)).
    do 2 f_equal. destruct (Z.ltb_spec (p_pid y) (p_pid x)), (Z.ltb_spec (p_pid y) (p_pid x + 1)); lia || done.
Qed.

Lemma tty_send_signal_spec t sig st Q : procs_ok st Q -> t_pgrp t <> 0 -> 1 <= sig < NSIG ->
  returns (tty_send_signal t sig st) (fun st' => exists Q', delivered st st' Q Q' /\
    marked_below (t_pgrp t) PROC_MAX sig st st').
Proof.
  intros Hok Hg Hs. unfold tty_send_signal. zcmp. set (g := t_pgrp t) in *.
  apply (for_range_inv (fun n st' => exists Q', delivered st st' Q Q' /\ marked_below g n sig st st') 1 PROC_MAX).
  - exists Q. split; [apply delivered_refl, Hok|]. intros q. unfold hit. destruct (procs (tw st) !! q) as [x|] eqn:Hx; [|by rewrite andb_false_r].
    destruct (bool_decide (q ∈ live_list st)) eqn:E; [|done]. apply bool_decide_eq_true in E.
    destruct (po_live _ _ Hok q E) as (_ & y & Hy & _ & _ & _ & Hp). assert (x = y) as -> by congruence.
    replace (p_pid y <? 1) with false by (symmetry; apply Z.ltb_ge; lia). by rewrite andb_false_r.
  - intros n st' Hn (Q' & Hd & Hm). pose proof (delivered_procs_ok _ _ _ _ Hok Hd) as Hok'.
    pose proof (de_ident _ _ _ _ Hd) as Hid. destruct (de_rest _ _ _ _ Hd) as (_ & El & _).
    eapply returns_bind; [apply (proc_find_spec n st' Q'); [done|unfold PROC_MAX in *; lia]|].
    intros p [[-> Hno]|(H0 & Hp & Hpid)].
    + ret. exists Q'. split; [done|]. intros q. rewrite Hm. replace (hit g (n + 1) st q) with (hit g n st q); [done|].
      unfold hit. destruct (procs (tw st) !! q) as [x|] eqn:Hx; [|done]. destruct (bool_decide (q ∈ live_list st)) eqn:E; [|done].
      apply bool_decide_eq_true in E. specialize (Hid q). rewrite Hx in Hid.
      destruct (procs (tw st') !! q) as [y|] eqn:Hy; [|done]. apply (inj Some) in Hid. injection Hid as E1 _.
      rewrite <- El in E. pose proof (Hno q y E Hy). simpl. f_equal.
      destruct (Z.ltb_spec (p_pid x) n), (Z.ltb_spec (p_pid x) (n + 1)); lia || done.
    + zcmp. destruct (procs (tw st') !! p) as [y|] eqn:Hy; [|done]. unfold ldp. rewrite Hy. ret. apply (inj Some) in Hpid.
      specialize (Hid p). rewrite Hy in Hid. destruct (procs (tw st) !! p) as [x|] eqn:Hx; [|done].
      apply (inj Some) in Hid. injection Hid as E1 _ E3 _ _ _ _. rewrite E3. rewrite El in Hp.
      destruct (hit_next g n st Q p x Hok Hp Hx) as (Hh0 & Hh1 & Hh2); [congruence|].
      destruct (Z.eqb_spec (p_pgrp x) g) as [Eg|Eg]; cbn [negb].
      * rewrite <- El in Hp. eapply returns_mono; [by apply (signal_member_spec p sig st' Q')|]. intros st2 (Q2 & Hd2 & Hm2).
        exists Q2. split; [by eapply delivered_trans|]. intros q. rewrite Hm2. destruct (decide (q = p)) as [->|Hne].
        -- rewrite Hh1, Hm, Hh0. done.
        -- by rewrite Hm, Hh2.
      * ret. exists Q'. split; [done|]. intros q. rewrite Hm. destruct (decide (q = p)) as [->|Hne]; [by rewrite Hh0, Hh1|by rewrite Hh2].
Qed.

(** ** Setting the foreground group *)

Lemma find_group_spec st Q pgrp session n : forall pid, procs_ok st Q -> 1 <= pid -> pid + Z.of_nat n = PROC_MAX ->
  returns (find_group n pid pgrp session st) (fun b => b = true <->
    exists q x, q ∈ live_list st /\ procs (tw st) !! q = Some x /\ pid <= p_pid x /\ p_pgrp x = pgrp /\ p_session x = session).
Proof.
  induction n as [|n IH]; intros pid Hok Hp Hn; cbn [find_group].
  - ret. split; [done|]. intros (q & x & Hq & Hx & Hge & _). destruct (po_live _ _ Hok q Hq) as (_ & y & Hy & _ & _ & _ & Hpy).
    assert (x = y) as -> by congruence. lia.
  - assert ((forall q x, q ∈ live_list st -> procs (tw st) !! q = Some x -> p_pid x = pid ->
      p_pgrp x = pgrp -> p_session x = session -> False) ->
      returns (find_group n (pid + 1) pgrp session st) (fun b => b = true <->
        exists q x, q ∈ live_list st /\ procs (tw st) !! q = Some x /\ pid <= p_pid x /\ p_pgrp x = pgrp /\ p_session x = session)) as Hrest.
    { intros Hno. eapply returns_mono; [apply (IH (pid + 1)); [done|lia|lia]|]. intros b ->.
      split; intros (q & x & Hq & Hx & Hge & Hg & Hs); exists q, x; repeat split; try done; [lia|].
      destruct (decide (p_pid x = pid)); [by destruct (Hno q x)|lia]. }
    eapply returns_bind; [apply (proc_find_spec pid st Q); [done|lia]|]. intros p [[-> Hno]|(H0 & Hin & Hpid)].
    + apply Hrest. intros q x Hq Hx E _ _. by apply (Hno q x).
    + zcmp. destruct (procs (tw st) !! p) as [y|] eqn:Hy; [|done]. unfold ldp. rewrite Hy. ret. apply (inj Some) in Hpid.
      destruct ((p_pgrp y =? pgrp) && (p_session y =? session)) eqn:E.
      * ret. apply andb_prop in E as [E1%Z.eqb_eq E2%Z.eqb_eq]. split; [|done]. intros _. exists p, y. repeat split; try done. lia.
      * apply Hrest. intros q x Hq Hx Ep Eg Es. assert (q = p) as -> by (apply (po_pid _ _ Hok q p x y); try done; congruence).
        assert (x = y) as -> by congruence. subst. by rewrite !Z.eqb_refl in E.
Qed.

(** ** Results *)

(** The state with terminal [m] changed. *)
Definition with_tty m t st : tst := TSt (<[Z.to_nat m := t]> (ttys st)) (live_list st) (tw st) (console st).

Lemma tty_wait_ready rounds m p t st : getz (ttys st) m = Some t -> tty_wf t -> ready t ->
  tty_wait rounds m p st = Ret (0, st).
Proof.
  intros Ht Hw Hr. pose proof (tty_ready_spec t Hw) as E. rewrite bool_decide_true in E by done.
  destruct rounds; cbn [tty_wait]; rewrite (rd_getz _ _ _ Ht); ret; by rewrite E.
Qed.

(** A reader that finds nothing to return sleeps first: without anything else
    happening it sleeps for ever, otherwise it looks again, or gives up if a
    signal woke it. *)
Lemma tty_read_waits m p count t st : getz (ttys st) m = Some t -> tty_wf t -> ~ ready t ->
  tty_read [] m p count st = Hang /\
  forall others rounds, tty_read (others :: rounds) m p count st =
    ('(rc, st') ← tty_sleep others (t_waitq t) p st;
     if rc <? 0 then Ret (- ERESTARTSYS, [], st') else tty_read rounds m p count st').
Proof.
  intros Ht Hw Hr. pose proof (tty_ready_spec t Hw) as E. rewrite bool_decide_false in E by done.
  unfold tty_read. split; [|intros others rounds]; cbn [tty_wait]; rewrite (rd_getz _ _ _ Ht); ret; rewrite E; ret; [done|].
  destruct (tty_sleep others (t_waitq t) p st) as [[rc st']| |]; ret; [|done..]. by destruct (rc <? 0).
Qed.

(** C36: Reading a terminal.  tty_poll reports output always, and input exactly
    when there is a byte, in canonical mode a line, to return.  Exactly then a
    read does not wait, and returns the oldest bytes: up to the size of the
    buffer in raw mode, and up to and with the first newline in canonical
    mode; they leave the input buffer, and nothing else changes.  Otherwise the
    reader sleeps, and when it wakes returns -ERESTARTSYS or looks again. *)
Theorem tty_read_correct m p count events t st :
  getz (ttys st) m = Some t -> tty_wf t -> 0 <= count ->
  tty_poll events t = Ret (Z.land events
    (Z.lor (if bool_decide (ready t) then Z.lor POLLIN POLLRDNORM else 0) (Z.lor POLLOUT POLLWRNORM))) /\
  (ready t -> forall rounds, returns (tty_read rounds m p count st) (fun '(n, data, st') => exists t',
    data = take (Z.to_nat count) (if negb (t_icanon t =? 0) then upto_nl (input t) else input t) /\
    n = Z.of_nat (length data) /\ input t' = drop (length data) (input t) /\ tty_wf t' /\
    t' = set_in_tail (in_tail t') t /\ st' = with_tty m t' st)) /\
  (~ ready t -> tty_read [] m p count st = Hang /\
    forall others rounds, tty_read (others :: rounds) m p count st =
      ('(rc, st') ← tty_sleep others (t_waitq t) p st;
       if rc <? 0 then Ret (- ERESTARTSYS, [], st') else tty_read rounds m p count st')).
Proof.
  intros Ht Hw Hc. split; [by apply tty_poll_spec|]. split; [|by apply tty_read_waits].
  intros Hr rounds. unfold tty_read. rewrite (tty_wait_ready rounds m p t st Ht Hw Hr).
  assert (in_count t < Z.of_nat (Z.to_nat TTY_BUF)) as Hf by (pose proof (count_range t); unfold TTY_BUF in *; lia).
  pose proof (read_copy_spec (Z.to_nat TTY_BUF) count [] t Hw Hf Hc) as Hcp. revert Hcp.
  generalize (read_copy (Z.to_nat TTY_BUF) count []). intros o Ho. ret. zcmp. rewrite (rd_getz _ _ _ Ht). ret.
  eapply returns_bind; [exact Ho|].
  intros [data t'] (d & -> & Hd & Hi & Hw' & Et). unfold put_tty. rewrite wr_ok by (by apply getz_Some_lt in Ht). ret.
  exists t'. rewrite app_nil_l. simpl length in Hd. rewrite Z.sub_0_r in Hd. done.
Qed.

(** Typing on a terminal.  A character that is no signal character is
    appended to the input when the buffer has room, echoed if the terminal
    echoes, and every reader is woken; when 255 bytes wait it is dropped. *)
Theorem tty_input_correct m c t st Q l :
  getz (ttys st) m = Some t -> length (ttys st) = Z.to_nat TTY_COUNT -> tty_wf t -> special c t = Ret None ->
  wq_rep (tw st) Q -> Q !! t_waitq t = Some l ->
  returns (tty_input_char m c st) (fun st' =>
    if decide (Z.of_nat (length (input t)) = TTY_BUF - 1) then st' = st
    else exists t', getz (ttys st') m = Some t' /\ tty_wf t' /\ input t' = input t ++ [c] /\
      console st' = console st ++ (if t_echo t =? 0 then [] else [c]) /\
      wq_rep (tw st') (<[t_waitq t := []]> Q) /\ woken l (tw st) (tw st')).
Proof.
  intros Ht Hlen Hw Hs Hr Hl. pose proof (getz_Some_lt _ _ _ Ht) as Hm. unfold tty_input_char, tty_lookup.
  rewrite Hlen in Hm. unfold TTY_COUNT in *. zcmp. rewrite (rd_getz _ _ _ Ht). ret. rewrite Hs. ret.
  destruct (decide (Z.of_nat (length (input t)) = TTY_BUF - 1)) as [Hf|Hf]; rewrite <- (input_full t Hw) in Hf; zcmp; [done|].
  destruct (input_push t c Hw Hf) as [Hw' Hi]. rewrite wr_ok by (rewrite (tw_buf _ Hw); apply Hw). ret. unfold put_tty.
  set (st1 := if negb (t_echo t =? 0) then debug_putchar c st else st).
  assert (ttys st1 = ttys st /\ tw st1 = tw st /\ console st1 = console st ++ (if t_echo t =? 0 then [] else [c])) as (E1 & E2 & E3)
    by (unfold st1; destruct (t_echo t =? 0); simpl; by rewrite ?app_nil_r).
  rewrite E1, wr_ok by (by apply getz_Some_lt in Ht). ret. unfold tty_wake_readers. cbn [tw]. rewrite E2.
  eapply returns_bind; [by apply (waitq_wake_all_spec (t_waitq t) l)|]. intros w' [Hr' Hwk]. ret. simpl.
  eexists. split; [apply getz_insert_eq; by apply getz_Some_lt in Ht|]. done.
Qed.

(** A signal character reaches exactly the foreground group.  Every live
    process of the group of the terminal gets the signal, no other process
    does, and nothing else about any process changes than its state. *)
Theorem tty_signal_group t sig st Q : procs_ok st Q -> t_pgrp t <> 0 -> 1 <= sig < NSIG ->
  returns (tty_send_signal t sig st) (fun st' => exists Q', procs_ok st' Q' /\ delivered st st' Q Q' /\
    forall p x, procs (tw st) !! p = Some x ->
      pend st' p = Some (if decide (p ∈ live_list st /\ p_pgrp x = t_pgrp t)
                         then <[Z.to_nat sig := 1]> (sig_pending x) else sig_pending x)).
Proof.
  intros Hok Hg Hs. eapply returns_mono; [by apply (tty_send_signal_spec t sig st Q)|]. intros st' (Q' & Hd & Hm).
  exists Q'. split; [by eapply delivered_procs_ok|]. split; [done|]. intros p x Hx. rewrite Hm. unfold hit. rewrite Hx.
  unfold pend. rewrite Hx. simpl. destruct (decide (p ∈ live_list st /\ p_pgrp x = t_pgrp t)) as [[Hp Eg]|Hn].
  - destruct (po_live _ _ Hok p Hp) as (_ & y & Hy & _ & _ & _ & Hpid). assert (x = y) as -> by congruence.
    rewrite bool_decide_true by done. by zcmp.
  - destruct (bool_decide (p ∈ live_list st)) eqn:E; [|done]. apply bool_decide_eq_true in E.
    destruct (Z.eqb_spec (p_pgrp x) (t_pgrp t)); [tauto|done].
Qed.

(** Only a group of the caller's own session can be made the foreground
    group: TIOCSPGRP changes the group exactly when some live process of the
    session of the caller is in it, and otherwise fails and changes nothing. *)
Theorem tty_set_pgrp_guarded m pgrp self x copied uterm t st Q :
  getz (ttys st) m = Some t -> procs_ok st Q -> self <> 0 -> procs (tw st) !! self = Some x -> 0 < pgrp ->
  returns (tty_ioctl TIOCSPGRP copied (Some pgrp) uterm self m st) (fun '(rc, _, st') =>
    (rc = 0 /\ st' = with_tty m (set_pgrp pgrp t) st /\
       exists q y, q ∈ live_list st /\ procs (tw st) !! q = Some y /\ p_pgrp y = pgrp /\ p_session y = p_session x) \/
    (rc = - EPERM /\ st' = st /\
       forall q y, q ∈ live_list st -> procs (tw st) !! q = Some y -> p_pgrp y = pgrp -> p_session y <> p_session x)).
Proof.
  intros Ht Hok H0 Hx Hp. unfold tty_ioctl. rewrite (rd_getz _ _ _ Ht). ret. cbn [Z.eqb TIOCSPGRP TIOCGPGRP Pos.eqb]. zcmp.
  unfold ldp. rewrite Hx. ret. eapply returns_bind; [apply (find_group_spec st Q pgrp (p_session x) _ 1 Hok); [done|done]|].
  intros b Hb. destruct b; cbn [negb].
  - unfold put_tty. rewrite wr_ok by (by apply getz_Some_lt in Ht). ret. left. split; [done|]. split; [done|].
    destruct (proj1 Hb eq_refl) as (q & y & Hq & Hy & _ & E1 & E2). by exists q, y.
  - ret. right. split; [done|]. split; [done|]. intros q y Hq Hy Eg Es. assert (false = true); [|done]. apply Hb.
    exists q, y. destruct (po_live _ _ Hok q Hq) as (_ & z & Hz & _ & _ & _ & Hpid). assert (y = z) as -> by congruence.
    repeat split; try done. lia.
Qed.

(** A full line without newline blocks a canonical terminal for good.  With
    255 bytes and no newline in the buffer, no read is ready and every further
    character that is no signal character, newline included, is dropped. *)
Theorem tty_canonical_stuck m t st cs :
  getz (ttys st) m = Some t -> length (ttys st) = Z.to_nat TTY_COUNT -> tty_wf t -> t_icanon t <> 0 ->
  Z.of_nat (length (input t)) = TTY_BUF - 1 -> NEWLINE ∉ input t -> (forall c, c ∈ cs -> special c t = Ret None) ->
  fold_out (tty_input_char m) cs st = Ret st /\ tty_ready t = Ret false /\
  tty_poll POLLIN t = Ret 0.
Proof.
  intros Ht Hlen Hw Hc Hf Hn Hs. assert (~ ready t) as Hnr by (unfold ready; by zcmp). split; [|split].
  - induction cs as [|c cs IH]; [done|]. cbn [fold_out]. assert (tty_input_char m c st = Ret st) as ->.
    2:{ ret. apply IH. intros c' Hc'. apply Hs. by right. }
    pose proof (getz_Some_lt _ _ _ Ht) as Hm. rewrite Hlen in Hm. unfold tty_input_char, tty_lookup, TTY_COUNT in *. zcmp.
    rewrite (rd_getz _ _ _ Ht). ret. rewrite (Hs c) by (by left). ret. rewrite (proj2 (input_full t Hw) Hf). by zcmp.
  - by rewrite (tty_ready_spec t Hw), bool_decide_false.
  - by rewrite (tty_poll_spec POLLIN t Hw), bool_decide_false.
Qed.
End tty.

(** ** A concrete terminal

    The processes 10 and 20 of [queue0], with their own wait queues at 100 and
    200; terminal 0 has the group of process 20 in the foreground and the input
    h, i, newline, x; its queue is at 300. *)
Definition con (canon : Z) : tty :=
  set_modes 1 canon 1 (set_pgrp 2 (set_input (104 :: 105 :: 10 :: 120 :: replicate 252 0) 4 (tty_init_one 0 300))).

Definition term_queues : gset Z := {[100; 200; 300; 301]}.

Definition term0 : tst (K := ref_sched) :=
  TSt [con 1; tty_init_one 1 301] [10; 20] (WSt (procs queue0) (gset_to_gmap 0 term_queues) (wsched queue0)) [].

Lemma con_wf canon : tty_wf (con canon).
Proof. by split. Qed.

Lemma con_input : input (con 1) = [104; 105; 10; 120].
Proof. vm_compute. reflexivity. Qed.

Lemma term0_procs p x : procs (tw term0) !! p = Some x -> (p = 10 /\ x = mk_proc 1 1) \/ (p = 20 /\ x = mk_proc 2 2).
Proof.
  cbn [procs tw term0 queue0]. intros [[<- <-]|[_ Hx]]%lookup_insert_Some; [by left|right].
  by apply lookup_insert_Some in Hx as [[<- <-]|[_ Hx]].
Qed.

Lemma term0_rep : wq_rep (tw term0) (gset_to_gmap [] term_queues).
Proof. apply rep_empty. Qed.

Lemma term0_ok : procs_ok term0 (gset_to_gmap [] term_queues).
Proof.
  split; [apply term0_rep| |].
  - intros p Hp. assert (p = 10 \/ p = 20) as [->| ->] by (cbn [live_list term0] in Hp; set_solver).
    + split; [done|]. exists (mk_proc 1 1). by repeat split; try done; exists [].
    + split; [done|]. exists (mk_proc 2 2). by repeat split; try done; exists [].
  - intros p q x y _ _ [[-> ->]|[-> ->]]%term0_procs [[-> ->]|[-> ->]]%term0_procs E; done.
Qed.

Lemma tty_read_correct_witness :
  ready (con 1) /\ tty_poll POLLIN (con 1) = Ret POLLIN /\
  returns (tty_read [] 0 10 64 term0) (fun '(n, data, st') => exists t',
    data = [104; 105; 10] /\ n = 3 /\ input t' = [120] /\ tty_wf t' /\ t' = set_in_tail (in_tail t') (con 1) /\
    st' = with_tty 0 t' term0).
Proof.
  assert (ready (con 1)) as Hr by (unfold ready; rewrite con_input; cbn [t_icanon con set_modes negb Z.eqb]; set_solver).
  destruct (tty_read_correct 0 10 64 POLLIN (con 1) term0 eq_refl (con_wf 1) ltac:(lia)) as (Hp & H & _).
  specialize (H Hr []). split; [exact Hr|]. split; [rewrite bool_decide_true in Hp by exact Hr; exact Hp|]. eapply returns_mono; [exact H|]. intros [[n data] st'] (t' & Hd & Hn & Hi & Hw & Ht & Hs). exists t'.
  rewrite con_input in Hd, Hi. cbn in Hd. subst data. cbn in Hn, Hi. subst n. split; [reflexivity|]. split; [reflexivity|].
  split; [exact Hi|]. split; [exact Hw|]. split; [exact Ht|exact Hs].
Defined.

Lemma tty_input_correct_witness :
  returns (tty_input_char 0 121 term0) (fun st' => exists t',
    getz (ttys st') 0 = Some t' /\ tty_wf t' /\ input t' = [104; 105; 10; 120; 121] /\ console st' = [121] /\
    wq_rep (tw st') (<[300 := []]> (gset_to_gmap [] term_queues)) /\ woken [] (tw term0) (tw st')).
Proof.
  pose proof (tty_input_correct 0 121 (con 1) term0 (gset_to_gmap [] term_queues) [] eq_refl eq_refl (con_wf 1) eq_refl
    term0_rep eq_refl) as H.
  rewrite con_input in H. exact H.
Defined.

(** Ctrl-C: process 20 gets the interrupt, process 10 does not. *)
Lemma tty_signal_group_witness :
  returns (tty_send_signal (con 1) SIGINT term0) (fun st' => exists Q',
    procs_ok st' Q' /\ delivered term0 st' (gset_to_gmap [] term_queues) Q' /\
    pend st' 20 = Some (<[2%nat := 1]> (replicate 32 0)) /\ pend st' 10 = Some (replicate 32 0)).
Proof.
  eapply returns_mono; [apply (tty_signal_group (con 1) SIGINT term0 (gset_to_gmap [] term_queues) term0_ok);
    [discriminate|unfold SIGINT, NSIG; lia]|].
  intros st' (Q' & Hok & Hd & Hp). exists Q'. split; [exact Hok|]. split; [exact Hd|]. split.
  - rewrite (Hp 20 (mk_proc 2 2) eq_refl). rewrite decide_True; [reflexivity|]. split; [cbn [live_list term0]; set_solver|reflexivity].
  - rewrite (Hp 10 (mk_proc 1 1) eq_refl). rewrite decide_False; [reflexivity|]. intros [_ E]. discriminate E.
Defined.

(** Process 10 makes the group of process 20 the foreground group. *)
Lemma tty_set_pgrp_guarded_witness :
  returns (tty_ioctl TIOCSPGRP true (Some 2) None 10 0 term0) (fun '(rc, _, st') =>
    rc = 0 /\ st' = with_tty 0 (set_pgrp 2 (con 1)) term0).
Proof.
  eapply returns_mono; [apply (tty_set_pgrp_guarded 0 2 10 (mk_proc 1 1) true None (con 1) term0 (gset_to_gmap [] term_queues));
    [reflexivity|exact term0_ok|discriminate|reflexivity|lia]|].
  intros [[rc o] st'] [(Hrc & Hst & _)|(_ & _ & Hn)]; [split; [exact Hrc|exact Hst]|].
  destruct (Hn 20 (mk_proc 2 2)); [cbn [live_list term0]; set_solver|reflexivity..].
Defined.

(** A terminal with 255 times the letter a. *)
Definition full_tty : tty := set_input (replicate 256 97) 255 (tty_init_one 0 300).

Lemma tty_canonical_stuck_witness :
  let st := TSt (K := ref_sched) [full_tty; tty_init_one 1 301] [] (tw term0) [] in
  fold_out (tty_input_char 0) [97; 10; 98; 10] st = Ret st /\ tty_ready full_tty = Ret false /\
  tty_poll POLLIN full_tty = Ret 0.
Proof.
  intros st. apply (tty_canonical_stuck 0 full_tty st [97; 10; 98; 10]);
    [reflexivity|reflexivity|by split|discriminate|vm_compute; reflexivity| |].
  - assert (input full_tty = replicate 255 97) as -> by (vm_compute; reflexivity).
    intros [E _]%elem_of_replicate. discriminate E.
  - intros c Hc. assert (c = 97 \/ c = 10 \/ c = 98) as [->|[->| ->]] by set_solver; reflexivity.
Defined.
