(* ===== verification/VmObject.v ===== *)
(** * Memory objects (mk/vm/vm_object.c, mk/include/vm_object.h)

    Objects live in kernel memory by address ([objs]; an address that is not a
    key was freed or is not an object).  The union is an inductive type, whose
    constructor is also the type and the fault function of the object.  Frames
    come from the page allocator of Pmm.v; [fmem] is what the frames written by
    this code hold.  Whether [vmm_temp_map] finds room is the parameter
    [temp_map], and the answer of the user-space pager the parameter [pager];
    nothing is assumed of either.  Each function that takes the lock of an
    object is one step. *)

From stdpp Require Import base numbers list gmap sets.
From Stdlib Require Import ZArith Lia.
From S2P Require Import Prelude StringLib Pmm.

#[local] Open Scope Z_scope.

Definition SHADOW_PAGE_BITS : Z := 64.
Definition sizeof_vm_object : Z := 72.
Definition VM_PROT_READ : Z := 1.
Definition VM_PROT_WRITE : Z := 2.

(** [DShared pages content capacity]: the page cache, 0 for an absent page;
    [DShadow parent map content nwords]: the bitmap of copied pages. *)
Inductive odata :=
| DAnon
| DPhys (phys_base : Z)
| DShared (pages : Z) (content : list Z) (capacity : Z)
| DShadow (parent map : Z) (content : list Z) (nwords : Z)
| DUserPaged.

Record obj := Obj { o_ref : Z; o_size : Z; o_port : Z; o_data : odata }.

Definition set_ref x o := Obj x (o_size o) (o_port o) (o_data o).
Definition set_odata x o := Obj (o_ref o) (o_size o) (o_port o) x.

Section vm_object.
Context {H : Type} `{!KMem H}.
Context (temp_map : Z -> bool) (pager : Z -> Z -> Z -> Z -> Z * Z).

Record ost := OSt { objs : gmap Z obj; oheap : H; opmm : pmm; fmem : gmap Z (list Z) }.

Implicit Types (st : ost) (a : Z) (o : obj).

Definition set_objs m st : ost := OSt m (oheap st) (opmm st) (fmem st).
Definition set_oheap h st : ost := OSt (objs st) h (opmm st) (fmem st).
Definition set_opmm p st : ost := OSt (objs st) (oheap st) p (fmem st).
Definition set_frame f c st : ost := OSt (objs st) (oheap st) (opmm st) (<[f := c]> (fmem st)).

Definition ldo a st : out obj := deref (objs st !! a).
Definition sto a o st : ost := set_objs (<[a := o]> (objs st)) st.

(** [kcalloc] of the heap: the product is computed in 32 bits. *)
Definition kcalloc (count n : Z) (h : H) : option Z * H :=
  let count := u32 count in
  if negb (count =? 0) && negb (n =? 0) && (0xFFFFFFFF / count <? n) then (None, h)
  else kmalloc (u32 (count * n)) h.

(** ** Life cycle *)

(** The new object, or 0 for NULL. *)
Definition vm_object_alloc (size port : Z) (d : odata) st : Z * ost :=
  if size =? 0 then (0, st)
  else
    match kmalloc sizeof_vm_object (oheap st) with
    | (None, h) => (0, set_oheap h st)
    | (Some a, h) => (a, sto a (Obj 1 size port d) (set_oheap h st))
    end.

Definition vm_object_create_anon size st : Z * ost := vm_object_alloc size 0 DAnon st.
Definition vm_object_create_phys base size st : Z * ost := vm_object_alloc size 0 (DPhys base) st.
Definition vm_object_create_shared size st : Z * ost := vm_object_alloc size 0 (DShared 0 [] 0) st.
Definition vm_object_create_user_paged size port st : Z * ost := vm_object_alloc size port DUserPaged st.

Definition vm_object_retain a st : out ost :=
  if a =? 0 then Ret st
  else o ← ldo a st; r ← signed 32 (o_ref o + 1); Ret (sto a (set_ref r o) st).

(** The number of words of the bitmap, an [int]. *)
Definition shadow_nwords (size : Z) : Z :=
  let n := s32 (u64 (size + PAGE - 1) / PAGE) in
  s32 (u64 (u64 n + SHADOW_PAGE_BITS - 1) / SHADOW_PAGE_BITS).

Definition vm_object_create_shadow parent st : out (Z * ost) :=
  if parent =? 0 then Ret (0, st)
  else
    po ← ldo parent st;
    let nwords := shadow_nwords (o_size po) in
    let '(a, st) := vm_object_alloc (o_size po) 0 (DShadow parent 0 [] nwords) st in
    if a =? 0 then Ret (0, st)
    else
      match kcalloc nwords 8 (oheap st) with
      | (None, h) => Ret (0, OSt (delete a (objs st)) (kfree a h) (opmm st) (fmem st))
      | (Some map, h) =>
          o ← ldo a st;
          let st := sto a (set_odata (DShadow parent map (replicate (Z.to_nat (u32 nwords)) 0) nwords) o)
                      (set_oheap h st) in
          st ← vm_object_retain parent st;
          Ret (a, st)
      end.

(** [for (i = 0; i < capacity; i++) if (pages[i]) pmm_free_page(pages[i])] *)
Definition free_frames (content : list Z) (capacity : Z) (p : pmm) : out pmm :=
  for_range 0 capacity (fun i p => f ← rd content i; if f =? 0 then Ret p else pmm_free_page f p) p.

(** Giving back the object itself. *)
Definition drop_obj a st : ost := OSt (delete a (objs st)) (kfree a (oheap st)) (opmm st) (fmem st).

Fixpoint vm_object_release (fuel : nat) a st : out ost :=
  match fuel with
  | O => Hang
  | S fuel =>
      if a =? 0 then Ret st
      else
        o ← ldo a st;
        if o_ref o =? 0 then Ret st
        else
          let r := o_ref o - 1 in
          let st := sto a (set_ref r o) st in
          if negb (r =? 0) then Ret st
          else
            match o_data o with
            | DShadow parent map _ _ =>
                st ← (if parent =? 0 then Ret st else vm_object_release fuel parent st);
                let st := if map =? 0 then st else set_oheap (kfree map (oheap st)) st in
                Ret (drop_obj a st)
            | DShared pages content capacity =>
                if pages =? 0 then Ret (drop_obj a st)
                else
                  p ← free_frames content capacity (opmm st);
                  Ret (drop_obj a (set_oheap (kfree pages (oheap st)) (set_opmm p st)))
            | _ => Ret (drop_obj a st)
            end
  end.

Definition release a st : out ost := vm_object_release (S (size (objs st))) a st.

(** ** Faults

    The result: the return value, and the frame when it is 0. *)

Definition zero_page : list Z := replicate (Z.to_nat PAGE) 0.

(** A zeroed frame: [pmm_alloc_page], [vmm_temp_map], [memset]; 0 when there is
    none. *)
Definition new_zero_frame st : out (Z * ost) :=
  '(f, p) ← pmm_alloc_page (opmm st);
  let st := set_opmm p st in
  if f =? 0 then Ret (0, st)
  else if temp_map f then Ret (f, set_frame f zero_page st)
  else p ← pmm_free_page f (opmm st); Ret (0, set_opmm p st).

Definition vm_object_anon_fault o (offset : Z) st : out (Z * Z * ost) :=
  if o_size o <=? offset then Ret (-1, 0, st)
  else
    '(f, st) ← new_zero_frame st;
    Ret (if f =? 0 then -1 else 0, f, st).

Definition vm_object_phys_fault base o (offset : Z) st : out (Z * Z * ost) :=
  if o_size o <=? offset then Ret (-1, 0, st)
  else Ret (0, u64 (base + Z.land offset (Z.lnot (PAGE - 1))), st).

(** [while (new_cap <= page_idx) new_cap *= 2] *)
Fixpoint grow_cap (fuel : nat) (new_cap page_idx : Z) : out Z :=
  match fuel with
  | O => Hang
  | S fuel => if new_cap <=? page_idx then grow_cap fuel (u32 (new_cap * 2)) page_idx else Ret new_cap
  end.

(** 32 doublings overflow the counter. *)
Definition grow_fuel : nat := 64.

(** The page cache large enough for [page_idx], or [None] when memory is out. *)
Definition shared_grow a o pages content (capacity page_idx : Z) st : out (option (list Z) * ost) :=
  if page_idx <? capacity then Ret (Some content, st)
  else
    new_cap ← grow_cap grow_fuel (if capacity =? 0 then 64 else u32 (capacity * 2)) page_idx;
    match kcalloc new_cap 8 (oheap st) with
    | (None, h) => Ret (None, set_oheap h st)
    | (Some new_pages, h) =>
        c ← (if pages =? 0 then Ret (replicate (Z.to_nat new_cap) 0)
             else memcpy_arr (replicate (Z.to_nat new_cap) 0) content capacity);
        let h := if pages =? 0 then h else kfree pages h in
        Ret (Some c, sto a (set_odata (DShared new_pages c new_cap) o) (set_oheap h st))
    end.

Definition vm_object_shared_fault a o pages content (capacity offset : Z) st : out (Z * Z * ost) :=
  if o_size o <=? offset then Ret (-1, 0, st)
  else
    let page_idx := offset / PAGE in
    '(c, st) ← shared_grow a o pages content capacity page_idx st;
    match c with
    | None => Ret (-1, 0, st)
    | Some c =>
        f ← rd c page_idx;
        if negb (f =? 0) then Ret (0, f, st)
        else
          '(f, st) ← new_zero_frame st;
          if f =? 0 then Ret (-1, 0, st)
          else
            o ← ldo a st;
            match o_data o with
            | DShared pages c capacity =>
                c ← wr c page_idx f;
                Ret (0, f, sto a (set_odata (DShared pages c capacity) o) st)
            | _ => UB
            end
    end.

(** A copy of frame [f]: [memcpy(new_page, parent_va, PAGE_SIZE)], written at
    the physical address of the new frame. *)
Definition copy_frame (new f : Z) st : out ost :=
  if IDENTITY_END <=? new then UB
  else Ret (OSt (objs st) (oheap st) (opmm st) (partial_alter (fun _ => fmem st !! f) new (fmem st))).

(** [obj->fault(obj, offset, out_page, write_fault)] *)
Fixpoint vm_fault (fuel : nat) a (offset : Z) (write : bool) st : out (Z * Z * ost) :=
  match fuel with
  | O => Hang
  | S fuel =>
      o ← ldo a st;
      match o_data o with
      | DAnon => vm_object_anon_fault o offset st
      | DPhys base => vm_object_phys_fault base o offset st
      | DShared pages content capacity => vm_object_shared_fault a o pages content capacity offset st
      | DUserPaged =>
          if o_size o <=? offset then Ret (-1, 0, st)
          else
            let '(ret, phys) := pager (o_port o) a offset
              (if write then Z.lor VM_PROT_READ VM_PROT_WRITE else VM_PROT_READ) in
            if ret <? 0 then Ret (ret, 0, st) else Ret (0, phys, st)
      | DShadow parent map content nwords =>
          if (o_size o <=? offset) || (parent =? 0) then Ret (-1, 0, st)
          else
            let page_index := offset / PAGE in
            let word_idx := s32 (page_index / SHADOW_PAGE_BITS) in
            let mask := Z.shiftl 1 (page_index mod SHADOW_PAGE_BITS) in
            w ← rd content word_idx;
            if negb (Z.land w mask =? 0) then vm_fault fuel parent offset write st
            else
              '(ret, f, st) ← vm_fault fuel parent offset false st;
              if ret <? 0 then Ret (ret, 0, st)
              else
                '(new_page, p) ← pmm_alloc_page (opmm st);
                let st := set_opmm p st in
                if new_page =? 0 then Ret (-1, 0, st)
                else if negb (temp_map f) then
                  p ← pmm_free_page new_page (opmm st); Ret (-1, 0, set_opmm p st)
                else
                  st ← copy_frame new_page f st;
                  c ← wr content word_idx (Z.lor w mask);
                  Ret (0, new_page, sto a (set_odata (DShadow parent map c nwords) o) st)
      end
  end.

Definition fault a offset write st : out (Z * Z * ost) := vm_fault (S (size (objs st))) a offset write st.

(** ** What the objects own *)

(** All [g k x] of a map, in some order. *)
Definition flat {A} (g : Z -> A -> list Z) (m : gmap Z A) : list Z := map_to_list m ≫= (fun kx => g kx.1 kx.2).

Lemma flat_new {A} (g : Z -> A -> list Z) m k x : m !! k = None -> flat g (<[k := x]> m) ≡ₚ g k x ++ flat g m.
Proof. intros Hk. unfold flat. by rewrite (map_to_list_insert m k x Hk). Qed.

Lemma flat_delete {A} (g : Z -> A -> list Z) m k x : m !! k = Some x -> flat g m ≡ₚ g k x ++ flat g (delete k m).
Proof. intros Hk. rewrite <- (insert_delete_id m k x Hk) at 1. apply flat_new, lookup_delete_eq. Qed.

Lemma flat_upd {A} (g : Z -> A -> list Z) m k x y : m !! k = Some x ->
  flat g (<[k := y]> m) ≡ₚ g k y ++ flat g (delete k m).
Proof. intros Hk. rewrite <- insert_delete_eq. apply flat_new, lookup_delete_eq. Qed.

(** Storing an object with the same [g] changes nothing. *)
Lemma flat_same {A} (g : Z -> A -> list Z) m k x y : m !! k = Some x -> g k y = g k x -> flat g (<[k := y]> m) ≡ₚ flat g m.
Proof. intros Hk Hg. rewrite (flat_upd g m k x y Hk), Hg. symmetry. by apply flat_delete. Qed.

Lemma elem_of_flat {A} (g : Z -> A -> list Z) m k x y : m !! k = Some x -> y ∈ g k x -> y ∈ flat g m.
Proof. intros Hk Hy. rewrite (flat_delete g m k x Hk). set_solver. Qed.

(** Heap blocks and frames of an object. *)
Definition null_or (p : Z) : list Z := if p =? 0 then [] else [p].

Definition oblocks a o : list Z :=
  a :: match o_data o with DShared p _ _ => null_or p | DShadow _ p _ _ => null_or p | _ => [] end.

Definition oframes (_ : Z) o : list Z :=
  match o_data o with DShared _ c _ => filter (fun f => f <> 0) c | _ => [] end.

(** ** References *)

Definition parent_of o : Z := match o_data o with DShadow p _ _ _ => p | _ => 0 end.

(** 1 for a live shadow of [p], and for a live object. *)
Definition shadows p o : Z := if (1 <=? o_ref o) && (parent_of o =? p) then 1 else 0.
Definition alive o : Z := if 1 <=? o_ref o then 1 else 0.

Lemma shadows_nonneg p o : 0 <= shadows p o.
Proof. unfold shadows. destruct (_ && _); lia. Qed.

Lemma alive_nonneg o : 0 <= alive o.
Proof. unfold alive. destruct (_ <=? _); lia. Qed.

Definition bump a (d : Z) (E : Z -> Z) : Z -> Z := fun b => E b + if b =? a then d else 0.

(** The shape of an object. *)
Definition obj_ok a o : Prop := a <> 0 /\ 0 < o_size o < 2 ^ 64 /\
  match o_data o with
  | DShared p c cap => length c = Z.to_nat cap /\ 0 <= cap < 2 ^ 32 /\ (p = 0 -> cap = 0)
  | DShadow parent p c n => parent <> 0 /\ p <> 0 /\ length c = Z.to_nat (u32 n) /\ n = shadow_nwords (o_size o)
  | _ => True
  end.

(** [E a] references to the object [a] are held from outside; [B] are the heap
    blocks and [U] the pages that belong to others.  Every object is referenced
    exactly by the outside and by its live shadows, and owns its blocks and
    frames alone.  The pages that are not others' lie where the kernel can write
    them at their own address. *)
Record inv (B : gset Z) (U : Z -> Prop) (E : Z -> Z) st : Prop := {
  in_heap : kwf (oheap st);
  in_live : klive (oheap st) = B ∪ list_to_set (flat oblocks (objs st));
  in_nodup : NoDup (flat oblocks (objs st));
  in_base x : x ∈ flat oblocks (objs st) -> x ∉ B;
  in_pmm : pmm_wf (opmm st);
  in_free i : page_free (opmm st) i <->
    0 <= i < total_pages (opmm st) /\ ~ U i /\ i ∉ (fun f => f / PAGE) <$> flat oframes (objs st);
  in_fnodup : NoDup ((fun f => f / PAGE) <$> flat oframes (objs st));
  in_frames f : f ∈ flat oframes (objs st) -> 0 < f / PAGE < total_pages (opmm st) /\ f = f / PAGE * PAGE /\ ~ U (f / PAGE);
  in_page0 : U 0;
  in_low i : 0 <= i < total_pages (opmm st) -> ~ U i -> i * PAGE < IDENTITY_END;
  in_shape a o : objs st !! a = Some o -> obj_ok a o;
  in_ref a o : objs st !! a = Some o -> 0 <= E a /\ o_ref o = E a + msum (shadows a) (objs st) /\ o_ref o < 2 ^ 31;
  in_ext a : E a <> 0 -> is_Some (objs st !! a);
  in_parent a o : objs st !! a = Some o -> 1 <= o_ref o -> parent_of o = 0 \/ is_Some (objs st !! parent_of o);
}.

Context `{!KMemLaws H}.

Lemma bump_same a d E : bump a d E a = E a + d.
Proof. unfold bump. by rewrite Z.eqb_refl. Qed.

Lemma bump_ne a d E b : b <> a -> bump a d E b = E b.
Proof. intros Hne. unfold bump. zcmp. lia. Qed.

(** An object whose count reaches 0 passes its reference to its parent on to
    the caller. *)
Definition orphan o a (E : Z -> Z) : Z -> Z :=
  let E := bump a (-1) E in if parent_of o =? 0 then E else bump (parent_of o) 1 E.

(** Changing the count of an object only. *)
Lemma inv_store B U E E' st a o r : inv B U E st -> objs st !! a = Some o -> (1 <= r -> 1 <= o_ref o) ->
  (forall b x, <[a := set_ref r o]> (objs st) !! b = Some x ->
     0 <= E' b /\ o_ref x = E' b + msum (shadows b) (<[a := set_ref r o]> (objs st)) /\ o_ref x < 2 ^ 31) ->
  (forall b, E' b <> 0 -> is_Some (objs st !! b)) ->
  inv B U E' (sto a (set_ref r o) st).
Proof.
  intros Hi Ha Hr Href Hext. destruct Hi.
  assert (flat oblocks (<[a := set_ref r o]> (objs st)) ≡ₚ flat oblocks (objs st)) as Hb by (by apply (flat_same _ _ _ o)).
  assert (flat oframes (<[a := set_ref r o]> (objs st)) ≡ₚ flat oframes (objs st)) as Hf by (by apply (flat_same _ _ _ o)).
  assert (forall b, is_Some (objs st !! b) -> is_Some (<[a := set_ref r o]> (objs st) !! b)) as Hdom
    by (intros b Hb'; rewrite lookup_insert_is_Some'; by right).
  split; cbn [objs sto set_objs oheap opmm]; try done.
  - rewrite in_live0. apply set_eq. intros x. by rewrite !elem_of_union, !elem_of_list_to_set, Hb.
  - by rewrite Hb.
  - intros x. rewrite Hb. apply in_base0.
  - intros i. rewrite Hf. apply in_free0.
  - by rewrite Hf.
  - intros f. rewrite Hf. apply in_frames0.
  - intros b x [[<- <-]|[_ Hx]]%lookup_insert_Some; [apply (in_shape0 a o Ha)|by apply in_shape0].
  - intros b Hb'. by apply Hdom, Hext.
  - intros b x Hx H1. apply lookup_insert_Some in Hx as [[<- <-]|[_ Hx]].
    + cbn [o_ref set_ref] in H1. destruct (in_parent0 a o Ha (Hr H1)) as [|]; [by left|right; by apply Hdom].
    + destruct (in_parent0 b x Hx H1) as [|]; [by left|right; by apply Hdom].
Qed.

Lemma shadows_ref p o r : 1 <= r -> 1 <= o_ref o -> shadows p (set_ref r o) = shadows p o.
Proof. intros. unfold shadows. cbn [o_ref set_ref]. change (parent_of (set_ref r o)) with (parent_of o). by zcmp. Qed.

(** One reference more or less, the object staying alive. *)
Lemma inv_count B U E st a o d : inv B U E st -> objs st !! a = Some o -> 1 <= o_ref o -> 1 <= o_ref o + d < 2 ^ 31 ->
  0 <= E a + d -> inv B U (bump a d E) (sto a (set_ref (o_ref o + d) o) st).
Proof.
  intros Hi Ha Ho Hd HE. apply (inv_store B U E); try done.
  - intros b x Hx. rewrite (msum_upd _ _ _ o) by done. rewrite shadows_ref by lia.
    apply lookup_insert_Some in Hx as [[<- <-]|[Hne Hx]].
    + rewrite bump_same. cbn [o_ref set_ref]. destruct (in_ref _ _ _ _ Hi a o Ha) as (_ & ? & _). lia.
    + rewrite bump_ne by done. destruct (in_ref _ _ _ _ Hi b x Hx) as (? & ? & ?). lia.
  - intros b Hb. destruct (decide (b = a)) as [->|Hne]; [by rewrite Ha|]. rewrite bump_ne in Hb by done.
    by apply (in_ext _ _ _ _ Hi).
Qed.

(** The last reference goes. *)
Lemma inv_zombie B U E st a o : inv B U E st -> objs st !! a = Some o -> o_ref o = 1 -> 1 <= E a ->
  inv B U (orphan o a E) (sto a (set_ref 0 o) st).
Proof.
  intros Hi Ha Ho HE. destruct (in_ref _ _ _ _ Hi a o Ha) as (_ & Hra & _).
  pose proof (msum_nonneg (shadows a) (objs st) (shadows_nonneg a)) as Hnn.
  assert (parent_of o <> a) as Hself.
  { intros Ep. pose proof (msum_ge (shadows a) (objs st) a o (shadows_nonneg a) Ha) as Hg.
    unfold shadows at 1 in Hg. rewrite Ep, Z.eqb_refl, Ho in Hg. simpl in Hg. lia. }
  assert (forall p, shadows p (set_ref 0 o) = 0) as Hz by done.
  assert (forall p, shadows p o = if parent_of o =? p then 1 else 0) as Ho' by (intros p; unfold shadows; by rewrite Ho).
  assert (forall b, orphan o a E b = (if b =? a then E b - 1 else E b) + (if negb (parent_of o =? 0) && (parent_of o =? b) then 1 else 0)) as Hor.
  { intros b. unfold orphan, bump. destruct (Z.eqb_spec (parent_of o) 0); simpl; [destruct (b =? a); lia|].
    rewrite (Z.eqb_sym b (parent_of o)). destruct (b =? a), (parent_of o =? b); lia. }
  apply (inv_store B U E); try done.
  - intros b x Hx. rewrite (msum_upd _ _ _ o) by done. rewrite Hz, Ho', Hor.
    apply lookup_insert_Some in Hx as [[<- <-]|[Hne Hx]].
    + rewrite Z.eqb_refl. replace (parent_of o =? a) with false by (symmetry; by apply Z.eqb_neq).
      rewrite andb_false_r. cbn [o_ref set_ref]. lia.
    + replace (b =? a) with false by (symmetry; apply Z.eqb_neq; congruence).
      destruct (in_ref _ _ _ _ Hi b x Hx) as (? & ? & ?). destruct (in_shape _ _ _ _ Hi b x Hx) as (Hb0 & _).
      destruct (Z.eqb_spec (parent_of o) b) as [->|]; [|rewrite andb_false_r; lia].
      replace (b =? 0) with false by (symmetry; by apply Z.eqb_neq). simpl. lia.
  - intros b Hb. rewrite Hor in Hb. destruct (decide (b = a)) as [->|Hne]; [by rewrite Ha|].
    replace (b =? a) with false in Hb by (symmetry; by apply Z.eqb_neq).
    destruct (Z.eqb_spec (parent_of o) b) as [Ep|].
    + destruct (in_parent _ _ _ _ Hi a o Ha ltac:(lia)) as [E0|Hs]; [|by rewrite <- Ep].
      rewrite E0 in Hb. simpl in Hb. apply (in_ext _ _ _ _ Hi). lia.
    + rewrite andb_false_r in Hb. apply (in_ext _ _ _ _ Hi). lia.
Qed.

Definition page_of (f : Z) : Z := f / PAGE.

(** Forgetting an object without references, its blocks and frames given back. *)
Lemma inv_drop B U E st a o h p : inv B U E st -> objs st !! a = Some o -> o_ref o = 0 ->
  kwf h -> klive h = klive (oheap st) ∖ list_to_set (oblocks a o) ->
  given (opmm st) (fun i => i ∈ page_of <$> oframes a o) p ->
  inv B U E (OSt (delete a (objs st)) h p (fmem st)).
Proof.
  intros Hi Ha Ho Hh Hl (Hp & Ht & _ & Hg). destruct Hi.
  pose proof (flat_delete oblocks _ _ _ Ha) as Hb. pose proof (flat_delete oframes _ _ _ Ha) as Hf.
  assert (NoDup (oblocks a o ++ flat oblocks (delete a (objs st)))) as Hnd by (by rewrite <- Hb).
  apply NoDup_app in Hnd as (_ & Hdis & Hnd).
  assert (NoDup (page_of <$> (oframes a o ++ flat oframes (delete a (objs st))))) as Hfnd by (by rewrite <- Hf).
  rewrite fmap_app in Hfnd. apply NoDup_app in Hfnd as (_ & Hfdis & Hfnd).
  destruct (in_ref0 a o Ha) as (HEa & Hra & _).
  pose proof (msum_nonneg (shadows a) (objs st) (shadows_nonneg a)) as Hnn.
  assert (forall q, shadows q o = 0) as Hz by (intros q; unfold shadows; by rewrite Ho).
  split; cbn [objs oheap opmm]; try done.
  - rewrite Hl, in_live0. apply set_eq. intros x.
    rewrite elem_of_difference, !elem_of_union, !elem_of_list_to_set, Hb, elem_of_app.
    split; [tauto|]. intros [HB|Hx]; [|split; [tauto|]; intros Hx'; by apply (Hdis x)].
    split; [by left|]. intros Hx. apply (in_base0 x); [|done]. rewrite Hb, elem_of_app. tauto.
  - intros x Hx. apply in_base0. rewrite Hb, elem_of_app. tauto.
  - intros i. rewrite Hg, Ht, in_free0, Hf, fmap_app, elem_of_app. fold page_of. split.
    + intros [(? & ? & ?)|[Hr Hin]]; [tauto|]. split; [done|].
      apply list_elem_of_fmap in Hin as (f & -> & Hin). split.
      * apply (in_frames0 f). rewrite Hf, elem_of_app. tauto.
      * apply Hfdis. by apply list_elem_of_fmap_2.
    + intros (Hr & Hu & Hn). destruct (decide (i ∈ page_of <$> oframes a o)); [by right|left]. tauto.
  - intros f Hin. rewrite Ht. apply in_frames0. rewrite Hf, elem_of_app. tauto.
  - intros i. rewrite Ht. apply in_low0.
  - intros b x [_ Hx]%lookup_delete_Some. by apply in_shape0.
  - intros b x [_ Hx]%lookup_delete_Some. rewrite (msum_delete _ _ _ o) by done. rewrite Hz, Z.sub_0_r. by apply in_ref0.
  - intros b Hb'. rewrite lookup_delete_ne; [by apply in_ext0|]. intros <-. lia.
  - intros b x [Hne Hx]%lookup_delete_Some H1. destruct (in_parent0 b x Hx H1) as [|Hs]; [by left|right].
    rewrite lookup_delete_ne; [done|]. intros Ep. pose proof (msum_ge (shadows a) (objs st) b x (shadows_nonneg a) Hx) as Hge.
    assert (shadows a x = 1); [|lia]. unfold shadows. rewrite <- Ep, Z.eqb_refl. by zcmp.
Qed.

(** Giving the frames of a page cache back. *)
Lemma free_frames_spec content capacity p : pmm_wf p -> length content = Z.to_nat capacity -> 0 <= capacity ->
  (forall f, f ∈ content -> f <> 0 -> 0 <= page_of f) ->
  returns (free_frames content capacity p) (given p (fun i => i ∈ page_of <$> filter (fun f => f <> 0) content)).
Proof.
  intros Hp Hl Hc Hf. unfold free_frames. eapply returns_mono.
  - apply (for_range_inv (fun n q => given p (fun i => i ∈ page_of <$> filter (fun f => f <> 0) (take (Z.to_nat n) content)) q)).
    + split; [done|]. split; [done|]. split; [done|]. intros j. simpl. split; [tauto|].
      intros [|[_ Hin]]; [done|]. by apply elem_of_nil in Hin.
    + intros n q Hn (Hq & Ht & Hb & Hg). destruct (getz_lt content n) as [f Hfn]; [lia|]. rewrite (rd_getz _ _ _ Hfn). ret.
      apply getz_Some in Hfn as [_ Hfn]. replace (Z.to_nat (n + 1)) with (S (Z.to_nat n)) by lia.
      rewrite (take_S_r _ _ _ Hfn), filter_app. destruct (Z.eqb_spec f 0) as [->|Hne].
      * rewrite filter_cons_False by tauto. simpl. rewrite app_nil_r. done.
      * rewrite filter_cons_True by done. eapply returns_mono; [apply free_at_spec; [done|]|].
        { apply (Hf f); [by eapply list_elem_of_lookup_2|done]. }
        intros q' (Hq' & Ht' & Hb' & Hg'). split; [done|]. split; [congruence|]. split; [congruence|]. intros j.
        rewrite Hg', Hg, Ht, fmap_app, elem_of_app. simpl. rewrite list_elem_of_singleton. fold (page_of f). tauto.
  - intros q. rewrite Z.max_r by lia. by rewrite take_ge by lia.
Qed.

Lemma inv_ext B U E E' st : inv B U E st -> (forall b, E' b = E b) -> inv B U E' st.
Proof. intros Hi HE. destruct Hi. split; try done; intros a; rewrite HE; auto. Qed.

Lemma given_nothing p T : pmm_wf p -> (forall i, ~ T i) -> given p T p.
Proof. intros Hp HT. split; [done|]. split; [done|]. split; [done|]. intros j. specialize (HT j). tauto. Qed.

(** Giving back the one or two blocks of an object. *)
Lemma free_blocks B U E st a o : inv B U E st -> objs st !! a = Some o ->
  let h := foldr kfree (oheap st) (oblocks a o) in
  kwf h /\ klive h = klive (oheap st) ∖ list_to_set (oblocks a o).
Proof.
  intros Hi Ha. pose proof (in_nodup _ _ _ _ Hi) as Hnd. rewrite (flat_delete oblocks _ _ _ Ha) in Hnd.
  apply NoDup_app in Hnd as (Hnd & _ & _).
  assert (forall x, x ∈ oblocks a o -> x ∈ klive (oheap st)) as Hin.
  { intros x Hx. rewrite (in_live _ _ _ _ Hi). apply elem_of_union_r, elem_of_list_to_set. by eapply elem_of_flat. }
  pose proof (in_heap _ _ _ _ Hi) as Hw. revert Hnd Hin. generalize (oblocks a o) as l. clear -Hw KMemLaws0.
  induction l as [|x l IH]; intros Hnd Hin; simpl; [split; [done|set_solver]|].
  apply NoDup_cons in Hnd as [Hx Hnd]. destruct IH as [Hw' Hl']; [done|intros y Hy; apply Hin; by right|].
  destruct (kfree_live (foldr kfree (oheap st) l) x Hw') as [Hw2 Hl2].
  { rewrite Hl'. apply elem_of_difference. split; [apply Hin; by left|]. by rewrite elem_of_list_to_set. }
  split; [done|]. rewrite Hl2, Hl'. clear. set_solver.
Qed.

(** What the release of an object leaves of the others: objects on their way
    out stay as they are, no other object is left without references, and data
    and size of every object stay. *)
Definition tidy st st' : Prop :=
  (forall b o, objs st !! b = Some o -> o_ref o = 0 -> objs st' !! b = Some o) /\
  (forall b o', objs st' !! b = Some o' -> exists o, objs st !! b = Some o /\ (o_ref o' = 0 -> o_ref o = 0) /\
     o_data o' = o_data o /\ o_size o' = o_size o).

Lemma tidy_refl st : tidy st st.
Proof. split; [done|]. intros b o Hb. by exists o. Qed.

Lemma tidy_count st a o r : objs st !! a = Some o -> 1 <= o_ref o -> 1 <= r -> tidy st (sto a (set_ref r o) st).
Proof.
  intros Ha Ho Hr. split; intros b x; simpl.
  - intros Hb Hz. rewrite lookup_insert_ne; [done|]. intros <-. rewrite Ha in Hb. injection Hb as <-. lia.
  - intros [[<- <-]|[_ Hb]]%lookup_insert_Some; [exists o|by exists x]. split; [done|]. split; [simpl; lia|done].
Qed.

(** From the object marked as gone to its removal. *)
Lemma tidy_drop st a o st2 st3 : objs st !! a = Some o -> 1 <= o_ref o ->
  tidy (sto a (set_ref 0 o) st) st2 -> objs st3 = delete a (objs st2) -> tidy st st3.
Proof.
  intros Ha Ho [H1 H2] E. split; intros b x.
  - intros Hb Hz. assert (a <> b) by (intros <-; rewrite Ha in Hb; injection Hb as <-; lia).
    rewrite E, lookup_delete_ne by done. apply H1; [|done]. simpl. by rewrite lookup_insert_ne.
  - rewrite E. intros [Hne Hb]%lookup_delete_Some. destruct (H2 b x Hb) as (y & Hy & Hz). simpl in Hy.
    rewrite lookup_insert_ne in Hy by done. by exists y.
Qed.

(** The last step, for every kind of object: blocks and frames are given back. *)
Lemma finish_release B U E st2 st3 a o : inv B U E st2 -> objs st2 !! a = Some o -> o_ref o = 0 ->
  st3 = OSt (delete a (objs st2)) (foldr kfree (oheap st2) (oblocks a o)) (opmm st3) (fmem st2) ->
  given (opmm st2) (fun i => i ∈ page_of <$> oframes a o) (opmm st3) -> inv B U E st3.
Proof.
  intros Hi Ha Ho -> Hg. destruct (free_blocks B U E st2 a o Hi Ha) as [Hw Hl]. by apply (inv_drop B U E st2 a o).
Qed.

Lemma finish_bare B U E st2 st3 a o : inv B U E st2 -> objs st2 !! a = Some o -> o_ref o = 0 -> oframes a o = [] ->
  st3 = OSt (delete a (objs st2)) (foldr kfree (oheap st2) (oblocks a o)) (opmm st2) (fmem st2) -> inv B U E st3.
Proof.
  intros Hi Ha Ho Hf ->. eapply finish_release; try done. rewrite Hf. apply given_nothing; [apply Hi|].
  intros i. apply not_elem_of_nil.
Qed.

Lemma obj_release_spec B U fuel : forall a E st, inv B U E st -> 1 <= E a -> msum alive (objs st) < Z.of_nat fuel ->
  returns (vm_object_release fuel a st) (fun st' => inv B U (bump a (-1) E) st' /\ tidy st st').
Proof.
  induction fuel as [|fuel IH]; intros a E st Hi HE Hf; [pose proof (msum_nonneg alive (objs st) alive_nonneg); lia|].
  destruct (in_ext _ _ _ _ Hi a ltac:(lia)) as [o Ha]. destruct (in_shape _ _ _ _ Hi a o Ha) as (Ha0 & _ & Hd).
  destruct (in_ref _ _ _ _ Hi a o Ha) as (_ & Hr & Hmax).
  pose proof (msum_nonneg (shadows a) (objs st) (shadows_nonneg a)) as Hnn.
  cbn [vm_object_release]. zcmp. unfold ldo. rewrite Ha. ret. zcmp.
  destruct (Z.eqb_spec (o_ref o - 1) 0) as [E1|E1]; cbn [negb].
  2:{ ret. split; [|by apply tidy_count; [|lia|lia]]. apply (inv_count B U E st a o (-1)); [done|done|lia|lia|lia]. }
  rewrite E1. set (st1 := sto a (set_ref 0 o) st). pose proof (inv_zombie B U E st a o Hi Ha ltac:(lia) HE) as Hi1. fold st1 in Hi1.
  assert (objs st1 !! a = Some (set_ref 0 o)) as Ha1 by apply lookup_insert_eq. unfold orphan in Hi1.
  unfold parent_of in Hi1. destruct (o_data o) as [| base|pages content capacity|parent map content nwords|] eqn:Ed; cbn [Z.eqb] in Hi1.
  1,2,5: ret; split; [|by apply (tidy_drop st a o st1); [|lia|apply tidy_refl|]];
    apply (finish_bare B U _ st1 _ a (set_ref 0 o) Hi1 Ha1 eq_refl);
    [unfold oframes|unfold oblocks]; cbn [o_data set_ref]; by rewrite Ed.
  - destruct Hd as (Hl & Hc & Hz). destruct (Z.eqb_spec pages 0) as [Ep|Ep].
    + ret. split; [|by apply (tidy_drop st a o st1); [|lia|apply tidy_refl|]].
      rewrite (Hz Ep) in Hl. apply length_zero_iff_nil in Hl.
      apply (finish_bare B U _ st1 _ a (set_ref 0 o) Hi1 Ha1 eq_refl);
        [unfold oframes|unfold oblocks, null_or]; cbn [o_data set_ref]; rewrite Ed; [by rewrite Hl|by rewrite Ep].
    + eapply returns_bind.
      * apply free_frames_spec; [apply Hi1|done|lia|]. intros f Hf0 Hne.
        assert (f ∈ flat oframes (objs st1)) as Hin.
        { eapply elem_of_flat; [exact Ha1|]. unfold oframes. cbn [o_data set_ref]. rewrite Ed. by apply list_elem_of_filter. }
        destruct (in_frames _ _ _ _ Hi1 f Hin) as (? & _). unfold page_of. lia.
      * intros p Hp. ret. split; [|by apply (tidy_drop st a o st1); [|lia|apply tidy_refl|]].
        apply (finish_release B U _ st1 _ a (set_ref 0 o) Hi1 Ha1 eq_refl).
        -- unfold oblocks, null_or. cbn [o_data set_ref]. rewrite Ed. by zcmp.
        -- unfold oframes. cbn [o_data set_ref opmm drop_obj set_oheap set_opmm]. by rewrite Ed.
  - destruct Hd as (Hp0 & Hm0 & _). revert Hi1. zcmp. intros Hi1.
    assert (msum alive (objs st1) = msum alive (objs st) - 1) as Hal.
    { simpl. rewrite (msum_upd _ _ _ o _ Ha). unfold alive at 2 3. cbn [o_ref set_ref]. zcmp. lia. }
    eapply returns_bind; [apply (IH parent); [exact Hi1| |lia]|].
    + rewrite bump_same. assert (is_Some (objs st1 !! parent)) as [po Hpo].
      { destruct (in_parent _ _ _ _ Hi a o Ha ltac:(lia)) as [Hpz|Hs]; unfold parent_of in *; rewrite Ed in *; [done|].
        simpl. apply lookup_insert_is_Some'. by right. }
      destruct (in_ref _ _ _ _ Hi1 parent po Hpo) as (Hpos & Hpr & _). rewrite bump_same in Hpos, Hpr.
      destruct (decide (parent = a)) as [->|Hne]; [|rewrite (bump_ne a) by done].
      * rewrite bump_same. lia.
      * destruct (in_ref _ _ _ _ Hi parent po) as (? & _); [|lia]. simpl in Hpo. by rewrite lookup_insert_ne in Hpo.
    + intros st2 [Hi2 Ht]. zcmp. ret. assert (objs st2 !! a = Some (set_ref 0 o)) as Ha2 by (by apply (proj1 Ht)).
      split; [|by apply (tidy_drop st a o st2); [|lia| |]].
      assert (inv B U (bump a (-1) E) st2) as Hi2'.
      { eapply inv_ext; [exact Hi2|]. intros b. unfold bump. destruct (b =? parent), (b =? a); lia. }
      apply (finish_bare B U _ st2 _ a (set_ref 0 o) Hi2' Ha2 eq_refl);
        [unfold oframes|unfold oblocks, null_or]; cbn [o_data set_ref]; rewrite Ed; [done|by zcmp].
Qed.

(** ** New objects *)

(** A new object takes the reference to its parent from the outside. *)
Definition adopt o a (E : Z -> Z) : Z -> Z :=
  let E := bump a 1 E in if parent_of o =? 0 then E else bump (parent_of o) (-1) E.

Lemma inv_add B U E st a o h : inv B U E st -> objs st !! a = None -> obj_ok a o -> o_ref o = 1 -> oframes a o = [] ->
  (parent_of o = 0 \/ is_Some (objs st !! parent_of o) /\ 1 <= E (parent_of o)) ->
  kwf h -> klive h = list_to_set (oblocks a o) ∪ klive (oheap st) -> NoDup (oblocks a o) ->
  (forall x, x ∈ oblocks a o -> x ∉ klive (oheap st)) ->
  inv B U (adopt o a E) (OSt (<[a := o]> (objs st)) h (opmm st) (fmem st)).
Proof.
  intros Hi Ha Hok Ho Hfr Hpar Hh Hl Hnd Hfresh. pose proof (in_ext _ _ _ _ Hi) as Hext. destruct Hi.
  pose proof (flat_new oblocks _ _ o Ha) as Hb. pose proof (flat_new oframes _ _ o Ha) as Hf. rewrite Hfr in Hf. simpl in Hf.
  assert (E a = 0) as HEa by (destruct (Z.eq_dec (E a) 0) as [|Hne]; [done|]; destruct (Hext a Hne) as [x Hx]; by rewrite Ha in Hx).
  assert (forall p, shadows p o = if parent_of o =? p then 1 else 0) as Hs by (intros p; unfold shadows; by rewrite Ho).
  assert (forall b, adopt o a E b = (if b =? a then E b + 1 else E b) - (if negb (parent_of o =? 0) && (parent_of o =? b) then 1 else 0)) as Had.
  { intros b. unfold adopt, bump. destruct (Z.eqb_spec (parent_of o) 0); simpl; [destruct (b =? a); lia|].
    rewrite (Z.eqb_sym b (parent_of o)). destruct (b =? a), (parent_of o =? b); lia. }
  assert (parent_of o <> a) as Hpa.
  { destruct Hpar as [->|[[x Hx] _]]; [destruct Hok as [? _]; congruence|]. intros Ep. rewrite Ep, Ha in Hx. done. }
  assert (msum (shadows a) (objs st) = 0) as Hka.
  { unfold msum. assert (forall x, x ∈ (map_to_list (objs st)).*2 -> shadows a x = 0) as Hz.
    2:{ revert Hz. generalize ((map_to_list (objs st)).*2). clear. induction l as [|y l IH]; intros Hz; [done|]. simpl.
        rewrite Hz by left. rewrite IH; [done|]. intros z Hin. apply Hz. by right. }
    intros x ([b y] & -> & Hin)%list_elem_of_fmap. apply elem_of_map_to_list in Hin. simpl. unfold shadows.
    destruct (Z.leb_spec 1 (o_ref y)) as [H1|]; [|done]. destruct (Z.eqb_spec (parent_of y) a) as [Ep|]; [|done].
    destruct (in_parent0 b y Hin H1) as [E0|[z Hz]]; [destruct Hok as [? _]; congruence|]. rewrite Ep, Ha in Hz. done. }
  assert (forall b, is_Some (objs st !! b) -> is_Some (<[a := o]> (objs st) !! b)) as Hdom
    by (intros b Hb'; rewrite lookup_insert_is_Some'; by right).
  split; cbn [objs oheap opmm]; try done.
  - rewrite Hl, in_live0. apply set_eq. intros x. rewrite !elem_of_union, !elem_of_list_to_set, Hb, elem_of_app. tauto.
  - rewrite Hb. apply NoDup_app. split; [done|]. split; [|done]. intros x Hx Hx'. apply (Hfresh x Hx). rewrite in_live0. set_solver.
  - intros x. rewrite Hb, elem_of_app. intros [Hx|Hx]; [|by apply in_base0]. intros HB. apply (Hfresh x Hx). rewrite in_live0. set_solver.
  - intros j. rewrite Hf. apply in_free0.
  - by rewrite Hf.
  - intros f. rewrite Hf. apply in_frames0.
  - intros b x [[<- <-]|[_ Hx]]%lookup_insert_Some; [done|by apply in_shape0].
  - intros b x Hx. rewrite msum_new by done. rewrite Hs, Had. apply lookup_insert_Some in Hx as [[<- <-]|[Hne Hx]].
    + rewrite Z.eqb_refl. replace (parent_of o =? a) with false by (symmetry; by apply Z.eqb_neq). rewrite andb_false_r. lia.
    + replace (b =? a) with false by (symmetry; apply Z.eqb_neq; congruence).
      destruct (in_ref0 b x Hx) as (? & ? & ?). destruct (in_shape0 b x Hx) as (Hb0 & _).
      destruct (Z.eqb_spec (parent_of o) b) as [Ep|]; [|rewrite andb_false_r; lia].
      replace (parent_of o =? 0) with false by (symmetry; apply Z.eqb_neq; congruence). simpl.
      destruct Hpar as [|[_ HE1]]; [congruence|]. rewrite Ep in HE1. lia.
  - intros b Hb'. rewrite Had in Hb'. destruct (decide (b = a)) as [->|Hne]; [by rewrite lookup_insert_eq|]. apply Hdom.
    replace (b =? a) with false in Hb' by (symmetry; by apply Z.eqb_neq).
    destruct (Z.eqb_spec (parent_of o) b) as [Ep|]; [|rewrite andb_false_r in Hb'; apply Hext; lia].
    destruct Hpar as [Hp0|[Hp1 _]]; [|by rewrite <- Ep]. rewrite Hp0 in Hb'. simpl in Hb'. apply Hext. lia.
  - intros b x Hx H1. apply lookup_insert_Some in Hx as [[<- <-]|[_ Hx]].
    + destruct Hpar as [|[Hp _]]; [by left|right; by apply Hdom].
    + destruct (in_parent0 b x Hx H1); [by left|right; by apply Hdom].
Qed.

(** A heap that only lost or won blocks nobody here owns. *)
Lemma inv_heap B U E st h : inv B U E st -> kwf h -> klive h = klive (oheap st) -> inv B U E (set_oheap h st).
Proof. intros Hi Hw Hl. destruct Hi. split; cbn [objs oheap opmm set_oheap]; try done. by rewrite Hl. Qed.

(** The address of a new block is not an object. *)
Lemma fresh_addr B U E st a : inv B U E st -> a ∉ klive (oheap st) -> objs st !! a = None.
Proof.
  intros Hi Ha. destruct (objs st !! a) as [o|] eqn:Eo; [|done]. destruct Ha. rewrite (in_live _ _ _ _ Hi).
  apply elem_of_union_r, elem_of_list_to_set. eapply elem_of_flat; [done|]. left.
Qed.

(** What the invariant says between two operations: no object is without
    references, and parents are older than their shadows. *)
Definition ranked (rk : Z -> nat) st : Prop :=
  forall a o, objs st !! a = Some o -> parent_of o <> 0 -> (rk (parent_of o) < rk a)%nat.

(** Sizes for which the page numbers and the bitmap fit an [int]. *)
Definition sane st : Prop := forall a o, objs st !! a = Some o -> o_size o <= 2 ^ 42.

Record good (B : gset Z) (U : Z -> Prop) (E : Z -> Z) st : Prop := {
  g_inv : inv B U E st;
  g_live a o : objs st !! a = Some o -> 1 <= o_ref o;
  g_rank : exists rk, ranked rk st;
  g_sane : sane st;
}.

Lemma good_heap B U E st h : good B U E st -> kwf h -> klive h = klive (oheap st) -> good B U E (set_oheap h st).
Proof. intros [Hi Hl Hr Hs] Hw Hk. split; [by apply inv_heap|done..]. Qed.

(** A new object: its blocks are new, and its parent gives it a reference. *)
Lemma good_add B U E st a o h : good B U E st -> objs st !! a = None -> obj_ok a o -> o_size o <= 2 ^ 42 -> o_ref o = 1 -> oframes a o = [] ->
  (parent_of o = 0 \/ is_Some (objs st !! parent_of o) /\ 1 <= E (parent_of o)) ->
  kwf h -> klive h = list_to_set (oblocks a o) ∪ klive (oheap st) -> NoDup (oblocks a o) ->
  (forall x, x ∈ oblocks a o -> x ∉ klive (oheap st)) ->
  good B U (adopt o a E) (OSt (<[a := o]> (objs st)) h (opmm st) (fmem st)).
Proof.
  intros [Hi Hl [rk Hr] Hs] Ha Hok Hsz Ho Hf Hp Hw Hk Hnd Hx. split; [by apply inv_add| | |].
  - intros b x Hb. simpl in Hb. apply lookup_insert_Some in Hb as [[<- <-]|[_ Hb]]; [lia|by eapply Hl].
  - exists (fun b => if b =? a then S (rk (parent_of o)) else rk b). intros b x Hb Hpb. simpl in Hb.
    assert (forall y, objs st !! y = Some x -> parent_of x <> a) as Hne.
    { intros y Hy Ep. destruct (in_parent _ _ _ _ Hi y x Hy (Hl y x Hy)) as [?|[z Hz]]; [done|]. by rewrite Ep, Ha in Hz. }
    apply lookup_insert_Some in Hb as [[<- <-]|[Hab Hb]].
    + rewrite Z.eqb_refl. replace (parent_of o =? a) with false; [lia|]. symmetry. apply Z.eqb_neq. intros Ep.
      destruct Hp as [?|[[z Hz] _]]; [done|]. by rewrite Ep, Ha in Hz.
    + replace (b =? a) with false by (symmetry; apply Z.eqb_neq; congruence).
      replace (parent_of x =? a) with false by (symmetry; apply Z.eqb_neq; by apply (Hne b)). by apply Hr.
  - intros b x Hb. simpl in Hb. apply lookup_insert_Some in Hb as [[<- <-]|[_ Hb]]; [done|by eapply Hs].
Qed.

(** [vm_object_alloc] for an object that owns nothing else. *)
Definition created size port d (B : gset Z) (U : Z -> Prop) (E : Z -> Z) st (r : Z * ost) : Prop :=
  let '(a, st') := r in
  a = 0 /\ good B U E st' /\ objs st' = objs st \/
  a <> 0 /\ 0 < size /\ objs st !! a = None /\ objs st' = <[a := Obj 1 size port d]> (objs st) /\ good B U (bump a 1 E) st'.

Lemma alloc_spec B U E st size port d : good B U E st -> 0 <= size <= 2 ^ 42 ->
  match d with DAnon | DPhys _ | DUserPaged | DShared 0 [] 0 => True | _ => False end ->
  created size port d B U E st (vm_object_alloc size port d st).
Proof.
  intros Hg Hs Hd. unfold vm_object_alloc. destruct (Z.eqb_spec size 0) as [|Hz]; [by left|].
  destruct (kmalloc _ _) as [[a|] h] eqn:Ek.
  2:{ left. destruct (kmalloc_none _ _ _ (in_heap _ _ _ _ (g_inv _ _ _ _ Hg)) Ek). split; [done|]. split; [|done]. by apply good_heap. }
  destruct (kmalloc_some _ _ _ _ (in_heap _ _ _ _ (g_inv _ _ _ _ Hg)) Ek) as (Hw & Hf & Ha0 & Hl).
  assert (oblocks a (Obj 1 size port d) = [a] /\ oframes a (Obj 1 size port d) = [] /\ parent_of (Obj 1 size port d) = 0 /\
    obj_ok a (Obj 1 size port d)) as (Hb & Hfr & Hp & Hok).
  { unfold oblocks, oframes, parent_of, obj_ok. cbn [o_data o_size]. destruct d as [| |[| |] [|] [| |]| |]; try done;
      repeat split; try done; lia. }
  assert (objs st !! a = None) as Hna by (eapply fresh_addr; [apply Hg|done]).
  right. split; [done|]. split; [lia|]. split; [done|]. split; [done|].
  replace (bump a 1 E) with (adopt (Obj 1 size port d) a E) by (unfold adopt; by rewrite Hp).
  apply (good_add B U E st a _ h); try done; [simpl; lia|by left| |rewrite Hb; apply NoDup_singleton|rewrite Hb; by intros x ->%list_elem_of_singleton].
  rewrite Hl, Hb. clear. set_solver.
Qed.

Lemma retain_spec B U E st a o : good B U E st -> objs st !! a = Some o -> o_ref o < 2 ^ 31 - 1 ->
  returns (vm_object_retain a st) (good B U (bump a 1 E)).
Proof.
  intros [Hi Hl [rk Hr] Hs] Ha Hm. unfold vm_object_retain. destruct (in_shape _ _ _ _ Hi a o Ha) as (Ha0 & _).
  destruct (in_ref _ _ _ _ Hi a o Ha) as (HE & _). pose proof (Hl a o Ha). zcmp. unfold ldo. rewrite Ha. ret.
  rewrite signed_ok by lia. ret. split.
  - apply inv_count; try done; lia.
  - intros b x Hb. simpl in Hb. apply lookup_insert_Some in Hb as [[<- <-]|[_ Hb]]; [simpl; lia|by eapply Hl].
  - exists rk. intros b x Hb. simpl in Hb. apply lookup_insert_Some in Hb as [[<- <-]|[_ Hb]]; [by apply (Hr a o)|by apply Hr].
  - intros b x Hb. simpl in Hb. apply lookup_insert_Some in Hb as [[<- <-]|[_ Hb]]; [by apply (Hs a o)|by eapply Hs].
Qed.

Lemma release_good B U E st a : good B U E st -> 1 <= E a ->
  returns (release a st) (good B U (bump a (-1) E)).
Proof.
  intros [Hi Hl [rk Hr] Hs] HE. unfold release.
  assert (msum alive (objs st) <= Z.of_nat (size (objs st))) as Hal.
  { unfold msum. rewrite <- length_map_to_list, <- (length_fmap snd). generalize ((map_to_list (objs st)).*2). clear.
    induction l as [|x l IH]; simpl; [lia|]. unfold alive at 1. destruct (_ <=? _); lia. }
  eapply returns_mono; [apply (obj_release_spec B U _ a E st Hi HE); lia|]. intros st' [Hi' [_ Ht]]. split; [done| | |].
  - intros b o Hb. destruct (Ht b o Hb) as (o0 & Hb0 & Hz & _). pose proof (Hl b o0 Hb0).
    destruct (in_ref _ _ _ _ Hi' b o Hb) as (? & ? & _). pose proof (msum_nonneg (shadows b) (objs st') (shadows_nonneg b)).
    destruct (Z.eq_dec (o_ref o) 0) as [E0|]; [specialize (Hz E0)|]; lia.
  - exists rk. intros b o Hb Hp. destruct (Ht b o Hb) as (o0 & Hb0 & _ & Ed & _).
    assert (parent_of o = parent_of o0) as Ep by (unfold parent_of; by rewrite Ed). rewrite Ep in *. by apply (Hr b o0).
  - intros b o Hb. destruct (Ht b o Hb) as (o0 & Hb0 & _ & _ & ->). by eapply Hs.
Qed.

Lemma kcalloc_some h count n p h' : kwf h -> kcalloc count n h = (Some p, h') ->
  kwf h' /\ (p ∉ klive h) /\ p <> 0 /\ klive h' = {[p]} ∪ klive h.
Proof. intros Hw. unfold kcalloc. destruct (_ && _); [done|]. by apply kmalloc_some. Qed.

Lemma kcalloc_none h count n h' : kwf h -> kcalloc count n h = (None, h') -> kwf h' /\ klive h' = klive h.
Proof. intros Hw. unfold kcalloc. destruct (_ && _); [by intros [= <-]|]. by apply kmalloc_none. Qed.

Lemma good_ext B U E E' st : good B U E st -> (forall b, E' b = E b) -> good B U E' st.
Proof. intros [Hi Hl Hr Hs] HE. split; [by eapply inv_ext|done..]. Qed.

(** A shadow of an object the caller holds a reference to. *)
Lemma create_shadow_spec B U E st parent po : good B U E st -> objs st !! parent = Some po -> 1 <= E parent -> o_ref po < 2 ^ 31 - 1 ->
  returns (vm_object_create_shadow parent st) (fun '(a, st') =>
    a = 0 /\ good B U E st' /\ objs st' = objs st \/
    a <> 0 /\ objs st !! a = None /\ good B U (bump a 1 E) st' /\
    (exists map, objs st' !! a = Some (Obj 1 (o_size po) 0
      (DShadow parent map (replicate (Z.to_nat (u32 (shadow_nwords (o_size po)))) 0) (shadow_nwords (o_size po))))) /\
    objs st' !! parent = Some (set_ref (o_ref po + 1) po)).
Proof.
  intros Hg Hp HE Hm. pose proof (g_inv _ _ _ _ Hg) as Hi. destruct (in_shape _ _ _ _ Hi _ _ Hp) as (Hp0 & Hs & _).
  unfold vm_object_create_shadow. zcmp. replace (ldo parent st) with (Ret po) by (unfold ldo; by rewrite Hp). ret.
  unfold vm_object_alloc. zcmp.
  destruct (kmalloc _ _) as [[a|] h1] eqn:E1.
  2:{ ret. left. destruct (kmalloc_none _ _ _ (in_heap _ _ _ _ Hi) E1). split; [done|]. split; [by apply good_heap|done]. }
  destruct (kmalloc_some _ _ _ _ (in_heap _ _ _ _ Hi) E1) as (Hw1 & Hf1 & Ha0 & Hl1).
  pose proof (fresh_addr _ _ _ _ a Hi Hf1) as Hna. zcmp. cbn [sto set_objs set_oheap oheap objs opmm fmem].
  assert (parent <> a) as Hpa by (intros ->; by rewrite Hna in Hp).
  destruct (kcalloc _ _ _) as [[map|] h2] eqn:E2.
  2:{ ret. left. split; [done|]. destruct (kcalloc_none _ _ _ _ Hw1 E2) as [Hw2 Hl2].
      destruct (kfree_live h2 a Hw2) as [Hw3 Hl3]; [rewrite Hl2, Hl1; clear; set_solver|]. rewrite delete_insert_id by done.
      split; [|done]. apply (good_heap B U E st); [done|done|]. rewrite Hl3, Hl2, Hl1. clear -Hf1. set_solver. }
  destruct (kcalloc_some _ _ _ _ _ Hw1 E2) as (Hw2 & Hf2 & Hm0 & Hl2).
  unfold ldo. cbn [sto set_objs set_oheap objs]. rewrite lookup_insert_eq. ret. unfold sto, set_objs, set_oheap, set_odata.
  cbn [oheap objs opmm fmem o_ref o_size o_port].
  rewrite insert_insert_eq. set (no := Obj 1 (o_size po) 0 _).
  assert (oblocks a no = [a; map]) as Hb by (unfold oblocks, null_or; cbn [o_data no]; by zcmp).
  assert (good B U (adopt no a E) (OSt (<[a := no]> (objs st)) h2 (opmm st) (fmem st))) as Hg1.
  { apply good_add; try done.
    2: exact (g_sane _ _ _ _ Hg parent po Hp).
    - split; [done|]. split; [done|]. cbn [o_data no o_size]. rewrite length_replicate. done.
    - right. split; [by exists po|done].
    - rewrite Hb, Hl2, Hl1. clear. set_solver.
    - rewrite Hb. apply NoDup_cons. split; [|apply NoDup_singleton]. rewrite list_elem_of_singleton. intros ->.
      apply Hf2. rewrite Hl1. clear. set_solver.
    - rewrite Hb. intros x [->| ->%list_elem_of_singleton]%elem_of_cons; [done|]. intros Hin. apply Hf2. rewrite Hl1.
      clear -Hin. set_solver. }
  assert (<[a := no]> (objs st) !! parent = Some po) as Hp1 by (by rewrite lookup_insert_ne).
  unfold vm_object_retain. zcmp. unfold ldo. cbn [objs]. rewrite Hp1. ret.
  pose proof (g_live _ _ _ _ Hg _ _ Hp). rewrite signed_ok by lia. ret. right. split; [done|]. split; [done|].
  assert (returns (vm_object_retain parent (OSt (<[a := no]> (objs st)) h2 (opmm st) (fmem st)))
    (good B U (bump parent 1 (adopt no a E)))) as Hr by (by apply (retain_spec B U _ _ _ po)).
  unfold vm_object_retain in Hr. revert Hr. zcmp. unfold ldo. cbn [objs]. rewrite Hp1. ret. rewrite signed_ok by lia. ret. intros Hr.
  split; [|split; [exists map; simpl; rewrite lookup_insert_ne by done; apply lookup_insert_eq|apply lookup_insert_eq]].
  eapply good_ext; [exact Hr|]. intros b. unfold adopt. cbn [parent_of o_data no]. zcmp. unfold bump.
  destruct (b =? parent), (b =? a); lia.
Qed.

(** ** Faults keep the invariant *)

(** An object whose data changed: its blocks are old or new ones, and its
    additional frames were free. *)
Lemma inv_upd B U E st a o o' h p fm new : inv B U E st -> objs st !! a = Some o ->
  o_ref o' = o_ref o -> parent_of o' = parent_of o -> obj_ok a o' ->
  kwf h -> klive h = klive (oheap st) ∖ list_to_set (oblocks a o) ∪ list_to_set (oblocks a o') ->
  NoDup (oblocks a o') -> (forall x, x ∈ oblocks a o' -> x ∉ klive (oheap st) \/ x ∈ oblocks a o) ->
  oframes a o' ≡ₚ new ++ oframes a o -> NoDup (page_of <$> new) ->
  (forall f, f ∈ new -> page_free (opmm st) (page_of f) /\ f = page_of f * PAGE) ->
  taken (opmm st) (fun i => i ∈ page_of <$> new) p ->
  inv B U E (OSt (<[a := o']> (objs st)) h p fm).
Proof.
  intros Hi Ha Hr Hpar Hok Hw Hl Hnd Hx Hfr Hnn Hnew (Hp & Ht & _ & Hg). destruct Hi.
  pose proof (flat_delete oblocks _ _ _ Ha) as Hb. pose proof (flat_upd oblocks _ _ _ o' Ha) as Hb'.
  assert (flat oframes (<[a := o']> (objs st)) ≡ₚ new ++ flat oframes (objs st)) as Hf.
  { rewrite (flat_upd oframes _ _ _ o' Ha), Hfr, (flat_delete oframes _ _ _ Ha). by rewrite app_assoc. }
  assert (NoDup (oblocks a o ++ flat oblocks (delete a (objs st)))) as Hnd' by (by rewrite <- Hb).
  apply NoDup_app in Hnd' as (_ & Hdis & Hnd').
  assert (forall x, x ∈ flat oblocks (delete a (objs st)) -> x ∈ klive (oheap st)) as Hsub.
  { intros x Hin. rewrite in_live0. apply elem_of_union_r, elem_of_list_to_set. rewrite Hb, elem_of_app. tauto. }
  assert (forall q, shadows q o' = shadows q o) as Hs by (intros q; unfold shadows; by rewrite Hr, Hpar).
  assert (forall b, is_Some (objs st !! b) -> is_Some (<[a := o']> (objs st) !! b)) as Hdom
    by (intros b Hb0; rewrite lookup_insert_is_Some'; by right).
  assert (forall b x, <[a := o']> (objs st) !! b = Some x -> exists y, objs st !! b = Some y /\ o_ref x = o_ref y /\ parent_of x = parent_of y) as Hold.
  { intros b x [[<- <-]|[_ Hb0]]%lookup_insert_Some; [by exists o|by exists x]. }
  split; cbn [objs oheap opmm]; try done.
  - rewrite Hl, in_live0. apply set_eq. intros x.
    rewrite !elem_of_union, elem_of_difference, elem_of_union, !elem_of_list_to_set, Hb, Hb', !elem_of_app. split; [tauto|].
    intros [HB|[Hin|Hin]]; [|tauto|left; split; [tauto|]; intros Hin'; by apply (Hdis x)].
    left. split; [by left|]. intros Hin. apply (in_base0 x); [|done]. rewrite Hb, elem_of_app. tauto.
  - rewrite Hb'. apply NoDup_app. split; [done|]. split; [|done]. intros x Hin Hin'.
    destruct (Hx x Hin) as [Hn|Ho]; [by apply Hn, Hsub|by apply (Hdis x)].
  - intros x. rewrite Hb', elem_of_app. intros [Hin|Hin]; [|apply in_base0; rewrite Hb, elem_of_app; tauto].
    destruct (Hx x Hin) as [Hn|Ho]; [intros HB; apply Hn; rewrite in_live0; by apply elem_of_union_l|apply in_base0; rewrite Hb, elem_of_app; tauto].
  - intros i. rewrite Hg, in_free0, Ht, Hf, fmap_app, elem_of_app. fold page_of. tauto.
  - rewrite Hf, fmap_app. apply NoDup_app. split; [done|]. split; [|done]. intros i (f & -> & Hin)%list_elem_of_fmap.
    destruct (Hnew f Hin) as [(_ & _ & Hn)%in_free0 _]. done.
  - intros f. rewrite Hf, elem_of_app, Ht. intros [Hin|Hin]; [|by apply in_frames0].
    destruct (Hnew f Hin) as [(Hrg & Hu & _)%in_free0 Hfe]. split; [|by split].
    assert (page_of f <> 0) by (intros E0; unfold page_of in *; by rewrite E0 in Hu). unfold page_of in *. lia.
  - intros i. rewrite Ht. apply in_low0.
  - intros b x Hb0. apply lookup_insert_Some in Hb0 as [[<- <-]|[_ Hb0]]; [done|by apply in_shape0].
  - intros b x Hb0. destruct (Hold b x Hb0) as (y & Hy & -> & _). rewrite (msum_upd _ _ _ o) by done. rewrite Hs.
    destruct (in_ref0 b y Hy) as (? & ? & ?). lia.
  - intros b Hb0. by apply Hdom, in_ext0.
  - intros b x Hb0 H1. destruct (Hold b x Hb0) as (y & Hy & Er & ->). rewrite Er in H1.
    destruct (in_parent0 b y Hy H1); [by left|right; by apply Hdom].
Qed.

(** A free page handed out. *)
Lemma inv_take B U E st k p fm : inv B U E st -> page_free (opmm st) k -> taken (opmm st) (fun j => j = k) p ->
  inv B (fun i => U i \/ i = k) E (OSt (objs st) (oheap st) p fm).
Proof.
  intros Hi Hk (Hp & Ht & _ & Hg). destruct Hi. apply in_free0 in Hk as (Hrg & Hu & Hn).
  split; cbn [objs oheap opmm]; try done.
  - intros i. rewrite Hg, in_free0, Ht. tauto.
  - intros f Hf. rewrite Ht. destruct (in_frames0 f Hf) as (? & ? & ?). split; [done|]. split; [done|].
    intros [?|Ek]; [done|]. apply Hn. rewrite <- Ek. apply list_elem_of_fmap. by exists f.
  - by left.
  - intros i Hi Hni. rewrite Ht in Hi. apply in_low0; tauto.
Qed.

Lemma inv_pmm B U E st p : inv B U E st -> pmm_wf p -> total_pages p = total_pages (opmm st) ->
  (forall i, page_free p i <-> page_free (opmm st) i) -> inv B U E (set_opmm p st).
Proof.
  intros Hi Hp Ht Hg. destruct Hi. split; cbn [objs oheap opmm set_opmm]; try done.
  - intros i. rewrite Hg, Ht. apply in_free0.
  - intros f Hf. rewrite Ht. by apply in_frames0.
  - intros i. rewrite Ht. apply in_low0.
Qed.

(** Why there may be no new frame. *)
Definition no_page st : Prop := forall k, ~ page_free (opmm st) k.
Definition no_frame st : Prop := no_page st \/ exists k, page_free (opmm st) k /\ temp_map (k * PAGE) = false.

(** A new zeroed frame, or nothing changes as far as pages go. *)
Definition new_frame st (r : Z * ost) : Prop := let '(f, st') := r in
  objs st' = objs st /\ oheap st' = oheap st /\ total_pages (opmm st') = total_pages (opmm st) /\
  (f = 0 /\ no_frame st /\ pmm_wf (opmm st') /\ (forall i, page_free (opmm st') i <-> page_free (opmm st) i) /\ fmem st' = fmem st \/
   f <> 0 /\ f = page_of f * PAGE /\ page_free (opmm st) (page_of f) /\ taken (opmm st) (fun j => j = page_of f) (opmm st') /\
   fmem st' = <[f := zero_page]> (fmem st)).

Lemma page_mul k : page_of (k * PAGE) = k.
Proof. unfold page_of, PAGE. apply Z.div_mul. lia. Qed.

(** A page that is allocated and freed again. *)
Lemma take_give p p' p'' k : pmm_wf p -> page_free p k -> taken p (fun j => j = k) p' -> given p' (fun j => j = k) p'' ->
  pmm_wf p'' /\ total_pages p'' = total_pages p /\ forall i, page_free p'' i <-> page_free p i.
Proof.
  intros _ Hk (_ & Ht & _ & Hg) (Hw & Ht' & _ & Hg'). split; [done|]. split; [congruence|]. intros i. rewrite Hg', Hg, Ht.
  pose proof Hk as [Hr _]. destruct (Z.eq_dec i k) as [->|]; tauto.
Qed.

(** The page allocator under the invariant: page 0 is never handed out. *)
Lemma alloc_page_inv B U E st : inv B U E st -> returns (pmm_alloc_page (opmm st)) (fun '(f, p) =>
  f = 0 /\ p = opmm st /\ no_page st \/
  f <> 0 /\ f = page_of f * PAGE /\ page_free (opmm st) (page_of f) /\ taken (opmm st) (fun j => j = page_of f) p /\ f < IDENTITY_END).
Proof.
  intros Hi. eapply returns_mono; [apply pmm_alloc_page_spec, Hi|]. intros [f p] [(Hno & -> & ->)|(k & -> & Hk & _ & Ht & _)]; [by left|].
  right. rewrite page_mul. pose proof (in_page0 _ _ _ _ Hi). pose proof (proj1 (in_free _ _ _ _ Hi k) Hk) as (Hr & Hu & _).
  assert (k <> 0) by (by intros ->). split; [unfold PAGE; lia|]. split; [done|]. split; [done|]. split; [done|].
  by apply (in_low _ _ _ _ Hi).
Qed.

Lemma new_zero_frame_spec B U E st : inv B U E st -> returns (new_zero_frame st) (new_frame st).
Proof.
  intros Hi. unfold new_zero_frame. eapply returns_bind; [by eapply alloc_page_inv|]. intros [f p] Hf. cbv beta iota.
  destruct Hf as [(-> & -> & Hno)|(Hf0 & Hfe & Hk & Ht & _)].
  - ret. cbn [set_opmm objs oheap opmm fmem]. repeat (split; [done|]). left. split; [done|]. split; [by left|]. split; [apply Hi|done].
  - zcmp. destruct (temp_map f) eqn:Em.
    + ret. cbn [set_opmm set_frame objs oheap opmm fmem]. repeat (split; [done|]). split; [apply Ht|]. by right.
    + pose proof Hk as [Hr _]. eapply returns_bind; [apply free_at_spec; [apply Ht|unfold page_of in Hr; lia]|]. intros q Hq. ret.
      destruct (take_give _ _ _ _ (in_pmm _ _ _ _ Hi) Hk Ht Hq) as (Hw & Ht' & Hg).
      cbn [set_opmm objs oheap opmm fmem]. repeat (split; [done|]). left. split; [done|].
      split; [right; exists (page_of f); by rewrite <- Hfe|]. done.
Qed.

(** *** The page cache of a shared object *)

Definition cached o (i : Z) : Z := match o_data o with DShared _ c _ => default 0 (getz c i) | _ => 0 end.

Lemma grow_cap_spec idx : 0 <= idx < 2 ^ 31 -> forall fuel c, 0 < c < 2 ^ 32 -> idx < c * 2 ^ Z.of_nat fuel ->
  returns (grow_cap (S fuel) c idx) (fun r => idx < r < 2 ^ 32 /\ c <= r).
Proof.
  intros Hi. induction fuel as [|fuel IH]; intros c Hc Hf.
  - change (2 ^ Z.of_nat 0) with 1 in Hf. cbn [grow_cap]. zcmp. ret. lia.
  - rewrite Nat2Z.inj_succ, Z.pow_succ_r in Hf by lia. cbn [grow_cap]. destruct (Z.leb_spec c idx) as [Hle|]; [|ret; lia].
    rewrite u32_small by (unfold in_u32; lia). eapply returns_mono; [apply IH; lia|]. cbv beta. lia.
Qed.

Lemma oblocks_live B U E st a o x : inv B U E st -> objs st !! a = Some o -> x ∈ oblocks a o -> x ∈ klive (oheap st).
Proof.
  intros Hi Ha Hx. rewrite (in_live _ _ _ _ Hi). apply elem_of_union_r, elem_of_list_to_set. by eapply elem_of_flat.
Qed.

Lemma filter_zeros k : filter (fun f : Z => f <> 0) (replicate k 0) = [].
Proof. induction k as [|k IH]; [done|]. simpl. rewrite filter_cons_False; [done|tauto]. Qed.

(** Swapping the array of the cache for a longer one. *)
Lemma inv_regrow B U E st a o pages content cap np k h : inv B U E st -> objs st !! a = Some o -> o_data o = DShared pages content cap ->
  np <> 0 -> np ∉ klive (oheap st) -> kwf h -> klive h = {[np]} ∪ klive (oheap st) -> cap + Z.of_nat k < 2 ^ 32 ->
  inv B U E (sto a (set_odata (DShared np (content ++ replicate k 0) (cap + Z.of_nat k)) o)
               (set_oheap (if pages =? 0 then h else kfree pages h) st)).
Proof.
  intros Hi Ha Ed Hn0 Hnl Hw Hl Hk. destruct (in_shape _ _ _ _ Hi a o Ha) as (Ha0 & Hs & Hd). rewrite Ed in Hd.
  destruct Hd as (Hlen & Hc & Hz). set (o' := set_odata _ _).
  assert (oblocks a o' = [a; np]) as Hb' by (unfold oblocks, null_or; cbn [o_data o' set_odata]; by zcmp).
  assert (oblocks a o = a :: null_or pages) as Hb by (unfold oblocks; by rewrite Ed).
  assert (a ∈ klive (oheap st)) as Hal by (eapply oblocks_live; [done..|]; rewrite Hb; left).
  assert (NoDup (oblocks a o)) as Hnd.
  { pose proof (in_nodup _ _ _ _ Hi) as Hn. rewrite (flat_delete oblocks _ _ _ Ha) in Hn. by apply NoDup_app in Hn as (? & _). }
  assert (kwf (if pages =? 0 then h else kfree pages h) /\
    klive (if pages =? 0 then h else kfree pages h) = klive (oheap st) ∖ list_to_set (oblocks a o) ∪ list_to_set (oblocks a o')) as [Hw' Hl'].
  { rewrite Hb, Hb' in *. unfold null_or in *. destruct (Z.eqb_spec pages 0) as [|Hp].
    - split; [done|]. rewrite Hl. apply set_eq. intros x. clear -Hal. destruct (decide (x = a)); set_solver.
    - assert (pages ∈ klive (oheap st)) as Hpl by (eapply oblocks_live; [done..|]; rewrite Hb; right; left).
      destruct (kfree_live h pages Hw) as [Hw2 Hl2]; [rewrite Hl; by apply elem_of_union_r|]. split; [done|]. rewrite Hl2, Hl.
      assert (pages <> a) by (apply NoDup_cons in Hnd as [Hnd _]; intros ->; apply Hnd; left).
      assert (pages <> np) by (intros ->; done).
      apply set_eq. intros x. clear -Hal H0 H1. destruct (decide (x = a)), (decide (x = pages)); set_solver. }
  apply (inv_upd B U E st a o o' _ (opmm st) (fmem st) []); try done.
  - unfold parent_of. cbn [o_data o' set_odata]. by rewrite Ed.
  - split; [done|]. split; [done|]. cbn [o_data o' set_odata]. rewrite length_app, length_replicate, Hlen.
    split; [lia|]. split; [lia|]. done.
  - rewrite Hb'. apply NoDup_cons. split; [|apply NoDup_singleton]. rewrite list_elem_of_singleton. by intros ->.
  - rewrite Hb', Hb. intros x [->| ->%list_elem_of_singleton]%elem_of_cons; [right; left|by left].
  - unfold oframes. cbn [o_data o' set_odata]. rewrite Ed, filter_app, filter_zeros, app_nil_r. done.
  - simpl. constructor.
  - intros f []%elem_of_nil.
  - split; [apply Hi|]. split; [done|]. split; [done|]. intros j. simpl. split; [|tauto]. intros ?. split; [done|]. apply not_elem_of_nil.
Qed.

(** The heap has no room for a larger array. *)
Definition refused (cap idx : Z) st : Prop := cap <= idx /\ exists nc h',
  grow_cap grow_fuel (if cap =? 0 then 64 else u32 (cap * 2)) idx = Ret nc /\ kcalloc nc 8 (oheap st) = (None, h').

Lemma shared_grow_spec B U E st a o pages content cap idx : inv B U E st -> objs st !! a = Some o -> o_data o = DShared pages content cap ->
  0 <= idx < 2 ^ 31 ->
  returns (shared_grow a o pages content cap idx st) (fun '(r, st') => inv B U E st' /\ opmm st' = opmm st /\ fmem st' = fmem st /\
    match r with
    | None => objs st' = objs st /\ refused cap idx st
    | Some c => exists pages' k, c = content ++ replicate k 0 /\ idx < Z.of_nat (length c) /\ Z.of_nat (length c) = cap + Z.of_nat k /\
        objs st' = <[a := set_odata (DShared pages' c (cap + Z.of_nat k)) o]> (objs st)
    end).
Proof.
  intros Hi Ha Ed Hidx. destruct (in_shape _ _ _ _ Hi a o Ha) as (Ha0 & Hs & Hd). rewrite Ed in Hd.
  destruct Hd as (Hlen & Hc & Hz). unfold shared_grow. destruct (Z.ltb_spec idx cap) as [Hlt|Hge].
  - ret. split; [done|]. split; [done|]. split; [done|]. exists pages, 0%nat. simpl. rewrite app_nil_r, Z.add_0_r.
    split; [done|]. split; [lia|]. split; [lia|]. rewrite <- Ed. replace (set_odata (o_data o) o) with o by (by destruct o).
    by rewrite insert_id.
  - assert (returns (grow_cap grow_fuel (if cap =? 0 then 64 else u32 (cap * 2)) idx) (fun r => idx < r < 2 ^ 32 /\
      (if cap =? 0 then 64 else u32 (cap * 2)) <= r)) as Hgc.
    { apply (grow_cap_spec idx Hidx 63); [destruct (Z.eqb_spec cap 0); [lia|rewrite u32_small by (unfold in_u32; lia); lia]|].
      change (2 ^ Z.of_nat 63) with (2 ^ 63). destruct (Z.eqb_spec cap 0); [lia|]. rewrite u32_small by (unfold in_u32; lia). lia. }
    destruct (returns_inv _ _ Hgc) as (nc & Egc & Hnc & Hle). rewrite Egc. ret.
    assert (cap <= nc) as Hcn by (destruct (Z.eqb_spec cap 0); [lia|]; rewrite u32_small in Hle by (unfold in_u32; lia); lia).
    destruct (kcalloc _ _ _) as [[np|] h] eqn:Ek.
    2:{ ret. destruct (kcalloc_none _ _ _ _ (in_heap _ _ _ _ Hi) Ek). split; [by apply inv_heap|].
        split; [done|]. split; [done|]. split; [done|]. split; [lia|]. by exists nc, h. }
    destruct (kcalloc_some _ _ _ _ _ (in_heap _ _ _ _ Hi) Ek) as (Hw & Hf & Hn0 & Hl).
    set (k := Z.to_nat (nc - cap)). assert (nc = cap + Z.of_nat k) as Enc by lia.
    assert ((if pages =? 0 then Ret (replicate (Z.to_nat nc) 0) else memcpy_arr (replicate (Z.to_nat nc) 0) content cap) =
      Ret (content ++ replicate k 0)) as ->.
    { destruct (Z.eqb_spec pages 0) as [Hp|].
      - rewrite (Hz Hp) in Hlen. apply length_zero_iff_nil in Hlen as ->. simpl. do 3 f_equal. specialize (Hz Hp). lia.
      - rewrite memcpy_arr_ok by (rewrite ?length_replicate; lia). rewrite take_ge by lia. rewrite drop_replicate. do 3 f_equal. lia. }
    ret. rewrite Enc. split; [by eapply inv_regrow; [..|lia]|]. split; [done|]. split; [done|].
    exists np, k. rewrite length_app, length_replicate. split; [done|]. split; [lia|]. split; [lia|done].
Qed.

(** *** The fault functions *)

(** Faults keep counts, sizes and parents. *)
Definition twin o o' : Prop := o_ref o' = o_ref o /\ o_size o' = o_size o /\ parent_of o' = parent_of o.

#[local] Instance twin_preorder : PreOrder twin.
Proof. split; [done|]. intros x y z (? & ? & ?) (? & ? & ?). by repeat split; etrans. Qed.

Definition kept st st' : Prop := forall b, option_Forall2 twin (objs st !! b) (objs st' !! b).

#[local] Instance kept_preorder : PreOrder kept.
Proof. split; intros st; [intros b; reflexivity|]. intros st1 st2 H1 H2 b. exact (transitivity (H1 b) (H2 b)). Qed.

Lemma kept_eq st st' : objs st' = objs st -> kept st st'.
Proof. intros E b. rewrite E. reflexivity. Qed.

Lemma kept_insert st st' a o o' : objs st !! a = Some o -> twin o o' -> objs st' = <[a := o']> (objs st) -> kept st st'.
Proof.
  intros Ha Ht E b. rewrite E. destruct (decide (b = a)) as [->|]; [rewrite Ha, lookup_insert_eq; by constructor|].
  rewrite lookup_insert_ne by done. reflexivity.
Qed.

(** A frame nobody used, filled with zeros. *)
Definition fresh_zero st (f : Z) st' : Prop :=
  f <> 0 /\ f = page_of f * PAGE /\ page_free (opmm st) (page_of f) /\ fmem st' !! f = Some zero_page /\ ~ page_free (opmm st') (page_of f).

Lemma anon_fault_spec B U E st o off : inv B U E st ->
  returns (vm_object_anon_fault o off st) (fun '(ret, f, st') => objs st' = objs st /\
    (ret = -1 /\ (o_size o <= off \/ no_frame st) /\ inv B U E st' \/
     ret = 0 /\ off < o_size o /\ fresh_zero st f st' /\ inv B (fun i => U i \/ i = page_of f) E st')).
Proof.
  intros Hi. unfold vm_object_anon_fault. destruct (Z.leb_spec (o_size o) off) as [Hle|Hlt]; [split; [done|]; left; by auto|].
  eapply returns_bind; [by eapply new_zero_frame_spec|]. intros [f st'] (Eo & Eh & Et & Hf). ret. split; [done|].
  assert (forall p fm, st' = OSt (objs st') (oheap st') p fm -> st' = OSt (objs st) (oheap st) p fm) as Est by (intros p fm; by rewrite Eo, Eh).
  destruct Hf as [(-> & Hno & Hw & Hg & Em)|(Hf0 & Hfe & Hk & Ht & Em)].
  - left. split; [done|]. split; [by right|]. rewrite (Est (opmm st') (fmem st')) by (by destruct st'). rewrite Em. by apply (inv_pmm B U E st (opmm st')).
  - right. zcmp. split; [done|]. split; [done|]. pose proof Ht as (_ & _ & _ & Hg). split.
    + repeat (split; [done|]). rewrite Em, lookup_insert_eq. split; [done|]. rewrite Hg. tauto.
    + rewrite (Est (opmm st') (fmem st')) by (by destruct st'). by apply inv_take.
Qed.

Lemma filter_fill (c : list Z) i f : c !! i = Some 0 -> f <> 0 ->
  filter (fun x => x <> 0) (<[i := f]> c) ≡ₚ [f] ++ filter (fun x => x <> 0) c.
Proof.
  intros Hi Hf. rewrite <- (take_drop_middle c i 0 Hi) at 2. rewrite insert_take_drop by (by eapply lookup_lt_Some).
  rewrite !filter_app, filter_cons_True, filter_cons_False by (done || tauto). simpl. by rewrite Permutation_middle.
Qed.

(** Putting a new frame into the cache. *)
Lemma inv_cache B U E st a o pages c cap idx f p fm : inv B U E st -> objs st !! a = Some o -> o_data o = DShared pages c cap ->
  getz c idx = Some 0 -> f <> 0 -> f = page_of f * PAGE -> page_free (opmm st) (page_of f) ->
  taken (opmm st) (fun j => j = page_of f) p ->
  inv B U E (OSt (<[a := set_odata (DShared pages (<[Z.to_nat idx := f]> c) cap) o]> (objs st)) (oheap st) p fm).
Proof.
  intros Hi Ha Ed Hc Hf0 Hfe Hk Ht. destruct (in_shape _ _ _ _ Hi a o Ha) as (Ha0 & Hs & Hd). rewrite Ed in Hd.
  destruct Hd as (Hlen & Hcap & Hz). set (o' := set_odata _ _). apply getz_Some in Hc as [Hi0 Hc].
  assert (oblocks a o' = oblocks a o) as Hb by (unfold oblocks; cbn [o_data o' set_odata]; by rewrite Ed).
  apply (inv_upd B U E st a o o' (oheap st) p fm [f]); try done.
  - unfold parent_of. cbn [o_data o' set_odata]. by rewrite Ed.
  - split; [done|]. split; [done|]. cbn [o_data o' set_odata]. by rewrite length_insert.
  - apply Hi.
  - rewrite Hb. apply set_eq. intros x. rewrite elem_of_union, elem_of_difference. destruct (decide (x ∈ oblocks a o)) as [Hx|Hx].
    + pose proof (oblocks_live B U E st a o x Hi Ha Hx). rewrite elem_of_list_to_set. tauto.
    + rewrite elem_of_list_to_set. tauto.
  - pose proof (in_nodup _ _ _ _ Hi) as Hn. rewrite (flat_delete oblocks _ _ _ Ha) in Hn. rewrite Hb. by apply NoDup_app in Hn as (? & _).
  - rewrite Hb. tauto.
  - unfold oframes. cbn [o_data o' set_odata]. rewrite Ed. by apply filter_fill.
  - simpl. apply NoDup_singleton.
  - by intros x ->%list_elem_of_singleton.
  - destruct Ht as (? & ? & ? & Hg). split; [done|]. split; [done|]. split; [done|]. intros j. rewrite Hg. simpl.
    by rewrite list_elem_of_singleton.
Qed.

Lemma getz_app_zeros (c : list Z) k i : default 0 (getz (c ++ replicate k 0) i) = default 0 (getz c i).
Proof.
  unfold getz. destruct (0 <=? i); [|done]. rewrite lookup_app. destruct (c !! Z.to_nat i); [done|]. simpl.
  destruct (replicate k 0 !! _) as [x|] eqn:E; [|done]. by apply lookup_replicate in E as [-> _].
Qed.

(** Why a shared object may have no frame for a page. *)
Definition no_shared st o (idx : Z) : Prop :=
  match o_data o with DShared _ _ cap => refused cap idx st \/ cached o idx = 0 /\ no_frame st | _ => False end.

Definition shared_post B U E st a o off (r : Z * Z * ost) : Prop := let '(ret, f, st') := r in
  inv B U E st' /\ exists o', objs st' = <[a := o']> (objs st) /\ twin o o' /\
    (forall j, j <> off / PAGE -> cached o' j = cached o j) /\
    (ret = -1 /\ (o_size o <= off \/ no_shared st o (off / PAGE)) /\ cached o' (off / PAGE) = cached o (off / PAGE) \/
     ret = 0 /\ off < o_size o /\ f <> 0 /\ cached o' (off / PAGE) = f /\
     if cached o (off / PAGE) =? 0 then fresh_zero st f st' else f = cached o (off / PAGE) /\ opmm st' = opmm st /\ fmem st' = fmem st).

Lemma shared_fault_spec B U E st a o pages content cap off : inv B U E st -> objs st !! a = Some o -> o_data o = DShared pages content cap ->
  0 <= off -> o_size o <= 2 ^ 42 ->
  returns (vm_object_shared_fault a o pages content cap off st) (shared_post B U E st a o off).
Proof.
  intros Hi Ha Ed Hoff Hs. unfold vm_object_shared_fault. destruct (Z.leb_spec (o_size o) off) as [Hle|Hlt].
  { ret. split; [done|]. exists o. rewrite insert_id by done. split; [done|]. split; [done|]. split; [done|]. left. by auto. }
  assert (0 <= off / PAGE < 2 ^ 31) as Hidx by (unfold PAGE; split; [by apply Z.div_pos|apply Z.div_lt_upper_bound; lia]).
  set (idx := off / PAGE) in *. eapply returns_bind; [by eapply shared_grow_spec|].
  intros [[c|] st1] (Hi1 & Ep & Em & Hr); cbv beta iota.
  2:{ ret. destruct Hr as [Eo Hno]. split; [done|]. exists o. rewrite insert_id by done. split; [done|]. split; [done|]. split; [done|].
      left. split; [done|]. split; [right; unfold no_shared; rewrite Ed; by left|done]. }
  destruct Hr as (np & k & Ec & Hlen & Hk & Eo). set (o1 := set_odata _ o) in Eo.
  assert (objs st1 !! a = Some o1) as Ha1 by (rewrite Eo; apply lookup_insert_eq).
  assert (forall j, cached o1 j = cached o j) as Hc1.
  { intros j. unfold cached. cbn [o_data o1 set_odata]. rewrite Ed, Ec. apply getz_app_zeros. }
  assert (twin o o1) as Ht1 by (split; [done|]; split; [done|]; unfold parent_of; cbn [o_data o1 set_odata]; by rewrite Ed).
  destruct (getz_lt c idx) as [f Hf]; [lia|]. rewrite (rd_getz _ _ _ Hf). ret.
  assert (cached o idx = f) as Hcf by (rewrite <- Hc1; unfold cached; cbn [o_data o1 set_odata]; by rewrite Hf).
  destruct (Z.eqb_spec f 0) as [->|Hf0]; cbn [negb].
  2:{ ret. split; [done|]. exists o1. split; [done|]. split; [done|]. split; [done|]. right. fold idx. rewrite Hc1, Hcf. zcmp. done. }
  eapply returns_bind; [by eapply new_zero_frame_spec|]. intros [f st2] (Eo2 & Eh2 & Et2 & Hfr). cbv beta iota.
  destruct Hfr as [(-> & Hno & Hw & Hg & Em2)|(Hf0 & Hfe & Hkf & Ht & Em2)].
  { ret. split.
    - replace st2 with (set_opmm (opmm st2) st1); [by apply inv_pmm|]. destruct st1, st2. simpl in *. by subst.
    - exists o1. rewrite Eo2. split; [done|]. split; [done|]. split; [done|]. left. fold idx. split; [done|]. rewrite Hc1.
      split; [right; unfold no_shared; rewrite Ed; right; split; [done|]; unfold no_frame, no_page in *; by rewrite Ep in Hno|done]. }
  zcmp. unfold ldo. rewrite Eo2, Ha1. ret. cbn [o_data o1 set_odata]. rewrite wr_ok by lia. ret. unfold sto, set_objs.
  cbn [objs oheap opmm fmem set_odata o_ref o_size o_port]. split.
  - rewrite Eh2, Eo2. by apply (inv_cache B U E st1 a o1).
  - eexists. rewrite Eo2, Eo, insert_insert_eq. split; [done|].
    split; [split; [done|]; split; [done|]; unfold parent_of; cbn [o_data]; by rewrite Ed|]. fold idx. split.
    + intros j Hj. rewrite <- Hc1. unfold cached. cbn [o_data o1 set_odata]. rewrite getz_insert_ne by lia. done.
    + right. rewrite Hcf. unfold cached. cbn [o_data o1 set_odata]. rewrite getz_insert_eq by lia. split; [done|]. split; [done|].
      split; [done|]. split; [done|]. simpl. rewrite Ep in *. pose proof Ht as (_ & _ & _ & Hg).
      repeat (split; [done|]). cbn [fmem opmm]. rewrite Em2, lookup_insert_eq. split; [done|]. rewrite Hg. tauto.
Qed.

(** *** Shadows *)

Lemma vm_fault_more n : forall m a off write st r, (n <= m)%nat -> vm_fault n a off write st = Ret r -> vm_fault m a off write st = Ret r.
Proof.
  induction n as [|n IH]; intros m a off write st r Hnm; [done|]. destruct m as [|m]; [lia|]. cbn [vm_fault].
  destruct (ldo a st) as [o| |]; [|done..]. ret. destruct (o_data o) as [| | |parent map c nw|]; try done.
  destruct (_ || _); [done|]. destruct (rd c _) as [w| |]; [|done..]. ret. destruct (negb _); [apply IH; lia|].
  destruct (vm_fault n parent off false st) as [r1| |] eqn:Ef; [|done..]. rewrite (IH m _ _ _ _ r1) by (lia || done). done.
Qed.

Definition copied o (i : Z) : bool := match o_data o with DShadow _ _ c _ => bm_bit 64 c i | _ => false end.

(** The pages a fault takes from the allocator and keeps in no cache: those of
    the frame it answers with, and those of frames nobody gets.  An anonymous
    object allocates its answer; a shadow allocates the copy, and the frame its
    parent allocated to be copied from is lost. *)
Definition own (ret f : Z) : list Z := if ret =? 0 then [page_of f] else [].

Definition spent_by (parent_spent : Z -> bool -> list Z * list Z) o (off : Z) (write : bool) (ret f : Z) : list Z * list Z :=
  match o_data o with
  | DAnon => (own ret f, [])
  | DShadow parent _ _ _ =>
      if o_size o <=? off then ([], [])
      else if copied o (off / PAGE) then parent_spent parent write
      else let '(out, lost) := parent_spent parent false in (own ret f, out ++ lost)
  | _ => ([], [])
  end.

Fixpoint spent (fuel : nat) a (off : Z) (write : bool) st : list Z * list Z :=
  match fuel with
  | O => ([], [])
  | S fuel =>
      match objs st !! a, fault a off write st with
      | Some o, Ret (ret, f, _) => spent_by (fun parent w => spent fuel parent off w st) o off write ret f
      | _, _ => ([], [])
      end
  end.

Definition fault_spent a off write st : list Z * list Z := spent (S (size (objs st))) a off write st.

(** The pages of others, with those of [l] added. *)
Definition also (U : Z -> Prop) (l : list Z * list Z) : Z -> Prop := fun i => U i \/ i ∈ l.1 ++ l.2.

(** What a successful fault at [off] did, for each kind of object. *)
Definition kind_post st a o off write (f : Z) st' : Prop :=
  match o_data o with
  | DAnon => objs st' = objs st /\ fresh_zero st f st'
  | DPhys base => f = u64 (base + PAGE * (off / PAGE)) /\ st' = st
  | DShared _ _ _ => f <> 0 /\ exists o', objs st' = <[a := o']> (objs st) /\
      cached o' (off / PAGE) = f /\ (forall j, j <> off / PAGE -> cached o' j = cached o j) /\
      if cached o (off / PAGE) =? 0 then fresh_zero st f st' else f = cached o (off / PAGE) /\ opmm st' = opmm st /\ fmem st' = fmem st
  | DShadow parent _ _ _ =>
      if copied o (off / PAGE) then fault parent off write st = Ret (0, f, st')
      else exists g st1 o', fault parent off false st = Ret (0, g, st1) /\
        f <> 0 /\ f = page_of f * PAGE /\ page_free (opmm st1) (page_of f) /\ fmem st' !! f = fmem st1 !! g /\
        objs st' = <[a := o']> (objs st1) /\ (forall j, 0 <= j -> copied o' j = (j =? off / PAGE) || copied o j)
  | DUserPaged => st' = st /\ exists r, 0 <= r /\
      pager (o_port o) a off (if write then Z.lor VM_PROT_READ VM_PROT_WRITE else VM_PROT_READ) = (r, f)
  end.

(** Why a fault inside the object failed with [ret]. *)
Definition fail_post st a o off write (ret f : Z) st' : Prop :=
  match o_data o with
  | DAnon => ret = -1 /\ objs st' = objs st /\ no_frame st
  | DPhys _ => False
  | DShared _ _ _ => ret = -1 /\ no_shared st o (off / PAGE)
  | DShadow parent _ _ _ =>
      if copied o (off / PAGE) then fault parent off write st = Ret (ret, f, st')
      else (exists g, fault parent off false st = Ret (ret, g, st')) \/
        ret = -1 /\ exists g st1, fault parent off false st = Ret (0, g, st1) /\ objs st' = objs st1 /\
          (no_page st1 \/ temp_map g = false)
  | DUserPaged => st' = st /\ exists g,
      pager (o_port o) a off (if write then Z.lor VM_PROT_READ VM_PROT_WRITE else VM_PROT_READ) = (ret, g)
  end.

(** [sp]: the pages spent. *)
Definition fault_post B U E st a o off write (sp : list Z * list Z) (r : Z * Z * ost) : Prop := let '(ret, f, st') := r in
  ret <= 0 /\ kept st st' /\ inv B (also U sp) E st' /\ (o_size o <= off -> ret = -1 /\ st' = st) /\
  (ret = 0 -> kind_post st a o off write f st') /\ (off < o_size o -> ret < 0 -> fail_post st a o off write ret f st').

(** The number of objects that are older than [n]. *)
Definition older (rk : Z -> nat) (n : nat) st : nat := size (filter (fun kx : Z * obj => (rk kx.1 < n)%nat) (objs st)).

Lemma older_parent rk a o st : ranked rk st -> objs st !! a = Some o -> parent_of o <> 0 -> is_Some (objs st !! parent_of o) ->
  (older rk (rk (parent_of o)) st < older rk (rk a) st)%nat.
Proof.
  intros Hr Ha Hp [po Hpo]. pose proof (Hr a o Ha Hp) as Hlt. unfold older.
  apply map_subset_size. split.
  - apply map_subseteq_spec. intros b x. rewrite !map_lookup_filter_Some. simpl. intros [Hb Hlt']. split; [done|lia].
  - intros Hsub. rewrite map_subseteq_spec in Hsub.
    specialize (Hsub (parent_of o) po). rewrite !map_lookup_filter_Some in Hsub. simpl in Hsub. destruct Hsub as [_ Hx]; [|lia]. by split.
Qed.

Lemma div_up_bound x d m : 0 < d -> 0 <= x <= d * m -> 0 <= (x + d - 1) / d <= m.
Proof.
  intros Hd Hx. split; [apply Z.div_pos; lia|]. apply Z.lt_succ_r, Z.div_lt_upper_bound; lia.
Qed.

Lemma shadow_nwords_val n : 0 <= n <= 2 ^ 42 -> 0 <= (n + PAGE - 1) / PAGE <= 2 ^ 30 /\
  shadow_nwords n = ((n + PAGE - 1) / PAGE + 64 - 1) / 64 /\ 0 <= shadow_nwords n <= 2 ^ 24.
Proof.
  intros Hn. assert (0 <= (n + PAGE - 1) / PAGE <= 2 ^ 30) as Hm by (apply div_up_bound; unfold PAGE; lia).
  assert (0 <= ((n + PAGE - 1) / PAGE + 64 - 1) / 64 <= 2 ^ 24) as Hw by (apply div_up_bound; lia).
  assert (shadow_nwords n = ((n + PAGE - 1) / PAGE + 64 - 1) / 64) as Hv; [|by rewrite Hv].
  unfold shadow_nwords, SHADOW_PAGE_BITS. rewrite (u64_small (n + PAGE - 1)) by (unfold in_u64, PAGE; lia).
  rewrite (s32_small ((n + PAGE - 1) / PAGE)) by lia. rewrite (u64_small ((n + PAGE - 1) / PAGE)) by (unfold in_u64; lia).
  rewrite u64_small by (unfold in_u64; lia). apply s32_small. lia.
Qed.

(** The word and the bit of a page of a shadow. *)
Lemma shadow_index o parent map c nw a off : obj_ok a o -> o_data o = DShadow parent map c nw -> o_size o <= 2 ^ 42 -> 0 <= off < o_size o ->
  s32 (off / PAGE / SHADOW_PAGE_BITS) = off / PAGE / 64 /\ 0 <= off / PAGE < bm_size 64 c.
Proof.
  intros (_ & Hs & Hd) Ed Hm Ho. rewrite Ed in Hd. destruct Hd as (_ & _ & Hl & Hnw).
  destruct (shadow_nwords_val (o_size o)) as (Hn & Ev & Hw); [lia|]. rewrite <- Hnw in Ev, Hw. clear Hnw.
  rewrite u32_small in Hl by (unfold in_u32; lia). unfold bm_size. rewrite Hl, Z2Nat.id by lia.
  assert (0 <= off / PAGE < (o_size o + PAGE - 1) / PAGE) as Hi.
  { unfold PAGE. split; [apply Z.div_pos; lia|]. apply Z.div_lt_upper_bound; [lia|].
    pose proof (Z.div_mod (o_size o + 4096 - 1) 4096 ltac:(lia)). pose proof (Z.mod_pos_bound (o_size o + 4096 - 1) 4096 ltac:(lia)). lia. }
  clear Hs Hm Ho. revert Hi Hn Ev. generalize ((o_size o + PAGE - 1) / PAGE) as n. generalize (off / PAGE) as i. intros i n Hi Hn Ev.
  pose proof (Z.div_mod (n + 64 - 1) 64 ltac:(lia)). pose proof (Z.mod_pos_bound (n + 64 - 1) 64 ltac:(lia)).
  split; [|lia]. unfold SHADOW_PAGE_BITS. pose proof (Z.div_pos i 64 ltac:(lia) ltac:(lia)).
  pose proof (Z.div_lt_upper_bound i 64 (2 ^ 30) ltac:(lia) ltac:(lia)). apply s32_small. lia.
Qed.

(** Marking a page as copied. *)
Lemma inv_mark B U E st a o parent map c nw c' fm : inv B U E st -> objs st !! a = Some o -> o_data o = DShadow parent map c nw ->
  length c' = length c -> inv B U E (OSt (<[a := set_odata (DShadow parent map c' nw) o]> (objs st)) (oheap st) (opmm st) fm).
Proof.
  intros Hi Ha Ed Hlen. destruct (in_shape _ _ _ _ Hi a o Ha) as (Ha0 & Hs & Hd). rewrite Ed in Hd. set (o' := set_odata _ _).
  assert (oblocks a o' = oblocks a o) as Hb by (unfold oblocks; cbn [o_data o' set_odata]; by rewrite Ed).
  apply (inv_upd B U E st a o o' (oheap st) (opmm st) fm []); try done.
  - unfold parent_of. cbn [o_data o' set_odata]. by rewrite Ed.
  - split; [done|]. split; [done|]. cbn [o_data o' set_odata]. by rewrite Hlen.
  - apply Hi.
  - rewrite Hb. apply set_eq. intros x. rewrite elem_of_union, elem_of_difference, elem_of_list_to_set.
    destruct (decide (x ∈ oblocks a o)) as [Hx|Hx]; [pose proof (oblocks_live B U E st a o x Hi Ha Hx)|]; tauto.
  - pose proof (in_nodup _ _ _ _ Hi) as Hn. rewrite (flat_delete oblocks _ _ _ Ha) in Hn. rewrite Hb. by apply NoDup_app in Hn as (? & _).
  - rewrite Hb. tauto.
  - unfold oframes. cbn [o_data o' set_odata]. by rewrite Ed.
  - simpl. constructor.
  - intros f []%elem_of_nil.
  - split; [apply Hi|]. split; [done|]. split; [done|]. intros j. simpl. split; [|tauto]. intros ?. split; [done|]. apply not_elem_of_nil.
Qed.

Lemma sane_kept st st' : sane st -> kept st st' -> sane st'.
Proof.
  intros Hs Hk a o' Ha. specialize (Hk a). rewrite Ha in Hk. inversion Hk as [o x (_ & E & _) Ho|]; subst. rewrite E. eapply Hs. by symmetry.
Qed.

(** The step from the parent's page to the copy. *)
Lemma shadow_copy B U E st a o parent map c nw off w f : inv B U E st -> objs st !! a = Some o -> o_data o = DShadow parent map c nw ->
  s32 (off / PAGE / SHADOW_PAGE_BITS) = off / PAGE / 64 -> 0 <= off / PAGE < bm_size 64 c -> getz c (off / PAGE / 64) = Some w ->
  returns ('(new_page, p) ← pmm_alloc_page (opmm st);
           let st := set_opmm p st in
           if new_page =? 0 then Ret (-1, 0, st)
           else if negb (temp_map f) then p ← pmm_free_page new_page (opmm st); Ret (-1, 0, set_opmm p st)
           else
             st ← copy_frame new_page f st;
             c ← wr c (s32 (off / PAGE / SHADOW_PAGE_BITS)) (Z.lor w (Z.shiftl 1 (off / PAGE mod SHADOW_PAGE_BITS)));
             Ret (0, new_page, sto a (set_odata (DShadow parent map c nw) o) st))
    (fun '(ret, f', st') => exists o', objs st' = <[a := o']> (objs st) /\ twin o o' /\
       (ret = -1 /\ o' = o /\ inv B U E st' /\ (no_page st \/ temp_map f = false) \/
        ret = 0 /\ f' <> 0 /\ f' = page_of f' * PAGE /\ page_free (opmm st) (page_of f') /\
        inv B (fun i => U i \/ i = page_of f') E st' /\ fmem st' !! f' = fmem st !! f /\
        (forall j, 0 <= j -> copied o' j = (j =? off / PAGE) || copied o j))).
Proof.
  intros Hi Ha Ed Ew Hidx Hw. eapply returns_bind; [by eapply alloc_page_inv|]. intros [np p] Hp. cbv beta iota zeta.
  destruct Hp as [(-> & -> & Hno)|(Hn0 & Hne & Hk & Ht & Hlow)].
  { ret. exists o. cbn [set_opmm objs]. rewrite insert_id by done. split; [done|]. split; [done|]. left. split; [done|]. split; [done|].
    split; [by destruct st|by left]. }
  zcmp. destruct (temp_map f) eqn:Etm; cbn [negb].
  - unfold copy_frame. zcmp. ret. pose proof (bm_word_lt 64 ltac:(lia) c _ Hidx) as Hwl. rewrite Ew, wr_ok by done. ret. unfold sto, set_objs, set_opmm.
    cbn [objs oheap opmm fmem]. eexists. split; [done|].
    split; [split; [done|]; split; [done|]; unfold parent_of; cbn [o_data set_odata]; by rewrite Ed|]. right. repeat (split; [done|]).
    split; [|split].
    + apply (inv_mark B _ E (OSt (objs st) (oheap st) p (fmem st)) a o parent map c nw); [by apply inv_take|done|done|apply length_insert].
    + apply lookup_partial_alter_eq.
    + intros j Hj. unfold copied. cbn [o_data set_odata]. rewrite Ed.
      assert (bm_set 64 c (off / PAGE) = Ret (<[Z.to_nat (off / PAGE / 64) := Z.lor w (Z.shiftl 1 (off / PAGE mod 64))]> c)) as Hset
        by (unfold bm_set; rewrite (rd_getz _ _ _ Hw); ret; by rewrite wr_ok).
      pose proof (bm_set_spec 64 ltac:(lia) c (off / PAGE) Hidx) as Hs. rewrite Hset in Hs. destruct Hs as (_ & _ & Hb). cbn [returns] in Hb.
      unfold SHADOW_PAGE_BITS. rewrite Hb by done. by destruct (j =? off / PAGE).
  - pose proof Hk as [Hr _]. eapply returns_bind; [apply free_at_spec; [apply Ht|unfold page_of in Hr; lia]|]. intros q Hq. ret.
    destruct (take_give _ _ _ _ (in_pmm _ _ _ _ Hi) Hk Ht Hq) as (Hw' & Ht' & Hg).
    exists o. cbn [set_opmm objs]. rewrite insert_id by done. split; [done|]. split; [done|]. left. split; [done|]. split; [done|].
    split; [by apply (inv_pmm B U E st q)|by right].
Qed.

Lemma fault_outside fuel a o off write st : objs st !! a = Some o -> o_size o <= off -> vm_fault (S fuel) a off write st = Ret (-1, 0, st).
Proof.
  intros Ha Hle. cbn [vm_fault]. unfold ldo, vm_object_anon_fault, vm_object_phys_fault, vm_object_shared_fault. rewrite Ha. ret.
  destruct (o_data o); by zcmp.
Qed.

Definition fault_ok rk B U E st a o off write sp (r : Z * Z * ost) : Prop :=
  fault_post B U E st a o off write sp r /\ forall b, (rk a < rk b)%nat -> objs r.2 !! b = objs st !! b.

Lemma inv_same B U U' E st : inv B U E st -> (forall i, U' i <-> U i) -> inv B U' E st.
Proof.
  intros Hi HU. destruct Hi. split; try done.
  - intros i. by rewrite HU.
  - intros f. rewrite HU. apply in_frames0.
  - by apply HU.
  - intros i. rewrite HU. apply in_low0.
Qed.

Lemma also_nil U i : also U ([], []) i <-> U i.
Proof. unfold also. simpl. pose proof (not_elem_of_nil i). tauto. Qed.

(** A fault inside the object. *)
Lemma fault_ok_intro rk B U U' E st a o off write sp ret f st' : off < o_size o -> ret <= 0 -> kept st st' ->
  (forall b, (rk a < rk b)%nat -> objs st' !! b = objs st !! b) -> inv B U' E st' -> (forall i, also U sp i <-> U' i) ->
  (ret = 0 -> kind_post st a o off write f st') -> (ret < 0 -> fail_post st a o off write ret f st') ->
  fault_ok rk B U E st a o off write sp (ret, f, st').
Proof.
  intros Hlt Hr Hk Hrk Hi HU Hp Hn. split; [|done]. split; [done|]. split; [done|]. split; [by eapply inv_same|]. split; [lia|done].
Qed.

(** The pages spent, given the answer. *)
Definition fault_ok_by fuel rk B U E st a o off write (r : Z * Z * ost) : Prop := let '(ret, f, _) := r in
  fault_ok rk B U E st a o off write (spent_by (fun parent w => spent fuel parent off w st) o off write ret f) r.

Lemma fault_plain_spec fuel rk B U E a o off write st : 0 <= off < o_size o -> inv B U E st -> o_size o <= 2 ^ 42 ->
  objs st !! a = Some o -> match o_data o with DShadow _ _ _ _ => False | _ => True end ->
  returns (vm_fault (S fuel) a off write st) (fault_ok_by fuel rk B U E st a o off write).
Proof.
  intros [Hoff Hlt] Hi Hsz Ha Hd. cbn [vm_fault]. replace (ldo a st) with (Ret o) by (unfold ldo; by rewrite Ha). ret.
  unfold fault_ok_by, spent_by. destruct (o_data o) as [|base|pages content cap|parent map c nw|] eqn:Ed; [| | |done|].
  - eapply returns_mono; [by apply (anon_fault_spec B U E)|]. intros [[ret f] st'] [Eo [(-> & Hno & Hi')|(-> & _ & Hfz & Hi')]].
    + apply (fault_ok_intro rk B U U); try done; [by apply kept_eq|intros b _; by rewrite Eo|apply also_nil|].
      intros _. unfold fail_post. rewrite Ed. split; [done|]. split; [done|]. destruct Hno; [lia|done].
    + apply (fault_ok_intro rk B U (fun i => U i \/ i = page_of f)); try done; [by apply kept_eq|intros b _; by rewrite Eo| |].
      * intros i. unfold also. simpl. by rewrite list_elem_of_singleton.
      * intros _. unfold kind_post. rewrite Ed. done.
  - unfold vm_object_phys_fault. zcmp. ret. apply (fault_ok_intro rk B U U); try done; [apply also_nil|]. intros _. unfold kind_post. rewrite Ed.
    change (PAGE - 1) with (2 ^ 12 - 1). rewrite land_lnot_ones by lia. done.
  - eapply returns_mono; [by apply (shared_fault_spec B U E)|]. intros [[ret f] st'] (Hi' & o' & Eo & Ht & Hoth & Hc).
    assert (forall b, (rk a < rk b)%nat -> objs st' !! b = objs st !! b) as Hrk.
    { intros b Hb. rewrite Eo, lookup_insert_ne; [done|]. intros ->. lia. }
    apply (fault_ok_intro rk B U U); try done; [destruct Hc as [[-> _]|[-> _]]; lia|by eapply kept_insert|apply also_nil| |].
    + intros ->. destruct Hc as [[? _]|(_ & _ & Hf0 & Hcf & Hc)]; [done|]. unfold kind_post. rewrite Ed. split; [done|]. by exists o'.
    + intros Hneg. unfold fail_post. rewrite Ed. destruct Hc as [(-> & Hno & _)|[-> _]]; [|lia]. split; [done|]. destruct Hno; [lia|done].
  - zcmp. destruct (pager _ _ _ _) as [r f] eqn:Ep. destruct (Z.ltb_spec r 0).
    + ret. apply (fault_ok_intro rk B U U); try done; [lia|apply also_nil|lia|]. intros _. unfold fail_post. rewrite Ed. split; [done|]. by exists f.
    + ret. apply (fault_ok_intro rk B U U); try done; [apply also_nil|]. intros _. unfold kind_post. rewrite Ed. split; [done|]. by exists r.
Qed.

(** The step of a shadow to its parent [parent], of which the lemma is known. *)
Lemma fault_shadow_spec fuel rk B U E a o parent map c nw po off write st :
  (forall w, returns (vm_fault fuel parent off w st) (fault_ok rk B U E st parent po off w (spent fuel parent off w st))) ->
  0 <= off < o_size o -> inv B U E st -> o_size o <= 2 ^ 42 -> objs st !! a = Some o -> o_data o = DShadow parent map c nw ->
  (rk parent < rk a)%nat -> (fuel <= S (size (objs st)))%nat ->
  returns (vm_fault (S fuel) a off write st) (fault_ok_by fuel rk B U E st a o off write).
Proof.
  intros IH [Hoff Hlt] Hi Hsz Ha Ed Hrp Hfs. pose proof (in_shape _ _ _ _ Hi a o Ha) as Hok.
  cbn [vm_fault]. replace (ldo a st) with (Ret o) by (unfold ldo; by rewrite Ha). ret. rewrite Ed.
  pose proof Hok as (Ha0 & Hs & Hd). rewrite Ed in Hd. assert (parent <> 0) as Hp0 by apply Hd. zcmp.
  destruct (shadow_index o parent map c nw a off) as [Ew Hidx]; [done|done|lia|lia|].
  destruct (getz_lt c (off / PAGE / 64)) as [w Hw]; [by apply bm_word_lt|]. rewrite Ew, (rd_getz _ _ _ Hw). ret.
  assert (negb (Z.land w (Z.shiftl 1 (off / PAGE mod SHADOW_PAGE_BITS)) =? 0) = copied o (off / PAGE)) as ->.
  { rewrite land_bit by (apply Z.mod_pos_bound; done). unfold copied, bm_bit. rewrite Ed. by rewrite Hw. }
  unfold fault_ok_by, spent_by. rewrite Ed. replace (o_size o <=? off) with false by (symmetry; by apply Z.leb_gt).
  destruct (copied o (off / PAGE)) eqn:Ecp.
  - destruct (returns_inv _ _ (IH write)) as ([[ret f] st'] & Ef & (Hr0 & Hk & Hi' & _) & Hrk). rewrite Ef. ret.
    assert (fault parent off write st = Ret (ret, f, st')) as Efull by (eapply vm_fault_more; [|exact Ef]; lia).
    eapply fault_ok_intro; try done; [intros b Hb; apply Hrk; lia| |].
    + intros ->. unfold kind_post. by rewrite Ed, Ecp.
    + intros _. unfold fail_post. by rewrite Ed, Ecp.
  - destruct (returns_inv _ _ (IH false)) as ([[ret g] st1] & Ef & (Hr0 & Hk & Hi' & _) & Hrk). rewrite Ef. ret.
    assert (fault parent off false st = Ret (ret, g, st1)) as Efull by (eapply vm_fault_more; [|exact Ef]; lia).
    destruct (spent fuel parent off false st) as [out lost] eqn:Esp.
    assert (forall l i, also U (l, out ++ lost) i <-> also U (out, lost) i \/ i ∈ l) as Hal.
    { intros l i. unfold also. cbn [fst snd]. rewrite !elem_of_app. tauto. }
    assert (forall i, also U ([], out ++ lost) i <-> also U (out, lost) i) as Hal0.
    { intros i. rewrite Hal. pose proof (not_elem_of_nil i). tauto. }
    destruct (Z.ltb_spec ret 0) as [Hneg|Hnn].
    { ret. unfold own. zcmp. eapply fault_ok_intro; try done; [intros b Hb; apply Hrk; simpl in *; lia|lia|].
      intros _. unfold fail_post. rewrite Ed, Ecp. left. by exists g. }
    assert (ret = 0) as -> by lia. assert (objs st1 !! a = Some o) as Ha1 by (rewrite <- Ha; by apply (Hrk a)).
    rewrite <- Ew. eapply returns_mono; [by apply (shadow_copy B (also U (out, lost)) E st1 a o parent map c nw off w g)|].
    intros [[ret f] st'] (o' & Eo & Ht & Hc).
    assert (forall b, (rk a < rk b)%nat -> objs st' !! b = objs st !! b) as Hrk'.
    { intros b Hb. rewrite Eo, lookup_insert_ne by (intros ->; lia). apply Hrk. simpl. lia. }
    assert (kept st st') as Hk' by (etrans; [exact Hk|by eapply kept_insert]).
    destruct Hc as [(-> & -> & Hi2 & Hno)|(-> & Hf0 & Hfe & Hfr & Hi2 & Hm & Hcp)].
    + eapply fault_ok_intro; try done. intros _. unfold fail_post. rewrite Ed, Ecp. right. split; [done|].
      exists g, st1. split; [done|]. split; [by rewrite Eo, insert_id|done].
    + eapply fault_ok_intro; try done; [intros i; unfold own; simpl; by rewrite Hal, list_elem_of_singleton|].
      intros _. unfold kind_post. rewrite Ed, Ecp. exists g, st1, o'. by auto 10.
Qed.

Lemma vm_fault_spec B U E rk off st : 0 <= off ->
  inv B U E st -> (forall b x, objs st !! b = Some x -> 1 <= o_ref x) -> ranked rk st -> sane st ->
  forall fuel a o write, objs st !! a = Some o -> (older rk (rk a) st < fuel)%nat -> (fuel <= S (size (objs st)))%nat ->
  returns (vm_fault fuel a off write st) (fault_ok rk B U E st a o off write (spent fuel a off write st)).
Proof.
  intros Hoff Hi Hl Hr Hsn. induction fuel as [|fuel IH]; intros a o write Ha Hf Hfs; [lia|].
  assert (returns (vm_fault (S fuel) a off write st) (fault_ok_by fuel rk B U E st a o off write)) as Hby.
  2:{ destruct (returns_inv _ _ Hby) as ([[ret f] st'] & Ef & Hok). rewrite Ef. ret.
      cbn [spent]. rewrite Ha. replace (fault a off write st) with (Ret (ret, f, st')); [exact Hok|].
      symmetry. eapply vm_fault_more; [|exact Ef]. lia. }
  destruct (Z.le_gt_cases (o_size o) off) as [Hle|Hlt].
  { rewrite (fault_outside _ _ o) by done. ret. split; [|done]. split; [lia|]. split; [reflexivity|].
    split; [|split; [done|split; lia]]. eapply inv_same; [done|]. intros i. unfold spent_by.
    destruct (o_data o); zcmp; apply also_nil. }
  destruct (o_data o) as [| | |parent map c nw|] eqn:Ed; try by (apply fault_plain_spec; [lia|done|by eapply Hsn|done|by rewrite Ed]).
  assert (parent_of o = parent) as Epar by (unfold parent_of; by rewrite Ed).
  pose proof (in_shape _ _ _ _ Hi a o Ha) as (_ & _ & Hd). rewrite Ed in Hd. assert (parent <> 0) as Hp0 by apply Hd.
  assert (is_Some (objs st !! parent)) as [po Hpo].
  { destruct (in_parent _ _ _ _ Hi a o Ha (Hl a o Ha)) as [E0|Hs']; [congruence|by rewrite <- Epar]. }
  assert ((older rk (rk parent) st < fuel)%nat) as Hold.
  { rewrite <- Epar. eapply Nat.lt_le_trans; [apply (older_parent rk a o st Hr Ha); rewrite Epar; [done|by exists po]|]. lia. }
  apply (fault_shadow_spec fuel rk B U E a o parent map c nw po); try done; [|by eapply Hsn| |lia].
  - intros w. apply IH; [done|done|lia].
  - rewrite <- Epar. apply (Hr a o Ha). congruence.
Qed.

(** ** Histories

    The calls of the clients, who hold [E a] references to object [a].  A call
    is [legal] when the client holds a reference to the object it names. *)

Inductive oop :=
| OAnon (size : Z) | OPhys (base size : Z) | OShared (size : Z) | OUserPaged (size port : Z)
| OShadow (parent : Z) | ORetain (a : Z) | ORelease (a : Z) | OFault (a offset : Z) (write : bool).

Definition run_op (op : oop) st : out (Z * ost) :=
  match op with
  | OAnon size => Ret (vm_object_create_anon size st)
  | OPhys base size => Ret (vm_object_create_phys base size st)
  | OShared size => Ret (vm_object_create_shared size st)
  | OUserPaged size port => Ret (vm_object_create_user_paged size port st)
  | OShadow parent => vm_object_create_shadow parent st
  | ORetain a => st ← vm_object_retain a st; Ret (a, st)
  | ORelease a => st ← release a st; Ret (0, st)
  | OFault a offset write => '(ret, f, st) ← fault a offset write st; Ret (f, st)
  end.

(** The references of the client after a call that answered [r]. *)
Definition effect (op : oop) (r : Z) (E : Z -> Z) : Z -> Z :=
  match op with
  | ORelease a => if a =? 0 then E else bump a (-1) E
  | OFault _ _ _ => E
  | _ => if r =? 0 then E else bump r 1 E
  end.

Definition held a (E : Z -> Z) st : Prop := 1 <= E a /\ forall o, objs st !! a = Some o -> o_ref o < 2 ^ 31 - 1.

Definition legal (op : oop) (E : Z -> Z) st : Prop :=
  match op with
  | OAnon size | OPhys _ size | OShared size | OUserPaged size _ => 0 <= size <= 2 ^ 42
  | OShadow a | ORetain a => a = 0 \/ held a E st
  | ORelease a => a = 0 \/ 1 <= E a
  | OFault a offset _ => 1 <= E a /\ 0 <= offset
  end.

(** The pages spent by a call. *)
Definition op_spent (op : oop) st : list Z * list Z :=
  match op with OFault a offset write => fault_spent a offset write st | _ => ([], []) end.

(** The references the clients hold, the pages that were handed out to them and
    those that were lost, and the state. *)
Record conf := Conf { c_refs : Z -> Z; c_out : list Z; c_lost : list Z; c_st : ost }.

Definition ostep (x y : conf) : Prop := exists op r,
  legal op (c_refs x) (c_st x) /\ run_op op (c_st x) = Ret (r, c_st y) /\ c_refs y = effect op r (c_refs x) /\
  c_out y = (op_spent op (c_st x)).1 ++ c_out x /\ c_lost y = (op_spent op (c_st x)).2 ++ c_lost x.

Lemma fault_good B U E st a off write : good B U E st -> 1 <= E a -> 0 <= off ->
  returns (fault a off write st) (fun '(ret, f, st') => exists o, objs st !! a = Some o /\ good B (also U (fault_spent a off write st)) E st' /\
    fault_post B U E st a o off write (fault_spent a off write st) (ret, f, st')).
Proof.
  intros [Hi Hl [rk Hr] Hs] HE Hoff. destruct (in_ext _ _ _ _ Hi a ltac:(lia)) as [o Ha]. unfold fault. eapply returns_mono.
  - apply (vm_fault_spec B U E rk off st Hoff Hi Hl Hr Hs _ a o write); try done. apply Nat.lt_succ_r. apply map_subseteq_size.
    apply map_filter_subseteq.
  - intros [[ret f] st'] [Hp _]. pose proof Hp as (_ & Hk & Hi' & _). exists o. split; [done|].
    split; [|done]. assert (forall b o', objs st' !! b = Some o' -> exists o, objs st !! b = Some o /\ twin o o') as Hback.
    { intros b o' Hb. specialize (Hk b). rewrite Hb in Hk. inversion Hk as [x y Ht Hx|]; subst. by exists x. }
    split; [done| | |by eapply sane_kept].
    + intros b o' Hb. destruct (Hback b o' Hb) as (x & Hx & -> & _). by eapply Hl.
    + exists rk. intros b o' Hb Hp'. destruct (Hback b o' Hb) as (x & Hx & _ & _ & Ep). rewrite Ep in *. by apply (Hr b x).
Qed.

(** A legal call returns and keeps the invariant. *)
Lemma obj_op_spec B U E st op : good B U E st -> legal op E st ->
  returns (run_op op st) (fun '(r, st') => good B (also U (op_spent op st)) (effect op r E) st').
Proof.
  intros Hg Hl. assert (forall E' st', good B U E' st' -> good B (also U ([], [])) E' st') as Hsame.
  { intros E' st' [Hi ? ? ?]. split; [|done..]. eapply inv_same; [done|]. apply also_nil. }
  assert (forall size port d, 0 <= size <= 2 ^ 42 ->
    match d with DAnon | DPhys _ | DUserPaged | DShared 0 [] 0 => True | _ => False end ->
    let '(r, st') := vm_object_alloc size port d st in good B (also U ([], [])) (if r =? 0 then E else bump r 1 E) st') as Hc.
  { intros size port d Hs Hd. pose proof (alloc_spec B U E st size port d Hg Hs Hd) as Ha.
    destruct (vm_object_alloc size port d st) as [r st']. apply Hsame.
    destruct Ha as [(-> & Hg' & _)|(Hr & _ & _ & _ & Hg')]; [done|by zcmp]. }
  assert (forall a, 1 <= E a -> a <> 0 /\ exists o, objs st !! a = Some o) as Hx.
  { intros a HE. destruct (in_ext _ _ _ _ (g_inv _ _ _ _ Hg) a ltac:(lia)) as [o Ha].
    destruct (in_shape _ _ _ _ (g_inv _ _ _ _ Hg) a o Ha) as (? & _). split; [done|by exists o]. }
  destruct op as [size|base size|size|size port|a|a|a|a off write]; simpl in Hl |- *; try (by apply Hc).
  - destruct Hl as [->|[HE Hm]]; [by apply Hsame|]. destruct (Hx a HE) as (Ha0 & o & Ha).
    eapply returns_mono; [by apply (create_shadow_spec B U E st a o); [..|apply Hm]|].
    intros [r st'] [(-> & Hg' & _)|(Hr & _ & Hg' & _)]; apply Hsame; [done|by zcmp].
  - destruct Hl as [->|[HE Hm]]; [by apply Hsame|]. destruct (Hx a HE) as (Ha0 & o & Ha). zcmp.
    eapply returns_bind; [by apply (retain_spec B U E st a o); [..|apply Hm]|]. intros st' Hg'. ret. zcmp. by apply Hsame.
  - destruct Hl as [->|HE]; [by apply Hsame|]. destruct (Hx a HE) as (Ha0 & o & Ha). zcmp.
    eapply returns_bind; [by apply (release_good B U E st a)|]. intros st' Hg'. ret. zcmp. by apply Hsame.
  - destruct Hl as [HE Hoff]. eapply returns_bind; [by apply (fault_good B U E st a off write)|].
    intros [[ret f] st'] (o & _ & Hg' & _). by ret.
Qed.

Lemma steps_good B U x y : rtc ostep x y -> good B (also U (c_out x, c_lost x)) (c_refs x) (c_st x) ->
  good B (also U (c_out y, c_lost y)) (c_refs y) (c_st y).
Proof.
  induction 1 as [x|x y z (op & r & Hl & Hr & He & Eo & El) _ IH]; intros Hg; [done|]. apply IH.
  pose proof (obj_op_spec B _ _ _ op Hg Hl) as Hop. rewrite Hr in Hop. cbn [returns] in Hop. rewrite <- He in Hop.
  destruct Hop as [Hi ? ? ?]. split; [|done..]. eapply inv_same; [done|]. intros i. unfold also. rewrite Eo, El. cbn [fst snd].
  rewrite !elem_of_app. tauto.
Qed.

Lemma start_good B U E st : good B U E st -> good B (also U ([], [])) E st.
Proof. intros [Hi ? ? ?]. split; [|done..]. eapply inv_same; [done|]. apply also_nil. Qed.

(** Without references from outside there are no objects: an object of the
    highest rank is nobody's parent. *)
Lemma unreferenced B U E st : good B U E st -> (forall a, E a = 0) -> objs st = ∅.
Proof.
  intros [Hi Hl [rk Hr] _] HE.
  assert (exists M, forall a o, objs st !! a = Some o -> (rk a <= M)%nat) as [M HM].
  { exists (max_list (rk <$> (map_to_list (objs st)).*1)). intros a o Ha. apply max_list_elem_of_le, list_elem_of_fmap_2.
    apply (list_elem_of_fmap_2' fst _ (a, o)); [by apply elem_of_map_to_list|done]. }
  assert (forall n a o, objs st !! a = Some o -> (M - rk a < n)%nat -> False) as Hno.
  { induction n as [|n IH]; intros a o Ha Hn; [lia|].
    destruct (in_ref _ _ _ _ Hi a o Ha) as (_ & Href & _). pose proof (Hl a o Ha) as H1. rewrite HE in Href.
    assert (exists b x, objs st !! b = Some x /\ shadows a x <> 0) as (b & x & Hb & Hs).
    { apply dec_stable. intros Hno. assert (msum (shadows a) (objs st) = 0) as H0; [|lia]. unfold msum.
      rewrite (sumz_ext (fun _ => 0) (shadows a)); [induction ((map_to_list (objs st)).*2); simpl; lia|].
      intros x ([b y] & -> & Hin)%list_elem_of_fmap. apply elem_of_map_to_list in Hin. simpl.
      destruct (Z.eq_dec (shadows a y) 0); [done|]. destruct Hno. by exists b, y. }
    unfold shadows in Hs. destruct ((1 <=? o_ref x) && (parent_of x =? a)) eqn:Ec; [|done].
    apply andb_prop in Ec as [_ Ep%Z.eqb_eq]. destruct (in_shape _ _ _ _ Hi a o Ha) as (Ha0 & _).
    pose proof (Hr b x Hb ltac:(congruence)) as Hlt. rewrite Ep in Hlt. pose proof (HM b x Hb). apply (IH b x Hb). lia. }
  apply map_empty. intros a. destruct (objs st !! a) as [o|] eqn:Ha; [|done]. destruct (Hno (S M) a o Ha). lia.
Qed.

(** ** Properties *)

(** C28: whatever sequence of calls clients make that hold a reference to each
    object they name, every call returns (no freed object is touched, nothing
    is freed twice, the walk along the parents ends), and each object is counted
    exactly by its outside references and its live shadows.  Once the last
    reference is given back no object is left, all heap blocks are returned, and
    every page is free but those that were in use before, those of the frames
    that faults of anonymous objects and shadows answered with, and those a
    shadow's parent allocated to be copied from, which the code loses.  The pages
    of the pool lie in the first 64 MB, object sizes are at most 2^42 and counts
    stay below 2^31. *)
Theorem vm_object_lifecycle B U E st x : good B U E st -> rtc ostep (Conf E [] [] st) x ->
  (forall op, legal op (c_refs x) (c_st x) -> exists r st', run_op op (c_st x) = Ret (r, st')) /\
  good B (also U (c_out x, c_lost x)) (c_refs x) (c_st x) /\
  ((forall a, c_refs x a = 0) ->
   objs (c_st x) = ∅ /\ klive (oheap (c_st x)) = B /\
   forall i, page_free (opmm (c_st x)) i <->
     0 <= i < total_pages (opmm (c_st x)) /\ ~ U i /\ i ∉ c_out x /\ i ∉ c_lost x).
Proof.
  intros Hg Hs. pose proof (steps_good B U _ _ Hs (start_good _ _ _ _ Hg)) as Hg'. split; [|split; [done|]].
  - intros op Hl. pose proof (obj_op_spec B _ _ _ op Hg' Hl) as Hop. destruct (returns_inv _ _ Hop) as ([r st'] & Er & _). by exists r, st'.
  - intros HE. pose proof (unreferenced B _ _ _ Hg' HE) as He. split; [done|].
    pose proof (g_inv _ _ _ _ Hg') as Hi. split.
    + rewrite (in_live _ _ _ _ Hi), He. unfold flat. rewrite map_to_list_empty. simpl. by rewrite union_empty_r_L.
    + intros i. rewrite (in_free _ _ _ _ Hi), He. unfold flat, also. rewrite map_to_list_empty. cbn [fst snd].
      rewrite elem_of_app. pose proof (not_elem_of_nil i). simpl. tauto.
Qed.


End vm_object.

(** ** Concrete runs: sixteen pages, the first one in use *)

Definition start_heap (n : nat) : ref_heap := RefHeap 1 n ∅.

(** No objects yet; the pages that are not free belong to others. *)
Lemma good_start {H} `{!KMem H, !KMemLaws H} (h : H) p : kwf h -> pmm_wf p -> ~ page_free p 0 -> total_pages p * PAGE <= IDENTITY_END ->
  good (klive h) (fun i => ~ page_free p i) (fun _ => 0) (OSt ∅ h p ∅).
Proof.
  intros Hw Hp H0 Hlow. split; [|done|by exists (fun _ => 0%nat)|done]. split; cbn [objs oheap opmm]; try done.
  - unfold flat. rewrite map_to_list_empty. simpl. by rewrite union_empty_r_L.
  - unfold flat. rewrite map_to_list_empty. constructor.
  - intros x []%elem_of_nil.
  - intros i. unfold flat. rewrite map_to_list_empty. simpl. split.
    + intros Hi. split; [apply Hi|]. split; [tauto|]. apply not_elem_of_nil.
    + intros (Hr & Hn & _). unfold page_free in *. destruct (bm_bit 8 (bitmap p) i); [|done]. destruct Hn. by intros [_ ?].
  - unfold flat. rewrite map_to_list_empty. constructor.
  - intros f []%elem_of_nil.
  - intros i Hi _. unfold PAGE in *. lia.
Qed.

Definition tiny_pmm : pmm := Pmm [0x01; 0x00] 0 16 15.

Definition any_map (_ : Z) : bool := true.
Definition no_pager (_ _ _ _ : Z) : Z * Z := (-1, 0).

Definition demo0 : @ost ref_heap := OSt ∅ (start_heap 20) tiny_pmm ∅.

(** The state after a call, and the answer. *)
Definition after (op : oop) (x : @conf ref_heap) : conf :=
  match run_op any_map no_pager op (c_st x) with
  | Ret (r, st) => let '(out, lost) := op_spent any_map no_pager op (c_st x) in
                   Conf (effect op r (c_refs x)) (out ++ c_out x) (lost ++ c_lost x) st
  | _ => x
  end.

Definition answer (op : oop) (x : @conf ref_heap) : option Z :=
  match run_op any_map no_pager op (c_st x) with Ret (r, _) => Some r | _ => None end.

Lemma after_step op x : legal op (c_refs x) (c_st x) -> answer op x <> None -> ostep any_map no_pager x (after op x).
Proof.
  intros Hl Ha. unfold answer in Ha. unfold after. destruct (run_op _ _ op (c_st x)) as [[r st]| |] eqn:Er; [|done..].
  exists op, r. by destruct (op_spent any_map no_pager op (c_st x)) as [out lost].
Qed.

Lemma demo_good : good (klive (start_heap 20)) (fun i => ~ page_free tiny_pmm i) (fun _ => 0) demo0.
Proof.
  apply (good_start (start_heap 20) tiny_pmm); [done| |by intros [_ Hb]|done].
  split; [vm_compute; split; [discriminate|reflexivity]|]. split; [vm_compute; discriminate|]. vm_compute. reflexivity.
Qed.

(** A shared object, a page of it, a shadow, a page of the shadow, and
    everything given back. *)
Definition start : @conf ref_heap := Conf (fun _ => 0) [] [] demo0.
Definition demo1 := after (OShared 20000) start.
Definition demo2 := after (OFault 1 5000 true) demo1.
Definition demo3 := after (OShadow 1) demo2.
Definition demo4 := after (OFault 3 5000 true) demo3.
Definition demo5 := after (ORelease 1) demo4.
Definition demo6 := after (ORelease 3) demo5.

Lemma vm_object_lifecycle_witness :
  answer (OFault 1 5000 true) demo1 = Some 0x1000 /\ size (objs (c_st demo5)) = 2%nat /\
  free_pages (opmm (c_st demo5)) = 13 /\ free_pages (opmm (c_st demo6)) = 14 /\ c_out demo6 = [2] /\ c_lost demo6 = [] /\
  objs (c_st demo6) = ∅ /\ klive (oheap (c_st demo6)) = ∅ /\ page_free (opmm (c_st demo6)) 1.
Proof.
  do 6 (split; [vm_compute; reflexivity|]).
  assert (rtc (ostep any_map no_pager) start demo6) as Hs.
  { apply (rtc_l _ _ demo1); [apply (after_step (OShared 20000)); [simpl; lia|by vm_compute]|].
    apply (rtc_l _ _ demo2); [apply (after_step (OFault 1 5000 true)); [split; vm_compute; discriminate|by vm_compute]|].
    apply (rtc_l _ _ demo3); [apply (after_step (OShadow 1)); [|by vm_compute]|].
    { right. split; [vm_compute; discriminate|]. intros o Ho. vm_compute in Ho. injection Ho as <-. vm_compute. reflexivity. }
    apply (rtc_l _ _ demo4); [apply (after_step (OFault 3 5000 true)); [split; vm_compute; discriminate|by vm_compute]|].
    apply (rtc_l _ _ demo5); [apply (after_step (ORelease 1)); [right; vm_compute; discriminate|by vm_compute]|].
    apply (rtc_l _ _ demo6); [apply (after_step (ORelease 3)); [right; vm_compute; discriminate|by vm_compute]|]. exact (rtc_refl _ demo6). }
  destruct (vm_object_lifecycle any_map no_pager _ _ _ _ _ demo_good Hs) as (_ & _ & Hend).
  destruct Hend as (He & Hl & Hp).
  - intros a. assert (forall E, c_refs demo6 a = E -> E = 0) as HE; [|by apply HE].
    intros E <-. vm_compute. destruct a as [|[[p|p|]|[p|p|]|]|p]; reflexivity.
  - split; [done|]. split; [done|]. apply Hp. split; [split; vm_compute; [discriminate|reflexivity]|].
    assert (c_out demo6 = [2] /\ c_lost demo6 = []) as [-> ->] by (split; vm_compute; reflexivity).
    split; [intros Hn; apply Hn; split; [split; vm_compute; [discriminate|reflexivity]|vm_compute; reflexivity]|].
    split; [|apply not_elem_of_nil]. rewrite list_elem_of_singleton. discriminate.
Defined.

Definition fault_answer (a off : Z) (x : @conf ref_heap) : option (Z * Z) :=
  match fault any_map no_pager a off true (c_st x) with Ret (ret, f, _) => Some (ret, f) | _ => None end.


(** An anonymous object and its shadow. *)
Definition cow1 := after (OShadow 1) (after (OAnon 8192) start).
Definition cow2 := after (OFault 2 0 true) cow1.
Definition cow3 := after (OFault 2 0 true) cow2.

(** A shadow forgets the pages it copied.  The first fault on a page of a
    shadow of an anonymous object answers with a copy in frame 0x2000, and
    loses the frame 0x1000 its parent allocated for it; the next fault on the
    same page answers with a third, zeroed frame, not with the copy. *)
Theorem vm_shadow_forgets_copy :
  fault_answer 2 0 cow1 = Some (0, 0x2000) /\ fault_answer 2 0 cow2 = Some (0, 0x3000) /\
  free_pages (opmm (c_st cow1)) = 15 /\ free_pages (opmm (c_st cow2)) = 13 /\ c_out cow2 = [2] /\ c_lost cow2 = [1] /\
  fmem (c_st cow3) !! 0x3000 = Some zero_page.
Proof. do 6 (split; [vm_compute; reflexivity|]). vm_compute. reflexivity. Qed.

(** The capacity of a page cache is a 32-bit count that is doubled until it
    exceeds the page number: from page 2^31 on it never does. *)
Theorem vm_shared_growth_hangs fuel page_idx : 2 ^ 31 <= page_idx -> grow_cap fuel 64 page_idx = Hang.
Proof.
  intros Hi. assert (forall c, (c = 0 \/ exists k, 0 <= k <= 31 /\ c = 2 ^ k) -> grow_cap fuel c page_idx = Hang) as Hg.
  2:{ apply Hg. right. by exists 6. }
  induction fuel as [|fuel IH]; intros c Hc; [done|]. cbn [grow_cap].
  assert (c <= 2 ^ 31).
  { destruct Hc as [->|(k & Hk & ->)]; [lia|]. apply Z.pow_le_mono_r; lia. }
  zcmp. apply IH. destruct Hc as [->|(k & Hk & ->)]; [by left|]. rewrite Z.mul_comm, <- Z.pow_succ_r by lia.
  destruct (Z.eq_dec k 31) as [->|]; [by left|]. right. exists (Z.succ k). split; [lia|]. apply Z.mod_small.
  split; [lia|]. apply Z.pow_lt_mono_r; lia.
Qed.
