(* ===== verification/Chksum.v ===== *)
(** * The Internet checksum (bsd/net/lwip/src/core/inet_chksum.c, core/def.c)

    A pointer into a buffer is the list of the bytes from there on, so reading
    past the end is [UB]; the alignment of the buffer is the number [addr].
    The machine is little-endian (bsd/net/arch/cc.h).  All three variants of
    [lwip_standard_chksum] the file offers are modelled; the build uses the
    second.  A pbuf is its payload; a chain is a list of pbufs.

    The reference is the value of the byte string as one little-endian number,
    reduced modulo 65535 with 65535 instead of 0 for every number but 0. *)

From stdpp Require Import base numbers list.
From Stdlib Require Import ZArith Lia.
From S2P Require Import Prelude.

#[local] Open Scope Z_scope.

Definition u16 (x : Z) : Z := x mod 2 ^ 16.

(** ** Macros *)

Definition FOLD_U32T (u : Z) : Z := u32 (Z.shiftr u 16 + Z.land u 0xffff).
Definition SWAP_BYTES_IN_WORD (w : Z) : Z :=
  Z.lor (Z.shiftl (Z.land w 0xff) 8) (Z.shiftr (Z.land w 0xff00) 8).
Definition lwip_htons (n : Z) : Z := u16 (SWAP_BYTES_IN_WORD n).

(** ** Reads through a pointer that is advanced *)

Definition rd8 (p : list Z) : out (Z * list Z) :=
  match p with a :: p => Ret (a, p) | _ => UB end.
Definition rd16 (p : list Z) : out (Z * list Z) :=
  match p with a :: b :: p => Ret (a + 2 ^ 8 * b, p) | _ => UB end.
Definition rd32 (p : list Z) : out (Z * list Z) :=
  match p with a :: b :: c :: d :: p => Ret (a + 2 ^ 8 * b + 2 ^ 16 * c + 2 ^ 24 * d, p) | _ => UB end.

(** ** Version 1 *)

Fixpoint chksum1_loop (fuel : nat) (p : list Z) (len acc : Z) : out (list Z * Z * Z) :=
  match fuel with
  | O => Hang
  | S fuel =>
      if 1 <? len then
        '(hi, p) ← rd8 p;
        '(lo, p) ← rd8 p;
        let src := Z.lor (u16 (Z.shiftl hi 8)) lo in
        chksum1_loop fuel p (len - 2) (u32 (acc + src))
      else Ret (p, len, acc)
  end.

Definition lwip_standard_chksum1 (p : list Z) (len : Z) : out Z :=
  '(p, len, acc) ← chksum1_loop (S (Z.to_nat len)) p len 0;
  acc ← (if 0 <? len then '(hi, _) ← rd8 p; Ret (u32 (acc + u16 (Z.shiftl hi 8))) else Ret acc);
  let acc := u32 (Z.shiftr acc 16 + Z.land acc 0xffff) in
  let acc := if negb (Z.land acc 0xffff0000 =? 0) then u32 (Z.shiftr acc 16 + Z.land acc 0xffff) else acc in
  Ret (lwip_htons (u16 acc)).

(** ** Version 2 *)

(** [while (len > 1) { sum += *ps++; len -= 2; }] *)
Fixpoint sum16_loop (fuel : nat) (p : list Z) (len sum : Z) : out (list Z * Z * Z) :=
  match fuel with
  | O => Hang
  | S fuel =>
      if 1 <? len then
        '(w, p) ← rd16 p;
        sum16_loop fuel p (len - 2) (u32 (sum + w))
      else Ret (p, len, sum)
  end.

(** [if (odd && len > 0) { ((u8_t * )&t)[1] = *pb++; len--; }] with [t = 0] *)
Definition odd_head (odd : bool) (p : list Z) (len : Z) : out (Z * list Z * Z) :=
  if odd && (0 <? len) then '(b, p) ← rd8 p; Ret (2 ^ 8 * b, p, len - 1) else Ret (0, p, len).

(** [if (len > 0) ((u8_t * )&t)[0] = *ps;] *)
Definition tail_byte (t : Z) (p : list Z) (len : Z) : out Z :=
  if 0 <? len then '(b, _) ← rd8 p; Ret (Z.land t 0xff00 + b) else Ret t.

Definition fold_swap (odd : bool) (sum : Z) : Z :=
  let sum := FOLD_U32T (FOLD_U32T sum) in
  u16 (if odd then SWAP_BYTES_IN_WORD sum else sum).

Definition lwip_standard_chksum (addr : Z) (p : list Z) (len : Z) : out Z :=
  let odd := negb (Z.land addr 1 =? 0) in
  '(t, p, len) ← odd_head odd p len;
  '(p, len, sum) ← sum16_loop (S (Z.to_nat len)) p len 0;
  t ← tail_byte t p len;
  Ret (fold_swap odd (u32 (sum + t))).

(** ** Version 3 *)

(** [tmp = sum + x; if (tmp < sum) tmp++;] *)
Definition add_carry (sum x : Z) : Z :=
  let tmp := u32 (sum + x) in if tmp <? sum then u32 (tmp + 1) else tmp.

Fixpoint sum32_loop (fuel : nat) (p : list Z) (len sum : Z) : out (list Z * Z * Z) :=
  match fuel with
  | O => Hang
  | S fuel =>
      if 7 <? len then
        '(x, p) ← rd32 p;
        '(y, p) ← rd32 p;
        sum32_loop fuel p (len - 8) (add_carry (add_carry sum x) y)
      else Ret (p, len, sum)
  end.

Definition lwip_standard_chksum3 (addr : Z) (p : list Z) (len : Z) : out Z :=
  let odd := negb (Z.land addr 1 =? 0) in
  '(t, p1, len1) ← odd_head odd p len;
  let ps := addr + (len - len1) in
  '(p, len, sum) ← (if negb (Z.land ps 3 =? 0) && (1 <? len1)
                    then '(w, p) ← rd16 p1; Ret (p, len1 - 2, w) else Ret (p1, len1, 0));
  '(p, len, sum) ← sum32_loop (S (Z.to_nat len)) p len sum;
  '(p, len, sum) ← sum16_loop (S (Z.to_nat len)) p len (FOLD_U32T sum);
  t ← tail_byte t p len;
  Ret (fold_swap odd (u32 (sum + t))).

(** ** Checksums of buffers and chains *)

Definition not16 (x : Z) : Z := u16 (Z.lnot x).

Definition inet_chksum (addr : Z) (p : list Z) (len : Z) : out Z :=
  c ← lwip_standard_chksum addr p len; Ret (not16 c).

Record pbuf := Pbuf { pb_addr : Z; pb_payload : list Z; pb_len : Z }.

(** The body of the loop over a chain, for [chklen] bytes of [q]. *)
Definition chain_step (q : pbuf) (chklen : Z) (st : Z * bool) : out (Z * bool) :=
  let '(acc, swapped) := st in
  c ← lwip_standard_chksum (pb_addr q) (pb_payload q) chklen;
  let acc := FOLD_U32T (u32 (acc + c)) in
  Ret (if negb (pb_len q mod 2 =? 0) then (SWAP_BYTES_IN_WORD acc, negb swapped) else (acc, swapped)).

Definition unswap (st : Z * bool) : Z := let '(acc, swapped) := st in if (swapped : bool) then SWAP_BYTES_IN_WORD acc else acc.

Definition inet_chksum_pbuf (c : list pbuf) : out Z :=
  st ← fold_out (fun q => chain_step q (pb_len q)) c (0, false);
  Ret (not16 (Z.land (unswap st) 0xffff)).

(** Pseudo header: protocol and length, then the fold and the complement. *)
Definition pseudo_end (proto proto_len acc : Z) : Z :=
  let acc := u32 (acc + lwip_htons proto) in
  let acc := u32 (acc + lwip_htons proto_len) in
  not16 (Z.land (FOLD_U32T (FOLD_U32T acc)) 0xffff).

Definition inet_cksum_pseudo_base (c : list pbuf) (proto proto_len acc : Z) : out Z :=
  st ← fold_out (fun q => chain_step q (pb_len q)) c (acc, false);
  Ret (pseudo_end proto proto_len (unswap st)).

(** The addresses, in network order as they lie in memory. *)
Definition addr_acc (src dest : Z) : Z :=
  let acc := Z.land src 0xffff in
  let acc := u32 (acc + Z.land (Z.shiftr src 16) 0xffff) in
  let acc := u32 (acc + Z.land dest 0xffff) in
  let acc := u32 (acc + Z.land (Z.shiftr dest 16) 0xffff) in
  FOLD_U32T (FOLD_U32T acc).

Definition inet_chksum_pseudo (c : list pbuf) (proto proto_len src dest : Z) : out Z :=
  inet_cksum_pseudo_base c proto proto_len (addr_acc src dest).

(** [for (q = p; q != NULL && chksum_len > 0; q = q->next)] *)
Fixpoint partial_loop (c : list pbuf) (chksum_len : Z) (st : Z * bool) : out (Z * bool) :=
  match c with
  | [] => Ret st
  | q :: c =>
      if 0 <? chksum_len then
        let chklen := if chksum_len <? pb_len q then chksum_len else pb_len q in
        st ← chain_step q chklen st;
        partial_loop c (u16 (chksum_len - chklen)) st
      else Ret st
  end.

Definition inet_cksum_pseudo_partial_base (c : list pbuf) (proto proto_len chksum_len acc : Z) : out Z :=
  st ← partial_loop c chksum_len (acc, false);
  Ret (pseudo_end proto proto_len (unswap st)).

Definition inet_chksum_pseudo_partial (c : list pbuf) (proto proto_len chksum_len src dest : Z) : out Z :=
  inet_cksum_pseudo_partial_base c proto proto_len chksum_len (addr_acc src dest).

(** The build has IPv4 only. *)
Definition ip_chksum_pseudo (c : list pbuf) (proto proto_len src dest : Z) : out Z :=
  inet_chksum_pseudo c proto proto_len src dest.
Definition ip_chksum_pseudo_partial (c : list pbuf) (proto proto_len chksum_len src dest : Z) : out Z :=
  inet_chksum_pseudo_partial c proto proto_len chksum_len src dest.

(** ** Numbers modulo 65535 *)

Definition cong (a b : Z) : Prop := (65535 | a - b).
Infix "≡ₒ" := cong (at level 70).

#[local] Instance cong_equiv : Equivalence cong.
Proof.
  unfold cong. split.
  - intros a. exists 0. lia.
  - intros a b [k E]. exists (- k). lia.
  - intros a b c [k E] [m E']. exists (k + m). lia.
Qed.

#[local] Instance cong_add : Proper (cong ==> cong ==> cong) Z.add.
Proof. intros a b [k E] c d [m E']. exists (k + m). lia. Qed.

#[local] Instance cong_sub : Proper (cong ==> cong ==> cong) Z.sub.
Proof. intros a b [k E] c d [m E']. exists (k - m). lia. Qed.

#[local] Instance cong_mul : Proper (cong ==> cong ==> cong) Z.mul.
Proof. intros a b [k E] c d [m E']. exists (k * c + m * b). nia. Qed.

Lemma cong_mod_eq a b : a ≡ₒ b -> a mod 65535 = b mod 65535.
Proof. intros [k E]. replace a with (b + k * 65535) by lia. apply Z_mod_plus_full. Qed.

Definition is_byte (b : Z) : Prop := 0 <= b < 2 ^ 8.

Definition le_value (l : list Z) : Z := foldr (fun b v => b + 2 ^ 8 * v) 0 l.

(** The representative of a number: 0 only for 0. *)
Definition norm (n : Z) : Z := if n =? 0 then 0 else (n - 1) mod 65535 + 1.

(** [x] stands for [v]. *)
Definition stands (x v : Z) : Prop := 0 <= x /\ 0 <= v /\ x ≡ₒ v /\ (x = 0 <-> v = 0).

(** Multiples of 65535 vanish. *)
Lemma cong_shift a k : a + k * 65535 ≡ₒ a.
Proof. exists k. lia. Qed.

Lemma cong_mod a : a mod 65535 ≡ₒ a.
Proof. exists (- (a / 65535)). pose proof (Z.div_mod a 65535 ltac:(lia)). lia. Qed.

Lemma cong_65536 : 65536 ≡ₒ 1.
Proof. by exists 1. Qed.

Lemma norm_unique x v : stands x v -> x <= 65535 -> x = norm v.
Proof.
  intros (Hx & Hv & He & Hz) Hm. unfold norm. destruct (Z.eqb_spec v 0) as [->|Hne]; [tauto|].
  assert (0 < x) by lia. assert (0 < v) by lia.
  assert ((x - 1) mod 65535 = (v - 1) mod 65535) as E by (apply cong_mod_eq; by rewrite He).
  rewrite <- E, Z.mod_small by lia. lia.
Qed.

Lemma stands_refl v : 0 <= v -> stands v v.
Proof. intros. by split. Qed.

Lemma stands_add x v y w : stands x v -> stands y w -> stands (x + y) (v + w).
Proof.
  intros (? & ? & He & ?) (? & ? & He' & ?). split; [lia|]. split; [lia|]. split; [|lia].
  by rewrite He, He'.
Qed.

Lemma stands_trans x y z : stands x y -> stands y z -> stands x z.
Proof. intros (? & ? & He & ?) (? & ? & He' & ?). split; [lia|]. split; [lia|]. split; [by rewrite He|tauto]. Qed.

(** Two bytes change places: a multiplication by 256. *)
Lemma stands_scale x v k : stands x v -> 0 < k -> stands (k * x) (k * v).
Proof. intros (? & ? & He & ?) Hk. split; [lia|]. split; [lia|]. split; [by rewrite He|nia]. Qed.

Lemma stands_65536 v : 0 <= v -> stands v (65536 * v).
Proof.
  intros Hv. split; [done|]. split; [lia|]. split; [|lia]. by rewrite cong_65536, Z.mul_1_l.
Qed.

Lemma stands_65536_r x v : stands x (65536 * v) -> 0 <= v -> stands x v.
Proof.
  intros Hs Hv. destruct (stands_65536 v Hv) as (? & ? & He & ?). destruct Hs as (? & ? & He' & ?).
  split; [done|]. split; [done|]. split; [rewrite He'; by symmetry|lia].
Qed.

(** ** Folding and swapping *)

Lemma fold_spec u : 0 <= u < 2 ^ 32 -> FOLD_U32T u = u / 65536 + u mod 65536.
Proof.
  intros Hu. unfold FOLD_U32T. rewrite Z.shiftr_div_pow2 by lia. change 0xffff with (Z.ones 16). rewrite Z.land_ones by lia.
  change (2 ^ 16) with 65536. apply u32_small. unfold in_u32.
  pose proof (Z.mod_pos_bound u 65536 ltac:(lia)). pose proof (Z.div_pos u 65536 ltac:(lia) ltac:(lia)).
  pose proof (Z.div_lt_upper_bound u 65536 65536 ltac:(lia) ltac:(lia)). lia.
Qed.

Lemma fold_bound u m : 0 <= u < 2 ^ 32 -> u <= 65536 * m + 65535 -> 0 <= FOLD_U32T u <= m + 65535 /\ (u < 65536 * 65536 -> u / 65536 < 65536).
Proof.
  intros Hu Hm. rewrite fold_spec by done. pose proof (Z.mod_pos_bound u 65536 ltac:(lia)).
  pose proof (Z.div_pos u 65536 ltac:(lia) ltac:(lia)).
  pose proof (Z.div_lt_upper_bound u 65536 (m + 1) ltac:(lia) ltac:(lia)). split; [lia|].
  intros. apply Z.div_lt_upper_bound; lia.
Qed.

Lemma fold_stands u v : stands u v -> u < 2 ^ 32 -> stands (FOLD_U32T u) v.
Proof.
  intros Hs Hu. destruct Hs as (H0 & Hv & He & Hz). rewrite fold_spec by lia.
  pose proof (Z.div_mod u 65536 ltac:(lia)) as Hd. pose proof (Z.mod_pos_bound u 65536 ltac:(lia)).
  pose proof (Z.div_pos u 65536 ltac:(lia) ltac:(lia)). split; [lia|]. split; [done|]. split; [|lia].
  rewrite <- He. rewrite Hd at 3. replace (65536 * (u / 65536) + u mod 65536) with (u / 65536 + u mod 65536 + u / 65536 * 65535) by lia.
  by rewrite cong_shift.
Qed.

(** Two folds give the representative. *)
Lemma fold_twice u v : stands u v -> u < 2 ^ 32 -> FOLD_U32T (FOLD_U32T u) = norm v.
Proof.
  intros Hs Hu. pose proof Hs as (H0 & _). destruct (fold_bound u 65535) as [Hb _]; [lia|lia|].
  pose proof (fold_stands u v Hs Hu) as H1. apply norm_unique; [apply fold_stands; [done|lia]|].
  rewrite fold_spec by lia. pose proof (Z.mod_pos_bound (FOLD_U32T u) 65536 ltac:(lia)) as Hm.
  pose proof (Z.div_mod (FOLD_U32T u) 65536 ltac:(lia)). lia.
Qed.

Lemma norm_range v : 0 <= v -> 0 <= norm v <= 65535.
Proof. intros. unfold norm. destruct (_ =? _); [lia|]. pose proof (Z.mod_pos_bound (v - 1) 65535 ltac:(lia)). lia. Qed.

Lemma norm_stands v : 0 <= v -> stands (norm v) v.
Proof.
  intros Hv. pose proof (norm_range v Hv). unfold norm in *. destruct (Z.eqb_spec v 0) as [->|]; [done|].
  pose proof (Z.mod_pos_bound (v - 1) 65535 ltac:(lia)). split; [lia|]. split; [lia|]. split; [|lia].
  rewrite cong_mod. by replace (v - 1 + 1) with v by lia.
Qed.

Lemma norm_eq v w : stands v w -> norm v = norm w.
Proof.
  intros Hs. pose proof Hs as (H0 & Hw & _). apply norm_unique; [|apply norm_range; lia].
  eapply stands_trans; [by apply norm_stands|done].
Qed.

Lemma swap_val w : 0 <= w <= 65535 -> SWAP_BYTES_IN_WORD w = 256 * (w mod 256) + w / 256.
Proof.
  intros Hw. unfold SWAP_BYTES_IN_WORD. change 0xff with (Z.ones 8). rewrite Z.land_ones, Z.shiftl_mul_pow2 by lia.
  rewrite Z.shiftr_div_pow2 by lia. change (2 ^ 8) with 256.
  assert (Z.land w 0xff00 = 256 * (w / 256)) as -> by (change 0xff00 with (2 ^ 16 - 2 ^ 8); rewrite land_mask by lia; done).
  rewrite (Z.mul_comm 256 (w / 256)), Z.div_mul by lia.
  pose proof (Z.mod_pos_bound w 256 ltac:(lia)). pose proof (Z.div_pos w 256 ltac:(lia) ltac:(lia)).
  pose proof (Z.div_lt_upper_bound w 256 256 ltac:(lia) ltac:(lia)).
  change (w mod 256 * 256) with (w mod 256 * 2 ^ 8). rewrite lor_add by lia. lia.
Qed.

Lemma swap_range w : 0 <= w <= 65535 -> 0 <= SWAP_BYTES_IN_WORD w <= 65535.
Proof.
  intros Hw. rewrite swap_val by done. pose proof (Z.mod_pos_bound w 256 ltac:(lia)).
  pose proof (Z.div_pos w 256 ltac:(lia) ltac:(lia)). pose proof (Z.div_lt_upper_bound w 256 256 ltac:(lia) ltac:(lia)). lia.
Qed.

Lemma swap_stands w v : stands w v -> w <= 65535 -> stands (SWAP_BYTES_IN_WORD w) (256 * v).
Proof.
  intros Hs Hw. pose proof Hs as (H0 & _). rewrite swap_val by done. eapply stands_trans; [|by apply stands_scale].
  pose proof (Z.div_mod w 256 ltac:(lia)) as Hd. pose proof (Z.mod_pos_bound w 256 ltac:(lia)).
  pose proof (Z.div_pos w 256 ltac:(lia) ltac:(lia)).
  replace (256 * w) with (256 * (w mod 256) + 65536 * (w / 256)) by lia.
  apply stands_add; [apply stands_refl; lia|by apply stands_65536].
Qed.

Lemma swap_norm v : 0 <= v -> SWAP_BYTES_IN_WORD (norm v) = norm (256 * v).
Proof.
  intros Hv. pose proof (norm_range v Hv). apply norm_unique; [|by apply swap_range].
  apply swap_stands; [by apply norm_stands|lia].
Qed.

Lemma u16_norm v : 0 <= v -> u16 (norm v) = norm v.
Proof. intros Hv. pose proof (norm_range v Hv). apply Z.mod_small. lia. Qed.

(** ** The value of a byte string *)

Lemma le_value_nonneg l : Forall is_byte l -> 0 <= le_value l.
Proof. induction 1 as [|b l Hb _ IH]; simpl; [lia|]. unfold is_byte in Hb. lia. Qed.

Lemma le_value_app l1 l2 : le_value (l1 ++ l2) = le_value l1 + 2 ^ (8 * Z.of_nat (length l1)) * le_value l2.
Proof.
  induction l1 as [|b l IH]; [simpl; lia|]. cbn [app le_value foldr length]. fold (le_value (l ++ l2)). fold (le_value l).
  rewrite IH. replace (8 * Z.of_nat (S (length l))) with (8 + 8 * Z.of_nat (length l)) by lia. rewrite Z.pow_add_r by lia. lia.
Qed.

(** Words may be moved by whole words. *)
Lemma stands_pow v (k : nat) : 0 <= v -> stands v (2 ^ (16 * Z.of_nat k) * v).
Proof.
  intros Hv. induction k as [|k IH]; [change (2 ^ (16 * Z.of_nat 0)) with 1; rewrite Z.mul_1_l; by apply stands_refl|].
  replace (16 * Z.of_nat (S k)) with (16 + 16 * Z.of_nat k) by lia. rewrite Z.pow_add_r, <- Z.mul_assoc by lia.
  eapply stands_trans; [exact IH|]. apply stands_65536. apply Z.mul_nonneg_nonneg; lia.
Qed.

Lemma even_app l1 l2 : Forall is_byte l1 -> Forall is_byte l2 -> Nat.Even (length l1) ->
  stands (le_value l1 + le_value l2) (le_value (l1 ++ l2)).
Proof.
  intros H1 H2 [k Hk]. rewrite le_value_app. apply stands_add; [by apply stands_refl, le_value_nonneg|].
  rewrite Hk. replace (8 * Z.of_nat (2 * k)) with (16 * Z.of_nat k) by lia. by apply stands_pow, le_value_nonneg.
Qed.

(** After an odd number of bytes everything is shifted by one byte. *)
Lemma odd_app l1 l2 : Forall is_byte l1 -> Forall is_byte l2 -> ~ Nat.Even (length l1) ->
  stands (256 * le_value l1 + le_value l2) (256 * le_value (l1 ++ l2)).
Proof.
  intros H1 H2 Ho. pose proof (le_value_nonneg _ H1). pose proof (le_value_nonneg _ H2).
  assert (exists k, length l1 = S (2 * k)) as [k Hk].
  { destruct (Nat.Even_or_Odd (length l1)) as [|[k Hk]]; [done|]. exists k. lia. }
  rewrite le_value_app, Z.mul_add_distr_l. apply stands_add; [apply stands_refl; lia|].
  rewrite Hk. replace (8 * Z.of_nat (S (2 * k))) with (8 + 16 * Z.of_nat k) by lia. rewrite Z.pow_add_r by lia.
  replace (256 * (2 ^ 8 * 2 ^ (16 * Z.of_nat k) * le_value l2)) with (65536 * (2 ^ (16 * Z.of_nat k) * le_value l2)) by lia.
  eapply stands_trans; [by apply (stands_pow _ k)|]. apply stands_65536. apply Z.mul_nonneg_nonneg; lia.
Qed.

(** ** The loops *)

(** What a loop over the bytes [l] in front of [p'] leaves: [len'] bytes are
    not summed yet, and the sum stands for [v] more than before. *)
Definition summed (p : list Z) (len : Z) (step : Z) (v : list Z -> Z) (bound : Z) (r : list Z * Z * Z) : Prop :=
  let '(p', len', sum') := r in
  exists l, p = l ++ p' /\ len = Z.of_nat (length l) + len' /\ 0 <= len' < step /\ Nat.Even (length l) /\
    stands sum' (v l) /\ sum' <= bound.

Lemma bytes_cons2 a b p : Forall is_byte (a :: b :: p) -> 0 <= a < 256 /\ 0 <= b < 256 /\ Forall is_byte p.
Proof. intros H. apply Forall_cons in H as [Ha [Hb H]%Forall_cons]. done. Qed.

Lemma even_SS l (a b : Z) : Nat.Even (length l) -> Nat.Even (length (a :: b :: l)).
Proof. intros [k Hk]. exists (S k). simpl. lia. Qed.

Lemma length_ge2 (p : list Z) : 1 < Z.of_nat (length p) -> exists a b q, p = a :: b :: q.
Proof. destruct p as [|a [|b q]]; simpl; [lia|lia|]. by exists a, b, q. Qed.

Lemma sum16_spec fuel : forall p len sum v, Forall is_byte p -> 0 <= len <= Z.of_nat (length p) -> len < Z.of_nat fuel ->
  stands sum v -> sum + 65535 * (len / 2) < 2 ^ 32 ->
  returns (sum16_loop fuel p len sum) (summed p len 2 (fun l => v + le_value l) (sum + 65535 * (len / 2))).
Proof.
  induction fuel as [|fuel IH]; intros p len sum v Hp Hl Hf Hs Hb; [lia|]. cbn [sum16_loop].
  destruct (Z.ltb_spec 1 len) as [Hgt|Hle].
  - destruct (length_ge2 p) as (a & b & q & ->); [lia|]. apply bytes_cons2 in Hp as (Ha & Hb' & Hq). simpl in Hl. cbn [rd16]. ret.
    assert (len / 2 = (len - 2) / 2 + 1) as Hd by (replace len with (len - 2 + 1 * 2) at 1 by lia; by rewrite Z.div_add by lia).
    pose proof (Z.div_pos (len - 2) 2 ltac:(lia) ltac:(lia)). pose proof Hs as (H0 & Hv & _).
    rewrite u32_small by (unfold in_u32; lia). set (w := a + 2 ^ 8 * b).
    eapply returns_mono; [apply (IH q (len - 2) (sum + w) (v + w)); [done|lia|lia| |lia]|].
    { apply stands_add; [done|apply stands_refl; lia]. }
    intros [[p' len'] sum'] (l & -> & El & Hlen & Hev & Hst & Hbd). exists (a :: b :: l).
    split; [done|]. split; [simpl; lia|]. split; [done|]. split; [by apply even_SS|]. split; [|lia].
    apply Forall_app in Hq as [Hl' _]. pose proof (le_value_nonneg l Hl'). eapply stands_trans; [exact Hst|].
    cbn [le_value foldr]. fold (le_value l). replace (v + (a + 2 ^ 8 * (b + 2 ^ 8 * le_value l))) with (v + w + 65536 * le_value l) by lia.
    apply stands_add; [apply stands_refl; lia|by apply stands_65536].
  - ret. exists []. split; [done|]. split; [simpl; lia|]. split; [lia|]. split; [by exists 0%nat|].
    pose proof (Z.div_pos len 2 ltac:(lia) ltac:(lia)). split; [|lia]. simpl. by rewrite Z.add_0_r.
Qed.

Lemma add_carry_spec s x v : stands s v -> s < 2 ^ 32 -> 0 <= x < 2 ^ 32 -> stands (add_carry s x) (v + x) /\ add_carry s x < 2 ^ 32.
Proof.
  intros (H0 & Hv & He & Hz) Hs Hx. unfold add_carry. destruct (Z.lt_ge_cases (s + x) (2 ^ 32)) as [Hlt|Hge].
  - rewrite u32_small by (unfold in_u32; lia). zcmp. split; [|lia]. split; [lia|]. split; [lia|]. split; [by rewrite He|lia].
  - assert (u32 (s + x) = s + x - 2 ^ 32) as ->.
    { unfold u32. symmetry. apply Z.mod_unique_pos with 1; lia. }
    zcmp. rewrite u32_small by (unfold in_u32; lia). split; [|lia]. split; [lia|]. split; [lia|]. split; [|lia].
    rewrite <- He. replace (s + x - 2 ^ 32 + 1) with (s + x + (-65537) * 65535) by lia. apply cong_shift.
Qed.

Lemma sum32_spec fuel : forall p len sum v, Forall is_byte p -> 0 <= len <= Z.of_nat (length p) -> len < Z.of_nat fuel ->
  stands sum v -> sum < 2 ^ 32 ->
  returns (sum32_loop fuel p len sum) (summed p len 8 (fun l => v + le_value l) (2 ^ 32 - 1)).
Proof.
  induction fuel as [|fuel IH]; intros p len sum v Hp Hl Hf Hs Hb; [lia|]. cbn [sum32_loop].
  destruct (Z.ltb_spec 7 len) as [Hgt|Hle].
  - destruct p as [|a [|b [|c [|d [|e [|f [|g [|h q]]]]]]]]; simpl in Hl; try lia.
    repeat match goal with H : Forall _ (_ :: _) |- _ => apply Forall_cons in H as [? H] end. unfold is_byte in *. cbn [rd32]. ret.
    set (x := a + 2 ^ 8 * b + 2 ^ 16 * c + 2 ^ 24 * d). set (y := e + 2 ^ 8 * f + 2 ^ 16 * g + 2 ^ 24 * h).
    destruct (add_carry_spec sum x v Hs Hb ltac:(lia)) as [Hs1 Hb1]. destruct (add_carry_spec _ y _ Hs1 Hb1 ltac:(lia)) as [Hs2 Hb2].
    eapply returns_mono; [apply (IH q (len - 8) _ (v + x + y)); [done|lia|lia|done|done]|].
    intros [[p' len'] sum'] (l & -> & El & Hlen & Hev & Hst & Hbd). exists (a :: b :: c :: d :: e :: f :: g :: h :: l).
    split; [done|]. split; [simpl; lia|]. split; [done|]. split; [by do 4 apply even_SS|]. split; [|lia].
    apply Forall_app in Hp as [Hl' _]. pose proof (le_value_nonneg l Hl'). pose proof Hs as (? & ? & _). eapply stands_trans; [exact Hst|].
    cbn [le_value foldr]. fold (le_value l).
    match goal with |- stands _ ?r => replace r with (v + x + 2 ^ 32 * y + 2 ^ 64 * le_value l) by lia end.
    apply stands_add; [|by apply (stands_pow _ 4)]. apply stands_add; [apply stands_refl; lia|apply (stands_pow _ 2); lia].
  - ret. exists []. split; [done|]. split; [simpl; lia|]. split; [lia|]. split; [by exists 0%nat|].
    split; [|lia]. simpl. by rewrite Z.add_0_r.
Qed.

(** ** The variants compute the same function *)

Definition is_chksum (v : Z) (r : Z) : Prop := r = norm v.

Lemma tail_byte_spec b p len : 0 <= b < 256 -> Forall is_byte p -> 0 <= len < 2 -> len <= Z.of_nat (length p) ->
  tail_byte (2 ^ 8 * b) p len = Ret (2 ^ 8 * b + le_value (take (Z.to_nat len) p)) /\
  0 <= le_value (take (Z.to_nat len) p) < 256.
Proof.
  intros Hb Hp Hl Hlen. unfold tail_byte. destruct (Z.ltb_spec 0 len).
  - destruct p as [|c p]; simpl in Hlen; [lia|]. apply Forall_cons in Hp as [Hc _]. unfold is_byte in Hc.
    replace len with 1 by lia. cbn [rd8]. ret. simpl. rewrite Z.add_0_r. split; [|lia]. do 2 f_equal.
    change 0xff00 with (2 ^ 16 - 2 ^ 8). rewrite land_mask by lia. rewrite (Z.mul_comm (2 ^ 8) b), Z.div_mul by lia. lia.
  - replace len with 0 by lia. simpl. rewrite Z.add_0_r. split; [done|lia].
Qed.

(** The end of versions 2 and 3, from the word loop on. *)
Lemma rest_spec odd q len sum v b : Forall is_byte q -> 0 <= len <= Z.of_nat (length q) -> stands sum v -> 0 <= b < 256 ->
  sum + 65535 * (len / 2) + 65535 < 2 ^ 32 ->
  returns ('(p, len, sum) ← sum16_loop (S (Z.to_nat len)) q len sum;
           t ← tail_byte (2 ^ 8 * b) p len;
           Ret (fold_swap odd (u32 (sum + t))))
    (is_chksum ((if odd then 256 else 1) * (2 ^ 8 * b + v + le_value (take (Z.to_nat len) q)))).
Proof.
  intros Hq Hlen Hs Hb Hbd. eapply returns_bind; [apply (sum16_spec _ q len sum v); [done|lia|lia|done|lia]|].
  intros [[p' len'] sum'] (l & -> & El & Hl' & Hev & Hst & Hbd'). cbv beta iota. apply Forall_app in Hq as [Hl Hp'].
  rewrite length_app in Hlen. destruct (tail_byte_spec b p' len') as [-> Ht]; [done|done|done|lia|]. ret.
  pose proof Hst as (Hs0 & _). pose proof Hs as (? & Hv & _). pose proof (le_value_nonneg l Hl).
  rewrite u32_small by (unfold in_u32; lia). set (t := le_value (take (Z.to_nat len') p')) in *.
  assert (stands (sum' + (2 ^ 8 * b + t)) (2 ^ 8 * b + v + le_value (take (Z.to_nat len) (l ++ p')))) as Hfin.
  { rewrite take_app_ge by lia. replace (Z.to_nat len - length l)%nat with (Z.to_nat len') by lia.
    replace (sum' + (2 ^ 8 * b + t)) with (2 ^ 8 * b + (sum' + t)) by lia. rewrite <- Z.add_assoc.
    apply stands_add; [apply stands_refl; lia|]. eapply stands_trans; [apply stands_add; [exact Hst|apply stands_refl; lia]|].
    rewrite <- Z.add_assoc. apply stands_add; [by apply stands_refl|]. apply even_app; [done| |done]. by apply Forall_take. }
  pose proof Hfin as (_ & Hw & _). unfold fold_swap, is_chksum. rewrite (fold_twice _ _ Hfin) by lia. destruct odd.
  - rewrite swap_norm by lia. apply u16_norm. lia.
  - rewrite Z.mul_1_l. apply u16_norm. lia.
Qed.

Lemma div2_bound len m : 0 <= len -> len <= 2 * m + 1 -> 0 <= len / 2 <= m.
Proof. intros. split; [apply Z.div_pos; lia|]. apply Z.lt_succ_r, Z.div_lt_upper_bound; lia. Qed.

(** The first byte of a buffer at an odd address. *)
Lemma odd_value b l : is_byte b -> Forall is_byte l -> norm (256 * (2 ^ 8 * b + le_value l)) = norm (le_value (b :: l)).
Proof.
  intros Hb Hl. pose proof (le_value_nonneg l Hl). unfold is_byte in Hb. symmetry. apply norm_eq.
  cbn [le_value foldr]. fold (le_value l). replace (256 * (2 ^ 8 * b + le_value l)) with (65536 * b + 2 ^ 8 * le_value l) by lia.
  apply stands_add; [apply stands_65536; lia|apply stands_refl; lia].
Qed.

Lemma take_Z_cons (b : Z) q len : 0 < len -> take (Z.to_nat len) (b :: q) = b :: take (Z.to_nat (len - 1)) q.
Proof. intros. replace (Z.to_nat len) with (S (Z.to_nat (len - 1))) by lia. done. Qed.

Definition in_buffer (p : list Z) (len : Z) : Prop := Forall is_byte p /\ 0 <= len <= Z.of_nat (length p).

Lemma chksum2_spec addr p len : in_buffer p len -> len <= 0x20000 ->
  returns (lwip_standard_chksum addr p len) (is_chksum (le_value (take (Z.to_nat len) p))).
Proof.
  intros [Hp Hl] Hm. unfold lwip_standard_chksum. destruct (negb (Z.land addr 1 =? 0)) eqn:Eo; unfold odd_head; cbn [andb].
  - destruct (Z.ltb_spec 0 len) as [Hlt|Hle].
    + destruct p as [|b q]; [simpl in Hl; lia|]. simpl in Hl. apply Forall_cons in Hp as [Hb Hq]. cbn [rd8]. ret.
      destruct (div2_bound (len - 1) 65535) as [Hd0 Hd]; [lia|lia|].
      eapply returns_mono; [apply (rest_spec true q (len - 1) 0 0 b); [done|lia|by apply stands_refl|done|lia]|].
      unfold is_chksum. intros r ->. rewrite Z.add_0_r, odd_value, take_Z_cons by (done || lia || by apply Forall_take). done.
    + replace len with 0 by lia. done.
  - ret. destruct (div2_bound len 65536) as [Hd0 Hd]; [lia|lia|].
    eapply returns_mono; [apply (rest_spec false p len 0 0 0); [done|lia|by apply stands_refl|lia|lia]|].
    unfold is_chksum. intros r ->. f_equal. lia.
Qed.

(** Version 3 sums double words, with the carry added back, and has no limit
    on the length. *)
Lemma sum32_rest odd p len sum v b : Forall is_byte p -> 0 <= len <= Z.of_nat (length p) -> stands sum v -> sum < 2 ^ 32 -> 0 <= b < 256 ->
  returns ('(p, len, sum) ← sum32_loop (S (Z.to_nat len)) p len sum;
           '(p, len, sum) ← sum16_loop (S (Z.to_nat len)) p len (FOLD_U32T sum);
           t ← tail_byte (2 ^ 8 * b) p len;
           Ret (fold_swap odd (u32 (sum + t))))
    (is_chksum ((if odd then 256 else 1) * (2 ^ 8 * b + v + le_value (take (Z.to_nat len) p)))).
Proof.
  intros Hp Hlen Hs Hsb Hb. eapply returns_bind; [apply (sum32_spec _ p len sum v); [done|lia|lia|done|done]|].
  intros [[p' len'] sum'] (l & -> & El & Hl' & Hev & Hst & Hbd'). cbv beta iota. apply Forall_app in Hp as [Hl Hp'].
  rewrite length_app in Hlen. pose proof Hst as (Hs0 & _). destruct (fold_bound sum' 65535) as [Hf _]; [lia|lia|].
  destruct (div2_bound len' 3) as [Hd0 Hd]; [lia|lia|].
  eapply returns_mono; [apply (rest_spec odd p' len' _ (v + le_value l) b); [done|lia|apply fold_stands; [done|lia]|done|lia]|].
  unfold is_chksum. intros r ->. rewrite take_app_ge by lia. replace (Z.to_nat len - length l)%nat with (Z.to_nat len') by lia.
  assert (Forall is_byte (take (Z.to_nat len') p')) as Ht by (by apply Forall_take). pose proof (le_value_nonneg l Hl).
  pose proof Hs as (? & Hv & _). apply norm_eq, stands_scale; [|by destruct odd]. rewrite <- !Z.add_assoc.
  apply stands_add; [apply stands_refl; lia|]. apply stands_add; [by apply stands_refl|]. by apply even_app.
Qed.

(** The word that aligns the pointer to four bytes. *)
Lemma align_rest odd ps p len b : Forall is_byte p -> 0 <= len <= Z.of_nat (length p) -> 0 <= b < 256 ->
  returns ('(p, len, sum) ← (if negb (Z.land ps 3 =? 0) && (1 <? len) then '(w, p) ← rd16 p; Ret (p, len - 2, w) else Ret (p, len, 0));
           '(p, len, sum) ← sum32_loop (S (Z.to_nat len)) p len sum;
           '(p, len, sum) ← sum16_loop (S (Z.to_nat len)) p len (FOLD_U32T sum);
           t ← tail_byte (2 ^ 8 * b) p len;
           Ret (fold_swap odd (u32 (sum + t))))
    (is_chksum ((if odd then 256 else 1) * (2 ^ 8 * b + le_value (take (Z.to_nat len) p)))).
Proof.
  intros Hp Hl Hb. destruct (_ && (1 <? len)) eqn:Ea.
  - apply andb_prop in Ea as [_ Hlt%Z.ltb_lt]. destruct (length_ge2 p) as (a & c & q & ->); [lia|].
    apply bytes_cons2 in Hp as (Ha & Hc & Hq). simpl in Hl. cbn [rd16]. ret.
    eapply returns_mono; [apply (sum32_rest odd q (len - 2) (a + 2 ^ 8 * c) (a + 2 ^ 8 * c) b); [done|lia|apply stands_refl; lia|lia|done]|].
    unfold is_chksum. intros r ->. assert (Forall is_byte (take (Z.to_nat (len - 2)) q)) as Ht by (by apply Forall_take).
    rewrite !take_Z_cons by lia. replace (len - 1 - 1) with (len - 2) by lia. apply norm_eq, stands_scale; [|by destruct odd].
    pose proof (le_value_nonneg _ Ht). rewrite <- Z.add_assoc. apply stands_add; [apply stands_refl; lia|]. cbn [le_value foldr].
    fold (le_value (take (Z.to_nat (len - 2)) q)). set (x := le_value (take (Z.to_nat (len - 2)) q)) in *.
    replace (a + 2 ^ 8 * (c + 2 ^ 8 * x)) with (a + 2 ^ 8 * c + 65536 * x) by lia.
    apply stands_add; [apply stands_refl; lia|by apply stands_65536].
  - ret. eapply returns_mono; [apply (sum32_rest odd p len 0 0 b); [done|lia|by apply stands_refl|lia|done]|].
    unfold is_chksum. intros r ->. by rewrite Z.add_0_r.
Qed.

Lemma chksum3_spec addr p len : in_buffer p len ->
  returns (lwip_standard_chksum3 addr p len) (is_chksum (le_value (take (Z.to_nat len) p))).
Proof.
  intros [Hp Hl]. unfold lwip_standard_chksum3. destruct (negb (Z.land addr 1 =? 0)) eqn:Eo; unfold odd_head; cbn [andb].
  - destruct (Z.ltb_spec 0 len) as [Hlt|Hle].
    + destruct p as [|b q]; [simpl in Hl; lia|]. simpl in Hl. apply Forall_cons in Hp as [Hb Hq]. cbn [rd8]. ret.
      eapply returns_mono; [apply (align_rest true _ q (len - 1) b); [done|lia|done]|].
      unfold is_chksum. intros r ->. rewrite odd_value, take_Z_cons by (done || lia || by apply Forall_take). done.
    + replace len with 0 by lia. ret. replace (negb (Z.land (addr + (0 - 0)) 3 =? 0) && (1 <? 0)) with false by (by rewrite andb_false_r).
      done.
  - ret. eapply returns_mono; [apply (align_rest false _ p len 0); [done|lia|lia]|].
    unfold is_chksum. intros r ->. f_equal. lia.
Qed.

Lemma chksum1_loop_spec fuel : forall p len acc v, Forall is_byte p -> 0 <= len <= Z.of_nat (length p) -> len < Z.of_nat fuel ->
  stands acc v -> acc + 65535 * (len / 2) < 2 ^ 32 ->
  returns (chksum1_loop fuel p len acc) (summed p len 2 (fun l => v + 256 * le_value l) (acc + 65535 * (len / 2))).
Proof.
  induction fuel as [|fuel IH]; intros p len sum v Hp Hl Hf Hs Hb; [lia|]. cbn [chksum1_loop].
  destruct (Z.ltb_spec 1 len) as [Hgt|Hle].
  - destruct (length_ge2 p) as (a & b & q & ->); [lia|]. apply bytes_cons2 in Hp as (Ha & Hb' & Hq). simpl in Hl. cbn [rd8]. ret. cbn [rd8]. ret.
    assert (len / 2 = (len - 2) / 2 + 1) as Hd by (replace len with (len - 2 + 1 * 2) at 1 by lia; by rewrite Z.div_add by lia).
    pose proof (Z.div_pos (len - 2) 2 ltac:(lia) ltac:(lia)). pose proof Hs as (H0 & Hv & _).
    assert (Z.lor (u16 (Z.shiftl a 8)) b = a * 2 ^ 8 + b) as ->.
    { unfold u16. rewrite Z.shiftl_mul_pow2, Z.mod_small by lia. apply lor_add; lia. }
    rewrite u32_small by (unfold in_u32; lia). set (w := a * 2 ^ 8 + b).
    eapply returns_mono; [apply (IH q (len - 2) (sum + w) (v + w)); [done|lia|lia| |lia]|].
    { apply stands_add; [done|apply stands_refl; lia]. }
    intros [[p' len'] sum'] (l & -> & El & Hlen & Hev & Hst & Hbd). exists (a :: b :: l).
    split; [done|]. split; [simpl; lia|]. split; [done|]. split; [by apply even_SS|]. split; [|lia].
    apply Forall_app in Hq as [Hl' _]. pose proof (le_value_nonneg l Hl'). eapply stands_trans; [exact Hst|].
    cbn [le_value foldr]. fold (le_value l).
    replace (v + 256 * (a + 2 ^ 8 * (b + 2 ^ 8 * le_value l))) with (v + (a * 2 ^ 8 + 65536 * b) + 65536 * (256 * le_value l)) by lia.
    apply stands_add; [|apply stands_65536; lia]. apply stands_add; [by apply stands_refl|].
    apply stands_add; [apply stands_refl; lia|apply stands_65536; lia].
  - ret. exists []. split; [done|]. split; [simpl; lia|]. split; [lia|]. split; [by exists 0%nat|].
    pose proof (Z.div_pos len 2 ltac:(lia) ltac:(lia)). split; [|lia]. simpl. by rewrite Z.add_0_r.
Qed.

(** The second fold of version 1 is skipped when it changes nothing. *)
Lemma fold_if u : 0 <= u < 2 ^ 17 -> (if negb (Z.land u 0xffff0000 =? 0) then u32 (Z.shiftr u 16 + Z.land u 0xffff) else u) = FOLD_U32T u.
Proof.
  intros Hu. fold (FOLD_U32T u). destruct (Z.eqb_spec (Z.land u 0xffff0000) 0) as [E|]; [|done]. cbn [negb].
  change 0xffff0000 with (2 ^ 32 - 2 ^ 16) in E. rewrite land_mask in E by lia.
  pose proof (Z.div_mod u 65536 ltac:(lia)). change (2 ^ 16) with 65536 in E. rewrite fold_spec by lia.
  pose proof (Z.div_pos u 65536 ltac:(lia) ltac:(lia)). lia.
Qed.

Lemma chksum1_spec p len : in_buffer p len -> len <= 0x20000 ->
  returns (lwip_standard_chksum1 p len) (is_chksum (le_value (take (Z.to_nat len) p))).
Proof.
  intros [Hp Hl] Hm. unfold lwip_standard_chksum1. destruct (div2_bound len 65536) as [Hd0 Hd]; [lia|lia|].
  eapply returns_bind; [apply (chksum1_loop_spec _ p len 0 0); [done|lia|lia|by apply stands_refl|lia]|].
  intros [[p' len'] acc] (l & -> & El & Hl' & Hev & Hst & Hbd). cbv beta iota. apply Forall_app in Hp as [Hl0 Hp'].
  rewrite length_app in Hl. pose proof Hst as (Ha0 & _). pose proof (le_value_nonneg l Hl0).
  set (tl := take (Z.to_nat len') p'). assert (Forall is_byte tl) as Htl by (by apply Forall_take).
  assert ((if 0 <? len' then '(hi, _) ← rd8 p'; Ret (u32 (acc + u16 (Z.shiftl hi 8))) else Ret acc) = Ret (acc + 256 * le_value tl)
    /\ 0 <= le_value tl < 256) as [-> Ht].
  { destruct (Z.ltb_spec 0 len').
    - destruct p' as [|c p']; [simpl in Hl; lia|]. apply Forall_cons in Hp' as [Hc _]. unfold is_byte in Hc. unfold tl.
      replace len' with 1 by lia. cbn [rd8]. ret. simpl. unfold u16. rewrite Z.shiftl_mul_pow2, (Z.mod_small (c * 2 ^ 8)) by lia.
      rewrite u32_small by (unfold in_u32; lia). split; [f_equal; lia|lia].
    - unfold tl. replace len' with 0 by lia. simpl. split; [f_equal; lia|lia]. }
  ret. fold (FOLD_U32T (acc + 256 * le_value tl)).
  destruct (fold_bound (acc + 256 * le_value tl) 65535) as [Hf _]; [lia|lia|]. rewrite fold_if by lia.
  assert (stands (acc + 256 * le_value tl) (256 * le_value (l ++ tl))) as Hfin.
  { eapply stands_trans; [apply stands_add; [exact Hst|apply stands_refl; lia]|]. rewrite Z.add_0_l, <- Z.mul_add_distr_l.
    apply stands_scale; [by apply even_app|lia]. }
  assert (0 <= le_value (l ++ tl)) as Hv by (apply le_value_nonneg, Forall_app; done).
  rewrite (fold_twice _ _ Hfin) by lia. rewrite u16_norm by lia. unfold lwip_htons, is_chksum.
  rewrite swap_norm, u16_norm by lia. rewrite take_app_ge by lia. replace (Z.to_nat len - length l)%nat with (Z.to_nat len') by lia.
  fold tl. symmetry. apply norm_eq. replace (256 * (256 * le_value (l ++ tl))) with (65536 * le_value (l ++ tl)) by lia. by apply stands_65536.
Qed.

(** ** Chains of pbufs *)

(** A pbuf whose payload has the length its header says. *)
Definition pbuf_ok (q : pbuf) : Prop := Forall is_byte (pb_payload q) /\ pb_len q = Z.of_nat (length (pb_payload q)) /\ pb_len q < 2 ^ 16.

Definition chain_bytes (c : list pbuf) : list Z := c ≫= pb_payload.

(** Times 256 when the accumulator is swapped. *)
Definition sc (swapped : bool) (v : Z) : Z := if swapped then 256 * v else v.

(** The accumulator after the bytes [l], [v] being there from the beginning. *)
Definition acc_ok (v : Z) (l : list Z) (st : Z * bool) : Prop :=
  let '(acc, swapped) := st in stands acc (sc swapped (v + le_value l)) /\ acc <= 65535.

Lemma acc_add v l m acc swapped c : 0 <= v -> Forall is_byte l -> Forall is_byte m -> (swapped = false <-> Nat.Even (length l)) ->
  acc_ok v l (acc, swapped) -> c = norm (le_value m) -> acc_ok v (l ++ m) (FOLD_U32T (u32 (acc + c)), swapped).
Proof.
  intros Hv Hl Hm Hsw [Hs Hb] ->. pose proof (le_value_nonneg l Hl). pose proof (le_value_nonneg m Hm) as Hm0.
  pose proof (norm_range _ Hm0). pose proof Hs as (Hacc & _). rewrite u32_small by (unfold in_u32; lia).
  assert (stands (acc + norm (le_value m)) (sc swapped (v + le_value (l ++ m)))) as Hfin.
  { eapply stands_trans; [apply stands_add; [exact Hs|by apply norm_stands]|]. destruct swapped; unfold sc.
    - rewrite !Z.mul_add_distr_l, <- Z.add_assoc. apply stands_add; [apply stands_refl; lia|].
      apply odd_app; [done|done|]. intros He. by apply Hsw in He.
    - rewrite <- Z.add_assoc. apply stands_add; [by apply stands_refl|]. apply even_app; [done|done|tauto]. }
  split; [apply fold_stands; [done|lia]|]. rewrite fold_spec by lia.
  pose proof (Z.div_mod (acc + norm (le_value m)) 65536 ltac:(lia)). pose proof (Z.mod_pos_bound (acc + norm (le_value m)) 65536 ltac:(lia)). lia.
Qed.

Lemma acc_swap v l acc swapped : 0 <= v -> Forall is_byte l -> acc_ok v l (acc, swapped) -> acc_ok v l (SWAP_BYTES_IN_WORD acc, negb swapped).
Proof.
  intros Hv Hl [Hs Hb]. pose proof (le_value_nonneg l Hl). pose proof Hs as (Hacc & _).
  pose proof (swap_stands _ _ Hs Hb) as Hsw. split; [|apply swap_range; lia]. destruct swapped; unfold sc, negb in *; [|done].
  apply stands_65536_r; [|lia]. by replace (65536 * (v + le_value l)) with (256 * (256 * (v + le_value l))) by lia.
Qed.

Lemma unswap_spec v l st : 0 <= v -> Forall is_byte l -> acc_ok v l st -> stands (unswap st) (v + le_value l) /\ unswap st <= 65535.
Proof.
  intros Hv Hl. destruct st as [acc [|]]; intros Ha; [|done]. exact (acc_swap v l acc true Hv Hl Ha).
Qed.

(** One pbuf, of which [chklen] bytes are summed. *)
Lemma chain_step_spec v l q chklen acc swapped : 0 <= v -> Forall is_byte l -> pbuf_ok q -> 0 <= chklen <= pb_len q ->
  (swapped = false <-> Nat.Even (length l)) -> acc_ok v l (acc, swapped) ->
  returns (chain_step q chklen (acc, swapped)) (fun st => acc_ok v (l ++ take (Z.to_nat chklen) (pb_payload q)) st /\
    (chklen = pb_len q -> (st.2 = false <-> Nat.Even (length (l ++ pb_payload q))))).
Proof.
  intros Hv Hl (Hq & Hlen & Hmax) Hc Hsw Ha. unfold chain_step.
  assert (Forall is_byte (take (Z.to_nat chklen) (pb_payload q))) as Ht by (by apply Forall_take).
  eapply returns_bind; [apply (chksum2_spec _ _ chklen); [by split; [|lia]|lia]|]. intros c Hcs. ret.
  pose proof (acc_add v l _ acc swapped c Hv Hl Ht Hsw Ha Hcs) as Hadd.
  assert (Forall is_byte (l ++ take (Z.to_nat chklen) (pb_payload q))) as Happ by (by apply Forall_app).
  assert (forall n, Z.of_nat n mod 2 = 0 <-> Nat.Even n) as Hpar.
  { intros n. rewrite Z.mod_divide by lia. split; intros [k Hk]; [exists (Z.to_nat k)|exists (Z.of_nat k)]; lia. }
  destruct (Z.eqb_spec (pb_len q mod 2) 0) as [E|E]; cbn [negb].
  - split; [done|]. intros _. cbn [snd]. rewrite Hlen, Hpar in E. rewrite length_app.
    rewrite <- Nat.even_spec in *. rewrite Nat.even_add, E. clear -Hsw. destruct swapped, (Nat.even (length l)); naive_solver.
  - split; [by apply acc_swap|]. intros _. cbn [snd]. rewrite Hlen, Hpar in E. rewrite length_app.
    rewrite <- Nat.even_spec in *. rewrite Nat.even_add. clear -Hsw E. destruct swapped, (Nat.even (length l)), (Nat.even (length (pb_payload q))); naive_solver.
Qed.

Lemma chain_spec v c acc : 0 <= v -> Forall pbuf_ok c -> stands acc v -> acc <= 65535 ->
  returns (fold_out (fun q => chain_step q (pb_len q)) c (acc, false)) (acc_ok v (chain_bytes c)).
Proof.
  intros Hv Hc Hs Hb. eapply returns_mono.
  - apply (fold_out_inv (fun c1 st => acc_ok v (chain_bytes c1) st /\ (st.2 = false <-> Nat.Even (length (chain_bytes c1))))).
    + split; [split; [|done]; unfold sc; simpl; by rewrite Z.add_0_r|]. simpl. split; [by exists 0%nat|done].
    + intros c1 q c2 [acc' sw] -> [Ha Hsw]. apply Forall_app in Hc as [Hc1 [Hq _]%Forall_cons]. pose proof Hq as (Hqb & Hql & _).
      assert (Forall is_byte (chain_bytes c1)) as Hl.
      { unfold chain_bytes. apply Forall_bind. eapply Forall_impl; [exact Hc1|]. intros x (Hx & _). exact Hx. }
      eapply returns_mono; [apply (chain_step_spec v _ q (pb_len q) acc' sw Hv Hl Hq); [lia|exact Hsw|exact Ha]|].
      intros st [Ha' Hsw']. rewrite take_ge in Ha' by lia. unfold chain_bytes in *. rewrite bind_app. simpl. rewrite app_nil_r.
      split; [done|]. by apply Hsw'.
  - intros st [Ha _]. exact Ha.
Qed.

(** ** Pseudo headers *)

Definition le_bytes4 (x : Z) : list Z := [u8 x; u8 (x / 2 ^ 8); u8 (x / 2 ^ 16); u8 (x / 2 ^ 24)].

(** The twelve bytes in front of a segment: both addresses as they lie in
    memory, a zero, the protocol, and the length in network order. *)
Definition pseudo_header (proto proto_len src dest : Z) : list Z :=
  le_bytes4 src ++ le_bytes4 dest ++ [0; proto] ++ [proto_len / 2 ^ 8; u8 proto_len].

Lemma word_split x : in_u32 x -> Z.land x 0xffff = x mod 65536 /\ Z.land (Z.shiftr x 16) 0xffff = x / 65536 /\
  0 <= x mod 65536 < 65536 /\ 0 <= x / 65536 < 65536.
Proof.
  intros Hx. unfold in_u32 in Hx. change 0xffff with (Z.ones 16). rewrite Z.shiftr_div_pow2, !Z.land_ones by lia. change (2 ^ 16) with 65536.
  pose proof (Z.mod_pos_bound x 65536 ltac:(lia)). pose proof (Z.div_pos x 65536 ltac:(lia) ltac:(lia)).
  pose proof (Z.div_lt_upper_bound x 65536 65536 ltac:(lia) ltac:(lia)). rewrite (Z.mod_small (x / 65536)) by lia. lia.
Qed.

Lemma le_bytes4_ok x : in_u32 x -> Forall is_byte (le_bytes4 x) /\ le_value (le_bytes4 x) = x.
Proof.
  intros Hx. split; [repeat constructor; apply u8_range|]. unfold le_bytes4, u8. unfold in_u32 in Hx.
  cbn [le_value foldr]. change (2 ^ 24) with (2 ^ 16 * 2 ^ 8). change (2 ^ 16) with (2 ^ 8 * 2 ^ 8). rewrite <- !Z.div_div by lia. change (2 ^ 8) with 256.
  set (x1 := x / 256). set (x2 := x1 / 256). set (x3 := x2 / 256).
  pose proof (Z.div_mod x 256 ltac:(lia)). pose proof (Z.div_mod x1 256 ltac:(lia)). pose proof (Z.div_mod x2 256 ltac:(lia)).
  fold x1 in H. fold x2 in H0. fold x3 in H1. pose proof (Z.mod_pos_bound x 256 ltac:(lia)).
  pose proof (Z.mod_pos_bound x1 256 ltac:(lia)). pose proof (Z.mod_pos_bound x2 256 ltac:(lia)).
  rewrite (Z.mod_small x3) by lia. lia.
Qed.

Lemma addr_acc_spec src dest : in_u32 src -> in_u32 dest -> addr_acc src dest = norm (le_value (le_bytes4 src ++ le_bytes4 dest)).
Proof.
  intros Hs Hd. destruct (word_split src Hs) as (Es1 & Es2 & ? & ?). destruct (word_split dest Hd) as (Ed1 & Ed2 & ? & ?).
  unfold addr_acc. rewrite Es1, Es2, Ed1, Ed2.
  rewrite (u32_small (src mod 65536 + src / 65536)) by (unfold in_u32; lia).
  rewrite (u32_small (src mod 65536 + src / 65536 + dest mod 65536)), u32_small by (unfold in_u32; lia).
  apply fold_twice; [|lia]. destruct (le_bytes4_ok src Hs) as [Hb1 Ev1]. destruct (le_bytes4_ok dest Hd) as [Hb2 Ev2].
  eapply stands_trans; [|apply even_app; [done|done|by exists 2%nat]]. rewrite Ev1, Ev2.
  assert (forall x, in_u32 x -> stands (x mod 65536 + x / 65536) x) as Hw.
  { intros x Hx. destruct (word_split x Hx) as (_ & _ & ? & ?). pose proof (Z.div_mod x 65536 ltac:(lia)) as Hdm.
    rewrite Hdm at 3. rewrite (Z.add_comm (65536 * _)). apply stands_add; [apply stands_refl; lia|apply stands_65536; lia]. }
  rewrite <- Z.add_assoc. apply stands_add; by apply Hw.
Qed.

Lemma htons_val n : 0 <= n < 2 ^ 16 -> lwip_htons n = n / 2 ^ 8 + 2 ^ 8 * u8 n /\ 0 <= lwip_htons n <= 65535.
Proof.
  intros Hn. pose proof (swap_range n ltac:(lia)) as Hr. unfold lwip_htons, u16. rewrite Z.mod_small by lia.
  split; [|done]. rewrite swap_val by lia. unfold u8. change (2 ^ 8) with 256. lia.
Qed.

Lemma not16_val x : 0 <= x <= 65535 -> not16 (Z.land x 0xffff) = 0xffff - x.
Proof.
  intros Hx. change 0xffff with (Z.ones 16) at 1. rewrite Z.land_ones, Z.mod_small by lia.
  unfold not16, u16, Z.lnot. symmetry. apply Z.mod_unique_pos with (-1); lia.
Qed.

Lemma header_ok proto proto_len src dest : in_u8 proto -> 0 <= proto_len < 2 ^ 16 ->
  Forall is_byte (pseudo_header proto proto_len src dest).
Proof.
  intros Hp Hl. unfold pseudo_header, le_bytes4. cbn [app].
  repeat (apply Forall_cons; split; [first [apply u8_range | unfold is_byte, in_u8 in *; lia |
    split; [apply Z.div_pos; lia|apply Z.div_lt_upper_bound; lia]]|]). constructor.
Qed.

Lemma pseudo_end_spec proto proto_len src dest acc l : in_u8 proto -> 0 <= proto_len < 2 ^ 16 -> in_u32 src -> in_u32 dest -> Forall is_byte l ->
  stands acc (norm (le_value (le_bytes4 src ++ le_bytes4 dest)) + le_value l) -> acc <= 65535 ->
  pseudo_end proto proto_len acc = 0xffff - norm (le_value (pseudo_header proto proto_len src dest ++ l)).
Proof.
  intros Hp Hl Hs Hd Hb Hst Ha. pose proof Hst as (Ha0 & _). unfold in_u8 in Hp.
  destruct (htons_val proto ltac:(lia)) as [Ep Hpr]. destruct (htons_val proto_len Hl) as [El Hlr].
  unfold pseudo_end. rewrite (u32_small (acc + lwip_htons proto)), u32_small by (unfold in_u32; lia).
  set (hd := le_bytes4 src ++ le_bytes4 dest) in *.
  assert (Forall is_byte hd) as Hhd by (apply Forall_app; split; by apply le_bytes4_ok).
  assert (Forall is_byte [proto_len / 2 ^ 8; u8 proto_len]) as Hlb.
  { apply Forall_cons; split; [split; [apply Z.div_pos; lia|apply Z.div_lt_upper_bound; lia]|]. apply Forall_cons. split; [apply u8_range|constructor]. }
  assert (Forall is_byte [0; proto]) as Hpb by (repeat constructor; unfold is_byte; lia).
  assert (stands (acc + lwip_htons proto + lwip_htons proto_len) (le_value (pseudo_header proto proto_len src dest ++ l))) as Hfin.
  { replace (pseudo_header proto proto_len src dest ++ l) with (hd ++ [0; proto] ++ [proto_len / 2 ^ 8; u8 proto_len] ++ l)
      by (unfold pseudo_header, hd; by rewrite <- !app_assoc).
    eapply stands_trans; [|apply even_app; [done|by repeat (apply Forall_app; split)|by exists 4%nat]].
    eapply stands_trans; [|apply stands_add; [apply stands_refl; by apply le_value_nonneg|apply even_app; [done|by apply Forall_app|by exists 1%nat]]].
    eapply stands_trans; [|apply stands_add; [apply stands_refl; by apply le_value_nonneg|apply stands_add; [apply stands_refl; by apply le_value_nonneg|
      apply even_app; [done|done|by exists 1%nat]]]].
    replace (le_value [0; proto]) with (lwip_htons proto) by (rewrite Ep; unfold u8; rewrite Z.div_small, Z.mod_small by lia; simpl; lia).
    replace (le_value [proto_len / 2 ^ 8; u8 proto_len]) with (lwip_htons proto_len) by (rewrite El; simpl; lia).
    replace (acc + lwip_htons proto + lwip_htons proto_len) with (acc + (lwip_htons proto + lwip_htons proto_len)) by lia.
    replace (le_value hd + _) with (le_value hd + le_value l + (lwip_htons proto + lwip_htons proto_len)) by lia.
    apply stands_add; [|apply stands_refl; lia]. eapply stands_trans; [exact Hst|].
    apply stands_add; [apply norm_stands|apply stands_refl]; by apply le_value_nonneg. }
  rewrite (fold_twice _ _ Hfin) by lia. apply not16_val. apply norm_range. apply Hfin.
Qed.

Lemma chain_bytes_ok c : Forall pbuf_ok c -> Forall is_byte (chain_bytes c).
Proof. intros Hc. apply Forall_bind. eapply Forall_impl; [exact Hc|]. intros x (Hx & _). exact Hx. Qed.

Lemma partial_spec v c : 0 <= v -> Forall pbuf_ok c -> forall l n acc swapped, Forall is_byte l -> 0 <= n < 2 ^ 16 ->
  (swapped = false <-> Nat.Even (length l)) -> acc_ok v l (acc, swapped) ->
  returns (partial_loop c n (acc, swapped)) (acc_ok v (l ++ take (Z.to_nat n) (chain_bytes c))).
Proof.
  intros Hv. induction 1 as [|q c Hq Hc IH]; intros l n acc swapped Hl Hn Hsw Ha; cbn [partial_loop].
  - ret. unfold chain_bytes. simpl. by rewrite take_nil, app_nil_r.
  - destruct (Z.ltb_spec 0 n) as [Hlt|Hle].
    2:{ ret. replace (Z.to_nat n) with 0%nat by lia. simpl. by rewrite app_nil_r. }
    pose proof Hq as (Hqb & Hql & Hqm). change (chain_bytes (q :: c)) with (pb_payload q ++ chain_bytes c).
    destruct (Z.ltb_spec n (pb_len q)) as [Hcut|Hall].
    + eapply returns_bind; [apply (chain_step_spec v l q n acc swapped Hv Hl Hq); [lia|done|done]|]. intros [acc' sw'] [Ha' _].
      replace (u16 (n - n)) with 0 by (by rewrite Z.sub_diag). rewrite take_app_le by lia. by destruct c; ret.
    + eapply returns_bind; [apply (chain_step_spec v l q (pb_len q) acc swapped Hv Hl Hq); [lia|done|done]|]. intros [acc' sw'] [Ha' Hsw'].
      rewrite take_ge in Ha' by lia. unfold u16. rewrite Z.mod_small by lia.
      eapply returns_mono; [apply (IH (l ++ pb_payload q) (n - pb_len q) acc' sw'); [by apply Forall_app|lia|by apply Hsw'|done]|].
      intros st. rewrite take_app_ge by lia. rewrite <- app_assoc. by replace (Z.to_nat n - length (pb_payload q))%nat with (Z.to_nat (n - pb_len q)) by lia.
Qed.

(** A word at an even offset. *)
Lemma field_value a b x y : Forall is_byte a -> Forall is_byte b -> Nat.Even (length a) -> is_byte x -> is_byte y ->
  stands (x + 2 ^ 8 * y + (le_value a + le_value b)) (le_value (a ++ [x; y] ++ b)).
Proof.
  intros Ha Hb He Hx Hy. assert (Forall is_byte [x; y]) as Hxy by (by repeat constructor; apply Hx || apply Hy).
  pose proof (le_value_nonneg a Ha). pose proof (le_value_nonneg b Hb). unfold is_byte in *.
  eapply stands_trans; [|apply even_app; [done|by apply Forall_app|done]].
  eapply stands_trans; [|apply stands_add; [by apply stands_refl|apply even_app; [done|done|by exists 1%nat]]].
  replace (le_value a + (le_value [x; y] + le_value b)) with (x + 2 ^ 8 * y + (le_value a + le_value b)) by (simpl; lia).
  apply stands_refl. lia.
Qed.

(** ** Properties *)

(** C32: the three variants of [lwip_standard_chksum] compute the same function
    at every alignment: the value of the buffer as one little-endian number
    modulo 65535, for lengths up to 0x20000 in versions 1 and 2, as the comment
    says, and without a limit in version 3. *)
Theorem chksum_variants_agree addr p len : in_buffer p len ->
  let v := norm (le_value (take (Z.to_nat len) p)) in
  lwip_standard_chksum3 addr p len = Ret v /\
  (len <= 0x20000 -> lwip_standard_chksum1 p len = Ret v /\ lwip_standard_chksum addr p len = Ret v).
Proof.
  intros Hp v. split; [|intros Hm; split].
  - destruct (returns_inv _ _ (chksum3_spec addr p len Hp)) as (r & -> & ->). done.
  - destruct (returns_inv _ _ (chksum1_spec p len Hp Hm)) as (r & -> & ->). done.
  - destruct (returns_inv _ _ (chksum2_spec addr p len Hp Hm)) as (r & -> & ->). done.
Qed.

(** The checksums of a chain do not depend on how the data is cut into
    pbufs or where these lie: they are the checksum of the bytes in one piece,
    behind the twelve bytes of the pseudo header where there is one, the partial
    one covering the first [chksum_len] bytes. *)
Theorem chksum_chain_correct (c : list pbuf) (proto proto_len chksum_len src dest : Z) :
  Forall pbuf_ok c -> in_u8 proto -> 0 <= proto_len < 2 ^ 16 -> 0 <= chksum_len < 2 ^ 16 -> in_u32 src -> in_u32 dest ->
  let hd := pseudo_header proto proto_len src dest in
  inet_chksum_pbuf c = Ret (0xffff - norm (le_value (chain_bytes c))) /\
  ip_chksum_pseudo c proto proto_len src dest = Ret (0xffff - norm (le_value (hd ++ chain_bytes c))) /\
  ip_chksum_pseudo_partial c proto proto_len chksum_len src dest =
    Ret (0xffff - norm (le_value (hd ++ take (Z.to_nat chksum_len) (chain_bytes c)))).
Proof.
  intros Hc Hp Hl Hn Hs Hd hd. pose proof (chain_bytes_ok c Hc) as Hb. pose proof (le_value_nonneg _ Hb) as Hb0.
  set (v := norm (le_value (le_bytes4 src ++ le_bytes4 dest))).
  assert (0 <= v <= 65535) as Hv.
  { apply norm_range, le_value_nonneg, Forall_app. split; by apply le_bytes4_ok. }
  split; [|split].
  - unfold inet_chksum_pbuf. destruct (returns_inv _ _ (chain_spec 0 c 0 ltac:(lia) Hc ltac:(by apply stands_refl) ltac:(lia))) as (st & -> & Ha). ret.
    destruct (unswap_spec 0 _ st ltac:(lia) Hb Ha) as [Hst Hle]. pose proof Hst as (? & _). rewrite Z.add_0_l in Hst.
    rewrite (norm_unique _ _ Hst Hle). by rewrite not16_val by (by apply norm_range).
  - unfold ip_chksum_pseudo, inet_chksum_pseudo, inet_cksum_pseudo_base. rewrite addr_acc_spec by done. fold v.
    destruct (returns_inv _ _ (chain_spec v c v ltac:(lia) Hc ltac:(apply stands_refl; lia) ltac:(lia))) as (st & -> & Ha). ret.
    destruct (unswap_spec v _ st ltac:(lia) Hb Ha) as [Hst Hle]. by rewrite (pseudo_end_spec _ _ src dest _ (chain_bytes c)).
  - unfold ip_chksum_pseudo_partial, inet_chksum_pseudo_partial, inet_cksum_pseudo_partial_base. rewrite addr_acc_spec by done. fold v.
    assert (acc_ok v [] (v, false)) as H0 by (split; [unfold sc; simpl; rewrite Z.add_0_r; apply stands_refl; lia|lia]).
    destruct (returns_inv _ _ (partial_spec v c ltac:(lia) Hc [] chksum_len v false ltac:(constructor) Hn
      ltac:(split; [by exists 0%nat|done]) H0)) as (st & -> & Ha). ret. simpl in Ha.
    assert (Forall is_byte (take (Z.to_nat chksum_len) (chain_bytes c))) as Ht by (by apply Forall_take).
    destruct (unswap_spec v _ st ltac:(lia) Ht Ha) as [Hst Hle]. by rewrite (pseudo_end_spec _ _ src dest _ (take (Z.to_nat chksum_len) (chain_bytes c))).
Qed.

(** A checksum that is stored in the data it covers verifies: when the field
    at an even offset is zero while the sender computes the checksum, the
    checksum of the data with the field filled in is 0, at whatever address the
    receiver has it. *)
Theorem chksum_verifies addr addr' (a b : list Z) : Forall is_byte a -> Forall is_byte b -> Nat.Even (length a) ->
  let len := Z.of_nat (length (a ++ [0; 0] ++ b)) in len < 2 ^ 16 ->
  returns (inet_chksum addr (a ++ [0; 0] ++ b) len) (fun c =>
    0 <= c < 2 ^ 16 /\ inet_chksum addr' (a ++ [c mod 2 ^ 8; c / 2 ^ 8] ++ b) len = Ret 0).
Proof.
  intros Ha Hb He len Hlen. unfold inet_chksum.
  assert (forall x y, is_byte x -> is_byte y -> Forall is_byte (a ++ [x; y] ++ b)) as Hbuf
    by (intros; apply Forall_app; split; [done|]; apply Forall_cons; split; [done|]; by apply Forall_cons).
  assert (forall x y, Z.of_nat (length (a ++ [x; y] ++ b)) = len) as Hsame by (intros; unfold len; rewrite !length_app; done).
  assert (forall ad x y, is_byte x -> is_byte y ->
    lwip_standard_chksum ad (a ++ [x; y] ++ b) len = Ret (norm (le_value (a ++ [x; y] ++ b)))) as Hsum.
  { intros ad x y Hx Hy. specialize (Hsame x y). pose proof (chksum2_spec ad (a ++ [x; y] ++ b) len) as Hs.
    destruct (returns_inv _ _ (Hs ltac:(split; [by apply Hbuf|lia]) ltac:(lia))) as (r & -> & ->). by rewrite take_ge by lia. }
  pose proof (fun x y => field_value a b x y Ha Hb He) as Hval.
  pose proof (le_value_nonneg a Ha). pose proof (le_value_nonneg b Hb).
  rewrite (Hsum addr 0 0) by (split; lia). ret. pose proof (Hval 0 0 ltac:(split; lia) ltac:(split; lia)) as Hv0.
  rewrite <- (norm_eq _ _ Hv0). set (s := le_value a + le_value b) in *. change (0 + 2 ^ 8 * 0 + s) with s.
  pose proof (norm_range s ltac:(lia)) as Hr. replace (not16 (norm s)) with (0xffff - norm s)
    by (rewrite <- (not16_val (norm s)) by lia; change 0xffff with (Z.ones 16); rewrite Z.land_ones, Z.mod_small by lia; done).
  set (c := 0xffff - norm s). assert (0 <= c < 65536) as Hc by lia. split; [lia|].
  pose proof (Z.mod_pos_bound c 256 ltac:(lia)). pose proof (Z.div_pos c 256 ltac:(lia) ltac:(lia)).
  pose proof (Z.div_lt_upper_bound c 256 256 ltac:(lia) ltac:(lia)). pose proof (Z.div_mod c 256 ltac:(lia)).
  change (2 ^ 8) with 256. rewrite Hsum by (split; lia). ret. f_equal.
  rewrite <- (norm_eq _ _ (Hval (c mod 256) (c / 256) ltac:(split; lia) ltac:(split; lia))).
  replace (c mod 256 + 2 ^ 8 * (c / 256) + s) with (c + s) by lia.
  assert (stands 65535 (c + s)) as Hs.
  { split; [lia|]. split; [lia|]. destruct (norm_stands s ltac:(lia)) as (_ & _ & Hcg & Hz). split; [|unfold c; lia].
    unfold c. rewrite <- Hcg at 2. replace (0xffff - norm s + norm s) with 65535 by lia. reflexivity. }
  rewrite <- (norm_unique _ _ Hs) by lia. done.
Qed.

(** ** Concrete packets *)

Definition some_bytes : list Z := [1; 2; 3; 4; 250; 251; 252; 253; 254; 255; 77].

Lemma some_bytes_ok : in_buffer some_bytes 11.
Proof. split; [by repeat constructor|done]. Qed.

Lemma chksum_variants_agree_witness :
  lwip_standard_chksum1 some_bytes 11 = Ret 0x0048 /\ lwip_standard_chksum 0x1003 some_bytes 11 = Ret 0x0048 /\
  lwip_standard_chksum3 0x1001 some_bytes 11 = Ret 0x0048.
Proof.
  destruct (chksum_variants_agree 0x1003 some_bytes 11 some_bytes_ok) as [_ H2].
  destruct (H2 ltac:(lia)) as [E1 E2]. destruct (chksum_variants_agree 0x1001 some_bytes 11 some_bytes_ok) as [E3 _].
  split; [exact E1|]. split; [exact E2|exact E3].
Defined.

Definition some_chain : list pbuf := [Pbuf 0x2001 [1; 2; 3] 3; Pbuf 0x3000 [4; 250; 251; 252; 253] 5; Pbuf 0x4003 [254; 255; 77] 3].

Lemma some_chain_ok : Forall pbuf_ok some_chain.
Proof. repeat (apply Forall_cons; split; [split; [by repeat constructor|done]|]). constructor. Qed.

Lemma chksum_chain_correct_witness :
  chain_bytes some_chain = some_bytes /\ inet_chksum_pbuf some_chain = Ret (0xffff - 0x0048) /\
  ip_chksum_pseudo some_chain 17 11 0x0100007f 0x0100007f =
    ip_chksum_pseudo_partial some_chain 17 11 11 0x0100007f 0x0100007f.
Proof.
  split; [reflexivity|].
  destruct (chksum_chain_correct some_chain 17 11 11 0x0100007f 0x0100007f some_chain_ok) as (E1 & E2 & E3);
    [by unfold in_u8|lia|lia|by unfold in_u32|by unfold in_u32|].
  split; [exact E1|]. rewrite E2, E3. reflexivity.
Defined.

(** The header of an IPv4 packet; the checksum is at offset 10. *)
Definition ip_head : list Z := [0x45; 0; 0; 0x54; 0; 1; 0; 0; 64; 1].
Definition ip_addrs : list Z := [10; 0; 2; 15; 10; 0; 2; 2].

Lemma chksum_verifies_witness :
  inet_chksum 0 (ip_head ++ [0; 0] ++ ip_addrs) 20 = Ret 0x9862 /\
  inet_chksum 1 (ip_head ++ [0x62; 0x98] ++ ip_addrs) 20 = Ret 0.
Proof.
  pose proof (chksum_verifies 0 1 ip_head ip_addrs ltac:(by repeat constructor) ltac:(by repeat constructor)
    ltac:(by exists 5%nat) ltac:(simpl; lia)) as H.
  assert (inet_chksum 0 (ip_head ++ [0; 0] ++ ip_addrs) 20 = Ret 0x9862) as E by (vm_compute; reflexivity).
  split; [exact E|]. change (Z.of_nat (length (ip_head ++ [0; 0] ++ ip_addrs))) with 20 in H. rewrite E in H. apply H.
Defined.
