(* ===== verification/Ip4Addr.v ===== *)
(** * IPv4 addresses (bsd/net/lwip/src/core/ipv4/ip4_addr.c, core/def.c,
    bsd/net/arch/ctype.h)

    Addresses are kept in network order, that is as the 32-bit number whose
    bytes in memory, lowest first on this little-endian machine, are the four
    parts.  A string is the list of its characters; a pointer into it is the
    rest of the list, and reading behind the last character is [UB].  The buffer
    [ip4addr_ntoa_r] writes is a list of [buflen] characters. *)

From stdpp Require Import base numbers list.
From Stdlib Require Import ZArith Lia.
From S2P Require Import Prelude.

#[local] Open Scope Z_scope.

(** ** Byte order and characters *)

Definition lwip_htonl (x : Z) : Z :=
  Z.lor (Z.lor (Z.lor (u32 (Z.shiftl (Z.land x 0x000000ff) 24)) (u32 (Z.shiftl (Z.land x 0x0000ff00) 8)))
    (Z.shiftr (Z.land x 0x00ff0000) 8)) (Z.shiftr (Z.land x 0xff000000) 24).

Definition in_range (c lo up : Z) : bool := (lo <=? c) && (c <=? up).
Definition isdigit (c : Z) : bool := in_range c 48 57.
Definition islower (c : Z) : bool := in_range c 97 122.
Definition isxdigit (c : Z) : bool := in_range c 48 57 || in_range c 97 102 || in_range c 65 70.
Definition isspace (c : Z) : bool :=
  (c =? 32) || (c =? 9) || (c =? 10) || (c =? 13) || (c =? 12) || (c =? 11).

(** ** Broadcast addresses and netmasks *)

Definition NETIF_FLAG_BROADCAST : Z := 0x02.
Record netif := Netif { nif_flags : Z; nif_addr : Z; nif_mask : Z }.

Definition not32 (x : Z) : Z := u32 (Z.lnot x).

Definition ip4_addr_net_eq (a b mask : Z) : bool := Z.land a mask =? Z.land b mask.

Definition ip4_addr_isbroadcast_u32 (addr : Z) (nif : netif) : bool :=
  if (not32 addr =? 0) || (addr =? 0) then true
  else if Z.land (nif_flags nif) NETIF_FLAG_BROADCAST =? 0 then false
  else if addr =? nif_addr nif then false
  else if ip4_addr_net_eq addr (nif_addr nif) (nif_mask nif) &&
          (Z.land addr (not32 (nif_mask nif)) =? Z.land 0xffffffff (not32 (nif_mask nif))) then true
  else false.

(** The two loops over the bits, from [mask] down to 0; the first stops at a
    zero bit. *)
Fixpoint first_zero (fuel : nat) (nm mask : Z) : out Z :=
  match fuel with
  | O => Hang
  | S fuel =>
      if mask =? 0 then Ret mask
      else if Z.land nm mask =? 0 then Ret mask
      else first_zero fuel nm (Z.shiftr mask 1)
  end.

Fixpoint no_one (fuel : nat) (nm mask : Z) : out bool :=
  match fuel with
  | O => Hang
  | S fuel =>
      if mask =? 0 then Ret true
      else if negb (Z.land nm mask =? 0) then Ret false
      else no_one fuel nm (Z.shiftr mask 1)
  end.

(** Each loop runs at most 32 times. *)
Definition mask_fuel : nat := 33.

Definition ip4_addr_netmask_valid (netmask : Z) : out bool :=
  let nm := lwip_htonl netmask in
  mask ← first_zero mask_fuel nm (Z.shiftl 1 31);
  no_one mask_fuel nm mask.

(** ** Text to address *)

Definition cur (cp : list Z) : out Z := match cp with c :: _ => Ret c | [] => UB end.

(** The digits of one part; the character that ends it is [*cp]. *)
Fixpoint aton_digits (cp : list Z) (base val : Z) : out (Z * list Z) :=
  match cp with
  | [] => UB
  | c :: rest =>
      if isdigit c then
        if (base =? 8) && (8 <=? c - 48) then Ret (val, cp)
        else aton_digits rest base (u32 (u32 (val * base) + (c - 48)))
      else if (base =? 16) && isxdigit c then
        aton_digits rest base (Z.lor (u32 (Z.shiftl val 4)) (u32 (c + 10 - (if islower c then 97 else 65))))
      else Ret (val, cp)
  end.

(** One part, with its base; [*cp] is a digit. *)
Definition number (cp : list Z) : out (Z * list Z) :=
  c ← cur cp;
  if c =? 48 then
    let cp := tail cp in
    c ← cur cp;
    if (c =? 120) || (c =? 88) then aton_digits (tail cp) 16 0 else aton_digits cp 8 0
  else aton_digits cp 10 0.

(** The parts in front of a dot, the last part, and the character behind it. *)
Fixpoint parts_loop (fuel : nat) (cp : list Z) (parts : list Z) : out (option (list Z * Z * Z)) :=
  match fuel with
  | O => Hang
  | S fuel =>
      c ← cur cp;
      if negb (isdigit c) then Ret None
      else
        '(val, cp) ← number cp;
        c ← cur cp;
        if c =? 46 then
          if (3 <=? length parts)%nat then Ret None
          else parts_loop fuel (tail cp) (parts ++ [val])
        else Ret (Some (parts, val, c))
  end.

(** There are at most four parts. *)
Definition parts_fuel : nat := 4.

(** The address in host order, by the number of parts. *)
Definition concoct (parts : list Z) (val : Z) : option Z :=
  match parts with
  | [] => Some val
  | [a] => if (0xffffff <? val) || (0xff <? a) then None else Some (Z.lor val (u32 (Z.shiftl a 24)))
  | [a; b] =>
      if (0xffff <? val) || (0xff <? a) || (0xff <? b) then None
      else Some (Z.lor val (Z.lor (u32 (Z.shiftl a 24)) (u32 (Z.shiftl b 16))))
  | [a; b; c] =>
      if (0xff <? val) || (0xff <? a) || (0xff <? b) || (0xff <? c) then None
      else Some (Z.lor val (Z.lor (Z.lor (u32 (Z.shiftl a 24)) (u32 (Z.shiftl b 16))) (u32 (Z.shiftl c 8))))
  | _ => None
  end.

(** [None] for the return value 0. *)
Definition ip4addr_aton (cp : list Z) : out (option Z) :=
  r ← parts_loop parts_fuel cp [];
  match r with
  | None => Ret None
  | Some (parts, val, c) =>
      if negb (c =? 0) && negb (isspace c) then Ret None
      else Ret (lwip_htonl <$> concoct parts val)
  end.

Definition ipaddr_addr (cp : list Z) : out Z :=
  r ← ip4addr_aton cp; Ret (default 0xffffffff r).

(** ** Address to text *)

(** [do { inv[i++] = '0' + *ap % 10; *ap /= 10; } while ( *ap)]; [inv] has room
    for three characters. *)
Fixpoint inverse (fuel : nat) (ap : Z) : out (list Z) :=
  match fuel with
  | O => UB
  | S fuel =>
      let c := 48 + ap mod 10 in
      let ap := ap / 10 in
      if negb (ap =? 0) then l ← inverse fuel ap; Ret (c :: l) else Ret [c]
  end.

Definition inv_size : nat := 3.

(** [if (len++ >= buflen) return NULL; *rp++ = c;] for each character; [rp] and
    [len] advance together. *)
Fixpoint emit (l : list Z) (buf : list Z) (buflen len : Z) : out (option (list Z * Z)) :=
  match l with
  | [] => Ret (Some (buf, len))
  | c :: l =>
      if buflen <=? len then Ret None
      else buf ← wr buf len c; emit l buf buflen (len + 1)
  end.

Fixpoint emit_bytes (aps : list Z) (buf : list Z) (buflen len : Z) : out (option (list Z * Z)) :=
  match aps with
  | [] => Ret (Some (buf, len))
  | ap :: aps =>
      inv ← inverse inv_size ap;
      r ← emit (reverse inv ++ [46]) buf buflen len;
      match r with
      | None => Ret None
      | Some (buf, len) => emit_bytes aps buf buflen len
      end
  end.

(** The bytes of the address in memory. *)
Definition addr_bytes (s_addr : Z) : list Z := [u8 s_addr; u8 (s_addr / 2 ^ 8); u8 (s_addr / 2 ^ 16); u8 (s_addr / 2 ^ 24)].

(** The buffer, or [None] for NULL. *)
Definition ip4addr_ntoa_r (s_addr : Z) (buf : list Z) (buflen : Z) : out (option (list Z)) :=
  r ← emit_bytes (addr_bytes s_addr) buf buflen 0;
  match r with
  | None => Ret None
  | Some (buf, len) => buf ← wr buf (len - 1) 0; Ret (Some buf)
  end.

Definition IP4ADDR_STRLEN_MAX : Z := 16.

Definition ip4addr_ntoa (s_addr : Z) (str : list Z) : out (option (list Z)) := ip4addr_ntoa_r s_addr str IP4ADDR_STRLEN_MAX.

(** ** Byte order *)

Definition is_byte (b : Z) : Prop := 0 <= b < 256.

(** The number with these bytes, lowest first. *)
Definition quad (a b c d : Z) : Z := a + 2 ^ 8 * b + 2 ^ 16 * c + 2 ^ 24 * d.

Lemma land_byte x k : 0 <= k -> Z.land x (0xff * 2 ^ k) = ((x / 2 ^ k) mod 256) * 2 ^ k.
Proof.
  intros Hk. apply Z.bits_inj'. intros n Hn. rewrite Z.land_spec. change 0xff with (Z.ones 8). change 256 with (2 ^ 8).
  rewrite <- !Z.shiftl_mul_pow2, !Z.shiftl_spec by lia. destruct (Z.lt_ge_cases n k) as [Hlt|Hge].
  - rewrite !(Z.testbit_neg_r _ (n - k)) by lia. apply andb_false_r.
  - rewrite <- Z.land_ones, Z.land_spec, Z.div_pow2_bits by lia. by replace (n - k + k) with n by lia.
Qed.

Lemma quad_byte a b c d : is_byte a -> is_byte b -> is_byte c -> is_byte d ->
  (quad a b c d / 2 ^ 0) mod 256 = a /\ (quad a b c d / 2 ^ 8) mod 256 = b /\
  (quad a b c d / 2 ^ 16) mod 256 = c /\ (quad a b c d / 2 ^ 24) mod 256 = d.
Proof.
  unfold is_byte, quad. intros Ha Hb Hc Hd. assert (forall x q r m, x = m * q + r -> 0 <= r < m -> x / m = q) as Hdiv.
  { intros x q r m -> Hr. symmetry. by apply Z.div_unique_pos with r. }
  assert (forall x q r, x = 256 * q + r -> 0 <= r < 256 -> x mod 256 = r) as Hmod.
  { intros x q r -> Hr. symmetry. by apply Z.mod_unique_pos with q. }
  split; [|split; [|split]].
  - rewrite Z.div_1_r. apply (Hmod _ (b + 2 ^ 8 * c + 2 ^ 16 * d)); lia.
  - rewrite (Hdiv _ (b + 2 ^ 8 * c + 2 ^ 16 * d) a) by lia. apply (Hmod _ (c + 2 ^ 8 * d)); lia.
  - rewrite (Hdiv _ (c + 2 ^ 8 * d) (a + 2 ^ 8 * b)) by lia. apply (Hmod _ d); lia.
  - rewrite (Hdiv _ d (a + 2 ^ 8 * b + 2 ^ 16 * c)) by lia. apply Z.mod_small. lia.
Qed.

(** Putting four bytes together with [|]. *)
Lemma lor_quad a b c d : is_byte a -> is_byte b -> is_byte c -> is_byte d ->
  Z.lor (Z.lor (Z.lor (d * 2 ^ 24) (c * 2 ^ 16)) (b * 2 ^ 8)) a = quad a b c d.
Proof.
  unfold is_byte, quad. intros Ha Hb Hc Hd. rewrite (lor_add 24) by lia.
  replace (d * 2 ^ 24 + c * 2 ^ 16) with ((d * 2 ^ 8 + c) * 2 ^ 16) by lia. rewrite (lor_add 16) by lia.
  replace ((d * 2 ^ 8 + c) * 2 ^ 16 + b * 2 ^ 8) with ((d * 2 ^ 16 + c * 2 ^ 8 + b) * 2 ^ 8) by lia. rewrite (lor_add 8) by lia. lia.
Qed.

Lemma htonl_quad a b c d : is_byte a -> is_byte b -> is_byte c -> is_byte d -> lwip_htonl (quad a b c d) = quad d c b a.
Proof.
  intros Ha Hb Hc Hd. destruct (quad_byte a b c d Ha Hb Hc Hd) as (E0 & E1 & E2 & E3). unfold lwip_htonl.
  change 0x000000ff with (0xff * 2 ^ 0). change 0x0000ff00 with (0xff * 2 ^ 8). change 0x00ff0000 with (0xff * 2 ^ 16).
  change 0xff000000 with (0xff * 2 ^ 24). rewrite !land_byte, E0, E1, E2, E3 by lia. unfold is_byte in *.
  rewrite !Z.shiftl_mul_pow2, !Z.shiftr_div_pow2 by lia. rewrite !u32_small by (unfold in_u32; lia).
  replace (c * 2 ^ 16 / 2 ^ 8) with (c * 2 ^ 8) by (change (2 ^ 16) with (2 ^ 8 * 2 ^ 8); rewrite Z.mul_assoc, Z.div_mul by lia; done).
  rewrite Z.div_mul by lia. replace (a * 2 ^ 0 * 2 ^ 24) with (a * 2 ^ 24) by lia.
  replace (b * 2 ^ 8 * 2 ^ 8) with (b * 2 ^ 16) by lia. by apply lor_quad.
Qed.

Lemma quad_surj x : in_u32 x -> exists a b c d, x = quad a b c d /\ is_byte a /\ is_byte b /\ is_byte c /\ is_byte d /\ addr_bytes x = [a; b; c; d].
Proof.
  intros Hx. unfold in_u32 in Hx. exists (u8 x), (u8 (x / 2 ^ 8)), (u8 (x / 2 ^ 16)), (u8 (x / 2 ^ 24)).
  split; [|repeat (split; [apply u8_range|]); done]. unfold quad, u8.
  change (2 ^ 24) with (2 ^ 16 * 2 ^ 8). change (2 ^ 16) with (2 ^ 8 * 2 ^ 8). rewrite <- !Z.div_div by lia. change (2 ^ 8) with 256.
  pose proof (Z.div_mod x 256 ltac:(lia)) as E0. pose proof (Z.div_mod (x / 256) 256 ltac:(lia)) as E1.
  pose proof (Z.div_mod (x / 256 / 256) 256 ltac:(lia)) as E2. pose proof (Z.mod_pos_bound x 256 ltac:(lia)).
  pose proof (Z.mod_pos_bound (x / 256) 256 ltac:(lia)). pose proof (Z.mod_pos_bound (x / 256 / 256) 256 ltac:(lia)).
  rewrite (Z.mod_small (x / 256 / 256 / 256)) by lia. lia.
Qed.

(** ** Netmasks *)

(** The highest of the [n] lowest bits: [2^(n-1)], or 0. *)
Definition top (n : nat) : Z := match n with O => 0 | S n => 2 ^ Z.of_nat n end.

Lemma top_shift n : Z.shiftr (top (S n)) 1 = top n.
Proof.
  destruct n as [|n]; [done|]. cbn [top]. rewrite Z.shiftr_div_pow2 by lia. change (2 ^ 1) with 2.
  replace (Z.of_nat (S n)) with (Z.succ (Z.of_nat n)) by lia. rewrite Z.pow_succ_r, Z.mul_comm, Z.div_mul by lia. done.
Qed.

Lemma top_pos n : (top (S n) =? 0) = false.
Proof. apply Z.eqb_neq. cbn [top]. lia. Qed.

Lemma land_top nm n : (Z.land nm (top (S n)) =? 0) = negb (Z.testbit nm (Z.of_nat n)).
Proof.
  cbn [top]. destruct (Z.testbit nm (Z.of_nat n)) eqn:E.
  - apply Z.eqb_neq. intros H. assert (Z.testbit (Z.land nm (2 ^ Z.of_nat n)) (Z.of_nat n) = true) as Ht
      by (rewrite Z.land_spec, E, Z.pow2_bits_true; [done|lia]). rewrite H in Ht. by rewrite Z.bits_0 in Ht.
  - apply Z.eqb_eq. apply Z.bits_inj'. intros i Hi. rewrite Z.land_spec, Z.bits_0, Z.pow2_bits_eqb by lia.
    destruct (Z.eqb_spec (Z.of_nat n) i) as [<-|]; [by rewrite E|apply andb_false_r].
Qed.

Lemma first_zero_spec nm fuel : forall n, (n < fuel)%nat ->
  returns (first_zero fuel nm (top n)) (fun mask => exists m, mask = top m /\ (m <= n)%nat /\
    (forall i, (m <= i < n)%nat -> Z.testbit nm (Z.of_nat i) = true) /\
    (forall k, m = S k -> Z.testbit nm (Z.of_nat k) = false)).
Proof.
  induction fuel as [|fuel IH]; intros n Hn; [lia|]. cbn [first_zero]. destruct n as [|n].
  - ret. exists 0%nat. repeat split; try done; lia.
  - rewrite top_pos, land_top. destruct (Z.testbit nm (Z.of_nat n)) eqn:E; cbn [negb].
    + rewrite top_shift. eapply returns_mono; [apply IH; lia|]. intros mask (m & -> & Hm & Hone & Hz). exists m.
      split; [done|]. split; [lia|]. split; [|done]. intros i Hi. destruct (decide (i = n)) as [->|]; [done|]. apply Hone. lia.
    + ret. exists (S n). split; [done|]. split; [lia|]. split; [lia|]. by intros k [= <-].
Qed.

Lemma no_one_spec nm fuel : forall n, (n < fuel)%nat ->
  returns (no_one fuel nm (top n)) (fun b => b = true <-> forall i, (i < n)%nat -> Z.testbit nm (Z.of_nat i) = false).
Proof.
  induction fuel as [|fuel IH]; intros n Hn; [lia|]. cbn [no_one]. destruct n as [|n].
  - ret. split; [|done]. intros _ i Hi. lia.
  - rewrite top_pos, land_top, negb_involutive. destruct (Z.testbit nm (Z.of_nat n)) eqn:E.
    + ret. split; [done|]. intros Hall. rewrite (Hall n) in E by lia. done.
    + rewrite top_shift. eapply returns_mono; [apply IH; lia|]. intros b ->. split; intros Hall i Hi; [|apply Hall; lia].
      destruct (decide (i = n)) as [->|]; [done|]. apply Hall. lia.
Qed.

(** A mask of ones followed by [m] zeros. *)
Lemma mask_bits nm m : in_u32 nm -> (m <= 32)%nat ->
  nm = 2 ^ 32 - 2 ^ Z.of_nat m <-> forall i, (i < 32)%nat -> Z.testbit nm (Z.of_nat i) = (m <=? i)%nat.
Proof.
  intros Hnm Hm. set (x := Z.shiftl (Z.ones (32 - Z.of_nat m)) (Z.of_nat m)).
  assert (2 ^ 32 - 2 ^ Z.of_nat m = x) as ->.
  { unfold x. rewrite Z.shiftl_mul_pow2, Z.ones_equiv by lia. rewrite <- Z.sub_1_r, Z.mul_sub_distr_r, <- Z.pow_add_r by lia.
    replace (32 - Z.of_nat m + Z.of_nat m) with 32 by lia. lia. }
  assert (forall i, 0 <= i -> Z.testbit x i = (Z.of_nat m <=? i) && (i <? 32)) as Hx.
  { intros i Hi. unfold x. rewrite Z.shiftl_spec by lia. destruct (Z.leb_spec (Z.of_nat m) i); [|by rewrite Z.testbit_neg_r by lia].
    rewrite Z.testbit_ones by lia. rewrite (proj2 (Z.leb_le 0 (i - Z.of_nat m))) by lia. simpl.
    destruct (Z.ltb_spec (i - Z.of_nat m) (32 - Z.of_nat m)), (Z.ltb_spec i 32); lia || done. }
  split.
  - intros -> i Hi. rewrite Hx by lia. destruct (Nat.leb_spec m i), (Z.leb_spec (Z.of_nat m) (Z.of_nat i)), (Z.ltb_spec (Z.of_nat i) 32); lia || done.
  - intros Hall. apply Z.bits_inj'. intros i Hi. rewrite Hx by done. destruct (Z.ltb_spec i 32) as [Hlt|Hge].
    + specialize (Hall (Z.to_nat i) ltac:(lia)). rewrite Z2Nat.id in Hall by done. rewrite Hall, andb_true_r.
      destruct (Nat.leb_spec m (Z.to_nat i)), (Z.leb_spec (Z.of_nat m) i); lia || done.
    + rewrite andb_false_r. by apply (in_word_high 32 ltac:(lia)).
Qed.

(** ** Text *)

(** The decimal digits of a byte. *)
Definition dec (b : Z) : list Z := match inverse inv_size b with Ret l => reverse l | _ => [] end.

(** A test of all bytes. *)
Lemma byte_cases (f : Z -> bool) : forallb f (seqZ 0 256) = true -> forall b, is_byte b -> f b = true.
Proof.
  intros Hall b Hb. rewrite forallb_forall in Hall. apply Hall. apply list_elem_of_In, elem_of_seqZ. unfold is_byte in Hb. lia.
Qed.

Lemma inverse_dec b : is_byte b -> inverse inv_size b = Ret (reverse (dec b)) /\ (1 <= length (dec b) <= 3)%nat.
Proof.
  intros Hb. pose proof (byte_cases (fun b => match inverse inv_size b with
    | Ret l => (1 <=? length l)%nat && (length l <=? 3)%nat | _ => false end) ltac:(vm_compute; reflexivity) b Hb) as Ht. cbv beta in Ht.
  unfold dec. destruct (inverse inv_size b) as [l| |]; [|done..]. rewrite reverse_involutive, length_reverse. split; [done|].
  apply andb_prop in Ht as [?%Nat.leb_le ?%Nat.leb_le]. lia.
Qed.

(** Reading a number looks at one character behind it. *)
Lemma digits_frame l base c rest : forall val v, aton_digits (l ++ [c]) base val = Ret (v, [c]) -> aton_digits (l ++ c :: rest) base val = Ret (v, c :: rest).
Proof.
  induction l as [|x l IH]; intros val v; cbn [app aton_digits].
  - destruct (isdigit c); [destruct (_ && _); [by intros [= ->]|done]|]. destruct (_ && _); [done|]. by intros [= ->].
  - destruct (isdigit x); [destruct (_ && _); [|apply IH]|destruct (_ && _); [apply IH|]]; intros [= _ E]; by destruct l.
Qed.

Lemma number_frame l c rest v : l <> [] -> (c = 46 \/ c = 0) -> number (l ++ [c]) = Ret (v, [c]) -> number (l ++ c :: rest) = Ret (v, c :: rest).
Proof.
  intros Hl Hc. destruct l as [|x l]; [done|]. unfold number. cbn [app cur]. ret. cbn [tail]. destruct (x =? 48).
  - destruct l as [|y l]; cbn [app cur tail]; ret.
    + intros E. rewrite <- (digits_frame [] 8 c rest 0 v); [by destruct Hc as [->| ->]|]. by destruct Hc as [->| ->].
    + destruct (_ || _); [apply digits_frame|apply (digits_frame (y :: l))].
  - apply (digits_frame (x :: l)).
Qed.

(** A part is read back, up to the dot or the end behind it. *)
Lemma number_dec c rest b : is_byte b -> (c = 46 \/ c = 0) -> number (dec b ++ c :: rest) = Ret (b, c :: rest).
Proof.
  intros Hb Hc. apply number_frame; [destruct (inverse_dec b Hb) as [_ Hl]; by destruct (dec b); simpl in Hl; [lia|]|done|].
  pose proof (byte_cases (fun b => match number (dec b ++ [46]), number (dec b ++ [0]) with
    | Ret (v, [c]), Ret (v', [c']) => (v =? b) && (c =? 46) && (v' =? b) && (c' =? 0) | _, _ => false end)
    ltac:(vm_compute; reflexivity) b Hb) as Ht. cbv beta in Ht.
  destruct (number (dec b ++ [46])) as [[v [|x [|]]]| |] eqn:E1; try done.
  destruct (number (dec b ++ [0])) as [[v' [|x' [|]]]| |] eqn:E2; try done.
  apply andb_prop in Ht as [[[?%Z.eqb_eq ?%Z.eqb_eq]%andb_prop ?%Z.eqb_eq]%andb_prop ?%Z.eqb_eq]. subst. by destruct Hc as [->| ->].
Qed.

Lemma dec_digit rest b : is_byte b -> exists c, cur (dec b ++ rest) = Ret c /\ isdigit c = true.
Proof.
  intros Hb. pose proof (byte_cases (fun b => match dec b with c :: _ => isdigit c | [] => false end) ltac:(vm_compute; reflexivity) b Hb) as Hd.
  cbv beta in Hd. destruct (dec b) as [|c l]; [done|]. by exists c.
Qed.

(** The text of an address. *)
Definition dotted (a b c d : Z) : list Z := dec a ++ 46 :: dec b ++ 46 :: dec c ++ 46 :: dec d.

Lemma parts_step fuel b rest parts : is_byte b -> (length parts < 3)%nat ->
  parts_loop (S fuel) (dec b ++ 46 :: rest) parts = parts_loop fuel rest (parts ++ [b]).
Proof.
  intros Hb Hp. cbn [parts_loop]. destruct (dec_digit (46 :: rest) b Hb) as (c & -> & Hc). ret. rewrite Hc. cbn [negb].
  rewrite number_dec by (done || by left). ret. cbn [cur]. ret. cbn [Z.eqb Pos.eqb tail]. by rewrite (proj2 (Nat.leb_gt 3 (length parts))).
Qed.

Lemma parts_end fuel b rest parts : is_byte b -> parts_loop (S fuel) (dec b ++ 0 :: rest) parts = Ret (Some (parts, b, 0)).
Proof.
  intros Hb. cbn [parts_loop]. destruct (dec_digit (0 :: rest) b Hb) as (c & -> & Hc). ret. rewrite Hc. cbn [negb].
  rewrite number_dec by (done || by right). ret. done.
Qed.

Lemma aton_dotted a b c d rest : is_byte a -> is_byte b -> is_byte c -> is_byte d ->
  ip4addr_aton (dotted a b c d ++ 0 :: rest) = Ret (Some (quad a b c d)).
Proof.
  intros Ha Hb Hc Hd. unfold ip4addr_aton, parts_fuel, dotted. rewrite <- !app_assoc. cbn [app]. rewrite parts_step by (done || simpl; lia).
  rewrite <- app_assoc. cbn [app]. rewrite parts_step by (done || simpl; lia). rewrite <- app_assoc. cbn [app].
  rewrite parts_step by (done || simpl; lia). rewrite parts_end by done. ret. unfold concoct. cbn [app].
  unfold is_byte in *. zcmp. cbn [fmap option_fmap option_map]. do 2 f_equal.
  rewrite !Z.shiftl_mul_pow2 by lia. rewrite !u32_small by (unfold in_u32; lia). rewrite Z.lor_comm.
  rewrite lor_quad by (unfold is_byte; lia). apply htonl_quad; unfold is_byte; lia.
Qed.

(** Writing a text into the buffer. *)
Lemma emit_spec buflen l : forall buf len, Z.of_nat (length buf) = buflen -> 0 <= len ->
  emit l buf buflen len =
    Ret (if (len + Z.of_nat (length l) <=? buflen) || bool_decide (l = [])
         then Some (take (Z.to_nat len) buf ++ l ++ drop (Z.to_nat len + length l) buf, len + Z.of_nat (length l)) else None).
Proof.
  induction l as [|c l IH]; intros buf len Hb Hl; cbn [emit].
  - rewrite bool_decide_true, orb_true_r by done. simpl. rewrite Nat.add_0_r, take_drop, Z.add_0_r. done.
  - rewrite bool_decide_false, orb_false_r by done. destruct (Z.leb_spec buflen len) as [Hle|Hlt].
    + simpl. zcmp. done.
    + rewrite wr_ok by lia. ret. rewrite IH by (rewrite ?length_insert; lia).
      replace (len + 1 + Z.of_nat (length l)) with (len + Z.of_nat (length (c :: l))) by (simpl; lia).
      destruct (Z.leb_spec (len + Z.of_nat (length (c :: l))) buflen) as [Hfit|Hno].
      * cbn [orb]. do 3 f_equal. replace (Z.to_nat (len + 1)) with (S (Z.to_nat len)) by lia.
        rewrite (take_S_r _ _ c) by (apply list_lookup_insert_eq; lia). rewrite take_insert_ge by lia. rewrite <- app_assoc. simpl.
        do 2 f_equal. rewrite drop_insert_lt by lia. f_equal. f_equal. lia.
      * destruct l; [simpl in Hno; lia|]. done.
Qed.

(** Each byte with a dot behind it. *)
Fixpoint dots (aps : list Z) : list Z := match aps with [] => [] | b :: aps => (dec b ++ [46]) ++ dots aps end.

Lemma emit_bytes_spec buflen aps : Forall is_byte aps -> forall buf len, Z.of_nat (length buf) = buflen -> 0 <= len ->
  let text := dots aps in
  emit_bytes aps buf buflen len =
    Ret (if (len + Z.of_nat (length text) <=? buflen) || bool_decide (aps = [])
         then Some (take (Z.to_nat len) buf ++ text ++ drop (Z.to_nat len + length text) buf, len + Z.of_nat (length text)) else None).
Proof.
  induction 1 as [|b aps Hb _ IH]; intros buf len Hbuf Hl; cbv zeta in *; cbn [emit_bytes].
  - rewrite bool_decide_true, orb_true_r by done. simpl. rewrite Nat.add_0_r, take_drop, Z.add_0_r. done.
  - rewrite (proj1 (inverse_dec b Hb)). ret. rewrite reverse_involutive, (emit_spec buflen) by done. ret.
    assert (dec b ++ [46] <> []) as Hne by (by destruct (dec b)). rewrite (bool_decide_false (dec b ++ [46] = [])), orb_false_r by done.
    rewrite (bool_decide_false (b :: aps = [])), orb_false_r by done. set (w := dec b ++ [46]) in *.
    cbn [dots]. fold w. set (rest := dots aps). rewrite length_app.
    destruct (Z.leb_spec (len + Z.of_nat (length w)) buflen) as [Hfit|Hno].
    2:{ zcmp. done. }
    rewrite IH by (rewrite ?length_app, ?length_take, ?length_drop; lia). fold rest. f_equal.
    replace (len + Z.of_nat (length w) + Z.of_nat (length rest)) with (len + Z.of_nat (length w + length rest)) by lia.
    destruct (Z.leb_spec (len + Z.of_nat (length w + length rest)) buflen) as [Hfit'|Hno'].
    + cbn [orb]. do 2 f_equal. rewrite (app_assoc (take _ buf) w). rewrite take_app_length' by (rewrite length_app, length_take; lia).
      rewrite <- !app_assoc. do 2 f_equal. f_equal. rewrite (app_assoc (take _ buf) w), drop_app_ge by (rewrite length_app, length_take; lia).
      rewrite drop_drop. f_equal. rewrite length_app, length_take. lia.
    + rewrite bool_decide_false; [done|]. intros ->. unfold rest in Hno'. simpl in Hno'. lia.
Qed.

Lemma dots_dotted a b c d : dots [a; b; c; d] = dotted a b c d ++ [46].
Proof. unfold dotted. cbn [dots]. rewrite app_nil_r. do 4 (rewrite <- ?app_assoc; cbn [app]). done. Qed.

Lemma dotted_length a b c d : is_byte a -> is_byte b -> is_byte c -> is_byte d -> (7 <= length (dotted a b c d) <= 15)%nat.
Proof.
  intros Ha Hb Hc Hd. unfold dotted. repeat (rewrite length_app; cbn [length]).
  destruct (inverse_dec a Ha) as [_ ?], (inverse_dec b Hb) as [_ ?], (inverse_dec c Hc) as [_ ?], (inverse_dec d Hd) as [_ ?]. lia.
Qed.

(** The buffer after a successful conversion. *)
Lemma ntoa_quad a b c d buf buflen : is_byte a -> is_byte b -> is_byte c -> is_byte d -> addr_bytes (quad a b c d) = [a; b; c; d] ->
  Z.of_nat (length buf) = buflen ->
  ip4addr_ntoa_r (quad a b c d) buf buflen =
    Ret (if Z.of_nat (length (dotted a b c d)) <? buflen
         then Some (dotted a b c d ++ 0 :: drop (S (length (dotted a b c d))) buf) else None).
Proof.
  intros Ha Hb Hc Hd Hbytes Hbuf. unfold ip4addr_ntoa_r. rewrite Hbytes, (emit_bytes_spec buflen); [|by repeat (apply Forall_cons; split)|done|lia].
  rewrite dots_dotted. rewrite (bool_decide_false ([a; b; c; d] = [])), orb_false_r by done. ret. set (t := dotted a b c d).
  rewrite length_app. cbn [length]. destruct (Z.ltb_spec (Z.of_nat (length t)) buflen).
  - zcmp. change (Z.to_nat 0) with 0%nat. cbn [take app Nat.add]. rewrite wr_ok by (rewrite !length_app, length_drop; simpl; lia). ret. do 2 f_equal.
    replace (Z.to_nat (0 + Z.of_nat (length t + 1) - 1)) with (length t) by lia.
    rewrite <- app_assoc, take_0. cbn [app]. rewrite insert_app_r_alt by lia. rewrite Nat.sub_diag. cbn [list_insert insert].
    do 2 f_equal. f_equal. lia.
  - zcmp. done.
Qed.

(** ** Properties *)

(** C33: an address printed is read back: [ip4addr_ntoa_r] fails exactly when
    the buffer is too small for the text and its terminating zero (sixteen bytes
    always suffice) and never writes outside it; otherwise the buffer holds the
    text, followed by what was there before, and [ip4addr_aton] turns it into
    the same address. *)
Theorem ip4_text_roundtrip (addr : Z) (buf : list Z) :
  in_u32 addr ->
  exists text, (length text <= 15)%nat /\ Forall (fun c => isdigit c = true \/ c = 46) text /\
    ip4addr_ntoa_r addr buf (Z.of_nat (length buf)) =
      Ret (if (length text <? length buf)%nat then Some (text ++ 0 :: drop (S (length text)) buf) else None) /\
    forall rest, ip4addr_aton (text ++ 0 :: rest) = Ret (Some addr).
Proof.
  intros Haddr. destruct (quad_surj addr Haddr) as (a & b & c & d & -> & Ha & Hb & Hc & Hd & Hbytes).
  exists (dotted a b c d). destruct (dotted_length a b c d Ha Hb Hc Hd) as [_ Hlen]. split; [done|]. split; [|split].
  - assert (forall x, is_byte x -> Forall (fun c => isdigit c = true \/ c = 46) (dec x)) as Hdec.
    { intros x Hx. pose proof (byte_cases (fun b => forallb isdigit (dec b)) ltac:(vm_compute; reflexivity) x Hx) as Ht. cbv beta in Ht.
      apply Forall_forall. intros y Hy. left. rewrite forallb_forall in Ht. by apply Ht, list_elem_of_In. }
    unfold dotted. repeat (apply Forall_app; split; [by apply Hdec|]; apply Forall_cons; split; [by right|]). by apply Hdec.
  - rewrite (ntoa_quad a b c d buf (Z.of_nat (length buf))) by done. f_equal.
    destruct (Z.ltb_spec (Z.of_nat (length (dotted a b c d))) (Z.of_nat (length buf))), (Nat.ltb_spec (length (dotted a b c d)) (length buf)); lia || done.
  - intros rest. by apply aton_dotted.
Qed.

(** [ip4_addr_netmask_valid] returns, and accepts exactly the netmasks that
    are, in host order, some ones followed by zeros. *)
Theorem ip4_netmask_correct (netmask : Z) : in_u32 netmask ->
  returns (ip4_addr_netmask_valid netmask) (fun ok =>
    ok = true <-> exists k, 0 <= k <= 32 /\ lwip_htonl netmask = 2 ^ 32 - 2 ^ k).
Proof.
  intros Hn. assert (in_u32 (lwip_htonl netmask)) as Hnm.
  { destruct (quad_surj netmask Hn) as (a & b & c & d & -> & Ha & Hb & Hc & Hd & _). rewrite htonl_quad by done.
    unfold in_u32, quad, is_byte in *. lia. }
  unfold ip4_addr_netmask_valid. set (nm := lwip_htonl netmask) in *. change (Z.shiftl 1 31) with (top 32).
  eapply returns_bind; [apply first_zero_spec; unfold mask_fuel; lia|]. intros mask (m & -> & Hm & Hone & Hz).
  eapply returns_mono; [apply no_one_spec; unfold mask_fuel; lia|]. intros ok ->. split.
  - intros Hzero. exists (Z.of_nat m). split; [lia|]. apply mask_bits; [done|done|]. intros i Hi.
    destruct (Nat.leb_spec m i); [apply Hone; lia|by apply Hzero].
  - intros (k & Hk & E). replace k with (Z.of_nat (Z.to_nat k)) in E by lia. rewrite mask_bits in E by (done || lia).
    assert (Z.to_nat k = m) as <-; [|intros i Hi; rewrite E by lia; by apply Nat.leb_gt].
    destruct (Nat.lt_trichotomy (Z.to_nat k) m) as [Hlt|[|Hgt]]; [|done|].
    + destruct m as [|m]; [lia|]. specialize (Hz m eq_refl). rewrite E in Hz by lia. apply Nat.leb_gt in Hz. lia.
    + specialize (Hone m ltac:(lia)). rewrite E in Hone by lia. apply Nat.leb_le in Hone. lia.
Qed.

(** Broadcast addresses: all ones, all zeros, and on an interface that can
    broadcast the address with all host bits set in its own network. *)
Theorem ip4_broadcast_correct (addr : Z) (nif : netif) : in_u32 addr -> in_u32 (nif_mask nif) ->
  ip4_addr_isbroadcast_u32 addr nif = true <->
  addr = 0 \/ addr = 0xffffffff \/
  Z.land (nif_flags nif) NETIF_FLAG_BROADCAST <> 0 /\ addr <> nif_addr nif /\
  Z.land addr (nif_mask nif) = Z.land (nif_addr nif) (nif_mask nif) /\
  Z.land addr (not32 (nif_mask nif)) = not32 (nif_mask nif).
Proof.
  intros Ha Hm. unfold ip4_addr_isbroadcast_u32, ip4_addr_net_eq.
  assert (forall x, in_u32 x -> Z.land 0xffffffff x = x) as Hones.
  { intros x Hx. change 0xffffffff with (Z.ones 32). rewrite Z.land_comm, Z.land_ones by lia. by apply Z.mod_small. }
  assert (not32 addr = 0xffffffff - addr) as Hn.
  { unfold not32, u32, Z.lnot. unfold in_u32 in Ha. symmetry. apply Z.mod_unique_pos with (-1); lia. }
  rewrite (Hones (not32 (nif_mask nif))) by apply u32_range. rewrite Hn.
  destruct (Z.eqb_spec (0xffffffff - addr) 0), (Z.eqb_spec addr 0), (Z.eqb_spec (Z.land (nif_flags nif) NETIF_FLAG_BROADCAST) 0),
    (Z.eqb_spec addr (nif_addr nif)), (Z.eqb_spec (Z.land addr (nif_mask nif)) (Z.land (nif_addr nif) (nif_mask nif))),
    (Z.eqb_spec (Z.land addr (not32 (nif_mask nif))) (not32 (nif_mask nif))); cbn [orb andb]; split; try done;
    try (intros _; first [by left | right; left; lia | right; right; done]);
    intros [?|[?|(? & ? & ? & ?)]]; done || lia.
Qed.

(** ** Concrete addresses *)

(** [192.168.0.17] *)
Definition some_addr : Z := quad 192 168 0 17.
Definition some_text : list Z := [49; 57; 50; 46; 49; 54; 56; 46; 48; 46; 49; 55].

Lemma ip4_text_roundtrip_witness :
  ip4addr_ntoa_r some_addr (replicate 13 7) 13 = Ret (Some (some_text ++ [0])) /\
  ip4addr_ntoa_r some_addr (replicate 12 7) 12 = Ret None /\
  ip4addr_aton (some_text ++ [0]) = Ret (Some some_addr).
Proof.
  assert (in_u32 some_addr) as Ha by (vm_compute; split; [discriminate|reflexivity]).
  destruct (ip4_text_roundtrip some_addr (replicate 13 7) Ha) as (t & _ & _ & E & Hback). change (Z.of_nat (length (replicate 13 7))) with 13 in E.
  assert (ip4addr_ntoa_r some_addr (replicate 13 7) 13 = Ret (Some (some_text ++ [0]))) as E1 by (vm_compute; reflexivity).
  split; [exact E1|]. split; [vm_compute; reflexivity|]. rewrite E1 in E.
  destruct (_ <? _)%nat in E; [|discriminate E]. assert (some_text ++ [0] = t ++ 0 :: drop (S (length t)) (replicate 13 7)) as -> by congruence. apply Hback.
Defined.

Lemma ip4_netmask_correct_witness :
  ip4_addr_netmask_valid (quad 255 255 254 0) = Ret true /\ ip4_addr_netmask_valid (quad 255 0 255 0) = Ret false /\
  lwip_htonl (quad 255 255 254 0) = 2 ^ 32 - 2 ^ 9.
Proof.
  assert (in_u32 (quad 255 255 254 0)) as Ha by (vm_compute; split; [discriminate|reflexivity]).
  destruct (returns_inv _ _ (ip4_netmask_correct (quad 255 255 254 0) Ha)) as (ok & E & Hok).
  split; [|split; vm_compute; reflexivity]. rewrite E. f_equal. apply Hok. exists 9. split; [lia|vm_compute; reflexivity].
Defined.

(** "4294967297.0.0.1" *)
Definition wrapped_text : list Z := [52; 50; 57; 52; 57; 54; 55; 50; 57; 55; 46; 48; 46; 48; 46; 49; 0].

(** The value of a part is computed modulo 2^32 before it is compared with its
    limit: "4294967297.0.0.1" is accepted as 1.0.0.1. *)
Theorem ip4_aton_wraps : ip4addr_aton wrapped_text = Ret (Some (quad 1 0 0 1)).
Proof. vm_compute. reflexivity. Qed.
