(* ===== verification/Scheduler.v ===== *)
(** * The amd64 scheduler

    Model of src/mk/arch/amd64/thread/scheduler.c: one runqueue per processor,
    each with two priority arrays.  An array has a ring of threads per
    priority, linked through the threads, a bitmap of the priorities in use
    and a counter.  The threads, the runqueues, the processor descriptors and
    the machine registers a switch loads are the state; the processor that
    executes an operation and the tick counter are arguments.  A critical
    section under a runqueue lock is one step. *)

From stdpp Require Import base numbers list gmap.
From Stdlib Require Import ZArith Lia.
From S2P Require Import Prelude Links.

#[local] Open Scope Z_scope.

(** ** Data (scheduler.h, thread.h, cpu.h) *)
Definition THREAD_UNUSED : Z := 0.
Definition THREAD_READY : Z := 1.
Definition THREAD_RUNNING : Z := 2.
Definition THREAD_BLOCKED : Z := 3.
Definition THREAD_ZOMBIE : Z := 4.
Definition MAX_SLEEP_AVG : Z := 100.
Definition PRIO_MAX : Z := 140.
Definition MAX_RT_PRIO : Z := 100.
Definition DEFAULT_PRIO : Z := 120.
Definition PRIO_ARRAY_BITS : Z := 140.
Definition BITMAP_SIZE : Z := 5.
Definition SLEEP_MAX : Z := 256.
Definition CPU_MAX : Z := 64.

(** [t_array] is NULL or one of the two arrays of a runqueue, [t_rq] is NULL
    or a runqueue.  [t_fpu] is the saved image of the FPU registers. *)
Definition array_id : Type := Z * bool.

Record thread := Thread {
  t_tid : Z;
  t_state : Z;
  t_rsp : Z;
  t_ktop : Z;
  t_dir : Z;
  t_static : Z;
  t_prio : Z;
  t_avg : Z;
  t_slice : Z;
  t_next : Z;
  t_prev : Z;
  t_array : option array_id;
  t_rq : option Z;
  t_until : Z;
  t_tls : Z;
  t_fpu : Z;
}.

Record prio_array := PrioArray { nr_active : Z; queue : list Z; bitmap : list Z }.

(** [active] and [expired] point to [arrays[1]] (true) or [arrays[0]]. *)
Record runqueue := Runqueue {
  cpu_id : Z;
  arr0 : prio_array;
  arr1 : prio_array;
  active : bool;
  expired : bool;
  current : Z;
  idle : Z;
  fpu_owner : Z;
  sleep_queue : list Z;
  sleep_count : Z;
}.

(** A processor descriptor: [c_online] is [state == CPU_ONLINE]. *)
Record cpu := Cpu { c_online : bool; c_runqueue : option Z; c_package : Z; c_resched : bool }.

(** The registers of a processor that a switch loads: FSBASE, CR0.TS, the FPU
    registers, the kernel stack of the TSS, the page directory. *)
Record mach := Mach { m_fsbase : Z; m_ts : bool; m_fpu : Z; m_rsp0 : Z; m_dir : Z }.

(** [cpus] are the discovered processors ([cpu_nr] of them), [rqs] their
    runqueues, [ipis] the reschedule interrupts sent so far. *)
Record sst := SSt {
  thr : gmap Z thread;
  rqs : list runqueue;
  cpus : list cpu;
  hw : list mach;
  rebalance_ctr : list Z;
  ipis : list Z;
}.

Definition cpu_nr (st : sst) : Z := Z.of_nat (length (cpus st)).

Definition set_tid x t := Thread x (t_state t) (t_rsp t) (t_ktop t) (t_dir t) (t_static t) (t_prio t) (t_avg t) (t_slice t) (t_next t) (t_prev t) (t_array t) (t_rq t) (t_until t) (t_tls t) (t_fpu t).
Definition set_state x t := Thread (t_tid t) x (t_rsp t) (t_ktop t) (t_dir t) (t_static t) (t_prio t) (t_avg t) (t_slice t) (t_next t) (t_prev t) (t_array t) (t_rq t) (t_until t) (t_tls t) (t_fpu t).
Definition set_rsp x t := Thread (t_tid t) (t_state t) x (t_ktop t) (t_dir t) (t_static t) (t_prio t) (t_avg t) (t_slice t) (t_next t) (t_prev t) (t_array t) (t_rq t) (t_until t) (t_tls t) (t_fpu t).
Definition set_static x t := Thread (t_tid t) (t_state t) (t_rsp t) (t_ktop t) (t_dir t) x (t_prio t) (t_avg t) (t_slice t) (t_next t) (t_prev t) (t_array t) (t_rq t) (t_until t) (t_tls t) (t_fpu t).
Definition set_prio x t := Thread (t_tid t) (t_state t) (t_rsp t) (t_ktop t) (t_dir t) (t_static t) x (t_avg t) (t_slice t) (t_next t) (t_prev t) (t_array t) (t_rq t) (t_until t) (t_tls t) (t_fpu t).
Definition set_avg x t := Thread (t_tid t) (t_state t) (t_rsp t) (t_ktop t) (t_dir t) (t_static t) (t_prio t) x (t_slice t) (t_next t) (t_prev t) (t_array t) (t_rq t) (t_until t) (t_tls t) (t_fpu t).
Definition set_slice x t := Thread (t_tid t) (t_state t) (t_rsp t) (t_ktop t) (t_dir t) (t_static t) (t_prio t) (t_avg t) x (t_next t) (t_prev t) (t_array t) (t_rq t) (t_until t) (t_tls t) (t_fpu t).
Definition set_next x t := Thread (t_tid t) (t_state t) (t_rsp t) (t_ktop t) (t_dir t) (t_static t) (t_prio t) (t_avg t) (t_slice t) x (t_prev t) (t_array t) (t_rq t) (t_until t) (t_tls t) (t_fpu t).
Definition set_prev x t := Thread (t_tid t) (t_state t) (t_rsp t) (t_ktop t) (t_dir t) (t_static t) (t_prio t) (t_avg t) (t_slice t) (t_next t) x (t_array t) (t_rq t) (t_until t) (t_tls t) (t_fpu t).
Definition set_array x t := Thread (t_tid t) (t_state t) (t_rsp t) (t_ktop t) (t_dir t) (t_static t) (t_prio t) (t_avg t) (t_slice t) (t_next t) (t_prev t) x (t_rq t) (t_until t) (t_tls t) (t_fpu t).
Definition set_home x t := Thread (t_tid t) (t_state t) (t_rsp t) (t_ktop t) (t_dir t) (t_static t) (t_prio t) (t_avg t) (t_slice t) (t_next t) (t_prev t) (t_array t) x (t_until t) (t_tls t) (t_fpu t).
Definition set_until x t := Thread (t_tid t) (t_state t) (t_rsp t) (t_ktop t) (t_dir t) (t_static t) (t_prio t) (t_avg t) (t_slice t) (t_next t) (t_prev t) (t_array t) (t_rq t) x (t_tls t) (t_fpu t).
Definition set_fpu x t := Thread (t_tid t) (t_state t) (t_rsp t) (t_ktop t) (t_dir t) (t_static t) (t_prio t) (t_avg t) (t_slice t) (t_next t) (t_prev t) (t_array t) (t_rq t) (t_until t) (t_tls t) x.

Definition set_nr x q := PrioArray x (queue q) (bitmap q).
Definition set_queue x q := PrioArray (nr_active q) x (bitmap q).
Definition set_bitmap x q := PrioArray (nr_active q) (queue q) x.

Definition set_arr0 x r := Runqueue (cpu_id r) x (arr1 r) (active r) (expired r) (current r) (idle r) (fpu_owner r) (sleep_queue r) (sleep_count r).
Definition set_arr1 x r := Runqueue (cpu_id r) (arr0 r) x (active r) (expired r) (current r) (idle r) (fpu_owner r) (sleep_queue r) (sleep_count r).
Definition set_active x r := Runqueue (cpu_id r) (arr0 r) (arr1 r) x (expired r) (current r) (idle r) (fpu_owner r) (sleep_queue r) (sleep_count r).
Definition set_expired x r := Runqueue (cpu_id r) (arr0 r) (arr1 r) (active r) x (current r) (idle r) (fpu_owner r) (sleep_queue r) (sleep_count r).
Definition set_current x r := Runqueue (cpu_id r) (arr0 r) (arr1 r) (active r) (expired r) x (idle r) (fpu_owner r) (sleep_queue r) (sleep_count r).
Definition set_idle x r := Runqueue (cpu_id r) (arr0 r) (arr1 r) (active r) (expired r) (current r) x (fpu_owner r) (sleep_queue r) (sleep_count r).
Definition set_cpu_id x r := Runqueue x (arr0 r) (arr1 r) (active r) (expired r) (current r) (idle r) (fpu_owner r) (sleep_queue r) (sleep_count r).
Definition set_owner x r := Runqueue (cpu_id r) (arr0 r) (arr1 r) (active r) (expired r) (current r) (idle r) x (sleep_queue r) (sleep_count r).
Definition set_sleep x n r := Runqueue (cpu_id r) (arr0 r) (arr1 r) (active r) (expired r) (current r) (idle r) (fpu_owner r) x n.

Definition set_fsbase x m := Mach x (m_ts m) (m_fpu m) (m_rsp0 m) (m_dir m).
Definition set_ts x m := Mach (m_fsbase m) x (m_fpu m) (m_rsp0 m) (m_dir m).
Definition set_mfpu x m := Mach (m_fsbase m) (m_ts m) x (m_rsp0 m) (m_dir m).
Definition set_rsp0 x m := Mach (m_fsbase m) (m_ts m) (m_fpu m) x (m_dir m).
Definition set_mdir x m := Mach (m_fsbase m) (m_ts m) (m_fpu m) (m_rsp0 m) x.

Definition set_thr x st := SSt x (rqs st) (cpus st) (hw st) (rebalance_ctr st) (ipis st).
Definition set_rqs x st := SSt (thr st) x (cpus st) (hw st) (rebalance_ctr st) (ipis st).
Definition set_cpus x st := SSt (thr st) (rqs st) x (hw st) (rebalance_ctr st) (ipis st).
Definition set_hw x st := SSt (thr st) (rqs st) (cpus st) x (rebalance_ctr st) (ipis st).
Definition set_ctr x st := SSt (thr st) (rqs st) (cpus st) (hw st) x (ipis st).
Definition set_ipis x st := SSt (thr st) (rqs st) (cpus st) (hw st) (rebalance_ctr st) x.

(** Reads and writes through pointers; NULL (0) and a dangling pointer are
    undefined behaviour. *)
Definition ld (t : Z) (st : sst) : out thread := deref (thr st !! t).
Definition upd (t : Z) (f : thread -> thread) (st : sst) : out sst :=
  th ← ld t st; Ret (set_thr (<[t := f th]> (thr st)) st).

Definition ld_rq (c : Z) (st : sst) : out runqueue := rd (rqs st) c.
Definition upd_rq (c : Z) (f : runqueue -> runqueue) (st : sst) : out sst :=
  r ← ld_rq c st; rs ← wr (rqs st) c (f r); Ret (set_rqs rs st).
Definition upd_hw (c : Z) (f : mach -> mach) (st : sst) : out sst :=
  m ← rd (hw st) c; ms ← wr (hw st) c (f m); Ret (set_hw ms st).

Definition arr (r : runqueue) (i : bool) : prio_array := if i then arr1 r else arr0 r.
Definition set_arr (i : bool) (q : prio_array) (r : runqueue) : runqueue :=
  if i then set_arr1 q r else set_arr0 q r.
Definition ld_arr (a : array_id) (st : sst) : out prio_array :=
  r ← ld_rq a.1 st; Ret (arr r a.2).
Definition upd_arr (a : array_id) (f : prio_array -> out prio_array) (st : sst) : out sst :=
  q ← ld_arr a st; q ← f q; upd_rq a.1 (set_arr a.2 q) st.

(** [queue[prio] = t], [bitmap[prio / 32] |= ...] and [&= ~...]. *)
Definition put_queue (prio t : Z) (q : prio_array) : out prio_array :=
  l ← wr (queue q) prio t; Ret (set_queue l q).
Definition mark (prio : Z) (q : prio_array) : out prio_array :=
  b ← bm_set 32 (bitmap q) prio; Ret (set_bitmap b q).
Definition unmark (prio : Z) (q : prio_array) : out prio_array :=
  b ← bm_clear 32 (bitmap q) prio; Ret (set_bitmap b q).
(** [nr_active] is an int: its overflow is undefined. *)
Definition add_nr (d : Z) (q : prio_array) : out prio_array :=
  if (- 2 ^ 31 <=? nr_active q + d) && (nr_active q + d <? 2 ^ 31)
  then Ret (set_nr (nr_active q + d) q) else UB.

(** ** Priority arrays *)
Definition enqueue_link (a : array_id) (t prio h : Z) (st : sst) : out sst :=
  if negb (h =? 0) then
    head ← ld h st;
    let tail := t_prev head in
    st ← upd t (set_next h) st;
    st ← upd t (set_prev tail) st;
    st ← upd tail (set_next t) st;
    upd h (set_prev t) st
  else
    st ← upd_arr a (put_queue prio t) st;
    st ← upd t (set_next t) st;
    st ← upd t (set_prev t) st;
    upd_arr a (mark prio) st.

Definition prio_array_enqueue (pa : option array_id) (t prio : Z) (st : sst) : out sst :=
  a ← deref pa;
  q ← ld_arr a st;
  h ← rd (queue q) prio;
  st ← enqueue_link a t prio h st;
  st ← upd t (set_array (Some a)) st;
  upd_arr a (add_nr 1) st.

Definition dequeue_unlink (a : array_id) (t prio : Z) (st : sst) : out sst :=
  th ← ld t st;
  if t_next th =? t then
    st ← upd_arr a (put_queue prio 0) st;
    upd_arr a (unmark prio) st
  else
    st ← upd (t_prev th) (set_next (t_next th)) st;
    th ← ld t st;
    st ← upd (t_next th) (set_prev (t_prev th)) st;
    q ← ld_arr a st;
    h ← rd (queue q) prio;
    if h =? t then th ← ld t st; upd_arr a (put_queue prio (t_next th)) st else Ret st.

Definition prio_array_dequeue (pa : option array_id) (t prio : Z) (st : sst) : out sst :=
  a ← deref pa;
  st ← dequeue_unlink a t prio st;
  st ← upd t (set_next 0) st;
  st ← upd t (set_prev 0) st;
  st ← upd t (set_array None) st;
  upd_arr a (add_nr (-1)) st.

(** The [bsf] instruction on a nonzero word: the lowest bit that is set. *)
Fixpoint ffs_from (n : nat) (i w : Z) : Z :=
  match n with
  | O => i
  | S n => if Z.testbit w i then i else ffs_from n (i + 1) w
  end.
Definition ffs (w : Z) : Z := ffs_from 32 0 w.

Fixpoint find_top_from (i : Z) (ws : list Z) : Z :=
  match ws with
  | [] => -1
  | w :: ws => if negb (w =? 0) then i * 32 + ffs w else find_top_from (i + 1) ws
  end.
Definition prio_array_find_top (pa : prio_array) : Z := find_top_from 0 (bitmap pa).

(** ** Priorities and time slices *)
Definition clamp_prio (p : Z) : Z :=
  let p := if p <? MAX_RT_PRIO then MAX_RT_PRIO else p in
  if PRIO_MAX <=? p then PRIO_MAX - 1 else p.
Definition nice_to_prio (nice : Z) : Z := clamp_prio (DEFAULT_PRIO + nice).
Definition prio_to_timeslice (static_prio : Z) : Z := u32 ((PRIO_MAX - 1 - static_prio) * 2 + 2).
Definition effective_prio (static_prio sleep_avg : Z) : Z :=
  let bonus := Z.quot (sleep_avg * 11) (MAX_SLEEP_AVG + 1) in
  let bonus := if 10 <? bonus then 10 else bonus in
  clamp_prio (static_prio - bonus + 5).

(** ** Processors *)
Definition rq_current (me : Z) (st : sst) : option Z :=
  c ← getz (cpus st) me; c_runqueue c.

Definition scheduler_current_thread (me : Z) (st : sst) : out Z :=
  match rq_current me st with
  | Some c => r ← ld_rq c st; Ret (current r)
  | None => Ret 0
  end.

Definition online (id : Z) (st : sst) : bool :=
  match getz (cpus st) id with Some c => c_online c | None => false end.

(** The reschedule interrupt to the processor of the runqueue [c], unless that
    is the one of this processor. *)
Definition nudge (me c : Z) (st : sst) : out sst :=
  r ← ld_rq c st;
  Ret (if bool_decide (Some c <> rq_current me st) && online (cpu_id r) st
       then set_ipis (cpu_id r :: ipis st) st else st).

Definition load_of (r : runqueue) : Z :=
  u32 (u32 (nr_active (arr r (active r)) + nr_active (arr r (expired r))) + u32 (sleep_count r)).

Definition least_step (st : sst) (i : Z) (acc : option Z * Z * Z) : out (option Z * Z * Z) :=
  let '(best, best_load, best_id) := acc in
  c ← rd (cpus st) i;
  match c_runqueue c with
  | None => Ret acc
  | Some rq =>
      if negb (c_online c) then Ret acc else
      r ← ld_rq rq st;
      let load := load_of r in
      if (load <? best_load) || ((load =? best_load) && (i <? best_id)) then Ret (Some rq, load, i) else Ret acc
  end.

Definition pick_least_loaded_rq (st : sst) : out Z :=
  acc ← for_range 0 (cpu_nr st) (least_step st) (None, 2 ^ 32 - 1, CPU_MAX);
  Ret (default 0 acc.1.1).

(** ** The switch to the next thread

    Each level of the recursion takes one unit of [fuel]; a recursion that
    does not end overflows the kernel stack. *)
Definition take_next (c next top : Z) (st : sst) : out sst :=
  r ← ld_rq c st;
  let a := (c, active r) in
  th ← ld next st;
  if t_next th =? next then
    st ← upd_arr a (put_queue top 0) st;
    st ← upd_arr a (unmark top) st;
    st ← upd next (set_array None) st;
    upd_arr a (add_nr (-1)) st
  else
    st ← upd (t_prev th) (set_next (t_next th)) st;
    th ← ld next st;
    st ← upd (t_next th) (set_prev (t_prev th)) st;
    th ← ld next st;
    st ← upd_arr a (put_queue top (t_next th)) st;
    nn ← ld (t_next th) st;
    let tail := t_prev nn in
    st ← upd next (set_prev tail) st;
    st ← upd tail (set_next next) st;
    th ← ld next st;
    st ← upd (t_next th) (set_prev next) st;
    upd next (set_array (Some a)) st.

(** Loading the machine registers for the thread that runs next. *)
Definition load_thread (me next : Z) (st : sst) : out sst :=
  th ← ld next st;
  st ← upd_hw me (set_fsbase (if t_tid th =? 0 then 0 else t_tls th)) st;
  st ← upd_hw me (set_ts true) st;
  st ← upd_hw me (set_rsp0 (t_ktop th)) st;
  if t_dir th =? 0 then Ret st else upd_hw me (set_mdir (t_dir th)) st.

Fixpoint context_switch (fuel : nat) (me c : Z) (st : sst) : out (Z * sst) :=
  match fuel with
  | O => Hang
  | S fuel =>
      r ← ld_rq c st;
      st ← (if nr_active (arr r (active r)) <=? 0
            then upd_rq c (fun r => set_expired (active r) (set_active (expired r) r)) st else Ret st);
      r ← ld_rq c st;
      let q := arr r (active r) in
      let top := prio_array_find_top q in
      if top <? 0 then
        st ← upd_rq c (set_current (idle r)) st;
        th ← ld (idle r) st;
        st ← upd_hw me (set_rsp0 (t_ktop th)) st;
        Ret (t_rsp th, st)
      else
        next ← rd (queue q) top;
        st ← take_next c next top st;
        th ← ld next st;
        if (t_state th =? THREAD_ZOMBIE) || (t_state th =? THREAD_UNUSED) || (t_state th =? THREAD_BLOCKED)
        then context_switch fuel me c st
        else
          st ← upd next (set_state THREAD_RUNNING) st;
          st ← upd_rq c (set_current next) st;
          st ← load_thread me next st;
          Ret (t_rsp th, st)
  end.

(** Enough for every thread that may be skipped. *)
Definition switch_fuel (st : sst) : nat := S (size (thr st)).

(** ** Lazy switching of the FPU registers *)
Definition fpu_save (me t : Z) (st : sst) : out sst :=
  m ← rd (hw st) me; upd t (set_fpu (m_fpu m)) st.
Definition fpu_restore (me t : Z) (st : sst) : out sst :=
  th ← ld t st; upd_hw me (set_mfpu (t_fpu th)) st.

Definition fpu_nm_handler (me : Z) (st : sst) : out sst :=
  let rq := rq_current me st in
  cur ← scheduler_current_thread me st;
  st ← upd_hw me (set_ts false) st;
  st ← match rq with
       | Some c =>
           r ← ld_rq c st;
           if negb (fpu_owner r =? 0) && negb (fpu_owner r =? cur) then fpu_save me (fpu_owner r) st else Ret st
       | None => Ret st
       end;
  if cur =? 0 then Ret st else
  th ← ld cur st;
  if t_tid th =? 0 then Ret st else
  st ← fpu_restore me cur st;
  match rq with Some c => upd_rq c (set_owner cur) st | None => UB end.

(** ** Wake-ups *)
Definition rq_unblock_locked (c t : Z) (st : sst) : out sst :=
  th ← ld t st;
  if negb (t_state th =? THREAD_BLOCKED) then Ret st else
  st ← upd t (set_state THREAD_READY) st;
  let avg := if t_avg th <? MAX_SLEEP_AVG then t_avg th + 10 else t_avg th in
  let avg := if MAX_SLEEP_AVG <? avg then MAX_SLEEP_AVG else avg in
  st ← upd t (set_avg avg) st;
  st ← upd t (set_prio (effective_prio (t_static th) avg)) st;
  r ← ld_rq c st;
  prio_array_enqueue (Some (c, active r)) t (effective_prio (t_static th) avg) st.

Definition scheduler_unblock_thread (me t : Z) (st : sst) : out sst :=
  if t =? 0 then Ret st else
  th ← ld t st;
  match (match t_rq th with Some c => Some c | None => rq_current me st end) with
  | None => Ret st
  | Some c => st ← rq_unblock_locked c t st; nudge me c st
  end.

(** [(int32_t)(now - deadline) >= 0] *)
Definition reached (now deadline : Z) : bool := 0 <=? s32 (u32 (now - deadline)).

(** The loop over the sleep queue; an expired entry is replaced by the last. *)
Fixpoint wake_loop (fuel : nat) (c now i : Z) (st : sst) : out sst :=
  match fuel with
  | O => Hang
  | S fuel =>
      r ← ld_rq c st;
      if negb (i <? sleep_count r) then Ret st else
      t ← rd (sleep_queue r) i;
      expired ← (if t =? 0 then Ret false else
                 th ← ld t st; Ret (negb (t_until th =? 0) && reached now (t_until th)));
      if expired : bool then
        x ← rd (sleep_queue r) (sleep_count r - 1);
        sq ← wr (sleep_queue r) i x;
        st ← upd_rq c (set_sleep sq (sleep_count r - 1)) st;
        st ← upd t (set_until 0) st;
        st ← rq_unblock_locked c t st;
        wake_loop fuel c now i st
      else wake_loop fuel c now (i + 1) st
  end.

Definition sleep_wake_tick (c ticks : Z) (st : sst) : out sst :=
  r ← ld_rq c st;
  wake_loop (S (Z.to_nat (sleep_count r))) c (u32 ticks) 0 st.

(** ** Placement, removal, blocking *)
Definition scheduler_add_thread (me t : Z) (st : sst) : out sst :=
  if t =? 0 then Ret st else
  th ← ld t st;
  st ← (if (t_static th =? 0) && negb (t_tid th =? 0) then upd t (set_static DEFAULT_PRIO) st else Ret st);
  th ← ld t st;
  st ← (if t_prio th =? 0 then upd t (set_prio (t_static th)) st else Ret st);
  th ← ld t st;
  st ← (if t_slice th =? 0 then upd t (set_slice (prio_to_timeslice (t_static th))) st else Ret st);
  c ← pick_least_loaded_rq st;
  st ← upd t (set_state THREAD_READY) st;
  st ← upd t (set_home (Some c)) st;
  r ← ld_rq c st;
  th ← ld t st;
  st ← prio_array_enqueue (Some (c, active r)) t (t_prio th) st;
  nudge me c st.

Definition scheduler_remove_thread (t : Z) (st : sst) : out sst :=
  if t =? 0 then Ret st else
  th ← ld t st;
  match t_array th, t_rq th with
  | Some a, Some _ =>
      st ← prio_array_dequeue (Some a) t (t_prio th) st;
      upd t (set_state THREAD_ZOMBIE) st
  | _, _ => Ret st
  end.

Definition unlink (t : Z) (st : sst) : out sst :=
  th ← ld t st;
  match t_array th with
  | Some a => prio_array_dequeue (Some a) t (t_prio th) st
  | None => Ret st
  end.

Definition scheduler_block_current (me : Z) (st : sst) : out sst :=
  match rq_current me st with
  | None => Ret st
  | Some c =>
      r ← ld_rq c st;
      let cur := current r in
      if (cur =? 0) || (cur =? idle r) then Ret st else
      st ← unlink cur st;
      upd cur (set_state THREAD_BLOCKED) st
  end.

Definition scheduler_sleep_ticks (me ticks deadline : Z) (st : sst) : out (Z * sst) :=
  match rq_current me st with
  | None => Ret (-1, st)
  | Some c =>
      r ← ld_rq c st;
      let cur := current r in
      if (cur =? 0) || (cur =? idle r) then Ret (-1, st) else
      if reached (u32 ticks) (u32 deadline) then Ret (0, st) else
      st ← unlink cur st;
      st ← upd cur (set_until (u32 deadline)) st;
      st ← upd cur (set_state THREAD_BLOCKED) st;
      if sleep_count r <? SLEEP_MAX then
        sq ← wr (sleep_queue r) (sleep_count r) cur;
        st ← upd_rq c (set_sleep sq (sleep_count r + 1)) st;
        Ret (1, st)
      else
        st ← upd cur (set_until 0) st;
        st ← upd cur (set_state THREAD_READY) st;
        st ← scheduler_add_thread me cur st;
        Ret (-1, st)
  end.

(** ** Migration and balancing *)
Definition migrate_to (target_rq t : Z) (st : sst) : out sst :=
  st ← upd t (set_state THREAD_READY) st;
  st ← upd t (set_home (Some target_rq)) st;
  r ← ld_rq target_rq st;
  th ← ld t st;
  prio_array_enqueue (Some (target_rq, active r)) t (t_prio th) st.

Definition thread_migrate (me t target : Z) (st : sst) : out (Z * sst) :=
  if t =? 0 then Ret (-1, st) else
  if (cpu_nr st <=? target) || (CPU_MAX <=? target) then Ret (-1, st) else
  tcpu ← rd (cpus st) target;
  th ← ld t st;
  match c_runqueue tcpu, t_rq th with
  | Some target_rq, source =>
      if negb (c_online tcpu) then Ret (-1, st) else
      match source with
      | None => Ret (-1, st)
      | Some source_rq =>
          if source_rq =? target_rq then Ret (0, st) else
          if negb (t_state th =? THREAD_READY) then Ret (-1, st) else
          s ← ld_rq source_rq st;
          match t_array th with
          | None => Ret (-1, st)
          | Some a =>
              if current s =? t then Ret (-1, st) else
              st ← prio_array_dequeue (Some a) t (t_prio th) st;
              st ← migrate_to target_rq t st;
              Ret (0, if bool_decide (Some target_rq <> rq_current me st) && c_online tcpu
                      then set_ipis (target :: ipis st) st else st)
          end
      end
  | None, _ => Ret (-1, st)
  end.

(** The victim [rq_steal] takes from the array [a], whose top priority is
    [top]: the head of the ring, or the one behind it if the head runs. *)
Definition steal_victim (cur : Z) (q : prio_array) (top : Z) (st : sst) : out (option Z) :=
  t ← rd (queue q) top;
  if t =? cur then
    th ← ld t st;
    if t_next th =? t then Ret None else Ret (Some (t_next th))
  else Ret (Some t).

Definition steal_into (c t : Z) (st : sst) : out sst :=
  st ← upd t (set_home (Some c)) st;
  st ← upd t (set_state THREAD_READY) st;
  r ← ld_rq c st;
  th ← ld t st;
  prio_array_enqueue (Some (c, active r)) t (t_prio th) st.

Definition steal_one (c i : Z) (st : sst) : out (option sst) :=
  r ← ld_rq c st;
  if i =? cpu_id r then Ret None else
  cp ← rd (cpus st) i;
  match c_runqueue cp with
  | None => Ret None
  | Some s =>
      if negb (c_online cp) then Ret None else
      sr ← ld_rq s st;
      let top0 := prio_array_find_top (arr sr (active sr)) in
      let side := if top0 <? 0 then expired sr else active sr in
      let top := if top0 <? 0 then prio_array_find_top (arr sr (expired sr)) else top0 in
      if top <? 0 then Ret None else
      v ← steal_victim (current sr) (arr sr side) top st;
      match v with
      | None => Ret None
      | Some t =>
          st ← prio_array_dequeue (Some (s, side)) t top st;
          st ← steal_into c t st;
          Ret (Some st)
      end
  end.

Fixpoint steal_loop (ids : list Z) (c : Z) (st : sst) : out sst :=
  match ids with
  | [] => Ret st
  | i :: ids => o ← steal_one c i st; match o with Some st => Ret st | None => steal_loop ids c st end
  end.

Definition rq_steal (c : Z) (st : sst) : out sst :=
  r ← ld_rq c st;
  if 0 <? nr_active (arr r (active r)) then Ret st
  else steal_loop (seqZ 0 (cpu_nr st)) c st.

(** The busiest other processor, one of the same package preferred. *)
Definition run_load (r : runqueue) : Z :=
  u32 (u32 (nr_active (arr r (active r))) + u32 (nr_active (arr r (expired r)))).

Definition share_package (a b : Z) (st : sst) : bool :=
  match getz (cpus st) a, getz (cpus st) b with
  | Some ca, Some cb => c_package ca =? c_package cb
  | _, _ => false
  end.

Definition busiest_step (me c : Z) (st : sst) (i : Z) (acc : option Z * Z) : out (option Z * Z) :=
  let '(src, best_load) := acc in
  cp ← rd (cpus st) i;
  match c_runqueue cp with
  | None => Ret acc
  | Some q =>
      if (q =? c) || negb (c_online cp) then Ret acc else
      r ← ld_rq q st;
      let load := run_load r in
      if u32 (best_load + 1) <? load then
        let same_pkg := share_package me i st in
        match src with
        | None => Ret (Some q, load)
        | Some s =>
            if same_pkg && (best_load <=? load) then Ret (Some q, load) else
            sr ← ld_rq s st;
            if negb same_pkg && negb (share_package me (cpu_id sr) st) then Ret (Some q, load) else Ret acc
        end
      else Ret acc
  end.

(** One turn round the ring from [t] back to [head]. *)
Fixpoint ring_victim (fuel : nat) (cur head t : Z) (st : sst) : out (option Z) :=
  match fuel with
  | O => Hang
  | S fuel =>
      th ← ld t st;
      if negb (t =? cur) && (t_state th =? THREAD_READY) then Ret (Some t)
      else if t_next th =? head then Ret None
      else ring_victim fuel cur head (t_next th) st
  end.

Fixpoint queue_victim (cur : Z) (heads : list Z) (st : sst) : out (option Z) :=
  match heads with
  | [] => Ret None
  | h :: heads =>
      if h =? 0 then queue_victim cur heads st else
      v ← ring_victim (S (size (thr st))) cur h h st;
      match v with Some t => Ret (Some t) | None => queue_victim cur heads st end
  end.

Definition scheduler_rebalance (me : Z) (st : sst) : out sst :=
  match rq_current me st with
  | None => Ret st
  | Some c =>
      if cpu_nr st <? 2 then Ret st else
      r ← ld_rq c st;
      let my_load := run_load r in
      acc ← for_range 0 (cpu_nr st) (busiest_step me c st) (None, my_load);
      match acc.1 with
      | None => Ret st
      | Some s =>
          if acc.2 <? u32 (my_load + 2) then Ret st else
          sr ← ld_rq s st;
          v ← queue_victim (current sr) (queue (arr sr (active sr))) st;
          match v with
          | Some t => x ← thread_migrate me t (cpu_id r) st; Ret x.2
          | None => Ret st
          end
      end
  end.

(** ** The switch on an interrupt

    [r] is the address of the saved frame, [int_no] its interrupt number. *)
Definition tick_rebalance (me c : Z) (st : sst) : out sst :=
  r ← ld_rq c st;
  let rid := cpu_id r in
  if rid <? CPU_MAX then
    n ← rd (rebalance_ctr st) rid;
    let n := u32 (n + 1) in
    ct ← wr (rebalance_ctr st) rid (if 100 <=? n then 0 else n);
    let st := set_ctr ct st in
    if 100 <=? n then scheduler_rebalance me st else Ret st
  else Ret st.

(** The timer tick for a RUNNING current thread: [rq->current] is NULL after
    it. *)
Definition tick_running (c cur : Z) (st : sst) : out sst :=
  th ← ld cur st;
  let slice := if 0 <? t_slice th then t_slice th - 1 else t_slice th in
  st ← upd cur (set_slice slice) st;
  r ← ld_rq c st;
  st ← (if slice =? 0 then
          st ← upd cur (set_state THREAD_READY) st;
          let avg := if 0 <? t_avg th then t_avg th - 3 else t_avg th in
          let avg := if avg <? 0 then 0 else avg in
          st ← upd cur (set_avg avg) st;
          let p := effective_prio (t_static th) avg in
          st ← upd cur (set_prio p) st;
          st ← upd cur (set_slice (prio_to_timeslice (t_static th))) st;
          st ← (if bool_decide (t_array th = Some (c, active r))
                then prio_array_dequeue (Some (c, active r)) cur p st else Ret st);
          prio_array_enqueue (Some (c, expired r)) cur p st
        else if bool_decide (t_array th = None)
        then prio_array_enqueue (Some (c, active r)) cur (t_prio th) st else Ret st);
  upd_rq c (set_current 0) st.

(** The system call gate for a RUNNING current thread. *)
Definition syscall_running (c cur : Z) (st : sst) : out sst :=
  th ← ld cur st;
  let old_prio := t_prio th in
  st ← upd cur (set_state THREAD_READY) st;
  let avg := if 0 <? t_avg th then t_avg th - 1 else t_avg th in
  st ← upd cur (set_avg avg) st;
  let p := effective_prio (t_static th) avg in
  st ← upd cur (set_prio p) st;
  let slice := if 0 <? t_slice th then t_slice th - 1 else t_slice th in
  st ← upd cur (set_slice slice) st;
  r ← ld_rq c st;
  st ← (if slice =? 0 then
          st ← (if bool_decide (t_array th = Some (c, active r))
                then prio_array_dequeue (Some (c, active r)) cur old_prio st else Ret st);
          prio_array_enqueue (Some (c, expired r)) cur p st
        else if bool_decide (t_array th = None)
        then prio_array_enqueue (Some (c, active r)) cur p st else Ret st);
  upd_rq c (set_current 0) st.

(** Saving the frame of the current thread, unless it is the idle thread, and
    what [k] does to it if it is RUNNING. *)
Definition save_current (c frame : Z) (k : Z -> sst -> out sst) (st : sst) : out sst :=
  r ← ld_rq c st;
  let cur := current r in
  if cur =? 0 then Ret st else
  th ← ld cur st;
  if t_tid th =? 0 then Ret st else
  st ← upd cur (set_rsp frame) st;
  if t_state th =? THREAD_RUNNING then k cur st else Ret st.

(** The part before the runqueue is locked. *)
Definition switch_prepare (me c int_no : Z) (cp : cpu) (st : sst) : out sst :=
  st ← (if int_no =? 32 then
          cs ← wr (cpus st) me (Cpu (c_online cp) (c_runqueue cp) (c_package cp) false);
          tick_rebalance me c (set_cpus cs st)
        else Ret st);
  r ← ld_rq c st;
  if nr_active (arr r (active r)) <=? 0 then rq_steal c st else Ret st.

Definition scheduler_switch (me frame int_no ticks : Z) (st : sst) : out (Z * sst) :=
  match getz (cpus st) me with
  | None => Ret (frame, st)
  | Some cp =>
      match c_runqueue cp with
      | None => Ret (frame, st)
      | Some c =>
          st ← switch_prepare me c int_no cp st;
          if int_no =? 32 then
            st ← sleep_wake_tick c ticks st;
            st ← save_current c frame (tick_running c) st;
            context_switch (switch_fuel st) me c st
          else if int_no =? 128 then
            st ← save_current c frame (syscall_running c) st;
            context_switch (switch_fuel st) me c st
          else
            st ← save_current c frame (fun _ st => Ret st) st;
            r ← ld_rq c st;
            if current r =? 0 then context_switch (switch_fuel st) me c st else
            th ← ld (current r) st;
            if negb (t_state th =? THREAD_RUNNING) then context_switch (switch_fuel st) me c st else
            if c_resched cp then
              cs ← wr (cpus st) me (Cpu (c_online cp) (c_runqueue cp) (c_package cp) false);
              context_switch (switch_fuel st) me c (set_cpus cs st)
            else Ret (frame, st)
      end
  end.

(** ** Nice values *)
Definition scheduler_set_nice (me t nice : Z) (st : sst) : out sst :=
  if t =? 0 then Ret st else
  let nice := if nice <? -20 then -20 else nice in
  let nice := if 19 <? nice then 19 else nice in
  th ← ld t st;
  match (match t_rq th with Some c => Some c | None => rq_current me st end) with
  | None => Ret st
  | Some _ =>
      let new_static := nice_to_prio nice in
      match t_array th with
      | Some a =>
          st ← prio_array_dequeue (Some a) t (t_prio th) st;
          st ← upd t (set_static new_static) st;
          th ← ld t st;
          let p := effective_prio new_static (t_avg th) in
          st ← upd t (set_prio p) st;
          st ← upd t (set_slice (prio_to_timeslice new_static)) st;
          th ← ld t st;
          prio_array_enqueue (t_array th) t p st
      | None =>
          st ← upd t (set_static new_static) st;
          upd t (set_prio (effective_prio new_static (t_avg th))) st
      end
  end.

(** ** Start of a processor

    [idle_p] and [stack_p] are what the allocators return, 0 on failure; an
    FXSAVE image is written as the number its bytes are in little-endian. *)
Definition THREAD_KSTACK_SIZE : Z := 16384.
Definition FRAME_SIZE : Z := 22 * 8.
Definition fpu_state_init : Z := 0x037F + Z.shiftl 0xFFFF 32 + Z.shiftl 0x1F80 256.

Definition setup_idle (c idle_p stack_p : Z) (st : sst) : out (Z * sst) :=
  if idle_p =? 0 then Ret (-1, st) else
  let th := Thread 0 THREAD_READY 0 0 0 (PRIO_MAX - 1) (PRIO_MAX - 1) 0 1 0 0 None None 0 0 fpu_state_init in
  let st := set_thr (<[idle_p := th]> (thr st)) st in
  if stack_p =? 0 then Ret (-1, st) else
  let top := u64 (stack_p + THREAD_KSTACK_SIZE) in
  let th := Thread 0 THREAD_READY (u64 (top - FRAME_SIZE - 8)) top 0 (PRIO_MAX - 1) (PRIO_MAX - 1) 0 1 0 0 None None 0 0 fpu_state_init in
  let st := set_thr (<[idle_p := th]> (thr st)) st in
  st ← upd_rq c (set_idle idle_p) st;
  Ret (0, st).

Definition empty_array : prio_array := PrioArray 0 (replicate 140 0) (replicate 5 0).
Definition rq_init (r : runqueue) : runqueue := Runqueue 0 empty_array empty_array false true 0 0 0 (replicate 256 0) 0.

Definition scheduler_init_cpu (id idle_p stack_p : Z) (st : sst) : out sst :=
  cp ← rd (cpus st) id;
  cs ← wr (cpus st) id (Cpu (c_online cp) (Some id) (c_package cp) (c_resched cp));
  st ← upd_rq id (set_cpu_id id) (set_cpus cs st);
  st ← upd_rq id rq_init st;
  x ← setup_idle id idle_p stack_p st;
  let '(rc, st) := x in
  if rc <? 0 then Ret st else
  st ← upd idle_p (set_state THREAD_RUNNING) st;
  upd_rq id (set_current idle_p) st.

Definition scheduler_init (idle_p stack_p : Z) (st : sst) : out sst := scheduler_init_cpu 0 idle_p stack_p st.
