(* ===== verification/SchedQueues.v ===== *)
(** * The priority arrays of the scheduler

    The invariant [rep st Q] of Scheduler.v: [Q a p] is the ring of the threads
    of priority [p] on the array [a].  [prio_array_enqueue] appends to a ring
    and [prio_array_dequeue] takes a thread out of it; [prio_array_find_top] is
    the lowest bit of the bitmap.  [view] describes a state in the middle of
    such an operation. *)

From stdpp Require Import base numbers list gmap.
From Stdlib Require Import ZArith Lia.
From S2P Require Import Prelude Links Scheduler.

#[local] Open Scope Z_scope.

(** ** Invariant

    [Q a p] is the ring of the array [a] for priority [p], first the thread
    the queue points to. *)
Definition nxt (st : sst) (t : Z) : option Z := t_next <$> thr st !! t.
Definition prv (st : sst) (t : Z) : option Z := t_prev <$> thr st !! t.

Definition cring (st : sst) (l : list Z) : Prop :=
  match l with [] => True | h :: tl => dll h (nxt st) (prv st) tl end.

Definition count (q : Z -> list Z) : Z := sumz (fun p => Z.of_nat (length (q p))) (seqZ 0 140).

Record pa_ok (pa : prio_array) (q : Z -> list Z) : Prop := {
  pa_qlen : length (queue pa) = 140%nat;
  pa_blen : length (bitmap pa) = 5%nat;
  pa_words : Forall (in_word 32) (bitmap pa);
  pa_heads p : 0 <= p < 140 -> getz (queue pa) p = Some (after (q p));
  pa_bits p : 0 <= p -> bm_bit 32 (bitmap pa) p = bool_decide (q p <> []);
  pa_nr : nr_active pa = count q;
}.

Definition arrs (st : sst) (a : array_id) : option prio_array := r ← getz (rqs st) a.1; Some (arr r a.2).

Definition live (th : thread) : Prop := t_state th = THREAD_READY \/ t_state th = THREAD_RUNNING.

Record thread_ok (n : nat) (t : Z) (th : thread) : Prop := {
  th_null : t <> 0;
  th_static : 100 <= t_static th <= 139;
  th_prio : 100 <= t_prio th <= 139;
  th_avg : 0 <= t_avg th <= 100;
  th_slice : 0 <= t_slice th < 2 ^ 32;
  th_live : is_Some (t_array th) -> live th;
  th_home : is_Some (t_array th) \/ t_state th = THREAD_BLOCKED -> is_Some (t_rq th);
  th_rq c : t_rq th = Some c -> 0 <= c < Z.of_nat n;
}.

Record rq_ok (st : sst) (r : runqueue) : Prop := {
  rq_id : 0 <= cpu_id r;
  rq_sides : expired r = negb (active r);
  rq_idle : exists th, thr st !! idle r = Some th /\ t_tid th = 0 /\ t_array th = None /\ t_rq th = None;
  rq_cur : current r = 0 \/ current r = idle r \/ exists th, thr st !! current r = Some th /\ is_Some (t_rq th);
  rq_slen : length (sleep_queue r) = 256%nat;
  rq_count : 0 <= sleep_count r <= 256;
  rq_sleepers i : 0 <= i < sleep_count r -> exists t, getz (sleep_queue r) i = Some t /\ is_Some (thr st !! t);
}.

Definition rings : Type := array_id -> Z -> list Z.

Record rep (st : sst) (Q : rings) : Prop := {
  rep_arr a pa : arrs st a = Some pa -> pa_ok pa (Q a);
  rep_ring a p : cring st (Q a p);
  rep_mem a p t : t ∈ Q a p <-> exists th, thr st !! t = Some th /\ t_array th = Some a /\ t_prio th = p;
  rep_thr t th : thr st !! t = Some th -> thread_ok (length (rqs st)) t th;
  rep_where t th a : thr st !! t = Some th -> t_array th = Some a -> 0 <= a.1 < Z.of_nat (length (rqs st));
  rep_rq c r : getz (rqs st) c = Some r -> rq_ok st r;
  rep_cpus me c : rq_current me st = Some c -> 0 <= c < Z.of_nat (length (rqs st));
  rep_some : (0 < length (rqs st))%nat;
  rep_hw : length (hw st) = length (cpus st);
  rep_ctr : length (rebalance_ctr st) = 64%nat;
  rep_ncpus : (length (cpus st) <= 64)%nat;
  rep_size : Z.of_nat (size (thr st)) < 2 ^ 31;
}.

Definition fupd (q : Z -> list Z) (p : Z) (l : list Z) : Z -> list Z :=
  fun p' => if decide (p' = p) then l else q p'.
Definition qupd (Q : rings) (a : array_id) (p : Z) (l : list Z) : rings :=
  fun a' => if decide (a' = a) then fupd (Q a) p l else Q a'.

(** ** Arrays *)
Lemma count_upd q p l : 0 <= p < 140 -> count (fupd q p l) = count q + Z.of_nat (length l) - Z.of_nat (length (q p)).
Proof.
  intros Hp. unfold count. rewrite (sumz_upd (fun p => Z.of_nat (length (q p))) _ (seqZ 0 140) p).
  - unfold fupd. rewrite decide_True by done. lia.
  - apply NoDup_seqZ.
  - apply elem_of_seqZ. lia.
  - intros x _ Hx. unfold fupd. by rewrite decide_False.
Qed.

Lemma pa_change pa q p l qu bm n :
  pa_ok pa q -> 0 <= p < 140 -> qu = <[Z.to_nat p := after l]> (queue pa) ->
  bm_upd 32 (bitmap pa) p (bool_decide (l <> [])) bm ->
  n = nr_active pa + Z.of_nat (length l) - Z.of_nat (length (q p)) ->
  pa_ok (PrioArray n qu bm) (fupd q p l).
Proof.
  intros [H1 H2 H3 H4 H5 H6] Hp -> (Hbl & Hbw & Hbb) ->. split; simpl.
  - by rewrite length_insert.
  - by rewrite Hbl.
  - by apply Hbw.
  - intros p' Hp'. unfold fupd. destruct (decide (p' = p)) as [->|].
    + apply getz_insert_eq. rewrite H1. lia.
    + rewrite getz_insert_ne by lia. by apply H4.
  - intros p' Hp'. rewrite Hbb by done. unfold fupd. destruct (decide (p' = p)) as [->|]; zcmp; [done|]. by apply H5.
  - rewrite count_upd by done. lia.
Qed.

Lemma bm_upd_id bm p b : bm_bit 32 bm p = b -> bm_upd 32 bm p b bm.
Proof. intros Hb. split; [done|]. split; [done|]. intros j Hj. destruct (Z.eqb_spec j p) as [->|]; done. Qed.

Lemma pa_bm_size pa q : pa_ok pa q -> bm_size 32 (bitmap pa) = 160.
Proof. intros H. unfold bm_size. by rewrite (pa_blen _ _ H). Qed.

Lemma count_length q : count q = Z.of_nat (length (seqZ 0 140 ≫= q)).
Proof.
  unfold count. induction (seqZ 0 140) as [|p l IH]; [done|]. cbn [sumz foldr mbind list_bind].
  change (foldr _ 0 l) with (sumz (fun p => Z.of_nat (length (q p))) l). rewrite IH, length_app. lia.
Qed.

(** The lowest bit of a word, and of the bitmap. *)
Lemma ffs_spec w : in_word 32 w -> w <> 0 ->
  0 <= ffs w < 32 /\ Z.testbit w (ffs w) = true /\ forall j, 0 <= j < ffs w -> Z.testbit w j = false.
Proof.
  intros Hw Hw0. assert (forall n i, i + Z.of_nat n = 32 -> 0 <= i -> (forall j, 0 <= j < i -> Z.testbit w j = false) ->
    0 <= ffs_from n i w < 32 /\ Z.testbit w (ffs_from n i w) = true /\
    forall j, 0 <= j < ffs_from n i w -> Z.testbit w j = false) as Hgen; [|apply (Hgen 32%nat 0); lia].
  induction n as [|n IH]; intros i Hi Hi0 Hlow; simpl.
  - destruct Hw0. apply Z.bits_inj'. intros j Hj. rewrite Z.bits_0. destruct (Z.lt_ge_cases j 32).
    + apply Hlow. lia.
    + by apply (in_word_high 32).
  - destruct (Z.testbit w i) eqn:E.
    + split; [lia|]. done.
    + apply IH; [lia|lia|]. intros j Hj. destruct (decide (j = i)) as [->|]; [done|]. apply Hlow. lia.
Qed.

Lemma bitmap_bit_word bm k j : 0 <= j < 32 -> 0 <= k ->
  bm_bit 32 bm (k * 32 + j) = match getz bm k with Some w => Z.testbit w j | None => false end.
Proof.
  intros Hj Hk. unfold bm_bit. replace ((k * 32 + j) / 32) with k by (apply Z.div_unique with j; lia).
  by replace ((k * 32 + j) mod 32) with j by (apply Z.mod_unique with k; lia).
Qed.

Lemma find_top_spec pa : Forall (in_word 32) (bitmap pa) ->
  (prio_array_find_top pa = -1 /\ forall p, 0 <= p -> bm_bit 32 (bitmap pa) p = false) \/
  (0 <= prio_array_find_top pa /\ bm_bit 32 (bitmap pa) (prio_array_find_top pa) = true /\
   forall p, 0 <= p < prio_array_find_top pa -> bm_bit 32 (bitmap pa) p = false).
Proof.
  unfold prio_array_find_top. set (bm := bitmap pa). intros HF.
  assert (forall ws pre, bm = pre ++ ws -> (forall p, 0 <= p < 32 * Z.of_nat (length pre) -> bm_bit 32 bm p = false) ->
    (find_top_from (Z.of_nat (length pre)) ws = -1 /\ forall p, 0 <= p -> bm_bit 32 bm p = false) \/
    (0 <= find_top_from (Z.of_nat (length pre)) ws /\ bm_bit 32 bm (find_top_from (Z.of_nat (length pre)) ws) = true /\
     forall p, 0 <= p < find_top_from (Z.of_nat (length pre)) ws -> bm_bit 32 bm p = false)) as Hgen;
    [|apply (Hgen bm []); [done|cbn [length]; lia]].
  induction ws as [|w ws IH]; intros pre Hbm Hpre; cbn [find_top_from].
  - left. split; [done|]. intros p Hp. destruct (Z.lt_ge_cases p (32 * Z.of_nat (length pre))); [apply Hpre; lia|].
    apply bm_bit_ge; [lia|]. unfold bm_size. by rewrite Hbm, app_nil_r.
  - assert (getz bm (Z.of_nat (length pre)) = Some w) as Hw by (by rewrite getz_of_nat, Hbm, lookup_app_r, Nat.sub_diag).
    assert (in_word 32 w) as Hiw by (apply getz_Some in Hw as [_ Hw]; by eapply Forall_lookup_1 in Hw).
    destruct (Z.eqb_spec w 0) as [->|Hw0]; cbn [negb].
    + replace (Z.of_nat (length pre) + 1) with (Z.of_nat (length (pre ++ [0]))) by (rewrite length_app; simpl; lia).
      apply IH; [by rewrite <- app_assoc|]. rewrite length_app. cbn [length]. intros p Hp.
      destruct (Z.lt_ge_cases p (32 * Z.of_nat (length pre))); [apply Hpre; lia|].
      replace p with (Z.of_nat (length pre) * 32 + (p - Z.of_nat (length pre) * 32)) by lia.
      rewrite bitmap_bit_word, Hw by lia. apply Z.bits_0.
    + right. destruct (ffs_spec w Hiw Hw0) as (Hf & Hft & Hfl). rewrite bitmap_bit_word, Hw by lia.
      split; [lia|]. split; [done|]. intros p Hp.
      destruct (Z.lt_ge_cases p (32 * Z.of_nat (length pre))); [apply Hpre; lia|].
      replace p with (Z.of_nat (length pre) * 32 + (p - Z.of_nat (length pre) * 32)) by lia.
      rewrite bitmap_bit_word, Hw by lia. apply Hfl. lia.
Qed.

(** The priority [prio_array_find_top] reports is the best one in use. *)
Definition best (q : Z -> list Z) (p : Z) : Prop := 0 <= p < 140 /\ q p <> [] /\ forall p', 0 <= p' < p -> q p' = [].

Lemma find_top_best pa q : pa_ok pa q -> (forall p, 140 <= p -> q p = []) ->
  (prio_array_find_top pa = -1 /\ forall p, 0 <= p -> q p = []) \/ best q (prio_array_find_top pa).
Proof.
  intros H Hhi. destruct (find_top_spec pa (pa_words _ _ H)) as [[Ht Hb]|(Ht & Hb & Hl)].
  - left. split; [done|]. intros p Hp. specialize (Hb p Hp). rewrite (pa_bits _ _ H) in Hb by done.
    by apply bool_decide_eq_false, dec_stable in Hb.
  - right. rewrite (pa_bits _ _ H) in Hb by done. apply bool_decide_eq_true in Hb. split; [|split; [done|]].
    + split; [done|]. destruct (Z.lt_ge_cases (prio_array_find_top pa) 140); [done|]. by rewrite Hhi in Hb.
    + intros p Hp. specialize (Hl p Hp). rewrite (pa_bits _ _ H) in Hl by lia.
      by apply bool_decide_eq_false, dec_stable in Hl.
Qed.

(** ** What the queue operations leave alone

    [view a D st0 st N P A B] describes a state on the way from [st0]: only
    the links and arrays of threads in [D] and the array [a] have changed, the
    links are [N] and [P] now, the array pointers [A], the array is [B]. *)
Definition aof (st : sst) (t : Z) : option (option array_id) := t_array <$> thr st !! t.
Definition core (th : thread) : thread := set_next 0 (set_prev 0 (set_array None th)).
Definition rq_rest (r : runqueue) : runqueue := set_arr0 empty_array (set_arr1 empty_array r).

Record framed (st st' : sst) : Prop := {
  fr_rest : rq_rest <$> rqs st' = rq_rest <$> rqs st;
  fr_cpus : cpus st' = cpus st;
  fr_hw : hw st' = hw st;
  fr_ctr : rebalance_ctr st' = rebalance_ctr st;
  fr_ipis : ipis st' = ipis st;
  fr_core y : core <$> thr st' !! y = core <$> thr st !! y;
}.

Record view (a : array_id) (D : list Z) (st0 st : sst) (N P : Z -> option Z) (A : Z -> option (option array_id))
    (B : prio_array) : Prop := {
  vw_fr : framed st0 st;
  vw_arrs a' : a' <> a -> arrs st a' = arrs st0 a';
  vw_out y : y ∉ D -> thr st !! y = thr st0 !! y;
  vw_n z : nxt st z = N z;
  vw_p z : prv st z = P z;
  vw_a z : aof st z = A z;
  vw_b : arrs st a = Some B;
}.

Definition at_ {B} (f : Z -> option B) (y : Z) (v : B) : Z -> option B := fun z => if decide (z = y) then Some v else f z.

Lemma framed_refl st : framed st st.
Proof. by split. Qed.

Lemma framed_trans st st1 st2 : framed st st1 -> framed st1 st2 -> framed st st2.
Proof. intros [] []. split; congruence. Qed.

Lemma framed_dom st st' y : framed st st' -> is_Some (thr st !! y) -> is_Some (thr st' !! y).
Proof. intros H [x Hx]. pose proof (fr_core _ _ H y) as E. rewrite Hx in E. destruct (thr st' !! y); [done|by simpl in E]. Qed.

Lemma framed_length st st' : framed st st' -> length (rqs st') = length (rqs st).
Proof. intros H. rewrite <- (length_fmap rq_rest (rqs st)), <- (fr_rest _ _ H). by rewrite length_fmap. Qed.

Lemma view_refl a D st B : arrs st a = Some B -> view a D st st (nxt st) (prv st) (aof st) B.
Proof. intros HB. split; [apply framed_refl|done..]. Qed.

Section view.
Context (a : array_id) (D : list Z) (st0 : sst).

Lemma view_upd st N P A B y f N' P' A' :
  view a D st0 st N P A B -> is_Some (thr st0 !! y) -> y ∈ D -> (forall th, core (f th) = core th) ->
  (forall th z, N z = Some (t_next th) -> z = y -> N' z = Some (t_next (f th))) -> (forall z, z <> y -> N' z = N z) ->
  (forall th z, P z = Some (t_prev th) -> z = y -> P' z = Some (t_prev (f th))) -> (forall z, z <> y -> P' z = P z) ->
  (forall th z, A z = Some (t_array th) -> z = y -> A' z = Some (t_array (f th))) -> (forall z, z <> y -> A' z = A z) ->
  returns (upd y f st) (fun st' => view a D st0 st' N' P' A' B).
Proof.
  intros [Hf Ha Ho Hn Hp Haa Hb] Hy HyD Hcore HN HN' HP HP' HA HA'.
  destruct (framed_dom _ _ y Hf Hy) as [th Hth]. unfold upd, ld. rewrite Hth. ret.
  pose proof (Hn y) as En. pose proof (Hp y) as Ep. pose proof (Haa y) as Ea.
  unfold nxt, prv, aof in En, Ep, Ea. rewrite Hth in En, Ep, Ea. simpl in En, Ep, Ea.
  split; try done.
  - destruct Hf. split; try done. intros z. simpl. destruct (decide (z = y)) as [->|].
    + rewrite lookup_insert_eq. simpl. rewrite Hcore. rewrite <- fr_core0, Hth. done.
    + rewrite lookup_insert_ne by done. apply fr_core0.
  - intros z Hz. simpl. rewrite lookup_insert_ne; [by apply Ho|]. intros ->. done.
  - intros z. unfold nxt. simpl. destruct (decide (z = y)) as [->|].
    + rewrite lookup_insert_eq. simpl. symmetry. by apply HN.
    + rewrite lookup_insert_ne by done. rewrite HN' by done. apply Hn.
  - intros z. unfold prv. simpl. destruct (decide (z = y)) as [->|].
    + rewrite lookup_insert_eq. simpl. symmetry. by apply HP.
    + rewrite lookup_insert_ne by done. rewrite HP' by done. apply Hp.
  - intros z. unfold aof. simpl. destruct (decide (z = y)) as [->|].
    + rewrite lookup_insert_eq. simpl. symmetry. by apply HA.
    + rewrite lookup_insert_ne by done. rewrite HA' by done. apply Haa.
Qed.

Lemma view_next st N P A B y v : view a D st0 st N P A B -> is_Some (thr st0 !! y) -> y ∈ D ->
  returns (upd y (set_next v) st) (fun st' => view a D st0 st' (at_ N y v) P A B).
Proof.
  intros Hv Hy HD. eapply view_upd; try done; unfold at_.
  - intros th z _ ->. by rewrite decide_True.
  - intros z Hz. by rewrite decide_False.
Qed.

Lemma view_prev st N P A B y v : view a D st0 st N P A B -> is_Some (thr st0 !! y) -> y ∈ D ->
  returns (upd y (set_prev v) st) (fun st' => view a D st0 st' N (at_ P y v) A B).
Proof.
  intros Hv Hy HD. eapply view_upd; try done; unfold at_.
  - intros th z _ ->. by rewrite decide_True.
  - intros z Hz. by rewrite decide_False.
Qed.

Lemma view_array st N P A B y v : view a D st0 st N P A B -> is_Some (thr st0 !! y) -> y ∈ D ->
  returns (upd y (set_array v) st) (fun st' => view a D st0 st' N P (at_ A y v) B).
Proof.
  intros Hv Hy HD. eapply view_upd; try done; unfold at_.
  - intros th z _ ->. by rewrite decide_True.
  - intros z Hz. by rewrite decide_False.
Qed.

Lemma arr_set_arr i j q r : arr (set_arr i q r) j = if decide (i = j) then q else arr r j.
Proof. by destruct i, j. Qed.

Lemma rq_rest_set_arr i q r : rq_rest (set_arr i q r) = rq_rest r.
Proof. by destruct i. Qed.

Lemma view_arr st N P A B f B' : view a D st0 st N P A B -> f B = Ret B' ->
  returns (upd_arr a f st) (fun st' => view a D st0 st' N P A B').
Proof.
  intros [Hf Ha Ho Hn Hp Haa Hb] HfB. unfold upd_arr, ld_arr, upd_rq, ld_rq. unfold arrs in Hb.
  destruct (getz (rqs st) a.1) as [r|] eqn:Hr; [|done]. simpl in Hb. injection Hb as Hb.
  pose proof (getz_Some_lt _ _ _ Hr) as Hlt.
  rewrite (rd_getz _ _ _ Hr). ret. rewrite Hb, HfB. ret. rewrite wr_ok by done. ret. split; try done.
  - destruct Hf. split; try done. simpl. rewrite list_fmap_insert, rq_rest_set_arr.
    rewrite list_insert_id; [done|]. apply getz_Some in Hr as [_ Hr]. by rewrite list_lookup_fmap, Hr.
  - intros a' Ha'. rewrite <- Ha by done. unfold arrs. simpl. destruct (decide (a'.1 = a.1)) as [E|E].
    + rewrite E, getz_insert_eq, Hr by done. simpl. rewrite arr_set_arr, decide_False; [done|].
      intros E'. apply Ha'. destruct a, a'. simpl in *. by subst.
    + by rewrite getz_insert_ne by lia.
  - unfold arrs. simpl. rewrite getz_insert_eq by done. simpl. by rewrite arr_set_arr, decide_True.
Qed.

Lemma view_ld st N P A B y : view a D st0 st N P A B -> is_Some (thr st0 !! y) ->
  exists th, ld y st = Ret th /\ N y = Some (t_next th) /\ P y = Some (t_prev th).
Proof.
  intros [Hf _ _ Hn Hp _ _] Hy. destruct (framed_dom _ _ y Hf Hy) as [th Hth]. exists th. unfold ld. rewrite Hth.
  split; [done|]. rewrite <- Hn, <- Hp. unfold nxt, prv. by rewrite Hth.
Qed.

Lemma view_ld_arr st N P A B : view a D st0 st N P A B -> ld_arr a st = Ret B.
Proof.
  intros [_ _ _ _ _ _ Hb]. unfold ld_arr, ld_rq, rd. unfold arrs in Hb.
  destruct (getz (rqs st) a.1); [|done]. simpl in *. by injection Hb as ->.
Qed.
End view.

Lemma core_fields th th' : core th' = core th ->
  t_tid th' = t_tid th /\ t_state th' = t_state th /\ t_rsp th' = t_rsp th /\ t_ktop th' = t_ktop th /\
  t_dir th' = t_dir th /\ t_static th' = t_static th /\ t_prio th' = t_prio th /\ t_avg th' = t_avg th /\
  t_slice th' = t_slice th /\ t_rq th' = t_rq th /\ t_until th' = t_until th /\ t_tls th' = t_tls th /\ t_fpu th' = t_fpu th.
Proof. intros H. split_and!; match goal with |- ?f _ = _ => exact (f_equal f H) end. Qed.

Lemma framed_back st st' y th' : framed st st' -> thr st' !! y = Some th' ->
  exists th, thr st !! y = Some th /\ core th' = core th.
Proof.
  intros H Hy. pose proof (fr_core _ _ H y) as E. rewrite Hy in E. destruct (thr st !! y) as [th|]; [|by simpl in E].
  exists th. simpl in E. split; [done|congruence].
Qed.

Lemma framed_forth st st' y th : framed st st' -> thr st !! y = Some th ->
  exists th', thr st' !! y = Some th' /\ core th' = core th.
Proof.
  intros H Hy. pose proof (fr_core _ _ H y) as E. rewrite Hy in E. destruct (thr st' !! y) as [th'|]; [|by simpl in E].
  exists th'. simpl in E. split; [done|congruence].
Qed.

Lemma framed_size st st' : framed st st' -> size (thr st') = size (thr st).
Proof.
  intros H. rewrite <- (map_size_fmap core (thr st)), <- (map_size_fmap core (thr st')). f_equal.
  apply map_eq. intros y. rewrite !lookup_fmap. apply (fr_core _ _ H).
Qed.

Lemma framed_rq st st' c r' : framed st st' -> getz (rqs st') c = Some r' ->
  exists r, getz (rqs st) c = Some r /\ rq_rest r' = rq_rest r.
Proof.
  intros H Hr. pose proof (fr_rest _ _ H) as E. apply getz_Some in Hr as [H0 Hr].
  assert ((rq_rest <$> rqs st) !! Z.to_nat c = Some (rq_rest r')) as Hl by (by rewrite <- E, list_lookup_fmap, Hr).
  rewrite list_lookup_fmap in Hl. destruct (rqs st !! Z.to_nat c) as [r|] eqn:E'; [|done]. simpl in Hl.
  exists r. split; [by apply getz_Some|congruence].
Qed.

Lemma cring_frame st st' l : (forall y, y ∈ l -> thr st' !! y = thr st !! y) -> cring st l -> cring st' l.
Proof.
  destruct l as [|h tl]; [done|]. intros Hy. apply dll_frame. intros y Hin. unfold nxt, prv.
  rewrite Hy; [done|]. destruct Hin; set_solver.
Qed.

Lemma rep_disjoint st Q a p a' p' y : rep st Q -> y ∈ Q a p -> y ∈ Q a' p' -> a' = a /\ p' = p.
Proof.
  intros H (th & Hy & Ha & Hp)%(rep_mem _ _ H) (th' & Hy' & Ha' & Hp')%(rep_mem _ _ H). split; congruence.
Qed.

Lemma qupd_eq Q a p l : qupd Q a p l a p = l.
Proof. unfold qupd, fupd. by rewrite !decide_True. Qed.

Lemma qupd_ne Q a p l a' p' : a' <> a \/ p' <> p -> qupd Q a p l a' p' = Q a' p'.
Proof.
  unfold qupd, fupd. intros H. destruct (decide (a' = a)) as [->|]; [|done].
  rewrite decide_False; [done|naive_solver].
Qed.

Section rep_view.
Context (st0 st : sst) (Q : rings) (a : array_id) (p : Z) (l : list Z) (t : Z) (x : option array_id) (th : thread).
Context (N P : Z -> option Z) (A : Z -> option (option array_id)) (B : prio_array).
Hypothesis Hrep : rep st0 Q.
Hypothesis Hth : thr st0 !! t = Some th.
Hypothesis Hp : t_prio th = p.
Hypothesis Hold : t_array th = None \/ t_array th = Some a.
Hypothesis Hx : x = None \/ x = Some a /\ live th /\ is_Some (t_rq th).
Hypothesis Hv : view a (t :: Q a p) st0 st N P A B.
Hypothesis HA : forall z, A z = at_ (aof st0) t x z.
Hypothesis Hl : forall y, y ∈ l <-> (y ∈ Q a p /\ y <> t) \/ (y = t /\ x = Some a).
Hypothesis Hring : match l with [] => True | h :: tl => dll h N P tl end.
Hypothesis Hpa : pa_ok B (fupd (Q a) p l).

Let Hfr := vw_fr _ _ _ _ _ _ _ _ Hv.

Lemma rv_outside a' p' y : a' <> a \/ p' <> p -> y ∈ Q a' p' -> y ∉ t :: Q a p.
Proof.
  intros Hne Hy. apply not_elem_of_cons. split.
  - intros ->. apply (rep_mem _ _ Hrep) in Hy as (th' & Ht & Ha & Hp'). rewrite Hth in Ht. injection Ht as <-.
    destruct Hold as [E|E]; rewrite E in Ha; [done|]. injection Ha as ->. subst. naive_solver.
  - intros Hy'. destruct (rep_disjoint _ _ _ _ _ _ _ Hrep Hy' Hy) as [-> ->]. naive_solver.
Qed.

Lemma rv_array y th' : thr st !! y = Some th' -> Some (t_array th') = at_ (aof st0) t x y.
Proof. intros Hy. rewrite <- HA, <- (vw_a _ _ _ _ _ _ _ _ Hv). unfold aof. by rewrite Hy. Qed.

Lemma rv_mem a' p' y : y ∈ qupd Q a p l a' p' <->
  exists th', thr st !! y = Some th' /\ t_array th' = Some a' /\ t_prio th' = p'.
Proof.
  assert ((exists th', thr st !! y = Some th' /\ t_array th' = Some a' /\ t_prio th' = p') <->
    (y <> t /\ y ∈ Q a' p') \/ (y = t /\ x = Some a' /\ p' = p)) as ->.
  { rewrite (rep_mem _ _ Hrep). split.
    - intros (th' & Hy & Ha & Hp'). destruct (framed_back _ _ _ _ Hfr Hy) as (th0 & Hy0 & Hc).
      pose proof (rv_array _ _ Hy) as E. unfold at_, aof in E. apply core_fields in Hc as (_ & _ & _ & _ & _ & _ & Hc & _).
      destruct (decide (y = t)) as [->|].
      + right. rewrite Hth in Hy0. injection Hy0 as <-. split; [done|]. split; congruence.
      + left. split; [done|]. exists th0. rewrite Hy0 in E. simpl in E. split; [done|]. split; congruence.
    - intros [(Hne & th0 & Hy0 & Ha & Hp')|(-> & Hxa & Hpp)].
      + destruct (framed_forth _ _ _ _ Hfr Hy0) as (th' & Hy & Hc). exists th'. split; [done|].
        pose proof (rv_array _ _ Hy) as E. unfold at_, aof in E. rewrite decide_False, Hy0 in E by done. simpl in E.
        apply core_fields in Hc as (_ & _ & _ & _ & _ & _ & Hc & _). split; congruence.
      + destruct (framed_forth _ _ _ _ Hfr Hth) as (th' & Hy & Hc). exists th'. split; [done|].
        pose proof (rv_array _ _ Hy) as E. unfold at_ in E. rewrite decide_True in E by done.
        apply core_fields in Hc as (_ & _ & _ & _ & _ & _ & Hc & _). split; congruence. }
  destruct (decide (a' = a /\ p' = p)) as [[-> ->]|Hne].
  - rewrite qupd_eq, Hl. naive_solver.
  - rewrite qupd_ne by (destruct (decide (a' = a)); naive_solver). split.
    + intros Hy. left. split; [|done]. intros ->. eapply (rv_outside a' p'); [|done|by left].
      destruct (decide (a' = a)); naive_solver.
    + intros [[_ Hy]|(-> & Hxa & ->)]; [done|]. destruct Hne. split; [|done]. destruct Hx as [E|[E _]]; congruence.
Qed.

Lemma rv_thr y th' : thr st !! y = Some th' -> thread_ok (length (rqs st)) y th'.
Proof.
  intros Hy. destruct (framed_back _ _ _ _ Hfr Hy) as (th0 & Hy0 & Hc). rewrite (framed_length _ _ Hfr).
  pose proof (rv_array _ _ Hy) as E. unfold at_, aof in E.
  apply core_fields in Hc as (_ & Hs & _ & _ & _ & Hst & Hpr & Hav & Hsl & Hrq & _).
  destruct (rep_thr _ _ Hrep _ _ Hy0) as [T1 T2 T3 T4 T5 T6 T7 T8]. unfold live in *.
  assert (is_Some (t_array th') -> live th0 /\ is_Some (t_rq th0)) as Hlv.
  { destruct (decide (y = t)) as [->|].
    - rewrite Hth in Hy0. injection Hy0 as <-. injection E as ->. intros [b Hb]. destruct Hx as [E|(_ & ? & ?)]; [congruence|done].
    - rewrite Hy0 in E. simpl in E. injection E as ->. intros Ha. split; [by apply T6|]. apply T7. by left. }
  split; rewrite ?Hst, ?Hpr, ?Hav, ?Hsl, ?Hrq; try done.
  - intros Ha. unfold live. rewrite Hs. by apply Hlv.
  - rewrite Hs. intros [Ha|Hb]; [by apply Hlv|]. apply T7. by right.
Qed.

Lemma rv_rq c r : getz (rqs st) c = Some r -> rq_ok st r.
Proof.
  intros Hr. destruct (framed_rq _ _ _ _ Hfr Hr) as (r0 & Hr0 & [= E0 E1 E2 E4 E5 E6 E7 E8]).
  destruct (rep_rq _ _ Hrep _ _ Hr0) as [R0 R1 R2 R3 R4 R5 R6]. split.
  - congruence.
  - congruence.
  - rewrite E5. destruct R2 as (ti & Hi & Htid & Hta & Htr). destruct (framed_forth _ _ _ _ Hfr Hi) as (ti' & Hi' & Hc).
    exists ti'. pose proof (rv_array _ _ Hi') as E. unfold at_, aof in E.
    apply core_fields in Hc as (Hc1 & _ & _ & _ & _ & _ & _ & _ & _ & Hc2 & _).
    split; [done|]. split; [congruence|]. split; [|congruence]. destruct (decide (idle r0 = t)) as [Et|].
    + rewrite Et, Hth in Hi. injection Hi as <-. destruct Hx as [Ex|(_ & _ & Hrq)]; [congruence|]. rewrite Htr in Hrq. by destruct Hrq.
    + rewrite Hi in E. simpl in E. congruence.
  - rewrite E4, E5. destruct R3 as [R3|[R3|(tc & Hc & Hs)]]; [by left|by right; left|]. right; right.
    destruct (framed_forth _ _ _ _ Hfr Hc) as (tc' & Hc' & Hcore). exists tc'. split; [done|].
    apply core_fields in Hcore as (_ & _ & _ & _ & _ & _ & _ & _ & _ & -> & _). done.
  - by rewrite E7.
  - by rewrite E8.
  - rewrite E7, E8. intros i Hi. destruct (R6 i Hi) as (s & Hs & Hd). exists s. split; [done|]. by apply (framed_dom st0).
Qed.

Lemma rep_view : rep st (qupd Q a p l).
Proof.
  assert (forall y th', thr st !! y = Some th' -> forall a', t_array th' = Some a' -> 0 <= a'.1 < Z.of_nat (length (rqs st))) as Hw.
  { intros y th' Hy a' Ha. rewrite (framed_length _ _ Hfr). pose proof (rv_array _ _ Hy) as E. unfold at_, aof in E.
    destruct (decide (y = t)) as [->|].
    - destruct Hx as [Ex|(Ex & _)]; [congruence|]. replace a' with a by congruence.
      pose proof (vw_b _ _ _ _ _ _ _ _ Hv) as Hb. unfold arrs in Hb. destruct (getz (rqs st) a.1) eqn:Eg; [|done].
      apply getz_Some_lt in Eg. by rewrite (framed_length _ _ Hfr) in Eg.
    - destruct (framed_back _ _ _ _ Hfr Hy) as (th0 & Hy0 & _). rewrite Hy0 in E. simpl in E.
      eapply (rep_where _ _ Hrep); [exact Hy0|congruence]. }
  split.
  - intros a' pa Ha'. destruct (decide (a' = a)) as [->|Hne].
    + rewrite (vw_b _ _ _ _ _ _ _ _ Hv) in Ha'. injection Ha' as <-. unfold qupd. by rewrite decide_True.
    + rewrite (vw_arrs _ _ _ _ _ _ _ _ Hv) in Ha' by done. unfold qupd. rewrite decide_False by done.
      by apply (rep_arr _ _ Hrep).
  - intros a' p'. destruct (decide (a' = a /\ p' = p)) as [[-> ->]|Hne].
    + rewrite qupd_eq. destruct l as [|h tl]; [done|]. eapply dll_frame, Hring. intros y _.
      by rewrite (vw_n _ _ _ _ _ _ _ _ Hv), (vw_p _ _ _ _ _ _ _ _ Hv).
    + assert (a' <> a \/ p' <> p) as Hne' by (destruct (decide (a' = a)); naive_solver). rewrite qupd_ne by done.
      eapply cring_frame, (rep_ring _ _ Hrep). intros y Hy. apply (vw_out _ _ _ _ _ _ _ _ Hv). by apply (rv_outside a' p').
  - apply rv_mem.
  - apply rv_thr.
  - intros y th' a' Hy Ha. by apply (Hw y th').
  - apply rv_rq.
  - intros me c Hc. rewrite (framed_length _ _ Hfr). apply (rep_cpus _ _ Hrep me). unfold rq_current in *.
    by rewrite <- (fr_cpus _ _ Hfr).
  - rewrite (framed_length _ _ Hfr). apply (rep_some _ _ Hrep).
  - rewrite (fr_hw _ _ Hfr), (fr_cpus _ _ Hfr). apply (rep_hw _ _ Hrep).
  - rewrite (fr_ctr _ _ Hfr). apply (rep_ctr _ _ Hrep).
  - rewrite (fr_cpus _ _ Hfr). apply (rep_ncpus _ _ Hrep).
  - rewrite (framed_size _ _ Hfr). apply (rep_size _ _ Hrep).
Qed.
End rep_view.

(** ** Enqueue and dequeue *)
Lemma rep_null st Q a p : rep st Q -> 0 ∉ Q a p.
Proof. intros H (th & H0 & _)%(rep_mem _ _ H). by destruct (rep_thr _ _ H _ _ H0). Qed.

Lemma rep_dom st Q a p y : rep st Q -> y ∈ Q a p -> is_Some (thr st !! y).
Proof. intros H (th & Hy & _)%(rep_mem _ _ H). by exists th. Qed.

Lemma rep_nodup st Q a p : rep st Q -> NoDup (Q a p).
Proof. intros H. pose proof (rep_ring _ _ H a p) as Hr. destruct (Q a p); [constructor|]. by destruct Hr. Qed.

Lemma rep_range st Q a p : rep st Q -> Q a p <> [] -> 100 <= p <= 139.
Proof.
  intros H Hne. destruct (Q a p) as [|y l] eqn:E; [done|]. assert (y ∈ Q a p) as (th & Hy & _ & <-)%(rep_mem _ _ H).
  { rewrite E. by left. }
  apply (rep_thr _ _ H _ _ Hy).
Qed.

Lemma rep_high st Q a p : rep st Q -> ~ 100 <= p <= 139 -> Q a p = [].
Proof. intros H Hp. destruct (decide (Q a p = [])) as [|Hne]; [done|]. by destruct Hp; apply (rep_range _ _ _ _ H Hne). Qed.

Lemma queued_range st Q a : rep st Q -> 0 <= count (Q a) <= Z.of_nat (size (thr st)).
Proof.
  intros H. rewrite count_length. split; [lia|]. apply inj_le. apply nodup_size.
  - apply NoDup_bind; [|intros p _; by apply (rep_nodup st)|apply NoDup_seqZ].
    intros p1 p2 y _ _ H1 H2. by destruct (rep_disjoint _ _ _ _ _ _ _ H H1 H2).
  - intros y Hy. apply list_elem_of_bind in Hy as (p & Hy & _). by apply (rep_dom st Q a p).
Qed.

Lemma count_room st Q a t th : rep st Q -> thr st !! t = Some th -> t_array th = None -> count (Q a) < Z.of_nat (size (thr st)).
Proof.
  intros H Ht Ha. rewrite count_length.
  enough (length (t :: (seqZ 0 140 ≫= Q a)) <= size (thr st))%nat by (simpl in *; lia). apply nodup_size.
  - apply NoDup_cons. split.
    + intros (p & Hy & _)%list_elem_of_bind. apply (rep_mem _ _ H) in Hy as (th' & Ht' & Ha' & _). congruence.
    + apply NoDup_bind; [|intros p _; by apply (rep_nodup st)|apply NoDup_seqZ].
      intros p1 p2 y _ _ H1 H2. by destruct (rep_disjoint _ _ _ _ _ _ _ H H1 H2).
  - intros y [->|(p & Hy & _)%list_elem_of_bind]%elem_of_cons; [by exists th|]. by apply (rep_dom st Q a p).
Qed.

Lemma rep_array st Q a : rep st Q -> 0 <= a.1 < Z.of_nat (length (rqs st)) -> exists B, arrs st a = Some B /\ pa_ok B (Q a).
Proof.
  intros H Ha. destruct (getz_lt (rqs st) a.1 Ha) as [r Hr]. exists (arr r a.2).
  assert (arrs st a = Some (arr r a.2)) as E by (unfold arrs; by rewrite Hr). split; [done|]. by apply (rep_arr _ _ H).
Qed.

Lemma put_queue_ok pa q p t : pa_ok pa q -> 0 <= p < 140 -> put_queue p t pa = Ret (set_queue (<[Z.to_nat p := t]> (queue pa)) pa).
Proof. intros H Hp. unfold put_queue. rewrite wr_ok; [done|]. rewrite (pa_qlen _ _ H). lia. Qed.

Lemma mark_ok pa : bm_size 32 (bitmap pa) = 160 -> forall p, 0 <= p < 140 ->
  exists bm, mark p pa = Ret (set_bitmap bm pa) /\ bm_upd 32 (bitmap pa) p true bm.
Proof.
  intros H p Hp. unfold mark. destruct (returns_inv _ _ (bm_set_spec 32 ltac:(lia) (bitmap pa) p ltac:(lia))) as (bm & -> & Hb).
  by exists bm.
Qed.

Lemma unmark_ok pa : bm_size 32 (bitmap pa) = 160 -> forall p, 0 <= p < 140 ->
  exists bm, unmark p pa = Ret (set_bitmap bm pa) /\ bm_upd 32 (bitmap pa) p false bm.
Proof.
  intros H p Hp. unfold unmark. destruct (returns_inv _ _ (bm_clear_spec 32 ltac:(lia) (bitmap pa) p ltac:(lia))) as (bm & -> & Hb).
  by exists bm.
Qed.

Lemma add_nr_ok d pa : - 2 ^ 31 <= nr_active pa + d < 2 ^ 31 -> add_nr d pa = Ret (set_nr (nr_active pa + d) pa).
Proof. intros H. unfold add_nr. by zcmp. Qed.

(** What an operation on the queues does to the thread [t]. *)
Definition moved (st st' : sst) (t : Z) (x : option array_id) : Prop :=
  framed st st' /\ forall z, aof st' z = at_ (aof st) t x z.

(** One step of a queue operation. *)
Ltac vstep lem H H' := eapply returns_bind; [eapply lem; [exact H|..]|intros ? H']; cbv beta.

Lemma enqueue_empty a D st st0 N P A B q p t :
  view a D st0 st N P A B -> pa_ok B q -> 0 <= p < 140 -> is_Some (thr st0 !! t) -> t ∈ D ->
  exists bm, bm_upd 32 (bitmap B) p true bm /\
  returns (enqueue_link a t p 0 st)
    (fun st' => view a D st0 st' (at_ N t t) (at_ P t t) A (PrioArray (nr_active B) (<[Z.to_nat p := t]> (queue B)) bm)).
Proof.
  intros Hv Hpa Hp Ht HD. set (B1 := set_queue (<[Z.to_nat p := t]> (queue B)) B).
  destruct (mark_ok B1 (pa_bm_size _ _ Hpa) p Hp) as (bm & Hm & Hbm). exists bm. split; [exact Hbm|].
  unfold enqueue_link. cbn [negb Z.eqb]. vstep view_arr Hv H1; [by apply (put_queue_ok _ _ _ _ Hpa)|].
  vstep view_next H1 H2; [done|done|]. vstep view_prev H2 H3; [done|done|]. eapply view_arr; [exact H3|exact Hm].
Qed.

Lemma enqueue_tail a D st st0 N P A B p t h tail :
  view a D st0 st N P A B -> h <> 0 -> P h = Some tail -> (forall y, y ∈ [t; h; tail] -> y ∈ D /\ is_Some (thr st0 !! y)) ->
  returns (enqueue_link a t p h st)
    (fun st' => view a D st0 st' (at_ (at_ N t h) tail t) (at_ (at_ P t tail) h t) A B).
Proof.
  intros Hv Hh0 HP HD. destruct (HD t) as [Ht1 Ht2]; [set_solver|]. destruct (HD h) as [Hh1 Hh2]; [set_solver|].
  destruct (HD tail) as [Hl1 Hl2]; [set_solver|]. unfold enqueue_link. zcmp.
  destruct (view_ld _ _ _ _ _ _ _ _ h Hv Hh2) as (th & -> & _ & E). rewrite HP in E. injection E as E. ret. cbn zeta. rewrite <- E.
  vstep view_next Hv H1; [done|done|]. vstep view_prev H1 H2; [done|done|].
  vstep view_next H2 H3; [done|done|]. by eapply view_prev; [exact H3|..].
Qed.

Definition ring_of (N P : Z -> option Z) (l : list Z) : Prop :=
  match l with [] => True | h :: tl => dll h N P tl end.

Lemma at_eq {B} (f : Z -> option B) y v : at_ f y v y = Some v.
Proof. unfold at_. by rewrite decide_True. Qed.

Lemma at_ne {B} (f : Z -> option B) y v z : z <> y -> at_ f y v z = f z.
Proof. intros. unfold at_. by rewrite decide_False. Qed.

(** The two cases of [enqueue_link] put the thread last in its ring. *)
Lemma enqueue_link_spec st Q a t p B :
  rep st Q -> is_Some (thr st !! t) -> t <> 0 -> t ∉ Q a p -> 0 <= p < 140 -> arrs st a = Some B -> pa_ok B (Q a) ->
  exists N P qu bm, returns (enqueue_link a t p (after (Q a p)) st)
    (fun st' => view a (t :: Q a p) st st' N P (aof st) (PrioArray (nr_active B) qu bm)) /\
    ring_of N P (Q a p ++ [t]) /\ qu = <[Z.to_nat p := after (Q a p ++ [t])]> (queue B) /\ bm_upd 32 (bitmap B) p true bm.
Proof.
  intros H Hts Ht0 Htq Hp HB Hpa. pose proof (view_refl a (t :: Q a p) st B HB) as Hv.
  pose proof (rep_ring _ _ H a p) as Hring. pose proof (pa_heads _ _ Hpa p Hp) as Hh. pose proof (pa_bits _ _ Hpa p ltac:(lia)) as Hb.
  pose proof (rep_null _ _ a p H) as H0. assert (forall y, y ∈ Q a p -> is_Some (thr st !! y)) as Hd
    by (intros y; apply (rep_dom _ _ _ _ _ H)).
  destruct (Q a p) as [|h tl] eqn:EQ.
  - destruct (enqueue_empty _ _ _ _ _ _ _ _ _ p t Hv Hpa Hp Hts) as (bm & Hbm & Hr); [by left|].
    eexists _, _, _, bm. split; [exact Hr|]. split; [|done]. simpl. split; [apply NoDup_singleton|]. simpl.
    rewrite !at_eq. split; (split; [done|by exists t]).
  - destruct (dll_first _ _ _ Hring) as [_ Hpv]. assert (before_of h tl ∈ h :: tl) as Hbt
      by (destruct (before_in (z := h) tl) as [->|]; [by left|by right]).
    assert (h <> t /\ before_of h tl <> t /\ t ∉ tl) as (Hht & Hbt' & Httl) by (split; [set_solver|split; [|set_solver]]; intros E; by rewrite E in Hbt).
    exists (at_ (at_ (nxt st) t h) (before_of h tl) t), (at_ (at_ (prv st) t (before_of h tl)) h t), (queue B), (bitmap B).
    split; [|split; [|split]].
    + change (after (h :: tl)) with h. replace (PrioArray _ _ _) with B by (by destruct B).
      apply (enqueue_tail _ _ _ _ _ _ _ _ p t h _ Hv); [set_solver|done|].
      intros y Hy. repeat (apply elem_of_cons in Hy as [->|Hy]; [split; [set_solver|set_solver]|]). by apply not_elem_of_nil in Hy.
    + apply (dll_push_back (nxt st) (prv st)); try done; rewrite ?at_eq; try done.
      * by rewrite at_ne, at_eq.
      * by rewrite at_ne, at_eq.
      * intros y Hy1 Hy2. by rewrite !at_ne.
      * intros y Hy1 Hy2. by rewrite !at_ne.
    + symmetry. apply list_insert_id. simpl in Hh |- *. by apply getz_Some in Hh as [_ Hh].
    + apply bm_upd_id. rewrite Hb. by apply bool_decide_eq_true.
Qed.

Lemma prio_enqueue_spec st Q a t th p :
  rep st Q -> thr st !! t = Some th -> t_array th = None -> live th -> is_Some (t_rq th) -> t_prio th = p ->
  0 <= a.1 < Z.of_nat (length (rqs st)) ->
  returns (prio_array_enqueue (Some a) t p st) (fun st' =>
    rep st' (qupd Q a p (Q a p ++ [t])) /\ moved st st' t (Some a)).
Proof.
  intros H Ht Hta Hlv Hrq Hp Ha. destruct (rep_array _ _ _ H Ha) as (B & HB & Hpa).
  pose proof (th_prio _ _ _ (rep_thr _ _ H _ _ Ht)) as Hpr. pose proof (th_null _ _ _ (rep_thr _ _ H _ _ Ht)) as Ht0.
  pose proof (count_room st Q a t th H Ht Hta) as Hroom. pose proof (queued_range st Q a H) as Hcr. pose proof (rep_size _ _ H) as Hsz.
  assert (t ∉ Q a p) as Htq by (intros (th' & Ht' & Ha' & _)%(rep_mem _ _ H); congruence).
  assert (is_Some (thr st !! t)) as Hts by (by exists th).
  unfold prio_array_enqueue. ret. rewrite (view_ld_arr _ _ _ _ _ _ _ _ (view_refl a [] st B HB)). ret.
  rewrite (rd_getz _ _ _ (pa_heads _ _ Hpa p ltac:(lia))). ret.
  destruct (enqueue_link_spec st Q a t p B) as (N & P & qu & bm & Hb & Hring & Hqu & Hbm); try done; [lia|].
  eapply returns_bind; [exact Hb|]. intros st1 H1. vstep view_array H1 H2; [done|by left|].
  eapply returns_mono.
  { eapply view_arr; [exact H2|]. apply add_nr_ok. simpl. rewrite (pa_nr _ _ Hpa). lia. }
  intros st2 H3. split.
  - eapply (rep_view st st2 Q a p _ t (Some a) th _ _ _ _ H Ht Hp); [by left|by right|exact H3|done| |exact Hring|].
    + intros y. rewrite elem_of_app, list_elem_of_singleton. destruct (decide (y = t)) as [->|]; naive_solver.
    + eapply pa_change; [exact Hpa|lia|exact Hqu| |simpl; rewrite length_app; simpl; lia].
      rewrite bool_decide_eq_true_2; [done|]. by destruct (Q a p).
  - split; [apply H3|]. apply H3.
Qed.

Lemma ring_of_nodup N P l : ring_of N P l -> NoDup l.
Proof. destruct l; [constructor|]. by intros [? _]. Qed.

(** Taking a thread out of a ring it shares with others. *)
Lemma ring_of_unlink N P l1 t l2 : ring_of N P (l1 ++ t :: l2) -> l1 ++ l2 <> [] ->
  exists b n, N t = Some n /\ P t = Some b /\ b <> t /\ n <> t /\ b ∈ l1 ++ l2 /\ n ∈ l1 ++ l2 /\
    ring_of (at_ N b n) (at_ P n b) (l1 ++ l2) /\ (l1 = [] -> n = after l2).
Proof.
  intros H Hne. assert (exists z k1 k2, dll z N P (k1 ++ t :: k2) /\ z <> t /\
    (forall y, y ∈ z :: k1 ++ k2 <-> y ∈ l1 ++ l2) /\ (l1 = [] -> k2 = [] /\ z = after l2) /\
    (forall N' P', dll z N' P' (k1 ++ k2) -> ring_of N' P' (l1 ++ l2))) as (z & k1 & k2 & Hr & Hz & Hin & Hl1 & Hback).
  { destruct l1 as [|h l1]; simpl in *.
    - destruct l2 as [|y l2]; [done|]. exists y, l2, []. split; [by apply dll_rotate|].
      destruct H as ([Hd _]%NoDup_cons & _). split; [set_solver|]. rewrite app_nil_r. done.
    - exists h, l1, l2. split; [done|]. destruct H as ([Hd _]%NoDup_cons & _). split; [set_solver|]. done. }
  assert (t ∉ z :: k1 ++ k2) as Ht.
  { destruct Hr as (Hnd & _). rewrite <- Permutation_middle, perm_swap in Hnd. by apply NoDup_cons in Hnd as [? _]. }
  assert (before_of z k1 ∈ z :: k1 ++ k2) as Hb by (destruct (before_in (z := z) k1) as [->|]; set_solver).
  assert (after_of z k2 ∈ z :: k1 ++ k2) as Ha by (destruct (after_in (z := z) k2) as [->|]; set_solver).
  exists (before_of z k1), (after_of z k2). split_and!.
  - by apply (dll_next _ _ k1 t k2 Hr).
  - by apply (dll_prev _ _ k1 t k2 Hr).
  - intros E. by rewrite E in Hb.
  - intros E. by rewrite E in Ha.
  - by apply Hin.
  - by apply Hin.
  - apply Hback. eapply dll_unlink; [exact Hr|..]; rewrite ?at_eq; try done; intros y Hy; by rewrite at_ne.
  - intros E. by destruct (Hl1 E) as [-> ->].
Qed.

Lemma after_app l1 t l2 : after (l1 ++ t :: l2) = t \/ l1 <> [] /\ after (l1 ++ t :: l2) = after (l1 ++ l2).
Proof. destruct l1; [by left|by right]. Qed.

Lemma dequeue_unlink_spec st Q a t p l1 l2 B :
  rep st Q -> Q a p = l1 ++ t :: l2 -> arrs st a = Some B -> pa_ok B (Q a) ->
  exists N P qu bm, returns (dequeue_unlink a t p st)
    (fun st' => view a (t :: Q a p) st st' N P (aof st) (PrioArray (nr_active B) qu bm)) /\
    ring_of N P (l1 ++ l2) /\ qu = <[Z.to_nat p := after (l1 ++ l2)]> (queue B) /\
    bm_upd 32 (bitmap B) p (bool_decide (l1 ++ l2 <> [])) bm.
Proof.
  intros H EQ HB Hpa. pose proof (view_refl a (t :: Q a p) st B HB) as Hv.
  assert (100 <= p <= 139) as Hp by (apply (rep_range _ _ a _ H); rewrite EQ; by destruct l1).
  pose proof (rep_ring _ _ H a p) as Hring. pose proof (pa_heads _ _ Hpa p ltac:(lia)) as Hh.
  pose proof (pa_bits _ _ Hpa p ltac:(lia)) as Hb. assert (forall y, y ∈ Q a p -> is_Some (thr st !! y)) as Hd
    by (intros y; apply (rep_dom _ _ _ _ _ H)).
  assert (t ∈ Q a p) as Htq by (rewrite EQ; set_solver). pose proof (rep_nodup _ _ a p H) as Hnd.
  destruct (view_ld _ _ _ _ _ _ _ _ t Hv (Hd t Htq)) as (th & Hld & Hn & Hpv). unfold dequeue_unlink. rewrite Hld. ret.
  destruct (decide (l1 ++ l2 = [])) as [E|Hne].
  - apply app_nil in E as [-> ->]. rewrite EQ in Hring. simpl in *. destruct (dll_first _ _ _ Hring) as [Hf _].
    rewrite Hf in Hn. injection Hn as Hn. change (after_of t []) with t in Hn. rewrite <- Hn. zcmp.
    destruct (unmark_ok (set_queue (<[Z.to_nat p := 0]> (queue B)) B) (pa_bm_size _ _ Hpa) p ltac:(lia)) as (bm & Hm & Hbm).
    exists (nxt st), (prv st), (<[Z.to_nat p := 0]> (queue B)), bm. split; [|done].
    vstep view_arr Hv H1; [by apply (put_queue_ok _ _ _ _ Hpa); lia|]. eapply view_arr; [exact H1|exact Hm].
  - rewrite EQ in Hring. destruct (ring_of_unlink _ _ l1 t l2 Hring Hne) as (b & n & En & Ep & Hbt & Hnt & Hbin & Hnin & Hr & Hl1).
    rewrite En in Hn. injection Hn as Hn. rewrite Ep in Hpv. injection Hpv as Hpv. rewrite <- Hn, <- Hpv. zcmp.
    assert (forall y, y ∈ l1 ++ l2 -> y ∈ Q a p) as Hsub by (intros y; rewrite EQ; set_solver).
    exists (at_ (nxt st) b n), (at_ (prv st) n b), (<[Z.to_nat p := after (l1 ++ l2)]> (queue B)), (bitmap B).
    split; [|split; [done|split; [done|]]].
    2: { apply bm_upd_id. rewrite Hb, EQ. rewrite !bool_decide_eq_true_2; [done|done|by destruct l1]. }
    vstep view_next Hv H1; [by apply Hd, Hsub|right; by apply Hsub|].
    destruct (view_ld _ _ _ _ _ _ _ _ t H1 (Hd t Htq)) as (th1 & Hld1 & Hn1 & Hp1). rewrite Hld1. ret.
    rewrite at_ne, En in Hn1 by done. injection Hn1 as Hn1. rewrite Ep in Hp1. injection Hp1 as Hp1. rewrite <- Hn1, <- Hp1.
    vstep view_prev H1 H2; [by apply Hd, Hsub|right; by apply Hsub|].
    rewrite (view_ld_arr _ _ _ _ _ _ _ _ H2). ret. rewrite (rd_getz _ _ _ Hh). ret. rewrite EQ.
    destruct (after_app l1 t l2) as [E|[E1 E]]; rewrite E.
    + zcmp. destruct (view_ld _ _ _ _ _ _ _ _ t H2 (Hd t Htq)) as (th2 & Hld2 & Hn2 & Hp2). rewrite Hld2. ret.
      rewrite at_ne, En in Hn2 by done. injection Hn2 as Hn2. rewrite <- Hn2.
      assert (l1 = []) as -> by (destruct l1 as [|h l1]; [done|]; simpl in E; subst; rewrite EQ in Hnd; apply NoDup_cons in Hnd as [Hnd _]; set_solver).
      rewrite (Hl1 eq_refl) in *. rewrite <- EQ. eapply view_arr; [exact H2|]. by apply (put_queue_ok _ _ _ _ Hpa); lia.
    + assert (after (l1 ++ l2) <> t) as Hat.
      { destruct l1 as [|h l1]; [done|]. simpl. rewrite EQ in Hnd. apply NoDup_cons in Hnd as [Hnd _]. set_solver. }
      zcmp. ret. rewrite list_insert_id; [|rewrite EQ, E in Hh; by apply getz_Some in Hh as [_ Hh]].
      rewrite <- EQ. by destruct B.
Qed.

Lemma prio_dequeue_spec st Q a t th :
  rep st Q -> thr st !! t = Some th -> t_array th = Some a ->
  returns (prio_array_dequeue (Some a) t (t_prio th) st) (fun st' =>
    rep st' (qupd Q a (t_prio th) (without t (Q a (t_prio th)))) /\ moved st st' t None).
Proof.
  intros H Ht Hta. set (p := t_prio th). assert (t ∈ Q a p) as Htq by (apply (rep_mem _ _ H); by exists th).
  destruct (rep_array _ _ _ H (rep_where _ _ H _ _ _ Ht Hta)) as (B & HB & Hpa).
  pose proof (rep_nodup _ _ a p H) as Hnd. pose proof (queued_range st Q a H) as Hcr. pose proof (rep_size _ _ H) as Hsz.
  pose proof (th_prio _ _ _ (rep_thr _ _ H _ _ Ht)) as Hpr. fold p in Hpr.
  destruct (list_elem_of_split _ _ Htq) as (l1 & l2 & EQ). assert (is_Some (thr st !! t)) as Hts by (by exists th).
  destruct (dequeue_unlink_spec st Q a t p l1 l2 B H EQ HB Hpa) as (N & P & qu & bm & Hb & Hring & Hqu & Hbm).
  unfold prio_array_dequeue. ret. eapply returns_bind; [exact Hb|]. intros st1 H1.
  vstep view_next H1 H2; [done|by left|]. vstep view_prev H2 H3; [done|by left|]. vstep view_array H3 H4; [done|by left|].
  eapply returns_mono.
  { eapply view_arr; [exact H4|]. apply add_nr_ok. simpl. rewrite (pa_nr _ _ Hpa). lia. }
  intros st2 H5. rewrite EQ, without_split by (by rewrite <- EQ).
  assert (t ∉ l1 ++ l2) as Htl by (rewrite EQ in Hnd; rewrite <- Permutation_middle in Hnd; by apply NoDup_cons in Hnd as [? _]).
  split; [|split; apply H5].
  eapply (rep_view st st2 Q a p _ t None th _ _ _ _ H Ht eq_refl); [by right|by left|exact H5|done| | |].
  - intros y. rewrite EQ. rewrite !elem_of_app, elem_of_cons in *. split; [|naive_solver].
    intros Hy. left. split; [naive_solver|]. intros ->. naive_solver.
  - destruct (l1 ++ l2) as [|h tl] eqn:El; [done|]. eapply dll_frame, Hring. intros y Hy.
    assert (y <> t) by (intros ->; destruct Hy; set_solver). by rewrite !at_ne.
  - eapply pa_change; [exact Hpa|lia|exact Hqu|exact Hbm|]. simpl. rewrite EQ, !length_app. simpl. lia.
Qed.
