(* ===== verification/SchedSwitch.v ===== *)
(** * Dispatching a thread

    [context_switch] of Scheduler.v picks the first thread of the best
    priority and loads the machine registers for it. *)

From stdpp Require Import base numbers list gmap.
From Stdlib Require Import ZArith Lia.
From S2P Require Import Prelude Links Scheduler SchedQueues.

#[local] Open Scope Z_scope.

(** ** Updates that leave the queues alone *)
Definition is_idle (st : sst) (t : Z) : Prop := exists c r, getz (rqs st) c = Some r /\ idle r = t.

Lemma rep_upd st Q t th th' :
  rep st Q -> thr st !! t = Some th -> t_next th' = t_next th -> t_prev th' = t_prev th -> t_array th' = t_array th ->
  (is_Some (t_array th) -> t_prio th' = t_prio th) -> thread_ok (length (rqs st)) t th' ->
  (is_idle st t -> t_tid th' = t_tid th /\ t_rq th' = t_rq th) -> (is_Some (t_rq th) -> is_Some (t_rq th')) ->
  rep (set_thr (<[t := th']> (thr st)) st) Q.
Proof.
  intros H Ht Hn Hp Ha Hpr Hok Hidle Hsome.
  assert (forall y, is_Some (thr st !! y) -> is_Some (<[t := th']> (thr st) !! y)) as Hdom.
  { intros y Hy. destruct (decide (y = t)) as [->|]; [by rewrite lookup_insert_eq|by rewrite lookup_insert_ne]. }
  split; simpl.
  - intros a pa. apply (rep_arr _ _ H).
  - intros a p. pose proof (rep_ring _ _ H a p) as Hr. destruct (Q a p) as [|h tl]; [done|]. eapply dll_frame, Hr.
    intros y _. unfold nxt, prv. simpl. destruct (decide (y = t)) as [->|].
    + rewrite lookup_insert_eq, Ht. simpl. by rewrite Hn, Hp.
    + by rewrite lookup_insert_ne.
  - intros a p y. rewrite (rep_mem _ _ H). destruct (decide (y = t)) as [->|].
    + rewrite lookup_insert_eq, Ht. split.
      * intros (th0 & [= <-] & Ha0 & Hp0). exists th'. split; [done|]. rewrite Ha. split; [done|]. rewrite Hpr; [done|by exists a].
      * intros (th0 & [= <-] & Ha0 & Hp0). exists th. split; [done|]. rewrite Ha in Ha0. split; [done|].
        rewrite <- Hp0. symmetry. apply Hpr. by exists a.
    + by rewrite lookup_insert_ne.
  - intros y th0. destruct (decide (y = t)) as [->|].
    + rewrite lookup_insert_eq. intros [= <-]. done.
    + rewrite lookup_insert_ne by done. apply (rep_thr _ _ H).
  - intros y th0 a. destruct (decide (y = t)) as [->|].
    + rewrite lookup_insert_eq. intros [= <-]. rewrite Ha. by apply (rep_where _ _ H t th).
    + rewrite lookup_insert_ne by done. apply (rep_where _ _ H).
  - intros c r Hr. destruct (rep_rq _ _ H _ _ Hr) as [R0 R1 (ti & Hi & Ht1 & Ht2 & Ht3) R3 R4 R5 R6]. split; try done; simpl.
    + destruct (decide (idle r = t)) as [E|].
      * rewrite E in *. exists th'. rewrite lookup_insert_eq. rewrite Ht in Hi. injection Hi as <-.
        destruct Hidle as [I1 I2]; [by exists c, r|]. rewrite I1, I2, Ha. done.
      * exists ti. by rewrite lookup_insert_ne.
    + destruct R3 as [R3|[R3|(tc & Hc & Hs)]]; [by left|by right; left|]. right; right. destruct (decide (current r = t)) as [E|].
      * rewrite E in *. exists th'. rewrite lookup_insert_eq. split; [done|]. apply Hsome. congruence.
      * exists tc. by rewrite lookup_insert_ne.
    + intros i Hi'. destruct (R6 i Hi') as (s & Hs & Hd). exists s. split; [done|by apply Hdom].
  - apply (rep_cpus _ _ H).
  - apply (rep_some _ _ H).
  - apply (rep_hw _ _ H).
  - apply (rep_ctr _ _ H).
  - apply (rep_ncpus _ _ H).
  - rewrite map_size_insert_Some by (by exists th). apply (rep_size _ _ H).
Qed.

Lemma thr_ld_ok st t th : thr st !! t = Some th -> ld t st = Ret th.
Proof. unfold ld. by intros ->. Qed.

Lemma ld_rq_ok st c r : getz (rqs st) c = Some r -> ld_rq c st = Ret r.
Proof. apply rd_getz. Qed.

Lemma thr_upd_ok st t th f : thr st !! t = Some th -> upd t f st = Ret (set_thr (<[t := f th]> (thr st)) st).
Proof. intros Ht. unfold upd, ld. by rewrite Ht. Qed.

Lemma upd_rq_ok st c r f : getz (rqs st) c = Some r -> upd_rq c f st = Ret (set_rqs (<[Z.to_nat c := f r]> (rqs st)) st).
Proof.
  intros Hr. unfold upd_rq, ld_rq. rewrite (rd_getz _ _ _ Hr). ret. rewrite wr_ok; [done|]. by apply getz_Some_lt in Hr.
Qed.

Lemma upd_hw_ok st c m f : getz (hw st) c = Some m -> upd_hw c f st = Ret (set_hw (<[Z.to_nat c := f m]> (hw st)) st).
Proof.
  intros Hm. unfold upd_hw. rewrite (rd_getz _ _ _ Hm). ret. rewrite wr_ok; [done|]. by apply getz_Some_lt in Hm.
Qed.

Lemma rep_upd_rq st Q c r r' :
  rep st Q -> getz (rqs st) c = Some r -> arr0 r' = arr0 r -> arr1 r' = arr1 r -> rq_ok st r' ->
  rep (set_rqs (<[Z.to_nat c := r']> (rqs st)) st) Q.
Proof.
  intros H Hr H0 H1 Hok. pose proof (getz_Some_lt _ _ _ Hr) as Hlt. destruct H. split; simpl; rewrite ?length_insert; try done.
  - intros a pa. unfold arrs. simpl. destruct (decide (a.1 = c)) as [E|E].
    + rewrite E, getz_insert_eq by done. simpl. intros [= <-]. apply rep_arr. unfold arrs. rewrite E, Hr. simpl.
      unfold arr. by rewrite H0, H1.
    + rewrite getz_insert_ne by lia. apply rep_arr.
  - intros c' r0. destruct (decide (c' = c)) as [->|].
    + rewrite getz_insert_eq by done. intros [= <-]. destruct Hok. by split.
    + rewrite getz_insert_ne by lia. intros Hr'. destruct (rep_rq _ _ Hr'). by split.
Qed.

(** The machine registers, the interrupts sent and the counters. *)
Lemma rep_same st st' Q : rep st Q -> thr st' = thr st -> rqs st' = rqs st ->
  (forall me, rq_current me st' = rq_current me st) -> length (hw st') = length (cpus st') ->
  length (rebalance_ctr st') = 64%nat -> (length (cpus st') <= 64)%nat -> rep st' Q.
Proof.
  intros H Ht Hr Hc Hl Hct Hcp. destruct H.
  assert (forall a, arrs st' a = arrs st a) as Ha by (intros a; unfold arrs; by rewrite Hr).
  assert (forall y, nxt st' y = nxt st y /\ prv st' y = prv st y) as Hnp by (intros y; unfold nxt, prv; by rewrite Ht).
  split; rewrite ?Hr, ?Ht; try done.
  - intros a pa. rewrite Ha. apply rep_arr.
  - intros a p. specialize (rep_ring a p). destruct (Q a p); [done|]. eapply dll_frame, rep_ring. intros y _. apply Hnp.
  - intros c r Hr'. destruct (rep_rq _ _ Hr'). split; rewrite ?Ht; done.
  - intros me c. rewrite Hc. apply rep_cpus.
Qed.

(** ** Dispatching the first thread of a ring *)
Lemma ring_ends z N P l : dll z N P l -> N (before_of z l) = Some z /\ P (after_of z l) = Some z.
Proof.
  assert (forall M l, links M z (z :: l) z -> M (before_of z l) = Some z) as Hgen.
  { intros M l0 H. destruct (cons_before (z := z) l0) as [k Hk]. rewrite Hk in H. by apply (links_next M z k _ [] z). }
  intros (_ & H1 & H2). split; [by apply Hgen|]. apply Hgen in H2. by rewrite before_rev in H2.
Qed.

Section take_next.
Context (st : sst) (Q : rings) (c : Z) (r : runqueue) (a : array_id) (p next : Z) (tl : list Z) (th : thread).
Hypothesis H : rep st Q.
Hypothesis Hr : getz (rqs st) c = Some r.
Hypothesis Ha : a = (c, active r).
Hypothesis EQ : Q a p = next :: tl.
Hypothesis Hth : thr st !! next = Some th.

Let B := arr r (active r).
Let b := before_of next tl.
Let n := after_of next tl.

Lemma take_array : arrs st a = Some B.
Proof. unfold arrs. rewrite Ha. simpl. by rewrite Hr. Qed.

Lemma take_thread : t_array th = Some a /\ t_prio th = p /\ 100 <= p <= 139 /\ live th /\ is_Some (t_rq th).
Proof.
  assert (next ∈ Q a p) as Hin by (rewrite EQ; by left). apply (rep_mem _ _ H) in Hin as (th' & Hth' & Hta & Hpr).
  rewrite Hth in Hth'. injection Hth' as <-. destruct (rep_thr _ _ H _ _ Hth) as [_ _ Hp _ _ Hlv Hhome _]. rewrite Hpr in Hp.
  split; [done|]. split; [done|]. split; [done|]. split; [apply Hlv; by exists a|apply Hhome; left; by exists a].
Qed.

Lemma take_ring : dll next (nxt st) (prv st) tl /\ t_next th = n /\ t_prev th = b.
Proof.
  pose proof (rep_ring _ _ H a p) as Hring. rewrite EQ in Hring. simpl in Hring. split; [done|].
  destruct (dll_first _ _ _ Hring) as [Hn Hpv]. unfold nxt, prv in Hn, Hpv. rewrite Hth in Hn, Hpv. simpl in Hn, Hpv.
  injection Hn as ->. by injection Hpv as ->.
Qed.

Lemma take_next_alone : tl = [] ->
  returns (take_next c next p st) (fun st' => rep st' (qupd Q a p []) /\ moved st st' next None).
Proof.
  intros Htl. destruct take_thread as (Hta & Hpr & Hp & _). destruct take_ring as (_ & Hn & _).
  assert (n = next) as En by (unfold n; by rewrite Htl). rewrite En in Hn.
  pose proof (rep_arr _ _ H _ _ take_array) as Hpa. pose proof (view_refl a (next :: Q a p) st B take_array) as Hv.
  pose proof (queued_range st Q a H) as Hcr. pose proof (rep_size _ _ H) as Hsz.
  unfold take_next. rewrite (ld_rq_ok _ _ _ Hr). ret. cbn zeta. rewrite <- Ha, (thr_ld_ok _ _ _ Hth). ret. rewrite Hn. zcmp.
  destruct (unmark_ok (set_queue (<[Z.to_nat p := 0]> (queue B)) B) (pa_bm_size _ _ Hpa) p ltac:(lia)) as (bm & Hm & Hbm).
  vstep view_arr Hv H1; [by apply (put_queue_ok _ _ _ _ Hpa); lia|]. vstep view_arr H1 H2; [exact Hm|].
  vstep view_array H2 H3; [by exists th|by left|]. eapply returns_mono.
  { eapply view_arr; [exact H3|]. apply add_nr_ok. simpl. rewrite (pa_nr _ _ Hpa). lia. }
  intros st4 H4. split; [|split; apply H4].
  eapply (rep_view st st4 Q a p [] next None th _ _ _ _ H Hth Hpr); [by right|by left|exact H4|done| |done|].
  - intros y. rewrite EQ, Htl. set_solver.
  - eapply pa_change; [exact Hpa|lia|done|exact Hbm|]. simpl. rewrite EQ, Htl. simpl. lia.
Qed.

(** The writes of the other case leave the links as they were: only the queue
    points to the next thread. *)
Lemma take_next_links : tl <> [] -> exists N P, returns (take_next c next p st) (fun st' =>
    view a (next :: Q a p) st st' N P (at_ (aof st) next (Some a)) (set_queue (<[Z.to_nat p := n]> (queue B)) B)) /\
    (forall z, N z = nxt st z) /\ forall z, P z = prv st z.
Proof.
  intros Hne. destruct take_thread as (Hta & Hpr & Hp & Hlv & Hrq). destruct take_ring as (Hring & Hn & Hpv).
  pose proof (rep_arr _ _ H _ _ take_array) as Hpa. pose proof (view_refl a (next :: Q a p) st B take_array) as Hv.
  destruct (ring_ends _ _ _ _ Hring) as [Eb Ea]. fold b in Eb. fold n in Ea.
  assert (next ∉ tl) as Hnt by (by destruct Hring as ([? _]%NoDup_cons & _)).
  assert (b ∈ tl) as Hb by (unfold b, before_of; destruct tl as [|y l _] using rev_ind; [done|]; rewrite last_snoc; set_solver).
  assert (n ∈ tl) as Hnin by (unfold n, after_of; destruct tl; [done|by left]).
  assert (b <> next) as Hbn by (intros E; by rewrite E in Hb). assert (n <> next) as Hnn by (intros E; by rewrite E in Hnin).
  assert (forall y, y ∈ next :: tl -> y ∈ next :: Q a p /\ is_Some (thr st !! y)) as HD.
  { intros y Hy. rewrite <- EQ in Hy. split; [by right|by apply (rep_dom _ _ a p y H)]. }
  assert (nxt st next = Some n /\ prv st next = Some b) as [En Ep] by (unfold nxt, prv; rewrite Hth; simpl; by rewrite Hn, Hpv).
  exists (at_ (at_ (nxt st) b n) b next), (at_ (at_ (at_ (prv st) n b) next b) n next).
  split; [|unfold at_; split; intros z; repeat case_decide; subst; congruence].
  unfold take_next. rewrite (ld_rq_ok _ _ _ Hr). ret. cbn zeta. rewrite <- Ha, (thr_ld_ok _ _ _ Hth). ret. rewrite Hn, Hpv.
  zcmp. vstep view_next Hv H1; [apply HD; by right|apply HD; by right|].
  destruct (view_ld _ _ _ _ _ _ _ _ next H1) as (t1 & -> & Hn1 & Hp1); [by exists th|]. ret.
  rewrite at_ne, En in Hn1 by done. injection Hn1 as Hn1. rewrite Ep in Hp1. injection Hp1 as Hp1. rewrite <- Hn1, <- Hp1.
  vstep view_prev H1 H2; [apply HD; by right|apply HD; by right|].
  destruct (view_ld _ _ _ _ _ _ _ _ next H2) as (t2 & -> & Hn2 & Hp2); [by exists th|]. ret.
  rewrite at_ne, En in Hn2 by done. injection Hn2 as Hn2. rewrite <- Hn2.
  vstep view_arr H2 H3; [by apply (put_queue_ok _ _ _ _ Hpa); lia|].
  destruct (view_ld _ _ _ _ _ _ _ _ n H3) as (t3 & -> & _ & Hp3); [apply HD; by right|]. ret. cbn zeta.
  rewrite at_eq in Hp3. injection Hp3 as Hp3. rewrite <- Hp3.
  vstep view_prev H3 H4; [apply HD; by left|apply HD; by left|].
  vstep view_next H4 H5; [apply HD; by right|apply HD; by right|].
  destruct (view_ld _ _ _ _ _ _ _ _ next H5) as (t4 & -> & Hn4 & _); [by exists th|]. ret.
  rewrite !at_ne, En in Hn4 by done. injection Hn4 as Hn4. rewrite <- Hn4.
  vstep view_prev H5 H6; [apply HD; by right|apply HD; by right|].
  eapply view_array; [exact H6|by exists th|by left].
Qed.

Lemma take_next_rotate : tl <> [] ->
  returns (take_next c next p st) (fun st' => rep st' (qupd Q a p (tl ++ [next])) /\ moved st st' next (Some a)).
Proof.
  intros Hne. destruct take_thread as (Hta & Hpr & Hp & Hlv & Hrq). destruct take_ring as (Hring & _).
  pose proof (rep_arr _ _ H _ _ take_array) as Hpa. destruct (take_next_links Hne) as (N & P & Hrun & HN & HP).
  eapply returns_mono; [exact Hrun|]. intros st7 H7. split; [|split; apply H7].
  eapply (rep_view st st7 Q a p (tl ++ [next]) next (Some a) th _ _ _ _ H Hth Hpr); [by right|by right|exact H7|done| | |].
  - intros y. rewrite EQ, elem_of_app, list_elem_of_singleton, elem_of_cons. destruct (decide (y = next)) as [->|]; naive_solver.
  - destruct tl as [|y l]; [done|]. simpl. apply dll_rotate in Hring. eapply dll_frame, Hring. intros z _. by rewrite HN, HP.
  - eapply (pa_change B); [exact Hpa|lia| | |]; simpl.
    + f_equal. unfold n, after_of. by destruct tl.
    + apply bm_upd_id. rewrite (pa_bits _ _ Hpa) by lia. rewrite EQ, !bool_decide_eq_true_2; [done|by destruct tl|done].
    + rewrite EQ, length_app. simpl. lia.
Qed.

Lemma take_next_spec :
  returns (take_next c next p st) (fun st' =>
    rep st' (qupd Q a p (if decide (tl = []) then [] else tl ++ [next])) /\
    moved st st' next (if decide (tl = []) then None else Some a)).
Proof. destruct (decide (tl = [])); [by apply take_next_alone|by apply take_next_rotate]. Qed.
End take_next.

(** ** The switch

    The registers of the processor after the switch to [th]. *)
Definition loaded (th : thread) (m : mach) : mach :=
  Mach (if t_tid th =? 0 then 0 else t_tls th) true (m_fpu m) (t_ktop th) (if t_dir th =? 0 then m_dir m else t_dir th).

(** The array the next thread comes from: the active one, or the expired one
    if no thread is active. *)
Definition side (Q : rings) (c : Z) (r : runqueue) : bool :=
  if count (Q (c, active r)) <=? 0 then expired r else active r.
Definition sided (i : bool) (r : runqueue) : runqueue := set_expired (negb i) (set_active i r).

(** What the switch to [next] changes besides the queues. *)
Record dispatched (me c next : Z) (r : runqueue) (th : thread) (m : mach) (st st' : sst) : Prop := {
  di_hw : hw st' = <[Z.to_nat me := m]> (hw st);
  di_rqs : rq_rest <$> rqs st' = <[Z.to_nat c := rq_rest r]> (rq_rest <$> rqs st);
  di_cpus : cpus st' = cpus st;
  di_ctr : rebalance_ctr st' = rebalance_ctr st;
  di_ipis : ipis st' = ipis st;
  di_thr y : core <$> thr st' !! y = core <$> <[next := th]> (thr st) !! y;
}.

Definition idles (me c : Z) (r : runqueue) (i : bool) (st st' : sst) (rsp : Z) : Prop :=
  exists th m, thr st !! idle r = Some th /\ getz (hw st) me = Some m /\ rsp = t_rsp th /\
    dispatched me c (idle r) (set_current (idle r) (sided i r)) th (set_rsp0 (t_ktop th) m) st st'.

Definition runs (me c next : Z) (r : runqueue) (i : bool) (st st' : sst) (rsp : Z) : Prop :=
  exists th m, thr st !! next = Some th /\ getz (hw st) me = Some m /\ rsp = t_rsp th /\
    dispatched me c next (set_current next (sided i r)) (set_state THREAD_RUNNING th) (loaded th m) st st'.

Definition rest_of (next : Z) (tl : list Z) : list Z := if decide (tl = []) then [] else tl ++ [next].

Lemma rep_nr st Q c r i : rep st Q -> getz (rqs st) c = Some r -> nr_active (arr r i) = count (Q (c, i)).
Proof.
  intros H Hr. apply (pa_nr _ _ (rep_arr _ _ H (c, i) _ ltac:(unfold arrs; simpl; by rewrite Hr))).
Qed.

Lemma rep_top st Q c r i : rep st Q -> getz (rqs st) c = Some r ->
  (prio_array_find_top (arr r i) = -1 /\ forall p, Q (c, i) p = []) \/ best (Q (c, i)) (prio_array_find_top (arr r i)).
Proof.
  intros H Hr. pose proof (rep_arr _ _ H (c, i) _ ltac:(unfold arrs; simpl; by rewrite Hr)) as Hpa. simpl in Hpa.
  destruct (find_top_best _ _ Hpa) as [[Ht Hq]|Hb]; [intros p Hp; apply (rep_high _ _ _ _ H); lia|left|by right].
  split; [done|]. intros p. destruct (Z.lt_ge_cases p 0); [apply (rep_high _ _ _ _ H); lia|by apply Hq].
Qed.

(** Choosing the array. *)
Lemma switch_side st Q c r : rep st Q -> getz (rqs st) c = Some r ->
  returns (if nr_active (arr r (active r)) <=? 0
           then upd_rq c (fun r => set_expired (active r) (set_active (expired r) r)) st else Ret st)
    (fun st' => st' = set_rqs (<[Z.to_nat c := sided (side Q c r) r]> (rqs st)) st /\ rep st' Q).
Proof.
  intros H Hr. rewrite (rep_nr _ _ _ _ _ H Hr). unfold side. pose proof (rep_rq _ _ H _ _ Hr) as Hok.
  destruct (Z.leb_spec (count (Q (c, active r))) 0) as [Hc|Hc].
  - rewrite (upd_rq_ok _ _ _ _ Hr). ret. assert (set_expired (active r) (set_active (expired r) r) = sided (expired r) r) as E.
    { unfold sided. rewrite (rq_sides _ _ Hok). by rewrite negb_involutive. }
    rewrite E. split; [done|]. apply rep_upd_rq with r; try done. destruct Hok. split; try done.
  - assert (sided (active r) r = r) as -> by (unfold sided; rewrite <- (rq_sides _ _ Hok); by destruct r).
    rewrite list_insert_id; [|by apply getz_Some in Hr as [_ Hr]]. split; [by destruct st|by destruct st].
Qed.

Lemma switch_idle me c r st Q : rep st Q -> getz (rqs st) c = Some r -> 0 <= me < Z.of_nat (length (hw st)) ->
  returns (st ← upd_rq c (set_current (idle r)) st; th ← ld (idle r) st; st ← upd_hw me (set_rsp0 (t_ktop th)) st; Ret (t_rsp th, st))
    (fun x => rep x.2 Q /\ exists th m, thr st !! idle r = Some th /\ getz (hw st) me = Some m /\ x.1 = t_rsp th /\
       dispatched me c (idle r) (set_current (idle r) r) th (set_rsp0 (t_ktop th) m) st x.2).
Proof.
  intros H Hr Hme. destruct (rep_rq _ _ H _ _ Hr) as [R0 R1 (th & Hth & Rr) R3 R4 R5 R6]. destruct (getz_lt _ _ Hme) as [m Hm].
  assert (rq_ok st (set_current (idle r) r)) as Hok.
  { split; try done; simpl; [by exists th|]. right. by left. }
  rewrite (upd_rq_ok _ _ _ _ Hr). ret. rewrite (thr_ld_ok _ _ th) by done. ret. rewrite (upd_hw_ok _ _ m) by done. ret.
  pose proof (getz_Some_lt _ _ _ Hr) as Hlt. split.
  - apply (rep_same _ _ _ (rep_upd_rq st Q c r (set_current (idle r) r) H Hr eq_refl eq_refl Hok)); try done; simpl; rewrite ?length_insert;
    first [apply (rep_hw _ _ H)|apply (rep_ctr _ _ H)|apply (rep_ncpus _ _ H)].
  - exists th, m. split_and!; try done. split; try done; simpl; [by rewrite list_fmap_insert|].
    intros y. by rewrite insert_id.
Qed.

(** The idle thread of no processor is queued. *)
Lemma idle_not_queued st Q a p t : rep st Q -> t ∈ Q a p -> ~ is_idle st t.
Proof.
  intros H Hin (c & r & Hr & <-). apply (rep_mem _ _ H) in Hin as (th & Hth & Ha & _).
  destruct (rq_idle _ _ (rep_rq _ _ H _ _ Hr)) as (th' & Hth' & _ & Hna & _). congruence.
Qed.

Lemma load_thread_spec me next th st m : thr st !! next = Some th -> getz (hw st) me = Some m ->
  load_thread me next st = Ret (set_hw (<[Z.to_nat me := loaded th m]> (hw st)) st).
Proof.
  intros Hth Hm. pose proof (getz_Some_lt _ _ _ Hm) as Hlt. unfold load_thread. rewrite (thr_ld_ok _ _ _ Hth). ret.
  rewrite (upd_hw_ok _ _ m) by done. ret.
  do 2 (erewrite upd_hw_ok; [ret|simpl; apply getz_insert_eq; rewrite ?length_insert; done]). simpl.
  unfold loaded. destruct (Z.eqb_spec (t_dir th) 0) as [E|E].
  - rewrite !list_insert_insert_eq. done.
  - erewrite upd_hw_ok; [|simpl; apply getz_insert_eq; rewrite ?length_insert; done]. simpl. by rewrite !list_insert_insert_eq.
Qed.

Lemma th_ok_state n t th s : thread_ok n t th -> s = THREAD_READY \/ s = THREAD_RUNNING -> thread_ok n t (set_state s th).
Proof.
  intros [] Hs. split; try done; simpl in *; unfold live, THREAD_READY, THREAD_RUNNING, THREAD_BLOCKED in *; naive_solver lia.
Qed.

Lemma switch_run k me c r st Q p next tl th :
  rep st Q -> getz (rqs st) c = Some r -> 0 <= me < Z.of_nat (length (hw st)) ->
  Q (c, active r) p = next :: tl -> thr st !! next = Some th ->
  returns (st ← take_next c next p st; th ← ld next st;
           if (t_state th =? THREAD_ZOMBIE) || (t_state th =? THREAD_UNUSED) || (t_state th =? THREAD_BLOCKED) then k st
           else st ← upd next (set_state THREAD_RUNNING) st; st ← upd_rq c (set_current next) st;
                st ← load_thread me next st; Ret (t_rsp th, st))
    (fun x => rep x.2 (qupd Q (c, active r) p (rest_of next tl)) /\ exists m, getz (hw st) me = Some m /\ x.1 = t_rsp th /\
       dispatched me c next (set_current next r) (set_state THREAD_RUNNING th) (loaded th m) st x.2).
Proof.
  intros H Hr Hme EQ Hth. destruct (getz_lt _ _ Hme) as [m Hm]. assert (next ∈ Q (c, active r) p) as Hin by (rewrite EQ; by left).
  eapply returns_bind; [by eapply take_next_spec|]. intros st1 [H1 [Hfr Hao]].
  destruct (framed_forth _ _ _ _ Hfr Hth) as (th1 & Hth1 & Hc). rewrite (thr_ld_ok _ _ _ Hth1). ret.
  pose proof (core_fields _ _ Hc) as (C1 & C2 & C3 & C4 & C5 & C6 & C7 & C8 & C9 & C10 & C11 & C12 & C13).
  assert (live th) as Hlv.
  { apply (th_live _ _ _ (rep_thr _ _ H _ _ Hth)). apply (rep_mem _ _ H) in Hin as (th' & Hth' & Ha & _). exists (c, active r). congruence. }
  rewrite C2. unfold live, THREAD_READY, THREAD_RUNNING in Hlv. unfold THREAD_ZOMBIE, THREAD_UNUSED, THREAD_BLOCKED. zcmp.
  rewrite (thr_upd_ok _ _ _ _ Hth1). ret. set (th2 := set_state THREAD_RUNNING th1). set (st2 := set_thr _ st1).
  assert (rep st2 (qupd Q (c, active r) p (rest_of next tl))) as H2.
  { apply (rep_upd _ _ _ th1); try done. apply th_ok_state; [apply (rep_thr _ _ H1 _ _ Hth1)|by right]. }
  assert (getz (rqs st) c = Some r) as Hr' by done. destruct (getz_lt (rqs st2) c) as [r1 Hr1].
  { simpl. rewrite (framed_length _ _ Hfr). by apply getz_Some_lt in Hr. }
  rewrite (upd_rq_ok _ _ _ _ Hr1). ret. destruct (framed_rq _ _ _ _ Hfr Hr1) as (r0 & Hr0 & Hrest). rewrite Hr in Hr0. injection Hr0 as <-.
  assert (rq_ok st2 (set_current next r1)) as Hok.
  { destruct (rep_rq _ _ H2 _ _ Hr1). split; try done; simpl. right; right. exists th2. rewrite lookup_insert_eq. split; [done|]. simpl. rewrite C10.
    apply (th_home _ _ _ (rep_thr _ _ H _ _ Hth)). left. apply (rep_mem _ _ H) in Hin as (th' & Hth' & Ha & _). exists (c, active r). congruence. }
  pose proof (rep_upd_rq _ _ _ _ (set_current next r1) H2 Hr1 eq_refl eq_refl Hok) as H3.
  erewrite load_thread_spec; [|simpl; apply lookup_insert_eq|simpl; rewrite (fr_hw _ _ Hfr); exact Hm]. ret. split.
  - apply (rep_same _ _ _ H3); try done; simpl; rewrite ?length_insert;
    first [apply (rep_hw _ _ H1)|apply (rep_ctr _ _ H1)|apply (rep_ncpus _ _ H1)].
  - exists m. split; [done|]. split; [done|]. split; simpl; try apply Hfr.
    + rewrite (fr_hw _ _ Hfr). unfold loaded. simpl. by rewrite C1, C4, C5, C12.
    + rewrite list_fmap_insert, (fr_rest _ _ Hfr). f_equal. unfold rq_rest in *. by destruct r1, r; simplify_eq/=.
    + intros y. destruct (decide (y = next)) as [->|].
      * rewrite !lookup_insert_eq. simpl. f_equal. unfold th2. unfold core in *. by destruct th1, th; simplify_eq/=.
      * rewrite !lookup_insert_ne by done. apply Hfr.
Qed.

(** [context_switch] runs the first thread of the best priority of the active
    array, of the expired array if no thread is active, and the idle thread if
    no thread is queued. *)
Lemma context_switch_spec fuel me c r st Q :
  rep st Q -> getz (rqs st) c = Some r -> 0 <= me < Z.of_nat (length (hw st)) -> (0 < fuel)%nat ->
  let i := side Q c r in
  returns (context_switch fuel me c st) (fun x =>
    ((forall p, Q (c, i) p = []) /\ rep x.2 Q /\ idles me c r i st x.2 x.1) \/
    exists p next tl, best (Q (c, i)) p /\ Q (c, i) p = next :: tl /\
      rep x.2 (qupd Q (c, i) p (rest_of next tl)) /\ runs me c next r i st x.2 x.1).
Proof.
  intros H Hr Hme Hf i. destruct fuel as [|fuel]; [lia|]. cbn [context_switch]. rewrite (ld_rq_ok _ _ _ Hr). ret.
  eapply returns_bind; [by apply switch_side|]. intros st1 [E1 H1]. fold i in E1. pose proof (getz_Some_lt _ _ _ Hr) as Hlt.
  set (r1 := sided i r) in *. assert (getz (rqs st1) c = Some r1) as Hr1 by (rewrite E1; simpl; by apply getz_insert_eq).
  assert (forall me next r' th m st', dispatched me c next r' th m st1 st' -> dispatched me c next r' th m st st') as Htr.
  { intros me' next r' th m st' [D1 D2 D3 D4 D5 D6]. rewrite E1 in *. simpl in *. split; try done.
    rewrite D2, list_fmap_insert, list_insert_insert_eq. done. }
  rewrite (ld_rq_ok _ _ _ Hr1). ret. change (active r1) with i. destruct (rep_top _ _ c r1 i H1 Hr1) as [[Ht Hq]|Hb].
  - rewrite Ht. cbn [Z.ltb Z.compare]. eapply returns_mono; [apply (switch_idle me c r1 st1 Q H1 Hr1); by rewrite E1|].
    intros [rsp st2] [H2 (th & m & D1 & D2 & D3 & D4)]. left. split; [done|]. split; [done|]. exists th, m.
    rewrite E1 in D1, D2. simpl in *. split_and!; try done. by apply Htr.
  - destruct Hb as (Hb1 & Hb2 & Hb3). set (p := prio_array_find_top (arr r1 i)) in *. zcmp.
    pose proof (pa_heads _ _ (rep_arr _ _ H1 (c, i) _ ltac:(unfold arrs; simpl; by rewrite Hr1)) p Hb1) as Hh. simpl in Hh.
    destruct (Q (c, i) p) as [|next tl] eqn:EQ; [done|]. rewrite (rd_getz _ _ _ Hh). ret. change (after (next :: tl)) with next.
    destruct (rep_dom _ _ (c, i) p next H1) as [th Hth]; [rewrite EQ; by left|].
    eapply returns_mono; [apply (switch_run _ me c r1 st1 Q p next tl th H1 Hr1); try done; by rewrite E1|].
    intros [rsp st2] [H2 (m & D1 & D2 & D3)]. right. exists p, next, tl. split; [split; [done|split; [by rewrite EQ|done]]|]. split; [done|]. split; [done|].
    exists th, m. rewrite E1 in Hth, D1. simpl in *. split_and!; try done. by apply Htr.
Qed.
