(* ===== verification/SchedOps.v ===== *)
(** * Waking and parking threads

    The wake-up, blocking and parking of threads in Scheduler.v, and the proof
    that they implement the class [Sched] of Prelude.v. *)

From stdpp Require Import base numbers list gmap.
From Stdlib Require Import ZArith Lia.
From S2P Require Import Prelude Links Scheduler SchedQueues SchedSwitch.

#[local] Open Scope Z_scope.

(** ** Changing one thread

    [touched st st' t th']: the queues of [st] may have changed, [t] is now
    [th'] and every other thread has its fields except for its links. *)
Definition strip (th : thread) : thread := set_next 0 (set_prev 0 th).

Record touched (st st' : sst) (t : Z) (th' : thread) : Prop := {
  to_rest : rq_rest <$> rqs st' = rq_rest <$> rqs st;
  to_cpus : cpus st' = cpus st;
  to_hw : hw st' = hw st;
  to_ctr : rebalance_ctr st' = rebalance_ctr st;
  to_thr y : strip <$> thr st' !! y = strip <$> <[t := th']> (thr st) !! y;
}.

Lemma strip_eq th th' : core th' = core th -> t_array th' = t_array th -> strip th' = strip th.
Proof. destruct th, th'. unfold core, strip. simpl. intros; simplify_eq/=. done. Qed.

Lemma moved_touched st st' t x th : thr st !! t = Some th -> moved st st' t x -> touched st st' t (set_array x th).
Proof.
  intros Ht [Hfr Hao]. destruct Hfr as [F1 F2 F3 F4 F5 F6]. split; try done. intros y. specialize (F6 y). specialize (Hao y). unfold aof, at_ in Hao.
  destruct (decide (y = t)) as [->|].
  - rewrite lookup_insert_eq. rewrite Ht in F6. destruct (thr st' !! t) as [th'|]; [|done].
    cbn [fmap option_fmap option_map]. f_equal.
    apply strip_eq; [exact (f_equal (default (core th)) F6)|exact (f_equal (default None) Hao)].
  - rewrite lookup_insert_ne by done. destruct (thr st' !! y) as [t1|], (thr st !! y) as [t2|]; [|done..].
    cbn [fmap option_fmap option_map]. f_equal.
    apply strip_eq; [exact (f_equal (default (core t2)) F6)|exact (f_equal (default None) Hao)].
Qed.

Lemma touched_upd st t th' : touched st (set_thr (<[t := th']> (thr st)) st) t th'.
Proof. by split. Qed.

Lemma touched_trans st st1 st2 t th1 th2 : touched st st1 t th1 -> touched st1 st2 t th2 -> touched st st2 t th2.
Proof.
  intros H1 H2. destruct H1 as [? ? ? ? E1], H2 as [? ? ? ? E2]. split; try congruence. intros y. rewrite E2. destruct (decide (y = t)) as [->|].
  - by rewrite !lookup_insert_eq.
  - rewrite !lookup_insert_ne by done. rewrite E1. by rewrite lookup_insert_ne.
Qed.

Lemma touched_strip st st' t th1 th2 : touched st st' t th1 -> strip th1 = strip th2 -> touched st st' t th2.
Proof.
  intros [? ? ? ? E1] E. split; try done. intros y. rewrite E1. destruct (decide (y = t)) as [->|].
  - rewrite !lookup_insert_eq. simpl. by rewrite E.
  - by rewrite !lookup_insert_ne.
Qed.

Lemma touched_self st st' t th' : touched st st' t th' -> exists th, thr st' !! t = Some th /\ strip th = strip th'.
Proof.
  intros [_ _ _ _ E1]. specialize (E1 t). rewrite lookup_insert_eq in E1. destruct (thr st' !! t) as [th|]; [|done].
  exists th. split; [done|]. simpl in E1. congruence.
Qed.

Lemma touched_other st st' t th' y : touched st st' t th' -> y <> t -> strip <$> thr st' !! y = strip <$> thr st !! y.
Proof. intros [_ _ _ _ E1] Hy. rewrite E1. by rewrite lookup_insert_ne. Qed.

Lemma touched_length st st' t th' : touched st st' t th' -> length (rqs st') = length (rqs st).
Proof. intros [E1 _ _ _ _]. rewrite <- (length_fmap rq_rest (rqs st)), <- E1. by rewrite length_fmap. Qed.

Lemma strip_fields th th' : strip th' = strip th ->
  core th' = core th /\ t_array th' = t_array th.
Proof. intros H. split; [exact (f_equal (set_array None) H)|exact (f_equal t_array H)]. Qed.

(** ** Wake-ups *)
Definition effective_avg (a : Z) : Z := Z.min MAX_SLEEP_AVG (if a <? MAX_SLEEP_AVG then a + 10 else a).
Definition woken (th : thread) : thread :=
  set_prio (effective_prio (t_static th) (effective_avg (t_avg th)))
    (set_avg (effective_avg (t_avg th)) (set_state THREAD_READY th)).

Lemma effective_prio_range s a : 100 <= effective_prio s a <= 139.
Proof.
  unfold effective_prio, clamp_prio, MAX_RT_PRIO, PRIO_MAX. cbn zeta.
  repeat match goal with |- context [if ?b then _ else _] => destruct b eqn:? end; lia.
Qed.

Lemma effective_avg_range a : 0 <= a <= 100 -> 0 <= effective_avg a <= 100.
Proof. unfold effective_avg, MAX_SLEEP_AVG. destruct (Z.ltb_spec a 100); lia. Qed.

Lemma blocked_unlinked st Q t th : rep st Q -> thr st !! t = Some th -> t_state th = THREAD_BLOCKED ->
  t_array th = None /\ is_Some (t_rq th) /\ ~ is_idle st t.
Proof.
  intros H Ht Hs. destruct (rep_thr _ _ H _ _ Ht) as [_ _ _ _ _ Hlv Hhome _].
  assert (is_Some (t_rq th)) as Hrq by (apply Hhome; by right). split; [|split; [done|]].
  - destruct (t_array th) as [a|] eqn:E; [|done]. destruct Hlv as [E'|E']; [by exists a|..]; rewrite Hs in E'; done.
  - intros (c & r & Hr & <-). destruct (rq_idle _ _ (rep_rq _ _ H _ _ Hr)) as (th' & Hth' & _ & _ & Hn).
    rewrite Ht in Hth'. injection Hth' as <-. rewrite Hn in Hrq. by destruct Hrq.
Qed.

Lemma rq_unblock_locked_eq c t st th : thr st !! t = Some th -> t_state th = THREAD_BLOCKED ->
  rq_unblock_locked c t st =
    (let st1 := set_thr (<[t := woken th]> (thr st)) st in
     r ← ld_rq c st; prio_array_enqueue (Some (c, active r)) t (t_prio (woken th)) st1).
Proof.
  intros Ht Hs. unfold rq_unblock_locked. rewrite (thr_ld_ok _ _ _ Ht). ret. rewrite Hs. cbn [Z.eqb negb THREAD_BLOCKED Pos.eqb].
  rewrite (thr_upd_ok _ _ _ _ Ht). ret. erewrite thr_upd_ok by (simpl; apply lookup_insert_eq). ret.
  erewrite thr_upd_ok by (simpl; apply lookup_insert_eq). ret. simpl thr. rewrite !insert_insert_eq.
  assert (forall a, (if MAX_SLEEP_AVG <? a then MAX_SLEEP_AVG else a) = Z.min MAX_SLEEP_AVG a) as E
    by (intros a; destruct (Z.ltb_spec MAX_SLEEP_AVG a); lia).
  rewrite E. done.
Qed.

(** A thread that is on no queue is changed and put on the active array. *)
Definition join (Q : rings) (a : array_id) (p t : Z) : rings := qupd Q a p (Q a p ++ [t]).

Lemma place_spec st Q t th th' q : rep st Q -> thr st !! t = Some th -> t_array th = None ->
  t_next th' = t_next th -> t_prev th' = t_prev th -> t_array th' = None -> live th' -> is_Some (t_rq th') ->
  thread_ok (length (rqs st)) t th' -> ~ is_idle st t -> 0 <= q < Z.of_nat (length (rqs st)) ->
  let st1 := set_thr (<[t := th']> (thr st)) st in
  exists r, getz (rqs st) q = Some r /\
  returns (r ← ld_rq q st1; prio_array_enqueue (Some (q, active r)) t (t_prio th') st1) (fun st' =>
    rep st' (join Q (q, active r) (t_prio th') t) /\ touched st st' t (set_array (Some (q, active r)) th')).
Proof.
  intros H Ht Ha Hn Hp Ha' Hlv Hrq Hok Hid Hq st1. destruct (getz_lt _ _ Hq) as [r Hr]. exists r. split; [done|].
  rewrite (ld_rq_ok st1 _ r) by done. ret. assert (rep st1 Q) as H1.
  { apply (rep_upd _ _ _ th); try done; [congruence|]. rewrite Ha. intros E. by destruct E. }
  eapply returns_mono; [apply (prio_enqueue_spec st1 Q (q, active r) t th'); try done; simpl; apply lookup_insert_eq|].
  intros st' [Hrep Hm]. split; [done|]. eapply touched_trans; [apply (touched_upd st t th')|].
  apply moved_touched; [simpl; apply lookup_insert_eq|done].
Qed.

Lemma rq_unblock_spec c t st Q th : rep st Q -> thr st !! t = Some th -> 0 <= c < Z.of_nat (length (rqs st)) ->
  t_state th = THREAD_BLOCKED ->
  exists r, getz (rqs st) c = Some r /\ returns (rq_unblock_locked c t st) (fun st' =>
    rep st' (join Q (c, active r) (t_prio (woken th)) t) /\ touched st st' t (set_array (Some (c, active r)) (woken th))).
Proof.
  intros H Ht Hc Hs. rewrite (rq_unblock_locked_eq c t st th Ht Hs).
  destruct (blocked_unlinked _ _ _ _ H Ht Hs) as (Hna & Hrq & Hid). apply (place_spec st Q t th); try done; [by left|].
  destruct (rep_thr _ _ H _ _ Ht) as [? ? ? Hav ? ? ? ?]. pose proof (effective_prio_range (t_static th) (effective_avg (t_avg th))).
  pose proof (effective_avg_range _ Hav). split; try done; simpl. intros _. by left.
Qed.

(** ** Leaving and joining a queue *)
Definition leave (Q : rings) (t : Z) (th : thread) : rings :=
  match t_array th with Some a => qupd Q a (t_prio th) (without t (Q a (t_prio th))) | None => Q end.

Lemma upd_spec st Q t th f : rep st Q -> thr st !! t = Some th ->
  t_next (f th) = t_next th -> t_prev (f th) = t_prev th -> t_array (f th) = t_array th ->
  (is_Some (t_array th) -> t_prio (f th) = t_prio th) -> thread_ok (length (rqs st)) t (f th) ->
  (is_idle st t -> t_tid (f th) = t_tid th /\ t_rq (f th) = t_rq th) -> (is_Some (t_rq th) -> is_Some (t_rq (f th))) ->
  returns (upd t f st) (fun st' => rep st' Q /\ touched st st' t (f th)).
Proof.
  intros. rewrite (thr_upd_ok _ _ th) by done. ret. split; [by apply (rep_upd _ _ _ th)|apply touched_upd].
Qed.

Lemma touched_refl st t th th' : thr st !! t = Some th -> strip th' = strip th -> touched st st t th'.
Proof.
  intros Ht E. split; try done. intros y. destruct (decide (y = t)) as [->|].
  - rewrite lookup_insert_eq, Ht. simpl. by rewrite E.
  - by rewrite lookup_insert_ne.
Qed.

Lemma dequeue_touched st Q a t th : rep st Q -> thr st !! t = Some th -> t_array th = Some a ->
  returns (prio_array_dequeue (Some a) t (t_prio th) st) (fun st' => rep st' (leave Q t th) /\ touched st st' t (set_array None th)).
Proof.
  intros H Ht Ha. eapply returns_mono; [by apply (prio_dequeue_spec st Q a t th)|]. intros st' [Hr Hm]. unfold leave. rewrite Ha.
  split; [done|]. by apply moved_touched.
Qed.

Lemma thread_unlink_spec st Q t th : rep st Q -> thr st !! t = Some th ->
  returns (unlink t st) (fun st' => rep st' (leave Q t th) /\ touched st st' t (set_array None th)).
Proof.
  intros H Ht. unfold unlink. rewrite (thr_ld_ok _ _ _ Ht). ret. destruct (t_array th) as [a|] eqn:E.
  - by apply (dequeue_touched st Q a).
  - ret. unfold leave. rewrite E. split; [done|]. apply (touched_refl _ _ th); [done|]. by apply strip_eq.
Qed.

(** A thread that has left its queue may change its state. *)
Lemma home_not_idle st Q t th : rep st Q -> thr st !! t = Some th -> is_Some (t_rq th) -> ~ is_idle st t.
Proof.
  intros H Ht Hrq (c & r & Hr & <-). destruct (rq_idle _ _ (rep_rq _ _ H _ _ Hr)) as (th' & Hth' & _ & _ & Hn).
  rewrite Ht in Hth'. injection Hth' as <-. rewrite Hn in Hrq. by destruct Hrq.
Qed.

Lemma state_spec st Q t th s : rep st Q -> thr st !! t = Some th -> t_array th = None -> is_Some (t_rq th) ->
  returns (upd t (set_state s) st) (fun st' => rep st' Q /\ touched st st' t (set_state s th)).
Proof.
  intros H Ht Ha Hrq. apply upd_spec; try done.
  - destruct (rep_thr _ _ H _ _ Ht). split; try done; simpl. rewrite Ha. intros E. by destruct E.
Qed.

(** [returns] of a step that touches [t], then of one that touches it again. *)
Lemma touched_bind st m f Q Q' t th1 th2 :
  returns m (fun st' => rep st' Q /\ touched st st' t th1) ->
  (forall st1 th, rep st1 Q -> touched st st1 t th1 -> thr st1 !! t = Some th -> strip th = strip th1 ->
    returns (f st1) (fun st' => rep st' Q' /\ touched st1 st' t th2)) ->
  returns (m ≫= f) (fun st' => rep st' Q' /\ touched st st' t th2).
Proof.
  intros Hm Hf. eapply returns_bind; [exact Hm|]. intros st1 [H1 T1]. destruct (touched_self _ _ _ _ T1) as (th & Hth & E).
  eapply returns_mono; [by apply (Hf st1 th)|]. intros st2 [H2 T2]. split; [done|]. by eapply touched_trans.
Qed.

Lemma blocked_spec st Q t th k : rep st Q -> thr st !! t = Some th -> is_Some (t_rq th) ->
  returns (k st) (fun st' => exists s, rep st' (leave Q t th) /\ touched st st' t (set_state s (set_array None th))) ->
  returns (st ← k st; upd t (set_state THREAD_BLOCKED) st) (fun st' =>
    rep st' (leave Q t th) /\ touched st st' t (set_state THREAD_BLOCKED (set_array None th))).
Proof.
  intros H Ht Hrq Hk. eapply returns_bind; [exact Hk|]. intros st1 (s & H1 & T1).
  destruct (touched_self _ _ _ _ T1) as (th1 & Hth1 & E). destruct (strip_fields _ _ E) as [Ec Ea]. simpl in Ea.
  apply core_fields in Ec as (_ & _ & _ & _ & _ & _ & _ & _ & _ & Erq & _).
  eapply returns_mono; [apply (state_spec st1 _ t th1 _ H1 Hth1 Ea); by rewrite Erq|]. intros st2 [H2 T2]. split; [done|].
  eapply touched_trans; [exact T1|]. eapply touched_strip; [exact T2|]. exact (f_equal (set_state THREAD_BLOCKED) E).
Qed.

(** [scheduler_block_current] and the two lines with which a port parks its
    receiver take the thread off its queue and leave it BLOCKED. *)
Definition park_thread (t : Z) (st : sst) : out sst :=
  st ← scheduler_remove_thread t st; upd t (set_state THREAD_BLOCKED) st.

Lemma park_spec st Q t th : rep st Q -> thr st !! t = Some th -> is_Some (t_rq th) ->
  returns (park_thread t st) (fun st' =>
    rep st' (leave Q t th) /\ touched st st' t (set_state THREAD_BLOCKED (set_array None th))).
Proof.
  intros H Ht Hrq. apply (blocked_spec st Q t th (scheduler_remove_thread t)); try done. unfold scheduler_remove_thread.
  pose proof (th_null _ _ _ (rep_thr _ _ H _ _ Ht)). zcmp. rewrite (thr_ld_ok _ _ _ Ht). ret.
  destruct (t_array th) as [a|] eqn:E.
  - destruct (t_rq th) eqn:Eq; [|by destruct Hrq].
    eapply returns_bind; [by apply (dequeue_touched st Q a t th)|]. intros st1 [H1 T1].
    destruct (touched_self _ _ _ _ T1) as (th1 & Hth1 & E1). destruct (strip_fields _ _ E1) as [Ec Ea]. simpl in Ea.
    apply core_fields in Ec as (_ & _ & _ & _ & _ & _ & _ & _ & _ & Erq & _).
    eapply returns_mono; [apply (state_spec st1 _ t th1 _ H1 Hth1 Ea); simpl in Erq; by rewrite Erq, Eq|]. intros st2 [H2 T2].
    exists THREAD_ZOMBIE. split; [done|]. eapply touched_trans; [exact T1|]. eapply touched_strip; [exact T2|].
    exact (f_equal (set_state THREAD_ZOMBIE) E1).
  - ret. exists (t_state th). unfold leave. rewrite E. split; [done|]. apply (touched_refl _ _ th); [done|].
    apply strip_eq; [by destruct th|by simpl].
Qed.

Lemma block_current_spec st Q me c r th : rep st Q -> rq_current me st = Some c -> getz (rqs st) c = Some r ->
  current r <> 0 -> current r <> idle r -> thr st !! current r = Some th ->
  returns (scheduler_block_current me st) (fun st' =>
    rep st' (leave Q (current r) th) /\ touched st st' (current r) (set_state THREAD_BLOCKED (set_array None th))).
Proof.
  intros H Hme Hr H0 Hi Ht. unfold scheduler_block_current. rewrite Hme, (ld_rq_ok _ _ _ Hr). ret. zcmp.
  apply (blocked_spec st Q (current r) th (unlink (current r))); try done.
  - destruct (rq_cur _ _ (rep_rq _ _ H _ _ Hr)) as [|[|(th' & Ht' & Hrq)]]; [done..|]. congruence.
  - eapply returns_mono; [by apply (thread_unlink_spec st Q)|]. intros st1 [H1 T1]. exists (t_state th). split; [done|].
    eapply touched_strip; [exact T1|]. by destruct th.
Qed.

(** ** Waking a thread *)
Lemma nudge_spec me c st Q : rep st Q -> 0 <= c < Z.of_nat (length (rqs st)) ->
  exists i, nudge me c st = Ret (set_ipis i st) /\ rep (set_ipis i st) Q.
Proof.
  intros H Hc. destruct (getz_lt _ _ Hc) as [r Hr]. unfold nudge. rewrite (ld_rq_ok _ _ _ Hr). ret.
  exists (if bool_decide (Some c <> rq_current me st) && online (cpu_id r) st then cpu_id r :: ipis st else ipis st).
  split; [by destruct (_ && _); destruct st|]. apply (rep_same st); try done; first [apply (rep_hw _ _ H)|apply (rep_ctr _ _ H)|apply (rep_ncpus _ _ H)].
Qed.

Lemma touched_ipis st st' t th i : touched st st' t th -> touched st (set_ipis i st') t th.
Proof. intros []. by split. Qed.

Lemma unblock_spec st Q me t th c : rep st Q -> thr st !! t = Some th -> t_state th = THREAD_BLOCKED -> t_rq th = Some c ->
  exists r, getz (rqs st) c = Some r /\ returns (scheduler_unblock_thread me t st) (fun st' =>
    rep st' (join Q (c, active r) (t_prio (woken th)) t) /\ touched st st' t (set_array (Some (c, active r)) (woken th))).
Proof.
  intros H Ht Hs Hrq. pose proof (th_rq _ _ _ (rep_thr _ _ H _ _ Ht) c Hrq) as Hc.
  destruct (rq_unblock_spec c t st Q th H Ht Hc Hs) as (r & Hr & Hu). exists r. split; [done|].
  unfold scheduler_unblock_thread. pose proof (th_null _ _ _ (rep_thr _ _ H _ _ Ht)). zcmp. rewrite (thr_ld_ok _ _ _ Ht). ret. rewrite Hrq.
  eapply returns_bind; [exact Hu|]. intros st1 [H1 T1].
  destruct (nudge_spec me c st1 _ H1) as (i & -> & H2); [by rewrite (touched_length _ _ _ _ T1)|]. ret. split; [done|].
  by apply touched_ipis.
Qed.

Lemma unblock_other st Q me t th : rep st Q -> thr st !! t = Some th -> t_state th <> THREAD_BLOCKED -> is_Some (t_rq th) ->
  exists i, scheduler_unblock_thread me t st = Ret (set_ipis i st) /\ rep (set_ipis i st) Q.
Proof.
  intros H Ht Hs [c Hrq]. unfold scheduler_unblock_thread, rq_unblock_locked.
  pose proof (th_null _ _ _ (rep_thr _ _ H _ _ Ht)). zcmp. rewrite !(thr_ld_ok _ _ _ Ht). ret. rewrite Hrq. zcmp. ret.
  apply (nudge_spec me c st Q H). by apply (th_rq _ _ _ (rep_thr _ _ H _ _ Ht)).
Qed.

(** ** The interface the rest of the kernel uses

    On states with the invariant, waking and parking a thread implement the
    class [Sched] that the ports and wait queues are verified against. *)
Definition wf (st : sst) : Prop := exists Q, rep st Q.

Definition known (st : sst) (t : Z) : bool :=
  match thr st !! t with Some th => bool_decide (is_Some (t_rq th)) | None => false end.
Definition blocked (st : sst) (t : Z) : bool :=
  match thr st !! t with Some th => t_state th =? THREAD_BLOCKED | None => false end.

(** The threads keep their homes, and [t] is blocked afterwards if [b]. *)
Definition sets_blocked (t : Z) (b : bool) (st st' : sst) : Prop :=
  (forall u, known st' u = known st u) /\ forall u, blocked st' u = if t =? u then b else blocked st u.

Lemma touched_sets st st' t th th' : thr st !! t = Some th -> touched st st' t th' -> t_rq th' = t_rq th ->
  sets_blocked t (t_state th' =? THREAD_BLOCKED) st st'.
Proof.
  intros Ht T Hrq. destruct (touched_self _ _ _ _ T) as (th1 & Hth1 & E). destruct (strip_fields _ _ E) as [Ec _].
  apply core_fields in Ec as (_ & Es & _ & _ & _ & _ & _ & _ & _ & Erq & _).
  assert (forall u, t <> u -> strip <$> thr st' !! u = strip <$> thr st !! u) as Ho by (intros u Hu; by apply (touched_other _ _ t th')).
  unfold sets_blocked, known, blocked. split; intros u; destruct (Z.eqb_spec t u) as [Eu|Hne]; try rewrite <- Eu.
  - by rewrite Hth1, Ht, Erq, Hrq.
  - specialize (Ho u Hne). destruct (thr st' !! u) as [t1|], (thr st !! u) as [t2|]; try done.
    assert (strip t1 = strip t2) as E2 by exact (f_equal (default (strip t2)) Ho). by rewrite (f_equal t_rq E2 : t_rq t1 = t_rq t2).
  - by rewrite Hth1, Es.
  - specialize (Ho u Hne). destruct (thr st' !! u) as [t1|], (thr st !! u) as [t2|]; try done.
    assert (strip t1 = strip t2) as E2 by exact (f_equal (default (strip t2)) Ho).
    by rewrite (f_equal t_state E2 : t_state t1 = t_state t2).
Qed.

Lemma known_thread st t : known st t = true -> exists th, thr st !! t = Some th /\ is_Some (t_rq th).
Proof. unfold known. destruct (thr st !! t) as [th|]; [|done]. intros Hb%bool_decide_eq_true. by exists th. Qed.

Lemma wake_returns me t st : wf st -> known st t = true ->
  returns (scheduler_unblock_thread me t st) (fun st' => wf st' /\ sets_blocked t false st st').
Proof.
  intros [Q H] (th & Ht & Hrq)%known_thread. destruct (decide (t_state th = THREAD_BLOCKED)) as [Hs|Hs].
  - destruct Hrq as [c Hrq]. destruct (unblock_spec st Q me t th c H Ht Hs Hrq) as (r & _ & Hu).
    eapply returns_mono; [exact Hu|]. intros st' [H' T]. split; [by eexists|]. by apply (touched_sets _ _ _ th _ Ht) in T.
  - destruct (unblock_other st Q me t th H Ht Hs Hrq) as (i & -> & H'). split; [by eexists|]. split; [done|].
    intros u. change (blocked (set_ipis i st) u) with (blocked st u). destruct (Z.eqb_spec t u) as [<-|]; [|done].
    unfold blocked. rewrite Ht. by apply Z.eqb_neq.
Qed.

Lemma park_returns t st : wf st -> known st t = true ->
  returns (park_thread t st) (fun st' => wf st' /\ sets_blocked t true st st').
Proof.
  intros [Q H] (th & Ht & Hrq)%known_thread. eapply returns_mono; [by apply (park_spec st Q t th)|]. intros st' [H' T].
  split; [by eexists|]. by apply (touched_sets _ _ _ th _ Ht) in T.
Qed.

Definition sched_state : Type := {st : sst | wf st}.

Definition run_sched {R : sst -> Prop} (m : out sst) : returns m (fun st' => wf st' /\ R st') -> sched_state :=
  match m with
  | Ret st => fun H => exist wf st (proj1 H)
  | _ => fun H => False_rect _ H
  end.

Lemma run_sched_spec R m (H : returns m (fun st' => wf st' /\ R st')) : R (proj1_sig (run_sched m H)).
Proof. destruct m; simpl in *; [apply H|done..]. Qed.

Section instance.
Context (me : Z).

Definition sched_wake (t : Z) (s : sched_state) : sched_state :=
  match Bool.bool_dec (known (proj1_sig s) t) true with
  | left Hk => run_sched _ (wake_returns me t _ (proj2_sig s) Hk)
  | right _ => s
  end.

Definition sched_park (t : Z) (s : sched_state) : sched_state :=
  match Bool.bool_dec (known (proj1_sig s) t) true with
  | left Hk => run_sched _ (park_returns t _ (proj2_sig s) Hk)
  | right _ => s
  end.

#[local] Instance scheduler_sched : Sched sched_state := {|
  wake := sched_wake;
  park := sched_park;
  thread_known s := known (proj1_sig s);
  thread_blocked s := blocked (proj1_sig s);
|}.

Lemma wf_blocked_known st t : wf st -> blocked st t = true -> known st t = true.
Proof.
  intros [Q H]. unfold blocked, known. destruct (thr st !! t) as [th|] eqn:Ht; [|done]. intros Hs%Z.eqb_eq.
  apply bool_decide_eq_true. by apply (blocked_unlinked st Q t th).
Qed.

Lemma scheduler_laws : SchedLaws sched_state.
Proof.
  split; intros s t u; simpl; unfold sched_wake, sched_park; destruct (Bool.bool_dec (known (proj1_sig s) t) true) as [Hk|Hk].
  - destruct (run_sched_spec _ _ (wake_returns me t _ (proj2_sig s) Hk)) as [_ ->]. destruct (t =? u); [by rewrite andb_false_r|by rewrite andb_true_r].
  - destruct (Z.eqb_spec t u) as [<-|]; [|by rewrite andb_true_r]. destruct (blocked (proj1_sig s) t) eqn:E; [|done].
    destruct Hk. by apply wf_blocked_known; [apply (proj2_sig s)|].
  - destruct (run_sched_spec _ _ (park_returns t _ (proj2_sig s) Hk)) as [_ ->]. rewrite Hk. by destruct (t =? u).
  - apply Bool.not_true_is_false in Hk. by rewrite Hk.
  - destruct (run_sched_spec _ _ (wake_returns me t _ (proj2_sig s) Hk)) as [-> _]. done.
  - done.
  - destruct (run_sched_spec _ _ (park_returns t _ (proj2_sig s) Hk)) as [-> _]. done.
  - done.
Qed.
End instance.
