(* ===== verification/SchedMove.v ===== *)
(** * Placement, migration, stealing and balancing

    The operations of Scheduler.v that put a thread on the queue of another
    processor. *)

From stdpp Require Import base numbers list gmap.
From Stdlib Require Import ZArith Lia.
From S2P Require Import Prelude Links Scheduler SchedQueues SchedSwitch SchedOps.

#[local] Open Scope Z_scope.

(** ** Placing a new thread *)
Definition eligible (st : sst) (i q : Z) : Prop :=
  exists cp, getz (cpus st) i = Some cp /\ c_online cp = true /\ c_runqueue cp = Some q.

(** [c] has the least load of the runqueues of the processors online. *)
Definition least_loaded (st : sst) (c : Z) : Prop :=
  exists r, getz (rqs st) c = Some r /\
  forall i q r', eligible st i q -> getz (rqs st) q = Some r' -> load_of r <= load_of r'.

Lemma load_range r : 0 <= load_of r < 2 ^ 32.
Proof. apply u32_range. Qed.

Lemma least_step_spec st Q i best bl bid : rep st Q -> 0 <= i < cpu_nr st ->
  let I k (acc : option Z * Z * Z) :=
    match acc.1.1 with
    | None => acc.1.2 = 2 ^ 32 - 1 /\ acc.2 = CPU_MAX /\ forall j q, j < k -> ~ eligible st j q
    | Some c => exists r, getz (rqs st) c = Some r /\ acc.1.2 = load_of r /\
        forall j q r', j < k -> eligible st j q -> getz (rqs st) q = Some r' -> load_of r <= load_of r'
    end in
  I i (best, bl, bid) -> returns (least_step st i (best, bl, bid)) (I (i + 1)).
Proof.
  intros H Hi I HI. destruct (getz_lt (cpus st) i Hi) as [cp Hcp]. pose proof (rep_ncpus _ _ H) as Hn. unfold cpu_nr in Hi.
  unfold least_step. rewrite (rd_getz _ _ _ Hcp). ret.
  assert ((forall q, ~ eligible st i q) -> I (i + 1) (best, bl, bid)) as Hskip.
  { intros Hno. unfold I in *. cbn [fst snd] in *. destruct best as [c|].
    - destruct HI as (r & Hr & Hl & Hall). exists r. split; [done|]. split; [done|]. intros j q r' Hj He Hr'.
      destruct (decide (j = i)) as [->|]; [by destruct (Hno q)|]. apply (Hall j q r'); [lia|done..].
    - destruct HI as (Hb & Hid & Hall). split; [done|]. split; [done|]. intros j q Hj He.
      destruct (decide (j = i)) as [->|]; [by destruct (Hno q)|]. apply (Hall j q); [lia|done]. }
  destruct (c_runqueue cp) as [q|] eqn:Eq.
  2: { ret. apply Hskip. intros q (cp' & Hc & _ & Hq). congruence. }
  destruct (c_online cp) eqn:Eo; cbn [negb].
  2: { ret. apply Hskip. intros q' (cp' & Hc & Ho & _). congruence. }
  destruct (getz_lt (rqs st) q) as [r' Hr']; [apply (rep_cpus _ _ H i); unfold rq_current; by rewrite Hcp|].
  rewrite (ld_rq_ok _ _ _ Hr'). ret. cbn zeta. pose proof (load_range r').
  assert (forall q' r0, eligible st i q' -> getz (rqs st) q' = Some r0 -> r0 = r') as Huniq.
  { intros q' r0 (cp' & Hc & _ & Hq') Hr0. congruence. }
  destruct (_ || _) eqn:Ec; ret.
  - unfold I. cbn [fst snd]. exists r'. split; [done|]. split; [done|]. intros j q' r0 Hj He Hr0.
    destruct (decide (j = i)) as [->|Hji]; [by rewrite (Huniq q' r0 He Hr0)|].
    unfold I in HI. cbn [fst snd] in HI. destruct best as [c|].
    + destruct HI as (rb & Hrb & Hl & Hall). specialize (Hall j q' r0 ltac:(lia) He Hr0). subst bl. lia.
    + destruct HI as (_ & _ & Hall). destruct (Hall j q' ltac:(lia) He).
  - unfold I in *. cbn [fst snd] in *. destruct best as [c|].
    + destruct HI as (rb & Hrb & Hl & Hall). exists rb. split; [done|]. split; [done|]. intros j q' r0 Hj He Hr0.
      destruct (decide (j = i)) as [->|Hji]; [rewrite (Huniq q' r0 He Hr0); lia|]. apply (Hall j q' r0); [lia|done..].
    + destruct HI as (-> & -> & _). unfold CPU_MAX in Ec. lia.
Qed.

Lemma pick_least_spec st Q : rep st Q -> returns (pick_least_loaded_rq st) (fun c =>
  0 <= c < Z.of_nat (length (rqs st)) /\ least_loaded st c).
Proof.
  intros H. unfold pick_least_loaded_rq. eapply returns_bind.
  - eapply (for_range_inv (fun k acc =>
      match acc.1.1 with
      | None => acc.1.2 = 2 ^ 32 - 1 /\ acc.2 = CPU_MAX /\ forall j q, j < k -> ~ eligible st j q
      | Some c => exists r, getz (rqs st) c = Some r /\ acc.1.2 = load_of r /\
          forall j q r', j < k -> eligible st j q -> getz (rqs st) q = Some r' -> load_of r <= load_of r'
      end)).
    + cbn [fst snd]. split; [done|]. split; [done|]. intros j q Hj (cp & Hc & _). apply getz_Some_lt in Hc. lia.
    + intros i [[best bl] bid] Hi HI. by apply (least_step_spec st Q i best bl bid H Hi).
  - intros [[best bl] bid] HI. cbn [fst snd] in HI. ret.
    assert (forall j q, eligible st j q -> j < Z.max 0 (cpu_nr st)) as Hlt.
    { intros j q (cp & Hc & _). apply getz_Some_lt in Hc. unfold cpu_nr. lia. }
    destruct best as [c|]; cbn [default from_option id].
    + destruct HI as (r & Hr & _ & Hall). split; [by apply getz_Some_lt in Hr|]. exists r. split; [done|].
      intros i q r' He Hr'. apply (Hall i q r'); [by apply (Hlt i q)|done..].
    + destruct HI as (_ & _ & Hall). pose proof (rep_some _ _ H). destruct (getz_lt (rqs st) 0) as [r Hr]; [lia|].
      split; [simpl; lia|]. exists r. split; [done|]. intros i q r' He _. destruct (Hall i q); [by apply (Hlt i q)|done].
Qed.

Definition sliced (th : thread) : thread :=
  if t_slice th =? 0 then set_slice (prio_to_timeslice (t_static th)) th else th.
Definition placed (c : Z) (th : thread) : thread := set_home (Some c) (set_state THREAD_READY (sliced th)).

Lemma placed_ok n c t th : thread_ok n t th -> t_array th = None -> 0 <= c < Z.of_nat n -> thread_ok n t (placed c th).
Proof.
  intros [] Ha Hc. unfold placed, sliced. pose proof (u32_range ((PRIO_MAX - 1 - t_static th) * 2 + 2)).
  destruct (t_slice th =? 0); split; try done; simpl; try (by intros; left); naive_solver.
Qed.

Lemma add_thread_spec st Q me t th : rep st Q -> thr st !! t = Some th -> t_array th = None -> ~ is_idle st t ->
  returns (scheduler_add_thread me t st) (fun st' => exists c r, least_loaded st c /\ getz (rqs st) c = Some r /\
    rep st' (join Q (c, active r) (t_prio th) t) /\ touched st st' t (set_array (Some (c, active r)) (placed c th))).
Proof.
  intros H Ht Ha Hid. pose proof (rep_thr _ _ H _ _ Ht) as Hok. destruct Hok as [T1 T2 T3 T4 T5 T6 T7 T8].
  unfold scheduler_add_thread. zcmp. rewrite (thr_ld_ok _ _ _ Ht). ret. zcmp. ret. rewrite (thr_ld_ok _ _ _ Ht). ret. zcmp. ret.
  rewrite (thr_ld_ok _ _ _ Ht). ret.
  assert ((if t_slice th =? 0 then upd t (set_slice (prio_to_timeslice (t_static th))) st else Ret st) =
    Ret (set_thr (<[t := sliced th]> (thr st)) st)) as ->.
  { unfold sliced. destruct (t_slice th =? 0); [by apply thr_upd_ok|]. rewrite insert_id by done. by destruct st. }
  ret. set (st1 := set_thr _ st). assert (pick_least_loaded_rq st1 = pick_least_loaded_rq st) as -> by done.
  eapply returns_bind; [by apply (pick_least_spec st Q)|]. intros c [Hc Hleast].
  rewrite (thr_upd_ok st1 t (sliced th)) by (apply lookup_insert_eq). ret. simpl thr. rewrite insert_insert_eq.
  erewrite thr_upd_ok by (simpl; apply lookup_insert_eq). ret. simpl thr. rewrite insert_insert_eq.
  change (set_thr (<[t := set_home (Some c) (set_state THREAD_READY (sliced th))]> (thr st)) (set_thr _ st1))
    with (set_thr (<[t := placed c th]> (thr st)) st).
  destruct (place_spec st Q t th (placed c th) c) as (r & Hr & Hp); try done; try (by unfold placed, sliced; destruct (t_slice th =? 0)).
  { by left. } { by apply placed_ok; [apply (rep_thr _ _ H)|..]. }
  rewrite (ld_rq_ok _ _ r) in * by done. cbn [mbind out_bind] in *. rewrite (thr_ld_ok _ _ (placed c th)) by (simpl; apply lookup_insert_eq). ret.
  eapply returns_bind; [exact Hp|]. intros st2 [H2 T].
  destruct (nudge_spec me c st2 _ H2) as (i & -> & H3); [by rewrite (touched_length _ _ _ _ T)|]. ret. exists c, r.
  split; [done|]. split; [done|]. assert (t_prio (placed c th) = t_prio th) as Ep by (unfold placed, sliced; by destruct (t_slice th =? 0)).
  rewrite Ep in H3. split; [done|]. by apply touched_ipis.
Qed.

(** ** Moving a queued thread to another runqueue *)
Definition migrated (q : Z) (th : thread) : thread := set_home (Some q) (set_state THREAD_READY th).

Lemma migrated_strip q th th' : strip th' = strip (set_array None th) -> strip (migrated q th') = strip (migrated q (set_array None th)).
Proof. intros E. exact (f_equal (fun x => set_home (Some q) (set_state THREAD_READY x)) E). Qed.

Lemma returns_bind2 {A B C} (m : out A) (k : A -> out B) (g : B -> out C) P R :
  returns (m ≫= k) P -> (forall b, P b -> returns (g b) R) -> returns (m ≫= fun x => k x ≫= g) R.
Proof. destruct m as [a| |]; simpl; [apply returns_bind|done..]. Qed.

Lemma requeue_spec st Q t th a q k : rep st Q -> thr st !! t = Some th -> t_array th = Some a ->
  0 <= q < Z.of_nat (length (rqs st)) ->
  (forall st1 th1, thr st1 !! t = Some th1 ->
    k st1 = (let st2 := set_thr (<[t := migrated q th1]> (thr st1)) st1 in
             r ← ld_rq q st2; prio_array_enqueue (Some (q, active r)) t (t_prio th1) st2)) ->
  exists r, getz (rqs st) q = Some r /\
  returns (st ← prio_array_dequeue (Some a) t (t_prio th) st; k st) (fun st' =>
    rep st' (join (leave Q t th) (q, active r) (t_prio th) t) /\ touched st st' t (set_array (Some (q, active r)) (migrated q th))).
Proof.
  intros H Ht Ha Hq Hk. destruct (getz_lt _ _ Hq) as [r Hr]. exists r. split; [done|].
  eapply returns_bind; [by apply (dequeue_touched st Q a t th)|]. intros st1 [H1 T1].
  destruct (touched_self _ _ _ _ T1) as (th1 & Hth1 & E1). pose proof (strip_fields _ _ E1) as [Ec Ea]. simpl in Ea.
  pose proof (core_fields _ _ Ec) as (_ & _ & _ & _ & _ & _ & Ep & _ & _ & Erq & _). simpl in Ep, Erq.
  rewrite (Hk st1 th1 Hth1).
  destruct (place_spec st1 (leave Q t th) t th1 (migrated q th1) q) as (r1 & Hr1 & Hp); try done.
  - by left.
  - destruct (rep_thr _ _ H1 _ _ Hth1). rewrite (touched_length _ _ _ _ T1) in *. split; try done; simpl.
    + intros _. by left.
    + by intros c [= <-].
  - apply (home_not_idle _ _ _ _ H1 Hth1). rewrite Erq. apply (th_home _ _ _ (rep_thr _ _ H _ _ Ht)). left. by exists a.
  - by rewrite (touched_length _ _ _ _ T1).
  - assert (active r1 = active r) as Eact.
    { destruct T1 as [E _ _ _ _]. apply getz_Some in Hr as [_ Hr]. apply getz_Some in Hr1 as [_ Hr1].
      pose proof (f_equal (fun l => l !! Z.to_nat q) E) as E'. simpl in E'. rewrite !list_lookup_fmap, Hr, Hr1 in E'. by injection E'. }
    rewrite Eact in Hp. eapply returns_mono; [exact Hp|]. intros st2 [H2 T2]. simpl t_prio in H2. rewrite Ep in H2.
    split; [done|]. eapply touched_trans; [exact T1|]. eapply touched_strip; [exact T2|].
    exact (f_equal (set_array (Some (q, active r))) (migrated_strip q th th1 E1)).
Qed.

(** Both ways of writing the fields of the thread that is moved. *)
Lemma migrate_to_eq q t st1 th1 : thr st1 !! t = Some th1 ->
  migrate_to q t st1 = (let st2 := set_thr (<[t := migrated q th1]> (thr st1)) st1 in
    r ← ld_rq q st2; prio_array_enqueue (Some (q, active r)) t (t_prio th1) st2).
Proof.
  intros Ht1. unfold migrate_to. rewrite (thr_upd_ok _ _ _ _ Ht1). ret. erewrite thr_upd_ok by (simpl; apply lookup_insert_eq). ret. simpl thr.
  rewrite insert_insert_eq. cbn zeta. destruct (ld_rq q _); ret; [|done..]. by rewrite (thr_ld_ok _ _ (migrated q th1)) by (simpl; apply lookup_insert_eq).
Qed.

Lemma steal_into_eq q t st1 th1 : thr st1 !! t = Some th1 ->
  steal_into q t st1 = (let st2 := set_thr (<[t := migrated q th1]> (thr st1)) st1 in
    r ← ld_rq q st2; prio_array_enqueue (Some (q, active r)) t (t_prio th1) st2).
Proof.
  intros Ht1. unfold steal_into. rewrite (thr_upd_ok _ _ _ _ Ht1). ret. erewrite thr_upd_ok by (simpl; apply lookup_insert_eq). ret. simpl thr.
  rewrite insert_insert_eq. cbn zeta. destruct (ld_rq q _); ret; [|done..]. by rewrite (thr_ld_ok _ _ (migrated q th1)) by (simpl; apply lookup_insert_eq).
Qed.

(** [thread_migrate] moves a READY thread that is queued and not the current
    thread of its home, and changes nothing otherwise. *)
Lemma migrate_spec st Q me t th target : rep st Q -> thr st !! t = Some th -> 0 <= target ->
  returns (thread_migrate me t target st) (fun x =>
    (x.2 = st /\ (x.1 = -1 \/ x.1 = 0 /\ exists q, eligible st target q /\ t_rq th = Some q)) \/
    exists a q r, x.1 = 0 /\ eligible st target q /\ t_state th = THREAD_READY /\ t_array th = Some a /\
      t_rq th <> Some q /\ getz (rqs st) q = Some r /\
      rep x.2 (join (leave Q t th) (q, active r) (t_prio th) t) /\
      touched st x.2 t (set_array (Some (q, active r)) (migrated q th))).
Proof.
  intros H Ht Htg. pose proof (th_null _ _ _ (rep_thr _ _ H _ _ Ht)) as H0. unfold thread_migrate. zcmp.
  destruct (_ || _) eqn:Eb; [left; by split; [|left]|]. apply orb_false_iff in Eb as [Eb%Z.leb_gt _].
  destruct (getz_lt (cpus st) target) as [cp Hcp]; [unfold cpu_nr in Eb; lia|]. rewrite (rd_getz _ _ _ Hcp). ret.
  rewrite (thr_ld_ok _ _ _ Ht). ret. destruct (c_runqueue cp) as [q|] eqn:Eq; [|left; by split; [|left]].
  destruct (c_online cp) eqn:Eo; cbn [negb]; [|left; by split; [|left]].
  assert (eligible st target q) as He by (by exists cp). destruct (t_rq th) as [s|] eqn:Es; [|left; by split; [|left]].
  destruct (Z.eqb_spec s q) as [->|Hne]; [left; split; [done|]; right; split; [done|]; by exists q|].
  destruct (Z.eqb_spec (t_state th) THREAD_READY) as [Hst|]; cbn [negb]; [|left; by split; [|left]].
  destruct (getz_lt (rqs st) s) as [sr Hsr]; [by apply (th_rq _ _ _ (rep_thr _ _ H _ _ Ht))|]. rewrite (ld_rq_ok _ _ _ Hsr). ret.
  destruct (t_array th) as [a|] eqn:Ea; [|left; by split; [|left]]. destruct (current sr =? t); [left; by split; [|left]|].
  destruct (requeue_spec st Q t th a q (migrate_to q t)) as (r & Hr & Hm); try done.
  - apply (rep_cpus _ _ H target). unfold rq_current. by rewrite Hcp.
  - apply migrate_to_eq.
  - eapply returns_bind2; [exact Hm|]. intros st1 [H1 T1].
    ret. right. exists a, q, r. cbn [fst snd]. split; [done|]. split; [done|]. split; [done|]. split; [done|]. split; [congruence|].
    split; [done|]. destruct (_ && _); [|done]. split; [|by apply touched_ipis].
    apply (rep_same st1); try done; first [apply (rep_hw _ _ H1)|apply (rep_ctr _ _ H1)|apply (rep_ncpus _ _ H1)].
Qed.

(** ** The current thread while others are moved

    No step below makes a thread RUNNING: a thread that runs afterwards did so
    before, and only its links and its deadline may have changed. *)
Definition body (th : thread) : thread := set_until 0 (strip th).

Record rq_keep (r r' : runqueue) : Prop := {
  rk_cpu : cpu_id r' = cpu_id r;
  rk_act : active r' = active r;
  rk_exp : expired r' = expired r;
  rk_cur : current r' = current r;
  rk_idle : idle r' = idle r;
  rk_fpu : fpu_owner r' = fpu_owner r;
}.

Record keeps (c : Z) (st st' : sst) : Prop := {
  ke_rq r : getz (rqs st) c = Some r -> exists r', getz (rqs st') c = Some r' /\ rq_keep r r';
  ke_run t th' : thr st' !! t = Some th' -> t_state th' = THREAD_RUNNING ->
    exists th, thr st !! t = Some th /\ body th' = body th;
  ke_cpus : cpus st' = cpus st;
  ke_hw : hw st' = hw st;
}.

Lemma step_keeps_refl c st : keeps c st st.
Proof. split; try done; [intros r Hr; by exists r|intros t th Hth _; by exists th]. Qed.

Lemma body_state th th' : body th' = body th -> t_state th' = t_state th.
Proof. intros E. exact (f_equal t_state E). Qed.

Lemma strip_body th th' : strip th' = strip th -> body th' = body th.
Proof. intros E. exact (f_equal (set_until 0) E). Qed.

Lemma step_keeps_trans c st st1 st2 : keeps c st st1 -> keeps c st1 st2 -> keeps c st st2.
Proof.
  intros [A1 A2 A3 A4] [B1 B2 B3 B4]. split; try congruence.
  - intros r Hr. destruct (A1 r Hr) as (r1 & Hr1 & []). destruct (B1 r1 Hr1) as (r2 & Hr2 & []). exists r2. split; [done|]. split; congruence.
  - intros t th Hth Hs. destruct (B2 t th Hth Hs) as (th1 & Hth1 & E1). rewrite (body_state _ _ E1) in Hs.
    destruct (A2 t th1 Hth1 Hs) as (th0 & Hth0 & E0). exists th0. split; [done|]. by rewrite E1.
Qed.

Lemma rest_keep r r' : rq_rest r' = rq_rest r -> rq_keep r r'.
Proof. intros [=]. by split. Qed.

Lemma fmap_rq st st' c r : rq_rest <$> rqs st' = rq_rest <$> rqs st -> getz (rqs st) c = Some r ->
  exists r', getz (rqs st') c = Some r' /\ rq_rest r' = rq_rest r.
Proof.
  intros E Hr. apply getz_Some in Hr as [H0 Hr]. pose proof (f_equal (fun l => l !! Z.to_nat c) E) as E'. simpl in E'.
  rewrite !list_lookup_fmap, Hr in E'. destruct (rqs st' !! Z.to_nat c) as [r'|] eqn:Hr'; [|done].
  exists r'. split; [by apply getz_Some|]. exact (f_equal (default (rq_rest r)) E').
Qed.

Lemma touched_keeps c st st' t th' : touched st st' t th' -> t_state th' <> THREAD_RUNNING -> keeps c st st'.
Proof.
  intros T Hno. split; [| |apply T|apply T].
  - intros r Hr. destruct (fmap_rq _ _ _ _ (to_rest _ _ _ _ T) Hr) as (r' & Hr' & E). exists r'. split; [done|]. by apply rest_keep.
  - intros u th Hth Hs. destruct (decide (u = t)) as [->|Hne].
    + destruct (touched_self _ _ _ _ T) as (th1 & Hth1 & E). apply strip_body, body_state in E. congruence.
    + pose proof (touched_other _ _ _ _ _ T Hne) as Ho. rewrite Hth in Ho. destruct (thr st !! u) as [th1|]; [|done].
      exists th1. split; [done|]. apply strip_body. exact (f_equal (default (strip th)) Ho).
Qed.

(** ** Stealing *)
Definition safe_step (c : Z) (st st' : sst) : Prop := wf st' /\ keeps c st st'.

Lemma steal_victim_spec st Q s side sr top : rep st Q -> getz (rqs st) s = Some sr -> best (Q (s, side)) top ->
  returns (steal_victim (current sr) (arr sr side) top st) (fun o =>
    match o with Some t => t ∈ Q (s, side) top /\ t <> current sr | None => True end).
Proof.
  intros H Hsr (Hb1 & Hb2 & _). unfold steal_victim.
  pose proof (pa_heads _ _ (rep_arr _ _ H (s, side) _ ltac:(unfold arrs; simpl; by rewrite Hsr)) top Hb1) as Hh. simpl in Hh.
  rewrite (rd_getz _ _ _ Hh). ret. pose proof (rep_ring _ _ H (s, side) top) as Hring.
  destruct (Q (s, side) top) as [|h tl] eqn:EQ; [done|]. change (after (h :: tl)) with h in *.
  destruct (Z.eqb_spec h (current sr)) as [E|Hne]; [|ret; split; [by left|done]].
  destruct (rep_dom _ _ (s, side) top h H) as [th Hth]; [rewrite EQ; by left|]. rewrite (thr_ld_ok _ _ _ Hth). ret.
  destruct (dll_first _ _ _ Hring) as [Hn _]. unfold nxt in Hn. rewrite Hth in Hn. simpl in Hn. injection Hn as ->.
  destruct (Z.eqb_spec (after_of h tl) h) as [|Hn]; ret; [done|]. split; [|congruence].
  destruct (after_in (z := h) tl); [done|by right].
Qed.

Lemma steal_one_spec st Q c i : rep st Q -> 0 <= c < Z.of_nat (length (rqs st)) -> 0 <= i < cpu_nr st ->
  returns (steal_one c i st) (fun o => match o with Some st' => safe_step c st st' | None => True end).
Proof.
  intros H Hc Hi. unfold steal_one. destruct (getz_lt _ _ Hc) as [r Hr]. rewrite (ld_rq_ok _ _ _ Hr). ret.
  destruct (i =? cpu_id r); [done|]. destruct (getz_lt (cpus st) i Hi) as [cp Hcp]. rewrite (rd_getz _ _ _ Hcp). ret.
  destruct (c_runqueue cp) as [s|] eqn:Es; [|done]. destruct (c_online cp); cbn [negb]; [|done].
  destruct (getz_lt (rqs st) s) as [sr Hsr]; [apply (rep_cpus _ _ H i); unfold rq_current; by rewrite Hcp|].
  rewrite (ld_rq_ok _ _ _ Hsr). ret. cbn zeta. set (top0 := prio_array_find_top (arr sr (active sr))).
  set (sd := if top0 <? 0 then expired sr else active sr).
  assert ((if top0 <? 0 then prio_array_find_top (arr sr (expired sr)) else top0) = prio_array_find_top (arr sr sd)) as ->
    by (unfold sd; by destruct (top0 <? 0)).
  destruct (rep_top _ _ s sr sd H Hsr) as [[-> _]|Hb]; [done|]. set (top := prio_array_find_top (arr sr sd)) in *.
  pose proof Hb as [Hb0 _]. zcmp. eapply returns_bind; [by eapply steal_victim_spec|]. intros [t|] Ho; [|done].
  destruct Ho as [Hin Hcur]. apply (rep_mem _ _ H) in Hin as (th & Hth & Ha & Hp). rewrite <- Hp.
  destruct (requeue_spec st Q t th (s, sd) c (steal_into c t)) as (r1 & _ & Hm); try done; [apply steal_into_eq|].
  eapply returns_bind2; [exact Hm|]. intros st1 [H1 T1]. ret. split; [by eexists|]. by eapply touched_keeps.
Qed.

Lemma steal_spec st Q c : rep st Q -> 0 <= c < Z.of_nat (length (rqs st)) -> returns (rq_steal c st) (safe_step c st).
Proof.
  intros H Hc. unfold rq_steal. destruct (getz_lt _ _ Hc) as [r Hr]. rewrite (ld_rq_ok _ _ _ Hr). ret.
  assert (safe_step c st st) as Hid by (split; [by exists Q|apply step_keeps_refl]). destruct (0 <? _); [done|].
  assert (forall l, (forall i, i ∈ l -> 0 <= i < cpu_nr st) -> returns (steal_loop l c st) (safe_step c st)) as Hgen.
  { induction l as [|i l IH]; intros Hl; cbn [steal_loop]; [done|].
    eapply returns_bind; [apply (steal_one_spec st Q c i H Hc); apply Hl; by left|]. intros [st'|] Ho; [done|].
    apply IH. intros j Hj. apply Hl. by right. }
  apply Hgen. intros i Hi%elem_of_seqZ. lia.
Qed.

(** ** Balancing *)
Lemma ring_victim_spec st cur h tl : cring st (h :: tl) -> (forall y, y ∈ h :: tl -> is_Some (thr st !! y)) ->
  forall l2 l1 t fuel, h :: tl = l1 ++ t :: l2 -> (length l2 < fuel)%nat ->
  returns (ring_victim fuel cur h t st) (fun v => match v with Some u => u ∈ h :: tl | None => True end).
Proof.
  intros Hring Hd. induction l2 as [|u l2 IH]; intros l1 t fuel E Hf; (destruct fuel as [|fuel]; [simpl in Hf; lia|]); cbn [ring_victim].
  all: assert (t ∈ h :: tl) as Htin by (rewrite E; set_solver); destruct (Hd t Htin) as [th Hth]; rewrite (thr_ld_ok _ _ _ Hth); ret.
  all: pose proof Hring as (Hnd & Hl & _); rewrite E in Hl; pose proof (links_next _ _ _ _ _ _ Hl) as Hn; unfold nxt in Hn;
    rewrite Hth in Hn; simpl in Hn; injection Hn as Hn; destruct (negb _ && _); ret; [done|].
  - rewrite Hn. by zcmp.
  - rewrite Hn. destruct (Z.eqb_spec u h); [done|]. apply (IH (l1 ++ [t])); [by rewrite <- app_assoc|simpl in Hf; lia].
Qed.

Lemma queue_victim_spec st Q cur : rep st Q -> forall heads,
  (forall h, h ∈ heads -> h = 0 \/ exists a p tl, Q a p = h :: tl) ->
  returns (queue_victim cur heads st) (fun v => match v with Some u => is_Some (thr st !! u) | None => True end).
Proof.
  intros H. induction heads as [|h heads IH]; intros Hh; cbn [queue_victim]; [done|].
  assert (returns (queue_victim cur heads st) (fun v => match v with Some u => is_Some (thr st !! u) | None => True end)) as Hrest
    by (apply IH; intros x Hx; apply Hh; by right).
  destruct (Z.eqb_spec h 0) as [|H0]; [done|]. destruct (Hh h) as [|(a & p & tl & EQ)]; [by left|done|].
  eapply returns_bind.
  - eapply (ring_victim_spec st cur h tl) with (l1 := []); [rewrite <- EQ; apply (rep_ring _ _ H)| |done|].
    + intros y Hy. apply (rep_dom _ _ a p y H). by rewrite EQ.
    + assert (length (h :: tl) <= size (thr st))%nat; [|simpl in *; lia]. rewrite <- EQ. apply nodup_size; [apply (rep_nodup _ _ _ _ H)|].
      intros y Hy. by apply (rep_dom _ _ a p y H).
  - intros [u|] Hu; [|done]. ret. apply (rep_dom _ _ a p u H). by rewrite EQ.
Qed.

Lemma busiest_spec st Q me c acc0 : rep st Q -> 0 <= c < Z.of_nat (length (rqs st)) ->
  (forall s, acc0.1 = Some s -> 0 <= s < Z.of_nat (length (rqs st))) ->
  returns (for_range 0 (cpu_nr st) (busiest_step me c st) acc0) (fun acc =>
    forall s, acc.1 = Some s -> 0 <= s < Z.of_nat (length (rqs st))).
Proof.
  intros H Hc H0. apply (for_range_inv (fun _ acc => forall s, acc.1 = Some s -> 0 <= s < Z.of_nat (length (rqs st)))); [done|].
  intros i [src bl] Hi HI. unfold busiest_step. destruct (getz_lt (cpus st) i Hi) as [cp Hcp]. rewrite (rd_getz _ _ _ Hcp). ret.
  destruct (c_runqueue cp) as [q|] eqn:Eq; [|done]. destruct (_ || _); [done|].
  assert (0 <= q < Z.of_nat (length (rqs st))) as Hq by (apply (rep_cpus _ _ H i); unfold rq_current; by rewrite Hcp).
  destruct (getz_lt _ _ Hq) as [r Hr]. rewrite (ld_rq_ok _ _ _ Hr). ret. cbn zeta. destruct (_ <? _); [|done].
  assert (forall x : Z, forall s, (Some q, x).1 = Some s -> 0 <= s < Z.of_nat (length (rqs st))) as Hok by (by intros x s [= <-]).
  destruct src as [s|]; [|ret; apply Hok]. destruct (_ && _); [ret; apply Hok|].
  destruct (getz_lt _ _ (HI s eq_refl)) as [sr Hsr]. rewrite (ld_rq_ok _ _ _ Hsr). ret. destruct (_ && _); ret; [apply Hok|done].
Qed.

Lemma rebalance_spec st Q me c : rep st Q -> rq_current me st = Some c -> returns (scheduler_rebalance me st) (safe_step c st).
Proof.
  intros H Hme. pose proof (rep_cpus _ _ H me c Hme) as Hc. assert (safe_step c st st) as Hid by (split; [by exists Q|apply step_keeps_refl]).
  unfold scheduler_rebalance. rewrite Hme. destruct (_ <? _); [done|]. destruct (getz_lt _ _ Hc) as [r Hr].
  rewrite (ld_rq_ok _ _ _ Hr). ret. cbn zeta. eapply returns_bind; [by apply (busiest_spec st Q)|]. intros [src bl] Hs. cbn [fst snd] in *.
  destruct src as [s|]; [|done]. destruct (_ <? _); [done|]. destruct (getz_lt _ _ (Hs s eq_refl)) as [sr Hsr].
  rewrite (ld_rq_ok _ _ _ Hsr). ret. eapply returns_bind.
  - apply (queue_victim_spec st Q _ H). intros h Hh. set (a := (s, active sr)).
    pose proof (rep_arr _ _ H a _ ltac:(unfold arrs; simpl; by rewrite Hsr)) as Hpa. simpl in Hpa.
    apply list_elem_of_lookup in Hh as [p Hp]. pose proof (lookup_lt_Some _ _ _ Hp) as Hlt. rewrite (pa_qlen _ _ Hpa) in Hlt.
    pose proof (pa_heads _ _ Hpa (Z.of_nat p) ltac:(lia)) as Hg. rewrite getz_of_nat, Hp in Hg. injection Hg as Hg.
    destruct (Q a (Z.of_nat p)) as [|y tl] eqn:EQ; [by left|right]. exists a, (Z.of_nat p), tl. rewrite EQ. simpl in Hg. by rewrite Hg.
  - intros [t|] Ht; [|done]. destruct Ht as [th Hth]. eapply returns_bind.
    + apply (migrate_spec st Q me t th (cpu_id r) H Hth). apply (rep_rq _ _ H _ _ Hr).
    + intros [rc st'] [[-> _]|(a & q & r' & _ & _ & _ & _ & _ & _ & H1 & T1)]; [done|]. ret. split; [by eexists|].
      by eapply touched_keeps.
Qed.
