(* ===== verification/SchedTick.v ===== *)
(** * Timed sleep, the end of a turn and the whole switch

    The sleep queues, the timer tick and [scheduler_switch] of Scheduler.v. *)

From stdpp Require Import base numbers list gmap.
From Stdlib Require Import ZArith Lia.
From S2P Require Import Prelude Links Scheduler SchedQueues SchedSwitch SchedOps SchedMove.

#[local] Open Scope Z_scope.

(** ** Timed sleep *)
Definition sleepers (r : runqueue) : list Z := take (Z.to_nat (sleep_count r)) (sleep_queue r).
Definition due (now : Z) (th : thread) : bool := negb (t_until th =? 0) && reached now (t_until th).
Definition is_due (now : Z) (st : sst) (u : Z) : bool := match thr st !! u with Some th => due now th | None => false end.

(** What the tick does to a sleeper that is due. *)
Definition roused (a : array_id) (th : thread) : thread :=
  if t_state th =? THREAD_BLOCKED then set_array (Some a) (woken (set_until 0 th)) else set_until 0 th.

(** Replacing an entry by the last one. *)
Lemma swap_remove (q : list Z) n pre t suf x : take n q = pre ++ t :: suf -> (n <= length q)%nat -> q !! (n - 1)%nat = Some x ->
  exists suf', suf' ≡ₚ suf /\ take (n - 1) (<[length pre := x]> q) = pre ++ suf'.
Proof.
  intros E Hn Hx. assert (n = length pre + S (length suf))%nat as Hlen.
  { pose proof (f_equal length E) as El. rewrite length_take, length_app in El. simpl in El. lia. }
  assert (q = pre ++ (t :: suf) ++ drop n q) as Eq by (rewrite app_assoc, <- E; symmetry; apply take_drop).
  destruct suf as [|y suf _] using rev_ind.
  - exists []. split; [done|]. rewrite take_insert_ge by (simpl in Hlen; lia). rewrite Eq, app_nil_r.
    rewrite take_app_le by (simpl in Hlen; lia). simpl in Hlen. rewrite Hlen. apply take_ge. lia.
  - rewrite length_app in Hlen. simpl in Hlen.
    assert (x = y) as ->.
    { rewrite Eq in Hx. rewrite lookup_app_r in Hx by lia. rewrite <- app_comm_cons, <- app_assoc in Hx. simpl in Hx.
      rewrite lookup_cons_ne_0 in Hx by lia. rewrite lookup_app_r in Hx by lia.
      replace (Init.Nat.pred (n - 1 - length pre) - length suf)%nat with 0%nat in Hx by lia. simpl in Hx. congruence. }
    exists (y :: suf). split; [by rewrite Permutation_cons_append|].
    rewrite Eq, insert_app_r_alt, Nat.sub_diag by lia. simpl. rewrite <- app_assoc. simpl.
    replace (pre ++ y :: suf ++ y :: drop n q) with ((pre ++ y :: suf) ++ y :: drop n q) by (by rewrite <- app_assoc).
    apply take_app_length'. rewrite length_app. simpl. lia.
Qed.

Lemma sleepers_ok st r : rq_ok st r ->
  length (sleepers r) = Z.to_nat (sleep_count r) /\ (forall u, u ∈ sleepers r -> is_Some (thr st !! u)) /\
  forall i, 0 <= i < sleep_count r -> getz (sleep_queue r) i = sleepers r !! Z.to_nat i.
Proof.
  intros [_ _ _ _ Hl Hc Hs].
  assert (forall i, 0 <= i < sleep_count r -> getz (sleep_queue r) i = sleepers r !! Z.to_nat i) as Hi.
  { intros i Hi. unfold sleepers, getz. zcmp. rewrite lookup_take_lt by lia. done. }
  assert (length (sleepers r) = Z.to_nat (sleep_count r)) as Hlen by (unfold sleepers; rewrite length_take; lia).
  split; [done|]. split; [|done]. intros u [i Hu]%list_elem_of_lookup. pose proof (lookup_lt_Some _ _ _ Hu).
  destruct (Hs (Z.of_nat i) ltac:(lia)) as (t & Ht & Hd). rewrite Hi, Nat2Z.id, Hu in Ht by lia. injection Ht as <-. done.
Qed.

Lemma rouse_spec st Q c t th : rep st Q -> thr st !! t = Some th -> 0 <= c < Z.of_nat (length (rqs st)) ->
  exists r, getz (rqs st) c = Some r /\
  returns (st ← upd t (set_until 0) st; rq_unblock_locked c t st) (fun st' =>
    wf st' /\ touched st st' t (roused (c, active r) th)).
Proof.
  intros H Ht Hc. destruct (getz_lt _ _ Hc) as [r Hr]. exists r. split; [done|].
  rewrite (thr_upd_ok _ _ _ _ Ht). ret. set (st1 := set_thr _ st).
  assert (rep st1 Q) as H1.
  { apply (rep_upd _ _ _ th); try done. destruct (rep_thr _ _ H _ _ Ht). by split. }
  assert (thr st1 !! t = Some (set_until 0 th)) as Ht1 by (simpl; apply lookup_insert_eq).
  pose proof (touched_upd st t (set_until 0 th)) as T0. fold st1 in T0.
  unfold roused. destruct (Z.eqb_spec (t_state th) THREAD_BLOCKED) as [Hs|Hs].
  - destruct (rq_unblock_spec c t st1 Q (set_until 0 th) H1 Ht1 Hc Hs) as (r' & Hr' & Hu). simpl in Hr'. rewrite Hr in Hr'. injection Hr' as <-.
    eapply returns_mono; [exact Hu|]. intros st2 [H2 T2]. split; [by eexists|]. by eapply touched_trans.
  - unfold rq_unblock_locked. rewrite (thr_ld_ok _ _ _ Ht1). ret. simpl t_state. zcmp. ret. split; [by exists Q|done].
Qed.

Lemma roused_due now a th : due now (roused a th) = false.
Proof. unfold roused, due. destruct (t_state th =? THREAD_BLOCKED); done. Qed.

Lemma roused_state a th : t_state (roused a th) <> THREAD_RUNNING \/ body (roused a th) = body th.
Proof. unfold roused. destruct (t_state th =? THREAD_BLOCKED); [by left|by right]. Qed.

Lemma strip_due now th th' : strip th' = strip th -> due now th' = due now th.
Proof. intros E. unfold due. by rewrite (f_equal t_until E : t_until th' = t_until th). Qed.

Lemma touched_due now st st' t a th : thr st !! t = Some th -> touched st st' t (roused a th) ->
  forall u, is_due now st' u = if decide (u = t) then false else is_due now st u.
Proof.
  intros Ht T u. unfold is_due. destruct (decide (u = t)) as [->|Hne].
  - destruct (touched_self _ _ _ _ T) as (th' & Hth' & E). rewrite Hth', (strip_due now _ _ E). apply roused_due.
  - pose proof (touched_other _ _ _ _ _ T Hne) as Ho. destruct (thr st' !! u) as [t1|], (thr st !! u) as [t2|]; try done.
    apply strip_due. exact (f_equal (default (strip t2)) Ho).
Qed.

Lemma touched_keeps' c st st' t th th' : thr st !! t = Some th -> touched st st' t th' ->
  t_state th' <> THREAD_RUNNING \/ body th' = body th -> keeps c st st'.
Proof.
  intros Ht T [Hno|Hb]; [by apply (touched_keeps c st st' t th')|]. split; [| |apply T|apply T].
  - intros r Hr. destruct (fmap_rq _ _ _ _ (to_rest _ _ _ _ T) Hr) as (r' & Hr' & E). exists r'. split; [done|]. by apply rest_keep.
  - intros u th1 Hth1 Hs. destruct (decide (u = t)) as [->|Hne].
    + destruct (touched_self _ _ _ _ T) as (th2 & Hth2 & E). exists th. split; [done|].
      replace th1 with th2 by congruence. rewrite <- Hb. by apply strip_body.
    + pose proof (touched_other _ _ _ _ _ T Hne) as Ho. rewrite Hth1 in Ho. destruct (thr st !! u) as [th2|]; [|done].
      exists th2. split; [done|]. apply strip_body. exact (f_equal (default (strip th1)) Ho).
Qed.

(** The state after the rest [suf] of the sleep queue has been looked at. *)
Definition woke (c now : Z) (act : bool) (suf : list Z) (st st' : sst) : Prop :=
  forall u, strip <$> thr st' !! u =
    strip <$> (if bool_decide (u ∈ suf) && is_due now st u then roused (c, act) <$> thr st !! u else thr st !! u).

Lemma woke_skip c now act t suf st st' : is_due now st t = false -> woke c now act suf st st' -> woke c now act (t :: suf) st st'.
Proof.
  intros Hd Hw u. rewrite (Hw u). destruct (decide (u = t)) as [->|Hne]; [by rewrite Hd, !andb_false_r|].
  by rewrite (bool_decide_ext (u ∈ t :: suf) (u ∈ suf)) by set_solver.
Qed.

Lemma woke_step c now act t th suf suf' st st1 st' : thr st !! t = Some th -> due now th = true -> suf' ≡ₚ suf ->
  touched st st1 t (roused (c, act) th) -> woke c now act suf' st1 st' -> woke c now act (t :: suf) st st'.
Proof.
  intros Ht Hd Hp T Hw u. rewrite (Hw u), (touched_due now _ _ _ _ _ Ht T u). destruct (decide (u = t)) as [->|Hne].
  - rewrite andb_false_r, bool_decide_eq_true_2 by (by left). unfold is_due. rewrite Ht, Hd. simpl.
    destruct (touched_self _ _ _ _ T) as (th' & -> & E). simpl. by rewrite E.
  - rewrite (bool_decide_ext (u ∈ t :: suf) (u ∈ suf')) by (rewrite Hp; set_solver).
    pose proof (touched_other _ _ _ _ _ T Hne) as Ho. destruct (_ && _); [|done].
    destruct (thr st1 !! u) as [t1|], (thr st !! u) as [t2|]; try done. simpl. f_equal.
    assert (strip t1 = strip t2) as E by exact (f_equal (default (strip t2)) Ho). unfold roused.
    rewrite (f_equal t_state E : t_state t1 = t_state t2). destruct (t_state t2 =? THREAD_BLOCKED).
    + exact (f_equal (fun x => set_array (Some (c, act)) (woken (set_until 0 x))) E).
    + exact (f_equal (set_until 0) E).
Qed.

(** Dropping the entry [t] at the front of [suf] from the sleep queue. *)
Lemma drop_sleeper st Q c r pre t suf : rep st Q -> getz (rqs st) c = Some r -> sleepers r = pre ++ t :: suf ->
  exists x suf' r1, rd (sleep_queue r) (sleep_count r - 1) = Ret x /\
    wr (sleep_queue r) (Z.of_nat (length pre)) x = Ret (<[length pre := x]> (sleep_queue r)) /\
    r1 = set_sleep (<[length pre := x]> (sleep_queue r)) (sleep_count r - 1) r /\
    suf' ≡ₚ suf /\ sleepers r1 = pre ++ suf' /\ rep (set_rqs (<[Z.to_nat c := r1]> (rqs st)) st) Q.
Proof.
  intros H Hr E. pose proof (rep_rq _ _ H _ _ Hr) as Hok. destruct (sleepers_ok _ _ Hok) as (Hlen & Hd & Hi).
  destruct Hok as [R0 R1 R2 R3 R4 R5 R6]. rewrite E, length_app in Hlen. simpl in Hlen.
  destruct (getz_lt (sleep_queue r) (sleep_count r - 1)) as [x Hx]; [lia|]. exists x.
  destruct (swap_remove (sleep_queue r) (Z.to_nat (sleep_count r)) pre t suf x) as (suf' & Hp & Et); [done|lia| |].
  { apply getz_Some in Hx as [_ Hx]. by replace (Z.to_nat (sleep_count r) - 1)%nat with (Z.to_nat (sleep_count r - 1)) by lia. }
  set (r1 := set_sleep (<[length pre := x]> (sleep_queue r)) (sleep_count r - 1) r). exists suf', r1.
  split; [by apply rd_getz|]. split; [rewrite wr_ok by lia; by rewrite Nat2Z.id|]. split; [done|]. split; [done|].
  assert (sleepers r1 = pre ++ suf') as Es.
  { unfold sleepers, r1. simpl. rewrite <- Et. f_equal. lia. }
  split; [done|]. apply (rep_upd_rq _ _ _ r); try done. split; try done; unfold r1; simpl.
  - by rewrite length_insert.
  - lia.
  - intros i Hi'. assert (getz (<[length pre := x]> (sleep_queue r)) i = sleepers r1 !! Z.to_nat i) as ->.
    { unfold sleepers, r1, getz. simpl. zcmp. by rewrite lookup_take_lt by lia. }
    destruct (lookup_lt_is_Some_2 (sleepers r1) (Z.to_nat i)) as [u Hu]; [rewrite Es, length_app, Hp; lia|].
    exists u. split; [done|]. apply Hd. rewrite E. assert (u ∈ sleepers r1) as Hin by (by eapply list_elem_of_lookup_2).
    rewrite Es, Hp in Hin. set_solver.
Qed.

Lemma filter_is_due now st st' (l : list Z) : (forall u, u ∈ l -> is_due now st u = is_due now st' u) ->
  filter (fun u => is_due now st u = false) l = filter (fun u => is_due now st' u = false) l.
Proof.
  induction l as [|u l IH]; intros Hl; [done|]. rewrite !filter_cons, IH by (intros; apply Hl; by right).
  rewrite (Hl u) by (by left). done.
Qed.

Lemma keeps_rq c st r r1 : getz (rqs st) c = Some r -> rq_keep r r1 -> keeps c st (set_rqs (<[Z.to_nat c := r1]> (rqs st)) st).
Proof.
  intros Hr Hk. split; try done.
  - intros r' Hr'. rewrite Hr in Hr'. injection Hr' as <-. exists r1. split; [|done]. simpl. apply getz_insert_eq. by apply getz_Some_lt in Hr.
  - intros t th Hth _. by exists th.
Qed.

Lemma wake_loop_spec c now act : forall n suf pre st Q r fuel, length suf = n -> rep st Q -> getz (rqs st) c = Some r ->
  active r = act -> sleepers r = pre ++ suf -> (n < fuel)%nat ->
  returns (wake_loop fuel c now (Z.of_nat (length pre)) st) (fun st' =>
    wf st' /\ keeps c st st' /\ woke c now act suf st st' /\
    exists r', getz (rqs st') c = Some r' /\ (NoDup suf -> sleepers r' ≡ₚ pre ++ filter (fun u => is_due now st u = false) suf)).
Proof.
  induction n as [|n IH]; intros suf pre st Q r fuel Hn H Hr Ha E Hf; (destruct fuel as [|fuel]; [lia|]); cbn [wake_loop].
  all: pose proof (rep_rq _ _ H _ _ Hr) as Hok; destruct (sleepers_ok _ _ Hok) as (Hlen & Hd & Hi);
    pose proof (rq_count _ _ Hok) as Hcnt; rewrite E, length_app in Hlen; rewrite (ld_rq_ok _ _ _ Hr); ret.
  - destruct suf; [|done]. simpl in Hlen. zcmp. ret. split; [by exists Q|]. split; [apply step_keeps_refl|]. split.
    + intros u. by rewrite bool_decide_eq_false_2 by (apply not_elem_of_nil).
    + exists r. split; [done|]. intros _. by rewrite E.
  - destruct suf as [|t suf]; [done|]. simpl in Hlen, Hn. zcmp.
    assert (t ∈ sleepers r) as Htin by (rewrite E; set_solver). destruct (Hd t Htin) as [th Hth].
    pose proof (th_null _ _ _ (rep_thr _ _ H _ _ Hth)) as H0.
    assert (getz (sleep_queue r) (Z.of_nat (length pre)) = Some t) as Hg.
    { rewrite Hi, Nat2Z.id, E by lia. by rewrite lookup_app_r, Nat.sub_diag by lia. }
    rewrite (rd_getz _ _ _ Hg). ret. zcmp. rewrite (thr_ld_ok _ _ _ Hth). ret. change (negb _ && _) with (due now th).
    assert (is_due now st t = due now th) as Edue by (unfold is_due; by rewrite Hth). destruct (due now th) eqn:Ed.
    + destruct (drop_sleeper st Q c r pre t suf H Hr E) as (x & suf' & r1 & -> & Hw & Hr1 & Hp & Es & H1). ret. rewrite Hw. ret.
      rewrite (upd_rq_ok _ _ _ _ Hr), <- Hr1. ret. set (st1 := set_rqs _ st) in *.
      pose proof (getz_Some_lt _ _ _ Hr) as Hc. assert (getz (rqs st1) c = Some r1) as Hg1 by (simpl; by apply getz_insert_eq).
      destruct (rouse_spec st1 Q c t th H1 Hth) as (r1' & Hg1' & Hro); [simpl; by rewrite length_insert|].
      rewrite Hg1 in Hg1'. injection Hg1' as <-. assert (active r1 = act) as Ha1 by (by rewrite Hr1).
      rewrite Ha1 in Hro. eapply returns_bind2; [exact Hro|]. intros st2 [[Q2 H2] T2].
      destruct (fmap_rq _ _ _ _ (to_rest _ _ _ _ T2) Hg1) as (r2 & Hg2 & E2).
      assert (sleepers r2 = pre ++ suf') as Es2 by (injection E2; intros; unfold sleepers in *; congruence).
      eapply returns_mono; [apply (IH suf' pre st2 Q2 r2 fuel); try done; [rewrite Hp; lia|by injection E2; intros; congruence|lia]|].
      intros st' (Hwf & Hk & Hwo & r' & Hr' & Hs'). split; [done|]. split; [|split].
      * eapply step_keeps_trans; [apply (keeps_rq c st r r1 Hr); by rewrite Hr1|]. fold st1. eapply step_keeps_trans; [|exact Hk].
        apply (touched_keeps' c st1 st2 t th _ Hth T2). apply roused_state.
      * change (woke c now act (t :: suf) st1 st'). by eapply (woke_step c now act t th suf suf' st1 st2).
      * exists r'. split; [done|]. intros [Hnt Hnd]%NoDup_cons. rewrite Hs' by (by rewrite Hp). rewrite Hp.
        rewrite filter_cons_False by (by rewrite Edue). f_equiv. rewrite (filter_is_due now st2 st); [done|]. intros u Hu.
        rewrite (touched_due now _ _ _ _ _ (Hth : thr st1 !! t = Some th) T2 u). rewrite decide_False by (intros ->; done). done.
    + replace (Z.of_nat (length pre) + 1) with (Z.of_nat (length (pre ++ [t]))) by (rewrite length_app; simpl; lia).
      eapply returns_mono; [apply (IH suf (pre ++ [t]) st Q r fuel); try done; [lia|by rewrite <- app_assoc|lia]|].
      intros st' (Hwf & Hk & Hwo & r' & Hr' & Hs'). split; [done|]. split; [done|]. split; [by apply woke_skip|].
      exists r'. split; [done|]. intros [Hnt Hnd]%NoDup_cons. rewrite Hs' by done. rewrite filter_cons_True by done. by rewrite <- app_assoc.
Qed.

Lemma wake_tick_spec st Q c r ticks : rep st Q -> getz (rqs st) c = Some r ->
  returns (sleep_wake_tick c ticks st) (fun st' =>
    wf st' /\ keeps c st st' /\ woke c (u32 ticks) (active r) (sleepers r) st st' /\
    exists r', getz (rqs st') c = Some r' /\
      (NoDup (sleepers r) -> sleepers r' ≡ₚ filter (fun u => is_due (u32 ticks) st u = false) (sleepers r))).
Proof.
  intros H Hr. unfold sleep_wake_tick. rewrite (ld_rq_ok _ _ _ Hr). ret.
  destruct (sleepers_ok _ _ (rep_rq _ _ H _ _ Hr)) as (Hlen & _ & _).
  apply (wake_loop_spec c (u32 ticks) (active r) (length (sleepers r)) (sleepers r) [] st Q r); try done. lia.
Qed.

(** Going to sleep. *)
Definition asleep (deadline : Z) (th : thread) : thread :=
  set_state THREAD_BLOCKED (set_until (u32 deadline) (set_array None th)).

Lemma sleep_spec st Q me c r th ticks deadline : rep st Q -> rq_current me st = Some c -> getz (rqs st) c = Some r ->
  current r <> 0 -> current r <> idle r -> thr st !! current r = Some th -> sleep_count r < 256 ->
  reached (u32 ticks) (u32 deadline) = false ->
  returns (scheduler_sleep_ticks me ticks deadline st) (fun x => x.1 = 1 /\ rep x.2 (leave Q (current r) th) /\
    (exists th', thr x.2 !! current r = Some th' /\ strip th' = strip (asleep deadline th)) /\
    exists r', getz (rqs x.2) c = Some r' /\ sleepers r' = sleepers r ++ [current r]).
Proof.
  intros H Hme Hr H0 Hi Ht Hcnt Hre. unfold scheduler_sleep_ticks. rewrite Hme, (ld_rq_ok _ _ _ Hr). ret. zcmp. rewrite Hre. cbn [orb].
  assert (is_Some (t_rq th)) as Hrq.
  { destruct (rq_cur _ _ (rep_rq _ _ H _ _ Hr)) as [|[|(th' & Ht' & Hrq)]]; [done..|]. congruence. }
  set (cur := current r) in *. eapply returns_bind; [by apply (thread_unlink_spec st Q cur th)|]. intros st1 [H1 T1].
  destruct (touched_self _ _ _ _ T1) as (th1 & Hth1 & E1). destruct (strip_fields _ _ E1) as [Ec Ea]. simpl in Ea.
  apply core_fields in Ec as (_ & _ & _ & _ & _ & _ & _ & _ & _ & Erq & _). simpl in Erq.
  rewrite (thr_upd_ok _ _ _ _ Hth1). ret. erewrite thr_upd_ok by (simpl; apply lookup_insert_eq). ret. simpl thr. rewrite insert_insert_eq.
  set (th2 := set_state THREAD_BLOCKED (set_until (u32 deadline) th1)). set (st2 := set_thr _ (set_thr _ st1)).
  assert (rep st2 (leave Q cur th)) as H2.
  { apply (rep_upd st1 _ cur th1 th2); try done. destruct (rep_thr _ _ H1 _ _ Hth1). split; try done; simpl.
    - rewrite Ea. intros E. by destruct E.
    - intros _. by rewrite Erq. }
  unfold SLEEP_MAX. zcmp. pose proof (rep_rq _ _ H _ _ Hr) as Hok. pose proof (rq_slen _ _ Hok) as Hsl. pose proof (rq_count _ _ Hok) as Hcr.
  rewrite wr_ok by lia. ret. destruct (fmap_rq _ _ _ _ (to_rest _ _ _ _ T1) Hr) as (r1 & Hr1 & Er).
  rewrite (upd_rq_ok st2 c r1) by done. ret. cbn [fst snd]. set (sq := <[Z.to_nat (sleep_count r) := cur]> (sleep_queue r)).
  set (r2 := set_sleep sq (sleep_count r + 1) r1). assert (sleepers r2 = sleepers r ++ [cur]) as Es.
  { unfold sleepers, r2, sq. simpl. replace (Z.to_nat (sleep_count r + 1)) with (S (Z.to_nat (sleep_count r))) by lia.
    rewrite (take_S_r _ _ cur) by (apply list_lookup_insert_eq; lia). by rewrite take_insert_ge by lia. }
  assert (thr st2 !! cur = Some th2) as Hth2 by (simpl; apply lookup_insert_eq).
  split; [done|]. split; [|split].
  - apply (rep_upd_rq _ _ _ r1); try done. destruct (rep_rq _ _ H2 _ _ Hr1) as [R0 R1 R2 R3 R4 R5 R6]. injection Er as _ _ _ _ _ _ Esq Ecnt.
    split; try done; simpl; [unfold sq; by rewrite length_insert|lia|]. intros i Hi'. unfold sq.
    destruct (decide (i = sleep_count r)) as [->|Hne].
    + exists cur. split; [apply getz_insert_eq; lia|by exists th2].
    + rewrite getz_insert_ne by lia. rewrite <- Esq. apply R6. lia.
  - exists th2. split; [done|]. exact (f_equal (fun x => set_state THREAD_BLOCKED (set_until (u32 deadline) x)) E1).
  - exists r2. split; [|done]. apply getz_insert_eq. by apply getz_Some_lt in Hr1.
Qed.

(** ** The end of a turn

    Moving a thread that is on no queue or on the active array to [b]. *)
Lemma to_array_spec st Q t th a b : rep st Q -> thr st !! t = Some th -> t_array th = None \/ t_array th = Some a ->
  live th -> is_Some (t_rq th) -> 0 <= b.1 < Z.of_nat (length (rqs st)) ->
  returns (st ← (if bool_decide (t_array th = Some a) then prio_array_dequeue (Some a) t (t_prio th) st else Ret st);
           prio_array_enqueue (Some b) t (t_prio th) st)
    (fun st' => rep st' (join (leave Q t th) b (t_prio th) t) /\ touched st st' t (set_array (Some b) th)).
Proof.
  intros H Ht Ha Hlv Hrq Hb.
  assert (returns (if bool_decide (t_array th = Some a) then prio_array_dequeue (Some a) t (t_prio th) st else Ret st)
    (fun st' => rep st' (leave Q t th) /\ touched st st' t (set_array None th))) as Hd.
  { destruct Ha as [E|E].
    - rewrite bool_decide_eq_false_2 by (by rewrite E). ret. unfold leave. rewrite E. split; [done|].
      apply (touched_refl _ _ th); [done|]. by apply strip_eq.
    - rewrite bool_decide_eq_true_2 by done. by apply dequeue_touched. }
  eapply returns_bind; [exact Hd|]. intros st1 [H1 T1]. destruct (touched_self _ _ _ _ T1) as (th1 & Hth1 & E1).
  destruct (strip_fields _ _ E1) as [Ec Ea]. simpl in Ea. pose proof (core_fields _ _ Ec) as (_ & Es & _ & _ & _ & _ & Ep & _ & _ & Erq & _).
  simpl in *. eapply returns_mono.
  { apply (prio_enqueue_spec st1 _ b t th1 (t_prio th) H1 Hth1 Ea); [|by rewrite Erq|done|by rewrite (touched_length _ _ _ _ T1)].
    unfold live in *. by rewrite Es. }
  intros st2 [H2 M2]. split; [done|]. eapply touched_trans; [exact T1|].
  eapply touched_strip; [by eapply moved_touched|]. exact (f_equal (set_array (Some b)) E1).
Qed.

(** A RUNNING current thread that is still queued is queued on the active
    array, and the loss of interactivity a turn costs does not change its
    priority. *)
Definition stable_thread (a : array_id) (th : thread) : Prop :=
  t_array th = None \/ t_array th = Some a /\
    forall d, d = 1 \/ d = 3 -> effective_prio (t_static th) (Z.max 0 (t_avg th - d)) = t_prio th.
Definition cur_stable (c : Z) (st : sst) : Prop :=
  forall r th, getz (rqs st) c = Some r -> thr st !! current r = Some th -> t_state th = THREAD_RUNNING ->
    stable_thread (c, active r) th.

Lemma keeps_stable c st st' r : getz (rqs st) c = Some r -> keeps c st st' -> cur_stable c st -> cur_stable c st'.
Proof.
  intros Hr [K1 K2 _ _] Hs r' th' Hr' Hth' Hrun. destruct (K1 r Hr) as (r1 & Hr1 & Hk). rewrite Hr' in Hr1. injection Hr1 as <-.
  rewrite (rk_cur _ _ Hk) in Hth'. destruct (K2 _ _ Hth' Hrun) as (th & Hth & E). pose proof (body_state _ _ E) as Est.
  specialize (Hs r th Hr Hth ltac:(congruence)). unfold stable_thread in *. rewrite (rk_act _ _ Hk).
  rewrite (f_equal t_array E : t_array th' = t_array th), (f_equal t_static E : t_static th' = t_static th),
    (f_equal t_avg E : t_avg th' = t_avg th), (f_equal t_prio E : t_prio th' = t_prio th). done.
Qed.

(** What the current thread [t] has become, and its processor has no current
    thread. *)
Definition preempted (c t : Z) (th' : thread) (Q' : rings) (st st' : sst) : Prop :=
  rep st' Q' /\ (exists th1, thr st' !! t = Some th1 /\ strip th1 = strip th') /\
  (forall u, u <> t -> strip <$> thr st' !! u = strip <$> thr st !! u) /\
  (forall me, rq_current me st' = rq_current me st) /\ hw st' = hw st /\
  exists r', getz (rqs st') c = Some r' /\ current r' = 0.

Lemma preempted_end st st1 c r t th' Q' : rep st1 Q' -> touched st st1 t th' -> getz (rqs st) c = Some r ->
  returns (upd_rq c (set_current 0) st1) (preempted c t th' Q' st).
Proof.
  intros H1 T Hr. destruct (fmap_rq _ _ _ _ (to_rest _ _ _ _ T) Hr) as (r1 & Hr1 & _). rewrite (upd_rq_ok _ _ _ _ Hr1). ret.
  split; [|split; [|split; [|split; [|split]]]].
  - apply (rep_upd_rq _ _ _ r1); try done. destruct (rep_rq _ _ H1 _ _ Hr1). split; try done. by left.
  - apply (touched_self _ _ _ _ T).
  - intros u Hu. apply (touched_other _ _ _ _ _ T Hu).
  - intros me. unfold rq_current. simpl. by rewrite (to_cpus _ _ _ _ T).
  - apply T.
  - exists (set_current 0 r1). split; [|done]. simpl. apply getz_insert_eq. by apply getz_Some_lt in Hr1.
Qed.

Definition shorter (s : Z) : Z := if 0 <? s then s - 1 else s.
Definition less_avg (d a : Z) : Z := Z.max 0 (a - d).
Definition demoted (d : Z) (th : thread) : thread :=
  set_prio (effective_prio (t_static th) (less_avg d (t_avg th))) (set_avg (less_avg d (t_avg th)) (set_state THREAD_READY th)).

Definition tick_thread (th : thread) : thread :=
  if shorter (t_slice th) =? 0 then set_slice (prio_to_timeslice (t_static th)) (demoted 3 th)
  else set_slice (shorter (t_slice th)) th.
Definition syscall_thread (th : thread) : thread := set_slice (shorter (t_slice th)) (demoted 1 th).

(** Where a thread goes at the end of its turn: to the expired array if its
    time slice is used up, to the active array otherwise. *)
Definition turn_array (c : Z) (r : runqueue) (th : thread) : array_id :=
  (c, if shorter (t_slice th) =? 0 then expired r else active r).
Definition turn_rings (Q : rings) (c : Z) (r : runqueue) (t p : Z) (th : thread) : rings :=
  if (shorter (t_slice th) =? 0) || bool_decide (t_array th = None)
  then join (leave Q t th) (turn_array c r th) p t else Q.

Lemma shorter_range s : 0 <= s < 2 ^ 32 -> 0 <= shorter s < 2 ^ 32.
Proof. unfold shorter. destruct (Z.ltb_spec 0 s); lia. Qed.

Lemma demoted_ok n t th d s : thread_ok n t th -> is_Some (t_rq th) -> 0 <= d -> 0 <= s < 2 ^ 32 ->
  thread_ok n t (set_slice s (demoted d th)).
Proof.
  intros [] Hrq Hd Hs. pose proof (effective_prio_range (t_static th) (less_avg d (t_avg th))). unfold less_avg in *.
  split; try done; simpl; try lia; try (intros _; by left).
  unfold less_avg. lia.
Qed.

Lemma stable_demoted a th d : stable_thread a th -> d = 1 \/ d = 3 -> is_Some (t_array th) -> t_prio (demoted d th) = t_prio th.
Proof. intros [->|[_ Hs]] Hd [b Hb]; [done|]. by apply Hs. Qed.

Lemma leave_same Q t th th' : t_array th' = t_array th -> (is_Some (t_array th) -> t_prio th' = t_prio th) -> leave Q t th' = leave Q t th.
Proof. intros Ea Ep. unfold leave. rewrite Ea. destruct (t_array th) as [a|]; [|done]. by rewrite Ep by (by exists a). Qed.

(** The two ends of a turn: the thread is already [th1] in the state. *)
Lemma turn_spec st Q c r t th th1 : rep st Q -> getz (rqs st) c = Some r -> thr st !! t = Some th -> is_Some (t_rq th) ->
  stable_thread (c, active r) th -> t_next th1 = t_next th -> t_prev th1 = t_prev th ->
  t_array th1 = t_array th -> t_rq th1 = t_rq th -> t_tid th1 = t_tid th -> (is_Some (t_array th) -> t_prio th1 = t_prio th) ->
  live th1 -> thread_ok (length (rqs st)) t th1 ->
  let st1 := set_thr (<[t := th1]> (thr st)) st in
  returns (st ← (if shorter (t_slice th) =? 0 then
                   st ← (if bool_decide (t_array th = Some (c, active r))
                         then prio_array_dequeue (Some (c, active r)) t (t_prio th1) st1 else Ret st1);
                   prio_array_enqueue (Some (c, expired r)) t (t_prio th1) st
                 else if bool_decide (t_array th = None)
                 then prio_array_enqueue (Some (c, active r)) t (t_prio th1) st1 else Ret st1);
           upd_rq c (set_current 0) st)
    (preempted c t (set_array (Some (turn_array c r th)) th1) (turn_rings Q c r t (t_prio th1) th) st).
Proof.
  intros H Hr Ht Hrq Hst Hn Hp Ha Hq Hti Hpr Hlv Hok st1. pose proof (getz_Some_lt _ _ _ Hr) as Hc.
  assert (rep st1 Q) as H1 by (apply (rep_upd _ _ _ th); try done; intros; by rewrite ?Hq).
  assert (thr st1 !! t = Some th1) as Ht1 by (simpl; apply lookup_insert_eq). pose proof (touched_upd st t th1) as T1. fold st1 in T1.
  assert (t_array th = None \/ t_array th = Some (c, active r)) as Hcase by (destruct Hst as [|[? _]]; [by left|by right]).
  eapply (returns_bind _ _ (fun st2 => rep st2 (turn_rings Q c r t (t_prio th1) th) /\
    touched st st2 t (set_array (Some (turn_array c r th)) th1))); [|intros st2 [H2 T2]; by apply (preempted_end st st2 c r)].
  unfold turn_rings, turn_array. destruct (shorter (t_slice th) =? 0); cbn [orb].
  - rewrite <- Ha. eapply returns_mono.
    { apply (to_array_spec st1 Q t th1 (c, active r) (c, expired r) H1 Ht1); [by rewrite Ha|done|by rewrite Hq|done]. }
    intros st2 [H2 T2]. rewrite (leave_same Q t th th1 Ha Hpr) in H2. split; [done|]. by eapply touched_trans.
  - destruct Hcase as [E|E].
    + rewrite bool_decide_eq_true_2 by done. eapply returns_mono.
      { apply (prio_enqueue_spec st1 Q (c, active r) t th1); try done; [by rewrite Ha|by rewrite Hq]. }
      intros st2 [H2 M2]. unfold leave. rewrite E. split; [exact H2|]. eapply touched_trans; [exact T1|]. by eapply moved_touched.
    + rewrite bool_decide_eq_false_2 by (by rewrite E). ret. split; [done|]. eapply touched_strip; [exact T1|].
      apply strip_eq; [done|]. simpl. by rewrite Ha.
Qed.

Lemma tick_running_spec st Q c r t th : rep st Q -> getz (rqs st) c = Some r -> thr st !! t = Some th ->
  t_state th = THREAD_RUNNING -> is_Some (t_rq th) -> stable_thread (c, active r) th ->
  returns (tick_running c t st) (preempted c t (set_array (Some (turn_array c r th)) (tick_thread th))
    (turn_rings Q c r t (t_prio (tick_thread th)) th) st).
Proof.
  intros H Hr Ht Hs Hrq Hst. pose proof (rep_thr _ _ H _ _ Ht) as Hok. pose proof (th_avg _ _ _ Hok) as Hav.
  pose proof (shorter_range _ (th_slice _ _ _ Hok)) as Hsl. unfold tick_running. rewrite (thr_ld_ok _ _ _ Ht). ret. cbn zeta.
  fold (shorter (t_slice th)). rewrite (thr_upd_ok _ _ _ _ Ht). ret. rewrite (ld_rq_ok _ _ r) by done. ret.
  pose proof (turn_spec st Q c r t th (tick_thread th) H Hr Ht Hrq Hst) as Hturn. unfold tick_thread in *.
  destruct (shorter (t_slice th) =? 0) eqn:Ez.
  - do 4 (erewrite thr_upd_ok by (simpl; apply lookup_insert_eq); ret; simpl thr; rewrite insert_insert_eq).
    assert ((let avg := if 0 <? t_avg th then t_avg th - 3 else t_avg th in if avg <? 0 then 0 else avg) = less_avg 3 (t_avg th)) as Eavg.
    { unfold less_avg. cbn zeta. destruct (Z.ltb_spec 0 (t_avg th)); [destruct (Z.ltb_spec (t_avg th - 3) 0)|destruct (Z.ltb_spec (t_avg th) 0)]; lia. }
    cbn zeta in Eavg. rewrite Eavg. apply Hturn; try done.
    + apply (stable_demoted _ _ _ Hst). by right.
    + by left.
    + apply demoted_ok; try done. apply u32_range.
  - apply Hturn; try done; [by right|]. destruct Hok. by split.
Qed.

Lemma syscall_running_spec st Q c r t th : rep st Q -> getz (rqs st) c = Some r -> thr st !! t = Some th ->
  t_state th = THREAD_RUNNING -> is_Some (t_rq th) -> stable_thread (c, active r) th ->
  returns (syscall_running c t st) (preempted c t (set_array (Some (turn_array c r th)) (syscall_thread th))
    (turn_rings Q c r t (t_prio (syscall_thread th)) th) st).
Proof.
  intros H Hr Ht Hs Hrq Hst. pose proof (rep_thr _ _ H _ _ Ht) as Hok. pose proof (th_avg _ _ _ Hok) as Hav.
  pose proof (shorter_range _ (th_slice _ _ _ Hok)) as Hsl. unfold syscall_running. rewrite (thr_ld_ok _ _ _ Ht). ret. cbn zeta.
  fold (shorter (t_slice th)). rewrite (thr_upd_ok _ _ _ _ Ht). ret.
  do 3 (erewrite thr_upd_ok by (simpl; apply lookup_insert_eq); ret; simpl thr; rewrite insert_insert_eq).
  rewrite (ld_rq_ok _ _ r) by done. ret.
  assert ((if 0 <? t_avg th then t_avg th - 1 else t_avg th) = less_avg 1 (t_avg th)) as ->.
  { unfold less_avg. destruct (Z.ltb_spec 0 (t_avg th)); lia. }
  pose proof (turn_spec st Q c r t th (syscall_thread th) H Hr Ht Hrq Hst) as Hturn.
  assert (is_Some (t_array th) -> t_prio (syscall_thread th) = t_prio th) as Hpr by (apply (stable_demoted _ _ _ Hst); by left).
  assert (bool_decide (t_array th = Some (c, active r)) = true -> t_prio (syscall_thread th) = t_prio th) as Hpr'.
  { intros Eb%bool_decide_eq_true. apply Hpr. by exists (c, active r). }
  destruct (bool_decide (t_array th = Some (c, active r))); [rewrite <- (Hpr' eq_refl)|]; apply Hturn; try done;
    first [by left|by apply demoted_ok].
Qed.

(** ** The whole switch *)
Definition ready (c : Z) (st st' : sst) : Prop :=
  wf st' /\ (forall me, rq_current me st' = rq_current me st) /\ hw st' = hw st.

Lemma rep_rsp st Q t th f : rep st Q -> thr st !! t = Some th -> rep (set_thr (<[t := set_rsp f th]> (thr st)) st) Q.
Proof. intros H Ht. apply (rep_upd _ _ _ th); try done. destruct (rep_thr _ _ H _ _ Ht). by split. Qed.

Lemma save_current_spec st Q c r frame k : rep st Q -> getz (rqs st) c = Some r -> cur_stable c st ->
  (forall st1 t th, rep st1 Q -> getz (rqs st1) c = Some r -> thr st1 !! t = Some th -> t_state th = THREAD_RUNNING ->
    is_Some (t_rq th) -> stable_thread (c, active r) th -> returns (k t st1) (ready c st1)) ->
  returns (save_current c frame k st) (ready c st).
Proof.
  intros H Hr Hst Hk. assert (ready c st st) as Hid by (split; [by exists Q|done]).
  unfold save_current. rewrite (ld_rq_ok _ _ _ Hr). ret. cbn zeta. destruct (Z.eqb_spec (current r) 0) as [|H0]; [done|].
  destruct (rep_rq _ _ H _ _ Hr) as [_ _ (ti & Hti & Htid & _) Hcur _ _ _].
  assert (is_Some (thr st !! current r)) as [th Hth].
  { destruct Hcur as [|[->|(th & Hth & _)]]; [done|by exists ti|by exists th]. }
  rewrite (thr_ld_ok _ _ _ Hth). ret. destruct (Z.eqb_spec (t_tid th) 0) as [|Htid0]; [done|].
  assert (is_Some (t_rq th)) as Hrq.
  { destruct Hcur as [|[E|(th' & Hth' & Hq)]]; [done| |congruence]. rewrite E in Hth. congruence. }
  rewrite (thr_upd_ok _ _ _ _ Hth). ret. pose proof (rep_rsp st Q _ th frame H Hth) as H1.
  destruct (Z.eqb_spec (t_state th) THREAD_RUNNING) as [Hs|]; [|ret; split; [by exists Q|done]].
  eapply returns_mono.
  { apply (Hk _ _ (set_rsp frame th) H1 Hr); [simpl; apply lookup_insert_eq|done|done|]. exact (Hst r th Hr Hth Hs). }
  intros st2 (Hw & Hc & Hh). split; [done|]. split; [intros me; by rewrite Hc|done].
Qed.

Lemma preempted_ready c t th Q st st' : preempted c t th Q st st' -> ready c st st'.
Proof. intros (H & _ & _ & Hc & Hh & _). split; [by exists Q|done]. Qed.

Lemma me_hw st Q me c : rep st Q -> rq_current me st = Some c -> 0 <= me < Z.of_nat (length (hw st)).
Proof.
  intros H Hme. rewrite (rep_hw _ _ H). unfold rq_current in Hme. destruct (getz (cpus st) me) eqn:E; [|done].
  by apply getz_Some_lt in E.
Qed.

Lemma switch_ends st Q me c : rep st Q -> rq_current me st = Some c ->
  returns (context_switch (switch_fuel st) me c st) (fun x => wf x.2).
Proof.
  intros H Hme. destruct (getz_lt _ _ (rep_cpus _ _ H _ _ Hme)) as [r Hr].
  eapply returns_mono; [apply (context_switch_spec _ me c r st Q H Hr (me_hw _ _ _ _ H Hme)); unfold switch_fuel; lia|].
  intros [rsp st'] [(_ & H' & _)|(p & next & tl & _ & _ & H' & _)]; by eexists.
Qed.

Lemma rep_cpus_resched st Q me cp b : rep st Q -> getz (cpus st) me = Some cp ->
  let cs := <[Z.to_nat me := Cpu (c_online cp) (c_runqueue cp) (c_package cp) b]> (cpus st) in
  wr (cpus st) me (Cpu (c_online cp) (c_runqueue cp) (c_package cp) b) = Ret cs /\ rep (set_cpus cs st) Q /\
  forall me', rq_current me' (set_cpus cs st) = rq_current me' st.
Proof.
  intros H Hcp cs. pose proof (getz_Some_lt _ _ _ Hcp) as Hlt.
  assert (forall me', rq_current me' (set_cpus cs st) = rq_current me' st) as Hc.
  { intros me'. unfold rq_current. simpl. destruct (decide (me' = me)) as [->|].
    - unfold cs. rewrite getz_insert_eq, Hcp by done. done.
    - unfold cs. by rewrite getz_insert_ne by lia. }
  split; [by apply wr_ok|]. split; [|done]. apply (rep_same st); try done; simpl; unfold cs; rewrite ?length_insert; apply H.
Qed.

Lemma tick_rebalance_spec st Q me c : rep st Q -> rq_current me st = Some c -> returns (tick_rebalance me c st) (safe_step c st).
Proof.
  intros H Hme. destruct (getz_lt _ _ (rep_cpus _ _ H _ _ Hme)) as [r Hr]. unfold tick_rebalance. rewrite (ld_rq_ok _ _ _ Hr). ret. cbn zeta.
  destruct (Z.ltb_spec (cpu_id r) CPU_MAX) as [Hlt|]; [|ret; split; [by exists Q|apply step_keeps_refl]].
  pose proof (rq_id _ _ (rep_rq _ _ H _ _ Hr)) as Hid. pose proof (rep_ctr _ _ H) as Hctr. unfold CPU_MAX in Hlt.
  destruct (getz_lt (rebalance_ctr st) (cpu_id r)) as [n Hn]; [rewrite Hctr; lia|]. rewrite (rd_getz _ _ _ Hn). ret.
  rewrite wr_ok by (rewrite Hctr; lia). ret. set (st1 := set_ctr _ st).
  assert (rep st1 Q) as H1.
  { apply (rep_same st); try done; simpl; rewrite ?length_insert; first [apply (rep_hw _ _ H)|apply (rep_ctr _ _ H)|apply (rep_ncpus _ _ H)]. }
  assert (keeps c st st1) as K1 by (split; try done; [intros r' Hr'; by exists r'|intros t th Hth _; by exists th]).
  destruct (100 <=? _); [|ret; split; [by exists Q|done]].
  eapply returns_mono; [by apply (rebalance_spec st1 Q me c H1)|]. intros st2 [Hw K2]. split; [done|]. by eapply step_keeps_trans.
Qed.

(** Everything before the current thread is dealt with. *)
Definition fronted (me c : Z) (cp : cpu) (st' : sst) : Prop :=
  wf st' /\ cur_stable c st' /\ exists b, getz (cpus st') me = Some (Cpu (c_online cp) (Some c) (c_package cp) b).

Lemma keeps_fronted me c cp st st' r : getz (rqs st) c = Some r -> wf st' -> keeps c st st' -> cur_stable c st ->
  (exists b, getz (cpus st) me = Some (Cpu (c_online cp) (Some c) (c_package cp) b)) -> fronted me c cp st'.
Proof.
  intros Hr Hw K Hs [b Hb]. split; [done|]. split; [by apply (keeps_stable c st st' r)|]. exists b. by rewrite (ke_cpus _ _ _ K).
Qed.

Lemma switch_prepare_spec st Q me c int_no cp : rep st Q -> getz (cpus st) me = Some cp -> c_runqueue cp = Some c ->
  cur_stable c st -> returns (switch_prepare me c int_no cp st) (fronted me c cp).
Proof.
  intros H Hcp Hc Hst. unfold switch_prepare. assert (rq_current me st = Some c) as Hme by (unfold rq_current; by rewrite Hcp).
  pose proof (rep_cpus _ _ H _ _ Hme) as Hlt. destruct (getz_lt _ _ Hlt) as [r Hr].
  assert (cp = Cpu (c_online cp) (Some c) (c_package cp) (c_resched cp)) as Ecp by (rewrite <- Hc; by destruct cp).
  eapply (returns_bind _ _ (fronted me c cp)).
  - destruct (Z.eqb_spec int_no 32) as [Ei|].
    2: { ret. split; [by exists Q|]. split; [done|]. exists (c_resched cp). by rewrite <- Ecp. }
    destruct (rep_cpus_resched st Q me cp false H Hcp) as (-> & H1 & Hcur). ret. rewrite <- Hcur in Hme.
    eapply returns_mono; [by apply (tick_rebalance_spec _ Q)|]. intros st1 [Hw K].
    eapply keeps_fronted; [|exact Hw|exact K|exact Hst|]; [exact Hr|]. exists false. simpl. rewrite <- Hc. apply getz_insert_eq.
    by apply getz_Some_lt in Hcp.
  - intros st1 ([Q1 H1] & Hst1 & b & Hcp1). assert (rq_current me st1 = Some c) as Hme1 by (unfold rq_current; by rewrite Hcp1).
    pose proof (rep_cpus _ _ H1 _ _ Hme1) as Hlt1. destruct (getz_lt _ _ Hlt1) as [r1 Hr1].
    rewrite (ld_rq_ok _ _ _ Hr1). ret. destruct (_ <=? 0).
    + eapply returns_mono; [by apply (steal_spec st1 Q1)|]. intros st2 [Hw K].
      eapply (keeps_fronted me c cp st1 st2 r1); try done. by exists b.
    + ret. split; [by exists Q1|]. split; [done|]. by exists b.
Qed.

Lemma save_and_switch st Q me c frame k : rep st Q -> rq_current me st = Some c -> cur_stable c st ->
  (forall r st1 t th, rep st1 Q -> getz (rqs st1) c = Some r -> thr st1 !! t = Some th -> t_state th = THREAD_RUNNING ->
    is_Some (t_rq th) -> stable_thread (c, active r) th -> returns (k t st1) (ready c st1)) ->
  returns (st ← save_current c frame k st; context_switch (switch_fuel st) me c st) (fun x => wf x.2).
Proof.
  intros H Hme Hst Hk. destruct (getz_lt _ _ (rep_cpus _ _ H _ _ Hme)) as [r Hr].
  eapply returns_bind; [apply (save_current_spec st Q c r frame k H Hr Hst); by apply Hk|].
  intros st1 ([Q1 H1] & Hc & _). apply (switch_ends st1 Q1); [done|by rewrite Hc].
Qed.

(** The interrupts other than the tick and the system call gate. *)
Lemma switch_other st Q me c frame cp : rep st Q -> fronted me c cp st ->
  returns (st ← save_current c frame (fun _ st => Ret st) st;
    r ← ld_rq c st;
    if current r =? 0 then context_switch (switch_fuel st) me c st else
    th ← ld (current r) st;
    if negb (t_state th =? THREAD_RUNNING) then context_switch (switch_fuel st) me c st else
    if c_resched cp then
      cs ← wr (cpus st) me (Cpu (c_online cp) (Some c) (c_package cp) false);
      context_switch (switch_fuel st) me c (set_cpus cs st)
    else Ret (frame, st)) (fun x => wf x.2).
Proof.
  intros H (_ & Hst & b & Hb). assert (rq_current me st = Some c) as Hme by (unfold rq_current; by rewrite Hb).
  destruct (getz_lt _ _ (rep_cpus _ _ H _ _ Hme)) as [r Hr].
  eapply (returns_bind _ _ (fun st1 => wf st1 /\ cpus st1 = cpus st)).
  { unfold save_current. rewrite (ld_rq_ok _ _ _ Hr). ret. cbn zeta. destruct (Z.eqb_spec (current r) 0) as [|H0]; [by split; [exists Q|]|].
    destruct (rep_rq _ _ H _ _ Hr) as [_ _ (ti & Hti & _) Hcur _ _ _]. assert (is_Some (thr st !! current r)) as [th Hth].
    { destruct Hcur as [|[->|(th & Hth & _)]]; [done|by exists ti|by exists th]. }
    rewrite (thr_ld_ok _ _ _ Hth). ret. destruct (_ =? 0); [by split; [exists Q|]|]. rewrite (thr_upd_ok _ _ _ _ Hth). ret.
    destruct (_ =? _); (split; [exists Q; by apply rep_rsp|done]). }
  intros st1 [[Q1 H1] Hcp1]. assert (rq_current me st1 = Some c) as Hme1 by (unfold rq_current; by rewrite Hcp1, Hb).
  destruct (getz_lt _ _ (rep_cpus _ _ H1 _ _ Hme1)) as [r1 Hr1]. rewrite (ld_rq_ok _ _ _ Hr1). ret.
  destruct (Z.eqb_spec (current r1) 0) as [|H0]; [by apply (switch_ends st1 Q1)|].
  destruct (rep_rq _ _ H1 _ _ Hr1) as [_ _ (ti & Hti & _) Hcur _ _ _]. assert (is_Some (thr st1 !! current r1)) as [th Hth].
  { destruct Hcur as [|[->|(th & Hth & _)]]; [done|by exists ti|by exists th]. }
  rewrite (thr_ld_ok _ _ _ Hth). ret. destruct (negb _); [by apply (switch_ends st1 Q1)|]. destruct (c_resched cp); [|by exists Q1].
  rewrite <- Hcp1 in Hb. destruct (rep_cpus_resched st1 Q1 me _ false H1 Hb) as (Hw & H2 & Hc2). simpl in Hw, H2, Hc2. rewrite Hw. ret.
  rewrite <- Hc2 in Hme1. exact (switch_ends (set_cpus _ st1) Q1 me c H2 Hme1).
Qed.

(** The switch returns and keeps the invariant on every interrupt, as long as
    the priority of a RUNNING thread that is still queued does not change. *)
Lemma scheduler_switch_spec st Q me c frame int_no ticks : rep st Q -> rq_current me st = Some c -> cur_stable c st ->
  returns (scheduler_switch me frame int_no ticks st) (fun x => wf x.2).
Proof.
  intros H Hme Hst. unfold scheduler_switch. unfold rq_current in Hme. destruct (getz (cpus st) me) as [cp|] eqn:Hcp; [|done].
  simpl in Hme. rewrite Hme. eapply returns_bind; [by apply (switch_prepare_spec st Q)|]. intros st1 Hfr.
  pose proof Hfr as ([Q1 H1] & Hst1 & b & Hb). assert (rq_current me st1 = Some c) as Hme1 by (unfold rq_current; by rewrite Hb).
  destruct (getz_lt _ _ (rep_cpus _ _ H1 _ _ Hme1)) as [r1 Hr1].
  destruct (int_no =? 32).
  - eapply returns_bind; [by apply (wake_tick_spec st1 Q1 c r1)|]. intros st2 ([Q2 H2] & K & _).
    apply (save_and_switch st2 Q2); [done|unfold rq_current; by rewrite (ke_cpus _ _ _ K), Hb|by apply (keeps_stable c st1 st2 r1)|].
    intros r st3 t th H3 Hr3 Ht Hs Hrq Hstb. eapply returns_mono; [by apply (tick_running_spec st3 Q2 c r t th)|].
    intros st4 Hp. by eapply preempted_ready.
  - destruct (int_no =? 128).
    + apply (save_and_switch st1 Q1); try done.
      intros r st3 t th H3 Hr3 Ht Hs Hrq Hstb. eapply returns_mono; [by apply (syscall_running_spec st3 Q1 c r t th)|].
      intros st4 Hp. by eapply preempted_ready.
    + by apply (switch_other st1 Q1).
Qed.
