(* ===== verification/SchedProps.v ===== *)
(** * Properties of the scheduler

    Sequences of operations, the properties of the parts, and what is wrong:
    renicing a queued thread, rescheduling on an interrupt, the lazy switching
    of the FPU, the end of a time slice of a thread that is still queued. *)

From stdpp Require Import base numbers list gmap.
From Stdlib Require Import ZArith Lia.
From S2P Require Import Prelude Links Scheduler SchedQueues SchedSwitch SchedOps SchedMove SchedTick.

#[local] Open Scope Z_scope.

(** ** A machine with nothing queued *)
Definition no_rings : rings := fun _ _ => [].

Lemma empty_array_ok : pa_ok empty_array (fun _ => []).
Proof.
  split; try done.
  - apply Forall_replicate. unfold in_word. lia.
  - intros p Hp. apply getz_Some. split; [lia|]. unfold empty_array, queue. apply lookup_replicate. split; [done|lia].
  - intros p Hp. unfold bm_bit. destruct (getz (bitmap empty_array) (p / 32)) as [w|] eqn:E; [|done].
    apply getz_Some in E as [_ E]. unfold empty_array, bitmap in E. apply lookup_replicate in E as [-> _]. apply Z.bits_0.
Qed.

Lemma sched_rep_empty st :
  (forall c r, getz (rqs st) c = Some r -> arr0 r = empty_array /\ arr1 r = empty_array /\ rq_ok st r) ->
  (forall t th, thr st !! t = Some th -> thread_ok (length (rqs st)) t th /\ t_array th = None) ->
  (forall me c, rq_current me st = Some c -> 0 <= c < Z.of_nat (length (rqs st))) ->
  (0 < length (rqs st))%nat -> length (hw st) = length (cpus st) -> length (rebalance_ctr st) = 64%nat ->
  (length (cpus st) <= 64)%nat -> Z.of_nat (size (thr st)) < 2 ^ 31 -> rep st no_rings.
Proof.
  intros Hr Ht Hc Hn Hh Hct Hcp Hs. split; try done.
  - intros a pa Ha. unfold arrs in Ha. destruct (getz (rqs st) a.1) as [r|] eqn:E; [|done]. simpl in Ha. injection Ha as <-.
    destruct (Hr _ _ E) as (E0 & E1 & _). assert (arr r a.2 = empty_array) as -> by (unfold arr; by destruct a.2). apply empty_array_ok.
  - intros a p t. split; [by intros ?%not_elem_of_nil|]. intros (th & Hth & Ha & _). destruct (Ht _ _ Hth). congruence.
  - intros t th Hth. apply (Ht _ _ Hth).
  - intros t th a Hth Ha. destruct (Ht _ _ Hth). congruence.
  - intros c r Hr'. apply (Hr _ _ Hr').
Qed.

(** Two processors, their idle threads at 1 and 2, three threads at 10, 11
    and 12 as [thread_create] leaves them. *)
Definition idle_thread (top : Z) : thread :=
  Thread 0 THREAD_RUNNING (top - 184) top 0 139 139 0 1 0 0 None None 0 0 fpu_state_init.
Definition fresh_thread (tid : Z) : thread :=
  Thread tid THREAD_READY (tid * 0x10000) (tid * 0x10000 + 0x100) (tid * 0x1000) 120 120 50 0 0 0 None None 0 (tid * 0x100) fpu_state_init.
Definition booted_rq (i : Z) : runqueue := set_current i (set_idle i (rq_init (Runqueue 0 empty_array empty_array false false 0 0 0 [] 0))).

(** Thread 10 is [th], the current thread of processor 0 is [cur]. *)
Definition machine (th : thread) (cur : Z) (resched : bool) : sst :=
  SSt (<[1 := idle_thread 0x8000]> (<[2 := idle_thread 0x9000]> (<[10 := th]> (<[11 := fresh_thread 2]> (<[12 := fresh_thread 3]> ∅)))))
      [set_current cur (booted_rq 1); booted_rq 2] [Cpu true (Some 0) 0 resched; Cpu true (Some 1) 0 false]
      [Mach 0 false 0 0 0; Mach 0 false 0 0 0] (replicate 64 0) [].
Definition booted : sst := machine (fresh_thread 1) 1 false.

Lemma machine_rep th cur b : thread_ok 2 10 th -> t_array th = None -> cur = 1 \/ cur = 10 /\ is_Some (t_rq th) ->
  rep (machine th cur b) no_rings.
Proof.
  intros Hok Ha Hcur. apply sched_rep_empty; try done.
  - intros c r Hr. assert (c = 0 /\ r = set_current cur (booted_rq 1) \/ c = 1 /\ r = booted_rq 2) as [[-> ->]|[-> ->]].
    { apply getz_Some in Hr as [H0 Hr]. destruct (Z.to_nat c) as [|[|n]] eqn:E; simpl in Hr; [|
        |done]; injection Hr as <-; [left|right]; (split; [lia|done]). }
    + split; [done|]. split; [done|]. split; try done; simpl; [| |intros; lia].
      * exists (idle_thread 0x8000). done.
      * destruct Hcur as [->|[-> Hrq]]; [by right; left|]. right; right. exists th. done.
    + split; [done|]. split; [done|]. split; try done; simpl; [|by right; left|intros; lia].
      exists (idle_thread 0x9000). done.
  - intros t th' H. simpl in H. repeat (apply lookup_insert_Some in H as [[<- <-]|[_ H]];
      [first [done|split; [split; simpl; try done; try lia; intros [[? [=]]|[=]]|done]]|]). by apply lookup_empty_Some in H.
  - intros me c. unfold rq_current. simpl. unfold getz. destruct (0 <=? me); [|done].
    destruct (Z.to_nat me) as [|[|n]]; simpl; [intros [= <-]; lia..|done].
  - simpl. lia.
  - simpl. lia.
Qed.

Lemma fresh_ok n t tid : t <> 0 -> thread_ok n t (fresh_thread tid).
Proof. intros Ht. split; simpl; try done; try lia. by intros [[? [=]]|[=]]. Qed.

Lemma booted_rep : rep booted no_rings.
Proof. apply machine_rep; [by apply fresh_ok|done|by left]. Qed.

Lemma machine_idle th cur b t : t = 10 \/ t = 11 \/ t = 12 -> ~ is_idle (machine th cur b) t.
Proof.
  intros Ht (c & r & Hr & Hi). apply getz_Some in Hr as [_ Hr].
  destruct (Z.to_nat c) as [|[|n]]; simpl in Hr; [| |done]; injection Hr as <-; simpl in Hi; lia.
Qed.

(** ** Sequences of operations *)
Lemma current_thread st Q c r : rep st Q -> getz (rqs st) c = Some r -> current r <> 0 -> current r <> idle r ->
  exists th, thr st !! current r = Some th /\ is_Some (t_rq th).
Proof. intros H Hr H0 Hi. by destruct (rq_cur _ _ (rep_rq _ _ H _ _ Hr)) as [|[|Hex]]. Qed.

(** The sleep queue is full: the thread goes back to a runqueue. *)
Lemma sleep_full st Q me c r th ticks deadline : rep st Q -> rq_current me st = Some c -> getz (rqs st) c = Some r ->
  current r <> 0 -> current r <> idle r -> thr st !! current r = Some th -> is_Some (t_rq th) -> ~ sleep_count r < 256 ->
  reached (u32 ticks) (u32 deadline) = false ->
  returns (scheduler_sleep_ticks me ticks deadline st) (fun x => x.1 = -1 /\ wf x.2).
Proof.
  intros H Hme Hr H0 Hi Ht Hrq Hcnt Hre. unfold scheduler_sleep_ticks. rewrite Hme, (ld_rq_ok _ _ _ Hr). ret. zcmp. rewrite Hre. cbn [orb].
  set (cur := current r) in *. eapply returns_bind; [by apply (thread_unlink_spec st Q cur th)|]. intros st1 [H1 T1].
  destruct (touched_self _ _ _ _ T1) as (th1 & Hth1 & E1). destruct (strip_fields _ _ E1) as [Ec Ea]. simpl in Ea.
  apply core_fields in Ec as (_ & _ & _ & _ & _ & _ & _ & _ & _ & Erq & _). simpl in Erq.
  rewrite (thr_upd_ok _ _ _ _ Hth1). ret. unfold SLEEP_MAX.
  do 1 (erewrite thr_upd_ok by (simpl; apply lookup_insert_eq); ret; simpl thr; rewrite insert_insert_eq). zcmp.
  do 2 (erewrite thr_upd_ok by (simpl; apply lookup_insert_eq); ret; simpl thr; rewrite insert_insert_eq).
  set (th2 := set_state THREAD_READY _). set (st2 := set_thr _ _).
  assert (rep st2 (leave Q cur th)) as H2.
  { apply (rep_upd st1 _ cur th1 th2); try done. destruct (rep_thr _ _ H1 _ _ Hth1). split; try done; simpl.
    - intros _. by left.
    - intros _. by rewrite Erq. }
  eapply returns_bind.
  { apply (add_thread_spec st2 _ me cur th2 H2); [simpl; apply lookup_insert_eq|done|].
    apply (home_not_idle st2 _ cur th2 H2); [simpl; apply lookup_insert_eq|]. simpl. by rewrite Erq. }
  intros st3 (c3 & r3 & _ & _ & H3 & _). ret. split; [done|]. by eexists.
Qed.

Lemma sleep_total st Q me c ticks deadline : rep st Q -> rq_current me st = Some c ->
  returns (scheduler_sleep_ticks me ticks deadline st) (fun x => wf x.2).
Proof.
  intros H Hme. destruct (getz_lt _ _ (rep_cpus _ _ H _ _ Hme)) as [r Hr]. assert (wf st) as Hw by (by exists Q).
  destruct (decide (current r = 0 \/ current r = idle r \/ reached (u32 ticks) (u32 deadline) = true)) as [Hcase|Hcase].
  - unfold scheduler_sleep_ticks. rewrite Hme, (ld_rq_ok _ _ _ Hr). ret.
    destruct (Z.eqb_spec (current r) 0), (Z.eqb_spec (current r) (idle r)); cbn [orb]; try done.
    destruct Hcase as [|[| ->]]; done.
  - apply Decidable.not_or in Hcase as [H0 [Hi Hre]%Decidable.not_or]. apply not_true_is_false in Hre.
    destruct (current_thread st Q c r H Hr H0 Hi) as (th & Ht & Hrq). destruct (Z_lt_dec (sleep_count r) 256).
    + eapply returns_mono; [by apply (sleep_spec st Q me c r th)|]. intros x (_ & H' & _). by eexists.
    + eapply returns_mono; [by apply (sleep_full st Q me c r th)|]. intros x [_ Hx]. done.
Qed.

Lemma block_total st Q me c : rep st Q -> rq_current me st = Some c -> returns (scheduler_block_current me st) wf.
Proof.
  intros H Hme. destruct (getz_lt _ _ (rep_cpus _ _ H _ _ Hme)) as [r Hr]. assert (wf st) as Hw by (by exists Q).
  destruct (decide (current r = 0 \/ current r = idle r)) as [Hcase|[H0 Hi]%Decidable.not_or].
  - unfold scheduler_block_current. rewrite Hme, (ld_rq_ok _ _ _ Hr). ret.
    destruct (Z.eqb_spec (current r) 0), (Z.eqb_spec (current r) (idle r)); cbn [orb]; try done. by destruct Hcase.
  - destruct (current_thread st Q c r H Hr H0 Hi) as (th & Ht & _).
    eapply returns_mono; [by apply (block_current_spec st Q me c r th)|]. intros st' [H' _]. by eexists.
Qed.

Lemma remove_total st Q t th : rep st Q -> thr st !! t = Some th -> returns (scheduler_remove_thread t st) wf.
Proof.
  intros H Ht. unfold scheduler_remove_thread. pose proof (th_null _ _ _ (rep_thr _ _ H _ _ Ht)). zcmp. rewrite (thr_ld_ok _ _ _ Ht). ret.
  destruct (t_array th) as [a|] eqn:Ea; [|by exists Q]. destruct (t_rq th) as [c|] eqn:Eq; [|by exists Q].
  eapply returns_bind; [by apply (dequeue_touched st Q a t th)|]. intros st1 [H1 T1].
  destruct (touched_self _ _ _ _ T1) as (th1 & Hth1 & E1). destruct (strip_fields _ _ E1) as [Ec Ea1]. simpl in Ea1.
  apply core_fields in Ec as (_ & _ & _ & _ & _ & _ & _ & _ & _ & Erq & _). simpl in Erq.
  eapply returns_mono; [apply (state_spec st1 _ t th1 _ H1 Hth1 Ea1); by rewrite Erq, Eq|]. intros st2 [H2 _]. by eexists.
Qed.

Lemma nice_prio_range n : 100 <= nice_to_prio n <= 139.
Proof.
  unfold nice_to_prio, clamp_prio, MAX_RT_PRIO, PRIO_MAX, DEFAULT_PRIO. cbn zeta.
  repeat match goal with |- context [if ?b then _ else _] => destruct b eqn:? end; lia.
Qed.

Lemma nice_total st Q me t th nice : rep st Q -> thr st !! t = Some th -> t_array th = None ->
  returns (scheduler_set_nice me t nice st) wf.
Proof.
  intros H Ht Ha. unfold scheduler_set_nice. pose proof (rep_thr _ _ H _ _ Ht) as Hok. pose proof (th_null _ _ _ Hok). zcmp.
  rewrite (thr_ld_ok _ _ _ Ht). ret. destruct (match t_rq th with Some c => Some c | None => rq_current me st end); [|by exists Q].
  rewrite Ha. cbn zeta. rewrite (thr_upd_ok _ _ _ _ Ht). ret. erewrite thr_upd_ok by (simpl; apply lookup_insert_eq). ret. simpl thr.
  rewrite insert_insert_eq. exists Q. set (n := if 19 <? _ then 19 else _). set (th1 := set_prio _ _).
  pose proof (nice_prio_range n). pose proof (effective_prio_range (nice_to_prio n) (t_avg th)).
  apply (rep_upd st Q t th th1); try done; [by rewrite Ha; intros [? ?]|]. destruct Hok. by split.
Qed.

(** The operations on the scheduler, with what their callers ensure.  [OpNice]
    excludes queued threads and [OpSwitch] priority changes of queued RUNNING
    threads: both are wrong in the code, see below. *)
Inductive sop : Type :=
| OpAdd (t : Z)
| OpRemove (t : Z)
| OpUnblock (t : Z)
| OpPark (t : Z)
| OpBlock
| OpSleep (ticks deadline : Z)
| OpMigrate (t target : Z)
| OpNice (t nice : Z)
| OpSwitch (frame int_no ticks : Z).

Definition run_sop (me : Z) (op : sop) (st : sst) : out sst :=
  match op with
  | OpAdd t => scheduler_add_thread me t st
  | OpRemove t => scheduler_remove_thread t st
  | OpUnblock t => scheduler_unblock_thread me t st
  | OpPark t => park_thread t st
  | OpBlock => scheduler_block_current me st
  | OpSleep ticks deadline => x ← scheduler_sleep_ticks me ticks deadline st; Ret x.2
  | OpMigrate t target => x ← thread_migrate me t target st; Ret x.2
  | OpNice t nice => scheduler_set_nice me t nice st
  | OpSwitch frame int_no ticks => x ← scheduler_switch me frame int_no ticks st; Ret x.2
  end.

Definition unqueued (t : Z) (st : sst) : Prop := exists th, thr st !! t = Some th /\ t_array th = None.

Definition sop_pre (c : Z) (op : sop) (st : sst) : Prop :=
  match op with
  | OpAdd t => unqueued t st /\ ~ is_idle st t
  | OpRemove t => is_Some (thr st !! t)
  | OpUnblock t | OpPark t => known st t = true
  | OpBlock | OpSleep _ _ => True
  | OpMigrate t target => is_Some (thr st !! t) /\ 0 <= target
  | OpNice t _ => unqueued t st
  | OpSwitch _ _ _ => cur_stable c st
  end.

Lemma run_sop_spec me c op st : wf st -> rq_current me st = Some c -> sop_pre c op st -> returns (run_sop me op st) wf.
Proof.
  intros Hw Hme Hpre. pose proof Hw as [Q H]. destruct op as [t|t|t|t| |ticks deadline|t target|t nice|frame int_no ticks]; simpl in *.
  - destruct Hpre as [(th & Ht & Ha) Hid]. eapply returns_mono; [by apply (add_thread_spec st Q me t th)|].
    intros st' (c' & r & _ & _ & H' & _). by eexists.
  - destruct Hpre as [th Ht]. by apply (remove_total st Q t th).
  - eapply returns_mono; [by apply wake_returns|]. by intros st' [Hw' _].
  - eapply returns_mono; [by apply park_returns|]. by intros st' [Hw' _].
  - by apply (block_total st Q me c).
  - eapply returns_bind; [by apply (sleep_total st Q me c)|]. by intros x Hx.
  - destruct Hpre as [[th Ht] Htg]. eapply returns_bind; [by apply (migrate_spec st Q me t th target)|].
    intros [rc st'] [[-> _]|(a & q & r & _ & _ & _ & _ & _ & _ & H' & _)]; [done|]. by eexists.
  - destruct Hpre as (th & Ht & Ha). by apply (nice_total st Q me t th).
  - eapply returns_bind; [by apply (scheduler_switch_spec st Q me c)|]. by intros x Hx.
Qed.

(** Operations of any processors, one after the other. *)
Fixpoint run_sops (ops : list (Z * sop)) (st : sst) : out sst :=
  match ops with
  | [] => Ret st
  | (me, op) :: ops => st ← run_sop me op st; run_sops ops st
  end.

Fixpoint admissible (ops : list (Z * sop)) (st : sst) : Prop :=
  match ops with
  | [] => True
  | (me, op) :: ops =>
      (exists c, rq_current me st = Some c /\ sop_pre c op st) /\ forall st', run_sop me op st = Ret st' -> admissible ops st'
  end.

(** The data stay within their types: priorities of normal threads, the
    interactivity estimate a percentage, unsigned time slices, bitmaps of five
    32-bit words, a counter that is the number of queued threads. *)
Definition typed_thread (th : thread) : Prop :=
  100 <= t_static th <= 139 /\ 100 <= t_prio th <= 139 /\ 0 <= t_avg th <= 100 /\ 0 <= t_slice th < 2 ^ 32 /\
  (is_Some (t_array th) -> live th).
Definition typed_array (st : sst) (pa : prio_array) : Prop :=
  length (queue pa) = 140%nat /\ length (bitmap pa) = 5%nat /\ Forall (in_word 32) (bitmap pa) /\
  0 <= nr_active pa <= Z.of_nat (size (thr st)) /\ forall h, h ∈ queue pa -> h = 0 \/ is_Some (thr st !! h).
Definition typed_rq (st : sst) (r : runqueue) : Prop :=
  typed_array st (arr0 r) /\ typed_array st (arr1 r) /\ expired r = negb (active r) /\
  length (sleep_queue r) = 256%nat /\ 0 <= sleep_count r <= 256 /\ forall u, u ∈ sleepers r -> is_Some (thr st !! u).
Definition typed (st : sst) : Prop :=
  (forall t th, thr st !! t = Some th -> t <> 0 /\ typed_thread th) /\ forall c r, getz (rqs st) c = Some r -> typed_rq st r.

Lemma rep_typed_array st Q c r i : rep st Q -> getz (rqs st) c = Some r -> typed_array st (arr r i).
Proof.
  intros H Hr. pose proof (rep_arr _ _ H (c, i) _ ltac:(unfold arrs; simpl; by rewrite Hr)) as Hpa. simpl in Hpa.
  split; [apply Hpa|]. split; [apply Hpa|]. split; [apply Hpa|]. split; [rewrite (pa_nr _ _ Hpa); apply (queued_range _ _ _ H)|].
  intros h [p Hp]%list_elem_of_lookup. pose proof (lookup_lt_Some _ _ _ Hp) as Hlt. rewrite (pa_qlen _ _ Hpa) in Hlt.
  pose proof (pa_heads _ _ Hpa (Z.of_nat p) ltac:(lia)) as Hg. rewrite getz_of_nat, Hp in Hg. injection Hg as ->.
  destruct (Q (c, i) (Z.of_nat p)) as [|y tl] eqn:EQ; [by left|right]. apply (rep_dom _ _ (c, i) (Z.of_nat p) y H). rewrite EQ. by left.
Qed.

Lemma wf_typed st : wf st -> typed st.
Proof.
  intros [Q H]. split.
  - intros t th Ht. destruct (rep_thr _ _ H _ _ Ht). split; [done|]. by repeat (split; [done|]).
  - intros c r Hr. split; [apply (rep_typed_array st Q c r false H Hr)|]. split; [apply (rep_typed_array st Q c r true H Hr)|].
    pose proof (rep_rq _ _ H _ _ Hr) as Hok. destruct (sleepers_ok _ _ Hok) as (_ & Hd & _). destruct Hok as [_ Hs _ _ Hl Hc _].
    split; [done|]. split; [done|]. by split.
Qed.

Lemma run_sops_spec ops st : wf st -> admissible ops st -> returns (run_sops ops st) wf.
Proof.
  revert st. induction ops as [|[me op] ops IH]; intros st Hw Ha; cbn [run_sops]; [done|].
  destruct Ha as [(c & Hme & Hpre) Hnext]. destruct (returns_inv _ _ (run_sop_spec me c op st Hw Hme Hpre)) as (st' & E & Hw').
  rewrite E. ret. apply IH; [done|]. by apply Hnext.
Qed.

(** C17: The scheduler state keeps its types: on any sequence of operations of
    any processors (adding, removing, waking, parking, blocking, sleeping,
    migrating, renicing unqueued threads, switching on every interrupt) whose
    callers keep their preconditions, no step has undefined behaviour or fails
    to return, and afterwards priorities are between 100 and 139, sleep
    averages between 0 and 100, bitmaps five 32-bit words, [nr_active] between
    0 and the number of threads, and every queue head and sleeper is a
    thread. *)
Theorem scheduler_typed ops st : wf st -> admissible ops st -> returns (run_sops ops st) typed.
Proof. intros Hw Ha. eapply returns_mono; [by apply run_sops_spec|]. apply wf_typed. Qed.

(** Thread 10 added to the booted machine. *)
Lemma booted_added st' : scheduler_add_thread 0 10 booted = Ret st' ->
  exists c r, least_loaded booted c /\ getz (rqs booted) c = Some r /\
    rep st' (join no_rings (c, active r) 120 10) /\ touched booted st' 10 (set_array (Some (c, active r)) (placed c (fresh_thread 1))).
Proof.
  intros E. pose proof (add_thread_spec booted no_rings 0 10 (fresh_thread 1) booted_rep eq_refl eq_refl) as Hs.
  rewrite E in Hs. apply Hs. apply machine_idle. by left.
Qed.

Lemma booted_added_stable st' : scheduler_add_thread 0 10 booted = Ret st' -> rq_current 0 st' = Some 0 /\ cur_stable 0 st'.
Proof.
  intros E. destruct (booted_added st' E) as (c & r & _ & _ & _ & T). split; [unfold rq_current; by rewrite (to_cpus _ _ _ _ T)|].
  intros r' th Hr' Hth _. destruct (fmap_rq booted st' 0 (booted_rq 1) (to_rest _ _ _ _ T) eq_refl) as (r1 & Hr1 & Er).
  rewrite Hr' in Hr1. injection Hr1 as <-. pose proof (rk_cur _ _ (rest_keep _ _ Er)) as Ec. simpl in Ec. rewrite Ec in Hth.
  pose proof (touched_other _ _ _ _ 1 T ltac:(done)) as Ho. rewrite Hth in Ho. left. exact (f_equal (default None) (f_equal (fmap t_array) Ho)).
Qed.

Lemma scheduler_typed_witness :
  admissible [(0, OpAdd 10); (0, OpSwitch 0x500 32 1)] booted /\
  returns (run_sops [(0, OpAdd 10); (0, OpSwitch 0x500 32 1)] booted) typed.
Proof.
  assert (admissible [(0, OpAdd 10); (0, OpSwitch 0x500 32 1)] booted) as Ha.
  { split.
    - exists 0. split; [done|]. split; [by exists (fresh_thread 1)|]. apply machine_idle. by left.
    - intros st' E. simpl in E. destruct (booted_added_stable st' E). split; [|done]. by exists 0. }
  split; [exact Ha|]. apply (scheduler_typed _ booted); [by exists no_rings; apply booted_rep|exact Ha].
Defined.

(** C15: The priority arrays are queues.  Where [Q a p] are the threads of
    priority [p] on the array [a], in order: [prio_array_enqueue] appends a
    thread to the queue of its priority, [prio_array_dequeue] takes it out
    wherever it is, both change nothing else, and [prio_array_find_top] is the
    best priority in use, -1 if there is none. *)
Theorem prio_array_correct st Q a t th :
  rep st Q -> thr st !! t = Some th -> 0 <= a.1 < Z.of_nat (length (rqs st)) ->
  (t_array th = None -> live th -> is_Some (t_rq th) ->
    returns (prio_array_enqueue (Some a) t (t_prio th) st) (fun st' =>
      rep st' (qupd Q a (t_prio th) (Q a (t_prio th) ++ [t])) /\ moved st st' t (Some a))) /\
  (t_array th = Some a ->
    returns (prio_array_dequeue (Some a) t (t_prio th) st) (fun st' =>
      rep st' (qupd Q a (t_prio th) (without t (Q a (t_prio th)))) /\ moved st st' t None)) /\
  exists pa, arrs st a = Some pa /\
    ((prio_array_find_top pa = -1 /\ forall p, Q a p = []) \/ best (Q a) (prio_array_find_top pa)).
Proof.
  intros H Ht Ha. split; [|split].
  - intros. by apply (prio_enqueue_spec st Q a t th).
  - intros. by apply (prio_dequeue_spec st Q a t th).
  - destruct a as [c i]. destruct (getz_lt _ _ Ha) as [r Hr]. exists (arr r i). split; [unfold arrs; simpl in *; by rewrite Hr|].
    by apply (rep_top st Q c r i).
Qed.

Lemma prio_array_correct_witness :
  exists pa, arrs booted (1, true) = Some pa /\ prio_array_find_top pa = -1.
Proof.
  destruct (prio_array_correct booted no_rings (1, true) 10 (fresh_thread 1) booted_rep eq_refl ltac:(simpl; lia)) as (_ & _ & pa & Hpa & Htop).
  exists pa. split; [exact Hpa|]. destruct Htop as [[E _]|(_ & Hne & _)]; [exact E|done].
Defined.

(** C14: [context_switch] runs the right thread: the first one of the best
    priority in use on the active array, on the expired array if no thread is
    active, the idle thread if nothing is queued.  It always returns, the
    thread is marked RUNNING and made current, goes to the end of its queue
    (or leaves it if it was alone), FSBASE, the kernel stack, the page
    directory and CR0.TS are set for it, its saved stack pointer is returned,
    and no other thread changes. *)
Theorem context_switch_correct fuel me c r st Q :
  rep st Q -> getz (rqs st) c = Some r -> 0 <= me < Z.of_nat (length (hw st)) -> (0 < fuel)%nat ->
  let i := side Q c r in
  returns (context_switch fuel me c st) (fun x =>
    ((forall p, Q (c, i) p = []) /\ rep x.2 Q /\ idles me c r i st x.2 x.1) \/
    exists p next tl, best (Q (c, i)) p /\ Q (c, i) p = next :: tl /\
      rep x.2 (qupd Q (c, i) p (rest_of next tl)) /\ runs me c next r i st x.2 x.1).
Proof. apply context_switch_spec. Qed.

Lemma context_switch_correct_witness : exists st' c r Q,
  scheduler_add_thread 0 10 booted = Ret st' /\ rep st' Q /\ getz (rqs st') c = Some r /\
  returns (context_switch 1 0 c st') (fun x => exists p tl, Q (c, side Q c r) p = 10 :: tl).
Proof.
  pose proof (add_thread_spec booted no_rings 0 10 (fresh_thread 1) booted_rep eq_refl eq_refl) as Hadd.
  destruct (returns_inv _ _ (Hadd (machine_idle _ _ _ 10 ltac:(by left)))) as (st' & E & _). clear Hadd. exists st'.
  destruct (booted_added st' E) as (c & r0 & _ & Hr0 & H & T). set (Q := join no_rings (c, active r0) 120 10) in *.
  destruct (fmap_rq _ _ _ _ (to_rest _ _ _ _ T) Hr0) as (r & Hr & Er). exists c, r, Q. split; [exact E|]. split; [exact H|]. split; [exact Hr|].
  eapply returns_mono; [apply (context_switch_correct 1 0 c r st' Q H Hr); [rewrite (to_hw _ _ _ _ T); simpl; lia|lia]|].
  assert (active r = active r0) as Eact by (by apply rest_keep in Er as []).
  assert (Q (c, active r) 120 = [10]) as EQ by (unfold Q, join; rewrite Eact; apply qupd_eq).
  assert (side Q c r = active r) as Es.
  { unfold side. rewrite Eact. unfold Q at 1, join, qupd. rewrite decide_True by done. rewrite count_upd by lia. by vm_compute. }
  rewrite Es. intros x [(Hno & _)|(p & next & tl & (_ & Hne & _) & Hq & _)]; [by rewrite Hno in EQ|].
  exists p, tl. destruct (decide (p = 120)) as [->|Hp]; [congruence|].
  unfold Q, join in Hq. rewrite qupd_ne in Hq by (by right). done.
Defined.

(** C16: The scheduler implements the interface the ports, wait queues and pipes
    are verified against: on states with the scheduler invariant, waking a
    thread makes exactly that thread no longer blocked, parking a thread that
    has been scheduled makes exactly it blocked, and neither changes which
    threads exist. *)
Theorem scheduler_implements_sched me : @SchedLaws sched_state (scheduler_sched me).
Proof. apply scheduler_laws. Qed.

(** [dl u] is the tick at which the sleeper [u] asked to be woken, if any.  The
    thread keeps the low 32 bits, of which 0 stands for no deadline, and the
    comparison is right for deadlines less than 2^31 ticks away. *)
Definition deadline_ok (ticks : Z) (d : option Z) (th : thread) : Prop :=
  match d with
  | Some d => t_until th = u32 d /\ u32 d <> 0 /\ - 2 ^ 31 <= ticks - d < 2 ^ 31
  | None => t_until th = 0
  end.

Definition passed (ticks : Z) (d : option Z) : Prop := match d with Some d => d <= ticks | None => False end.

#[local] Instance passed_dec ticks d : Decision (passed ticks d).
Proof. destruct d; simpl; apply _. Defined.

Lemma s32_u32 x : - 2 ^ 31 <= x < 2 ^ 31 -> s32 (u32 x) = x.
Proof. intros Hx. rewrite <- (s32_small x Hx) at 2. unfold s32, swrap, u32. by rewrite Zplus_mod_idemp_l. Qed.

Lemma reached_spec ticks d : - 2 ^ 31 <= ticks - d < 2 ^ 31 -> reached (u32 ticks) (u32 d) = bool_decide (d <= ticks).
Proof.
  intros Hd. unfold reached. replace (u32 (u32 ticks - u32 d)) with (u32 (ticks - d)) by (unfold u32; apply Zminus_mod).
  rewrite s32_u32 by done. destruct (Z.leb_spec 0 (ticks - d)); symmetry; [apply bool_decide_eq_true|apply bool_decide_eq_false]; lia.
Qed.

Lemma filter_ext_in {A} (P1 P2 : A -> Prop) `{!forall x, Decision (P1 x), !forall x, Decision (P2 x)} (l : list A) :
  (forall x, x ∈ l -> P1 x <-> P2 x) -> filter P1 l = filter P2 l.
Proof.
  induction l as [|x l IH]; intros Hl; [done|]. rewrite !filter_cons, IH by (intros y Hy; apply Hl; by right).
  assert (P1 x <-> P2 x) as Hx by (apply Hl; by left). destruct (decide (P1 x)), (decide (P2 x)); tauto.
Qed.

Lemma due_spec ticks d th : deadline_ok ticks d th -> due (u32 ticks) th = bool_decide (passed ticks d).
Proof.
  unfold due. destruct d as [d|]; simpl; [intros (-> & Hn & Hd)|by intros ->].
  rewrite (proj2 (Z.eqb_neq _ _) Hn). by apply reached_spec.
Qed.

(** C18: The timer tick wakes the sleepers.  Let the threads in the sleep queue
    of the processor, each in it once, have asked to be woken at the ticks [dl],
    none of them 2^31 or more ticks away or a multiple of 2^32.  Then exactly
    those whose tick has come leave the queue and lose their deadline, and if
    they are BLOCKED they become READY on the active array; every other thread
    keeps all its fields but the links.  The loop always ends. *)
Theorem sleep_wake_correct st Q c r ticks dl : rep st Q -> getz (rqs st) c = Some r -> NoDup (sleepers r) ->
  (forall u th, u ∈ sleepers r -> thr st !! u = Some th -> deadline_ok ticks (dl u) th) ->
  returns (sleep_wake_tick c ticks st) (fun st' => wf st' /\
    (forall u, strip <$> thr st' !! u = strip <$>
       (if decide (u ∈ sleepers r /\ passed ticks (dl u)) then roused (c, active r) <$> thr st !! u else thr st !! u)) /\
    exists r', getz (rqs st') c = Some r' /\ sleepers r' ≡ₚ filter (fun u => ~ passed ticks (dl u)) (sleepers r)).
Proof.
  intros H Hr Hnd Hdl. eapply returns_mono; [by apply (wake_tick_spec st Q c r)|]. intros st' (Hw & _ & Hwo & r' & Hr' & Hs).
  assert (forall u, u ∈ sleepers r -> is_due (u32 ticks) st u = bool_decide (passed ticks (dl u))) as Hdue.
  { intros u Hu. destruct (sleepers_ok _ _ (rep_rq _ _ H _ _ Hr)) as (_ & Hin & _). destruct (Hin u Hu) as [th Hth]. unfold is_due. rewrite Hth.
    apply due_spec. by apply Hdl. }
  split; [done|]. split.
  - intros u. rewrite (Hwo u). destruct (decide (u ∈ sleepers r)) as [Hu|Hu].
    + rewrite bool_decide_eq_true_2, Hdue by done. simpl. destruct (decide (passed ticks (dl u))) as [Hp|Hp].
      * rewrite bool_decide_eq_true_2, decide_True by done. done.
      * rewrite bool_decide_eq_false_2, decide_False by (done || by intros [_ ?]). done.
    + rewrite bool_decide_eq_false_2, decide_False by (done || by intros [? _]). done.
  - exists r'. split; [done|]. rewrite (Hs Hnd), (filter_ext_in _ (fun u => ~ passed ticks (dl u))); [done|].
    intros u Hu. rewrite Hdue by done. apply bool_decide_eq_false.
Qed.

(** Thread 10 runs on processor 0. *)
Definition running10 : thread := set_home (Some 0) (set_state THREAD_RUNNING (fresh_thread 1)).

Lemma running10_ok : thread_ok 2 10 running10.
Proof. split; simpl; try done; try lia. intros c [= <-]. lia. Qed.

Lemma running_rep b : rep (machine running10 10 b) no_rings.
Proof. apply machine_rep; [apply running10_ok|done|right; split; [done|by exists 0]]. Qed.

Lemma sleep_wake_correct_witness : exists st1,
  scheduler_sleep_ticks 0 3 5 (machine running10 10 false) = Ret (1, st1) /\ blocked st1 10 = true /\
  returns (sleep_wake_tick 0 5 st1) (fun st' => blocked st' 10 = false).
Proof.
  pose proof (sleep_spec (machine running10 10 false) no_rings 0 0 (set_current 10 (booted_rq 1)) running10 3 5 (running_rep false)
    eq_refl eq_refl ltac:(done) ltac:(done) eq_refl ltac:(simpl; lia) eq_refl) as Hs.
  apply returns_inv in Hs as ([rc st1] & E & Hrc & H1 & (th & Hth & Eth) & r & Hr & Hsl). simpl in Hrc. subst rc. exists st1.
  split; [exact E|]. assert (t_state th = THREAD_BLOCKED) as Hst by exact (f_equal t_state Eth).
  split; [unfold blocked; simpl in Hth; by rewrite Hth, Hst|].
  eapply returns_mono; [apply (sleep_wake_correct st1 _ 0 r 5 (fun _ => Some 5) H1 Hr)|].
  - rewrite Hsl. apply NoDup_singleton.
  - intros u th1 Hu Hth1. rewrite Hsl in Hu. apply list_elem_of_singleton in Hu as ->. simpl in Hth, Hth1. rewrite Hth in Hth1. injection Hth1 as <-.
    simpl. rewrite (f_equal t_until Eth : t_until th = 5). split; [done|]. split; [done|lia].
  - intros st' (_ & Hw & _). specialize (Hw 10). rewrite Hsl, decide_True in Hw by (split; [by left|simpl; lia]).
  simpl in Hth. rewrite Hth in Hw. simpl in Hw. unfold blocked. destruct (thr st' !! 10) as [th'|]; [|done].
  pose proof (f_equal (default 0) (f_equal (fmap t_state) Hw)) as Es. simpl in Es. rewrite Es. unfold roused. by rewrite Hst.
Defined.

(** ** What is wrong *)

(** [scheduler_set_nice] of a queued thread dereferences NULL:
    [prio_array_dequeue] clears [t->array], which is then passed to
    [prio_array_enqueue] as the array to put the thread on. *)
Theorem set_nice_faults st Q me t th nice : rep st Q -> thr st !! t = Some th -> is_Some (t_array th) ->
  scheduler_set_nice me t nice st = UB.
Proof.
  intros H Ht [a Ha]. pose proof (rep_thr _ _ H _ _ Ht) as Hok. destruct (th_home _ _ _ Hok) as [c Hrq]; [left; by exists a|].
  unfold scheduler_set_nice. pose proof (th_null _ _ _ Hok). zcmp. rewrite (thr_ld_ok _ _ _ Ht). ret. rewrite Hrq, Ha.
  destruct (returns_inv _ _ (dequeue_touched st Q a t th H Ht Ha)) as (st1 & -> & _ & T1). ret.
  destruct (touched_self _ _ _ _ T1) as (th1 & Hth1 & E1). destruct (strip_fields _ _ E1) as [_ Ea]. simpl in Ea.
  rewrite (thr_upd_ok _ _ _ _ Hth1). ret. rewrite (thr_ld_ok _ _ _ (lookup_insert_eq _ _ _)). ret.
  do 2 (erewrite thr_upd_ok by (simpl; apply lookup_insert_eq); ret; simpl thr; rewrite insert_insert_eq).
  erewrite thr_ld_ok by (simpl; apply lookup_insert_eq). ret. simpl. rewrite Ea. done.
Qed.

Lemma set_nice_faults_witness : exists st', scheduler_add_thread 0 10 booted = Ret st' /\ scheduler_set_nice 0 10 5 st' = UB.
Proof.
  pose proof (add_thread_spec booted no_rings 0 10 (fresh_thread 1) booted_rep eq_refl eq_refl) as Hadd.
  destruct (returns_inv _ _ (Hadd (machine_idle _ _ _ 10 ltac:(by left)))) as (st' & E & c & r & _ & _ & H & T). exists st'.
  split; [exact E|]. destruct (touched_self _ _ _ _ T) as (th & Hth & Es).
  apply (set_nice_faults st' _ 0 10 th 5 H Hth). exists (c, active r). exact (f_equal t_array Es).
Defined.

Lemma count_empty q : (forall p, q p = []) -> count q = 0.
Proof.
  intros Hq. unfold count. induction (seqZ 0 140) as [|p l IH]; [done|]. cbn [sumz foldr]. rewrite Hq.
  change (foldr _ 0 l) with (sumz (fun p => Z.of_nat (length (q p))) l). by rewrite IH.
Qed.

Lemma elem_rest_of next tl y : y ∈ rest_of next tl -> y ∈ next :: tl.
Proof. unfold rest_of. destruct (decide (tl = [])); [by intros ?%not_elem_of_nil|]. set_solver. Qed.

(** A thread that is on no queue and not dispatched stays on no queue. *)
Lemma switch_leaves st Q me c r fuel t th : rep st Q -> getz (rqs st) c = Some r -> 0 <= me < Z.of_nat (length (hw st)) -> (0 < fuel)%nat ->
  0 < count (Q (c, active r)) -> thr st !! t = Some th -> t_array th = None ->
  returns (context_switch fuel me c st) (fun x => wf x.2 /\ exists th' r',
    thr x.2 !! t = Some th' /\ core th' = core th /\ t_array th' = None /\ getz (rqs x.2) c = Some r' /\ current r' <> t).
Proof.
  intros H Hr Hme Hf Hc Ht Ha. eapply returns_mono; [by apply (context_switch_spec fuel me c r st Q)|].
  assert (side Q c r = active r) as Es by (unfold side; by zcmp). rewrite Es.
  intros [rsp st'] [(Hno & _)|(p & next & tl & _ & EQ & H' & th2 & m & Hnext & _ & _ & D)]; cbn [fst snd] in *.
  { rewrite (count_empty _ Hno) in Hc. lia. }
  assert (t <> next) as Hne.
  { intros ->. assert (next ∈ Q (c, active r) p) as Hin by (rewrite EQ; by left). apply (rep_mem _ _ H) in Hin as (th' & Hth' & Hta & _). congruence. }
  split; [by eexists|]. destruct D as [_ Dr _ _ _ Dt]. specialize (Dt t). rewrite lookup_insert_ne, Ht in Dt by done.
  destruct (thr st' !! t) as [th'|] eqn:Ht'; [|done]. exists th'.
  pose proof (getz_Some_lt _ _ _ Hr) as Hlt. pose proof (f_equal (fun l => l !! Z.to_nat c) Dr) as Ec. simpl in Ec.
  rewrite list_lookup_insert_eq, list_lookup_fmap in Ec by (rewrite length_fmap; lia).
  destruct (rqs st' !! Z.to_nat c) as [r'|] eqn:Hr'; [|done]. exists r'. split; [done|]. split; [exact (f_equal (default (core th)) Dt)|].
  split; [|split; [apply getz_Some; split; [lia|done]|]].
  - destruct (t_array th') as [b|] eqn:Eb; [|done]. exfalso.
    assert (t ∈ qupd Q (c, active r) p (rest_of next tl) b (t_prio th')) as Hin by (apply (rep_mem _ _ H'); by exists th').
    assert (exists b p, t ∈ Q b p) as (b' & p' & Hin').
    { destruct (decide (b = (c, active r) /\ t_prio th' = p)) as [[-> Ep]|Hn].
      - rewrite Ep, qupd_eq in Hin. apply elem_rest_of in Hin. rewrite <- EQ in Hin. eauto.
      - rewrite qupd_ne in Hin by (destruct (decide (b = (c, active r))); naive_solver). eauto. }
    apply (rep_mem _ _ H) in Hin' as (th'' & Hth'' & Hta & _). congruence.
  - pose proof (f_equal (fun o => current (default r o)) Ec) as Ecur. simpl in Ecur. rewrite Ecur. congruence.
Qed.

(** A reschedule request drops the running thread.  On an interrupt other
    than the tick and the system call gate, with [need_resched] set, another
    thread is dispatched without the current one being put back on a queue:
    it stays RUNNING, is on no queue, is not the current thread of its
    processor any more, and waking it has no effect since it is not BLOCKED,
    so it never runs again.  (The arm64 scheduler requeues it first, with a
    comment that describes this failure.) *)
Theorem resched_orphans_thread st Q me c cp r th frame int_no ticks :
  rep st Q -> getz (cpus st) me = Some cp -> c_runqueue cp = Some c -> c_resched cp = true -> getz (rqs st) c = Some r ->
  current r <> 0 -> current r <> idle r -> thr st !! current r = Some th -> t_tid th <> 0 -> t_state th = THREAD_RUNNING ->
  t_array th = None -> 0 < count (Q (c, active r)) -> int_no <> 32 -> int_no <> 128 ->
  returns (scheduler_switch me frame int_no ticks st) (fun x => wf x.2 /\ exists th' r',
    thr x.2 !! current r = Some th' /\ t_state th' = THREAD_RUNNING /\ t_array th' = None /\
    getz (rqs x.2) c = Some r' /\ current r' <> current r /\
    forall me', exists i, scheduler_unblock_thread me' (current r) x.2 = Ret (set_ipis i x.2)).
Proof.
  intros H Hcp Hc Hre Hr H0 Hi Ht Htid Hs Ha Hcnt H32 H128. assert (rq_current me st = Some c) as Hme by (unfold rq_current; by rewrite Hcp).
  destruct (current_thread st Q c r H Hr H0 Hi) as (th0 & Ht0 & Hrq). rewrite Ht in Ht0. injection Ht0 as <-.
  unfold scheduler_switch, switch_prepare. rewrite Hcp, Hc. zcmp. ret. rewrite (ld_rq_ok _ _ _ Hr). ret.
  rewrite (rep_nr _ _ _ _ _ H Hr). zcmp. ret. unfold save_current. rewrite (ld_rq_ok _ _ _ Hr). ret. cbn zeta. zcmp.
  rewrite (thr_ld_ok _ _ _ Ht). ret. zcmp. rewrite (thr_upd_ok _ _ _ _ Ht). ret. set (st1 := set_thr _ st). ret.
  pose proof (rep_rsp st Q _ th frame H Ht) as H1. fold st1 in H1. rewrite (ld_rq_ok st1 _ r) by done. ret. zcmp.
  rewrite (thr_ld_ok st1 _ (set_rsp frame th)) by (simpl; apply lookup_insert_eq). ret. simpl t_state. rewrite Hs. cbn [Z.eqb THREAD_RUNNING Pos.eqb negb].
  rewrite Hre. destruct (rep_cpus_resched st1 Q me cp false H1 Hcp) as (Hw & H2 & Hc2). rewrite Hc in Hw, H2, Hc2. rewrite Hw. ret.
  set (st2 := set_cpus _ st1) in *. pose proof (me_hw st2 Q me c H2 ltac:(by rewrite Hc2)) as Hhw.
  eapply returns_mono; [apply (switch_leaves st2 Q me c r (switch_fuel st1) (current r) (set_rsp frame th) H2 Hr Hhw); try done;
    [unfold switch_fuel; lia|simpl; apply lookup_insert_eq]|].
  intros x (Hwf & th' & r' & Ht' & Ec & Ha' & Hr' & Hcur). split; [done|]. exists th', r'. destruct Hwf as [Q' H'].
  pose proof (core_fields _ _ Ec) as (_ & Es & _ & _ & _ & _ & _ & _ & _ & Erq & _). simpl in Es, Erq.
  split; [done|]. split; [congruence|]. split; [done|]. split; [done|]. split; [done|]. intros me'.
  destruct (unblock_other x.2 Q' me' (current r) th' H' Ht') as (i & Hi' & _); [rewrite Es, Hs; done|by rewrite Erq|]. by exists i.
Qed.

Lemma resched_orphans_thread_witness : exists st1,
  scheduler_add_thread 0 11 (machine running10 10 true) = Ret st1 /\
  returns (scheduler_switch 0 0x500 33 7 st1) (fun x => exists th, thr x.2 !! 10 = Some th /\ t_state th = THREAD_RUNNING /\ t_array th = None).
Proof.
  pose proof (add_thread_spec (machine running10 10 true) no_rings 0 11 (fresh_thread 2) (running_rep true) eq_refl eq_refl
    (machine_idle _ _ _ 11 ltac:(by right; left))) as Hadd.
  apply returns_inv in Hadd as (st1 & E & c & r0 & _ & Hr0 & H & T). exists st1. split; [exact E|].
  assert (c = 0) as ->.
  { assert (exists x, scheduler_add_thread 0 11 (machine running10 10 true) = Ret x /\ (t_rq <$> thr x !! 11) = Some (Some 0)) as (x & Ex & Erq)
      by (eexists; split; [vm_compute; reflexivity|vm_compute; reflexivity]).
    rewrite E in Ex. injection Ex as <-. destruct (touched_self _ _ _ _ T) as (th & Hth & Es). rewrite Hth in Erq. simpl in Erq.
    pose proof (f_equal t_rq Es : t_rq th = Some c). congruence. }
  injection Hr0 as <-. destruct (fmap_rq _ _ 0 _ (to_rest _ _ _ _ T) eq_refl) as (r & Hr & Er).
  pose proof (rest_keep _ _ Er) as [_ Kact _ Kcur Kid _]. simpl in Kact, Kcur, Kid.
  pose proof (touched_other _ _ _ _ 10 T ltac:(done)) as Ho. destruct (thr st1 !! 10) as [th|] eqn:Hth; [|done].
  assert (strip th = strip running10) as Es by exact (f_equal (default (strip th)) Ho).
  eapply returns_mono; [apply (resched_orphans_thread st1 _ 0 0 (Cpu true (Some 0) 0 true) r th 0x500 33 7 H)|].
  - by rewrite (to_cpus _ _ _ _ T).
  - done.
  - done.
  - exact Hr.
  - by rewrite Kcur.
  - by rewrite Kcur, Kid.
  - by rewrite Kcur.
  - rewrite (f_equal t_tid Es : t_tid th = 1). done.
  - exact (f_equal t_state Es).
  - exact (f_equal t_array Es).
  - rewrite Kact. unfold join, qupd. rewrite decide_True by done. rewrite count_upd by (simpl; lia). by vm_compute.
  - done.
  - done.
  - intros x (_ & th' & r' & Hth' & Hs & Ha & _). rewrite Kcur in Hth'. by exists th'.
Defined.

(** ** Lazy switching of the FPU registers *)

Lemma fpu_nm_spec st me c r m th :
  rq_current me st = Some c -> getz (rqs st) c = Some r -> getz (hw st) me = Some m ->
  current r <> 0 -> thr st !! current r = Some th -> t_tid th <> 0 -> (fpu_owner r = 0 \/ is_Some (thr st !! fpu_owner r)) ->
  returns (fpu_nm_handler me st) (fun st' =>
    rqs st' = <[Z.to_nat c := set_owner (current r) r]> (rqs st) /\
    hw st' = <[Z.to_nat me := Mach (m_fsbase m) false (t_fpu th) (m_rsp0 m) (m_dir m)]> (hw st) /\
    forall u, thr st' !! u =
      if bool_decide (u = fpu_owner r /\ u <> 0 /\ u <> current r) then set_fpu (m_fpu m) <$> thr st !! u else thr st !! u).
Proof.
  intros Hme Hr Hm H0 Ht Htid Ho. pose proof (getz_Some_lt _ _ _ Hm) as Hlt. unfold fpu_nm_handler, scheduler_current_thread.
  rewrite Hme, (ld_rq_ok _ _ _ Hr). ret. rewrite (upd_hw_ok _ _ m) by done. ret. rewrite (ld_rq_ok _ _ r) by done. ret.
  set (hs := <[Z.to_nat me := set_ts false m]> (hw st)). assert (getz hs me = Some (set_ts false m)) as Hhs by (by apply getz_insert_eq).
  set (st1 := set_hw hs st).
  assert (exists st2, (if negb (fpu_owner r =? 0) && negb (fpu_owner r =? current r) then fpu_save me (fpu_owner r) st1 else Ret st1) = Ret st2 /\
    st2 = set_thr (thr st2) st1 /\ forall u, thr st2 !! u =
      if bool_decide (u = fpu_owner r /\ u <> 0 /\ u <> current r) then set_fpu (m_fpu m) <$> thr st !! u else thr st !! u) as (st2 & -> & E2 & Hthr).
  { destruct (Z.eqb_spec (fpu_owner r) 0) as [E|E], (Z.eqb_spec (fpu_owner r) (current r)) as [E'|E']; cbn [negb andb].
    4: { destruct Ho as [|[tho Htho]]; [done|]. unfold fpu_save. simpl. rewrite (rd_getz _ _ _ Hhs). ret. rewrite (thr_upd_ok st1 _ tho) by done.
         eexists. split; [done|]. split; [done|]. intros u. simpl. case_bool_decide as Hu.
         - destruct Hu as [-> _]. by rewrite lookup_insert_eq, Htho.
         - rewrite lookup_insert_ne; [done|]. intros <-. by destruct Hu. }
    all: exists st1; split; [done|]; split; [done|]; intros u; rewrite bool_decide_eq_false_2 by naive_solver; done. }
  ret. assert (thr st2 !! current r = Some th) as Ht2.
  { rewrite Hthr, bool_decide_eq_false_2 by naive_solver. done. }
  zcmp. rewrite (thr_ld_ok _ _ _ Ht2). ret. zcmp. unfold fpu_restore. rewrite (thr_ld_ok _ _ _ Ht2). ret. rewrite E2.
  rewrite (upd_hw_ok _ _ (set_ts false m)) by done. ret. rewrite (upd_rq_ok _ _ r) by done. ret. simpl.
  split; [done|]. split; [unfold hs; by rewrite list_insert_insert_eq|done].
Qed.

(** What the #NM handler does: the registers become the saved image of the
    current thread, which becomes their owner, CR0.TS is cleared, and the
    registers are saved first for the previous owner, but only if that is
    another thread.  So a thread that was switched away from and back with no
    other user of the FPU between has its live registers replaced by the image
    of its last loss of ownership: what it computed since is lost. *)
Theorem fpu_nm_handler_effect st me c r m th :
  rq_current me st = Some c -> getz (rqs st) c = Some r -> getz (hw st) me = Some m ->
  current r <> 0 -> thr st !! current r = Some th -> t_tid th <> 0 -> (fpu_owner r = 0 \/ is_Some (thr st !! fpu_owner r)) ->
  returns (fpu_nm_handler me st) (fun st' =>
    rqs st' = <[Z.to_nat c := set_owner (current r) r]> (rqs st) /\
    hw st' = <[Z.to_nat me := Mach (m_fsbase m) false (t_fpu th) (m_rsp0 m) (m_dir m)]> (hw st) /\
    forall u, thr st' !! u =
      if bool_decide (u = fpu_owner r /\ u <> 0 /\ u <> current r) then set_fpu (m_fpu m) <$> thr st !! u else thr st !! u).
Proof. apply fpu_nm_spec. Qed.

Lemma fpu_nm_handler_effect_witness :
  let st := set_hw [Mach 0 true 42 0 0; Mach 0 false 0 0 0] (set_rqs [set_owner 10 (set_current 10 (booted_rq 1)); booted_rq 2] (machine running10 10 false)) in
  returns (fpu_nm_handler 0 st) (fun st' => getz (hw st') 0 = Some (Mach 0 false fpu_state_init 0 0) /\ thr st' !! 10 = Some running10).
Proof.
  intros st. eapply returns_mono.
  { apply (fpu_nm_handler_effect st 0 0 (set_owner 10 (set_current 10 (booted_rq 1))) (Mach 0 true 42 0 0) running10); try done. right. by exists running10. }
  intros st' (_ & Hh & Ht). rewrite Hh. split; [done|]. rewrite (Ht 10). rewrite bool_decide_eq_false_2; [done|]. intros (_ & _ & Hn). by apply Hn.
Defined.

(** The second use of the FPU after a preemption: the registers held [v]. *)
Lemma fpu_live_state_lost st me c r m th v :
  rq_current me st = Some c -> getz (rqs st) c = Some r -> getz (hw st) me = Some m ->
  current r <> 0 -> thr st !! current r = Some th -> t_tid th <> 0 -> fpu_owner r = current r -> m_fpu m = v -> t_fpu th <> v ->
  returns (fpu_nm_handler me st) (fun st' => thr st' = thr st /\ exists m', getz (hw st') me = Some m' /\ m_fpu m' <> v).
Proof.
  intros Hme Hr Hm H0 Ht Htid Ho Hv Hne. eapply returns_mono.
  { apply (fpu_nm_spec st me c r m th); try done. right. rewrite Ho. by exists th. }
  intros st' (_ & Hh & Hthr). split.
  - apply map_eq. intros u. rewrite Hthr, bool_decide_eq_false_2; [done|]. rewrite Ho. intros (-> & _ & Hn). done.
  - eexists. split; [rewrite Hh; apply getz_insert_eq; by apply getz_Some_lt in Hm|done].
Qed.

(** A deadline whose low 32 bits are zero is taken for no deadline: the tick
    never wakes the thread. *)
Lemma zero_deadline_never_due now deadline th : u32 deadline = 0 -> due now (asleep deadline th) = false.
Proof. intros E. unfold due, asleep. simpl. rewrite E. done. Qed.

(** [rq_init] clears the processor number that [scheduler_init_cpu] has just
    written: every runqueue has number 0.  So no processor steals from
    processor 0, and every reschedule interrupt goes to processor 0. *)
Lemma init_loses_cpu_id st id idle_p stack_p cp r0 : getz (cpus st) id = Some cp -> getz (rqs st) id = Some r0 ->
  idle_p <> 0 -> stack_p <> 0 ->
  returns (scheduler_init_cpu id idle_p stack_p st) (fun st' => exists r, getz (rqs st') id = Some r /\ cpu_id r = 0 /\
    steal_one id 0 st' = Ret None).
Proof.
  intros Hcp Hr Hi Hs. pose proof (getz_Some_lt _ _ _ Hr) as Hlt. unfold scheduler_init_cpu. rewrite (rd_getz _ _ _ Hcp). ret.
  rewrite wr_ok by (by apply getz_Some_lt in Hcp). ret. rewrite (upd_rq_ok _ _ r0) by done. ret.
  erewrite upd_rq_ok by (simpl; by apply getz_insert_eq). ret. unfold setup_idle. zcmp. ret.
  erewrite upd_rq_ok by (simpl; apply getz_insert_eq; by rewrite ?length_insert). ret. cbn [Z.ltb Z.compare].
  erewrite thr_upd_ok by (simpl; apply lookup_insert_eq). ret.
  erewrite upd_rq_ok by (simpl; apply getz_insert_eq; by rewrite ?length_insert). ret. simpl.
  eexists. split; [apply getz_insert_eq; by rewrite ?length_insert|]. split; [done|].
  unfold steal_one. erewrite ld_rq_ok by (simpl; apply getz_insert_eq; by rewrite ?length_insert). done.
Qed.

(** The tick empties the wrong queue.  Thread 10 runs and is still linked in
    its ring, alone (its peers were stolen by another processor).  When its
    time slice ends, its priority is recomputed before it is dequeued with the
    new priority: the queue of the new priority is emptied, the queue of the
    old one keeps pointing to the thread, which is now on the expired array. *)
Definition alone_before : sst := machine (set_avg 46 (fresh_thread 1)) 1 false.
Definition run_of (m : out sst) : sst := match m with Ret st => st | _ => booted end.
Definition alone (st : sst) : sst :=
  run_of (st ← upd 10 (fun th => set_slice 1 (set_state THREAD_RUNNING th)) st; upd_rq 0 (set_current 10) st).

Lemma alone_wf : exists st, scheduler_add_thread 0 10 alone_before = Ret st /\ wf (alone st).
Proof.
  assert (rep alone_before no_rings) as H0.
  { apply machine_rep; [|done|by left]. split; simpl; try done; try lia. by intros [[? [=]]|[=]]. }
  pose proof (add_thread_spec alone_before no_rings 0 10 _ H0 eq_refl eq_refl (machine_idle _ _ _ 10 ltac:(by left))) as Hadd.
  apply returns_inv in Hadd as (st & E & c & r & _ & _ & H & T). exists st. split; [done|]. eexists.
  destruct (touched_self _ _ _ _ T) as (th & Hth & Es). unfold alone. rewrite (thr_upd_ok _ _ _ _ Hth). ret.
  set (th1 := set_slice 1 (set_state THREAD_RUNNING th)). set (st1 := set_thr _ st).
  pose proof (f_equal t_rq Es : t_rq th = Some c) as Erq.
  assert (rep st1 (join no_rings (c, active r) 120 10)) as H1.
  { apply (rep_upd st _ 10 th th1 H Hth); try done. destruct (rep_thr _ _ H _ _ Hth). split; try done; simpl; intros _;
      first [by right|rewrite Erq; by eexists]. }
  destruct (fmap_rq _ _ 0 _ (to_rest _ _ _ _ T) eq_refl) as (r1 & Hr1 & Er). rewrite (upd_rq_ok st1 0 r1) by done. simpl run_of.
  apply (rep_upd_rq st1 _ 0 r1 _ H1 Hr1); [done..|]. destruct (rep_rq _ _ H1 _ _ Hr1). split; try done. right; right.
  exists th1. split; [simpl; apply lookup_insert_eq|]. simpl. rewrite Erq. by eexists.
Qed.

Lemma tick_breaks_queue : exists st st', wf st /\ scheduler_current_thread 0 st = Ret 10 /\ tick_running 0 10 st = Ret st' /\ ~ wf st'.
Proof.
  destruct alone_wf as (st0 & E0 & Hwf). exists (alone st0).
  assert (exists x, scheduler_add_thread 0 10 alone_before = Ret x /\ scheduler_current_thread 0 (alone x) = Ret 10 /\
    exists st', tick_running 0 10 (alone x) = Ret st' /\
      (r ← getz (rqs st') 0; getz (queue (arr0 r)) 120) = Some 10 /\ (t_array <$> thr st' !! 10) = Some (Some (0, true)))
    as (x & Ex & Ecur & st' & Et & Eq & Ea).
  { eexists. split; [vm_compute; reflexivity|]. split; [vm_compute; reflexivity|]. eexists. split; [vm_compute; reflexivity|].
    split; vm_compute; reflexivity. }
  rewrite E0 in Ex. injection Ex as <-. exists st'. split; [done|]. split; [done|]. split; [done|]. intros [Q H].
  destruct (getz (rqs st') 0) as [r|] eqn:Hr; [|done]. simpl in Eq.
  pose proof (rep_arr _ _ H (0, false) (arr0 r) ltac:(unfold arrs; simpl; by rewrite Hr)) as Hpa.
  pose proof (pa_heads _ _ Hpa 120 ltac:(lia)) as Hh. rewrite Eq in Hh. injection Hh as Hh.
  destruct (Q (0, false) 120) as [|y tl] eqn:EQ; [done|]. change (after (y :: tl)) with y in Hh. rewrite <- Hh in EQ.
  assert (10 ∈ Q (0, false) 120) as (th & Hth & Ha & _)%(rep_mem _ _ H) by (rewrite EQ; by left).
  rewrite Hth in Ea. simpl in Ea. congruence.
Qed.
