(* ===== verification/Vmm.v ===== *)
(** * The amd64 virtual memory manager (mk/arch/amd64/vm/vmm.c, mk/vm/fault.c)

    Four-level page tables.  A page of physical memory is a page table, kept in
    [tabs] as its 512 entries, or a page of data, kept in [frames] as its
    bytes; the physical page allocator is the interface [Pages].  The code
    reaches page tables at their physical address, through the map of the first
    64 MB that every address space has: a table beyond [IDENTITY_END] is
    undefined behaviour.  (Callers map user pages at USER_BASE, 128 MB, and
    above; that a mapping below 64 MB would hide the page of the same address
    from the kernel is not modelled.)  What the processor does with
    an address of the current address space is [mmu_read] and [mmu_write],
    which walk the tables, and enter [page_fault_handler] when the access is
    not allowed.  The model is the view of one processor: its number, whether
    its CR0.WP is set and the thread it runs are part of the state.  The
    translation caches are not modelled: translations are read from the
    tables. *)

From stdpp Require Import base numbers list gmap sets.
From Stdlib Require Import ZArith Lia.
From S2P Require Import Prelude.

#[local] Open Scope Z_scope.

(** ** Constants (vmm.h, memory.h) *)
Definition VMM_PRESENT : Z := 0x1.
Definition VMM_WRITABLE : Z := 0x2.
Definition VMM_USER : Z := 0x4.
Definition PTE_HUGE : Z := 0x80.
Definition VMM_COW : Z := 0x200.
Definition PTE_ADDR_MASK : Z := 0x000FFFFFFFFFF000.
Definition PAGE_SIZE : Z := 4096.
Definition USER_STACK_TOP : Z := 0x00007FFFFFFFF000.
Definition TEMP_VADDR : Z := 0xFFFFFFFFFFFFF000.
Definition TEMP_SLOTS_MAX : Z := 32.
Definition CPU_MAX : Z := 64.

Definition zeros : list Z := replicate 512 0.

(** [x & f] as a condition. *)
Definition has (x f : Z) : bool := negb (Z.land x f =? 0).

(** ** The physical page allocator, as the page tables use it

    [pused] is the set of the pages handed out and not yet released, [pavail]
    the number of free ones; [plow] says that these lie in the first 64 MB. *)
Class Pages (P : Type) := {
  palloc : P -> out (Z * P);
  pfree : Z -> P -> out P;
  pwf : P -> Prop;
  pused : P -> Z -> Prop;
  pavail : P -> Z;
  plow : P -> Prop;
}.

Class PagesLaws (P : Type) `{!Pages P} : Prop := {
  palloc_ok p : pwf p -> returns (palloc p) (fun '(a, p') => pwf p' /\
    (a = 0 /\ pavail p = 0 /\ pavail p' = 0 /\ (forall x, pused p' x <-> pused p x) \/
     0 < a < 2 ^ 52 /\ a mod PAGE_SIZE = 0 /\ ~ pused p a /\ pavail p' = pavail p - 1 /\ forall x, pused p' x <-> x = a \/ pused p x));
  pfree_ok p a : pwf p -> pused p a -> a mod PAGE_SIZE = 0 ->
    returns (pfree a p) (fun p' => pwf p' /\ pavail p' = pavail p + 1 /\ forall x, pused p' x <-> pused p x /\ x <> a);
  pused_zero p : pwf p -> ~ pused p 0;
  pavail_nonneg p : pwf p -> 0 <= pavail p;
  palloc_low p : pwf p -> plow p -> returns (palloc p) (fun '(a, p') => plow p' /\ a < IDENTITY_END);
  pfree_low p a : pwf p -> plow p -> pused p a -> a mod PAGE_SIZE = 0 -> a < IDENTITY_END -> returns (pfree a p) plow;
}.

Section vmm.
Context {P : Type} `{!Pages P}.

(** [thread_fault]: the current thread, if there is one, and whether its
    recovery point ([fault_active] and [fault_jb]) is armed.  [have_proc]:
    there is a current process. *)
Record vst := VSt {
  tabs : gmap Z (list Z);
  frames : gmap Z (list Z);
  pages : P;
  kernel_pml4 : Z;
  kernel_low_pdp : Z;
  current_pml4 : list Z;
  user_fault_handler : Z;
  cpu_id : Z;
  cr0_wp : bool;
  thread_fault : option bool;
  have_proc : bool;
}.

Implicit Types (st : vst) (dir virt phys flags : Z).

Definition set_tabs m st := VSt m (frames st) (pages st) (kernel_pml4 st) (kernel_low_pdp st)
  (current_pml4 st) (user_fault_handler st) (cpu_id st) (cr0_wp st) (thread_fault st) (have_proc st).
Definition set_frames m st := VSt (tabs st) m (pages st) (kernel_pml4 st) (kernel_low_pdp st)
  (current_pml4 st) (user_fault_handler st) (cpu_id st) (cr0_wp st) (thread_fault st) (have_proc st).
Definition set_pages p st := VSt (tabs st) (frames st) p (kernel_pml4 st) (kernel_low_pdp st)
  (current_pml4 st) (user_fault_handler st) (cpu_id st) (cr0_wp st) (thread_fault st) (have_proc st).
Definition set_kernel k low st := VSt (tabs st) (frames st) (pages st) k low
  (current_pml4 st) (user_fault_handler st) (cpu_id st) (cr0_wp st) (thread_fault st) (have_proc st).
Definition set_current l st := VSt (tabs st) (frames st) (pages st) (kernel_pml4 st) (kernel_low_pdp st)
  l (user_fault_handler st) (cpu_id st) (cr0_wp st) (thread_fault st) (have_proc st).
Definition set_fault_handler h st := VSt (tabs st) (frames st) (pages st) (kernel_pml4 st) (kernel_low_pdp st)
  (current_pml4 st) h (cpu_id st) (cr0_wp st) (thread_fault st) (have_proc st).
Definition set_thread_fault t st := VSt (tabs st) (frames st) (pages st) (kernel_pml4 st) (kernel_low_pdp st)
  (current_pml4 st) (user_fault_handler st) (cpu_id st) (cr0_wp st) t (have_proc st).

(** ** Page tables in memory *)

(** The table at the address [a], if the kernel can reach it there. *)
Definition tab st (a : Z) : option (list Z) := if IDENTITY_END <=? a then None else tabs st !! a.

Definition entry (a i : Z) st : out Z := t ← deref (tab st a); rd t i.

Definition set_entry (a i x : Z) st : out vst :=
  t ← deref (tab st a); t ← wr t i x; Ret (set_tabs (<[a := t]> (tabs st)) st).

(** [memset(table, 0, sizeof(table))] *)
Definition zero_table (a : Z) st : out vst :=
  if IDENTITY_END <=? a then UB else Ret (set_tabs (<[a := zeros]> (tabs st)) st).

Definition pmm_alloc_page st : out (Z * vst) := '(a, p) ← palloc (pages st); Ret (a, set_pages p st).

(** The page is no table any more. *)
Definition pmm_free_page (a : Z) st : out vst :=
  p ← pfree a (pages st); Ret (set_tabs (delete a (tabs st)) (set_pages p st)).

(** ** Walks *)

(** [get_pdp], [get_pd] and [get_pt] differ in the bits of the address they
    use. *)
Definition get_table (sh : Z) (a virt : Z) (create : bool) st : out (Z * vst) :=
  let idx := Z.land (Z.shiftr virt sh) 0x1FF in
  e ← entry a idx st;
  if has e VMM_PRESENT then Ret (Z.land e PTE_ADDR_MASK, st)
  else if negb create then Ret (0, st)
  else
    '(p, st) ← pmm_alloc_page st;
    if p =? 0 then Ret (0, st)
    else
      st ← zero_table p st;
      st ← set_entry a idx (Z.lor (Z.lor (Z.lor p VMM_PRESENT) VMM_WRITABLE) VMM_USER) st;
      Ret (p, st).

Definition get_pdp (pml4 virt : Z) create st := get_table 39 pml4 virt create st.
Definition get_pd (pdp virt : Z) create st := get_table 30 pdp virt create st.
Definition get_pt (pd virt : Z) create st := get_table 21 pd virt create st.

Definition split_huge_page (pd pd_idx : Z) st : out (Z * vst) :=
  huge ← entry pd pd_idx st;
  let phys_base := Z.land huge PTE_ADDR_MASK in
  let leaf_flags := Z.land (Z.land huge 0xFFF) (Z.lnot PTE_HUGE) in
  '(pt, st) ← pmm_alloc_page st;
  if pt =? 0 then Ret (-1, st)
  else
    st ← zero_table pt st;
    st ← for_range 0 512 (fun i st => set_entry pt i (Z.lor (u64 (phys_base + i * PAGE_SIZE)) leaf_flags) st) st;
    st ← set_entry pd pd_idx (Z.lor (Z.lor (Z.lor pt VMM_PRESENT) VMM_WRITABLE) VMM_USER) st;
    Ret (0, st).

Definition pd_index virt : Z := Z.land (Z.shiftr virt 21) 0x1FF.
Definition pt_index virt : Z := Z.land (Z.shiftr virt 12) 0x1FF.

(** The table and the index of the entry; [None] for NULL. *)
Definition walk_leaf (pml4 virt : Z) st : out (option (Z * Z)) :=
  '(pdp, st) ← get_pdp pml4 virt false st;
  if pdp =? 0 then Ret None
  else
    '(pd, st) ← get_pd pdp virt false st;
    if pd =? 0 then Ret None
    else
      e ← entry pd (pd_index virt) st;
      if has e PTE_HUGE then Ret (Some (pd, pd_index virt))
      else
        '(pt, st) ← get_pt pd virt false st;
        if pt =? 0 then Ret None else Ret (Some (pt, pt_index virt)).

(** ** Address spaces *)

Definition HUGE_SIZE : Z := 0x200000.

Definition identity_entry (i : Z) : Z := Z.lor (Z.lor (Z.lor (i * HUGE_SIZE) VMM_PRESENT) VMM_WRITABLE) PTE_HUGE.

Definition vmm_init st : out vst :=
  '(k, st) ← pmm_alloc_page st;
  let st := set_kernel k (kernel_low_pdp st) st in
  if k =? 0 then Ret st
  else
    st ← zero_table k st;
    '(pdp_high, st) ← pmm_alloc_page st;
    '(pdp_low, st) ← pmm_alloc_page st;
    '(pd, st) ← pmm_alloc_page st;
    if (pdp_high =? 0) || (pdp_low =? 0) || (pd =? 0) then Ret st
    else
      st ← zero_table pdp_high st;
      st ← zero_table pdp_low st;
      st ← zero_table pd st;
      st ← set_entry k 511 (Z.lor (Z.lor pdp_high VMM_PRESENT) VMM_WRITABLE) st;
      st ← set_entry pdp_high 510 (Z.lor (Z.lor pd VMM_PRESENT) VMM_WRITABLE) st;
      st ← set_entry k 0 (Z.lor (Z.lor pdp_low VMM_PRESENT) VMM_WRITABLE) st;
      st ← set_entry pdp_low 0 (Z.lor (Z.lor pd VMM_PRESENT) VMM_WRITABLE) st;
      let st := set_kernel k pdp_low st in
      st ← for_range 0 32 (fun i st => set_entry pd i (identity_entry i) st) st;
      l ← wr (current_pml4 st) 0 k;
      Ret (set_current l st).

Definition free_if (a : Z) st : out vst := if a =? 0 then Ret st else pmm_free_page a st.

Definition vmm_create_directory st : out (Z * vst) :=
  '(dir, st) ← pmm_alloc_page st;
  if dir =? 0 then Ret (0, st)
  else
    st ← zero_table dir st;
    st ← for_range 256 512 (fun i st =>
      e ← entry (kernel_pml4 st) i st;
      if has e VMM_PRESENT then set_entry dir i e st else Ret st) st;
    '(pdp, st) ← pmm_alloc_page st;
    '(pd_user0, st) ← pmm_alloc_page st;
    '(pd_user1, st) ← pmm_alloc_page st;
    if (pdp =? 0) || (pd_user0 =? 0) || (pd_user1 =? 0) then
      st ← free_if pdp st;
      st ← free_if pd_user0 st;
      st ← free_if pd_user1 st;
      st ← pmm_free_page dir st;
      Ret (0, st)
    else
      st ← zero_table pdp st;
      st ← zero_table pd_user0 st;
      st ← zero_table pd_user1 st;
      st ← for_range 0 32 (fun i st => set_entry pd_user0 i (identity_entry i) st) st;
      st ← set_entry pdp 0 (Z.lor (Z.lor (Z.lor pd_user0 VMM_PRESENT) VMM_WRITABLE) VMM_USER) st;
      st ← set_entry pdp 1 (Z.lor (Z.lor (Z.lor pd_user1 VMM_PRESENT) VMM_WRITABLE) VMM_USER) st;
      st ← for_range 2 256 (fun i st =>
        if kernel_low_pdp st =? 0 then Ret st
        else
          e ← entry (kernel_low_pdp st) i st;
          if has e VMM_PRESENT then set_entry pdp i e st else Ret st) st;
      st ← set_entry dir 0 (Z.lor (Z.lor (Z.lor pdp VMM_PRESENT) VMM_WRITABLE) VMM_USER) st;
      Ret (dir, st).

Definition vmm_switch_directory dir st : out vst :=
  if dir =? 0 then Ret st else l ← wr (current_pml4 st) (cpu_id st) dir; Ret (set_current l st).

Definition vmm_get_current_directory st : out Z := rd (current_pml4 st) (cpu_id st).

Definition vmm_get_kernel_directory st : Z := kernel_pml4 st.

Fixpoint dir_in_use (n : nat) (i dir : Z) (l : list Z) : out bool :=
  match n with
  | O => Ret false
  | S n => x ← rd l i; if x =? dir then Ret true else dir_in_use n (i + 1) dir l
  end.

Definition vmm_dir_in_use dir st : out bool := dir_in_use (Z.to_nat CPU_MAX) 0 dir (current_pml4 st).

(** The four nested loops of [vmm_free_directory], innermost first. *)
Definition free_pte (pt pti : Z) st : out vst :=
  pte ← entry pt pti st;
  if has pte VMM_PRESENT && has pte VMM_USER && negb (has pte VMM_COW)
  then pmm_free_page (Z.land pte PTE_ADDR_MASK) st else Ret st.

Definition free_pde (pd pdi : Z) st : out vst :=
  e ← entry pd pdi st;
  if negb (has e VMM_PRESENT) then Ret st
  else if has e PTE_HUGE then Ret st
  else
    let pt := Z.land e PTE_ADDR_MASK in
    st ← for_range 0 512 (free_pte pt) st;
    e ← entry pd pdi st;
    pmm_free_page (Z.land e PTE_ADDR_MASK) st.

Definition free_pdpe (pdp pdpi : Z) st : out vst :=
  e ← entry pdp pdpi st;
  if negb (has e VMM_PRESENT) then Ret st
  else
    mirrored ← (if negb (kernel_low_pdp st =? 0) && negb (pdpi =? 0) && negb (pdpi =? 1)
                then k ← entry (kernel_low_pdp st) pdpi st; Ret (e =? k) else Ret false);
    if (mirrored : bool) then Ret st
    else if has e PTE_HUGE then Ret st
    else
      let pd := Z.land e PTE_ADDR_MASK in
      st ← for_range 0 512 (free_pde pd) st;
      e ← entry pdp pdpi st;
      pmm_free_page (Z.land e PTE_ADDR_MASK) st.

Definition free_pml4e (dir pml4i : Z) st : out vst :=
  e ← entry dir pml4i st;
  if negb (has e VMM_PRESENT) then Ret st
  else
    k ← entry (kernel_pml4 st) pml4i st;
    if e =? k then Ret st
    else
      let pdp := Z.land e PTE_ADDR_MASK in
      st ← for_range 0 512 (free_pdpe pdp) st;
      e ← entry dir pml4i st;
      pmm_free_page (Z.land e PTE_ADDR_MASK) st.

Definition vmm_free_directory dir st : out vst :=
  if dir =? 0 then Ret st
  else
    used ← (if dir =? kernel_pml4 st then Ret true else vmm_dir_in_use dir st);
    if (used : bool) then Ret st
    else st ← for_range 0 512 (free_pml4e dir) st; pmm_free_page dir st.

(** ** Mapping *)

(** The entry for the page of [virt], with the tables above it made as needed:
    the steps [vmm_map_page] and [child_pte] share.  [split_ok]: a huge page in
    the way may be split. *)
Definition leaf_pte (split_ok : bool) dir virt st : out (option (Z * Z) * vst) :=
  '(pdp, st) ← get_pdp dir virt true st;
  if pdp =? 0 then Ret (None, st)
  else
    '(pd, st) ← get_pd pdp virt true st;
    if pd =? 0 then Ret (None, st)
    else
      e ← entry pd (pd_index virt) st;
      '(rc, st) ← (if has e PTE_HUGE then
                     if split_ok then split_huge_page pd (pd_index virt) st else Ret (-1, st)
                   else Ret (0, st));
      if negb (rc =? 0) then Ret (None, st)
      else
        '(pt, st) ← get_pt pd virt true st;
        if pt =? 0 then Ret (None, st) else Ret (Some (pt, pt_index virt), st).

Definition vmm_map_page dir phys virt flags st : out (Z * vst) :=
  if dir =? 0 then Ret (-1, st)
  else
    let split_ok := negb ((dir =? kernel_pml4 st) || (256 <=? Z.land (Z.shiftr virt 39) 0x1FF)) in
    '(pte, st) ← leaf_pte split_ok dir virt st;
    match pte with
    | None => Ret (-1, st)
    | Some (pt, i) => st ← set_entry pt i (Z.lor (Z.land phys (Z.lnot 0xFFF)) flags) st; Ret (0, st)
    end.

Definition vmm_unmap_page dir virt st : out vst :=
  pte ← walk_leaf dir virt st;
  match pte with None => Ret st | Some (a, i) => set_entry a i 0 st end.

Definition vmm_get_physical dir virt st : out Z :=
  pte ← walk_leaf dir virt st;
  match pte with
  | None => Ret 0
  | Some (a, i) =>
      e ← entry a i st;
      if negb (has e VMM_PRESENT) then Ret 0
      else if has e PTE_HUGE then Ret (Z.lor (Z.land e PTE_ADDR_MASK) (Z.land virt 0x1FFFFF))
      else Ret (Z.lor (Z.land e PTE_ADDR_MASK) (Z.land virt 0xFFF))
  end.

Definition vmm_get_page_flags dir virt st : out Z :=
  pte ← walk_leaf dir virt st;
  match pte with None => Ret 0 | Some (a, i) => e ← entry a i st; Ret (Z.land e 0xFFF) end.

Definition vmm_is_page_present dir virt st : out Z :=
  pte ← walk_leaf dir virt st;
  match pte with
  | None => Ret 0
  | Some (a, i) => e ← entry a i st; Ret (if has e VMM_PRESENT then 1 else 0)
  end.

Definition vmm_register_fault_handler (h : Z) st : vst := set_fault_handler h st.

(** ** The temporary mappings *)

Definition temp_vaddr_for (cpu : Z) : Z :=
  let cpu := if TEMP_SLOTS_MAX <=? cpu then 0 else cpu in u64 (TEMP_VADDR - cpu * PAGE_SIZE).

Definition vmm_temp_map phys st : out (Z * vst) :=
  let va := temp_vaddr_for (cpu_id st) in
  '(rc, st) ← vmm_map_page (kernel_pml4 st) phys va (Z.lor VMM_PRESENT VMM_WRITABLE) st;
  if rc <? 0 then Ret (0, st) else Ret (va, st).

Definition vmm_temp_unmap st : out vst := vmm_unmap_page (kernel_pml4 st) (temp_vaddr_for (cpu_id st)) st.

(** ** What the processor does with an address

    The entry that maps [va] in the address space [dir], if it is present. *)
Definition mmu_entry dir (va : Z) st : out (option Z) :=
  pte ← walk_leaf dir va st;
  match pte with
  | None => Ret None
  | Some (a, i) => e ← entry a i st; Ret (if has e VMM_PRESENT then Some e else None)
  end.

(** The page of physical memory and the offset an entry maps [va] to. *)
Definition mmu_frame (e va : Z) : Z * Z :=
  if has e PTE_HUGE
  then (Z.land e PTE_ADDR_MASK + PAGE_SIZE * ((va / PAGE_SIZE) mod 512), va mod PAGE_SIZE)
  else (Z.land e PTE_ADDR_MASK, va mod PAGE_SIZE).

(** Copying a whole page from one virtual page to another, in kernel mode:
    both are mapped. *)
Definition memcpy_page dir (dst src : Z) st : out vst :=
  d ← mmu_entry dir dst st;
  s ← mmu_entry dir src st;
  match d, s with
  | Some d, Some s =>
      bytes ← deref (frames st !! (mmu_frame s src).1);
      Ret (set_frames (<[(mmu_frame d dst).1 := bytes]> (frames st)) st)
  | _, _ => UB
  end.

(** ** Copy on write *)

Definition page_base (va : Z) : Z := Z.land va (Z.lnot 0xFFF).

Definition vmm_cow_break (pml4 virt : Z) st : out (Z * vst) :=
  pte ← walk_leaf pml4 virt st;
  match pte with
  | None => Ret (0, st)
  | Some (a, i) =>
      e ← entry a i st;
      if negb (has e VMM_PRESENT) then Ret (0, st)
      else if negb (has e VMM_COW) then Ret (0, st)
      else
        let old_phys := Z.land e PTE_ADDR_MASK in
        '(new_phys, st) ← pmm_alloc_page st;
        if new_phys =? 0 then Ret (0, st)
        else
          '(old_va, st) ← vmm_temp_map old_phys st;
          if old_va =? 0 then st ← pmm_free_page new_phys st; Ret (0, st)
          else
            e ← entry a i st;
            st ← set_entry a i
              (Z.lor (Z.lor (Z.land new_phys (Z.lnot 0xFFF))
                            (Z.land (Z.land e 0xFFF) (Z.lnot (Z.lor VMM_WRITABLE VMM_COW)))) VMM_WRITABLE) st;
            cur ← vmm_get_current_directory st;
            st ← memcpy_page cur (page_base virt) old_va st;
            st ← vmm_temp_unmap st;
            Ret (1, st)
  end.

Definition handle_cow_fault (pml4 fault_addr : Z) st : out (Z * vst) := vmm_cow_break pml4 fault_addr st.

(** ** Faults *)

(** What becomes of the code that faulted: it runs again, it continues at the
    recovery point of its thread, the fault is given to the registered handler,
    the process is ended, or the machine panics. *)
Inductive fault_end := Resume | Recover | UserHandler | Kill | Panic.

Definition fault_try_recover st : bool * vst :=
  match thread_fault st with
  | Some true => (true, set_thread_fault (Some false) st)
  | _ => (false, st)
  end.

Definition fault_oops st : bool * vst :=
  match thread_fault st with
  | Some _ => if have_proc st then (true, set_thread_fault (Some false) st) else (false, st)
  | None => (false, st)
  end.

Definition page_fault_handler (fault_addr error_code : Z) st : out (fault_end * vst) :=
  pml4 ← vmm_get_current_directory st;
  '(broken, st) ← (if has error_code 0x1 && has error_code 0x2
                   then handle_cow_fault pml4 fault_addr st else Ret (0, st));
  if negb (broken =? 0) then Ret (Resume, st)
  else if has error_code 0x4 then
    if negb (user_fault_handler st =? 0) then Ret (UserHandler, st)
    else if have_proc st then Ret (Kill, st)
    else Ret (Panic, st)
  else
    let '(recovered, st) := fault_try_recover st in
    if recovered then Ret (Recover, st)
    else
      let '(oops, st) := fault_oops st in
      if oops then Ret (Kill, st) else Ret (Panic, st).

(** A byte written in kernel mode at [va].  A write to a page without
    [VMM_WRITABLE] faults if CR0.WP is set; the instruction is executed again
    after the handler resumes it. *)
Definition mmu_store dir (va b : Z) st : out (option vst) :=
  e ← mmu_entry dir va st;
  match e with
  | Some e =>
      if has e VMM_WRITABLE || negb (cr0_wp st) then
        let '(f, off) := mmu_frame e va in
        bytes ← deref (frames st !! f);
        bytes ← wr bytes off b;
        Ret (Some (set_frames (<[f := bytes]> (frames st)) st))
      else Ret None
  | None => Ret None
  end.

Definition mmu_write dir (va b : Z) st : out (fault_end * vst) :=
  r ← mmu_store dir va b st;
  match r with
  | Some st => Ret (Resume, st)
  | None =>
      e ← mmu_entry dir va st;
      '(how, st) ← page_fault_handler va (match e with Some _ => 0x3 | None => 0x2 end) st;
      match how with
      | Resume => r ← mmu_store dir va b st; match r with Some st => Ret (Resume, st) | None => Hang end
      | _ => Ret (how, st)
      end
  end.

(** A byte read in kernel mode: [inl] the byte, or the end of the fault. *)
Definition mmu_read dir (va : Z) st : out ((Z + fault_end) * vst) :=
  e ← mmu_entry dir va st;
  match e with
  | Some e =>
      let '(f, off) := mmu_frame e va in
      bytes ← deref (frames st !! f); b ← rd bytes off; Ret (inl b : Z + fault_end, st)
  | None => '(how, st) ← page_fault_handler va 0x0 st; Ret (inr how, st)
  end.

(** ** Fork *)

Definition child_pte (child virt : Z) st : out (option (Z * Z) * vst) := leaf_pte true child virt st.

(** The nested loops of [vmm_fork_cow_pages], innermost first. *)
Definition fork_pte (child virt_base parent_pt pti : Z) st : out vst :=
  pte ← entry parent_pt pti st;
  if negb (has pte VMM_PRESENT) then Ret st
  else if negb (has pte VMM_USER) then Ret st
  else
    '(c, st) ← child_pte child (Z.lor virt_base (Z.shiftl pti 12)) st;
    match c with
    | None => Ret st
    | Some (ct, ci) =>
        let flags := Z.lor (Z.land (Z.land pte 0xFFF) (Z.lnot VMM_WRITABLE)) VMM_COW in
        st ← set_entry parent_pt pti (Z.lor (Z.land pte (Z.lnot 0xFFF)) flags) st;
        e ← entry parent_pt pti st;
        set_entry ct ci e st
    end.

Definition fork_pde (child pml4i pdpi parent_pd pdi : Z) st : out vst :=
  e ← entry parent_pd pdi st;
  if negb (has e VMM_PRESENT) then Ret st
  else if has e PTE_HUGE then Ret st
  else
    let parent_pt := Z.land e PTE_ADDR_MASK in
    let virt_base := Z.lor (Z.lor (Z.shiftl pml4i 39) (Z.shiftl pdpi 30)) (Z.shiftl pdi 21) in
    for_range 0 512 (fork_pte child virt_base parent_pt) st.

Definition fork_pdpe (child pml4i parent_pdp pdpi : Z) st : out vst :=
  e ← entry parent_pdp pdpi st;
  if negb (has e VMM_PRESENT) then Ret st
  else if has e PTE_HUGE then Ret st
  else for_range 0 512 (fork_pde child pml4i pdpi (Z.land e PTE_ADDR_MASK)) st.

Definition fork_pml4e (parent child pml4i : Z) st : out vst :=
  e ← entry parent pml4i st;
  if negb (has e VMM_PRESENT) then Ret st
  else
    k ← entry (kernel_pml4 st) pml4i st;
    if e =? k then Ret st
    else for_range 0 512 (fork_pdpe child pml4i (Z.land e PTE_ADDR_MASK)) st.

Definition vmm_fork_cow_pages (parent child : Z) st : out vst :=
  if (parent =? 0) || (child =? 0) then Ret st
  else for_range 0 256 (fork_pml4e parent child) st.

(** The address space of a new process (bsd/proc/fork.c). *)
Definition fork_directory (parent : Z) st : out (Z * vst) :=
  '(child_dir, st) ← vmm_create_directory st;
  if child_dir =? 0 then Ret (0, st)
  else st ← vmm_fork_cow_pages parent child_dir st; Ret (child_dir, st).

(** The loops of [vmm_clear_user_pages]. *)
Definition clear_pte (pt pti : Z) st : out vst :=
  e ← entry pt pti st; if has e VMM_USER then set_entry pt pti 0 st else Ret st.

Definition clear_pde (pd pdi : Z) st : out vst :=
  e ← entry pd pdi st;
  if negb (has e VMM_PRESENT) then Ret st
  else if has e PTE_HUGE then Ret st
  else for_range 0 512 (clear_pte (Z.land e PTE_ADDR_MASK)) st.

Definition clear_pdpe (pdp pdpi : Z) st : out vst :=
  e ← entry pdp pdpi st;
  if negb (has e VMM_PRESENT) then Ret st
  else if has e PTE_HUGE then Ret st
  else for_range 0 512 (clear_pde (Z.land e PTE_ADDR_MASK)) st.

Definition clear_pml4e (dir pml4i : Z) st : out vst :=
  e ← entry dir pml4i st;
  if negb (has e VMM_PRESENT) then Ret st
  else
    k ← entry (kernel_pml4 st) pml4i st;
    if e =? k then Ret st
    else for_range 0 512 (clear_pdpe (Z.land e PTE_ADDR_MASK)) st.

Definition vmm_clear_user_pages dir st : out vst :=
  if dir =? 0 then Ret st else for_range 0 256 (clear_pml4e dir) st.

(** ** Copies from and to user memory *)

(** [inl rc]: the function returns [rc]; [inr how]: the code that called it is
    not returned to. *)
Definition copy_end : Type := Z + fault_end.

Definition arm st : vst := match thread_fault st with Some _ => set_thread_fault (Some true) st | None => st end.
Definition copy_disarm st : vst := match thread_fault st with Some _ => set_thread_fault (Some false) st | None => st end.

(** A fault inside the copy that reaches the recovery point returns -1. *)
Definition fault_result (how : fault_end) : copy_end := match how with Recover => inl (-1) | how => inr how end.

Fixpoint range_pages (n : nat) (page last dir : Z) (write : bool) st : out Z :=
  match n with
  | O => Hang
  | S n =>
      flags ← vmm_get_page_flags dir page st;
      if negb (has flags VMM_PRESENT) then Ret 0
      else if negb (has flags VMM_USER) then Ret 0
      else if write && negb (has flags (Z.lor VMM_WRITABLE VMM_COW)) then Ret 0
      else if page =? last then Ret 1
      else range_pages n (u64 (page + PAGE_SIZE)) last dir write st
  end.

Definition user_range_ok (addr size : Z) (write : bool) st : out Z :=
  if size =? 0 then Ret 1
  else if addr =? 0 then Ret 0
  else if (USER_STACK_TOP <=? addr) || (USER_STACK_TOP - addr <? size) then Ret 0
  else
    dir ← vmm_get_current_directory st;
    let first := page_base addr in
    let last := page_base (addr + size - 1) in
    range_pages (Z.to_nat ((last - first) / PAGE_SIZE + 1)) first last dir write st.

(** The bytes of one page, from [offset + i] on. *)
Fixpoint read_chunk (n : nat) (dir vaddr offset i : Z) (dst : list Z) st : out (option copy_end * list Z * vst) :=
  match n with
  | O => Ret (None, dst, st)
  | S n =>
      '(r, st) ← mmu_read dir (vaddr + i) st;
      match r with
      | inl b => dst ← wr dst (offset + i) b; read_chunk n dir vaddr offset (i + 1) dst st
      | inr how => Ret (Some (fault_result how), dst, st)
      end
  end.

Definition chunk_size (vaddr size offset : Z) : Z :=
  let chunk := PAGE_SIZE - Z.land vaddr 0xFFF in if size - offset <? chunk then size - offset else chunk.

Fixpoint copy_from_loop (n : nat) (dir addr size offset : Z) (dst : list Z) st : out (copy_end * list Z * vst) :=
  if size <=? offset then Ret (inl 0, dst, copy_disarm st)
  else
    match n with
    | O => Hang
    | S n =>
        let vaddr := addr + offset in
        flags ← vmm_get_page_flags dir (page_base vaddr) st;
        if negb (has flags VMM_PRESENT) || negb (has flags VMM_USER) then Ret (inl (-1), dst, copy_disarm st)
        else
          let chunk := chunk_size vaddr size offset in
          '(r, dst, st) ← read_chunk (Z.to_nat chunk) dir vaddr offset 0 dst st;
          match r with
          | Some r => Ret (r, dst, st)
          | None => copy_from_loop n dir addr size (offset + chunk) dst st
          end
    end.

Definition copy_from_user (dst : list Z) (addr size : Z) st : out (copy_end * list Z * vst) :=
  if size =? 0 then Ret (inl 0, dst, st)
  else if addr =? 0 then Ret (inl (-1), dst, st)
  else if (USER_STACK_TOP <=? addr) || (USER_STACK_TOP - addr <? size) then Ret (inl (-1), dst, st)
  else
    dir ← vmm_get_current_directory st;
    copy_from_loop (Z.to_nat size) dir addr size 0 dst (arm st).

Fixpoint write_chunk (n : nat) (dir vaddr offset i : Z) (src : list Z) st : out (option copy_end * vst) :=
  match n with
  | O => Ret (None, st)
  | S n =>
      b ← rd src (offset + i);
      '(how, st) ← mmu_write dir (vaddr + i) b st;
      match how with
      | Resume => write_chunk n dir vaddr offset (i + 1) src st
      | how => Ret (Some (fault_result how), st)
      end
  end.

Fixpoint copy_to_loop (n : nat) (dir addr size offset : Z) (src : list Z) st : out (copy_end * vst) :=
  if size <=? offset then Ret (inl 0, copy_disarm st)
  else
    match n with
    | O => Hang
    | S n =>
        let vaddr := addr + offset in
        flags ← vmm_get_page_flags dir (page_base vaddr) st;
        if negb (has flags VMM_PRESENT) || negb (has flags VMM_USER) then Ret (inl (-1), copy_disarm st)
        else if negb (has flags (Z.lor VMM_WRITABLE VMM_COW)) then Ret (inl (-1), copy_disarm st)
        else
          let chunk := chunk_size vaddr size offset in
          '(r, st) ← write_chunk (Z.to_nat chunk) dir vaddr offset 0 src st;
          match r with
          | Some r => Ret (r, st)
          | None => copy_to_loop n dir addr size (offset + chunk) src st
          end
    end.

Definition copy_to_user (addr : Z) (src : list Z) (size : Z) st : out (copy_end * vst) :=
  if size =? 0 then Ret (inl 0, st)
  else if addr =? 0 then Ret (inl (-1), st)
  else if (USER_STACK_TOP <=? addr) || (USER_STACK_TOP - addr <? size) then Ret (inl (-1), st)
  else
    dir ← vmm_get_current_directory st;
    copy_to_loop (Z.to_nat size) dir addr size 0 src (arm st).

Fixpoint strncpy_user_loop (n : nat) (dir addr i cur_page : Z) (dst : list Z) st : out (copy_end * list Z * vst) :=
  match n with
  | O => Ret (inl (-1), dst, copy_disarm st)
  | S n =>
      '(r, st) ← mmu_read dir (addr + i) st;
      match r with
      | inr how => Ret (fault_result how, dst, st)
      | inl c =>
          dst ← wr dst i c;
          if c =? 0 then
            if 0x7FFFFFFF <? i + 1 then Ret (inl (-1), dst, copy_disarm st)
            else Ret (inl (i + 1), dst, copy_disarm st)
          else if negb (page_base (addr + i + 1) =? cur_page) then
            let cur_page := page_base (addr + i + 1) in
            flags ← vmm_get_page_flags dir cur_page st;
            if negb (has flags VMM_PRESENT) || negb (has flags VMM_USER) then Ret (inl (-1), dst, copy_disarm st)
            else strncpy_user_loop n dir addr (i + 1) cur_page dst st
          else strncpy_user_loop n dir addr (i + 1) cur_page dst st
      end
  end.

Definition strncpy_from_user (dst : list Z) (addr max_len : Z) st : out (copy_end * list Z * vst) :=
  if max_len =? 0 then Ret (inl (-1), dst, st)
  else if addr =? 0 then Ret (inl (-1), dst, st)
  else if USER_STACK_TOP <=? addr then Ret (inl (-1), dst, st)
  else
    let avail := USER_STACK_TOP - addr in
    let max_len := if avail <? max_len then avail else max_len in
    dir ← vmm_get_current_directory st;
    pre ← vmm_get_page_flags dir (page_base addr) st;
    if negb (has pre VMM_PRESENT) || negb (has pre VMM_USER) then Ret (inl (-1), dst, st)
    else strncpy_user_loop (Z.to_nat max_len) dir addr 0 (page_base addr) dst (arm st).
End vmm.
