(* ===== verification/VmmTree.v ===== *)
(** * Page tables as a tree

    The invariant [tree st T D] of the page tables: [T] gives every table its
    place.  A table is private to an address space [d] of [D], at one level and
    for one range of virtual pages, or shared: part of the kernel's tables.
    [leaf] is the entry a walk ends at, [trans] the translation it gives.  The
    lemmas say what a change of one entry does to the translations of all
    address spaces, and what the functions that make tables do. *)

From stdpp Require Import base numbers list gmap sets.
From Stdlib Require Import ZArith Lia.
From S2P Require Import Prelude Vmm.

#[local] Open Scope Z_scope.

(** ** Virtual page numbers

    The levels are 3 (PML4), 2 (PDP), 1 (PD) and 0 (PT); [digit l n] is the
    index of page [n] in its table of level [l]. *)

Definition vpn (v : Z) : Z := (v / PAGE_SIZE) mod 2 ^ 36.
Definition digit (l : nat) (n : Z) : Z := (n / 512 ^ Z.of_nat l) mod 512.
Definition above (l : nat) (n : Z) : Z := n / 512 ^ Z.of_nat (S l).

Lemma digit_range l n : 0 <= digit l n < 512.
Proof. apply Z.mod_pos_bound. lia. Qed.

Lemma above_digit l n : n / 512 ^ Z.of_nat l = above l n * 512 + digit l n.
Proof.
  unfold above, digit. rewrite Nat2Z.inj_succ, Z.pow_succ_r, (Z.mul_comm 512), <- Z.div_div by lia.
  pose proof (Z.div_mod (n / 512 ^ Z.of_nat l) 512). lia.
Qed.

Lemma above_top n : 0 <= n < 2 ^ 36 -> above 3 n = 0.
Proof. intros. unfold above. apply Z.div_small. change (512 ^ Z.of_nat 4) with (2 ^ 36). lia. Qed.

Lemma above_0 n : above 0 n = n / 512.
Proof. done. Qed.

Lemma vpn_range v : 0 <= vpn v < 2 ^ 36.
Proof. apply Z.mod_pos_bound. lia. Qed.

(** A page number is its digits. *)
Lemma digits_inj n m l : above l n = above l m -> digit l n = digit l m -> n / 512 ^ Z.of_nat l = m / 512 ^ Z.of_nat l.
Proof. intros H1 H2. by rewrite !above_digit, H1, H2. Qed.

Lemma index_digit l v : (l <= 3)%nat -> Z.land (Z.shiftr v (12 + 9 * Z.of_nat l)) 0x1FF = digit l (vpn v).
Proof.
  intros Hl. change 0x1FF with (Z.ones 9). rewrite Z.land_ones, Z.shiftr_div_pow2 by lia.
  unfold digit, vpn, PAGE_SIZE. change 512 with (2 ^ 9). change 4096 with (2 ^ 12). rewrite <- Z.pow_mul_r by lia.
  apply Z.bits_inj'. intros i Hi. destruct (Z.lt_ge_cases i 9).
  - rewrite !Z.mod_pow2_bits_low, !Z.div_pow2_bits, Z.mod_pow2_bits_low, Z.div_pow2_bits by lia. f_equal. lia.
  - by rewrite !Z.mod_pow2_bits_high by lia.
Qed.

(** ** Entries *)

Definition addr (e : Z) : Z := Z.land e PTE_ADDR_MASK.
Definition fl (e : Z) : Z := Z.land (Z.land e 0xFFF) (Z.lnot PTE_HUGE).

Lemma has_bit k e : 0 <= k -> has e (2 ^ k) = Z.testbit e k.
Proof.
  intros Hk. unfold has. rewrite <- Z.shiftl_1_l.
  destruct (Z.testbit e k) eqn:E; destruct (Z.eqb_spec (Z.land e (Z.shiftl 1 k)) 0) as [H|H]; try done; exfalso.
  - apply (f_equal (fun x => Z.testbit x k)) in H.
    rewrite Z.land_spec, Z.shiftl_1_l, Z.pow2_bits_true, Z.bits_0, E in H by lia. done.
  - apply H. apply Z.bits_inj'. intros j Hj. rewrite Z.land_spec, Z.shiftl_1_l, Z.pow2_bits_eqb, Z.bits_0 by lia.
    destruct (Z.eqb_spec k j); [subst; by rewrite E|by rewrite andb_false_r].
Qed.

Lemma has_present e : has e VMM_PRESENT = Z.testbit e 0. Proof. apply (has_bit 0). lia. Qed.
Lemma has_writable e : has e VMM_WRITABLE = Z.testbit e 1. Proof. apply (has_bit 1). lia. Qed.
Lemma has_user e : has e VMM_USER = Z.testbit e 2. Proof. apply (has_bit 2). lia. Qed.
Lemma has_huge e : has e PTE_HUGE = Z.testbit e 7. Proof. apply (has_bit 7). lia. Qed.
Lemma has_cow e : has e VMM_COW = Z.testbit e 9. Proof. apply (has_bit 9). lia. Qed.

(** Bits of the flags and of the address. *)
Lemma mask_testbit k : 0 <= k -> Z.testbit PTE_ADDR_MASK k = (12 <=? k) && (k <? 52).
Proof.
  intros Hk. change PTE_ADDR_MASK with (Z.shiftl (Z.ones 40) 12). rewrite Z.shiftl_spec by lia.
  destruct (Z.leb_spec 12 k); [|rewrite Z.testbit_neg_r by lia; done].
  rewrite Z.testbit_ones_nonneg by lia. cbn [andb]. destruct (Z.ltb_spec (k - 12) 40), (Z.ltb_spec k 52); lia || done.
Qed.

Lemma low12_testbit k : 0 <= k -> Z.testbit 0xFFF k = (k <? 12).
Proof. intros Hk. change 0xFFF with (Z.ones 12). apply Z.testbit_ones_nonneg; lia. Qed.

Lemma aligned_testbit p k : p mod PAGE_SIZE = 0 -> 0 <= k < 12 -> Z.testbit p k = false.
Proof.
  intros Hp Hk. rewrite <- (Z.mod_pow2_bits_low p 12) by lia. change (2 ^ 12) with PAGE_SIZE. rewrite Hp. apply Z.bits_0.
Qed.

Lemma small_testbit w p k : 0 <= p < 2 ^ w -> 0 <= w <= k -> Z.testbit p k = false.
Proof. intros Hp Hk. rewrite <- (Z.mod_small p (2 ^ w)) by done. apply Z.mod_pow2_bits_high. lia. Qed.

Lemma addr_range e : 0 <= addr e < 2 ^ 52.
Proof.
  assert (addr e = addr e mod 2 ^ 52) as ->; [|apply Z.mod_pos_bound; lia].
  apply Z.bits_inj'. intros k Hk. unfold addr. destruct (Z.lt_ge_cases k 52).
  - by rewrite Z.mod_pow2_bits_low by lia.
  - rewrite Z.mod_pow2_bits_high, Z.land_spec, mask_testbit by lia.
    destruct (Z.ltb_spec k 52); [lia|]. by rewrite !andb_false_r.
Qed.

Lemma addr_aligned e : addr e mod PAGE_SIZE = 0.
Proof.
  change PAGE_SIZE with (2 ^ 12). rewrite <- Z.land_ones by lia. apply Z.bits_inj'. intros k Hk. unfold addr.
  rewrite !Z.land_spec, mask_testbit, Z.testbit_ones_nonneg, Z.bits_0 by lia.
  destruct (Z.leb_spec 12 k), (Z.ltb_spec k 12); try lia; by rewrite ?andb_false_r.
Qed.

(** An entry made of a page and flags. *)
Lemma addr_pte p f : 0 <= p < 2 ^ 52 -> p mod PAGE_SIZE = 0 -> Z.land f PTE_ADDR_MASK = 0 -> addr (Z.lor p f) = p.
Proof.
  intros Hp Ha Hf. unfold addr. rewrite Z.land_lor_distr_l, Hf, Z.lor_0_r.
  apply Z.bits_inj'. intros k Hk. rewrite Z.land_spec, mask_testbit by lia.
  destruct (Z.leb_spec 12 k); [|rewrite (aligned_testbit p k) by lia; done].
  destruct (Z.ltb_spec k 52); [by rewrite andb_true_r|]. by rewrite (small_testbit 52 p k) by lia.
Qed.

Lemma testbit_pte p f k : p mod PAGE_SIZE = 0 -> 0 <= k < 12 -> Z.testbit (Z.lor p f) k = Z.testbit f k.
Proof. intros. rewrite Z.lor_spec, (aligned_testbit p k) by done. done. Qed.

(** The entry of a new table: [table | PRESENT | WRITABLE | USER]. *)
Definition table_pte (p : Z) : Z := Z.lor (Z.lor (Z.lor p VMM_PRESENT) VMM_WRITABLE) VMM_USER.

Lemma table_pte_addr p : 0 <= p < 2 ^ 52 -> p mod PAGE_SIZE = 0 -> addr (table_pte p) = p.
Proof. intros. unfold table_pte. rewrite <- !Z.lor_assoc. by apply addr_pte. Qed.

Lemma table_pte_bit p k : p mod PAGE_SIZE = 0 -> 0 <= k < 12 -> Z.testbit (table_pte p) k = (k <=? 2).
Proof.
  intros. unfold table_pte. rewrite <- !Z.lor_assoc, testbit_pte by done.
  assert (k = 0 \/ k = 1 \/ k = 2 \/ 3 <= k) as [->|[->|[->|?]]] by lia; [done..|].
  rewrite (proj2 (Z.leb_gt k 2)) by lia. change (Z.lor VMM_PRESENT (Z.lor VMM_WRITABLE VMM_USER)) with 7. apply (small_testbit 3); lia.
Qed.

(** ** Walks as functions *)

(** The entry ends the walk. *)
Definition is_leaf (l : nat) (e : Z) : bool := match l with 0%nat => true | 1%nat => has e PTE_HUGE | _ => false end.

(** The 4 KB page at [n] of the memory an entry of level [l] maps. *)
Definition frame_of (l : nat) (e n : Z) : Z := addr e + PAGE_SIZE * match l with 0%nat => 0 | _ => digit 0 n end.

Definition xlate (n : Z) (w : nat * Z * Z) : option (Z * Z) :=
  let '(l, _, e) := w in if has e VMM_PRESENT then Some (frame_of l e n, fl e) else None.

Section walks.
Context {P : Type}.
Implicit Types (st : vst (P := P)).

Definition ent st (a i : Z) : option Z := t ← tab st a; getz t i.

Lemma tab_low st a : a < 2 ^ 26 -> tab st a = tabs st !! a.
Proof. intros Ha. unfold tab. change IDENTITY_END with (2 ^ 26). by zcmp. Qed.

Lemma ent_tab st a i t : tabs st !! a = Some t -> a < 2 ^ 26 -> ent st a i = getz t i.
Proof. intros Ht Ha. unfold ent. by rewrite tab_low, Ht. Qed.

Lemma zero_table_ok a st : a < 2 ^ 26 -> zero_table a st = Ret (set_tabs (<[a := zeros]> (tabs st)) st).
Proof. intros Ha. unfold zero_table. change IDENTITY_END with (2 ^ 26). by zcmp. Qed.

Fixpoint leaf (l : nat) st (a n : Z) : option (nat * Z * Z) :=
  e ← ent st a (digit l n);
  if is_leaf l e then Some (l, a, e)
  else if has e VMM_PRESENT then match l with S l => leaf l st (addr e) n | O => None end else None.

Definition tr l st a n : option (Z * Z) := leaf l st a n ≫= xlate n.

(** The frame and the flags of page [n] of the address space [d]. *)
Definition trans st (d n : Z) : option (Z * Z) := tr 3 st d n.

(** What follows from the entry read at level [l]. *)
Definition follow (l : nat) st (e n : Z) : option (Z * Z) :=
  if is_leaf l e then if has e VMM_PRESENT then Some (frame_of l e n, fl e) else None
  else if has e VMM_PRESENT then match l with S l => tr l st (addr e) n | O => None end else None.

Lemma tr_follow l st a n : tr l st a n = e ← ent st a (digit l n); follow l st e n.
Proof.
  unfold tr, follow. destruct l as [|l]; cbn [leaf]; (destruct (ent st a _) as [e|]; [|done]); [done|].
  simpl. destruct (match l with 0%nat => has e PTE_HUGE | _ => false end); [done|]. by destruct (has e VMM_PRESENT).
Qed.

Lemma getz_zeros i e : getz zeros i = Some e -> e = 0.
Proof. unfold zeros. by intros [_ [-> _]%lookup_replicate]%getz_Some. Qed.

(** A table of zeros maps nothing. *)
Lemma tr_zero l st a n : tabs st !! a = Some zeros -> tr l st a n = None.
Proof.
  intros Ha. rewrite tr_follow. unfold ent, tab. destruct (_ <=? a); [done|]. rewrite Ha. cbn [mbind option_bind].
  destruct (getz zeros (digit l n)) as [e|] eqn:E; [|done]. rewrite (getz_zeros _ _ E). unfold follow. change (has 0 VMM_PRESENT) with false. by destruct l as [|[|l]].
Qed.

Lemma ent_zeros st a i e : ent st a i = Some e -> tabs st !! a = Some zeros -> e = 0.
Proof. unfold ent, tab. destruct (_ <=? a); [done|]. intros He Ha. rewrite Ha in He. by eapply getz_zeros. Qed.

Definition put (a i x : Z) st : vst := set_tabs (alter (fun t => <[Z.to_nat i := x]> t) a (tabs st)) st.

Lemma ent_put a i x st b j e : ent st a i = Some e -> ent (put a i x st) b j = if (b =? a) && (j =? i) then Some x else ent st b j.
Proof.
  unfold ent, tab, put. cbn [set_tabs tabs]. destruct (Z.eqb_spec b a) as [->|Hb]; [|by rewrite lookup_alter_ne].
  destruct (_ <=? a); [done|]. rewrite lookup_alter_eq. destruct (tabs st !! a) as [t|]; [|done]. simpl. intros Hi. pose proof (getz_Some_lt _ _ _ Hi).
  destruct (Z.eqb_spec j i) as [->|Hj]; [by apply getz_insert_eq|]. apply getz_insert_ne; lia.
Qed.

Lemma tabs_put a i x st b t : tabs st !! b = Some t -> exists t', tabs (put a i x st) !! b = Some t' /\ length t' = length t.
Proof.
  intros Hb. unfold put. simpl. destruct (decide (a = b)) as [->|Hne].
  - rewrite lookup_alter_eq, Hb. simpl. eexists. split; [done|]. apply length_insert.
  - rewrite lookup_alter_ne by done. by exists t.
Qed.

Lemma entry_ent a i st e : ent st a i = Some e -> entry a i st = Ret e.
Proof. unfold ent, entry. destruct (tab st a) as [t|]; [|done]. simpl. apply rd_getz. Qed.

Lemma set_entry_put a i x st e : ent st a i = Some e -> set_entry a i x st = Ret (put a i x st).
Proof.
  unfold ent, set_entry, put. destruct (tab st a) as [t|] eqn:Ha; [|done]. simpl. intros Hi.
  unfold tab in Ha. destruct (_ <=? a); [done|].
  rewrite wr_ok by (by eapply getz_Some_lt). cbn [mbind out_bind]. do 2 f_equal. apply map_eq. intros b.
  destruct (decide (a = b)) as [->|Hne].
  - by rewrite lookup_insert_eq, lookup_alter_eq, Ha.
  - by rewrite lookup_insert_ne, lookup_alter_ne.
Qed.
End walks.

(** ** The place of a table *)

Inductive tag := Priv (d : Z) (l : nat) (pre : Z) | Shared (l : nat).

Definition level (tg : tag) : nat := match tg with Priv _ l _ => l | Shared l => l end.

(** The place of a new table under entry [i] of a table of place [tg]. *)
Definition own_child (tg : tag) (i : Z) : tag :=
  match tg with
  | Priv d l pre => Priv d (pred l) (pre * 512 + i)
  | Shared l => Shared (pred l)
  end.

(** A table of place [tg] is the one a walk for page [n] of [r] goes through. *)
Definition fits (r n : Z) (tg : tag) : Prop :=
  match tg with Priv d l pre => d = r /\ pre = above l n | Shared _ => True end.

Section tree.
Context {P : Type} `{!Pages P, !PagesLaws P}.
Implicit Types (st : vst (P := P)) (T : gmap Z tag) (D : gset Z).

(** Entry [i], a pointer to a table of level [l], is a copy of the kernel's. *)
Definition mirror st (l : nat) (pre i e : Z) : Prop :=
  l = 2%nat /\ 256 <= i /\ ent st (kernel_pml4 st) i = Some e \/
  l = 1%nat /\ pre = 0 /\ 2 <= i < 256 /\ ent st (kernel_low_pdp st) i = Some e.

Definition child st (tg : tag) (i e : Z) (tg' : tag) : Prop :=
  match tg with
  | Priv _ l pre => tg' = own_child tg i \/ tg' = Shared (pred l) /\ mirror st (pred l) pre i e
  | Shared _ => tg' = own_child tg i
  end.

(** Tables of the last level have no huge entries, and the shared ones map no
    user pages.  Huge pages are the kernel's identity map. *)
Definition entry_ok st T (tg : tag) (i e : Z) : Prop :=
  match level tg with
  | 0%nat => has e PTE_HUGE = false /\ (tg = Shared 0 -> has e VMM_PRESENT = true -> has e VMM_USER = false)
  | _ =>
      if is_leaf (level tg) e
      then has e VMM_PRESENT = true /\ has e VMM_USER = false /\ has e VMM_COW = false /\ addr e mod HUGE_SIZE = 0
      else has e VMM_PRESENT = true -> has e PTE_HUGE = false /\ exists tg', T !! addr e = Some tg' /\ child st tg i e tg'
  end.

Record tree st T D : Prop := {
  t_tab a tg : T !! a = Some tg -> (exists t, tabs st !! a = Some t /\ length t = 512%nat) /\ pused (pages st) a /\
    0 <= a < 2 ^ 26 /\ a mod PAGE_SIZE = 0;
  t_ent a tg i e : T !! a = Some tg -> ent st a i = Some e -> entry_ok st T tg i e;
  t_dir d : d ∈ D -> T !! d = Some (Priv d 3 0);
  t_high d : d ∈ D -> exists e, ent st d 511 = Some e /\ ent st (kernel_pml4 st) 511 = Some e /\ has e VMM_PRESENT = true;
  t_kernel : T !! kernel_pml4 st = Some (Shared 3);
  t_low : T !! kernel_low_pdp st = Some (Shared 2);
  t_pwf : pwf (pages st);
  t_plow : plow (pages st);
}.

(** The roots of the walks. *)
Definition root st D (r : Z) : Prop := r ∈ D \/ r = kernel_pml4 st.

Lemma ent_tag st T D a tg i : tree st T D -> T !! a = Some tg -> 0 <= i < 512 -> exists e, ent st a i = Some e.
Proof.
  intros Ht Ha Hi. destruct (t_tab _ _ _ Ht a tg Ha) as ((t & Hl & Hlen) & _ & Hr & _). rewrite (ent_tab _ _ _ t) by (done || lia).
  apply getz_lt. rewrite Hlen. lia.
Qed.

Lemma tag_nonzero st T D a tg : tree st T D -> T !! a = Some tg -> a <> 0.
Proof.
  intros Ht Ha ->. destruct (t_tab _ _ _ Ht 0 tg Ha) as (_ & Hu & _). by apply (pused_zero (pages st) (t_pwf _ _ _ Ht)) in Hu.
Qed.

Lemma root_tag st T D r n : tree st T D -> root st D r -> 0 <= n < 2 ^ 36 ->
  exists tg, T !! r = Some tg /\ level tg = 3%nat /\ fits r n tg.
Proof.
  intros Ht [Hr| ->] Hn.
  - exists (Priv r 3 0). split; [by apply (t_dir _ _ _ Ht)|]. split; [done|]. split; [done|]. by rewrite above_top.
  - exists (Shared 3). split; [apply (t_kernel _ _ _ Ht)|done].
Qed.

(** One step down. *)
Lemma step_tag st T D a tg l n e :
  tree st T D -> T !! a = Some tg -> level tg = S l -> ent st a (digit (S l) n) = Some e ->
  is_leaf (S l) e = false -> has e VMM_PRESENT = true ->
  exists tg', T !! addr e = Some tg' /\ level tg' = l /\ child st tg (digit (S l) n) e tg'.
Proof.
  intros Ht Ha Hl He Hlf Hp. pose proof (t_ent _ _ _ Ht a tg _ e Ha He) as Hok. unfold entry_ok in Hok.
  rewrite Hl, Hlf in Hok. destruct (Hok Hp) as (_ & tg' & Ht' & Hc). exists tg'. split; [done|]. split; [|done].
  destruct tg as [d l0 pre|l0]; simpl in Hl; subst l0; simpl in Hc.
  - by destruct Hc as [-> |[-> _]].
  - by rewrite Hc.
Qed.

Lemma fits_step st r n tg l e tg' :
  fits r n tg -> level tg = S l -> child st tg (digit (S l) n) e tg' -> fits r n tg'.
Proof.
  destruct tg as [d l0 pre|l0]; simpl; intros Hf -> Hc; [|by rewrite Hc].
  destruct Hf as [-> ->], Hc as [-> |[-> _]]; [|done]. split; [done|]. simpl.
  symmetry. apply (above_digit (S l)).
Qed.

(** The tables of a walk are tagged. *)
Lemma leaf_tag st T D r n : tree st T D -> forall l a tg m b e,
  T !! a = Some tg -> level tg = l -> fits r n tg -> leaf l st a n = Some (m, b, e) ->
  exists tg', T !! b = Some tg' /\ level tg' = m /\ fits r n tg' /\ ent st b (digit m n) = Some e /\ is_leaf m e = true.
Proof.
  intros Ht. induction l as [|l IH]; intros a tg m b e Ha Hl Hf; cbn [leaf].
  - destruct (ent st a (digit 0 n)) as [e'|] eqn:He; [|done]. simpl. intros [= <- <- <-]. by exists tg.
  - destruct (ent st a (digit (S l) n)) as [e'|] eqn:He; [|done]. cbn [mbind option_bind].
    destruct (is_leaf (S l) e') eqn:Hlf; [intros [= <- <- <-]; by exists tg|].
    destruct (has e' VMM_PRESENT) eqn:Hp; [|done]. intros Hlf'.
    destruct (step_tag _ _ _ _ _ _ _ _ Ht Ha Hl He Hlf Hp) as (tg' & Ha' & Hl' & Hc).
    apply (IH (addr e') tg'); [done|done| |done]. by eapply fits_step.
Qed.

(** ** Changing entries *)

(** [st'] has the tables of [st], except for entry [i] of table [a] and tables
    without a place. *)
Definition differ st T (a i : Z) st' : Prop :=
  forall b tg j, T !! b = Some tg -> (b, j) <> (a, i) -> ent st' b j = ent st b j.

(** The entry belongs to another walk. *)
Lemma leaf_other st T D a i d l0 pre st' r n :
  tree st T D -> differ st T a i st' -> T !! a = Some (Priv d l0 pre) ->
  ~ (r = d /\ n / 512 ^ Z.of_nat l0 = pre * 512 + i) ->
  forall l b tg, T !! b = Some tg -> level tg = l -> fits r n tg -> leaf l st' b n = leaf l st b n.
Proof.
  intros Ht Hd Ha Hn. induction l as [|l IH]; intros b tg Hb Hl Hf; cbn [leaf].
  all: assert (ent st' b (digit (level tg) n) = ent st b (digit (level tg) n)) as He;
    [apply (Hd b tg); [done|]; intros [= -> Hi]; apply Hn; rewrite Ha in Hb; injection Hb as <-;
     destruct Hf as [-> ->]; simpl in Hi; split; [done|]; rewrite <- Hi; apply above_digit|].
  - by rewrite <- Hl, He.
  - rewrite <- Hl, He, Hl. destruct (ent st b (digit (S l) n)) as [e|] eqn:He'; [|done]. cbn [mbind option_bind].
    destruct (is_leaf (S l) e) eqn:Hlf; [done|]. destruct (has e VMM_PRESENT) eqn:Hp; [|done].
    destruct (step_tag _ _ _ _ _ _ _ _ Ht Hb Hl He' Hlf Hp) as (tg' & Hb' & Hl' & Hc).
    apply (IH (addr e) tg'); [done|done|]. by eapply fits_step.
Qed.

(** The new entry translates like the old one, as far as [F] can tell. *)
Lemma tr_like {X} (F : option (Z * Z) -> X) st T D a i tg0 e e' st' :
  tree st T D -> differ st T a i st' -> T !! a = Some tg0 -> ent st a i = Some e -> ent st' a i = Some e' ->
  (forall n, digit (level tg0) n = i -> F (follow (level tg0) st' e' n) = F (follow (level tg0) st e n)) ->
  forall n l b tg, T !! b = Some tg -> level tg = l -> F (tr l st' b n) = F (tr l st b n).
Proof.
  intros Ht Hd Ha He He' Hfol n. induction l as [|l IH]; intros b tg Hb Hl; rewrite !tr_follow, <- Hl.
  all: destruct (decide ((b, digit (level tg) n) = (a, i))) as [[= -> Hi]|Hne];
    [rewrite Ha in Hb; injection Hb as <-; rewrite Hi, He, He'; by apply Hfol|].
  all: rewrite (Hd b tg _ Hb Hne); destruct (ent st b (digit (level tg) n)) as [x|] eqn:Hx; [|done]; cbn [mbind option_bind].
  - by rewrite Hl.
  - rewrite Hl in *. unfold follow. destruct (is_leaf (S l) x) eqn:Hlf; [done|]. destruct (has x VMM_PRESENT) eqn:Hp; [|done].
    destruct (step_tag _ _ _ _ _ _ _ _ Ht Hb Hl Hx Hlf Hp) as (tg' & Hb' & Hl' & Hc). by apply (IH (addr x) tg').
Qed.

(** The entry is above the table the walk starts at. *)
Lemma tr_lower st T D a i tg0 st' :
  tree st T D -> differ st T a i st' -> T !! a = Some tg0 ->
  forall n l b tg, T !! b = Some tg -> level tg = l -> (l < level tg0)%nat -> tr l st' b n = tr l st b n.
Proof.
  intros Ht Hd Ha n. induction l as [|l IH]; intros b tg Hb Hl Hlt; rewrite !tr_follow, (Hd b tg) by (done || (intros [= -> _]; simplify_eq; lia));
    (destruct (ent st b _) as [x|] eqn:Hx; [|done]); cbn [mbind option_bind]; [done|].
  unfold follow. destruct (is_leaf (S l) x) eqn:Hlf; [done|]. destruct (has x VMM_PRESENT) eqn:Hp; [|done].
  destruct (step_tag _ _ _ _ _ _ _ _ Ht Hb Hl Hx Hlf Hp) as (tg' & Hb' & Hl' & Hc). apply (IH (addr x) tg'); [done|done|lia].
Qed.

(** Tables without a place do not matter. *)
Lemma tr_agree st T D st' :
  tree st T D -> (forall b tg j, T !! b = Some tg -> ent st' b j = ent st b j) ->
  forall n l b tg, T !! b = Some tg -> level tg = l -> tr l st' b n = tr l st b n.
Proof.
  intros Ht Hag n. induction l as [|l IH]; intros b tg Hb Hl; rewrite !tr_follow, (Hag b tg) by done;
    (destruct (ent st b _) as [x|] eqn:Hx; [|done]); cbn [mbind option_bind]; [done|].
  unfold follow. destruct (is_leaf (S l) x) eqn:Hlf; [done|]. destruct (has x VMM_PRESENT) eqn:Hp; [|done].
  destruct (step_tag _ _ _ _ _ _ _ _ Ht Hb Hl Hx Hlf Hp) as (tg' & Hb' & Hl' & Hc). by apply (IH (addr x) tg').
Qed.

(** Everything but the tables and the allocator. *)
Definition only_tables st st' : Prop := st' = set_tabs (tabs st') (set_pages (pages st') st).

Lemma entry_ok_mono st T st' T' tg i e :
  T ⊆ T' -> kernel_pml4 st' = kernel_pml4 st -> kernel_low_pdp st' = kernel_low_pdp st ->
  (has e VMM_PRESENT = true -> forall a j, a = kernel_pml4 st \/ a = kernel_low_pdp st -> ent st a j = Some e -> ent st' a j = Some e) ->
  entry_ok st T tg i e -> entry_ok st' T' tg i e.
Proof.
  intros HT Hk Hlow Hm. unfold entry_ok. destruct (level tg) as [|l]; [done|].
  destruct (is_leaf (S l) e); [done|]. intros H Hp. destruct (H Hp) as (Hh & tg' & Ha & Hc). split; [done|].
  exists tg'. split; [by eapply lookup_weaken|]. destruct tg as [d l0 pre|l0]; simpl in *; [|done].
  destruct Hc as [Hc|[Hc Hmi]]; [by left|]. right. split; [done|].
  destruct Hmi as [(H1 & H2 & H3)|(H1 & H2 & H3 & H4)]; [left|right]; rewrite ?Hk, ?Hlow;
    (repeat (split; [done|])); apply Hm; auto.
Qed.

(** Writing an entry; a pointer of the upper levels is never replaced. *)
Lemma tree_put st T D a i x tg e :
  tree st T D -> T !! a = Some tg -> ent st a i = Some e -> entry_ok st T tg i x ->
  ((2 <= level tg)%nat -> has e VMM_PRESENT = false) -> tree (put a i x st) T D.
Proof.
  intros Ht Ha He Hok Hup.
  assert (forall b j y, (exists tgb, T !! b = Some tgb /\ (2 <= level tgb)%nat) -> has y VMM_PRESENT = true ->
    ent st b j = Some y -> ent (put a i x st) b j = Some y) as Hkeep.
  { intros b j y (tgb & Hb & Hlb) Hp Hy. rewrite (ent_put _ _ _ _ _ _ _ He).
    destruct (Z.eqb_spec b a) as [->|], (Z.eqb_spec j i) as [->|]; cbn [andb]; try done.
    rewrite Ha in Hb. injection Hb as <-. rewrite He in Hy. injection Hy as <-. by rewrite (Hup Hlb) in Hp. }
  assert (forall y, has y VMM_PRESENT = true -> forall b j, b = kernel_pml4 st \/ b = kernel_low_pdp st ->
    ent st b j = Some y -> ent (put a i x st) b j = Some y) as Hmir.
  { intros y Hp b j Hb. apply Hkeep; [|done]. destruct Hb as [-> | ->]; eexists;
      (split; [apply (t_kernel _ _ _ Ht) || apply (t_low _ _ _ Ht)|simpl; lia]). }
  split.
  - intros b tgb Hb. destruct (t_tab _ _ _ Ht b tgb Hb) as [(t & Ht1 & Ht2) Hr]. split; [|done].
    destruct (tabs_put a i x st b t Ht1) as (t' & ? & ?). exists t'. split; [done|congruence].
  - intros b tgb j y Hb. rewrite (ent_put _ _ _ _ _ _ _ He). intros Hy. apply (entry_ok_mono st T); [done|done|done|apply Hmir|].
    destruct (Z.eqb_spec b a) as [->|]; [|by eapply (t_ent _ _ _ Ht)].
    destruct (Z.eqb_spec j i) as [->|]; simpl in Hy; [|by eapply (t_ent _ _ _ Ht)].
    injection Hy as <-. rewrite Ha in Hb. by injection Hb as <-.
  - apply (t_dir _ _ _ Ht).
  - intros d Hd. destruct (t_high _ _ _ Ht d Hd) as (y & H1 & H2 & Hp). exists y. split; [|split; [|done]].
    + apply Hkeep; [|done|done]. eexists. split; [by apply (t_dir _ _ _ Ht)|simpl; lia].
    + apply Hmir; [done|by left|done].
  - apply (t_kernel _ _ _ Ht).
  - apply (t_low _ _ _ Ht).
  - apply (t_pwf _ _ _ Ht).
  - apply (t_plow _ _ _ Ht).
Qed.

(** ** Making tables *)

(** [st'] has more tables, and the same translations. *)
Record grown st T st' T' D : Prop := {
  g_tree : tree st' T' D;
  g_sub : T ⊆ T';
  g_tr b tg n : T !! b = Some tg -> tr (level tg) st' b n = tr (level tg) st b n;
  g_only : only_tables st st';
  g_used x : pused (pages st) x -> pused (pages st') x;
  g_new x tg : T' !! x = Some tg -> T !! x = None -> ~ pused (pages st) x;
  g_ptr b tg j e : T !! b = Some tg -> ent st b j = Some e -> is_leaf (level tg) e = false ->
    has e VMM_PRESENT = true -> ent st' b j = Some e;
  g_pt b tg j : T !! b = Some tg -> level tg = 0%nat -> ent st' b j = ent st b j;
  g_avail : pavail (pages st') <= pavail (pages st);
}.

Lemma grown_refl st T D : tree st T D -> grown st T st T D.
Proof. intros. split; try done; [by destruct st|congruence]. Qed.

Lemma grown_trans st T st1 T1 st2 T2 D : grown st T st1 T1 D -> grown st1 T1 st2 T2 D -> grown st T st2 T2 D.
Proof.
  intros [t1 s1 r1 o1 u1 n1 k1 z1 v1] [t2 s2 r2 o2 u2 n2 k2 z2 v2]. split; [done|by etrans| | |auto| | | |lia].
  - intros b tg n Hb. rewrite (r2 b tg n) by (by eapply lookup_weaken). by apply r1.
  - unfold only_tables in *. rewrite o2. rewrite o1. by destruct st.
  - intros x tg H2 H0. destruct (T1 !! x) as [tg1|] eqn:H1; [by eapply n1|]. intros Hu. by apply (n2 x tg H2 H1), u1.
  - intros b tg j e Hb He Hl Hp. eapply k2; [by eapply lookup_weaken|by eapply k1|done..].
  - intros b tg j Hb Hl. rewrite (z2 b tg) by (done || by eapply lookup_weaken). by eapply z1.
Qed.

(** Growing from a state that has only another allocator. *)
Lemma grown_link st0 st T D st2 T' :
  grown st0 T st T D -> tree st2 T' D -> T ⊆ T' ->
  (forall b tg n, T !! b = Some tg -> tr (level tg) st2 b n = tr (level tg) st b n) ->
  st2 = set_tabs (tabs st2) st ->
  (forall x tg, T' !! x = Some tg -> T !! x = None -> ~ pused (pages st0) x) ->
  (forall b tg j e, T !! b = Some tg -> ent st b j = Some e -> is_leaf (level tg) e = false ->
    has e VMM_PRESENT = true -> ent st2 b j = Some e) ->
  (forall b tg j, T !! b = Some tg -> level tg = 0%nat -> ent st2 b j = ent st b j) ->
  grown st0 T st2 T' D.
Proof.
  intros [t1 s1 r1 o1 u1 n1 k1 z1 v1] Ht Hsub Htr Ho Hnew Hk Hz. split; [done|done| | | |done| | |by rewrite Ho].
  - intros b tg n Hb. rewrite (Htr b tg n Hb). by apply r1.
  - unfold only_tables in *. rewrite Ho, o1. by destruct st0.
  - intros x Hx. rewrite Ho. by apply u1.
  - intros b tg j e Hb He Hl Hp. eapply Hk; [done|by eapply k1|done..].
  - intros b tg j Hb Hl. rewrite (Hz b tg) by done. by eapply z1.
Qed.

(** The laws of the allocator as the page tables need them. *)
Lemma palloc_spec p : pwf p -> plow p -> returns (palloc p) (fun '(a, p') => pwf p' /\ plow p' /\
  (a = 0 /\ pavail p = 0 /\ pavail p' = 0 /\ (forall x, pused p' x <-> pused p x) \/
   0 < a < 2 ^ 26 /\ a mod PAGE_SIZE = 0 /\ ~ pused p a /\ pavail p' = pavail p - 1 /\ forall x, pused p' x <-> x = a \/ pused p x)).
Proof.
  intros Hp Hl. pose proof (palloc_ok p Hp) as H1. pose proof (palloc_low p Hp Hl) as H2. destruct (palloc p) as [[a p']| |]; [|done..].
  cbn [returns] in *. destruct H1 as [Hwf H1], H2 as [Hl' Ha]. change IDENTITY_END with (2 ^ 26) in Ha. split; [done|]. split; [done|].
  destruct H1 as [H1|(? & H1)]; [by left|right]. split; [lia|done].
Qed.

Lemma pfree_spec p a : pwf p -> plow p -> pused p a -> a mod PAGE_SIZE = 0 -> a < 2 ^ 26 ->
  returns (pfree a p) (fun p' => pwf p' /\ plow p' /\ pavail p' = pavail p + 1 /\ forall x, pused p' x <-> pused p x /\ x <> a).
Proof.
  intros Hp Hl Hu Ha Hr. pose proof (pfree_ok p a Hp Hu Ha) as H1. pose proof (pfree_low p a Hp Hl Hu Ha Hr) as H2.
  destruct (pfree a p) as [p'| |]; [|done..]. cbn [returns] in *. tauto.
Qed.

(** The allocator alone. *)
Lemma pmm_alloc_spec st T D : tree st T D ->
  returns (pmm_alloc_page st) (fun '(a, st') => exists p, st' = set_pages p st /\ grown st T st' T D /\
    (a = 0 /\ pavail p = 0 \/ 0 < a < 2 ^ 26 /\ a mod PAGE_SIZE = 0 /\ T !! a = None /\ ~ pused (pages st) a /\ pused p a)).
Proof.
  intros Ht. unfold pmm_alloc_page. eapply returns_bind; [apply palloc_spec; [apply (t_pwf _ _ _ Ht)|apply (t_plow _ _ _ Ht)]|]. intros [a p] (Hwf & Hlow & Hp).
  cbn [returns]. exists p. split; [done|].
  assert (forall x, pused (pages st) x -> pused p x) as Hu by (intros x Hx; destruct Hp as [(_ & _ & _ & H)|(_ & _ & _ & _ & H)]; apply H; auto).
  split; [split|].
  - destruct Ht as [t1 t2 t3 t4 t5 t6 t7 t8]. split; try done. intros b tg Hb. destruct (t1 b tg Hb) as (? & ? & ?). auto.
  - done.
  - intros b tg n Hb. by eapply (tr_agree st T D).
  - by destruct st.
  - done.
  - congruence.
  - done.
  - done.
  - pose proof (pavail_nonneg _ (t_pwf _ _ _ Ht)). simpl. destruct Hp as [(_ & ? & ? & _)|(_ & _ & _ & ? & _)]; lia.
  - destruct Hp as [(-> & _ & H0 & _)|(H1 & H2 & H3 & _ & H4)]; [by left|]. right. split; [done|]. split; [done|]. split; [|split; [done|apply H4; by left]].
    destruct (T !! a) as [tg|] eqn:E; [|done]. exfalso. by apply H3, (t_tab _ _ _ Ht a tg E).
Qed.

(** A page becomes a table of any place, not yet reached by a walk. *)
Lemma tree_new st T D p t tg :
  tree st T D -> 0 < p < 2 ^ 26 -> p mod PAGE_SIZE = 0 -> T !! p = None -> pused (pages st) p ->
  let st' := set_tabs (<[p := t]> (tabs st)) st in
  length t = 512%nat -> (forall j e, getz t j = Some e -> entry_ok st T tg j e) ->
  tree st' (<[p := tg]> T) D /\ forall b j, b <> p -> ent st' b j = ent st b j.
Proof.
  intros Ht Hp Ha Hn Hu st' Hlen Hok.
  assert (forall b j, b <> p -> ent st' b j = ent st b j) as Hoth.
  { intros b j Hb. unfold ent, tab, st'. cbn [set_tabs tabs]. by rewrite lookup_insert_ne by done. }
  split; [|done]. assert (T ⊆ <[p := tg]> T) as Hsub by (by apply insert_subseteq).
  assert (kernel_pml4 st <> p /\ kernel_low_pdp st <> p) as [Hk Hlow].
  { split; intros E; [pose proof (t_kernel _ _ _ Ht) as H|pose proof (t_low _ _ _ Ht) as H]; rewrite E, Hn in H; done. }
  assert (forall tg' i e, entry_ok st T tg' i e -> entry_ok st' (<[p := tg]> T) tg' i e) as Hmono.
  { intros tg' i e. apply entry_ok_mono; [done..|]. intros _ c k [-> | ->]; by rewrite Hoth. }
  split.
  - intros b tgb. destruct (decide (b = p)) as [->|Hb]; rewrite ?lookup_insert_eq, ?lookup_insert_ne by done.
    + intros _. unfold st'. simpl. rewrite lookup_insert_eq. split; [|split; [done|lia]]. by exists t.
    + intros Hb'. unfold st'. simpl. rewrite lookup_insert_ne by done. by apply (t_tab _ _ _ Ht b tgb).
  - intros b tgb j y. destruct (decide (b = p)) as [->|Hb]; rewrite ?lookup_insert_eq, ?lookup_insert_ne by done.
    + intros [= <-]. rewrite (ent_tab st' p j t) by (apply lookup_insert_eq || lia). intros Hy. by apply Hmono, Hok.
    + intros Hb'. rewrite Hoth by done. intros Hy. by eapply Hmono, (t_ent _ _ _ Ht).
  - intros d Hd. eapply lookup_weaken; [by apply (t_dir _ _ _ Ht)|done].
  - intros d Hd. destruct (t_high _ _ _ Ht d Hd) as (y & H1 & H2 & H3). exists y. unfold st'. simpl.
    rewrite !Hoth; [done|done|]. intros ->. by rewrite (t_dir _ _ _ Ht p Hd) in Hn.
  - unfold st'. simpl. rewrite lookup_insert_ne by done. apply (t_kernel _ _ _ Ht).
  - unfold st'. simpl. rewrite lookup_insert_ne by done. apply (t_low _ _ _ Ht).
  - apply (t_pwf _ _ _ Ht).
  - apply (t_plow _ _ _ Ht).
Qed.

(** A new table [t] on the page [p] is put under entry [i] of [a], in place of
    an entry that translates the same way. *)
Lemma link_table st0 st T D p t a tg l i e :
  grown st0 T st T D -> 0 < p < 2 ^ 26 -> p mod PAGE_SIZE = 0 -> T !! p = None -> pused (pages st) p ->
  ~ pused (pages st0) p -> length t = 512%nat -> (forall j y, getz t j = Some y -> entry_ok st T (own_child tg i) j y) ->
  T !! a = Some tg -> level tg = S l -> ent st a i = Some e -> (has e VMM_PRESENT = true -> is_leaf (S l) e = true) ->
  let st1 := set_tabs (<[p := t]> (tabs st)) st in
  (forall n, digit (S l) n = i -> tr l st1 p n = follow (S l) st e n) ->
  let st2 := put a i (table_pte p) st1 in
  set_entry a i (table_pte p) st1 = Ret st2 /\
  grown st0 T st2 (<[p := own_child tg i]> T) D /\ ent st2 a i = Some (table_pte p) /\ tabs st2 !! p = Some t /\ differ st T a i st2.
Proof.
  intros Hg Hp Hpa Hn Hu Hu0 Hlen Hok Ha Hl He Hlf st1 Hfol st2. pose proof (g_tree _ _ _ _ _ Hg) as Ht.
  assert (a <> p) as Hap by (intros ->; by rewrite Hn in Ha).
  destruct (tree_new st T D p t (own_child tg i) Ht Hp Hpa Hn Hu Hlen Hok) as [Ht1 Hoth]. fold st1 in Ht1, Hoth.
  set (T' := <[p := own_child tg i]> T) in *. assert (T ⊆ T') as Hsub by (by apply insert_subseteq).
  assert (ent st1 a i = Some e) as He1 by (by rewrite Hoth).
  assert (T' !! a = Some tg) as Ha' by (by eapply lookup_weaken).
  assert (has (table_pte p) VMM_PRESENT = true) as Hpp by (by rewrite has_present, table_pte_bit by (done || lia)).
  assert (is_leaf (S l) (table_pte p) = false) as Hlp.
  { destruct l; [|done]. simpl. by rewrite has_huge, table_pte_bit by (done || lia). }
  assert (addr (table_pte p) = p) as Hadr by (apply table_pte_addr; [lia|done]).
  assert (entry_ok st1 T' tg i (table_pte p)) as Hok'.
  { unfold entry_ok. rewrite Hl, Hlp. intros _. split; [by rewrite has_huge, table_pte_bit by (done || lia)|].
    exists (own_child tg i). rewrite Hadr. split; [apply lookup_insert_eq|].
    destruct tg; simpl; auto. }
  assert (forall b j, ent st2 b j = if (b =? a) && (j =? i) then Some (table_pte p) else ent st1 b j) as Hent.
  { intros b j. by apply (ent_put _ _ _ _ _ _ _ He1). }
  assert (tree st2 T' D) as Ht2.
  { apply (tree_put st1 T' D a i _ tg e); [done..|]. intros H2. destruct (has e VMM_PRESENT) eqn:E; [|done].
    specialize (Hlf eq_refl). rewrite Hl in H2. destruct l; [lia|done]. }
  assert (differ st1 T' a i st2) as Hd1.
  { intros c tgc j _ Hne. rewrite Hent. destruct (Z.eqb_spec c a), (Z.eqb_spec j i); cbn [andb]; congruence || done. }
  assert (differ st T a i st2) as Hd.
  { intros c tgc j Hc Hne. rewrite (Hd1 c tgc j) by (done || by eapply lookup_weaken). apply Hoth. intros ->. by rewrite Hn in Hc. }
  assert (ent st2 a i = Some (table_pte p)) as He2 by (by rewrite Hent, !Z.eqb_refl).
  split; [by apply (set_entry_put _ _ _ _ e)|]. split; [|split; [done|split; [|done]]].
  - apply (grown_link st0 st T D st2 T'); [done|done|done| |by destruct st| | |].
    + intros b tgb n Hb. eapply (tr_like id st T D a i tg e (table_pte p)); try done.
      intros m Hm. unfold id. rewrite Hl in *. rewrite <- (Hfol m Hm). unfold follow. rewrite Hlp, Hpp, Hadr.
      eapply (tr_lower st1 T' D a i tg); [done..|apply lookup_insert_eq|destruct tg; simpl in *; lia|rewrite Hl; lia].
    + intros x tgx. destruct (decide (x = p)) as [->|Hx]; [done|]. unfold T'. rewrite lookup_insert_ne by done. congruence.
    + intros b tgb j y Hb Hy Hly Hpy. rewrite (Hd b tgb); [done|done|]. intros [= -> ->].
      rewrite He in Hy. injection Hy as <-. rewrite Ha in Hb. injection Hb as <-. rewrite Hl, Hlf in Hly; done.
    + intros b tgb j Hb Hlb. apply (Hd b tgb); [done|]. intros [= -> _]. rewrite Ha in Hb. injection Hb as <-. congruence.
  - unfold st2, put. simpl. rewrite lookup_alter_ne by done. apply lookup_insert_eq.
Qed.

(** ** The functions that walk and make tables *)

Lemma get_table_find st T D a tg l virt :
  tree st T D -> T !! a = Some tg -> (l <= 3)%nat ->
  exists e, ent st a (digit l (vpn virt)) = Some e /\
    get_table (12 + 9 * Z.of_nat l) a virt false st = Ret (if has e VMM_PRESENT then addr e else 0, st).
Proof.
  intros Ht Ha Hl. destruct (ent_tag st T D a tg (digit l (vpn virt)) Ht Ha) as [e He]; [apply digit_range|].
  exists e. split; [done|]. unfold get_table. rewrite index_digit, (entry_ent _ _ _ _ He) by done. cbn [mbind out_bind negb].
  by destruct (has e VMM_PRESENT).
Qed.

(** The pointer found or made: [q] is the next table. *)
Definition next_table st T st' T' (a i : Z) (tg : tag) (l : nat) (q : Z) : Prop :=
  exists e tg', ent st' a i = Some e /\ has e VMM_PRESENT = true /\ is_leaf (S l) e = false /\ addr e = q /\
    T' !! q = Some tg' /\ level tg' = l /\
    (st' = st /\ T' = T /\ child st tg i e tg' \/ tg' = own_child tg i /\ tabs st' !! q = Some zeros).

Lemma get_table_spec st T D a tg l virt e :
  tree st T D -> T !! a = Some tg -> level tg = S l -> (l <= 2)%nat ->
  let i := digit (S l) (vpn virt) in
  ent st a i = Some e -> is_leaf (S l) e = false ->
  returns (get_table (12 + 9 * Z.of_nat (S l)) a virt true st) (fun '(q, st') =>
    exists T', grown st T st' T' D /\ differ st T a i st' /\ (q = 0 /\ pavail (pages st') = 0 \/ next_table st T st' T' a i tg l q)).
Proof.
  intros Ht Ha Hl Hl2 i He Hlf. unfold get_table. rewrite index_digit by lia. fold i.
  rewrite (entry_ent _ _ _ _ He). cbn [mbind out_bind negb].
  destruct (has e VMM_PRESENT) eqn:Hp.
  { cbn [returns]. exists T. split; [by apply grown_refl|]. split; [done|]. right.
    destruct (step_tag _ _ _ _ _ _ _ _ Ht Ha Hl He Hlf Hp) as (tg' & Ha' & Hl' & Hc).
    exists e, tg'. repeat (split; [done|]). by left. }
  eapply returns_bind; [by apply (pmm_alloc_spec st T D)|]. intros [q st1] (p & -> & Hg & [[-> Hav]|(Hq & Hqa & HqT & Hqu & Hqp)]).
  { cbn [returns]. exists T. split; [done|]. split; [done|by left]. }
  rewrite (proj2 (Z.eqb_neq q 0)) by lia.
  destruct (link_table st (set_pages p st) T D q zeros a tg l i e) as (Hset & Hg' & Hent & Htab & Hdf); try done.
  - intros j y ->%getz_zeros. unfold entry_ok. destruct (level (own_child tg i)) as [|[|?]]; done.
  - by rewrite Hp.
  - intros n _. rewrite tr_zero by apply lookup_insert_eq. unfold follow. by rewrite Hlf, Hp.
  - fold (table_pte q). rewrite zero_table_ok by lia. cbn [mbind out_bind]. rewrite Hset. cbn [mbind out_bind returns]. eexists. split; [done|]. split; [exact Hdf|]. right.
    exists (table_pte q), (own_child tg i). split; [done|]. split; [by rewrite has_present, table_pte_bit by (done || lia)|].
    split. { destruct l; [|done]. simpl. by rewrite has_huge, table_pte_bit by (done || lia). }
    split; [apply table_pte_addr; [lia|done]|]. split; [apply lookup_insert_eq|].
    split; [destruct tg; simpl in *; lia|]. by right.
Qed.

(** The entries of a split huge page. *)
Definition split_pte (huge i : Z) : Z := Z.lor (u64 (addr huge + i * PAGE_SIZE)) (fl huge).

Lemma fl_bit e k : 0 <= k -> Z.testbit (fl e) k = (k <? 12) && negb (k =? 7) && Z.testbit e k.
Proof.
  intros Hk. unfold fl, PTE_HUGE. change 0x80 with (2 ^ 7).
  rewrite !Z.land_spec, low12_testbit, Z.lnot_spec, Z.pow2_bits_eqb, (Z.eqb_sym 7) by lia.
  destruct (k <? 12), (k =? 7), (Z.testbit e k); done.
Qed.

Lemma fl_mask e : Z.land (fl e) PTE_ADDR_MASK = 0.
Proof.
  apply Z.bits_inj'. intros k Hk. rewrite Z.land_spec, fl_bit, mask_testbit, Z.bits_0 by lia.
  destruct (Z.ltb_spec k 12), (Z.leb_spec 12 k); try lia; by rewrite ?andb_false_r.
Qed.

Lemma split_addr huge i : addr huge mod HUGE_SIZE = 0 -> 0 <= i < 512 ->
  addr (split_pte huge i) = addr huge + i * PAGE_SIZE /\ (addr huge + i * PAGE_SIZE) mod PAGE_SIZE = 0 /\
  0 <= addr huge + i * PAGE_SIZE < 2 ^ 52.
Proof.
  intros Hm Hi. pose proof (addr_range huge) as Hr. pose proof (addr_aligned huge) as Ha.
  assert (0 <= addr huge + i * PAGE_SIZE < 2 ^ 52) as Hr2.
  { apply Z.div_exact in Hm; [|done]. unfold HUGE_SIZE, PAGE_SIZE in *. set (q := addr huge / 2097152) in *.
    assert (q < 2 ^ 31) by lia. lia. }
  assert ((addr huge + i * PAGE_SIZE) mod PAGE_SIZE = 0) as Hal by (by rewrite Z.mod_add).
  split; [|done]. unfold split_pte. rewrite u64_small by (unfold in_u64; lia). apply addr_pte; [done|done|apply fl_mask].
Qed.

Lemma split_bit huge i k : addr huge mod HUGE_SIZE = 0 -> 0 <= i < 512 -> 0 <= k < 12 ->
  Z.testbit (split_pte huge i) k = negb (k =? 7) && Z.testbit huge k.
Proof.
  intros Hm Hi Hk. destruct (split_addr huge i Hm Hi) as (_ & Hal & Hr). unfold split_pte.
  rewrite u64_small, testbit_pte, fl_bit by (done || unfold in_u64; lia). by rewrite (proj2 (Z.ltb_lt k 12)) by lia.
Qed.

Lemma fl_ext e e' : (forall k, 0 <= k < 12 -> k <> 7 -> Z.testbit e k = Z.testbit e' k) -> fl e = fl e'.
Proof.
  intros H. apply Z.bits_inj'. intros k Hk. rewrite !fl_bit by lia. destruct (Z.ltb_spec k 12), (Z.eqb_spec k 7); try done.
  simpl. apply H; lia.
Qed.

(** The loop that fills the new table. *)
Lemma split_fill st pt (f : Z -> Z) : pt < 2 ^ 26 ->
  returns (for_range 0 512 (fun i st => set_entry pt i (f i) st) (set_tabs (<[pt := zeros]> (tabs st)) st)) (fun st' => exists t,
    st' = set_tabs (<[pt := t]> (tabs st)) st /\ length t = 512%nat /\ forall j, 0 <= j < 512 -> getz t j = Some (f j)).
Proof.
  intros Hpt. eapply returns_mono.
  - apply (for_range_inv (fun i st' => exists t, st' = set_tabs (<[pt := t]> (tabs st)) st /\ length t = 512%nat /\
      forall j, 0 <= j < i -> getz t j = Some (f j))).
    + exists zeros. split; [done|]. split; [apply length_replicate|lia].
    + intros i st' Hi (t & -> & Hlen & Ht). unfold set_entry. rewrite tab_low by done. simpl. rewrite lookup_insert_eq. simpl.
      rewrite wr_ok by (rewrite Hlen; lia). cbn [mbind out_bind returns]. eexists. split; [|split].
      * unfold set_tabs. simpl. by rewrite insert_insert_eq.
      * by rewrite length_insert.
      * intros j Hj. destruct (decide (j = i)) as [->|Hne]; [apply getz_insert_eq; rewrite Hlen; lia|].
        rewrite getz_insert_ne by lia. apply Ht. lia.
  - intros st' (t & Hst & Hlen & Ht). exists t. split; [done|]. split; [done|]. intros j Hj. apply Ht. lia.
Qed.

Lemma split_spec st T D pd tg i huge :
  tree st T D -> T !! pd = Some tg -> level tg = 1%nat -> ent st pd i = Some huge -> has huge PTE_HUGE = true ->
  returns (split_huge_page pd i st) (fun '(rc, st') => exists T', grown st T st' T' D /\ differ st T pd i st' /\
    (rc = -1 /\ pavail (pages st') = 0 \/ rc = 0 /\ exists e, ent st' pd i = Some e /\ has e VMM_PRESENT = true /\ is_leaf 1 e = false /\
       T' !! addr e = Some (own_child tg i))).
Proof.
  intros Ht Ha Hl He Hh. pose proof (t_ent _ _ _ Ht _ _ _ _ Ha He) as Hok. unfold entry_ok in Hok.
  rewrite Hl in Hok. cbn [is_leaf] in Hok. rewrite Hh in Hok. destruct Hok as (Hp & Hus & _ & Hm).
  unfold split_huge_page. rewrite (entry_ent _ _ _ _ He). cbn [mbind out_bind].
  eapply returns_bind; [by apply (pmm_alloc_spec st T D)|]. intros [q st1] (p & -> & Hg & [[-> Hav]|(Hq & Hqa & HqT & Hqu & Hqp)]).
  { cbn [returns]. exists T. split; [done|]. split; [done|by left]. }
  rewrite (proj2 (Z.eqb_neq q 0)) by lia.
  rewrite zero_table_ok by lia. cbn [mbind out_bind].
  eapply returns_bind; [apply (split_fill _ q (split_pte huge)); lia|]. intros st2 (t & -> & Hlen & Ht').
  assert (forall j y, getz t j = Some y -> 0 <= j < 512 /\ y = split_pte huge j) as Hty.
  { intros j y Hy. pose proof (getz_Some_lt _ _ _ Hy). assert (0 <= j < 512) as Hj by lia. rewrite (Ht' j Hj) in Hy. by injection Hy. }
  destruct (link_table st (set_pages p st) T D q t pd tg 0 i huge) as (Hset & Hg' & Hent & Htab & Hdf); try done.
  - intros j y [Hj ->]%Hty. unfold entry_ok. assert (level (own_child tg i) = 0%nat) as -> by (destruct tg; simpl in *; by rewrite Hl).
    rewrite has_huge, has_user, split_bit by (done || lia). split; [done|]. intros _ _. rewrite has_user in Hus.
    by rewrite split_bit, Hus by (done || lia).
  - intros n _. rewrite tr_follow, (ent_tab _ q _ t), Ht' by (apply lookup_insert_eq || apply digit_range || lia). simpl.
    pose proof (digit_range 0 n) as Hd. destruct (split_addr huge _ Hm Hd) as (Had & _ & _).
    unfold follow. cbn [is_leaf]. rewrite Hh, Hp, has_present, split_bit by (done || lia). rewrite has_present in Hp. rewrite Hp. simpl.
    unfold frame_of. rewrite Had. f_equal. f_equal; [lia|]. apply fl_ext. intros k Hk H7. rewrite split_bit by (done || lia).
    by rewrite (proj2 (Z.eqb_neq k 7)).
  - fold (table_pte q). rewrite Hset. cbn [mbind out_bind returns]. eexists. split; [done|]. split; [exact Hdf|]. right. split; [done|].
    exists (table_pte q). split; [done|]. split; [by rewrite has_present, table_pte_bit by (done || lia)|].
    split; [simpl; by rewrite has_huge, table_pte_bit by (done || lia)|].
    rewrite table_pte_addr by (done || lia). apply lookup_insert_eq.
Qed.

(** Page [n] of [d] is in tables that belong to the kernel. *)
Definition mirrored st (d n : Z) : Prop :=
  256 <= digit 3 n /\ (exists e, ent st d (digit 3 n) = Some e /\ has e VMM_PRESENT = true /\
    ent st (kernel_pml4 st) (digit 3 n) = Some e) \/
  digit 3 n = 0 /\ 2 <= digit 2 n < 256 /\ exists e p, ent st d 0 = Some e /\ has e VMM_PRESENT = true /\
    ent st (addr e) (digit 2 n) = Some p /\ has p VMM_PRESENT = true /\ ent st (kernel_low_pdp st) (digit 2 n) = Some p.

Definition private (tg : tag) : Prop := match tg with Priv _ _ _ => True | Shared _ => False end.

Lemma next_child st T st' T' a i tg l q :
  level tg = S l -> next_table st T st' T' a i tg l q -> exists e tg', ent st' a i = Some e /\ has e VMM_PRESENT = true /\
    is_leaf (S l) e = false /\ addr e = q /\ T' !! q = Some tg' /\ level tg' = l /\ child st' tg i e tg'.
Proof.
  intros Hl (e & tg' & H1 & H2 & H3 & H4 & H5 & H6 & H7). exists e, tg'. repeat (split; [done|]).
  destruct H7 as [(-> & _ & Hc)|[-> _]]; [done|]. destruct tg; simpl; auto.
Qed.

(** What [leaf_pte] finds for page [n] of [d]. *)
Definition leaf_found st d n st' T' (pt i : Z) : Prop :=
  i = digit 0 n /\ exists tg e, T' !! pt = Some tg /\ level tg = 0%nat /\ fits d n tg /\
    leaf 3 st' d n = Some (0%nat, pt, e) /\
    ((exists tgd, T' !! d = Some tgd /\ private tgd) -> ~ mirrored st d n -> private tg).

Lemma leaf_S st l a n e : ent st a (digit (S l) n) = Some e ->
  leaf (S l) st a n = if is_leaf (S l) e then Some (S l, a, e) else if has e VMM_PRESENT then leaf l st (addr e) n else None.
Proof. intros He. cbn [leaf]. by rewrite He. Qed.

(** A walk through a pointer. *)
Lemma leaf_ptr st l a n e :
  ent st a (digit (S l) n) = Some e -> is_leaf (S l) e = false -> has e VMM_PRESENT = true ->
  leaf (S l) st a n = leaf l st (addr e) n.
Proof. intros He Hlf Hp. by rewrite (leaf_S _ _ _ _ _ He), Hlf, Hp. Qed.

Lemma leaf_pt st a n e : ent st a (digit 0 n) = Some e -> leaf 0 st a n = Some (0%nat, a, e).
Proof. intros He. cbn [leaf]. by rewrite He. Qed.

(** Two pointers down, the first one found or made. *)
Definition upper st d n st2 T2 (pd : Z) (tg1 : tag) : Prop :=
  exists e3 e2 pdp tg2, ent st2 d (digit 3 n) = Some e3 /\ has e3 VMM_PRESENT = true /\ addr e3 = pdp /\
    T2 !! pdp = Some tg2 /\ level tg2 = 2%nat /\ ent st2 pdp (digit 2 n) = Some e2 /\ has e2 VMM_PRESENT = true /\
    addr e2 = pd /\ T2 !! pd = Some tg1 /\ level tg1 = 1%nat /\ fits d n tg1 /\
    ((exists tgd, T2 !! d = Some tgd /\ private tgd) -> ~ mirrored st d n -> private tg1).

Lemma upper_private st T D d n tg e3 tg2 :
  tree st T D -> T !! d = Some tg -> level tg = 3%nat -> private tg -> ent st d (digit 3 n) = Some e3 ->
  has e3 VMM_PRESENT = true -> child st tg (digit 3 n) e3 tg2 -> ~ mirrored st d n -> private tg2.
Proof.
  intros Ht Hd Hl Hpr He Hp Hc Hm. destruct tg as [d' l pre|]; [|done]. simpl in Hl. subst l. destruct Hc as [-> |[-> Hmi]]; [done|].
  destruct Hmi as [(_ & Hi & Hk)|(? & _)]; [|done]. destruct Hm. left. split; [done|]. by exists e3.
Qed.

(** Only tables of [d] change. *)
Definition only_own d st T st' : Prop := forall b tg j, T !! b = Some tg -> (forall l pre, tg <> Priv d l pre) -> ent st' b j = ent st b j.

Lemma differ_own st T a i st' d tg n : differ st T a i st' -> T !! a = Some tg -> private tg -> fits d n tg -> only_own d st T st'.
Proof.
  intros Hd Ha Hp Hf b tgb j Hb Hn. apply (Hd b tgb); [done|]. intros [= -> _]. rewrite Ha in Hb. injection Hb as <-.
  destruct tg as [d' l pre|]; [|done]. destruct Hf as [-> _]. by apply (Hn l pre).
Qed.

Lemma only_own_trans d st T st1 T1 st2 : T ⊆ T1 -> only_own d st T st1 -> only_own d st1 T1 st2 -> only_own d st T st2.
Proof. intros Hs H1 H2 b tg j Hb Hn. rewrite (H2 b tg) by (done || by eapply lookup_weaken). by apply (H1 b tg). Qed.

(** The table found or made below a private one is private, unless it is a
    mirrored one. *)
Lemma next_private st T D st1 T1 d n tg pdp tg2 :
  tree st T D -> T !! d = Some tg -> level tg = 3%nat -> private tg -> ~ mirrored st d n ->
  next_table st T st1 T1 d (digit 3 n) tg 2 pdp -> T1 !! pdp = Some tg2 ->
  private tg2 /\ (st1 = st /\ T1 = T \/ tabs st1 !! pdp = Some zeros).
Proof.
  intros Ht Hd Hl Hpr Hm (e & tg2' & He & Hp & _ & _ & HT' & _ & Hc) HT. assert (tg2' = tg2) as -> by congruence.
  destruct Hc as [(-> & -> & Hc)|[-> Hz]].
  - split; [by eapply (upper_private st T D d n tg e)|by left].
  - split; [by destruct tg|by right].
Qed.

Lemma get_upper st T D d tg virt :
  tree st T D -> T !! d = Some tg -> level tg = 3%nat -> fits d (vpn virt) tg ->
  returns ('(pdp, st) ← get_pdp d virt true st; if pdp =? 0 then Ret (0, st) else get_pd pdp virt true st)
    (fun '(pd, st2) => exists T2, grown st T st2 T2 D /\ (private tg -> ~ mirrored st d (vpn virt) -> only_own d st T st2) /\
      (pd = 0 /\ pavail (pages st2) = 0 \/ exists tg1, upper st d (vpn virt) st2 T2 pd tg1)).
Proof.
  intros Ht Hd Hl Hf.
  destruct (ent_tag st T D d tg (digit 3 (vpn virt)) Ht Hd (digit_range _ _)) as [e3 He3].
  eapply returns_bind; [apply (get_table_spec st T D d tg 2 virt e3 Ht Hd Hl ltac:(lia) He3 eq_refl)|].
  intros [pdp st1] (T1 & Hg1 & Hdf1 & Hn1).
  assert (private tg -> only_own d st T st1) as Hown1 by (intros Hpr; by eapply differ_own).
  destruct Hn1 as [[-> Hav]|Hn1]. { cbn. exists T1. split; [done|]. split; [auto|by left]. }
  pose proof (g_tree _ _ _ _ _ Hg1) as Ht1. pose proof Hn1 as Hn1'.
  apply next_child in Hn1' as (e & tg2 & He & Hp & _ & Ha & HT & Hl2 & Hc); [|done].
  rewrite (proj2 (Z.eqb_neq pdp 0)) by (by eapply tag_nonzero).
  assert (private tg -> ~ mirrored st d (vpn virt) -> private tg2 /\ (st1 = st /\ T1 = T \/ tabs st1 !! pdp = Some zeros)) as Hpr2
    by (intros; by eapply (next_private st T D st1 T1 d)).
  assert (fits d (vpn virt) tg2) as Hf2' by (by eapply fits_step).
  destruct (ent_tag st1 T1 D pdp tg2 (digit 2 (vpn virt)) Ht1 HT (digit_range _ _)) as [e2 He2].
  eapply returns_mono; [apply (get_table_spec st1 T1 D pdp tg2 1 virt e2 Ht1 HT Hl2 ltac:(lia) He2 eq_refl)|].
  intros [pd st2] (T2 & Hg2 & Hdf2 & Hn2). exists T2. split; [by eapply grown_trans|]. split.
  { intros Hpr Hm. destruct (Hpr2 Hpr Hm) as [Hp2 _]. eapply only_own_trans; [apply Hg1|by apply Hown1|by eapply differ_own]. }
  destruct Hn2 as [[-> Hav]|Hn2]; [by left|right].
  pose proof Hn2 as Hn2'. apply next_child in Hn2' as (f & tg1 & Hf2 & Hpf & _ & Haf & HTf & Hl1 & Hcf); [|done].
  assert (T1 ⊆ T2) as Hsub by apply Hg2. assert (T1 !! d = Some tg) as Hd1 by (eapply lookup_weaken; [done|apply Hg1]).
  exists tg1, e, f, pdp, tg2. split; [by apply (g_ptr _ _ _ _ _ Hg2 d tg); try done; rewrite Hl|].
  do 2 (split; [done|]). split; [by eapply lookup_weaken|]. do 6 (split; [done|]). split; [by eapply fits_step|].
  intros (tgd & Htd & Hpr) Hm. assert (tgd = tg) as -> by (eapply lookup_weaken in Hd1; [|done]; congruence).
  destruct (Hpr2 Hpr Hm) as [Hp2 Hst1].
  destruct Hn2 as (f' & tg1' & Hf' & Hpf' & _ & Haf' & HT' & _ & [(-> & -> & Hch)|[-> _]]).
  2:{ assert (tg1 = own_child tg2 (digit 2 (vpn virt))) as -> by congruence. by destruct tg2. }
  destruct Hst1 as [[-> ->]|Hz]; [|exfalso; apply ent_zeros in Hf'; [by subst f'|done]].
  assert (tg1' = tg1) as -> by congruence. destruct tg2 as [d2 l2 pre|]; [|done]. simpl in Hl2. subst l2.
  destruct Hch as [-> |[-> Hmi]]; [done|]. destruct Hmi as [(? & _)|(_ & Hpre & Hi & Hlow)]; [done|].
  destruct Hm. right. destruct Hf2' as [-> Hab].
  assert (digit 3 (vpn virt) = 0) as Hd3.
  { pose proof (above_digit 3 (vpn virt)) as H3. rewrite above_top in H3 by apply vpn_range. change (vpn virt / 512 ^ Z.of_nat 3) with (above 2 (vpn virt)) in H3. lia. }
  split; [done|]. split; [done|]. exists e, f'. rewrite <- Hd3. subst pdp. by repeat (split; [done|]).
Qed.

(** The lower half of [leaf_pte]. *)
Definition lower_pte (split_ok : bool) (pd virt : Z) st : out (option (Z * Z) * vst) :=
  e ← entry pd (pd_index virt) st;
  '(rc, st) ← (if has e PTE_HUGE then
                 if split_ok then split_huge_page pd (pd_index virt) st else Ret (-1, st)
               else Ret (0, st));
  if negb (rc =? 0) then Ret (None, st)
  else '(pt, st) ← get_pt pd virt true st; if pt =? 0 then Ret (None, st) else Ret (Some (pt, pt_index virt), st).

Lemma leaf_pte_eq split_ok d virt st :
  leaf_pte split_ok d virt st =
    '(pd, st) ← ('(pdp, st) ← get_pdp d virt true st; if pdp =? 0 then Ret (0, st) else get_pd pdp virt true st);
    if pd =? 0 then Ret (None, st) else lower_pte split_ok pd virt st.
Proof. unfold leaf_pte, lower_pte. destruct (get_pdp d virt true st) as [[pdp st1]| |]; [|done..]. simpl. by destruct (pdp =? 0). Qed.

(** The split, if one is needed. *)
Lemma lower_split st T D (split_ok : bool) pd tg virt e :
  tree st T D -> T !! pd = Some tg -> level tg = 1%nat -> ent st pd (digit 1 (vpn virt)) = Some e ->
  returns (if has e PTE_HUGE then if split_ok then split_huge_page pd (digit 1 (vpn virt)) st else Ret (-1, st) else Ret (0, st))
    (fun '(rc, st') => exists T', grown st T st' T' D /\ differ st T pd (digit 1 (vpn virt)) st' /\
      (rc = -1 /\ (split_ok = true \/ has e PTE_HUGE = false -> pavail (pages st') = 0) \/
       rc = 0 /\ exists e', ent st' pd (digit 1 (vpn virt)) = Some e' /\ is_leaf 1 e' = false)).
Proof.
  intros Ht Ha Hl He. destruct (has e PTE_HUGE) eqn:Hh; [destruct split_ok|].
  - eapply returns_mono; [by apply (split_spec st T D pd tg _ e)|]. intros [rc st'] (T' & Hg & Hdf & Hr). exists T'. split; [done|]. split; [done|].
    destruct Hr as [[-> ?]|[-> (e' & ? & ? & ? & ?)]]; [by left|right; eauto].
  - cbn. exists T. split; [by apply grown_refl|]. split; [done|]. left. split; [done|]. by intros [?|?].
  - cbn. exists T. split; [by apply grown_refl|]. split; [done|]. right. split; [done|]. by exists e.
Qed.

Lemma leaf_pte_spec st T D split_ok d tg virt :
  tree st T D -> T !! d = Some tg -> level tg = 3%nat -> fits d (vpn virt) tg ->
  returns (leaf_pte split_ok d virt st) (fun '(c, st') => exists T', grown st T st' T' D /\
    (private tg -> ~ mirrored st d (vpn virt) -> only_own d st T st') /\
    match c with None => split_ok = true \/ tr 3 st d (vpn virt) = None -> pavail (pages st') = 0 | Some (pt, i) => leaf_found st d (vpn virt) st' T' pt i end).
Proof.
  intros Ht Hd Hl Hf. rewrite leaf_pte_eq. eapply returns_bind; [by apply (get_upper st T D d tg virt)|].
  intros [pd st2] (T2 & Hg2 & Hown2 & Hup). pose proof (g_tree _ _ _ _ _ Hg2) as Ht2.
  destruct Hup as [[-> Hav]|(tg1 & e3 & e2 & pdp & tg2 & H3 & Hp3 & Ha3 & HT2 & Hl2 & H2 & Hp2 & Ha2 & HT1 & Hl1 & Hf1 & Hpr)].
  { cbn. by exists T2. }
  assert (T2 !! d = Some tg) as Hd2 by (eapply lookup_weaken; [done|apply Hg2]).
  assert (private tg -> ~ mirrored st d (vpn virt) -> private tg1) as Hpr1 by (intros; apply Hpr; [by exists tg|done]).
  rewrite (proj2 (Z.eqb_neq pd 0)) by (by eapply tag_nonzero). unfold lower_pte.
  change (pd_index virt) with (Z.land (Z.shiftr virt (12 + 9 * Z.of_nat 1)) 0x1FF).
  change (pt_index virt) with (Z.land (Z.shiftr virt (12 + 9 * Z.of_nat 0)) 0x1FF). rewrite !index_digit by lia.
  destruct (ent_tag st2 T2 D pd tg1 (digit 1 (vpn virt)) Ht2 HT1 (digit_range _ _)) as [e1 He1].
  rewrite (entry_ent _ _ _ _ He1). cbn [mbind out_bind].
  eapply returns_bind; [by apply (lower_split st2 T2 D split_ok pd tg1 virt e1)|].
  intros [rc st3] (T3 & Hg3 & Hdf3 & Hrc). pose proof (g_tree _ _ _ _ _ Hg3) as Ht3. pose proof (grown_trans _ _ _ _ _ _ _ Hg2 Hg3) as Hg03.
  assert (private tg -> ~ mirrored st d (vpn virt) -> only_own d st T st3) as Hown3.
  { intros H1 Hm. eapply only_own_trans; [apply Hg2|by apply Hown2|eapply differ_own; [done|done|by apply Hpr1|done]]. }
  destruct Hrc as [[-> Hav]|[-> (e & He & Hlf)]].
  { cbn [Z.eqb negb returns]. exists T3. split; [done|]. split; [done|]. intros Hcase. apply Hav. destruct Hcase as [|Hnone]; [by left|]. right.
    destruct (has e1 PTE_HUGE) eqn:Hh; [|done]. exfalso. pose proof (g_tr _ _ _ _ _ Hg2 d tg (vpn virt) Hd) as Htr. rewrite Hl in Htr. rewrite <- Htr in Hnone. unfold tr in Hnone.
    rewrite (leaf_ptr st2 2 d _ e3), Ha3, (leaf_ptr st2 1 pdp _ e2), Ha2, (leaf_S st2 0 pd _ e1) in Hnone by done.
    pose proof (t_ent _ _ _ Ht2 pd tg1 _ e1 HT1 He1) as Hok. unfold entry_ok in Hok. rewrite Hl1 in Hok. cbn [is_leaf] in *. rewrite Hh in *.
    destruct Hok as [Hp1 _]. cbn [mbind option_bind xlate] in Hnone. by rewrite Hp1 in Hnone. }
  cbn [Z.eqb negb].
  assert (T3 !! pd = Some tg1) as HT13 by (eapply lookup_weaken; [done|apply Hg3]).
  eapply returns_bind; [apply (get_table_spec st3 T3 D pd tg1 0 virt e Ht3 HT13 Hl1 ltac:(lia) He Hlf)|].
  intros [pt st4] (T4 & Hg4 & Hdf4 & Hn). pose proof (g_tree _ _ _ _ _ Hg4) as Ht4. pose proof (grown_trans _ _ _ _ _ _ _ Hg03 Hg4) as Hg04.
  assert (private tg -> ~ mirrored st d (vpn virt) -> only_own d st T st4) as Hown4.
  { intros H1 Hm. eapply only_own_trans; [apply Hg03|by apply Hown3|eapply differ_own; [done|done|by apply Hpr1|done]]. }
  destruct Hn as [[-> Hav]|Hn]; [cbn; by exists T4|].
  apply next_child in Hn as (f & tg0 & Hf' & Hpf & Hlff & Haf & HT0 & Hl0 & Hc); [|done].
  rewrite (proj2 (Z.eqb_neq pt 0)) by (by eapply tag_nonzero). cbn [returns]. exists T4. split; [done|]. split; [done|]. split; [done|].
  destruct (ent_tag st4 T4 D pt tg0 (digit 0 (vpn virt)) Ht4 HT0 (digit_range _ _)) as [x Hx].
  pose proof (grown_trans _ _ _ _ _ _ _ Hg3 Hg4) as Hg24.
  exists tg0, x. split; [done|]. split; [done|]. split; [by eapply fits_step|]. split.
  - rewrite (leaf_ptr st4 2 d _ e3), (leaf_ptr st4 1 _ _ e2), Ha2, (leaf_ptr st4 0 _ _ f), Haf; try done; [by apply leaf_pt| |].
    + rewrite Ha3. by apply (g_ptr _ _ _ _ _ Hg24 pdp tg2); try done; rewrite Hl2.
    + by apply (g_ptr _ _ _ _ _ Hg24 d tg); try done; rewrite Hl.
  - intros (tgd & Htd & Hprd) Hm. assert (T4 !! d = Some tg) by (eapply lookup_weaken; [done|apply Hg24]).
    assert (private tg1) as Hp1 by (apply Hpr1; [congruence|done]).
    destruct tg1 as [d1 l1 pre|]; [|done]. simpl in Hl1. subst l1. by destruct Hc as [-> |[_ [(? & _)|(? & _)]]].
Qed.
End tree.
