(* ===== verification/VmmMap.v ===== *)
(** * Mapping pages

    What [walk_leaf], [vmm_map_page], [vmm_unmap_page] and the queries do to the
    translations of all address spaces, for pages in private tables and for the
    kernel's temporary mappings. *)

From stdpp Require Import base numbers list gmap sets.
From Stdlib Require Import ZArith Lia.
From S2P Require Import Prelude Vmm VmmTree.

#[local] Open Scope Z_scope.

Section map.
Context {P : Type} `{!Pages P, !PagesLaws P}.
Implicit Types (st : vst (P := P)) (T : gmap Z tag) (D : gset Z).

(** ** Queries *)

Lemma walk_leaf_spec st T D d tg virt :
  tree st T D -> T !! d = Some tg -> level tg = 3%nat ->
  walk_leaf d virt st = Ret (match leaf 3 st d (vpn virt) with Some (m, b, _) => Some (b, digit m (vpn virt)) | None => None end).
Proof.
  intros Ht Hd Hl. set (n := vpn virt). unfold walk_leaf, get_pdp, get_pd, get_pt.
  change (pd_index virt) with (Z.land (Z.shiftr virt (12 + 9 * Z.of_nat 1)) 0x1FF).
  change (pt_index virt) with (Z.land (Z.shiftr virt (12 + 9 * Z.of_nat 0)) 0x1FF). rewrite !index_digit by lia. fold n.
  destruct (get_table_find st T D d tg 3 virt Ht Hd ltac:(lia)) as (e3 & He3 & Hg3). fold n in He3.
  change (get_table 39 d virt false st) with (get_table (12 + 9 * Z.of_nat 3) d virt false st). rewrite Hg3. cbn [mbind out_bind].
  rewrite (leaf_S _ _ _ _ _ He3). cbn [is_leaf].
  destruct (has e3 VMM_PRESENT) eqn:Hp3; [|done].
  destruct (step_tag _ _ _ _ _ _ _ _ Ht Hd Hl He3 eq_refl Hp3) as (tg2 & HT2 & Hl2 & _).
  rewrite (proj2 (Z.eqb_neq (addr e3) 0)) by (by eapply tag_nonzero).
  destruct (get_table_find st T D _ tg2 2 virt Ht HT2 ltac:(lia)) as (e2 & He2 & Hg2). fold n in He2.
  change (get_table 30 (addr e3) virt false st) with (get_table (12 + 9 * Z.of_nat 2) (addr e3) virt false st). rewrite Hg2. cbn [mbind out_bind].
  rewrite (leaf_S _ _ _ _ _ He2). cbn [is_leaf].
  destruct (has e2 VMM_PRESENT) eqn:Hp2; [|done].
  destruct (step_tag _ _ _ _ _ _ _ _ Ht HT2 Hl2 He2 eq_refl Hp2) as (tg1 & HT1 & Hl1 & _).
  rewrite (proj2 (Z.eqb_neq (addr e2) 0)) by (by eapply tag_nonzero).
  destruct (get_table_find st T D _ tg1 1 virt Ht HT1 ltac:(lia)) as (e1 & He1 & Hg1). fold n in He1.
  rewrite (entry_ent _ _ _ _ He1). cbn [mbind out_bind].
  rewrite (leaf_S _ _ _ _ _ He1). cbn [is_leaf].
  destruct (has e1 PTE_HUGE) eqn:Hh; [done|].
  change (get_table 21 (addr e2) virt false st) with (get_table (12 + 9 * Z.of_nat 1) (addr e2) virt false st). rewrite Hg1. cbn [mbind out_bind].
  destruct (has e1 VMM_PRESENT) eqn:Hp1; [|done].
  destruct (step_tag _ _ _ _ _ _ _ _ Ht HT1 Hl1 He1 Hh Hp1) as (tg0 & HT0 & Hl0 & _).
  rewrite (proj2 (Z.eqb_neq (addr e1) 0)) by (by eapply tag_nonzero).
  destruct (ent_tag st T D _ _ (digit 0 n) Ht HT0 (digit_range _ _)) as [e0 He0]. by rewrite (leaf_pt _ _ _ _ He0).
Qed.

(** The entry a root maps a page with. *)
Lemma leaf_root st T D r n m b e :
  tree st T D -> root st D r -> 0 <= n < 2 ^ 36 -> leaf 3 st r n = Some (m, b, e) ->
  exists tg, T !! b = Some tg /\ level tg = m /\ fits r n tg /\ ent st b (digit m n) = Some e /\
    (m = 0%nat /\ has e PTE_HUGE = false \/ m = 1%nat /\ has e PTE_HUGE = true /\ has e VMM_PRESENT = true /\
     has e VMM_USER = false /\ has e VMM_COW = false /\ addr e mod HUGE_SIZE = 0).
Proof.
  intros Ht Hr Hn Hlf. destruct (root_tag st T D r n Ht Hr Hn) as (tg & HT & Hl & Hf).
  destruct (leaf_tag st T D r n Ht 3 r tg m b e HT Hl Hf Hlf) as (tg' & HT' & Hl' & Hf' & He & Hi).
  exists tg'. do 4 (split; [done|]). pose proof (t_ent _ _ _ Ht _ _ _ _ HT' He) as Hok. unfold entry_ok in Hok. rewrite Hl' in Hok.
  destruct m as [|[|m]]; [left; split; [done|apply Hok]|right|done]. rewrite Hi in Hok. simpl in Hi. tauto.
Qed.

Lemma walk_root st T D r virt :
  tree st T D -> root st D r ->
  walk_leaf r virt st = Ret (match leaf 3 st r (vpn virt) with Some (m, b, _) => Some (b, digit m (vpn virt)) | None => None end).
Proof.
  intros Ht Hr. destruct (root_tag st T D r (vpn virt) Ht Hr (vpn_range _)) as (tg & HT & Hl & _). by eapply walk_leaf_spec.
Qed.

(** Reading the entry found. *)
Lemma walk_entry st T D r virt {A} (k0 : out A) (k : Z -> out A) :
  tree st T D -> root st D r ->
  (pte ← walk_leaf r virt st; match pte with None => k0 | Some (a, i) => e ← entry a i st; k e end) =
  match leaf 3 st r (vpn virt) with None => k0 | Some (_, _, e) => k e end.
Proof.
  intros Ht Hr. rewrite (walk_root st T D r virt Ht Hr). cbn [mbind out_bind].
  destruct (leaf 3 st r (vpn virt)) as [[[m b] e]|] eqn:Hlf; [|done].
  destruct (leaf_root st T D r _ m b e Ht Hr (vpn_range _) Hlf) as (tg & HT & Hl & _ & He & _). by rewrite (entry_ent _ _ _ _ He).
Qed.

Lemma low_bits v k : 0 <= k -> Z.land v (2 ^ k - 1) = v mod 2 ^ k.
Proof. intros. rewrite <- Z.land_ones by done. f_equal. rewrite Z.ones_equiv. lia. Qed.

Lemma aligned_lor a k v : 0 <= k -> a mod 2 ^ k = 0 -> Z.lor a (v mod 2 ^ k) = a + v mod 2 ^ k.
Proof.
  intros Hk Ha. apply Z.div_exact in Ha; [|lia]. rewrite Ha, (Z.mul_comm (2 ^ k)). apply lor_add; [done|].
  apply Z.mod_pos_bound. lia.
Qed.


Lemma vmm_get_physical_spec st T D r virt :
  tree st T D -> root st D r ->
  vmm_get_physical r virt st = Ret (match trans st r (vpn virt) with Some (f, _) => f + virt mod PAGE_SIZE | None => 0 end).
Proof.
  intros Ht Hr. unfold vmm_get_physical. rewrite (walk_entry st T D r virt) by done. unfold trans, tr.
  destruct (leaf 3 st r (vpn virt)) as [[[m b] e]|] eqn:Hlf; [|done]. cbn [mbind option_bind xlate].
  destruct (has e VMM_PRESENT) eqn:Hp; [|done]. cbn [negb].
  destruct (leaf_root st T D r _ m b e Ht Hr (vpn_range _) Hlf) as (tg & HT & Hl & _ & He & Hk).
  destruct Hk as [[-> ->]|(-> & -> & _ & _ & _ & Hm)]; f_equal; unfold frame_of; fold (addr e).
  - change 0xFFF with (2 ^ 12 - 1). rewrite low_bits, aligned_lor by (done || apply addr_aligned). change PAGE_SIZE with (2 ^ 12). lia.
  - change 0x1FFFFF with (2 ^ 21 - 1). rewrite low_bits, aligned_lor by done. unfold digit, vpn.
    rewrite Z.pow_0_r, Z.div_1_r. change (2 ^ 36) with (512 * 2 ^ 27). 
    rewrite (Z.rem_mul_r _ 512 (2 ^ 27)), (Z.mul_comm 512), Z.mod_add, Z.mod_mod by lia.
    change (2 ^ 21) with (PAGE_SIZE * 512). rewrite Z.rem_mul_r by done. lia.
Qed.

Lemma has_fl e : has (fl e) VMM_PRESENT = has e VMM_PRESENT /\ has (fl e) VMM_WRITABLE = has e VMM_WRITABLE /\
  has (fl e) VMM_USER = has e VMM_USER /\ has (fl e) VMM_COW = has e VMM_COW.
Proof. by rewrite !has_present, !has_writable, !has_user, !has_cow, !fl_bit by lia. Qed.

Lemma has_low e k : 0 <= k < 12 -> has (Z.land e 0xFFF) (2 ^ k) = Z.testbit e k.
Proof. intros Hk. rewrite has_bit, Z.land_spec, low12_testbit by lia. rewrite (proj2 (Z.ltb_lt k 12)) by lia. apply andb_true_r. Qed.

Lemma has_either x : has x (Z.lor VMM_WRITABLE VMM_COW) = has x VMM_WRITABLE || has x VMM_COW.
Proof.
  unfold has. rewrite Z.land_lor_distr_r.
  destruct (Z.eqb_spec (Z.land x VMM_WRITABLE) 0) as [->|H1], (Z.eqb_spec (Z.land x VMM_COW) 0) as [->|H2]; cbn [negb orb]; try done;
    apply negb_true_iff, Z.eqb_neq; rewrite Z.lor_eq_0_iff; tauto.
Qed.

(** The flags of a page agree with its translation. *)
Definition flags_view (t : option (Z * Z)) (g : Z) : Prop :=
  match t with
  | Some (_, x) => has g VMM_PRESENT = true /\ has g VMM_USER = has x VMM_USER /\
      has g (Z.lor VMM_WRITABLE VMM_COW) = has x VMM_WRITABLE || has x VMM_COW
  | None => has g VMM_PRESENT = false
  end.

Lemma vmm_get_page_flags_spec st T D r virt :
  tree st T D -> root st D r ->
  returns (vmm_get_page_flags r virt st) (fun g => flags_view (trans st r (vpn virt)) g /\
    forall f x, trans st r (vpn virt) = Some (f, x) -> Z.land g (Z.lnot PTE_HUGE) = x).
Proof.
  intros Ht Hr. unfold vmm_get_page_flags. rewrite (walk_entry st T D r virt) by done. unfold trans, tr.
  destruct (leaf 3 st r (vpn virt)) as [[[m b] e]|] eqn:Hlf; [|done]. cbn [mbind option_bind xlate returns].
  destruct (has_fl e) as (_ & H1 & H2 & H3).
  assert (forall k, 0 <= k < 12 -> has (Z.land e 0xFFF) (2 ^ k) = has e (2 ^ k)) as Hk by (intros k Hk; rewrite has_low, has_bit by lia; done).
  destruct (has e VMM_PRESENT) eqn:Hp; simpl.
  - split; [|by intros f x [= _ <-]]. split; [by rewrite <- Hp; apply (Hk 0)|].
    rewrite H1, H2, H3, has_either. split; [by apply (Hk 2)|]. f_equal; [by apply (Hk 1)|by apply (Hk 9)].
  - split; [by rewrite <- Hp; apply (Hk 0)|done].
Qed.

(** ** Writing an entry of the last level *)

Lemma leaf_level st T D n : tree st T D -> forall l a tg m b e,
  T !! a = Some tg -> level tg = l -> leaf l st a n = Some (m, b, e) ->
  exists tg', T !! b = Some tg' /\ level tg' = m /\ ent st b (digit m n) = Some e.
Proof.
  intros Ht. induction l as [|l IH]; intros a tg m b e Ha Hl Hlf;
    destruct (ent_tag st T D a tg (digit (level tg) n) Ht Ha (digit_range _ _)) as [y Hy]; rewrite Hl in Hy.
  - rewrite (leaf_pt _ _ _ _ Hy) in Hlf. injection Hlf as <- <- <-. by exists tg.
  - rewrite (leaf_S _ _ _ _ _ Hy) in Hlf.
    destruct (is_leaf (S l) y) eqn:Hi; [injection Hlf as <- <- <-; by exists tg|]. destruct (has y VMM_PRESENT) eqn:Hp; [|done].
    destruct (step_tag _ _ _ _ _ _ _ _ Ht Ha Hl Hy Hi Hp) as (tg' & Ha' & Hl' & _). by eapply IH.
Qed.

Lemma leaf_bound st l a n : match leaf l st a n with Some (m, _, _) => (m <= l)%nat | None => True end.
Proof.
  revert a. induction l as [|l IH]; intros a; cbn [leaf]; (destruct (ent st a _) as [y|]; [|done]); cbn [mbind option_bind]; [simpl; lia|].
  destruct (is_leaf (S l) y); [done|]. destruct (has y VMM_PRESENT); [|done]. specialize (IH (addr y)).
  destruct (leaf l st (addr y) n) as [[[m b] e]|]; [lia|done].
Qed.

Lemma leaf_set st T D n x pt e : tree st T D -> forall l a tg,
  T !! a = Some tg -> level tg = l -> leaf l st a n = Some (0%nat, pt, e) ->
  leaf l (put pt (digit 0 n) x st) a n = Some (0%nat, pt, x).
Proof.
  intros Ht. induction l as [|l IH]; intros a tg Ha Hl Hlf;
    destruct (leaf_level st T D n Ht _ a tg _ _ _ Ha Hl Hlf) as (tg0 & HT0 & Hl0 & Hpt);
    destruct (ent_tag st T D a tg (digit (level tg) n) Ht Ha (digit_range _ _)) as [y Hy]; rewrite Hl in Hy.
  - rewrite (leaf_pt _ _ _ _ Hy) in Hlf. injection Hlf as -> ->.
    apply leaf_pt. by rewrite (ent_put _ _ _ _ _ _ _ Hpt), !Z.eqb_refl.
  - rewrite (leaf_S _ _ _ _ _ Hy) in Hlf.
    destruct (is_leaf (S l) y) eqn:Hi; [done|]. destruct (has y VMM_PRESENT) eqn:Hp; [|done].
    destruct (step_tag _ _ _ _ _ _ _ _ Ht Ha Hl Hy Hi Hp) as (tg' & Ha' & Hl' & _).
    rewrite (leaf_ptr _ _ _ _ y); [by eapply IH| |done|done].
    rewrite (ent_put _ _ _ _ _ _ _ Hpt). destruct (Z.eqb_spec a pt) as [->|]; [|done].
    rewrite Ha in HT0. injection HT0 as ->. lia.
Qed.

(** The same for an entry of any level that ends a walk. *)
Lemma tr_set st T D n x m b e : tree st T D -> forall l a tg,
  T !! a = Some tg -> level tg = l -> leaf l st a n = Some (m, b, e) ->
  tr l (put b (digit m n) x st) a n = follow m (put b (digit m n) x st) x n.
Proof.
  intros Ht. induction l as [|l IH]; intros a tg Ha Hl Hlf;
    destruct (leaf_level st T D n Ht _ a tg _ _ _ Ha Hl Hlf) as (tg0 & HT0 & Hl0 & Hpt);
    destruct (ent_tag st T D a tg (digit (level tg) n) Ht Ha (digit_range _ _)) as [y Hy]; rewrite Hl in Hy.
  - rewrite (leaf_pt _ _ _ _ Hy) in Hlf. injection Hlf as <- -> ->.
    by rewrite tr_follow, (ent_put _ _ _ _ _ _ _ Hpt), !Z.eqb_refl.
  - rewrite (leaf_S _ _ _ _ _ Hy) in Hlf. rewrite tr_follow, (ent_put _ _ _ _ _ _ _ Hpt).
    destruct (is_leaf (S l) y) eqn:Hi; [injection Hlf as <- -> ->; by rewrite !Z.eqb_refl|].
    destruct (has y VMM_PRESENT) eqn:Hp; [|done].
    destruct (step_tag _ _ _ _ _ _ _ _ Ht Ha Hl Hy Hi Hp) as (tg' & Ha' & Hl' & _).
    assert (a <> b) as Hab.
    { intros ->. destruct (leaf_level st T D n Ht l _ tg' _ _ _ Ha' Hl' Hlf) as (tg2 & HT2 & Hl2 & _).
      pose proof (leaf_bound st l (addr y) n). rewrite Hlf in H. simplify_eq. simpl in H. lia. }
    rewrite (proj2 (Z.eqb_neq a b)) by done. cbn [andb]. rewrite Hy. cbn [mbind option_bind].
    rewrite <- (IH (addr y) tg') by done. unfold follow at 1. by rewrite Hi, Hp.
Qed.

(** The entry of page [n] of [d], in a private table. *)
Lemma put_private st T D d n pt pre e x :
  tree st T D -> d ∈ D -> 0 <= n < 2 ^ 36 -> T !! pt = Some (Priv d 0 pre) -> leaf 3 st d n = Some (0%nat, pt, e) ->
  has x PTE_HUGE = false ->
  let st' := put pt (digit 0 n) x st in
  set_entry pt (digit 0 n) x st = Ret st' /\ tree st' T D /\ leaf 3 st' d n = Some (0%nat, pt, x) /\
  forall r n', root st D r -> 0 <= n' < 2 ^ 36 -> (r, n') <> (d, n) -> leaf 3 st' r n' = leaf 3 st r n'.
Proof.
  intros Ht Hd Hn Hpt Hlf Hx st'. pose proof (t_dir _ _ _ Ht d Hd) as HTd.
  destruct (leaf_tag st T D d n Ht 3 d (Priv d 3 0) _ _ _ HTd eq_refl ltac:(split; [done|by rewrite above_top]) Hlf) as (tg & HT & _ & Hf & He & _).
  rewrite Hpt in HT. injection HT as <-. destruct Hf as [_ Hpre].
  split; [by eapply set_entry_put|]. split; [|split].
  - eapply tree_put; [done..| |simpl; lia]. split; [done|]. intros ?. done.
  - by eapply (leaf_set st T D _ _ _ _ Ht 3 d).
  - intros r n' Hr Hn' Hne. destruct (root_tag st T D r n' Ht Hr Hn') as (tg & HTr & Hl & Hfr).
    eapply (leaf_other st T D pt (digit 0 n) d 0 pre st' r n'); try done.
    + intros b tgb j Hb Hbj. unfold st'. rewrite (ent_put _ _ _ _ _ _ _ He).
      destruct (Z.eqb_spec b pt), (Z.eqb_spec j (digit 0 n)); cbn [andb]; try done. congruence.
    + intros [-> Hq]. apply Hne. f_equal. rewrite Hpre in Hq. pose proof (above_digit 0 n) as H0. rewrite <- H0 in Hq.
      change (512 ^ Z.of_nat 0) with 1 in Hq. rewrite !Z.div_1_r in Hq. done.
Qed.

(** ** Mapping and unmapping *)

(** [st'] has the tables [T'], at least those of [st]; the rest is as it was. *)
Record evolves st T st' T' D : Prop := {
  ev_tree : tree st' T' D;
  ev_sub : T ⊆ T';
  ev_only : only_tables st st';
  ev_used x : pused (pages st) x -> pused (pages st') x;
  ev_new x tg : T' !! x = Some tg -> T !! x = None -> ~ pused (pages st) x;
  ev_avail : pavail (pages st') <= pavail (pages st);
}.

Lemma grown_evolves st T st' T' D : grown st T st' T' D -> evolves st T st' T' D.
Proof. intros []. by split. Qed.

Lemma evolves_put st T st' T' D a i x : evolves st T st' T' D -> tree (put a i x st') T' D -> evolves st T (put a i x st') T' D.
Proof. intros [t s o u n v] Ht. split; try done. unfold only_tables in *. rewrite o. by destruct st. Qed.

Lemma evolves_trans st T st1 T1 st2 T2 D : evolves st T st1 T1 D -> evolves st1 T1 st2 T2 D -> evolves st T st2 T2 D.
Proof.
  intros [t1 s1 o1 u1 n1 v1] [t2 s2 o2 u2 n2 v2]. split; [done|by etrans| |auto| |lia].
  - unfold only_tables in *. rewrite o2. rewrite o1. by destruct st.
  - intros x tg H2 H0. destruct (T1 !! x) as [tg1|] eqn:H1; [by eapply n1|]. intros Hu. by apply (n2 x tg H2 H1), u1.
Qed.

(** The fields that do not change. *)
Lemma only_fields st st' : only_tables st st' ->
  frames st' = frames st /\ kernel_pml4 st' = kernel_pml4 st /\ kernel_low_pdp st' = kernel_low_pdp st /\
  current_pml4 st' = current_pml4 st /\ cpu_id st' = cpu_id st /\ cr0_wp st' = cr0_wp st /\
  thread_fault st' = thread_fault st /\ have_proc st' = have_proc st /\ user_fault_handler st' = user_fault_handler st.
Proof. unfold only_tables. intros ->. done. Qed.

Lemma root_only st st' D r : only_tables st st' -> root st' D r <-> root st D r.
Proof. intros Ho. unfold root. destruct (only_fields _ _ Ho) as (_ & -> & _). done. Qed.

Lemma grown_trans_same st T st' T' D r n :
  tree st T D -> grown st T st' T' D -> root st D r -> 0 <= n < 2 ^ 36 -> trans st' r n = trans st r n.
Proof.
  intros Ht Hg Hr Hn. destruct (root_tag st T D r n Ht Hr Hn) as (tg & HT & Hl & _).
  unfold trans. rewrite <- Hl. by apply (g_tr _ _ _ _ _ Hg r tg n).
Qed.

(** The entry for a physical page and flags. *)
Definition map_pte (phys flags : Z) : Z := Z.lor (Z.land phys (Z.lnot 0xFFF)) flags.

Lemma map_pte_addr phys flags : Z.land flags PTE_ADDR_MASK = 0 -> addr (map_pte phys flags) = addr phys.
Proof.
  intros Hf. unfold addr, map_pte. by rewrite Z.land_lor_distr_l, Hf, Z.lor_0_r, <- Z.land_assoc.
Qed.

Lemma map_pte_bit phys flags k : 0 <= k < 12 -> Z.testbit (map_pte phys flags) k = Z.testbit flags k.
Proof.
  intros Hk. unfold map_pte. rewrite Z.lor_spec, Z.land_spec, Z.lnot_spec, low12_testbit by lia.
  rewrite (proj2 (Z.ltb_lt k 12)) by lia. by rewrite andb_false_r.
Qed.

Lemma map_pte_fl phys flags : fl (map_pte phys flags) = fl flags.
Proof. apply fl_ext. intros k Hk _. by apply map_pte_bit. Qed.

(** The translation an entry of the last level gives. *)
Definition pte_trans (x : Z) : option (Z * Z) := if has x VMM_PRESENT then Some (addr x, fl x) else None.

Lemma trans_leaf st d n pt x : leaf 3 st d n = Some (0%nat, pt, x) -> trans st d n = pte_trans x.
Proof.
  intros Hlf. unfold trans, tr, pte_trans. rewrite Hlf. simpl. unfold frame_of. by rewrite Z.mul_0_r, Z.add_0_r.
Qed.

Lemma trans_same st st' r n : leaf 3 st' r n = leaf 3 st r n -> trans st' r n = trans st r n.
Proof. unfold trans, tr. by intros ->. Qed.

Lemma dir_not_kernel st T D d : tree st T D -> d ∈ D -> d <> kernel_pml4 st.
Proof. intros Ht Hd ->. pose proof (t_dir _ _ _ Ht _ Hd). by rewrite (t_kernel _ _ _ Ht) in *. Qed.

Lemma vmm_map_page_spec st T D d phys virt flags :
  tree st T D -> d ∈ D -> ~ mirrored st d (vpn virt) -> Z.land flags PTE_ADDR_MASK = 0 -> has flags PTE_HUGE = false ->
  returns (vmm_map_page d phys virt flags st) (fun '(rc, st') => exists T', evolves st T st' T' D /\
    (rc = -1 /\ (digit 3 (vpn virt) < 256 -> pavail (pages st') = 0) /\ (forall r n, root st D r -> 0 <= n < 2 ^ 36 -> trans st' r n = trans st r n) \/
     rc = 0 /\ trans st' d (vpn virt) = (if has flags VMM_PRESENT then Some (addr phys, fl flags) else None) /\
     forall r n, root st D r -> 0 <= n < 2 ^ 36 -> (r, n) <> (d, vpn virt) -> trans st' r n = trans st r n)).
Proof.
  intros Ht Hd Hm Hf Hh. pose proof (t_dir _ _ _ Ht d Hd) as HTd. unfold vmm_map_page.
  rewrite (proj2 (Z.eqb_neq d 0)) by (by eapply tag_nonzero).
  eapply returns_bind; [apply (leaf_pte_spec st T D _ d (Priv d 3 0) virt Ht HTd eq_refl)|].
  { split; [done|]. by rewrite above_top by apply vpn_range. }
  intros [[[pt i]|] st1] (T1 & Hg & _ & Hlf).
  - destruct Hlf as (-> & tg & e & HT & Hl & Hfit & Hlf & Hpr). pose proof (g_tree _ _ _ _ _ Hg) as Ht1.
    assert (private tg) as Hp by (apply Hpr; [exists (Priv d 3 0); split; [eapply lookup_weaken; [done|apply Hg]|done]|done]).
    destruct tg as [d' l pre|]; [|done]. simpl in Hl. subst l. destruct Hfit as [-> _].
    fold (map_pte phys flags).
    destruct (put_private st1 T1 D d (vpn virt) pt pre e (map_pte phys flags)) as (Hset & Ht2 & Hlf2 & Hoth); try done.
    { apply vpn_range. } { by rewrite has_huge, map_pte_bit, <- has_huge by lia. }
    rewrite Hset. cbn [mbind out_bind returns]. exists T1. split; [by apply evolves_put; [apply grown_evolves|]|]. right. split; [done|]. split.
    + rewrite (trans_leaf _ _ _ _ _ Hlf2). unfold pte_trans. rewrite map_pte_addr, map_pte_fl by done.
      by rewrite !has_present, map_pte_bit by lia.
    + intros r n Hr Hn Hne. rewrite <- (grown_trans_same st T st1 T1 D r n) by done.
      apply trans_same, Hoth; [by apply (root_only _ _ _ _ (g_only _ _ _ _ _ Hg))|done|done].
  - cbn [returns]. exists T1. split; [by apply grown_evolves|]. left. split; [done|]. split.
    + intros Hd3. apply Hlf. left. pose proof (index_digit 3 virt ltac:(lia)) as E. change (12 + 9 * Z.of_nat 3) with 39 in E. rewrite E.
      rewrite (proj2 (Z.eqb_neq _ _)) by (by eapply dir_not_kernel). by rewrite (proj2 (Z.leb_gt 256 _)) by done.
    + intros r n Hr Hn. by eapply grown_trans_same.
Qed.

(** The table a page that is not mirrored is mapped in. *)
Lemma leaf_private st T D d n m b e :
  tree st T D -> d ∈ D -> 0 <= n < 2 ^ 36 -> ~ mirrored st d n -> leaf 3 st d n = Some (m, b, e) ->
  T !! b = Some (Priv d m (above m n)).
Proof.
  intros Ht Hd Hn Hm Hlf. pose proof (t_dir _ _ _ Ht d Hd) as HT3.
  assert (fits d n (Priv d 3 0)) as Hf3 by (split; [done|by rewrite above_top]).
  destruct (leaf_tag st T D d n Ht 3 d _ m b e HT3 eq_refl Hf3 Hlf) as (tg & HTb & Hl & Hf & He & _).
  enough (private tg) as Hpr by (destruct tg as [d' l pre|]; [|done]; simpl in Hl; subst l; by destruct Hf as [-> ->]).
  destruct (ent_tag st T D d _ (digit 3 n) Ht HT3 (digit_range _ _)) as [e3 He3]. rewrite (leaf_S _ _ _ _ _ He3) in Hlf. cbn [is_leaf] in Hlf.
  destruct (has e3 VMM_PRESENT) eqn:Hp3; [|done].
  destruct (step_tag _ _ _ _ _ _ _ _ Ht HT3 eq_refl He3 eq_refl Hp3) as (tg2 & HT2 & Hl2 & Hc2).
  assert (private tg2) as Hpr2 by (by eapply (upper_private st T D d n (Priv d 3 0) e3)).
  assert (fits d n tg2) as Hf2 by (by eapply (fits_step st d n (Priv d 3 0) 2 e3)).
  destruct tg2 as [d2 l2 pre2|]; [|done]. simpl in Hl2. subst l2. destruct Hf2 as [-> Hpre2].
  destruct (ent_tag st T D _ _ (digit 2 n) Ht HT2 (digit_range _ _)) as [e2 He2]. rewrite (leaf_S _ _ _ _ _ He2) in Hlf. cbn [is_leaf] in Hlf.
  destruct (has e2 VMM_PRESENT) eqn:Hp2; [|done].
  destruct (step_tag _ _ _ _ _ _ _ _ Ht HT2 eq_refl He2 eq_refl Hp2) as (tg1 & HT1 & Hl1 & Hc1).
  assert (private tg1) as Hpr1.
  { destruct Hc1 as [-> |[-> [(? & _)|(_ & H0 & Hi & Hlow)]]]; [done..|]. destruct Hm. right.
    assert (digit 3 n = 0) as Hd3. { pose proof (above_digit 3 n) as H3. rewrite above_top in H3 by done.
      change (n / 512 ^ Z.of_nat 3) with (above 2 n) in H3. lia. }
    split; [done|]. split; [done|]. exists e3, e2. rewrite <- Hd3. by repeat (split; [done|]). }
  destruct tg1 as [d1 l1 pre1|]; [|done]. simpl in Hl1. subst l1.
  destruct (ent_tag st T D _ _ (digit 1 n) Ht HT1 (digit_range _ _)) as [e1 He1]. rewrite (leaf_S _ _ _ _ _ He1) in Hlf.
  destruct (is_leaf 1 e1) eqn:Hi1; [injection Hlf as <- <- <-; rewrite HT1 in HTb; by injection HTb as <-|].
  destruct (has e1 VMM_PRESENT) eqn:Hp1; [|done].
  destruct (step_tag _ _ _ _ _ _ _ _ Ht HT1 eq_refl He1 Hi1 Hp1) as (tg0 & HT0 & Hl0 & Hc0).
  destruct (ent_tag st T D _ _ (digit 0 n) Ht HT0 (digit_range _ _)) as [e0 He0]. rewrite (leaf_pt _ _ _ _ He0) in Hlf. injection Hlf as <- <- <-.
  rewrite HT0 in HTb. injection HTb as <-. by destruct Hc0 as [-> |[_ [(? & _)|(? & _)]]].
Qed.

(** User pages are in private tables of the last level. *)
Lemma user_leaf st T D d n m b e :
  tree st T D -> d ∈ D -> 0 <= n < 2 ^ 36 -> leaf 3 st d n = Some (m, b, e) -> has e VMM_PRESENT = true -> has e VMM_USER = true ->
  m = 0%nat /\ T !! b = Some (Priv d 0 (above 0 n)) /\ has e PTE_HUGE = false.
Proof.
  intros Ht Hd Hn Hlf Hp Hu. destruct (leaf_root st T D d n m b e Ht (or_introl Hd) Hn Hlf) as (tg & HT & Hl & Hf & He & Hk).
  destruct Hk as [[-> Hh]|(_ & _ & _ & Hu' & _)]; [|congruence]. split; [done|]. split; [|done].
  pose proof (t_ent _ _ _ Ht _ _ _ _ HT He) as Hok. unfold entry_ok in Hok. rewrite Hl in Hok. destruct Hok as [_ Hs].
  destruct tg as [d' l pre|l]; simpl in Hl; subst l; [by destruct Hf as [-> ->]|]. rewrite (Hs eq_refl Hp) in Hu. done.
Qed.

(** A huge page is unmapped as a whole. *)
Definition huge_mapped st d n : Prop := exists b e, leaf 3 st d n = Some (1%nat, b, e).

Lemma digit_block l n n' : n / 512 = n' / 512 -> digit (S l) n = digit (S l) n'.
Proof. intros E. unfold digit. rewrite Nat2Z.inj_succ, Z.pow_succ_r, <- !Z.div_div by lia. by rewrite E. Qed.

Lemma leaf_block st n n' b e : n / 512 = n' / 512 -> forall l a, leaf l st a n = Some (1%nat, b, e) -> leaf l st a n' = Some (1%nat, b, e).
Proof.
  intros E. induction l as [|l IH]; intros a Hlf; cbn [leaf] in *.
  - by destruct (ent st a (digit 0 n)).
  - rewrite <- (digit_block l n n' E). destruct (ent st a (digit (S l) n)) as [x|]; [|done]. cbn [mbind option_bind] in *.
    destruct (is_leaf (S l) x); [done|]. destruct (has x VMM_PRESENT); [|done]. by apply IH.
Qed.

Lemma vmm_unmap_page_spec st T D d virt :
  tree st T D -> d ∈ D -> ~ mirrored st d (vpn virt) ->
  returns (vmm_unmap_page d virt st) (fun st' => evolves st T st' T D /\ trans st' d (vpn virt) = None /\
    (forall n, 0 <= n < 2 ^ 36 -> huge_mapped st d (vpn virt) -> n / 512 = vpn virt / 512 -> trans st' d n = None) /\
    forall r n, root st D r -> 0 <= n < 2 ^ 36 ->
      ~ (r = d /\ (n = vpn virt \/ huge_mapped st d (vpn virt) /\ n / 512 = vpn virt / 512)) -> trans st' r n = trans st r n).
Proof.
  intros Ht Hd Hm. pose proof (vpn_range virt) as Hv. set (n0 := vpn virt) in *. unfold vmm_unmap_page.
  rewrite (walk_root st T D d virt Ht (or_introl Hd)). fold n0. cbn [mbind out_bind].
  destruct (leaf 3 st d n0) as [[[m b] e]|] eqn:Hlf.
  2:{ cbn [returns]. split; [by apply grown_evolves, grown_refl|]. split; [unfold trans, tr; by rewrite Hlf|]. split; [|done].
      intros n _ (b & e & H). congruence. }
  pose proof (leaf_private st T D d n0 m b e Ht Hd Hv Hm Hlf) as HT.
  destruct (leaf_root st T D d n0 m b e Ht (or_introl Hd) Hv Hlf) as (tg & HT' & Hl & _ & He & Hk).
  rewrite (set_entry_put _ _ _ _ e) by done. cbn [returns].
  assert (entry_ok st T (Priv d m (above m n0)) (digit m n0) 0) as Hok by (unfold entry_ok; simpl; destruct m as [|[|m]]; done).
  assert (tree (put b (digit m n0) 0 st) T D) as Ht'.
  { apply (tree_put st T D b _ 0 (Priv d m (above m n0)) e); [done..|]. simpl. destruct Hk as [[-> _]|[-> _]]; lia. }
  split; [by apply evolves_put; [apply grown_evolves, grown_refl|]|]. split; [|split].
  - unfold trans. rewrite (tr_set st T D n0 0 m b e Ht 3 d _ (t_dir _ _ _ Ht d Hd) eq_refl Hlf).
    unfold follow. by destruct m as [|[|m]].
  - intros n Hn (b' & e' & H) Hb. rewrite Hlf in H. injection H as -> -> ->. pose proof (leaf_block _ _ n _ _ (eq_sym Hb) _ _ Hlf) as Hlf'.
    rewrite <- (digit_block 0 n n0 Hb). unfold trans. by rewrite (tr_set st T D n 0 1 b' e' Ht 3 d _ (t_dir _ _ _ Ht d Hd) eq_refl Hlf').
  - intros r n Hr Hn Hne. apply trans_same. destruct (root_tag st T D r n Ht Hr Hn) as (tgr & HTr & Hlr & Hfr).
    eapply (leaf_other st T D b (digit m n0) d m (above m n0) _ r n); try done.
    + intros c tgc j Hc Hcj. rewrite (ent_put _ _ _ _ _ _ _ He). destruct (Z.eqb_spec c b), (Z.eqb_spec j (digit m n0)); cbn [andb]; try done. congruence.
    + rewrite <- above_digit. intros [-> Hq]. apply Hne. split; [done|]. destruct Hk as [[-> _]|[-> _]].
      * left. by rewrite !Z.pow_0_r, !Z.div_1_r in Hq.
      * right. split; [by exists b, e|done].
Qed.
End map.
