(* ===== verification/VmmCow.v ===== *)
(** * User memory: copy on write and user copies

    [utrans] is the translation of the user pages, [vmem] the byte a user
    address holds.  The invariant [wf]: page tables form a tree, the frames of
    user pages are pages of data the allocator has handed out, and a frame
    mapped twice is mapped read-only.  Breaking copy on write keeps the memory
    of every address space; a write changes one byte of one address space. *)

From stdpp Require Import base numbers list gmap sets.
From Stdlib Require Import ZArith Lia.
From S2P Require Import Prelude Vmm VmmTree VmmMap.

#[local] Open Scope Z_scope.

Section cow.
Context {P : Type} `{!Pages P, !PagesLaws P}.
Implicit Types (st : vst (P := P)) (T : gmap Z tag) (D : gset Z).

(** ** User pages *)

Definition usr (t : option (Z * Z)) : option (Z * Z) :=
  match t with Some (f, g) => if has g VMM_USER then Some (f, g) else None | None => None end.

Definition utrans st (d n : Z) : option (Z * Z) := usr (trans st d n).

Definition vmem st (d va : Z) : option Z :=
  '(f, _) ← utrans st d (vpn va); bytes ← frames st !! f; getz bytes (va mod PAGE_SIZE).

(** ** The kernel's temporary mappings *)

(** Writing an entry of a shared table of the last level. *)
Lemma put_shared st T D n pt e x :
  tree st T D -> 0 <= n < 2 ^ 36 -> T !! pt = Some (Shared 0) -> leaf 3 st (kernel_pml4 st) n = Some (0%nat, pt, e) ->
  has x PTE_HUGE = false -> has x VMM_USER = false ->
  let st' := put pt (digit 0 n) x st in
  set_entry pt (digit 0 n) x st = Ret st' /\ tree st' T D /\ leaf 3 st' (kernel_pml4 st) n = Some (0%nat, pt, x) /\
  (forall r n', root st D r -> 0 <= n' < 2 ^ 36 -> utrans st' r n' = utrans st r n').
Proof.
  intros Ht Hn Hpt Hlf Hh Hu st'. pose proof (t_kernel _ _ _ Ht) as HTk.
  destruct (leaf_level st T D n Ht 3 _ _ _ _ _ HTk eq_refl Hlf) as (tg & HT & _ & He). rewrite Hpt in HT. injection HT as <-.
  assert (entry_ok st T (Shared 0) (digit 0 n) x) as Hok by (split; done).
  split; [by eapply set_entry_put|]. split; [by eapply tree_put; try done; simpl; lia|]. split.
  - by eapply (leaf_set st T D _ _ _ _ Ht 3).
  - intros r n' Hr Hn'. destruct (root_tag st T D r n' Ht Hr Hn') as (tgr & HTr & Hlr & _).
    unfold utrans, trans. eapply (tr_like usr st T D pt (digit 0 n) (Shared 0) e x); try done.
    + intros c tgc j Hc Hcj. unfold st'. rewrite (ent_put _ _ _ _ _ _ _ He).
      destruct (Z.eqb_spec c pt), (Z.eqb_spec j (digit 0 n)); cbn [andb]; try done. congruence.
    + unfold st'. by rewrite (ent_put _ _ _ _ _ _ _ He), !Z.eqb_refl.
    + intros k _. pose proof (t_ent _ _ _ Ht _ _ _ _ Hpt He) as [_ Heu]. unfold follow. simpl.
      destruct (has_fl x) as (_ & _ & Hfx & _), (has_fl e) as (_ & _ & Hfe & _).
      assert (forall b, usr (if (b : bool) then Some (frame_of 0 x k, fl x) else None) = None) as -> by (intros []; simpl; by rewrite ?Hfx, ?Hu).
      destruct (has e VMM_PRESENT) eqn:Hpe; [|done]. simpl. by rewrite Hfe, Heu by done.
Qed.

(** Pages of the last gigabytes are the kernel's in every address space. *)
Lemma leaf_high st T D d n : tree st T D -> d ∈ D -> digit 3 n = 511 -> leaf 3 st d n = leaf 3 st (kernel_pml4 st) n.
Proof.
  intros Ht Hd Hn. destruct (t_high _ _ _ Ht d Hd) as (e & H1 & H2 & Hp).
  by rewrite (leaf_S st 2 d n e), (leaf_S st 2 (kernel_pml4 st) n e) by (by rewrite Hn).
Qed.

Lemma temp_vaddr cpu : 0 <= cpu -> digit 3 (vpn (temp_vaddr_for cpu)) = 511 /\ temp_vaddr_for cpu <> 0.
Proof.
  intros Hc. unfold temp_vaddr_for.
  set (s := if TEMP_SLOTS_MAX <=? cpu then 0 else cpu).
  assert (0 <= s < 32) as Hs by (unfold s, TEMP_SLOTS_MAX; destruct (Z.leb_spec 32 cpu); lia).
  assert (u64 (TEMP_VADDR - s * PAGE_SIZE) = TEMP_VADDR - s * PAGE_SIZE) as ->
    by (apply u64_small; unfold in_u64, TEMP_VADDR, PAGE_SIZE; lia).
  split; [|unfold TEMP_VADDR, PAGE_SIZE; lia].
  assert (vpn (TEMP_VADDR - s * PAGE_SIZE) = 2 ^ 36 - 1 - s) as ->.
  { unfold vpn, TEMP_VADDR, PAGE_SIZE. replace (18446744073709547520 - s * 4096) with ((2 ^ 52 - 1 - s) * 4096) by lia.
    rewrite Z.div_mul by lia. replace (2 ^ 52 - 1 - s) with (2 ^ 36 - 1 - s + (2 ^ 16 - 1) * 2 ^ 36) by lia.
    rewrite Z.mod_add, Z.mod_small by lia. done. }
  unfold digit. change (512 ^ Z.of_nat 3) with (2 ^ 27).
  replace (2 ^ 36 - 1 - s) with (511 * 2 ^ 27 + (2 ^ 27 - 1 - s)) by lia. rewrite Z.div_add_l, (Z.div_small (_ - s)) by lia. done.
Qed.

(** Walks that end in private tables of the last level are not touched. *)
Definition keeps_private st T D st' : Prop := forall d n b e pre,
  d ∈ D -> T !! b = Some (Priv d 0 pre) -> leaf 3 st d n = Some (0%nat, b, e) -> leaf 3 st' d n = Some (0%nat, b, e).

Lemma grown_leaf st T st' T' D n b e : tree st T D -> grown st T st' T' D -> forall l a tg,
  T !! a = Some tg -> level tg = l -> leaf l st a n = Some (0%nat, b, e) -> leaf l st' a n = Some (0%nat, b, e).
Proof.
  intros Ht Hg. induction l as [|l IH]; intros a tg Ha Hl Hlf;
    destruct (ent_tag st T D a tg (digit (level tg) n) Ht Ha (digit_range _ _)) as [y Hy]; rewrite Hl in Hy.
  - rewrite (leaf_pt _ _ _ _ Hy) in Hlf. injection Hlf as <- <-. apply leaf_pt. by rewrite (g_pt _ _ _ _ _ Hg a tg).
  - rewrite (leaf_S _ _ _ _ _ Hy) in Hlf. destruct (is_leaf (S l) y) eqn:Hi; [done|]. destruct (has y VMM_PRESENT) eqn:Hp; [|done].
    destruct (step_tag _ _ _ _ _ _ _ _ Ht Ha Hl Hy Hi Hp) as (tg' & Ha' & Hl' & _).
    rewrite (leaf_ptr st' l a n y); [by eapply IH|by eapply (g_ptr _ _ _ _ _ Hg a tg); try done; rewrite Hl|done|done].
Qed.

Lemma leaf_put_other st T D n b e pt i x y tg0 : tree st T D -> T !! pt = Some tg0 -> level tg0 = 0%nat -> ent st pt i = Some y -> b <> pt ->
  forall l a tg, T !! a = Some tg -> level tg = l -> leaf l st a n = Some (0%nat, b, e) -> leaf l (put pt i x st) a n = Some (0%nat, b, e).
Proof.
  intros Ht HT0 Hl0 Hy0 Hb. induction l as [|l IH]; intros a tg Ha Hl Hlf;
    destruct (ent_tag st T D a tg (digit (level tg) n) Ht Ha (digit_range _ _)) as [y' Hy]; rewrite Hl in Hy.
  - rewrite (leaf_pt _ _ _ _ Hy) in Hlf. injection Hlf as <- <-. apply leaf_pt. rewrite (ent_put _ _ _ _ _ _ _ Hy0).
    by rewrite (proj2 (Z.eqb_neq a pt)).
  - rewrite (leaf_S _ _ _ _ _ Hy) in Hlf. destruct (is_leaf (S l) y') eqn:Hi; [done|]. destruct (has y' VMM_PRESENT) eqn:Hp; [|done].
    destruct (step_tag _ _ _ _ _ _ _ _ Ht Ha Hl Hy Hi Hp) as (tg' & Ha' & Hl' & _).
    assert (a <> pt) as Hap by (intros ->; rewrite Ha in HT0; injection HT0 as ->; lia).
    rewrite (leaf_ptr _ l a n y'); [by eapply IH| |done|done]. rewrite (ent_put _ _ _ _ _ _ _ Hy0). by rewrite (proj2 (Z.eqb_neq a pt)).
Qed.

Lemma leaf_shared st T D n m b e : tree st T D -> forall l a,
  T !! a = Some (Shared l) -> leaf l st a n = Some (m, b, e) -> T !! b = Some (Shared m).
Proof.
  intros Ht. induction l as [|l IH]; intros a Ha Hlf;
    [destruct (ent_tag st T D a _ (digit 0 n) Ht Ha (digit_range _ _)) as [y Hy]|
     destruct (ent_tag st T D a _ (digit (S l) n) Ht Ha (digit_range _ _)) as [y Hy]].
  - rewrite (leaf_pt _ _ _ _ Hy) in Hlf. by injection Hlf as <- <- <-.
  - rewrite (leaf_S _ _ _ _ _ Hy) in Hlf. destruct (is_leaf (S l) y) eqn:Hi; [by injection Hlf as <- <- <-|].
    destruct (has y VMM_PRESENT) eqn:Hp; [|done].
    destruct (step_tag _ _ _ _ _ _ _ _ Ht Ha eq_refl Hy Hi Hp) as (tg' & Ha' & _ & Hc). simpl in Hc. subst tg'. by eapply IH.
Qed.

(** The processor's slot for temporary mappings is not in use. *)
Definition slot_free st : Prop := trans st (kernel_pml4 st) (vpn (temp_vaddr_for (cpu_id st))) = None.

(** A mapping of the kernel's, in its own address space. *)
Lemma kernel_map_spec st T D phys va flags :
  tree st T D -> Z.land flags PTE_ADDR_MASK = 0 -> has flags PTE_HUGE = false -> has flags VMM_USER = false ->
  returns (vmm_map_page (kernel_pml4 st) phys va flags st) (fun '(rc, st') => exists T', evolves st T st' T' D /\ keeps_private st T D st' /\
    (forall r n, root st D r -> 0 <= n < 2 ^ 36 -> utrans st' r n = utrans st r n) /\
    (rc = -1 /\ (trans st (kernel_pml4 st) (vpn va) = None -> pavail (pages st') = 0) /\
       trans st' (kernel_pml4 st') (vpn va) = trans st (kernel_pml4 st) (vpn va) \/
     rc = 0 /\ exists pt, leaf 3 st' (kernel_pml4 st) (vpn va) = Some (0%nat, pt, map_pte phys flags))).
Proof.
  intros Ht Hm Hh Hus. pose proof (t_kernel _ _ _ Ht) as HTk. unfold vmm_map_page.
  rewrite (proj2 (Z.eqb_neq (kernel_pml4 st) 0)) by (by eapply tag_nonzero).
  set (ok := negb _). pose proof (leaf_pte_spec st T D ok _ (Shared 3) va Ht HTk eq_refl I) as Hspec.
  destruct (leaf_pte ok (kernel_pml4 st) va st) as [[[[pt i]|] st1]| |]; [| |done..]; destruct Hspec as (T1 & Hg & _ & Hlf);
    pose proof (g_tree _ _ _ _ _ Hg) as Ht1; destruct (only_fields _ _ (g_only _ _ _ _ _ Hg)) as (_ & Hk & _);
    assert (keeps_private st T D st1) as Hkp by (intros d n b e pre Hd _ Hlf'; eapply (grown_leaf st T st1 T1 D n b e Ht Hg 3 d); [by apply (t_dir _ _ _ Ht)|done|done]);
    assert (forall r n, root st D r -> 0 <= n < 2 ^ 36 -> utrans st1 r n = utrans st r n) as Hsame
      by (intros r n Hr Hn; unfold utrans; by rewrite (grown_trans_same st T st1 T1 D)).
  2:{ cbn. exists T1. split; [by apply grown_evolves|]. split; [done|]. split; [done|]. left. split; [done|]. split; [intros H; apply Hlf; by right|].
      rewrite Hk. apply (grown_trans_same st T st1 T1 D); [done|done|by right|apply vpn_range]. }
  destruct Hlf as (-> & tg & e & _ & _ & _ & Hlf & _). cbn [mbind out_bind].
  assert (T1 !! pt = Some (Shared 0)) as HT.
  { eapply (leaf_shared st1 T1 D _ 0 pt e Ht1 3 (kernel_pml4 st)); [|done]. rewrite <- Hk. apply (t_kernel _ _ _ Ht1). }
  fold (map_pte phys flags). set (x := map_pte phys flags).
  assert (forall k, 0 <= k < 12 -> Z.testbit x k = Z.testbit flags k) as Hbit by (intros; by apply map_pte_bit).
  rewrite <- Hk in Hlf.
  destruct (put_shared st1 T1 D (vpn va) pt e x) as (Hset & Ht2 & Hlf2 & Hu); try done.
  { apply vpn_range. } { by rewrite has_huge, Hbit, <- has_huge by lia. } { by rewrite has_user, Hbit, <- has_user by lia. }
  rewrite Hset. cbn [mbind out_bind returns]. exists T1. split; [by apply evolves_put; [apply grown_evolves|]|].
  destruct (leaf_level st1 T1 D (vpn va) Ht1 3 _ _ _ _ _ (t_kernel _ _ _ Ht1) eq_refl Hlf) as (_ & _ & _ & He).
  split; [|split].
  - intros d n b e' pre Hd Hb Hlf'. eapply (leaf_put_other st1 T1 D n b e' pt _ x e _ Ht1 HT eq_refl He); [|by apply (t_dir _ _ _ Ht1)|done|by eapply Hkp].
    intros ->. assert (T1 !! pt = Some (Priv d 0 pre)) by (eapply lookup_weaken; [done|apply Hg]). congruence.
  - intros r n Hr Hn. rewrite Hu; [by apply Hsame|by apply (root_only _ _ _ _ (g_only _ _ _ _ _ Hg))|done].
  - right. split; [done|]. exists pt. by rewrite <- Hk.
Qed.

Lemma vmm_temp_map_spec st T D phys :
  tree st T D -> 0 <= cpu_id st ->
  returns (vmm_temp_map phys st) (fun '(va, st') => exists T', evolves st T st' T' D /\ keeps_private st T D st' /\
    (forall r n, root st D r -> 0 <= n < 2 ^ 36 -> utrans st' r n = utrans st r n) /\
    (va = 0 /\ (slot_free st -> pavail (pages st') = 0 /\ slot_free st') \/ va = temp_vaddr_for (cpu_id st) /\ exists pt x,
       leaf 3 st' (kernel_pml4 st) (vpn va) = Some (0%nat, pt, x) /\ has x VMM_PRESENT = true /\ has x PTE_HUGE = false /\ addr x = addr phys)).
Proof.
  intros Ht Hc. destruct (temp_vaddr (cpu_id st) Hc) as [_ Hnz]. unfold vmm_temp_map.
  eapply returns_bind; [by apply (kernel_map_spec st T D phys (temp_vaddr_for (cpu_id st)) (Z.lor VMM_PRESENT VMM_WRITABLE) Ht)|].
  intros [rc st'] (T' & Hev & Hkp & Hut & Hr). destruct Hr as [(-> & Hav & Htr)|(-> & pt & Hlf)]; cbn; exists T'; (split; [done|]); (split; [done|]); (split; [done|]).
  - left. split; [done|]. intros H. split; [by apply Hav|]. unfold slot_free in *. destruct (only_fields _ _ (ev_only _ _ _ _ _ Hev)) as (_ & _ & _ & _ & -> & _).
    by rewrite Htr.
  - right. split; [done|]. eexists _, _. split; [exact Hlf|]. rewrite has_present, has_huge, !map_pte_bit by lia.
    split; [done|]. split; [done|]. by apply map_pte_addr.
Qed.

Lemma vmm_temp_unmap_spec st T D pt x :
  tree st T D -> let va := temp_vaddr_for (cpu_id st) in leaf 3 st (kernel_pml4 st) (vpn va) = Some (0%nat, pt, x) ->
  returns (vmm_temp_unmap st) (fun st' => evolves st T st' T D /\ slot_free st' /\
    forall r n, root st D r -> 0 <= n < 2 ^ 36 -> utrans st' r n = utrans st r n).
Proof.
  intros Ht va Hlf. unfold vmm_temp_unmap, vmm_unmap_page. fold va. rewrite (walk_root st T D _ va Ht (or_intror eq_refl)), Hlf.
  cbn [mbind out_bind]. pose proof (leaf_shared st T D _ _ _ _ Ht 3 _ (t_kernel _ _ _ Ht) Hlf) as HT.
  destruct (put_shared st T D (vpn va) pt x 0) as (-> & Ht2 & Hlf2 & Hu); try done; [apply vpn_range|].
  cbn [returns]. split; [by apply evolves_put; [apply grown_evolves, grown_refl|]|]. split; [exact (trans_leaf _ _ _ _ _ Hlf2)|done].
Qed.

(** ** Releasing a page that is no table *)

Lemma pmm_free_spec st T D a :
  tree st T D -> T !! a = None -> pused (pages st) a -> a mod PAGE_SIZE = 0 -> a < 2 ^ 26 ->
  returns (pmm_free_page a st) (fun st' => tree st' T D /\ only_tables st st' /\
    (forall x, pused (pages st') x <-> pused (pages st) x /\ x <> a) /\ pavail (pages st') = pavail (pages st) + 1 /\
    forall r n, root st D r -> 0 <= n < 2 ^ 36 -> trans st' r n = trans st r n).
Proof.
  intros Ht Ha Hu Hal Hlow. unfold pmm_free_page. eapply returns_bind; [by apply pfree_spec; [apply (t_pwf _ _ _ Ht)|apply (t_plow _ _ _ Ht)|..]|].
  intros p (Hwf & Hpl & Hav & Hp). cbn [returns]. set (st' := set_tabs _ _).
  assert (forall b, b <> a -> tabs st' !! b = tabs st !! b) as Htb by (intros b Hb; unfold st'; simpl; by apply lookup_delete_ne).
  assert (forall b tg j, T !! b = Some tg -> ent st' b j = ent st b j) as Hent.
  { intros b tg j Hb. unfold ent, tab. rewrite Htb; [done|]. intros ->. congruence. }
  split; [|split; [by destruct st|split; [done|split; [done|]]]].
  - split.
    + intros b tg Hb. destruct (t_tab _ _ _ Ht b tg Hb) as (Htab & Hub & Hr). assert (b <> a) by congruence.
      rewrite Htb by done. split; [done|]. split; [by apply Hp|done].
    + intros b tg i e Hb. rewrite (Hent b tg i Hb). intros He. apply (entry_ok_mono st T); [done..| |by eapply (t_ent _ _ _ Ht)].
      intros _ c j [-> | ->] Hc; [by rewrite (Hent _ (Shared 3)) by apply (t_kernel _ _ _ Ht)|by rewrite (Hent _ (Shared 2)) by apply (t_low _ _ _ Ht)].
    + apply (t_dir _ _ _ Ht).
    + intros d Hd. destruct (t_high _ _ _ Ht d Hd) as (e & H1 & H2 & H3). exists e. change (kernel_pml4 st') with (kernel_pml4 st).
      by rewrite (Hent d _ 511 (t_dir _ _ _ Ht d Hd)), (Hent _ _ 511 (t_kernel _ _ _ Ht)).
    + apply (t_kernel _ _ _ Ht).
    + apply (t_low _ _ _ Ht).
    + done.
    + done.
  - intros r n Hr Hn. destruct (root_tag st T D r n Ht Hr Hn) as (tg & HT & Hl & _). unfold trans. by eapply (tr_agree st T D).
Qed.

(** ** Breaking copy on write *)

(** Everything but the tables, the allocator and the frames. *)
Definition only_mem st st' : Prop := st' = set_frames (frames st') (set_tabs (tabs st') (set_pages (pages st') st)).

Record reaches st T st' T' D : Prop := {
  rc_tree : tree st' T' D;
  rc_sub : T ⊆ T';
  rc_only : only_mem st st';
  rc_used x : pused (pages st) x -> pused (pages st') x;
  rc_new x tg : T' !! x = Some tg -> T !! x = None -> ~ pused (pages st) x;
}.

Lemma evolves_reaches st T st' T' D : evolves st T st' T' D -> reaches st T st' T' D.
Proof. intros [t s o u n _]. split; try done. unfold only_mem, only_tables in *. rewrite o. by destruct st. Qed.

Lemma reaches_refl st T D : tree st T D -> reaches st T st T D.
Proof. intros Ht. by apply evolves_reaches, grown_evolves, grown_refl. Qed.

Lemma reaches_trans st T st1 T1 st2 T2 D : reaches st T st1 T1 D -> reaches st1 T1 st2 T2 D -> reaches st T st2 T2 D.
Proof.
  intros [t1 s1 o1 u1 n1] [t2 s2 o2 u2 n2]. split; [done|by etrans| |auto|].
  - unfold only_mem in *. rewrite o2. rewrite o1. by destruct st.
  - intros x tg H2 H0. destruct (T1 !! x) as [tg1|] eqn:H1; [by eapply n1|]. intros Hu. by apply (n2 x tg H2 H1), u1.
Qed.

(** The flags after a break. *)
Definition cow_flags (g : Z) : Z := Z.lor (Z.land g (Z.lnot (Z.lor VMM_WRITABLE VMM_COW))) VMM_WRITABLE.

Definition broken_pte (new_phys e : Z) : Z :=
  Z.lor (Z.lor (Z.land new_phys (Z.lnot 0xFFF)) (Z.land (Z.land e 0xFFF) (Z.lnot (Z.lor VMM_WRITABLE VMM_COW)))) VMM_WRITABLE.

Lemma broken_pte_eq p e : broken_pte p e = map_pte p (cow_flags (Z.land e 0xFFF)).
Proof. unfold broken_pte, map_pte, cow_flags. by rewrite Z.lor_assoc. Qed.

Lemma cow_flags_bit g k : 0 <= k -> Z.testbit (cow_flags g) k = (k =? 1) || negb (k =? 9) && Z.testbit g k.
Proof.
  intros Hk. unfold cow_flags. change VMM_WRITABLE with (2 ^ 1). change VMM_COW with (2 ^ 9).
  rewrite Z.lor_spec, Z.land_spec, Z.lnot_spec, Z.lor_spec, !Z.pow2_bits_eqb, (Z.eqb_sym 1), (Z.eqb_sym 9) by lia.
  destruct (k =? 1), (k =? 9), (Z.testbit g k); done.
Qed.

Lemma broken_pte_spec p e : p mod PAGE_SIZE = 0 -> 0 <= p < 2 ^ 52 -> has e PTE_HUGE = false ->
  addr (broken_pte p e) = p /\ fl (broken_pte p e) = cow_flags (fl e) /\ has (broken_pte p e) VMM_PRESENT = has e VMM_PRESENT /\
  has (broken_pte p e) PTE_HUGE = false /\ has (cow_flags (fl e)) VMM_USER = has (fl e) VMM_USER.
Proof.
  intros Hal Hr Hh. rewrite broken_pte_eq. rewrite has_huge in Hh.
  assert (forall k, 0 <= k < 12 -> Z.testbit (map_pte p (cow_flags (Z.land e 0xFFF))) k = Z.testbit (cow_flags e) k) as Hb.
  { intros k Hk. rewrite map_pte_bit, !cow_flags_bit, Z.land_spec, low12_testbit by lia.
    by rewrite (proj2 (Z.ltb_lt k 12)), andb_true_r by lia. }
  assert (forall k, 12 <= k -> Z.testbit (cow_flags (Z.land e 0xFFF)) k = false) as Hhi.
  { intros k Hk. rewrite cow_flags_bit, Z.land_spec, low12_testbit by lia. zcmp. by rewrite andb_false_r. }
  split; [|split; [|split; [|split]]].
  - rewrite map_pte_addr.
    + pose proof (addr_pte p 0 Hr Hal eq_refl) as H0. by rewrite Z.lor_0_r in H0.
    + apply Z.bits_inj'. intros k Hk. rewrite Z.land_spec, mask_testbit, Z.bits_0 by lia. destruct (Z.leb_spec 12 k); [by rewrite Hhi|apply andb_false_r].
  - apply Z.bits_inj'. intros k Hk. rewrite fl_bit, cow_flags_bit, fl_bit by lia.
    destruct (Z.ltb_spec k 12) as [H12|H12]; cbn [andb].
    + rewrite Hb, cow_flags_bit by lia. destruct (Z.eqb_spec k 7) as [->|]; [done|]. destruct (k =? 1), (k =? 9), (Z.testbit e k); done.
    + rewrite andb_false_r, orb_false_r. zcmp. done.
  - by rewrite !has_present, Hb, cow_flags_bit by lia.
  - by rewrite has_huge, Hb, cow_flags_bit, Hh by lia.
  - by rewrite !has_user, cow_flags_bit by lia.
Qed.

Lemma utrans_leaf st T D d n f g :
  tree st T D -> d ∈ D -> 0 <= n < 2 ^ 36 -> utrans st d n = Some (f, g) ->
  exists pt e, leaf 3 st d n = Some (0%nat, pt, e) /\ T !! pt = Some (Priv d 0 (above 0 n)) /\
    has e VMM_PRESENT = true /\ has e VMM_USER = true /\ has e PTE_HUGE = false /\ f = addr e /\ g = fl e.
Proof.
  intros Ht Hd Hn. unfold utrans, trans, tr. destruct (leaf 3 st d n) as [[[m b] e]|] eqn:Hlf; [|done]. simpl.
  destruct (has e VMM_PRESENT) eqn:Hp; [|done]. simpl. destruct (has_fl e) as (_ & _ & Hu & _). rewrite Hu.
  destruct (has e VMM_USER) eqn:Hus; [|done]. intros [= <- <-].
  destruct (user_leaf st T D d n m b e Ht Hd Hn Hlf Hp Hus) as (-> & HT & Hh). exists b, e. repeat (split; [done|]).
  split; [|done]. unfold frame_of. lia.
Qed.

Lemma utrans_pte st d n pt x : leaf 3 st d n = Some (0%nat, pt, x) -> utrans st d n = usr (pte_trans x).
Proof. intros Hlf. unfold utrans. by rewrite (trans_leaf _ _ _ _ _ Hlf). Qed.

Lemma vpn_base va : vpn (page_base va) = vpn va.
Proof.
  unfold vpn, page_base. change 0xFFF with (2 ^ 12 - 1). rewrite land_lnot_ones by lia. unfold PAGE_SIZE. change 4096 with (2 ^ 12).
  by rewrite (Z.mul_comm (2 ^ 12)), Z.div_mul by lia.
Qed.

Lemma addr_idem x : addr (addr x) = addr x.
Proof. unfold addr. by rewrite <- Z.land_assoc, Z.land_diag. Qed.

(** What the processor finds at a page of the last level. *)
Lemma mmu_entry_leaf st T D r va pt e :
  tree st T D -> root st D r -> leaf 3 st r (vpn va) = Some (0%nat, pt, e) -> has e VMM_PRESENT = true -> mmu_entry r va st = Ret (Some e).
Proof.
  intros Ht Hr Hlf Hp. unfold mmu_entry.
  rewrite (walk_entry st T D r va (Ret None) (fun e => Ret (if has e VMM_PRESENT then Some e else None)) Ht Hr), Hlf. by rewrite Hp.
Qed.

(** The outcomes of a break on the user page [n] of [d], mapped with
    flags [g]: nothing to do, no memory, or a private copy. *)
Definition cow_post st T D d n g bytes (rc : Z) st' : Prop :=
  has g VMM_COW = false /\ rc = 0 /\ st' = st \/
  has g VMM_COW = true /\ exists T', reaches st T st' T' D /\
    (rc = 0 /\ frames st' = frames st /\ (slot_free st -> pavail (pages st') <= 1 /\ slot_free st') /\ (forall r m, r ∈ D -> 0 <= m < 2 ^ 36 -> utrans st' r m = utrans st r m) \/
     rc = 1 /\ slot_free st' /\ exists f', ~ pused (pages st) f' /\ pused (pages st') f' /\ T' !! f' = None /\
       frames st' = <[f' := bytes]> (frames st) /\ utrans st' d n = Some (f', cow_flags g) /\
       forall r m, r ∈ D -> 0 <= m < 2 ^ 36 -> (r, m) <> (d, n) -> utrans st' r m = utrans st r m).

(** The new page is mapped and filled. *)
Lemma cow_copy st T D d virt pt e new va f bytes tpt tx :
  tree st T D -> d ∈ D -> getz (current_pml4 st) (cpu_id st) = Some d -> 0 <= cpu_id st ->
  leaf 3 st d (vpn virt) = Some (0%nat, pt, e) -> T !! pt = Some (Priv d 0 (above 0 (vpn virt))) ->
  has e VMM_PRESENT = true -> has e VMM_USER = true -> has e PTE_HUGE = false -> f = addr e -> frames st !! f = Some bytes ->
  0 < new < 2 ^ 52 -> new mod PAGE_SIZE = 0 ->
  va = temp_vaddr_for (cpu_id st) -> leaf 3 st (kernel_pml4 st) (vpn va) = Some (0%nat, tpt, tx) ->
  has tx VMM_PRESENT = true -> has tx PTE_HUGE = false -> addr tx = f ->
  returns (e ← entry pt (digit 0 (vpn virt)) st;
           st ← set_entry pt (digit 0 (vpn virt)) (broken_pte new e) st;
           cur ← vmm_get_current_directory st;
           st ← memcpy_page cur (page_base virt) va st;
           st ← vmm_temp_unmap st;
           Ret (1, st)) (fun '(rc, st') => rc = 1 /\ reaches st T st' T D /\ slot_free st' /\
    frames st' = <[new := bytes]> (frames st) /\ utrans st' d (vpn virt) = Some (new, cow_flags (fl e)) /\
    forall r m, r ∈ D -> 0 <= m < 2 ^ 36 -> (r, m) <> (d, vpn virt) -> utrans st' r m = utrans st r m).
Proof.
  intros Ht Hd Hcur Hcpu Hlf HT Hp Hu Hh Hf Hby Hnew Hal Hva Htl Htp Hth Hta.
  destruct (leaf_level st T D _ Ht 3 d _ _ _ _ (t_dir _ _ _ Ht d Hd) eq_refl Hlf) as (_ & _ & _ & He).
  rewrite (entry_ent _ _ _ _ He). cbn [mbind out_bind].
  destruct (broken_pte_spec new e Hal ltac:(lia) Hh) as (Hba & Hbf & Hbp & Hbh & Hbu). set (x := broken_pte new e) in *.
  destruct (put_private st T D d (vpn virt) pt _ e x Ht Hd (vpn_range _) HT Hlf Hbh) as (Hset & Ht1 & Hlf1 & Hoth).
  rewrite Hset. set (st1 := put pt _ x st) in *. cbn [mbind out_bind].
  unfold vmm_get_current_directory. change (current_pml4 st1) with (current_pml4 st). change (cpu_id st1) with (cpu_id st).
  rewrite (rd_getz _ _ _ Hcur). cbn [mbind out_bind].
  assert (leaf 3 st1 (kernel_pml4 st1) (vpn va) = Some (0%nat, tpt, tx)) as Htl1.
  { rewrite <- Htl. apply Hoth; [by right|apply vpn_range|]. intros [= E _]. by apply (dir_not_kernel st T D d Ht Hd). }
  destruct (temp_vaddr (cpu_id st) Hcpu) as [Hhigh _]. rewrite <- Hva in Hhigh.
  unfold memcpy_page. rewrite (mmu_entry_leaf st1 T D d (page_base virt) pt x); [|done|by left|by rewrite vpn_base|by rewrite Hbp].
  cbn [mbind out_bind].
  rewrite (mmu_entry_leaf st1 T D d va tpt tx); [|done|by left|by rewrite (leaf_high st1 T D d _ Ht1 Hd Hhigh)|done].
  cbn [mbind out_bind]. unfold mmu_frame. fold (addr tx) (addr x). rewrite Hth, Hbh, Hta. cbn [fst].
  change (frames st1) with (frames st). rewrite Hby. cbn [deref mbind out_bind]. rewrite Hba.
  set (st2 := set_frames _ st1).
  assert (tree st2 T D) as Ht2 by (destruct Ht1; by split).
  eapply returns_bind; [apply (vmm_temp_unmap_spec st2 T D tpt tx Ht2); change (cpu_id st2) with (cpu_id st); by rewrite <- Hva|].
  intros st3 (Hev & Hsl & Hut). cbn [returns]. split; [done|]. destruct (only_fields _ _ (ev_only _ _ _ _ _ Hev)) as (Hfr & _).
  split; [|split; [done|split; [done|split]]].
  - destruct Hev as [t s o u nw _]. split; try done. unfold only_mem, only_tables in *. rewrite o. by destruct st.
  - rewrite Hut by (by left || apply vpn_range). change (utrans st2) with (utrans st1). rewrite (utrans_pte _ _ _ _ _ Hlf1).
    unfold pte_trans. rewrite Hbp, Hp, Hba, Hbf. simpl. destruct (has_fl e) as (_ & _ & Hfu & _). by rewrite Hbu, Hfu, Hu.
  - intros r m Hr Hm Hne. rewrite Hut by (by left || done). change (utrans st2 r m) with (utrans st1 r m). unfold utrans.
    rewrite (trans_same st st1); [done|]. apply Hoth; [by left|done|done].
Qed.

Lemma vmm_cow_break_spec st T D d virt f g bytes :
  tree st T D -> d ∈ D -> getz (current_pml4 st) (cpu_id st) = Some d ->
  utrans st d (vpn virt) = Some (f, g) -> frames st !! f = Some bytes ->
  returns (vmm_cow_break d virt st) (fun '(rc, st') => cow_post st T D d (vpn virt) g bytes rc st').
Proof.
  intros Ht Hd Hcur Hut Hby. pose proof (getz_Some_lt _ _ _ Hcur) as [Hcpu _].
  destruct (utrans_leaf st T D d _ f g Ht Hd (vpn_range _) Hut) as (pt & e & Hlf & HT & Hp & Hu & Hh & Hf & ->).
  destruct (leaf_level st T D _ Ht 3 d _ _ _ _ (t_dir _ _ _ Ht d Hd) eq_refl Hlf) as (_ & _ & _ & He).
  destruct (has_fl e) as (_ & _ & _ & Hc). unfold vmm_cow_break, cow_post. rewrite Hc.
  rewrite (walk_root st T D d virt Ht (or_introl Hd)), Hlf. cbn [mbind out_bind]. rewrite (entry_ent _ _ _ _ He). cbn [mbind out_bind].
  rewrite Hp. cbn [negb]. destruct (has e VMM_COW) eqn:Hcow; cbn [negb]; [|cbn; by left].
  eapply returns_bind; [by apply (pmm_alloc_spec st T D)|]. intros [new st1] (p & -> & Hg1 & Hnew). pose proof (g_tree _ _ _ _ _ Hg1) as Ht1.
  destruct Hnew as [[-> Hz]|(Hn & Hal & HTn & Hnu & Hnp)].
  { cbn. right. split; [done|]. exists T. split; [by apply evolves_reaches, grown_evolves|]. left. split; [done|]. split; [done|]. split; [|done]. intros Hsl. split; [simpl; lia|].
    unfold slot_free in *. rewrite <- Hsl. apply (grown_trans_same st T (set_pages p st) T D); [done|done|by right|apply vpn_range]. }
  rewrite (proj2 (Z.eqb_neq new 0)) by lia. fold (addr e).
  eapply returns_bind; [apply (vmm_temp_map_spec (set_pages p st) T D (addr e) Ht1 Hcpu)|].
  intros [va st2] (T2 & Hev2 & Hkp & Hut2 & Hva). pose proof (ev_tree _ _ _ _ _ Hev2) as Ht2.
  pose proof (evolves_trans _ _ _ _ _ _ _ (grown_evolves _ _ _ _ _ Hg1) Hev2) as Hev02.
  destruct (only_fields _ _ (ev_only _ _ _ _ _ Hev2)) as (Hfr2 & Hk2 & _ & Hc2 & Hcpu2 & _). simpl in Hfr2, Hk2, Hc2, Hcpu2.
  assert (T2 !! new = None) as HTn2.
  { destruct (T2 !! new) as [tg|] eqn:E; [|done]. exfalso. by apply (ev_new _ _ _ _ _ Hev2 new tg E HTn). }
  assert (pused (pages st2) new) as Hnu2 by (by apply (ev_used _ _ _ _ _ Hev2)).
  destruct Hva as [[-> Hz]|(Hva & tpt & tx & Htl & Htp & Hth & Hta)].
  - cbn [Z.eqb]. eapply returns_bind; [apply (pmm_free_spec st2 T2 D new); [done..|lia]|]. intros st3 (Ht3 & Ho3 & Hus3 & Hav3 & Htr3). cbn [returns].
    right. split; [done|]. exists T2. destruct (only_fields _ _ Ho3) as (Hfr3 & _). split.
    + split; [done|apply Hev02| | |apply Hev02].
      * unfold only_mem, only_tables in *. rewrite Ho3, (ev_only _ _ _ _ _ Hev02). by destruct st.
      * intros x Hx. apply Hus3. split; [by apply (ev_used _ _ _ _ _ Hev02)|]. congruence.
    + left. split; [done|]. split; [congruence|]. split.
      { intros Hsl. destruct Hz as [Hz Hsl2]; [unfold slot_free in *; rewrite <- Hsl; apply (grown_trans_same st T (set_pages p st) T D); [done|done|by right|apply vpn_range]|].
        split; [lia|]. unfold slot_free in *. destruct (only_fields _ _ Ho3) as (_ & -> & _ & _ & -> & _). rewrite Htr3 by (by right || apply vpn_range). done. }
      intros r m Hr Hm. unfold utrans at 1. rewrite Htr3 by (by left || done).
      by apply Hut2; [left|].
  - rewrite (proj2 (Z.eqb_neq va 0)) by (rewrite Hva; by apply temp_vaddr).
    assert (leaf 3 st2 d (vpn virt) = Some (0%nat, pt, e)) as Hlf2 by (by eapply Hkp).
    eapply returns_mono.
    + apply (cow_copy st2 T2 D d virt pt e new va f bytes tpt tx); try done; try congruence; try lia.
      * by eapply lookup_weaken; [|apply Hev2].
      * by rewrite Hcpu2.
      * by rewrite Hk2.
      * rewrite Hta, addr_idem. done.
    + intros [rc st3] (-> & Hre & Hsl3 & Hfr3 & Hutd & Hoth). right. split; [done|]. exists T2.
      split; [by eapply reaches_trans; [apply evolves_reaches|]|]. right. split; [done|]. split; [done|]. exists new.
      split; [done|]. split; [by apply (rc_used _ _ _ _ _ Hre)|]. split; [done|]. split; [congruence|]. split; [done|].
      intros r m Hr Hm Hne. rewrite Hoth by done. by apply Hut2; [left|].
Qed.

(** ** The memory of the address spaces *)

Record mem_ok st T D : Prop := {
  m_frame d n f g : d ∈ D -> 0 <= n < 2 ^ 36 -> utrans st d n = Some (f, g) ->
    (exists bytes, frames st !! f = Some bytes /\ length bytes = 4096%nat) /\ T !! f = None /\ pused (pages st) f;
  m_excl d n d' n' f g g' : d ∈ D -> d' ∈ D -> 0 <= n < 2 ^ 36 -> 0 <= n' < 2 ^ 36 -> (d, n) <> (d', n') ->
    utrans st d n = Some (f, g) -> utrans st d' n' = Some (f, g') -> has g VMM_WRITABLE = false;
}.

(** Page tables and user memory are consistent. *)
Definition wf st D : Prop := exists T, tree st T D /\ mem_ok st T D.

(** Same user pages and bytes: same memory. *)
Lemma mem_ok_same st T st' T' D :
  mem_ok st T D -> reaches st T st' T' D -> frames st' = frames st ->
  (forall r m, r ∈ D -> 0 <= m < 2 ^ 36 -> utrans st' r m = utrans st r m) ->
  mem_ok st' T' D /\ forall r va, r ∈ D -> vmem st' r va = vmem st r va.
Proof.
  intros [Hfr Hex] Hre Hf Hu. split; [split|].
  - intros d n f g Hd Hn. rewrite Hu by done. intros H. destruct (Hfr d n f g Hd Hn H) as (Hb & HT & Hp). rewrite Hf.
    split; [done|]. split; [|by apply (rc_used _ _ _ _ _ Hre)].
    destruct (T' !! f) as [tg|] eqn:E; [|done]. exfalso. by apply (rc_new _ _ _ _ _ Hre f tg E HT).
  - intros d n d' n' f g g' Hd Hd' Hn Hn' Hne. rewrite !Hu by done. by apply Hex.
  - intros r va Hr. unfold vmem. rewrite Hf, Hu; [done|done|apply vpn_range].
Qed.

(** A private copy keeps the memory of all address spaces. *)
Lemma mem_ok_copy st T st' T' D d n f g f' bytes :
  mem_ok st T D -> reaches st T st' T' D -> d ∈ D -> 0 <= n < 2 ^ 36 ->
  utrans st d n = Some (f, g) -> frames st !! f = Some bytes ->
  ~ pused (pages st) f' -> pused (pages st') f' -> T' !! f' = None ->
  frames st' = <[f' := bytes]> (frames st) -> (exists g', utrans st' d n = Some (f', g')) ->
  (forall r m, r ∈ D -> 0 <= m < 2 ^ 36 -> (r, m) <> (d, n) -> utrans st' r m = utrans st r m) ->
  mem_ok st' T' D /\ forall r va, r ∈ D -> vmem st' r va = vmem st r va.
Proof.
  intros [Hfr Hex] Hre Hd Hn Hut Hby Hnu Hpu HT Hf [g' Hut'] Hoth.
  assert (forall r m x y, r ∈ D -> 0 <= m < 2 ^ 36 -> utrans st r m = Some (x, y) -> x <> f') as Hne.
  { intros r m x y Hr Hm H ->. by destruct (Hfr r m f' y Hr Hm H) as (_ & _ & ?). }
  split; [split|].
  - intros r m x y Hr Hm H. destruct (decide ((r, m) = (d, n))) as [[= -> ->]|Hrm].
    + rewrite Hut' in H. injection H as <- <-. rewrite Hf, lookup_insert_eq. split; [|done]. exists bytes. split; [done|].
      destruct (Hfr d n f g Hd Hn Hut) as ((by' & Hby' & Hlen) & _). congruence.
    + rewrite Hoth in H by done. destruct (Hfr r m x y Hr Hm H) as (Hb & HTx & Hp).
      rewrite Hf, lookup_insert_ne by (intros ->; by apply (Hne r m x y)). split; [done|]. split; [|by apply (rc_used _ _ _ _ _ Hre)].
      destruct (T' !! x) as [tg|] eqn:E; [|done]. exfalso. by apply (rc_new _ _ _ _ _ Hre x tg E HTx).
  - intros r m r' m' x y y' Hr Hr' Hm Hm' Hrm H H'.
    destruct (decide ((r, m) = (d, n))) as [[= -> ->]|H1]; [|destruct (decide ((r', m') = (d, n))) as [[= -> ->]|H2]].
    + rewrite Hut' in H. injection H as <- <-. rewrite (Hoth r' m') in H' by congruence. by apply Hne in H'.
    + rewrite Hut' in H'. injection H' as <- <-. rewrite (Hoth r m) in H by done. by apply Hne in H.
    + rewrite (Hoth r m) in H by done. rewrite (Hoth r' m') in H' by done. by eapply (Hex r m r' m').
  - intros r va Hr. unfold vmem. destruct (decide ((r, vpn va) = (d, n))) as [[= -> <-]|Hrm].
    + rewrite Hut', Hut. cbn [mbind option_bind]. by rewrite Hf, lookup_insert_eq, Hby.
    + rewrite Hoth by (done || apply vpn_range). destruct (utrans st r (vpn va)) as [[x y]|] eqn:E; [|done]. cbn [mbind option_bind].
      rewrite Hf, lookup_insert_ne; [done|]. intros ->. by apply (Hne r (vpn va) x y Hr (vpn_range _) E).
Qed.
End cow.
