(* ===== verification/VmmCopy.v ===== *)
(** * Copies from and to user memory

    [copy_to_user] and [copy_from_user] on a consistent memory: the bytes they
    move, what they leave alone, and when they succeed. *)

From stdpp Require Import base numbers list gmap sets.
From Stdlib Require Import ZArith Lia.
From S2P Require Import Prelude Vmm VmmTree VmmMap VmmCow.

#[local] Open Scope Z_scope.

Section copy.
Context {P : Type} `{!Pages P, !PagesLaws P}.
Implicit Types (st : vst (P := P)) (T : gmap Z tag) (D : gset Z).

(** ** What a copy may change *)

Definition user_va (va : Z) : Prop := 0 <= va < USER_STACK_TOP.

Lemma user_va_split va : user_va va -> va = vpn va * PAGE_SIZE + va mod PAGE_SIZE.
Proof.
  unfold user_va, vpn, USER_STACK_TOP, PAGE_SIZE. intros H. rewrite (Z.mod_small (va / 4096)).
  - pose proof (Z.div_mod va 4096). lia.
  - split; [apply Z.div_pos; lia|apply Z.div_lt_upper_bound; lia].
Qed.

(** The page may be written, possibly after a break. *)
Definition uwrite st d n : bool :=
  match utrans st d n with Some (_, g) => has g VMM_WRITABLE || has g VMM_COW | None => false end.
Definition uwritable st d n : bool := match utrans st d n with Some (_, g) => has g VMM_WRITABLE | None => false end.
Definition umapped st d n : bool := match utrans st d n with Some _ => true | None => false end.

(** The processor and the address space it runs. *)
Record runs_in st D (d : Z) : Prop := {
  ri_dir : d ∈ D;
  ri_cur : getz (current_pml4 st) (cpu_id st) = Some d;
}.

(** A page in use that is not a user page: the kernel's memory. *)
Definition spare st D (x : Z) : Prop :=
  pused (pages st) x /\ forall r n g, r ∈ D -> 0 <= n < 2 ^ 36 -> utrans st r n <> Some (x, g).

Record advances D d st st' : Prop := {
  ad_wf : wf st' D;
  ad_run : runs_in st' D d;
  ad_wp : cr0_wp st' = cr0_wp st;
  ad_slot : slot_free st -> slot_free st';
  ad_spare x : spare st D x -> spare st' D x /\ frames st' !! x = frames st !! x;
  ad_mapped n : 0 <= n < 2 ^ 36 -> umapped st' d n = umapped st d n /\ uwrite st' d n = uwrite st d n /\
    (uwritable st d n = true -> uwritable st' d n = true);
}.

Lemma advances_refl D d st : wf st D -> runs_in st D d -> advances D d st st.
Proof. by split. Qed.

Lemma advances_trans D d st st1 st2 : advances D d st st1 -> advances D d st1 st2 -> advances D d st st2.
Proof.
  intros [w1 r1 p1 l1 s1 m1] [w2 r2 p2 l2 s2 m2]. split; [done|done|congruence|auto| |].
  - intros x Hx. destruct (s1 x Hx) as [H1 E1]. destruct (s2 x H1) as [H2 E2]. split; [done|congruence].
  - intros n Hn. destruct (m1 n Hn) as (a1 & b1 & c1), (m2 n Hn) as (a2 & b2 & c2). rewrite a2, b2. auto.
Qed.

(** [l] is now at [a] in the address space [d]; all other user memory is as it
    was. *)
Definition wrote D (d a : Z) (l : list Z) st st' : Prop := forall r va, r ∈ D -> user_va va ->
  vmem st' r va = if bool_decide (r = d) && (a <=? va) && (va <? a + Z.of_nat (length l)) then getz l (va - a) else vmem st r va.

Lemma wrote_nil D d a st st' : (forall r va, r ∈ D -> vmem st' r va = vmem st r va) -> wrote D d a [] st st'.
Proof.
  intros H r va Hr Hv. rewrite H by done. cbn [length Z.of_nat]. rewrite Z.add_0_r.
  destruct (bool_decide (r = d)), (Z.leb_spec a va), (Z.ltb_spec va a); done || (exfalso; lia).
Qed.

Lemma wrote_app D d a l1 l2 st st1 st2 :
  wrote D d a l1 st st1 -> wrote D d (a + Z.of_nat (length l1)) l2 st1 st2 -> wrote D d a (l1 ++ l2) st st2.
Proof.
  intros H1 H2 r va Hr Hv. rewrite (H2 r va Hr Hv), (H1 r va Hr Hv), length_app, Nat2Z.inj_add.
  destruct (bool_decide (r = d)); [|done]. cbn [andb].
  destruct (Z.leb_spec a va) as [Ha|Ha].
  - destruct (Z.ltb_spec va (a + Z.of_nat (length l1))) as [Hl1|Hl1].
    + zcmp. symmetry. apply getz_app_l. lia.
    + destruct (Z.ltb_spec va (a + Z.of_nat (length l1) + Z.of_nat (length l2))) as [Hl2|Hl2]; zcmp; [|done].
      rewrite getz_app_r by lia. f_equal. lia.
  - zcmp. done.
Qed.

(** ** One byte *)

(** The state after a byte is stored in a frame. *)
Definition store (f off b : Z) st : vst := set_frames (alter (fun l => <[Z.to_nat off := b]> l) f (frames st)) st.

Lemma store_spec st D d va b f g :
  wf st D -> runs_in st D d -> user_va va -> utrans st d (vpn va) = Some (f, g) -> has g VMM_WRITABLE = true ->
  let st' := store f (va mod PAGE_SIZE) b st in
  mmu_store d va b st = Ret (Some st') /\ advances D d st st' /\ wrote D d va [b] st st'.
Proof.
  intros (T & Ht & Hm) Hrun Hva Hut Hw st'. pose proof (ri_dir _ _ _ Hrun) as Hd.
  destruct (utrans_leaf st T D d _ f g Ht Hd (vpn_range _) Hut) as (pt & e & Hlf & HT & Hp & Hu & Hh & Hf & Hg).
  destruct (m_frame _ _ _ Hm d _ f g Hd (vpn_range _) Hut) as ((bytes & Hby & Hlen) & HTf & Hpf).
  pose proof (Z.mod_pos_bound va PAGE_SIZE ltac:(done)) as Hoff.
  assert (forall r n, utrans st' r n = utrans st r n) as Hsame by done.
  assert (frames st' = <[f := <[Z.to_nat (va mod PAGE_SIZE) := b]> bytes]> (frames st)) as Hfr.
  { unfold st', store. simpl. apply map_eq. intros x. destruct (decide (f = x)) as [->|Hx].
    - by rewrite lookup_alter_eq, lookup_insert_eq, Hby.
    - by rewrite lookup_alter_ne, lookup_insert_ne. }
  split; [|split].
  - unfold mmu_store. rewrite (mmu_entry_leaf st T D d va pt e Ht (or_introl Hd) Hlf Hp). cbn [mbind out_bind].
    destruct (has_fl e) as (_ & Hfw & _). rewrite <- Hfw, <- Hg, Hw. cbn [orb]. unfold mmu_frame. rewrite Hh. fold (addr e). rewrite <- Hf.
    rewrite Hby. cbn [deref mbind out_bind]. rewrite wr_ok by (rewrite Hlen; unfold PAGE_SIZE in *; lia). cbn [mbind out_bind].
    do 2 f_equal. unfold st', store, set_frames. simpl. f_equal. symmetry. exact Hfr.
  - split; [|by destruct Hrun|done|done|..].
    + exists T. split; [by destruct Ht|]. destruct Hm as [Hfm Hex]. split; [|exact Hex].
      intros r n x y Hr Hn H. destruct (Hfm r n x y Hr Hn H) as ((by' & Hby' & Hlen') & ? & ?). split; [|done].
      rewrite Hfr. destruct (decide (x = f)) as [->|]; [rewrite lookup_insert_eq|rewrite lookup_insert_ne by done; by exists by'].
      eexists. split; [done|]. by rewrite length_insert.
    + intros x [Hxp Hx]. split; [done|]. rewrite Hfr, lookup_insert_ne; [done|]. intros ->. by apply (Hx d (vpn va) g Hd (vpn_range _)).
    + done.
  - intros r va' Hr Hva'. unfold vmem. rewrite Hsame. change (Z.of_nat (length [b])) with 1.
    destruct (utrans st r (vpn va')) as [[x y]|] eqn:E; cbn [mbind option_bind].
    2:{ destruct (bool_decide_reflect (r = d)) as [->|]; [|done]. cbn [andb]. destruct (Z.leb_spec va va'), (Z.ltb_spec va' (va + 1)); try done.
        replace va' with va in E by lia. congruence. }
    rewrite Hfr. destruct (decide (x = f)) as [->|Hxf].
    + assert ((r, vpn va') = (d, vpn va)) as [= -> Hv].
      { destruct (decide ((d, vpn va) = (r, vpn va'))) as [|Hne]; [done|]. 
        rewrite (m_excl _ _ _ Hm d _ r _ f g y Hd Hr (vpn_range _) (vpn_range _) Hne Hut E) in Hw. done. }
      rewrite lookup_insert_eq, Hby. cbn [mbind option_bind]. rewrite bool_decide_true by done. cbn [andb].
      pose proof (user_va_split va Hva) as Hs. pose proof (user_va_split va' Hva') as Hs'. rewrite Hv in Hs'.
      destruct (Z.leb_spec va va'), (Z.ltb_spec va' (va + 1)); cbn [andb]; try (apply getz_insert_ne; lia).
      replace va' with va by lia. rewrite Z.sub_diag. apply getz_insert_eq. rewrite Hlen. unfold PAGE_SIZE in *. lia.
    + rewrite lookup_insert_ne by done. destruct (bool_decide_reflect (r = d)) as [->|]; [|done]. cbn [andb].
      destruct (Z.leb_spec va va'), (Z.ltb_spec va' (va + 1)); try done. replace va' with va in E by lia. congruence.
Qed.

Lemma cow_flags_writable g : has (cow_flags g) VMM_WRITABLE = true.
Proof. by rewrite has_writable, cow_flags_bit by lia. Qed.

Lemma runs_only st st' D d : only_mem st st' -> runs_in st D d -> runs_in st' D d.
Proof. unfold only_mem. intros -> [H1 H2]. by split. Qed.

Lemma cow_advances st D d va f g :
  wf st D -> runs_in st D d -> utrans st d (vpn va) = Some (f, g) ->
  returns (vmm_cow_break d va st) (fun '(rc, st') => advances D d st st' /\
    (forall r va', r ∈ D -> vmem st' r va' = vmem st r va') /\ thread_fault st' = thread_fault st /\
    (rc = 0 /\ (has g VMM_COW = true -> slot_free st -> pavail (pages st') <= 1) \/ rc = 1 /\ exists f' g', utrans st' d (vpn va) = Some (f', g') /\ has g' VMM_WRITABLE = true)).
Proof.
  intros (T & Ht & Hm) Hrun Hut. pose proof (ri_dir _ _ _ Hrun) as Hd.
  destruct (m_frame _ _ _ Hm d _ f g Hd (vpn_range _) Hut) as ((bytes & Hby & Hlen) & _).
  eapply returns_mono; [by eapply (vmm_cow_break_spec st T D d va f g bytes Ht Hd (ri_cur _ _ _ Hrun))|].
  intros [rc st'] [(Hc & -> & ->)|(Hc & T' & Hre & Hr)].
  { split; [apply advances_refl; [by exists T|done]|]. split; [done|]. split; [done|]. left. rewrite Hc. done. }
  pose proof (runs_only _ _ D d (rc_only _ _ _ _ _ Hre) Hrun) as Hrun'.
  assert (thread_fault st' = thread_fault st) as Htf by (by rewrite (rc_only _ _ _ _ _ Hre)).
  assert (cr0_wp st' = cr0_wp st) as Hwp by (by rewrite (rc_only _ _ _ _ _ Hre)).
  destruct Hr as [(-> & Hfr & Hsl & Hsame)|(-> & Hsl & f' & Hnu & Hpu & HT' & Hfr & Hut' & Hoth)].
  - destruct (mem_ok_same st T st' T' D Hm Hre Hfr Hsame) as [Hm' Hv].
    split; [|split; [done|split; [done|left; split; [done|intros _ H; by apply Hsl]]]]. split; [exists T'; split; [apply Hre|done]|done|done|..].
    + intros H. by apply Hsl.
    + intros x [Hxp Hx]. rewrite Hfr. split; [|done]. split; [by apply (rc_used _ _ _ _ _ Hre)|]. intros r n y Hr Hn. rewrite Hsame by done. by apply Hx.
    + intros n Hn. unfold umapped, uwrite, uwritable. by rewrite Hsame.
  - destruct (mem_ok_copy st T st' T' D d (vpn va) f g f' bytes Hm Hre Hd (vpn_range _) Hut Hby Hnu Hpu HT' Hfr (ex_intro _ _ Hut') Hoth) as [Hm' Hv].
    split; [|split; [done|split; [done|]]].
    + split; [exists T'; split; [apply Hre|done]|done|done|done|..].
      * intros x [Hxp Hx]. assert (x <> f') as Hxf by congruence. rewrite Hfr, lookup_insert_ne by done. split; [|done].
        split; [by apply (rc_used _ _ _ _ _ Hre)|]. intros r n y Hr Hn.
        destruct (decide ((r, n) = (d, vpn va))) as [[= -> ->]|Hne]; [rewrite Hut'; congruence|]. rewrite Hoth by done. by apply Hx.
      * intros n Hn. unfold umapped, uwrite, uwritable. destruct (decide (n = vpn va)) as [->|Hne]; [|by rewrite Hoth by (done || congruence)].
        by rewrite Hut', Hut, cow_flags_writable, Hc, orb_true_r.
    + right. split; [done|]. exists f', (cow_flags g). split; [done|apply cow_flags_writable].
Qed.

Lemma mmu_write_spec st D d va b :
  wf st D -> runs_in st D d -> cr0_wp st = true -> user_va va -> uwrite st d (vpn va) = true -> thread_fault st = Some true ->
  returns (mmu_write d va b st) (fun '(how, st') => advances D d st st' /\
    (how = Resume /\ wrote D d va [b] st st' /\ thread_fault st' = Some true \/
     how = Recover /\ uwritable st d (vpn va) = false /\ (slot_free st -> pavail (pages st') <= 1) /\ wrote D d va [] st st' /\ thread_fault st' = Some false)).
Proof.
  intros Hwf Hrun Hwp Hva Huw Htf. pose proof (ri_dir _ _ _ Hrun) as Hd. unfold uwrite in Huw.
  destruct (utrans st d (vpn va)) as [[f g]|] eqn:Hut; [|done]. unfold mmu_write.
  destruct (has g VMM_WRITABLE) eqn:Hw.
  { destruct (store_spec st D d va b f g Hwf Hrun Hva Hut Hw) as (-> & Had & Hwr). cbn. split; [done|]. by left. }
  destruct Hwf as (T & Ht & Hm).
  destruct (utrans_leaf st T D d _ f g Ht Hd (vpn_range _) Hut) as (pt & e & Hlf & HT & Hp & Hu & Hh & Hf & Hg).
  assert (mmu_store d va b st = Ret None) as ->.
  { unfold mmu_store. rewrite (mmu_entry_leaf st T D d va pt e Ht (or_introl Hd) Hlf Hp). cbn [mbind out_bind].
    destruct (has_fl e) as (_ & Hfw & _). by rewrite <- Hfw, <- Hg, Hw, Hwp. }
  cbn [mbind out_bind]. rewrite (mmu_entry_leaf st T D d va pt e Ht (or_introl Hd) Hlf Hp). cbn [mbind out_bind].
  unfold page_fault_handler, vmm_get_current_directory. rewrite (rd_getz _ _ _ (ri_cur _ _ _ Hrun)). cbn [mbind out_bind].
  change (has 3 0x1 && has 3 0x2) with true. change (has 3 0x4) with false. unfold handle_cow_fault.
  assert (wf st D) as Hwf by (by exists T). pose proof (cow_advances st D d va f g Hwf Hrun Hut) as Hcow.
  destruct (vmm_cow_break d va st) as [[rc st1]| |]; [|done..]. destruct Hcow as (Had & Hv & Htf1 & [[-> Hav]|[-> (f' & g' & Hut' & Hw')]]).
  - cbn [mbind out_bind negb Z.eqb]. unfold fault_try_recover. rewrite Htf1, Htf. cbn [returns]. split.
    + destruct Had as [w r pw l s m]. split; [|by destruct r|done|done|done|done]. destruct w as (T1 & Ht1 & Hm1). exists T1. split; [by destruct Ht1|by destruct Hm1].
    + right. split; [done|]. split; [unfold uwritable; by rewrite Hut|]. split; [by apply Hav|]. split; [by apply wrote_nil|done].
  - cbn [mbind out_bind negb Z.eqb Pos.eqb].
    destruct (store_spec st1 D d va b f' g' (ad_wf _ _ _ _ Had) (ad_run _ _ _ _ Had) Hva Hut' Hw') as (-> & Had2 & Hwr). cbn [mbind out_bind returns].
    split; [by eapply advances_trans|]. left. split; [done|]. split; [|change (thread_fault st1 = Some true); congruence].
    pose proof (wrote_app D d va [] [b] st st1 (store f' (va mod PAGE_SIZE) b st1) (wrote_nil D d va st st1 Hv)) as Happ. simpl in Happ. rewrite Z.add_0_r in Happ. by apply Happ.
Qed.

(** ** The bytes of one page *)

Lemma take_drop_cons {A} (l : list A) (i k : nat) x : l !! i = Some x -> take (S k) (drop i l) = x :: take k (drop (S i) l).
Proof. intros Hx. by rewrite (drop_S l x i Hx). Qed.

Lemma write_chunk_spec D d vaddr offset pg src : forall n i st,
  wf st D -> runs_in st D d -> cr0_wp st = true -> thread_fault st = Some true -> uwrite st d pg = true -> 0 <= pg < 2 ^ 36 ->
  (forall j, i <= j < i + Z.of_nat n -> user_va (vaddr + j) /\ vpn (vaddr + j) = pg) ->
  0 <= offset + i -> offset + i + Z.of_nat n <= Z.of_nat (length src) ->
  returns (write_chunk n d vaddr offset i src st) (fun '(r, st') => advances D d st st' /\ exists k, (k <= n)%nat /\
    wrote D d (vaddr + i) (take k (drop (Z.to_nat (offset + i)) src)) st st' /\
    (r = None /\ k = n /\ thread_fault st' = Some true \/
     r = Some (inl (-1)) /\ uwritable st d pg = false /\ (slot_free st -> pavail (pages st') <= 1) /\ thread_fault st' = Some false)).
Proof.
  induction n as [|n IH]; intros i st Hwf Hrun Hwp Htf Huw Hpg Hpage Ho Hlen; cbn [write_chunk].
  - cbn. split; [by apply advances_refl|]. exists 0%nat. split; [done|]. split; [by apply wrote_nil|]. by left.
  - destruct (getz_lt src (offset + i)) as [b Hb]; [lia|]. rewrite (rd_getz _ _ _ Hb). cbn [mbind out_bind].
    destruct (Hpage i) as [Hva Hvp]; [lia|].
    eapply returns_bind; [apply (mmu_write_spec st D d (vaddr + i) b Hwf Hrun Hwp Hva); [by rewrite Hvp|done]|].
    intros [how st1] [Had Hr]. rewrite Hvp in Hr. destruct (ad_mapped _ _ _ _ Had pg Hpg) as (_ & Huw1 & Hw1).
    apply getz_Some in Hb as [_ Hb].
    destruct Hr as [(-> & Hwr & Htf1)|(-> & Hnw & Hav & Hwr & Htf1)].
    + eapply returns_mono.
      * apply (IH (i + 1) st1); [apply Had|apply Had|by rewrite (ad_wp _ _ _ _ Had)|done|by rewrite Huw1|done| |lia|lia].
        intros j Hj. apply Hpage. lia.
      * intros [r st2] (Had2 & k & Hk & Hwr2 & Hr). split; [by eapply advances_trans|]. exists (S k). split; [lia|]. split.
        -- rewrite (take_drop_cons _ _ k b Hb). apply (wrote_app D d (vaddr + i) [b] _ st st1 st2 Hwr).
           change (Z.of_nat (length [b])) with 1. replace (S (Z.to_nat (offset + i))) with (Z.to_nat (offset + (i + 1))) by lia.
           by replace (vaddr + i + 1) with (vaddr + (i + 1)) by lia.
        -- destruct Hr as [(-> & -> & Ht)|(-> & Hn & Hav & Ht)]; [by left|right]. split; [done|].
           split; [|split; [intros H; by apply Hav, (ad_slot _ _ _ _ Had)|done]].
           destruct (uwritable st d pg) eqn:E; [|done]. by rewrite Hw1 in Hn.
    + cbn. split; [done|]. exists 0%nat. split; [lia|]. split; [done|]. by right.
Qed.

(** ** The whole range *)

Lemma set_fault_advances D d st t : wf st D -> runs_in st D d -> advances D d st (set_thread_fault t st).
Proof.
  intros (T & Ht & Hm) Hrun. split; [|by destruct Hrun|done|done|done|done]. exists T. split; [by destruct Ht|by destruct Hm].
Qed.

Lemma disarm_eq st b : thread_fault st = Some b -> copy_disarm st = set_thread_fault (Some false) st.
Proof. unfold copy_disarm. by intros ->. Qed.

(** The part of a range in one page. *)
Lemma chunk_page vaddr size offset : 0 <= offset < size -> 0 <= vaddr -> vaddr - offset + size <= USER_STACK_TOP ->
  let chunk := chunk_size vaddr size offset in
  0 < chunk <= size - offset /\ forall j, 0 <= j < chunk -> user_va (vaddr + j) /\ vpn (vaddr + j) = vpn vaddr.
Proof.
  intros Ho Hv Hs chunk. unfold chunk, chunk_size. change 0xFFF with (2 ^ 12 - 1). rewrite low_bits by lia. change (2 ^ 12) with PAGE_SIZE.
  pose proof (Z.mod_pos_bound vaddr PAGE_SIZE ltac:(done)) as Hm.
  assert (forall j, 0 <= j < PAGE_SIZE - vaddr mod PAGE_SIZE -> vpn (vaddr + j) = vpn vaddr) as Hpg.
  { intros j Hj. unfold vpn. f_equal. pose proof (Z.div_mod vaddr PAGE_SIZE ltac:(done)) as E.
    rewrite E at 1. replace (PAGE_SIZE * (vaddr / PAGE_SIZE) + vaddr mod PAGE_SIZE + j) with ((vaddr mod PAGE_SIZE + j) + (vaddr / PAGE_SIZE) * PAGE_SIZE) by lia.
    rewrite Z.div_add, Z.div_small by lia. lia. }
  destruct (Z.ltb_spec (size - offset) (PAGE_SIZE - vaddr mod PAGE_SIZE)); (split; [lia|]); intros j Hj; (split; [unfold user_va; lia|apply Hpg; lia]).
Qed.

Lemma flags_user st D d va :
  wf st D -> d ∈ D -> returns (vmm_get_page_flags d (page_base va) st) (fun g =>
    negb (has g VMM_PRESENT) || negb (has g VMM_USER) = negb (umapped st d (vpn va)) /\
    (umapped st d (vpn va) = true -> has g (Z.lor VMM_WRITABLE VMM_COW) = uwrite st d (vpn va))).
Proof.
  intros (T & Ht & _) Hd. eapply returns_mono; [by apply (vmm_get_page_flags_spec st T D d (page_base va) Ht); left|].
  intros g [Hv _]. rewrite vpn_base in Hv. unfold umapped, uwrite, utrans. destruct (trans st d (vpn va)) as [[f x]|]; simpl in Hv; simpl.
  - destruct Hv as (-> & -> & ->). simpl. by destruct (has x VMM_USER).
  - by rewrite Hv.
Qed.

Lemma uwritable_uwrite st d n : uwrite st d n = false -> uwritable st d n = false.
Proof. unfold uwrite, uwritable. destruct (utrans st d n) as [[f g]|]; [|done]. by destruct (has g VMM_WRITABLE). Qed.

Lemma umapped_uwrite st d n : umapped st d n = false -> uwrite st d n = false.
Proof. unfold uwrite, umapped. by destruct (utrans st d n). Qed.

(** How far the copy got, and why. *)
Definition copied_to D d addr size src offset (r : copy_end) st st' : Prop :=
  exists k, 0 <= k <= size - offset /\ wrote D d (addr + offset) (take (Z.to_nat k) (drop (Z.to_nat offset) src)) st st' /\
    thread_fault st' = Some false /\
    (r = inl 0 /\ k = size - offset /\ (forall va, addr + offset <= va < addr + size -> uwrite st d (vpn va) = true) \/
     r = inl (-1) /\ exists va, addr + offset <= va < addr + size /\
       (uwrite st d (vpn va) = false \/ uwritable st d (vpn va) = false /\ (slot_free st -> pavail (pages st') <= 1))).

Lemma copy_to_loop_spec D d addr size src : 0 <= addr -> addr + size <= USER_STACK_TOP -> size <= Z.of_nat (length src) ->
  forall n offset st, wf st D -> runs_in st D d -> cr0_wp st = true -> thread_fault st = Some true -> 0 <= offset <= size -> size - offset <= Z.of_nat n ->
  returns (copy_to_loop n d addr size offset src st) (fun '(r, st') => advances D d st st' /\ copied_to D d addr size src offset r st st').
Proof.
  intros Ha Htop Hlen. induction n as [|n IH]; intros offset st Hwf Hrun Hwp Htf Ho Hn;
    cbn [copy_to_loop]; (destruct (Z.leb_spec size offset) as [Hle|Hlt];
    [cbn; rewrite (disarm_eq _ _ Htf); split; [by apply set_fault_advances|]; exists 0; split; [lia|]; split; [by apply wrote_nil|];
     split; [done|]; left; split; [done|]; split; lia|]); [lia|].
  assert (addr + offset <= addr + offset < addr + size) as Hin by lia. pose proof (ri_dir _ _ _ Hrun) as Hd.
  assert (forall st', st' = set_thread_fault (Some false) st -> uwrite st d (vpn (addr + offset)) = false ->
    advances D d st st' /\ copied_to D d addr size src offset (inl (-1)) st st') as Hfail.
  { intros st' -> Hw. split; [by apply set_fault_advances|]. exists 0. split; [lia|]. split; [by apply wrote_nil|]. split; [done|].
    right. split; [done|]. exists (addr + offset). split; [done|by left]. }
  eapply returns_bind; [by apply (flags_user st D d (addr + offset))|]. intros g [Hg1 Hg2]. rewrite Hg1.
  destruct (umapped st d (vpn (addr + offset))) eqn:Hum; cbn [negb].
  2:{ cbn [returns]. rewrite (disarm_eq _ _ Htf). by apply Hfail; [|apply umapped_uwrite]. }
  rewrite Hg2 by done. destruct (uwrite st d (vpn (addr + offset))) eqn:Huw; cbn [negb].
  2:{ cbn [returns]. rewrite (disarm_eq _ _ Htf). by apply Hfail. }
  destruct (chunk_page (addr + offset) size offset) as [Hc Hpg]; [lia..|]. set (chunk := chunk_size (addr + offset) size offset) in *.
  eapply returns_bind; [apply (write_chunk_spec D d (addr + offset) offset (vpn (addr + offset)) src (Z.to_nat chunk) 0 st); try done; try lia; [apply vpn_range|]|].
  { intros j Hj. apply Hpg. lia. }
  rewrite !Z.add_0_r. intros [r st1] (Had & k & Hk & Hwr & Hr).
  destruct Hr as [(-> & -> & Htf1)|(-> & Hnw & Hav & Htf1)].
  - eapply returns_mono; [apply (IH (offset + chunk) st1); [apply Had|apply Had|by rewrite (ad_wp _ _ _ _ Had)|done|lia|lia]|].
    intros [r st2] (Had2 & k2 & Hk2 & Hwr2 & Htf2 & Hr). split; [by eapply advances_trans|]. exists (chunk + k2). split; [lia|]. split.
    + replace (take (Z.to_nat (chunk + k2)) (drop (Z.to_nat offset) src)) with
        (take (Z.to_nat chunk) (drop (Z.to_nat offset) src) ++ take (Z.to_nat k2) (drop (Z.to_nat (offset + chunk)) src)).
      * apply (wrote_app D d (addr + offset) _ _ st st1 st2 Hwr). rewrite length_take, length_drop.
        replace (addr + offset + Z.of_nat (Z.to_nat chunk `min` (length src - Z.to_nat offset))) with (addr + (offset + chunk)) by lia. done.
      * replace (Z.to_nat (offset + chunk)) with (Z.to_nat offset + Z.to_nat chunk)%nat by lia.
        rewrite <- drop_drop, take_take_drop. f_equal. lia.
    + split; [done|]. assert (forall n, 0 <= n < 2 ^ 36 -> uwrite st1 d n = uwrite st d n /\ (uwritable st d n = true -> uwritable st1 d n = true)) as Hmp
        by (intros m Hm; destruct (ad_mapped _ _ _ _ Had m Hm) as (_ & ? & ?); done).
      destruct Hr as [(-> & -> & Hall)|(-> & va & Hva & Hw)]; [left|right]; (split; [done|]).
      * split; [lia|]. intros va Hva. destruct (Z.lt_ge_cases va (addr + (offset + chunk))).
        -- replace va with (addr + offset + (va - addr - offset)) by lia. destruct (Hpg (va - addr - offset)) as [_ ->]; [lia|done].
        -- destruct (Hmp (vpn va) (vpn_range _)) as [<- _]. apply Hall. lia.
      * exists va. split; [lia|]. destruct (Hmp (vpn va) (vpn_range _)) as [Hm1 Hm2]. rewrite Hm1 in Hw. destruct Hw as [Hw|[Hw Hav]]; [by left|right].
        split; [|intros H; by apply Hav, (ad_slot _ _ _ _ Had)]. destruct (uwritable st d (vpn va)) eqn:E; [|done]. by rewrite Hm2 in Hw.
  - cbn [returns]. split; [done|]. exists (Z.of_nat k). rewrite Nat2Z.id. split; [lia|]. split; [done|]. split; [done|].
    right. split; [done|]. exists (addr + offset). split; [done|by right].
Qed.

(** ** Reading *)

Lemma mmu_read_spec st D d va :
  wf st D -> d ∈ D -> umapped st d (vpn va) = true -> exists b, vmem st d va = Some b /\ mmu_read d va st = Ret (inl b, st).
Proof.
  intros (T & Ht & Hm) Hd. unfold umapped. destruct (utrans st d (vpn va)) as [[f g]|] eqn:Hut; [|done]. intros _.
  destruct (utrans_leaf st T D d _ f g Ht Hd (vpn_range _) Hut) as (pt & e & Hlf & HT & Hp & Hu & Hh & Hf & Hg).
  destruct (m_frame _ _ _ Hm d _ f g Hd (vpn_range _) Hut) as ((bytes & Hby & Hlen) & _).
  destruct (getz_lt bytes (va mod PAGE_SIZE)) as [b Hb].
  { rewrite Hlen. pose proof (Z.mod_pos_bound va PAGE_SIZE ltac:(done)). unfold PAGE_SIZE in *. lia. }
  exists b. unfold vmem. rewrite Hut. cbn [mbind option_bind]. rewrite Hby. split; [done|].
  unfold mmu_read. rewrite (mmu_entry_leaf st T D d va pt e Ht (or_introl Hd) Hlf Hp). cbn [mbind out_bind].
  unfold mmu_frame. rewrite Hh. fold (addr e). rewrite <- Hf, Hby. cbn [deref mbind out_bind]. by rewrite (rd_getz _ _ _ Hb).
Qed.

(** [dst'] is [dst] with the bytes of user memory from [a] on, at [i] to [j]. *)
Definition received st d (a i j : Z) (dst dst' : list Z) : Prop :=
  length dst' = length dst /\ forall x, getz dst' x = if (i <=? x) && (x <? j) then vmem st d (a + x) else getz dst x.

Lemma received_nil st d a i dst : received st d a i i dst dst.
Proof. split; [done|]. intros x. destruct (Z.leb_spec i x), (Z.ltb_spec x i); done || (exfalso; lia). Qed.

Lemma received_app st d a i j k dst dst1 dst2 : i <= j -> j <= k ->
  received st d a i j dst dst1 -> received st d a j k dst1 dst2 -> received st d a i k dst dst2.
Proof.
  intros Hij Hjk [l1 H1] [l2 H2]. split; [congruence|]. intros x. rewrite H2, H1.
  destruct (Z.leb_spec i x), (Z.leb_spec j x), (Z.ltb_spec x j), (Z.ltb_spec x k); done || (exfalso; lia).
Qed.

Lemma read_chunk_spec D d a offset pg st : wf st D -> d ∈ D -> umapped st d pg = true -> forall n i dst,
  (forall j, i <= j < i + Z.of_nat n -> vpn (a + offset + j) = pg) ->
  0 <= offset + i -> offset + i + Z.of_nat n <= Z.of_nat (length dst) ->
  returns (read_chunk n d (a + offset) offset i dst st) (fun '(r, dst', st') => r = None /\ st' = st /\
    received st d a (offset + i) (offset + i + Z.of_nat n) dst dst').
Proof.
  intros Hwf Hd Hum. induction n as [|n IH]; intros i dst Hpage Ho Hlen; cbn [read_chunk].
  - cbn. split; [done|]. split; [done|]. rewrite Z.add_0_r. apply received_nil.
  - destruct (mmu_read_spec st D d (a + offset + i) Hwf Hd) as (b & Hb & ->); [rewrite Hpage by lia; done|]. cbn [mbind out_bind].
    rewrite wr_ok by lia. cbn [mbind out_bind]. set (dst1 := <[_ := b]> dst).
    assert (length dst1 = length dst) as Hl1 by apply length_insert.
    eapply returns_mono; [apply (IH (i + 1) dst1); [intros j Hj; apply Hpage; lia|lia|lia]|].
    intros [[r dst'] st'] (-> & -> & Hrec). split; [done|]. split; [done|].
    apply (received_app st d a (offset + i) (offset + i + 1) _ dst dst1); [lia|lia| |].
    + split; [done|]. intros x. destruct (Z.leb_spec (offset + i) x), (Z.ltb_spec x (offset + i + 1)); cbn [andb].
      2-4: unfold dst1; apply getz_insert_ne; lia.
      replace x with (offset + i) by lia. unfold dst1. rewrite getz_insert_eq by lia. by rewrite <- Hb, Z.add_assoc.
    + replace (offset + i + 1) with (offset + (i + 1)) by lia. by replace (offset + i + Z.of_nat (S n)) with (offset + (i + 1) + Z.of_nat n) by lia.
Qed.

(** How far the copy got, and why. *)
Definition copied_from st d addr size offset (r : copy_end) dst dst' : Prop :=
  exists k, offset <= k <= size /\ received st d addr offset k dst dst' /\
    (r = inl 0 /\ k = size /\ (forall va, addr + offset <= va < addr + size -> umapped st d (vpn va) = true) \/
     r = inl (-1) /\ exists va, addr + offset <= va < addr + size /\ umapped st d (vpn va) = false).

Lemma copy_from_loop_spec D d addr size st : wf st D -> d ∈ D -> 0 <= addr -> addr + size <= USER_STACK_TOP ->
  forall n offset dst, size <= Z.of_nat (length dst) -> 0 <= offset <= size -> size - offset <= Z.of_nat n ->
  returns (copy_from_loop n d addr size offset dst st) (fun '(r, dst', st') => st' = copy_disarm st /\ copied_from st d addr size offset r dst dst').
Proof.
  intros Hwf Hd Ha Htop. induction n as [|n IH]; intros offset dst Hlen Ho Hn;
    cbn [copy_from_loop]; (destruct (Z.leb_spec size offset) as [Hle|Hlt];
    [cbn; split; [done|]; exists offset; split; [lia|]; split; [apply received_nil|]; left; split; [done|]; split; lia|]); [lia|].
  eapply returns_bind; [by apply (flags_user st D d (addr + offset))|]. intros g [-> _].
  destruct (umapped st d (vpn (addr + offset))) eqn:Hum; cbn [negb].
  2:{ cbn [returns]. split; [done|]. exists offset. split; [lia|]. split; [apply received_nil|]. right. split; [done|].
      exists (addr + offset). split; [lia|done]. }
  destruct (chunk_page (addr + offset) size offset) as [Hc Hpg]; [lia..|]. set (chunk := chunk_size (addr + offset) size offset) in *.
  eapply returns_bind; [apply (read_chunk_spec D d addr offset _ st Hwf Hd Hum (Z.to_nat chunk) 0 dst); [|lia|lia]|].
  { intros j Hj. apply Hpg. lia. }
  rewrite !Z.add_0_r, Z2Nat.id by lia. intros [[r dst1] st1] (-> & -> & Hrec).
  eapply returns_mono; [apply (IH (offset + chunk) dst1); [destruct Hrec as [-> _]; lia|lia|lia]|].
  intros [[r dst2] st2] (-> & k & Hk & Hrec2 & Hr). split; [done|]. exists k. split; [lia|].
  split; [eapply (received_app st d addr offset (offset + chunk) k dst dst1); [lia|lia|done|done]|].
  destruct Hr as [(-> & -> & Hall)|(-> & va & Hva & Hw)]; [left|right]; (split; [done|]).
  - split; [done|]. intros va Hva. destruct (Z.lt_ge_cases va (addr + (offset + chunk))); [|apply Hall; lia].
    replace va with (addr + offset + (va - addr - offset)) by lia. destruct (Hpg (va - addr - offset)) as [_ ->]; [lia|done].
  - exists va. split; [lia|done].
Qed.

(** ** Ranges and strings *)

(** The page passes the checks of [user_range_ok]. *)
Definition page_ok (write : bool) st d n : bool := umapped st d n && (negb write || uwrite st d n).

Lemma page_ok_flags st D d (write : bool) page :
  wf st D -> d ∈ D -> returns (vmm_get_page_flags d page st) (fun g => has g VMM_PRESENT && has g VMM_USER &&
    (negb write || has g (Z.lor VMM_WRITABLE VMM_COW)) = page_ok write st d (vpn page)).
Proof.
  intros (T & Ht & _) Hd. eapply returns_mono; [by apply (vmm_get_page_flags_spec st T D d page Ht); left|].
  intros g [Hv _]. unfold page_ok, umapped, uwrite, utrans. destruct (trans st d (vpn page)) as [[f x]|]; simpl in Hv; simpl.
  - destruct Hv as (-> & -> & ->). simpl. by destruct (has x VMM_USER).
  - by rewrite Hv.
Qed.

Lemma range_pages_spec st D d (write : bool) first : wf st D -> d ∈ D -> first mod PAGE_SIZE = 0 -> 0 <= first ->
  forall n k, first + (k + Z.of_nat n) * PAGE_SIZE <= USER_STACK_TOP + PAGE_SIZE -> 0 <= k -> (0 < n)%nat ->
  returns (range_pages n (first + k * PAGE_SIZE) (first + (k + Z.of_nat n - 1) * PAGE_SIZE) d write st) (fun r =>
    r = 1 /\ (forall j, k <= j < k + Z.of_nat n -> page_ok write st d (vpn (first + j * PAGE_SIZE)) = true) \/
    r = 0 /\ exists j, k <= j < k + Z.of_nat n /\ page_ok write st d (vpn (first + j * PAGE_SIZE)) = false).
Proof.
  intros Hwf Hd Hal Hf. induction n as [|n IH]; intros k Htop Hk Hn; [lia|]. cbn [range_pages].
  eapply returns_bind; [by apply (page_ok_flags st D d write (first + k * PAGE_SIZE))|]. intros g Hg.
  destruct (page_ok write st d (vpn (first + k * PAGE_SIZE))) eqn:Hok.
  - apply andb_true_iff in Hg as [[-> ->]%andb_true_iff Hg]. cbn [negb].
    assert (write && negb (has g (Z.lor VMM_WRITABLE VMM_COW)) = false) as -> by (destruct write, (has g (Z.lor VMM_WRITABLE VMM_COW)); done).
    destruct (Z.eqb_spec (first + k * PAGE_SIZE) (first + (k + Z.of_nat (S n) - 1) * PAGE_SIZE)) as [He|Hne].
    + cbn [returns]. left. split; [done|]. intros j Hj. assert (n = 0%nat) as -> by (unfold PAGE_SIZE in *; lia).
      by replace j with k by lia.
    + assert (n <> 0%nat) as Hn0 by (intros ->; apply Hne; f_equal; f_equal; lia).
      rewrite u64_small by (unfold in_u64, USER_STACK_TOP, PAGE_SIZE in *; lia).
      replace (first + k * PAGE_SIZE + PAGE_SIZE) with (first + (k + 1) * PAGE_SIZE) by lia.
      replace (k + Z.of_nat (S n) - 1) with (k + 1 + Z.of_nat n - 1) by lia.
      eapply returns_mono; [apply (IH (k + 1)); lia|]. intros r [[-> Hall]|[-> (j & Hj & Hno)]]; [left|right]; (split; [done|]).
      * intros j Hj. destruct (decide (j = k)) as [->|]; [done|]. apply Hall. lia.
      * exists j. split; [lia|done].
  - assert (exists r, r = 0 /\ (if negb (has g VMM_PRESENT) then Ret 0 else if negb (has g VMM_USER) then Ret 0
      else if write && negb (has g (Z.lor VMM_WRITABLE VMM_COW)) then Ret 0
      else if first + k * PAGE_SIZE =? first + (k + Z.of_nat (S n) - 1) * PAGE_SIZE then Ret 1
      else range_pages n (u64 (first + k * PAGE_SIZE + PAGE_SIZE)) (first + (k + Z.of_nat (S n) - 1) * PAGE_SIZE) d write st) = Ret r) as (r & -> & ->).
    { exists 0. split; [done|]. by destruct (has g VMM_PRESENT), (has g VMM_USER), write, (has g (Z.lor VMM_WRITABLE VMM_COW)). }
    cbn [returns]. right. split; [done|]. exists k. split; [lia|done].
Qed.

Lemma user_range_ok_spec st D d addr size write :
  wf st D -> runs_in st D d -> 0 <= addr -> 0 <= size ->
  returns (user_range_ok addr size write st) (fun r =>
    (r = 1 \/ r = 0) /\
    (r = 1 <-> size = 0 \/ addr <> 0 /\ addr + size <= USER_STACK_TOP /\
       forall va, addr <= va < addr + size -> page_ok write st d (vpn va) = true)).
Proof.
  intros Hwf Hrun Ha Hs. unfold user_range_ok. destruct (Z.eqb_spec size 0) as [->|Hs0]; [cbn; intuition|].
  destruct (Z.eqb_spec addr 0) as [->|Ha0]; [cbn; intuition lia|].
  destruct (Z.leb_spec USER_STACK_TOP addr) as [Ht|Ht]; [cbn; intuition lia|].
  destruct (Z.ltb_spec (USER_STACK_TOP - addr) size) as [Hr|Hr]; cbn [orb]; [cbn; intuition lia|].
  unfold vmm_get_current_directory. rewrite (rd_getz _ _ _ (ri_cur _ _ _ Hrun)). cbn [mbind out_bind].
  assert (forall x, page_base x = x / PAGE_SIZE * PAGE_SIZE) as Hpb.
  { intros x. unfold page_base. change 0xFFF with (2 ^ 12 - 1). rewrite land_lnot_ones by lia. unfold PAGE_SIZE. change (2 ^ 12) with 4096. lia. }
  assert (forall x, 0 <= x < USER_STACK_TOP -> vpn x = x / PAGE_SIZE) as Hvpn.
  { intros x Hx. unfold vpn. apply Z.mod_small. unfold USER_STACK_TOP, PAGE_SIZE in *. split; [apply Z.div_pos; lia|apply Z.div_lt_upper_bound; lia]. }
  rewrite !Hpb. set (a := addr / PAGE_SIZE) in *. set (z := (addr + size - 1) / PAGE_SIZE) in *.
  assert (a <= z) as Haz by (apply Z.div_le_mono; [done|lia]). assert (0 <= a) as Ha' by (by apply Z.div_pos).
  assert (z * PAGE_SIZE <= addr + size - 1) as Hz by (rewrite Z.mul_comm; by apply Z.mul_div_le).
  replace ((z * PAGE_SIZE - a * PAGE_SIZE) / PAGE_SIZE) with (z - a) by (rewrite <- Z.mul_sub_distr_r, Z.div_mul by done; done).
  pose proof (range_pages_spec st D d write (a * PAGE_SIZE) Hwf (ri_dir _ _ _ Hrun) ltac:(by apply Z.mod_mul) ltac:(unfold PAGE_SIZE; lia)
    (Z.to_nat (z - a + 1)) 0) as Hsp. rewrite Z2Nat.id in Hsp by lia.
  replace (a * PAGE_SIZE + 0 * PAGE_SIZE) with (a * PAGE_SIZE) in Hsp by lia.
  replace (a * PAGE_SIZE + (0 + (z - a + 1) - 1) * PAGE_SIZE) with (z * PAGE_SIZE) in Hsp by lia.
  assert (forall j, 0 <= j < 0 + (z - a + 1) -> vpn (a * PAGE_SIZE + j * PAGE_SIZE) = a + j) as Hj.
  { intros j Hj. rewrite <- Z.mul_add_distr_r, Hvpn, Z.div_mul by (unfold PAGE_SIZE in *; done || lia). done. }
  eapply returns_mono; [apply Hsp; unfold PAGE_SIZE in *; lia|]. intros r [[-> Hall]|[-> (j & Hjr & Hno)]].
  - split; [by left|]. split; [|done]. intros _. right. split; [done|]. split; [lia|]. intros va Hva. rewrite Hvpn by lia.
    assert (a <= va / PAGE_SIZE <= z) as Hq by (split; apply Z.div_le_mono; done || lia).
    specialize (Hall (va / PAGE_SIZE - a)). rewrite Hj in Hall by lia. replace (a + (va / PAGE_SIZE - a)) with (va / PAGE_SIZE) in Hall by lia. apply Hall. lia.
  - split; [by right|]. split; [done|]. intros [?|(_ & _ & Hall)]; [lia|]. exfalso. rewrite Hj in Hno by lia.
    specialize (Hall (Z.max addr ((a + j) * PAGE_SIZE))).
    assert (Z.max addr ((a + j) * PAGE_SIZE) / PAGE_SIZE = a + j) as Hq.
    { destruct (Z.max_spec addr ((a + j) * PAGE_SIZE)) as [[Hm ->]|[Hm ->]]; [by apply Z.div_mul|]. fold a.
      assert (a + j <= a); [|lia]. unfold a at 2. by apply Z.div_le_lower_bound; [|rewrite Z.mul_comm]. }
    rewrite Hvpn, Hq, Hno in Hall by (unfold PAGE_SIZE in *; lia).
    assert (addr <= Z.max addr ((a + j) * PAGE_SIZE) < addr + size) as Hrg by (unfold PAGE_SIZE in *; lia). by specialize (Hall Hrg).
Qed.

(** The string copied, up to [k]: its end, or why there is none. *)
Definition copied_string st d addr (i lim : Z) (r : copy_end) dst dst' : Prop :=
  exists k, i <= k <= lim /\ received st d addr i k dst dst' /\
    (r = inl k /\ i < k /\ vmem st d (addr + k - 1) = Some 0 /\ (forall j, i <= j < k - 1 -> vmem st d (addr + j) <> Some 0) \/
     r = inl (-1) /\ (forall j, i <= j < k -> vmem st d (addr + j) <> Some 0) /\ (k = lim \/ umapped st d (vpn (addr + k)) = false)).

(** One more byte that is not the end. *)
Lemma copied_string_cons st d addr i lim r dst dst1 dst' :
  i < lim -> received st d addr i (i + 1) dst dst1 -> vmem st d (addr + i) <> Some 0 ->
  copied_string st d addr (i + 1) lim r dst1 dst' -> copied_string st d addr i lim r dst dst'.
Proof.
  intros Hi Hrec Hz (k & Hk & Hrec' & Hr). exists k. split; [lia|]. split; [eapply (received_app st d addr i (i + 1) k dst dst1); [lia|lia|done|done]|].
  assert (forall u, (forall j, i + 1 <= j < u -> vmem st d (addr + j) <> Some 0) -> forall j, i <= j < u -> vmem st d (addr + j) <> Some 0) as Hall.
  { intros u H j Hj. destruct (decide (j = i)) as [->|]; [done|]. apply H. lia. }
  destruct Hr as [(-> & H1 & H2 & H3)|(-> & H1 & H2)]; [left|right]; (split; [done|]).
  - split; [lia|]. split; [done|]. by apply Hall.
  - split; [by apply Hall|done].
Qed.

Lemma strncpy_user_loop_spec st D d addr lim : wf st D -> d ∈ D -> 0 <= addr -> lim <= 0x7FFFFFFF -> forall n i dst,
  i + Z.of_nat n = lim -> 0 <= i -> lim <= Z.of_nat (length dst) -> (i < lim -> umapped st d (vpn (addr + i)) = true) ->
  returns (strncpy_user_loop n d addr i (page_base (addr + i)) dst st) (fun '(r, dst', st') =>
    st' = copy_disarm st /\ copied_string st d addr i lim r dst dst').
Proof.
  intros Hwf Hd Ha Hlim. induction n as [|n IH]; intros i dst Hi Hi0 Hlen Hum; cbn [strncpy_user_loop].
  - cbn. split; [done|]. exists i. split; [lia|]. split; [apply received_nil|]. right. split; [done|]. split; [lia|]. left. lia.
  - destruct (mmu_read_spec st D d (addr + i) Hwf Hd) as (c & Hc & ->); [apply Hum; lia|]. cbn [mbind out_bind].
    rewrite wr_ok by lia. cbn [mbind out_bind]. set (dst1 := <[_ := c]> dst).
    assert (length dst1 = length dst) as Hl1 by apply length_insert.
    assert (received st d addr i (i + 1) dst dst1) as Hrec.
    { split; [done|]. intros x. destruct (Z.leb_spec i x), (Z.ltb_spec x (i + 1)); cbn [andb].
      2-4: unfold dst1; apply getz_insert_ne; lia. replace x with i by lia. unfold dst1. by rewrite getz_insert_eq by lia. }
    destruct (Z.eqb_spec c 0) as [->|Hc0].
    + zcmp. cbn [returns]. split; [done|]. exists (i + 1). split; [lia|]. split; [done|]. left. split; [done|]. split; [lia|].
      split; [by replace (addr + (i + 1) - 1) with (addr + i) by lia|lia].
    + assert (vmem st d (addr + i) <> Some 0) as Hnz by congruence. replace (addr + i + 1) with (addr + (i + 1)) by lia.
      assert (forall cur, (i + 1 < lim -> umapped st d (vpn (addr + (i + 1))) = true) -> cur = page_base (addr + (i + 1)) ->
        returns (strncpy_user_loop n d addr (i + 1) cur dst1 st) (fun '(r, dst', st') => st' = copy_disarm st /\ copied_string st d addr i lim r dst dst')) as Hgo.
      { intros cur Hm ->. eapply returns_mono; [apply (IH (i + 1) dst1); [lia|lia|lia|done]|]. intros [[r dst'] st'] [-> Hs]. split; [done|].
        by eapply copied_string_cons; [lia|..]. }
      destruct (Z.eqb_spec (page_base (addr + (i + 1))) (page_base (addr + i))) as [He|Hne]; cbn [negb].
      * apply Hgo; [|done]. intros _. rewrite <- vpn_base, He, vpn_base. apply Hum. lia.
      * eapply returns_bind; [by apply (flags_user st D d (addr + (i + 1)))|]. intros g [-> _].
        destruct (umapped st d (vpn (addr + (i + 1)))) eqn:Hu1; cbn [negb]; [by apply Hgo|].
        cbn [returns]. split; [done|]. eapply copied_string_cons; [lia|done|done|]. exists (i + 1). split; [lia|]. split; [apply received_nil|].
        right. split; [done|]. split; [lia|]. by right.
Qed.

Lemma arm_disarm st : copy_disarm (arm st) = copy_disarm st.
Proof. unfold arm, copy_disarm. destruct (thread_fault st) eqn:E; [done|]. by rewrite E. Qed.

Lemma arm_wf st D : wf st D -> wf (arm st) D.
Proof.
  intros (T & Ht & Hm). exists T. unfold arm. destruct (thread_fault st); [|done]. split; [by destruct Ht|by destruct Hm].
Qed.

Lemma arm_vmem st d va : vmem (arm st) d va = vmem st d va.
Proof. unfold arm. by destruct (thread_fault st). Qed.

Lemma arm_umapped st d n : umapped (arm st) d n = umapped st d n.
Proof. unfold arm. by destruct (thread_fault st). Qed.
End copy.
