(* ===== verification/VmmFork.v ===== *)
(** * Copy-on-write fork

    [vmm_fork_cow_pages] walks the tables of the parent and enters every user
    page read-only, with the copy-on-write mark, in the parent and in the child.
    The loop invariant [forked] says it for the pages below the one the loops
    have come to. *)

From stdpp Require Import base numbers list gmap sets.
From Stdlib Require Import ZArith Lia.
From S2P Require Import Prelude Vmm VmmTree VmmMap VmmCow VmmCopy.

#[local] Open Scope Z_scope.

(** The flags of a page after a fork. *)
Definition fork_flags (g : Z) : Z := Z.lor (Z.land g (Z.lnot VMM_WRITABLE)) VMM_COW.

Definition forked_pte (e : Z) : Z := Z.lor (Z.land e (Z.lnot 0xFFF)) (fork_flags (Z.land e 0xFFF)).

Lemma fork_flags_bit g k : 0 <= k -> Z.testbit (fork_flags g) k = (k =? 9) || negb (k =? 1) && Z.testbit g k.
Proof.
  intros Hk. unfold fork_flags. change VMM_WRITABLE with (2 ^ 1). change VMM_COW with (2 ^ 9).
  rewrite Z.lor_spec, Z.land_spec, Z.lnot_spec, !Z.pow2_bits_eqb, (Z.eqb_sym 1), (Z.eqb_sym 9) by lia.
  destruct (k =? 1), (k =? 9), (Z.testbit g k); done.
Qed.

Lemma forked_pte_spec e : has e PTE_HUGE = false ->
  addr (forked_pte e) = addr e /\ fl (forked_pte e) = fork_flags (fl e) /\ has (forked_pte e) VMM_PRESENT = has e VMM_PRESENT /\
  has (forked_pte e) PTE_HUGE = false /\ has (forked_pte e) VMM_USER = has e VMM_USER /\
  has (fork_flags (fl e)) VMM_WRITABLE = false /\ has (fork_flags (fl e)) VMM_USER = has e VMM_USER.
Proof.
  intros Hh. rewrite has_huge in Hh. fold (map_pte e (fork_flags (Z.land e 0xFFF))). change (forked_pte e) with (map_pte e (fork_flags (Z.land e 0xFFF))).
  assert (forall k, 0 <= k < 12 -> Z.testbit (map_pte e (fork_flags (Z.land e 0xFFF))) k = Z.testbit (fork_flags e) k) as Hb.
  { intros k Hk. rewrite map_pte_bit, !fork_flags_bit, Z.land_spec, low12_testbit by lia. by rewrite (proj2 (Z.ltb_lt k 12)), andb_true_r by lia. }
  split; [|split; [|split; [|split; [|split; [|split]]]]].
  - apply map_pte_addr. apply Z.bits_inj'. intros k Hk. rewrite Z.land_spec, mask_testbit, Z.bits_0, fork_flags_bit, Z.land_spec, low12_testbit by lia.
    destruct (Z.leb_spec 12 k); [|apply andb_false_r]. zcmp. by rewrite andb_false_r.
  - apply Z.bits_inj'. intros k Hk. rewrite fl_bit, fork_flags_bit, fl_bit by lia. destruct (Z.ltb_spec k 12) as [H12|H12]; cbn [andb].
    + rewrite Hb, fork_flags_bit by lia. destruct (Z.eqb_spec k 7) as [->|]; [done|]. destruct (k =? 1), (k =? 9), (Z.testbit e k); done.
    + rewrite andb_false_r, orb_false_r. zcmp. done.
  - by rewrite !has_present, Hb, fork_flags_bit by lia.
  - by rewrite has_huge, Hb, fork_flags_bit, Hh by lia.
  - by rewrite !has_user, Hb, fork_flags_bit by lia.
  - by rewrite has_writable, fork_flags_bit by lia.
  - by rewrite !has_user, fork_flags_bit, fl_bit by lia.
Qed.

Section fork.
Context {P : Type} `{!Pages P, !PagesLaws P}.
Implicit Types (st : vst (P := P)) (T : gmap Z tag) (D : gset Z).

(** ** The tables of an address space *)

(** [a] is the table of level [l] of [p] for the pages [n] with [above l n = B]. *)
Inductive path st (p : Z) : nat -> Z -> Z -> Prop :=
| path_root : path st p 3 0 p
| path_step l B a i e : path st p (S l) B a -> 0 <= i < 512 -> ent st a i = Some e -> is_leaf (S l) e = false ->
    has e VMM_PRESENT = true -> path st p l (B * 512 + i) (addr e).

Lemma above_step l n B i : 0 <= i < 512 -> above l n = B * 512 + i -> above (S l) n = B /\ digit (S l) n = i.
Proof.
  intros Hi Ha. pose proof (above_digit (S l) n) as H. change (n / 512 ^ Z.of_nat (S l)) with (above l n) in H.
  pose proof (digit_range (S l) n). lia.
Qed.

Lemma path_leaf st p l B a n : path st p l B a -> 0 <= n < 2 ^ 36 -> above l n = B -> leaf 3 st p n = leaf l st a n.
Proof.
  induction 1 as [|l B a i e Hp IH Hi He Hlf Hpr]; intros Hn Hab; [done|].
  destruct (above_step l n B i Hi Hab) as [H1 H2]. rewrite IH by done. apply leaf_ptr; [by rewrite H2|done|done].
Qed.

Lemma path_tag st T D p l B a : tree st T D -> p ∈ D -> path st p l B a ->
  exists tg, T !! a = Some tg /\ level tg = l /\ (private tg -> tg = Priv p l B).
Proof.
  intros Ht Hp. induction 1 as [|l B a i e Hpath IH Hi He Hlf Hpr].
  - exists (Priv p 3 0). split; [by apply (t_dir _ _ _ Ht)|done].
  - destruct IH as (tg & HT & Hl & Hpv). pose proof (t_ent _ _ _ Ht a tg i e HT He) as Hok. unfold entry_ok in Hok. rewrite Hl, Hlf in Hok.
    destruct (Hok Hpr) as (_ & tg' & HT' & Hc). exists tg'. split; [done|].
    destruct tg as [d l0 pre|l0]; simpl in Hl; subst l0.
    + specialize (Hpv I). injection Hpv as -> ->. by destruct Hc as [-> |[-> _]].
    + simpl in Hc. by subst tg'.
Qed.

(** The pointers in tables that are not [c]'s. *)
Definition keeps_upper c st T st' : Prop := forall b tg j, T !! b = Some tg -> (1 <= level tg)%nat -> (forall l pre, tg <> Priv c l pre) ->
  ent st' b j = ent st b j.

Lemma keeps_upper_trans c st T st1 T1 st2 : T ⊆ T1 -> keeps_upper c st T st1 -> keeps_upper c st1 T1 st2 -> keeps_upper c st T st2.
Proof. intros Hs H1 H2 b tg j Hb Hl Hn. rewrite (H2 b tg) by (done || by eapply lookup_weaken). by apply (H1 b tg). Qed.

Lemma keeps_upper_put c st T D a i x tg e : tree st T D -> T !! a = Some tg -> level tg = 0%nat -> ent st a i = Some e -> keeps_upper c st T (put a i x st).
Proof.
  intros Ht Ha Hl He b tgb j Hb Hlb _. rewrite (ent_put _ _ _ _ _ _ _ He). destruct (Z.eqb_spec b a) as [->|]; [|done].
  rewrite Ha in Hb. injection Hb as ->. lia.
Qed.

Lemma path_keep st st' T D p c l B a : tree st T D -> p ∈ D -> p <> c -> keeps_upper c st T st' -> path st p l B a -> path st' p l B a.
Proof.
  intros Ht Hp Hpc Hk. induction 1 as [|l B a i e Hpath IH Hi He Hlf Hpr]; [constructor|].
  destruct (path_tag st T D p _ _ _ Ht Hp Hpath) as (tg & HT & Hl & Hpv).
  econstructor; try done. rewrite (Hk a tg); [done|done|lia|]. intros l' pre ->. specialize (Hpv I). congruence.
Qed.

(** ** One page *)

(** The child's page is not one of the kernel's. *)
Definition low_free st n : Prop := digit 3 n = 0 -> 2 <= digit 2 n < 256 ->
  forall e, ent st (kernel_low_pdp st) (digit 2 n) = Some e -> has e VMM_PRESENT = false.

(** Where the address space [p] has a user page, it does not share the
    kernel's tables. *)
Definition apart st p : Prop := forall n, 0 <= n < 2 ^ 35 -> utrans st p n <> None -> low_free st n.

(** An address space that has the kernel's tables where the kernel has any is
    such a one: those tables map no user pages. *)
Lemma mirrors_apart st T D p : tree st T D -> p ∈ D ->
  (forall i e, 2 <= i < 256 -> ent st (kernel_low_pdp st) i = Some e -> has e VMM_PRESENT = true ->
     exists x, ent st p 0 = Some x /\ has x VMM_PRESENT = true /\ ent st (addr x) i = Some e) -> apart st p.
Proof.
  intros Ht Hp Hm n Hn Hu H3 H2 e He. destruct (has e VMM_PRESENT) eqn:HP; [|done]. exfalso.
  destruct (utrans st p n) as [[f g]|] eqn:E; [|done]. destruct (Hm _ e H2 He HP) as (x & Hx & HPx & Hex).
  destruct (utrans_leaf st T D p n f g Ht Hp ltac:(lia) E) as (pt & y & Hlf & HTpt & _).
  rewrite (leaf_ptr st 2 p n x), (leaf_ptr st 1 (addr x) n e) in Hlf by (by rewrite ?H3).
  destruct (step_tag st T D _ _ _ n e Ht (t_low _ _ _ Ht) eq_refl He eq_refl HP) as (tg & HT & _ & Hch).
  simpl in Hch. subst tg. pose proof (leaf_shared st T D n _ _ _ Ht 1 _ HT Hlf). congruence.
Qed.

Lemma user_digit n : 0 <= n < 2 ^ 35 -> digit 3 n < 256.
Proof.
  intros Hn. unfold digit. change (512 ^ Z.of_nat 3) with (2 ^ 27). assert (n / 2 ^ 27 < 256) by (apply Z.div_lt_upper_bound; lia).
  assert (0 <= n / 2 ^ 27) by (apply Z.div_pos; lia). rewrite Z.mod_small; lia.
Qed.

Lemma low_free_mirrored st c n : 0 <= n < 2 ^ 35 -> low_free st n -> ~ mirrored st c n.
Proof.
  intros Hn Hlow [[H _]|(H0 & H2 & e & p & _ & _ & _ & Hp & Hl)]; [pose proof (user_digit n Hn); lia|].
  by rewrite (Hlow H0 H2 p Hl) in Hp.
Qed.

(** The entry of page [n] in the last table. *)
Lemma path_pte st T D p B pt pti e : tree st T D -> p ∈ D -> path st p 0 B pt -> 0 <= pti < 512 -> let n := B * 512 + pti in
  0 <= n < 2 ^ 36 -> ent st pt pti = Some e ->
  digit 0 n = pti /\ above 0 n = B /\ leaf 3 st p n = Some (0%nat, pt, e) /\
  utrans st p n = if has e VMM_PRESENT && has e VMM_USER then Some (addr e, fl e) else None.
Proof.
  intros Ht Hp Hpath Hi n Hn He.
  assert (digit 0 n = pti /\ above 0 n = B) as [Hd0 Hab].
  { unfold n, digit, above. change (512 ^ Z.of_nat 1) with 512. rewrite Z.pow_0_r, Z.div_1_r, Z.add_comm, Z.mod_add, Z.mod_small, Z.div_add, Z.div_small by lia. lia. }
  assert (leaf 3 st p n = Some (0%nat, pt, e)) as Hlf by (rewrite (path_leaf _ _ _ _ _ _ Hpath) by done; apply leaf_pt; by rewrite Hd0).
  repeat (split; [done|]). rewrite (utrans_pte _ _ _ _ _ Hlf). unfold pte_trans. destruct (has e VMM_PRESENT); [|done]. simpl.
  destruct (has_fl e) as (_ & _ & Hu & _). by rewrite Hu.
Qed.

(** What the fork of page [n] does: nothing, for want of memory, or the page is
    shared. *)
Definition forks st T D p c n f g st' : Prop := exists T', evolves st T st' T' D /\ keeps_upper c st T st' /\
  (pavail (pages st') = 0 /\ (forall r m, r ∈ D -> 0 <= m < 2 ^ 36 -> utrans st' r m = utrans st r m) \/
   utrans st' p n = Some (f, fork_flags g) /\ utrans st' c n = Some (f, fork_flags g) /\
   forall r m, r ∈ D -> 0 <= m < 2 ^ 36 -> (r, m) <> (p, n) -> (r, m) <> (c, n) -> utrans st' r m = utrans st r m).

Lemma fork_pte_spec st T D p c B pt pti base :
  tree st T D -> p ∈ D -> c ∈ D -> p <> c -> path st p 0 B pt -> 0 <= pti < 512 -> let n := B * 512 + pti in
  0 <= n < 2 ^ 35 -> vpn (Z.lor base (Z.shiftl pti 12)) = n -> (utrans st p n <> None -> low_free st n) ->
  returns (fork_pte c base pt pti st) (fun st' =>
    match utrans st p n with None => st' = st | Some (f, g) => forks st T D p c n f g st' end).
Proof.
  intros Ht Hp Hc Hpc Hpath Hi n Hn Hv Hlow. assert (0 <= n < 2 ^ 36) as Hn36 by lia.
  destruct (path_tag st T D p _ _ _ Ht Hp Hpath) as (tgp & HTp & _). destruct (ent_tag st T D pt tgp pti Ht HTp Hi) as [e He].
  destruct (path_pte st T D p B pt pti e Ht Hp Hpath Hi Hn36 He) as (Hd0 & Hab & Hlf & Hut). fold n in Hd0, Hab, Hlf, Hut. rewrite Hut.
  unfold fork_pte. rewrite (entry_ent _ _ _ _ He). cbn [mbind out_bind].
  destruct (has e VMM_PRESENT) eqn:HP; cbn [negb andb]; [|done]. destruct (has e VMM_USER) eqn:HU; cbn [negb]; [|done].
  rewrite Hut in Hlow. specialize (Hlow ltac:(done)).
  destruct (user_leaf st T D p n 0 pt e Ht Hp Hn36 Hlf HP HU) as (_ & HTpt & Hh). rewrite Hab in HTpt.
  destruct (forked_pte_spec e Hh) as (Fa & Ff & Fp & Fh & Fu & Fw & Fus). set (x := forked_pte e) in *.
  pose proof (t_dir _ _ _ Ht c Hc) as HTc.
  eapply returns_bind; [apply (leaf_pte_spec st T D true c (Priv c 3 0) _ Ht HTc eq_refl)|].
  { split; [done|]. by rewrite above_top by apply vpn_range. }
  rewrite Hv. intros [cp st1] (T1 & Hg & Hown & Hcp). pose proof (g_tree _ _ _ _ _ Hg) as Ht1.
  assert (only_own c st T st1) as Hown' by (apply Hown; [done|by apply low_free_mirrored]).
  assert (keeps_upper c st T st1) as Hku by (intros b tg j Hb _ Hnc; by apply (Hown' b tg)).
  assert (forall r m, r ∈ D -> 0 <= m < 2 ^ 36 -> utrans st1 r m = utrans st r m) as Hut1
    by (intros r m Hr Hm; unfold utrans; by rewrite (grown_trans_same st T st1 T1 D) by (done || by left)).
  destruct cp as [[ct ci]|]; [|cbn; exists T1; split; [by apply grown_evolves|]; split; [done|left; split; [apply Hcp; by left|done]]].
  destruct Hcp as (-> & tgc & ec & HTct & Hlc & Hfit & Hlfc & Hprc).
  assert (private tgc) as Hpr.
  { apply Hprc; [|by apply low_free_mirrored]. exists (Priv c 3 0). split; [by apply (t_dir _ _ _ Ht1)|done]. }
  destruct tgc as [d' l pre|]; [|done]. simpl in Hlc. subst l. destruct Hfit as [-> _].
  assert (leaf 3 st1 p n = Some (0%nat, pt, e)) as Hlf1 by (by eapply (grown_leaf st T st1 T1 D n pt e Ht Hg 3 p); [apply (t_dir _ _ _ Ht)|..]).
  assert (T1 !! pt = Some (Priv p 0 B)) as HTpt1 by (eapply lookup_weaken; [done|apply Hg]).
  change (Z.lor (Z.land e (Z.lnot 0xFFF)) _) with x. rewrite <- Hd0.
  destruct (put_private st1 T1 D p n pt B e x Ht1 Hp Hn36 HTpt1 Hlf1 Fh) as (-> & Ht2 & Hlf2 & Hoth2).
  set (st2 := put pt (digit 0 n) x st1) in *. cbn [mbind out_bind].
  destruct (leaf_level st2 T1 D n Ht2 3 p _ _ _ _ (t_dir _ _ _ Ht2 p Hp) eq_refl Hlf2) as (_ & _ & _ & He2).
  rewrite (entry_ent _ _ _ _ He2). cbn [mbind out_bind].
  assert (leaf 3 st2 c n = Some (0%nat, ct, ec)) as Hlfc2 by (rewrite Hoth2; [done|by left|done|congruence]).
  destruct (put_private st2 T1 D c n ct pre ec x Ht2 Hc Hn36 HTct Hlfc2 Fh) as (-> & Ht3 & Hlf3 & Hoth3).
  set (st3 := put ct (digit 0 n) x st2) in *. cbn [returns]. exists T1.
  assert (evolves st T st3 T1 D) as Hev by (apply evolves_put; [apply evolves_put; [by apply grown_evolves|done]|done]).
  assert (utrans st3 c n = Some (addr e, fork_flags (fl e))) as Huc.
  { rewrite (utrans_pte _ _ _ _ _ Hlf3). unfold pte_trans. rewrite Fp, HP, Fa, Ff. simpl. by rewrite Fus, HU. }
  split; [done|]. split.
  - destruct (leaf_level st1 T1 D n Ht1 3 p _ _ _ _ (t_dir _ _ _ Ht1 p Hp) eq_refl Hlf1) as (_ & _ & _ & He1).
    destruct (leaf_level st2 T1 D n Ht2 3 c _ _ _ _ (t_dir _ _ _ Ht2 c Hc) eq_refl Hlfc2) as (_ & _ & _ & Hec2).
    eapply keeps_upper_trans; [apply Hg|exact Hku|]. eapply (keeps_upper_trans c st1 T1 st2 T1); [done|by eapply (keeps_upper_put c st1 T1 D)|].
    by eapply (keeps_upper_put c st2 T1 D).
  - right. split; [|split; [done|]].
    + unfold utrans. rewrite (trans_same st2 st3) by (apply Hoth3; [by left|done|congruence]).
      change (utrans st2 p n = Some (addr e, fork_flags (fl e))). rewrite (utrans_pte _ _ _ _ _ Hlf2). unfold pte_trans. rewrite Fp, HP, Fa, Ff. simpl. by rewrite Fus, HU.
    + intros r m Hr Hm H1 H2. rewrite <- (Hut1 r m Hr Hm). unfold utrans.
      rewrite (trans_same st2 st3), (trans_same st1 st2); [done|apply Hoth2; [by left|done|done]|apply Hoth3; [by left|done|done]].
Qed.

(** ** The loops *)

Definition fork_page st0 p c N st m : Prop :=
  match utrans st0 p m with
  | Some (f, g) =>
      m < N /\ utrans st p m = Some (f, fork_flags g) /\ utrans st c m = Some (f, fork_flags g) \/
      (m < N -> pavail (pages st) = 0) /\ utrans st p m = utrans st0 p m /\ utrans st c m = utrans st0 c m
  | None => utrans st p m = None /\ utrans st c m = utrans st0 c m
  end.

(** The pages below [N] are forked. *)
Definition forked st0 T0 D p c N st : Prop := exists T, evolves st0 T0 st T D /\ keeps_upper c st0 T0 st /\
  (forall r m, r ∈ D -> 0 <= m < 2 ^ 36 -> r <> p -> r <> c -> utrans st r m = utrans st0 r m) /\
  forall m, 0 <= m < 2 ^ 36 -> fork_page st0 p c N st m.

Lemma fork_page_later st0 p c N st m : N <= m -> fork_page st0 p c N st m -> utrans st p m = utrans st0 p m /\ utrans st c m = utrans st0 c m.
Proof. unfold fork_page. destruct (utrans st0 p m) as [[f g]|]; [|done]. intros H [[? _]|[_ ?]]; [lia|done]. Qed.

(** Pages that are no user pages. *)
Lemma forked_skip st0 T0 D p c N N' st : 0 <= N <= N' -> N' <= 2 ^ 36 -> forked st0 T0 D p c N st ->
  (forall m, N <= m < N' -> utrans st p m = None) -> forked st0 T0 D p c N' st.
Proof.
  intros HN HN' (T & Hev & Hk & Ho & Hpg) Hnone. exists T. repeat (split; [done|]). intros m Hm. specialize (Hpg m Hm).
  destruct (Z_lt_dec m N') as [Hlt|Hlt]; [destruct (Z_lt_dec m N) as [Hl|Hl]|].
  - unfold fork_page in *. destruct (utrans st0 p m) as [[f g]|]; [|done]. destruct Hpg as [[_ H]|[H1 H2]]; [left; by split|right; split; [auto|done]].
  - destruct (fork_page_later st0 p c N st m ltac:(lia) Hpg) as [H1 H2]. unfold fork_page. rewrite <- H1, (Hnone m) by lia. done.
  - destruct (fork_page_later st0 p c N st m ltac:(lia) Hpg) as [H1 H2]. unfold fork_page. rewrite <- H1.
    destruct (utrans st p m) as [[f g]|]; [right|]; split; done || lia.
Qed.

Lemma forked_next st0 T0 D p c N st T f g st' : p ∈ D -> c ∈ D -> p <> c -> 0 <= N < 2 ^ 36 ->
  evolves st0 T0 st T D -> keeps_upper c st0 T0 st ->
  (forall r m, r ∈ D -> 0 <= m < 2 ^ 36 -> r <> p -> r <> c -> utrans st r m = utrans st0 r m) ->
  (forall m, 0 <= m < 2 ^ 36 -> fork_page st0 p c N st m) ->
  utrans st p N = Some (f, g) -> forks st T D p c N f g st' -> forked st0 T0 D p c (N + 1) st'.
Proof.
  intros Hp Hc Hpc HN Hev Hk Ho Hpg Hut (T' & Hev' & Hk' & Hcase). exists T'.
  split; [by eapply evolves_trans|]. split; [by eapply keeps_upper_trans; [apply Hev|..]|].
  pose proof (ev_avail _ _ _ _ _ Hev') as Hav. pose proof (pavail_nonneg _ (t_pwf _ _ _ (ev_tree _ _ _ _ _ Hev'))) as Hav0.
  destruct (fork_page_later st0 p c N st N ltac:(lia) (Hpg N HN)) as [HNp HNc]. destruct Hcase as [[Hz Hsame]|(Hsp & Hsc & Hsame)].
  - split; [intros r m Hr Hm H1 H2; rewrite Hsame by done; by apply Ho|]. intros m Hm. specialize (Hpg m Hm). unfold fork_page in *.
    rewrite !Hsame by done. destruct (utrans st0 p m) as [[f' g']|]; [|done]. destruct Hpg as [[? H]|[_ H]]; [left; split; [lia|done]|right; by split].
  - split; [intros r m Hr Hm H1 H2; rewrite Hsame by (done || congruence); by apply Ho|]. intros m Hm.
    destruct (decide (m = N)) as [->|Hne].
    + unfold fork_page. rewrite <- HNp, Hut. left. split; [lia|done].
    + specialize (Hpg m Hm). unfold fork_page in *. rewrite !Hsame by (done || congruence).
      destruct (utrans st0 p m) as [[f' g']|]; [|done]. destruct Hpg as [[? H]|[H1 H]]; [left; split; [lia|done]|right; split; [|done]].
      intros Hlt. assert (pavail (pages st) = 0) by (apply H1; lia). lia.
Qed.

Lemma fork_vpn i3 i2 i1 i0 : 0 <= i3 < 256 -> 0 <= i2 < 512 -> 0 <= i1 < 512 -> 0 <= i0 < 512 ->
  let n := ((i3 * 512 + i2) * 512 + i1) * 512 + i0 in
  0 <= n < 2 ^ 35 /\ vpn (Z.lor (Z.lor (Z.lor (Z.shiftl i3 39) (Z.shiftl i2 30)) (Z.shiftl i1 21)) (Z.shiftl i0 12)) = n.
Proof.
  intros H3 H2 H1 H0 n. assert (0 <= n < 2 ^ 35) as Hn by (unfold n; lia). split; [done|].
  rewrite !Z.shiftl_mul_pow2 by lia.
  rewrite (lor_add 39 i3 (i2 * 2 ^ 30)) by lia. replace (i3 * 2 ^ 39 + i2 * 2 ^ 30) with ((i3 * 512 + i2) * 2 ^ 30) by lia.
  rewrite (lor_add 30 _ (i1 * 2 ^ 21)) by lia. replace (_ * 2 ^ 30 + i1 * 2 ^ 21) with (((i3 * 512 + i2) * 512 + i1) * 2 ^ 21) by lia.
  rewrite (lor_add 21 _ (i0 * 2 ^ 12)) by lia. replace (_ * 2 ^ 21 + i0 * 2 ^ 12) with (n * PAGE_SIZE) by (unfold n, PAGE_SIZE; lia).
  unfold vpn. rewrite Z.div_mul by done. apply Z.mod_small. lia.
Qed.

Lemma above_range l K m : K * 512 ^ Z.of_nat (S l) <= m < (K + 1) * 512 ^ Z.of_nat (S l) -> above l m = K.
Proof.
  intros H. unfold above. assert (0 < 512 ^ Z.of_nat (S l)) by (apply Z.pow_pos_nonneg; lia).
  assert (K <= m / 512 ^ Z.of_nat (S l)) by (apply Z.div_le_lower_bound; lia).
  assert (m / 512 ^ Z.of_nat (S l) < K + 1) by (apply Z.div_lt_upper_bound; lia). lia.
Qed.

Section loops.
Context (st0 : vst (P := P)) (T0 : gmap Z tag) (D : gset Z) (p c : Z).
Hypothesis (Htree : tree st0 T0 D) (Hp : p ∈ D) (Hc : c ∈ D) (Hpc : p <> c).
Hypothesis Hlow : forall m, 0 <= m < 2 ^ 35 -> utrans st0 p m <> None -> low_free st0 m.

Lemma forked_path N st l B a : forked st0 T0 D p c N st -> path st0 p l B a -> path st p l B a.
Proof. intros (T & _ & Hk & _) Hpath. by eapply path_keep. Qed.

Lemma forked_ent N st l B a i e : forked st0 T0 D p c N st -> path st0 p (S l) B a -> ent st0 a i = Some e -> ent st a i = Some e.
Proof.
  intros (T & _ & Hk & _) Hpath He. destruct (path_tag st0 T0 D p _ _ _ Htree Hp Hpath) as (tg & HT & Hl & Hpv).
  rewrite (Hk a tg); [done|done|lia|]. intros l' pre ->. specialize (Hpv I). congruence.
Qed.

(** An entry that does not lead to user pages. *)
Lemma skip_entry N st l B a i e : forked st0 T0 D p c N st -> path st0 p (S l) B a -> 0 <= i < 512 -> ent st0 a i = Some e ->
  has e VMM_PRESENT = false \/ is_leaf (S l) e = true ->
  forall m, 0 <= m < 2 ^ 36 -> above l m = B * 512 + i -> utrans st p m = None.
Proof.
  intros Hf Hpath Hi He Hskip m Hm Hab. destruct (utrans st p m) as [[f g]|] eqn:E; [|done]. exfalso.
  pose proof (forked_path _ _ _ _ _ Hf Hpath) as Hpath'. pose proof (forked_ent _ _ _ _ _ _ _ Hf Hpath He) as He'.
  destruct Hf as (T & Hev & _). destruct (utrans_leaf st T D p m f g (ev_tree _ _ _ _ _ Hev) Hp Hm E) as (pt & x & Hlf & _).
  destruct (above_step l m B i Hi Hab) as [H1 H2]. rewrite (path_leaf _ _ _ _ _ _ Hpath' Hm H1), (leaf_S _ _ _ _ e) in Hlf by (by rewrite H2).
  destruct (is_leaf (S l) e); [done|]. destruct Hskip as [Hs|]; [|done]. by rewrite Hs in Hlf.
Qed.

Lemma fork_pt_loop B pt base st : path st0 p 0 B pt -> 0 <= B < 2 ^ 26 ->
  (forall i, 0 <= i < 512 -> vpn (Z.lor base (Z.shiftl i 12)) = B * 512 + i) -> forked st0 T0 D p c (B * 512) st ->
  returns (for_range 0 512 (fork_pte c base pt) st) (forked st0 T0 D p c ((B + 1) * 512)).
Proof.
  intros Hpath HB Hv Hf. replace ((B + 1) * 512) with (B * 512 + Z.max 0 512) by lia.
  apply (for_range_inv (fun i => forked st0 T0 D p c (B * 512 + i))); [by rewrite Z.add_0_r|]. clear st Hf. intros i st Hi Hf.
  pose proof (forked_path _ _ _ _ _ Hf Hpath) as Hpath'. destruct Hf as (T & Hev & Hk & Ho & Hpg).
  set (n := B * 512 + i) in *. assert (0 <= n < 2 ^ 35) as Hn by (unfold n; lia).
  destruct (fork_page_later st0 p c n st n ltac:(lia) (Hpg n ltac:(lia))) as [Hnp _].
  eapply returns_mono; [apply (fork_pte_spec st T D p c B pt i base (ev_tree _ _ _ _ _ Hev)); try done; [by apply Hv|]|].
  - fold n. rewrite Hnp. intros H H3 H2 e. destruct (only_fields _ _ (ev_only _ _ _ _ _ Hev)) as (_ & _ & -> & _).
    rewrite (Hk _ _ _ (t_low _ _ _ Htree)) by (simpl; done || lia). by apply (Hlow n Hn H).
  - intros st'. cbv beta zeta. fold n. unfold n. rewrite Z.add_assoc. fold n. destruct (utrans st p n) as [[f g]|] eqn:Hut.
    + intros H. eapply forked_next; [exact Hp|exact Hc|exact Hpc|lia|eassumption..].
    + intros ->. apply (forked_skip st0 T0 D p c n (n + 1)); [lia|lia|by exists T|]. intros m Hm. by replace m with n by lia.
Qed.

Lemma forked_entry N st l B a i : forked st0 T0 D p c N st -> path st0 p (S l) B a -> 0 <= i < 512 ->
  exists e, ent st0 a i = Some e /\ entry a i st = Ret e /\
    (has e VMM_PRESENT = true -> is_leaf (S l) e = false -> has e PTE_HUGE = false /\ path st0 p l (B * 512 + i) (addr e)).
Proof.
  intros Hf Hpath Hi. destruct (path_tag st0 T0 D p _ _ _ Htree Hp Hpath) as (tg & HT & Hl & _).
  destruct (ent_tag st0 T0 D a tg i Htree HT Hi) as [e He]. exists e. split; [done|].
  split; [by apply entry_ent; eapply forked_ent|]. intros HP Hlf. split; [|by econstructor].
  pose proof (t_ent _ _ _ Htree a tg i e HT He) as Hok. unfold entry_ok in Hok. rewrite Hl, Hlf in Hok. by apply Hok.
Qed.

(** The pages below an entry that is skipped. *)
Lemma fork_skip st l B a i e : 0 <= B -> (B * 512 + i + 1) * 512 ^ Z.of_nat (S l) <= 2 ^ 36 -> path st0 p (S l) B a -> 0 <= i < 512 ->
  ent st0 a i = Some e -> has e VMM_PRESENT = false \/ is_leaf (S l) e = true ->
  forked st0 T0 D p c ((B * 512 + i) * 512 ^ Z.of_nat (S l)) st -> forked st0 T0 D p c ((B * 512 + i + 1) * 512 ^ Z.of_nat (S l)) st.
Proof.
  intros HB Hle Hpath Hi He Hs Hf. assert (0 < 512 ^ Z.of_nat (S l)) by (apply Z.pow_pos_nonneg; lia).
  eapply forked_skip; [|exact Hle|exact Hf|].
  - split; [apply Z.mul_nonneg_nonneg; lia|]. apply Z.mul_le_mono_nonneg_r; lia.
  - intros m Hm. eapply skip_entry; try done.
    + split; [|lia]. etrans; [|apply Hm]. apply Z.mul_nonneg_nonneg; lia.
    + by apply above_range.
Qed.

Lemma fork_pde_spec i3 i2 pd i1 st : 0 <= i3 < 256 -> 0 <= i2 < 512 -> 0 <= i1 < 512 ->
  let B := i3 * 512 + i2 in path st0 p 1 B pd -> forked st0 T0 D p c ((B * 512 + i1) * 512) st ->
  returns (fork_pde c i3 i2 pd i1 st) (forked st0 T0 D p c ((B * 512 + (i1 + 1)) * 512)).
Proof.
  intros H3 H2 H1 B Hpath Hf. destruct (forked_entry _ _ _ _ _ _ Hf Hpath H1) as (e & He & Hrd & Hdown).
  assert (has e VMM_PRESENT = false \/ is_leaf 1 e = true -> forked st0 T0 D p c ((B * 512 + (i1 + 1)) * 512) st) as Hskip.
  { intros Hs. rewrite Z.add_assoc. apply (fork_skip st 0 B pd i1 e); try done; change (512 ^ Z.of_nat 1) with 512; unfold B; lia. }
  unfold fork_pde. rewrite Hrd. cbn [mbind out_bind]. destruct (has e VMM_PRESENT) eqn:HP; cbn [negb]; [|cbn; auto].
  destruct (has e PTE_HUGE) eqn:HH; [cbn; auto|]. destruct (Hdown eq_refl HH) as [_ Hpt]. rewrite Z.add_assoc.
  apply fork_pt_loop; [done|unfold B; lia| |done]. intros i0 Hi0. by apply fork_vpn.
Qed.

Lemma fork_pdpe_spec i3 pdp i2 st : 0 <= i3 < 256 -> 0 <= i2 < 512 ->
  path st0 p 2 i3 pdp -> forked st0 T0 D p c ((i3 * 512 + i2) * 512 ^ 2) st ->
  returns (fork_pdpe c i3 pdp i2 st) (forked st0 T0 D p c ((i3 * 512 + (i2 + 1)) * 512 ^ 2)).
Proof.
  intros H3 H2 Hpath Hf. destruct (forked_entry _ _ _ _ _ _ Hf Hpath H2) as (e & He & Hrd & Hdown).
  unfold fork_pdpe. rewrite Hrd. cbn [mbind out_bind]. destruct (has e VMM_PRESENT) eqn:HP; cbn [negb].
  - destruct (Hdown eq_refl eq_refl) as [-> Hpd]. set (B := i3 * 512 + i2) in *.
    replace ((i3 * 512 + (i2 + 1)) * 512 ^ 2) with ((B * 512 + Z.max 0 512) * 512) by (unfold B; lia).
    apply (for_range_inv (fun i => forked st0 T0 D p c ((B * 512 + i) * 512))).
    { by replace ((B * 512 + 0) * 512) with (B * 512 ^ 2) by lia. }
    intros i1 st' Hi1 Hf'. by apply fork_pde_spec.
  - cbn [returns]. rewrite Z.add_assoc. apply (fork_skip st 1 i3 pdp i2 e); try done; [lia| |by left]. change (512 ^ Z.of_nat 2) with (512 ^ 2). lia.
Qed.

(** The kernel's tables have no user pages. *)
Lemma shared_entry N st i e : forked st0 T0 D p c N st -> 0 <= i < 512 -> ent st0 p i = Some e -> has e VMM_PRESENT = true ->
  ent st (kernel_pml4 st) i = Some e -> forall m, 0 <= m < 2 ^ 36 -> above 2 m = i -> utrans st p m = None.
Proof.
  intros Hf Hi He HP Hk m Hm Hab. destruct (utrans st p m) as [[f g]|] eqn:E; [|done]. exfalso.
  pose proof (forked_ent _ _ _ _ _ _ _ Hf (path_root _ _) He) as He'. destruct Hf as (T & Hev & _). pose proof (ev_tree _ _ _ _ _ Hev) as Ht.
  destruct (utrans_leaf st T D p m f g Ht Hp Hm E) as (pt & x & Hlf & HTpt & _).
  destruct (above_step 2 m 0 i Hi Hab) as [_ H2]. rewrite (leaf_ptr st 2 p m e) in Hlf by (by rewrite ?H2).
  destruct (step_tag st T D _ _ _ m e Ht (t_kernel _ _ _ Ht) eq_refl) as (tg & HT & _ & Hch); [by rewrite H2|done|done|].
  simpl in Hch. subst tg. pose proof (leaf_shared st T D m _ _ _ Ht 2 _ HT Hlf). congruence.
Qed.

Lemma fork_pml4e_spec i3 st : 0 <= i3 < 256 -> forked st0 T0 D p c (i3 * 512 ^ 3) st ->
  returns (fork_pml4e p c i3 st) (forked st0 T0 D p c ((i3 + 1) * 512 ^ 3)).
Proof.
  intros H3 Hf. destruct (forked_entry _ _ _ _ _ i3 Hf (path_root _ _) ltac:(lia)) as (e & He & Hrd & Hdown).
  unfold fork_pml4e. rewrite Hrd. cbn [mbind out_bind]. destruct (has e VMM_PRESENT) eqn:HP; cbn [negb].
  - destruct (Hdown eq_refl eq_refl) as [_ Hpdp].
    assert (exists k, ent st (kernel_pml4 st) i3 = Some k) as [k Hk].
    { destruct Hf as (T & Hev & _). pose proof (ev_tree _ _ _ _ _ Hev) as Ht. eapply (ent_tag st T D); [done|apply (t_kernel _ _ _ Ht)|lia]. }
    rewrite (entry_ent _ _ _ _ Hk). cbn [mbind out_bind]. destruct (Z.eqb_spec e k) as [->|Hne].
    + cbn [returns]. eapply forked_skip; [|lia|exact Hf|]; [lia|]. intros m Hm.
      eapply (shared_entry _ st i3 k Hf); [lia|done|done|done|lia|]. by apply above_range.
    + replace ((i3 + 1) * 512 ^ 3) with ((i3 * 512 + Z.max 0 512) * 512 ^ 2) by lia.
      apply (for_range_inv (fun i => forked st0 T0 D p c ((i3 * 512 + i) * 512 ^ 2))).
      { by replace ((i3 * 512 + 0) * 512 ^ 2) with (i3 * 512 ^ 3) by lia. }
      intros i2 st' Hi2 Hf'. by apply fork_pdpe_spec.
  - cbn [returns]. apply (fork_skip st 2 0 p i3 e); try done; [|apply path_root|lia|by left]. change (512 ^ Z.of_nat 3) with (512 ^ 3). lia.
Qed.

Lemma vmm_fork_cow_pages_spec : returns (vmm_fork_cow_pages p c st0) (forked st0 T0 D p c (2 ^ 35)).
Proof.
  unfold vmm_fork_cow_pages.
  rewrite (proj2 (Z.eqb_neq p 0)) by (eapply (tag_nonzero st0 T0 D); [done|by apply (t_dir _ _ _ Htree)]).
  rewrite (proj2 (Z.eqb_neq c 0)) by (eapply (tag_nonzero st0 T0 D); [done|by apply (t_dir _ _ _ Htree)]). cbn [orb].
  change (2 ^ 35) with (Z.max 0 256 * 512 ^ 3). apply (for_range_inv (fun i => forked st0 T0 D p c (i * 512 ^ 3))).
  - exists T0. split; [by apply grown_evolves, grown_refl|]. split; [done|]. split; [done|]. intros m Hm. unfold fork_page.
    destruct (utrans st0 p m) as [[f g]|]; [right; split; [lia|done]|done].
  - intros i st Hi Hf. by apply fork_pml4e_spec.
Qed.
End loops.

(** ** Memory after a fork *)

Lemma fork_flags_ro g : has (fork_flags g) VMM_WRITABLE = false.
Proof. by rewrite has_writable, fork_flags_bit by lia. Qed.

Section memory.
Context (st0 : vst (P := P)) (T0 : gmap Z tag) (D : gset Z) (p c N : Z) (st : vst (P := P)).
Hypothesis (Hp : p ∈ D) (Hc : c ∈ D) (Hpc : p <> c) (Hf : forked st0 T0 D p c N st).
(** The child starts without user pages. *)
Hypothesis Hfresh : forall m, 0 <= m < 2 ^ 36 -> utrans st0 c m = None.

(** A page is as it was, or one of the two that share a page of the parent. *)
Lemma forked_origin r m f g : r ∈ D -> 0 <= m < 2 ^ 36 -> utrans st r m = Some (f, g) ->
  r <> c /\ utrans st0 r m = Some (f, g) /\ (r = p -> utrans st c m = None) \/
  (r = p \/ r = c) /\ has g VMM_WRITABLE = false /\ exists g0, utrans st0 p m = Some (f, g0).
Proof.
  intros Hr Hm Hut. destruct Hf as (T & _ & _ & Ho & Hpg). specialize (Hpg m Hm). unfold fork_page in Hpg. rewrite (Hfresh m Hm) in Hpg.
  destruct (decide (r = p \/ r = c)) as [Hrr|Hrr]; [|left; rewrite <- (Ho r m) by tauto; split; [tauto|]; split; [done|tauto]].
  destruct (utrans st0 p m) as [[f0 g0]|] eqn:E0.
  - destruct Hpg as [(_ & H1 & H2)|(_ & H1 & H2)]; destruct Hrr as [-> | ->]; rewrite ?H1, ?H2 in Hut; try done.
    + injection Hut as -> <-. right. split; [by left|]. split; [apply fork_flags_ro|by exists g0].
    + injection Hut as -> <-. right. split; [by right|]. split; [apply fork_flags_ro|by exists g0].
    + injection Hut as -> ->. left. by split.
  - destruct Hpg as [H1 H2], Hrr as [-> | ->]; congruence.
Qed.

Lemma forked_wf : tree st0 T0 D -> mem_ok st0 T0 D -> wf st D.
Proof.
  intros Ht [Hfr Hex]. pose proof forked_origin as Hor. destruct Hf as (T & Hev & _). exists T. split; [apply Hev|].
  destruct (only_fields _ _ (ev_only _ _ _ _ _ Hev)) as (Hfs & _). split.
  - intros r m f g Hr Hm Hut. rewrite Hfs.
    assert (exists r0 g0, r0 ∈ D /\ utrans st0 r0 m = Some (f, g0)) as (r0 & g0 & Hr0 & H0)
      by (destruct (Hor r m f g Hr Hm Hut) as [(_ & H & _)|(_ & _ & g0 & H)]; eauto).
    destruct (Hfr r0 m f g0 Hr0 Hm H0) as (Hb & HT & Hu). split; [done|]. split; [|by apply (ev_used _ _ _ _ _ Hev)].
    destruct (T !! f) as [tg|] eqn:E; [|done]. exfalso. by apply (ev_new _ _ _ _ _ Hev f tg E HT).
  - intros r m r' m' f g g' Hr Hr' Hm Hm' Hne Hut Hut'.
    destruct (Hor r m f g Hr Hm Hut) as [(Hrc & H0 & Hcn)|(_ & ? & _)]; [|done].
    destruct (Hor r' m' f g' Hr' Hm' Hut') as [(_ & H0' & _)|(Hrr & _ & g0 & H0')]; [by eapply (Hex r m r' m')|].
    destruct (decide ((r, m) = (p, m'))) as [[= -> ->]|Hd]; [|by eapply (Hex r m p m')].
    destruct Hrr as [-> | ->]; [done|]. rewrite (Hcn eq_refl) in Hut'. done.
Qed.

(** No memory changes, and the child has the parent's. *)
Lemma forked_vmem r va : r ∈ D -> r <> c -> vmem st r va = vmem st0 r va.
Proof.
  intros Hr Hrc. destruct Hf as (T & Hev & _ & Ho & Hpg). destruct (only_fields _ _ (ev_only _ _ _ _ _ Hev)) as (Hfs & _). unfold vmem. rewrite Hfs.
  specialize (Hpg _ (vpn_range va)). destruct (decide (r = p)) as [->|Hrp]; [|by rewrite Ho by (done || apply vpn_range)].
  unfold fork_page in Hpg. destruct (utrans st0 p (vpn va)) as [[f g]|]; [|by destruct Hpg as [-> _]].
  destruct Hpg as [(_ & -> & _)|(_ & -> & _)]; done.
Qed.

Lemma fork_flags_cow g : has (fork_flags g) VMM_COW = true.
Proof. change VMM_COW with (2 ^ 9). by rewrite (has_bit 9), fork_flags_bit by lia. Qed.

(** Pages that could be written still can, and so can the child's. *)
Lemma forked_uwrite r m : r ∈ D -> 0 <= m < 2 ^ 36 -> (uwrite st0 r m = true -> uwrite st r m = true) /\ (r = c -> utrans st r m <> None -> uwrite st r m = true) /\
  (r = p -> m < N -> pavail (pages st) <> 0 -> utrans st0 r m <> None -> uwrite st r m = true).
Proof.
  intros Hr Hm. destruct Hf as (T & _ & _ & Ho & Hpg). specialize (Hpg m Hm). unfold fork_page in Hpg. rewrite (Hfresh m Hm) in Hpg. unfold uwrite.
  destruct (decide (r = p)) as [->|Hrp]; [|destruct (decide (r = c)) as [->|Hrc]].
  - destruct (utrans st0 p m) as [[f g]|]; [|done]. destruct Hpg as [(_ & -> & _)|(H & -> & _)]; [by rewrite fork_flags_cow, orb_true_r|].
    split; [done|]. split; [done|]. intros _ Hlt Hav. by destruct Hav; apply H.
  - rewrite Hfresh by done. split; [done|]. split; [|done]. intros _. destruct (utrans st0 p m) as [[f g]|].
    + destruct Hpg as [(_ & _ & ->)|(_ & _ & ->)]; [|done]. by rewrite fork_flags_cow, orb_true_r.
    + by destruct Hpg as [_ ->].
  - rewrite Ho by done. done.
Qed.

Lemma forked_vmem_child va : vpn va < N -> vmem st c va = vmem st0 p va \/ vmem st c va = None /\ pavail (pages st) = 0.
Proof.
  intros Hva. destruct Hf as (T & Hev & _ & _ & Hpg). destruct (only_fields _ _ (ev_only _ _ _ _ _ Hev)) as (Hfs & _). unfold vmem. rewrite Hfs.
  specialize (Hpg _ (vpn_range va)). unfold fork_page in Hpg. rewrite (Hfresh _ (vpn_range va)) in Hpg.
  destruct (utrans st0 p (vpn va)) as [[f g]|]; [|left; by destruct Hpg as [_ ->]].
  destruct Hpg as [(_ & _ & ->)|(H & _ & ->)]; [by left|]. right. split; [done|by apply H].
Qed.
End memory.
End fork.
