(* ===== verification/VmmDir.v ===== *)
(** * New address spaces

    [vmm_create_directory] on a consistent memory: it gives a new address space
    without user pages, that has the kernel's upper half and its low mappings,
    and touches no other; or it fails and takes no memory. *)

From stdpp Require Import base numbers list gmap sets.
From Stdlib Require Import ZArith Lia.
From S2P Require Import Prelude Vmm VmmTree VmmMap VmmCow VmmFork.

#[local] Open Scope Z_scope.

(** ** Tables by entry *)

Definition tab_of (g : Z -> Z) : list Z := map g (seqZ 0 512).

Definition upd (g : Z -> Z) (i x : Z) : Z -> Z := fun j => if j =? i then x else g j.

(** [F] at the entries from [lo] to [hi]. *)
Definition filled (g F : Z -> Z) (lo hi : Z) : Z -> Z := fun j => if (lo <=? j) && (j <? hi) then F j else g j.

Lemma length_tab_of g : length (tab_of g) = 512%nat.
Proof. unfold tab_of. by rewrite length_map, length_seqZ. Qed.

Lemma getz_tab_of g i : 0 <= i < 512 -> getz (tab_of g) i = Some (g i).
Proof.
  intros Hi. unfold getz, tab_of. zcmp. rewrite list_lookup_fmap, lookup_seqZ_lt by lia. simpl. f_equal. f_equal. lia.
Qed.

Lemma tab_eq l g : length l = 512%nat -> (forall i, 0 <= i < 512 -> getz l i = Some (g i)) -> l = tab_of g.
Proof.
  intros Hl H. apply list_eq_same_length with 512%nat; [apply length_tab_of|done|]. intros i x y Hi.
  specialize (H (Z.of_nat i) ltac:(lia)). pose proof (getz_tab_of g (Z.of_nat i) ltac:(lia)) as H'. unfold getz in *. revert H H'. zcmp.
  rewrite Nat2Z.id. congruence.
Qed.

Lemma tab_of_ext g g' : (forall i, 0 <= i < 512 -> g i = g' i) -> tab_of g = tab_of g'.
Proof. intros H. apply tab_eq; [apply length_tab_of|]. intros i Hi. by rewrite getz_tab_of, H. Qed.

Lemma zeros_tab : zeros = tab_of (fun _ => 0).
Proof.
  apply tab_eq; [apply length_replicate|]. intros i Hi. unfold getz, zeros. zcmp. apply lookup_replicate_2. lia.
Qed.

Lemma tab_of_insert g i x : 0 <= i < 512 -> <[Z.to_nat i := x]> (tab_of g) = tab_of (upd g i x).
Proof.
  intros Hi. apply tab_eq; [by rewrite length_insert, length_tab_of|]. intros j Hj. unfold upd. destruct (Z.eqb_spec j i) as [->|Hne].
  - apply getz_insert_eq. rewrite length_tab_of. lia.
  - rewrite getz_insert_ne by lia. by apply getz_tab_of.
Qed.

Section dir.
Context {P : Type} `{!Pages P, !PagesLaws P}.
Implicit Types (st : vst (P := P)) (T : gmap Z tag) (D A : gset Z) (M : gmap Z (Z -> Z)).

(** The pages after [a] has been asked for. *)
Definition taken A a A' : Prop := a = 0 /\ A' = A \/ a <> 0 /\ a ∉ A /\ A' = {[a]} ∪ A.

(** ** A construction under way

    Since [st0] the pages [A] have been taken, and the tables [M] written to
    some of them. *)
Record built st0 T M A st : Prop := {
  b_only : only_tables st0 st;
  b_new a g : M !! a = Some g -> tabs st !! a = Some (tab_of g);
  b_old a tg : T !! a = Some tg -> tabs st !! a = tabs st0 !! a;
  b_dom a g : M !! a = Some g -> a ∈ A;
  b_page a : a ∈ A -> 0 < a < 2 ^ 26 /\ a mod PAGE_SIZE = 0 /\ T !! a = None /\ ~ pused (pages st0) a;
  b_used x : pused (pages st) x <-> pused (pages st0) x \/ x ∈ A;
  b_pwf : pwf (pages st);
  b_plow : plow (pages st);
  b_avail : pavail (pages st) + Z.of_nat (size A) = pavail (pages st0);
}.

Lemma built_refl st T : pwf (pages st) -> plow (pages st) -> built st T ∅ ∅ st.
Proof. intros Ht Hlow. split; try done; [by destruct st|set_solver|rewrite size_empty; lia]. Qed.

(** The tables are on pages in use. *)
Definition covers st T : Prop := forall a tg, T !! a = Some tg -> pused (pages st) a.

Lemma tree_covers st T D : tree st T D -> covers st T.
Proof. intros Ht a tg Ha. by apply (t_tab _ _ _ Ht a tg Ha). Qed.

Lemma built_alloc st0 T M A st : covers st0 T -> built st0 T M A st ->
  returns (pmm_alloc_page st) (fun '(a, st') => exists A', taken A a A' /\ built st0 T M A' st' /\
    (a = 0 -> pavail (pages st0) = Z.of_nat (size A))).
Proof.
  intros Ht [o n ol dm pg us wf' lw av]. unfold pmm_alloc_page. eapply returns_bind; [by apply palloc_spec|]. intros [a q] (Hwf & Hlw & Hq). cbn [returns].
  destruct Hq as [(-> & Hz & Hz' & Hu)|(Ha & Hal & Hnu & Hav & Hu)].
  - exists A. split; [by left|]. split; [|lia]. split; try done; [rewrite o; by destruct st0| |simpl; lia]. intros x. simpl. rewrite Hu. apply us.
  - assert (~ pused (pages st0) a /\ a ∉ A) as [Hn0 HnA] by (split; intros H; apply Hnu, us; auto).
    exists ({[a]} ∪ A). split; [right; split; [lia|done]|]. split; [|lia].
    assert (T !! a = None) as HTa. { destruct (T !! a) as [tg|] eqn:E; [|done]. exfalso. by apply Hn0, (Ht a tg). }
    split; try done; [rewrite o; by destruct st0|set_solver| | |].
    + intros b [->%elem_of_singleton|Hb]%elem_of_union; [done|by apply pg].
    + intros x. simpl. rewrite Hu, us. set_solver.
    + simpl. rewrite size_union, size_singleton by set_solver. lia.
Qed.

Lemma built_free st0 T M A st a : built st0 T M A st -> a ∈ A -> returns (pmm_free_page a st) (built st0 T (delete a M) (A ∖ {[a]})).
Proof.
  intros [o n ol dm pg us wf' lw av] Ha. destruct (pg a Ha) as (Hr & Hal & HT & Hn). unfold pmm_free_page.
  eapply returns_bind; [apply pfree_spec; [done|done|apply us; by right|done|lia]|]. intros q (Hwf & Hlw & Hav & Hu). cbn [returns]. split; simpl.
  - rewrite o. by destruct st0.
  - intros b g [Hb Hg]%lookup_delete_Some. rewrite lookup_delete_ne by done. by apply n.
  - intros b tg Hb. rewrite lookup_delete_ne by congruence. by eapply ol.
  - intros b g [Hb Hg]%lookup_delete_Some. apply dm in Hg. set_solver.
  - intros b Hb. apply pg. set_solver.
  - intros x. rewrite Hu, us. split; [|set_solver]. intros [[?|?] ?]; [by left|set_solver].
  - done.
  - done.
  - rewrite size_difference, size_singleton by set_solver. assert (size A <> 0%nat) by (intros E%size_empty_iff; set_solver). lia.
Qed.

Lemma built_write st0 T M A st a g : built st0 T M A st -> a ∈ A ->
  built st0 T (<[a := g]> M) A (set_tabs (<[a := tab_of g]> (tabs st)) st).
Proof.
  intros [o n ol dm pg us wf' lw av] Ha. destruct (pg a Ha) as (_ & _ & HT & _). split; try done; simpl.
  - rewrite o. by destruct st0.
  - intros b g' [[-> ->]|[Hb Hg]]%lookup_insert_Some; [by rewrite lookup_insert_eq|]. rewrite lookup_insert_ne by done. by apply n.
  - intros b tg Hb. rewrite lookup_insert_ne by congruence. by eapply ol.
  - intros b g' [[<- _]|[_ Hg]]%lookup_insert_Some; [done|by eapply dm].
Qed.

Lemma built_zero st0 T M A st a : built st0 T M A st -> a ∈ A -> returns (zero_table a st) (built st0 T (<[a := fun _ => 0]> M) A).
Proof.
  intros Hb Ha. destruct (b_page _ _ _ _ _ Hb a Ha) as (Hr & _). rewrite zero_table_ok by lia. cbn [returns]. rewrite zeros_tab.
  by apply built_write.
Qed.

Lemma built_set st0 T M A st a g i x : built st0 T M A st -> M !! a = Some g -> 0 <= i < 512 ->
  returns (set_entry a i x st) (built st0 T (<[a := upd g i x]> M) A).
Proof.
  intros Hb Ha Hi. destruct (b_page _ _ _ _ _ Hb a (b_dom _ _ _ _ _ Hb a g Ha)) as (Hr & _).
  unfold set_entry. rewrite tab_low, (b_new _ _ _ _ _ Hb a g Ha) by lia. cbn [deref mbind out_bind].
  rewrite wr_ok by (rewrite length_tab_of; lia). cbn [mbind out_bind returns]. rewrite tab_of_insert by done.
  apply built_write; [done|by eapply (b_dom _ _ _ _ _ Hb)].
Qed.

Lemma built_ext st0 T M A st a g g' : built st0 T (<[a := g]> M) A st -> (forall i, 0 <= i < 512 -> g i = g' i) -> built st0 T (<[a := g']> M) A st.
Proof.
  intros [o n ol dm pg us wf' lw av] Hg. split; try done.
  - intros b h [[<- <-]|[Hb Hh]]%lookup_insert_Some; [|apply n; by rewrite lookup_insert_ne].
    rewrite <- (tab_of_ext g g' Hg). apply n, lookup_insert_eq.
  - intros b h [[<- _]|[Hb Hh]]%lookup_insert_Some; [eapply dm, lookup_insert_eq|]. eapply dm. by rewrite lookup_insert_ne.
Qed.

(** A loop that writes a part of a table. *)
Lemma built_fill st0 T M A st a g F lo hi body :
  built st0 T (<[a := g]> M) A st -> 0 <= lo <= hi -> hi <= 512 ->
  (forall i st', lo <= i < hi -> built st0 T (<[a := filled g F lo i]> M) A st' ->
     body i st' = set_entry a i (F i) st' \/ F i = g i /\ body i st' = Ret st') ->
  returns (for_range lo hi body st) (built st0 T (<[a := filled g F lo hi]> M) A).
Proof.
  intros Hb Hlo Hhi Hbody. replace hi with (Z.max lo hi) at 2 by lia.
  apply (for_range_inv (fun i => built st0 T (<[a := filled g F lo i]> M) A)).
  - eapply built_ext; [done|]. intros i _. unfold filled. destruct (Z.leb_spec lo i), (Z.ltb_spec i lo); done || lia.
  - intros i st' Hi Hb'.
    assert (forall j, 0 <= j < 512 -> upd (filled g F lo i) i (F i) j = filled g F lo (i + 1) j) as Hext.
    { intros j Hj. unfold upd, filled. destruct (Z.eqb_spec j i) as [->|Hne]; zcmp; [done|].
      destruct (Z.leb_spec lo j); [|done]. destruct (Z.ltb_spec j i); zcmp; done. }
    destruct (Hbody i st' Hi Hb') as [-> |[HF ->]].
    + eapply returns_mono; [eapply (built_set _ _ _ _ _ a _ i); [done|apply lookup_insert_eq|lia]|].
      intros st'' Hb''. rewrite insert_insert_eq in Hb''. by eapply built_ext.
    + cbn [returns]. eapply built_ext; [exact Hb'|]. intros j Hj. rewrite <- Hext by done. unfold upd.
      destruct (Z.eqb_spec j i) as [->|]; [|done]. unfold filled. zcmp. done.
Qed.

Lemma built_free_if st0 T M A st a : built st0 T M A st -> a = 0 \/ a ∈ A ->
  returns (free_if a st) (fun st' => exists M', built st0 T M' (A ∖ {[a]}) st').
Proof.
  intros Hb Ha. unfold free_if. destruct (Z.eqb_spec a 0) as [->|Hne].
  - cbn [returns]. exists M. replace (A ∖ {[0]}) with A; [done|]. assert (0 ∉ A) by (intros H; apply (b_page _ _ _ _ _ Hb) in H; lia). set_solver.
  - destruct Ha as [|Ha]; [done|]. eapply returns_mono; [by apply (built_free st0 T M A)|]. intros st' H. eauto.
Qed.

Lemma built_ent st0 T M A st a tg i : built st0 T M A st -> T !! a = Some tg -> ent st a i = ent st0 a i.
Proof. intros Hb Ha. unfold ent, tab. by rewrite (b_old _ _ _ _ _ Hb a tg). Qed.

(** ** The tables of a new address space *)

(** A copy of the kernel's entry, if it is present. *)
Definition kernel_entry st (a i : Z) : Z := match ent st a i with Some e => if has e VMM_PRESENT then e else 0 | None => 0 end.

Definition new_dir st (pdp : Z) : Z -> Z := upd (filled (fun _ => 0) (kernel_entry st (kernel_pml4 st)) 256 512) 0 (table_pte pdp).
Definition new_pdp st (pd0 pd1 : Z) : Z -> Z :=
  filled (upd (upd (fun _ => 0) 0 (table_pte pd0)) 1 (table_pte pd1)) (kernel_entry st (kernel_low_pdp st)) 2 256.
Definition new_pd0 : Z -> Z := filled (fun _ => 0) identity_entry 0 32.

Definition dir_tables st (d pdp pd0 pd1 : Z) : gmap Z (Z -> Z) :=
  <[d := new_dir st pdp]> (<[pdp := new_pdp st pd0 pd1]> (<[pd0 := new_pd0]> (<[pd1 := fun _ => 0]> ∅))).

(** Copying the kernel's entries. *)
Lemma built_mirror st0 T D M A st a g k tg lo hi body : tree st0 T D ->
  built st0 T (<[a := g]> M) A st -> 0 <= lo <= hi -> hi <= 512 -> T !! k = Some tg -> (forall i, lo <= i < hi -> g i = 0) ->
  (forall i st', lo <= i < hi -> built st0 T (<[a := filled g (kernel_entry st0 k) lo i]> M) A st' ->
     body i st' = e ← entry k i st'; if has e VMM_PRESENT then set_entry a i e st' else Ret st') ->
  returns (for_range lo hi body st) (built st0 T (<[a := filled g (kernel_entry st0 k) lo hi]> M) A).
Proof.
  intros Ht Hb Hlo Hhi Hk Hg Hbody. apply built_fill; try done. intros i st' Hi Hb'. rewrite (Hbody i st' Hi Hb').
  destruct (ent_tag st0 T D k tg i Ht Hk ltac:(lia)) as [e He]. unfold kernel_entry. rewrite He.
  rewrite (entry_ent _ _ _ e) by (by rewrite (built_ent _ _ _ _ _ _ _ _ Hb' Hk)). cbn [mbind out_bind].
  destruct (has e VMM_PRESENT); [by left|right]. by rewrite Hg.
Qed.

(** Writing the three lower tables and the pointer to them. *)
Lemma create_tables st0 T D d pdp pd0 pd1 st : tree st0 T D -> NoDup [d; pdp; pd0; pd1] ->
  let A := {[pd1]} ∪ ({[pd0]} ∪ ({[pdp]} ∪ ({[d]} ∪ ∅))) in
  built st0 T (<[d := filled (fun _ => 0) (kernel_entry st0 (kernel_pml4 st0)) 256 512]> ∅) A st ->
  returns (st ← zero_table pdp st;
      st ← zero_table pd0 st;
      st ← zero_table pd1 st;
      st ← for_range 0 32 (fun i st => set_entry pd0 i (identity_entry i) st) st;
      st ← set_entry pdp 0 (table_pte pd0) st;
      st ← set_entry pdp 1 (table_pte pd1) st;
      st ← for_range 2 256 (fun i st =>
        if kernel_low_pdp st =? 0 then Ret st
        else e ← entry (kernel_low_pdp st) i st; if has e VMM_PRESENT then set_entry pdp i e st else Ret st) st;
      st ← set_entry d 0 (table_pte pdp) st;
      Ret (d, st)) (fun '(d', st') => d' = d /\ built st0 T (dir_tables st0 d pdp pd0 pd1) A st').
Proof.
  intros Ht Hnd A Hb. apply NoDup_cons in Hnd as [Hd Hnd]. apply NoDup_cons in Hnd as [Hpdp Hnd]. apply NoDup_cons in Hnd as [Hpd0 _].
  eapply returns_bind; [apply (built_zero _ _ _ _ _ pdp Hb); set_solver|]. clear Hb st. intros st Hb.
  eapply returns_bind; [apply (built_zero _ _ _ _ _ pd0 Hb); set_solver|]. clear Hb st. intros st Hb.
  eapply returns_bind; [apply (built_zero _ _ _ _ _ pd1 Hb); set_solver|]. clear Hb st. intros st Hb.
  rewrite (insert_insert_ne _ pd1 pd0) in Hb by set_solver.
  eapply returns_bind; [apply (built_fill _ _ _ _ _ pd0 _ identity_entry 0 32 _ Hb); [lia|lia|by left]|]. clear Hb. intros st1 Hb. cbv beta in Hb.
  rewrite (insert_insert_ne _ pd1 pdp), (insert_insert_ne _ pd0 pdp) in Hb by set_solver.
  eapply returns_bind; [eapply (built_set _ _ _ _ _ pdp _ 0 _ Hb); [apply lookup_insert_eq|lia]|]. clear Hb. intros st2 Hb. rewrite insert_insert_eq in Hb.
  eapply returns_bind; [eapply (built_set _ _ _ _ _ pdp _ 1 _ Hb); [apply lookup_insert_eq|lia]|]. clear Hb. intros st3 Hb. rewrite insert_insert_eq in Hb.
  eapply returns_bind.
  { eapply (built_mirror st0 T D _ _ _ pdp _ (kernel_low_pdp st0) _ 2 256 _ Ht Hb); [lia|lia|apply (t_low _ _ _ Ht)| |].
    - intros i Hi. unfold upd. zcmp. done.
    - intros i st' Hi Hb'. destruct (only_fields _ _ (b_only _ _ _ _ _ Hb')) as (_ & _ & -> & _).
      rewrite (proj2 (Z.eqb_neq _ 0)); [done|]. eapply (tag_nonzero st0 T D); [done|apply (t_low _ _ _ Ht)]. }
  clear Hb. intros st4 Hb. rewrite (insert_insert_ne _ pd1 d), (insert_insert_ne _ pd0 d), (insert_insert_ne _ pdp d) in Hb by set_solver.
  eapply returns_bind; [eapply (built_set _ _ _ _ _ d _ 0 _ Hb); [apply lookup_insert_eq|lia]|]. clear Hb. intros st5 Hb. rewrite insert_insert_eq in Hb.
  cbn [returns]. split; [done|]. exact Hb.
Qed.

Lemma taken_size A a A' : taken A a A' -> (size A' <= S (size A))%nat.
Proof. intros [[_ ->]|(_ & Hn & ->)]; [lia|]. rewrite size_union, size_singleton by set_solver. lia. Qed.

(** Giving the pages back. *)
Lemma create_undo st0 T M A st d a1 a2 a3 A1 A2 : taken {[d]} a1 A1 -> taken A1 a2 A2 -> taken A2 a3 A -> built st0 T M A st ->
  returns (st ← free_if a1 st; st ← free_if a2 st; st ← free_if a3 st; st ← pmm_free_page d st; Ret (0, st))
    (fun '(x, st') => x = 0 /\ exists M, built st0 T M ∅ st').
Proof.
  intros H1 H2 H3 Hb. assert (d ∈ A /\ d <> 0) as [HdA Hd].
  { assert (d ∈ A) as H by (unfold taken in *; set_solver). split; [done|]. intros ->. apply (b_page _ _ _ _ _ Hb) in H. lia. }
  eapply returns_bind; [apply (built_free_if _ _ _ _ _ a1 Hb); clear - H1 H2 H3; unfold taken in *; set_solver|]. intros st5 (M5 & Hb5).
  eapply returns_bind; [apply (built_free_if _ _ _ _ _ a2 Hb5); clear - H1 H2 H3; unfold taken in *; set_solver|]. intros st6 (M6 & Hb6).
  eapply returns_bind; [apply (built_free_if _ _ _ _ _ a3 Hb6); clear - H1 H2 H3; unfold taken in *; set_solver|]. intros st7 (M7 & Hb7).
  eapply returns_bind; [apply (built_free _ _ _ _ _ d Hb7); clear - Hd H1 H2 H3; unfold taken in *; set_solver|]. intros st8 Hb8. cbn [returns].
  split; [done|]. exists (delete d M7). replace (∅ : gset Z) with (A ∖ {[a1]} ∖ {[a2]} ∖ {[a3]} ∖ {[d]}); [done|].
  clear - H1 H2 H3. destruct H1 as [[-> ->]|(_ & _ & ->)], H2 as [[-> ->]|(_ & _ & ->)], H3 as [[-> ->]|(_ & _ & ->)]; set_solver.
Qed.

Lemma taken_all d pdp pd0 pd1 A1 A2 A3 : taken {[d]} pdp A1 -> taken A1 pd0 A2 -> taken A2 pd1 A3 -> pdp <> 0 -> pd0 <> 0 -> pd1 <> 0 ->
  NoDup [d; pdp; pd0; pd1] /\ size A3 = 4%nat /\ A3 = {[pd1]} ∪ ({[pd0]} ∪ ({[pdp]} ∪ ({[d]} ∪ ∅))).
Proof.
  intros [[? _]|(_ & Hn1 & ->)] [[? _]|(_ & Hn2 & ->)] [[? _]|(_ & Hn3 & ->)] ???; try done. split; [|split; [|set_solver]].
  - repeat apply NoDup_cons_2; [set_solver..|apply NoDup_nil_2].
  - by rewrite !size_union, !size_singleton by set_solver.
Qed.

Lemma create_built st T D : tree st T D ->
  returns (vmm_create_directory st) (fun '(d, st') =>
    d = 0 /\ pavail (pages st) < 4 /\ (exists M, built st T M ∅ st') \/
    d <> 0 /\ exists pdp pd0 pd1 A, NoDup [d; pdp; pd0; pd1] /\ size A = 4%nat /\ built st T (dir_tables st d pdp pd0 pd1) A st').
Proof.
  intros Ht. pose proof (tree_covers _ _ _ Ht) as Hcov. unfold vmm_create_directory.
  eapply returns_bind; [apply (built_alloc st T ∅ ∅ st Hcov), built_refl; [apply (t_pwf _ _ _ Ht)|apply (t_plow _ _ _ Ht)]|].
  intros [d st1] (A0 & H0 & Hb & Hz0). destruct H0 as [[-> ->]|(Hd & _ & ->)].
  { cbn. left. split; [done|]. split; [rewrite Hz0 by done; rewrite size_empty; lia|by eauto]. }
  rewrite (proj2 (Z.eqb_neq d 0)) by done. rewrite (right_id_L ∅ (∪)) in Hb.
  eapply returns_bind; [apply (built_zero _ _ _ _ _ d Hb); set_solver|]. clear Hb st1. intros st1 Hb.
  eapply returns_bind.
  { eapply (built_mirror st T D _ _ _ d _ (kernel_pml4 st) _ 256 512 _ Ht Hb); [lia|lia|apply (t_kernel _ _ _ Ht)|done|].
    intros i st' Hi Hb'. by destruct (only_fields _ _ (b_only _ _ _ _ _ Hb')) as (_ & -> & _). }
  clear Hb st1. intros st1 Hb.
  eapply returns_bind; [by eapply built_alloc|]. intros [pdp st2] (A1 & H1 & Hb1 & Hz1).
  eapply returns_bind; [by eapply built_alloc|]. intros [pd0 st3] (A2 & H2 & Hb2 & Hz2).
  eapply returns_bind; [by eapply built_alloc|]. intros [pd1 st4] (A3 & H3 & Hb3 & Hz3).
  destruct ((pdp =? 0) || (pd0 =? 0) || (pd1 =? 0)) eqn:Hz.
  - eapply returns_mono; [by eapply create_undo|]. intros [x st'] [-> Hx]. left. split; [done|]. split; [|done].
    pose proof (taken_size _ _ _ H1). pose proof (taken_size _ _ _ H2). rewrite size_singleton in *.
    rewrite !orb_true_iff, !Z.eqb_eq in Hz. destruct Hz as [[-> | ->]| ->]; [rewrite Hz1 by done|rewrite Hz2 by done|rewrite Hz3 by done];
      rewrite ?size_singleton; lia.
  - rewrite !orb_false_iff, !Z.eqb_neq in Hz. destruct Hz as [[N1 N2] N3].
    destruct (taken_all d pdp pd0 pd1 A1 A2 A3) as (Hnd & Hsz & ->); [done..|].
    eapply returns_mono; [by apply (create_tables st T D d pdp pd0 pd1 st4 Ht)|].
    intros [d' st'] [-> Hb']. right. split; [done|]. exists pdp, pd0, pd1. eexists. split; [done|]. split; [exact Hsz|exact Hb'].
Qed.

(** ** Their places *)

Lemma built_tree st0 T D M A st : tree st0 T D -> built st0 T M A st -> tree st T D.
Proof.
  intros Ht Hb. destruct (only_fields _ _ (b_only _ _ _ _ _ Hb)) as (_ & Hk & Hlow & _).
  pose proof (t_kernel _ _ _ Ht) as HTk. pose proof (t_low _ _ _ Ht) as HTl. split.
  - intros a tg Ha. destruct (t_tab _ _ _ Ht a tg Ha) as (H1 & H2 & H3). rewrite (b_old _ _ _ _ _ Hb a tg Ha).
    split; [done|]. split; [|done]. apply (b_used _ _ _ _ _ Hb). by left.
  - intros a tg i e Ha. rewrite (built_ent _ _ _ _ _ _ _ _ Hb Ha). intros He. eapply entry_ok_mono; [done|done|done| |by eapply (t_ent _ _ _ Ht)].
    intros _ b j [-> | ->]; [by rewrite (built_ent _ _ _ _ _ _ _ _ Hb HTk)|by rewrite (built_ent _ _ _ _ _ _ _ _ Hb HTl)].
  - apply (t_dir _ _ _ Ht).
  - intros d Hd. destruct (t_high _ _ _ Ht d Hd) as (e & H1 & H2 & H3). exists e.
    by rewrite Hk, (built_ent _ _ _ _ _ _ _ _ Hb HTk), (built_ent _ _ _ _ _ _ _ _ Hb (t_dir _ _ _ Ht d Hd)).
  - by rewrite Hk.
  - by rewrite Hlow.
  - apply Hb.
  - apply Hb.
Qed.

Lemma built_trans st0 T D M A st r n : tree st0 T D -> built st0 T M A st -> root st0 D r -> 0 <= n < 2 ^ 36 -> trans st r n = trans st0 r n.
Proof.
  intros Ht Hb Hr Hn. destruct (root_tag st0 T D r n Ht Hr Hn) as (tg & HT & Hl & _). unfold trans.
  eapply (tr_agree st0 T D); [done| |done|done]. intros b tgb j Hb'. by eapply built_ent.
Qed.

(** A table already written is given a place. *)
Lemma tree_place st T D p g tg : tree st T D -> 0 < p < 2 ^ 26 -> p mod PAGE_SIZE = 0 -> T !! p = None -> pused (pages st) p ->
  tabs st !! p = Some (tab_of g) -> (forall j, 0 <= j < 512 -> entry_ok st T tg j (g j)) -> tree st (<[p := tg]> T) D.
Proof.
  intros Ht Hp Hal HT Hu Htab Hok. destruct (tree_new st T D p (tab_of g) tg Ht Hp Hal HT Hu (length_tab_of g)) as [H _].
  - intros j e Hj. pose proof (getz_Some_lt _ _ _ Hj) as Hlt. rewrite length_tab_of in Hlt. rewrite getz_tab_of in Hj by lia.
    injection Hj as <-. apply Hok. lia.
  - rewrite (insert_id (tabs st) p _ Htab) in H. by destruct st.
Qed.

Lemma tree_dir st T D d e : tree st T D -> T !! d = Some (Priv d 3 0) -> ent st d 511 = Some e -> ent st (kernel_pml4 st) 511 = Some e ->
  has e VMM_PRESENT = true -> tree st T ({[d]} ∪ D).
Proof.
  intros [t1 t2 t3 t4 t5 t6 t7 t8] HT He Hk Hp. split; try done.
  - intros x [->%elem_of_singleton|Hx]%elem_of_union; [done|by apply t3].
  - intros x [->%elem_of_singleton|Hx]%elem_of_union; [by exists e|by apply t4].
Qed.

Lemma entry_ok_zero st T tg i : entry_ok st T tg i 0.
Proof. unfold entry_ok. by destruct (level tg) as [|[|l]]. Qed.

Lemma entry_ok_table st T tg i p : level tg <> 0%nat -> 0 < p < 2 ^ 26 -> p mod PAGE_SIZE = 0 -> T !! p = Some (own_child tg i) ->
  entry_ok st T tg i (table_pte p).
Proof.
  intros Hl Hp Hal HT. unfold entry_ok. assert (has (table_pte p) PTE_HUGE = false) as Hh by (by rewrite has_huge, table_pte_bit by (done || lia)).
  assert (is_leaf (level tg) (table_pte p) = false) as -> by (destruct (level tg) as [|[|l]]; done).
  destruct (level tg) as [|l]; [done|]. intros _. split; [done|]. exists (own_child tg i). rewrite table_pte_addr by (done || lia).
  split; [done|]. destruct tg; simpl; auto.
Qed.

Lemma identity_entry_ok st T tg i : level tg = 1%nat -> 0 <= i < 32 -> entry_ok st T tg i (identity_entry i).
Proof.
  intros Hl Hi. assert (identity_entry i = Z.lor (i * HUGE_SIZE) 0x83) as E by (unfold identity_entry; by rewrite <- !Z.lor_assoc).
  assert (i * HUGE_SIZE mod PAGE_SIZE = 0) as Hal by (unfold HUGE_SIZE, PAGE_SIZE; replace (i * 0x200000) with (i * 512 * 4096) by lia; by apply Z.mod_mul).
  assert (forall k, 0 <= k < 12 -> Z.testbit (identity_entry i) k = Z.testbit 0x83 k) as Hb by (intros k Hk; rewrite E; by apply testbit_pte).
  unfold entry_ok. rewrite Hl. simpl. rewrite has_huge, Hb by lia. simpl. rewrite has_present, has_user, !Hb by lia.
  split; [done|]. split; [done|]. split.
  - change VMM_COW with (2 ^ 9). rewrite (has_bit 9), Hb by lia. done.
  - rewrite E, addr_pte; [|unfold HUGE_SIZE; lia|done|done]. by apply Z.mod_mul.
Qed.

Lemma kernel_entry_ok st T D k l tg i : tree st T D -> T !! k = Some (Shared (S (S l))) -> level tg = S (S l) -> 0 <= i < 512 ->
  (forall e, ent st k i = Some e -> match tg with Priv d _ pre => mirror st (S l) pre i e | Shared _ => True end) ->
  entry_ok st T tg i (kernel_entry st k i).
Proof.
  intros Ht Hk Hl Hi Hm. unfold kernel_entry. destruct (ent_tag st T D k _ i Ht Hk Hi) as [e He]. rewrite He.
  destruct (has e VMM_PRESENT) eqn:Hp; [|apply entry_ok_zero]. pose proof (t_ent _ _ _ Ht k _ i e Hk He) as Hok.
  unfold entry_ok in *. rewrite Hl. simpl in Hok. intros _. destruct (Hok Hp) as (Hh & tg' & HT & ->). split; [done|]. exists (Shared (S l)).
  split; [done|]. specialize (Hm e He). destruct tg as [d l' pre|l']; simpl in *; subst l'; [right; done|done].
Qed.

(** The kernel's upper half exists. *)
Definition kernel_high st : Prop := exists e, ent st (kernel_pml4 st) 511 = Some e /\ has e VMM_PRESENT = true.

Definition dir_tags (d pdp pd0 pd1 : Z) T : gmap Z tag :=
  <[d := Priv d 3 0]> (<[pdp := Priv d 2 0]> (<[pd0 := Priv d 1 0]> (<[pd1 := Priv d 1 1]> T))).

Lemma new_pdp_ok st T D d pd0 pd1 j : tree st T D -> 0 <= j < 512 -> 0 < pd0 < 2 ^ 26 -> pd0 mod PAGE_SIZE = 0 -> 0 < pd1 < 2 ^ 26 -> pd1 mod PAGE_SIZE = 0 ->
  T !! pd0 = Some (Priv d 1 0) -> T !! pd1 = Some (Priv d 1 1) -> entry_ok st T (Priv d 2 0) j (new_pdp st pd0 pd1 j).
Proof.
  intros Ht Hj ???? H0 H1. unfold new_pdp, filled, upd. destruct (Z.leb_spec 2 j), (Z.ltb_spec j 256); cbn [andb].
  { eapply (kernel_entry_ok st T D _ 0); [done|apply (t_low _ _ _ Ht)|done|done|]. intros e He. right. repeat (split; [done || lia|]). done. }
  all: destruct (Z.eqb_spec j 1) as [->|]; [by apply entry_ok_table|]; destruct (Z.eqb_spec j 0) as [->|]; [by apply entry_ok_table|apply entry_ok_zero].
Qed.

Lemma new_dir_ok st T D d pdp j : tree st T D -> 0 <= j < 512 -> 0 < pdp < 2 ^ 26 -> pdp mod PAGE_SIZE = 0 ->
  T !! pdp = Some (Priv d 2 0) -> entry_ok st T (Priv d 3 0) j (new_dir st pdp j).
Proof.
  intros Ht Hj ?? H0. unfold new_dir, filled, upd. destruct (Z.eqb_spec j 0) as [->|]; [by apply entry_ok_table|].
  destruct (Z.leb_spec 256 j), (Z.ltb_spec j 512); cbn [andb]; try apply entry_ok_zero.
  eapply (kernel_entry_ok st T D _ 1); [done|apply (t_kernel _ _ _ Ht)|done|done|]. intros e He. left. done.
Qed.

Lemma kernel_entry_built st T M A st' a tg i : built st T M A st' -> T !! a = Some tg -> kernel_entry st' a i = kernel_entry st a i.
Proof. intros Hb Ha. unfold kernel_entry. by rewrite (built_ent _ _ _ _ _ _ _ _ Hb Ha). Qed.

Lemma built_high st0 T D M A st : tree st0 T D -> built st0 T M A st -> kernel_high st0 -> kernel_high st.
Proof.
  intros Ht Hb (e & He & Hp). exists e. split; [|done]. destruct (only_fields _ _ (b_only _ _ _ _ _ Hb)) as (_ & -> & _).
  by rewrite (built_ent _ _ _ _ _ _ _ _ Hb (t_kernel _ _ _ Ht)).
Qed.

Section created.
Context (st : vst (P := P)) (T : gmap Z tag) (D : gset Z) (d pdp pd0 pd1 : Z) (A : gset Z) (st' : vst (P := P)).
Hypothesis (Ht : tree st T D) (Hhigh : kernel_high st) (Hnd : NoDup [d; pdp; pd0; pd1]).
Hypothesis (Hb : built st T (dir_tables st d pdp pd0 pd1) A st').

Lemma created_distinct : d <> pdp /\ d <> pd0 /\ d <> pd1 /\ pdp <> pd0 /\ pdp <> pd1 /\ pd0 <> pd1.
Proof.
  apply NoDup_cons in Hnd as [Hd Hnd']. apply NoDup_cons in Hnd' as [Hpdp Hnd']. apply NoDup_cons in Hnd' as [Hpd0 _].
  clear - Hd Hpdp Hpd0. set_solver.
Qed.

(** The tables as the final state has them. *)
Lemma created_tables : let page a := 0 < a < 2 ^ 26 /\ a mod PAGE_SIZE = 0 /\ T !! a = None /\ pused (pages st') a /\ ~ pused (pages st) a in
  (page d /\ tabs st' !! d = Some (tab_of (new_dir st' pdp))) /\ (page pdp /\ tabs st' !! pdp = Some (tab_of (new_pdp st' pd0 pd1))) /\
  (page pd0 /\ tabs st' !! pd0 = Some (tab_of new_pd0)) /\ (page pd1 /\ tabs st' !! pd1 = Some (tab_of (fun _ => 0))).
Proof.
  intros page. destruct created_distinct as (N1 & N2 & N3 & N4 & N5 & N6).
  destruct (only_fields _ _ (b_only _ _ _ _ _ Hb)) as (_ & Hk & Hlow & _).
  assert (forall a g, dir_tables st d pdp pd0 pd1 !! a = Some g -> page a /\ tabs st' !! a = Some (tab_of g)) as Hnew.
  { intros a g Ha. pose proof (b_dom _ _ _ _ _ Hb a g Ha) as HaA. destruct (b_page _ _ _ _ _ Hb a HaA) as (? & ? & ? & ?).
    split; [|by apply (b_new _ _ _ _ _ Hb)]. repeat (split; [done|]). split; [|done]. apply (b_used _ _ _ _ _ Hb). by right. }
  replace (tab_of (new_dir st' pdp)) with (tab_of (new_dir st pdp)).
  2:{ apply tab_of_ext. intros i Hi. unfold new_dir, upd, filled. by rewrite Hk, (kernel_entry_built _ _ _ _ _ _ _ _ Hb (t_kernel _ _ _ Ht)). }
  replace (tab_of (new_pdp st' pd0 pd1)) with (tab_of (new_pdp st pd0 pd1)).
  2:{ apply tab_of_ext. intros i Hi. unfold new_pdp, upd, filled. by rewrite Hlow, (kernel_entry_built _ _ _ _ _ _ _ _ Hb (t_low _ _ _ Ht)). }
  split; [|split; [|split]]; apply Hnew; unfold dir_tables; by simplify_map_eq.
Qed.

Lemma created_tree : tree st' (dir_tags d pdp pd0 pd1 T) ({[d]} ∪ D).
Proof.
  pose proof (built_tree _ _ _ _ _ _ Ht Hb) as Ht'. destruct created_distinct as (N1 & N2 & N3 & N4 & N5 & N6).
  destruct created_tables as (((d1 & d2 & d3 & d4 & _) & Td) & ((q1 & q2 & q3 & q4 & _) & Tq) & ((x1 & x2 & x3 & x4 & _) & Tx) & ((y1 & y2 & y3 & y4 & _) & Ty)).
  assert (tree st' (<[pd1 := Priv d 1 1]> T) D) as Ht1 by (eapply tree_place; try done; intros; apply entry_ok_zero).
  assert (tree st' (<[pd0 := Priv d 1 0]> (<[pd1 := Priv d 1 1]> T)) D) as Ht2.
  { eapply tree_place; try done; [by rewrite lookup_insert_ne|]. intros j Hj. unfold new_pd0, filled.
    destruct (Z.leb_spec 0 j), (Z.ltb_spec j 32); cbn [andb]; try apply entry_ok_zero. apply identity_entry_ok; [done|lia]. }
  assert (tree st' (<[pdp := Priv d 2 0]> (<[pd0 := Priv d 1 0]> (<[pd1 := Priv d 1 1]> T))) D) as Ht3.
  { eapply tree_place; try done; [by rewrite !lookup_insert_ne|]. intros j Hj. eapply new_pdp_ok; try done; by simplify_map_eq. }
  assert (tree st' (dir_tags d pdp pd0 pd1 T) D) as Ht4.
  { eapply tree_place; try done; [by rewrite !lookup_insert_ne|]. intros j Hj. eapply new_dir_ok; try done; by simplify_map_eq. }
  destruct Hhigh as (e & He & Hp). destruct (only_fields _ _ (b_only _ _ _ _ _ Hb)) as (_ & Hk & _).
  assert (ent st' (kernel_pml4 st') 511 = Some e) as He' by (by rewrite Hk, (built_ent _ _ _ _ _ _ _ _ Hb (t_kernel _ _ _ Ht))).
  apply (tree_dir st' _ D d e Ht4); [apply lookup_insert_eq| |done|done].
  rewrite (ent_tab _ _ _ _ Td), getz_tab_of by lia. unfold new_dir, upd, filled. simpl. unfold kernel_entry. by rewrite He', Hp.
Qed.

(** Below a copy of a kernel entry there are no user pages. *)
Lemma kernel_leaf T' D' k l n pt e : tree st' T' D' -> T' !! k = Some (Shared (S l)) ->
  (if has (kernel_entry st' k (digit (S l) n)) VMM_PRESENT then leaf l st' (addr (kernel_entry st' k (digit (S l) n))) n else None) = Some (0%nat, pt, e) ->
  l <> 0%nat -> T' !! pt = Some (Shared 0).
Proof.
  intros Ht' Hk Hlf Hl. destruct (ent_tag st' T' D' k _ (digit (S l) n) Ht' Hk (digit_range _ _)) as [x Hx].
  unfold kernel_entry in Hlf. rewrite Hx in Hlf. destruct (has x VMM_PRESENT) eqn:Hp; [|done]. rewrite Hp in Hlf.
  destruct (step_tag st' T' D' _ _ _ n x Ht' Hk eq_refl Hx) as (tg & HT & _ & Hch); [by destruct l|done|].
  simpl in Hch. subst tg. by eapply (leaf_shared st' T' D').
Qed.

Lemma created_fresh n : 0 <= n < 2 ^ 36 -> utrans st' d n = None.
Proof.
  intros Hn. destruct (utrans st' d n) as [[f g]|] eqn:E; [|done]. exfalso. pose proof created_tree as Ht'.
  destruct (utrans_leaf st' _ _ d n f g Ht' ltac:(set_solver) Hn E) as (pt & e & Hlf & HTpt & _).
  destruct created_tables as (((d1 & d2 & _) & Td) & ((q1 & q2 & _) & Tq) & ((x1 & x2 & _) & Tx) & ((y1 & y2 & _) & Ty)).
  assert (forall a h j, tabs st' !! a = Some (tab_of h) -> 0 < a < 2 ^ 26 -> 0 <= j < 512 -> ent st' a j = Some (h j)) as Hent
    by (intros a h j Ha Hr Hj; rewrite (ent_tab _ _ _ _ Ha) by lia; by apply getz_tab_of).
  pose proof (digit_range 3 n) as R3. pose proof (digit_range 2 n) as R2. pose proof (digit_range 1 n) as R1.
  rewrite (leaf_S _ _ _ _ _ (Hent _ _ _ Td d1 R3)) in Hlf. cbn [is_leaf] in Hlf. unfold new_dir, upd in Hlf.
  destruct (Z.eqb_spec (digit 3 n) 0) as [H3|H3].
  - rewrite has_present, table_pte_bit, table_pte_addr in Hlf by (done || lia). simpl (0 <=? 2) in Hlf. cbv iota in Hlf.
    rewrite (leaf_S _ _ _ _ _ (Hent _ _ _ Tq q1 R2)) in Hlf. cbn [is_leaf] in Hlf. unfold new_pdp, filled in Hlf.
    destruct ((2 <=? digit 2 n) && (digit 2 n <? 256)).
    { rewrite (kernel_leaf _ _ _ 1 n pt e Ht' (t_low _ _ _ Ht')) in HTpt; done. }
    unfold upd in Hlf. destruct (Z.eqb_spec (digit 2 n) 1) as [H2|H2]; [|destruct (Z.eqb_spec (digit 2 n) 0) as [H2'|H2']; [|done]].
    + rewrite has_present, table_pte_bit, table_pte_addr in Hlf by (done || lia). simpl (0 <=? 2) in Hlf. cbv iota in Hlf.
      by rewrite (leaf_S _ _ _ _ _ (Hent _ _ _ Ty y1 R1)) in Hlf.
    + rewrite has_present, table_pte_bit, table_pte_addr in Hlf by (done || lia). simpl (0 <=? 2) in Hlf. cbv iota in Hlf.
      rewrite (leaf_S _ _ _ _ _ (Hent _ _ _ Tx x1 R1)) in Hlf. unfold new_pd0, filled in Hlf.
      destruct ((0 <=? digit 1 n) && (digit 1 n <? 32)) eqn:Hr; [|done].
      pose proof (identity_entry_ok st' ∅ (Priv d 1 0) (digit 1 n) eq_refl ltac:(lia)) as Hok. unfold entry_ok in Hok. cbn [level] in Hok.
      destruct (is_leaf 1 (identity_entry (digit 1 n))) eqn:Hi; [done|]. destruct (has _ VMM_PRESENT) eqn:Hpp; [|done].
      destruct (Hok eq_refl) as (_ & tg & HT & _). done.
  - unfold filled in Hlf. destruct ((256 <=? digit 3 n) && (digit 3 n <? 512)); [|done].
    rewrite (kernel_leaf _ _ _ 2 n pt e Ht' (t_kernel _ _ _ Ht')) in HTpt; done.
Qed.

(** The upper half is the kernel's. *)
Lemma created_high n : 256 <= digit 3 n -> trans st' d n = trans st' (kernel_pml4 st') n.
Proof.
  intros H3. pose proof created_tree as Ht'. destruct created_tables as (((d1 & _) & Td) & _). pose proof (digit_range 3 n) as R3.
  destruct (ent_tag st' _ _ _ _ (digit 3 n) Ht' (t_kernel _ _ _ Ht') R3) as [e He].
  assert (ent st' d (digit 3 n) = Some (if has e VMM_PRESENT then e else 0)) as Hd.
  { rewrite (ent_tab _ _ _ _ Td), getz_tab_of by lia. unfold new_dir, upd, filled. zcmp. unfold kernel_entry. by rewrite He. }
  unfold trans, tr. rewrite (leaf_S _ _ _ _ _ Hd), (leaf_S _ _ _ _ _ He). cbn [is_leaf]. destruct (has e VMM_PRESENT) eqn:Hp; [by rewrite Hp|done].
Qed.

Lemma created_old r n : r ∈ D -> 0 <= n < 2 ^ 36 -> trans st' r n = trans st r n.
Proof. intros Hr. by apply (built_trans st T D _ _ _ r n Ht Hb (or_introl Hr)). Qed.

Lemma created_wf : mem_ok st T D -> wf st' ({[d]} ∪ D).
Proof.
  intros [Hfr Hex]. exists (dir_tags d pdp pd0 pd1 T). split; [apply created_tree|].
  assert (forall r n f g, r ∈ {[d]} ∪ D -> 0 <= n < 2 ^ 36 -> utrans st' r n = Some (f, g) -> r ∈ D /\ utrans st r n = Some (f, g)) as Hold.
  { intros r n f g [->%elem_of_singleton|Hr]%elem_of_union Hn Hut; [by rewrite created_fresh in Hut|]. split; [done|].
    unfold utrans in *. by rewrite created_old in Hut. }
  split.
  - intros r n f g Hr Hn Hut. destruct (Hold r n f g Hr Hn Hut) as [Hr' Hut']. destruct (Hfr r n f g Hr' Hn Hut') as (Hby & HT & Hu).
    destruct (only_fields _ _ (b_only _ _ _ _ _ Hb)) as (Hfs & _). rewrite Hfs. split; [done|]. split; [|apply (b_used _ _ _ _ _ Hb); by left].
    destruct created_tables as (((_ & _ & _ & _ & Ud) & _) & ((_ & _ & _ & _ & Uq) & _) & ((_ & _ & _ & _ & Ux) & _) & ((_ & _ & _ & _ & Uy) & _)).
    unfold dir_tags. rewrite !lookup_insert_ne by congruence. done.
  - intros r n r' n' f g g' Hr Hr' Hn Hn' Hne Hut Hut'. destruct (Hold r n f g Hr Hn Hut) as [Hr1 Hut1], (Hold r' n' f g' Hr' Hn' Hut') as [Hr2 Hut2].
    by eapply (Hex r n r' n').
Qed.
End created.

(** ** The whole function *)

Lemma vmm_create_directory_spec st D : wf st D -> kernel_high st ->
  returns (vmm_create_directory st) (fun '(d, st') => only_tables st st' /\
    (forall r n, root st D r -> 0 <= n < 2 ^ 36 -> trans st' r n = trans st r n) /\
    (forall i, ent st' (kernel_low_pdp st) i = ent st (kernel_low_pdp st) i) /\ kernel_high st' /\
    (d = 0 /\ pavail (pages st) < 4 /\ wf st' D /\ (forall x, pused (pages st') x <-> pused (pages st) x) \/
     d <> 0 /\ ~ pused (pages st) d /\ pavail (pages st') = pavail (pages st) - 4 /\ wf st' ({[d]} ∪ D) /\
     (forall n, 256 <= digit 3 n -> trans st' d n = trans st' (kernel_pml4 st') n) /\ forall n, 0 <= n < 2 ^ 36 -> utrans st' d n = None)).
Proof.
  intros (T & Ht & Hm) Hh. eapply returns_mono; [by apply (create_built st T D)|].
  intros [d st'] [(-> & Hav & M & Hb)|(Hd & pdp & pd0 & pd1 & A & Hnd & Hsz & Hb)]; (split; [apply Hb|]);
    (split; [intros r n Hr; by apply (built_trans st T D _ _ _ r n Ht Hb Hr)|]);
    (split; [intros i; by apply (built_ent _ _ _ _ _ _ _ _ Hb (t_low _ _ _ Ht))|]); (split; [by eapply built_high|]).
  - left. split; [done|]. split; [done|]. split; [|intros x; rewrite (b_used _ _ _ _ _ Hb); set_solver].
    exists T. split; [by eapply built_tree|]. destruct (only_fields _ _ (b_only _ _ _ _ _ Hb)) as (Hfs & _).
    assert (forall r n, r ∈ D -> 0 <= n < 2 ^ 36 -> utrans st' r n = utrans st r n) as Hu.
    { intros r n Hr Hn. unfold utrans. by rewrite (built_trans st T D _ _ _ r n Ht Hb (or_introl Hr)). }
    destruct Hm as [Hfr Hex]. split.
    + intros r n f g Hr Hn. rewrite Hu, Hfs by done. intros H. destruct (Hfr r n f g Hr Hn H) as (? & ? & ?). repeat (split; [done|]).
      apply (b_used _ _ _ _ _ Hb). by left.
    + intros r n r' n' f g g' Hr Hr' Hn Hn' Hne. rewrite !Hu by done. by apply Hex.
  - right. split; [done|]. split; [|split; [pose proof (b_avail _ _ _ _ _ Hb); lia|split; [by eapply created_wf|split; [by eapply created_high|by eapply created_fresh]]]].
    by destruct (created_tables st T D d pdp pd0 pd1 A st' Ht Hnd Hb) as (((_ & _ & _ & _ & ?) & _) & _).
Qed.
End dir.
