(* ===== verification/VmmInit.v ===== *)
(** * The kernel's address space

    [vmm_init] makes the first tables: the kernel's upper half and its identity
    map.  With four free pages it establishes the invariant [wf] that the other
    functions keep. *)

From stdpp Require Import base numbers list gmap sets.
From Stdlib Require Import ZArith Lia.
From S2P Require Import Prelude Vmm VmmTree VmmMap VmmCow VmmFork VmmDir.

#[local] Open Scope Z_scope.

Section init.
Context {P : Type} `{!Pages P, !PagesLaws P}.
Implicit Types (st : vst (P := P)) (T : gmap Z tag) (D A : gset Z) (M : gmap Z (Z -> Z)).

(** A pointer of the kernel: [table | PRESENT | WRITABLE]. *)
Definition kernel_pte (p : Z) : Z := Z.lor (Z.lor p VMM_PRESENT) VMM_WRITABLE.

Lemma kernel_pte_spec p : 0 < p < 2 ^ 26 -> p mod PAGE_SIZE = 0 ->
  addr (kernel_pte p) = p /\ has (kernel_pte p) VMM_PRESENT = true /\ has (kernel_pte p) PTE_HUGE = false.
Proof.
  intros Hp Hal. unfold kernel_pte. rewrite <- Z.lor_assoc. split; [by apply addr_pte; [lia|..]|].
  rewrite has_present, has_huge, (testbit_pte p _ 0), (testbit_pte p _ 7) by (done || lia). done.
Qed.

(** No table maps the gigabytes from the second on: [vmm_create_directory]
    has nothing to copy there. *)
Definition low_clear st : Prop := forall i e, 2 <= i < 256 -> ent st (kernel_low_pdp st) i = Some e -> has e VMM_PRESENT = false.

Lemma low_clear_free st n : low_clear st -> low_free st n.
Proof. intros H _ Hd e. by apply H. Qed.

Lemma built_kernel st0 M A st k l : built st0 ∅ M A st -> built (set_kernel k l st0) ∅ M A (set_kernel k l st).
Proof. intros [o n ol dm pg us wf' lw av]. split; try done. rewrite o. by destruct st0. Qed.

Definition init_tables (k high low pd : Z) : gmap Z (Z -> Z) :=
  <[k := upd (upd (fun _ => 0) 511 (kernel_pte high)) 0 (kernel_pte low)]>
    (<[high := upd (fun _ => 0) 510 (kernel_pte pd)]>
      (<[low := upd (fun _ => 0) 0 (kernel_pte pd)]> (<[pd := new_pd0]> ∅))).

Definition init_tags (k high low pd : Z) : gmap Z tag :=
  <[k := Shared 3]> (<[high := Shared 2]> (<[low := Shared 2]> (<[pd := Shared 1]> ∅))).

Lemma distinct4 (k high low pd : Z) : NoDup [k; high; low; pd] -> k <> high /\ k <> low /\ k <> pd /\ high <> low /\ high <> pd /\ low <> pd.
Proof.
  intros Hnd. apply NoDup_cons in Hnd as [N1 Hnd]. apply NoDup_cons in Hnd as [N2 Hnd]. apply NoDup_cons in Hnd as [N3 _].
  clear - N1 N2 N3. set_solver.
Qed.

(** Writing the tables. *)
Lemma init_write st0 k high low pd A l st : NoDup [k; high; low; pd] -> k ∈ A -> high ∈ A -> low ∈ A -> pd ∈ A ->
  built st0 ∅ (<[k := fun _ => 0]> ∅) A st -> getz (current_pml4 st0) 0 = Some l ->
  returns (st ← zero_table high st;
      st ← zero_table low st;
      st ← zero_table pd st;
      st ← set_entry k 511 (kernel_pte high) st;
      st ← set_entry high 510 (kernel_pte pd) st;
      st ← set_entry k 0 (kernel_pte low) st;
      st ← set_entry low 0 (kernel_pte pd) st;
      let st := set_kernel k low st in
      st ← for_range 0 32 (fun i st => set_entry pd i (identity_entry i) st) st;
      l ← wr (current_pml4 st) 0 k;
      Ret (set_current l st))
    (fun st' => exists st1, built (set_kernel k low st0) ∅ (init_tables k high low pd) A st1 /\
       st' = set_current (<[0%nat := k]> (current_pml4 st0)) st1).
Proof.
  intros Hnd Hk Hh Hl Hp Hb Hc. apply distinct4 in Hnd as (K1 & K2 & K3 & H1 & H2 & L1).
  eapply returns_bind; [by apply (built_zero _ _ _ _ _ high Hb)|]. clear Hb st. intros st Hb.
  eapply returns_bind; [by apply (built_zero _ _ _ _ _ low Hb)|]. clear Hb st. intros st Hb.
  eapply returns_bind; [by apply (built_zero _ _ _ _ _ pd Hb)|]. clear Hb st. intros st Hb. cbv zeta.
  eapply returns_bind; [eapply (built_set _ _ _ _ _ k _ 511 _ Hb); [by rewrite !lookup_insert_ne, lookup_insert_eq by done|lia]|].
  clear Hb. intros st1 Hb. rewrite (insert_insert_ne _ k pd), (insert_insert_ne _ k low), (insert_insert_ne _ k high), insert_insert_eq in Hb by done.
  eapply returns_bind; [eapply (built_set _ _ _ _ _ high _ 510 _ Hb); [by rewrite !lookup_insert_ne, lookup_insert_eq by done|lia]|].
  clear Hb. intros st2 Hb. rewrite (insert_insert_ne _ high pd), (insert_insert_ne _ high low), insert_insert_eq in Hb by done.
  eapply returns_bind; [eapply (built_set _ _ _ _ _ k _ 0 _ Hb); [by rewrite !lookup_insert_ne, lookup_insert_eq by done|lia]|].
  clear Hb. intros st3 Hb. rewrite (insert_insert_ne _ k pd), (insert_insert_ne _ k low), (insert_insert_ne _ k high), insert_insert_eq in Hb by done.
  eapply returns_bind; [eapply (built_set _ _ _ _ _ low _ 0 _ Hb); [by rewrite !lookup_insert_ne, lookup_insert_eq by done|lia]|].
  clear Hb. intros st4 Hb. rewrite (insert_insert_ne _ low pd), insert_insert_eq in Hb by done.
  apply (built_kernel _ _ _ _ k low) in Hb.
  eapply returns_bind; [apply (built_fill _ _ _ _ _ pd _ identity_entry 0 32 _ Hb); [lia|lia|by left]|]. clear Hb. intros st5 Hb.
  destruct (only_fields _ _ (b_only _ _ _ _ _ Hb)) as (_ & _ & _ & -> & _). cbn [current_pml4 set_kernel].
  rewrite wr_ok by (by eapply getz_Some_lt). cbn [mbind out_bind returns]. exists st5. split; [|done].
  rewrite (insert_insert_ne _ high k), (insert_insert_ne _ low k), (insert_insert_ne _ pd k) in Hb by done.
  rewrite (insert_insert_ne _ low high), (insert_insert_ne _ pd high), (insert_insert_ne _ pd low) in Hb by done. exact Hb.
Qed.

Lemma entry_ok_kernel st T tg i p : level tg <> 0%nat -> 0 < p < 2 ^ 26 -> p mod PAGE_SIZE = 0 -> T !! p = Some (own_child tg i) ->
  entry_ok st T tg i (kernel_pte p).
Proof.
  intros Hl Hp Hal HT. destruct (kernel_pte_spec p Hp Hal) as (Ha & _ & Hh). unfold entry_ok.
  assert (is_leaf (level tg) (kernel_pte p) = false) as -> by (destruct (level tg) as [|[|l]]; done).
  destruct (level tg) as [|l]; [done|]. intros _. split; [done|]. exists (own_child tg i). rewrite Ha. split; [done|]. destruct tg; simpl; auto.
Qed.

Lemma init_tree st0 k high low pd A st : NoDup [k; high; low; pd] -> built (set_kernel k low st0) ∅ (init_tables k high low pd) A st ->
  tree st (init_tags k high low pd) ∅ /\ kernel_high st /\ low_clear st.
Proof.
  intros Hnd Hb. apply distinct4 in Hnd as (K1 & K2 & K3 & H1 & H2 & L1).
  assert (forall a g, init_tables k high low pd !! a = Some g -> 0 < a < 2 ^ 26 /\ a mod PAGE_SIZE = 0 /\ pused (pages st) a /\
    forall j e, ent st a j = Some e -> 0 <= j < 512 /\ e = g j) as Hnew.
  { intros a g Ha. pose proof (b_dom _ _ _ _ _ Hb a g Ha) as HaA. destruct (b_page _ _ _ _ _ Hb a HaA) as (? & ? & _).
    split; [done|]. split; [done|]. split; [apply (b_used _ _ _ _ _ Hb); by right|]. intros j e.
    rewrite (ent_tab _ _ _ _ (b_new _ _ _ _ _ Hb a g Ha)) by lia. intros He. pose proof (getz_Some_lt _ _ _ He) as Hlt. rewrite length_tab_of in Hlt.
    rewrite getz_tab_of in He by lia. injection He as <-. split; [lia|done]. }
  set (T := init_tags k high low pd) in *.
  assert (init_tables k high low pd !! high <> None /\ init_tables k high low pd !! low <> None /\ init_tables k high low pd !! pd <> None) as (Mh & Ml & Mp)
    by (unfold init_tables; by simplify_map_eq).
  assert (forall a, init_tables k high low pd !! a <> None -> 0 < a < 2 ^ 26 /\ a mod PAGE_SIZE = 0) as Hpg
    by (intros a; destruct (init_tables k high low pd !! a) as [g|] eqn:E; [|done]; destruct (Hnew a g E) as (? & ? & _); done).
  destruct (Hpg high Mh) as [Ph1 Ph2], (Hpg low Ml) as [Pl1 Pl2], (Hpg pd Mp) as [Pp1 Pp2].
  assert (forall a tg, T !! a = Some tg -> exists g, init_tables k high low pd !! a = Some g /\ forall j, 0 <= j < 512 -> entry_ok st T tg j (g j)) as Hok.
  { intros a tg. unfold T, init_tags.
    intros [[<- <-]|[? [[<- <-]|[? [[<- <-]|[? [[<- <-]|[_ []%lookup_empty_Some]]%lookup_insert_Some]]%lookup_insert_Some]]%lookup_insert_Some]]%lookup_insert_Some;
      eexists; (split; [unfold init_tables; by simplify_map_eq|]); intros j Hj; fold (init_tags k high low pd); fold T.
    - unfold upd. destruct (Z.eqb_spec j 0) as [->|]; [|destruct (Z.eqb_spec j 511) as [->|]; [|apply entry_ok_zero]];
        (apply entry_ok_kernel; [done|done|done|unfold T, init_tags; by simplify_map_eq]).
    - unfold upd. destruct (Z.eqb_spec j 510) as [->|]; [|apply entry_ok_zero]. apply entry_ok_kernel; [done|done|done|unfold T, init_tags; by simplify_map_eq].
    - unfold upd. destruct (Z.eqb_spec j 0) as [->|]; [|apply entry_ok_zero]. apply entry_ok_kernel; [done|done|done|unfold T, init_tags; by simplify_map_eq].
    - unfold new_pd0, filled. destruct (Z.leb_spec 0 j), (Z.ltb_spec j 32); cbn [andb]; try apply entry_ok_zero. apply identity_entry_ok; [done|lia]. }
  destruct (only_fields _ _ (b_only _ _ _ _ _ Hb)) as (_ & Hk & Hl & _). cbn [kernel_pml4 kernel_low_pdp set_kernel] in Hk, Hl.
  split; [split|split].
  - intros a tg Ha. destruct (Hok a tg Ha) as (g & Hg & _). destruct (Hnew a g Hg) as (? & ? & ? & _).
    split; [|split; [done|split; [lia|done]]]. exists (tab_of g). split; [by apply (b_new _ _ _ _ _ Hb)|apply length_tab_of].
  - intros a tg i e Ha He. destruct (Hok a tg Ha) as (g & Hg & Hj). destruct (Hnew a g Hg) as (_ & _ & _ & Hent).
    destruct (Hent i e He) as [Hi ->]. by apply Hj.
  - set_solver.
  - set_solver.
  - rewrite Hk. apply lookup_insert_eq.
  - rewrite Hl. unfold T, init_tags. by rewrite !lookup_insert_ne, lookup_insert_eq by done.
  - apply Hb.
  - apply Hb.
  - exists (kernel_pte high). rewrite Hk. split; [|by apply kernel_pte_spec].
    pose proof (b_page _ _ _ _ _ Hb k (b_dom _ _ _ _ _ Hb k _ ltac:(apply lookup_insert_eq))) as (? & _).
    rewrite (ent_tab _ _ _ _ (b_new _ _ _ _ _ Hb k _ ltac:(apply lookup_insert_eq))) by lia. by rewrite getz_tab_of.
  - intros i e Hi. rewrite Hl. assert (exists g, init_tables k high low pd !! low = Some g /\ g i = 0) as (g & Hg & Hz).
    { eexists. split; [unfold init_tables; by rewrite !lookup_insert_ne, lookup_insert_eq by done|]. unfold upd. zcmp. done. }
    intros He. destruct (Hnew low g Hg) as (_ & _ & _ & Hent). destruct (Hent i e He) as [_ ->]. by rewrite Hz.
Qed.

(** The first 64 MB, at their own addresses and above [KERNEL_BASE]. *)
Definition KERNEL_BASE : Z := 0xFFFFFFFF80000000.

Definition identity_mapped st : Prop := forall va, 0 <= va < IDENTITY_END ->
  vmm_get_physical (kernel_pml4 st) va st = Ret va /\ vmm_get_physical (kernel_pml4 st) (KERNEL_BASE + va) st = Ret va.

Lemma low_digits x : 0 <= x < 2 ^ 14 -> digit 1 x = x / 512 /\ digit 2 x = 0 /\ digit 3 x = 0.
Proof.
  intros Hx. unfold digit. change (512 ^ Z.of_nat 1) with 512. change (512 ^ Z.of_nat 2) with (2 ^ 18). change (512 ^ Z.of_nat 3) with (2 ^ 27).
  assert (0 <= x / 512 < 32) by (split; [apply Z.div_pos; lia|apply Z.div_lt_upper_bound; lia]).
  rewrite (Z.div_small x (2 ^ 18)), (Z.div_small x (2 ^ 27)), (Z.mod_small (x / 512)) by lia. done.
Qed.

Lemma high_digits x : 0 <= x < 2 ^ 14 -> let n := (511 * 512 + 510) * 2 ^ 18 + x in
  digit 0 n = digit 0 x /\ digit 1 n = digit 1 x /\ digit 2 n = 510 /\ digit 3 n = 511.
Proof.
  intros Hx n. unfold digit. change (512 ^ Z.of_nat 0) with 1. change (512 ^ Z.of_nat 1) with 512. change (512 ^ Z.of_nat 2) with (2 ^ 18). change (512 ^ Z.of_nat 3) with (2 ^ 27).
  assert (n / 2 ^ 18 = 511 * 512 + 510) as H2 by (unfold n; rewrite Z.div_add_l, (Z.div_small x) by lia; lia).
  assert (n / 2 ^ 27 = 511) as H3 by (change (2 ^ 27) with (2 ^ 18 * 2 ^ 9); rewrite <- Z.div_div, H2 by lia; done).
  rewrite H2, H3, !Z.div_1_r. split; [|split; [|done]].
  - unfold n. replace (_ + x) with (x + (511 * 512 + 510) * 512 * 512) by lia. by rewrite Z.mod_add by lia.
  - unfold n. replace (_ + x) with ((511 * 512 + 510) * 512 * 512 + x) by lia. rewrite Z.div_add_l by lia.
    rewrite Z.add_comm. by rewrite Z.mod_add by lia.
Qed.

Lemma identity_trans st k pd n m : leaf 3 st k n = Some (1%nat, pd, identity_entry m) -> 0 <= m < 32 ->
  trans st k n = Some ((m * 512 + digit 0 n) * PAGE_SIZE, 3).
Proof.
  intros Hlf Hm. assert (identity_entry m = Z.lor (m * HUGE_SIZE) 0x83) as E by (unfold identity_entry; by rewrite <- !Z.lor_assoc).
  assert (m * HUGE_SIZE mod PAGE_SIZE = 0) as Hal by (unfold HUGE_SIZE, PAGE_SIZE; replace (m * 0x200000) with (m * 512 * 4096) by lia; by apply Z.mod_mul).
  unfold trans, tr. rewrite Hlf. cbn [mbind option_bind xlate]. unfold frame_of.
  rewrite has_present, E, testbit_pte by (done || lia). rewrite addr_pte; [|unfold HUGE_SIZE; lia|done|done]. simpl (Z.testbit 131 0). cbv iota.
  do 2 f_equal; [unfold HUGE_SIZE, PAGE_SIZE; lia|].
  change 3 with (fl 0x83). apply fl_ext. intros j Hj _. by apply testbit_pte.
Qed.

Lemma init_identity st0 k high low pd A st : NoDup [k; high; low; pd] -> built (set_kernel k low st0) ∅ (init_tables k high low pd) A st ->
  identity_mapped st.
Proof.
  intros Hnd Hb. destruct (init_tree _ _ _ _ _ _ _ Hnd Hb) as (Ht & _).
  apply distinct4 in Hnd as (K1 & K2 & K3 & H1 & H2 & L1).
  assert (forall a g, init_tables k high low pd !! a = Some g -> 0 < a < 2 ^ 26 /\ a mod PAGE_SIZE = 0 /\ forall j, 0 <= j < 512 -> ent st a j = Some (g j)) as Hnew.
  { intros a g Ha. destruct (b_page _ _ _ _ _ Hb a (b_dom _ _ _ _ _ Hb a g Ha)) as (? & ? & _). split; [done|]. split; [done|].
    intros j Hj. rewrite (ent_tab _ _ _ _ (b_new _ _ _ _ _ Hb a g Ha)) by lia. by apply getz_tab_of. }
  destruct (Hnew k _ ltac:(apply lookup_insert_eq)) as (_ & _ & Ek). destruct (Hnew high _ ltac:(unfold init_tables; by simplify_map_eq)) as (Rh & Ah & Eh).
  destruct (Hnew low _ ltac:(unfold init_tables; by simplify_map_eq)) as (Rl & Al & El). destruct (Hnew pd _ ltac:(unfold init_tables; by simplify_map_eq)) as (Rp & Ap & Ep).
  destruct (only_fields _ _ (b_only _ _ _ _ _ Hb)) as (_ & Hk & _). cbn [kernel_pml4 set_kernel] in Hk.
  destruct (kernel_pte_spec high Rh Ah) as (ah & ph & _), (kernel_pte_spec low Rl Al) as (al & pl & _), (kernel_pte_spec pd Rp Ap) as (ap & pp & _).
  assert (forall n, digit 1 n < 32 -> leaf 1 st pd n = Some (1%nat, pd, identity_entry (digit 1 n))) as Hpd.
  { intros n Hn. pose proof (digit_range 1 n) as R1. rewrite (leaf_S _ _ _ _ _ (Ep _ R1)). unfold new_pd0, filled. zcmp.
    assert (is_leaf 1 (identity_entry (digit 1 n)) = true) as ->; [|done]. pose proof (identity_entry_ok st0 ∅ (Shared 1) (digit 1 n) eq_refl ltac:(lia)) as Hok.
    unfold entry_ok in Hok. cbn [level] in Hok. destruct (is_leaf 1 _) eqn:Hi; [done|]. exfalso. unfold is_leaf in Hi.
    by rewrite has_huge in Hi; unfold identity_entry in Hi; rewrite Z.lor_spec in Hi; apply orb_false_iff in Hi as [_ Hi]. }
  intros va Hva. assert (0 <= va / PAGE_SIZE < 2 ^ 14) as Hx by (unfold IDENTITY_END, HUGE_SIZE, PAGE_SIZE in *; split; [apply Z.div_pos; lia|apply Z.div_lt_upper_bound; lia]).
  set (x := va / PAGE_SIZE) in *. destruct (low_digits x Hx) as (D1 & D2 & D3). destruct (high_digits x Hx) as (E0 & E1 & E2 & E3).
  assert (0 <= x / 512 < 32) as Hq by (split; [apply Z.div_pos; lia|apply Z.div_lt_upper_bound; lia]).
  assert (forall n, digit 0 n = digit 0 x -> digit 1 n = digit 1 x -> leaf 3 st k n = leaf 1 st pd n -> trans st k n = Some (x * PAGE_SIZE, 3)) as Htr.
  { intros n F0 F1 Hlf. rewrite Hpd in Hlf by lia. rewrite (identity_trans st k pd n _ Hlf), F0, F1, D1 by lia. do 3 f_equal.
    unfold digit. rewrite Z.pow_0_r, Z.div_1_r. pose proof (Z.div_mod x 512). lia. }
  pose proof (Z.div_mod va PAGE_SIZE ltac:(done)) as Hdm. fold x in Hdm.
  split; rewrite Hk, (vmm_get_physical_spec st _ ∅ k _ Ht) by (right; done).
  - assert (vpn va = x) as -> by (unfold vpn; fold x; apply Z.mod_small; lia). rewrite Htr; [f_equal; lia|done|done|].
    rewrite (leaf_ptr st 2 k x (kernel_pte low)), al, (leaf_ptr st 1 low x (kernel_pte pd)), ap; [done|..|done|done]; try done.
    + rewrite D2. by rewrite El by lia.
    + rewrite D3. by rewrite Ek by lia.
  - assert ((KERNEL_BASE + va) mod PAGE_SIZE = va mod PAGE_SIZE) as ->.
    { unfold KERNEL_BASE, PAGE_SIZE. replace (_ + va) with (va + (2 ^ 52 - 2 ^ 19) * 4096) by lia. by rewrite Z.mod_add by lia. }
    assert (vpn (KERNEL_BASE + va) = (511 * 512 + 510) * 2 ^ 18 + x) as ->.
    { unfold vpn, KERNEL_BASE. replace (_ + va) with ((2 ^ 52 - 2 ^ 19) * PAGE_SIZE + va) by (unfold PAGE_SIZE; lia). rewrite Z.div_add_l by done. fold x.
      replace (2 ^ 52 - 2 ^ 19 + x) with ((511 * 512 + 510) * 2 ^ 18 + x + (2 ^ 16 - 1) * 2 ^ 36) by lia. rewrite Z.mod_add by lia. apply Z.mod_small. lia. }
    rewrite Htr; [f_equal; lia|done|done|].
    rewrite (leaf_ptr st 2 k _ (kernel_pte high)), ah, (leaf_ptr st 1 high _ (kernel_pte pd)), ap; [done|..|done|done]; try done.
    + rewrite E2. by rewrite Eh by lia.
    + rewrite E3. by rewrite Ek by lia.
Qed.

Lemma identity_current st T D l : tree st T D -> identity_mapped st -> identity_mapped (set_current l st).
Proof.
  intros Ht Hi va Hva. assert (tree (set_current l st) T D) as Ht' by (by destruct Ht; split). destruct (Hi va Hva) as [H1 H2].
  rewrite (vmm_get_physical_spec st T D) in H1, H2 by (done || by right). by rewrite !(vmm_get_physical_spec (set_current l st) T D) by (done || by right).
Qed.

Lemma vmm_init_spec st : pwf (pages st) -> plow (pages st) -> (exists l, getz (current_pml4 st) 0 = Some l) ->
  returns (vmm_init st) (fun st' => pavail (pages st) < 4 \/
    wf st' ∅ /\ kernel_high st' /\ low_clear st' /\ identity_mapped st' /\ frames st' = frames st /\ pavail (pages st') = pavail (pages st) - 4 /\
    current_pml4 st' = <[0%nat := kernel_pml4 st']> (current_pml4 st) /\ cpu_id st' = cpu_id st /\ cr0_wp st' = cr0_wp st /\
    thread_fault st' = thread_fault st).
Proof.
  intros Hwf Hlw [l Hl]. assert (forall s : vst (P := P), covers s ∅) as Hcov by (intros s a tg; by rewrite lookup_empty). unfold vmm_init.
  eapply returns_bind; [apply (built_alloc st ∅ ∅ ∅ st (Hcov _)), built_refl; done|]. intros [k st1] (A0 & H0 & Hb & Hz0). cbv zeta.
  destruct H0 as [[-> ->]|(Hk & _ & ->)]; [cbn; left; rewrite Hz0 by done; rewrite size_empty; lia|].
  rewrite (proj2 (Z.eqb_neq k 0)) by done. rewrite (right_id_L ∅ (∪)) in Hb.
  destruct (only_fields _ _ (b_only _ _ _ _ _ Hb)) as (_ & _ & -> & _). apply (built_kernel _ _ _ _ k (kernel_low_pdp st)) in Hb.
  eapply returns_bind; [apply (built_zero _ _ _ _ _ k Hb); set_solver|]. clear Hb. intros st1' Hb.
  eapply returns_bind; [apply (built_alloc _ _ _ _ _ (Hcov _) Hb)|]. intros [high st2] (A1 & H1 & Hb1 & Hz1).
  eapply returns_bind; [apply (built_alloc _ _ _ _ _ (Hcov _) Hb1)|]. intros [low st3] (A2 & H2 & Hb2 & Hz2).
  eapply returns_bind; [apply (built_alloc _ _ _ _ _ (Hcov _) Hb2)|]. intros [pd st4] (A3 & H3 & Hb3 & Hz3).
  destruct ((high =? 0) || (low =? 0) || (pd =? 0)) eqn:Hz.
  - cbn [returns]. left. change (pages st) with (pages (set_kernel k (kernel_low_pdp st) st)).
    pose proof (taken_size _ _ _ H1). pose proof (taken_size _ _ _ H2). rewrite size_singleton in *.
    rewrite !orb_true_iff, !Z.eqb_eq in Hz. destruct Hz as [[-> | ->]| ->]; [rewrite Hz1 by done|rewrite Hz2 by done|rewrite Hz3 by done];
      rewrite ?size_singleton; lia.
  - rewrite !orb_false_iff, !Z.eqb_neq in Hz. destruct Hz as [[N1 N2] N3]. destruct (taken_all k high low pd A1 A2 A3) as (Hnd & Hsz & HA); [done..|].
    eapply returns_mono; [apply (init_write (set_kernel k (kernel_low_pdp st) st) k high low pd A3 l st4); try done; rewrite HA; set_solver|].
    intros st' (st5 & Hb5 & ->). right. destruct (init_tree _ k high low pd A3 st5 Hnd Hb5) as (Ht & Hh & Hlc).
    destruct (only_fields _ _ (b_only _ _ _ _ _ Hb5)) as (Hfr & Hk5 & _ & Hc5 & Hcpu & Hwp & Htf & _).
    split; [|split; [done|split; [done|split; [eapply identity_current; [exact Ht|by eapply init_identity]|split; [done|split; [|split; [cbn; by rewrite Hk5|done]]]]]]].
    + exists (init_tags k high low pd). split; [by destruct Ht; split|].
      split; [intros ???? []%not_elem_of_empty|intros ??????? []%not_elem_of_empty].
    + pose proof (b_avail _ _ _ _ _ Hb5) as Hav. cbn in Hav |- *. lia.
Qed.
End init.
