(* ===== verification/VmmUse.v ===== *)
(** * Address spaces in use

    The operations on address spaces on a consistent memory ([wf]): pages of
    data, mapping and unmapping keep it. *)

From stdpp Require Import base numbers list gmap sets.
From Stdlib Require Import ZArith Lia.
From S2P Require Import Prelude Vmm VmmTree VmmMap VmmCow VmmCopy VmmFork VmmDir VmmInit.

#[local] Open Scope Z_scope.

Section use.
Context {P : Type} `{!Pages P, !PagesLaws P}.
Implicit Types (st : vst (P := P)) (T : gmap Z tag) (D : gset Z).

(** A page of data that is mapped nowhere. *)
Definition data_page st D (f : Z) : Prop := exists T, tree st T D /\ mem_ok st T D /\ T !! f = None /\ pused (pages st) f /\
  0 < f < 2 ^ 52 /\ f mod PAGE_SIZE = 0 /\ (exists bytes, frames st !! f = Some bytes /\ length bytes = 4096%nat) /\
  forall r n g, r ∈ D -> 0 <= n < 2 ^ 36 -> utrans st r n <> Some (f, g).

Lemma data_page_wf st D f : data_page st D f -> wf st D.
Proof. intros (T & Ht & Hm & _). by exists T. Qed.

(** A page just allocated and filled. *)
Definition fill (f : Z) (bytes : list Z) st : vst := set_frames (<[f := bytes]> (frames st)) st.

Lemma alloc_data_page st D : wf st D ->
  returns (pmm_alloc_page st) (fun '(f, st') => f = 0 /\ pavail (pages st) = 0 \/
    f <> 0 /\ pavail (pages st') = pavail (pages st) - 1 /\ only_tables st st' /\
    forall bytes, length bytes = 4096%nat -> data_page (fill f bytes st') D f /\ forall r n, utrans (fill f bytes st') r n = utrans st r n).
Proof.
  intros (T & Ht & Hm). pose proof (pmm_alloc_spec st T D Ht) as Hs. pose proof (palloc_ok _ (t_pwf _ _ _ Ht)) as Ha. unfold pmm_alloc_page in *.
  destruct (palloc (pages st)) as [[f q]| |]; [|done..]. cbn [mbind out_bind returns] in *. destruct Hs as (q' & E & Hg & Hf). injection E as <-.
  destruct Ha as [_ Ha]. destruct Hf as [[-> Hz]|(Hr & Hal & HT & Hn & Hu)].
  { left. split; [done|]. destruct Ha as [(_ & ? & _)|(? & _)]; [done|lia]. }
  right. split; [lia|]. split; [destruct Ha as [(? & _)|(_ & _ & _ & ? & _)]; [lia|done]|]. split; [by destruct st|]. intros bytes Hlen. split; [|done].
  pose proof (g_tree _ _ _ _ _ Hg) as Ht'. exists T. split; [by destruct Ht'; split|].
  assert (forall r n x g, r ∈ D -> 0 <= n < 2 ^ 36 -> utrans st r n = Some (x, g) -> x <> f) as Hne
    by (intros r n x g Hrd Hnr Hut ->; by destruct (m_frame _ _ _ Hm r n f g Hrd Hnr Hut) as (_ & _ & ?)).
  split; [|split; [done|split; [done|split; [lia|split; [done|split]]]]].
  - split.
    + intros r n x g Hrd Hnr Hut. change (utrans st r n = Some (x, g)) in Hut. destruct (m_frame _ _ _ Hm r n x g Hrd Hnr Hut) as (Hb & HTx & Hux).
      cbn. rewrite lookup_insert_ne by (intros <-; by apply (Hne r n f g Hrd Hnr Hut)). split; [done|]. split; [done|].
      by apply (g_used _ _ _ _ _ Hg).
    + apply (m_excl _ _ _ Hm).
  - exists bytes. cbn. by rewrite lookup_insert_eq.
  - intros r n g Hrd Hnr Hut. by apply (Hne r n f g Hrd Hnr Hut).
Qed.

(** Pages are unmapped. *)
Lemma mem_ok_less st T st' T' D : mem_ok st T D -> evolves st T st' T' D ->
  (forall r n, r ∈ D -> 0 <= n < 2 ^ 36 -> utrans st' r n = utrans st r n \/ utrans st' r n = None) -> mem_ok st' T' D.
Proof.
  intros [Hfr Hex] Hev Hoth. destruct (only_fields _ _ (ev_only _ _ _ _ _ Hev)) as (Hfs & _).
  assert (forall r n x g, r ∈ D -> 0 <= n < 2 ^ 36 -> utrans st' r n = Some (x, g) -> utrans st r n = Some (x, g)) as Hor
    by (intros r n x g Hr Hn Hut; destruct (Hoth r n Hr Hn) as [H|H]; congruence).
  split.
  - intros r n x g Hr Hn Hut. rewrite Hfs. destruct (Hfr r n x g Hr Hn (Hor _ _ _ _ Hr Hn Hut)) as (? & Hx & Hux). split; [done|].
    split; [|by apply (ev_used _ _ _ _ _ Hev)]. destruct (T' !! x) as [tg|] eqn:E; [|done]. exfalso. by apply (ev_new _ _ _ _ _ Hev x tg E Hx).
  - intros r n r' n' x g g' Hr Hr' Hn Hn' Hne' H1 H2. by eapply (Hex r n r' n'); [..|by apply Hor|by apply Hor].
Qed.

(** The kernel maps a page for itself. *)
Lemma kernel_map_wf st D phys va flags : wf st D -> Z.land flags PTE_ADDR_MASK = 0 -> has flags PTE_HUGE = false -> has flags VMM_USER = false ->
  returns (vmm_map_page (kernel_pml4 st) phys va flags st) (fun '(rc, st') => wf st' D /\ only_tables st st' /\ pavail (pages st') <= pavail (pages st)).
Proof.
  intros (T & Ht & Hm) Hf Hh Hu. eapply returns_mono; [by apply (kernel_map_spec st T D phys va flags)|].
  intros [rc st'] (T' & Hev & _ & Hs & _). split; [|split; apply Hev]. exists T'. split; [apply Hev|].
  eapply mem_ok_less; [done|done|]. intros r n Hr Hn. left. apply Hs; [by left|done].
Qed.

(** One page of the address space [d] changes, to a page of data or to none. *)
Lemma mem_ok_change st T st' T' D d v f : mem_ok st T D -> evolves st T st' T' D ->
  T !! f = None -> pused (pages st) f -> (exists bytes, frames st !! f = Some bytes /\ length bytes = 4096%nat) ->
  (forall r n g, r ∈ D -> 0 <= n < 2 ^ 36 -> utrans st r n <> Some (f, g)) ->
  (utrans st' d v = None \/ exists g, utrans st' d v = Some (f, g)) ->
  (forall r n, r ∈ D -> 0 <= n < 2 ^ 36 -> (r, n) <> (d, v) -> utrans st' r n = utrans st r n \/ utrans st' r n = None) -> mem_ok st' T' D.
Proof.
  intros [Hfr Hex] Hev HT Hu Hby Hne Hd Hoth. destruct (only_fields _ _ (ev_only _ _ _ _ _ Hev)) as (Hfs & _).
  assert (forall x, T !! x = None -> pused (pages st) x -> T' !! x = None /\ pused (pages st') x) as Hkeep.
  { intros x Hx Hux. split; [|by apply (ev_used _ _ _ _ _ Hev)]. destruct (T' !! x) as [tg|] eqn:E; [|done]. exfalso. by apply (ev_new _ _ _ _ _ Hev x tg E Hx). }
  assert (forall r n x g, r ∈ D -> 0 <= n < 2 ^ 36 -> utrans st' r n = Some (x, g) -> (r, n) = (d, v) /\ x = f \/ x <> f /\ utrans st r n = Some (x, g)) as Hor.
  { intros r n x g Hr Hn Hut. destruct (decide ((r, n) = (d, v))) as [[= -> ->]|Hrn].
    - left. split; [done|]. destruct Hd as [Hd|[g' Hd]]; rewrite Hd in Hut; [done|]. by injection Hut as <- <-.
    - right. destruct (Hoth r n Hr Hn Hrn) as [H|H]; rewrite H in Hut; [|done]. split; [|done]. intros ->. by apply (Hne r n g Hr Hn). }
  split.
  - intros r n x g Hr Hn Hut. rewrite Hfs. destruct (Hor r n x g Hr Hn Hut) as [[_ ->]|[_ H]]; [split; [done|by apply Hkeep]|].
    destruct (Hfr r n x g Hr Hn H) as (? & ? & ?). split; [done|by apply Hkeep].
  - intros r n r' n' x g g' Hr Hr' Hn Hn' Hne' H1 H2.
    destruct (Hor r n x g Hr Hn H1) as [[E1 E2]|[E1 E2]], (Hor r' n' x g' Hr' Hn' H2) as [[E3 E4]|[E3 E4]]; try congruence.
    by eapply (Hex r n r' n').
Qed.

(** What a mapping shows of itself. *)
Definition map_result (f flags : Z) : option (Z * Z) := if has flags VMM_PRESENT then Some (f, fl flags) else None.

Lemma map_data_page st D d f virt flags :
  data_page st D f -> d ∈ D -> ~ mirrored st d (vpn virt) -> Z.land flags PTE_ADDR_MASK = 0 -> has flags PTE_HUGE = false ->
  returns (vmm_map_page d f virt flags st) (fun '(rc, st') => wf st' D /\ only_tables st st' /\ pavail (pages st') <= pavail (pages st) /\
    (rc = -1 /\ (digit 3 (vpn virt) < 256 -> pavail (pages st') = 0) /\ (forall r n, root st D r -> 0 <= n < 2 ^ 36 -> trans st' r n = trans st r n) \/
     rc = 0 /\ trans st' d (vpn virt) = map_result f flags /\
     forall r n, root st D r -> 0 <= n < 2 ^ 36 -> (r, n) <> (d, vpn virt) -> trans st' r n = trans st r n)).
Proof.
  intros (T & Ht & Hm & HT & Hu & Hf & Hal & Hby & Hne) Hd Hmir Hfl Hh.
  assert (addr f = f) as Haf by (pose proof (addr_pte f 0 ltac:(lia) Hal eq_refl) as H; by rewrite Z.lor_0_r in H).
  eapply returns_mono; [by apply (vmm_map_page_spec st T D d f virt flags)|]. rewrite Haf. intros [rc st'] (T' & Hev & Hcase).
  split; [exists T'; split; [apply Hev|]|split; [apply Hev|split; [apply Hev|]]].
  - destruct Hcase as [(_ & _ & Hsame)|(_ & Hd' & Hsame)].
    + eapply mem_ok_less; [done|done|]. intros r n Hr Hn. left. unfold utrans. by rewrite Hsame by (by left || done).
    + eapply (mem_ok_change st T st' T' D d (vpn virt) f); try done.
      * unfold utrans. rewrite Hd'. destruct (has flags VMM_PRESENT); [|by left]. cbn [usr]. destruct (has (fl flags) VMM_USER); [right; by eexists|by left].
      * intros r n Hr Hn Hrn. left. unfold utrans. by rewrite Hsame by (by left || done).
  - destruct Hcase as [(-> & ? & ?)|(-> & ? & ?)]; [by left|by right].
Qed.

Lemma unmap_wf st D d virt : wf st D -> d ∈ D -> ~ mirrored st d (vpn virt) ->
  returns (vmm_unmap_page d virt st) (fun st' => wf st' D /\ only_tables st st' /\ trans st' d (vpn virt) = None /\
    forall r n, root st D r -> 0 <= n < 2 ^ 36 ->
      ~ (r = d /\ (n = vpn virt \/ huge_mapped st d (vpn virt) /\ n / 512 = vpn virt / 512)) -> trans st' r n = trans st r n).
Proof.
  intros (T & Ht & Hm) Hd Hmir. eapply returns_mono; [by apply (vmm_unmap_page_spec st T D d virt)|].
  intros st' (Hev & Hn & Hblk & Hoth). split; [|split; [apply Hev|done]]. exists T. split; [apply Hev|].
  eapply mem_ok_less; [done|done|]. intros r n Hr Hnr. unfold utrans.
  destruct (decide (r = d)) as [->|Hrd]; [|left; rewrite Hoth by (by left || done || naive_solver); done].
  destruct (decide (n = vpn virt)) as [->|Hnv]; [right; by rewrite Hn|].
  destruct (leaf 3 st d (vpn virt)) as [[[[|[|m]] b] e]|] eqn:Hlf; try (left; rewrite Hoth; [done|by left|done|]; intros [_ [?|[(b' & e' & ?) _]]]; congruence).
  destruct (decide (n / 512 = vpn virt / 512)) as [E|E].
  - right. rewrite Hblk; [done|done|by exists b, e|done].
  - left. rewrite Hoth; [done|by left|done|]. intros [_ [?|[_ ?]]]; done.
Qed.
End use.
