(* ===== verification/VmmPmm.v ===== *)
(** * The physical page allocator under the page tables

    The allocator of Pmm.v implements the interface [Pages] the page tables
    are verified against.  Page 0 must be reserved: an allocator that hands it
    out returns the address its callers take for a failure. *)

From stdpp Require Import base numbers list.
From Stdlib Require Import ZArith Lia.
From S2P Require Import Prelude Pmm Vmm.

#[local] Open Scope Z_scope.

(** Page [k] is in use. *)
Definition page_used (p : pmm) (k : Z) : Prop := 0 < k < total_pages p /\ ~ page_free p k.

#[export] Instance pmm_Pages : Pages pmm := {
  palloc := Pmm.pmm_alloc_page;
  pfree := Pmm.pmm_free_page;
  pwf p := pmm_wf p /\ ~ page_free p 0;
  pused p x := exists k, x = k * PAGE /\ page_used p k;
  pavail := free_pages;
  plow p := forall k, page_free p k -> k * PAGE < IDENTITY_END;
}.

Lemma free_at_count p idx : pmm_wf p -> 0 <= idx < total_pages p -> ~ page_free p idx ->
  returns (free_at idx p) (fun p' => free_pages p' = free_pages p + 1).
Proof.
  intros Hwf Hi Hn. pose proof Hwf as (Ht & Hsz & Hf). unfold free_at. zcmp. rewrite bitmap_test_ok by lia. ret.
  destruct (bm_bit 8 (bitmap p) idx) eqn:E; [|by destruct Hn].
  eapply returns_bind; [apply bm_clear_spec; lia|]. intros bm Hu. cbn [returns]. cbn.
  pose proof (nclear_upd (bitmap p) idx false bm (Z.to_nat (total_pages p)) Hu ltac:(lia)) as Hup. rewrite E in Hup.
  pose proof (nclear_range bm (Z.to_nat (total_pages p))). pose proof (nclear_range (bitmap p) (Z.to_nat (total_pages p))). apply u32_small. unfold in_u32. lia.
Qed.

#[export] Instance pmm_PagesLaws : PagesLaws pmm.
Proof.
  split.
  - intros p [Hwf H0]. cbn [palloc pmm_Pages]. eapply returns_mono; [by apply pmm_alloc_page_spec|].
    intros [a p'] [(Hno & -> & ->)|(k & -> & Hk & _ & (Hwf' & Htot & _ & Hfree) & Hcnt)].
    + split; [done|]. left. pose proof Hwf as (_ & _ & Hc). assert (free_pages p = 0); [|done].
      rewrite Hc. apply nclear_sub_zero. intros i Hi. destruct (bm_bit 8 (bitmap p) i) eqn:E; [done|]. destruct (Hno i). split; [lia|done].
    + assert (0 < k < total_pages p) as Hr by (destruct Hk as [? ?]; assert (k <> 0) by (intros ->; by destruct H0); lia).
      destruct Hwf as (Ht & _). split; [split; [done|rewrite Hfree; tauto]|]. right.
      split; [unfold PAGE; lia|]. split; [by apply Z.mod_mul|]. split.
      { intros (k' & E & _ & Hn). assert (k' = k) as -> by (unfold PAGE in E; lia). done. }
      split; [done|]. intros x. split.
      * intros (k' & -> & Hk' & Hn). destruct (Z.eq_dec k' k) as [->|Hne]; [by left|right]. exists k'. split; [done|].
        split; [lia|]. intros Hf. apply Hn, Hfree. done.
      * intros [-> |(k' & -> & Hk' & Hn)]; [exists k|exists k']; (split; [done|]); (split; [lia|]); rewrite Hfree; tauto.
  - intros p a [Hwf H0] (k & -> & Hk & Hn) _. cbn [pfree pmm_Pages]. unfold Pmm.pmm_free_page. rewrite Z.div_mul by done.
    pose proof (free_at_spec p k Hwf ltac:(lia)) as H1. pose proof (free_at_count p k Hwf ltac:(lia) Hn) as H2.
    destruct (free_at k p) as [p'| |]; [|done..]. destruct H1 as (Hwf' & Htot & _ & Hfree). cbn [returns] in *.
    split; [split; [done|rewrite Hfree; intros [?|[_ ?]]; [done|lia]]|]. split; [done|]. intros x. split.
    + intros (k' & -> & Hk' & Hn'). rewrite Hfree in Hn'. split; [exists k'; split; [done|split; [lia|tauto]]|].
      intros E. apply Hn'. right. assert (k' = k) by (unfold PAGE in E; lia). split; [lia|done].
    + intros [(k' & -> & Hk' & Hn') Hne]. exists k'. split; [done|]. split; [lia|]. rewrite Hfree. intros [?|[_ ->]]; done.
  - intros p _ (k & E & Hk & _). unfold PAGE in E. lia.
  - intros p [(_ & _ & E) _]. cbn. rewrite E. apply nclear_range.
  - intros p [Hwf _] Hlow. cbn [palloc pmm_Pages]. eapply returns_mono; [by apply pmm_alloc_page_spec|].
    intros [a p'] [(_ & -> & ->)|(k & -> & Hk & _ & (_ & _ & _ & Hfree) & _)]; [done|].
    split; [intros j [Hj _]%Hfree; by apply Hlow|by apply Hlow].
  - intros p a [Hwf _] Hlow (k & -> & Hk & _) _ Ha. cbn [pfree pmm_Pages]. unfold Pmm.pmm_free_page. rewrite Z.div_mul by done.
    eapply returns_mono; [apply free_at_spec; [done|lia]|]. intros p' (_ & _ & _ & Hfree) j [Hj|[_ ->]]%Hfree; [by apply Hlow|done].
Qed.

(** C12: the allocator [pmm_init] makes implements the interface the page tables
    are verified against: with the kernel image in place page 0 is never free,
    an allocation hands out a page no one holds, aligned and below 2^52, or
    fails because none is free, and a release returns exactly the given page.
    If memory ends within the first 64 MB, so do the pages handed out.  The
    number of pages modulo 32768 must not be between 1 and 7. *)
Theorem pmm_implements_pages (kernel_end : Z) (mb : mboot_info) :
  mboot_wf mb ->
  (let total := u32 (memory_end (mb_tags mb) / PAGE) in total mod 32768 = 0 \/ 8 <= total mod 32768) ->
  0 < kernel_end_page kernel_end ->
  PagesLaws pmm /\ returns (pmm_init kernel_end mb) (fun p => pwf p /\ (total_pages p * PAGE <= IDENTITY_END -> plow p)).
Proof.
  intros Hmb Ht Hk. split; [apply _|]. eapply returns_mono; [by apply pmm_init_spec|].
  intros p (Hwf & _ & bs & np & _ & _ & Hfree & _). split; [split; [done|]|].
  - rewrite Hfree. intros (_ & [_ Hn] & _). apply Hn. left. lia.
  - intros Hle k [Hr _]. unfold PAGE in *. lia.
Qed.

Lemma pmm_implements_pages_witness :
  PagesLaws pmm /\ returns (pmm_init 0x150000 small_mb) (fun p => pwf p /\ (total_pages p * PAGE <= IDENTITY_END -> plow p)).
Proof. apply (pmm_implements_pages 0x150000 small_mb small_mb_wf); [right; vm_compute; discriminate|vm_compute; reflexivity]. Defined.
