(* ===== verification/VmmProps.v ===== *)
(** * The amd64 address spaces: properties

    The claims on the virtual memory manager, for any page allocator that keeps
    the laws of [Pages], and their witnesses on the allocator of Pmm.v. *)

From stdpp Require Import base numbers list gmap sets.
From Stdlib Require Import ZArith Lia.
From S2P Require Import Prelude Pmm Vmm VmmTree VmmMap VmmCow VmmCopy VmmFork VmmDir VmmInit VmmUse VmmPmm.

#[local] Open Scope Z_scope.

Section claims.
Context {P : Type} `{!Pages P, !PagesLaws P}.
Implicit Types (st : vst (P := P)) (D : gset Z).

(** ** Shared lemmas *)

Lemma wf_current st D l : wf st D -> wf (set_current l st) D.
Proof. intros (T & Ht & Hm). exists T. split; [by destruct Ht; split|]. by destruct Hm; split. Qed.

(** What a query of any address space answers. *)
Lemma physical_spec st D r va : wf st D -> root st D r ->
  vmm_get_physical r va st = Ret (match trans st r (vpn va) with Some (f, _) => f + va mod PAGE_SIZE | None => 0 end).
Proof. intros (T & Ht & _) Hr. by apply (vmm_get_physical_spec st T D). Qed.

Lemma present_spec st D r va : wf st D -> root st D r ->
  vmm_is_page_present r va st = Ret (match trans st r (vpn va) with Some _ => 1 | None => 0 end).
Proof.
  intros (T & Ht & _) Hr. unfold vmm_is_page_present. rewrite (walk_entry st T D r va (Ret 0) (fun e => Ret (if has e VMM_PRESENT then 1 else 0)) Ht Hr).
  unfold trans, tr. destruct (leaf 3 st r (vpn va)) as [[[m b] e]|]; [|done]. cbn [mbind option_bind xlate]. by destruct (has e VMM_PRESENT).
Qed.

Lemma fork_directory_spec st D p : wf st D -> kernel_high st -> p ∈ D -> apart st p ->
  returns (fork_directory p st) (fun '(c, st') => only_tables st st' /\
    (c = 0 /\ pavail (pages st) < 4 /\ wf st' D /\ (forall r va, r ∈ D -> vmem st' r va = vmem st r va) \/
    c <> 0 /\ c ∉ D /\ wf st' ({[c]} ∪ D) /\ (forall r va, r ∈ D -> vmem st' r va = vmem st r va) /\
    (forall r n, r ∈ D -> 0 <= n < 2 ^ 36 -> uwrite st r n = true -> uwrite st' r n = true) /\
    (forall n, 0 <= n < 2 ^ 36 -> utrans st' c n <> None -> uwrite st' c n = true) /\
    (forall n, 0 <= n < 2 ^ 35 -> pavail (pages st') <> 0 -> umapped st p n = true -> uwrite st' p n = true) /\
    forall va, vpn va < 2 ^ 35 -> vmem st' c va = vmem st p va \/ vmem st' c va = None /\ pavail (pages st') = 0)).
Proof.
  intros Hwf Hh Hp Hlc. unfold fork_directory. eapply returns_bind; [by apply vmm_create_directory_spec|].
  intros [c st1] (Ho & Htr & Hlow & Hh1 & Hc).
  destruct (only_fields _ _ Ho) as (Hfs & _ & Hkl & _).
  assert (forall r va, r ∈ D -> vmem st1 r va = vmem st r va) as Hvm
    by (intros r va Hr; unfold vmem, utrans; by rewrite Hfs, Htr by (by left || apply vpn_range)).
  destruct Hc as [(-> & Hav & Hwf1 & _)|(Hc0 & Hcu & _ & (T1 & Ht1 & Hm1) & _ & Hfresh)]; [cbn; split; [done|by left]|].
  assert (c ∉ D) as HcD.
  { intros HcD. destruct Hwf as (T & Ht & _). by destruct (t_tab _ _ _ Ht c _ (t_dir _ _ _ Ht c HcD)) as (_ & ? & _). }
  assert (p <> c) as Hpc by (by intros ->). rewrite (proj2 (Z.eqb_neq c 0)) by done.
  eapply returns_bind; [apply (vmm_fork_cow_pages_spec st1 T1 ({[c]} ∪ D) p c); [done|set_solver|set_solver|done|]|].
  - intros m Hm Hu H3 H2 e. rewrite Hkl, Hlow. apply Hlc; [done| |done|done]. unfold utrans in *. by rewrite <- Htr by (by left || lia).
  - intros st2 Hf. cbn [returns]. split.
    { destruct Hf as (T2 & Hev & _). pose proof (ev_only _ _ _ _ _ Hev) as Ho2. unfold only_tables in *. rewrite Ho2, Ho. by destruct st. }
    right. split; [done|]. split; [done|]. split.
    { eapply (forked_wf st1 T1 ({[c]} ∪ D) p c _ st2); try done; set_solver. }
    assert (p ∈ {[c]} ∪ D /\ c ∈ {[c]} ∪ D) as [Hp1 Hc1] by set_solver.
    assert (forall r, r ∈ D -> r ∈ {[c]} ∪ D /\ r <> c) as HD by (intros r Hr; split; [set_solver|by intros ->]).
    split; [|split; [|split; [|split]]].
    + intros r va Hr. rewrite <- Hvm by done. by apply (forked_vmem st1 T1 ({[c]} ∪ D) p c _ st2 Hf); apply HD.
    + intros r n Hr Hn Hw. destruct (HD r Hr) as [Hr1 _].
      destruct (forked_uwrite st1 T1 ({[c]} ∪ D) p c _ st2 Hpc Hf Hfresh r n Hr1 Hn) as [H _]. apply H.
      unfold uwrite, utrans in *. by rewrite Htr by (by left || done).
    + intros n Hn Hu. destruct (forked_uwrite st1 T1 ({[c]} ∪ D) p c _ st2 Hpc Hf Hfresh c n Hc1 Hn) as (_ & H & _). by apply H.
    + intros n Hn Hav Hu. destruct (forked_uwrite st1 T1 ({[c]} ∪ D) p c _ st2 Hpc Hf Hfresh p n Hp1 ltac:(lia)) as (_ & _ & H).
      apply H; [done|lia|done|]. unfold umapped, utrans in *. rewrite Htr by (by left || lia). by destruct (usr _).
    + intros va Hva. rewrite <- Hvm by done. by eapply (forked_vmem_child st1 T1 ({[c]} ∪ D) p c _ st2).
Qed.

(** The range lies in user memory. *)
Definition in_user (addr size : Z) : Prop := addr <> 0 /\ addr + size <= USER_STACK_TOP.

Lemma range_guard addr size : 0 <= addr -> 0 < size -> (USER_STACK_TOP <=? addr) || (USER_STACK_TOP - addr <? size) = negb (addr + size <=? USER_STACK_TOP).
Proof. intros. destruct (Z.leb_spec USER_STACK_TOP addr), (Z.ltb_spec (USER_STACK_TOP - addr) size), (Z.leb_spec (addr + size) USER_STACK_TOP); done || lia. Qed.

Lemma copy_to_user_spec st D d addr src size b :
  wf st D -> runs_in st D d -> cr0_wp st = true -> thread_fault st = Some b -> 0 <= addr -> 0 < size <= Z.of_nat (length src) ->
  returns (copy_to_user addr src size st) (fun '(r, st') =>
    ~ in_user addr size /\ r = inl (-1) /\ st' = st \/
    in_user addr size /\ advances D d st st' /\ copied_to D d addr size src 0 r st st').
Proof.
  intros Hwf Hrun Hwp Hb Ha Hs. unfold copy_to_user. zcmp. destruct (Z.eqb_spec addr 0) as [->|Hne]; [cbn; left; split; [by intros [? _]|done]|].
  rewrite range_guard by lia. destruct (Z.leb_spec (addr + size) USER_STACK_TOP) as [Hle|Hle]; cbn [negb]; [|left; split; [intros [_ ?]; lia|done]].
  unfold vmm_get_current_directory. rewrite (rd_getz _ _ _ (ri_cur _ _ _ Hrun)). cbn [mbind out_bind].
  pose proof (set_fault_advances D d st (Some true) Hwf Hrun) as Hadv. unfold arm. rewrite Hb.
  eapply returns_mono; [apply (copy_to_loop_spec D d addr size src Ha Hle ltac:(lia)); [apply Hadv|apply Hadv|done|done|lia|lia]|].
  intros [r st'] [Hadv' Hcp]. right. split; [by split|]. split; [by eapply advances_trans|exact Hcp].
Qed.

Lemma copy_from_user_spec st D d dst addr size :
  wf st D -> runs_in st D d -> 0 <= addr -> 0 < size <= Z.of_nat (length dst) ->
  returns (copy_from_user dst addr size st) (fun '(r, dst', st') =>
    ~ in_user addr size /\ r = inl (-1) /\ dst' = dst /\ st' = st \/
    in_user addr size /\ st' = copy_disarm st /\ copied_from st d addr size 0 r dst dst').
Proof.
  intros Hwf Hrun Ha Hs. unfold copy_from_user. zcmp. destruct (Z.eqb_spec addr 0) as [->|Hne]; [cbn; left; split; [by intros [? _]|done]|].
  rewrite range_guard by lia. destruct (Z.leb_spec (addr + size) USER_STACK_TOP) as [Hle|Hle]; cbn [negb]; [|left; split; [intros [_ ?]; lia|done]].
  unfold vmm_get_current_directory. rewrite (rd_getz _ _ _ (ri_cur _ _ _ Hrun)). cbn [mbind out_bind].
  eapply returns_mono; [apply (copy_from_loop_spec D d addr size (arm st) (arm_wf _ _ Hwf) (ri_dir _ _ _ Hrun) Ha Hle); lia|].
  intros [[r dst'] st'] [-> Hcp]. right. split; [by split|]. split; [apply arm_disarm|]. unfold arm in Hcp. by destruct (thread_fault st).
Qed.

Lemma strncpy_from_user_spec st D d dst addr max_len :
  wf st D -> runs_in st D d -> 0 <= addr -> 0 < max_len <= 0x7FFFFFFF -> max_len <= Z.of_nat (length dst) ->
  returns (strncpy_from_user dst addr max_len st) (fun '(r, dst', st') =>
    (addr = 0 \/ USER_STACK_TOP <= addr \/ umapped st d (vpn addr) = false) /\ r = inl (-1) /\ dst' = dst /\ st' = st \/
    0 < addr < USER_STACK_TOP /\ st' = copy_disarm st /\ copied_string st d addr 0 (Z.min max_len (USER_STACK_TOP - addr)) r dst dst').
Proof.
  intros Hwf Hrun Ha Hm Hl. unfold strncpy_from_user. zcmp. destruct (Z.eqb_spec addr 0) as [->|Hne]; [cbn; left; split; [by left|done]|].
  destruct (Z.leb_spec USER_STACK_TOP addr) as [Hge|Hlt]; [cbn; left; split; [by right; left|done]|]. cbv zeta.
  assert ((if USER_STACK_TOP - addr <? max_len then USER_STACK_TOP - addr else max_len) = Z.min max_len (USER_STACK_TOP - addr)) as ->
    by (destruct (Z.ltb_spec (USER_STACK_TOP - addr) max_len); lia).
  set (lim := Z.min _ _). unfold vmm_get_current_directory. rewrite (rd_getz _ _ _ (ri_cur _ _ _ Hrun)). cbn [mbind out_bind].
  pose proof (ri_dir _ _ _ Hrun) as Hd. eapply returns_bind; [by apply (flags_user st D d addr)|]. intros g [-> _].
  destruct (umapped st d (vpn addr)) eqn:Hu; cbn [negb]; [|cbn; left; split; [by right; right|done]].
  pose proof (strncpy_user_loop_spec (arm st) D d addr lim (arm_wf _ _ Hwf) Hd Ha ltac:(lia) (Z.to_nat lim) 0 dst) as Hs. rewrite Z.add_0_r in Hs.
  eapply returns_mono; [apply Hs; [lia|lia|lia|by rewrite arm_umapped]|].
  intros [[r dst'] st'] [-> Hcp]. right. split; [lia|]. split; [apply arm_disarm|]. unfold arm in Hcp. by destruct (thread_fault st).
Qed.

(** ** Claims *)

(** C11: with four free pages, [vmm_init] makes the kernel's address space: the
    first 64 MB are mapped at their own addresses and above [KERNEL_BASE], the
    invariant of page tables and user memory holds, no frame is touched and the
    boot processor runs in it.  The free pages lie in the first 64 MB. *)
Theorem vmm_init_correct st l : pwf (pages st) -> plow (pages st) -> 4 <= pavail (pages st) -> getz (current_pml4 st) 0 = Some l -> cpu_id st = 0 ->
  returns (vmm_init st) (fun st' => wf st' ∅ /\ kernel_high st' /\ low_clear st' /\ identity_mapped st' /\ frames st' = frames st /\
    pavail (pages st') = pavail (pages st) - 4 /\ vmm_get_current_directory st' = Ret (vmm_get_kernel_directory st')).
Proof.
  intros Hp Hlow Hav Hl Hc. eapply returns_mono; [apply vmm_init_spec; eauto|]. intros st' [?|(H1 & H2 & H3 & H4 & H5 & H6 & H7 & H8 & _)]; [lia|].
  repeat (split; [done|]). unfold vmm_get_current_directory, vmm_get_kernel_directory. rewrite H7, H8, Hc. apply rd_getz.
  apply (getz_insert_eq (current_pml4 st) 0). by eapply getz_Some_lt.
Qed.



(** C6: outside the gigabytes whose tables the address space shares with the
    kernel, [vmm_unmap_page] removes the page, and the rest of its 2 MB block when
    a huge page mapped it; every other page of every address space stays as it
    was. *)
Theorem vmm_unmap_page_correct st D d virt : wf st D -> d ∈ D -> ~ mirrored st d (vpn virt) ->
  returns (vmm_unmap_page d virt st) (fun st' => wf st' D /\ frames st' = frames st /\
    vmm_get_physical d virt st' = Ret 0 /\ vmm_is_page_present d virt st' = Ret 0 /\
    forall r va, root st D r -> ~ (r = d /\ (vpn va = vpn virt \/ huge_mapped st d (vpn virt) /\ vpn va / 512 = vpn virt / 512)) ->
      vmm_get_physical r va st' = vmm_get_physical r va st).
Proof.
  intros Hwf Hd Hm. eapply returns_mono; [by apply (unmap_wf st D d virt)|]. intros st' (Hwf' & Ho & Hn & Hs). split; [done|].
  destruct (only_fields _ _ Ho) as (Hfs & _). split; [done|].
  rewrite (physical_spec st' D), (present_spec st' D), Hn by (done || by left). split; [done|]. split; [done|].
  intros r va Hr Hne. rewrite (physical_spec st' D), (physical_spec st D), Hs by (done || apply vpn_range || by apply (root_only _ _ _ _ Ho)). done.
Qed.

(** C4: [vmm_cow_break] on a user page of the running address space: a
    copy-on-write page gets a page of its own, mapped writable and nowhere
    else.  It fails only when the page is not copy-on-write or memory is short,
    and then no page changes.  The memory of every address space stays the same. *)
Theorem vmm_cow_break_correct st D d va f g : wf st D -> runs_in st D d -> utrans st d (vpn va) = Some (f, g) ->
  returns (vmm_cow_break d va st) (fun '(rc, st') => wf st' D /\ (forall r a, r ∈ D -> vmem st' r a = vmem st r a) /\
    (rc = 0 /\ (has g VMM_COW = false \/ (slot_free st -> pavail (pages st') <= 1)) /\
       (forall r n, r ∈ D -> 0 <= n < 2 ^ 36 -> utrans st' r n = utrans st r n) \/
     rc = 1 /\ has g VMM_COW = true /\ exists f', utrans st' d (vpn va) = Some (f', cow_flags g) /\ has (cow_flags g) VMM_WRITABLE = true /\
       forall r n, r ∈ D -> 0 <= n < 2 ^ 36 -> (r, n) <> (d, vpn va) -> utrans st' r n = utrans st r n /\ forall g', utrans st' r n <> Some (f', g'))).
Proof.
  intros (T & Ht & Hm) Hrun Hut. pose proof (ri_dir _ _ _ Hrun) as Hd. destruct (m_frame _ _ _ Hm d _ f g Hd (vpn_range _) Hut) as ((bytes & Hby & _) & _).
  eapply returns_mono; [by eapply (vmm_cow_break_spec st T D d va f g bytes Ht Hd (ri_cur _ _ _ Hrun))|].
  intros [rc st'] [(Hnc & -> & ->)|(Hcow & T' & Hre & [(-> & Hfr & Hsl & Hs)|(-> & _ & f' & Hnu & Hpu & HT' & Hfr & Hut' & Hs)])].
  - split; [by exists T|]. split; [done|]. left. split; [done|]. split; [by left|done].
  - destruct (mem_ok_same st T st' T' D Hm Hre Hfr Hs) as [Hm' Hv]. split; [exists T'; split; [apply Hre|done]|]. split; [done|]. left. split; [done|].
    split; [right; intros H; by apply Hsl|done].
  - destruct (mem_ok_copy st T st' T' D d (vpn va) f g f' bytes Hm Hre Hd (vpn_range _) Hut Hby Hnu Hpu HT' Hfr ltac:(eauto) Hs) as [Hm' Hv].
    split; [exists T'; split; [apply Hre|done]|]. split; [done|]. right. split; [done|]. split; [done|]. exists f'. split; [done|].
    split; [by rewrite has_writable, cow_flags_bit by lia|]. intros r n Hr Hn Hne. split; [by apply Hs|]. rewrite Hs by done. intros g' Hu.
    by destruct (m_frame _ _ _ Hm r n f' g' Hr Hn Hu) as (_ & _ & ?).
Qed.



(** C7: [copy_to_user] writes a prefix of the bytes at the user address and
    nothing else, neither in another address space nor in the kernel's memory,
    breaking copy on write as it goes.  It returns 0 with all bytes written, or
    -1 because the range leaves user memory, a page of it may not be written, or
    memory is short.  This is for a processor with CR0.WP set, as the boot
    processor; the others run with it clear. *)
Theorem copy_to_user_correct st D d addr src size b :
  wf st D -> runs_in st D d -> cr0_wp st = true -> thread_fault st = Some b -> slot_free st -> 0 <= addr -> 0 <= size <= Z.of_nat (length src) ->
  returns (copy_to_user addr src size st) (fun '(r, st') => wf st' D /\
    (forall x, spare st D x -> frames st' !! x = frames st !! x) /\
    exists k, 0 <= k <= size /\
      (forall q va, q ∈ D -> user_va va ->
         vmem st' q va = if bool_decide (q = d) && (addr <=? va) && (va <? addr + k) then getz src (va - addr) else vmem st q va) /\
      (r = inl 0 /\ k = size /\ (size = 0 \/ in_user addr size /\ forall va, addr <= va < addr + size -> uwrite st d (vpn va) = true) \/
       r = inl (-1) /\ 0 < size /\ (~ in_user addr size \/ (exists va, addr <= va < addr + size /\ uwrite st d (vpn va) = false) \/ pavail (pages st') <= 1))).
Proof.
  intros Hwf Hrun Hwp Hb Hsl Ha Hs. assert (forall q va, vmem st q va = if bool_decide (q = d) && (addr <=? va) && (va <? addr + 0) then getz src (va - addr) else vmem st q va) as Hz.
  { intros q va. rewrite Z.add_0_r. destruct (bool_decide (q = d)), (Z.leb_spec addr va), (Z.ltb_spec va addr); done || lia. }
  destruct (decide (size = 0)) as [->|Hne].
  { unfold copy_to_user. cbn. split; [done|]. split; [done|]. exists 0. split; [lia|]. split; [auto|]. left. split; [done|]. split; [done|by left]. }
  eapply returns_mono; [by apply (copy_to_user_spec st D d addr src size b); try lia|].
  intros [r st'] [(Hn & -> & ->)|(Hin & Had & k & Hk & Hwr & _ & Hr)].
  - split; [done|]. split; [done|]. exists 0. split; [lia|]. split; [auto|]. right. split; [done|]. split; [lia|by left].
  - rewrite Z.sub_0_r, Z.add_0_r in *. change (drop (Z.to_nat 0) src) with src in Hwr. split; [apply Had|]. split; [intros x Hx; by apply (ad_spare _ _ _ _ Had x)|].
    exists k. split; [done|]. split.
    + intros q va Hq Hva. rewrite (Hwr q va Hq Hva), length_take_le, Z2Nat.id by lia.
      destruct (bool_decide (q = d)), (Z.leb_spec addr va), (Z.ltb_spec va (addr + k)); cbn [andb]; try done. unfold getz. zcmp. apply lookup_take_lt. lia.
    + destruct Hr as [(-> & -> & Hall)|(-> & va & Hva & Hw)]; [left|right]; (split; [done|]).
      * split; [done|]. by right.
      * split; [lia|]. right. destruct Hw as [Hw|[_ Hav]]; [left; by exists va|right; by apply Hav].
Qed.

(** C8: [copy_from_user] copies user memory to the buffer and changes nothing
    else.  It returns 0 with all bytes copied exactly when [user_range_ok]
    accepts the range for reading: it lies in user memory and every page of it
    is a user page.  Otherwise it returns -1. *)
Theorem copy_from_user_correct st D d dst addr size :
  wf st D -> runs_in st D d -> 0 <= addr -> 0 <= size <= Z.of_nat (length dst) ->
  returns (copy_from_user dst addr size st) (fun '(r, dst', st') =>
    (st' = st \/ st' = copy_disarm st) /\ length dst' = length dst /\ (forall x, size <= x -> getz dst' x = getz dst x) /\
    (r = inl 0 /\ user_range_ok addr size false st = Ret 1 /\ (forall x, 0 <= x < size -> getz dst' x = vmem st d (addr + x)) \/
     r = inl (-1) /\ user_range_ok addr size false st = Ret 0)).
Proof.
  intros Hwf Hrun Ha Hs. pose proof (user_range_ok_spec st D d addr size false Hwf Hrun Ha ltac:(lia)) as Hok.
  destruct (user_range_ok addr size false st) as [ok| |]; [|done..]. destruct Hok as [Hv Hok].
  assert (forall va, page_ok false st d (vpn va) = umapped st d (vpn va)) as Hpo by (intros va; unfold page_ok; by rewrite andb_true_r).
  destruct (decide (size = 0)) as [->|Hne].
  { unfold copy_from_user. cbn. split; [by left|]. split; [done|]. split; [done|]. left. split; [done|]. split; [f_equal; apply Hok; by left|lia]. }
  eapply returns_mono; [by apply (copy_from_user_spec st D d dst addr size); try lia|].
  intros [[r dst'] st'] [(Hn & -> & -> & ->)|(Hin & -> & k & Hk & [Hl Hrec] & Hr)].
  - split; [by left|]. split; [done|]. split; [done|]. right. split; [done|]. destruct Hv as [-> | ->]; [|done].
    destruct Hok as [Hok _]. destruct (Hok eq_refl) as [?|(? & ? & _)]; [lia|by destruct Hn].
  - split; [by right|]. split; [done|]. split.
    { intros x Hx. rewrite Hrec. destruct (Z.leb_spec 0 x), (Z.ltb_spec x k); try done; lia. }
    rewrite Z.add_0_r in Hr. destruct Hr as [(-> & -> & Hall)|(-> & va & Hva & Hu)]; [left|right]; (split; [done|]).
    + split; [|intros x Hx; rewrite Hrec; zcmp; done]. f_equal. apply Hok. right. destruct Hin. split; [done|]. split; [done|].
      intros va Hva. rewrite Hpo. by apply Hall.
    + destruct Hv as [-> | ->]; [|done]. destruct Hok as [Hok _]. destruct (Hok eq_refl) as [?|(_ & _ & Hall)]; [lia|].
      specialize (Hall va Hva). by rewrite Hpo, Hu in Hall.
Qed.

(** C9: [strncpy_from_user] copies the string at the user address up to its
    terminator and returns its length with the terminator, or returns -1: the
    address is not one of user memory, the string leaves mapped user memory, or
    it does not end within the buffer. *)
Theorem strncpy_from_user_correct st D d dst addr max_len :
  wf st D -> runs_in st D d -> 0 <= addr -> 0 < max_len <= 0x7FFFFFFF -> max_len <= Z.of_nat (length dst) ->
  returns (strncpy_from_user dst addr max_len st) (fun '(r, dst', st') => (st' = st \/ st' = copy_disarm st) /\ length dst' = length dst /\
    ((exists k, r = inl k /\ 0 < k <= max_len /\ addr + k <= USER_STACK_TOP /\ vmem st d (addr + k - 1) = Some 0 /\
        (forall j, 0 <= j < k - 1 -> vmem st d (addr + j) <> Some 0) /\ (forall j, 0 <= j < k -> getz dst' j = vmem st d (addr + j))) \/
     r = inl (-1) /\ (addr = 0 \/ USER_STACK_TOP <= addr \/ exists k, 0 <= k <= max_len /\ (forall j, 0 <= j < k -> vmem st d (addr + j) <> Some 0) /\
        (k = max_len \/ addr + k = USER_STACK_TOP \/ umapped st d (vpn (addr + k)) = false)))).
Proof.
  intros Hwf Hrun Ha Hm Hl. eapply returns_mono; [by apply (strncpy_from_user_spec st D d dst addr max_len)|].
  intros [[r dst'] st'] [(Hc & -> & -> & ->)|(Hadr & -> & k & Hk & [Hlen Hrec] & Hr)].
  - split; [by left|]. split; [done|]. right. split; [done|]. destruct Hc as [?|[?|Hu]]; [auto..|]. right. right. exists 0. split; [lia|]. split; [lia|].
    right. right. by rewrite Z.add_0_r.
  - split; [by right|]. split; [done|]. destruct Hr as [(-> & Hk0 & Hend & Hall)|(-> & Hall & Hw)]; [left|right].
    + exists k. split; [done|]. split; [lia|]. split; [lia|]. split; [done|]. split; [done|]. intros j Hj. rewrite Hrec. zcmp. done.
    + split; [done|]. right. right. exists k. split; [lia|]. split; [done|]. destruct Hw as [Hw|Hw]; [|auto]. destruct (decide (k = max_len)); [by left|]. right. left. lia.
Qed.

(** A fork makes pages writable that are not: after it a write to a page
    the parent may only read is taken for a write to a copy-on-write page. *)
Theorem fork_makes_writable st D p n : wf st D -> kernel_high st -> p ∈ D -> apart st p -> 0 <= n < 2 ^ 35 ->
  umapped st p n = true -> uwrite st p n = false ->
  returns (fork_directory p st) (fun '(c, st') => c <> 0 -> pavail (pages st') <> 0 -> uwrite st' p n = true).
Proof.
  intros Hwf Hh Hp Hl Hn Hu _. eapply returns_mono; [by apply (fork_directory_spec st D p)|].
  intros [c st'] [_ [(-> & _)|(_ & _ & _ & _ & _ & _ & Hw & _)]] Hc Hav; [done|]. by apply Hw.
Qed.

(** On a processor whose CR0.WP is clear a kernel write goes straight
    through copy on write: it changes the page for every address space that
    shares it. *)
Theorem write_through_cow st D d va b f g r n g' : wf st D -> d ∈ D -> r ∈ D -> 0 <= n < 2 ^ 36 -> cr0_wp st = false ->
  utrans st d (vpn va) = Some (f, g) -> utrans st r n = Some (f, g') ->
  returns (mmu_write d va b st) (fun '(how, st') => how = Resume /\
    (bytes ← frames st' !! f; getz bytes (va mod PAGE_SIZE)) = Some b /\ utrans st' r n = Some (f, g')).
Proof.
  intros (T & Ht & Hm) Hd Hr Hn Hwp Hut Hur. destruct (utrans_leaf st T D d _ f g Ht Hd (vpn_range _) Hut) as (pt & e & Hlf & HT & Hp & Hu & Hh & Hf & Hg).
  destruct (m_frame _ _ _ Hm d _ f g Hd (vpn_range _) Hut) as ((bytes & Hby & Hlen) & _).
  pose proof (Z.mod_pos_bound va PAGE_SIZE ltac:(done)) as Hoff.
  unfold mmu_write, mmu_store. rewrite (mmu_entry_leaf st T D d va pt e Ht (or_introl Hd) Hlf Hp). cbn [mbind out_bind].
  rewrite Hwp, orb_true_r. unfold mmu_frame. rewrite Hh. fold (addr e). rewrite <- Hf, Hby. cbn [deref mbind out_bind].
  rewrite wr_ok by (rewrite Hlen; unfold PAGE_SIZE in *; lia). cbn [mbind out_bind returns]. split; [done|]. split; [|done].
  cbn. rewrite lookup_insert_eq. cbn. apply getz_insert_eq. rewrite Hlen. unfold PAGE_SIZE in *. lia.
Qed.
End claims.

(** ** A small machine

    128 pages of memory, page 0 reserved: the kernel's tables, with the device
    registers at [0xFFB00000] mapped before the first process (as the disk
    driver does), a process with one page of data mapped at [0x8000000], and its
    child. *)

Definition demo_pmm : pmm := Pmm (0x01 :: replicate 15 0) 0 128 127.

Definition demo (wp : bool) : vst (P := pmm) := VSt ∅ ∅ demo_pmm 0 0 (replicate 64 0) 0 0 wp (Some false) true.

Definition demo_kernel wp : out vst :=
  st ← vmm_init (demo wp); '(_, st) ← Vmm.vmm_map_page (kernel_pml4 st) 0xFFB00000 0xFFB00000 3 st; Ret st.

Definition demo_boot wp : out (Z * vst) := st ← demo_kernel wp; vmm_create_directory st.

Definition demo_page wp : out (Z * Z * vst) :=
  '(d, st) ← demo_boot wp; '(f, st) ← Vmm.pmm_alloc_page st; Ret (d, f, fill f (replicate 4096 0) st).

Definition demo_map wp flags : out (Z * Z * vst) :=
  '(d, f, st) ← demo_page wp;
  '(_, st) ← Vmm.vmm_map_page d f 0x8000000 flags st;
  st ← vmm_switch_directory d st;
  Ret (d, f, st).

Definition demo_fork wp : out (Z * Z * Z * vst) := '(d, f, st) ← demo_map wp 7; '(c, st) ← fork_directory d st; Ret (d, f, c, st).

(** What is evaluated of the states. *)
Definition entry_present st a i : bool := match ent (P := pmm) st a i with Some e => has e VMM_PRESENT | None => false end.

(** [d] has the kernel's tables in its second to its 255th gigabyte. *)
Definition demo_mirrors d st : bool := match ent (P := pmm) st d 0 with
  | Some x => has x VMM_PRESENT && forallb (fun i => negb (entry_present st (kernel_low_pdp st) i) ||
                bool_decide (ent st (addr x) i = ent st (kernel_low_pdp st) i)) (seqZ 2 254)
  | None => false
  end.

Lemma demo_apart st D d : wf st D -> d ∈ D -> demo_mirrors d st = true -> apart st d.
Proof.
  intros (T & Ht & _) Hd. unfold demo_mirrors. destruct (ent st d 0) as [x|] eqn:Hx; [|done]. rewrite andb_true_iff, forallb_forall. intros [HP Hall].
  apply (mirrors_apart st T D d Ht Hd). intros i e Hi He HPe. exists x. split; [done|]. split; [done|].
  specialize (Hall i). rewrite <- list_elem_of_In, elem_of_seqZ in Hall. specialize (Hall ltac:(lia)). unfold entry_present in Hall.
  rewrite He, HPe in Hall. cbn [negb orb] in Hall. apply bool_decide_eq_true in Hall. congruence.
Qed.

Definition demo_runs wp d st : bool :=
  entry_present st (kernel_pml4 st) 511 && demo_mirrors d st && entry_present st (kernel_low_pdp st) 3 &&
  bool_decide (getz (current_pml4 st) (cpu_id st) = Some d) && bool_decide (trans st (kernel_pml4 st) (vpn (temp_vaddr_for (cpu_id st))) = None) &&
  bool_decide (cr0_wp st = wp) && bool_decide (thread_fault st = Some false).

Definition maps st (d f g : Z) : bool := bool_decide (utrans (P := pmm) st d 0x8000 = Some (f, g)).

Lemma demo_runs_spec wp d st : demo_runs wp d st = true ->
  kernel_high st /\ demo_mirrors d st = true /\ getz (current_pml4 st) (cpu_id st) = Some d /\ slot_free st /\ cr0_wp st = wp /\ thread_fault st = Some false.
Proof.
  unfold demo_runs. rewrite !andb_true_iff, !bool_decide_eq_true. intros ((((((H1 & H2) & _) & H3) & H4) & H5) & H6).
  split; [|done]. unfold entry_present in H1. destruct (ent st (kernel_pml4 st) 511) as [e|] eqn:E; [|done]. by exists e.
Qed.

Lemma returns_check {A} (m : out A) (Q : A -> Prop) (c : A -> bool) :
  returns m Q -> match m with Ret x => c x | _ => false end = true -> returns m (fun x => Q x /\ c x = true).
Proof. by destruct m. Qed.

Lemma demo_pages : pwf demo_pmm /\ 4 <= pavail demo_pmm /\ plow demo_pmm.
Proof.
  split; [split; [done|]|split; [done|]]; [by intros [_ H]|]. intros k [[_ Hk] _]. cbn in Hk. unfold PAGE, IDENTITY_END. lia.
Qed.

Definition cpus st : Prop := length (current_pml4 (P := pmm) st) = 64%nat /\ cpu_id st = 0.

Lemma cpus_only st st' : only_tables st st' -> cpus st -> cpus st'.
Proof. intros Ho. destruct (only_fields _ _ Ho) as (_ & _ & _ & E1 & E2 & _). unfold cpus. by rewrite E1, E2. Qed.

Lemma demo_init_ok wp : returns (vmm_init (demo wp)) (fun st => wf st ∅ /\ kernel_high st /\ cpus st /\ pavail (pages st) = 123).
Proof.
  eapply returns_mono; [apply vmm_init_spec; [apply demo_pages|apply demo_pages|by exists 0]|].
  intros st [H|(H1 & H2 & H3 & _ & _ & H4 & H5 & H6 & _)]; [by vm_compute in H|]. split; [done|]. split; [done|]. split; [|done].
  split; [by rewrite H5, length_insert|done].
Qed.

Definition demo_kernel_check st : bool := entry_present st (kernel_pml4 st) 511 && (pavail (pages (P := pmm) st) =? 121).

Lemma demo_kernel_ok wp : match demo_kernel wp with Ret st => demo_kernel_check st | _ => false end = true ->
  returns (demo_kernel wp) (fun st => wf st ∅ /\ kernel_high st /\ cpus st /\ pavail (pages st) = 121).
Proof.
  intros Hc. eapply returns_mono; [apply (returns_check _ (fun st => wf st ∅ /\ cpus st) demo_kernel_check); [|exact Hc]|].
  - clear Hc. unfold demo_kernel. eapply returns_bind; [apply demo_init_ok|]. intros st (Hwf & _ & Hcp & _).
    eapply returns_bind; [by apply (kernel_map_wf st ∅ 0xFFB00000 0xFFB00000 3 Hwf)|]. intros [rc st'] (Hwf' & Ho & _). cbn [returns].
    split; [done|by eapply cpus_only].
  - clear Hc. intros st [[Hwf Hcp] [H1 H2]%andb_true_iff]. split; [done|]. split; [|split; [done|by apply Z.eqb_eq]].
    unfold entry_present in H1. destruct (ent st (kernel_pml4 st) 511) as [e|] eqn:E; [|done]. by exists e.
Qed.

Lemma demo_kernels wp : returns (demo_kernel wp) (fun st => wf st ∅ /\ kernel_high st /\ cpus st /\ pavail (pages st) = 121).
Proof. apply demo_kernel_ok. by destruct wp; vm_compute. Qed.

Lemma demo_boot_ok wp : returns (demo_boot wp) (fun '(d, st) => wf st {[d]} /\ cpus st /\ pavail (pages st) = 117).
Proof.
  unfold demo_boot. eapply returns_bind; [apply demo_kernels|]. intros st (Hwf & Hh & Hc & Hav).
  eapply returns_mono; [by apply (vmm_create_directory_spec st ∅ Hwf Hh)|].
  intros [d st'] (Ho & _ & _ & _ & [(_ & ? & _)|(_ & _ & Hav' & Hwf' & _)]); [lia|]. rewrite (right_id_L ∅ (∪)) in Hwf'.
  split; [done|]. split; [by eapply cpus_only|lia].
Qed.

Lemma demo_page_ok wp : returns (demo_page wp) (fun '(d, f, st) => data_page st {[d]} f /\ cpus st).
Proof.
  unfold demo_page. eapply returns_bind; [apply demo_boot_ok|]. intros [d st] (Hwf & Hc & Hav).
  eapply returns_bind; [by apply (alloc_data_page st {[d]})|]. intros [f st'] [[_ ?]|(_ & _ & Ho & H)]; [lia|].
  split; [by apply H|]. exact (cpus_only _ _ Ho Hc).
Qed.

Lemma low_not_mirrored st d virt : digit 3 (vpn virt) = 0 -> digit 2 (vpn virt) = 0 -> ~ mirrored (P := pmm) st d (vpn virt).
Proof. intros H3 H2 [[H _]|(_ & H & _)]; lia. Qed.

Lemma demo_map_ok wp flags : Z.land flags PTE_ADDR_MASK = 0 -> has flags PTE_HUGE = false ->
  returns (demo_map wp flags) (fun '(d, f, st) => wf st {[d]} /\ cpus st).
Proof.
  intros Hf Hh. unfold demo_map. eapply returns_bind; [apply demo_page_ok|]. intros [[d f] st] [Hd Hc].
  eapply returns_bind; [apply (map_data_page st {[d]} d f 0x8000000 flags Hd); [set_solver|by apply low_not_mirrored|done|done]|].
  intros [rc st1] (Hwf & Ho & _). destruct (cpus_only _ _ Ho Hc) as [Hl Hid]. unfold vmm_switch_directory. destruct (d =? 0); [done|].
  rewrite Hid, wr_ok by (rewrite Hl; lia). cbn [mbind out_bind returns]. split; [by apply wf_current|]. split; [cbn; by rewrite length_insert|done].
Qed.

(** The process runs, and its page is mapped as asked. *)
Lemma demo_user wp flags : Z.land flags PTE_ADDR_MASK = 0 -> has flags PTE_HUGE = false ->
  match demo_map wp flags with Ret (d, f, st) => demo_runs wp d st && maps st d f flags | _ => false end = true ->
  returns (demo_map wp flags) (fun '(d, f, st) => wf st {[d]} /\ d ∈ ({[d]} : gset Z) /\ cpus st /\ kernel_high st /\ apart st d /\
    getz (current_pml4 st) (cpu_id st) = Some d /\ slot_free st /\ cr0_wp st = wp /\ thread_fault st = Some false /\ utrans st d 0x8000 = Some (f, flags)).
Proof.
  intros Hf Hh Hc. eapply returns_mono; [apply (returns_check _ _ (fun '(d, f, st) => demo_runs wp d st && maps st d f flags) (demo_map_ok wp flags Hf Hh))|].
  - destruct (demo_map wp flags) as [[[d f] st]| |]; exact Hc.
  - clear Hc. intros [[d f] st] [[Hwf Hcp] [Hr Hm]%andb_true_iff]. apply demo_runs_spec in Hr as (? & ? & ? & ? & ? & ?). apply bool_decide_eq_true in Hm.
    assert (d ∈ ({[d]} : gset Z)) as Hd by (by apply elem_of_singleton).
    split; [done|]. split; [done|]. split; [done|]. split; [done|]. split; [by eapply demo_apart|done].
Qed.

(** The page may be written ([7]), or only read ([5]). *)
Lemma demo_user_rw : returns (demo_map true 7) (fun '(d, f, st) => wf st {[d]} /\ d ∈ ({[d]} : gset Z) /\ cpus st /\ kernel_high st /\ apart st d /\
  runs_in st {[d]} d /\ cr0_wp st = true /\ slot_free st /\ thread_fault st = Some false /\ utrans st d 0x8000 = Some (f, 7)).
Proof.
  eapply returns_mono; [apply demo_user; [done|done|by vm_compute]|].
  intros [[d f] st] (? & ? & ? & ? & ? & ? & ? & ? & ? & ?). do 5 (split; [done|]). split; [by split|done].
Qed.

Lemma demo_user_ro : returns (demo_map true 5) (fun '(d, f, st) => wf st {[d]} /\ d ∈ ({[d]} : gset Z) /\ kernel_high st /\ apart st d /\
  utrans st d 0x8000 = Some (f, 5)).
Proof.
  eapply returns_mono; [apply demo_user; [done|done|by vm_compute]|].
  intros [[d f] st] (? & ? & _ & ? & ? & _ & _ & _ & _ & ?). done.
Qed.

(** Parent and child share the page, copy on write. *)
Definition demo_shared wp (x : Z * Z * Z * vst) : bool := let '(d, f, c, st) := x in demo_runs wp d st && negb (c =? 0) && maps st d f 0x205 && maps st c f 0x205.

Lemma demo_forked wp : match demo_map wp 7 with Ret (d, f, st) => demo_runs wp d st && maps st d f 7 | _ => false end = true ->
  match demo_fork wp with Ret x => demo_shared wp x | _ => false end = true ->
  returns (demo_fork wp) (fun '(d, f, c, st) => exists D, wf st D /\ d ∈ D /\ c ∈ D /\ getz (current_pml4 st) (cpu_id st) = Some d /\ cr0_wp st = wp /\
    utrans st d 0x8000 = Some (f, 0x205) /\ utrans st c 0x8000 = Some (f, 0x205)).
Proof.
  intros Hc1 Hc2. eapply returns_mono; [apply (returns_check _ (fun '(d, f, c, st) => exists D, wf st D /\ d ∈ D /\ (c <> 0 -> c ∈ D)) (demo_shared wp)); [|exact Hc2]|].
  - clear Hc2. unfold demo_fork. eapply returns_bind; [apply demo_user; [done|done|exact Hc1]|]. clear Hc1.
    intros [[d f] st] (Hwf & Hd & _ & Hh & Hl & _). eapply returns_bind; [by apply (fork_directory_spec st {[d]} d)|].
    intros [c st'] [_ [(-> & _ & ? & _)|(_ & _ & ? & _)]]; cbn [returns]; [by exists {[d]}|exists ({[c]} ∪ {[d]}); split; [done|set_solver]].
  - clear Hc1 Hc2. intros [[[d f] c] st] [(D & Hwf & Hd & Hcd) [[[Hr Hc]%andb_true_iff Hm1]%andb_true_iff Hm2]%andb_true_iff].
    apply demo_runs_spec in Hr as (_ & _ & Hcur & _ & Hwp & _). apply bool_decide_eq_true in Hm1, Hm2. apply negb_true_iff, Z.eqb_neq in Hc.
    exists D. split; [done|]. split; [done|]. split; [by apply Hcd|done].
Qed.

(** ** Witnesses *)

Lemma vmm_init_correct_witness : returns (vmm_init (demo true)) (fun st => wf st ∅ /\ identity_mapped st /\ pavail (pages st) = 123).
Proof.
  eapply returns_mono; [apply (vmm_init_correct (demo true) 0); [apply demo_pages|apply demo_pages|apply demo_pages|reflexivity|reflexivity]|].
  intros st (H1 & _ & _ & H2 & _ & H3 & _). split; [exact H1|]. split; [exact H2|exact H3].
Defined.



Lemma vmm_unmap_page_correct_witness : returns (demo_map true 7) (fun '(d, f, st) => returns (Vmm.vmm_unmap_page d 0x8000000 st) (fun st' =>
  wf st' {[d]} /\ Vmm.vmm_get_physical d 0x8000000 st' = Ret 0)).
Proof.
  eapply returns_mono; [apply demo_user_rw|]. intros [[d f] st] (Hwf & Hd & _).
  eapply returns_mono; [apply (vmm_unmap_page_correct st {[d]} d 0x8000000 Hwf Hd); by apply low_not_mirrored|].
  intros st' (Hwf' & _ & Hp & _). split; [exact Hwf'|exact Hp].
Defined.

Lemma vmm_cow_break_correct_witness : returns (demo_fork true) (fun '(d, f, c, st) => returns (vmm_cow_break d 0x8000000 st) (fun '(rc, st') =>
  forall a, vmem st' c a = vmem st c a)).
Proof.
  eapply returns_mono; [apply (demo_forked true); by vm_compute|]. intros [[[d f] c] st] (D & Hwf & Hd & Hc & Hcur & Hwp & Hm & _).
  eapply returns_mono; [apply (vmm_cow_break_correct st D d 0x8000000 f 0x205 Hwf); [by split|exact Hm]|].
  intros [rc st'] (_ & Hv & _) a. apply Hv, Hc.
Defined.



Lemma copy_to_user_correct_witness : returns (demo_map true 7) (fun '(d, f, st) => returns (copy_to_user 0x8000010 [1; 2; 3] 3 st) (fun '(r, st') =>
  wf st' {[d]} /\ (r = inl 0 -> vmem st' d 0x8000011 = Some 2))).
Proof.
  eapply returns_mono; [apply demo_user_rw|]. intros [[d f] st] (Hwf & Hd & _ & _ & _ & Hrun & Hwp & Hsl & Hb & _).
  eapply returns_mono; [apply (copy_to_user_correct st {[d]} d 0x8000010 [1; 2; 3] 3 false Hwf Hrun Hwp Hb Hsl); [lia|simpl; lia]|].
  intros [r st'] (Hwf' & _ & k & _ & Hv & Hr). split; [exact Hwf'|]. intros ->. destruct Hr as [(_ & -> & _)|(? & _)]; [|discriminate].
  rewrite (Hv d 0x8000011 Hd) by (unfold user_va, USER_STACK_TOP; lia). rewrite bool_decide_true by reflexivity. reflexivity.
Defined.

Lemma copy_from_user_correct_witness : returns (demo_map true 7) (fun '(d, f, st) => returns (copy_from_user [9; 9; 9; 9] 0x8000FFE 2 st) (fun '(r, dst', st') =>
  length dst' = 4%nat /\ (r = inl 0 -> getz dst' 1 = vmem st d 0x8000FFF))).
Proof.
  eapply returns_mono; [apply demo_user_rw|]. intros [[d f] st] (Hwf & Hd & _ & _ & _ & Hrun & _).
  eapply returns_mono; [apply (copy_from_user_correct st {[d]} d [9; 9; 9; 9] 0x8000FFE 2 Hwf Hrun); [lia|simpl; lia]|].
  intros [[r dst'] st'] (_ & Hl & _ & Hr). split; [exact Hl|]. intros ->. destruct Hr as [(_ & _ & Hv)|(? & _)]; [|discriminate]. apply (Hv 1). lia.
Defined.

Lemma strncpy_from_user_correct_witness : returns (demo_map true 7) (fun '(d, f, st) =>
  returns (strncpy_from_user (replicate 8 9) 0x8000010 8 st) (fun '(r, dst', st') => length dst' = 8%nat)).
Proof.
  eapply returns_mono; [apply demo_user_rw|]. intros [[d f] st] (Hwf & Hd & _ & _ & _ & Hrun & _).
  eapply returns_mono; [apply (strncpy_from_user_correct st {[d]} d (replicate 8 9) 0x8000010 8 Hwf Hrun); [lia|lia|simpl; lia]|].
  intros [[r dst'] st'] (_ & Hl & _). exact Hl.
Defined.

Lemma fork_makes_writable_witness : returns (demo_map true 5) (fun '(d, f, st) => uwrite st d 0x8000 = false /\
  returns (fork_directory d st) (fun '(c, st') => c <> 0 -> pavail (pages st') <> 0 -> uwrite st' d 0x8000 = true)).
Proof.
  eapply returns_mono; [apply demo_user_ro|]. intros [[d f] st] (Hwf & Hd & Hh & Hl & Hm).
  assert (uwrite st d 0x8000 = false) as Hw by (unfold uwrite; rewrite Hm; reflexivity). split; [exact Hw|].
  apply (fork_makes_writable st {[d]} d 0x8000 Hwf Hh Hd Hl); [lia| |exact Hw]. unfold umapped. by rewrite Hm.
Defined.

Lemma write_through_cow_witness : returns (demo_fork false) (fun '(d, f, c, st) => returns (mmu_write d 0x8000010 7 st) (fun '(how, st') =>
  how = Resume /\ (bytes ← frames st' !! f; getz bytes 0x10) = Some 7 /\ utrans st' c 0x8000 = Some (f, 0x205))).
Proof.
  eapply returns_mono; [apply (demo_forked false); by vm_compute|]. intros [[[d f] c] st] (D & Hwf & Hd & Hc & _ & Hwp & Hm & Hm').
  apply (write_through_cow st D d 0x8000010 7 f 0x205 c 0x8000 0x205 Hwf Hd Hc); [lia|exact Hwp|exact Hm|exact Hm'].
Defined.
